(* ===== verification/_CoqProject ===== *)
-Q . S2P
Prelude.v
Transaction.v
TimeManager.v
Hardfork.v
Block.v
Rlp.v
RlpSample.v
Fees.v
Snapshots.v
PoolTx.v
PendingTxs.v
ReadyTxs.v
TxIterator.v
Pool.v
PoolInv.v
PoolProps.v
Db.v
BlockStates.v
Validator.v
Executor.v
Chain.v
Cheats.v
Node.v
Backend.v
BackendProps.v
NodeProps.v
NodeSample.v
Estimate.v
Api.v
ApiProps.v
ApiSample.v
PubSub.v
PubSubProps.v
Service.v
ServiceProps.v
FeeHistory.v
ServiceSample.v
MultiFork.v
ForkBackend.v
ForkBackendProps.v
ForkSample.v
Expect.v
Mapping.v
Cheatcodes.v
CheatHooks.v
ExpectProps.v
CheatProps.v
CheatSample.v
RemoteDb.v
RemoteDbProps.v
ForkedDb.v
RemoteSample.v
FuzzInt.v
FuzzIntProps.v
Fuzz.v
FuzzProps.v
Invariant.v
InvariantError.v
InvariantProps.v
ShrinkProps.v
InvariantErrorProps.v
FuzzSample.v
CastBase.v
CastBaseProps.v
CastSimple.v
CastProps.v
CastRlp.v
CastSample.v
Trace.v
TraceProps.v
Debug.v
DebugProps.v
TraceSample.v
Coverage.v
CoverageProps.v
TestExecutor.v
ForgeRunner.v
ForgeProps.v
Link.v
InlineConfig.v
