(* ===== verification/Prelude.v ===== *)
(** * A verified model of the anvil node, of forge's test engine and of cast

    The repository is a fork of foundry, a tool chain for Ethereum smart
    contracts.  This library models the parts of it that have to get something
    right: [anvil], the local development node (src/anvil); the test engine of
    src/evm, that is the database with forks and snapshots that test contracts
    run on, the cheatcodes they call, the fuzzer that calls them, and the
    traces, debugger and coverage that record them; the runner of [forge]
    (src/forge) with its linker and inline configuration; and the conversions
    of [cast] (src/cast).

    ** The program

    A node accepts transactions over RPC, keeps them in a pool, and mines them
    into blocks on a local chain, on which it answers queries.

    - The RPC layer (src/anvil/src/eth/api.rs) turns a request into a typed
      transaction, signs it or marks it as impersonated, validates it against
      the sender's account and derives its _markers_: the transaction with
      nonce n of a sender provides the marker (n, sender) and requires
      (n - 1, sender) unless nonce n - 1 is on chain already.
    - The pool (src/anvil/src/eth/pool) holds transactions whose required
      marker nobody provides yet (_pending_) and those that can be mined
      (_ready_), and promotes, replaces and prunes them as markers appear.
    - The miner takes the ready transactions in priority order and has the
      backend (src/anvil/src/eth/backend/mem) mine them: the clock gives the
      timestamp, the executor validates and runs every transaction on the
      database, the block is stored in the chain, the base fee of the next
      block is computed, and the pool is told what was included.
    - Historic states, snapshots and the chain storage serve the queries at
      past heights and [evm_snapshot]/[evm_revert].
    - A background service (src/anvil/src/service.rs) polls the miner, the
      block producer, the fee history and the filters; subscriptions and
      filters are notified of every block.
    - Tests of forge run on a backend (src/evm/src/executor/backend) that is
      in memory or one of several forks of remote chains, which a handler
      (src/evm/src/executor/fork/multi.rs) establishes; what a fork reads is
      fetched once by another handler and kept (fork/backend.rs).
    - The cheatcode inspector (src/evm/src/executor/inspector/cheatcodes)
      watches every call, creation, instruction and log of a test and carries
      out its cheatcodes: pranks, broadcasts, expected reverts, events and
      calls, mocks, records and forks.
    - The fuzzer (src/evm/src/fuzz) generates arguments and sequences of calls
      from random values and from a dictionary that it fills from the state,
      looks for a failing input or a broken invariant, and shrinks it.
    - Three more inspectors record what the EVM does: the tracer (src/evm/src/
      trace) the tree of calls, the debugger (evm/src/debug.rs) every
      instruction with its stack, the coverage collector (evm/src/coverage)
      how often each instruction ran.
    - The runner of forge (src/forge/src) links the contracts of a project to
      their libraries, deploys each test contract with an executor
      (evm/src/executor/mod.rs), calls its [setUp], and runs its unit, fuzz and
      invariant tests in parallel on clones of the executor, with the options
      that their documentation sets.
    - The conversions of cast (src/cast/src) turn numbers, units, words, bases
      and RLP from one text into another.

    ** The files

    Each file models the source named; operations keep the source's names,
    and a struct is a record with its fields.

    - Prelude: machine integers with their checked, saturating and wrapping
      operations, the monad [exec] of code that may panic, [result], hash-map
      iteration orders ([HashIter]), shared lemmas, tactics and hints.
    - Transaction: core/src/eth/transaction/mod.rs, sign.rs.  Transaction
      types, requests and their conversion, impersonated transactions, the
      environment of the EVM.
    - Rlp: core/src/eth/transaction/mod.rs, block.rs, receipt.rs, utils.rs.
      The wire format of transactions, headers, blocks and receipts;
      RlpSample: RLP itself as an instance of the library it uses.
    - TimeManager: backend/time.rs.  The block clock.
    - Hardfork: hardfork.rs, eth/util.rs.  Hardforks, fork ids, specs.
    - Block: core/src/eth/block.rs, receipt.rs.  Headers, blocks, receipts.
    - Fees: eth/fees.rs.  Base fee, fee history, fee fields of requests.
    - Snapshots: evm/src/executor/snapshot.rs, mem/in_memory_db.rs.
    - PoolTx, PendingTxs, ReadyTxs, TxIterator, Pool:
      pool/transactions.rs, pool/mod.rs.  Markers and priorities, the two
      queues, the iterator of the miner, the pool.
    - PoolInv, PoolProps: the invariant of the pool, its operations as a step
      relation, and what holds of every pool the node can reach.
    - Db: backend/db.rs, evm/src/executor/backend/snapshot.rs.  The [Db]
      trait (a class with its laws) and the cached database.
    - BlockStates, Chain: mem/storage.rs.  Historic states; the chain.
    - Validator, Backend, Node: mem/mod.rs.  Validation, the state of the
      node with its queries, mining and snapshots.
    - Executor: backend/executor.rs.  One block's transactions.
    - Cheats: backend/cheats.rs.  Impersonation.
    - Estimate: eth/api.rs, mem/mod.rs.  Calls on a state, gas estimation.
    - BackendProps, NodeProps: the invariant of the node and what mining,
      reverting and the queries do; NodeSample: a concrete node on which the
      theorems are instantiated.
    - Api: eth/api.rs, eth/sign.rs.  Submitting, signing, mining, snapshots,
      the clock and the pool over RPC; ApiProps: the node refines a ledger of
      submitted and mined transactions; ApiSample: a concrete instance.
    - PubSub: pubsub.rs, filter.rs, backend/info.rs.  Filters and
      subscriptions; PubSubProps: what they deliver.
    - Service: miner.rs, service.rs, fees.rs.  The background service;
      ServiceProps: it empties the pool; FeeHistory: eth_feeHistory in
      eth/api.rs; ServiceSample: both on the concrete node.
    - MultiFork: evm/src/executor/fork/multi.rs.  The fork handler.
    - ForkBackend: evm/src/executor/backend/mod.rs, snapshot.rs.  The test
      backend; ForkBackendProps: its bookkeeping, isolation and snapshots;
      ForkSample: forks of a toy chain.
    - Expect: cheatcodes/expect.rs, evm/.../mod.rs, utils/src/error.rs.
      Expected reverts, events and calls, mocks; Mapping:
      cheatcodes/mapping.rs, the record of mapping slots; Cheatcodes:
      cheatcodes/mod.rs, env.rs, expect.rs, fork.rs, snapshot.rs, fuzz.rs,
      util.rs, the state of the inspector and the cheatcodes; CheatHooks:
      cheatcodes/mod.rs, inspector/stack.rs, what the inspector does around
      calls, creations, instructions and logs.  ExpectProps, CheatProps: their
      theorems; CheatSample: a test that uses them.
    - RemoteDb: fork/backend.rs, fork/cache.rs.  The handler that fetches
      remote state; RemoteDbProps: it answers every request; ForkedDb:
      fork/database.rs, mem/fork_db.rs, the forked database on top of it;
      RemoteSample: a toy endpoint.
    - FuzzInt: fuzz/strategies/uint.rs, int.rs.  Integers and their
      shrinking; FuzzIntProps.  Fuzz: strategies/param.rs, calldata.rs,
      state.rs.  Arguments, call data and the dictionary; FuzzProps.
      Invariant: fuzz/invariant/executor.rs, mod.rs, filters.rs,
      strategies/invariants.rs.  Invariant tests; InvariantProps.
      InvariantError: fuzz/invariant/error.rs, call_override.rs, fuzz/mod.rs,
      inspector/fuzzer.rs.  Fuzz tests, replays and shrinking; ShrinkProps,
      InvariantErrorProps.  FuzzSample: strategies as sets and a toy EVM.
    - Trace: evm/src/trace/mod.rs, node.rs, inspector/tracer.rs, utils.rs,
      mem/storage.rs.  The arena of calls, the tracer, parity and geth traces;
      TraceProps.  Debug: evm/src/debug.rs, inspector/debugger.rs; DebugProps.
      TraceSample: one traced and debugged execution.
    - Coverage: evm/src/coverage/mod.rs, anchors.rs, inspector/coverage.rs,
      forge's collection and reports.  CoverageProps.
    - TestExecutor: evm/src/executor/mod.rs, builder.rs.  Calls of a test and
      the verdict on them.  ForgeRunner: forge/src/runner.rs, multi_runner.rs,
      result.rs.  The tests of a contract and of a project.  ForgeProps:
      verdicts and the order of tests, and a toy EVM with one function per behaviour.
    - Link: utils/src/lib.rs, forge/src/multi_runner.rs.  Linking of libraries
      and its theorems.
    - InlineConfig: config/src/inline, fuzz.rs, invariant.rs, forge/src/lib.rs.
      Options in the documentation of a test, and the theorems on them.
    - CastBase: cast/src/base.rs.  Numbers and bases; CastBaseProps: numerals,
      written and read back.  CastSimple: cast/src/lib.rs.  The conversions and
      the search for a selector; CastProps.  CastRlp: rlp_converter.rs.
      CastSample: the text of 256-bit numbers.

    ** Interfaces

    Code that is not in the repository enters through classes or arguments,
    with the documented behaviour the program relies on as laws where a
    theorem needs them, and concrete instances that show the laws can hold:
    the EVM ([Evm]), the hashes and the recovery of signers ([Hashing] and
    arguments of Transaction), a database ([DbOps] with [DbLaws]), the state
    files of the disk cache ([StateStore]), the order of hash-map iteration
    ([HashIter]), channels ([Channel], [BlockChannel]), bloom matching
    ([LogFilter]), the codecs of the [rlp] and [ethers] libraries ([RlpLib]),
    the discriminants of revm's [SpecId] ([SpecIdOrder]), remote chains
    ([ForkNet], [RemoteLib]), revm's journaled state, account cache and
    interpreter ([RevmData], [Revm], [CacheReads], [EvmLib]), the ABI codecs
    ([Abi], [FuzzLib]), keys and files of the cheatcodes ([CheatLib]), the
    combinators of proptest ([Proptest] with [ProptestLaws]), the executor
    that fuzz tests call ([FuzzEvm]), the opcodes and addresses that the tracer
    asks for ([TraceLib]), the database and the inspected calls of an executor
    ([TestEvm], [TestAbi]), the fuzzer and the invariant tester as the runner
    calls them ([ForgeTypes], [ForgeLib]), placeholders in a code ([LinkLib] with
    [LinkLaws]), and the text of 256-bit numbers and hex ([U256Text] with
    [U256TextLaws], [CastLib] with [HexLaws], [RlpList] with [RlpListLaws]).

    The pool's theorems are proved against the class [Universe]: every
    transaction provides one marker and requires at most one, of a smaller
    rank, both fixed by its hash.  The markers of the RPC layer are an instance
    (PoolProps); a transaction that is submitted again after the sender's nonce
    has changed may require less than before, and for it the iteration of the
    miner behaves differently ([resubmitted_yielded_twice]).

    ** What is proved

    - The chain: mining extends it by one block on the old head with a later
      timestamp and the EIP-1559 base fee, keeps everything before it and
      makes the block's transactions and receipts available; the state before
      the block stays readable; reverting to a snapshot brings chain and
      database back; tags and numbers agree; an empty block can always be
      mined.
    - The pool: no reachable pool panics and every loop ends; no transaction
      is in both queues, none that could be mined waits; the miner sees every
      ready transaction once, dependencies first and by priority, as long as no
      transaction comes back with other requirements; what submitting, dropping and mining do to the content of the pool, errors
      included.
    - Validation and execution: exactly which transactions pass the validation
      that pool and executor share; a block holds exactly the executed
      transactions in order, with matching receipts.
    - Clock, fees, snapshots, historic states, database dumps, hardforks,
      impersonation: the functional behaviour of each on every branch, with
      the arithmetic at its width.
    - Encoding: transactions, headers, blocks and receipts decode to
      themselves.
    - The whole node: the RPC operations refine an abstract ledger, only
      submitted transactions are mined, and polling the service hands every
      ready transaction to the miner; filters and subscriptions deliver the logs and
      blocks of the chain once.
    - Forks: every request for a fork is answered, all with the same
      connection; the bookkeeping of forks, their rolling and the replay of
      remote transactions do not panic while the forks differ and numbers fit
      64 bits; accounts that are not persistent stay with their fork; a snapshot
      brings fork, accounts and environment back.  Remote state: while the block
      stays pinned, every request is answered once and with one call of the
      endpoint per value, and for a lone reader the handler is a read through
      what was fetched.
    - Cheatcodes: which calls an expected revert makes succeed, that pranks
      end with the call they are for, when expected events and calls count as
      met, which mock is used, and that restricted memory is enforced.
    - Fuzzing: generated call data are exactly the well-typed ones within the
      lengths that the strategies draw, and generating them does not panic;
      shrinking ends with the simplest failing integer, and with the calls that
      make an invariant revert; generated calls respect the filters; without
      overridden inner calls a broken invariant comes with calls that break it.
    - Recording: the tracer leaves exactly the tree of calls that ran, with its
      logs and its steps up to their storage change, and the traces served from
      it are those calls with their addresses; the steps of
      the debugger are the execution in order; the hits of a coverage item are
      the executed instructions at its anchors, over all tests.
    - Test runs: a test passes exactly when its call ended as its name asks,
      no assertion failed and no reverted snapshot did; while no test fails in a
      snapshot, the results of a contract do not depend on the order in which its
      unit and fuzz tests run.  Libraries are
      deployed once, before their users, at the addresses that were linked.
      Lines of inline configuration set exactly the options they name.
    - Conversions: every number in the signed range written in a base is read
      back, fixed-point texts denote the value exactly, the search for a selector
      returns a signature that has the prefix.
    - The behaviours in which the program departs from what it means to do,
      as theorems about the same definitions.

    ** Modelling choices

    Integers are [Z] with their width as explicit bounds ([is_u64],
    [is_u256]) and the operation's wrapping, saturation or panic written out;
    [f64] is the Standard Library's binary64 (SpecFloat).  Hashes and
    addresses are integers.  A panic is a value of [exec], so a theorem that
    ends in [Ret] says that the code does not panic.  Arithmetic that overflows
    panics, as in builds with overflow checks; the nonce of cast's selector
    search, for which release builds matter, has both behaviours ([advance] with
    a flag).  What the fuzzer's call generator draws for inner calls while an
    invariant test runs with [call_override] is an argument of the test.  The
    parallel tests of a contract are run one after another in any order.  Locks are held for one
    operation at a time, so an operation is a function of the whole state and
    concurrent calls are sequences of operations.

    Loops that are not structural take a fuel that the callers compute from
    the state: the size of the ready queue for [remove_with_markers] and
    [prune_tags] (every turn that costs fuel removes a ready transaction), the
    number of waiting transactions plus one for the promotion loop, the length
    of the independent set for the iterator's search for a next transaction, a
    power of two above the number of paths along the links of the ready queue
    for the whole iteration ([path_bound]: stale links may yield a transaction
    more than once), the length of the history for
    [enforce_limits], the square of the number of calls for [try_shrinking],
    258 rounds for an integer (its interval halves every round), the length of
    the arena for the descent of the tracer and of the debugger, the length of
    the code for the walk over its instructions, 255 digits for a number in any
    base.  Running out is a panic or [None], and the theorems show that it does
    not happen.  The recursion of the linker is bounded by the stack alone: its
    fuel is an argument, a project without cycles links with as much as its
    longest chain of libraries, and one with a cycle never does (Link).

    ** What is not modelled

    The EVM and the tries (libraries); the node's client of a remote chain and
    its caches, whose answers are arguments of the node; the cheatcodes that
    read files, run processes, parse JSON and use keys; the decoding of traces
    and the drawing of their tree; the walk over the compiler's syntax tree that
    finds coverage items and the documentation of tests; the RPC types and
    server, wakers and timers.  Of cast, ABI coding, the disassembler and the
    requests that are passed to a node.  Outside these parts: command lines, gas
    reports, chisel, the formatter, the documentation generator, the terminal
    interface, generated bindings, and the reading of configuration files, which
    are front ends, printers or glue around files and other packages. *)
From Stdlib Require Import ZArith Lia Ascii.
From stdpp Require Export sorting.
From stdpp Require Export base list gmap strings.
Open Scope Z_scope.

(** ** Notations for the primitive types of the program

    Hashes and addresses ([H256], [H160]) are only compared, hashed and
    stored, so they are the integers their bytes denote. *)
Abbreviation H256 := Z (only parsing).
Abbreviation TxHash := Z (only parsing).
Abbreviation Address := Z (only parsing).
Abbreviation byte := Z (only parsing).

(** ** Machine integers *)
Definition U64_MAX : Z := 2 ^ 64 - 1.
Definition U128_MAX : Z := 2 ^ 128 - 1.
Definition I128_MAX : Z := 2 ^ 127 - 1.
Definition I128_MIN : Z := - 2 ^ 127.
Definition U256_MAX : Z := 2 ^ 256 - 1.

Definition is_u64 (x : Z) : Prop := 0 <= x <= U64_MAX.
Definition is_i128 (x : Z) : Prop := I128_MIN <= x <= I128_MAX.
Definition is_u256 (x : Z) : Prop := 0 <= x <= U256_MAX.

#[export] Instance is_u64_dec x : Decision (is_u64 x).
Proof. unfold is_u64. apply _. Defined.
#[export] Instance is_u256_dec x : Decision (is_u256 x).
Proof. unfold is_u256. apply _. Defined.

(** [saturate lo hi x] is what the saturating operations of a type with the
    bounds [lo] and [hi] return for the exact result [x]. *)
Definition saturate (lo hi x : Z) : Z := Z.max lo (Z.min hi x).
Definition u64_saturating_add (a b : Z) : Z := saturate 0 U64_MAX (a + b).
Definition u64_saturating_sub (a b : Z) : Z := saturate 0 U64_MAX (a - b).
Definition i128_saturating_add (a b : Z) : Z := saturate I128_MIN I128_MAX (a + b).
Definition u256_saturating_add (a b : Z) : Z := saturate 0 U256_MAX (a + b).
Definition u256_saturating_sub (a b : Z) : Z := saturate 0 U256_MAX (a - b).
Definition u256_saturating_mul (a b : Z) : Z := saturate 0 U256_MAX (a * b).
Definition u256_checked_add (a b : Z) : option Z :=
  if decide (a + b <= U256_MAX) then Some (a + b) else None.
Definition u64_wrapping_add (a b : Z) : Z := (a + b) mod 2 ^ 64.

(** An [as u64] cast keeps the low 64 bits, of negative values too. *)
Definition as_u64 (x : Z) : Z := x mod 2 ^ 64.

(** ** Results and panics

    [result] is Rust's [Result]; [exec] is a computation that returns or
    panics (a failed [assert!], [expect], [unwrap], an arithmetic overflow or
    a division by zero). *)
Inductive result (A E : Type) : Type :=
| Ok (a : A)
| Err (e : E).
Arguments Ok {A E} a.
Arguments Err {A E} e.

Inductive exec (A : Type) : Type :=
| Ret (a : A)
| Panic (why : string).
Arguments Ret {A} a.
Arguments Panic {A} why.

#[export] Instance exec_ret : MRet exec := fun A a => Ret a.
#[export] Instance exec_bind : MBind exec := fun A B f m =>
  match m with Ret a => f a | Panic w => Panic w end.

#[export] Instance exec_fmap : FMap exec := fun A B f m =>
  match m with Ret a => Ret (f a) | Panic w => Panic w end.

Definition is_ok {A E} (r : result A E) : bool :=
  match r with Ok _ => true | Err _ => false end.

(** [assert! c w; k]: the guard of an [assert!]. *)
Definition assert (c : bool) (why : string) : exec unit :=
  if c then Ret tt else Panic why.

(** [Option::expect] and [Option::unwrap]. *)
Definition expect {A} (o : option A) (why : string) : exec A :=
  match o with Some a => Ret a | None => Panic why end.

(** Addition that panics on overflow, as the checked builds of the program
    and [U256]'s operators do. *)
Definition u64_add (a b : Z) : exec Z :=
  if decide (a + b <= U64_MAX) then Ret (a + b) else Panic "overflow".
Definition u64_sub (a b : Z) : exec Z :=
  if decide (b <= a) then Ret (a - b) else Panic "overflow".
Definition u256_add (a b : Z) : exec Z :=
  if decide (a + b <= U256_MAX) then Ret (a + b) else Panic "arithmetic operation overflow".
Definition u256_mul (a b : Z) : exec Z :=
  if decide (a * b <= U256_MAX) then Ret (a * b) else Panic "arithmetic operation overflow".

(** [U256::as_u64] panics on values that do not fit. *)
Definition u256_as_u64 (a : Z) : exec Z :=
  if decide (a <= U64_MAX) then Ret a else Panic "Integer overflow when casting to u64".

Definition checked_div (a b : Z) : exec Z :=
  if decide (b = 0) then Panic "attempt to divide by zero" else Ret (a / b).

(** ** Vectors *)

(** [Vec::pop]: the last element and the rest. *)
Fixpoint vec_pop {A} (l : list A) : option (A * list A) :=
  match l with
  | [] => None
  | x :: l' =>
      match vec_pop l' with
      | None => Some (x, [])
      | Some (y, r) => Some (y, x :: r)
      end
  end.

(** [iter().position(|i| i == x)] *)
Fixpoint position {A} `{EqDecision A} (x : A) (l : list A) : option nat :=
  match l with
  | [] => None
  | y :: l' => if decide (y = x) then Some 0%nat else S <$> position x l'
  end.

(** [Vec::swap_remove]: removes the element at [i] and puts the last element
    in its place. *)
Definition swap_remove {A} (i : nat) (l : list A) : list A :=
  match vec_pop l with
  | None => l
  | Some (y, r) => if decide (i = length r) then r else <[i := y]> r
  end.

(** A [for] loop whose body updates the state [b] and may panic. *)
Fixpoint foldM {A B} (f : B -> A -> exec B) (b : B) (l : list A) : exec B :=
  match l with
  | [] => Ret b
  | x :: l' => b' ← f b x; foldM f b' l'
  end.

(** The iteration order of a [HashSet] or [HashMap] is unspecified: any
    enumeration of the elements. *)
Class HashIter (A : Type) `{Countable A} := {
  hash_iter : gset A -> list A;
  hash_iter_perm s : hash_iter s ≡ₚ elements s }.
#[export] Instance hash_iter_elements A `{Countable A} : HashIter A | 100 :=
  {| hash_iter := elements; hash_iter_perm s := reflexivity _ |}.

(** ** Strings *)

(** [str::to_lowercase] on the ASCII letters; no other character has a
    lower-case form among the letters the program compares with. *)
Definition ascii_lower (c : ascii) : ascii :=
  let n := nat_of_ascii c in
  if (65 <=? n)%nat && (n <=? 90)%nat then ascii_of_nat (n + 32) else c.
Fixpoint to_lowercase (s : string) : string :=
  match s with
  | EmptyString => EmptyString
  | String c s' => String (ascii_lower c) (to_lowercase s')
  end.

(** A [match] on string literals. *)
Fixpoint assoc_str {A} (s : string) (l : list (string * A)) : option A :=
  match l with
  | [] => None
  | (k, v) :: l' => if String.eqb s k then Some v else assoc_str s l'
  end.

(** ** Automation *)
Create HintDb anvil discriminated.

Ltac unfold_bounds :=
  unfold is_u64, is_i128, is_u256, U64_MAX, U128_MAX, I128_MAX, I128_MIN, U256_MAX in *.
Ltac unfold_words :=
  unfold u64_saturating_add, u64_saturating_sub, i128_saturating_add,
    u256_saturating_add, u256_saturating_sub, u256_saturating_mul,
    u256_checked_add, saturate, as_u64 in *; unfold_bounds.
(** Arithmetic on machine integers: unfold the bounds and decide. *)
Ltac word_lia := unfold_words; lia.

(** Case analysis on the next [match] of a hypothesis or the goal, with the
    contradictions removed. *)
Ltac step_match :=
  match goal with
  | H : context [match ?x with _ => _ end] |- _ => destruct x eqn:?; simplify_eq/=
  | |- context [match ?x with _ => _ end] => destruct x eqn:?; simplify_eq/=
  end.

Lemma exec_bind_Ret {A B} (m : exec A) (f : A -> exec B) b :
  m ≫= f = Ret b <-> exists a, m = Ret a /\ f a = Ret b.
Proof. destruct m; simpl; [|split; [done|by intros (?&?&?)]]. naive_solver. Qed.

Lemma assert_Ret c w u : assert c w = Ret u <-> c = true.
Proof. unfold assert. destruct u, c; naive_solver. Qed.

Lemma expect_Ret {A} (o : option A) w a : expect o w = Ret a <-> o = Some a.
Proof. unfold expect. destruct o; naive_solver. Qed.

(** ** Lemmas on vectors *)
Lemma vec_pop_snoc {A} (l : list A) x : vec_pop (l ++ [x]) = Some (x, l).
Proof. induction l as [|y l IH]; simpl; [done|]. by rewrite IH. Qed.

Lemma vec_pop_Some {A} (l : list A) x r : vec_pop l = Some (x, r) <-> l = r ++ [x].
Proof.
  split; [|intros ->; apply vec_pop_snoc].
  destruct l as [|y l _] using rev_ind; [done|].
  rewrite vec_pop_snoc. naive_solver.
Qed.

Lemma vec_pop_None {A} (l : list A) : vec_pop l = None <-> l = [].
Proof.
  destruct l as [|y l _] using rev_ind; [done|]. rewrite vec_pop_snoc.
  split; [done|]. by intros [_ ?]%app_nil.
Qed.

Lemma position_Some {A} `{EqDecision A} (x : A) l i :
  position x l = Some i -> l !! i = Some x.
Proof.
  revert i. induction l as [|y l IH]; intros i; simpl; [done|].
  case_decide; [naive_solver|].
  rewrite fmap_Some. intros (j & Hj & ->). by apply IH.
Qed.

Lemma position_None {A} `{EqDecision A} (x : A) l : position x l = None <-> x ∉ l.
Proof.
  induction l as [|y l IH]; simpl; [set_solver|].
  case_decide; [set_solver|]. rewrite fmap_None, IH. set_solver.
Qed.

Lemma swap_remove_perm {A} (l : list A) i x :
  l !! i = Some x -> l ≡ₚ x :: swap_remove i l.
Proof.
  destruct l as [|y l _] using rev_ind; [done|]. intros Hi.
  unfold swap_remove. rewrite vec_pop_snoc. case_decide as Hd.
  - subst i. rewrite list_lookup_middle in Hi by done. simplify_eq.
    by rewrite Permutation_app_comm.
  - assert (i < length l)%nat as Hlt.
    { apply lookup_lt_Some in Hi. rewrite length_app in Hi. simpl in Hi. lia. }
    rewrite lookup_app_l in Hi by done.
    rewrite <- (take_drop_middle l i x Hi) at 1.
    rewrite insert_take_drop by done.
    rewrite <- !app_assoc. simpl. rewrite <- (Permutation_middle (take i l)), <- (Permutation_middle (take i l)).
    apply perm_skip. rewrite (Permutation_app_comm (drop (S i) l) [y]), (Permutation_middle (take i l)). done.
Qed.

Lemma swap_remove_app {A} (l1 l2 : list A) (x : A) :
  exists l2', swap_remove (length l1) (l1 ++ x :: l2) = l1 ++ l2' /\ l2' ≡ₚ l2.
Proof.
  destruct l2 as [|y l2 _] using rev_ind.
  - exists []. split; [|done]. unfold swap_remove. rewrite vec_pop_snoc. rewrite decide_True by done. by rewrite app_nil_r.
  - exists (y :: l2). split; [|by rewrite Permutation_app_comm]. unfold swap_remove.
    rewrite app_comm_cons, app_assoc, vec_pop_snoc.
    rewrite decide_False by (rewrite length_app; simpl; lia).
    rewrite insert_app_r_alt by done. by rewrite Nat.sub_diag.
Qed.

Lemma elem_of_swap_remove {A} (l : list A) i x y :
  l !! i = Some x -> y ∈ l <-> y = x \/ y ∈ swap_remove i l.
Proof.
  intros Hi. pose proof (swap_remove_perm l i x Hi) as Hp.
  rewrite <- elem_of_cons. split; intros H; [by rewrite <- Hp|by rewrite Hp].
Qed.

Lemma Forall_filter {A} (P Q : A -> Prop) `{forall x, Decision (Q x)} (l : list A) :
  Forall P l -> Forall P (filter Q l).
Proof.
  induction 1 as [|x l Hx _ IH]; [constructor|]. rewrite filter_cons.
  case_decide; [by constructor|done].
Qed.

Lemma elem_of_hash_iter `{HashIter A} (s : gset A) x : x ∈ hash_iter s <-> x ∈ s.
Proof. by rewrite hash_iter_perm, elem_of_elements. Qed.

Lemma NoDup_hash_iter `{HashIter A} (s : gset A) : NoDup (hash_iter s).
Proof. rewrite hash_iter_perm. apply NoDup_elements. Qed.

(** A loop whose body never panics and maintains [I] (indexed by the elements
    still to come) returns and establishes [I []]. *)
Lemma foldM_inv {A B} (I : list A -> B -> Prop) (f : B -> A -> exec B) l b :
  (forall x l b, I (x :: l) b -> exists b', f b x = Ret b' /\ I l b') ->
  I l b -> exists b', foldM f b l = Ret b' /\ I [] b'.
Proof.
  intros Hf. revert b. induction l as [|x l IH]; intros b Hb; simpl; [by exists b|].
  destruct (Hf _ _ _ Hb) as (b' & -> & Hb'). simpl. by apply IH.
Qed.

(** ** Lemmas on strings *)
Lemma assoc_str_Some {A} s (l : list (string * A)) v :
  NoDup l.*1 -> assoc_str s l = Some v <-> (s, v) ∈ l.
Proof.
  induction l as [|[k w] l IH]; simpl; [set_solver|].
  intros [Hk Hnd]%NoDup_cons. rewrite elem_of_cons.
  destruct (String.eqb_spec s k) as [->|Hne]; [|rewrite IH by done; naive_solver].
  split; [intros [= ->]; by left|]. intros [[= ->]|Hin]; [done|].
  exfalso. apply Hk. apply list_elem_of_fmap. by exists (k, v).
Qed.

Lemma ascii_lower_idemp c : ascii_lower (ascii_lower c) = ascii_lower c.
Proof. destruct c as [[] [] [] [] [] [] [] []]; reflexivity. Qed.

Lemma to_lowercase_idemp s : to_lowercase (to_lowercase s) = to_lowercase s.
Proof. induction s as [|c s IH]; simpl; [done|]. by rewrite IH, ascii_lower_idemp. Qed.
