(* ===== verification/Transaction.v ===== *)
(** * Transactions (anvil/core/src/eth/transaction/mod.rs, anvil/src/eth/sign.rs)

    The three transaction types, the accessors the pool, the validator and the
    executor use, the conversion of RPC requests, and the environment handed
    to the EVM.  [U256] and [u64] fields are [Z]; [H256] values are the
    integers their big-endian bytes denote, so [U256::from_big_endian] and
    [to_big_endian] on them are the identity.  Hashing ([keccak256] of the RLP
    encoding) and signature recovery are library code and enter as
    arguments. *)
From S2P Require Import Prelude.
Open Scope Z_scope.

Record Signature := { sig_r : Z; sig_s : Z; sig_v : Z }.
#[export] Instance Signature_eq_dec : EqDecision Signature.
Proof. solve_decision. Defined.

Definition IMPERSONATED_SIGNATURE : Signature := {| sig_r := 0; sig_s := 0; sig_v := 0 |}.

Record AccessListItem := { item_address : Address; storage_keys : list H256 }.
#[export] Instance AccessListItem_eq_dec : EqDecision AccessListItem.
Proof. solve_decision. Defined.

Inductive TransactionKind :=
| Call (to : Address)
| Create.
#[export] Instance TransactionKind_eq_dec : EqDecision TransactionKind.
Proof. solve_decision. Defined.

Definition as_call (k : TransactionKind) : option Address :=
  match k with Call to => Some to | Create => None end.

Module LegacyTransaction.
Record t := mk {
  nonce : Z; gas_price : Z; gas_limit : Z; kind : TransactionKind; value : Z;
  input : list byte; signature : Signature }.
#[global] Instance t_eq_dec : EqDecision t.
Proof. solve_decision. Defined.

Definition chain_id (tx : t) : option Z :=
  if decide (36 < sig_v (signature tx)) then Some ((sig_v (signature tx) - 35) / 2) else None.

Definition meets_eip155 (tx : t) (chain_id : Z) : exec bool :=
  let double_chain_id := saturate 0 U64_MAX (chain_id * 2) in
  let v := sig_v (signature tx) in
  a ← u64_add double_chain_id 35;
  if decide (v = a) then Ret true
  else b ← u64_add double_chain_id 36; Ret (bool_decide (v = b)).
End LegacyTransaction.

Module EIP2930Transaction.
Record t := mk {
  chain_id : Z; nonce : Z; gas_price : Z; gas_limit : Z; kind : TransactionKind; value : Z;
  input : list byte; access_list : list AccessListItem; odd_y_parity : bool; r : H256; s : H256 }.
#[global] Instance t_eq_dec : EqDecision t.
Proof. solve_decision. Defined.
End EIP2930Transaction.

Module EIP1559Transaction.
Record t := mk {
  chain_id : Z; nonce : Z; max_priority_fee_per_gas : Z; max_fee_per_gas : Z; gas_limit : Z;
  kind : TransactionKind; value : Z; input : list byte; access_list : list AccessListItem;
  odd_y_parity : bool; r : H256; s : H256 }.
#[global] Instance t_eq_dec : EqDecision t.
Proof. solve_decision. Defined.
End EIP1559Transaction.

Inductive TypedTransaction :=
| Legacy (tx : LegacyTransaction.t)
| EIP2930 (tx : EIP2930Transaction.t)
| EIP1559 (tx : EIP1559Transaction.t).
#[export] Instance TypedTransaction_eq_dec : EqDecision TypedTransaction.
Proof. solve_decision. Defined.

Record TransactionEssentials := {
  ess_kind : TransactionKind; ess_input : list byte; ess_nonce : Z; ess_gas_limit : Z;
  ess_gas_price : option Z; ess_max_fee_per_gas : option Z;
  ess_max_priority_fee_per_gas : option Z; ess_value : Z; ess_chain_id : option Z;
  ess_access_list : list AccessListItem }.

Module TypedTransaction.

Definition gas_price (t : TypedTransaction) : Z :=
  match t with
  | Legacy tx => LegacyTransaction.gas_price tx
  | EIP2930 tx => EIP2930Transaction.gas_price tx
  | EIP1559 tx => EIP1559Transaction.max_fee_per_gas tx
  end.

Definition gas_limit (t : TypedTransaction) : Z :=
  match t with
  | Legacy tx => LegacyTransaction.gas_limit tx
  | EIP2930 tx => EIP2930Transaction.gas_limit tx
  | EIP1559 tx => EIP1559Transaction.gas_limit tx
  end.

Definition value (t : TypedTransaction) : Z :=
  match t with
  | Legacy tx => LegacyTransaction.value tx
  | EIP2930 tx => EIP2930Transaction.value tx
  | EIP1559 tx => EIP1559Transaction.value tx
  end.

Definition data (t : TypedTransaction) : list byte :=
  match t with
  | Legacy tx => LegacyTransaction.input tx
  | EIP2930 tx => EIP2930Transaction.input tx
  | EIP1559 tx => EIP1559Transaction.input tx
  end.

Definition type_ (t : TypedTransaction) : option Z :=
  match t with Legacy _ => None | EIP2930 _ => Some 1 | EIP1559 _ => Some 2 end.

Definition max_cost (t : TypedTransaction) : Z :=
  u256_saturating_mul (gas_limit t) (gas_price t).

Definition nonce (t : TypedTransaction) : Z :=
  match t with
  | Legacy tx => LegacyTransaction.nonce tx
  | EIP2930 tx => EIP2930Transaction.nonce tx
  | EIP1559 tx => EIP1559Transaction.nonce tx
  end.

Definition chain_id (t : TypedTransaction) : option Z :=
  match t with
  | Legacy tx => LegacyTransaction.chain_id tx
  | EIP2930 tx => Some (EIP2930Transaction.chain_id tx)
  | EIP1559 tx => Some (EIP1559Transaction.chain_id tx)
  end.

Definition essentials (t : TypedTransaction) : TransactionEssentials :=
  match t with
  | Legacy tx =>
      {| ess_kind := LegacyTransaction.kind tx; ess_input := LegacyTransaction.input tx;
         ess_nonce := LegacyTransaction.nonce tx;
         ess_gas_limit := LegacyTransaction.gas_limit tx;
         ess_gas_price := Some (LegacyTransaction.gas_price tx);
         ess_max_fee_per_gas := None; ess_max_priority_fee_per_gas := None;
         ess_value := LegacyTransaction.value tx;
         ess_chain_id := LegacyTransaction.chain_id tx; ess_access_list := [] |}
  | EIP2930 tx =>
      {| ess_kind := EIP2930Transaction.kind tx; ess_input := EIP2930Transaction.input tx;
         ess_nonce := EIP2930Transaction.nonce tx;
         ess_gas_limit := EIP2930Transaction.gas_limit tx;
         ess_gas_price := Some (EIP2930Transaction.gas_price tx);
         ess_max_fee_per_gas := None; ess_max_priority_fee_per_gas := None;
         ess_value := EIP2930Transaction.value tx;
         ess_chain_id := Some (EIP2930Transaction.chain_id tx);
         ess_access_list := EIP2930Transaction.access_list tx |}
  | EIP1559 tx =>
      {| ess_kind := EIP1559Transaction.kind tx; ess_input := EIP1559Transaction.input tx;
         ess_nonce := EIP1559Transaction.nonce tx;
         ess_gas_limit := EIP1559Transaction.gas_limit tx;
         ess_gas_price := None;
         ess_max_fee_per_gas := Some (EIP1559Transaction.max_fee_per_gas tx);
         ess_max_priority_fee_per_gas := Some (EIP1559Transaction.max_priority_fee_per_gas tx);
         ess_value := EIP1559Transaction.value tx;
         ess_chain_id := Some (EIP1559Transaction.chain_id tx);
         ess_access_list := EIP1559Transaction.access_list tx |}
  end.

Definition as_legacy (t : TypedTransaction) : option LegacyTransaction.t :=
  match t with Legacy tx => Some tx | _ => None end.
Definition is_legacy (t : TypedTransaction) : bool :=
  match t with Legacy _ => true | _ => false end.
Definition is_eip1559 (t : TypedTransaction) : bool :=
  match t with EIP1559 _ => true | _ => false end.

Definition kind (t : TypedTransaction) : TransactionKind :=
  match t with
  | Legacy tx => LegacyTransaction.kind tx
  | EIP2930 tx => EIP2930Transaction.kind tx
  | EIP1559 tx => EIP1559Transaction.kind tx
  end.

Definition to (t : TypedTransaction) : option Address := as_call (kind t).

Definition signature (t : TypedTransaction) : Signature :=
  match t with
  | Legacy tx => LegacyTransaction.signature tx
  | EIP2930 tx =>
      {| sig_r := EIP2930Transaction.r tx; sig_s := EIP2930Transaction.s tx;
         sig_v := Z.b2z (EIP2930Transaction.odd_y_parity tx) |}
  | EIP1559 tx =>
      {| sig_r := EIP1559Transaction.r tx; sig_s := EIP1559Transaction.s tx;
         sig_v := Z.b2z (EIP1559Transaction.odd_y_parity tx) |}
  end.

Definition is_impersonated (t : TypedTransaction) : bool :=
  bool_decide (signature t = IMPERSONATED_SIGNATURE).

End TypedTransaction.

(** ** Requests *)
Module LegacyTransactionRequest.
Record t := mk {
  nonce : Z; gas_price : Z; gas_limit : Z; kind : TransactionKind; value : Z;
  input : list byte; chain_id : option Z }.
End LegacyTransactionRequest.

Module EIP2930TransactionRequest.
Record t := mk {
  chain_id : Z; nonce : Z; gas_price : Z; gas_limit : Z; kind : TransactionKind; value : Z;
  input : list byte; access_list : list AccessListItem }.
End EIP2930TransactionRequest.

Module EIP1559TransactionRequest.
Record t := mk {
  chain_id : Z; nonce : Z; max_priority_fee_per_gas : Z; max_fee_per_gas : Z; gas_limit : Z;
  kind : TransactionKind; value : Z; input : list byte; access_list : list AccessListItem }.
End EIP1559TransactionRequest.

Inductive TypedTransactionRequest :=
| LegacyReq (tx : LegacyTransactionRequest.t)
| EIP2930Req (tx : EIP2930TransactionRequest.t)
| EIP1559Req (tx : EIP1559TransactionRequest.t).

Module EthTransactionRequest.
Record t := mk {
  from : option Address; to : option Address; gas_price : option Z;
  max_fee_per_gas : option Z; max_priority_fee_per_gas : option Z; gas : option Z;
  value : option Z; data : option (list byte); nonce : option Z; chain_id : option Z;
  access_list : option (list AccessListItem); transaction_type : option Z }.
End EthTransactionRequest.

Definition kind_of (to : option Address) : TransactionKind :=
  match to with Some to => Call to | None => Create end.

(** [into_typed_request] first takes the access list out of the request to
    match on it ([access_list.take()]), so the [access_list] that the arms
    read afterwards is [None]: [access_list_left] below. *)
Definition into_typed_request (req : EthTransactionRequest.t)
    : exec (option TypedTransactionRequest) :=
  transaction_type ←
    (match EthTransactionRequest.transaction_type req with
     | Some id => Some <$> u256_as_u64 id
     | None => Ret None
     end);
  let nonce := default 0 (EthTransactionRequest.nonce req) in
  let gas_limit := default 0 (EthTransactionRequest.gas req) in
  let value := default 0 (EthTransactionRequest.value req) in
  let input := default [] (EthTransactionRequest.data req) in
  let kind := kind_of (EthTransactionRequest.to req) in
  let chain_id := EthTransactionRequest.chain_id req in
  let gas_price := EthTransactionRequest.gas_price req in
  let max_fee := EthTransactionRequest.max_fee_per_gas req in
  let max_prio := EthTransactionRequest.max_priority_fee_per_gas req in
  let access_list_taken := EthTransactionRequest.access_list req in
  let access_list_left : option (list AccessListItem) := None in
  let legacy :=
    LegacyReq (LegacyTransactionRequest.mk nonce (default 0 gas_price) gas_limit kind value
                 input chain_id) in
  let eip2930 :=
    EIP2930Req (EIP2930TransactionRequest.mk (default 0 chain_id) nonce (default 0 gas_price)
                  gas_limit kind value input (default [] access_list_left)) in
  let eip1559 :=
    EIP1559Req (EIP1559TransactionRequest.mk (default 0 chain_id) nonce (default 0 max_prio)
                  (default 0 max_fee) gas_limit kind value input (default [] access_list_left)) in
  Ret
    (match transaction_type, gas_price, max_fee, max_prio, access_list_taken with
     | Some 0, _, None, None, None | None, Some _, None, None, None => Some legacy
     | Some 1, _, None, None, _ | None, _, None, None, Some _ => Some eip2930
     | Some 2, None, _, _, _ | None, None, Some _, _, _ | None, None, _, Some _, _
     | None, None, None, None, None => Some eip1559
     | _, _, _, _, _ => None
     end).

(** The requests that signing and sender recovery hash. *)
Definition legacy_request_of (tx : LegacyTransaction.t) : LegacyTransactionRequest.t :=
  LegacyTransactionRequest.mk (LegacyTransaction.nonce tx) (LegacyTransaction.gas_price tx)
    (LegacyTransaction.gas_limit tx) (LegacyTransaction.kind tx) (LegacyTransaction.value tx)
    (LegacyTransaction.input tx) (LegacyTransaction.chain_id tx).

Definition eip2930_request_of (tx : EIP2930Transaction.t) : EIP2930TransactionRequest.t :=
  EIP2930TransactionRequest.mk (EIP2930Transaction.chain_id tx) (EIP2930Transaction.nonce tx)
    (EIP2930Transaction.gas_price tx) (EIP2930Transaction.gas_limit tx)
    (EIP2930Transaction.kind tx) (EIP2930Transaction.value tx) (EIP2930Transaction.input tx)
    (EIP2930Transaction.access_list tx).

Definition eip1559_request_of (tx : EIP1559Transaction.t) : EIP1559TransactionRequest.t :=
  EIP1559TransactionRequest.mk (EIP1559Transaction.chain_id tx) (EIP1559Transaction.nonce tx)
    (EIP1559Transaction.max_priority_fee_per_gas tx) (EIP1559Transaction.max_fee_per_gas tx)
    (EIP1559Transaction.gas_limit tx) (EIP1559Transaction.kind tx)
    (EIP1559Transaction.value tx) (EIP1559Transaction.input tx)
    (EIP1559Transaction.access_list tx).

(** [build_typed_transaction] (sign.rs).  [recovery_id] is the library's
    [Signature::recovery_id], which may fail. *)
Definition build_typed_transaction {E} (recovery_id : Signature -> result Z E)
    (request : TypedTransactionRequest) (sig : Signature) : result TypedTransaction E :=
  match request with
  | LegacyReq tx =>
      Ok (Legacy (LegacyTransaction.mk (LegacyTransactionRequest.nonce tx)
        (LegacyTransactionRequest.gas_price tx) (LegacyTransactionRequest.gas_limit tx)
        (LegacyTransactionRequest.kind tx) (LegacyTransactionRequest.value tx)
        (LegacyTransactionRequest.input tx) sig))
  | EIP2930Req tx =>
      match recovery_id sig with
      | Err e => Err e
      | Ok recid =>
          Ok (EIP2930 (EIP2930Transaction.mk (EIP2930TransactionRequest.chain_id tx)
            (EIP2930TransactionRequest.nonce tx) (EIP2930TransactionRequest.gas_price tx)
            (EIP2930TransactionRequest.gas_limit tx) (EIP2930TransactionRequest.kind tx)
            (EIP2930TransactionRequest.value tx) (EIP2930TransactionRequest.input tx)
            (EIP2930TransactionRequest.access_list tx) (negb (bool_decide (recid = 0)))
            (sig_r sig) (sig_s sig)))
      end
  | EIP1559Req tx =>
      match recovery_id sig with
      | Err e => Err e
      | Ok recid =>
          Ok (EIP1559 (EIP1559Transaction.mk (EIP1559TransactionRequest.chain_id tx)
            (EIP1559TransactionRequest.nonce tx)
            (EIP1559TransactionRequest.max_priority_fee_per_gas tx)
            (EIP1559TransactionRequest.max_fee_per_gas tx)
            (EIP1559TransactionRequest.gas_limit tx) (EIP1559TransactionRequest.kind tx)
            (EIP1559TransactionRequest.value tx) (EIP1559TransactionRequest.input tx)
            (EIP1559TransactionRequest.access_list tx) (negb (bool_decide (recid = 0)))
            (sig_r sig) (sig_s sig)))
      end
  end.

(** ** Queued transactions *)
Record MaybeImpersonatedTransaction := {
  mtx_transaction : TypedTransaction;
  impersonated_sender : option Address }.
#[export] Instance MaybeImpersonatedTransaction_eq_dec : EqDecision MaybeImpersonatedTransaction.
Proof. solve_decision. Defined.

Record PendingTransaction := mkPendingTransaction {
  ptx_transaction : MaybeImpersonatedTransaction;
  sender : Address;
  ptx_hash : TxHash }.
#[export] Instance PendingTransaction_eq_dec : EqDecision PendingTransaction.
Proof. solve_decision. Defined.

Section Hashing.
(** [TypedTransaction::hash] and [impersonated_hash] ([keccak256] of an RLP
    encoding) and [TypedTransaction::recover] (secp256k1). *)
Context {SigError : Type}.
Variable tx_hash : TypedTransaction -> H256.
Variable impersonated_hash : TypedTransaction -> Address -> H256.
Variable tx_recover : TypedTransaction -> result Address SigError.

Definition mtx_new (t : TypedTransaction) : MaybeImpersonatedTransaction :=
  {| mtx_transaction := t; impersonated_sender := None |}.
Definition mtx_impersonated (t : TypedTransaction) (a : Address) : MaybeImpersonatedTransaction :=
  {| mtx_transaction := t; impersonated_sender := Some a |}.

Definition mtx_recover (m : MaybeImpersonatedTransaction) : result Address SigError :=
  match impersonated_sender m with
  | Some a => Ok a
  | None => tx_recover (mtx_transaction m)
  end.

Definition mtx_hash (m : MaybeImpersonatedTransaction) : H256 :=
  if TypedTransaction.is_impersonated (mtx_transaction m) then
    match impersonated_sender m with
    | Some a => impersonated_hash (mtx_transaction m) a
    | None => tx_hash (mtx_transaction m)
    end
  else tx_hash (mtx_transaction m).

Definition pending_new (t : TypedTransaction) : result PendingTransaction SigError :=
  match tx_recover t with
  | Ok a => Ok (mkPendingTransaction (mtx_new t) a (tx_hash t))
  | Err e => Err e
  end.

Definition pending_with_impersonated (t : TypedTransaction) (a : Address) : PendingTransaction :=
  mkPendingTransaction (mtx_impersonated t a) a (impersonated_hash t a).
End Hashing.

Definition ptx_nonce (p : PendingTransaction) : Z :=
  TypedTransaction.nonce (mtx_transaction (ptx_transaction p)).

(** ** The EVM's transaction environment ([revm::primitives::TxEnv]) *)
Inductive TransactTo := TransactToCall (a : Address) | TransactToCreate.
Record TxEnv := {
  env_caller : Address; env_transact_to : TransactTo; env_data : list byte;
  env_chain_id : option Z; env_nonce : option Z; env_value : Z; env_gas_price : Z;
  env_gas_priority_fee : option Z; env_tx_gas_limit : Z;
  env_access_list : list (Address * list Z) }.

Definition transact_to (k : TransactionKind) : TransactTo :=
  match k with Call c => TransactToCall c | Create => TransactToCreate end.

Definition to_revm_access_list (l : list AccessListItem) : list (Address * list Z) :=
  (fun item => (item_address item, storage_keys item)) <$> l.

Definition to_revm_tx_env (p : PendingTransaction) : exec TxEnv :=
  let caller := sender p in
  match mtx_transaction (ptx_transaction p) with
  | Legacy tx =>
      nonce ← u256_as_u64 (LegacyTransaction.nonce tx);
      gas_limit ← u256_as_u64 (LegacyTransaction.gas_limit tx);
      Ret {| env_caller := caller; env_transact_to := transact_to (LegacyTransaction.kind tx);
             env_data := LegacyTransaction.input tx;
             env_chain_id := LegacyTransaction.chain_id tx; env_nonce := Some nonce;
             env_value := LegacyTransaction.value tx;
             env_gas_price := LegacyTransaction.gas_price tx; env_gas_priority_fee := None;
             env_tx_gas_limit := gas_limit; env_access_list := [] |}
  | EIP2930 tx =>
      nonce ← u256_as_u64 (EIP2930Transaction.nonce tx);
      gas_limit ← u256_as_u64 (EIP2930Transaction.gas_limit tx);
      Ret {| env_caller := caller; env_transact_to := transact_to (EIP2930Transaction.kind tx);
             env_data := EIP2930Transaction.input tx;
             env_chain_id := Some (EIP2930Transaction.chain_id tx); env_nonce := Some nonce;
             env_value := EIP2930Transaction.value tx;
             env_gas_price := EIP2930Transaction.gas_price tx; env_gas_priority_fee := None;
             env_tx_gas_limit := gas_limit;
             env_access_list := to_revm_access_list (EIP2930Transaction.access_list tx) |}
  | EIP1559 tx =>
      nonce ← u256_as_u64 (EIP1559Transaction.nonce tx);
      gas_limit ← u256_as_u64 (EIP1559Transaction.gas_limit tx);
      Ret {| env_caller := caller; env_transact_to := transact_to (EIP1559Transaction.kind tx);
             env_data := EIP1559Transaction.input tx;
             env_chain_id := Some (EIP1559Transaction.chain_id tx); env_nonce := Some nonce;
             env_value := EIP1559Transaction.value tx;
             env_gas_price := EIP1559Transaction.max_fee_per_gas tx;
             env_gas_priority_fee := Some (EIP1559Transaction.max_priority_fee_per_gas tx);
             env_tx_gas_limit := gas_limit;
             env_access_list := to_revm_access_list (EIP1559Transaction.access_list tx) |}
  end.

(** ** Lemmas *)
Lemma u256_as_u64_Ret a b : u256_as_u64 a = Ret b <-> a = b /\ a <= U64_MAX.
Proof. unfold u256_as_u64. case_decide; naive_solver. Qed.
Lemma u256_as_u64_ok a : a <= U64_MAX -> u256_as_u64 a = Ret a.
Proof. intros Ha. by apply u256_as_u64_Ret. Qed.

(** A legacy transaction names a chain exactly when its [v] is one of the
    two EIP-155 values of that chain (chain 0 has none). *)
Lemma legacy_chain_id_eip155 tx c :
  1 <= c -> LegacyTransaction.chain_id tx = Some c <->
  (sig_v (LegacyTransaction.signature tx) = c * 2 + 35 \/
   sig_v (LegacyTransaction.signature tx) = c * 2 + 36).
Proof.
  intros Hc. unfold LegacyTransaction.chain_id. generalize (sig_v (LegacyTransaction.signature tx)).
  intros v. case_decide; [|split; [done|lia]].
  pose proof (Z.div_mod (v - 35) 2). pose proof (Z.mod_pos_bound (v - 35) 2).
  split; [intros [= <-]; lia|]. intros ?. f_equal. lia.
Qed.

(** [into_typed_request] on requests that say nothing about fees or type:
    the default is an EIP-1559 request. *)
Lemma into_typed_request_default req :
  EthTransactionRequest.transaction_type req = None ->
  EthTransactionRequest.gas_price req = None ->
  EthTransactionRequest.max_fee_per_gas req = None ->
  EthTransactionRequest.max_priority_fee_per_gas req = None ->
  EthTransactionRequest.access_list req = None ->
  exists tx, into_typed_request req = Ret (Some (EIP1559Req tx)).
Proof. intros H1 H2 H3 H4 H5. unfold into_typed_request. rewrite H1, H2, H3, H4, H5. simpl. eauto. Qed.

Definition request_access_list (r : TypedTransactionRequest) : list AccessListItem :=
  match r with
  | LegacyReq _ => []
  | EIP2930Req tx => EIP2930TransactionRequest.access_list tx
  | EIP1559Req tx => EIP1559TransactionRequest.access_list tx
  end.

(** ** Properties *)

(** The kind of request a well-typed RPC request becomes, as a table. *)
Definition request_class (req : EthTransactionRequest.t) (ty : option Z) : option Z :=
  let fee := negb (bool_decide (EthTransactionRequest.max_fee_per_gas req = None)) in
  let prio := negb (bool_decide (EthTransactionRequest.max_priority_fee_per_gas req = None)) in
  let price := negb (bool_decide (EthTransactionRequest.gas_price req = None)) in
  let acl := negb (bool_decide (EthTransactionRequest.access_list req = None)) in
  match ty with
  | Some 0 => if fee || prio || acl then None else Some 0
  | Some 1 => if fee || prio then None else Some 1
  | Some 2 => if price then None else Some 2
  | Some _ => None
  | None =>
      if fee || prio then (if price then None else Some 2)
      else if acl then Some 1 else if price then Some 0 else Some 2
  end.

Definition request_type (r : TypedTransactionRequest) : Z :=
  match r with LegacyReq _ => 0 | EIP2930Req _ => 1 | EIP1559Req _ => 2 end.

(** [into_typed_request] is total on requests whose type fits a [u64] and
    its result has the type that the request's explicit type, fee fields and
    access list determine (a fee field selects EIP-1559, an access list
    EIP-2930, a gas price alone a legacy transaction; contradictory
    combinations are refused). *)
Theorem into_typed_request_class req :
  (forall ty, EthTransactionRequest.transaction_type req = Some ty -> is_u64 ty) ->
  exists o, into_typed_request req = Ret o /\
    request_type <$> o = request_class req (EthTransactionRequest.transaction_type req).
Proof.
  intros Hty. unfold into_typed_request, request_class.
  destruct (EthTransactionRequest.transaction_type req) as [ty|] eqn:Ht.
  - specialize (Hty _ eq_refl). unfold u256_as_u64.
    rewrite decide_True by (unfold_bounds; lia). simpl. eexists. split; [reflexivity|].
    destruct (EthTransactionRequest.gas_price req), (EthTransactionRequest.max_fee_per_gas req),
      (EthTransactionRequest.max_priority_fee_per_gas req), (EthTransactionRequest.access_list req),
      ty as [|[|[]|]|]; reflexivity.
  - simpl. eexists. split; [reflexivity|].
    destruct (EthTransactionRequest.gas_price req), (EthTransactionRequest.max_fee_per_gas req),
      (EthTransactionRequest.max_priority_fee_per_gas req), (EthTransactionRequest.access_list req);
      reflexivity.
Qed.

Example access_list_request : EthTransactionRequest.t :=
  EthTransactionRequest.mk (Some 1) (Some 2) (Some 10) None None (Some 21000) None None None
    (Some 1) (Some [{| item_address := 7; storage_keys := [1; 2] |}]) None.

Lemma into_typed_request_class_witness :
  exists o, into_typed_request access_list_request = Ret o /\ request_type <$> o = Some 1.
Proof. exact (into_typed_request_class access_list_request ltac:(done)). Defined.

(** The access list of an RPC request never reaches the typed request:
    [into_typed_request] takes it out of the request for the match and then
    reads the emptied field, so every EIP-2930 and EIP-1559 request it builds
    has an empty access list. *)
Theorem into_typed_request_drops_access_list req r :
  into_typed_request req = Ret (Some r) -> request_access_list r = [].
Proof.
  unfold into_typed_request. rewrite exec_bind_Ret. intros (ty & _ & [= Hr]).
  repeat step_match; by simplify_eq/=.
Qed.

Lemma into_typed_request_drops_access_list_witness :
  EthTransactionRequest.access_list access_list_request <> None /\
  exists r, into_typed_request access_list_request = Ret (Some r) /\ request_access_list r = [].
Proof.
  split; [done|]. eexists. split; [reflexivity|].
  exact (into_typed_request_drops_access_list access_list_request _ eq_refl).
Defined.

Definition request_of (t : TypedTransaction) : TypedTransactionRequest :=
  match t with
  | Legacy tx => LegacyReq (legacy_request_of tx)
  | EIP2930 tx => EIP2930Req (eip2930_request_of tx)
  | EIP1559 tx => EIP1559Req (eip1559_request_of tx)
  end.

(** The signature carries the chain of a legacy request in its [v]. *)
Definition legacy_v_encodes (r : TypedTransactionRequest) (sig : Signature) : Prop :=
  match r with
  | LegacyReq tx =>
      match LegacyTransactionRequest.chain_id tx with
      | Some c => 1 <= c /\ (sig_v sig = c * 2 + 35 \/ sig_v sig = c * 2 + 36)
      | None => sig_v sig <= 36
      end
  | _ => True
  end.

(** Building a transaction from a request and a signature loses nothing:
    the request that sender recovery hashes is the request that was signed
    (for legacy requests, when [v] encodes the request's chain), the
    signature's [r] and [s] are kept, and the parity of a typed transaction
    is the recovery id. *)
Theorem build_typed_transaction_roundtrip {E} (recovery_id : Signature -> result Z E) req sig t :
  build_typed_transaction recovery_id req sig = Ok t -> legacy_v_encodes req sig ->
  request_of t = req /\ sig_r (TypedTransaction.signature t) = sig_r sig /\
  sig_s (TypedTransaction.signature t) = sig_s sig /\
  (is_Some (TypedTransaction.type_ t) ->
   exists id, recovery_id sig = Ok id /\
     sig_v (TypedTransaction.signature t) = (if decide (id = 0) then 0 else 1)).
Proof.
  destruct req as [tx|tx|tx]; simpl.
  - intros [= <-] Hv. split_and!; [|done..|by intros [? [=]]]. simpl. unfold legacy_request_of. simpl.
    destruct tx as [n gp gl k v i [c|]]; simpl in *; do 2 f_equal.
    + apply legacy_chain_id_eip155; simpl; tauto.
    + unfold LegacyTransaction.chain_id. simpl. by rewrite decide_False by lia.
  - destruct (recovery_id sig) as [id|] eqn:Hid; [|done]. intros [= <-] _. destruct tx.
    split_and!; [done..|]. intros _. exists id. split; [done|]. simpl. by case_decide; case_bool_decide.
  - destruct (recovery_id sig) as [id|] eqn:Hid; [|done]. intros [= <-] _. destruct tx.
    split_and!; [done..|]. intros _. exists id. split; [done|]. simpl. by case_decide; case_bool_decide.
Qed.

Lemma build_typed_transaction_roundtrip_witness :
  let req := LegacyReq (LegacyTransactionRequest.mk 3 10 21000 (Call 9) 5 [] (Some 31337)) in
  let sig := {| sig_r := 4; sig_s := 6; sig_v := 31337 * 2 + 35 |} in
  exists t, build_typed_transaction (E := unit) (fun _ => Ok 0) req sig = Ok t /\ request_of t = req.
Proof.
  intros req sig. eexists. split; [reflexivity|].
  exact (proj1 (build_typed_transaction_roundtrip (E := unit) (fun _ => Ok 0) req sig _ eq_refl
    (conj (ltac:(done) : 1 <= 31337) (or_introl eq_refl)))).
Defined.
