(* ===== verification/TimeManager.v ===== *)
(** * Block time (anvil/src/eth/backend/time.rs)

    [TimeManager] decides the timestamp of every mined block.  Its fields are
    behind separate locks that are taken one after the other; the model
    passes the four values as one state.  The wall clock
    ([duration_since_unix_epoch().as_secs()]) is an argument, [now], of every
    operation that reads it, so the theorems hold for a clock that jumps. *)
From S2P Require Import Prelude.
Open Scope Z_scope.

Module TimeManager.

Record t := mk {
  offset_ : Z;                          (* i128 *)
  last_timestamp : Z;                   (* u64 *)
  next_exact_timestamp : option Z;      (* Option<u64> *)
  interval : option Z                   (* Option<u64> *)
}.

(** The only error of [set_next_block_timestamp]. *)
Inductive time_error := TimestampError (timestamp : Z).

Definition reset (now start_timestamp : Z) (s : t) : t :=
  mk (start_timestamp - now) start_timestamp None (interval s).

Definition new (now start_timestamp : Z) : t :=
  reset now start_timestamp (mk 0 0 None None).

Definition offset (s : t) : Z := offset_ s.

Definition add_offset (offset : Z) (s : t) : Z * t :=
  let next := i128_saturating_add (offset_ s) offset in
  (next, mk next (last_timestamp s) (next_exact_timestamp s) (interval s)).

Definition increase_time (seconds : Z) (s : t) : Z * t := add_offset seconds s.

Definition set_next_block_timestamp (timestamp : Z) (s : t) : result unit time_error * t :=
  if decide (timestamp <= last_timestamp s) then (Err (TimestampError timestamp), s)
  else (Ok tt, mk (offset_ s) (last_timestamp s) (Some timestamp) (interval s)).

Definition set_block_timestamp_interval (i : Z) (s : t) : t :=
  mk (offset_ s) (last_timestamp s) (next_exact_timestamp s) (Some i).

Definition remove_block_timestamp_interval (s : t) : bool * t :=
  (match interval s with Some _ => true | None => false end,
   mk (offset_ s) (last_timestamp s) (next_exact_timestamp s) None).

(** The candidate timestamp and whether the offset has to follow it, before
    the candidate is forced past the last timestamp. *)
Definition candidate_timestamp (now : Z) (s : t) : Z * bool :=
  match next_exact_timestamp s with
  | Some next => (next, true)
  | None =>
      match interval s with
      | Some i => (u64_saturating_add (last_timestamp s) i, false)
      | None => (as_u64 (i128_saturating_add now (offset s)), false)
      end
  end.

Definition compute_next_timestamp (now : Z) (s : t) : exec (Z * option Z) :=
  let '(next_timestamp, update_offset) := candidate_timestamp now s in
  next_timestamp ←
    (if decide (next_timestamp <= last_timestamp s)
     then u64_add (last_timestamp s) 1 else Ret next_timestamp);
  Ret (next_timestamp,
       if update_offset : bool then Some (next_timestamp - now) else None).

Definition next_timestamp (now : Z) (s : t) : exec (Z * t) :=
  r ← compute_next_timestamp now s;
  let '(next, next_offset) := (r : Z * option Z) in
  Ret (next,
       mk (match next_offset with Some o => o | None => offset_ s end)
          next None (interval s)).

Definition current_call_timestamp (now : Z) (s : t) : exec Z :=
  r ← compute_next_timestamp now s;
  Ret (fst r).

(** ** Well-formed states: every field is a value of its type *)
Record wf (s : t) : Prop := mk_wf {
  wf_offset : is_i128 (offset_ s);
  wf_last : is_u64 (last_timestamp s);
  wf_next : forall n, next_exact_timestamp s = Some n -> is_u64 n;
  wf_interval : forall i, interval s = Some i -> is_u64 i
}.

(** ** The operations as a labelled step relation *)
Inductive event :=
| EBlock (timestamp : Z)       (* a block was mined with this timestamp *)
| EOther.

Inductive step : t -> event -> t -> Prop :=
| step_increase seconds s : is_u64 seconds -> step s EOther (snd (increase_time seconds s))
| step_set_next ts s : is_u64 ts -> step s EOther (snd (set_next_block_timestamp ts s))
| step_set_interval i s : is_u64 i -> step s EOther (set_block_timestamp_interval i s)
| step_remove_interval s : step s EOther (snd (remove_block_timestamp_interval s))
| step_next now s next s' :
    is_u64 now -> next_timestamp now s = Ret (next, s') -> step s (EBlock next) s'.

Inductive steps : t -> list Z -> t -> Prop :=
| steps_nil s : steps s [] s
| steps_block s ts s' l s'' : step s (EBlock ts) s' -> steps s' l s'' -> steps s (ts :: l) s''
| steps_other s s' l s'' : step s EOther s' -> steps s' l s'' -> steps s l s''.

(** ** Lemmas *)
Lemma candidate_u64 now s : wf s -> is_u64 now -> is_u64 (fst (candidate_timestamp now s)).
Proof.
  intros [Ho Hl Hn Hi] Hnow. unfold candidate_timestamp.
  destruct (next_exact_timestamp s) as [n|]; [by apply Hn|].
  destruct (interval s) as [i|]; simpl; [word_lia|].
  unfold as_u64. unfold_bounds.
  pose proof (Z.mod_pos_bound (i128_saturating_add now (offset s)) (2 ^ 64)). lia.
Qed.

(** Closed form of the computation: the candidate, forced past the last
    timestamp; it panics only when the last timestamp is [u64::MAX]. *)
Lemma compute_next_timestamp_eq now s :
  compute_next_timestamp now s =
    let '(c, upd) := candidate_timestamp now s in
    if decide (c <= last_timestamp s /\ U64_MAX <= last_timestamp s)
    then Panic "overflow"
    else let n := Z.max c (last_timestamp s + 1) in
         Ret (n, if upd : bool then Some (n - now) else None).
Proof.
  unfold compute_next_timestamp. destruct (candidate_timestamp now s) as [c upd].
  unfold u64_add. unfold_bounds. repeat case_decide; simpl; try lia; try done;
    repeat f_equal; destruct upd; repeat f_equal; lia.
Qed.

Lemma next_timestamp_inv now s next s' :
  next_timestamp now s = Ret (next, s') ->
  next = Z.max (fst (candidate_timestamp now s)) (last_timestamp s + 1) /\
  last_timestamp s' = next /\ next_exact_timestamp s' = None /\ interval s' = interval s /\
  offset_ s' = (if snd (candidate_timestamp now s) then next - now else offset_ s).
Proof.
  unfold next_timestamp. rewrite exec_bind_Ret. intros ([n o] & Hc & Hr).
  rewrite compute_next_timestamp_eq in Hc.
  destruct (candidate_timestamp now s) as [c upd]. case_decide; [done|].
  destruct upd; by simplify_eq/=.
Qed.

(** A block can always be produced while the last timestamp is not the last
    value of its type. *)
Lemma next_timestamp_total now s :
  last_timestamp s < U64_MAX -> exists r, next_timestamp now s = Ret r.
Proof.
  intros Hl. unfold next_timestamp. rewrite compute_next_timestamp_eq.
  destruct (candidate_timestamp now s) as [c upd].
  rewrite decide_False by lia. simpl. eauto.
Qed.

Lemma step_wf s e s' : wf s -> step s e s' -> wf s'.
Proof.
  intros Hwf Hs. pose proof Hwf as [Ho Hl Hn Hi]. destruct Hs as [seconds s|ts s|i s|s|now s next s' Hnow Hnx].
  - split; simpl; try done. word_lia.
  - unfold set_next_block_timestamp. case_decide; [done|]. split; simpl; naive_solver.
  - split; simpl; naive_solver.
  - split; simpl; naive_solver.
  - pose proof (candidate_u64 now s Hwf Hnow) as Hc.
    assert (next <= U64_MAX) as Hle.
    { unfold next_timestamp in Hnx. apply exec_bind_Ret in Hnx as ([n o] & Hcm & Hr).
      rewrite compute_next_timestamp_eq in Hcm.
      destruct (candidate_timestamp now s) as [c upd]. case_decide; [done|]. simplify_eq/=.
      unfold_bounds; lia. }
    apply next_timestamp_inv in Hnx as (? & ? & Hne & Hiv & Hof).
    assert (is_u64 next) by (unfold_bounds; lia).
    split.
    + rewrite Hof. destruct (candidate_timestamp now s) as [c []]; simpl; [word_lia|done].
    + congruence.
    + rewrite Hne. done.
    + rewrite Hiv. done.
Qed.

Lemma step_last s e s' : step s e s' ->
  match e with
  | EBlock ts => last_timestamp s < ts /\ last_timestamp s' = ts
  | EOther => last_timestamp s' = last_timestamp s
  end.
Proof.
  destruct 1 as [| ts s | | |now s next s' Hnow Hnx]; simpl; try done.
  - unfold set_next_block_timestamp. by case_decide.
  - apply next_timestamp_inv in Hnx. lia.
Qed.

Lemma steps_sorted s l s' : steps s l s' ->
  Forall (fun ts => last_timestamp s < ts) l /\ StronglySorted Z.lt l.
Proof.
  induction 1 as [s|s ts s' l s'' Hs _ [IHf IHs]|s s' l s'' Hs _ [IHf IHs]].
  - split; constructor.
  - apply step_last in Hs as [? Heq]. rewrite Heq in IHf. split.
    + constructor; [done|]. eapply Forall_impl; [exact IHf|]. simpl. lia.
    + by constructor.
  - apply step_last in Hs. rewrite Hs in IHf. done.
Qed.

Lemma steps_wf s l s' : wf s -> steps s l s' -> wf s' /\ Forall is_u64 l.
Proof.
  intros Hwf Hs. induction Hs as [s|s ts s' l s'' Hs _ IH|s s' l s'' Hs _ IH]; [by split|..];
    pose proof (step_wf _ _ _ Hwf Hs) as Hwf'; destruct (IH Hwf') as [? ?]; [|done].
  split; [done|]. constructor; [|done].
  apply step_last in Hs as [_ <-]. apply Hwf'.
Qed.

Lemma time_new_wf now start : is_u64 now -> is_u64 start -> wf (new now start).
Proof. intros ??. split; simpl; try done. word_lia. Qed.

(** ** Properties *)

(** The timestamps of the blocks mined after a start at [start] are
    strictly increasing and all later than [start], whatever the wall clock
    reports and whichever time cheat codes (time increase, exact timestamp,
    interval) are called in between; every one of them is a [u64] and the
    manager's state stays well formed. *)
Theorem block_timestamps_increase now start l s' :
  is_u64 now -> is_u64 start -> steps (new now start) l s' ->
  StronglySorted Z.lt l /\ Forall (fun ts => start < ts <= U64_MAX) l /\ wf s'.
Proof.
  intros Hnow Hstart Hs.
  destruct (steps_sorted _ _ _ Hs) as [Hf Hsort].
  destruct (steps_wf _ _ _ (time_new_wf _ _ Hnow Hstart) Hs) as [Hwf Hu].
  split_and!; [done| |done].
  rewrite Forall_forall in *. intros ts Hin. split; [by apply Hf|]. by apply Hu.
Qed.

Example timeline : list Z :=
  [1001; 2000; 2001; 2011].

Lemma block_timestamps_increase_witness :
  StronglySorted Z.lt timeline /\ Forall (fun ts => 1000 < ts <= U64_MAX) timeline /\
  wf (mk 1900 2011 None (Some 10)).
Proof.
  apply (block_timestamps_increase 100 1000); [by vm_compute|by vm_compute|].
  eapply steps_block; [eapply (step_next 100); [by vm_compute|reflexivity]|].
  eapply steps_other; [apply (step_set_next 2000); by vm_compute|].
  eapply steps_block; [eapply (step_next 100); [by vm_compute|reflexivity]|].
  eapply steps_block; [eapply (step_next 50); [by vm_compute|reflexivity]|].
  eapply steps_other; [apply (step_set_interval 10); by vm_compute|].
  eapply steps_block; [eapply (step_next 7); [by vm_compute|reflexivity]|].
  apply steps_nil.
Defined.

(** [set_next_block_timestamp] accepts exactly the timestamps after the
    last block; an accepted timestamp is the timestamp of the next block, it
    is used once, and from then on (without an interval) time flows from it:
    a block mined [d] seconds later has that timestamp plus [d], or plus one
    when [d] is 0. *)
Theorem exact_timestamp_is_next now d ts s :
  wf s -> is_u64 ts -> is_u64 now -> 0 <= d -> ts + d < U64_MAX ->
  let '(r, s1) := set_next_block_timestamp ts s in
  if decide (last_timestamp s < ts) then
    r = Ok tt /\
    exists s2, next_timestamp now s1 = Ret (ts, s2) /\ next_exact_timestamp s2 = None /\
      offset s2 = ts - now /\
      (interval s = None ->
       exists s3, next_timestamp (now + d) s2 = Ret (ts + Z.max d 1, s3))
  else r = Err (TimestampError ts) /\ s1 = s.
Proof.
  intros Hwf Hts Hnow Hd Hlt. unfold set_next_block_timestamp.
  case_decide; [by rewrite decide_False by lia|]. rewrite decide_True by lia.
  split; [done|]. pose proof (wf_last s Hwf).
  destruct (next_timestamp_total now (mk (offset_ s) (last_timestamp s) (Some ts) (interval s)))
    as [[n s2] Hn]; [simpl; unfold_bounds; lia|].
  pose proof (next_timestamp_inv _ _ _ _ Hn) as (Hn1 & Hl2 & Hx2 & Hi2 & Ho2). simpl in *.
  assert (n = ts) as -> by lia. exists s2. split_and!; [done..|]. intros Hnone.
  destruct (next_timestamp_total (now + d) s2) as [[n3 s3] H3]; [unfold_bounds; lia|].
  exists s3. rewrite H3. apply next_timestamp_inv in H3 as [-> _].
  unfold candidate_timestamp. rewrite Hx2, Hi2, Hnone. simpl. do 2 f_equal.
  unfold offset. rewrite Ho2, Hl2. unfold_words. rewrite Z.mod_small by lia. lia.
Qed.

Lemma exact_timestamp_is_next_witness :
  let s := new 100 1000 in
  exists s2, next_timestamp 100 (snd (set_next_block_timestamp 5000 s)) = Ret (5000, s2) /\
    exists s3, next_timestamp (100 + 7) s2 = Ret (5000 + Z.max 7 1, s3).
Proof.
  assert (wf (new 100 1000)) as Hwf by (apply time_new_wf; by vm_compute).
  destruct (exact_timestamp_is_next 100 7 5000 (new 100 1000) Hwf ltac:(by vm_compute)
    ltac:(by vm_compute) ltac:(by vm_compute) ltac:(by vm_compute)) as (_ & s2 & Hn & _ & _ & H3).
  exists s2. split; [exact Hn|]. apply H3. reflexivity.
Defined.

(** What [next_timestamp] returns on every branch: an exact timestamp, the
    last timestamp plus the interval, or the shifted wall clock truncated to
    64 bits, in this order of precedence, forced to be after the last
    timestamp; the only panic is the overflow of the last timestamp.  A call
    that only reads the time sees the timestamp the next block would get. *)
Theorem next_timestamp_spec now s :
  wf s ->
  let c := match next_exact_timestamp s, interval s with
           | Some n, _ => n
           | None, Some i => Z.min U64_MAX (last_timestamp s + i)
           | None, None => (Z.max I128_MIN (Z.min I128_MAX (now + offset_ s))) mod 2 ^ 64
           end in
  let n := Z.max c (last_timestamp s + 1) in
  if decide (last_timestamp s = U64_MAX) then
    next_timestamp now s = Panic "overflow" /\ current_call_timestamp now s = Panic "overflow"
  else
    current_call_timestamp now s = Ret n /\
    next_timestamp now s =
      Ret (n, mk (if decide (next_exact_timestamp s = None) then offset_ s else n - now)
                 n None (interval s)).
Proof.
  intros Hwf c n.
  assert (fst (candidate_timestamp now s) = c) as Hc.
  { subst c. unfold candidate_timestamp. destruct (next_exact_timestamp s); [done|].
    destruct (interval s) as [i|] eqn:Hi; simpl; [|done].
    pose proof (wf_last s Hwf). pose proof (wf_interval s Hwf _ Hi). word_lia. }
  assert (snd (candidate_timestamp now s) = negb (bool_decide (next_exact_timestamp s = None))) as Hu.
  { unfold candidate_timestamp. destruct (next_exact_timestamp s); [done|]. by destruct (interval s). }
  unfold current_call_timestamp, next_timestamp. rewrite compute_next_timestamp_eq.
  destruct (candidate_timestamp now s) as [c' upd]; simpl in Hc, Hu; subst c'.
  assert (c <= U64_MAX) as Hmax.
  { subst c. destruct (next_exact_timestamp s) eqn:Hn; [by apply (wf_next s Hwf)|].
    destruct (interval s); [lia|]. pose proof (Z.mod_pos_bound
      (Z.max I128_MIN (Z.min I128_MAX (now + offset_ s))) (2 ^ 64)). unfold_bounds. lia. }
  pose proof (wf_last s Hwf).
  case_decide as H1.
  - rewrite decide_True by (unfold_bounds; lia). done.
  - rewrite decide_False by (unfold_bounds; lia). simpl. subst upd n.
    case_decide as H2; [rewrite bool_decide_true by done|rewrite bool_decide_false by done]; done.
Qed.

Lemma next_timestamp_spec_witness :
  wf (new 100 1000) /\
  current_call_timestamp 130 (new 100 1000) = Ret 1030.
Proof.
  assert (wf (new 100 1000)) as Hwf by (apply time_new_wf; by vm_compute).
  split; [exact Hwf|]. exact (proj1 (next_timestamp_spec 130 (new 100 1000) Hwf)).
Defined.

End TimeManager.
