(* ===== verification/Hardfork.v ===== *)
(** * Hardforks (anvil/src/hardfork.rs, anvil/src/eth/util.rs)

    The node's hardfork names, their main-net activation blocks, EIP-2124
    fork ids, the parser of the command-line option and the conversions to
    the EVM's [SpecId] and from block numbers.  [SpecId] is an enum of the
    [revm] library; its variants are the ones [to_precompile_id] lists, and
    its [u8] discriminants enter through the class [SpecIdOrder]. *)
From S2P Require Import Prelude.
Open Scope Z_scope.

Inductive Hardfork :=
| Frontier | Homestead | Dao | Tangerine | SpuriousDragon | Byzantium | Constantinople
| Petersburg | Istanbul | Muirglacier | Berlin | London | ArrowGlacier | GrayGlacier
| Paris | Shanghai | Latest.
#[export] Instance Hardfork_eq_dec : EqDecision Hardfork.
Proof. solve_decision. Defined.

Inductive SpecId :=
| FRONTIER | FRONTIER_THAWING | HOMESTEAD | DAO_FORK | TANGERINE | SPURIOUS_DRAGON | BYZANTIUM
| CONSTANTINOPLE | PETERSBURG | ISTANBUL | MUIR_GLACIER | BERLIN | LONDON | ARROW_GLACIER
| GRAY_GLACIER | MERGE | SHANGHAI | CANCUN | LATEST.
#[export] Instance SpecId_eq_dec : EqDecision SpecId.
Proof. solve_decision. Defined.

(** The position of a variant in the declaration of [SpecId]. *)
Definition spec_index (s : SpecId) : Z :=
  match s with
  | FRONTIER => 0 | FRONTIER_THAWING => 1 | HOMESTEAD => 2 | DAO_FORK => 3 | TANGERINE => 4
  | SPURIOUS_DRAGON => 5 | BYZANTIUM => 6 | CONSTANTINOPLE => 7 | PETERSBURG => 8
  | ISTANBUL => 9 | MUIR_GLACIER => 10 | BERLIN => 11 | LONDON => 12 | ARROW_GLACIER => 13
  | GRAY_GLACIER => 14 | MERGE => 15 | SHANGHAI => 16 | CANCUN => 17 | LATEST => 18
  end.

(** What the node relies on: [SpecId as u8] orders the specs as they were
    activated. *)
Class SpecIdOrder := {
  spec_as_u8 : SpecId -> Z;
  spec_as_u8_mono a b : spec_index a <= spec_index b <-> spec_as_u8 a <= spec_as_u8 b
}.

(** Declaration order is one such assignment. *)
Definition spec_order_by_index : SpecIdOrder :=
  {| spec_as_u8 := spec_index; spec_as_u8_mono a b := iff_refl _ |}.

Definition fork_block (h : Hardfork) : Z :=
  match h with
  | Frontier => 0
  | Homestead => 1150000
  | Dao => 1920000
  | Tangerine => 2463000
  | SpuriousDragon => 2675000
  | Byzantium => 4370000
  | Constantinople | Petersburg => 7280000
  | Istanbul => 9069000
  | Muirglacier => 9200000
  | Berlin => 12244000
  | London => 12965000
  | ArrowGlacier => 13773000
  | GrayGlacier => 15050000
  | Paris => 15537394
  | Shanghai | Latest => 17034870
  end.

Record ForkId := { fork_hash : list byte; fork_next : Z }.

Definition fork_id (h : Hardfork) : ForkId :=
  match h with
  | Frontier => {| fork_hash := [0xfc; 0x64; 0xec; 0x04]; fork_next := 1150000 |}
  | Homestead => {| fork_hash := [0x97; 0xc2; 0xc3; 0x4c]; fork_next := 1920000 |}
  | Dao => {| fork_hash := [0x91; 0xd1; 0xf9; 0x48]; fork_next := 2463000 |}
  | Tangerine => {| fork_hash := [0x7a; 0x64; 0xda; 0x13]; fork_next := 2675000 |}
  | SpuriousDragon => {| fork_hash := [0x3e; 0xdd; 0x5b; 0x10]; fork_next := 4370000 |}
  | Byzantium => {| fork_hash := [0xa0; 0x0b; 0xc3; 0x24]; fork_next := 7280000 |}
  | Constantinople | Petersburg => {| fork_hash := [0x66; 0x8d; 0xb0; 0xaf]; fork_next := 9069000 |}
  | Istanbul => {| fork_hash := [0x87; 0x9d; 0x6e; 0x30]; fork_next := 9200000 |}
  | Muirglacier => {| fork_hash := [0xe0; 0x29; 0xe9; 0x91]; fork_next := 12244000 |}
  | Berlin => {| fork_hash := [0x0e; 0xb4; 0x40; 0xf6]; fork_next := 12965000 |}
  | London => {| fork_hash := [0xb7; 0x15; 0x07; 0x7d]; fork_next := 13773000 |}
  | ArrowGlacier => {| fork_hash := [0x20; 0xc3; 0x27; 0xfc]; fork_next := 15050000 |}
  | GrayGlacier => {| fork_hash := [0xf0; 0xaf; 0xd0; 0xe3]; fork_next := 15537394 |}
  | Paris => {| fork_hash := [0x4f; 0xb8; 0xa8; 0x72]; fork_next := 17034870 |}
  | Shanghai | Latest => {| fork_hash := [0xc1; 0xfd; 0xf1; 0x81]; fork_next := 0 |}
  end.

(** The names [from_str] accepts, in the order of its arms. *)
Definition hardfork_names : list (string * Hardfork) :=
  [("frontier", Frontier); ("1", Frontier); ("homestead", Homestead); ("2", Homestead);
   ("dao", Dao); ("3", Dao); ("tangerine", Tangerine); ("4", Tangerine);
   ("spuriousdragon", SpuriousDragon); ("5", SpuriousDragon);
   ("byzantium", Byzantium); ("6", Byzantium);
   ("constantinople", Constantinople); ("7", Constantinople);
   ("petersburg", Petersburg); ("8", Petersburg); ("istanbul", Istanbul); ("9", Istanbul);
   ("muirglacier", Muirglacier); ("10", Muirglacier); ("berlin", Berlin); ("11", Berlin);
   ("london", London); ("12", London); ("arrowglacier", ArrowGlacier); ("13", ArrowGlacier);
   ("grayglacier", GrayGlacier); ("14", GrayGlacier);
   ("paris", Paris); ("merge", Paris); ("15", Paris);
   ("shanghai", Shanghai); ("16", Shanghai); ("latest", Latest)]%string.

Definition hardfork_from_str (s : string) : result Hardfork string :=
  let s := to_lowercase s in
  match assoc_str s hardfork_names with
  | Some h => Ok h
  | None => Err ("Unknown hardfork " +:+ s)
  end.

Definition spec_of_hardfork (fork : Hardfork) : SpecId :=
  match fork with
  | Frontier => FRONTIER
  | Homestead => HOMESTEAD
  | Dao => HOMESTEAD
  | Tangerine => TANGERINE
  | SpuriousDragon => SPURIOUS_DRAGON
  | Byzantium => BYZANTIUM
  | Constantinople => CONSTANTINOPLE
  | Petersburg => PETERSBURG
  | Istanbul => ISTANBUL
  | Muirglacier => MUIR_GLACIER
  | Berlin => BERLIN
  | London => LONDON
  | ArrowGlacier => LONDON
  | GrayGlacier => GRAY_GLACIER
  | Paris => MERGE
  | Shanghai | Latest => SHANGHAI
  end.

(** [ethers::types::BlockNumber] *)
Inductive BlockNumber :=
| BLatest | BFinalized | BSafe | BEarliest | BPending | BNumber (n : Z).

Definition hardfork_of_block (block : BlockNumber) : Hardfork :=
  let num := match block with BEarliest => 0 | BNumber num => num | _ => U64_MAX end in
  if num <? 1150000 then Frontier
  else if num <? 1920000 then Dao
  else if num <? 2463000 then Homestead
  else if num <? 2675000 then Tangerine
  else if num <? 4370000 then SpuriousDragon
  else if num <? 7280000 then Byzantium
  else if num <? 9069000 then Constantinople
  else if num <? 9200000 then Istanbul
  else if num <? 12244000 then Muirglacier
  else if num <? 12965000 then Berlin
  else if num <? 13773000 then London
  else if num <? 15050000 then ArrowGlacier
  else if num <? 17034870 then Paris
  else Latest.

(** The precompile sets of [revm::precompile::SpecId]. *)
Inductive PrecompileSpecId := P_HOMESTEAD | P_BYZANTIUM | P_ISTANBUL | P_BERLIN.

Definition to_precompile_id (s : SpecId) : PrecompileSpecId :=
  match s with
  | FRONTIER | FRONTIER_THAWING | HOMESTEAD | DAO_FORK | TANGERINE | SPURIOUS_DRAGON => P_HOMESTEAD
  | BYZANTIUM | CONSTANTINOPLE | PETERSBURG => P_BYZANTIUM
  | ISTANBUL | MUIR_GLACIER => P_ISTANBUL
  | BERLIN | LONDON | ARROW_GLACIER | GRAY_GLACIER | MERGE | SHANGHAI | CANCUN | LATEST => P_BERLIN
  end.

(** ** The EIP-2124 checksum the fork ids are specified by *)
Definition all_hardforks : list Hardfork :=
  [Frontier; Homestead; Dao; Tangerine; SpuriousDragon; Byzantium; Constantinople; Petersburg;
   Istanbul; Muirglacier; Berlin; London; ArrowGlacier; GrayGlacier; Paris; Shanghai; Latest].

(** CRC-32 (ISO-HDLC, reflected polynomial [0xEDB88320]), bit by bit. *)
Fixpoint crc_bits (n : nat) (c : Z) : Z :=
  match n with
  | O => c
  | S n' => crc_bits n' (if Z.odd c then Z.lxor (Z.shiftr c 1) 0xEDB88320 else Z.shiftr c 1)
  end.
Definition crc32 (l : list byte) : Z :=
  Z.lxor (foldl (fun c b => crc_bits 8 (Z.lxor c b)) 0xFFFFFFFF l) 0xFFFFFFFF.

Fixpoint to_be_bytes (n : nat) (x : Z) : list byte :=
  match n with
  | O => []
  | S n' => to_be_bytes n' (Z.shiftr x 8) ++ [Z.land x 255]
  end.

(** The hash of the main-net genesis block. *)
Definition mainnet_genesis : list byte :=
  to_be_bytes 32 0xd4e56740f876aef8c010b86a40d5f56745a118d0906a34e69aec8c0db1cb8fa3.

(** The distinct activation blocks up to that of [h], genesis excluded. *)
Definition forks_until (h : Hardfork) : list Z :=
  remove_dups (filter (fun b => 0 < b <= fork_block h) (fork_block <$> all_hardforks)).

Definition eip2124_hash (h : Hardfork) : list byte :=
  to_be_bytes 4 (crc32 (mainnet_genesis ++ mbind (to_be_bytes 8) (forks_until h))).

Definition next_fork (h : Hardfork) : Z :=
  default 0 (list.head (filter (fun b => fork_block h < b) (fork_block <$> all_hardforks))).

(** The last hardfork activated at block [n], in activation order. *)
Definition active_fork (n : Z) : Hardfork :=
  foldl (fun acc h => if decide (fork_block h <= n) then h else acc) Frontier
    (removelast all_hardforks).

(** ** Properties *)

Lemma hardfork_cases (P : Hardfork -> Prop) : Forall P all_hardforks -> forall h, P h.
Proof. intros HF h. rewrite Forall_forall in HF. apply HF. destruct h; set_solver. Qed.

(** The fork ids: [next] is the next main-net activation block after the
    hardfork's own (0 when there is none), and the hash is the EIP-2124
    CRC-32 checksum of the genesis hash and of all activation blocks up to the
    hardfork's, except for Paris, Shanghai and Latest, whose constants are
    not that checksum. *)
Theorem fork_id_eip2124 h :
  fork_next (fork_id h) = next_fork h /\
  (fork_hash (fork_id h) = eip2124_hash h <-> h ∉ [Paris; Shanghai; Latest]).
Proof.
  revert h. apply hardfork_cases.
  repeat constructor; vm_compute; try done; try set_solver;
    intros H; exfalso; apply H; by repeat constructor.
Qed.

(** The hardfork the node selects for a main-net block number runs the
    EVM spec of the last hardfork active at that block, except in two ranges:
    between the Constantinople/Petersburg block and Istanbul it selects
    CONSTANTINOPLE although PETERSBURG is active since the same block, and
    between Gray Glacier and Paris it selects MERGE although the last active
    hardfork is Gray Glacier. *)
Theorem hardfork_of_block_spec n :
  0 <= n ->
  spec_of_hardfork (hardfork_of_block (BNumber n)) =
    if decide (7280000 <= n < 9069000) then CONSTANTINOPLE
    else if decide (15050000 <= n < 15537394) then MERGE
    else spec_of_hardfork (active_fork n).
Proof.
  intros Hn. unfold hardfork_of_block, active_fork. cbn [all_hardforks removelast foldl].
  repeat (case Z.ltb_spec; intros ?;
    [repeat first [rewrite decide_True by (cbn [fork_block]; lia)
                  |rewrite decide_False by (cbn [fork_block]; lia)]|]).
  all: repeat case_decide; cbn [fork_block] in *; try lia; done.
Qed.

Lemma hardfork_of_block_spec_witness :
  spec_of_hardfork (hardfork_of_block (BNumber 15100000)) = MERGE /\
  spec_of_hardfork (active_fork 15100000) = GRAY_GLACIER.
Proof. split; [|reflexivity]. exact (hardfork_of_block_spec 15100000 ltac:(done)). Defined.

(** Selecting a hardfork by its own activation block gives that hardfork
    back except for Homestead and Dao (which are exchanged), Petersburg
    (shadowed by Constantinople), Gray Glacier (whose range is Paris') and
    Shanghai (reported as Latest). *)
Theorem hardfork_of_block_roundtrip h :
  hardfork_of_block (BNumber (fork_block h)) = h <->
  h ∉ [Homestead; Dao; Petersburg; GrayGlacier; Shanghai].
Proof.
  revert h. apply hardfork_cases.
  repeat constructor; vm_compute; try done; try set_solver;
    intros H; exfalso; apply H; by repeat constructor.
Qed.

(** The hardfork option parser accepts exactly the names and numbers of
    its table, ignoring case, and every hardfork has a name. *)
Theorem hardfork_from_str_spec s h :
  (hardfork_from_str s = Ok h <-> (to_lowercase s, h) ∈ hardfork_names) /\
  hardfork_from_str (to_lowercase s) = hardfork_from_str s /\
  exists name, hardfork_from_str name = Ok h.
Proof.
  assert (NoDup hardfork_names.*1) as Hnd.
  { refine (bool_decide_unpack _ _). by vm_compute. }
  unfold hardfork_from_str. rewrite to_lowercase_idemp. split_and!; [|done|].
  - rewrite <- (assoc_str_Some _ _ _ Hnd). destruct (assoc_str _ _); naive_solver.
  - revert h. apply hardfork_cases.
    repeat constructor; [exists "frontier"%string|exists "homestead"%string|exists "dao"%string|exists "tangerine"%string
      |exists "spuriousdragon"%string|exists "byzantium"%string|exists "constantinople"%string|exists "petersburg"%string
      |exists "istanbul"%string|exists "muirglacier"%string|exists "berlin"%string|exists "london"%string
      |exists "arrowglacier"%string|exists "grayglacier"%string|exists "paris"%string|exists "shanghai"%string
      |exists "latest"%string]; reflexivity.
Qed.
