(* ===== verification/Block.v ===== *)
(** * Blocks, headers and receipts (anvil/core/src/eth/block.rs, receipt.rs)

    The data a mined block consists of.  [Bloom], the trie roots and the
    header hash are computed by library code; a [Bloom] is the integer of its
    2048 bits, and the functions that compute roots and hashes are arguments
    of the definitions that use them. *)
From S2P Require Import Prelude Transaction.
Open Scope Z_scope.

Abbreviation Bloom := Z (only parsing).

Record Log := mkLog { log_address : Address; log_topics : list H256; log_data : list byte }.

Record EIP658Receipt := mkReceipt {
  status_code : Z; receipt_gas_used : Z; receipt_logs_bloom : Bloom; receipt_logs : list Log }.

Inductive TypedReceipt :=
| LegacyReceipt (r : EIP658Receipt)
| EIP2930Receipt (r : EIP658Receipt)
| EIP1559Receipt (r : EIP658Receipt).

Definition receipt_body (r : TypedReceipt) : EIP658Receipt :=
  match r with LegacyReceipt r | EIP2930Receipt r | EIP1559Receipt r => r end.

Module TypedReceipt.
Definition gas_used (r : TypedReceipt) : Z :=
  match r with
  | LegacyReceipt r | EIP2930Receipt r | EIP1559Receipt r => receipt_gas_used r
  end.
Definition logs_bloom (r : TypedReceipt) : Bloom :=
  match r with
  | LegacyReceipt r | EIP2930Receipt r | EIP1559Receipt r => receipt_logs_bloom r
  end.
End TypedReceipt.

Module PartialHeader.
Record t := mk {
  parent_hash : H256; beneficiary : Address; state_root : H256; receipts_root : H256;
  logs_bloom : Bloom; difficulty : Z; number : Z; gas_limit : Z; gas_used : Z; timestamp : Z;
  extra_data : list byte; mix_hash : H256; nonce : Z; base_fee : option Z }.
End PartialHeader.

Module Header.
Record t := mk {
  parent_hash : H256; ommers_hash : H256; beneficiary : Address; state_root : H256;
  transactions_root : H256; receipts_root : H256; logs_bloom : Bloom; difficulty : Z;
  number : Z; gas_limit : Z; gas_used : Z; timestamp : Z; extra_data : list byte;
  mix_hash : H256; nonce : Z; base_fee_per_gas : option Z }.

Definition new (p : PartialHeader.t) (ommers_hash transactions_root : H256) : t :=
  mk (PartialHeader.parent_hash p) ommers_hash (PartialHeader.beneficiary p)
     (PartialHeader.state_root p) transactions_root (PartialHeader.receipts_root p)
     (PartialHeader.logs_bloom p) (PartialHeader.difficulty p) (PartialHeader.number p)
     (PartialHeader.gas_limit p) (PartialHeader.gas_used p) (PartialHeader.timestamp p)
     (PartialHeader.extra_data p) (PartialHeader.mix_hash p) (PartialHeader.nonce p)
     (PartialHeader.base_fee p).

(** [From<Header> for PartialHeader] *)
Definition to_partial (h : t) : PartialHeader.t :=
  PartialHeader.mk (parent_hash h) (beneficiary h) (state_root h) (receipts_root h)
    (logs_bloom h) (difficulty h) (number h) (gas_limit h) (gas_used h) (timestamp h)
    (extra_data h) (mix_hash h) (nonce h) (base_fee_per_gas h).
End Header.

Record Block := mkBlock {
  header : Header.t;
  transactions : list MaybeImpersonatedTransaction;
  ommers : list Header.t }.

(** [Block::new]; the two roots are computed by the RLP and trie libraries. *)
Definition block_new (ommers_root : list Header.t -> H256)
    (ordered_trie_root : list MaybeImpersonatedTransaction -> H256)
    (p : PartialHeader.t) (txs : list MaybeImpersonatedTransaction) (oms : list Header.t) : Block :=
  mkBlock (Header.new p (ommers_root oms) (ordered_trie_root txs)) txs oms.

(** Completing a partial header and forgetting the roots again is lossless. *)
Lemma header_partial_roundtrip p o t : Header.to_partial (Header.new p o t) = p.
Proof. by destruct p. Qed.
