(* ===== verification/Rlp.v ===== *)
(** * The wire format (anvil/core/src/eth/transaction/mod.rs, block.rs,
    receipt.rs, utils.rs; anvil/src/eth/api.rs)

    How transactions, requests, headers, blocks and receipts are written to
    and read from RLP bytes with the [rlp] crate.  The crate's stream, its
    lazy view [Rlp] of a byte string and the codecs of the primitive types are
    the class [RlpLib]; what the program relies on is [RlpLaws]. *)
From S2P Require Import Prelude Transaction Block.
Open Scope Z_scope.

Abbreviation bytes := (list Z) (only parsing).

Definition ISIZE_MAX : Z := 2 ^ 63 - 1.
(** No byte buffer of a Rust program is longer than [isize::MAX]. *)
Definition fits (b : bytes) : Prop := Z.of_nat (length b) <= ISIZE_MAX.
Definition is_byte (b : Z) : Prop := 0 <= b < 2 ^ 8.
Definition is_h64 (x : Z) : Prop := 0 <= x < 2 ^ 64.
Definition is_h160 (x : Z) : Prop := 0 <= x < 2 ^ 160.
Definition is_h256 (x : Z) : Prop := 0 <= x < 2 ^ 256.
Definition any_bool (b : bool) : Prop := True.
Definition is_bloom (x : Z) : Prop := 0 <= x < 2 ^ 2048.

(** ** The library *)
Inductive DecoderError :=
| RlpIsTooBig | RlpIsTooShort | RlpExpectedToBeList | RlpExpectedToBeData | RlpIncorrectListLen
| RlpDataLenWithZeroPrefix | RlpListLenWithZeroPrefix | RlpInvalidIndirection
| RlpInconsistentLengthAndData | RlpInvalidLength | Custom (message : string).

(** [Result<A, DecoderError>], with the [?] operator as its bind. *)
Definition decoded (A : Type) : Type := result A DecoderError.
#[export] Instance decoded_bind : MBind decoded := fun A B f m =>
  match m with Ok a => f a | Err e => Err e end.

(** [Encodable] and [Decodable] of a type. *)
Record codec (A : Type) := mkCodec {
  rlp_append : A -> bytes;
  rlp_decode : bytes -> decoded A }.
Arguments mkCodec {A} _ _.
Arguments rlp_append {A} _ _.
Arguments rlp_decode {A} _ _.

(** [encode_list] is [begin_list] with that many items appended after it; the
    methods of [Rlp] are functions of the bytes that it views. *)
Class RlpLib := {
  encode_value : bytes -> bytes;
  encode_list : list bytes -> bytes;
  is_list : bytes -> bool;
  is_data : bytes -> bool;
  is_empty : bytes -> bool;
  data : bytes -> decoded bytes;
  item_count : bytes -> decoded nat;
  at_ : bytes -> nat -> decoded bytes;
  val_at : forall {A}, codec A -> bytes -> nat -> decoded A;
  list_at : forall {A}, codec A -> bytes -> nat -> decoded (list A);
  rlp_u8 : codec Z;
  rlp_u64 : codec Z;
  rlp_u256 : codec Z;
  rlp_bool : codec bool;
  rlp_h64 : codec Z;
  rlp_h160 : codec Z;
  rlp_h256 : codec Z;
  rlp_bloom : codec Z;
  rlp_bytes : codec bytes;
  rlp_access_list_item : codec AccessListItem;
  rlp_access_list : codec (list AccessListItem) }.

(** The bytes of a hash or an address: [n] of them, the highest first. *)
Fixpoint be_bytes (n : nat) (x : Z) : bytes :=
  match n with O => [] | S n => be_bytes n (x / 256) ++ [x mod 256] end.

Definition wf_item (i : AccessListItem) : Prop :=
  is_h160 (item_address i) /\ Forall is_h256 (storage_keys i).

(** The elements of a list, decoded one after the other. *)
Fixpoint decode_all {A} (c : codec A) (l : list bytes) : decoded (list A) :=
  match l with
  | [] => Ok []
  | x :: l =>
      match rlp_decode c x with
      | Err e => Err e
      | Ok a => match decode_all c l with Err e => Err e | Ok l => Ok (a :: l) end
      end
  end.

(** [c] writes one item and reads a value [a] of [P] back as [f a]. *)
Definition reads_as {A} (item : bytes -> Prop) (c : codec A) (P : A -> Prop) (f : A -> A) : Prop :=
  forall a, P a -> fits (rlp_append c a) -> item (rlp_append c a) /\ rlp_decode c (rlp_append c a) = Ok (f a).
Abbreviation reads_back item c P := (reads_as item c P (fun a => a)).

Class RlpLaws `{!RlpLib} := {
  item : bytes -> Prop;
  value_item b : Forall is_byte b -> fits (encode_value b) -> item (encode_value b);
  list_item l : Forall item l -> fits (encode_list l) -> item (encode_list l);
  value_length b : (length b <= length (encode_value b))%nat;
  list_length l : (length (concat l) <= length (encode_list l))%nat;
  value_is_list b : Forall is_byte b -> fits (encode_value b) -> is_list (encode_value b) = false;
  value_is_data b : Forall is_byte b -> fits (encode_value b) -> is_data (encode_value b) = true;
  value_is_empty b : Forall is_byte b -> fits (encode_value b) ->
    is_empty (encode_value b) = bool_decide (b = []);
  value_data b : Forall is_byte b -> fits (encode_value b) -> data (encode_value b) = Ok b;
  list_is_list l : Forall item l -> fits (encode_list l) -> is_list (encode_list l) = true;
  list_data l : Forall item l -> fits (encode_list l) -> data (encode_list l) = Ok (concat l);
  list_first l : exists b r, encode_list l = b :: r /\ 192 <= b;
  item_nonempty b : item b -> b <> [];
  item_bytes b : item b -> Forall is_byte b;
  list_count l : Forall item l -> fits (encode_list l) -> item_count (encode_list l) = Ok (length l);
  list_nth l i x : Forall item l -> fits (encode_list l) -> l !! i = Some x -> at_ (encode_list l) i = Ok x;
  list_end l : Forall item l -> fits (encode_list l) -> exists e, at_ (encode_list l) (length l) = Err e;
  list_val {A} (c : codec A) l i x : Forall item l -> fits (encode_list l) -> l !! i = Some x ->
    val_at c (encode_list l) i = rlp_decode c x;
  list_list {A} (c : codec A) l i l' : Forall item l -> fits (encode_list l) -> l !! i = Some (encode_list l') ->
    Forall item l' -> list_at c (encode_list l) i = decode_all c l';
  u8_law : reads_back item rlp_u8 is_byte;
  u64_law : reads_back item rlp_u64 is_u64;
  u256_law : reads_back item rlp_u256 is_u256;
  bool_law : reads_back item rlp_bool any_bool;
  h64_law : reads_back item rlp_h64 is_h64;
  h160_law : reads_back item rlp_h160 is_h160;
  h256_law : reads_back item rlp_h256 is_h256;
  bloom_law : reads_back item rlp_bloom is_bloom;
  bytes_law : reads_back item rlp_bytes (Forall is_byte);
  access_list_item_law : reads_back item rlp_access_list_item wf_item;
  access_list_law : reads_back item rlp_access_list (Forall wf_item);
  bytes_value b : rlp_append rlp_bytes b = encode_value b;
  h160_value a : rlp_append rlp_h160 a = encode_value (be_bytes 20 a) }.

Section Codecs.
Context `{!RlpLib}.

(** [RlpStream::append_list] *)
Definition append_list {A} (c : codec A) (l : list A) : bytes := encode_list (rlp_append c <$> l).

(** ** Envelopes (utils.rs) *)
Definition enveloped {A} (c : codec A) (id : Z) (v : A) : bytes :=
  let encoded := rlp_append c v in
  let out := id :: encoded in
  rlp_append rlp_bytes out.

(** ** TransactionKind *)
Definition kind_append (k : TransactionKind) : bytes :=
  match k with
  | Call address => encode_value (be_bytes 20 address)
  | Create => encode_value []
  end.
Definition kind_decode (rlp : bytes) : decoded TransactionKind :=
  if is_empty rlp then if is_data rlp then Ok Create else Err RlpExpectedToBeData
  else to ← rlp_decode rlp_h160 rlp; Ok (Call to).
Definition rlp_kind : codec TransactionKind := mkCodec kind_append kind_decode.

(** ** Requests: what is signed *)
Definition legacy_request_append (tx : LegacyTransactionRequest.t) : bytes :=
  match LegacyTransactionRequest.chain_id tx with
  | Some chain_id =>
      encode_list
        [rlp_append rlp_u256 (LegacyTransactionRequest.nonce tx);
         rlp_append rlp_u256 (LegacyTransactionRequest.gas_price tx);
         rlp_append rlp_u256 (LegacyTransactionRequest.gas_limit tx);
         rlp_append rlp_kind (LegacyTransactionRequest.kind tx);
         rlp_append rlp_u256 (LegacyTransactionRequest.value tx);
         rlp_append rlp_bytes (LegacyTransactionRequest.input tx);
         rlp_append rlp_u64 chain_id;
         rlp_append rlp_u8 0;
         rlp_append rlp_u8 0]
  | None =>
      encode_list
        [rlp_append rlp_u256 (LegacyTransactionRequest.nonce tx);
         rlp_append rlp_u256 (LegacyTransactionRequest.gas_price tx);
         rlp_append rlp_u256 (LegacyTransactionRequest.gas_limit tx);
         rlp_append rlp_kind (LegacyTransactionRequest.kind tx);
         rlp_append rlp_u256 (LegacyTransactionRequest.value tx);
         rlp_append rlp_bytes (LegacyTransactionRequest.input tx)]
  end.
Definition eip2930_request_append (tx : EIP2930TransactionRequest.t) : bytes :=
  encode_list
    [rlp_append rlp_u64 (EIP2930TransactionRequest.chain_id tx);
     rlp_append rlp_u256 (EIP2930TransactionRequest.nonce tx);
     rlp_append rlp_u256 (EIP2930TransactionRequest.gas_price tx);
     rlp_append rlp_u256 (EIP2930TransactionRequest.gas_limit tx);
     rlp_append rlp_kind (EIP2930TransactionRequest.kind tx);
     rlp_append rlp_u256 (EIP2930TransactionRequest.value tx);
     rlp_append rlp_bytes (EIP2930TransactionRequest.input tx);
     append_list rlp_access_list_item (EIP2930TransactionRequest.access_list tx)].
Definition eip1559_request_append (tx : EIP1559TransactionRequest.t) : bytes :=
  encode_list
    [rlp_append rlp_u64 (EIP1559TransactionRequest.chain_id tx);
     rlp_append rlp_u256 (EIP1559TransactionRequest.nonce tx);
     rlp_append rlp_u256 (EIP1559TransactionRequest.max_priority_fee_per_gas tx);
     rlp_append rlp_u256 (EIP1559TransactionRequest.max_fee_per_gas tx);
     rlp_append rlp_u256 (EIP1559TransactionRequest.gas_limit tx);
     rlp_append rlp_kind (EIP1559TransactionRequest.kind tx);
     rlp_append rlp_u256 (EIP1559TransactionRequest.value tx);
     rlp_append rlp_bytes (EIP1559TransactionRequest.input tx);
     append_list rlp_access_list_item (EIP1559TransactionRequest.access_list tx)].

(** The argument of [keccak256] in the [hash] of a request. *)
Definition request_payload (req : TypedTransactionRequest) : bytes :=
  match req with
  | LegacyReq tx => legacy_request_append tx
  | EIP2930Req tx => 1 :: eip2930_request_append tx
  | EIP1559Req tx => 2 :: eip1559_request_append tx
  end.

(** ** Transactions *)
Definition legacy_append (tx : LegacyTransaction.t) : bytes :=
  encode_list
    [rlp_append rlp_u256 (LegacyTransaction.nonce tx);
     rlp_append rlp_u256 (LegacyTransaction.gas_price tx);
     rlp_append rlp_u256 (LegacyTransaction.gas_limit tx);
     rlp_append rlp_kind (LegacyTransaction.kind tx);
     rlp_append rlp_u256 (LegacyTransaction.value tx);
     rlp_append rlp_bytes (LegacyTransaction.input tx);
     rlp_append rlp_u64 (sig_v (LegacyTransaction.signature tx));
     rlp_append rlp_u256 (sig_r (LegacyTransaction.signature tx));
     rlp_append rlp_u256 (sig_s (LegacyTransaction.signature tx))].
Definition legacy_decode (rlp : bytes) : decoded LegacyTransaction.t :=
  n ← item_count rlp;
  if negb (n =? 9)%nat then Err RlpIncorrectListLen
  else
    v ← val_at rlp_u64 rlp 6;
    r ← val_at rlp_u256 rlp 7;
    s ← val_at rlp_u256 rlp 8;
    nonce ← val_at rlp_u256 rlp 0;
    gas_price ← val_at rlp_u256 rlp 1;
    gas_limit ← val_at rlp_u256 rlp 2;
    kind ← val_at rlp_kind rlp 3;
    value ← val_at rlp_u256 rlp 4;
    input ← val_at rlp_bytes rlp 5;
    Ok (LegacyTransaction.mk nonce gas_price gas_limit kind value input
          {| sig_r := r; sig_s := s; sig_v := v |}).
Definition rlp_legacy : codec LegacyTransaction.t := mkCodec legacy_append legacy_decode.

Definition eip2930_append (tx : EIP2930Transaction.t) : bytes :=
  encode_list
    [rlp_append rlp_u64 (EIP2930Transaction.chain_id tx);
     rlp_append rlp_u256 (EIP2930Transaction.nonce tx);
     rlp_append rlp_u256 (EIP2930Transaction.gas_price tx);
     rlp_append rlp_u256 (EIP2930Transaction.gas_limit tx);
     rlp_append rlp_kind (EIP2930Transaction.kind tx);
     rlp_append rlp_u256 (EIP2930Transaction.value tx);
     rlp_append rlp_bytes (EIP2930Transaction.input tx);
     rlp_append rlp_access_list (EIP2930Transaction.access_list tx);
     rlp_append rlp_bool (EIP2930Transaction.odd_y_parity tx);
     rlp_append rlp_u256 (EIP2930Transaction.r tx);
     rlp_append rlp_u256 (EIP2930Transaction.s tx)].
Definition eip2930_decode (rlp : bytes) : decoded EIP2930Transaction.t :=
  n ← item_count rlp;
  if negb (n =? 11)%nat then Err RlpIncorrectListLen
  else
    chain_id ← val_at rlp_u64 rlp 0;
    nonce ← val_at rlp_u256 rlp 1;
    gas_price ← val_at rlp_u256 rlp 2;
    gas_limit ← val_at rlp_u256 rlp 3;
    kind ← val_at rlp_kind rlp 4;
    value ← val_at rlp_u256 rlp 5;
    input ← val_at rlp_bytes rlp 6;
    access_list ← val_at rlp_access_list rlp 7;
    odd_y_parity ← val_at rlp_bool rlp 8;
    r ← val_at rlp_u256 rlp 9;
    s ← val_at rlp_u256 rlp 10;
    Ok (EIP2930Transaction.mk chain_id nonce gas_price gas_limit kind value input access_list
          odd_y_parity r s).
Definition rlp_eip2930 : codec EIP2930Transaction.t := mkCodec eip2930_append eip2930_decode.

Definition eip1559_append (tx : EIP1559Transaction.t) : bytes :=
  encode_list
    [rlp_append rlp_u64 (EIP1559Transaction.chain_id tx);
     rlp_append rlp_u256 (EIP1559Transaction.nonce tx);
     rlp_append rlp_u256 (EIP1559Transaction.max_priority_fee_per_gas tx);
     rlp_append rlp_u256 (EIP1559Transaction.max_fee_per_gas tx);
     rlp_append rlp_u256 (EIP1559Transaction.gas_limit tx);
     rlp_append rlp_kind (EIP1559Transaction.kind tx);
     rlp_append rlp_u256 (EIP1559Transaction.value tx);
     rlp_append rlp_bytes (EIP1559Transaction.input tx);
     rlp_append rlp_access_list (EIP1559Transaction.access_list tx);
     rlp_append rlp_bool (EIP1559Transaction.odd_y_parity tx);
     rlp_append rlp_u256 (EIP1559Transaction.r tx);
     rlp_append rlp_u256 (EIP1559Transaction.s tx)].
Definition eip1559_decode (rlp : bytes) : decoded EIP1559Transaction.t :=
  n ← item_count rlp;
  if negb (n =? 12)%nat then Err RlpIncorrectListLen
  else
    chain_id ← val_at rlp_u64 rlp 0;
    nonce ← val_at rlp_u256 rlp 1;
    max_priority_fee_per_gas ← val_at rlp_u256 rlp 2;
    max_fee_per_gas ← val_at rlp_u256 rlp 3;
    gas_limit ← val_at rlp_u256 rlp 4;
    kind ← val_at rlp_kind rlp 5;
    value ← val_at rlp_u256 rlp 6;
    input ← val_at rlp_bytes rlp 7;
    access_list ← val_at rlp_access_list rlp 8;
    odd_y_parity ← val_at rlp_bool rlp 9;
    r ← val_at rlp_u256 rlp 10;
    s ← val_at rlp_u256 rlp 11;
    Ok (EIP1559Transaction.mk chain_id nonce max_priority_fee_per_gas max_fee_per_gas gas_limit kind
          value input access_list odd_y_parity r s).
Definition rlp_eip1559 : codec EIP1559Transaction.t := mkCodec eip1559_append eip1559_decode.

Definition typed_append (t : TypedTransaction) : bytes :=
  match t with
  | Legacy tx => rlp_append rlp_legacy tx
  | EIP2930 tx => enveloped rlp_eip2930 1 tx
  | EIP1559 tx => enveloped rlp_eip1559 2 tx
  end.
Definition typed_decode (rlp : bytes) : decoded TypedTransaction :=
  data ← data rlp;
  match data with
  | [] => Err (Custom "empty slice")
  | first :: s =>
      if is_list rlp then tx ← rlp_decode rlp_legacy rlp; Ok (Legacy tx)
      else if first =? 1 then tx ← rlp_decode rlp_eip2930 s; Ok (EIP2930 tx)
      else if first =? 2 then tx ← rlp_decode rlp_eip1559 s; Ok (EIP1559 tx)
      else Err (Custom "invalid tx type")
  end.
Definition rlp_typed : codec TypedTransaction := mkCodec typed_append typed_decode.

(** The argument of [keccak256] in [TypedTransaction::hash]. *)
Definition hash_payload (t : TypedTransaction) : bytes :=
  match t with
  | Legacy tx => rlp_append rlp_legacy tx
  | EIP2930 tx => 1 :: rlp_append rlp_eip2930 tx
  | EIP1559 tx => 2 :: rlp_append rlp_eip1559 tx
  end.
(** The argument of [keccak256] in [TypedTransaction::impersonated_hash]. *)
Definition impersonated_payload (t : TypedTransaction) (sender : Address) : bytes :=
  typed_append t ++ be_bytes 20 sender.

Definition maybe_append (m : MaybeImpersonatedTransaction) : bytes := typed_append (mtx_transaction m).
Definition maybe_decode (rlp : bytes) : decoded MaybeImpersonatedTransaction :=
  transaction ← typed_decode rlp;
  Ok {| mtx_transaction := transaction; impersonated_sender := None |}.
Definition rlp_maybe : codec MaybeImpersonatedTransaction := mkCodec maybe_append maybe_decode.

(** The decoding part of [EthApi::send_raw_transaction]; [None] is the error
    [FailedToDecodeSignedTransaction]; empty data, which the caller rejects
    before, has no first byte to look at. *)
Definition decode_raw_transaction (data : bytes) : option TypedTransaction :=
  match data with
  | [] => None
  | b :: _ =>
      match (if 127 <? b then tx ← rlp_decode rlp_legacy data; Ok (Legacy tx)
             else rlp_decode rlp_typed (rlp_append rlp_bytes data)) with
      | Ok tx => Some tx
      | Err _ => None
      end
  end.

(** ** Headers and blocks *)
Definition header_append (h : Header.t) : bytes :=
  encode_list
    ([rlp_append rlp_h256 (Header.parent_hash h);
      rlp_append rlp_h256 (Header.ommers_hash h);
      rlp_append rlp_h160 (Header.beneficiary h);
      rlp_append rlp_h256 (Header.state_root h);
      rlp_append rlp_h256 (Header.transactions_root h);
      rlp_append rlp_h256 (Header.receipts_root h);
      rlp_append rlp_bloom (Header.logs_bloom h);
      rlp_append rlp_u256 (Header.difficulty h);
      rlp_append rlp_u256 (Header.number h);
      rlp_append rlp_u256 (Header.gas_limit h);
      rlp_append rlp_u256 (Header.gas_used h);
      rlp_append rlp_u64 (Header.timestamp h);
      rlp_append rlp_bytes (Header.extra_data h);
      rlp_append rlp_h256 (Header.mix_hash h);
      rlp_append rlp_h64 (Header.nonce h)] ++
     match Header.base_fee_per_gas h with
     | Some base_fee => [rlp_append rlp_u256 base_fee]
     | None => []
     end).
Definition header_decode (rlp : bytes) : decoded Header.t :=
  parent_hash ← val_at rlp_h256 rlp 0;
  ommers_hash ← val_at rlp_h256 rlp 1;
  beneficiary ← val_at rlp_h160 rlp 2;
  state_root ← val_at rlp_h256 rlp 3;
  transactions_root ← val_at rlp_h256 rlp 4;
  receipts_root ← val_at rlp_h256 rlp 5;
  logs_bloom ← val_at rlp_bloom rlp 6;
  difficulty ← val_at rlp_u256 rlp 7;
  number ← val_at rlp_u256 rlp 8;
  gas_limit ← val_at rlp_u256 rlp 9;
  gas_used ← val_at rlp_u256 rlp 10;
  timestamp ← val_at rlp_u64 rlp 11;
  extra_data ← val_at rlp_bytes rlp 12;
  mix_hash ← val_at rlp_h256 rlp 13;
  nonce ← val_at rlp_h64 rlp 14;
  base_fee_per_gas ←
    match at_ rlp 15 with
    | Ok base_fee => base_fee ← rlp_decode rlp_u256 base_fee; Ok (Some base_fee)
    | Err _ => Ok None
    end;
  Ok (Header.mk parent_hash ommers_hash beneficiary state_root transactions_root receipts_root logs_bloom
        difficulty number gas_limit gas_used timestamp extra_data mix_hash nonce base_fee_per_gas).
Definition rlp_header : codec Header.t := mkCodec header_append header_decode.

Definition block_append (b : Block) : bytes :=
  encode_list
    [rlp_append rlp_header (header b);
     append_list rlp_maybe (transactions b);
     append_list rlp_header (ommers b)].
Definition block_decode (rlp : bytes) : decoded Block :=
  header ← val_at rlp_header rlp 0;
  transactions ← list_at rlp_maybe rlp 1;
  ommers ← list_at rlp_header rlp 2;
  Ok (mkBlock header transactions ommers).
Definition rlp_block : codec Block := mkCodec block_append block_decode.

(** ** Logs and receipts *)
Definition log_append (l : Log) : bytes :=
  encode_list
    [rlp_append rlp_h160 (log_address l);
     append_list rlp_h256 (log_topics l);
     rlp_append rlp_bytes (log_data l)].
Definition log_decode (rlp : bytes) : decoded Log :=
  address ← val_at rlp_h160 rlp 0;
  topics ← list_at rlp_h256 rlp 1;
  data ← val_at rlp_bytes rlp 2;
  Ok (mkLog address topics data).
Definition rlp_log : codec Log := mkCodec log_append log_decode.

Definition receipt_append (r : EIP658Receipt) : bytes :=
  encode_list
    [rlp_append rlp_u8 (status_code r);
     rlp_append rlp_u256 (receipt_gas_used r);
     rlp_append rlp_bloom (receipt_logs_bloom r);
     append_list rlp_log (receipt_logs r)].
Definition receipt_decode (rlp : bytes) : decoded EIP658Receipt :=
  status_code ← val_at rlp_u8 rlp 0;
  gas_used ← val_at rlp_u256 rlp 1;
  logs_bloom ← val_at rlp_bloom rlp 2;
  logs ← list_at rlp_log rlp 3;
  Ok (mkReceipt status_code gas_used logs_bloom logs).
Definition rlp_receipt : codec EIP658Receipt := mkCodec receipt_append receipt_decode.

Definition typed_receipt_append (r : TypedReceipt) : bytes :=
  match r with
  | LegacyReceipt r => rlp_append rlp_receipt r
  | EIP2930Receipt r => enveloped rlp_receipt 1 r
  | EIP1559Receipt r => enveloped rlp_receipt 2 r
  end.
Definition typed_receipt_decode (rlp : bytes) : decoded TypedReceipt :=
  slice ← data rlp;
  match slice with
  | [] => Err (Custom "empty receipt")
  | first :: s =>
      if is_list rlp then r ← rlp_decode rlp_receipt rlp; Ok (LegacyReceipt r)
      else if first =? 1 then r ← rlp_decode rlp_receipt s; Ok (EIP2930Receipt r)
      else if first =? 2 then r ← rlp_decode rlp_receipt s; Ok (EIP1559Receipt r)
      else Err (Custom "unknown receipt type")
  end.
Definition rlp_typed_receipt : codec TypedReceipt := mkCodec typed_receipt_append typed_receipt_decode.
End Codecs.

(** ** Values the fields can hold *)
Definition wf_kind (k : TransactionKind) : Prop :=
  match k with Call to => is_h160 to | Create => True end.
Definition wf_legacy (tx : LegacyTransaction.t) : Prop :=
  is_u256 (LegacyTransaction.nonce tx) /\ is_u256 (LegacyTransaction.gas_price tx) /\
  is_u256 (LegacyTransaction.gas_limit tx) /\ wf_kind (LegacyTransaction.kind tx) /\
  is_u256 (LegacyTransaction.value tx) /\ Forall is_byte (LegacyTransaction.input tx) /\
  is_u64 (sig_v (LegacyTransaction.signature tx)) /\ is_u256 (sig_r (LegacyTransaction.signature tx)) /\
  is_u256 (sig_s (LegacyTransaction.signature tx)).
Definition wf_eip2930 (tx : EIP2930Transaction.t) : Prop :=
  is_u64 (EIP2930Transaction.chain_id tx) /\ is_u256 (EIP2930Transaction.nonce tx) /\
  is_u256 (EIP2930Transaction.gas_price tx) /\ is_u256 (EIP2930Transaction.gas_limit tx) /\
  wf_kind (EIP2930Transaction.kind tx) /\ is_u256 (EIP2930Transaction.value tx) /\
  Forall is_byte (EIP2930Transaction.input tx) /\ Forall wf_item (EIP2930Transaction.access_list tx) /\
  is_u256 (EIP2930Transaction.r tx) /\ is_u256 (EIP2930Transaction.s tx).
Definition wf_eip1559 (tx : EIP1559Transaction.t) : Prop :=
  is_u64 (EIP1559Transaction.chain_id tx) /\ is_u256 (EIP1559Transaction.nonce tx) /\
  is_u256 (EIP1559Transaction.max_priority_fee_per_gas tx) /\
  is_u256 (EIP1559Transaction.max_fee_per_gas tx) /\ is_u256 (EIP1559Transaction.gas_limit tx) /\
  wf_kind (EIP1559Transaction.kind tx) /\ is_u256 (EIP1559Transaction.value tx) /\
  Forall is_byte (EIP1559Transaction.input tx) /\ Forall wf_item (EIP1559Transaction.access_list tx) /\
  is_u256 (EIP1559Transaction.r tx) /\ is_u256 (EIP1559Transaction.s tx).
Definition wf_typed (t : TypedTransaction) : Prop :=
  match t with
  | Legacy tx => wf_legacy tx
  | EIP2930 tx => wf_eip2930 tx
  | EIP1559 tx => wf_eip1559 tx
  end.
Definition wf_request (req : TypedTransactionRequest) : Prop :=
  match req with
  | LegacyReq tx =>
      is_u256 (LegacyTransactionRequest.nonce tx) /\ is_u256 (LegacyTransactionRequest.gas_price tx) /\
      is_u256 (LegacyTransactionRequest.gas_limit tx) /\ wf_kind (LegacyTransactionRequest.kind tx) /\
      is_u256 (LegacyTransactionRequest.value tx) /\ Forall is_byte (LegacyTransactionRequest.input tx) /\
      match LegacyTransactionRequest.chain_id tx with Some c => is_u64 c | None => True end
  | EIP2930Req tx =>
      is_u64 (EIP2930TransactionRequest.chain_id tx) /\ is_u256 (EIP2930TransactionRequest.nonce tx) /\
      is_u256 (EIP2930TransactionRequest.gas_price tx) /\ is_u256 (EIP2930TransactionRequest.gas_limit tx) /\
      wf_kind (EIP2930TransactionRequest.kind tx) /\ is_u256 (EIP2930TransactionRequest.value tx) /\
      Forall is_byte (EIP2930TransactionRequest.input tx) /\
      Forall wf_item (EIP2930TransactionRequest.access_list tx)
  | EIP1559Req tx =>
      is_u64 (EIP1559TransactionRequest.chain_id tx) /\ is_u256 (EIP1559TransactionRequest.nonce tx) /\
      is_u256 (EIP1559TransactionRequest.max_priority_fee_per_gas tx) /\
      is_u256 (EIP1559TransactionRequest.max_fee_per_gas tx) /\
      is_u256 (EIP1559TransactionRequest.gas_limit tx) /\ wf_kind (EIP1559TransactionRequest.kind tx) /\
      is_u256 (EIP1559TransactionRequest.value tx) /\ Forall is_byte (EIP1559TransactionRequest.input tx) /\
      Forall wf_item (EIP1559TransactionRequest.access_list tx)
  end.
Definition wf_header (h : Header.t) : Prop :=
  is_h256 (Header.parent_hash h) /\ is_h256 (Header.ommers_hash h) /\ is_h160 (Header.beneficiary h) /\
  is_h256 (Header.state_root h) /\ is_h256 (Header.transactions_root h) /\ is_h256 (Header.receipts_root h) /\
  is_bloom (Header.logs_bloom h) /\ is_u256 (Header.difficulty h) /\ is_u256 (Header.number h) /\
  is_u256 (Header.gas_limit h) /\ is_u256 (Header.gas_used h) /\ is_u64 (Header.timestamp h) /\
  Forall is_byte (Header.extra_data h) /\ is_h256 (Header.mix_hash h) /\ is_h64 (Header.nonce h) /\
  match Header.base_fee_per_gas h with Some f => is_u256 f | None => True end.
Definition wf_maybe (m : MaybeImpersonatedTransaction) : Prop := wf_typed (mtx_transaction m).
Definition wf_block (b : Block) : Prop :=
  wf_header (header b) /\ Forall wf_maybe (transactions b) /\ Forall wf_header (ommers b).
Definition wf_log (l : Log) : Prop :=
  is_h160 (log_address l) /\ Forall is_h256 (log_topics l) /\ Forall is_byte (log_data l).
Definition wf_receipt (r : EIP658Receipt) : Prop :=
  is_byte (status_code r) /\ is_u256 (receipt_gas_used r) /\ is_bloom (receipt_logs_bloom r) /\
  Forall wf_log (receipt_logs r).
Definition wf_typed_receipt (r : TypedReceipt) : Prop := wf_receipt (receipt_body r).

(** ** Reading back *)
Lemma be_bytes_bytes n x : Forall is_byte (be_bytes n x).
Proof.
  revert x. induction n as [|n IH]; intros x; simpl; [constructor|].
  apply Forall_app. split; [apply IH|]. constructor; [|constructor]. unfold is_byte.
  pose proof (Z.mod_pos_bound x 256). lia.
Qed.
Lemma length_be_bytes n x : length (be_bytes n x) = n.
Proof. revert x. induction n as [|n IH]; intros x; simpl; [done|]. rewrite length_app, IH. simpl. lia. Qed.

Lemma be_bytes_inj n x y :
  0 <= x < 256 ^ Z.of_nat n -> 0 <= y < 256 ^ Z.of_nat n -> be_bytes n x = be_bytes n y -> x = y.
Proof.
  revert x y. induction n as [|n IH]; intros x y Hx Hy; [cbn in *; lia|].
  rewrite Nat2Z.inj_succ, Z.pow_succ_r in Hx, Hy by lia. cbn [be_bytes].
  intros [He [= Hm]]%app_inj_2; [|done].
  rewrite (Z.div_mod x 256), (Z.div_mod y 256), Hm by done. f_equal. f_equal.
  apply IH; [| |done]; (split; [apply Z.div_pos; lia|]; apply Z.div_lt_upper_bound; lia).
Qed.

Create HintDb rlp discriminated.

Lemma bind_ok {A B} (m : decoded A) (f : A -> decoded B) a r : m = Ok a -> f a = r -> m ≫= f = r.
Proof. by intros -> <-. Qed.

Section Laws.
Context `{!RlpLib} `{!RlpLaws}.

Lemma fits_value b : fits (encode_value b) -> fits b.
Proof. unfold fits. pose proof (value_length b). lia. Qed.
Lemma fits_in l x : fits (encode_list l) -> x ∈ l -> fits x.
Proof.
  unfold fits. pose proof (list_length l) as Hl. intros Hf (l1 & l2 & ->)%list_elem_of_split.
  rewrite concat_app, length_app in Hl. simpl in Hl. rewrite length_app in Hl. lia.
Qed.

Lemma fields_items l : fits (encode_list l) -> Forall (fun x => fits x -> item x) l -> Forall item l.
Proof.
  intros Hf Hl. apply Forall_forall. intros x Hx. rewrite Forall_forall in Hl.
  apply Hl; [done|]. by eapply fits_in.
Qed.

Lemma field_item {A} (c : codec A) P f a : reads_as item c P f -> P a -> fits (rlp_append c a) -> item (rlp_append c a).
Proof. intros Hr Ha Hf. by apply (Hr a Ha Hf). Qed.

Lemma list_field_items {A} (c : codec A) P f l :
  reads_as item c P f -> Forall P l -> fits (append_list c l) -> Forall item (rlp_append c <$> l).
Proof.
  intros Hr Hl Hf. apply fields_items; [done|].
  apply Forall_fmap, (Forall_impl P); [done|]. intros a Ha Hfa. by eapply field_item.
Qed.
Lemma list_field_item {A} (c : codec A) P f l :
  reads_as item c P f -> Forall P l -> fits (append_list c l) -> item (append_list c l).
Proof. intros Hr Hl Hf. apply list_item; [by eapply list_field_items|done]. Qed.

(** A field of a list is read back. *)
Lemma field_val {A} (c : codec A) P f l i a :
  Forall item l -> fits (encode_list l) -> l !! i = Some (rlp_append c a) ->
  reads_as item c P f -> P a -> val_at c (encode_list l) i = Ok (f a).
Proof.
  intros Hl Hf Hi Hr Ha. rewrite (list_val c l i _ Hl Hf Hi). apply (Hr a Ha).
  eapply fits_in; [done|]. by eapply list_elem_of_lookup_2.
Qed.

Lemma decode_all_ok {A} (c : codec A) P f l :
  reads_as item c P f -> Forall P l -> fits (append_list c l) ->
  decode_all c (rlp_append c <$> l) = Ok (f <$> l).
Proof.
  intros Hr Hl Hf. assert (forall a, a ∈ l -> fits (rlp_append c a)) as Hfs.
  { intros a Ha. eapply fits_in; [done|]. apply list_elem_of_fmap. by exists a. }
  clear Hf. induction Hl as [|a l Ha _ IH]; [done|]. rewrite !fmap_cons. cbn [decode_all].
  destruct (Hr a Ha (Hfs a ltac:(set_solver))) as [_ ->]. rewrite IH; [done|]. set_solver.
Qed.

Lemma field_list {A} (c : codec A) P f l i l' :
  Forall item l -> fits (encode_list l) -> l !! i = Some (append_list c l') ->
  reads_as item c P f -> Forall P l' -> list_at c (encode_list l) i = Ok (f <$> l').
Proof.
  intros Hl Hf Hi Hr Hl'.
  assert (fits (append_list c l')) as Hf'.
  { eapply fits_in; [done|]. by eapply list_elem_of_lookup_2. }
  rewrite (list_list c l i _ Hl Hf Hi); [by eapply decode_all_ok|by eapply list_field_items].
Qed.

(** Every field law, for the fields of a list. *)
Hint Resolve u8_law u64_law u256_law bool_law h64_law h160_law h256_law bloom_law bytes_law
  access_list_item_law access_list_law : rlp.

Lemma any_bool_I b : any_bool b.
Proof. exact I. Qed.
Hint Resolve any_bool_I : rlp.

Ltac rlp_items Hf :=
  apply fields_items; [exact Hf|]; repeat (constructor; [intros ?|]); [..|constructor];
  first [eapply field_item|eapply list_field_item]; eauto with rlp.
Ltac rlp_read Hl Hf :=
  repeat (eapply bind_ok;
    [first [eapply (field_val _ _ _ _ _ _ Hl Hf)|eapply (field_list _ _ _ _ _ _ Hl Hf)];
     [reflexivity|solve [eauto with rlp]|solve [eauto with rlp]]|cbv beta]).

Lemma kind_law : reads_back item rlp_kind wf_kind.
Proof.
  intros [to|]; cbn [rlp_append rlp_decode rlp_kind kind_append wf_kind]; intros Hk Hf.
  - rewrite <- (h160_value to) in *. split; [by apply (field_item _ _ _ _ h160_law)|].
    unfold kind_decode. rewrite h160_value, value_is_empty; [|apply be_bytes_bytes|by rewrite <- h160_value].
    rewrite <- h160_value. case_bool_decide as Hb; [by apply (f_equal length) in Hb|].
    destruct (h160_law to Hk Hf) as [_ ->]. done.
  - split; [by apply value_item|]. unfold kind_decode.
    rewrite value_is_empty, value_is_data by done. done.
Qed.
Hint Resolve kind_law : rlp.

(** A struct that is written as the list of its fields. *)
Ltac rlp_struct Hf :=
  match goal with
  | |- item (encode_list ?l) /\ _ =>
      let Hl := fresh "Hl" in
      assert (Forall item l) as Hl by rlp_items Hf;
      split; [by apply list_item|];
      try (rewrite (list_count _ Hl Hf); cbn -[val_at encode_list list_at at_]);
      rlp_read Hl Hf
  end.

Lemma legacy_law : reads_back item rlp_legacy wf_legacy.
Proof.
  intros tx (? & ? & ? & ? & ? & ? & ? & ? & ?) Hf. cbn [rlp_append rlp_decode rlp_legacy] in *.
  unfold legacy_append, legacy_decode in *. rlp_struct Hf. by destruct tx as [? ? ? ? ? ? []].
Qed.
Lemma eip2930_law : reads_back item rlp_eip2930 wf_eip2930.
Proof.
  intros tx (? & ? & ? & ? & ? & ? & ? & ? & ? & ?) Hf. cbn [rlp_append rlp_decode rlp_eip2930] in *.
  unfold eip2930_append, eip2930_decode in *. rlp_struct Hf. by destruct tx.
Qed.
Lemma eip1559_law : reads_back item rlp_eip1559 wf_eip1559.
Proof.
  intros tx (? & ? & ? & ? & ? & ? & ? & ? & ? & ? & ?) Hf. cbn [rlp_append rlp_decode rlp_eip1559] in *.
  unfold eip1559_append, eip1559_decode in *. rlp_struct Hf. by destruct tx.
Qed.
Lemma log_law : reads_back item rlp_log wf_log.
Proof.
  intros l (? & ? & ?) Hf. cbn [rlp_append rlp_decode rlp_log] in *.
  unfold log_append, log_decode in *. rlp_struct Hf. rewrite list_fmap_id. by destruct l.
Qed.
Hint Resolve legacy_law eip2930_law eip1559_law log_law : rlp.
Lemma receipt_law : reads_back item rlp_receipt wf_receipt.
Proof.
  intros r (? & ? & ? & ?) Hf. cbn [rlp_append rlp_decode rlp_receipt] in *.
  unfold receipt_append, receipt_decode in *. rlp_struct Hf. rewrite list_fmap_id. by destruct r.
Qed.
Hint Resolve receipt_law : rlp.

Lemma header_law : reads_back item rlp_header wf_header.
Proof.
  intros h (? & ? & ? & ? & ? & ? & ? & ? & ? & ? & ? & ? & ? & ? & ? & Hfee) Hf.
  cbn [rlp_append rlp_decode rlp_header] in *. unfold header_append, header_decode in *.
  destruct (Header.base_fee_per_gas h) as [fee|] eqn:Hb; cbn [app] in *.
  - rlp_struct Hf. rewrite (list_nth _ 15 (rlp_append rlp_u256 fee) Hl Hf eq_refl).
    destruct (u256_law fee Hfee) as [_ ->]; [eapply fits_in; [exact Hf|by apply (list_elem_of_lookup_2 _ 15)]|].
    cbn. rewrite <- Hb. by destruct h.
  - rlp_struct Hf. destruct (list_end _ Hl Hf) as [e He]. cbn [length] in He. rewrite He.
    cbn. rewrite <- Hb. by destruct h.
Qed.
Hint Resolve header_law : rlp.

(** An envelope is a byte string that starts with the type and goes on with
    the encoding. *)
Lemma enveloped_law {A} (c : codec A) P f id a :
  reads_as item c P f -> P a -> is_byte id -> fits (enveloped c id a) ->
  item (enveloped c id a) /\ data (enveloped c id a) = Ok (id :: rlp_append c a) /\
  is_list (enveloped c id a) = false /\ rlp_decode c (rlp_append c a) = Ok (f a).
Proof.
  unfold enveloped. rewrite bytes_value. intros Hr Ha Hid Hf. pose proof (fits_value _ Hf) as Hf'.
  assert (fits (rlp_append c a)) as Hfa by (unfold fits in *; cbn in *; lia).
  destruct (Hr a Ha Hfa) as [Hi Hd].
  assert (Forall is_byte (id :: rlp_append c a)) as Hb by (constructor; [done|by apply item_bytes]).
  split; [by apply value_item|]. split; [by apply value_data|]. split; [by apply value_is_list|done].
Qed.

(** A list that is not empty shows as data that are not empty. *)
Lemma list_data_cons l x : Forall item (x :: l) -> fits (encode_list (x :: l)) ->
  exists b r, data (encode_list (x :: l)) = Ok (b :: r).
Proof.
  intros Hl Hf. rewrite (list_data _ Hl Hf). inversion Hl as [|? ? Hx]. apply item_nonempty in Hx.
  destruct x as [|b r]; [done|]. by exists b, (r ++ concat l).
Qed.

Lemma legacy_fields tx : wf_legacy tx -> fits (legacy_append tx) ->
  exists x l, legacy_append tx = encode_list (x :: l) /\ Forall item (x :: l).
Proof.
  intros (? & ? & ? & ? & ? & ? & ? & ? & ?) Hf. eexists _, _. split; [reflexivity|]. rlp_items Hf.
Qed.
Lemma receipt_fields r : wf_receipt r -> fits (receipt_append r) ->
  exists x l, receipt_append r = encode_list (x :: l) /\ Forall item (x :: l).
Proof. intros (? & ? & ? & ?) Hf. eexists _, _. split; [reflexivity|]. rlp_items Hf. Qed.

Lemma typed_law : reads_back item rlp_typed wf_typed.
Proof.
  intros [tx|tx|tx] Hwf Hf; cbn [rlp_append rlp_decode rlp_typed typed_append wf_typed] in *; unfold typed_decode.
  - destruct (legacy_law tx Hwf Hf) as [Hi Hd]. split; [done|].
    destruct (legacy_fields tx Hwf Hf) as (x & l & He & Hl). cbn [rlp_append rlp_legacy] in *. rewrite He in *.
    destruct (list_data_cons _ _ Hl Hf) as (b & r & ->). cbn [mbind decoded_bind].
    rewrite (list_is_list _ Hl Hf), Hd. done.
  - destruct (enveloped_law _ _ _ 1 tx eip2930_law Hwf) as (Hi & -> & Hl & Hd); [done..|].
    split; [done|]. cbn [mbind decoded_bind]. rewrite Hl. cbn [Z.eqb Pos.eqb]. by rewrite Hd.
  - destruct (enveloped_law _ _ _ 2 tx eip1559_law Hwf) as (Hi & -> & Hl & Hd); [done..|].
    split; [done|]. cbn [mbind decoded_bind]. rewrite Hl. cbn [Z.eqb Pos.eqb]. by rewrite Hd.
Qed.

Lemma typed_receipt_law : reads_back item rlp_typed_receipt wf_typed_receipt.
Proof.
  intros [tx|tx|tx] Hwf Hf; cbn [rlp_append rlp_decode rlp_typed_receipt typed_receipt_append] in *;
    unfold wf_typed_receipt, typed_receipt_decode in *; cbn [receipt_body] in *.
  - destruct (receipt_law tx Hwf Hf) as [Hi Hd]. split; [done|].
    destruct (receipt_fields tx Hwf Hf) as (x & l & He & Hl). cbn [rlp_append rlp_receipt] in *. rewrite He in *.
    destruct (list_data_cons _ _ Hl Hf) as (b & r & ->). cbn [mbind decoded_bind].
    rewrite (list_is_list _ Hl Hf), Hd. done.
  - destruct (enveloped_law _ _ _ 1 tx receipt_law Hwf) as (Hi & -> & Hl & Hd); [done..|].
    split; [done|]. cbn [mbind decoded_bind]. rewrite Hl. cbn [Z.eqb Pos.eqb]. by rewrite Hd.
  - destruct (enveloped_law _ _ _ 2 tx receipt_law Hwf) as (Hi & -> & Hl & Hd); [done..|].
    split; [done|]. cbn [mbind decoded_bind]. rewrite Hl. cbn [Z.eqb Pos.eqb]. by rewrite Hd.
Qed.

(** Encoding forgets that a transaction is impersonated. *)
Lemma maybe_law : reads_as item rlp_maybe wf_maybe (fun m => mtx_new (mtx_transaction m)).
Proof.
  intros m Hwf Hf. destruct (typed_law (mtx_transaction m) Hwf Hf) as [Hi Hd]. split; [done|].
  cbn [rlp_decode rlp_maybe]. unfold maybe_decode. cbn [rlp_decode rlp_typed] in Hd.
  change (rlp_append rlp_maybe m) with (rlp_append rlp_typed (mtx_transaction m)). by rewrite Hd.
Qed.
Hint Resolve typed_law typed_receipt_law maybe_law : rlp.

Definition forget_senders (b : Block) : Block :=
  mkBlock (header b) ((fun m => mtx_new (mtx_transaction m)) <$> transactions b) (ommers b).

Lemma block_law : reads_as item rlp_block wf_block forget_senders.
Proof.
  intros b (? & ? & ?) Hf. cbn [rlp_append rlp_decode rlp_block] in *.
  unfold block_append, block_decode in *. rlp_struct Hf. rewrite list_fmap_id. done.
Qed.

(** ** Encodings determine what they encode *)
Lemma codec_inj {A} (c : codec A) P a b :
  reads_back item c P -> P a -> P b -> fits (rlp_append c a) -> rlp_append c a = rlp_append c b -> a = b.
Proof.
  intros Hr Ha Hb Hf He. destruct (Hr a Ha Hf) as [_ Hda]. rewrite He in Hf.
  destruct (Hr b Hb Hf) as [_ Hdb]. rewrite He in Hda. congruence.
Qed.

Lemma encode_list_inj l l' :
  Forall item l -> Forall item l' -> fits (encode_list l) -> encode_list l = encode_list l' -> l = l'.
Proof.
  intros Hl Hl' Hf He. assert (fits (encode_list l')) as Hf' by by rewrite <- He.
  pose proof (list_count _ Hl Hf) as Hc. rewrite He, (list_count _ Hl' Hf') in Hc. injection Hc as Hc.
  apply (list_eq_same_length _ _ (length l)); [done|done|]. intros i x y _ Hx Hy.
  pose proof (list_nth _ _ _ Hl Hf Hx) as Hn. rewrite He, (list_nth _ _ _ Hl' Hf' Hy) in Hn. congruence.
Qed.

Lemma append_list_inj {A} (c : codec A) P l l' :
  reads_back item c P -> Forall P l -> Forall P l' -> fits (append_list c l) ->
  append_list c l = append_list c l' -> l = l'.
Proof.
  intros Hr Hl Hl' Hf He. assert (fits (append_list c l')) as Hf' by by rewrite <- He.
  pose proof (decode_all_ok c P _ l Hr Hl Hf) as Hd.
  assert (rlp_append c <$> l = rlp_append c <$> l') as Hm.
  { apply encode_list_inj; [by eapply list_field_items..|done|done]. }
  rewrite Hm, (decode_all_ok c P _ l' Hr Hl' Hf'), !list_fmap_id in Hd. congruence.
Qed.

Ltac fit_field Hf := eapply fits_in; [exact Hf|rewrite ?elem_of_cons; tauto].
(** Two structs with the same encoding agree field by field. *)
Ltac rlp_same Hf He :=
  apply encode_list_inj in He; [|rlp_items Hf|rewrite He in Hf; rlp_items Hf|exact Hf];
  injection He; clear He; intros;
  repeat match goal with
  | E : kind_append ?a = kind_append ?b |- _ => change (rlp_append rlp_kind a = rlp_append rlp_kind b) in E
  | E : rlp_append ?c ?a = rlp_append ?c ?b |- _ =>
      eapply (codec_inj c _ a b) in E; [|solve [eauto with rlp]..|fit_field Hf]
  | E : append_list ?c ?a = append_list ?c ?b |- _ =>
      eapply (append_list_inj c _ a b) in E; [|solve [eauto with rlp]..|fit_field Hf]
  end.

Lemma legacy_request_inj tx tx' :
  wf_request (LegacyReq tx) -> wf_request (LegacyReq tx') -> fits (legacy_request_append tx) ->
  legacy_request_append tx = legacy_request_append tx' -> tx = tx'.
Proof.
  assert (is_byte 0) by done.
  destruct tx as [n p g k v i [c|]], tx' as [n' p' g' k' v' i' [c'|]]; cbn -[rlp_append];
    intros (? & ? & ? & ? & ? & ? & ?) (? & ? & ? & ? & ? & ? & ?) Hf He.
  - rlp_same Hf He. by subst.
  - apply encode_list_inj in He; [done|rlp_items Hf|rewrite He in Hf; rlp_items Hf|done].
  - apply encode_list_inj in He; [done|rlp_items Hf|rewrite He in Hf; rlp_items Hf|done].
  - rlp_same Hf He. by subst.
Qed.
Lemma eip2930_request_inj tx tx' :
  wf_request (EIP2930Req tx) -> wf_request (EIP2930Req tx') -> fits (eip2930_request_append tx) ->
  eip2930_request_append tx = eip2930_request_append tx' -> tx = tx'.
Proof.
  destruct tx, tx'; cbn -[rlp_append];
    intros (? & ? & ? & ? & ? & ? & ? & ?) (? & ? & ? & ? & ? & ? & ? & ?) Hf He. rlp_same Hf He. by subst.
Qed.
Lemma eip1559_request_inj tx tx' :
  wf_request (EIP1559Req tx) -> wf_request (EIP1559Req tx') -> fits (eip1559_request_append tx) ->
  eip1559_request_append tx = eip1559_request_append tx' -> tx = tx'.
Proof.
  destruct tx, tx'; cbn -[rlp_append];
    intros (? & ? & ? & ? & ? & ? & ? & ? & ?) (? & ? & ? & ? & ? & ? & ? & ? & ?) Hf He.
  rlp_same Hf He. by subst.
Qed.

(** The bytes of a list are not those of an envelope's content. *)
Lemma list_not_typed l id r : id < 192 -> encode_list l <> id :: r.
Proof. intros Hid He. destruct (list_first l) as (b & r' & Hb & ?). rewrite Hb in He. simplify_eq. lia. Qed.

Lemma legacy_request_list tx : exists l, legacy_request_append tx = encode_list l.
Proof. unfold legacy_request_append. destruct (LegacyTransactionRequest.chain_id tx); eauto. Qed.

(** C26: What a signature covers determines the request: two requests, of the same
    or of different types, with the same signing payload (the bytes that are
    hashed and signed) are the same request: type, chain, nonce, fees, recipient,
    value, data and access list.  Their fields are values of the source's types
    and the payload is at most [isize::MAX] bytes long, as every byte vector. *)
Theorem signing_payload_injective req req' :
  wf_request req -> wf_request req' -> fits (request_payload req) ->
  request_payload req = request_payload req' -> req = req'.
Proof.
  destruct req as [tx|tx|tx], req' as [tx'|tx'|tx']; cbn [request_payload]; intros Hw Hw' Hf He;
    try (destruct (legacy_request_list tx) as [l Hl]; rewrite Hl in He; by apply list_not_typed in He);
    try (destruct (legacy_request_list tx') as [l Hl]; rewrite Hl in He; symmetry in He;
         by apply list_not_typed in He);
    try done.
  - f_equal. by apply legacy_request_inj.
  - injection He as He. f_equal. apply eip2930_request_inj; [done..| |done]. unfold fits in *; cbn in *; lia.
  - injection He as He. f_equal. apply eip1559_request_inj; [done..| |done]. unfold fits in *; cbn in *; lia.
Qed.

(** C28: A signed transaction survives its encoding: the RLP form that blocks
    contain decodes to it, and so do the bytes that its hash is computed from
    when they are submitted with [eth_sendRawTransaction]. *)
Theorem transaction_rlp_roundtrip t :
  wf_typed t -> fits (typed_append t) ->
  typed_decode (typed_append t) = Ok t /\ decode_raw_transaction (hash_payload t) = Some t.
Proof.
  intros Hw Hf. destruct (typed_law t Hw Hf) as [_ Hd]. split; [done|].
  destruct t as [tx|tx|tx]; cbn [hash_payload wf_typed rlp_append rlp_decode rlp_typed rlp_legacy] in *.
  - destruct (legacy_law tx Hw Hf) as [_ Hdl]. cbn [rlp_append rlp_decode rlp_legacy] in Hdl.
    destruct (legacy_fields tx Hw Hf) as (x & l & He & _).
    destruct (list_first (x :: l)) as (b' & r' & Hb' & Hge').
    unfold decode_raw_transaction. rewrite He, Hb' in *.
    destruct (Z.ltb_spec 127 b'); [|lia]. cbn [rlp_decode rlp_legacy]. by rewrite Hdl.
  - unfold decode_raw_transaction.
    change (rlp_append rlp_bytes (1 :: rlp_append rlp_eip2930 tx)) with (typed_append (EIP2930 tx)).
    cbn -[typed_append typed_decode]. by rewrite Hd.
  - unfold decode_raw_transaction.
    change (rlp_append rlp_bytes (2 :: rlp_append rlp_eip1559 tx)) with (typed_append (EIP1559 tx)).
    cbn -[typed_append typed_decode]. by rewrite Hd.
Qed.

(** A block decodes to itself, except that impersonated transactions come back
    without their senders; headers, with or without a base fee, come back
    unchanged. *)
Theorem block_rlp_roundtrip b :
  wf_block b -> fits (block_append b) ->
  block_decode (block_append b) = Ok (forget_senders b) /\
  header_decode (header_append (header b)) = Ok (header b).
Proof.
  intros Hw Hf. split; [by apply block_law|]. apply header_law; [apply Hw|].
  eapply fits_in; [exact Hf|]. by apply (list_elem_of_lookup_2 _ 0).
Qed.

(** A receipt of each type, with its logs, decodes to itself. *)
Theorem receipt_rlp_roundtrip r :
  wf_typed_receipt r -> fits (typed_receipt_append r) ->
  typed_receipt_decode (typed_receipt_append r) = Ok r.
Proof. intros Hw Hf. by apply typed_receipt_law. Qed.

(** The bytes that transaction hashes are computed from determine the
    transaction, and for an impersonated one the sender too. *)
Theorem hash_payloads_injective t t' s s' :
  wf_typed t -> wf_typed t' -> is_h160 s -> is_h160 s' -> fits (typed_append t) -> fits (typed_append t') ->
  (hash_payload t = hash_payload t' -> t = t') /\
  (impersonated_payload t s = impersonated_payload t' s' -> t = t' /\ s = s').
Proof.
  intros Hw Hw' Hs Hs' Hf Hf'. split.
  - intros He. destruct (typed_law t Hw Hf) as [_ Hd], (typed_law t' Hw' Hf') as [_ Hd'].
    assert (typed_append t = typed_append t') as Ha.
    { destruct t as [tx|tx|tx], t' as [tx'|tx'|tx']; cbn [hash_payload] in He; try done;
        try (by apply list_not_typed in He); try (symmetry in He; by apply list_not_typed in He);
        unfold typed_append, enveloped; congruence. }
    cbn [rlp_append rlp_decode rlp_typed] in *. congruence.
  - intros He. apply app_inj_2 in He as [Ha Hb]; [|by rewrite !length_be_bytes].
    split; [by apply (codec_inj rlp_typed wf_typed); [apply typed_law|..]|].
    by apply (be_bytes_inj 20).
Qed.
End Laws.
