(* ===== verification/RlpSample.v ===== *)
(** * RLP

    The encoding of the Ethereum yellow paper (appendix B) as an instance of
    the library that the wire format uses: it satisfies the laws, and the
    round trips are evaluated on concrete transactions, blocks and receipts
    with it. *)
From S2P Require Import Prelude Transaction Block Rlp.
Open Scope Z_scope.

Module Spec.

(** ** Encoding *)
Definition value (b : bytes) : Z := fold_left (fun a x => a * 256 + x) b 0.
Fixpoint strip (b : bytes) : bytes :=
  match b with x :: r => if x =? 0 then strip r else b | [] => [] end.
Definition min_bytes (n : nat) (x : Z) : bytes := strip (be_bytes n x).

(** The header of a payload of [n] bytes. *)
Definition prefix (base : Z) (n : nat) : bytes :=
  if (n <=? 55)%nat then [base + Z.of_nat n]
  else let l := min_bytes 8 (Z.of_nat n) in (base + 55 + Z.of_nat (length l)) :: l.
Definition single (b : bytes) : bool := match b with [x] => x <? 128 | _ => false end.
Definition enc_value (b : bytes) : bytes := if single b then b else prefix 128 (length b) ++ b.
Definition enc_list (l : list bytes) : bytes := prefix 192 (length (concat l)) ++ concat l.

(** ** Parsing: the kind of the first item, its payload and what follows *)
Definition split (k : bool) (n : Z) (r : bytes) : option (bool * bytes * bytes) :=
  if decide (n <= Z.of_nat (length r)) then Some (k, take (Z.to_nat n) r, drop (Z.to_nat n) r) else None.
Definition split_long (k : bool) (n : Z) (r : bytes) : option (bool * bytes * bytes) :=
  split k (value (take (Z.to_nat n) r)) (drop (Z.to_nat n) r).
Definition parse (x : bytes) : option (bool * bytes * bytes) :=
  match x with
  | [] => None
  | b :: r =>
      if b <? 128 then Some (false, [b], r)
      else if b <=? 183 then split false (b - 128) r
      else if b <=? 191 then split_long false (b - 183) r
      else if b <=? 247 then split true (b - 192) r
      else split_long true (b - 247) r
  end.

Fixpoint split_items (n : nat) (x : bytes) : list bytes :=
  match n with
  | O => []
  | S n =>
      match parse x with
      | None => []
      | Some (_, _, r) => take (length x - length r) x :: split_items n r
      end
  end.
Definition items (x : bytes) : list bytes :=
  match parse x with Some (true, p, _) => split_items (length p) p | _ => [] end.

Definition dec_value (x : bytes) : decoded bytes :=
  match parse x with
  | Some (false, p, _) => Ok p
  | Some (true, _, _) => Err RlpExpectedToBeData
  | None => Err RlpIsTooShort
  end.
Definition dec_at (x : bytes) (i : nat) : decoded bytes :=
  match items x !! i with Some y => Ok y | None => Err RlpIsTooShort end.
Definition dec_val {A} (c : codec A) (x : bytes) (i : nat) : decoded A := y ← dec_at x i; rlp_decode c y.
Definition dec_list {A} (c : codec A) (x : bytes) (i : nat) : decoded (list A) :=
  y ← dec_at x i; decode_all c (items y).

(** ** Codecs *)
Definition fixed (n : nat) : codec Z :=
  mkCodec (fun x => enc_value (be_bytes n x))
    (fun r => p ← dec_value r; if (length p =? n)%nat then Ok (value p) else Err RlpInvalidLength).
Definition uint (n : nat) : codec Z :=
  mkCodec (fun x => enc_value (min_bytes n x))
    (fun r => p ← dec_value r;
       if (n <? length p)%nat then Err RlpIsTooBig
       else match p with 0 :: _ => Err RlpInvalidIndirection | _ => Ok (value p) end).
Definition boolean : codec bool :=
  mkCodec (fun b : bool => enc_value (if b then [1] else []))
    (fun r => p ← dec_value r;
       match p with [] => Ok false | [1] => Ok true | _ => Err RlpInvalidLength end).
Definition octets : codec bytes := mkCodec enc_value dec_value.
Definition access_item : codec AccessListItem :=
  mkCodec
    (fun i => enc_list [rlp_append (fixed 20) (item_address i); enc_list (rlp_append (fixed 32) <$> storage_keys i)])
    (fun r =>
       a ← dec_val (fixed 20) r 0;
       k ← dec_list (fixed 32) r 1;
       Ok {| item_address := a; storage_keys := k |}).
Definition access : codec (list AccessListItem) :=
  mkCodec (fun l => enc_list (rlp_append access_item <$> l)) (fun r => decode_all access_item (items r)).

#[export] Instance lib : RlpLib := {|
  encode_value := enc_value;
  encode_list := enc_list;
  is_list x := match x with b :: _ => 192 <=? b | [] => false end;
  is_data x := match x with b :: _ => b <? 192 | [] => true end;
  is_empty x := match x with b :: _ => (b =? 128) || (b =? 192) | [] => false end;
  data x := match parse x with Some (_, p, _) => Ok p | None => Err RlpIsTooShort end;
  item_count x := Ok (length (items x));
  at_ := dec_at;
  val_at := @dec_val;
  list_at := @dec_list;
  rlp_u8 := uint 1;
  rlp_u64 := uint 8;
  rlp_u256 := uint 32;
  rlp_bool := boolean;
  rlp_h64 := fixed 8;
  rlp_h160 := fixed 20;
  rlp_h256 := fixed 32;
  rlp_bloom := fixed 256;
  rlp_bytes := octets;
  rlp_access_list_item := access_item;
  rlp_access_list := access |}.

(** ** Numbers *)
Lemma value_snoc b x : value (b ++ [x]) = value b * 256 + x.
Proof. unfold value. by rewrite fold_left_app. Qed.
Lemma value_be_bytes n x : 0 <= x < 256 ^ Z.of_nat n -> value (be_bytes n x) = x.
Proof.
  revert x. induction n as [|n IH]; intros x Hx; [cbn in *; lia|].
  rewrite Nat2Z.inj_succ, Z.pow_succ_r in Hx by lia. cbn [be_bytes]. rewrite value_snoc, IH.
  - pose proof (Z.div_mod x 256). lia.
  - split; [apply Z.div_pos; lia|]. apply Z.div_lt_upper_bound; lia.
Qed.
Lemma value_strip b : value (strip b) = value b.
Proof.
  induction b as [|x b IH]; [done|]. cbn [strip]. destruct (Z.eqb_spec x 0) as [->|]; [|done]. by rewrite IH.
Qed.
Lemma strip_suffix b : exists z, b = z ++ strip b.
Proof.
  induction b as [|x b [z IH]]; [by exists []|]. cbn [strip]. destruct (Z.eqb_spec x 0); [|by exists []].
  exists (x :: z). cbn. by f_equal.
Qed.
Lemma strip_first b r : strip b <> 0 :: r.
Proof. induction b as [|x b IH]; [done|]. cbn [strip]. destruct (Z.eqb_spec x 0); [done|]. congruence. Qed.
Lemma min_bytes_value n x : 0 <= x < 256 ^ Z.of_nat n -> value (min_bytes n x) = x.
Proof. intros Hx. unfold min_bytes. rewrite value_strip. by apply value_be_bytes. Qed.
Lemma min_bytes_length n x : (length (min_bytes n x) <= n)%nat.
Proof.
  unfold min_bytes. destruct (strip_suffix (be_bytes n x)) as [z Hz].
  apply (f_equal length) in Hz. rewrite length_app, length_be_bytes in Hz. lia.
Qed.
Lemma min_bytes_bytes n x : Forall is_byte (min_bytes n x).
Proof.
  unfold min_bytes. destruct (strip_suffix (be_bytes n x)) as [z Hz]. pose proof (be_bytes_bytes n x) as Hb.
  rewrite Hz, Forall_app in Hb. apply Hb.
Qed.

(** ** Parsing what was encoded *)
Lemma split_app k p r : split k (Z.of_nat (length p)) (p ++ r) = Some (k, p, r).
Proof.
  unfold split. rewrite decide_True by (rewrite length_app; lia).
  by rewrite Nat2Z.id, take_app_length, drop_app_length.
Qed.
Lemma min_bytes_8 n : fits (repeat 0 n) -> (55 < n)%nat ->
  1 <= Z.of_nat (length (min_bytes 8 (Z.of_nat n))) <= 8 /\ value (min_bytes 8 (Z.of_nat n)) = Z.of_nat n.
Proof.
  unfold fits, ISIZE_MAX. rewrite repeat_length. intros Hf Hn.
  assert (value (min_bytes 8 (Z.of_nat n)) = Z.of_nat n) as Hv by (apply min_bytes_value; cbn; lia).
  pose proof (min_bytes_length 8 (Z.of_nat n)). split; [|done].
  destruct (min_bytes 8 (Z.of_nat n)); cbn in *; lia.
Qed.

Lemma parse_prefix (k : bool) p r : fits p ->
  parse (prefix (if k then 192 else 128) (length p) ++ p ++ r) = Some (k, p, r).
Proof.
  intros Hf. unfold prefix. destruct (Nat.leb_spec (length p) 55) as [Hle|Hgt].
  - cbn [app parse]. destruct k.
    + destruct (Z.ltb_spec (192 + Z.of_nat (length p)) 128); [lia|].
      destruct (Z.leb_spec (192 + Z.of_nat (length p)) 183); [lia|].
      destruct (Z.leb_spec (192 + Z.of_nat (length p)) 191); [lia|].
      destruct (Z.leb_spec (192 + Z.of_nat (length p)) 247); [|lia].
      rewrite Z.add_simpl_l. apply split_app.
    + destruct (Z.ltb_spec (128 + Z.of_nat (length p)) 128); [lia|].
      destruct (Z.leb_spec (128 + Z.of_nat (length p)) 183); [|lia].
      rewrite Z.add_simpl_l. apply split_app.
  - destruct (min_bytes_8 (length p)) as [Hl Hv]; [unfold fits in *; by rewrite repeat_length|done|].
    set (m := min_bytes 8 (Z.of_nat (length p))) in *. cbn [app parse].
    assert (forall k', split_long k' (Z.of_nat (length m)) (m ++ p ++ r) = Some (k', p, r)) as Hs.
    { intros k'. unfold split_long. rewrite Nat2Z.id, take_app_length, drop_app_length, Hv. apply split_app. }
    destruct k.
    + destruct (Z.ltb_spec (192 + 55 + Z.of_nat (length m)) 128); [lia|].
      destruct (Z.leb_spec (192 + 55 + Z.of_nat (length m)) 183); [lia|].
      destruct (Z.leb_spec (192 + 55 + Z.of_nat (length m)) 191); [lia|].
      destruct (Z.leb_spec (192 + 55 + Z.of_nat (length m)) 247); [lia|].
      rewrite <- (Hs true). f_equal. lia.
    + destruct (Z.ltb_spec (128 + 55 + Z.of_nat (length m)) 128); [lia|].
      destruct (Z.leb_spec (128 + 55 + Z.of_nat (length m)) 183); [lia|].
      destruct (Z.leb_spec (128 + 55 + Z.of_nat (length m)) 191); [|lia].
      rewrite <- (Hs false). f_equal. lia.
Qed.

Lemma single_inv b : single b = true -> exists x, b = [x] /\ x < 128.
Proof. destruct b as [|x [|? ?]]; cbn; try done. intros Hx%Z.ltb_lt. by exists x. Qed.
Lemma parse_value b r : fits b -> parse (enc_value b ++ r) = Some (false, b, r).
Proof.
  intros Hf. unfold enc_value. destruct (single b) eqn:Hs.
  - destruct (single_inv b Hs) as (x & -> & Hx). cbn. by destruct (Z.ltb_spec x 128); [|lia].
  - rewrite <- app_assoc. by apply (parse_prefix false).
Qed.
Lemma parse_list l r : fits (concat l) -> parse (enc_list l ++ r) = Some (true, concat l, r).
Proof. intros Hf. unfold enc_list. rewrite <- app_assoc. by apply (parse_prefix true). Qed.

(** ** Items *)
Definition is_item (x : bytes) : Prop :=
  x <> [] /\ Forall is_byte x /\ forall r, exists k p, parse (x ++ r) = Some (k, p, r).

Lemma split_items_concat l n : Forall is_item l -> (length l <= n)%nat -> split_items n (concat l) = l.
Proof.
  intros Hl. revert n. induction Hl as [|x l (Hne & _ & Hp) _ IH]; intros n Hn; [by destruct n|].
  destruct n as [|n]; [cbn in Hn; lia|]. cbn [concat split_items]. destruct (Hp (concat l)) as (k & p & ->).
  rewrite length_app, Nat.add_sub, take_app_length. f_equal. apply IH. cbn in Hn. lia.
Qed.
Lemma items_length l : Forall is_item l -> (length l <= length (concat l))%nat.
Proof.
  induction 1 as [|x l (Hne & _) _ IH]; [done|]. cbn. rewrite length_app. destruct x; [done|]. cbn. lia.
Qed.
Lemma items_list l : Forall is_item l -> fits (concat l) -> items (enc_list l) = l.
Proof.
  intros Hl Hf. unfold items. rewrite <- (app_nil_r (enc_list l)), parse_list by done.
  apply split_items_concat; [done|by apply items_length].
Qed.

Lemma prefix_bytes base n : 0 <= base -> base + 63 < 256 -> fits (repeat 0 n) -> Forall is_byte (prefix base n).
Proof.
  intros Hb Hb' Hf. unfold prefix. destruct (Nat.leb_spec n 55); (constructor; [|]); unfold is_byte.
  - lia.
  - constructor.
  - destruct (min_bytes_8 n Hf); lia.
  - apply min_bytes_bytes.
Qed.
Lemma prefix_first base n : exists b r, prefix base n = b :: r /\ base <= b.
Proof. unfold prefix. destruct (Nat.leb_spec n 55); eexists _, _; (split; [reflexivity|]); lia. Qed.

Lemma fits_repeat (b : bytes) : fits b -> fits (repeat 0 (length b)).
Proof. unfold fits. by rewrite repeat_length. Qed.
Lemma enc_value_length b : (length b <= length (enc_value b))%nat.
Proof. unfold enc_value. destruct (single b); [done|]. rewrite length_app. lia. Qed.
Lemma enc_list_length l : (length (concat l) <= length (enc_list l))%nat.
Proof. unfold enc_list. rewrite length_app. lia. Qed.
Lemma enc_value_fits b : fits (enc_value b) -> fits b.
Proof. unfold fits. pose proof (enc_value_length b). lia. Qed.
Lemma enc_list_fits l : fits (enc_list l) -> fits (concat l).
Proof. unfold fits. pose proof (enc_list_length l). lia. Qed.

Lemma enc_value_item b : Forall is_byte b -> fits (enc_value b) -> is_item (enc_value b).
Proof.
  intros Hb Hf%enc_value_fits. split; [|split].
  - unfold enc_value. destruct (single b) eqn:Hs; [by destruct b|].
    destruct (prefix_first 128 (length b)) as (x & r & -> & _). done.
  - unfold enc_value. destruct (single b); [done|]. apply Forall_app. split; [|done].
    apply prefix_bytes; [done..|by apply fits_repeat].
  - intros r. exists false, b. by apply parse_value.
Qed.
Lemma enc_list_item l : Forall is_item l -> fits (enc_list l) -> is_item (enc_list l).
Proof.
  intros Hl Hf%enc_list_fits. split; [|split].
  - unfold enc_list. destruct (prefix_first 192 (length (concat l))) as (x & r & -> & _). done.
  - unfold enc_list. apply Forall_app. split; [apply prefix_bytes; [done..|by apply fits_repeat]|].
    clear Hf. induction Hl as [|x l (_ & Hx & _) _ IH]; cbn; [constructor|]. by apply Forall_app.
  - intros r. exists true, (concat l). by apply parse_list.
Qed.

(** The first byte of a value. *)
Lemma enc_value_first b : Forall is_byte b -> fits b ->
  exists x r, enc_value b = x :: r /\ x < 192 /\ (x =? 128) = bool_decide (b = []).
Proof.
  intros Hb Hf. unfold enc_value. destruct (single b) eqn:Hs.
  - destruct (single_inv b Hs) as (x & -> & Hx). exists x, []. split; [done|]. split; [lia|].
    rewrite bool_decide_false by done. lia.
  - unfold prefix. destruct (Nat.leb_spec (length b) 55).
    + eexists _, _. split; [reflexivity|]. split; [lia|]. case_bool_decide as Hn; [by subst|].
      destruct b; [done|]. cbn. apply Z.eqb_neq. lia.
    + destruct (min_bytes_8 (length b)) as [Hl _]; [by apply fits_repeat|done|].
      eexists _, _. split; [reflexivity|]. split; [lia|]. case_bool_decide; [subst; cbn in *; lia|lia].
Qed.

Lemma dec_value_enc b : fits (enc_value b) -> dec_value (enc_value b) = Ok b.
Proof.
  intros Hf%enc_value_fits. unfold dec_value. rewrite <- (app_nil_r (enc_value b)), parse_value; done.
Qed.

(** ** The codecs *)
Lemma fixed_law n P : (forall x, P x -> 0 <= x < 256 ^ Z.of_nat n) -> reads_back is_item (fixed n) P.
Proof.
  intros HP x Hx Hf. cbn in *. split; [by apply enc_value_item; [apply be_bytes_bytes|]|].
  rewrite dec_value_enc by done. cbn. rewrite length_be_bytes, Nat.eqb_refl. f_equal.
  by apply value_be_bytes, HP.
Qed.
Lemma uint_law n P : (forall x, P x -> 0 <= x < 256 ^ Z.of_nat n) -> reads_back is_item (uint n) P.
Proof.
  intros HP x Hx Hf. cbn [rlp_append rlp_decode uint] in *.
  split; [by apply enc_value_item; [apply min_bytes_bytes|]|].
  rewrite dec_value_enc by done. cbn [mbind decoded_bind]. pose proof (min_bytes_length n x).
  destruct (Nat.ltb_spec n (length (min_bytes n x))); [lia|].
  pose proof (min_bytes_value n x (HP x Hx)) as Hv. pose proof (strip_first (be_bytes n x)) as Hz.
  fold (min_bytes n x) in Hz. destruct (min_bytes n x) as [|[|?|?] ?]; [|by destruct (Hz l)|..]; f_equal; exact Hv.
Qed.
Lemma boolean_law : reads_back is_item boolean any_bool.
Proof.
  intros b _ Hf. cbn in *. split; [apply enc_value_item; [|done]; by destruct b; repeat constructor|].
  rewrite dec_value_enc by done. by destruct b.
Qed.
Lemma octets_law : reads_back is_item octets (Forall is_byte).
Proof. intros b Hb Hf. split; [by apply enc_value_item|by apply dec_value_enc]. Qed.

Lemma fits_part l x : fits (enc_list l) -> x ∈ l -> fits x.
Proof.
  unfold fits. pose proof (enc_list_length l) as Hl. intros Hf (l1 & l2 & ->)%list_elem_of_split.
  rewrite concat_app, length_app in Hl. cbn in Hl. rewrite length_app in Hl. lia.
Qed.
Lemma list_items {A} (c : codec A) P l :
  reads_back is_item c P -> Forall P l -> fits (enc_list (rlp_append c <$> l)) ->
  Forall is_item (rlp_append c <$> l) /\ decode_all c (rlp_append c <$> l) = Ok l.
Proof.
  intros Hr Hl Hf. assert (forall a, a ∈ l -> fits (rlp_append c a)) as Hfs.
  { intros a Ha. eapply fits_part; [done|]. apply list_elem_of_fmap. by exists a. }
  clear Hf. induction Hl as [|a l Ha _ IH]; [by split; [constructor|]|]. rewrite fmap_cons. cbn [decode_all].
  destruct (Hr a Ha (Hfs a ltac:(set_solver))) as [Hi ->]. destruct IH as [IHi IHd]; [set_solver|].
  split; [by constructor|by rewrite IHd].
Qed.

Lemma dec_at_enc l i x : Forall is_item l -> fits (enc_list l) -> l !! i = Some x -> dec_at (enc_list l) i = Ok x.
Proof. intros Hl Hf%enc_list_fits Hi. unfold dec_at. by rewrite items_list, Hi. Qed.

Lemma h256_fixed : reads_back is_item (fixed 32) is_h256.
Proof. by apply fixed_law. Qed.

Lemma access_item_law : reads_back is_item access_item wf_item.
Proof.
  intros [a ks] [Ha Hk] Hf. cbn [rlp_append rlp_decode access_item item_address storage_keys] in *.
  assert (fits (rlp_append (fixed 20) a)) as Hfa by (eapply fits_part; [exact Hf|set_solver]).
  assert (fits (enc_list (rlp_append (fixed 32) <$> ks))) as Hfk by (eapply fits_part; [exact Hf|set_solver]).
  destruct (fixed_law 20 is_h160 ltac:(done) a Ha Hfa) as [Hia Hda].
  destruct (list_items (fixed 32) is_h256 ks h256_fixed Hk Hfk) as [Hik Hdk].
  assert (Forall is_item [rlp_append (fixed 20) a; enc_list (rlp_append (fixed 32) <$> ks)]) as Hl.
  { constructor; [apply Hia|constructor; [apply (enc_list_item _ Hik Hfk)|constructor]]. }
  split; [by apply enc_list_item|].
  unfold dec_val, dec_list.
  rewrite (dec_at_enc _ 0 (rlp_append (fixed 20) a) Hl Hf eq_refl),
    (dec_at_enc _ 1 (enc_list (rlp_append (fixed 32) <$> ks)) Hl Hf eq_refl).
  cbn [mbind decoded_bind]. rewrite Hda. cbn [mbind decoded_bind].
  rewrite items_list by (done || by apply enc_list_fits). by rewrite Hdk.
Qed.

#[export] Instance laws : RlpLaws.
Proof.
  refine {| item := is_item |}; cbn [encode_value encode_list is_list is_data is_empty data item_count at_ val_at
    list_at rlp_u8 rlp_u64 rlp_u256 rlp_bool rlp_h64 rlp_h160 rlp_h256 rlp_bloom rlp_bytes rlp_access_list_item
    rlp_access_list lib].
  - apply enc_value_item.
  - apply enc_list_item.
  - apply enc_value_length.
  - apply enc_list_length.
  - intros b Hb Hf%enc_value_fits. destruct (enc_value_first b Hb Hf) as (x & r & -> & ? & _). lia.
  - intros b Hb Hf%enc_value_fits. destruct (enc_value_first b Hb Hf) as (x & r & -> & ? & _). lia.
  - intros b Hb Hf%enc_value_fits. destruct (enc_value_first b Hb Hf) as (x & r & -> & ? & <-). lia.
  - intros b Hb Hf%enc_value_fits. by rewrite <- (app_nil_r (enc_value b)), parse_value.
  - intros l _ _. unfold enc_list. destruct (prefix_first 192 (length (concat l))) as (x & r & -> & ?). cbn. lia.
  - intros l Hl Hf%enc_list_fits. by rewrite <- (app_nil_r (enc_list l)), parse_list.
  - intros l. unfold enc_list. destruct (prefix_first 192 (length (concat l))) as (x & r & -> & ?).
    by exists x, (r ++ concat l).
  - by intros b [? _].
  - by intros b (_ & ? & _).
  - intros l Hl Hf%enc_list_fits. by rewrite items_list.
  - intros l i x Hl Hf Hi. by apply dec_at_enc.
  - intros l Hl Hf%enc_list_fits. unfold dec_at. rewrite items_list, lookup_ge_None_2 by done. eauto.
  - intros A c l i x Hl Hf Hi. unfold dec_val. by rewrite (dec_at_enc l i x).
  - intros A c l i l' Hl Hf Hi Hl'. unfold dec_list. rewrite (dec_at_enc l i _ Hl Hf Hi). cbn.
    rewrite items_list; [done|done|]. apply enc_list_fits. eapply fits_part; [done|].
    by eapply list_elem_of_lookup_2.
  - by apply uint_law.
  - apply uint_law. unfold_bounds. lia.
  - apply uint_law. unfold_bounds. lia.
  - apply boolean_law.
  - by apply fixed_law.
  - by apply fixed_law.
  - by apply fixed_law.
  - by apply fixed_law.
  - apply octets_law.
  - apply access_item_law.
  - intros l Hl Hf. destruct (list_items access_item wf_item l access_item_law Hl Hf) as [Hi Hd].
    cbn [rlp_append rlp_decode access] in *. split; [by apply enc_list_item|].
    by rewrite items_list by (done || by apply enc_list_fits).
  - done.
  - done.
Defined.

(** ** Concrete values *)
Definition legacy_tx : LegacyTransaction.t :=
  LegacyTransaction.mk 7 (20 * 10 ^ 9) 21000 (Call 17) (10 ^ 18) [1; 200; 0]
    {| sig_r := 2 ^ 255; sig_s := 5; sig_v := 62709 |}.
Definition dynamic_tx : EIP1559Transaction.t :=
  EIP1559Transaction.mk 31337 0 (10 ^ 9) (2 * 10 ^ 9) 100000 Create 0 (repeat 96 60)
    [{| item_address := 17; storage_keys := [0; 2 ^ 256 - 1] |}] true 9 (2 ^ 200).
Definition list_tx : EIP2930Transaction.t :=
  EIP2930Transaction.mk 1 2 3 4 (Call 0) 5 [] [] false 6 7.

(** Bounds of concrete fields. *)
Ltac wf_concrete :=
  repeat match goal with
  | |- _ /\ _ => split
  | |- Forall _ _ => constructor
  | |- wf_typed _ => hnf
  | |- wf_header _ => hnf
  | |- wf_maybe _ => hnf
  | |- wf_item _ => hnf
  | |- wf_log _ => hnf
  | |- wf_receipt _ => hnf
  | |- wf_request _ => hnf
  | |- match _ with _ => _ end => hnf
  | |- is_u256 _ => hnf
  | |- is_u64 _ => hnf
  | |- _ => done
  end.
Lemma legacy_tx_wf : wf_typed (Legacy legacy_tx).
Proof. wf_concrete. Qed.
Lemma dynamic_tx_wf : wf_typed (EIP1559 dynamic_tx).
Proof. wf_concrete. Qed.

Definition head_header : Header.t := Header.mk 1 2 3 4 5 6 (2 ^ 2047) 0 8 30000000 21000 1700000000 [0; 255] 9 0 (Some 7).
Definition old_header : Header.t := Header.mk 1 2 3 4 5 6 0 0 7 30000000 0 1600000000 [] 9 0 None.
Definition sample_block : Block :=
  mkBlock head_header
    [{| mtx_transaction := Legacy legacy_tx; impersonated_sender := Some 5 |}; mtx_new (EIP1559 dynamic_tx)]
    [old_header].
Lemma sample_block_wf : wf_block sample_block.
Proof. hnf. wf_concrete. Qed.

(** The receipt of the test [encode_legacy_receipt] (EIP-2481) and its
    encoding there. *)
Definition eip2481_receipt : EIP658Receipt := mkReceipt 0 1 0 [mkLog 17 [57005; 48879] [1; 0; 255]].
Lemma eip2481_receipt_wf : wf_receipt eip2481_receipt.
Proof. wf_concrete. Qed.
Example eip2481_vector :
  typed_receipt_append (LegacyReceipt eip2481_receipt) =
  [249; 1; 102; 128; 1; 185; 1; 0] ++ repeat 0 256 ++
  [248; 95; 248; 93; 148] ++ repeat 0 19 ++ [17; 248; 66; 160] ++ repeat 0 30 ++ [222; 173; 160] ++
  repeat 0 30 ++ [190; 239; 131; 1; 0; 255].
Proof. vm_compute. reflexivity. Qed.

(** ** The round trips on them *)
Lemma transaction_rlp_roundtrip_witness :
  decode_raw_transaction (hash_payload (EIP1559 dynamic_tx)) = Some (EIP1559 dynamic_tx) /\
  typed_decode (typed_append (Legacy legacy_tx)) = Ok (Legacy legacy_tx).
Proof.
  split.
  - apply (transaction_rlp_roundtrip (EIP1559 dynamic_tx) dynamic_tx_wf). by vm_compute.
  - apply (transaction_rlp_roundtrip (Legacy legacy_tx) legacy_tx_wf). by vm_compute.
Defined.

Lemma block_rlp_roundtrip_witness : block_decode (block_append sample_block) = Ok (forget_senders sample_block).
Proof. apply (block_rlp_roundtrip sample_block sample_block_wf). by vm_compute. Defined.

Lemma receipt_rlp_roundtrip_witness :
  typed_receipt_decode (typed_receipt_append (EIP1559Receipt eip2481_receipt)) = Ok (EIP1559Receipt eip2481_receipt).
Proof. apply (receipt_rlp_roundtrip (EIP1559Receipt eip2481_receipt) eip2481_receipt_wf). by vm_compute. Defined.

Lemma hash_payloads_injective_witness :
  impersonated_payload (Legacy legacy_tx) 5 = impersonated_payload (Legacy legacy_tx) 6 ->
  Legacy legacy_tx = Legacy legacy_tx /\ 5 = 6.
Proof.
  apply (hash_payloads_injective (Legacy legacy_tx) (Legacy legacy_tx) 5 6 legacy_tx_wf legacy_tx_wf);
    by vm_compute.
Defined.

Definition signed_request (nonce : Z) : TypedTransactionRequest :=
  LegacyReq (LegacyTransactionRequest.mk nonce 1 21000 (Call 17) 0 [] (Some 31337)).
Lemma signed_request_wf n : is_u256 n -> wf_request (signed_request n).
Proof. intros Hn. cbn. unfold is_h160. unfold_bounds. repeat split; try lia. constructor. Qed.
Lemma signing_payload_injective_witness :
  request_payload (signed_request 1) = request_payload (signed_request (3 - 2)) /\
  signed_request 1 = signed_request (3 - 2).
Proof.
  split; [reflexivity|]. apply signing_payload_injective; [by apply signed_request_wf..|by vm_compute|].
  by vm_compute.
Defined.
End Spec.
