(* ===== verification/Fees.v ===== *)
(** * Fees (anvil/src/eth/fees.rs)

    The fee manager, the EIP-1559 base fee rule, the fee history cache and
    the fee fields of RPC requests.  [f64] values are IEEE 754 binary64
    numbers of the Standard Library's executable [SpecFloat]; integers keep
    their width, with the program's panics. *)
From Stdlib Require Import SpecFloat.
From S2P Require Import Prelude Hardfork Transaction Block.
Open Scope Z_scope.

(** ** [f64] *)
Module F64.
Definition f64 := spec_float.
Definition of_Z (n : Z) : f64 := binary_normalize 53 1024 n 0 false.
Definition add (a b : f64) : f64 := SFadd 53 1024 a b.
Definition mul (a b : f64) : f64 := SFmul 53 1024 a b.
Definition div (a b : f64) : f64 := SFdiv 53 1024 a b.
Definition sub (a b : f64) : f64 := SFsub 53 1024 a b.
Definition lt (a b : f64) : bool := SFltb a b.
(** [clamp]: a [NaN] stays one. *)
Definition clamp (x lo hi : f64) : f64 := if lt x lo then lo else if lt hi x then hi else x.
(** [round]: to the nearest integer, halves away from zero. *)
Definition round (x : f64) : f64 :=
  match x with
  | S754_finite neg m e =>
      if decide (0 <= e) then x
      else
        let n := (Z.pos m + Z.shiftl 1 (- e - 1)) / Z.shiftl 1 (- e) in
        binary_normalize 53 1024 (if neg then - n else n) 0 neg
  | _ => x
  end.
(** The literal [0.5]. *)
Definition half : f64 := binary_normalize 53 1024 1 (-1) false.
(** [as u64]: truncation towards zero, saturating; [NaN] becomes 0. *)
Definition to_u64 (x : f64) : Z :=
  match x with
  | S754_zero _ | S754_nan => 0
  | S754_infinity neg => if neg then 0 else U64_MAX
  | S754_finite neg m e =>
      if neg then 0 else saturate 0 U64_MAX (Z.shiftl (Z.pos m) e)
  end.
End F64.

Definition MAX_FEE_HISTORY_CACHE_SIZE : Z := 2048.
Definition INITIAL_BASE_FEE : Z := 1000000000.
Definition INITIAL_GAS_PRICE : Z := 1875000000.
Definition BASE_FEE_CHANGE_DENOMINATOR : Z := 8.
Definition EIP1559_ELASTICITY_MULTIPLIER : Z := 2.

Definition default_elasticity : F64.f64 :=
  F64.div (F64.of_Z 1) (F64.of_Z BASE_FEE_CHANGE_DENOMINATOR).

(** ** The base fee of the next block *)
Definition calculate_next_block_base_fee (gas_used gas_limit base_fee : Z) : exec Z :=
  let gas_target := gas_limit / EIP1559_ELASTICITY_MULTIPLIER in
  if decide (gas_used = gas_target) then Ret base_fee
  else if decide (gas_target < gas_used) then
    let gas_used_delta := gas_used - gas_target in
    q ← checked_div (base_fee * gas_used_delta) gas_target;
    q ← checked_div q BASE_FEE_CHANGE_DENOMINATOR;
    let base_fee_delta := Z.max 1 q in
    u64_add base_fee (as_u64 base_fee_delta)
  else
    let gas_used_delta := gas_target - gas_used in
    q ← checked_div (base_fee * gas_used_delta) gas_target;
    base_fee_per_gas_delta ← checked_div q BASE_FEE_CHANGE_DENOMINATOR;
    Ret (u64_saturating_sub base_fee (as_u64 base_fee_per_gas_delta)).

(** ** The fee manager *)
Module FeeManager.
Section FeeManager.
Context `{SpecIdOrder}.

Record t := mk {
  spec_id : SpecId; base_fee_ : Z; gas_price_ : Z; elasticity_ : F64.f64 }.

Definition new (spec_id : SpecId) (base_fee gas_price : Z) : t :=
  mk spec_id base_fee gas_price default_elasticity.

Definition elasticity (s : t) : F64.f64 := elasticity_ s.

Definition is_eip1559 (s : t) : bool :=
  bool_decide (spec_as_u8 LONDON <= spec_as_u8 (spec_id s)).

Definition suggested_priority_fee (s : t) : Z := 1000000000.

Definition base_fee (s : t) : Z := if is_eip1559 s then base_fee_ s else 0.

Definition gas_price (s : t) : Z :=
  if is_eip1559 s then u256_saturating_add (base_fee s) (suggested_priority_fee s)
  else gas_price_ s.

Definition max_priority_fee_per_gas (s : t) : exec Z :=
  d ← u256_mul (base_fee_ s) 2;
  u256_add (suggested_priority_fee s) d.

Definition set_gas_price (price : Z) (s : t) : t := mk (spec_id s) (base_fee_ s) price (elasticity_ s).
Definition set_base_fee (fee : Z) (s : t) : t := mk (spec_id s) fee (gas_price_ s) (elasticity_ s).

Definition get_next_block_base_fee_per_gas (gas_used gas_limit last_fee_per_gas : Z) (s : t)
    : exec Z :=
  if decide (base_fee s = 0) then Ret 0
  else
    gas_used ← u256_as_u64 gas_used;
    gas_limit ← u256_as_u64 gas_limit;
    last_fee_per_gas ← u256_as_u64 last_fee_per_gas;
    calculate_next_block_base_fee gas_used gas_limit last_fee_per_gas.

End FeeManager.
End FeeManager.

(** ** Fee history *)
Record FeeHistoryCacheItem := mkItem {
  item_base_fee : Z; gas_used_ratio : F64.f64; rewards : list Z }.

(** The percentile points [0.0, 0.5, ..., 100.0], by repeated addition. *)
Fixpoint percentiles_from (n : nat) (p : F64.f64) : list F64.f64 :=
  match n with
  | O => []
  | S n' => p :: percentiles_from n' (F64.add p F64.half)
  end.
Definition reward_percentiles : list F64.f64 := percentiles_from 201 (F64.of_Z 0).

(** What a transaction pays the miner per gas above the base fee. *)
Definition effective_reward (base_fee : Z) (tx : option TypedTransaction) : exec Z :=
  match tx with
  | Some (Legacy t) => u256_as_u64 (u256_saturating_sub (LegacyTransaction.gas_price t) base_fee)
  | Some (EIP2930 t) => u256_as_u64 (u256_saturating_sub (EIP2930Transaction.gas_price t) base_fee)
  | Some (EIP1559 t) =>
      u256_as_u64 (Z.min (EIP1559Transaction.max_priority_fee_per_gas t)
                         (u256_saturating_sub (EIP1559Transaction.max_fee_per_gas t) base_fee))
  | None => Ret 0
  end.

(** [receipts.iter().enumerate().map(..)]: the receipt at position [i] is
    paired with the transaction at position [i]. *)
Fixpoint tx_rewards (base_fee : Z) (receipts : list TypedReceipt) (txs : list TypedTransaction)
    : exec (list (Z * Z)) :=
  match receipts with
  | [] => Ret []
  | receipt :: receipts' =>
      gas_used ← u256_as_u64 (TypedReceipt.gas_used receipt);
      r ← effective_reward base_fee (list.head txs);
      rest ← tx_rewards base_fee receipts' (tail txs);
      Ret ((gas_used, r) :: rest)
  end.

(** [sort_by(|(_, a), (_, b)| a.cmp(b))]: a stable sort by reward. *)
Fixpoint insert_by_reward (x : Z * Z) (l : list (Z * Z)) : list (Z * Z) :=
  match l with
  | [] => [x]
  | y :: l' => if decide (snd x <= snd y) then x :: y :: l' else y :: insert_by_reward x l'
  end.
Definition sort_by_reward (l : list (Z * Z)) : list (Z * Z) := foldr insert_by_reward [] l.

(** The reward of the first transaction at which the accumulated gas reaches
    the target. *)
Fixpoint reward_at (target_gas sum_gas : Z) (l : list (Z * Z)) : exec (option Z) :=
  match l with
  | [] => Ret None
  | (gas_used, effective_reward) :: l' =>
      sum_gas ← u64_add sum_gas gas_used;
      if decide (target_gas <= sum_gas) then Ret (Some effective_reward)
      else reward_at target_gas sum_gas l'
  end.

(** [filter_map] over the percentile points. *)
Fixpoint percentile_rewards (gas_used : F64.f64) (l : list (Z * Z)) (ps : list F64.f64)
    : exec (list Z) :=
  match ps with
  | [] => Ret []
  | p :: ps' =>
      let target_gas := F64.to_u64 (F64.div (F64.mul p gas_used) (F64.of_Z 100)) in
      r ← reward_at target_gas 0 l;
      rest ← percentile_rewards gas_used l ps';
      Ret (match r with Some r => r :: rest | None => rest end)
  end.

Section FeeHistory.
Context `{SpecIdOrder}.

Definition create_cache_entry (fees : FeeManager.t) (current_block : option Block)
    (current_receipts : option (list TypedReceipt)) (elasticity : F64.f64)
    : exec (FeeHistoryCacheItem * option Z) :=
  let base_fee := FeeManager.base_fee fees in
  base_fee64 ← u256_as_u64 base_fee;
  match current_block, current_receipts with
  | Some block, Some receipts =>
      block_number ← u256_as_u64 (Header.number (header block));
      gas_used ← u256_as_u64 (Header.gas_used (header block));
      gas_limit ← u256_as_u64 (Header.gas_limit (header block));
      let gas_used := F64.of_Z gas_used in
      let gas_limit := F64.of_Z gas_limit in
      let gas_target := F64.div gas_limit elasticity in
      let ratio := F64.div gas_used (F64.mul gas_target elasticity) in
      txs ← tx_rewards base_fee receipts (mtx_transaction <$> transactions block);
      rs ← percentile_rewards gas_used (sort_by_reward txs) reward_percentiles;
      Ret (mkItem base_fee64 ratio rs, Some block_number)
  | _, _ =>
      Ret (mkItem base_fee64 (F64.of_Z 0) ((fun _ => 0) <$> reward_percentiles), None)
  end.
End FeeHistory.

(** The loop [for num in 0..num_remove { cache.remove(&(pop_next - num)) }]. *)
Fixpoint remove_keys (pop_next num : Z) (n : nat) (cache : gmap Z FeeHistoryCacheItem)
    : exec (gmap Z FeeHistoryCacheItem) :=
  match n with
  | O => Ret cache
  | S n' =>
      key ← u64_sub pop_next num;
      remove_keys pop_next (num + 1) n' (delete key cache)
  end.

Definition insert_cache_entry (fee_history_limit : Z) (item : FeeHistoryCacheItem)
    (block_number : option Z) (cache : gmap Z FeeHistoryCacheItem)
    : exec (gmap Z FeeHistoryCacheItem) :=
  match block_number with
  | None => Ret cache
  | Some block_number =>
      let cache := <[block_number := item]> cache in
      let pop_next := u64_saturating_sub block_number fee_history_limit in
      let num_remove := u64_saturating_sub (Z.of_nat (size cache)) fee_history_limit in
      remove_keys pop_next 0 (Z.to_nat num_remove) cache
  end.

(** ** Fee fields of RPC requests *)
Module FeeDetails.
Record t := mk {
  gas_price : option Z; max_fee_per_gas : option Z; max_priority_fee_per_gas : option Z }.

Inductive fee_error := InvalidFeeInput.

Definition zero : t := mk (Some 0) (Some 0) (Some 0).

Definition or_zero_fees (s : t) : t :=
  let no_fees := bool_decide (gas_price s = None) && bool_decide (max_fee_per_gas s = None) in
  mk (if no_fees then Some 0 else gas_price s)
     (if no_fees then Some 0 else max_fee_per_gas s)
     (max_priority_fee_per_gas s).

Definition split (s : t) : option Z * option Z * option Z :=
  (gas_price s, max_fee_per_gas s, max_priority_fee_per_gas s).

Definition new (request_gas_price request_max_fee request_priority : option Z)
    : result t fee_error :=
  match request_gas_price, request_max_fee, request_priority with
  | gas_price, None, None => Ok (mk gas_price gas_price gas_price)
  | _, max_fee, max_priority =>
      let invalid :=
        match max_priority with
        | Some max_priority => bool_decide (default 0 max_fee < max_priority)
        | None => false
        end in
      if invalid then Err InvalidFeeInput else Ok (mk max_fee max_fee max_priority)
  end.
End FeeDetails.

(** ** Lemmas: the base fee *)

(** The rule of EIP-1559, on unbounded integers. *)
Definition eip1559_next_base_fee (gas_used gas_target base_fee : Z) : Z :=
  if decide (gas_used = gas_target) then base_fee
  else if decide (gas_target < gas_used) then
    base_fee + Z.max 1 (base_fee * (gas_used - gas_target) / gas_target / 8)
  else base_fee - base_fee * (gas_target - gas_used) / gas_target / 8.

Lemma mul_div_div_le b d t k :
  0 <= b -> 0 <= d <= k * t -> 0 < t -> 0 <= k -> 0 <= b * d / t / 8 <= k * b / 8.
Proof.
  intros Hb Hd Ht Hk. split.
  - apply Z.div_pos; [|lia]. apply Z.div_pos; nia.
  - apply Z.div_le_mono; [lia|]. apply Z.div_le_upper_bound; nia.
Qed.

Lemma eip1559_bounds gas_used gas_target b :
  0 <= b -> 0 <= gas_used <= 2 * gas_target + 1 -> 0 < gas_target ->
  let r := eip1559_next_base_fee gas_used gas_target b in
  (gas_target < gas_used -> b < r <= b + Z.max 1 (2 * b / 8)) /\
  (gas_target < gas_used <= 2 * gas_target -> r <= b + Z.max 1 (b / 8)) /\
  (gas_used <= gas_target -> b - b / 8 <= r <= b).
Proof.
  intros Hb Hu Ht r. unfold r, eip1559_next_base_fee.
  split_and!; intros Hc; repeat case_decide; try lia.
  - pose proof (mul_div_div_le b (gas_used - gas_target) gas_target 2). lia.
  - pose proof (mul_div_div_le b (gas_used - gas_target) gas_target 1).
    replace (1 * b) with b in * by lia. lia.
  - pose proof (Z.div_pos b 8). lia.
  - pose proof (mul_div_div_le b (gas_target - gas_used) gas_target 1).
    replace (1 * b) with b in * by lia. lia.
Qed.

(** No intermediate step truncates or panics while the gas used is at most
    the limit and the base fee leaves room for a quarter. *)
Lemma calculate_eq gas_used gas_limit b :
  2 <= gas_limit -> 0 <= gas_used <= gas_limit -> 0 <= b -> b + Z.max 1 (b / 4) <= U64_MAX ->
  calculate_next_block_base_fee gas_used gas_limit b =
    Ret (eip1559_next_base_fee gas_used (gas_limit / 2) b).
Proof.
  intros Hl Hu Hb Hmax.
  unfold calculate_next_block_base_fee, eip1559_next_base_fee, EIP1559_ELASTICITY_MULTIPLIER,
    BASE_FEE_CHANGE_DENOMINATOR.
  assert (0 < gas_limit / 2 /\ gas_limit <= 2 * (gas_limit / 2) + 1) as [Ht Hlt].
  { pose proof (Z.div_mod gas_limit 2). pose proof (Z.mod_pos_bound gas_limit 2). lia. }
  set (t := gas_limit / 2) in *. unfold checked_div.
  assert (2 * b / 8 = b / 4) as Hq.
  { replace 8 with (2 * 4) by lia. apply Z.div_mul_cancel_l; lia. }
  repeat case_decide; try lia; [done|..]; simpl.
  - pose proof (mul_div_div_le b (gas_used - t) t 2). unfold u64_add, as_u64.
    rewrite Z.mod_small by (unfold_bounds; lia). rewrite decide_True by (unfold_bounds; lia). done.
  - pose proof (mul_div_div_le b (t - gas_used) t 1).
    replace (1 * b) with b in * by lia.
    assert (b / 8 <= b / 4) by (apply Z.div_le_compat_l; lia).
    assert (b / 8 <= b) by (apply Z.div_le_upper_bound; lia).
    unfold u64_saturating_sub, saturate, as_u64.
    rewrite Z.mod_small by (unfold_bounds; lia). f_equal. unfold_bounds; lia.
Qed.

(** ** Lemmas: sorting and percentiles *)
Lemma insert_by_reward_perm x l : insert_by_reward x l ≡ₚ x :: l.
Proof.
  induction l as [|y l IH]; simpl; [done|]. case_decide; [done|].
  rewrite IH. apply perm_swap.
Qed.

Lemma sort_by_reward_perm l : sort_by_reward l ≡ₚ l.
Proof. induction l as [|x l IH]; simpl; [done|]. by rewrite insert_by_reward_perm, IH. Qed.

Definition reward_le (x y : Z * Z) : Prop := snd x <= snd y.

Lemma insert_by_reward_sorted x l :
  StronglySorted reward_le l -> StronglySorted reward_le (insert_by_reward x l).
Proof.
  induction 1 as [|y l Hs IH Hf]; simpl; [repeat constructor|].
  case_decide as Hd.
  - constructor; [by constructor|]. constructor; [done|].
    eapply Forall_impl; [exact Hf|]. unfold reward_le. lia.
  - constructor; [done|]. rewrite insert_by_reward_perm. constructor; [|done].
    unfold reward_le. lia.
Qed.

Lemma sort_by_reward_sorted l : StronglySorted reward_le (sort_by_reward l).
Proof. induction l; simpl; [constructor|]. by apply insert_by_reward_sorted. Qed.

Definition total_gas (l : list (Z * Z)) : Z := foldr (fun x a => fst x + a) 0 l.

(** The gas of the transactions that pay at most [r]. *)
Definition gas_up_to (r : Z) (l : list (Z * Z)) : Z :=
  total_gas (filter (fun x => snd x <= r) l).

Lemma total_gas_app l k : total_gas (l ++ k) = total_gas l + total_gas k.
Proof. unfold total_gas. induction l; simpl; lia. Qed.

Lemma total_gas_perm l k : l ≡ₚ k -> total_gas l = total_gas k.
Proof. unfold total_gas. induction 1; simpl; lia. Qed.

Lemma total_gas_nonneg l : Forall (fun x => 0 <= fst x) l -> 0 <= total_gas l.
Proof. unfold total_gas. induction 1; simpl; lia. Qed.

Lemma reward_at_split target s l :
  Forall (fun x => 0 <= fst x) l -> 0 <= s -> s + total_gas l <= U64_MAX ->
  exists o, reward_at target s l = Ret o /\
    match o with
    | Some r => exists l1 g l2, l = l1 ++ (g, r) :: l2 /\ target <= s + total_gas l1 + g /\
                  (l1 = [] \/ s + total_gas l1 < target)
    | None => l = [] \/ s + total_gas l < target
    end.
Proof.
  revert s. induction l as [|[g r] l IH]; intros s Hf Hs Hmax; simpl in *.
  { exists None. split; [done|by left]. }
  apply Forall_cons in Hf as [Hg Hf']. simpl in Hg.
  pose proof (total_gas_nonneg l Hf') as Hnn. unfold total_gas in *; fold (total_gas l) in *.
  unfold u64_add. rewrite decide_True by lia. simpl. case_decide as Hd.
  - exists (Some r). split; [done|]. exists [], g, l. simpl. split_and!; [done|lia|by left].
  - destruct (IH (s + g)) as (o & -> & Ho); [done|lia|lia|]. exists o. split; [done|].
    destruct o as [r'|].
    + destruct Ho as (l1 & g' & l2 & -> & Ht & Hc). exists ((g, r) :: l1), g', l2.
      unfold total_gas in *. simpl. split_and!; [done|lia|right].
      destruct Hc as [->|Hc]; simpl; lia.
    + right. destruct Ho as [->|Ho]; unfold total_gas in *; simpl; lia.
Qed.

Lemma sorted_split_filter (l1 : list (Z * Z)) g r l2 r' :
  StronglySorted reward_le (l1 ++ (g, r) :: l2) ->
  (r' < r -> filter (fun x => snd x <= r') (l1 ++ (g, r) :: l2) = filter (fun x => snd x <= r') l1) /\
  filter (fun x => snd x <= r) l1 = l1.
Proof.
  intros Hs. induction l1 as [|x l1 IH]; simpl in *.
  - split; [|done]. intros Hr. apply StronglySorted_inv in Hs as [Hs' Hf].
    rewrite filter_cons_False by (simpl; lia).
    clear Hs' IH || clear Hs'. induction Hf as [|y l Hy Hf IHf]; [done|].
    unfold reward_le in Hy. simpl in Hy. rewrite filter_cons_False by lia. exact IHf.
  - apply StronglySorted_inv in Hs as [Hs' Hf]. destruct (IH Hs') as [IH1 IH2]. split.
    + intros Hr. rewrite !filter_cons, IH1 by done. by case_decide.
    + rewrite filter_cons_True, IH2; [done|].
      apply Forall_app in Hf as [_ Hf]. inversion Hf; subst. done.
Qed.

Lemma gas_up_to_nonneg r l : Forall (fun x => 0 <= fst x) l -> 0 <= gas_up_to r l.
Proof. intros Hl. apply total_gas_nonneg. by apply Forall_filter. Qed.

Lemma gas_up_to_perm r l k : l ≡ₚ k -> gas_up_to r l = gas_up_to r k.
Proof. intros Hp. apply total_gas_perm. by rewrite Hp. Qed.

Lemma total_gas_filter_le r l :
  Forall (fun x => 0 <= fst x) l -> gas_up_to r l <= total_gas l.
Proof.
  unfold gas_up_to. induction 1 as [|[g r'] l Hg Hf IH]; [done|]. simpl in Hg.
  rewrite filter_cons. unfold total_gas in *. case_decide; simpl; lia.
Qed.

(** Below the reward at which the target is reached, less than the target
    has accumulated. *)
Lemma gas_below_prefix target l1 g r l2 r' :
  StronglySorted reward_le (l1 ++ (g, r) :: l2) -> Forall (fun x => 0 <= fst x) l1 ->
  l1 = [] \/ 0 + total_gas l1 < target -> r' ∈ (l1 ++ (g, r) :: l2).*2 -> r' < r ->
  gas_up_to r' l1 < target.
Proof.
  intros Hs Hf [->|Hlt] Hin Hr; [|pose proof (total_gas_filter_le r' l1 Hf); lia].
  exfalso. apply StronglySorted_inv in Hs as [_ Hall]. rewrite Forall_forall in Hall.
  apply list_elem_of_fmap in Hin as ([g' r''] & -> & Hin). simpl in Hr.
  apply elem_of_cons in Hin as [[= -> ->]|Hin]; [lia|].
  specialize (Hall _ Hin). unfold reward_le in Hall. simpl in Hall. lia.
Qed.

(** ** Lemmas: the fee history window *)

(** The cache holds exactly the blocks from [lo] to [n]. *)
Definition window (lo n : Z) (cache : gmap Z FeeHistoryCacheItem) : Prop :=
  forall k, is_Some (cache !! k) <-> lo <= k <= n.

Lemma window_size lo n cache :
  window lo n cache -> lo <= n + 1 -> Z.of_nat (size cache) = n + 1 - lo.
Proof.
  intros Hw Hle.
  assert (dom cache = list_to_set (seqZ lo (n + 1 - lo))) as Hd.
  { apply set_eq. intros k. rewrite elem_of_dom, elem_of_list_to_set, elem_of_seqZ.
    rewrite (Hw k). lia. }
  rewrite <- size_dom, Hd, size_list_to_set by apply NoDup_seqZ.
  rewrite length_seqZ. lia.
Qed.

Lemma window_insert lo n item cache :
  window lo n cache -> lo <= n + 1 -> window lo (n + 1) (<[n + 1 := item]> cache).
Proof.
  intros Hw Hle k. rewrite lookup_insert_is_Some, (Hw k).
  destruct (decide (k = n + 1)); [|lia]. subst. split; [lia|]. by left.
Qed.

Lemma window_delete lo n cache : window lo n cache -> window (lo + 1) n (delete lo cache).
Proof. intros Hw k. rewrite lookup_delete_is_Some, (Hw k). lia. Qed.

(** ** Properties *)

(** C29: On a block that uses at most its gas limit, the base fee computation
    does not panic or truncate and is the EIP-1559 rule: above target the fee
    rises by at least 1 and at most a quarter (an eighth when the gas used is
    within twice the target), at or below target it falls by at most an
    eighth; a positive base fee never becomes 0, the value the node treats as
    a constant set by the user. *)
Theorem next_base_fee_eip1559 gas_used gas_limit b :
  2 <= gas_limit -> 0 <= gas_used <= gas_limit -> 0 <= b -> b + Z.max 1 (b / 4) <= U64_MAX ->
  let target := gas_limit / 2 in
  exists r, calculate_next_block_base_fee gas_used gas_limit b = Ret r /\
    r = eip1559_next_base_fee gas_used target b /\
    (target < gas_used -> b < r <= b + Z.max 1 (b / 4)) /\
    (target < gas_used <= 2 * target -> r <= b + Z.max 1 (b / 8)) /\
    (gas_used <= target -> b - b / 8 <= r <= b) /\
    (0 < b -> 0 < r).
Proof.
  intros Hl Hu Hb Hmax target. eexists. split; [by apply calculate_eq|]. split; [done|].
  assert (0 < target /\ gas_limit <= 2 * target + 1) as [Ht Hlt].
  { unfold target. pose proof (Z.div_mod gas_limit 2). pose proof (Z.mod_pos_bound gas_limit 2). lia. }
  assert (2 * b / 8 = b / 4) as Hq.
  { replace 8 with (2 * 4) by lia. apply Z.div_mul_cancel_l; lia. }
  assert (0 < b -> b / 8 < b) by (intros; apply Z.div_lt; lia).
  destruct (eip1559_bounds gas_used target b) as (H1 & H2 & H3); [lia..|].
  rewrite Hq in H1. fold target. clearbody target. cbv zeta in *. split_and!; [done..|]. intros Hpos.
  destruct (decide (target < gas_used)); [specialize (H1 ltac:(lia))|specialize (H3 ltac:(lia))]; lia.
Qed.

Lemma next_base_fee_eip1559_witness :
  exists r, calculate_next_block_base_fee 20000000 30000000 INITIAL_BASE_FEE = Ret r /\ 0 < r.
Proof.
  destruct (next_base_fee_eip1559 20000000 30000000 INITIAL_BASE_FEE) as (r & Hr & _ & _ & _ & _ & Hp);
    [by vm_compute..|]. exists r. split; [exact Hr|]. by apply Hp.
Defined.

(** Without a positive gas target the computation divides by zero exactly
    when gas was used; a zero base fee of the manager skips it. *)
Theorem next_base_fee_zero_target `{SpecIdOrder} s gas_used gas_limit b :
  0 <= gas_limit < 2 -> 0 <= gas_used -> is_u64 gas_used ->
  calculate_next_block_base_fee gas_used gas_limit b =
    (if decide (gas_used = 0) then Ret b else Panic "attempt to divide by zero") /\
  (FeeManager.base_fee s = 0 ->
   FeeManager.get_next_block_base_fee_per_gas gas_used gas_limit b s = Ret 0).
Proof.
  intros Hl Hu _. split.
  - assert (gas_limit / 2 = 0) as Ht by (apply Z.div_small; lia).
    unfold calculate_next_block_base_fee, EIP1559_ELASTICITY_MULTIPLIER. rewrite Ht.
    unfold checked_div. repeat case_decide; try lia; done.
  - intros Hz. unfold FeeManager.get_next_block_base_fee_per_gas. by rewrite decide_True.
Qed.

Lemma next_base_fee_zero_target_witness :
  calculate_next_block_base_fee 5 1 7 = Panic "attempt to divide by zero".
Proof.
  exact (proj1 (@next_base_fee_zero_target spec_order_by_index
    (FeeManager.new LONDON 0 0) 5 1 7 ltac:(done) ltac:(done) ltac:(by vm_compute))).
Defined.

(** Recording consecutive blocks keeps the fee history cache an exact
    window of the most recent blocks: after block [n + 1] it holds that
    block's item, the blocks before it that fit the limit, unchanged, and
    nothing else; the eviction loop does not underflow. *)
Theorem fee_history_window limit lo n item cache :
  0 < limit -> 0 <= lo <= n + 1 -> n + 1 - lo <= limit -> n + 1 <= U64_MAX ->
  window lo n cache ->
  exists cache', insert_cache_entry limit item (Some (n + 1)) cache = Ret cache' /\
    window (Z.max lo (n + 2 - limit)) (n + 1) cache' /\
    cache' !! (n + 1) = Some item /\
    (forall k, Z.max lo (n + 2 - limit) <= k <= n -> cache' !! k = cache !! k) /\
    Z.of_nat (size cache') <= limit.
Proof.
  intros Hlim Hlo Hfit Hmax Hw.
  pose proof (window_insert lo n item cache Hw ltac:(lia)) as Hw'.
  pose proof (window_size _ _ _ Hw' ltac:(lia)) as Hsize.
  unfold insert_cache_entry. rewrite Hsize. unfold u64_saturating_sub, saturate.
  destruct (decide (n + 1 - lo < limit)) as [Hroom|Hfull].
  - replace (Z.to_nat _) with 0%nat by (unfold_bounds; lia). simpl.
    replace (Z.max lo (n + 2 - limit)) with lo by lia.
    eexists. split; [done|]. split_and!; [done|by rewrite lookup_insert_eq|..].
    + intros k Hk. by rewrite lookup_insert_ne by lia.
    + rewrite Hsize. lia.
  - assert (lo = n + 1 - limit) as -> by lia.
    replace (Z.to_nat _) with 1%nat by (unfold_bounds; lia). simpl. unfold u64_sub.
    rewrite decide_True by (unfold_bounds; lia). simpl.
    replace (Z.max 0 (Z.min U64_MAX (n + 1 - limit)) - 0) with (n + 1 - limit) by (unfold_bounds; lia).
    replace (Z.max (n + 1 - limit) (n + 2 - limit)) with (n + 1 - limit + 1) by lia.
    pose proof (window_delete _ _ _ Hw') as Hwd.
    eexists. split; [done|]. split_and!; [done|..].
    + rewrite lookup_delete_ne, lookup_insert_eq by lia. done.
    + intros k Hk. by rewrite lookup_delete_ne, lookup_insert_ne by lia.
    + rewrite (window_size _ _ _ Hwd) by lia. lia.
Qed.

Example fee_item (n : Z) : FeeHistoryCacheItem := mkItem n (F64.of_Z 0) [].

Lemma fee_history_window_witness :
  exists cache', insert_cache_entry 2 (fee_item 7) (Some (6 + 1))
      (<[6 := fee_item 6]> (<[5 := fee_item 5]> ∅)) = Ret cache' /\
    window 6 7 cache' /\ cache' !! 7 = Some (fee_item 7).
Proof.
  destruct (fee_history_window 2 5 6 (fee_item 7) (<[6 := fee_item 6]> (<[5 := fee_item 5]> ∅)))
    as (c & Hc & Hw & Hl & _); [lia..|by vm_compute| |].
  - intros k. rewrite !lookup_insert_is_Some, lookup_empty. destruct (decide (k = 5)), (decide (k = 6));
      subst; split; try lia; naive_solver.
  - exists c. split; [exact Hc|]. split; [exact Hw|exact Hl].
Defined.

(** A full cache does not evict when the chain restarts at an earlier
    block (the cache is kept when a fork is reset): the eviction key is
    computed from the new block number, which names no cached block, so the
    cache grows past its limit. *)
Theorem fee_history_exceeds_limit limit lo n item cache b :
  0 < limit -> 0 < b -> b + limit < lo -> lo + limit = n + 1 -> n <= U64_MAX ->
  window lo n cache ->
  exists cache', insert_cache_entry limit item (Some b) cache = Ret cache' /\
    Z.of_nat (size cache') = limit + 1.
Proof.
  intros Hlim Hb Hlow Hfull Hmax Hw.
  assert (cache !! b = None) as Hnone.
  { apply eq_None_not_Some. rewrite (Hw b). lia. }
  pose proof (window_size _ _ _ Hw ltac:(lia)) as Hs.
  assert (Z.of_nat (size (<[b := item]> cache)) = limit + 1) as Hsize.
  { rewrite map_size_insert_None by done. lia. }
  unfold insert_cache_entry. rewrite Hsize. unfold u64_saturating_sub, saturate.
  replace (Z.to_nat _) with 1%nat by (unfold_bounds; lia). simpl. unfold u64_sub.
  rewrite decide_True by (unfold_bounds; lia). simpl. eexists. split; [done|].
  set (key := Z.max 0 (Z.min U64_MAX (b - limit)) - 0).
  destruct (decide (key = b)) as [Hkb|Hkb].
  { subst key. unfold_bounds. lia. }
  rewrite delete_id; [done|]. rewrite lookup_insert_ne by done.
  apply eq_None_not_Some. rewrite (Hw key). subst key. unfold_bounds. lia.
Qed.

Lemma fee_history_exceeds_limit_witness :
  exists cache', insert_cache_entry 2 (fee_item 1) (Some 1)
      (<[6 := fee_item 6]> (<[5 := fee_item 5]> ∅)) = Ret cache' /\ Z.of_nat (size cache') = 2 + 1.
Proof.
  apply (fee_history_exceeds_limit 2 5 6); [lia..|by vm_compute|].
  intros k. rewrite !lookup_insert_is_Some, lookup_empty. destruct (decide (k = 5)), (decide (k = 6));
    subst; split; try lia; naive_solver.
Defined.

(** The reward reported for a gas target is the least reward of the block
    whose payers, together with everyone who pays less, account for the target
    gas; there is none only when the whole block uses less gas than the
    target (or is empty). *)
Theorem percentile_reward_correct target l :
  Forall (fun x => 0 <= fst x) l -> total_gas l <= U64_MAX ->
  exists o, reward_at target 0 (sort_by_reward l) = Ret o /\
    match o with
    | Some r => r ∈ l.*2 /\ target <= gas_up_to r l /\
                (forall r', r' ∈ l.*2 -> r' < r -> gas_up_to r' l < target)
    | None => l = [] \/ total_gas l < target
    end.
Proof.
  intros Hf Hmax. pose proof (sort_by_reward_perm l) as Hp.
  pose proof (sort_by_reward_sorted l) as Hs. set (k := sort_by_reward l) in *.
  destruct (reward_at_split target 0 k) as (o & Ho & Hc).
  { by rewrite Hp. } { lia. } { rewrite (total_gas_perm _ _ Hp). lia. }
  exists o. split; [done|]. destruct o as [r|].
  - destruct Hc as (l1 & g & l2 & Hk & Ht & Hpre). rewrite Hk in Hs.
    assert (Forall (fun x => 0 <= fst x) k) as Hfk by by rewrite Hp.
    rewrite Hk in Hfk. apply Forall_app in Hfk as [Hf1 [_ Hf2]%Forall_cons].
    split_and!.
    + rewrite <- Hp, Hk, fmap_app. set_solver.
    + rewrite <- (gas_up_to_perm _ _ _ Hp), Hk. unfold gas_up_to.
      rewrite filter_app, (proj2 (sorted_split_filter _ _ _ _ r Hs)), filter_cons_True by (simpl; lia).
      rewrite total_gas_app. pose proof (gas_up_to_nonneg r l2 Hf2) as Hnn. unfold gas_up_to in Hnn.
      unfold total_gas in *. simpl. lia.
    + intros r' Hr' Hlt. rewrite <- (gas_up_to_perm _ _ _ Hp), Hk. unfold gas_up_to.
      rewrite (proj1 (sorted_split_filter _ _ _ _ r' Hs) Hlt).
      apply (gas_below_prefix target l1 g r l2 r'); try done. by rewrite <- Hk, Hp.
  - destruct Hc as [Hc|Hc]; [left|right].
    + rewrite Hc in Hp. by apply Permutation_nil_l in Hp.
    + rewrite <- (total_gas_perm _ _ Hp). lia.
Qed.

Lemma percentile_reward_correct_witness :
  let l := [(21000, 5); (50000, 1); (30000, 3)] in
  exists o, reward_at 60000 0 (sort_by_reward l) = Ret o /\
    match o with Some r => r = 3 /\ 60000 <= gas_up_to r l | None => False end.
Proof.
  intros l. destruct (percentile_reward_correct 60000 l) as (o & Ho & Hc);
    [by repeat constructor|by vm_compute|].
  exists o. split; [exact Ho|]. vm_compute in Ho. injection Ho as <-.
  split; [reflexivity|]. exact (proj1 (proj2 Hc)).
Defined.

Lemma reward_at_elem target s l r : reward_at target s l = Ret (Some r) -> r ∈ l.*2.
Proof.
  revert s. induction l as [|[g r'] l IH]; intros s; simpl; [done|].
  rewrite exec_bind_Ret. intros (s' & _ & Hr). case_decide; [simplify_eq; set_solver|].
  apply IH in Hr. set_solver.
Qed.

Lemma percentile_rewards_elem g l ps rs :
  percentile_rewards g l ps = Ret rs -> (length rs <= length ps)%nat /\ forall r, r ∈ rs -> r ∈ l.*2.
Proof.
  revert rs. induction ps as [|p ps IH]; intros rs; simpl.
  - intros [= <-]. split; [done|set_solver].
  - rewrite exec_bind_Ret. intros (o & Ho & Hr). apply exec_bind_Ret in Hr as (rest & Hrest & [= <-]).
    destruct (IH _ Hrest) as [Hlen Hin]. destruct o as [r|]; simpl; [|split; [lia|done]].
    split; [lia|]. intros r'. rewrite elem_of_cons. intros [->|?]; [|by apply Hin].
    by eapply reward_at_elem.
Qed.

Lemma tx_rewards_elem b receipts txs l r :
  tx_rewards b receipts txs = Ret l -> r ∈ l.*2 ->
  exists i, (i < length receipts)%nat /\ effective_reward b (txs !! i) = Ret r.
Proof.
  revert txs l. induction receipts as [|rc receipts IH]; intros txs l; simpl.
  { intros [= <-]. set_solver. }
  rewrite exec_bind_Ret. intros (g & _ & H). apply exec_bind_Ret in H as (r0 & Hr0 & H).
  apply exec_bind_Ret in H as (rest & Hrest & [= <-]). simpl. rewrite elem_of_cons. intros [->|Hin].
  - exists 0%nat. split; [lia|]. by destruct txs.
  - destruct (IH _ _ Hrest Hin) as (i & Hi & He). exists (S i). split; [lia|].
    destruct txs; simpl in *; done.
Qed.

(** A fee history entry reports the base fee of the manager and the number
    of the block; it has at most 201 rewards, and each of them is what some
    transaction of the block pays above the base fee.  For an unknown block
    the entry has 201 zero rewards and is not stored. *)
Theorem create_cache_entry_rewards `{SpecIdOrder} fees blk receipts e item n :
  create_cache_entry fees blk receipts e = Ret (item, n) ->
  item_base_fee item = FeeManager.base_fee fees /\
  (length (rewards item) <= 201)%nat /\
  match blk, receipts with
  | Some b, Some rs =>
      n = Some (Header.number (header b)) /\
      forall r, r ∈ rewards item -> exists i, (i < length rs)%nat /\
        effective_reward (FeeManager.base_fee fees)
          ((mtx_transaction <$> transactions b) !! i) = Ret r
  | _, _ => n = None /\ rewards item = replicate 201 0
  end.
Proof.
  unfold create_cache_entry. rewrite exec_bind_Ret. intros (bf & Hbf & Hc).
  apply u256_as_u64_Ret in Hbf as [<- _].
  destruct blk as [b|]; [destruct receipts as [rs|]|].
  - apply exec_bind_Ret in Hc as (num & Hn & Hc). apply u256_as_u64_Ret in Hn as [<- _].
    apply exec_bind_Ret in Hc as (gu & _ & Hc). apply exec_bind_Ret in Hc as (gl & _ & Hc).
    apply exec_bind_Ret in Hc as (txs & Htx & Hc). apply exec_bind_Ret in Hc as (ps & Hps & [= <- <-]).
    destruct (percentile_rewards_elem _ _ _ _ Hps) as [Hlen Hin]. simpl.
    split_and!; [done| |done|].
    + replace 201%nat with (length reward_percentiles) by by vm_compute. done.
    + intros r Hr. apply (tx_rewards_elem _ _ _ _ _ Htx). rewrite <- (sort_by_reward_perm txs). by apply Hin.
  - injection Hc as <- <-. split_and!; [done|by vm_compute|done|by vm_compute].
  - injection Hc as <- <-. split_and!; [done|by vm_compute|done|by vm_compute].
Qed.

Lemma create_cache_entry_rewards_witness :
  let fees := FeeManager.new LONDON 7 0 in
  let create := @create_cache_entry spec_order_by_index in
  exists item, create fees None None default_elasticity = Ret (item, None) /\
    rewards item = replicate 201 0.
Proof.
  intros fees create. eexists. split; [reflexivity|].
  exact (proj2 (proj2 (proj2 (@create_cache_entry_rewards spec_order_by_index fees None None
    default_elasticity _ None eq_refl)))).
Defined.

(** [FeeDetails::new]: a request with neither EIP-1559 field is a legacy
    request and all three fees are its gas price; any other request ignores
    its gas price and is refused exactly when it names a priority fee above
    its maximal fee (0 when that is missing); accepted fees always have
    priority at most maximum, and [or_zero_fees] fills in prices only when
    both are missing. *)
Theorem fee_details_new_spec gp mf mp :
  FeeDetails.new gp mf mp =
    (if decide (mf = None /\ mp = None) then Ok (FeeDetails.mk gp gp gp)
     else if decide (default 0 mf < default (default 0 mf) mp) then Err FeeDetails.InvalidFeeInput
     else Ok (FeeDetails.mk mf mf mp)) /\
  forall d, FeeDetails.new gp mf mp = Ok d ->
    let z := FeeDetails.or_zero_fees d in
    default 0 (FeeDetails.max_priority_fee_per_gas d) <= Z.max 0 (default 0 (FeeDetails.max_fee_per_gas d)) /\
    (is_Some (FeeDetails.gas_price z) \/ is_Some (FeeDetails.max_fee_per_gas z)) /\
    (is_Some (FeeDetails.gas_price d) -> z = d).
Proof.
  assert (FeeDetails.new gp mf mp =
    (if decide (mf = None /\ mp = None) then Ok (FeeDetails.mk gp gp gp)
     else if decide (default 0 mf < default (default 0 mf) mp) then Err FeeDetails.InvalidFeeInput
     else Ok (FeeDetails.mk mf mf mp))) as Heq.
  { unfold FeeDetails.new. destruct mf as [mf|], mp as [mp|]; simpl; repeat case_decide;
      try case_bool_decide; try naive_solver lia. }
  split; [done|]. rewrite Heq. intros d. repeat case_decide; [|done|]; intros [= <-]; simpl.
  - split_and!; [destruct gp; simpl; lia|by destruct gp; [left|right]; simpl; eauto|].
    by destruct gp; [|intros [? [=]]].
  - split_and!; [destruct mf, mp; simpl in *; lia|by destruct mf; [left|right]; simpl; eauto|].
    by destruct mf; [|intros [? [=]]].
Qed.
