(* ===== verification/Snapshots.v ===== *)
(** * Snapshots (evm/src/executor/snapshot.rs) and the node's in-memory
    database around them (anvil/src/eth/backend/mem/in_memory_db.rs)

    [Snapshots<T>] hands out increasing ids and, when a snapshot is removed,
    drops all later ones.  [MemDb] pairs a database with its snapshots;
    [evm_snapshot] and [evm_revert] end up here. *)
From S2P Require Import Prelude.
Open Scope Z_scope.

Module Snapshots.
Section Snapshots.
Context {T : Type}.

Record t := mk { id_ : Z; snapshots : gmap Z T }.

Definition new : t := mk 0 ∅.

Definition next_id (s : t) : Z * t := (id_ s, mk (u256_saturating_add (id_ s) 1) (snapshots s)).

Definition get (id : Z) (s : t) : option T := snapshots s !! id.

(** [while to_revert < self.id { remove(to_revert); to_revert += 1 }], run
    for the number of ids between the two. *)
Fixpoint revert_from (to_revert : Z) (n : nat) (m : gmap Z T) : gmap Z T :=
  match n with
  | O => m
  | S n' => revert_from (to_revert + 1) n' (delete to_revert m)
  end.

Definition remove (id : Z) (s : t) : exec (option T * t) :=
  let snapshot := snapshots s !! id in
  let m := delete id (snapshots s) in
  to_revert ← u256_add id 1;
  Ret (snapshot, mk (id_ s) (revert_from to_revert (Z.to_nat (id_ s - to_revert)) m)).

Definition remove_at (id : Z) (s : t) : option T * t :=
  (snapshots s !! id, mk (id_ s) (delete id (snapshots s))).

Definition insert (snapshot : T) (s : t) : Z * t :=
  let '(id, s) := next_id s in
  (id, mk (id_ s) (<[id := snapshot]> (snapshots s))).

Definition insert_at (snapshot : T) (id : Z) (s : t) : Z * t :=
  (id, mk (id_ s) (<[id := snapshot]> (snapshots s))).

(** ** The loop *)
Lemma revert_from_lookup k n m i :
  revert_from k n m !! i = if decide (k <= i < k + Z.of_nat n) then None else m !! i.
Proof.
  revert k m. induction n as [|n IH]; intros k m; simpl.
  - by rewrite decide_False by lia.
  - rewrite IH. destruct (decide (i = k)) as [->|Hne].
    + rewrite lookup_delete_eq. repeat case_decide; try lia; done.
    + rewrite lookup_delete_ne by done. repeat case_decide; try lia; done.
Qed.

(** What [remove] leaves: the ids below [id], and ids that were never handed
    out. *)
Lemma remove_lookup id s o s' :
  remove id s = Ret (o, s') ->
  o = snapshots s !! id /\ id_ s' = id_ s /\
  forall i, snapshots s' !! i =
    if decide (i = id \/ id < i < id_ s) then None else snapshots s !! i.
Proof.
  unfold remove. rewrite exec_bind_Ret. intros (k & Hk & [= <- <-]).
  unfold u256_add in Hk. case_decide; [|done]. simplify_eq. simpl. split_and!; [done..|].
  intros i. rewrite revert_from_lookup. destruct (decide (i = id)) as [->|Hne].
  - rewrite lookup_delete_eq. repeat case_decide; try lia; done.
  - rewrite lookup_delete_ne by done. repeat case_decide; try lia; done.
Qed.

Lemma remove_total id s : id < U256_MAX -> exists o s', remove id s = Ret (o, s').
Proof. intros Hid. unfold remove, u256_add. rewrite decide_True by lia. simpl. eauto. Qed.

(** Every stored id was handed out. *)
Definition wf (s : t) : Prop :=
  0 <= id_ s <= U256_MAX /\ forall i, is_Some (snapshots s !! i) -> 0 <= i < id_ s.

Lemma new_wf : wf new.
Proof. split; [unfold_bounds; simpl; lia|]. simpl. intros i [x Hx]. by rewrite lookup_empty in Hx. Qed.

Lemma insert_wf x s : wf s -> id_ s < U256_MAX -> wf (snd (insert x s)).
Proof.
  intros [Hid Hs] Hlt. unfold insert, next_id, wf. simpl. unfold u256_saturating_add, saturate.
  split; [unfold_bounds; lia|]. intros i [Heq|Hi]%lookup_insert_is_Some; [unfold_bounds; lia|].
  destruct Hi as [_ Hi]. specialize (Hs i Hi). unfold_bounds; lia.
Qed.

Lemma remove_wf id s o s' : wf s -> remove id s = Ret (o, s') -> wf s'.
Proof.
  intros [Hid Hs] Hr. apply remove_lookup in Hr as (_ & Hi & Hl). split; [by rewrite Hi|].
  intros i. rewrite Hl, Hi. case_decide; [by intros [? ?]|]. apply Hs.
Qed.

End Snapshots.
Arguments t : clear implicits.
End Snapshots.

(** ** The in-memory database *)
Module MemDb.
Section MemDb.
Context {D : Type}.

Record t := mk { inner : D; snapshots : Snapshots.t D }.

Definition snapshot (s : t) : Z * t :=
  let '(id, sn) := Snapshots.insert (inner s) (snapshots s) in (id, mk (inner s) sn).

Definition revert (id : Z) (s : t) : exec (bool * t) :=
  r ← Snapshots.remove id (snapshots s);
  let '(o, sn) := (r : option D * Snapshots.t D) in
  Ret (match o with
       | Some snapshot => (true, mk snapshot sn)
       | None => (false, mk (inner s) sn)
       end).

(** Anything else only changes the data. *)
Inductive op := OpSnapshot | OpRevert (id : Z) | OpUpdate (f : D -> D).

Definition run_op (o : op) (s : t) : exec t :=
  match o with
  | OpSnapshot => Ret (snd (snapshot s))
  | OpRevert id => snd <$> revert id s
  | OpUpdate f => Ret (mk (f (inner s)) (snapshots s))
  end.

Fixpoint run (ops : list op) (s : t) : exec t :=
  match ops with
  | [] => Ret s
  | o :: ops' => s' ← run_op o s; run ops' s'
  end.

(** Operations that keep the snapshot [id] alive: reverts only to later ones. *)
Definition keeps (id : Z) (o : op) : Prop :=
  match o with OpRevert i => id < i < U256_MAX | _ => True end.

Definition wf (s : t) : Prop := Snapshots.wf (snapshots s).

(** While the ids are not exhausted, an operation preserves a snapshot that it
    does not revert past. *)
Lemma run_op_keeps id d o s :
  wf s -> Snapshots.id_ (snapshots s) < U256_MAX ->
  Snapshots.get id (snapshots s) = Some d -> keeps id o ->
  exists s', run_op o s = Ret s' /\ wf s' /\ Snapshots.get id (snapshots s') = Some d /\
    Snapshots.id_ (snapshots s') <= Snapshots.id_ (snapshots s) + 1.
Proof.
  intros Hwf Hmax Hget Hk. unfold wf in *. destruct o as [|i|f]; simpl.
  - eexists. split; [done|]. simpl. split_and!.
    + by apply Snapshots.insert_wf.
    + unfold Snapshots.get. simpl. rewrite lookup_insert_ne; [done|].
      intros <-. destruct Hwf as [_ Hs]. specialize (Hs (Snapshots.id_ (snapshots s))).
      rewrite <- not_eq_None_Some in Hs. unfold Snapshots.get in Hget. rewrite Hget in Hs.
      specialize (Hs ltac:(done)). lia.
    + destruct Hwf as [Hid _]. unfold u256_saturating_add, saturate. unfold_bounds. lia.
  - simpl in Hk. unfold revert.
    destruct (Snapshots.remove_total i (snapshots s)) as (o & sn & Hr); [lia|]. rewrite Hr. simpl.
    eexists. split; [done|].
    assert (Snapshots.wf sn /\ Snapshots.get id sn = Some d /\
      Snapshots.id_ sn <= Snapshots.id_ (snapshots s) + 1) as Hsn.
    { split; [by eapply Snapshots.remove_wf|].
      apply Snapshots.remove_lookup in Hr as (_ & Hi & Hl).
      split; [|lia]. unfold Snapshots.get in *. rewrite Hl, decide_False by lia. done. }
    by destruct o.
  - eexists. split; [done|]. simpl. split_and!; try done. lia.
Qed.

Lemma run_keeps id d ops s :
  wf s -> Snapshots.id_ (snapshots s) + Z.of_nat (length ops) < U256_MAX ->
  Snapshots.get id (snapshots s) = Some d -> Forall (keeps id) ops ->
  exists s', run ops s = Ret s' /\ wf s' /\ Snapshots.get id (snapshots s') = Some d.
Proof.
  revert s. induction ops as [|o ops IH]; intros s Hwf Hmax Hget Hk; simpl in *; [eauto|].
  apply Forall_cons in Hk as [Ho Hk].
  destruct (run_op_keeps id d o s) as (s1 & -> & Hwf1 & Hget1 & Hid1); [done|lia|done..|].
  simpl. apply IH; [done|lia|done..].
Qed.

End MemDb.
Arguments t : clear implicits.
Arguments op : clear implicits.
End MemDb.

(** ** Properties *)

(** Reverting to a snapshot restores the database as it was when the
    snapshot was taken, whatever ran in between (updates, further snapshots,
    reverts to later snapshots), and afterwards that snapshot and every later
    one is gone while the earlier ones remain. *)
Theorem snapshot_revert_restores {D} (s : MemDb.t D) (ops : list (MemDb.op D)) :
  MemDb.wf s -> Snapshots.id_ (MemDb.snapshots s) + Z.of_nat (length ops) + 1 < U256_MAX ->
  let '(id, s1) := MemDb.snapshot s in
  Forall (MemDb.keeps id) ops ->
  exists s2 s3, MemDb.run ops s1 = Ret s2 /\ MemDb.revert id s2 = Ret (true, s3) /\
    MemDb.inner s3 = MemDb.inner s /\
    (forall i, id <= i -> Snapshots.get i (MemDb.snapshots s3) = None) /\
    (forall i, i < id -> Snapshots.get i (MemDb.snapshots s3) = Snapshots.get i (MemDb.snapshots s2)).
Proof.
  intros Hwf Hmax. unfold MemDb.snapshot, Snapshots.insert, Snapshots.next_id. intros Hk.
  set (id := Snapshots.id_ (MemDb.snapshots s)) in *.
  set (s1 := MemDb.mk _ _).
  assert (MemDb.wf s1) as Hwf1.
  { apply (Snapshots.insert_wf (MemDb.inner s) (MemDb.snapshots s)); [done|]. fold id. lia. }
  assert (Snapshots.id_ (MemDb.snapshots s1) = id + 1) as Hid1.
  { unfold s1. simpl. destruct Hwf as [Hid _]. fold id in Hid.
    unfold u256_saturating_add, saturate. unfold_bounds. lia. }
  destruct (MemDb.run_keeps id (MemDb.inner s) ops s1) as (s2 & Hr & Hwf2 & Hget2); [done|lia| |done|].
  { unfold Snapshots.get, s1. simpl. by rewrite lookup_insert_eq. }
  exists s2. unfold MemDb.revert.
  destruct (Snapshots.remove_total id (MemDb.snapshots s2)) as (o & sn & Hrm); [lia|].
  rewrite Hrm. simpl. apply Snapshots.remove_lookup in Hrm as (-> & Hi & Hl).
  unfold Snapshots.get in Hget2. rewrite Hget2. eexists. split; [done|]. split; [done|].
  simpl. split_and!; [done|..]; unfold Snapshots.get; intros i Hge; rewrite Hl.
  - case_decide as Hd; [done|]. destruct Hwf2 as [_ Hb].
    apply eq_None_not_Some. intros Hsome. specialize (Hb i Hsome). lia.
  - by rewrite decide_False by lia.
Qed.

Lemma snapshot_revert_restores_witness :
  let s0 := MemDb.mk 10 Snapshots.new in
  let ops := [MemDb.OpUpdate (fun x => x + 1); MemDb.OpSnapshot; MemDb.OpUpdate (fun x => x * 2);
              MemDb.OpRevert 1] in
  exists s2 s3, MemDb.run ops (snd (MemDb.snapshot s0)) = Ret s2 /\ MemDb.inner s2 = 11 /\
    MemDb.revert 0 s2 = Ret (true, s3) /\ MemDb.inner s3 = 10.
Proof.
  intros s0 ops.
  destruct (snapshot_revert_restores s0 ops) as (s2 & s3 & H1 & H2 & H3 & _).
  - apply Snapshots.new_wf.
  - by vm_compute.
  - repeat constructor.
  - exists s2, s3. split; [exact H1|]. split; [|split; [exact H2|exact H3]].
    vm_compute in H1. injection H1 as <-. reflexivity.
Defined.

(** [remove] on the largest id panics ([id + 1] overflows), in every
    state, so [evm_revert] with that id aborts instead of reporting an unknown
    snapshot; every smaller id is answered. *)
Theorem remove_panics_on_max {T} (s : Snapshots.t T) id :
  is_u256 id ->
  (id = U256_MAX -> Snapshots.remove id s = Panic "arithmetic operation overflow") /\
  (id <> U256_MAX -> exists s', Snapshots.remove id s = Ret (Snapshots.get id s, s')).
Proof.
  intros Hid. split.
  - intros ->. unfold Snapshots.remove, u256_add. by rewrite decide_False by lia.
  - intros Hne. destruct (Snapshots.remove_total id s) as (o & s' & Hr); [unfold_bounds; lia|].
    exists s'. rewrite Hr. by apply Snapshots.remove_lookup in Hr as (-> & _).
Qed.

Lemma remove_panics_on_max_witness :
  Snapshots.remove U256_MAX (Snapshots.new : Snapshots.t Z) = Panic "arithmetic operation overflow".
Proof.
  exact (proj1 (remove_panics_on_max (Snapshots.new : Snapshots.t Z) U256_MAX
    ltac:(by vm_compute)) eq_refl).
Defined.
