(* ===== verification/PoolTx.v ===== *)
(** * Pool transactions and markers (anvil/src/eth/pool/transactions.rs,
    anvil/src/eth/api.rs)

    A pool transaction carries the markers it provides and requires.  The RPC
    layer derives them from the sender and the nonce: a transaction provides
    the marker of its own nonce and requires the one before it unless that is
    already on chain.  This file has the marker encoding, the priorities and
    the references the ready queue orders by. *)
From S2P Require Import Prelude Transaction.
Open Scope Z_scope.

Abbreviation TxMarker := (list Z) (only parsing).

(** [u64::to_le_bytes] and the 20 bytes of an address, most significant
    first. *)
Fixpoint to_le_bytes (n : nat) (x : Z) : list byte :=
  match n with
  | O => []
  | S n' => x mod 256 :: to_le_bytes n' (x / 256)
  end.
Definition address_bytes (a : Address) : list byte := reverse (to_le_bytes 20 a).

Definition to_marker (nonce : Z) (from : Address) : TxMarker :=
  to_le_bytes 8 nonce ++ address_bytes from.

(** The number that little-endian bytes denote. *)
Fixpoint le_value (l : list byte) : Z :=
  match l with [] => 0 | b :: l' => b + 256 * le_value l' end.

Lemma le_value_to_le_bytes n x : 0 <= x < 256 ^ Z.of_nat n -> le_value (to_le_bytes n x) = x.
Proof.
  revert x. induction n as [|n IH]; intros x Hx; simpl; [simpl in Hx; lia|].
  rewrite IH; [pose proof (Z.div_mod x 256 ltac:(lia)); lia|].
  rewrite Nat2Z.inj_succ, Z.pow_succ_r in Hx by lia.
  split; [apply Z.div_pos; lia|apply Z.div_lt_upper_bound; lia].
Qed.

Lemma length_to_le_bytes n x : length (to_le_bytes n x) = n.
Proof. revert x. induction n as [|n IH]; intros x; simpl; [done|]. by rewrite IH. Qed.

(** The nonce a marker encodes. *)
Definition marker_nonce (m : TxMarker) : Z := le_value (take 8 m).

Lemma marker_nonce_to_marker n a : is_u64 n -> marker_nonce (to_marker n a) = n.
Proof.
  intros Hn. unfold marker_nonce, to_marker. rewrite take_app_le by (by rewrite length_to_le_bytes).
  rewrite take_ge by (by rewrite length_to_le_bytes). apply le_value_to_le_bytes.
  change (256 ^ Z.of_nat 8) with (2 ^ 64). word_lia.
Qed.

(** [required_marker] (api.rs) *)
Definition required_marker (provided_nonce on_chain_nonce : Z) (from : Address)
    : exec (list TxMarker) :=
  if decide (provided_nonce = on_chain_nonce) then Ret []
  else
    let prev_nonce := u256_saturating_sub provided_nonce 1 in
    if decide (on_chain_nonce <= prev_nonce) then
      n ← u256_as_u64 prev_nonce; Ret [to_marker n from]
    else Ret [].

(** ** Ordering *)
Inductive TransactionOrder := Fifo | Fees.
Abbreviation TransactionPriority := Z (only parsing).

Definition priority_of (o : TransactionOrder) (tx : TypedTransaction) : TransactionPriority :=
  match o with
  | Fifo => 0
  | Fees => TypedTransaction.gas_price tx
  end.

Definition order_from_str (s : string) : result TransactionOrder string :=
  let s := to_lowercase s in
  match assoc_str s [("fees"%string, Fees); ("fifo"%string, Fifo)] with
  | Some o => Ok o
  | None => Err ("Unknown TransactionOrder: `" +:+ s +:+ "`")
  end.

(** ** Pool transactions *)
Module PoolTransaction.
Record t := mk {
  pending_transaction : PendingTransaction;
  requires : list TxMarker;
  provides : list TxMarker;
  priority : TransactionPriority }.
#[global] Instance t_eq_dec : EqDecision t.
Proof. solve_decision. Defined.

Definition hash (p : t) : TxHash := ptx_hash (pending_transaction p).
Definition gas_price (p : t) : Z :=
  TypedTransaction.gas_price (mtx_transaction (ptx_transaction (pending_transaction p))).
End PoolTransaction.

(** The pool transaction the RPC layer submits. *)
Definition pool_transaction_of (o : TransactionOrder) (p : PendingTransaction) (on_chain_nonce : Z)
    : exec PoolTransaction.t :=
  requires ← required_marker (ptx_nonce p) on_chain_nonce (sender p);
  n ← u256_as_u64 (ptx_nonce p);
  Ret (PoolTransaction.mk p requires [to_marker n (sender p)]
         (priority_of o (mtx_transaction (ptx_transaction p)))).

Inductive PoolError :=
| ReplacementUnderpriced (tx : PoolTransaction.t)
| AlreadyImported (tx : PoolTransaction.t)
| CyclicTransaction.

(** ** References ordered by priority, then by age *)
Module PoolTransactionRef.
Record t := mk { transaction : PoolTransaction.t; id : Z }.
#[global] Instance t_eq_dec : EqDecision t.
Proof. solve_decision. Defined.

(** [Ord for PoolTransactionRef]: higher priority is greater, and among equal
    priorities the older (smaller) id is greater. *)
Definition cmp (a b : t) : comparison :=
  match PoolTransaction.priority (transaction a) ?= PoolTransaction.priority (transaction b) with
  | Eq => id b ?= id a
  | c => c
  end.

Definition hash (r : t) : TxHash := PoolTransaction.hash (transaction r).
End PoolTransactionRef.

(** A [BTreeSet<PoolTransactionRef>] is its elements in increasing order;
    membership is up to [cmp]. *)
Module BTree.
Import PoolTransactionRef.

Fixpoint insert (x : PoolTransactionRef.t) (l : list PoolTransactionRef.t) : list PoolTransactionRef.t :=
  match l with
  | [] => [x]
  | y :: l' =>
      match cmp x y with
      | Lt => x :: l
      | Eq => l
      | Gt => y :: insert x l'
      end
  end.

(** [remove] / [take]: the element equal to [x], and the set without it. *)
Fixpoint take (x : PoolTransactionRef.t) (l : list PoolTransactionRef.t)
    : option PoolTransactionRef.t * list PoolTransactionRef.t :=
  match l with
  | [] => (None, [])
  | y :: l' =>
      match cmp x y with
      | Eq => (Some y, l')
      | _ => let '(o, r) := take x l' in (o, y :: r)
      end
  end.
Definition remove (x : PoolTransactionRef.t) (l : list PoolTransactionRef.t) : list PoolTransactionRef.t :=
  snd (take x l).

(** [iter().next_back()] *)
Definition next_back (l : list PoolTransactionRef.t) : option PoolTransactionRef.t := last l.

(** Strictly increasing. *)
Definition lt (a b : PoolTransactionRef.t) : Prop := cmp a b = Lt.
Definition sorted (l : list PoolTransactionRef.t) : Prop := StronglySorted lt l.

Definition key (r : PoolTransactionRef.t) : Z * Z :=
  (PoolTransaction.priority (transaction r), - id r).

Lemma cmp_key a b :
  cmp a b = match fst (key a) ?= fst (key b) with Eq => snd (key a) ?= snd (key b) | c => c end.
Proof. unfold cmp, key. simpl. by rewrite Z.compare_opp. Qed.

Lemma cmp_Eq a b : cmp a b = Eq <-> key a = key b.
Proof.
  rewrite cmp_key. destruct (key a) as [p i], (key b) as [q j]; simpl.
  destruct (Z.compare_spec p q); destruct (Z.compare_spec i j); naive_solver lia.
Qed.

Lemma cmp_Lt a b :
  cmp a b = Lt <->
  fst (key a) < fst (key b) \/ (fst (key a) = fst (key b) /\ snd (key a) < snd (key b)).
Proof.
  rewrite cmp_key. destruct (key a) as [p i], (key b) as [q j]; simpl.
  destruct (Z.compare_spec p q); destruct (Z.compare_spec i j); naive_solver lia.
Qed.

Lemma cmp_Gt a b : cmp a b = Gt <-> cmp b a = Lt.
Proof.
  rewrite cmp_Lt, cmp_key. destruct (key a) as [p i], (key b) as [q j]; simpl.
  destruct (Z.compare_spec p q); destruct (Z.compare_spec i j); naive_solver lia.
Qed.

Lemma lt_trans a b c : lt a b -> lt b c -> lt a c.
Proof. unfold lt. rewrite !cmp_Lt. lia. Qed.

Lemma lt_irrefl a : ~ lt a a.
Proof. unfold lt. rewrite cmp_Lt. lia. Qed.

Lemma elem_of_insert x y l : y ∈ insert x l -> y = x \/ y ∈ l.
Proof.
  induction l as [|z l IH]; simpl; [set_solver|]. destruct (cmp x z); set_solver.
Qed.

Lemma elem_of_insert_2 x l :
  (forall y, y ∈ l -> key y = key x -> y = x) -> x ∈ insert x l /\ forall y, y ∈ l -> y ∈ insert x l.
Proof.
  induction l as [|z l IH]; simpl; [set_solver|]. intros Hk.
  destruct (cmp x z) eqn:Hc.
  - apply cmp_Eq in Hc. assert (z = x) as -> by (apply Hk; set_solver). set_solver.
  - set_solver.
  - destruct IH as [IH1 IH2].
    { intros y Hy. apply Hk. rewrite elem_of_cons. by right. }
    split; [rewrite elem_of_cons; by right|]. intros y. rewrite !elem_of_cons.
    intros [->|Hy]; [by left|]. right. by apply IH2.
Qed.

Lemma insert_sorted x l : sorted l -> sorted (insert x l).
Proof.
  induction 1 as [|y l Hs IH Hf]; simpl; [repeat constructor|].
  destruct (cmp x y) eqn:Hc; [by constructor|..].
  - constructor; [by constructor|]. constructor; [done|].
    eapply Forall_impl; [exact Hf|]. intros z. by apply lt_trans.
  - constructor; [done|]. rewrite Forall_forall in *. intros z [->|Hz]%elem_of_insert; [|by apply Hf].
    by apply cmp_Gt.
Qed.

Lemma take_spec x l o r :
  sorted l -> take x l = (o, r) ->
  sorted r /\ (forall y, y ∈ r <-> y ∈ l /\ key y <> key x) /\
  (forall y, o = Some y <-> y ∈ l /\ key y = key x).
Proof.
  intros Hs. revert o r. induction Hs as [|y l Hs IH Hf]; intros o r; simpl.
  - intros [= <- <-]. split_and!; [constructor|..]; intros y; rewrite elem_of_nil; naive_solver.
  - rewrite Forall_forall in Hf.
    assert (forall z, z ∈ l -> key z <> key y) as Hne.
    { intros z Hz Hk. specialize (Hf z Hz). unfold lt in Hf. apply cmp_Lt in Hf. rewrite Hk in Hf. lia. }
    destruct (decide (key x = key y)) as [Hk|Hk].
    + rewrite (proj2 (cmp_Eq x y) Hk). intros [= <- <-]. rewrite Hk. split_and!; [done|..]; intros z;
        rewrite elem_of_cons; split.
      * intros Hz. split; [by right|by apply Hne].
      * by intros [[->|Hz] ?].
      * intros [= <-]. split; [by left|done].
      * intros [[->|Hz] ?]; [done|]. by destruct (Hne z Hz).
    + destruct (take x l) as [o' r'] eqn:Ht. destruct (IH _ _ eq_refl) as (H1 & H2 & H3).
      intros Hr. assert (o = o' /\ r = y :: r') as [-> ->].
      { destruct (cmp x y) eqn:Hc; [by apply cmp_Eq in Hc|by simplify_eq..]. }
      split_and!.
      * constructor; [done|]. rewrite Forall_forall. intros z [Hz _]%H2. by apply Hf.
      * intros z. rewrite !elem_of_cons, H2. split; [intros [->|[? ?]]; by auto|].
        intros [[->|?] ?]; by auto.
      * intros z. rewrite elem_of_cons, H3. split; [intros [? ?]; by auto|].
        intros [[->|?] ?]; [congruence|done].
Qed.

Lemma remove_spec x l :
  sorted l -> sorted (remove x l) /\ forall y, y ∈ remove x l <-> y ∈ l /\ key y <> key x.
Proof.
  intros Hs. unfold remove. destruct (take x l) as [o r] eqn:Ht.
  destruct (take_spec _ _ _ _ Hs Ht) as (? & ? & _). done.
Qed.

(** The last element is the greatest. *)
Lemma next_back_max l x :
  sorted l -> next_back l = Some x -> x ∈ l /\ forall y, y ∈ l -> y <> x -> lt y x.
Proof.
  intros Hs. unfold next_back. rewrite last_Some. intros [l' ->]. split; [set_solver|].
  intros y Hy Hne. apply elem_of_app in Hy as [Hy|Hy]; [|set_solver].
  induction l' as [|z l' IH]; [set_solver|]. apply StronglySorted_inv in Hs as [Hs Hf].
  apply elem_of_cons in Hy as [->|Hy]; [|by apply IH].
  rewrite Forall_forall in Hf. apply Hf. set_solver.
Qed.

Lemma sorted_key_inj l x y : sorted l -> x ∈ l -> y ∈ l -> key x = key y -> x = y.
Proof.
  intros Hs Hx Hy Hk. induction Hs as [|z l Hs IH Hf]; [set_solver|].
  rewrite Forall_forall in Hf.
  assert (forall w, w ∈ l -> key w <> key z) as Hne.
  { intros w Hw He. specialize (Hf w Hw). unfold lt in Hf. apply cmp_Lt in Hf. rewrite He in Hf. lia. }
  apply elem_of_cons in Hx as [->|Hx], Hy as [->|Hy]; [done|..].
  - exfalso. by apply (Hne y).
  - exfalso. by apply (Hne x).
  - by apply IH.
Qed.

End BTree.

(** ** Properties of the markers *)

(** Markers identify transactions: two senders (20-byte addresses) and
    64-bit nonces with the same marker are the same sender and nonce. *)
Theorem to_marker_inj n1 n2 a1 a2 :
  is_u64 n1 -> is_u64 n2 -> 0 <= a1 < 2 ^ 160 -> 0 <= a2 < 2 ^ 160 ->
  to_marker n1 a1 = to_marker n2 a2 -> n1 = n2 /\ a1 = a2.
Proof.
  intros Hn1 Hn2 Ha1 Ha2 He. split.
  - by rewrite <- (marker_nonce_to_marker n1 a1 Hn1), <- (marker_nonce_to_marker n2 a2 Hn2), He.
  - unfold to_marker, address_bytes in He. apply app_inj_1 in He as [_ He]; [|by rewrite !length_to_le_bytes].
    apply (inj reverse) in He.
    rewrite <- (le_value_to_le_bytes 20 a1), <- (le_value_to_le_bytes 20 a2), He by lia. done.
Qed.

Lemma to_marker_inj_witness :
  to_marker 7 2 = to_marker 7 2 /\ (7 = 7 /\ 2 = 2).
Proof. split; [reflexivity|]. apply (to_marker_inj 7 7 2 2); try reflexivity; word_lia. Defined.

(** [required_marker] is empty for a nonce that is next on chain or
    already mined, and otherwise the marker of the nonce before it. *)
Lemma required_marker_spec nonce on_chain from :
  is_u256 nonce -> 0 <= on_chain -> nonce - 1 <= U64_MAX ->
  required_marker nonce on_chain from =
    Ret (if decide (on_chain < nonce) then [to_marker (nonce - 1) from] else []).
Proof.
  intros Hn Ho Hmax. unfold required_marker. case_decide as He.
  { rewrite decide_False by lia. done. }
  assert (u256_saturating_sub nonce 1 = Z.max 0 (nonce - 1)) as -> by word_lia.
  case_decide as Hlt.
  - destruct (decide (nonce = 0)) as [->|Hz]; [exfalso; lia|].
    rewrite Z.max_r by word_lia. unfold u256_as_u64. rewrite decide_True by done. simpl.
    by rewrite decide_True by word_lia.
  - by rewrite decide_False by word_lia.
Qed.

(** The order names are read without regard to case, and nothing else is
    accepted. *)
Theorem order_from_str_spec s :
  (forall o, order_from_str s = Ok o <->
    to_lowercase s = match o with Fees => "fees" | Fifo => "fifo" end%string) /\
  order_from_str (to_lowercase s) = order_from_str s.
Proof.
  unfold order_from_str. rewrite to_lowercase_idemp. split; [|done]. intros o. simpl.
  destruct (String.eqb_spec (to_lowercase s) "fees") as [->|Hf]; [destruct o; naive_solver|].
  destruct (String.eqb_spec (to_lowercase s) "fifo") as [->|Hi]; destruct o; naive_solver.
Qed.
