(* ===== verification/PendingTxs.v ===== *)
(** * Transactions waiting for their markers (anvil/src/eth/pool/transactions.rs)

    [PendingTransactions] keeps the transactions of which some required marker
    is not provided yet, indexed by the missing markers. *)
From S2P Require Import Prelude Transaction PoolTx.
Open Scope Z_scope.

(** ** PendingPoolTransaction *)
Module PendingPoolTransaction.
Record t := mk {
  transaction : PoolTransaction.t;
  missing_markers : gset TxMarker;
  added_at : Z }.
#[global] Instance t_eq_dec : EqDecision t.
Proof. solve_decision. Defined.

(** [provided] is the map of the markers the ready transactions provide; only
    its keys are read. [now] is the clock. *)
Definition new (now : Z) (transaction : PoolTransaction.t) (provided : gmap TxMarker TxHash) : t :=
  mk transaction
    (list_to_set (filter (fun m => provided !! m = None) (PoolTransaction.requires transaction)))
    now.

Definition mark (marker : TxMarker) (p : t) : t :=
  mk (transaction p) (missing_markers p ∖ {[marker]}) (added_at p).

(** [mark] for a set of markers. *)
Definition mark_all (ms : gset TxMarker) (p : t) : t :=
  mk (transaction p) (missing_markers p ∖ ms) (added_at p).

Definition is_ready (p : t) : bool := bool_decide (missing_markers p = ∅).

Definition hash (p : t) : TxHash := PoolTransaction.hash (transaction p).
Definition provides (p : t) : list TxMarker := PoolTransaction.provides (transaction p).

Lemma elem_of_new_missing now tx provided m :
  m ∈ missing_markers (new now tx provided) <->
  m ∈ PoolTransaction.requires tx /\ provided !! m = None.
Proof. simpl. rewrite elem_of_list_to_set, list_elem_of_filter. naive_solver. Qed.
End PendingPoolTransaction.
Import PendingPoolTransaction.

(** ** PendingTransactions *)
Module PendingTransactions.
Record t := mk {
  required_markers : gmap TxMarker (gset TxHash);
  waiting_markers : gmap (list TxMarker) TxHash;
  waiting_queue : gmap TxHash PendingPoolTransaction.t }.

Definition empty : t := mk ∅ ∅ ∅.
Definition len (p : t) : nat := size (waiting_queue p).
Definition contains (p : t) (hash : TxHash) : bool := bool_decide (is_Some (waiting_queue p !! hash)).
Definition get (p : t) (hash : TxHash) : option PendingPoolTransaction.t := waiting_queue p !! hash.

Section Ops.
Context `{!HashIter TxMarker} `{!HashIter TxHash}.

(** [required_markers.entry(marker).or_default().insert(hash)] *)
Definition require (hash : TxHash) (r : gmap TxMarker (gset TxHash)) (marker : TxMarker)
    : gmap TxMarker (gset TxHash) :=
  <[marker := {[hash]} ∪ default ∅ (r !! marker)]> r.

Definition add_transaction (p : t) (tx : PendingPoolTransaction.t)
    : exec (result unit PoolError * t) :=
  _ ← assert (negb (is_ready tx)) "transaction must not be ready";
  _ ← assert (negb (contains p (hash tx))) "transaction is already added";
  let underpriced :=
    match waiting_markers p !! provides tx ≫= (fun h => waiting_queue p !! h) with
    | Some replace =>
        PoolTransaction.gas_price (transaction tx) <? PoolTransaction.gas_price (transaction replace)
    | None => false
    end in
  if underpriced then Ret (Err (ReplacementUnderpriced (transaction tx)), p)
  else
    Ret (Ok tt,
      mk (fold_left (require (hash tx)) (hash_iter (missing_markers tx)) (required_markers p))
         (<[provides tx := hash tx]> (waiting_markers p))
         (<[hash tx := tx]> (waiting_queue p))).

(** One transaction that waits for [marker]. *)
Definition unlock_one (marker : TxMarker) (st : t * list PendingPoolTransaction.t) (h : TxHash)
    : exec (t * list PendingPoolTransaction.t) :=
  let '(p, unlocked_ready) := st in
  tx ← expect (waiting_queue p !! h) "tx is included;";
  let tx := mark marker tx in
  let queue := <[h := tx]> (waiting_queue p) in
  if is_ready tx then
    tx ← expect (queue !! h) "tx is included;";
    Ret (mk (required_markers p) (delete (provides tx) (waiting_markers p)) (delete h queue),
         unlocked_ready ++ [tx])
  else Ret (mk (required_markers p) (waiting_markers p) queue, unlocked_ready).

Definition mark_one (st : t * list PendingPoolTransaction.t) (marker : TxMarker)
    : exec (t * list PendingPoolTransaction.t) :=
  let '(p, unlocked_ready) := st in
  match required_markers p !! marker with
  | Some tx_hashes =>
      let p := mk (delete marker (required_markers p)) (waiting_markers p) (waiting_queue p) in
      foldM (unlock_one marker) (p, unlocked_ready) (hash_iter tx_hashes)
  | None => Ret (p, unlocked_ready)
  end.

Definition mark_and_unlock (p : t) (markers : list TxMarker)
    : exec (t * list PendingPoolTransaction.t) :=
  foldM mark_one (p, []) markers.

(** [hash] no longer waits for [marker]; an entry that becomes empty is
    dropped. *)
Definition unrequire (hash : TxHash) (r : gmap TxMarker (gset TxHash)) (marker : TxMarker)
    : gmap TxMarker (gset TxHash) :=
  match r !! marker with
  | Some required =>
      let required := required ∖ {[hash]} in
      if decide (required = ∅) then delete marker r else <[marker := required]> r
  | None => r
  end.

Definition remove_one (st : t * list PoolTransaction.t) (h : TxHash) : t * list PoolTransaction.t :=
  let '(p, removed) := st in
  match waiting_queue p !! h with
  | Some waiting_tx =>
      (mk (fold_left (unrequire h) (hash_iter (missing_markers waiting_tx)) (required_markers p))
          (delete (provides waiting_tx) (waiting_markers p))
          (delete h (waiting_queue p)),
       removed ++ [transaction waiting_tx])
  | None => (p, removed)
  end.
Definition remove (p : t) (hashes : list TxHash) : t * list PoolTransaction.t :=
  fold_left remove_one hashes (p, []).

(** ** Invariant

    The index [required_markers] is exactly the missing markers of the queue,
    and its entries are not empty; every queued transaction misses a marker;
    an entry of [waiting_markers] leads to a queued transaction with those
    markers. *)
Record inv (p : t) : Prop := {
  inv_hash h tx : waiting_queue p !! h = Some tx -> hash tx = h;
  inv_missing h tx : waiting_queue p !! h = Some tx -> missing_markers tx <> ∅;
  inv_required m h :
    h ∈ default ∅ (required_markers p !! m) <->
    exists tx, waiting_queue p !! h = Some tx /\ m ∈ missing_markers tx;
  inv_required_ne m : required_markers p !! m <> Some ∅;
  inv_waiting ms h :
    waiting_markers p !! ms = Some h ->
    exists tx, waiting_queue p !! h = Some tx /\ provides tx = ms }.

Lemma pending_inv_empty : inv empty.
Proof. split; simpl; try done. intros m h. rewrite lookup_empty. simpl. set_solver. Qed.

Lemma elem_of_require h ms r m h' :
  h' ∈ default ∅ (fold_left (require h) ms r !! m) <->
  h' ∈ default ∅ (r !! m) \/ (h' = h /\ m ∈ ms).
Proof.
  revert r. induction ms as [|x ms IH]; intros r; simpl; [set_solver|].
  rewrite IH. unfold require. destruct (decide (x = m)) as [->|Hne].
  - rewrite lookup_insert_eq. simpl. set_solver.
  - rewrite lookup_insert_ne by done. set_solver.
Qed.

Lemma require_ne h ms r m :
  (forall m, r !! m <> Some ∅) -> fold_left (require h) ms r !! m <> Some ∅.
Proof.
  revert r. induction ms as [|x ms IH]; intros r Hr; simpl; [done|]. apply IH. intros m'.
  unfold require. destruct (decide (x = m')) as [->|Hne].
  - rewrite lookup_insert_eq. intros [= He]. set_solver.
  - by rewrite lookup_insert_ne.
Qed.

Lemma elem_of_unrequire h ms r m h' :
  h' ∈ default ∅ (fold_left (unrequire h) ms r !! m) <->
  h' ∈ default ∅ (r !! m) /\ ~ (h' = h /\ m ∈ ms).
Proof.
  revert r. induction ms as [|x ms IH]; intros r; simpl; [set_solver|].
  rewrite IH. unfold unrequire. rewrite elem_of_cons.
  destruct (r !! x) as [s|] eqn:Hx.
  - destruct (decide (x = m)) as [->|Hne].
    + rewrite Hx. case_decide as Hs; simpl.
      * rewrite lookup_delete_eq. simpl. set_solver.
      * rewrite lookup_insert_eq. simpl. set_solver.
    + case_decide; [rewrite lookup_delete_ne by done|rewrite lookup_insert_ne by done]; naive_solver.
  - destruct (decide (x = m)) as [->|Hne]; [rewrite Hx; simpl; set_solver|naive_solver].
Qed.

Lemma unrequire_ne h ms r m :
  (forall m, r !! m <> Some ∅) -> fold_left (unrequire h) ms r !! m <> Some ∅.
Proof.
  revert r. induction ms as [|x ms IH]; intros r Hr; simpl; [done|]. apply IH. intros m'.
  unfold unrequire. destruct (r !! x) as [s|] eqn:Hx; [|done].
  case_decide as Hs; destruct (decide (x = m')) as [->|Hne].
  - by rewrite lookup_delete_eq.
  - by rewrite lookup_delete_ne.
  - rewrite lookup_insert_eq. naive_solver.
  - by rewrite lookup_insert_ne.
Qed.

(** [add_transaction] on a transaction that is not ready and not queued:
    it is refused when it pays less than the queued transaction registered
    under the same markers, and otherwise queued beside it. *)
Lemma pending_add_spec p tx :
  inv p -> is_ready tx = false -> contains p (hash tx) = false ->
  exists r p', add_transaction p tx = Ret (r, p') /\ inv p' /\
    match r with
    | Err e => e = ReplacementUnderpriced (transaction tx) /\ p' = p /\
        exists h replace, waiting_queue p !! h = Some replace /\ provides replace = provides tx /\
          PoolTransaction.gas_price (transaction tx) < PoolTransaction.gas_price (transaction replace)
    | Ok _ => waiting_queue p' = <[hash tx := tx]> (waiting_queue p)
    end.
Proof.
  intros Hp Hr Hc. unfold add_transaction. rewrite Hr, Hc. simpl.
  apply bool_decide_eq_false in Hr, Hc. apply eq_None_not_Some in Hc.
  destruct (match _ with Some _ => _ | None => _ end) eqn:Hu.
  - eexists _, _. split; [done|]. split; [done|]. split_and!; [done..|].
    destruct (waiting_markers p !! provides tx) as [h|] eqn:Hw; simpl in Hu; [|done].
    destruct (waiting_queue p !! h) as [rep|] eqn:Hq; [|done].
    destruct (inv_waiting p Hp _ _ Hw) as (tx' & Htx' & He). simplify_eq.
    exists h, rep. split_and!; [done..|lia].
  - eexists _, _. split; [done|]. split; [|done]. split; simpl.
    + intros h tx'. rewrite lookup_insert_Some. intros [[? ->]|[_ ?]]; [done|by apply (inv_hash p)].
    + intros h tx'. rewrite lookup_insert_Some. intros [[_ <-]|[_ ?]]; [done|by eapply inv_missing].
    + intros m h. rewrite elem_of_require, elem_of_hash_iter, (inv_required p Hp).
      setoid_rewrite lookup_insert_Some. destruct (decide (hash tx = h)) as [<-|Hne].
      * rewrite Hc. naive_solver.
      * naive_solver.
    + intros m. apply require_ne, (inv_required_ne p Hp).
    + intros ms h. rewrite lookup_insert_Some. intros [[<- <-]|[Hne Hw]].
      * exists tx. by rewrite lookup_insert_eq.
      * destruct (inv_waiting p Hp _ _ Hw) as (tx' & Htx' & <-). exists tx'.
        rewrite lookup_insert_ne; [done|]. intros <-. congruence.
Qed.

(** What [remove] does to one hash. *)
Lemma remove_one_spec p rs h :
  inv p ->
  inv (fst (remove_one (p, rs) h)) /\
  waiting_queue (fst (remove_one (p, rs) h)) = delete h (waiting_queue p) /\
  snd (remove_one (p, rs) h) =
    rs ++ match waiting_queue p !! h with Some tx => [transaction tx] | None => [] end.
Proof.
  intros Hp. unfold remove_one. destruct (waiting_queue p !! h) as [tx|] eqn:Hq; simpl.
  2: { by rewrite delete_id, app_nil_r by done. }
  split_and!; [|done..]. split; simpl.
  - intros h' tx'. rewrite lookup_delete_Some. intros [_ ?]. by apply (inv_hash p).
  - intros h' tx'. rewrite lookup_delete_Some. intros [_ ?]. by eapply inv_missing.
  - intros m h'. rewrite elem_of_unrequire, elem_of_hash_iter, (inv_required p Hp).
    setoid_rewrite lookup_delete_Some. naive_solver.
  - intros m. apply unrequire_ne, (inv_required_ne p Hp).
  - intros ms h'. rewrite lookup_delete_Some. intros [Hne Hw].
    destruct (inv_waiting p Hp _ _ Hw) as (tx' & Htx' & <-). exists tx'.
    rewrite lookup_delete_ne; [done|]. intros <-. congruence.
Qed.

Lemma pending_remove_spec p hs :
  inv p -> inv (fst (remove p hs)) /\
  forall h, waiting_queue (fst (remove p hs)) !! h =
    if decide (h ∈ hs) then None else waiting_queue p !! h.
Proof.
  unfold remove. generalize (@nil PoolTransaction.t). revert p.
  induction hs as [|x hs IH]; intros p rs Hp; cbn [fold_left].
  { split; [done|]. intros h. by rewrite decide_False by set_solver. }
  destruct (remove_one (p, rs) x) as [p1 rs1] eqn:H1.
  pose proof (remove_one_spec p rs x Hp) as Hs. rewrite H1 in Hs. simpl in Hs.
  destruct Hs as (Hp1 & Hq1 & _). destruct (IH p1 rs1 Hp1) as [Hi Hl]. split; [done|].
  intros h. rewrite Hl, Hq1. destruct (decide (h = x)) as [->|Hne].
  - rewrite lookup_delete_eq. destruct (decide (x ∈ x :: hs)) as [_|[]]; [by case_decide|]. by left.
  - rewrite lookup_delete_ne by done. destruct (decide (h ∈ hs)).
    + by rewrite decide_True by set_solver.
    + by rewrite decide_False by set_solver.
Qed.

(** What becomes of a queued transaction when the markers [ms] are checked
    off: it stays in the queue without them, or leaves it. *)
Definition still_waiting (ms : gset TxMarker) (tx : PendingPoolTransaction.t)
    : option PendingPoolTransaction.t :=
  if decide (missing_markers tx ⊆ ms) then None else Some (mark_all ms tx).

Definition unlocked_by (ms : gset TxMarker) (p : t) (tx : PendingPoolTransaction.t) : Prop :=
  exists tx0, waiting_queue p !! hash tx = Some tx0 /\ missing_markers tx0 ⊆ ms /\ tx = mark_all ms tx0.

(** The outcome of checking off [ms] in [p]: the new queue, and exactly the
    transactions that left it, each once. *)
Record unlock_outcome (ms : gset TxMarker) (p p' : t) (new : list PendingPoolTransaction.t) : Prop := {
  uo_queue h : waiting_queue p' !! h = waiting_queue p !! h ≫= still_waiting ms;
  uo_nodup : NoDup (hash <$> new);
  uo_unlocked tx : tx ∈ new <-> unlocked_by ms p tx }.

Lemma mark_all_none ms tx : missing_markers tx ## ms -> mark_all ms tx = tx.
Proof. intros Hd. destruct tx as [tx mm a]. unfold mark_all. f_equal/=. set_solver. Qed.

Lemma still_waiting_none m tx :
  missing_markers tx <> ∅ -> m ∉ missing_markers tx -> still_waiting {[m]} tx = Some tx.
Proof.
  intros Hne Hm. unfold still_waiting. rewrite decide_False.
  - rewrite mark_all_none; [done|set_solver].
  - intros Hs. apply Hne. set_solver.
Qed.

Lemma mark_is_ready m tx :
  m ∈ missing_markers tx ->
  is_ready (mark m tx) = bool_decide (missing_markers tx ⊆ {[m]}).
Proof.
  intros Hm. apply bool_decide_ext. simpl. split.
  - apply empty_difference_subseteq_L.
  - apply subseteq_empty_difference_L.
Qed.

(** The loop over the transactions that wait for [m]; [todo] are the hashes
    still to come. *)
Record unlocking (m : TxMarker) (p0 : t) (todo : list TxHash) (q : t)
    (new : list PendingPoolTransaction.t) : Prop := {
  ul_required : required_markers q = delete m (required_markers p0);
  ul_queue h : waiting_queue q !! h =
    if decide (h ∈ todo) then waiting_queue p0 !! h else waiting_queue p0 !! h ≫= still_waiting {[m]};
  ul_nodup_todo : NoDup todo;
  ul_todo h : h ∈ todo -> exists tx, waiting_queue p0 !! h = Some tx /\ m ∈ missing_markers tx;
  ul_nodup : NoDup (hash <$> new);
  ul_new tx : tx ∈ new <-> hash tx ∉ todo /\ unlocked_by {[m]} p0 tx;
  ul_waiting ms h : waiting_markers q !! ms = Some h ->
    exists tx, waiting_queue q !! h = Some tx /\ provides tx = ms }.

(** The clauses of [unlocking] about the queue and the unlocked transactions,
    after the hash [h] of the waiting [tx] is processed. *)
Lemma unlocking_queue m p0 h todo q new tx (q' : gmap TxHash PendingPoolTransaction.t) :
  unlocking m p0 (h :: todo) q new -> waiting_queue p0 !! h = Some tx ->
  (forall h', q' !! h' =
     if decide (h' = h) then still_waiting {[m]} tx else waiting_queue q !! h') ->
  forall h', q' !! h' =
    if decide (h' ∈ todo) then waiting_queue p0 !! h' else waiting_queue p0 !! h' ≫= still_waiting {[m]}.
Proof.
  intros [_ Hq Hnd _ _ _ _] Htx Hq' h'. apply NoDup_cons in Hnd as [Hni _].
  rewrite Hq'. destruct (decide (h' = h)) as [->|Hne].
  - rewrite decide_False by done. by rewrite Htx.
  - rewrite Hq. destruct (decide (h' ∈ todo)).
    + by rewrite decide_True by set_solver.
    + by rewrite decide_False by set_solver.
Qed.

Lemma unlock_one_spec m p0 h todo q us new :
  inv p0 -> unlocking m p0 (h :: todo) q new ->
  exists q' new', unlock_one m (q, us ++ new) h = Ret (q', us ++ new') /\ unlocking m p0 todo q' new'.
Proof.
  intros Hp Hu. pose proof Hu as [Hr Hq Hndt Ht Hnd Hn Hw].
  destruct (Ht h) as (tx & Htx & Hm); [set_solver|].
  apply NoDup_cons in Hndt as [Hni Hndt].
  assert (waiting_queue q !! h = Some tx) as Hqh by (by rewrite Hq, decide_True by set_solver).
  assert (forall h', h' ∈ todo -> exists tx, waiting_queue p0 !! h' = Some tx /\ m ∈ missing_markers tx) as Ht'.
  { intros h' Hh'. apply Ht. by right. }
  pose proof (inv_hash p0 Hp h tx Htx) as Hh.
  unfold unlock_one. rewrite Hqh. simpl. rewrite mark_is_ready by done.
  case_bool_decide as Hsub.
  - rewrite lookup_insert_eq. simpl. eexists _, (new ++ [mark m tx]). rewrite app_assoc. split; [done|].
    split; simpl; try done.
    + eapply unlocking_queue; [done..|]. intros h'. simpl. unfold still_waiting.
      rewrite (decide_True (P := missing_markers tx ⊆ _)) by done. case_decide as Hc; [subst h'|].
      * by rewrite lookup_delete_eq.
      * by rewrite lookup_delete_ne, lookup_insert_ne by done.
    + rewrite fmap_app. apply NoDup_app. split_and!; [done| |apply NoDup_singleton].
      intros x (tx' & -> & Hin)%list_elem_of_fmap. apply Hn in Hin as [Hin _]. set_solver.
    + intros tx'. rewrite elem_of_app, list_elem_of_singleton, Hn, elem_of_cons. split.
      * intros [[? ?]| ->]; [split; [by auto|done]|]. unfold unlocked_by.
        change (hash (mark m tx)) with (hash tx). rewrite Hh. split; [naive_solver|]. by exists tx.
      * intros [Hnt Hby]. destruct (decide (hash tx' = h)) as [He|Hne]; [|left; naive_solver].
        right. destruct Hby as (tx0 & Htx0 & _ & ->). rewrite He in Htx0. by simplify_eq.
    + intros ms h'. rewrite lookup_delete_Some. intros [Hne (tx' & Htx' & <-)%Hw].
      exists tx'. rewrite lookup_delete_ne, lookup_insert_ne; [done|..]; intros <-; simplify_eq.
  - eexists _, new. split; [done|]. split; simpl; try done.
    + eapply unlocking_queue; [done..|]. intros h'. simpl. unfold still_waiting.
      rewrite (decide_False (P := missing_markers tx ⊆ _)) by done. case_decide as Hc; [subst h'|].
      * by rewrite lookup_insert_eq.
      * by rewrite lookup_insert_ne.
    + intros tx'. rewrite Hn, elem_of_cons. split; [naive_solver|]. intros [? Hby].
      split; [|done]. intros [He|?]; [|done]. destruct Hby as (tx0 & Htx0 & Hs & _).
      rewrite He in Htx0. by simplify_eq.
    + intros ms h' (tx' & Htx' & <-)%Hw. destruct (decide (h = h')) as [<-|Hne].
      * rewrite lookup_insert_eq. eexists. split; [done|]. by simplify_eq.
      * exists tx'. by rewrite lookup_insert_ne.
Qed.

Lemma still_waiting_Some ms tx tx' :
  still_waiting ms tx = Some tx' <-> ~ missing_markers tx ⊆ ms /\ tx' = mark_all ms tx.
Proof. unfold still_waiting. case_decide; naive_solver. Qed.

Lemma mark_all_ready ms tx : missing_markers tx ⊆ ms -> missing_markers (mark_all ms tx) = ∅.
Proof. apply subseteq_empty_difference_L. Qed.

Lemma mark_all_mark_all ms ms' tx : mark_all ms' (mark_all ms tx) = mark_all (ms ∪ ms') tx.
Proof. unfold mark_all. f_equal/=. by rewrite difference_difference_l_L. Qed.

Lemma still_waiting_still_waiting ms ms' tx :
  still_waiting ms tx ≫= still_waiting ms' = still_waiting (ms ∪ ms') tx.
Proof.
  unfold still_waiting. destruct (decide (missing_markers tx ⊆ ms)) as [Hs|Hs]; simpl.
  - by rewrite decide_True by set_solver.
  - rewrite mark_all_mark_all. simpl.
    destruct (decide (missing_markers tx ∖ ms ⊆ ms')) as [Hd|Hd].
    + rewrite decide_True; [done|]. intros x Hx. destruct (decide (x ∈ ms)); set_solver.
    + rewrite decide_False; [done|]. intros Hx. apply Hd. set_solver.
Qed.

Lemma unlock_outcome_compose ms ms' p p1 p2 n1 n2 :
  unlock_outcome ms p p1 n1 -> unlock_outcome ms' p1 p2 n2 ->
  unlock_outcome (ms ∪ ms') p p2 (n1 ++ n2).
Proof.
  intros [Hq1 Hd1 Hu1] [Hq2 Hd2 Hu2]. split.
  - intros h. rewrite Hq2, Hq1. destruct (waiting_queue p !! h) as [tx|]; simpl; [|done].
    apply still_waiting_still_waiting.
  - rewrite fmap_app. apply NoDup_app. split_and!; [done| |done].
    intros x (tx1 & -> & Hin1)%list_elem_of_fmap (tx2 & He & Hin2)%list_elem_of_fmap.
    apply Hu1 in Hin1 as (t1 & Ht1 & Hs1 & _). apply Hu2 in Hin2 as (t2 & Ht2 & _).
    rewrite Hq1, <- He, Ht1 in Ht2. simpl in Ht2. by apply still_waiting_Some in Ht2 as [? _].
  - intros tx. rewrite elem_of_app, Hu1, Hu2. unfold unlocked_by. rewrite Hq1. split.
    + intros [(t0 & Ht & Hs & ->)|(t1 & Ht & Hs & ->)].
      * exists t0. split_and!; [done|set_solver|]. rewrite <- mark_all_mark_all.
        rewrite (mark_all_none ms'); [done|]. rewrite mark_all_ready by done. set_solver.
      * destruct (waiting_queue p !! _) as [t0|] eqn:H0; simpl in Ht; [|done].
        apply still_waiting_Some in Ht as [Hn ->]. exists t0. rewrite mark_all_mark_all.
        split_and!; [done| |done]. simpl in Hs. intros x Hx. destruct (decide (x ∈ ms)); set_solver.
    + intros (t0 & Ht & Hs & ->). rewrite Ht. simpl.
      destruct (decide (missing_markers t0 ⊆ ms)) as [Hm|Hm].
      * left. exists t0. split_and!; [done..|]. rewrite <- mark_all_mark_all.
        rewrite (mark_all_none ms'); [done|]. rewrite mark_all_ready by done. set_solver.
      * right. exists (mark_all ms t0). rewrite mark_all_mark_all. split_and!; [|simpl; set_solver|done].
        by apply still_waiting_Some.
Qed.

Lemma unlocking_start p m s :
  inv p -> required_markers p !! m = Some s ->
  unlocking m p (hash_iter s) (mk (delete m (required_markers p)) (waiting_markers p) (waiting_queue p)) [].
Proof.
  intros Hp Hm.
  assert (forall h, h ∈ hash_iter s <-> exists tx, waiting_queue p !! h = Some tx /\ m ∈ missing_markers tx) as Hs.
  { intros h. rewrite elem_of_hash_iter, <- (inv_required p Hp m h), Hm. done. }
  split; simpl; [done| |apply NoDup_hash_iter|by intros h ?%Hs|constructor| |apply (inv_waiting p Hp)].
  - intros h. case_decide as Hd; [done|].
    destruct (waiting_queue p !! h) as [tx|] eqn:Hq; [|done]. simpl. rewrite still_waiting_none; [done|..].
    + by eapply inv_missing.
    + intros Hin. apply Hd, Hs. by exists tx.
  - intros tx. rewrite elem_of_nil. split; [done|]. intros [Hni (t0 & Ht & Hs0 & ->)]. apply Hni, Hs.
    exists t0. split; [done|]. pose proof (inv_missing p Hp _ _ Ht) as Hne.
    apply set_choose_L in Hne as [x Hx]. set_solver.
Qed.

Lemma unlocking_finish p m q new :
  inv p -> unlocking m p [] q new -> inv q /\ unlock_outcome {[m]} p q new.
Proof.
  intros Hp [Hr Hq _ _ Hnd Hn Hw]. simpl in *.
  assert (forall h tx, waiting_queue q !! h = Some tx -> exists t0, waiting_queue p !! h = Some t0 /\
    ~ missing_markers t0 ⊆ {[m]} /\ tx = mark_all {[m]} t0) as Hinv.
  { intros h tx. rewrite Hq.
    intros (t0 & Ht0 & Hs)%bind_Some. exists t0. split; [done|]. by apply still_waiting_Some. }
  split; split.
  - intros h tx (t0 & Ht & _ & ->)%Hinv. exact (inv_hash p Hp h t0 Ht).
  - intros h tx (t0 & Ht & Hn0 & ->)%Hinv. simpl. intros He. by apply Hn0, empty_difference_subseteq_L.
  - intros m' h. rewrite Hr, Hq. destruct (decide (m = m')) as [<-|Hne].
    + rewrite lookup_delete_eq. split; [set_solver|].
      intros (tx & (t0 & _ & [_ ->]%still_waiting_Some)%bind_Some & Hin). simpl in Hin. set_solver.
    + rewrite lookup_delete_ne, (inv_required p Hp) by done. split.
      * intros (t0 & Ht & Hin). exists (mark_all {[m]} t0). rewrite Ht. simpl. split; [|set_solver].
        apply still_waiting_Some. split; [set_solver|done].
      * intros (tx & (t0 & Ht & [_ ->]%still_waiting_Some)%bind_Some & Hin). exists t0. simpl in Hin. set_solver.
  - intros m'. rewrite Hr. rewrite lookup_delete_Some. intros [_ Hc]. by apply (inv_required_ne p Hp m').
  - intros ms h Hw0. apply Hw in Hw0 as (tx & Htx & <-). by exists tx.
  - done.
  - done.
  - intros tx. rewrite Hn. split; [by intros [_ ?]|]. intros ?. split; [|done]. set_solver.
Qed.

Lemma unlock_outcome_none p m :
  inv p -> required_markers p !! m = None -> unlock_outcome {[m]} p p [].
Proof.
  intros Hp Hm.
  assert (forall h tx, waiting_queue p !! h = Some tx -> m ∉ missing_markers tx) as Hni.
  { intros h tx Htx Hin. pose proof (proj2 (inv_required p Hp m h)) as Hx. rewrite Hm in Hx. simpl in Hx.
    destruct (not_elem_of_empty (C := gset TxHash) h). apply Hx. by exists tx. }
  split; [|constructor|].
  - intros h. destruct (waiting_queue p !! h) as [tx|] eqn:Hq; [|done]. simpl.
    rewrite still_waiting_none; [done|by eapply inv_missing|by eapply Hni].
  - intros tx. rewrite elem_of_nil. split; [done|]. intros (t0 & Ht & Hs & _).
    pose proof (inv_missing p Hp _ _ Ht) as Hne. apply set_choose_L in Hne as [x Hx].
    apply (Hni _ _ Ht). set_solver.
Qed.

Lemma mark_one_spec p us m :
  inv p -> exists p' new, mark_one (p, us) m = Ret (p', us ++ new) /\ inv p' /\ unlock_outcome {[m]} p p' new.
Proof.
  intros Hp. unfold mark_one. destruct (required_markers p !! m) as [s|] eqn:Hm.
  - destruct (foldM_inv (fun todo (st : t * list PendingPoolTransaction.t) =>
        exists new, snd st = us ++ new /\ unlocking m p todo (fst st) new)
      (unlock_one m) (hash_iter s) (mk (delete m (required_markers p)) (waiting_markers p) (waiting_queue p), us))
      as ([q us'] & -> & new & He & Hu).
    + intros h todo [q us'] (new & He & Hu). simpl in He. subst us'.
      destruct (unlock_one_spec m p h todo q us new Hp Hu) as (q' & new' & -> & Hu').
      eexists. split; [done|]. by exists new'.
    + exists []. rewrite app_nil_r. split; [done|]. by apply unlocking_start.
    + simpl in He. subst us'. exists q, new. split; [done|]. by apply unlocking_finish.
  - exists p, []. rewrite app_nil_r. split; [done|]. split; [done|]. by apply unlock_outcome_none.
Qed.

Lemma mark_all_empty ms p : inv p -> ms = ∅ -> unlock_outcome ms p p [].
Proof.
  intros Hp ->. split; [|constructor|].
  - intros h. destruct (waiting_queue p !! h) as [tx|] eqn:Hq; [|done]. simpl.
    symmetry. apply still_waiting_Some. rewrite mark_all_none by set_solver. split; [|done].
    intros Hs. apply (inv_missing p Hp _ _ Hq). set_solver.
  - intros tx. rewrite elem_of_nil. split; [done|]. intros (t0 & Ht & Hs & _).
    apply (inv_missing p Hp _ _ Ht). set_solver.
Qed.

(** [mark_and_unlock] never panics; it checks the markers off in every queued
    transaction and returns exactly those that miss none any more. *)
Lemma mark_and_unlock_spec p ms :
  inv p -> exists p' new, mark_and_unlock p ms = Ret (p', new) /\ inv p' /\
    unlock_outcome (list_to_set ms) p p' new.
Proof.
  unfold mark_and_unlock.
  enough (forall us, inv p -> exists p' new, foldM mark_one (p, us) ms = Ret (p', us ++ new) /\ inv p' /\
    unlock_outcome (list_to_set ms) p p' new) as H by apply H.
  revert p. induction ms as [|m ms IH]; intros p us Hp; cbn [foldM].
  - exists p, []. rewrite app_nil_r. split_and!; [done..|]. by apply mark_all_empty.
  - destruct (mark_one_spec p us m Hp) as (p1 & n1 & -> & Hp1 & Ho1). cbn.
    destruct (IH p1 (us ++ n1) Hp1) as (p2 & n2 & -> & Hp2 & Ho2).
    exists p2, (n1 ++ n2). rewrite app_assoc. split_and!; [done..|]. by eapply unlock_outcome_compose.
Qed.
End Ops.
End PendingTransactions.
