(* ===== verification/ReadyTxs.v ===== *)
(** * Transactions ready for the next block (anvil/src/eth/pool/transactions.rs)

    [ReadyTransactions] keeps the transactions all of whose markers are
    provided, the links from a transaction to those it unlocks, and the
    ordered set of the transactions that depend on no other.
    [TransactionsIterator] enumerates them for the miner. *)
From S2P Require Import Prelude Transaction PoolTx PendingTxs.
Open Scope Z_scope.

(** ** ReadyTransaction *)
Module ReadyTransaction.
Record t := mk {
  transaction : PoolTransactionRef.t;
  unlocks : list TxHash;
  requires_offset : nat }.

Definition pool_tx (r : t) : PoolTransaction.t := PoolTransactionRef.transaction (transaction r).
Definition provides (r : t) : list TxMarker := PoolTransaction.provides (pool_tx r).
Definition requires (r : t) : list TxMarker := PoolTransaction.requires (pool_tx r).
Definition gas_price (r : t) : Z := PoolTransaction.gas_price (pool_tx r).

Definition set_unlocks (u : list TxHash) (r : t) : t := mk (transaction r) u (requires_offset r).
Definition set_offset (n : nat) (r : t) : t := mk (transaction r) (unlocks r) n.
End ReadyTransaction.
Import ReadyTransaction.

(** ** The transactions that are submitted

    The pool is only given transactions that provide one marker, require at
    most one, of a smaller rank (the nonce), and are always submitted with
    the same markers: [own] and [requires_of] name the markers of the
    transaction with a given hash; [submitted] is any property that all
    submitted transactions have. *)
Class Universe := {
  own : TxHash -> TxMarker;
  requires_of : TxHash -> list TxMarker;
  rank : TxMarker -> nat;
  submitted : PoolTransaction.t -> Prop;
  requires_rank h : requires_of h = [] \/ exists m, requires_of h = [m] /\ (rank m < rank (own h))%nat }.

Definition wf_tx `{Universe} (tx : PoolTransaction.t) : Prop :=
  PoolTransaction.provides tx = [own (PoolTransaction.hash tx)] /\
  PoolTransaction.requires tx = requires_of (PoolTransaction.hash tx) /\ submitted tx.

(** ** ReadyTransactions *)
Module ReadyTransactions.
Record t := mk {
  id : Z;
  provided_markers : gmap TxMarker TxHash;
  ready_tx : gmap TxHash ReadyTransaction.t;
  independent_transactions : list PoolTransactionRef.t }.

Definition empty : t := mk 0 ∅ ∅ [].
Definition contains (r : t) (hash : TxHash) : bool := bool_decide (is_Some (ready_tx r !! hash)).
Definition get (r : t) (hash : TxHash) : option ReadyTransaction.t := ready_tx r !! hash.
Definition next_id (r : t) : Z * t :=
  (id r, mk (u64_wrapping_add (id r) 1) (provided_markers r) (ready_tx r) (independent_transactions r)).

Section Ops.
Context `{!HashIter TxHash}.

(** [if let Some(idx) = unlocks.iter().position(|i| i == hash)
    { unlocks.swap_remove(idx); }] *)
Definition unlocks_remove (hash : TxHash) (unlocks : list TxHash) : list TxHash :=
  match position hash unlocks with
  | Some idx => swap_remove idx unlocks
  | None => unlocks
  end.

(** ** remove_with_markers *)

Definition invalidates (marker_filter : option (gset TxMarker)) (mark : TxMarker) : bool :=
  match marker_filter with Some filter => negb (bool_decide (mark ∈ filter)) | None => true end.

Definition remove_invalidated (provided : gmap TxMarker TxHash) (mark : TxMarker) : gmap TxMarker TxHash :=
  delete mark provided.

(** "remove from unlocks": the inner [hash] shadows the hash of the removed
    transaction, so the entry looked for is the hash of [tx] itself. *)
Definition remove_from_unlocks (provided : gmap TxMarker TxHash)
    (ready : gmap TxHash ReadyTransaction.t) (mark : TxMarker) : gmap TxHash ReadyTransaction.t :=
  match provided !! mark with
  | Some hash =>
      match ready !! hash with
      | Some tx => <[hash := set_unlocks (unlocks_remove hash (unlocks tx)) tx]> ready
      | None => ready
      end
  | None => ready
  end.

(** The body of the loop for the transaction [tx] found under the popped
    [hash]. *)
Definition remove_found (marker_filter : option (gset TxMarker)) (r : t) (hash : TxHash)
    (tx : ReadyTransaction.t) : bool * t :=
  let ready := delete hash (ready_tx r) in
  let invalidated := filter (fun mark => invalidates marker_filter mark) (provides tx) in
  let removed_some_marks := negb (bool_decide (invalidated = [])) in
  let provided := fold_left remove_invalidated invalidated (provided_markers r) in
  let ready := fold_left (remove_from_unlocks provided) (requires tx) ready in
  (removed_some_marks,
   mk (id r) provided ready (BTree.remove (transaction tx) (independent_transactions r))).

(** The [while let Some(hash) = tx_hashes.pop()] loop.  [tx_hashes] is the
    stack with its top first; [n] bounds the transactions that can still be
    removed (there are never more than the ready ones). *)
Fixpoint remove_loop (marker_filter : option (gset TxMarker)) (n : nat)
    : list TxHash -> t -> list PoolTransaction.t -> exec (t * list PoolTransaction.t) :=
  fix pop (tx_hashes : list TxHash) (r : t) (removed : list PoolTransaction.t) {struct tx_hashes} :=
    match tx_hashes with
    | [] => Ret (r, removed)
    | hash :: tx_hashes =>
        match ready_tx r !! hash with
        | None => pop tx_hashes r removed
        | Some tx =>
            match n with
            | O => Panic "unreachable"
            | S n' =>
                let '(removed_some_marks, r) := remove_found marker_filter r hash tx in
                let tx_hashes := if removed_some_marks then reverse (unlocks tx) ++ tx_hashes else tx_hashes in
                remove_loop marker_filter n' tx_hashes r (removed ++ [pool_tx tx])
            end
        end
    end.

Definition remove_with_markers (r : t) (tx_hashes : list TxHash) (marker_filter : option (gset TxMarker))
    : exec (t * list PoolTransaction.t) :=
  remove_loop marker_filter (size (ready_tx r)) (reverse tx_hashes) r [].

Definition clear_transactions (r : t) (tx_hashes : list TxHash) : exec (t * list PoolTransaction.t) :=
  remove_with_markers r tx_hashes None.

(** ** add_transaction *)

(** The loop over the transactions to replace: the transactions they unlock,
    or the error of an underpriced replacement. *)
Fixpoint check_replaced (ready : gmap TxHash ReadyTransaction.t) (tx : PoolTransaction.t)
    (hashes unlocked_tx : list TxHash) : result (list TxHash) PoolError :=
  match hashes with
  | [] => Ok unlocked_tx
  | h :: hashes =>
      match ready !! h with
      | None => check_replaced ready tx hashes unlocked_tx
      | Some to_remove =>
          if bool_decide (provides to_remove = PoolTransaction.provides tx) &&
             (PoolTransaction.gas_price tx <=? gas_price to_remove)
          then Err (ReplacementUnderpriced tx)
          else check_replaced ready tx hashes (unlocked_tx ++ unlocks to_remove)
      end
  end.

Definition replaced_transactions (r : t) (tx : PoolTransaction.t)
    : exec (result (list PoolTransaction.t * list TxHash) PoolError * t) :=
  let remove_hashes : gset TxHash :=
    list_to_set (omap (fun mark => provided_markers r !! mark) (PoolTransaction.provides tx)) in
  if decide (remove_hashes = ∅) then Ret (Ok ([], []), r)
  else
    match check_replaced (ready_tx r) tx (hash_iter remove_hashes) [] with
    | Err e => Ret (Err e, r)
    | Ok unlocked_tx =>
        let new_provides : gset TxMarker := list_to_set (PoolTransaction.provides tx) in
        '(r, removed_tx) ← remove_with_markers r (hash_iter remove_hashes) (Some new_provides);
        Ret (Ok (removed_tx, unlocked_tx), r)
    end.

(** One required marker of the transaction that is being added. *)
Definition link_required (provided : gmap TxMarker TxHash) (hash : TxHash)
    (st : gmap TxHash ReadyTransaction.t * bool * nat) (mark : TxMarker)
    : exec (gmap TxHash ReadyTransaction.t * bool * nat) :=
  let '(ready, independent, requires_offset) := st in
  match provided !! mark with
  | Some other =>
      tx ← expect (ready !! other) "hash included;";
      Ret (<[other := set_unlocks (unlocks tx ++ [hash]) tx]> ready, false, requires_offset)
  | None => Ret (ready, independent, S requires_offset)
  end.

Definition provide (hash : TxHash) (provided : gmap TxMarker TxHash) (mark : TxMarker)
    : gmap TxMarker TxHash := <[mark := hash]> provided.

Definition add_transaction (r : t) (tx : PendingPoolTransaction.t)
    : exec (result (list PoolTransaction.t) PoolError * t) :=
  _ ← assert (PendingPoolTransaction.is_ready tx) "transaction must be ready";
  _ ← assert (negb (contains r (PendingPoolTransaction.hash tx))) "transaction already included";
  let ptx := PendingPoolTransaction.transaction tx in
  '(res, r) ← replaced_transactions r ptx;
  match res with
  | Err e => Ret (Err e, r)
  | Ok (replaced_tx, unlocks) =>
      let '(id', r) := next_id r in
      let hash := PoolTransaction.hash ptx in
      '(ready, independent, requires_offset) ←
        foldM (link_required (provided_markers r) hash) (ready_tx r, true, 0%nat)
          (PoolTransaction.requires ptx);
      let provided := fold_left (provide hash) (PoolTransaction.provides ptx) (provided_markers r) in
      let transaction := PoolTransactionRef.mk ptx id' in
      let ind := if independent : bool then BTree.insert transaction (independent_transactions r)
                 else independent_transactions r in
      Ret (Ok replaced_tx,
           mk (id r) provided (<[hash := ReadyTransaction.mk transaction unlocks requires_offset]> ready) ind)
  end.

(** ** prune_tags *)

(** [previous_markers]: unlinks [hash] from the transaction that provides
    [marker], whose markers are pruned too when it unlocks nothing else. *)
Definition previous_markers (provided : gmap TxMarker TxHash) (hash : TxHash)
    (st : gmap TxHash ReadyTransaction.t * list TxMarker) (marker : TxMarker)
    : gmap TxHash ReadyTransaction.t * list TxMarker :=
  let '(ready, remove) := st in
  match provided !! marker with
  | None => (ready, remove)
  | Some prev_hash =>
      match ready !! prev_hash with
      | None => (ready, remove)
      | Some tx2 =>
          let tx2 := set_unlocks (unlocks_remove hash (unlocks tx2)) tx2 in
          (<[prev_hash := tx2]> ready,
           if bool_decide (unlocks tx2 = []) then reverse (provides tx2) ++ remove else remove)
      end
  end.

(** The transactions that just got unlocked. *)
Definition prune_unlock (st : gmap TxHash ReadyTransaction.t * list PoolTransactionRef.t) (hash : TxHash)
    : gmap TxHash ReadyTransaction.t * list PoolTransactionRef.t :=
  let '(ready, independent) := st in
  match ready !! hash with
  | Some tx =>
      let tx := set_offset (S (requires_offset tx)) tx in
      (<[hash := tx]> ready,
       if decide (requires_offset tx = length (requires tx))
       then BTree.insert (transaction tx) independent else independent)
  | None => (ready, independent)
  end.

Definition unprovide (current_marker : TxMarker) (hash : TxHash)
    (provided : gmap TxMarker TxHash) (marker : TxMarker) : exec (gmap TxMarker TxHash) :=
  _ ← assert (bool_decide (provided !! marker =
                 if decide (current_marker = marker) then None else Some hash))
        "The pool contains exactly one transaction providing given tag";
  Ret (delete marker provided).

(** The body of the loop for the transaction [tx] found under the popped
    [marker], which [r] no longer holds; returns the new stack too. *)
Definition prune_found (r : t) (marker : TxMarker) (remove : list TxMarker) (tx : ReadyTransaction.t)
    : exec (t * list TxMarker) :=
  let independent := BTree.remove (transaction tx) (independent_transactions r) in
  let hash := PoolTransaction.hash (pool_tx tx) in
  let '(ready, remove) :=
    fold_left (previous_markers (provided_markers r) hash) (requires tx) (ready_tx r, remove) in
  let '(ready, independent) := fold_left prune_unlock (unlocks tx) (ready, independent) in
  provided ← foldM (unprovide marker hash) (provided_markers r) (provides tx);
  Ret (mk (id r) provided ready independent, remove).

Fixpoint prune_loop (n : nat)
    : list TxMarker -> t -> list PoolTransaction.t -> exec (t * list PoolTransaction.t) :=
  fix pop (remove : list TxMarker) (r : t) (removed_tx : list PoolTransaction.t) {struct remove} :=
    match remove with
    | [] => Ret (r, removed_tx)
    | marker :: remove =>
        let provided := delete marker (provided_markers r) in
        match provided_markers r !! marker ≫= (fun hash => pair hash <$> ready_tx r !! hash) with
        | None => pop remove (mk (id r) provided (ready_tx r) (independent_transactions r)) removed_tx
        | Some (hash, tx) =>
            match n with
            | O => Panic "unreachable"
            | S n' =>
                '(r, remove) ←
                  prune_found (mk (id r) provided (delete hash (ready_tx r)) (independent_transactions r))
                    marker remove tx;
                prune_loop n' remove r (removed_tx ++ [pool_tx tx])
            end
        end
    end.

Definition prune_tags (r : t) (marker : TxMarker) : exec (t * list PoolTransaction.t) :=
  prune_loop (size (ready_tx r)) [marker] r [].

Context `{!Universe}.

(** ** Invariant

    [inv_but todo r] is the invariant of the queue while the loops run: the
    transactions of [todo] may still wait for a transaction that is gone.
    The clauses: the keys are the hashes of well-formed transactions; the
    provided markers are those of the ready transactions; the independent set
    is ordered and refers to ready transactions; a transaction only unlocks
    those that require its marker; each transaction is independent or is
    unlocked by a ready one, and not both; the ids are distinct. *)
Record inv_but (todo : list TxHash) (r : t) : Prop := {
  iv_id : 0 <= id r;
  iv_tx h tx : ready_tx r !! h = Some tx ->
    PoolTransactionRef.hash (transaction tx) = h /\ wf_tx (pool_tx tx);
  iv_provided m h : provided_markers r !! m = Some h <-> is_Some (ready_tx r !! h) /\ own h = m;
  iv_sorted : BTree.sorted (independent_transactions r);
  iv_ind x : x ∈ independent_transactions r ->
    exists tx, ready_tx r !! PoolTransactionRef.hash x = Some tx /\ transaction tx = x;
  iv_unlocks h tx h' : ready_tx r !! h = Some tx -> h' ∈ unlocks tx -> requires_of h' = [own h];
  iv_waits h tx : ready_tx r !! h = Some tx ->
    transaction tx ∈ independent_transactions r \/
    (requires_offset tx = 0%nat /\
      (h ∈ todo \/ exists h0 tx0, ready_tx r !! h0 = Some tx0 /\ h ∈ unlocks tx0));
  iv_free h0 tx0 h tx : ready_tx r !! h0 = Some tx0 -> h ∈ unlocks tx0 -> ready_tx r !! h = Some tx ->
    transaction tx ∉ independent_transactions r;
  iv_ids h tx : ready_tx r !! h = Some tx -> 0 <= PoolTransactionRef.id (transaction tx) < id r;
  iv_id_inj h1 tx1 h2 tx2 : ready_tx r !! h1 = Some tx1 -> ready_tx r !! h2 = Some tx2 ->
    PoolTransactionRef.id (transaction tx1) = PoolTransactionRef.id (transaction tx2) -> h1 = h2 }.
Definition inv (r : t) : Prop := inv_but [] r.

Lemma ready_inv_empty : inv empty.
Proof.
  split; simpl; [done|intros h tx| |constructor|intros x; set_solver|intros h tx h'|intros h tx
    |intros h0 tx0 h tx|intros h tx|intros h1 tx1 h2 tx2]; try (by rewrite lookup_empty).
  intros m h. rewrite !lookup_empty. split; [done|]. by intros [[? ?] _].
Qed.

Lemma inv_but_weaken todo todo' r : todo ⊆ todo' -> inv_but todo r -> inv_but todo' r.
Proof.
  intros Hs []. split; try done. intros h tx Htx.
  destruct (iv_waits0 h tx Htx) as [?|[? [?|?]]]; set_solver.
Qed.

Lemma provides_wf todo r h tx : inv_but todo r -> ready_tx r !! h = Some tx -> provides tx = [own h].
Proof. intros Hi Htx. by destruct (iv_tx todo r Hi h tx Htx) as [<- [? _]]. Qed.

Lemma requires_wf todo r h tx : inv_but todo r -> ready_tx r !! h = Some tx -> requires tx = requires_of h.
Proof. intros Hi Htx. by destruct (iv_tx todo r Hi h tx Htx) as [<- (_ & ? & _)]. Qed.

Lemma requires_not_own h : requires_of h <> [own h].
Proof. intros He. destruct (requires_rank h) as [Hr|(m & Hr & Hm)]; rewrite He in Hr; simplify_eq; lia. Qed.

(** References in the independent set with the same key are equal. *)
Lemma ind_key todo r x h tx :
  inv_but todo r -> x ∈ independent_transactions r -> ready_tx r !! h = Some tx ->
  BTree.key x = BTree.key (transaction tx) -> x = transaction tx.
Proof.
  intros Hi Hx Htx Hk. destruct (iv_ind todo r Hi x Hx) as (tx' & Htx' & <-).
  assert (PoolTransactionRef.hash (transaction tx') = h) as <-; [|congruence].
  eapply iv_id_inj; [done..|]. unfold BTree.key in Hk. simplify_eq. lia.
Qed.

Lemma elem_of_ind_remove todo r x h tx :
  inv_but todo r -> ready_tx r !! h = Some tx ->
  x ∈ BTree.remove (transaction tx) (independent_transactions r) <->
  x ∈ independent_transactions r /\ x <> transaction tx.
Proof.
  intros Hi Htx. destruct (BTree.remove_spec (transaction tx) _ (iv_sorted _ _ Hi)) as [_ ->].
  split; intros [Hx Hne]; split; [done| |done|].
  - by intros ->.
  - intros Hk. by apply Hne, (ind_key todo r x h tx).
Qed.

(** Taking a transaction out of the queue: those it unlocks are left to do. *)
Lemma inv_take todo r h tx :
  inv_but todo r -> ready_tx r !! h = Some tx ->
  inv_but (unlocks tx ++ todo)
    (mk (id r) (delete (own h) (provided_markers r)) (delete h (ready_tx r))
        (BTree.remove (transaction tx) (independent_transactions r))).
Proof.
  intros Hi Htx. pose proof (iv_tx _ _ Hi h tx Htx) as [Hh _]. split; simpl.
  - apply (iv_id _ _ Hi).
  - intros h' tx'. rewrite lookup_delete_Some. intros [_ ?]. by eapply iv_tx.
  - intros m h'. rewrite lookup_delete_Some, (iv_provided _ _ Hi). split.
    + intros [Hm [Hs <-]]. split; [|done]. rewrite lookup_delete_ne by naive_solver. done.
    + intros [[tx' [Hne Ht']%lookup_delete_Some] <-]. split; [|done].
      intros He. apply Hne. assert (provided_markers r !! own h = Some h) as H1 by (apply (iv_provided _ _ Hi); eauto).
      assert (provided_markers r !! own h' = Some h') as H2 by (apply (iv_provided _ _ Hi); eauto). congruence.
  - by apply BTree.remove_spec, (iv_sorted _ _ Hi).
  - intros x [Hx Hne]%(elem_of_ind_remove todo r x h tx Hi Htx).
    destruct (iv_ind _ _ Hi x Hx) as (tx' & Htx' & <-). exists tx'. split; [|done].
    rewrite lookup_delete_ne; [done|]. intros He. rewrite <- He in Htx'. congruence.
  - intros h1 tx1 h2. rewrite lookup_delete_Some. intros [_ ?]. by eapply iv_unlocks.
  - intros h' tx'. rewrite lookup_delete_Some. intros [Hne Htx'].
    rewrite (elem_of_ind_remove todo r _ h tx Hi Htx).
    destruct (iv_waits _ _ Hi _ _ Htx') as [Hin|[H0 Hw]].
    + left. split; [done|]. intros He. apply Hne.
      pose proof (iv_tx _ _ Hi h' tx' Htx') as [Hh' _]. congruence.
    + right. split; [done|]. destruct Hw as [Ht|(h0 & tx0 & Htx0 & Hu)]; [left; set_solver|].
      destruct (decide (h = h0)) as [->|Hne0].
      * left. assert (tx0 = tx) as -> by congruence. set_solver.
      * right. exists h0, tx0. by rewrite lookup_delete_ne.
  - intros h0 tx0 h1 tx1 [_ H0]%lookup_delete_Some Hu [_ H1]%lookup_delete_Some.
    rewrite (elem_of_ind_remove todo r _ h tx Hi Htx). intros [Hin _]. exact (iv_free _ _ Hi _ _ _ _ H0 Hu H1 Hin).
  - intros h' tx' [_ ?]%lookup_delete_Some. by eapply iv_ids.
  - intros h1 tx1 h2 tx2 [_ ?]%lookup_delete_Some [_ ?]%lookup_delete_Some. by apply (iv_id_inj _ _ Hi _ tx1 _ tx2).
Qed.

(** ** remove_with_markers *)
Lemma remove_loop_nil mf n r rem : remove_loop mf n [] r rem = Ret (r, rem).
Proof. by destruct n. Qed.

Lemma remove_loop_cons mf n h st r rem :
  remove_loop mf n (h :: st) r rem =
  match ready_tx r !! h with
  | None => remove_loop mf n st r rem
  | Some tx =>
      match n with
      | O => Panic "unreachable"
      | S n' =>
          let '(b, r) := remove_found mf r h tx in
          remove_loop mf n' (if b : bool then reverse (unlocks tx) ++ st else st) r (rem ++ [pool_tx tx])
      end
  end.
Proof. by destruct n. Qed.

Lemma unlocks_remove_id h u : h ∉ u -> unlocks_remove h u = u.
Proof. intros Hni. unfold unlocks_remove. by rewrite (proj2 (position_None h u) Hni). Qed.

Lemma elem_of_unlocks_remove h u x : x <> h -> x ∈ unlocks_remove h u <-> x ∈ u.
Proof.
  intros Hne. unfold unlocks_remove. destruct (position h u) as [i|] eqn:Hp; [|done].
  apply position_Some in Hp. rewrite (elem_of_swap_remove u i h x Hp). naive_solver.
Qed.

Lemma unlocks_remove_subset h u x : x ∈ unlocks_remove h u -> x ∈ u.
Proof.
  unfold unlocks_remove. destruct (position h u) as [i|] eqn:Hp; [|done].
  apply position_Some in Hp. rewrite (elem_of_swap_remove u i h x Hp). by right.
Qed.

Lemma not_self_unlocking todo r h tx : inv_but todo r -> ready_tx r !! h = Some tx -> h ∉ unlocks tx.
Proof. intros Hi Htx Hin. apply (requires_not_own h). by eapply iv_unlocks. Qed.

(** Because of the shadowed variable the "remove from unlocks" loop does
    nothing. *)
Lemma remove_from_unlocks_id provided ready ms :
  (forall h tx, ready !! h = Some tx -> h ∉ unlocks tx) ->
  fold_left (remove_from_unlocks provided) ms ready = ready.
Proof.
  intros Hs. induction ms as [|m ms IH]; [done|]. cbn [fold_left].
  assert (remove_from_unlocks provided ready m = ready) as ->; [|done].
  unfold remove_from_unlocks. destruct (provided !! m) as [h|]; [|done].
  destruct (ready !! h) as [tx|] eqn:Htx; [|done].
  rewrite unlocks_remove_id by (by eapply Hs). destruct tx. by apply insert_id.
Qed.

Lemma ready_delete_no_self todo r h :
  inv_but todo r -> forall h' tx, delete h (ready_tx r) !! h' = Some tx -> h' ∉ unlocks tx.
Proof. intros Hi h' tx [_ ?]%lookup_delete_Some. by eapply not_self_unlocking. Qed.

Lemma remove_found_clear todo r h tx :
  inv_but todo r -> ready_tx r !! h = Some tx ->
  remove_found None r h tx =
    (true, mk (id r) (delete (own h) (provided_markers r)) (delete h (ready_tx r))
             (BTree.remove (transaction tx) (independent_transactions r))).
Proof.
  intros Hi Htx. unfold remove_found. rewrite (provides_wf todo r h tx Hi Htx).
  cbn [filter list_filter invalidates]. rewrite decide_True by done. simpl.
  rewrite remove_from_unlocks_id by (by eapply ready_delete_no_self). done.
Qed.

Lemma remove_found_replace todo r h tx :
  inv_but todo r -> ready_tx r !! h = Some tx ->
  remove_found (Some {[own h]}) r h tx =
    (false, mk (id r) (provided_markers r) (delete h (ready_tx r))
              (BTree.remove (transaction tx) (independent_transactions r))).
Proof.
  intros Hi Htx. unfold remove_found. rewrite (provides_wf todo r h tx Hi Htx).
  assert (filter (λ mark : TxMarker, invalidates (Some {[own h]}) mark) [own h] = []) as ->.
  { cbn [filter list_filter]. rewrite decide_False; [done|]. unfold invalidates.
    rewrite bool_decide_true by set_solver. simpl. tauto. }
  simpl. rewrite remove_from_unlocks_id by (by eapply ready_delete_no_self). done.
Qed.

(** [edge r a b]: [a] is ready and unlocks [b]. *)
Definition edge (r : t) (a b : TxHash) : Prop :=
  exists tx, ready_tx r !! a = Some tx /\ b ∈ unlocks tx.

(** The outcome of removing the transactions [hs] with all that depend on
    them: exactly the ready transactions that [hs] reach are gone, nothing
    else has changed, and those that are gone are returned. *)
Record cleared (hs : list TxHash) (r r' : t) (removed : list PoolTransaction.t) : Prop := {
  cl_hs h : h ∈ hs -> ready_tx r' !! h = None;
  cl_kept h : ready_tx r' !! h = ready_tx r !! h \/ ready_tx r' !! h = None;
  cl_closed h h' : edge r h h' -> ready_tx r' !! h = None -> ready_tx r' !! h' = None;
  cl_reached h tx : ready_tx r !! h = Some tx -> ready_tx r' !! h = None ->
    exists h0, h0 ∈ hs /\ rtc (edge r) h0 h;
  cl_removed tx : tx ∈ removed <->
    exists h rtx, ready_tx r !! h = Some rtx /\ ready_tx r' !! h = None /\ pool_tx rtx = tx }.

Lemma cleared_nil r : cleared [] r r [].
Proof.
  split.
  - intros h. by rewrite elem_of_nil.
  - by left.
  - intros h h' (tx & Htx & _) Hn. congruence.
  - intros h tx Htx Hn. congruence.
  - intros tx. rewrite elem_of_nil. split; [done|]. intros (h & rtx & ? & ? & _). congruence.
Qed.

Lemma cleared_skip h hs r r' rem : ready_tx r !! h = None -> cleared hs r r' rem -> cleared (h :: hs) r r' rem.
Proof.
  intros Hn [H1 H2 H3 H4 H5]. split; try done.
  - intros x [->|Hx]%elem_of_cons; [|by apply H1]. destruct (H2 h) as [->|?]; done.
  - intros x tx Hx Hx'. destruct (H4 x tx Hx Hx') as (h0 & ? & ?). exists h0. set_solver.
Qed.

Lemma cleared_step h hs r r1 r' tx rem :
  ready_tx r !! h = Some tx -> ready_tx r1 = delete h (ready_tx r) ->
  cleared (reverse (unlocks tx) ++ hs) r1 r' rem -> cleared (h :: hs) r r' (pool_tx tx :: rem).
Proof.
  intros Htx H1 [C1 C2 C3 C4 C5].
  assert (ready_tx r' !! h = None) as Hh.
  { destruct (C2 h) as [->|?]; [|done]. rewrite H1. apply lookup_delete_eq. }
  assert (forall x y, edge r1 x y -> edge r x y) as Hedge.
  { intros x y (tx' & Ht & Hy). rewrite H1 in Ht. apply lookup_delete_Some in Ht as [_ ?]. by exists tx'. }
  split.
  - intros x [->|Hx]%elem_of_cons; [done|]. apply C1. set_solver.
  - intros x. destruct (decide (h = x)) as [<-|Hne]; [by right|].
    destruct (C2 x) as [->|?]; [left|by right]. by rewrite H1, lookup_delete_ne.
  - intros x y (tx' & Ht & Hy) Hx. destruct (decide (h = x)) as [<-|Hne].
    + assert (tx' = tx) as -> by congruence. apply C1. rewrite elem_of_app, elem_of_reverse. by left.
    + apply (C3 x); [|done]. exists tx'. by rewrite H1, lookup_delete_ne.
  - intros x tx' Ht Hx. destruct (decide (h = x)) as [<-|Hne].
    + exists h. split; [by left|done].
    + destruct (C4 x tx') as (h0 & Hin & Hr); [by rewrite H1, lookup_delete_ne|done|].
      assert (rtc (edge r) h0 x) as Hr'.
      { eapply rtc_subrel; [|exact Hr]. intros a b. apply Hedge. }
      apply elem_of_app in Hin as [Hin|Hin]; [|exists h0; split; [by right|done]].
      exists h. split; [by left|]. eapply rtc_l; [|exact Hr']. exists tx. split; [done|]. by apply elem_of_reverse.
  - intros tx'. rewrite elem_of_cons, C5, H1. setoid_rewrite lookup_delete_Some. split.
    + intros [->|(x & rtx & [? ?] & ? & ?)]; [by exists h, tx|by exists x, rtx].
    + intros (x & rtx & Hx & Hx' & <-). destruct (decide (h = x)) as [<-|Hne]; [left; congruence|].
      right. by exists x, rtx.
Qed.

Lemma size_delete_le {A} (m : gmap TxHash A) h x n :
  m !! h = Some x -> (size m <= S n)%nat -> (size (delete h m) <= n)%nat.
Proof. intros Hx Hs. rewrite map_size_delete, Hx. simpl. lia. Qed.

Lemma remove_loop_clear n : forall hs r rem,
  inv_but hs r -> (size (ready_tx r) <= n)%nat ->
  exists r' rem', remove_loop None n hs r rem = Ret (r', rem ++ rem') /\ inv r' /\ id r' = id r /\
    cleared hs r r' rem'.
Proof.
  induction n as [|n IHn]; intros hs; induction hs as [|h hs IHhs]; intros r rem Hi Hsz.
  1, 3: exists r, []; rewrite remove_loop_nil, app_nil_r; split_and!; [done..|apply cleared_nil].
  all: rewrite remove_loop_cons; destruct (ready_tx r !! h) as [tx|] eqn:Htx.
  1: exfalso; apply (map_size_ne_0_lookup_2 (ready_tx r) h); [by rewrite Htx|lia].
  1, 3: destruct (IHhs r rem) as (r' & rem' & -> & Hr' & Hid & Hc); [|done|
    exists r', rem'; split_and!; [done..|by apply cleared_skip]].
  1, 2: destruct Hi; split; try done; intros h' tx' Htx'; destruct (iv_waits0 h' tx' Htx') as [?|[? [Hin|?]]];
    [by left| |by right; auto]; right; split; [done|]; left; apply elem_of_cons in Hin as [->|?]; [congruence|done].
  rewrite (remove_found_clear _ r h tx Hi Htx). cbv beta iota zeta.
  set (r1 := mk _ _ _ _).
  destruct (IHn (reverse (unlocks tx) ++ hs) r1 (rem ++ [pool_tx tx])) as (r' & rem' & -> & Hr' & Hid & Hc).
  - pose proof (inv_take _ r h tx Hi Htx) as Ht. destruct Ht; split; try done. intros h' tx' Htx'.
    destruct (iv_waits0 h' tx' Htx') as [?|[? [Hin|?]]]; [by left| |by right; auto]. right. split; [done|]. left.
    rewrite elem_of_app, elem_of_cons in Hin. rewrite elem_of_app, elem_of_reverse.
    destruct Hin as [?|[->|?]]; [by left| |by right]. simpl in Htx'. by rewrite lookup_delete_eq in Htx'.
  - by eapply size_delete_le.
  - exists r', (pool_tx tx :: rem'). rewrite <- app_assoc. split_and!; [done..|]. 
    by apply (cleared_step h hs r r1).
Qed.

Lemma remove_with_markers_clear r hs :
  inv r -> exists r' removed, remove_with_markers r hs None = Ret (r', removed) /\ inv r' /\ id r' = id r /\
    cleared hs r r' removed.
Proof.
  intros Hi. unfold remove_with_markers.
  destruct (remove_loop_clear (size (ready_tx r)) (reverse hs) r []) as (r' & rem & -> & Hi' & Hid & [C1 C2 C3 C4 C5]).
  - eapply inv_but_weaken; [|exact Hi]. set_solver.
  - done.
  - exists r', rem. split_and!; [done..|]. split; [|exact C2|exact C3| |exact C5].
    + intros h Hh. apply C1. by apply elem_of_reverse.
    + intros h tx Htx Hn. destruct (C4 h tx Htx Hn) as (h0 & Hh0 & ?). exists h0. by rewrite elem_of_reverse in Hh0.
Qed.

(** ** add_transaction *)

Lemma own_inj todo r h1 h2 :
  inv_but todo r -> is_Some (ready_tx r !! h1) -> is_Some (ready_tx r !! h2) -> own h1 = own h2 -> h1 = h2.
Proof.
  intros Hi H1 H2 He.
  assert (provided_markers r !! own h1 = Some h1) by (by apply (iv_provided _ _ Hi)).
  assert (provided_markers r !! own h2 = Some h2) by (by apply (iv_provided _ _ Hi)). congruence.
Qed.

Lemma hash_iter_singleton (h : TxHash) : hash_iter ({[h]} : gset TxHash) = [h].
Proof. apply Permutation_singleton_r. by rewrite hash_iter_perm, elements_singleton. Qed.

(** Which transaction [tx] replaces, and with what outcome. *)
Lemma replaced_transactions_spec r tx :
  inv r -> wf_tx tx ->
  replaced_transactions r tx =
  match provided_markers r !! own (PoolTransaction.hash tx) ≫= (fun h => pair h <$> ready_tx r !! h) with
  | None => Ret (Ok ([], []), r)
  | Some (h, old) =>
      if PoolTransaction.gas_price tx <=? gas_price old then Ret (Err (ReplacementUnderpriced tx), r)
      else Ret (Ok ([pool_tx old], unlocks old),
                mk (id r) (provided_markers r) (delete h (ready_tx r))
                  (BTree.remove (transaction old) (independent_transactions r)))
  end.
Proof.
  intros Hi [Hp _]. unfold replaced_transactions. rewrite Hp. cbn [omap list_omap].
  destruct (provided_markers r !! own (PoolTransaction.hash tx)) as [h|] eqn:Hh; simpl.
  2: by rewrite decide_True by done.
  rewrite union_empty_r_L. rewrite decide_False by set_solver.
  apply (iv_provided _ _ Hi) in Hh as [[old Hold] Hown]. rewrite hash_iter_singleton, Hold. simpl. rewrite Hold.
  rewrite (provides_wf _ r h old Hi Hold), Hp, Hown. rewrite bool_decide_true by done. simpl.
  destruct (_ <=? _); [done|].
  unfold remove_with_markers. rewrite union_empty_r_L, <- Hown.
  change (reverse [h]) with [h]. rewrite remove_loop_cons, Hold.
  destruct (size (ready_tx r)) as [|n] eqn:Hsz.
  { exfalso. by apply (map_size_ne_0_lookup_2 (ready_tx r) h); [rewrite Hold|]. }
  rewrite (remove_found_replace _ r h old Hi Hold). cbv beta iota zeta. by rewrite remove_loop_nil.
Qed.

(** The links to a transaction [h] that is being added: the provider of the
    marker it requires, if there is one, now unlocks it. *)
Record linked (h : TxHash) (ready ready' : gmap TxHash ReadyTransaction.t) (independent : bool) (off : nat) : Prop := {
  lk_back x tx' : ready' !! x = Some tx' -> exists tx, ready !! x = Some tx /\
    transaction tx' = transaction tx /\ requires_offset tx' = requires_offset tx /\
    forall y, y ∈ unlocks tx' <-> y ∈ unlocks tx \/ (y = h /\ independent = false /\ requires_of h = [own x]);
  lk_forth x tx : ready !! x = Some tx -> exists tx', ready' !! x = Some tx' /\ unlocks tx ⊆ unlocks tx';
  lk_false : independent = false -> off = 0%nat /\ exists x tx', ready' !! x = Some tx' /\ h ∈ unlocks tx';
  lk_true : independent = true -> forall x, is_Some (ready !! x) -> requires_of h <> [own x] }.

Lemma linked_refl h ready off :
  (forall x, is_Some (ready !! x) -> requires_of h <> [own x]) -> linked h ready ready true off.
Proof.
  intros Hn. split; [|by eauto|done|done].
  intros x tx Htx. exists tx. split_and!; [done..|]. naive_solver.
Qed.

Lemma link_spec todo r h :
  inv_but todo r ->
  exists ready' independent off,
    foldM (link_required (provided_markers r) h) (ready_tx r, true, 0%nat) (requires_of h) =
      Ret (ready', independent, off) /\ linked h (ready_tx r) ready' independent off.
Proof.
  intros Hi. destruct (requires_rank h) as [Hreq|(m & Hreq & _)]; rewrite Hreq; simpl.
  { eexists _, _, _. split; [done|]. apply linked_refl. intros x _. by rewrite Hreq. }
  destruct (provided_markers r !! m) as [h0|] eqn:Hm; simpl.
  - apply (iv_provided _ _ Hi) in Hm as [[tx0 Htx0] Hown]. rewrite Htx0. simpl.
    eexists _, _, _. split; [done|]. split; [| | |done].
    + intros x tx'. rewrite lookup_insert_Some. intros [[<- <-]|[Hne Htx']].
      * exists tx0. split_and!; [done..|]. intros y. simpl. rewrite elem_of_app, list_elem_of_singleton.
        rewrite Hreq, Hown. naive_solver.
      * exists tx'. split_and!; [done..|]. intros y. split; [by left|]. intros [?|(-> & _ & Hr)]; [done|].
        exfalso. apply Hne. rewrite Hreq in Hr. apply (own_inj _ _ _ _ Hi); [by eauto..|congruence].
    + intros x tx Htx. destruct (decide (h0 = x)) as [<-|Hne].
      * rewrite lookup_insert_eq. eexists. split; [done|]. assert (tx = tx0) as -> by congruence. simpl. set_solver.
      * rewrite lookup_insert_ne by done. by exists tx.
    + intros _. split; [done|]. exists h0. rewrite lookup_insert_eq. eexists. split; [done|]. simpl. set_solver.
  - eexists _, _, _. split; [done|]. apply linked_refl. intros x Hx Hr.
    assert (provided_markers r !! own x = Some x) by (by apply (iv_provided _ _ Hi)). congruence.
Qed.

(** A new reference: its id is greater than the others, so its insertion in
    the independent set always takes effect. *)
Lemma elem_of_ind_insert todo r ptx x :
  inv_but todo r ->
  x ∈ BTree.insert (PoolTransactionRef.mk ptx (id r)) (independent_transactions r) <->
  x = PoolTransactionRef.mk ptx (id r) \/ x ∈ independent_transactions r.
Proof.
  intros Hi. split; [apply BTree.elem_of_insert|].
  destruct (BTree.elem_of_insert_2 (PoolTransactionRef.mk ptx (id r)) (independent_transactions r)) as [H1 H2].
  - intros y Hy Hk. exfalso. destruct (iv_ind _ _ Hi y Hy) as (tx & Htx & <-).
    pose proof (iv_ids _ _ Hi _ _ Htx). unfold BTree.key in Hk. simplify_eq/=. lia.
  - intros [->|?]; [done|by apply H2].
Qed.

(** Adding [ptx] to a queue without its marker, with the inherited [unl]. *)
Lemma inv_insert unl r ptx h ready' ind' (independent : bool) off :
  inv_but unl r -> wf_tx ptx -> PoolTransaction.hash ptx = h -> ready_tx r !! h = None ->
  provided_markers r !! own h = None ->
  (forall u, u ∈ unl -> requires_of u = [own h] /\
     forall tx, ready_tx r !! u = Some tx -> transaction tx ∉ independent_transactions r) ->
  linked h (ready_tx r) ready' independent off ->
  ind' = (if independent then BTree.insert (PoolTransactionRef.mk ptx (id r)) (independent_transactions r)
          else independent_transactions r) ->
  inv (mk (id r + 1) (<[own h := h]> (provided_markers r))
        (<[h := ReadyTransaction.mk (PoolTransactionRef.mk ptx (id r)) unl off]> ready') ind').
Proof.
  set (ref := PoolTransactionRef.mk ptx (id r)).
  intros Hi Hwf Hh Hnew Hmk Hunl [Lb Lf L0 L1] Hind'.
  assert (forall x, x ∈ ind' <-> (independent = true /\ x = ref) \/ x ∈ independent_transactions r) as Hind.
  { intros x. subst ind'. destruct independent; [|naive_solver].
    unfold ref. rewrite (elem_of_ind_insert _ _ _ _ Hi). naive_solver. }
  assert (ref ∉ independent_transactions r) as Href.
  { intros Hin. destruct (iv_ind _ _ Hi _ Hin) as (tx & Htx & _).
    unfold PoolTransactionRef.hash, ref in Htx. simpl in Htx. congruence. }
  assert (forall x tx, ready_tx r !! x = Some tx -> transaction tx <> ref) as Hneref.
  { intros x tx Htx He. pose proof (iv_ids _ _ Hi _ _ Htx) as Hb. rewrite He in Hb. simpl in Hb. lia. }
  pose proof (iv_id _ _ Hi) as Hid. split; simpl; [lia|..].
  - intros x tx'. rewrite lookup_insert_Some. intros [[<- <-]|[_ (tx & Htx & He & _)%Lb]]; [done|].
    unfold pool_tx. rewrite He. by apply (iv_tx _ _ Hi).
  - intros m x. rewrite lookup_insert_Some, (iv_provided _ _ Hi). destruct (decide (h = x)) as [<-|Hne].
    + rewrite lookup_insert_eq. rewrite Hnew. split; [by intros [[<- _]|(? & [? ?] & _)]|].
      intros [_ <-]. by left.
    + rewrite lookup_insert_ne by done. split.
      * intros [[_ ?]|(Hm & [tx Htx] & <-)]; [done|]. destruct (Lf _ _ Htx) as (tx' & -> & _). by eauto.
      * intros [[tx' Htx'] <-]. destruct (Lb _ _ Htx') as (tx & Htx & _). right. split; [|by eauto].
        intros He. rewrite He in Hmk. assert (provided_markers r !! own x = Some x) by (apply (iv_provided _ _ Hi); eauto).
        congruence.
  - subst ind'. destruct independent; [apply BTree.insert_sorted|]; apply (iv_sorted _ _ Hi).
  - intros x [[_ ->]|Hx]%Hind.
    + exists (ReadyTransaction.mk ref unl off). unfold PoolTransactionRef.hash. simpl. rewrite Hh. by rewrite lookup_insert_eq.
    + destruct (iv_ind _ _ Hi x Hx) as (tx & Htx & <-). destruct (Lf _ _ Htx) as (tx' & Htx' & _).
      destruct (Lb _ _ Htx') as (tx2 & Htx2 & He & _). exists tx'.
      rewrite lookup_insert_ne by (intros Heq; rewrite <- Heq in Htx; congruence). split; [done|congruence].
  - intros x tx' y. rewrite lookup_insert_Some. intros [[<- <-]|[_ (tx & Htx & _ & _ & Hu)%Lb]].
    + simpl. intros Hy. by apply Hunl.
    + rewrite Hu. intros [Hy|(-> & _ & ?)]; [by eapply iv_unlocks|done].
  - intros x tx'. rewrite lookup_insert_Some, Hind. intros [[<- <-]|[Hne Htx']]; simpl.
    + destruct independent; [left; by left|]. right. destruct (L0 eq_refl) as [-> (x & tx' & Htx' & Hin)].
      split; [done|]. right. exists x, tx'. split; [|done]. rewrite lookup_insert_ne; [done|].
      intros <-. destruct (Lb _ _ Htx') as (tx & Htx & _). congruence.
    + destruct (Lb _ _ Htx') as (tx & Htx & -> & -> & Hu).
      destruct (iv_waits _ _ Hi _ _ Htx) as [?|[H0 Hw]]; [left; by right|]. right. split; [done|]. right.
      destruct Hw as [Hin|(h0 & tx0 & Htx0 & Hin)].
      * exists h. rewrite lookup_insert_eq. eexists. split; [done|done].
      * destruct (Lf _ _ Htx0) as (tx0' & Htx0' & Hsub). exists h0, tx0'.
        rewrite lookup_insert_ne by (intros <-; congruence). split; [done|by apply Hsub].
  - intros x0 tx0' x tx' H0 Hin Hx. rewrite Hind.
    assert (x <> h -> transaction tx' ∉ independent_transactions r -> ~ ((independent = true /\ transaction tx' = ref) \/
       transaction tx' ∈ independent_transactions r)) as Hdone.
    { intros Hne Hni [[_ He]|?]; [|done]. rewrite lookup_insert_ne in Hx by done.
      destruct (Lb _ _ Hx) as (tx & Htx & He' & _). apply (Hneref _ _ Htx). congruence. }
    apply lookup_insert_Some in H0 as [[<- <-]|[Hne0 (tx0 & Htx0 & _ & _ & Hu)%Lb]]; simpl in Hin.
    + destruct (Hunl x Hin) as [Hr Hni]. assert (x <> h) as Hxh by (intros ->; by apply (requires_not_own h)).
      apply Hdone; [done|]. rewrite lookup_insert_ne in Hx by done.
      destruct (Lb _ _ Hx) as (tx & Htx & -> & _). by apply Hni.
    + apply Hu in Hin. destruct (decide (x = h)) as [->|Hxh].
      * rewrite lookup_insert_eq in Hx. injection Hx as <-. simpl. intros [[Ht _]|?]; [|done].
        apply (L1 Ht x0); [by eauto|]. destruct Hin as [Hin|(_ & ? & _)]; [|congruence]. by eapply iv_unlocks.
      * destruct Hin as [Hin|[? _]]; [|done]. apply Hdone; [done|]. rewrite lookup_insert_ne in Hx by done.
        destruct (Lb _ _ Hx) as (tx & Htx & -> & _). exact (iv_free _ _ Hi _ _ _ _ Htx0 Hin Htx).
  - intros x tx'. rewrite lookup_insert_Some. intros [[<- <-]|[_ (tx & Htx & -> & _)%Lb]]; simpl; [lia|].
    pose proof (iv_ids _ _ Hi _ _ Htx). lia.
  - intros x1 tx1' x2 tx2'. rewrite !lookup_insert_Some.
    intros [[<- <-]|[_ (tx1 & Htx1 & -> & _)%Lb]] [[<- <-]|[_ (tx2 & Htx2 & -> & _)%Lb]]; simpl; [done|..].
    + pose proof (iv_ids _ _ Hi _ _ Htx2). lia.
    + pose proof (iv_ids _ _ Hi _ _ Htx1). lia.
    + by apply (iv_id_inj _ _ Hi _ tx1 _ tx2).
Qed.

Lemma link_delete_own provided h st :
  foldM (link_required provided h) st (requires_of h) =
  foldM (link_required (delete (own h) provided) h) st (requires_of h).
Proof.
  destruct (requires_rank h) as [->|(m & -> & Hm)]; [done|]. simpl.
  assert (delete (own h) provided !! m = provided !! m) as Hd.
  { apply lookup_delete_ne. intros He. rewrite He in Hm. lia. }
  destruct st as [[ready ind] off]. simpl. by rewrite Hd.
Qed.

(** The state after the replaced transaction, if any, was taken out: [unl]
    are the transactions it unlocked. *)
Lemma replaced_state r tx res r0 :
  inv r -> wf_tx tx -> replaced_transactions r tx = Ret (Ok res, r0) ->
  let h := PoolTransaction.hash tx in
  let r1 := mk (id r) (delete (own h) (provided_markers r)) (ready_tx r0) (independent_transactions r0) in
  provided_markers r0 = provided_markers r /\ id r0 = id r /\ inv_but (snd res) r1 /\
  (forall u, u ∈ snd res -> requires_of u = [own h] /\
     forall tx, ready_tx r1 !! u = Some tx -> transaction tx ∉ independent_transactions r1) /\
  (forall x, ready_tx r0 !! x = if decide (own x = own h) then None else ready_tx r !! x) /\
  (forall t, t ∈ fst res <-> exists x old, ready_tx r !! x = Some old /\ own x = own h /\ pool_tx old = t) /\
  (forall x old, ready_tx r !! x = Some old -> own x = own h -> gas_price old < PoolTransaction.gas_price tx).
Proof.
  intros Hi Hwf. rewrite (replaced_transactions_spec r tx Hi Hwf). intros Hr h r1. subst r1. fold h in Hr.
  destruct (provided_markers r !! own h) as [oh|] eqn:Hp; simpl in Hr.
  - pose proof Hp as [[old Hold] Hown]%(iv_provided _ _ Hi). rewrite Hold in Hr. simpl in Hr.
    destruct (Z.leb_spec (PoolTransaction.gas_price tx) (gas_price old)) as [?|Hgt]; simplify_eq. simpl.
    assert (forall x old', ready_tx r !! x = Some old' -> own x = own h -> x = oh /\ old' = old) as Huniq.
    { intros x old' Hx Ho. assert (x = oh) as ->; [|split; congruence].
      apply (own_inj _ _ _ _ Hi); [by eauto..|congruence]. }
    split_and!; [done..| | | | |].
    + rewrite <- Hown. rewrite <- (app_nil_r (unlocks old)). by apply inv_take.
    + intros u Hu. split; [rewrite <- Hown; by eapply iv_unlocks|].
      intros tx' [_ Htx']%lookup_delete_Some Hin.
      apply (elem_of_ind_remove _ _ _ _ _ Hi Hold) in Hin as [Hin _]. exact (iv_free _ _ Hi _ _ _ _ Hold Hu Htx' Hin).
    + intros x. case_decide as Ho.
      * destruct (ready_tx r !! x) as [old'|] eqn:Hx.
        -- destruct (Huniq x old' Hx Ho) as [-> _]. apply lookup_delete_eq.
        -- rewrite lookup_delete_None. by right.
      * apply lookup_delete_ne. congruence.
    + intros t0. rewrite list_elem_of_singleton. split; [intros ->; by exists oh, old|].
      intros (x & old' & Hx & Ho & <-). by destruct (Huniq x old' Hx Ho) as [_ ->].
    + intros x old' Hx Ho. by destruct (Huniq x old' Hx Ho) as [_ ->].
  - injection Hr as <- <-. simpl. rewrite delete_id by done.
    assert (forall x old, ready_tx r !! x = Some old -> own x <> own h) as Hnone.
    { intros x old Hx Ho. assert (provided_markers r !! own x = Some x) by (apply (iv_provided _ _ Hi); eauto). congruence. }
    split_and!; [done|done|by destruct r|intros u; set_solver| | |].
    + intros x. case_decide; [|done]. destruct (ready_tx r !! x) eqn:Hx; [|done]. by destruct (Hnone _ _ Hx).
    + intros t0. rewrite elem_of_nil. split; [done|]. intros (x & old & Hx & Ho & _). by destruct (Hnone _ _ Hx).
    + intros x old Hx Ho. by destruct (Hnone _ _ Hx).
Qed.

(** The queue after a successful [add_transaction]: [tx] has taken the place
    of the transaction with the same marker. *)
Record added (tx : PoolTransaction.t) (r r' : t) (removed : list PoolTransaction.t) : Prop := {
  ad_id : id r' = id r + 1;
  ad_ready x : pool_tx <$> ready_tx r' !! x =
    if decide (x = PoolTransaction.hash tx) then Some tx
    else if decide (own x = own (PoolTransaction.hash tx)) then None else pool_tx <$> ready_tx r !! x;
  ad_removed t : t ∈ removed <->
    exists x old, ready_tx r !! x = Some old /\ own x = own (PoolTransaction.hash tx) /\ pool_tx old = t;
  ad_price x old : ready_tx r !! x = Some old -> own x = own (PoolTransaction.hash tx) ->
    gas_price old < PoolTransaction.gas_price tx }.

Lemma linked_pool_tx h ready ready' b off x :
  linked h ready ready' b off -> pool_tx <$> ready' !! x = pool_tx <$> ready !! x.
Proof.
  intros [Lb Lf _ _]. destruct (ready' !! x) as [tx'|] eqn:H'.
  - destruct (Lb _ _ H') as (tx & -> & He & _). simpl. unfold pool_tx. by rewrite He.
  - destruct (ready !! x) as [tx|] eqn:Hx; [|done]. destruct (Lf _ _ Hx) as (tx' & ? & _). congruence.
Qed.

Lemma ready_add_spec r tx :
  inv r -> wf_tx (PendingPoolTransaction.transaction tx) ->
  PendingPoolTransaction.is_ready tx = true -> contains r (PendingPoolTransaction.hash tx) = false ->
  id r < U64_MAX ->
  exists res r', add_transaction r tx = Ret (res, r') /\ inv r' /\
    match res with
    | Err e => e = ReplacementUnderpriced (PendingPoolTransaction.transaction tx) /\ r' = r /\
        exists h old, ready_tx r !! h = Some old /\ own h = own (PendingPoolTransaction.hash tx) /\
          PoolTransaction.gas_price (PendingPoolTransaction.transaction tx) <= gas_price old
    | Ok removed => added (PendingPoolTransaction.transaction tx) r r' removed
    end.
Proof.
  intros Hi Hwf Hrdy Hc Hid. unfold add_transaction. rewrite Hrdy, Hc. simpl.
  apply bool_decide_eq_false in Hc. apply eq_None_not_Some in Hc. unfold PendingPoolTransaction.hash in *.
  destruct tx as [ptx mm at']. simpl in *. set (h := PoolTransaction.hash ptx) in *.
  pose proof (replaced_transactions_spec r ptx Hi Hwf) as Hspec.
  destruct (replaced_transactions r ptx) as [[res r0]|w] eqn:Hrep.
  2: { exfalso. clear -Hspec. repeat case_match; done. }
  simpl. destruct res as [[rtx unl]|e].
  - destruct (replaced_state r ptx _ r0 Hi Hwf Hrep) as (Hp0 & Hid0 & Hi1 & Hunl & Hr0 & Hrem & Hprice).
    fold h in Hi1, Hunl, Hr0, Hrem, Hprice. simpl in Hi1, Hunl, Hrem.
    pose proof Hwf as (Hprov & Hreq & _). fold h in Hprov, Hreq. rewrite Hprov, Hreq, Hp0, link_delete_own.
    destruct (link_spec _ _ h Hi1) as (ready' & b & off & Hl & Hlk). simpl in Hl, Hlk. rewrite Hl. simpl.
    assert (u64_wrapping_add (id r0) 1 = id r + 1) as Hw.
    { rewrite Hid0. unfold u64_wrapping_add. apply Z.mod_small. pose proof (iv_id _ _ Hi). word_lia. }
    rewrite Hw, Hid0. eexists _, _. split; [done|]. split.
    + unfold provide. rewrite <- (insert_delete_eq _ (own h)).
      apply (inv_insert unl _ ptx h ready' _ b off Hi1); simpl;
        [exact Hwf|done| |apply lookup_delete_eq|done..].
      by rewrite Hr0, decide_True.
    + split; simpl; fold h; [done| |done|done]. intros x. destruct (decide (x = h)) as [->|Hne].
      * by rewrite lookup_insert_eq.
      * rewrite lookup_insert_ne by done. rewrite (linked_pool_tx _ _ _ _ _ x Hlk), Hr0. by case_decide.
  - eexists _, _. split; [done|]. fold h in Hspec.
    destruct (provided_markers r !! own h) as [oh|] eqn:Hp; simpl in Hspec; [|done].
    pose proof Hp as [[old Hold] Hown]%(iv_provided _ _ Hi). rewrite Hold in Hspec. simpl in Hspec.
    destruct (Z.leb_spec (PoolTransaction.gas_price ptx) (gas_price old)); simplify_eq.
    split_and!; [done..|]. by exists oh, old.
Qed.

(** ** prune_tags *)
Lemma prune_loop_nil n r rem : prune_loop n [] r rem = Ret (r, rem).
Proof. by destruct n. Qed.

Lemma prune_loop_cons n m st r rem :
  prune_loop n (m :: st) r rem =
  match provided_markers r !! m ≫= (fun hash => pair hash <$> ready_tx r !! hash) with
  | None => prune_loop n st (mk (id r) (delete m (provided_markers r)) (ready_tx r) (independent_transactions r)) rem
  | Some (hash, tx) =>
      match n with
      | O => Panic "unreachable"
      | S n' =>
          '(r, st) ← prune_found (mk (id r) (delete m (provided_markers r)) (delete hash (ready_tx r))
                                     (independent_transactions r)) m st tx;
          prune_loop n' st r (rem ++ [pool_tx tx])
      end
  end.
Proof. by destruct n. Qed.

(** The entry of [h0] with other unlocks: entries of transactions that are
    not ready can be dropped. *)
Lemma inv_set_unlocks todo r h0 tx0 u' :
  inv_but todo r -> ready_tx r !! h0 = Some tx0 -> u' ⊆ unlocks tx0 ->
  (forall y, is_Some (ready_tx r !! y) -> y ∈ unlocks tx0 -> y ∈ u') ->
  inv_but todo (mk (id r) (provided_markers r) (<[h0 := set_unlocks u' tx0]> (ready_tx r)) (independent_transactions r)).
Proof.
  intros Hi H0 Hsub Hall.
  assert (forall x tx', <[h0 := set_unlocks u' tx0]> (ready_tx r) !! x = Some tx' -> exists tx,
    ready_tx r !! x = Some tx /\ transaction tx' = transaction tx /\ requires_offset tx' = requires_offset tx /\
    unlocks tx' ⊆ unlocks tx) as Hb.
  { intros x tx'. rewrite lookup_insert_Some. intros [[<- <-]|[_ ?]]; [by exists tx0|by exists tx']. }
  split; simpl.
  - apply (iv_id _ _ Hi).
  - intros x tx' (tx & Htx & He & _)%Hb. unfold pool_tx. rewrite He. by apply (iv_tx _ _ Hi).
  - intros m x. rewrite (iv_provided _ _ Hi), lookup_insert_is_Some'. naive_solver.
  - apply (iv_sorted _ _ Hi).
  - intros x Hx. destruct (iv_ind _ _ Hi x Hx) as (tx & Htx & <-).
    destruct (decide (h0 = PoolTransactionRef.hash (transaction tx))) as [He|Hne].
    + rewrite <- He. rewrite lookup_insert_eq. eexists. split; [done|]. simpl. congruence.
    + exists tx. by rewrite lookup_insert_ne.
  - intros x tx' y (tx & Htx & _ & _ & Hs)%Hb Hy. eapply (iv_unlocks _ _ Hi); [done|by apply Hs].
  - intros x tx' (tx & Htx & -> & -> & _)%Hb. destruct (iv_waits _ _ Hi _ _ Htx) as [?|[? [?|(h1 & tx1 & H1 & Hin)]]];
      [by left|by right; auto|]. right. split; [done|]. right. destruct (decide (h0 = h1)) as [<-|Hne].
    + exists h0. rewrite lookup_insert_eq. eexists. split; [done|]. simpl. apply Hall; [by eauto|congruence].
    + exists h1, tx1. by rewrite lookup_insert_ne.
  - intros x0 tx0' x tx' (tx1 & H1 & _ & _ & Hs)%Hb Hin (tx & Htx & -> & _)%Hb.
    exact (iv_free _ _ Hi _ _ _ _ H1 (Hs _ Hin) Htx).
  - intros x tx' (tx & Htx & -> & _)%Hb. by eapply iv_ids.
  - intros x1 tx1' x2 tx2' (tx1 & H1 & -> & _)%Hb (tx2 & H2 & -> & _)%Hb. by apply (iv_id_inj _ _ Hi _ tx1 _ tx2).
Qed.

Definition same_txs (ready ready' : gmap TxHash ReadyTransaction.t) : Prop :=
  transaction <$> ready' = transaction <$> ready.

Lemma same_txs_insert ready h tx tx' :
  ready !! h = Some tx -> transaction tx' = transaction tx -> same_txs ready (<[h := tx']> ready).
Proof.
  intros Htx He. unfold same_txs. rewrite fmap_insert, He. apply insert_id. by rewrite lookup_fmap, Htx.
Qed.

Lemma unlink_spec todo r h st :
  inv_but todo r -> ready_tx r !! h = None ->
  let '(ready', st') := fold_left (previous_markers (provided_markers r) h) (requires_of h) (ready_tx r, st) in
  inv_but todo (mk (id r) (provided_markers r) ready' (independent_transactions r)) /\
  same_txs (ready_tx r) ready' /\
  (forall q, q ∈ st -> q ∈ st') /\ (forall q, q ∈ st' -> q ∈ st \/ requires_of h = [q]).
Proof.
  intros Hi Hh. destruct r as [i prov ready ind]; simpl in *.
  destruct (requires_rank h) as [->|(m & -> & _)]; simpl.
  { split_and!; [done|done|done|by left]. }
  destruct (prov !! m) as [h0|] eqn:Hm; simpl; [|split_and!; [done|done|done|by left]].
  apply (iv_provided _ _ Hi) in Hm as [[tx0 Htx0] Hown]. simpl in Htx0. rewrite Htx0. split_and!.
  - apply (inv_set_unlocks _ _ _ _ _ Hi Htx0).
    + intros y. apply unlocks_remove_subset.
    + intros y [tx Hy] Hin. apply elem_of_unlocks_remove; [|done]. intros ->. simpl in Hy. congruence.
  - by eapply same_txs_insert.
  - intros q Hq. case_bool_decide; [|done]. set_solver.
  - intros q. case_bool_decide; [|by left].
    change (provides _) with (provides tx0). rewrite (provides_wf _ _ _ _ Hi Htx0), Hown. set_solver.
Qed.

(** One transaction that waited for a marker that is gone for good: it is
    independent afterwards. *)
Lemma prune_unlock_spec todo r u m :
  inv_but (u :: todo) r -> requires_of u = [m] -> provided_markers r !! m = None ->
  let '(ready', ind') := prune_unlock (ready_tx r, independent_transactions r) u in
  inv_but todo (mk (id r) (provided_markers r) ready' ind') /\ same_txs (ready_tx r) ready'.
Proof.
  intros Hi Hreq Hm. destruct r as [i prov ready ind]; simpl in *.
  destruct (ready !! u) as [tx|] eqn:Hu.
  2: { split; [|done]. destruct Hi; split; try done. simpl in *. intros h tx Htx.
       destruct (iv_waits0 h tx Htx) as [?|[? [[->|?]%elem_of_cons|?]]]; [by left|congruence|by right; auto..]. }
  pose proof (requires_wf _ _ _ _ Hi Hu) as Hr. rewrite Hreq in Hr.
  change (requires (set_offset _ tx)) with (requires tx). rewrite Hr. simpl.
  set (tx' := set_offset (S (requires_offset tx)) tx).
  set (ind' := if decide (S (requires_offset tx) = 1%nat) then BTree.insert (transaction tx) ind else ind).
  assert (forall x, x ∈ ind' <-> x = transaction tx \/ x ∈ ind) as Hind.
  { intros x. unfold ind'. case_decide as Hd.
    - split; [apply BTree.elem_of_insert|].
      destruct (BTree.elem_of_insert_2 (transaction tx) ind) as [E1 E2].
      { intros y Hy Hk. by eapply (ind_key _ _ y u tx Hi). }
      intros [->|?]; [done|by apply E2].
    - split; [by right|]. intros [->|?]; [|done]. destruct (iv_waits _ _ Hi _ _ Hu) as [?|[? _]]; [done|lia]. }
  assert (BTree.sorted ind') as Hsorted.
  { unfold ind'. case_decide; [apply BTree.insert_sorted|]; apply (iv_sorted _ _ Hi). }
  split; [|by apply (same_txs_insert ready u tx)]. clearbody ind'.
  assert (forall x t', <[u := tx']> ready !! x = Some t' -> exists t0, ready !! x = Some t0 /\
    transaction t' = transaction t0 /\ unlocks t' = unlocks t0 /\ (x <> u -> t' = t0)) as Hb.
  { intros x t'. rewrite lookup_insert_Some. intros [[<- <-]|[_ ?]]; [by exists tx|by exists t']. }
  split; simpl.
  - apply (iv_id _ _ Hi).
  - intros x t' (t0 & Ht & He & _)%Hb. unfold pool_tx. rewrite He. by apply (iv_tx _ _ Hi).
  - intros q x. rewrite lookup_insert_is_Some'. pose proof (iv_provided _ _ Hi q x) as Hq. simpl in Hq. rewrite Hq. naive_solver.
  - done.
  - intros x Hx%Hind. assert (exists t0, ready !! PoolTransactionRef.hash x = Some t0 /\ transaction t0 = x) as (t0 & Ht & He).
    { destruct Hx as [->|Hx]; [|by apply (iv_ind _ _ Hi)]. exists tx. by destruct (iv_tx _ _ Hi _ _ Hu) as [-> _]. }
    destruct (decide (u = PoolTransactionRef.hash x)) as [Heq|Hne].
    + rewrite <- Heq, lookup_insert_eq. eexists. split; [done|]. simpl. congruence.
    + exists t0. by rewrite lookup_insert_ne.
  - intros x t' y (t0 & Ht & _ & -> & _)%Hb. by apply (iv_unlocks _ _ Hi).
  - intros x t' Hx. pose proof (Hb _ _ Hx) as (t0 & Ht & He & _ & Hne). rewrite Hind.
    destruct (decide (x = u)) as [->|Hxu]; [left; left; congruence|]. rewrite (Hne Hxu).
    destruct (iv_waits _ _ Hi _ _ Ht) as [?|[H0 Hw]]; [left; by right|]. right. split; [done|].
    destruct Hw as [[->|?]%elem_of_cons|(h1 & t1 & H1 & Hin)]; [done|by left|right].
    destruct (decide (u = h1)) as [<-|Hn1].
    + exists u, tx'. rewrite lookup_insert_eq. split; [done|]. simpl in H1. simpl. congruence.
    + exists h1, t1. by rewrite lookup_insert_ne.
  - intros x0 t0' x t' (t0 & H0 & _ & -> & _)%Hb Hin (t1 & H1 & He & _)%Hb. rewrite He, Hind. intros [Heq|Hin'].
    + assert (x = u) as ->.
      { destruct (iv_tx _ _ Hi _ _ H1) as [<- _]. destruct (iv_tx _ _ Hi _ _ Hu) as [<- _]. by rewrite Heq. }
      pose proof (iv_unlocks _ _ Hi _ _ _ H0 Hin) as Hq. rewrite Hreq in Hq. simplify_eq.
      assert (prov !! own x0 = Some x0) by (apply (iv_provided _ _ Hi); eauto). congruence.
    + exact (iv_free _ _ Hi _ _ _ _ H0 Hin H1 Hin').
  - intros x t' (t0 & Ht & -> & _)%Hb. by apply (iv_ids _ _ Hi x).
  - intros x1 tx1' x2 tx2' (tx1 & H1 & -> & _)%Hb (tx2 & H2 & -> & _)%Hb. by apply (iv_id_inj _ _ Hi _ tx1 _ tx2).
Qed.

Lemma prune_unlocks_spec us m : forall r,
  inv_but us r -> (forall u, u ∈ us -> requires_of u = [m]) -> provided_markers r !! m = None ->
  let '(ready', ind') := fold_left prune_unlock us (ready_tx r, independent_transactions r) in
  inv (mk (id r) (provided_markers r) ready' ind') /\ same_txs (ready_tx r) ready'.
Proof.
  induction us as [|u us IH]; intros r Hi Hreq Hm; cbn [fold_left].
  { destruct r. done. }
  pose proof (prune_unlock_spec us r u m Hi (Hreq u (list_elem_of_here _ _)) Hm) as H1.
  destruct (prune_unlock _ u) as [ready1 ind1]. destruct H1 as [Hi1 Hs1].
  specialize (IH _ Hi1 ltac:(intros v Hv; apply Hreq; by right) Hm). simpl in IH.
  destruct (fold_left prune_unlock us (ready1, ind1)) as [ready2 ind2]. destruct IH as [Hi2 Hs2].
  split; [done|]. unfold same_txs in *. congruence.
Qed.

Lemma prune_found_spec r m h tx st :
  inv r -> provided_markers r !! m = Some h -> ready_tx r !! h = Some tx ->
  exists r' st',
    prune_found (mk (id r) (delete m (provided_markers r)) (delete h (ready_tx r)) (independent_transactions r)) m st tx
      = Ret (r', st') /\
    inv r' /\ id r' = id r /\ same_txs (delete h (ready_tx r)) (ready_tx r') /\
    (forall q, q ∈ st -> q ∈ st') /\ (forall q, q ∈ st' -> q ∈ st \/ requires_of h = [q]).
Proof.
  intros Hi Hm Htx. pose proof Hm as [_ Hown]%(iv_provided _ _ Hi).
  pose proof (inv_take _ r h tx Hi Htx) as Ht. rewrite app_nil_r, Hown in Ht.
  destruct (iv_tx _ _ Hi _ _ Htx) as [Hh _]. unfold PoolTransactionRef.hash in Hh. fold (pool_tx tx) in Hh.
  unfold prune_found. simpl. rewrite Hh, (requires_wf _ _ _ _ Hi Htx), (provides_wf _ _ _ _ Hi Htx), Hown.
  pose proof (unlink_spec _ _ h st Ht (lookup_delete_eq _ _)) as Hl. simpl in Hl.
  destruct (fold_left (previous_markers _ h) _ _) as [ready1 st1]. destruct Hl as (Hi1 & Hs1 & Hst & Hst').
  pose proof (prune_unlocks_spec (unlocks tx) m _ Hi1) as Hu. simpl in Hu.
  destruct (fold_left prune_unlock _ _) as [ready2 ind2]. destruct Hu as [Hi2 Hs2].
  { intros u Hu. rewrite <- Hown. by apply (iv_unlocks _ _ Hi _ tx). }
  { apply lookup_delete_eq. }
  cbn [foldM]. unfold unprovide. rewrite lookup_delete_eq, decide_True by done. simpl.
  rewrite delete_delete_eq. eexists _, _. split; [done|]. split_and!; [done..| |done|done].
  simpl. unfold same_txs in *. congruence.
Qed.

(** [leads m m']: [m'] is provided by a transaction that requires [m]. *)
Definition leads (m m' : TxMarker) : Prop := exists h, own h = m' /\ requires_of h = [m].

(** The outcome of pruning the markers [ms]: their providers are gone, what
    else is gone leads to one of them, and those that are gone are returned. *)
Record pruned (ms : list TxMarker) (r r' : t) (removed : list PoolTransaction.t) : Prop := {
  pr_id : id r' = id r;
  pr_gone h : own h ∈ ms -> ready_tx r' !! h = None;
  pr_kept h : transaction <$> ready_tx r' !! h = transaction <$> ready_tx r !! h \/ ready_tx r' !! h = None;
  pr_ancestor h tx : ready_tx r !! h = Some tx -> ready_tx r' !! h = None ->
    exists m, m ∈ ms /\ rtc leads (own h) m;
  pr_removed tx : tx ∈ removed <->
    exists h rtx, ready_tx r !! h = Some rtx /\ ready_tx r' !! h = None /\ pool_tx rtx = tx }.

Lemma same_txs_lookup ready ready' x :
  same_txs ready ready' -> transaction <$> ready' !! x = transaction <$> ready !! x.
Proof. unfold same_txs. intros Hs. by rewrite <- !lookup_fmap, Hs. Qed.

Lemma same_txs_size ready ready' : same_txs ready ready' -> size ready' = size ready.
Proof.
  unfold same_txs. intros Hs. rewrite <- (map_size_fmap transaction ready'), Hs. apply map_size_fmap.
Qed.

Lemma pruned_nil r : pruned [] r r [].
Proof.
  split; [done|intros h; by rewrite elem_of_nil|by left|intros h tx; congruence|].
  intros tx. rewrite elem_of_nil. split; [done|]. intros (h & rtx & ? & ? & _). congruence.
Qed.

Lemma pruned_skip m ms r r' rem :
  inv r -> provided_markers r !! m = None -> pruned ms r r' rem -> pruned (m :: ms) r r' rem.
Proof.
  intros Hi Hm [P0 P1 P2 P3 P4]. split; try done.
  - intros h [Ho|?]%elem_of_cons; [|by apply P1].
    destruct (P2 h) as [He|?]; [|done]. apply fmap_None with (f := transaction). rewrite He. apply fmap_None.
    destruct (ready_tx r !! h) as [tx|] eqn:Hh; [|done].
    assert (provided_markers r !! own h = Some h) by (apply (iv_provided _ _ Hi); eauto). congruence.
  - intros h tx Hh Hn. destruct (P3 h tx Hh Hn) as (q & ? & ?). exists q. split; [by right|done].
Qed.

Lemma pruned_step m ms ms' h tx r r1 r' rem :
  inv r -> provided_markers r !! m = Some h -> ready_tx r !! h = Some tx ->
  id r1 = id r -> same_txs (delete h (ready_tx r)) (ready_tx r1) ->
  (forall q, q ∈ ms -> q ∈ ms') -> (forall q, q ∈ ms' -> q ∈ ms \/ requires_of h = [q]) ->
  pruned ms' r1 r' rem -> pruned (m :: ms) r r' (pool_tx tx :: rem).
Proof.
  intros Hi Hm Htx Hid Hs Hms Hms' [P0 P1 P2 P3 P4]. pose proof Hm as [_ Hown]%(iv_provided _ _ Hi).
  assert (ready_tx r1 !! h = None) as H1h.
  { apply fmap_None with (f := transaction). rewrite (same_txs_lookup _ _ h Hs), lookup_delete_eq. done. }
  assert (ready_tx r' !! h = None) as Hh.
  { destruct (P2 h) as [He|?]; [|done]. apply fmap_None with (f := transaction). by rewrite He, H1h. }
  assert (forall x, x <> h -> transaction <$> ready_tx r1 !! x = transaction <$> ready_tx r !! x) as Hother.
  { intros x Hne. rewrite (same_txs_lookup _ _ x Hs). by rewrite lookup_delete_ne. }
  assert (forall x rtx, x <> h -> ready_tx r !! x = Some rtx -> exists rtx1, ready_tx r1 !! x = Some rtx1 /\
    transaction rtx1 = transaction rtx) as Hfwd.
  { intros x rtx Hne Hx. specialize (Hother x Hne). rewrite Hx in Hother. simpl in Hother.
    by apply fmap_Some in Hother as (rtx1 & ? & ->); eauto. }
  split.
  - congruence.
  - intros x [Ho|?]%elem_of_cons; [|by apply P1, Hms]. destruct (decide (x = h)) as [->|Hne]; [done|].
    destruct (P2 x) as [He|?]; [|done]. apply fmap_None with (f := transaction). rewrite He, (Hother x Hne).
    apply fmap_None. destruct (ready_tx r !! x) eqn:Hx; [|done]. destruct Hne.
    apply (own_inj _ _ _ _ Hi); [by eauto..|congruence].
  - intros x. destruct (decide (x = h)) as [->|Hne]; [by right|].
    destruct (P2 x) as [He|?]; [left|by right]. by rewrite He, Hother.
  - intros x rtx Hx Hn. destruct (decide (x = h)) as [->|Hne].
    { exists m. split; [by left|]. by rewrite Hown. }
    destruct (Hfwd x rtx Hne Hx) as (rtx1 & Hx1 & _). destruct (P3 x rtx1 Hx1 Hn) as (q & Hq & Hl).
    apply Hms' in Hq as [Hq|Hq]; [exists q; split; [by right|done]|].
    exists m. split; [by left|]. eapply rtc_r; [exact Hl|]. by exists h.
  - intros t0. rewrite elem_of_cons, P4. split.
    + intros [->|(x & rtx1 & Hx1 & Hn & <-)]; [by exists h, tx|].
      destruct (decide (x = h)) as [->|Hne]; [congruence|]. specialize (Hother x Hne). rewrite Hx1 in Hother.
      symmetry in Hother. apply fmap_Some in Hother as (rtx & Hx & He). exists x, rtx.
      unfold pool_tx. by rewrite He.
    + intros (x & rtx & Hx & Hn & <-). destruct (decide (x = h)) as [->|Hne]; [left; congruence|]. right.
      destruct (Hfwd x rtx Hne Hx) as (rtx1 & Hx1 & He). exists x, rtx1. unfold pool_tx. by rewrite He.
Qed.

Lemma prune_loop_spec n : forall ms r rem,
  inv r -> (size (ready_tx r) <= n)%nat ->
  exists r' rem', prune_loop n ms r rem = Ret (r', rem ++ rem') /\ inv r' /\ pruned ms r r' rem'.
Proof.
  induction n as [|n IHn]; intros ms; induction ms as [|m ms IHms]; intros r rem Hi Hsz.
  1, 3: exists r, []; rewrite prune_loop_nil, app_nil_r; split_and!; [done..|apply pruned_nil].
  all: rewrite prune_loop_cons; destruct (provided_markers r !! m) as [h|] eqn:Hm; simpl.
  1, 3: pose proof Hm as [[tx Htx] _]%(iv_provided _ _ Hi); rewrite Htx; simpl.
  3, 4: rewrite delete_id by done; destruct (IHms r rem Hi Hsz) as (r' & rem' & Hr & Hi' & Hp);
    exists r', rem'; destruct r; split_and!; [done..|by apply pruned_skip].
  - exfalso. apply (map_size_ne_0_lookup_2 (ready_tx r) h); [by rewrite Htx|lia].
  - destruct (prune_found_spec r m h tx ms Hi Hm Htx) as (r1 & ms' & -> & Hi1 & Hid & Hs & H1 & H2). cbn.
    destruct (IHn ms' r1 (rem ++ [pool_tx tx]) Hi1) as (r' & rem' & -> & Hi' & Hp).
    { rewrite (same_txs_size _ _ Hs). by eapply size_delete_le. }
    exists r', (pool_tx tx :: rem'). rewrite <- app_assoc. split_and!; [done..|].
    by eapply (pruned_step m ms ms' h tx r r1).
Qed.

Lemma prune_tags_spec r m :
  inv r -> exists r' removed, prune_tags r m = Ret (r', removed) /\ inv r' /\ pruned [m] r r' removed.
Proof. intros Hi. by apply prune_loop_spec. Qed.
End Ops.
End ReadyTransactions.
