(* ===== verification/TxIterator.v ===== *)
(** * The order in which ready transactions are mined
    (anvil/src/eth/pool/transactions.rs, [TransactionsIterator])

    The iterator works on a snapshot of the ready queue: it yields the
    greatest independent transaction and makes those it unlocks available. *)
From S2P Require Import Prelude Transaction PoolTx PendingTxs ReadyTxs.
Import ReadyTransaction.
Open Scope Z_scope.

Module TransactionsIterator.
Record t := mk {
  all : gmap TxHash ReadyTransaction.t;
  awaiting : gmap TxHash (nat * PoolTransactionRef.t);
  independent : list PoolTransactionRef.t }.

Definition independent_or_awaiting (it : t) (satisfied : nat) (tx_ref : PoolTransactionRef.t) : t :=
  if decide (length (PoolTransaction.requires (PoolTransactionRef.transaction tx_ref)) <= satisfied)%nat then
    mk (all it) (awaiting it) (BTree.insert tx_ref (independent it))
  else
    mk (all it) (<[PoolTransactionRef.hash tx_ref := (satisfied, tx_ref)]> (awaiting it)) (independent it).

(** One transaction that the yielded one unlocks. *)
Definition unlock (it : t) (hash : TxHash) : t :=
  let '(res, awaiting') :=
    match awaiting it !! hash with
    | Some (satisfied, tx_ref) => (Some (S satisfied, tx_ref), delete hash (awaiting it))
    | None =>
        ((fun next => (S (requires_offset next), transaction next)) <$> all it !! hash, awaiting it)
    end in
  let it := mk (all it) awaiting' (independent it) in
  match res with
  | Some (satisfied, tx_ref) => independent_or_awaiting it satisfied tx_ref
  | None => it
  end.

(** [next]: each turn of the loop takes an element out of the independent
    set, whose size bounds the turns. *)
Fixpoint next_loop (n : nat) (it : t) : option PoolTransaction.t * t :=
  match BTree.next_back (independent it) with
  | None => (None, it)
  | Some best =>
      match BTree.take best (independent it), n with
      | (None, ind), _ => (None, mk (all it) (awaiting it) ind)
      | (Some _, _), O => (None, it)
      | (Some best, ind), S n' =>
          let it := mk (all it) (awaiting it) ind in
          match all it !! PoolTransactionRef.hash best with
          | None => next_loop n' it
          | Some ready => (Some (PoolTransactionRef.transaction best), fold_left unlock (unlocks ready) it)
          end
      end
  end.
Definition next (it : t) : option PoolTransaction.t * t := next_loop (length (independent it)) it.

(** The first [n] transactions of the iteration, and the iterator after
    them. *)
Fixpoint collect (n : nat) (it : t) : list PoolTransaction.t * t :=
  match n with
  | O => ([], it)
  | S n' =>
      match next it with
      | (Some tx, it) => let '(l, it) := collect n' it in (tx :: l, it)
      | (None, it) => ([], it)
      end
  end.

(** The first [2 ^ k] transactions of the iteration, and the iterator after
    them unless it has ended. *)
Fixpoint collect_pow (k : nat) (it : t) : list PoolTransaction.t * option t :=
  match k with
  | O => match next it with (Some tx, it) => ([tx], Some it) | (None, _) => ([], None) end
  | S k' =>
      match collect_pow k' it with
      | (l, None) => (l, None)
      | (l, Some it) => let '(l', o) := collect_pow k' it in (l ++ l', o)
      end
  end.
End TransactionsIterator.
Import TransactionsIterator.

(** [ReadyTransactions::get_transactions] *)
Definition get_transactions (r : ReadyTransactions.t) : TransactionsIterator.t :=
  TransactionsIterator.mk (ReadyTransactions.ready_tx r) ∅ (ReadyTransactions.independent_transactions r).

(** The whole iteration.  A transaction is yielded at most once for every path
    along the [unlocks] lists that starts at an independent one; such paths have
    at most as many steps as there are ready transactions, and at most as many
    choices per step as there are links. *)
Definition links (r : ReadyTransactions.t) : nat :=
  length (ReadyTransactions.independent_transactions r) +
  sum_list ((fun '(_, tx) => length (unlocks tx)) <$> map_to_list (ReadyTransactions.ready_tx r)).
Definition path_bound (r : ReadyTransactions.t) : nat :=
  S (size (ReadyTransactions.ready_tx r)) * S (Nat.log2_up (S (links r))).
Definition iteration (r : ReadyTransactions.t) : list PoolTransaction.t :=
  fst (collect_pow (path_bound r) (get_transactions r)).

(** *** The steps of an iterator *)
Inductive yields : TransactionsIterator.t -> list PoolTransaction.t -> TransactionsIterator.t -> Prop :=
| yields_nil it : yields it [] it
| yields_cons it tx it1 l it2 : next it = (Some tx, it1) -> yields it1 l it2 -> yields it (tx :: l) it2.

Lemma yields_app it l it1 l' it2 : yields it l it1 -> yields it1 l' it2 -> yields it (l ++ l') it2.
Proof. induction 1; [done|]. intros ?. econstructor; eauto. Qed.
Lemma yields_prefix it l it1 : yields it l it1 -> forall l' it2,
  yields it l' it2 -> fst (next it2) = None -> l `prefix_of` l' /\ (fst (next it1) = None -> l = l').
Proof.
  induction 1 as [it|it tx it1 l it2 Hn _ IH]; intros l' it3 Hy Hend.
  - split; [apply prefix_nil|]. intros He. inversion Hy as [|? ? ? ? ? Hn]; subst; [done|]. by rewrite Hn in He.
  - inversion Hy as [|? ? ? ? ? Hn' Hy']; subst; [by rewrite Hn in Hend|]. rewrite Hn in Hn'. simplify_eq.
    destruct (IH _ _ Hy' Hend) as [Hp He]. split; [by apply prefix_cons|]. intros H1. by rewrite (He H1).
Qed.
Lemma collect_pow_yields k : forall it l o, collect_pow k it = (l, o) ->
  match o with
  | Some it' => yields it l it' /\ length l = (2 ^ k)%nat
  | None => exists it', yields it l it' /\ fst (next it') = None
  end.
Proof.
  induction k as [|k IH]; intros it l o; cbn [collect_pow].
  - destruct (next it) as [[tx|] it'] eqn:Hn; intros [= <- <-].
    + split; [|done]. econstructor; [done|constructor].
    + exists it. split; [constructor|by rewrite Hn].
  - destruct (collect_pow k it) as [l1 [it1|]] eqn:H1; specialize (IH it _ _ H1) as Hl1; cbn in Hl1; [|intros [= <- <-]; exact Hl1].
    destruct (collect_pow k it1) as [l2 o2] eqn:H2; specialize (IH it1 _ _ H2) as Hl2. intros [= <- <-].
    destruct Hl1 as [Y1 L1]. destruct o2 as [it2|].
    + destruct Hl2 as [Y2 L2]. split; [by eapply yields_app|]. rewrite length_app, L1, L2, Nat.pow_succ_r'. lia.
    + destruct Hl2 as (it2 & Y2 & E2). exists it2. split; [by eapply yields_app|done].
Qed.
Lemma collect_yields n : forall it l it', collect n it = (l, it') -> (fst (next it') = None \/ length l = n) ->
  exists it0, yields it l it0 /\ (fst (next it') = None -> fst (next it0) = None).
Proof.
  induction n as [|n IH]; intros it l it'; cbn [collect]; [intros [= <- <-] _; exists it; by split; [constructor|]|].
  destruct (next it) as [[tx|] it1] eqn:Hn.
  - destruct (collect n it1) as [l1 it2] eqn:Hc. intros [= <- <-] Hor. destruct (IH _ _ _ Hc) as (it0 & Hy & He).
    { destruct Hor as [?|Hlen]; [by left|right; simpl in Hlen; lia]. }
    exists it0. split; [by econstructor|done].
  - intros [= <- <-] _. exists it. split; [constructor|]. by rewrite Hn.
Qed.

(** An iteration that ends within the number of ready transactions is the whole
    one. *)
Lemma iteration_collect r n l it :
  (n <= size (ReadyTransactions.ready_tx r))%nat ->
  collect n (get_transactions r) = (l, it) -> fst (next it) = None -> (length l <= n)%nat -> iteration r = l.
Proof.
  intros Hn Hc He Hlen. destruct (collect_yields _ _ _ _ Hc (or_introl He)) as (it0 & Hy & He0). specialize (He0 He).
  unfold iteration. destruct (collect_pow (path_bound r) (get_transactions r)) as [l' o] eqn:Hp. apply collect_pow_yields in Hp.
  simpl. destruct o as [it'|].
  - destruct Hp as [Hy' Hl']. destruct (yields_prefix _ _ _ Hy' _ _ Hy He0) as [Hpre%prefix_length _].
    assert (size (ReadyTransactions.ready_tx r) < 2 ^ path_bound r)%nat as Hlt; [|lia].
    eapply Nat.lt_le_trans; [apply (Nat.pow_gt_lin_r 2); lia|]. apply Nat.pow_le_mono_r; [lia|]. unfold path_bound. lia.
  - destruct Hp as (it' & Hy' & He'). by apply (yields_prefix _ _ _ Hy' _ _ Hy He0).
Qed.

Section Iteration.
Context `{!Universe}.
Import ReadyTransactions.

(** ** Invariant of the iteration over the queue [r] after [Y] was yielded *)
Record iterating (r : ReadyTransactions.t) (Y : list TxHash) (it : TransactionsIterator.t) : Prop := {
  it_all : all it = ready_tx r;
  it_awaiting : awaiting it = ∅;
  it_sorted : BTree.sorted (independent it);
  it_ind x : x ∈ independent it ->
    exists tx, ready_tx r !! PoolTransactionRef.hash x = Some tx /\ transaction tx = x;
  it_nodup : NoDup Y;
  it_ready h : h ∈ Y -> is_Some (ready_tx r !! h);
  it_fresh x : x ∈ independent it -> PoolTransactionRef.hash x ∉ Y;
  it_waits h tx : ready_tx r !! h = Some tx ->
    h ∈ Y \/ transaction tx ∈ independent it \/ exists h0, edge r h0 h /\ h0 ∉ Y;
  it_parent h0 h tx : edge r h0 h -> ready_tx r !! h = Some tx ->
    h ∈ Y \/ transaction tx ∈ independent it -> h0 ∈ Y }.

Lemma iterating_start r : inv r -> iterating r [] (get_transactions r).
Proof.
  intros Hi. split; simpl; [done|done|apply (iv_sorted _ _ Hi)|apply (iv_ind _ _ Hi)|constructor|..].
  - intros h. by rewrite elem_of_nil.
  - intros x _. apply not_elem_of_nil.
  - intros h tx Htx. destruct (iv_waits _ _ Hi _ _ Htx) as [?|[_ [?%elem_of_nil|(h0 & tx0 & ? & ?)]]];
      [right; by left|done|]. right. right. exists h0. split; [by exists tx0|]. apply not_elem_of_nil.
  - intros h0 h tx (tx0 & H0 & Hin) Htx [?%elem_of_nil|Hind]; [done|].
    destruct (iv_free _ _ Hi _ _ _ _ H0 Hin Htx Hind).
Qed.

(** References of ready transactions are determined by their keys. *)
Lemma ready_ref_key r x y :
  inv r ->
  (exists tx, ready_tx r !! PoolTransactionRef.hash x = Some tx /\ transaction tx = x) ->
  (exists tx, ready_tx r !! PoolTransactionRef.hash y = Some tx /\ transaction tx = y) ->
  BTree.key x = BTree.key y -> x = y.
Proof.
  intros Hi (tx & Hx & <-) (ty & Hy & <-) Hk.
  assert (PoolTransactionRef.hash (transaction tx) = PoolTransactionRef.hash (transaction ty)) as He.
  { apply (iv_id_inj _ _ Hi _ tx _ ty); [done..|]. unfold BTree.key in Hk. simplify_eq. lia. }
  rewrite He in Hx. congruence.
Qed.

Lemma hash_transaction r h tx :
  inv r -> ready_tx r !! h = Some tx -> PoolTransactionRef.hash (transaction tx) = h.
Proof. intros Hi Htx. by destruct (iv_tx _ _ Hi _ _ Htx). Qed.

(** Unlocking the transactions [us] that all require one marker: the ready
    ones among them become independent. *)
Lemma unlock_all r us m : forall it,
  inv r -> (forall u, u ∈ us -> requires_of u = [m]) ->
  all it = ready_tx r -> awaiting it = ∅ -> BTree.sorted (independent it) ->
  (forall x, x ∈ independent it -> exists tx, ready_tx r !! PoolTransactionRef.hash x = Some tx /\ transaction tx = x) ->
  let it' := fold_left unlock us it in
  all it' = ready_tx r /\ awaiting it' = ∅ /\ BTree.sorted (independent it') /\
  forall x, x ∈ independent it' <->
    x ∈ independent it \/ exists u tx, u ∈ us /\ ready_tx r !! u = Some tx /\ x = transaction tx.
Proof.
  induction us as [|u us IH]; intros it Hi Hreq Hall Haw Hs Hind; cbn [fold_left].
  { split_and!; [done..|]. intros x. split; [by left|]. intros [?|(u & tx & ?%elem_of_nil & _)]; done. }
  assert (forall v, v ∈ us -> requires_of v = [m]) as Hreq' by (intros v Hv; apply Hreq; by right).
  destruct (ready_tx r !! u) as [tx|] eqn:Hu.
  - assert (unlock it u = TransactionsIterator.mk (ready_tx r) ∅ (BTree.insert (transaction tx) (independent it))) as ->.
    { unfold unlock. rewrite Haw, lookup_empty, Hall, Hu. simpl. unfold independent_or_awaiting.
      change (PoolTransaction.requires _) with (requires tx).
      rewrite (requires_wf _ _ _ _ Hi Hu), (Hreq u) by (by left). rewrite decide_True by (simpl; lia). done. }
    assert (forall x, x ∈ BTree.insert (transaction tx) (independent it) <-> x = transaction tx \/ x ∈ independent it) as Hins.
    { intros x. split; [apply BTree.elem_of_insert|].
      destruct (BTree.elem_of_insert_2 (transaction tx) (independent it)) as [E1 E2].
      - intros y Hy Hk. apply (ready_ref_key r); [done|by apply Hind| |done].
        exists tx. by rewrite (hash_transaction r u tx).
      - intros [->|?]; [done|by apply E2]. }
    destruct (IH (TransactionsIterator.mk (ready_tx r) ∅ (BTree.insert (transaction tx) (independent it)))) as (A & B & C & D);
      simpl; [done..| | |].
    { by apply BTree.insert_sorted. }
    { intros x [->|?]%Hins; [|by apply Hind]. exists tx. by rewrite (hash_transaction r u tx). }
    split_and!; [done..|]. intros x. rewrite D. simpl. rewrite Hins. split.
    + intros [[->|?]|(v & tv & ? & ? & ?)]; [right; exists u, tx; split; [by left|done]|by left|].
      right. exists v, tv. split; [by right|done].
    + intros [?|(v & tv & [->|?]%elem_of_cons & Hv & ->)]; [left; by right|left; left; congruence|].
      right. by exists v, tv.
  - assert (unlock it u = it) as ->.
    { unfold unlock. rewrite Haw, lookup_empty, Hall, Hu. simpl. rewrite <- Haw, <- Hall. by destruct it. }
    destruct (IH it) as (A & B & C & D); try done. split_and!; [done..|]. intros x. rewrite D. split.
    + intros [?|(v & tv & ? & ?)]; [by left|]. right. exists v, tv. split; [by right|done].
    + intros [?|(v & tv & [->|?]%elem_of_cons & Hv & ->)]; [by left|congruence|]. right. by exists v, tv.
Qed.

(** Yielding the greatest independent transaction. *)
Lemma next_step r Y it best :
  inv r -> iterating r Y it -> BTree.next_back (independent it) = Some best ->
  exists it', next it = (Some (PoolTransactionRef.transaction best), it') /\
    iterating r (Y ++ [PoolTransactionRef.hash best]) it'.
Proof.
  intros Hi Hit Hb. set (h := PoolTransactionRef.hash best).
  destruct (BTree.next_back_max _ _ (it_sorted _ _ _ Hit) Hb) as [Hin _].
  destruct (it_ind _ _ _ Hit best Hin) as (tx & Htx & Hbest). fold h in Htx.
  destruct (BTree.take best (independent it)) as [o ind1] eqn:Htake.
  destruct (BTree.take_spec _ _ _ _ (it_sorted _ _ _ Hit) Htake) as (Hs1 & Hind1 & Ho).
  assert (o = Some best) as -> by (apply Ho; done).
  assert (forall x, x ∈ ind1 <-> x ∈ independent it /\ x <> best) as Hi1.
  { intros x. rewrite Hind1. split; intros [Hx Hk]; split; try done; [by intros ->|].
    intros He. apply Hk. by apply (BTree.sorted_key_inj (independent it)); [apply Hit|..]. }
  destruct (unlock_all r (unlocks tx) (own h) (TransactionsIterator.mk (all it) (awaiting it) ind1)) as (A & B & C & D);
    simpl; [done|intros u Hu; by apply (iv_unlocks _ _ Hi _ tx)|apply Hit|apply Hit|done| |].
  { intros x [Hx _]%Hi1. by apply (it_ind _ _ _ Hit). }
  simpl in D. set (it' := fold_left unlock (unlocks tx) _) in *. exists it'. split.
  { unfold next. destruct (independent it) as [|y l] eqn:Hl; [done|].
    simpl length. cbn [next_loop]. rewrite Hl, Hb, Htake. simpl.
    rewrite (it_all _ _ _ Hit). fold h. rewrite Htx. unfold it'. by rewrite (it_all _ _ _ Hit). }
  assert (forall x, edge r h x -> requires_of x = [own h]) as Hedge.
  { intros x (tx' & H' & Hx). by apply (iv_unlocks _ _ Hi _ tx'). }
  assert (forall h0 x, edge r h0 x -> edge r h x -> h0 = h) as Huniq.
  { intros h0 x (t0 & H0 & Hx0) (t1 & H1 & Hx1). apply (own_inj _ _ _ _ Hi); [by eauto..|].
    pose proof (iv_unlocks _ _ Hi _ _ _ H0 Hx0). pose proof (iv_unlocks _ _ Hi _ _ _ H1 Hx1). congruence. }
  assert (h ∉ Y) as HhY by (by apply (it_fresh _ _ _ Hit)).
  split; [done|done|done|..].
  - intros x [[Hx _]%Hi1|(u & tu & _ & Hu & ->)]%D; [by apply (it_ind _ _ _ Hit)|].
    exists tu. by rewrite (hash_transaction r u tu).
  - apply NoDup_app. split_and!; [apply Hit| |apply NoDup_singleton]. intros x Hx ->%list_elem_of_singleton. done.
  - intros x [Hx|Hx%list_elem_of_singleton]%elem_of_app; [by apply (it_ready _ _ _ Hit)|subst x; by eauto].
  - intros x. rewrite D, Hi1, elem_of_app, list_elem_of_singleton. intros [[Hx Hne]|(u & tu & Hu & Htu & ->)].
    + intros [HY|Hxh]; [by apply (it_fresh _ _ _ Hit x)|]. apply Hne.
      destruct (it_ind _ _ _ Hit x Hx) as (tx' & H' & <-). rewrite Hxh in H'. congruence.
    + rewrite (hash_transaction r u tu) by done. intros [HY| ->].
      * apply HhY. apply (it_parent _ _ _ Hit h u tu); [by exists tx|done|by left].
      * apply (requires_not_own h), Hedge. by exists tx.
  - intros x tx' Hx. rewrite elem_of_app, list_elem_of_singleton, D, Hi1.
    destruct (decide (x = h)) as [->|Hne]; [left; by right|].
    assert (transaction tx' <> best) as Hnb.
    { intros He. apply Hne. unfold h. rewrite <- He. symmetry. by apply (hash_transaction r). }
    destruct (it_waits _ _ _ Hit x tx' Hx) as [?|[?|(h0 & He & Hh0)]]; [left; by left|right; left; by left|].
    destruct (decide (h0 = h)) as [->|Hn0].
    + right. left. right. destruct He as (t0 & Ht0 & Hin0). exists x, tx'. split_and!; [|done..]. congruence.
    + right. right. exists h0. split; [done|]. rewrite elem_of_app, list_elem_of_singleton. tauto.
  - intros h0 x tx' He Hx. rewrite !elem_of_app, !list_elem_of_singleton, D, Hi1.
    intros [[HY| ->]|[[Hind _]|(u & tu & Hu & Htu & Heq)]].
    + left. apply (it_parent _ _ _ Hit h0 x tx'); auto.
    + left. apply (it_parent _ _ _ Hit h0 h tx'); [done|done|]. right.
      assert (tx' = tx) as -> by congruence. by rewrite Hbest.
    + left. apply (it_parent _ _ _ Hit h0 x tx'); auto.
    + right. apply (Huniq h0 x He). exists tx. split; [done|].
      assert (x = u) as ->; [|done]. rewrite <- (hash_transaction r x tx' Hi Hx), <- (hash_transaction r u tu Hi Htu).
      by rewrite Heq.
Qed.

Lemma next_end r Y it :
  iterating r Y it -> BTree.next_back (independent it) = None -> next it = (None, it) /\ independent it = [].
Proof.
  intros Hit Hb. apply last_None in Hb. unfold next. by rewrite Hb; simpl; rewrite ?Hb.
Qed.

(** Nothing is independent any more: everything was yielded. *)
Lemma iterating_complete r Y it :
  iterating r Y it -> inv r -> independent it = [] -> forall h, is_Some (ready_tx r !! h) -> h ∈ Y.
Proof.
  intros Hit Hi He h. remember (rank (own h)) as n eqn:Hn. revert h Hn.
  induction n as [n IH] using lt_wf_ind. intros h -> [tx Htx].
  destruct (it_waits _ _ _ Hit h tx Htx) as [?|[Hin|(h0 & Hedge & Hn)]]; [done| |].
  - rewrite He in Hin. by apply elem_of_nil in Hin.
  - destruct Hn. destruct Hedge as (t0 & H0 & Hin). apply (IH (rank (own h0))); [|done|by eauto].
    pose proof (iv_unlocks _ _ Hi _ _ _ H0 Hin) as Hr.
    destruct (requires_rank h) as [Hq|(m & Hq & ?)]; rewrite Hr in Hq; by simplify_eq.
Qed.

(** Where the yielded transactions stand in the order, relative to those
    yielded before them. *)
Definition in_order (r : ReadyTransactions.t) (Y : list TxHash) (l : list PoolTransaction.t) : Prop :=
  forall l1 a l2, l = l1 ++ a :: l2 ->
    (forall h0, edge r h0 (PoolTransaction.hash a) -> h0 ∈ Y ++ (PoolTransaction.hash <$> l1)) /\
    (forall b ra rb, b ∈ l2 ->
       (forall h0, edge r h0 (PoolTransaction.hash b) -> h0 ∈ Y ++ (PoolTransaction.hash <$> l1)) ->
       ready_tx r !! PoolTransaction.hash a = Some ra -> ready_tx r !! PoolTransaction.hash b = Some rb ->
       PoolTransactionRef.cmp (transaction rb) (transaction ra) = Lt).

Lemma collect_spec r n : forall Y it,
  inv r -> iterating r Y it ->
  let '(l, it') := collect n it in
  iterating r (Y ++ (PoolTransaction.hash <$> l)) it' /\
  (length l = n \/ independent it' = []) /\
  Forall (fun tx => exists rtx, ready_tx r !! PoolTransaction.hash tx = Some rtx /\ pool_tx rtx = tx) l /\
  in_order r Y l.
Proof.
  induction n as [|n IH]; intros Y it Hi Hit; cbn [collect].
  { simpl. rewrite app_nil_r. split_and!; [done|by left|constructor|]. intros [|? l1] a l2; done. }
  destruct (BTree.next_back (independent it)) as [best|] eqn:Hb.
  2: { destruct (next_end r Y it Hit Hb) as [-> He]. simpl. rewrite app_nil_r.
       split_and!; [done|by right|constructor|]. intros [|? l1] a l2; done. }
  destruct (next_step r Y it best Hi Hit Hb) as (it1 & -> & Hit1).
  specialize (IH _ _ Hi Hit1). destruct (collect n it1) as [l it2]. destruct IH as (H1 & H2 & H3 & H4).
  destruct (BTree.next_back_max _ _ (it_sorted _ _ _ Hit) Hb) as [Hin Hmax].
  destruct (it_ind _ _ _ Hit best Hin) as (tx & Htx & Hbest).
  rewrite fmap_cons. change (PoolTransaction.hash (PoolTransactionRef.transaction best)) with (PoolTransactionRef.hash best).
  rewrite cons_middle, app_assoc. split_and!; [done| | |].
  - simpl. destruct H2; [left; lia|by right].
  - constructor; [|done]. exists tx. split; [done|]. unfold pool_tx. by rewrite Hbest.
  - intros [|c l1] a l2 Heq; simpl in Heq; injection Heq as <- Heq; [subst l2|].
    + simpl. rewrite app_nil_r. split.
      * intros h0 Hedge. apply (it_parent _ _ _ Hit h0 _ tx Hedge Htx). right. by rewrite Hbest.
      * intros b ra rb Hbl Hpar Hra Hrb.
        change (PoolTransaction.hash (PoolTransactionRef.transaction best)) with (PoolTransactionRef.hash best) in Hra.
        assert (ra = tx) as -> by congruence. rewrite Hbest.
        assert (PoolTransaction.hash b ∉ Y ++ [PoolTransactionRef.hash best]) as Hnb.
        { pose proof (it_nodup _ _ _ H1) as Hnd. apply NoDup_app in Hnd as (_ & Hnd & _).
          intros Hc. apply (Hnd _ Hc). apply list_elem_of_fmap. by exists b. }
        rewrite elem_of_app, list_elem_of_singleton in Hnb. apply Hmax.
        -- destruct (it_waits _ _ _ Hit _ _ Hrb) as [?|[?|(h0 & He & Hn0)]]; [naive_solver|done|].
           destruct Hn0. by apply Hpar.
        -- intros He. apply Hnb. right. rewrite <- He. symmetry. by apply (hash_transaction r).
    + destruct (H4 l1 a l2 Heq) as [H5 H6]. rewrite fmap_cons, cons_middle, app_assoc.
      change (PoolTransaction.hash (PoolTransactionRef.transaction best)) with (PoolTransactionRef.hash best). done.
Qed.

(** The iteration yields every ready transaction exactly once, after those
    that unlock it, and always the greatest of the available ones. *)
Lemma iteration_spec r :
  inv r ->
  fst (next (snd (collect (size (ready_tx r)) (get_transactions r)))) = None /\
  iteration r ≡ₚ pool_tx <$> (map_to_list (ready_tx r)).*2 /\
  in_order r [] (iteration r).
Proof.
  intros Hi.
  pose proof (collect_spec r (size (ready_tx r)) [] _ Hi (iterating_start r Hi)) as Hc.
  destruct (collect _ _) as [l it] eqn:Hcl. destruct Hc as (Hit & Hlen & Hall & Hord). simpl in Hit |- *.
  set (K := (map_to_list (ready_tx r)).*1).
  assert (forall h, h ∈ K <-> is_Some (ready_tx r !! h)) as HK.
  { intros h. unfold K. rewrite list_elem_of_fmap. split.
    - intros ([h' tx] & -> & Hm). apply elem_of_map_to_list in Hm. by eauto.
    - intros [tx Htx]. exists (h, tx). by rewrite elem_of_map_to_list. }
  assert (forall h, is_Some (ready_tx r !! h) -> h ∈ PoolTransaction.hash <$> l) as Hcomplete.
  { destruct Hlen as [Hlen|He]; [|by apply (iterating_complete r _ it)].
    assert (PoolTransaction.hash <$> l ≡ₚ K) as Hperm; [|intros h; by rewrite Hperm, HK].
    apply submseteq_length_Permutation.
    - apply NoDup_submseteq; [apply (it_nodup _ _ _ Hit)|]. intros h Hh. by apply HK, (it_ready _ _ _ Hit).
    - unfold K. rewrite !length_fmap, length_map_to_list, Hlen. done. }
  assert (independent it = []) as He.
  { apply elem_of_nil_inv. intros x Hx. apply (it_fresh _ _ _ Hit x Hx).
    destruct (it_ind _ _ _ Hit x Hx) as (tx & Htx & _). apply Hcomplete. by eauto. }
  assert (fst (next it) = None) as Hend by (unfold next; rewrite He; simpl; by rewrite ?He).
  assert (length l <= size (ready_tx r))%nat as Hle.
  { rewrite <- length_map_to_list, <- (length_fmap PoolTransaction.hash l), <- (length_fmap fst (map_to_list _)).
    apply submseteq_length, NoDup_submseteq; [apply (it_nodup _ _ _ Hit)|]. intros h Hh. by apply HK, (it_ready _ _ _ Hit). }
  rewrite (iteration_collect r _ l it (Nat.le_refl _) Hcl Hend Hle).
  split_and!; [done| |done].
  - rewrite Forall_forall in Hall. apply NoDup_Permutation.
    + apply (NoDup_fmap_1 PoolTransaction.hash), (it_nodup _ _ _ Hit).
    + apply (NoDup_fmap_1 PoolTransaction.hash). rewrite <- !list_fmap_compose.
      erewrite (list_fmap_ext _ fst); [apply NoDup_fst_map_to_list|].
      intros i [h tx] Hm. apply list_elem_of_lookup_2 in Hm. apply elem_of_map_to_list in Hm. simpl.
      exact (hash_transaction r h tx Hi Hm).
    + intros tx. rewrite list_elem_of_fmap. split.
      * intros Hin. destruct (Hall tx Hin) as (rtx & Hr & <-). exists rtx. split; [done|].
        apply list_elem_of_fmap. eexists (_, rtx). split; [done|]. by apply elem_of_map_to_list.
      * intros (rtx & -> & ([h rtx'] & -> & Hm)%list_elem_of_fmap). apply elem_of_map_to_list in Hm. simpl.
        pose proof (Hcomplete h ltac:(by eauto)) as (tx & Hh & Hin)%list_elem_of_fmap.
        destruct (Hall tx Hin) as (rtx & Hr & Hre). rewrite <- Hh, Hm in Hr. congruence.
Qed.
End Iteration.
