(* ===== verification/Pool.v ===== *)
(** * The transaction pool (anvil/src/eth/pool/mod.rs)

    [PoolInner] moves transactions between the pending and the ready queue;
    [Pool] adds the listeners that are told about ready transactions. *)
From S2P Require Import Prelude Transaction PoolTx PendingTxs ReadyTxs TxIterator.
Open Scope Z_scope.

(** The outcome of adding a ready transaction ([ReadyTransaction] of
    pool/mod.rs). *)
Module AddedReady.
Record t := mk {
  hash : TxHash;
  promoted : list TxHash;
  discarded : list TxHash;
  removed : list PoolTransaction.t }.
Definition new (hash : TxHash) : t := mk hash [] [] [].
End AddedReady.

Inductive AddedTransaction :=
| AddedReadyTx (ready : AddedReady.t)
| AddedPendingTx (hash : TxHash).

Definition added_hash (a : AddedTransaction) : TxHash :=
  match a with AddedReadyTx r => AddedReady.hash r | AddedPendingTx h => h end.

Module PruneResult.
Record t := mk {
  promoted : list AddedTransaction;
  failed : list TxHash;
  pruned : list PoolTransaction.t }.
End PruneResult.

(** ** PoolInner *)
Module PoolInner.
Record t := mk {
  ready_transactions : ReadyTransactions.t;
  pending_transactions : PendingTransactions.t }.
Definition empty : t := mk ReadyTransactions.empty PendingTransactions.empty.

Definition get_transaction (p : t) (hash : TxHash) : option PendingTransaction :=
  match PendingTransactions.get (pending_transactions p) hash with
  | Some pending => Some (PoolTransaction.pending_transaction (PendingPoolTransaction.transaction pending))
  | None =>
      r ← ReadyTransactions.get (ready_transactions p) hash;
      Some (PoolTransaction.pending_transaction (ReadyTransaction.pool_tx r))
  end.

Definition contains (p : t) (tx_hash : TxHash) : bool :=
  PendingTransactions.contains (pending_transactions p) tx_hash ||
  ReadyTransactions.contains (ready_transactions p) tx_hash.

Section Ops.
Context `{!HashIter TxMarker} `{!HashIter TxHash}.

(** The [while let Some(current_tx) = tx_queue.pop_front()] loop; every turn
    takes one transaction from the queue, which only gains transactions that
    leave the pending ones, so [n] bounds the turns. *)
Fixpoint add_ready_loop (n : nat) (p : t) (tx_queue : list PendingPoolTransaction.t) (is_new_tx : bool)
    (ready : AddedReady.t) : exec (result AddedReady.t PoolError * t) :=
  match tx_queue, n with
  | [], _ => Ret (Ok ready, p)
  | _ :: _, O => Panic "unreachable"
  | current_tx :: tx_queue, S n' =>
      '(pending, unlocked) ←
        PendingTransactions.mark_and_unlock (pending_transactions p) (PendingPoolTransaction.provides current_tx);
      let tx_queue := tx_queue ++ unlocked in
      let current_hash := PendingPoolTransaction.hash current_tx in
      '(res, rtxs) ← ReadyTransactions.add_transaction (ready_transactions p) current_tx;
      let p := mk rtxs pending in
      match res with
      | Ok replaced_transactions =>
          let promoted := if is_new_tx then AddedReady.promoted ready
                          else AddedReady.promoted ready ++ [current_hash] in
          add_ready_loop n' p tx_queue false
            (AddedReady.mk (AddedReady.hash ready) promoted (AddedReady.discarded ready)
               (AddedReady.removed ready ++ replaced_transactions))
      | Err err =>
          if is_new_tx then Ret (Err err, p)
          else
            add_ready_loop n' p tx_queue false
              (AddedReady.mk (AddedReady.hash ready) (AddedReady.promoted ready)
                 (AddedReady.discarded ready ++ [current_hash]) (AddedReady.removed ready))
      end
  end.

Definition add_ready_transaction (p : t) (tx : PendingPoolTransaction.t)
    : exec (result AddedTransaction PoolError * t) :=
  let hash := PendingPoolTransaction.hash tx in
  '(res, p) ← add_ready_loop (S (PendingTransactions.len (pending_transactions p))) p [tx] true
                (AddedReady.new hash);
  match res with
  | Err e => Ret (Err e, p)
  | Ok ready =>
      if existsb (fun tx => PoolTransaction.hash tx =? hash) (AddedReady.removed ready) then
        '(rtxs, _) ← ReadyTransactions.clear_transactions (ready_transactions p) (AddedReady.promoted ready);
        Ret (Err CyclicTransaction, mk rtxs (pending_transactions p))
      else Ret (Ok (AddedReadyTx ready), p)
  end.

Definition add_transaction (now : Z) (p : t) (tx : PoolTransaction.t)
    : exec (result AddedTransaction PoolError * t) :=
  if contains p (PoolTransaction.hash tx) then Ret (Err (AlreadyImported tx), p)
  else
    let tx := PendingPoolTransaction.new now tx
                (ReadyTransactions.provided_markers (ready_transactions p)) in
    if negb (PendingPoolTransaction.is_ready tx) then
      let hash := PendingPoolTransaction.hash tx in
      '(res, pending) ← PendingTransactions.add_transaction (pending_transactions p) tx;
      let p := mk (ready_transactions p) pending in
      match res with
      | Err e => Ret (Err e, p)
      | Ok _ => Ret (Ok (AddedPendingTx hash), p)
      end
    else add_ready_transaction p tx.

(** One marker of [prune_markers]. *)
Definition prune_marker (st : t * list PendingPoolTransaction.t * list PoolTransaction.t) (marker : TxMarker)
    : exec (t * list PendingPoolTransaction.t * list PoolTransaction.t) :=
  let '(p, imports, pruned) := st in
  '(pending, unlocked) ← PendingTransactions.mark_and_unlock (pending_transactions p) [marker];
  '(rtxs, removed) ← ReadyTransactions.prune_tags (ready_transactions p) marker;
  Ret (mk rtxs pending, imports ++ unlocked, pruned ++ removed).

(** One transaction that the pruned markers unlocked. *)
Definition import (st : t * list AddedTransaction * list TxHash) (tx : PendingPoolTransaction.t)
    : exec (t * list AddedTransaction * list TxHash) :=
  let '(p, promoted, failed) := st in
  let hash := PendingPoolTransaction.hash tx in
  '(res, p) ← add_ready_transaction p tx;
  match res with
  | Ok a => Ret (p, promoted ++ [a], failed)
  | Err _ => Ret (p, promoted, failed ++ [hash])
  end.

Definition prune_markers (p : t) (markers : list TxMarker) : exec (PruneResult.t * t) :=
  '(p, imports, pruned) ← foldM prune_marker (p, [], []) markers;
  '(p, promoted, failed) ← foldM import (p, [], []) imports;
  Ret (PruneResult.mk promoted failed pruned, p).

Definition remove_invalid (p : t) (tx_hashes : list TxHash) : exec (list PoolTransaction.t * t) :=
  match tx_hashes with
  | [] => Ret ([], p)
  | _ =>
      '(rtxs, removed) ← ReadyTransactions.remove_with_markers (ready_transactions p) tx_hashes None;
      let '(pending, removed') := PendingTransactions.remove (pending_transactions p) tx_hashes in
      Ret (removed ++ removed', mk rtxs pending)
  end.
End Ops.
End PoolInner.

(** ** Pool *)

(** The sending half of a [futures] channel, as the pool uses it:
    [try_send] enqueues, or reports that the channel is full or that the
    receiver is gone. *)
Inductive try_send_result := Sent | Full | Disconnected.
Class Channel := {
  Sender : Type;
  try_send : Sender -> TxHash -> try_send_result * Sender }.

Module Pool.
Section Ops.
Context `{!HashIter TxMarker} `{!HashIter TxHash} `{!Channel}.

Record t := mk {
  inner : PoolInner.t;
  transaction_listener : list Sender }.

(** [notify_listener]: the loop runs [n] from the last index down to 0. *)
Fixpoint notify_loop (n : nat) (hash : TxHash) (listener : list Sender) : exec (list Sender) :=
  match n with
  | O => Ret listener
  | S n' =>
      listener_tx ← expect (listener !! n') "swap_remove index should be < len";
      let listener := swap_remove n' listener in
      let '(res, listener_tx) := try_send listener_tx hash in
      let retain := match res with Sent => true | Full => true | Disconnected => false end in
      notify_loop n' hash (if retain : bool then listener ++ [listener_tx] else listener)
  end.
Definition notify_listener (p : t) (hash : TxHash) : exec t :=
  l ← notify_loop (length (transaction_listener p)) hash (transaction_listener p);
  Ret (mk (inner p) l).

Definition add_ready_listener (p : t) (tx : Sender) : t :=
  mk (inner p) (transaction_listener p ++ [tx]).

Definition add_transaction (now : Z) (p : t) (tx : PoolTransaction.t)
    : exec (result AddedTransaction PoolError * t) :=
  '(res, inn) ← PoolInner.add_transaction now (inner p) tx;
  let p := mk inn (transaction_listener p) in
  match res with
  | Err e => Ret (Err e, p)
  | Ok added =>
      p ← match added with
          | AddedReadyTx ready =>
              p ← notify_listener p (AddedReady.hash ready);
              foldM notify_listener p (AddedReady.promoted ready)
          | AddedPendingTx _ => Ret p
          end;
      Ret (Ok added, p)
  end.

Definition remove_invalid (p : t) (hs : list TxHash) : exec (list PoolTransaction.t * t) :=
  '(removed, inn) ← PoolInner.remove_invalid (inner p) hs;
  Ret (removed, mk inn (transaction_listener p)).

Definition prune_markers (p : t) (markers : list TxMarker) : exec (PruneResult.t * t) :=
  '(res, inn) ← PoolInner.prune_markers (inner p) markers;
  Ret (res, mk inn (transaction_listener p)).

(** [on_mined_block]: [included] and [invalid] of the [MinedBlockOutcome]. *)
Definition on_mined_block (p : t) (included invalid : list PoolTransaction.t) : exec (PruneResult.t * t) :=
  '(_, p) ← remove_invalid p (PoolTransaction.hash <$> invalid);
  prune_markers p (included ≫= PoolTransaction.provides).

Definition drop_transaction (p : t) (tx : TxHash) : exec (option PoolTransaction.t * t) :=
  '(rtxs, removed) ←
    ReadyTransactions.remove_with_markers (PoolInner.ready_transactions (inner p)) [tx] None;
  let p := mk (PoolInner.mk rtxs (PoolInner.pending_transactions (inner p))) (transaction_listener p) in
  Ret (find (fun t => PoolTransaction.hash t =? tx) removed, p).

(** [txpool_status]: the numbers of ready and of waiting transactions. *)
Definition txpool_status (p : t) : nat * nat :=
  (length (iteration (PoolInner.ready_transactions (inner p))),
   PendingTransactions.len (PoolInner.pending_transactions (inner p))).

Definition get_transaction (p : t) (hash : TxHash) : option PendingTransaction :=
  PoolInner.get_transaction (inner p) hash.
Definition contains (p : t) (hash : TxHash) : bool := PoolInner.contains (inner p) hash.
End Ops.
End Pool.
