(* ===== verification/PoolInv.v ===== *)
(** * Correctness of the transaction pool

    The invariant that ties the two queues of the pool together, its
    preservation by every operation without a panic, and what the operations
    do.  All of it holds for every iteration order of the hash sets and for
    every universe of transactions with one provided and at most one required
    marker; the last part instantiates it with the markers of the RPC layer. *)
From S2P Require Import Prelude Transaction PoolTx PendingTxs ReadyTxs TxIterator Pool.
Import PoolInner.
Open Scope Z_scope.

Section PoolInv.
Context `{!HashIter TxMarker} `{!HashIter TxHash} `{!Universe}.

Abbreviation ready_of p := (ReadyTransactions.ready_tx (ready_transactions p)) (only parsing).
Abbreviation queue_of p := (PendingTransactions.waiting_queue (pending_transactions p)) (only parsing).
Abbreviation id_of p := (ReadyTransactions.id (ready_transactions p)) (only parsing).

(** ** Invariant

    Both queues satisfy their own; no transaction is in both; a pending
    transaction misses only markers it requires and that no ready
    transaction provides. *)
Record pool_inv (p : PoolInner.t) : Prop := {
  pi_ready : ReadyTransactions.inv (ready_transactions p);
  pi_pending : PendingTransactions.inv (pending_transactions p);
  pi_disjoint h : is_Some (ready_of p !! h) -> queue_of p !! h = None;
  pi_wf h tx : queue_of p !! h = Some tx -> wf_tx (PendingPoolTransaction.transaction tx);
  pi_missing h tx m : queue_of p !! h = Some tx -> m ∈ PendingPoolTransaction.missing_markers tx ->
    requires_of h = [m] /\ ReadyTransactions.provided_markers (ready_transactions p) !! m = None }.

(** Fewer than 2^64 transactions were and can still become ready, so that the
    ids do not wrap around. *)
Definition budget (p : PoolInner.t) (n : nat) : Prop :=
  id_of p + Z.of_nat (PendingTransactions.len (pending_transactions p)) + Z.of_nat n <= U64_MAX.

(** Transactions on their way from the pending to the ready queue. *)
Record in_transit (p : PoolInner.t) (q : list PendingPoolTransaction.t) : Prop := {
  tr_nodup : NoDup (PendingPoolTransaction.hash <$> q);
  tr_tx tx : tx ∈ q -> PendingPoolTransaction.is_ready tx = true /\
    wf_tx (PendingPoolTransaction.transaction tx) /\
    ready_of p !! PendingPoolTransaction.hash tx = None /\ queue_of p !! PendingPoolTransaction.hash tx = None }.

Lemma pool_inv_empty : pool_inv PoolInner.empty.
Proof.
  split; simpl.
  - apply ReadyTransactions.ready_inv_empty.
  - apply PendingTransactions.pending_inv_empty.
  - intros h. by rewrite lookup_empty.
  - intros h tx. by rewrite lookup_empty.
  - intros h tx m. by rewrite lookup_empty.
Qed.

(** Unlocking empties the queue by as many transactions as it returns. *)
Lemma unlock_count ms (q q' : PendingTransactions.t) new :
  PendingTransactions.unlock_outcome ms q q' new ->
  (PendingTransactions.len q' + length new <= PendingTransactions.len q)%nat.
Proof.
  intros [Hq Hnd Hu]. unfold PendingTransactions.len.
  set (K' := (map_to_list (PendingTransactions.waiting_queue q')).*1).
  set (K := (map_to_list (PendingTransactions.waiting_queue q)).*1).
  assert (K' ++ (PendingPoolTransaction.hash <$> new) ⊆+ K) as Hs.
  - apply NoDup_submseteq.
    + apply NoDup_app. split_and!; [apply NoDup_fst_map_to_list| |done].
      intros h ([? tx] & -> & Hm%elem_of_map_to_list)%list_elem_of_fmap (u & He & Hin)%list_elem_of_fmap.
      apply Hu in Hin as (t0 & Ht0 & Hsub & _). simpl in He. rewrite <- He in Ht0.
      rewrite Hq, Ht0 in Hm. simpl in Hm. by apply PendingTransactions.still_waiting_Some in Hm as [? _].
    + intros h [([? tx] & -> & Hm%elem_of_map_to_list)%list_elem_of_fmap|(u & -> & Hin)%list_elem_of_fmap]%elem_of_app.
      * rewrite Hq in Hm. apply bind_Some in Hm as (t0 & Ht0 & _). apply list_elem_of_fmap.
        exists (z, t0). by rewrite elem_of_map_to_list.
      * apply Hu in Hin as (t0 & Ht0 & _). apply list_elem_of_fmap.
        exists (PendingPoolTransaction.hash u, t0). by rewrite elem_of_map_to_list.
  - apply submseteq_length in Hs. unfold K, K' in Hs.
    rewrite length_app, !length_fmap, !length_map_to_list in Hs. lia.
Qed.

(** Checking off [m] leaves the pool invariant, and what it unlocks is in
    transit. *)
Lemma mark_step p q m :
  pool_inv p -> in_transit p q ->
  exists pending unlocked,
    PendingTransactions.mark_and_unlock (pending_transactions p) [m] = Ret (pending, unlocked) /\
    let p' := mk (ready_transactions p) pending in
    pool_inv p' /\ in_transit p' (q ++ unlocked) /\
    (PendingTransactions.len pending + length unlocked <= PendingTransactions.len (pending_transactions p))%nat /\
    (forall h tx, queue_of p' !! h = Some tx -> m ∉ PendingPoolTransaction.missing_markers tx) /\
    (forall tx, tx ∈ unlocked -> requires_of (PendingPoolTransaction.hash tx) = [m]) /\
    (forall h, is_Some (queue_of p !! h) <-> is_Some (queue_of p' !! h) \/ h ∈ PendingPoolTransaction.hash <$> unlocked).
Proof.
  intros Hp Hq.
  destruct (PendingTransactions.mark_and_unlock_spec (pending_transactions p) [m] (pi_pending p Hp))
    as (pending & unlocked & Hmu & Hi & Ho). exists pending, unlocked. split; [done|]. cbv zeta.
  assert (list_to_set [m] = ({[m]} : gset TxMarker)) as Hset by (simpl; apply union_empty_r_L). rewrite Hset in Ho.
  pose proof (unlock_count _ _ _ _ Ho) as Hlen. destruct Ho as [Hqueue Hnd Hun].
  assert (forall h tx, PendingTransactions.waiting_queue pending !! h = Some tx -> exists t0, queue_of p !! h = Some t0 /\
    tx = PendingPoolTransaction.mark_all {[m]} t0) as Hback.
  { intros h tx. rewrite Hqueue. intros (t0 & Ht0 & [_ ->]%PendingTransactions.still_waiting_Some)%bind_Some. by exists t0. }
  assert (forall tx, tx ∈ unlocked -> exists t0, queue_of p !! PendingPoolTransaction.hash tx = Some t0 /\
    PendingPoolTransaction.missing_markers t0 ⊆ {[m]} /\ tx = PendingPoolTransaction.mark_all {[m]} t0) as Hunl.
  { intros tx Htx. by apply Hun. }
  split_and!.
  - split; simpl; [apply Hp|done|..].
    + intros h Hr. rewrite Hqueue. by rewrite (pi_disjoint p Hp h Hr).
    + intros h tx (t0 & Ht0 & ->)%Hback. exact (pi_wf p Hp h t0 Ht0).
    + intros h tx m' (t0 & Ht0 & ->)%Hback Hin. apply (pi_missing p Hp h t0); [done|]. simpl in Hin. set_solver.
  - split.
    + rewrite fmap_app. apply NoDup_app. split_and!; [apply Hq| |done].
      intros x (tx & -> & Htx)%list_elem_of_fmap (u & He & Hu)%list_elem_of_fmap.
      destruct (tr_tx _ _ Hq tx Htx) as (_ & _ & _ & Hnone). destruct (Hunl u Hu) as (t0 & Ht0 & _). congruence.
    + intros tx [Htx|Htx]%elem_of_app; simpl.
      * destruct (tr_tx _ _ Hq tx Htx) as (? & ? & ? & Hnone). split_and!; [done..|]. by rewrite Hqueue, Hnone.
      * destruct (Hunl tx Htx) as (t0 & Ht0 & Hsub & ->). split_and!.
        -- apply bool_decide_eq_true. by apply PendingTransactions.mark_all_ready.
        -- exact (pi_wf p Hp _ t0 Ht0).
        -- apply eq_None_not_Some. intros Hs. rewrite (pi_disjoint p Hp _ Hs) in Ht0. done.
        -- rewrite Hqueue, Ht0. simpl. unfold PendingTransactions.still_waiting. by rewrite decide_True.
  - done.
  - simpl. intros h tx (t0 & Ht0 & ->)%Hback. simpl. set_solver.
  - intros tx Htx. destruct (Hunl tx Htx) as (t0 & Ht0 & Hsub & _).
    pose proof (PendingTransactions.inv_missing _ (pi_pending p Hp) _ _ Ht0) as Hne.
    apply set_choose_L in Hne as [x Hx]. assert (x = m) as -> by set_solver.
    by destruct (pi_missing p Hp _ _ _ Ht0 Hx).
  - simpl. intros h. split.
    2: { intros [[tx (t0 & Ht0 & _)%Hback]|(tx & -> & (t0 & Ht0 & _)%Hunl)%list_elem_of_fmap]; by eauto. }
    intros [t0 Ht0]. destruct (decide (PendingPoolTransaction.missing_markers t0 ⊆ {[m]})) as [Hs|Hs].
    + right. apply list_elem_of_fmap. exists (PendingPoolTransaction.mark_all {[m]} t0).
      assert (PendingPoolTransaction.hash (PendingPoolTransaction.mark_all {[m]} t0) = h) as Hh
        by exact (PendingTransactions.inv_hash _ (pi_pending p Hp) _ _ Ht0).
      split; [done|]. apply Hun. exists t0. by rewrite Hh.
    + left. rewrite Hqueue, Ht0. simpl. eexists. by apply PendingTransactions.still_waiting_Some.
Qed.

(** A ready transaction of the new queue is the added one or was ready. *)
Lemma added_ready tx r r' removed x :
  ReadyTransactions.added tx r r' removed -> is_Some (ReadyTransactions.ready_tx r' !! x) ->
  x = PoolTransaction.hash tx \/ is_Some (ReadyTransactions.ready_tx r !! x).
Proof.
  intros [_ Hr _ _] [rtx Hx]. specialize (Hr x). rewrite Hx in Hr. simpl in Hr.
  case_decide; [by left|]. case_decide; [done|]. right.
  symmetry in Hr. apply fmap_Some in Hr as (? & ? & _). by eauto.
Qed.

(** Adding a transaction in transit to the ready queue. *)
Lemma ready_step p cur q :
  pool_inv p -> in_transit p (cur :: q) -> id_of p < U64_MAX ->
  (forall h tx, queue_of p !! h = Some tx ->
     own (PendingPoolTransaction.hash cur) ∉ PendingPoolTransaction.missing_markers tx) ->
  exists res r', ReadyTransactions.add_transaction (ready_transactions p) cur = Ret (res, r') /\
    let p' := mk r' (pending_transactions p) in
    pool_inv p' /\ in_transit p' q /\
    match res with
    | Err e => e = ReplacementUnderpriced (PendingPoolTransaction.transaction cur) /\ p' = p /\
        exists h old, ready_of p !! h = Some old /\ own h = own (PendingPoolTransaction.hash cur) /\
          PoolTransaction.gas_price (PendingPoolTransaction.transaction cur) <= ReadyTransaction.gas_price old
    | Ok removed =>
        ReadyTransactions.added (PendingPoolTransaction.transaction cur) (ready_transactions p) r' removed
    end.
Proof.
  intros Hp [Hnd Htr] Hid Hmiss. apply NoDup_cons in Hnd as [Hnc Hnd].
  destruct (Htr cur (list_elem_of_here _ _)) as (Hrdy & Hwf & Hnr & Hnq).
  destruct (ReadyTransactions.ready_add_spec _ cur (pi_ready p Hp) Hwf Hrdy) as (res & r' & Hadd & Hi & Hres).
  { apply bool_decide_eq_false. rewrite Hnr. by intros [? ?]. }
  { done. }
  exists res, r'. split; [done|]. cbv zeta. destruct res as [removed|e].
  - split_and!; [| |done].
    + split; simpl; [done|apply Hp|..].
      * intros h [->|Hs]%(added_ready _ _ _ _ _ Hres); [done|by apply (pi_disjoint p Hp)].
      * apply (pi_wf p Hp).
      * intros h tx m Hq Hin. destruct (pi_missing p Hp h tx m Hq Hin) as [Hreq Hnone]. split; [done|].
        destruct (ReadyTransactions.provided_markers r' !! m) as [x|] eqn:Hx; [|done]. exfalso.
        apply (ReadyTransactions.iv_provided _ _ Hi) in Hx as [[->|Hs]%(added_ready _ _ _ _ _ Hres) <-].
        -- by apply (Hmiss h tx Hq).
        -- assert (ReadyTransactions.provided_markers (ready_transactions p) !! own x = Some x)
             by (by apply (ReadyTransactions.iv_provided _ _ (pi_ready p Hp))). congruence.
    + split; [done|]. intros tx Htx. destruct (Htr tx) as (? & ? & Hn & ?); [by right|]. split_and!; [done|done| |done].
      apply eq_None_not_Some. simpl. intros [He|Hs]%(added_ready _ _ _ _ _ Hres).
      * apply Hnc. apply list_elem_of_fmap. exists tx. split; [|done]. by symmetry.
      * rewrite Hn in Hs. by destruct Hs.
  - destruct Hres as (He & -> & Hold). destruct p as [r pd]. split_and!; [done| |done..].
    split; [done|]. intros tx Htx. apply Htr. by right.
Qed.

(** One turn of the loop of [add_ready_transaction]. *)
Lemma turn p cur q :
  pool_inv p -> in_transit p (cur :: q) -> budget p (length (cur :: q)) ->
  exists pending unlocked res r',
    PendingTransactions.mark_and_unlock (pending_transactions p) (PendingPoolTransaction.provides cur) = Ret (pending, unlocked) /\
    ReadyTransactions.add_transaction (ready_transactions p) cur = Ret (res, r') /\
    let p' := mk r' pending in
    pool_inv p' /\ in_transit p' (q ++ unlocked) /\
    (forall n, budget p (length (cur :: q) + n) -> budget p' (length (q ++ unlocked) + n)) /\
    (PendingTransactions.len pending + length unlocked <= PendingTransactions.len (pending_transactions p))%nat /\
    (forall tx, tx ∈ unlocked -> requires_of (PendingPoolTransaction.hash tx) = [own (PendingPoolTransaction.hash cur)]) /\
    (forall h, is_Some (queue_of p !! h) <-> is_Some (queue_of p' !! h) \/ h ∈ PendingPoolTransaction.hash <$> unlocked) /\
    match res with
    | Err e => e = ReplacementUnderpriced (PendingPoolTransaction.transaction cur) /\ r' = ready_transactions p /\
        exists h old, ready_of p !! h = Some old /\ own h = own (PendingPoolTransaction.hash cur) /\
          PoolTransaction.gas_price (PendingPoolTransaction.transaction cur) <= ReadyTransaction.gas_price old
    | Ok removed =>
        ReadyTransactions.added (PendingPoolTransaction.transaction cur) (ready_transactions p) r' removed
    end.
Proof.
  intros Hp Ht Hb. destruct (tr_tx _ _ Ht cur (list_elem_of_here _ _)) as (_ & [Hprov _] & _).
  unfold PendingPoolTransaction.provides. rewrite Hprov.
  destruct (mark_step p (cur :: q) (own (PendingPoolTransaction.hash cur)) Hp Ht)
    as (pending & unlocked & Hm & Hp1 & Ht1 & Hlen & Hmiss & Hreq & Hkeep).
  destruct (ready_step (mk (ready_transactions p) pending) cur (q ++ unlocked) Hp1 Ht1) as (res & r' & Ha & Hp2 & Ht2 & Hres).
  { simpl. unfold budget in Hb. simpl in Hb. lia. }
  { done. }
  exists pending, unlocked, res, r'. split_and!; try done.
  - clear Hb. intros n Hb. unfold budget in *. simpl in *. rewrite length_app. destruct res.
    + rewrite (ReadyTransactions.ad_id _ _ _ _ Hres). lia.
    + destruct Hres as (_ & [= ->] & _). lia.
  - destruct res; [done|]. destruct Hres as (? & [= ->] & ?). done.
Qed.

Definition pooled (p : PoolInner.t) (h : TxHash) : Prop := is_Some (ready_of p !! h) \/ is_Some (queue_of p !! h).

(** The transactions an addition reports as replaced or discarded. *)
Definition dropped (a : AddedReady.t) (h : TxHash) : Prop :=
  h ∈ PoolTransaction.hash <$> AddedReady.removed a \/ h ∈ AddedReady.discarded a.

(** What the loop does to a pool with [q] in transit, all of a rank above
    [k]: transactions up to rank [k] are not touched, no transaction is
    dropped without being reported, and none comes from elsewhere. *)
Record loop_outcome (k : nat) (p : PoolInner.t) (q : list PendingPoolTransaction.t) (acc : AddedReady.t)
    (p' : PoolInner.t) (acc' : AddedReady.t) : Prop := {
  lo_hash : AddedReady.hash acc' = AddedReady.hash acc;
  lo_removed t : t ∈ AddedReady.removed acc' ->
    t ∈ AddedReady.removed acc \/ (k < rank (own (PoolTransaction.hash t)))%nat;
  lo_kept h : (rank (own h) <= k)%nat ->
    ReadyTransaction.pool_tx <$> ready_of p' !! h = ReadyTransaction.pool_tx <$> ready_of p !! h;
  lo_conserved h : pooled p h \/ h ∈ PendingPoolTransaction.hash <$> q \/ dropped acc h ->
    pooled p' h \/ dropped acc' h;
  lo_origin h : pooled p' h -> pooled p h \/ h ∈ PendingPoolTransaction.hash <$> q;
  lo_budget n : budget p (length q + n) -> budget p' n }.

Lemma loop_outcome_refl k p acc : loop_outcome k p [] acc p acc.
Proof.
  split; try done; [by left|by intros h [?|[?%elem_of_nil|?]]; [left|done|right]|by left].
Qed.

(** Where the ready transactions go when one is added. *)
Lemma added_conserved todo tx r r' removed x :
  ReadyTransactions.inv_but todo r -> ReadyTransactions.added tx r r' removed ->
  is_Some (ReadyTransactions.ready_tx r !! x) \/ x = PoolTransaction.hash tx ->
  is_Some (ReadyTransactions.ready_tx r' !! x) \/ x ∈ PoolTransaction.hash <$> removed.
Proof.
  intros Hi [_ Hr Hrem _] Hx. specialize (Hr x). case_decide as Hxt.
  { left. apply fmap_Some in Hr as (? & ? & _). by eauto. }
  destruct Hx as [[rtx Hx]|?]; [|done]. case_decide as Hown.
  - right. apply list_elem_of_fmap. exists (ReadyTransaction.pool_tx rtx). split.
    + by destruct (ReadyTransactions.iv_tx _ _ Hi _ _ Hx) as [<- _].
    + apply Hrem. by exists x, rtx.
  - left. rewrite Hx in Hr. simpl in Hr. apply fmap_Some in Hr as (? & ? & _). by eauto.
Qed.

(** One turn composed with the rest of the loop. *)
Lemma loop_outcome_turn k p cur q pending unlocked (res : result (list PoolTransaction.t) PoolError) r' acc acc1 p' acc' :
  pool_inv p -> pool_inv (mk r' pending) -> (k < rank (own (PendingPoolTransaction.hash cur)))%nat ->
  (forall h, is_Some (queue_of p !! h) <->
     is_Some (PendingTransactions.waiting_queue pending !! h) \/ h ∈ PendingPoolTransaction.hash <$> unlocked) ->
  (forall n, budget p (length (cur :: q) + n) -> budget (mk r' pending) (length (q ++ unlocked) + n)) ->
  AddedReady.hash acc1 = AddedReady.hash acc ->
  match res with
  | Err e => r' = ready_transactions p /\
      AddedReady.removed acc1 = AddedReady.removed acc /\
      AddedReady.discarded acc1 = AddedReady.discarded acc ++ [PendingPoolTransaction.hash cur]
  | Ok removed =>
      ReadyTransactions.added (PendingPoolTransaction.transaction cur) (ready_transactions p) r' removed /\
      AddedReady.removed acc1 = AddedReady.removed acc ++ removed /\
      AddedReady.discarded acc1 = AddedReady.discarded acc
  end ->
  loop_outcome k (mk r' pending) (q ++ unlocked) acc1 p' acc' ->
  loop_outcome k p (cur :: q) acc p' acc'.
Proof.
  intros Hp Hp1 Hk Hfwd Hb Hh Hres [L1 L2 L3 L4 L5 L6].
  set (c := PendingPoolTransaction.hash cur) in *.
  split.
  - congruence.
  - intros t Ht. apply L2 in Ht as [Ht|?]; [|by right]. destruct res as [removed|e].
    + destruct Hres as (Ha & Hr & _). rewrite Hr in Ht. apply elem_of_app in Ht as [?|Ht]; [by left|right].
      apply (ReadyTransactions.ad_removed _ _ _ _ Ha) in Ht as (x & old & Hx & Ho & <-).
      destruct (ReadyTransactions.iv_tx _ _ (pi_ready p Hp) _ _ Hx) as [Hxh _].
      unfold PoolTransactionRef.hash in Hxh. fold (ReadyTransaction.pool_tx old) in Hxh.
      rewrite Hxh, Ho. exact Hk.
    + destruct Hres as (_ & Hr & _). rewrite Hr in Ht. by left.
  - intros h Hr. rewrite (L3 h Hr). simpl. destruct res as [removed|e]; [|by destruct Hres as [-> _]].
    destruct Hres as ([_ Ha _ _] & _). rewrite (Ha h). fold c. change (PoolTransaction.hash _) with c.
    rewrite decide_False by (intros ->; lia). rewrite decide_False; [done|]. intros He. rewrite He in Hr. lia.
  - intros h Hin. apply L4. unfold pooled. simpl.
    assert ((pooled p h \/ h = c) \/ h ∈ PendingPoolTransaction.hash <$> q \/ dropped acc h) as [Hc|[?|Hd]].
    { destruct Hin as [?|[[->|?]%elem_of_cons|?]]; auto. }
    2: { right. left. rewrite fmap_app, elem_of_app. by left. }
    2: { right. right. unfold dropped in *. destruct res as [removed|e]; destruct Hres as (_ & -> & ->).
         - rewrite fmap_app, elem_of_app. tauto.
         - rewrite elem_of_app. tauto. }
    assert (h ∈ PendingPoolTransaction.hash <$> unlocked -> h ∈ PendingPoolTransaction.hash <$> (q ++ unlocked)) as Hun.
    { rewrite fmap_app, elem_of_app. by right. }
    destruct res as [removed|e].
    + destruct Hres as (Ha & Hr & _). destruct Hc as [[Hs|[Hs|?]%Hfwd]|Hhc]; [|by auto..|];
        (destruct (added_conserved _ _ _ _ _ h (pi_ready p Hp) Ha) as [?|Hrm]; [by auto|by auto|]);
        right; right; left; rewrite Hr, fmap_app, elem_of_app; by right.
    + destruct Hres as (-> & _ & Hd). destruct Hc as [[Hs|[Hs|?]%Hfwd]| ->]; [by auto..|].
      right. right. right. rewrite Hd, elem_of_app, list_elem_of_singleton. by right.
  - intros h Hh'. rewrite fmap_cons, elem_of_cons. apply L5 in Hh' as [[Hs|Hs]|Hs]; simpl in *.
    + destruct res as [removed|e]; [|left; left; by destruct Hres as [<- _]]. destruct Hres as [Ha _].
      destruct (added_ready _ _ _ _ _ Ha Hs) as [->|?]; [right; by left|left; by left].
    + left. right. apply Hfwd. by left.
    + rewrite fmap_app, elem_of_app in Hs. destruct Hs as [?|?]; [by auto|]. left. right. apply Hfwd. by right.
  - intros n Hn. by apply L6, Hb.
Qed.

Lemma loop_spec k n : forall p q acc,
  pool_inv p -> in_transit p q -> budget p (length q) ->
  (length q + PendingTransactions.len (pending_transactions p) <= n)%nat ->
  (forall tx, tx ∈ q -> (k < rank (own (PendingPoolTransaction.hash tx)))%nat) ->
  exists p' acc', add_ready_loop n p q false acc = Ret (Ok acc', p') /\ pool_inv p' /\
    loop_outcome k p q acc p' acc'.
Proof.
  induction n as [|n IH]; intros p [|cur q] acc Hp Ht Hb Hn Hk.
  1, 3: exists p, acc; split_and!; [done..|apply loop_outcome_refl].
  { simpl in Hn. lia. }
  cbn [add_ready_loop].
  destruct (turn p cur q Hp Ht Hb) as (pd & un & res & r' & -> & Hadd & Hp1 & Ht1 & Hb1 & Hlen & Hreq & Hfwd & Hres).
  assert ((k < rank (own (PendingPoolTransaction.hash cur)))%nat) as Hkc by (apply Hk; by left).
  assert (forall tx, tx ∈ q ++ un -> (k < rank (own (PendingPoolTransaction.hash tx)))%nat) as Hk1.
  { intros tx [?|Htx]%elem_of_app; [apply Hk; by right|]. specialize (Hreq tx Htx).
    destruct (requires_rank (PendingPoolTransaction.hash tx)) as [Hq|(m & Hq & Hlt)]; rewrite Hreq in Hq; simplify_eq. lia. }
  assert (budget (mk r' pd) (length (q ++ un))) as Hb2.
  { specialize (Hb1 0%nat). rewrite !Nat.add_0_r in Hb1. by apply Hb1. }
  assert ((length (q ++ un) + PendingTransactions.len pd <= n)%nat) as Hn1.
  { rewrite length_app. simpl in Hn. lia. }
  cbn. rewrite Hadd. cbn. destruct res as [removed|e].
  - set (acc1 := AddedReady.mk _ _ _ _). destruct (IH (mk r' pd) (q ++ un) acc1 Hp1 Ht1 Hb2 Hn1 Hk1) as (p' & acc' & -> & Hp' & Hl).
    exists p', acc'. split_and!; [done..|]. by apply (loop_outcome_turn k p cur q pd un (Ok removed) r' acc acc1).
  - set (acc1 := AddedReady.mk _ _ _ _). destruct (IH (mk r' pd) (q ++ un) acc1 Hp1 Ht1 Hb2 Hn1 Hk1) as (p' & acc' & -> & Hp' & Hl).
    exists p', acc'. split_and!; [done..|]. destruct Hres as (_ & Hr & _).
    by apply (loop_outcome_turn k p cur q pd un (Err e) r' acc acc1).
Qed.

(** Nothing waits for a marker that is provided, so checking it off again
    changes nothing. *)
Lemma mark_unmissed p m :
  pool_inv p -> (forall h tx, queue_of p !! h = Some tx -> m ∉ PendingPoolTransaction.missing_markers tx) ->
  PendingTransactions.mark_and_unlock (pending_transactions p) [m] = Ret (pending_transactions p, []).
Proof.
  intros Hp Hm. unfold PendingTransactions.mark_and_unlock. simpl.
  destruct (PendingTransactions.required_markers (pending_transactions p) !! m) as [s|] eqn:Hs; [|done]. exfalso.
  assert (s <> ∅) as Hne by (intros ->; by apply (PendingTransactions.inv_required_ne _ (pi_pending p Hp) m)).
  apply set_choose_L in Hne as [h Hh].
  pose proof (proj1 (PendingTransactions.inv_required _ (pi_pending p Hp) m h)) as Hi. rewrite Hs in Hi.
  destruct (Hi Hh) as (tx & Htx & Hin). by apply (Hm _ _ Htx).
Qed.

Lemma mark_provided p m :
  pool_inv p -> is_Some (ReadyTransactions.provided_markers (ready_transactions p) !! m) ->
  PendingTransactions.mark_and_unlock (pending_transactions p) [m] = Ret (pending_transactions p, []).
Proof.
  intros Hp [x Hm]. apply (mark_unmissed p m Hp). intros h tx Htx Hin. destruct (pi_missing p Hp _ _ _ Htx Hin). congruence.
Qed.

(** What [add_ready_transaction] does: the transaction is refused because it
    is underpriced, and nothing changes; or it is ready afterwards.  The
    cyclic case never occurs. *)
Lemma add_ready_transaction_spec p tx :
  pool_inv p -> in_transit p [tx] -> budget p 1 ->
  exists res p', add_ready_transaction p tx = Ret (res, p') /\ pool_inv p' /\
    (forall h, pooled p' h -> pooled p h \/ h = PendingPoolTransaction.hash tx) /\
    (forall n, budget p (S n) -> budget p' n) /\
    match res with
    | Ok (AddedReadyTx a) =>
        AddedReady.hash a = PendingPoolTransaction.hash tx /\
        ReadyTransaction.pool_tx <$> ready_of p' !! PendingPoolTransaction.hash tx =
          Some (PendingPoolTransaction.transaction tx) /\
        (forall h, pooled p h -> pooled p' h \/ dropped a h)
    | Ok (AddedPendingTx _) => False
    | Err e => e = ReplacementUnderpriced (PendingPoolTransaction.transaction tx) /\ p' = p /\
        exists h old, ready_of p !! h = Some old /\ own h = own (PendingPoolTransaction.hash tx) /\
          PoolTransaction.gas_price (PendingPoolTransaction.transaction tx) <= ReadyTransaction.gas_price old
    end.
Proof.
  intros Hp Ht Hb. set (c := PendingPoolTransaction.hash tx).
  destruct (tr_tx _ _ Ht tx (list_elem_of_here _ _)) as (_ & [Hprov _] & Hnr & _). fold c in Hnr.
  destruct (turn p tx [] Hp Ht Hb) as (pd & un & res & r' & Hm & Hadd & Hp1 & Ht1 & Hb1 & Hlen & Hreq & Hfwd & Hres).
  unfold add_ready_transaction. cbn [add_ready_loop]. rewrite Hm. cbn. rewrite Hadd. cbn. fold c. destruct res as [removed|e].
  - destruct (loop_spec (rank (own c)) (PendingTransactions.len (pending_transactions p)) (mk r' pd) un
      (AddedReady.mk c [] [] removed) Hp1 Ht1) as (p' & acc' & -> & Hp' & [L1 L2 L3 L4 L5 L6]).
    { specialize (Hb1 0%nat). rewrite !Nat.add_0_r in Hb1. by apply Hb1. }
    { simpl. lia. }
    { intros u Hu. specialize (Hreq u Hu). fold c in Hreq.
      destruct (requires_rank (PendingPoolTransaction.hash u)) as [Hq|(m & Hq & Hlt)]; rewrite Hreq in Hq; by simplify_eq. }
    cbn. assert (existsb (fun t => PoolTransaction.hash t =? c) (AddedReady.removed acc') = false) as ->.
    { apply not_true_iff_false. rewrite existsb_exists. intros (t & Hin%list_elem_of_In & He%Z.eqb_eq).
      apply L2 in Hin as [Hin|Hk]; [|rewrite He in Hk; lia]. simpl in Hin.
      apply (ReadyTransactions.ad_removed _ _ _ _ Hres) in Hin as (x & old & Hx & _ & <-).
      destruct (ReadyTransactions.iv_tx _ _ (pi_ready p Hp) _ _ Hx) as [Hxh _].
      assert (x = c) as -> by (by rewrite <- Hxh, <- He). congruence. }
    assert (ReadyTransaction.pool_tx <$> ready_of (mk r' pd) !! c = Some (PendingPoolTransaction.transaction tx)) as Hc.
    { simpl. rewrite (ReadyTransactions.ad_ready _ _ _ _ Hres). by rewrite decide_True. }
    eexists _, p'. split; [done|]. split_and!; [done| | |done| |].
    + intros h Hh. apply L5 in Hh as [[Hs|Hs]|Hs]; simpl in Hs.
      * destruct (added_ready _ _ _ _ _ Hres Hs) as [->|?]; [by right|left; by left].
      * left. right. apply Hfwd. by left.
      * left. right. apply Hfwd. by right.
    + intros n Hn. by apply L6, Hb1.
    + by rewrite L3.
    + intros h Hh. apply L4. simpl. destruct Hh as [Hs|[Hs|?]%Hfwd].
      * destruct (added_conserved _ _ _ _ _ h (pi_ready p Hp) Hres) as [?|?]; [by left|left; by left|].
        right. right. by left.
      * left. by right.
      * by auto.
  - destruct Hres as (-> & -> & Hold). pose proof Hold as (h & old & Hh & Ho & _).
    unfold PendingPoolTransaction.provides in Hm. rewrite Hprov in Hm. rewrite mark_provided in Hm; [|done|].
    2: { exists h. apply (ReadyTransactions.iv_provided _ _ (pi_ready p Hp)). split; [by eauto|done]. }
    injection Hm as <- <-. eexists _, p. destruct p as [r pd]. split; [done|]. split_and!; [done|by left| |done..].
    intros n Hn. unfold budget in *. simpl in *. lia.
Qed.

(** ** add_transaction *)
Lemma requires_singleton h m : m ∈ requires_of h -> requires_of h = [m].
Proof.
  destruct (requires_rank h) as [->|(q & -> & _)]; [by intros ?%elem_of_nil|]. by intros ->%list_elem_of_singleton.
Qed.

Lemma not_contains p h : contains p h = false -> ready_of p !! h = None /\ queue_of p !! h = None.
Proof.
  unfold contains, PendingTransactions.contains, ReadyTransactions.contains.
  intros [H1%bool_decide_eq_false H2%bool_decide_eq_false]%orb_false_iff. by split; apply eq_None_not_Some.
Qed.

Lemma pool_inv_insert p now tx pending :
  pool_inv p -> wf_tx tx -> ready_of p !! PoolTransaction.hash tx = None ->
  PendingTransactions.inv pending ->
  PendingTransactions.waiting_queue pending =
    <[PoolTransaction.hash tx :=
        PendingPoolTransaction.new now tx (ReadyTransactions.provided_markers (ready_transactions p))]> (queue_of p) ->
  pool_inv (mk (ready_transactions p) pending).
Proof.
  intros Hp Hwf Hnr Hi Hq. pose proof Hwf as (_ & Hreq & _). split; simpl; [apply Hp|done|..]; rewrite Hq.
  - intros h Hs. rewrite lookup_insert_ne; [by apply (pi_disjoint p Hp)|]. intros <-. rewrite Hnr in Hs. by destruct Hs.
  - intros h u. rewrite lookup_insert_Some. intros [[<- <-]|[_ ?]]; [done|by eapply pi_wf].
  - intros h u m. rewrite lookup_insert_Some. intros [[<- <-]|[_ ?]]; [|by eapply pi_missing].
    rewrite PendingPoolTransaction.elem_of_new_missing, Hreq. intros [? ?]. split; [by apply requires_singleton|done].
Qed.

(** The pool has a transaction that provides the same markers and pays at least
    as much, or more if it waits itself. *)
Definition outpriced (p : PoolInner.t) (tx : PoolTransaction.t) : Prop :=
  (exists h old, ready_of p !! h = Some old /\ ReadyTransaction.provides old = PoolTransaction.provides tx /\
     PoolTransaction.gas_price tx <= ReadyTransaction.gas_price old) \/
  (exists h old, queue_of p !! h = Some old /\ PendingPoolTransaction.provides old = PoolTransaction.provides tx /\
     PoolTransaction.gas_price tx < PoolTransaction.gas_price (PendingPoolTransaction.transaction old)).

(** [add_transaction]: already known; refused as underpriced; waiting for a
    marker that is not provided; or ready. *)
Lemma add_transaction_spec now p tx :
  pool_inv p -> wf_tx tx -> budget p 1 ->
  exists res p', add_transaction now p tx = Ret (res, p') /\ pool_inv p' /\
    (forall h, pooled p' h -> pooled p h \/ h = PoolTransaction.hash tx) /\
    match res with
    | Err (AlreadyImported t) => t = tx /\ p' = p /\ pooled p (PoolTransaction.hash tx)
    | Err (ReplacementUnderpriced t) => t = tx /\ p' = p /\ outpriced p tx
    | Err CyclicTransaction => False
    | Ok (AddedPendingTx h) => h = PoolTransaction.hash tx /\
        ready_transactions p' = ready_transactions p /\
        queue_of p' = <[h := PendingPoolTransaction.new now tx
                               (ReadyTransactions.provided_markers (ready_transactions p))]> (queue_of p)
    | Ok (AddedReadyTx a) => AddedReady.hash a = PoolTransaction.hash tx /\
        ReadyTransaction.pool_tx <$> ready_of p' !! PoolTransaction.hash tx = Some tx /\
        (forall h, pooled p h -> pooled p' h \/ dropped a h)
    end.
Proof.
  intros Hp Hwf Hb. unfold add_transaction. destruct (contains p (PoolTransaction.hash tx)) eqn:Hc.
  { eexists _, _. split; [done|]. split_and!; [done|by left|done..|]. unfold contains in Hc.
    apply orb_true_iff in Hc as [Hc%bool_decide_eq_true|Hc%bool_decide_eq_true]; [by right|by left]. }
  pose proof (not_contains _ _ Hc) as [Hnr Hnq].
  set (u := PendingPoolTransaction.new now tx _).
  destruct (PendingPoolTransaction.is_ready u) eqn:Hrdy; simpl.
  - destruct (add_ready_transaction_spec p u Hp) as (res & p' & -> & Hp' & Ho & _ & Hres); [|done|].
    + split; [apply NoDup_singleton|]. intros x ->%list_elem_of_singleton. done.
    + exists res, p'. split_and!; [done..|]. destruct res as [[a|h]|e]; [done|done|].
      destruct Hres as (-> & -> & h & old & Hh & Hown & Hpr). split_and!; [done..|]. left. exists h, old. split_and!; [done| |done].
      unfold ReadyTransaction.provides. rewrite (proj1 Hwf). destruct (ReadyTransactions.iv_tx _ _ (pi_ready p Hp) _ _ Hh) as [Hx [-> _]].
      change (PoolTransaction.hash (ReadyTransaction.pool_tx old)) with (PoolTransactionRef.hash (ReadyTransaction.transaction old)).
      by rewrite Hx, Hown.
  - destruct (PendingTransactions.pending_add_spec (pending_transactions p) u (pi_pending p Hp) Hrdy)
      as (res & pd & -> & Hi & Hres).
    { apply bool_decide_eq_false. change (PendingPoolTransaction.hash u) with (PoolTransaction.hash tx).
      rewrite Hnq. by intros [? ?]. }
    cbn. destruct res as [[]|e]; eexists _, _; (split; [done|]).
    + split_and!; [by apply (pool_inv_insert p now tx)| |done..]. unfold pooled. cbn. rewrite Hres.
      intros h. rewrite lookup_insert_is_Some'. intros [?|[<-|?]]; auto.
    + destruct Hres as (-> & -> & Hold). destruct p. split_and!; [done|by left|done..|]. by right.
Qed.

(** What is ready in [r'] is ready in [r], as the same transaction. *)
Definition kept_from (r r' : ReadyTransactions.t) : Prop :=
  forall h t, ReadyTransaction.pool_tx <$> ReadyTransactions.ready_tx r' !! h = Some t ->
    ReadyTransaction.pool_tx <$> ReadyTransactions.ready_tx r !! h = Some t.

#[local] Instance kept_from_preorder : PreOrder kept_from.
Proof. split; [by intros r h t|]. intros r1 r2 r3 H12 H23 h t Ht. by apply H12, H23. Qed.
Lemma kept_from_ready r r' h :
  kept_from r r' -> is_Some (ReadyTransactions.ready_tx r' !! h) -> is_Some (ReadyTransactions.ready_tx r !! h).
Proof.
  intros Hk [tx Hh]. specialize (Hk h). rewrite Hh in Hk. specialize (Hk _ eq_refl).
  apply fmap_Some in Hk as (? & ? & _). by eauto.
Qed.

(** ** prune_markers *)
Lemma pruned_kept ms r r' removed : ReadyTransactions.pruned ms r r' removed -> kept_from r r'.
Proof.
  intros Hpr h t (tx & Hh & ->)%fmap_Some. destruct (ReadyTransactions.pr_kept _ _ _ _ Hpr h) as [He|He]; [|congruence].
  rewrite Hh in He. symmetry in He. apply fmap_Some in He as (tx' & -> & He). simpl. unfold ReadyTransaction.pool_tx. by rewrite He.
Qed.
Lemma pruned_ready_subset ms r r' removed h :
  ReadyTransactions.pruned ms r r' removed -> is_Some (ReadyTransactions.ready_tx r' !! h) ->
  is_Some (ReadyTransactions.ready_tx r !! h).
Proof. intros Hpr. by eapply kept_from_ready, pruned_kept. Qed.

Lemma pool_inv_prune p m r' removed :
  pool_inv p -> ReadyTransactions.inv r' -> ReadyTransactions.pruned m (ready_transactions p) r' removed ->
  pool_inv (mk r' (pending_transactions p)).
Proof.
  intros Hp Hi Hpr. pose proof (fun h => pruned_ready_subset _ _ _ _ h Hpr) as Hsub.
  split; simpl; [done|apply Hp| |apply (pi_wf p Hp)|].
  - intros h Hs. by apply (pi_disjoint p Hp), Hsub.
  - intros h tx m' Hq Hin. destruct (pi_missing p Hp _ _ _ Hq Hin) as [? Hn]. split; [done|].
    destruct (ReadyTransactions.provided_markers r' !! m') as [x|] eqn:Hx; [|done].
    apply (ReadyTransactions.iv_provided _ _ Hi) in Hx as [Hs%Hsub <-].
    assert (ReadyTransactions.provided_markers (ready_transactions p) !! own x = Some x)
      by (by apply (ReadyTransactions.iv_provided _ _ (pi_ready p Hp))). congruence.
Qed.

(** The state of [prune_markers] from [p0] when the markers [todo] are left
    of [ms]. *)
Record pruning (p0 : PoolInner.t) (ms todo : list TxMarker) (p : PoolInner.t)
    (imports : list PendingPoolTransaction.t) : Prop := {
  pn_inv : pool_inv p;
  pn_transit : in_transit p imports;
  pn_budget : budget p (length imports);
  pn_ready h : is_Some (ready_of p !! h) -> is_Some (ready_of p0 !! h);
  pn_queue h : is_Some (queue_of p !! h) \/ h ∈ PendingPoolTransaction.hash <$> imports -> is_Some (queue_of p0 !! h);
  pn_gone h : own h ∈ ms -> own h ∉ todo -> ready_of p !! h = None }.

Lemma prune_marker_spec p0 ms m todo p imports pruned :
  pruning p0 ms (m :: todo) p imports ->
  exists p' imports' pruned', prune_marker (p, imports, pruned) m = Ret (p', imports', pruned') /\
    pruning p0 ms todo p' imports'.
Proof.
  intros [Hp Ht Hb Hr Hq Hg].
  destruct (mark_step p imports m Hp Ht) as (pd & un & Hm & Hp1 & Ht1 & Hlen & _ & _ & Hkeep).
  destruct (ReadyTransactions.prune_tags_spec (ready_transactions p) m (pi_ready p Hp)) as (r' & rem & Hpt & Hi & Hpr).
  unfold prune_marker. rewrite Hm. cbn. rewrite Hpt. cbn. eexists _, _, _. split; [done|].
  pose proof (pool_inv_prune _ [m] r' rem Hp1 Hi Hpr) as Hp2. simpl in Hp2. split; simpl.
  - done.
  - split; [apply Ht1|]. intros tx Htx. destruct (tr_tx _ _ Ht1 tx Htx) as (? & ? & Hn & ?). split_and!; [done..| |done].
    simpl. apply eq_None_not_Some. intros Hs%(pruned_ready_subset _ _ _ _ _ Hpr). simpl in Hn. rewrite Hn in Hs. by destruct Hs.
  - unfold budget in *. simpl in *. rewrite (ReadyTransactions.pr_id _ _ _ _ Hpr), length_app. lia.
  - intros h Hs%(pruned_ready_subset _ _ _ _ _ Hpr). by apply Hr.
  - intros h. rewrite fmap_app, elem_of_app. intros [Hs|[Hs|Hs]]; apply Hq; [left|by right|left]; apply Hkeep; by auto.
  - intros h Hin Hni. destruct (decide (own h = m)) as [He|Hne].
    + apply (ReadyTransactions.pr_gone _ _ _ _ Hpr). rewrite He. by left.
    + apply eq_None_not_Some. intros Hs%(pruned_ready_subset _ _ _ _ _ Hpr).
      rewrite Hg in Hs; [by destruct Hs|done|]. by intros [?|?]%elem_of_cons.
Qed.

Lemma import_spec p tx rest promoted failed :
  pool_inv p -> in_transit p (tx :: rest) -> budget p (length (tx :: rest)) ->
  exists p' promoted' failed', import (p, promoted, failed) tx = Ret (p', promoted', failed') /\
    pool_inv p' /\ in_transit p' rest /\ budget p' (length rest) /\
    (forall h, pooled p' h -> pooled p h \/ h = PendingPoolTransaction.hash tx).
Proof.
  intros Hp [Hnd Htr] Hb. apply NoDup_cons in Hnd as [Hnc Hnd].
  destruct (add_ready_transaction_spec p tx Hp) as (res & p' & Ha & Hp' & Ho & Hb' & _).
  { split; [apply NoDup_singleton|]. intros x ->%list_elem_of_singleton. apply Htr. by left. }
  { unfold budget in *. simpl in *. lia. }
  assert (in_transit p' rest) as Ht'.
  { split; [done|]. intros x Hx. destruct (Htr x ltac:(by right)) as (? & ? & Hn1 & Hn2).
    assert (~ pooled p' (PendingPoolTransaction.hash x)) as Hn.
    { intros [[[? ?]|[? ?]]|He]%Ho; [congruence..|]. apply Hnc. rewrite <- He. apply list_elem_of_fmap. by exists x. }
    split_and!; [done..| |]; apply eq_None_not_Some; intros Hs; apply Hn; [by left|by right]. }
  unfold import. rewrite Ha. cbn. destruct res as [a|e]; eexists _, _, _; split; try done; split_and!; by auto.
Qed.

Lemma imports_spec imports : forall p promoted failed,
  pool_inv p -> in_transit p imports -> budget p (length imports) ->
  exists p' promoted' failed', foldM import (p, promoted, failed) imports = Ret (p', promoted', failed') /\
    pool_inv p' /\ (forall h, pooled p' h -> pooled p h \/ h ∈ PendingPoolTransaction.hash <$> imports) /\ budget p' 0.
Proof.
  induction imports as [|tx rest IH]; intros p pr fl Hp Ht Hb; cbn [foldM].
  { eexists _, _, _. split; [done|]. split; [done|]. split; [by left|done]. }
  destruct (import_spec p tx rest pr fl Hp Ht Hb) as (p1 & pr1 & fl1 & -> & Hp1 & Ht1 & Hb1 & Ho1). cbn.
  destruct (IH p1 pr1 fl1 Hp1 Ht1 Hb1) as (p2 & pr2 & fl2 & -> & Hp2 & Ho2 & Hb2).
  eexists _, _, _. split; [done|]. split; [done|]. split; [|done].
  intros h [[?| ->]%Ho1|?]%Ho2; [by left|..]; right.
  - by left.
  - by right.
Qed.

(** [prune_markers]: every transaction that was ready with one of the markers
    is out of the pool, and nothing comes in from elsewhere. *)
Lemma prune_markers_spec p ms :
  pool_inv p -> budget p 0 ->
  exists res p', prune_markers p ms = Ret (res, p') /\ pool_inv p' /\
    (forall h, pooled p' h -> pooled p h) /\
    (forall h, is_Some (ready_of p !! h) -> own h ∈ ms -> ~ pooled p' h) /\ budget p' 0.
Proof.
  intros Hp Hb. unfold prune_markers.
  destruct (foldM_inv (fun todo (st : PoolInner.t * list PendingPoolTransaction.t * list PoolTransaction.t) =>
      pruning p ms todo (fst (fst st)) (snd (fst st))) prune_marker ms (p, [], [])) as ([[p1 imports] pruned] & -> & Hpn).
  - intros m todo [[q imports] pruned] Hpn.
    destruct (prune_marker_spec p ms m todo q imports pruned Hpn) as (q' & i' & r' & -> & Hpn'). by eexists.
  - split; simpl; [done| |done|done| |].
    + split; [constructor|]. intros tx ?%elem_of_nil. done.
    + intros h [?|?%elem_of_nil]; done.
    + done.
  - simpl in Hpn. destruct Hpn as [Hp1 Ht1 Hb1 Hr1 Hq1 Hg1].
    cbn. destruct (imports_spec imports p1 [] [] Hp1 Ht1 Hb1) as (p2 & pr & fl & -> & Hp2 & Ho & Hb2). cbn.
    eexists _, _. split; [done|]. split_and!; [done|..|done].
    + intros h [[?|?]|?]%Ho; [left; by apply Hr1|right; apply Hq1; by left|right; apply Hq1; by right].
    + intros h Hs Hin Hc. assert (queue_of p !! h = None) as Hn by (by apply (pi_disjoint p Hp)).
      assert (~ is_Some (queue_of p !! h)) as Hn' by (rewrite Hn; by intros [? ?]).
      apply Ho in Hc as [[Hc|Hc]|Hc]; [|apply Hn', Hq1; by left|apply Hn', Hq1; by right].
      rewrite Hg1 in Hc; [by destruct Hc|done|]. apply not_elem_of_nil.
Qed.

(** Pruning markers that no pending transaction waits for promotes nothing. *)
Lemma prune_unmissed ms : forall p acc,
  pool_inv p ->
  (forall m h tx, m ∈ ms -> queue_of p !! h = Some tx -> m ∉ PendingPoolTransaction.missing_markers tx) ->
  exists r' acc', foldM prune_marker (p, [], acc) ms = Ret (mk r' (pending_transactions p), [], acc') /\
    kept_from (ready_transactions p) r'.
Proof.
  induction ms as [|m ms IH]; intros p acc Hp Hm; cbn [foldM].
  { exists (ready_transactions p), acc. by destruct p. }
  destruct (ReadyTransactions.prune_tags_spec (ready_transactions p) m (pi_ready p Hp)) as (r1 & rem & Hpt & Hi & Hpr).
  assert (prune_marker (p, [], acc) m = Ret (mk r1 (pending_transactions p), [], acc ++ rem)) as ->.
  { unfold prune_marker. rewrite (mark_unmissed p m Hp) by (intros h tx Htx; apply (Hm m h tx); [by left|done]).
    cbn. by rewrite Hpt. }
  cbn. pose proof (pool_inv_prune _ [m] r1 rem Hp Hi Hpr) as Hp1.
  destruct (IH (mk r1 (pending_transactions p)) (acc ++ rem) Hp1) as (r' & acc' & -> & Hsub).
  { intros m' h tx Hin. apply Hm. by right. }
  exists r', acc'. split; [done|]. etransitivity; [by eapply pruned_kept|done].
Qed.

(** ** remove_invalid and drop_transaction *)
Lemma cleared_kept hs r r' removed : ReadyTransactions.cleared hs r r' removed -> kept_from r r'.
Proof. intros Hc h t Ht. destruct (ReadyTransactions.cl_kept _ _ _ _ Hc h) as [<-|He]; [done|]. by rewrite He in Ht. Qed.
Lemma cleared_ready_subset hs r r' removed h :
  ReadyTransactions.cleared hs r r' removed -> is_Some (ReadyTransactions.ready_tx r' !! h) ->
  is_Some (ReadyTransactions.ready_tx r !! h).
Proof. intros Hc. by eapply kept_from_ready, cleared_kept. Qed.

Lemma pool_inv_clear p hs r' removed hs' :
  pool_inv p -> ReadyTransactions.inv r' -> ReadyTransactions.cleared hs (ready_transactions p) r' removed ->
  pool_inv (mk r' (fst (PendingTransactions.remove (pending_transactions p) hs'))).
Proof.
  intros Hp Hi Hc. destruct (PendingTransactions.pending_remove_spec _ hs' (pi_pending p Hp)) as [Hpi Hl].
  assert (forall h tx, PendingTransactions.waiting_queue (fst (PendingTransactions.remove (pending_transactions p) hs')) !! h = Some tx ->
    queue_of p !! h = Some tx) as Hsub by (intros h tx; rewrite Hl; by case_decide).
  split; simpl; [done|done|..].
  - intros h Hs. apply eq_None_not_Some. intros [tx Htx%Hsub].
    rewrite (pi_disjoint p Hp) in Htx; [done|]. by eapply cleared_ready_subset.
  - intros h tx Htx%Hsub. by eapply pi_wf.
  - intros h tx m Htx%Hsub Hin. destruct (pi_missing p Hp _ _ _ Htx Hin) as [? Hn]. split; [done|].
    destruct (ReadyTransactions.provided_markers r' !! m) as [x|] eqn:Hx; [|done].
    apply (ReadyTransactions.iv_provided _ _ Hi) in Hx as [Hs%(cleared_ready_subset _ _ _ _ _ Hc) <-].
    assert (ReadyTransactions.provided_markers (ready_transactions p) !! own x = Some x)
      by (by apply (ReadyTransactions.iv_provided _ _ (pi_ready p Hp))). congruence.
Qed.

Lemma remove_invalid_spec p hs :
  pool_inv p ->
  exists removed p', remove_invalid p hs = Ret (removed, p') /\ pool_inv p' /\
    kept_from (ready_transactions p) (ready_transactions p') /\
    (forall h, is_Some (queue_of p' !! h) -> is_Some (queue_of p !! h)) /\
    (forall h, h ∈ hs -> ~ pooled p' h) /\
    (forall n, budget p n -> budget p' n).
Proof.
  intros Hp. unfold remove_invalid. destruct hs as [|h0 hs0] eqn:Hhs.
  { eexists _, _. split; [done|]. split_and!; [done|done|done| |done]. by intros h ?%elem_of_nil. }
  rewrite <- Hhs. clear h0 hs0 Hhs.
  destruct (ReadyTransactions.remove_with_markers_clear _ hs (pi_ready p Hp)) as (r' & rem & -> & Hi & Hid & Hc). cbn.
  pose proof (pool_inv_clear p hs r' rem hs Hp Hi Hc) as Hp'.
  destruct (PendingTransactions.pending_remove_spec _ hs (pi_pending p Hp)) as [_ Hl].
  destruct (PendingTransactions.remove (pending_transactions p) hs) as [pd rem'] eqn:Hrm. simpl in *.
  eexists _, _. split; [done|]. split_and!; [done|..].
  - by eapply cleared_kept.
  - simpl. intros h. rewrite Hl. case_decide; [by intros [? ?]|done].
  - intros h Hin [Hs|Hs]; simpl in Hs.
    + rewrite (ReadyTransactions.cl_hs _ _ _ _ Hc h Hin) in Hs. by destruct Hs.
    + rewrite Hl, decide_True in Hs by done. by destruct Hs.
  - intros n. unfold budget. simpl. rewrite Hid. unfold PendingTransactions.len.
    assert (size (PendingTransactions.waiting_queue pd) <= size (queue_of p))%nat as Hsz; [|lia].
    apply map_subseteq_size. apply map_subseteq_spec. intros h tx. rewrite Hl. by case_decide.
Qed.

(** ** The pool and its listeners *)
Section Listeners.
Context `{!Channel}.

(** What becomes of the listeners when [hash] is announced: those whose
    receiver is gone are dropped. *)
Definition survivors (hash : TxHash) (l : list Sender) : list Sender :=
  omap (fun s => match try_send s hash with (Disconnected, _) => None | (_, s') => Some s' end) l.

Lemma notify_loop_spec hash l1 : forall l2,
  exists l', Pool.notify_loop (length l1) hash (l1 ++ l2) = Ret l' /\ l' ≡ₚ survivors hash l1 ++ l2.
Proof.
  induction l1 as [|x l1 IH] using rev_ind; intros l2; [by exists l2|].
  rewrite length_app, Nat.add_1_r. cbn [Pool.notify_loop].
  rewrite <- app_assoc. cbn [app]. rewrite list_lookup_middle by done. cbn.
  destruct (swap_remove_app l1 l2 x) as (l2' & -> & Hp).
  unfold survivors. rewrite omap_app. cbn [omap list_omap]. fold (survivors hash l1).
  destruct (try_send x hash) as [[] s']; rewrite <- ?app_assoc;
    (destruct (IH (l2' ++ [s'])) as (l' & -> & Hl) || destruct (IH l2') as (l' & -> & Hl));
    exists l'; (split; [done|]); rewrite Hl, Hp.
  - rewrite (Permutation_app_comm l2 [s']). done.
  - rewrite (Permutation_app_comm l2 [s']). done.
  - done.
Qed.

Lemma notify_listener_spec (p : Pool.t) hash :
  exists l, Pool.notify_listener p hash = Ret (Pool.mk (Pool.inner p) l) /\
    l ≡ₚ survivors hash (Pool.transaction_listener p).
Proof.
  unfold Pool.notify_listener. destruct (notify_loop_spec hash (Pool.transaction_listener p) []) as (l & Hn & Hl).
  rewrite app_nil_r in Hn, Hl. rewrite Hn. by exists l.
Qed.

#[local] Arguments Pool.notify_listener : simpl never.

Lemma notify_all hs : forall p : Pool.t,
  exists l, foldM Pool.notify_listener p hs = Ret (Pool.mk (Pool.inner p) l).
Proof.
  induction hs as [|h hs IH]; intros p; cbn [foldM]; [by exists (Pool.transaction_listener p); destruct p|].
  destruct (notify_listener_spec p h) as (l & -> & _). cbn. apply (IH (Pool.mk (Pool.inner p) l)).
Qed.

(** [Pool::add_transaction] does to the queues what [PoolInner] does. *)
Lemma pool_add_inner now (p : Pool.t) tx res inn :
  PoolInner.add_transaction now (Pool.inner p) tx = Ret (res, inn) ->
  exists l, Pool.add_transaction now p tx = Ret (res, Pool.mk inn l).
Proof.
  intros Ha. unfold Pool.add_transaction. rewrite Ha. cbn.
  destruct res as [[a|h]|e]; cbn; [|by eexists..].
  destruct (notify_listener_spec (Pool.mk inn (Pool.transaction_listener p)) (AddedReady.hash a)) as (l & -> & _). cbn.
  destruct (notify_all (AddedReady.promoted a) (Pool.mk inn l)) as (l' & ->). cbn. by exists l'.
Qed.

Lemma on_mined_block_spec (p : Pool.t) included invalid :
  pool_inv (Pool.inner p) -> budget (Pool.inner p) 0 -> Forall wf_tx included ->
  exists res p', Pool.on_mined_block p included invalid = Ret (res, p') /\ pool_inv (Pool.inner p') /\
    Pool.transaction_listener p' = Pool.transaction_listener p /\
    (forall h, pooled (Pool.inner p') h -> pooled (Pool.inner p) h) /\
    (forall tx, tx ∈ invalid -> ~ pooled (Pool.inner p') (PoolTransaction.hash tx)) /\
    (forall tx, tx ∈ included -> is_Some (ready_of (Pool.inner p) !! PoolTransaction.hash tx) ->
       ~ pooled (Pool.inner p') (PoolTransaction.hash tx)) /\
    budget (Pool.inner p') 0.
Proof.
  intros Hp Hb Hwf. unfold Pool.on_mined_block, Pool.remove_invalid.
  destruct (remove_invalid_spec (Pool.inner p) (PoolTransaction.hash <$> invalid) Hp)
    as (rem & p1 & -> & Hp1 & Hr1 & Hq1 & Hgone1 & Hb1). cbn. unfold Pool.prune_markers. cbn.
  destruct (prune_markers_spec p1 (included ≫= PoolTransaction.provides) Hp1 (Hb1 _ Hb))
    as (res & p2 & -> & Hp2 & Hsub2 & Hgone2 & Hb2). cbn.
  eexists _, _. split; [done|]. split_and!; [done|done|..|done]; simpl.
  - intros h [Hs|Hs]%Hsub2; [left; by eapply kept_from_ready|right; by apply Hq1].
  - intros tx Htx Hh%Hsub2. apply (Hgone1 (PoolTransaction.hash tx)); [|done]. apply list_elem_of_fmap. by exists tx.
  - intros tx Htx Hs Hh. destruct (Hsub2 _ Hh) as [Hr|Hq].
    + apply (Hgone2 (PoolTransaction.hash tx) Hr); [|done]. rewrite Forall_forall in Hwf.
      destruct (Hwf tx Htx) as [Hprov _]. apply list_elem_of_bind. exists tx. rewrite Hprov. split; [by left|done].
    + apply Hq1 in Hq as [u Hq]. by rewrite (pi_disjoint _ Hp _ Hs) in Hq.
Qed.

(** A block of ready transactions promotes nothing: what is ready afterwards
    was ready before. *)
Lemma on_mined_block_promotes_nothing (p : Pool.t) included invalid res p' :
  pool_inv (Pool.inner p) -> Forall wf_tx included ->
  (forall tx, tx ∈ included -> is_Some (ready_of (Pool.inner p) !! PoolTransaction.hash tx)) ->
  Pool.on_mined_block p included invalid = Ret (res, p') ->
  kept_from (ready_transactions (Pool.inner p)) (ready_transactions (Pool.inner p')).
Proof.
  intros Hp Hwf Hinc. unfold Pool.on_mined_block, Pool.remove_invalid.
  destruct (remove_invalid_spec (Pool.inner p) (PoolTransaction.hash <$> invalid) Hp)
    as (rem & p1 & -> & Hp1 & Hr1 & Hq1 & _). cbn. unfold Pool.prune_markers, prune_markers. cbn.
  destruct (prune_unmissed (included ≫= PoolTransaction.provides) p1 [] Hp1) as (r' & acc' & -> & Hsub).
  - intros m h tx (t & Ht & Hin)%list_elem_of_bind Htx Hmiss. rewrite Forall_forall in Hwf.
    destruct (Hwf t Hin) as [Hprov _]. rewrite Hprov in Ht. apply list_elem_of_singleton in Ht as ->.
    destruct (Hq1 h) as [tx' Htx']; [by eauto|].
    pose proof (PendingTransactions.inv_missing _ (pi_pending _ Hp) _ _ Htx') as Hne. apply set_choose_L in Hne as [m' Hm'].
    destruct (pi_missing _ Hp _ _ _ Htx' Hm') as [Hreq' Hnone]. destruct (pi_missing _ Hp1 _ _ _ Htx Hmiss) as [Hreq _].
    assert (ReadyTransactions.provided_markers (ready_transactions (Pool.inner p)) !! own (PoolTransaction.hash t) =
      Some (PoolTransaction.hash t)) by (apply (ReadyTransactions.iv_provided _ _ (pi_ready _ Hp)); split; [by apply Hinc|done]).
    congruence.
  - cbn. intros [= _ <-]. by etransitivity.
Qed.
End Listeners.
End PoolInv.
