(* ===== verification/PoolProps.v ===== *)
(** * The pool as a state machine

    The operations of [Pool] as a step relation, the properties of every
    reachable pool, and their instance for the markers of the RPC layer. *)
From S2P Require Import Prelude Transaction PoolTx PendingTxs ReadyTxs TxIterator Pool PoolInv.
Open Scope Z_scope.

(** ** The universe of the RPC layer

    Every hash belongs to one sender and one nonce; [dependent] says which
    transactions are submitted with the marker before theirs as a
    requirement. *)
Section Nonces.
Context (sender_of : TxHash -> Address) (nonce_of : TxHash -> Z) (dependent : TxHash -> bool)
  (good : PoolTransaction.t -> Prop).

Definition nonce_requires (h : TxHash) : list TxMarker :=
  if dependent h && (0 <? nonce_of h) && (nonce_of h <=? U64_MAX)
  then [to_marker (nonce_of h - 1) (sender_of h)] else [].

Lemma nonce_requires_rank h :
  nonce_requires h = [] \/ exists m, nonce_requires h = [m] /\
    (Z.to_nat (marker_nonce m) < Z.to_nat (marker_nonce (to_marker (nonce_of h) (sender_of h))))%nat.
Proof.
  unfold nonce_requires. destruct (dependent h && (0 <? nonce_of h) && (nonce_of h <=? U64_MAX)) eqn:Hc; [right|by left].
  apply andb_true_iff in Hc as [[_ H0%Z.ltb_lt]%andb_true_iff H1%Z.leb_le]. eexists. split; [done|].
  rewrite !marker_nonce_to_marker by word_lia. lia.
Qed.

Definition nonce_universe : Universe := {|
  own h := to_marker (nonce_of h) (sender_of h);
  requires_of := nonce_requires;
  rank m := Z.to_nat (marker_nonce m);
  submitted := good;
  requires_rank := nonce_requires_rank |}.
End Nonces.

(** What the RPC layer submits is well-formed for the pool: a
    transaction with a 64-bit nonce provides the marker of its sender and
    nonce, and requires the one before it exactly when its nonce is beyond the
    one expected on chain. *)
Theorem pool_transaction_of_wf o p on_chain tx sender_of nonce_of dependent (good : PoolTransaction.t -> Prop) :
  pool_transaction_of o p on_chain = Ret tx -> good tx ->
  is_u64 (ptx_nonce p) -> 0 <= on_chain ->
  sender_of (ptx_hash p) = sender p -> nonce_of (ptx_hash p) = ptx_nonce p ->
  dependent (ptx_hash p) = bool_decide (on_chain < ptx_nonce p) ->
  PoolTransaction.hash tx = ptx_hash p /\
  @wf_tx (nonce_universe sender_of nonce_of dependent good) tx.
Proof.
  intros Ht Hg Hn Ho Hs Hnn Hd. unfold pool_transaction_of in Ht.
  rewrite required_marker_spec in Ht by word_lia. simpl in Ht.
  unfold u256_as_u64 in Ht. rewrite (decide_True (P := ptx_nonce p <= U64_MAX)) in Ht by apply Hn. simpl in Ht. injection Ht as <-.
  split; [done|]. unfold wf_tx, PoolTransaction.hash. simpl. unfold nonce_requires.
  rewrite Hnn, Hs, Hd. split; [done|]. split; [|done].
  assert ((ptx_nonce p <=? U64_MAX) = true) as -> by (apply Z.leb_le, Hn). rewrite andb_true_r.
  case_decide as Hlt.
  - rewrite bool_decide_true by done. assert ((0 <? ptx_nonce p) = true) as -> by (apply Z.ltb_lt; lia). done.
  - by rewrite bool_decide_false.
Qed.

Section Steps.
Context `{!HashIter TxMarker} `{!HashIter TxHash} `{!Channel} `{!Universe}.

Abbreviation ready_tx_of p := (ReadyTransactions.ready_tx (PoolInner.ready_transactions (Pool.inner p))) (only parsing).
Abbreviation waiting_of p := (PendingTransactions.waiting_queue (PoolInner.pending_transactions (Pool.inner p))) (only parsing).

(** What the pool is asked to do. *)
Inductive pool_op :=
| OpAdd (now : Z) (tx : PoolTransaction.t)
| OpMined (included invalid : list PoolTransaction.t)
| OpDrop (hash : TxHash)
| OpRemoveInvalid (hashes : list TxHash)
| OpListen (tx : Sender).

Definition run_op (p : Pool.t) (op : pool_op) : exec Pool.t :=
  match op with
  | OpAdd now tx => snd <$> Pool.add_transaction now p tx
  | OpMined included invalid => snd <$> Pool.on_mined_block p included invalid
  | OpDrop h => snd <$> Pool.drop_transaction p h
  | OpRemoveInvalid hs => snd <$> Pool.remove_invalid p hs
  | OpListen s => Ret (Pool.add_ready_listener p s)
  end.

(** The transactions handed to the pool are well-formed, and fewer than 2^64
    can become ready. *)
Definition allowed (p : Pool.t) (op : pool_op) : Prop :=
  budget (Pool.inner p) 1 /\
  match op with
  | OpAdd _ tx => wf_tx tx
  | OpMined included _ => Forall wf_tx included
  | _ => True
  end.

Inductive reachable : Pool.t -> Prop :=
| reach_new : reachable (Pool.mk PoolInner.empty [])
| reach_step p op p' : reachable p -> allowed p op -> run_op p op = Ret p' -> reachable p'.

Lemma drop_transaction_spec (p : Pool.t) h :
  pool_inv (Pool.inner p) ->
  exists o r' removed, Pool.drop_transaction p h =
      Ret (o, Pool.mk (PoolInner.mk r' (PoolInner.pending_transactions (Pool.inner p))) (Pool.transaction_listener p)) /\
    pool_inv (PoolInner.mk r' (PoolInner.pending_transactions (Pool.inner p))) /\
    ReadyTransactions.cleared [h] (PoolInner.ready_transactions (Pool.inner p)) r' removed /\
    o = find (fun t => PoolTransaction.hash t =? h) removed.
Proof.
  intros Hp. unfold Pool.drop_transaction.
  destruct (ReadyTransactions.remove_with_markers_clear _ [h] (pi_ready _ Hp)) as (r' & rem & -> & Hi & _ & Hc). cbn.
  eexists _, r', rem. split_and!; [done| |done..]. exact (pool_inv_clear _ [h] r' rem [] Hp Hi Hc).
Qed.

(** An allowed operation returns and keeps the invariant. *)
Lemma run_op_inv p op :
  pool_inv (Pool.inner p) -> allowed p op -> exists p', run_op p op = Ret p' /\ pool_inv (Pool.inner p').
Proof.
  intros Hp [Hb Hop]. destruct op as [now tx|inc inv'|h|hs|s]; simpl.
  - destruct (PoolInv.add_transaction_spec now (Pool.inner p) tx Hp Hop Hb) as (res & inn & Ha & Hi & _).
    destruct (pool_add_inner now p tx res inn Ha) as (l & ->). by eexists.
  - destruct (on_mined_block_spec p inc inv' Hp) as (res & p' & -> & Hi & _); [|done|by eexists].
    unfold budget in *. lia.
  - destruct (drop_transaction_spec p h Hp) as (o & r' & rem & -> & Hi & _). by eexists.
  - unfold Pool.remove_invalid. destruct (remove_invalid_spec (Pool.inner p) hs Hp) as (rem & p' & -> & Hi & _). by eexists.
  - by eexists.
Qed.

Lemma reachable_inv p : reachable p -> pool_inv (Pool.inner p).
Proof.
  induction 1 as [|p op p' _ IH Ha Hr]; [apply pool_inv_empty|].
  destruct (run_op_inv p op IH Ha) as (p2 & Hr2 & Hi). congruence.
Qed.

Lemma contains_pooled (p : Pool.t) h : Pool.contains p h = true <-> pooled (Pool.inner p) h.
Proof.
  unfold Pool.contains, PoolInner.contains, pooled. rewrite orb_true_iff.
  unfold PendingTransactions.contains, ReadyTransactions.contains. rewrite !bool_decide_eq_true. tauto.
Qed.

(** C21: The pool never panics: no assertion, no [expect] and no index of its
    queues fails in any pool the program can reach, whatever operation comes
    next, and every loop ends.  Reachable is what the operations make of the
    empty pool, with submissions that require the same markers whenever they are
    made, fewer than 2^64 of which become ready. *)
Theorem pool_never_panics p op :
  reachable p -> allowed p op -> exists p', run_op p op = Ret p' /\ reachable p'.
Proof.
  intros Hp Ha. destruct (run_op_inv p op (reachable_inv p Hp) Ha) as (p' & Hr & _).
  exists p'. split; [done|]. by apply (reach_step p op).
Qed.

(** C20: In every reachable pool no transaction is both ready and waiting, a
    waiting transaction is one whose required marker no ready transaction
    provides (so nothing that could be mined is held back), and the ready
    transactions are exactly the providers of the provided markers.  Submissions
    require the same markers whenever they are made. *)
Theorem pool_queues_consistent p :
  reachable p ->
  (forall h, is_Some (ready_tx_of p !! h) -> waiting_of p !! h = None) /\
  (forall h tx, waiting_of p !! h = Some tx -> exists m, requires_of h = [m] /\
     PendingPoolTransaction.missing_markers tx = {[m]} /\
     forall h' r, ready_tx_of p !! h' = Some r -> m ∉ ReadyTransaction.provides r) /\
  (forall m h, ReadyTransactions.provided_markers (PoolInner.ready_transactions (Pool.inner p)) !! m = Some h <->
     exists r, ready_tx_of p !! h = Some r /\ m ∈ ReadyTransaction.provides r).
Proof.
  intros Hp%reachable_inv.
  assert (forall m h, ReadyTransactions.provided_markers (PoolInner.ready_transactions (Pool.inner p)) !! m = Some h <->
     exists r, ready_tx_of p !! h = Some r /\ m ∈ ReadyTransaction.provides r) as Hprov.
  { intros m h. rewrite (ReadyTransactions.iv_provided _ _ (pi_ready _ Hp)). split.
    - intros [[r Hr] <-]. exists r. split; [done|].
      rewrite (ReadyTransactions.provides_wf _ _ _ _ (pi_ready _ Hp) Hr). by left.
    - intros (r & Hr & Hin). rewrite (ReadyTransactions.provides_wf _ _ _ _ (pi_ready _ Hp) Hr) in Hin.
      apply list_elem_of_singleton in Hin. by eauto. }
  split_and!; [apply (pi_disjoint _ Hp)| |done].
  intros h tx Htx. pose proof (PendingTransactions.inv_missing _ (pi_pending _ Hp) _ _ Htx) as Hne.
  apply set_choose_L in Hne as [m Hm]. destruct (pi_missing _ Hp _ _ _ Htx Hm) as [Hreq Hnone].
  exists m. split_and!; [done| |].
  - apply set_eq. intros x. rewrite elem_of_singleton. split; [|by intros ->].
    intros Hx. destruct (pi_missing _ Hp _ _ _ Htx Hx) as [Hreq' _]. congruence.
  - intros h' r Hr Hin. assert (is_Some (ReadyTransactions.provided_markers (PoolInner.ready_transactions (Pool.inner p)) !! m)) as [? ?].
    { exists h'. apply Hprov. by exists r. }
    congruence.
Qed.

(** C30: A submission that is refused leaves the queues as they were, and it is
    refused for one of two reasons: the pool has the transaction already, or it
    is reported as underpriced and the pool has a transaction that provides the
    same markers and, if that one is ready, pays at least as much, or, if it
    waits itself, pays more; no cycle is ever reported.  The pool is one that
    the operations reach from the empty pool with submissions that require the
    same markers whenever they are made, fewer than 2^64 of which become ready. *)
Theorem pool_add_error p now tx e p' :
  reachable p -> allowed p (OpAdd now tx) -> Pool.add_transaction now p tx = Ret (Err e, p') ->
  Pool.inner p' = Pool.inner p /\
  (e = AlreadyImported tx /\ Pool.contains p (PoolTransaction.hash tx) = true \/
   e = ReplacementUnderpriced tx /\ outpriced (Pool.inner p) tx).
Proof.
  intros Hp%reachable_inv [Hb Hwf] He.
  destruct (PoolInv.add_transaction_spec now (Pool.inner p) tx Hp Hwf Hb) as (res & inn & Ha & _ & _ & Hres).
  destruct (pool_add_inner now p tx res inn Ha) as (l & Hl). rewrite Hl in He. injection He as -> <-. simpl.
  destruct e as [t|t|]; [destruct Hres as (-> & -> & Ho); by auto| |done].
  destruct Hres as (-> & -> & [Hs|Hs]); (split; [done|]); left; (split; [done|]); unfold Pool.contains, PoolInner.contains;
    apply orb_true_iff; [right|left]; by apply bool_decide_eq_true.
Qed.

(** C23: An accepted submission is in the pool afterwards, ready or waiting as
    announced, and every transaction that was in the pool still is, unless
    the result lists it as replaced or discarded.  The pool is reachable as in
    [pool_never_panics]. *)
Theorem pool_add_ok p now tx a p' :
  reachable p -> allowed p (OpAdd now tx) -> Pool.add_transaction now p tx = Ret (Ok a, p') ->
  added_hash a = PoolTransaction.hash tx /\
  match a with
  | AddedReadyTx r =>
      ReadyTransaction.pool_tx <$> ready_tx_of p' !! PoolTransaction.hash tx = Some tx /\
      forall h, Pool.contains p h = true -> Pool.contains p' h = true \/ dropped r h
  | AddedPendingTx _ =>
      PendingPoolTransaction.transaction <$> waiting_of p' !! PoolTransaction.hash tx = Some tx /\
      forall h, Pool.contains p h = true -> Pool.contains p' h = true
  end.
Proof.
  intros Hp%reachable_inv [Hb Hwf] He.
  destruct (PoolInv.add_transaction_spec now (Pool.inner p) tx Hp Hwf Hb) as (res & inn & Ha & _ & _ & Hres).
  destruct (pool_add_inner now p tx res inn Ha) as (l & Hl). rewrite Hl in He. injection He as -> <-. simpl.
  destruct a as [r|h].
  - destruct Hres as (? & ? & Hk). split_and!; [done..|]. intros h. rewrite !contains_pooled. apply Hk.
  - destruct Hres as (-> & Hr & Hq). rewrite Hq, lookup_insert_eq. split_and!; [done..|].
    intros h. rewrite !contains_pooled. unfold pooled. simpl. rewrite Hr, Hq. intros [?|Hs]; [by left|right].
    rewrite lookup_insert_is_Some'. by right.
Qed.

(** After a block was mined, none of the transactions it included out of
    the ready queue and none of those that were invalid is in the pool, and no
    transaction came in from elsewhere. *)
Theorem mined_transactions_leave p included invalid :
  reachable p -> allowed p (OpMined included invalid) ->
  exists res p', Pool.on_mined_block p included invalid = Ret (res, p') /\
    (forall tx, tx ∈ included -> is_Some (ready_tx_of p !! PoolTransaction.hash tx) ->
       Pool.contains p' (PoolTransaction.hash tx) = false) /\
    (forall tx, tx ∈ invalid -> Pool.contains p' (PoolTransaction.hash tx) = false) /\
    (forall h, Pool.contains p' h = true -> Pool.contains p h = true).
Proof.
  intros Hp%reachable_inv [Hb Hwf].
  destruct (on_mined_block_spec p included invalid Hp) as (res & p' & Hm & _ & _ & Hsub & Hinv & Hinc & _); [|done|].
  { unfold budget in *. lia. }
  assert (forall q h, ~ pooled (Pool.inner q) h -> Pool.contains q h = false) as Hn.
  { intros q h Hq. apply not_true_is_false. by rewrite contains_pooled. }
  exists res, p'. split; [done|]. split_and!.
  - intros tx Htx Hs. by apply Hn, Hinc.
  - intros tx Htx. by apply Hn, Hinv.
  - intros h. rewrite !contains_pooled. apply Hsub.
Qed.

(** C22: The miner gets every ready transaction exactly once and the
    iteration ends; each comes after the ready transaction that unlocks it;
    and each is the one of highest priority, the oldest among equals, of those
    that are available at that point.  The pool is one that the operations reach
    from the empty pool with submissions that require the same markers whenever
    they are made, fewer than 2^64 of which become ready: a transaction that is
    dropped and submitted again without its requirement is yielded twice
    ([resubmitted_yielded_twice]). *)
Theorem ready_iteration p :
  reachable p ->
  let r := PoolInner.ready_transactions (Pool.inner p) in
  fst (TransactionsIterator.next
         (snd (TransactionsIterator.collect (size (ready_tx_of p)) (get_transactions r)))) = None /\
  iteration r ≡ₚ ReadyTransaction.pool_tx <$> (map_to_list (ready_tx_of p)).*2 /\
  forall l1 a l2, iteration r = l1 ++ a :: l2 ->
    (forall h r0, ready_tx_of p !! h = Some r0 -> PoolTransaction.hash a ∈ ReadyTransaction.unlocks r0 ->
       h ∈ PoolTransaction.hash <$> l1) /\
    (forall b ra rb, b ∈ l2 ->
       (forall h r0, ready_tx_of p !! h = Some r0 -> PoolTransaction.hash b ∈ ReadyTransaction.unlocks r0 ->
          h ∈ PoolTransaction.hash <$> l1) ->
       ready_tx_of p !! PoolTransaction.hash a = Some ra -> ready_tx_of p !! PoolTransaction.hash b = Some rb ->
       PoolTransaction.priority b < PoolTransaction.priority a \/
       PoolTransaction.priority b = PoolTransaction.priority a /\
       PoolTransactionRef.id (ReadyTransaction.transaction ra) < PoolTransactionRef.id (ReadyTransaction.transaction rb)).
Proof.
  intros Hp%reachable_inv r. destruct (iteration_spec r (pi_ready _ Hp)) as (Hend & Hperm & Hord).
  split_and!; [done..|]. intros l1 a l2 Hl. destruct (Hord l1 a l2 Hl) as [Hpar Hmax]. split.
  - intros h r0 Hr Hin. apply Hpar. by exists r0.
  - intros b ra rb Hb Hparb Hra Hrb.
    assert (forall x rx, ready_tx_of p !! PoolTransaction.hash x = Some rx -> x ∈ iteration r ->
      PoolTransactionRef.transaction (ReadyTransaction.transaction rx) = x) as Hself.
    { intros x rx Hx Hin. rewrite Hperm in Hin.
      apply list_elem_of_fmap in Hin as (rx' & -> & ([h rx2] & -> & Hm%elem_of_map_to_list)%list_elem_of_fmap). simpl in *.
      destruct (ReadyTransactions.iv_tx _ _ (pi_ready _ Hp) _ _ Hm) as [Hh _].
      unfold PoolTransactionRef.hash in Hh. fold (ReadyTransaction.pool_tx rx2) in Hh. rewrite Hh in Hx.
      unfold r in Hm. unfold ReadyTransaction.pool_tx. congruence. }
    pose proof (Hmax b ra rb Hb) as Hlt. apply BTree.cmp_Lt in Hlt; [|intros h0 (r0 & ? & ?); by eapply Hparb|done|done].
    unfold BTree.key in Hlt. simpl in Hlt.
    rewrite (Hself a ra Hra), (Hself b rb Hrb) in Hlt by (rewrite Hl; set_solver). lia.
Qed.

Lemma cleared_rtc hs r r' removed a x :
  ReadyTransactions.cleared hs r r' removed -> rtc (ReadyTransactions.edge r) a x ->
  ReadyTransactions.ready_tx r' !! a = None -> ReadyTransactions.ready_tx r' !! x = None.
Proof.
  intros Hc. induction 1 as [|a b c Hab _ IH]; [done|]. intros Hn. apply IH.
  by eapply (ReadyTransactions.cl_closed _ _ _ _ Hc a b).
Qed.

(** Searching the removed transactions for [h] finds the one that was ready
    under it. *)
Lemma find_removed r r' removed h :
  ReadyTransactions.inv r -> ReadyTransactions.cleared [h] r r' removed ->
  find (fun t => PoolTransaction.hash t =? h) removed =
  ReadyTransaction.pool_tx <$> ReadyTransactions.ready_tx r !! h.
Proof.
  intros Hi Hc. assert (ReadyTransactions.ready_tx r' !! h = None) as Hh by (apply (ReadyTransactions.cl_hs _ _ _ _ Hc); by left).
  assert (forall x rx, ReadyTransactions.ready_tx r !! x = Some rx -> PoolTransaction.hash (ReadyTransaction.pool_tx rx) = x) as Hx.
  { intros x rx Hx. by destruct (ReadyTransactions.iv_tx _ _ Hi _ _ Hx). }
  destruct (find _ removed) as [t|] eqn:Hf.
  - apply find_some in Hf as [Hin%list_elem_of_In He%Z.eqb_eq].
    apply (ReadyTransactions.cl_removed _ _ _ _ Hc) in Hin as (x & rx & Hrx & _ & <-).
    rewrite (Hx _ _ Hrx) in He. subst x. by rewrite Hrx.
  - destruct (ReadyTransactions.ready_tx r !! h) as [rx|] eqn:Hrx; [|done]. exfalso.
    pose proof (find_none _ _ Hf (ReadyTransaction.pool_tx rx)) as Hn. simpl in Hn. rewrite (Hx _ _ Hrx), Z.eqb_refl in Hn.
    discriminate Hn. apply list_elem_of_In, (ReadyTransactions.cl_removed _ _ _ _ Hc). by exists h, rx.
Qed.

(** Dropping a transaction removes it and exactly the ready transactions
    that depend on it, directly or through others, and touches nothing
    else; it returns the transaction if it was ready. *)
Theorem drop_removes_dependents p h :
  reachable p ->
  let r := PoolInner.ready_transactions (Pool.inner p) in
  exists o p', Pool.drop_transaction p h = Ret (o, p') /\
    PoolInner.pending_transactions (Pool.inner p') = PoolInner.pending_transactions (Pool.inner p) /\
    (forall x rx, ready_tx_of p !! x = Some rx ->
       (ready_tx_of p' !! x = None <-> rtc (ReadyTransactions.edge r) h x) /\
       (ready_tx_of p' !! x <> None -> ready_tx_of p' !! x = Some rx)) /\
    o = ReadyTransaction.pool_tx <$> ready_tx_of p !! h.
Proof.
  intros Hp%reachable_inv r. destruct (drop_transaction_spec p h Hp) as (o & r' & rem & Hd & Hi & Hc & Ho).
  eexists o, _. split; [done|]. split; [done|]. simpl. fold r in Hc. split.
  - intros x rx Hx. split.
    + split.
      * intros Hn. destruct (ReadyTransactions.cl_reached _ _ _ _ Hc x rx Hx Hn) as (h0 & ->%list_elem_of_singleton & ?). done.
      * intros Hr. apply (cleared_rtc _ _ _ _ h x Hc Hr). apply (ReadyTransactions.cl_hs _ _ _ _ Hc). by left.
    + intros Hn. destruct (ReadyTransactions.cl_kept _ _ _ _ Hc x) as [->|?]; [exact Hx|done].
  - rewrite Ho. apply (find_removed r r' rem h (pi_ready _ Hp) Hc).
Qed.

Lemma edge_rank r a b :
  ReadyTransactions.inv r -> ReadyTransactions.edge r a b -> (rank (own a) < rank (own b))%nat.
Proof.
  intros Hi (tx & Htx & Hin). pose proof (ReadyTransactions.iv_unlocks _ _ Hi _ _ _ Htx Hin) as Hr.
  destruct (requires_rank b) as [Hq|(m & Hq & ?)]; rewrite Hr in Hq; by simplify_eq.
Qed.

(** When a ready transaction is dropped, the ready transaction that
    unlocks it keeps it in its list of unlocked transactions, although the
    code means to take it out there. *)
Theorem drop_keeps_stale_link p h parent r0 :
  reachable p -> ready_tx_of p !! parent = Some r0 -> h ∈ ReadyTransaction.unlocks r0 ->
  exists o p', Pool.drop_transaction p h = Ret (o, p') /\
    ready_tx_of p' !! h = None /\ ready_tx_of p' !! parent = Some r0.
Proof.
  intros Hp%reachable_inv Hr Hin. destruct (drop_transaction_spec p h Hp) as (o & r' & rem & Hd & _ & Hc & _).
  eexists o, _. split; [done|]. simpl. split; [apply (ReadyTransactions.cl_hs _ _ _ _ Hc); by left|].
  destruct (ReadyTransactions.cl_kept _ _ _ _ Hc parent) as [->|Hn]; [done|]. exfalso.
  destruct (ReadyTransactions.cl_reached _ _ _ _ Hc parent r0 Hr Hn) as (h0 & ->%list_elem_of_singleton & Hrtc).
  assert (rank (own h) <= rank (own parent))%nat as Hle.
  { clear -Hrtc Hp. induction Hrtc as [|a b c Hab _ IH]; [done|]. pose proof (edge_rank _ a b (pi_ready _ Hp) Hab). lia. }
  assert (rank (own parent) < rank (own h))%nat; [|lia]. apply (edge_rank _ _ _ (pi_ready _ Hp)). by exists r0.
Qed.

(** Announcing a transaction keeps exactly the listeners whose receiver
    still exists, also those that are full, and sends to each of them once. *)
Theorem notify_listener_keeps_connected (p : Pool.t) hash :
  exists l, Pool.notify_listener p hash = Ret (Pool.mk (Pool.inner p) l) /\
    l ≡ₚ omap (fun s => match try_send s hash with (Disconnected, _) => None | (_, s') => Some s' end)
           (Pool.transaction_listener p).
Proof. apply notify_listener_spec. Qed.
End Steps.

(** ** Where pooled transactions come from

    Whatever the markers of the submissions are: a property [Q] of all accepted
    transactions is one of all transactions of the pool, each under its hash, and
    what the miner sees has the hash of one of them, and the property [C] of all
    that were ever submitted. *)
Section PoolAll.
Context `{!HashIter TxMarker} `{!HashIter TxHash} `{!Channel}.
Import ReadyTransactions.
Variables C Q : PoolTransaction.t -> Prop.
Hypothesis accepted_submitted : forall t, Q t -> C t.

Definition ready_map_all (ready : gmap TxHash ReadyTransaction.t) : Prop :=
  map_Forall (fun h tx => PoolTransaction.hash (ReadyTransaction.pool_tx tx) = h /\ Q (ReadyTransaction.pool_tx tx)) ready.
Definition refs_all (l : list PoolTransactionRef.t) : Prop := Forall (fun x => C (PoolTransactionRef.transaction x)) l.
Definition ready_all (r : ReadyTransactions.t) : Prop := ready_map_all (ready_tx r) /\ refs_all (independent_transactions r).
Definition queued_all (l : list PendingPoolTransaction.t) : Prop := Forall (fun x => Q (PendingPoolTransaction.transaction x)) l.
Definition waiting_all (p : PendingTransactions.t) : Prop :=
  map_Forall (fun h tx => PendingPoolTransaction.hash tx = h /\ Q (PendingPoolTransaction.transaction tx)) (PendingTransactions.waiting_queue p).
Definition pool_all (p : PoolInner.t) : Prop := ready_all (PoolInner.ready_transactions p) /\ waiting_all (PoolInner.pending_transactions p).

Lemma ready_insert h tx ready :
  ready_map_all ready -> PoolTransaction.hash (ReadyTransaction.pool_tx tx) = h /\ Q (ReadyTransaction.pool_tx tx) -> ready_map_all (<[h := tx]> ready).
Proof. intros. by apply map_Forall_insert_2. Qed.
Lemma ready_delete h ready : ready_map_all ready -> ready_map_all (delete h ready).
Proof. apply map_Forall_delete. Qed.
Lemma refs_insert x l : refs_all l -> C (PoolTransactionRef.transaction x) -> refs_all (BTree.insert x l).
Proof.
  unfold refs_all. intros Hl Hx. induction Hl as [|y l Hy Hl IH]; simpl; [by constructor|]. destruct (PoolTransactionRef.cmp _ _); by repeat constructor.
Qed.
Lemma refs_take x l : refs_all l -> refs_all (snd (BTree.take x l)) /\
  match fst (BTree.take x l) with Some y => C (PoolTransactionRef.transaction y) | None => True end.
Proof.
  unfold refs_all. intros Hl. induction Hl as [|y l Hy Hl [IH1 IH2]]; simpl; [by split|].
  destruct (BTree.take x l) as [o l0]. cbn in *. destruct (PoolTransactionRef.cmp _ _); cbn; split; try done; by constructor.
Qed.
Lemma refs_remove x l : refs_all l -> refs_all (BTree.remove x l).
Proof. intros Hl. apply refs_take, Hl. Qed.

Lemma fold_all {A B} (P : A -> Prop) (f : A -> B -> A) l : (forall a b, P a -> P (f a b)) -> forall a, P a -> P (fold_left f l a).
Proof. intros Hf. induction l as [|b l IH]; intros a Ha; [done|]. by apply IH, Hf. Qed.
Lemma foldM_all {A B} (P : A -> Prop) (f : A -> B -> exec A) l :
  (forall a b a', P a -> f a b = Ret a' -> P a') -> forall a a', P a -> foldM f a l = Ret a' -> P a'.
Proof.
  intros Hf. induction l as [|b l IH]; intros a a' Ha; cbn [foldM]; [by intros [= <-]|].
  intros (a1 & H1 & H2)%exec_bind_Ret. eapply IH; [by eapply Hf|done].
Qed.

Lemma remove_from_unlocks_all provided mark ready : ready_map_all ready -> ready_map_all (remove_from_unlocks provided ready mark).
Proof.
  intros Hr. unfold remove_from_unlocks. destruct (provided !! mark) as [h|]; [|done]. destruct (ready !! h) as [tx|] eqn:Hh; [|done].
  apply ready_insert; [done|]. exact (Hr _ _ Hh).
Qed.
Lemma remove_loop_all f n : forall hs r removed r' removed',
  ready_all r -> remove_loop f n hs r removed = Ret (r', removed') -> ready_all r'.
Proof.
  induction n as [|n IH]; intros hs; induction hs as [|h hs IHh]; intros r removed r' removed' Hr; simpl;
    try (by intros [= <- _]); destruct (ready_tx r !! h) as [tx|] eqn:Hh; try done; try (by apply IHh).
  apply IH. destruct Hr as [R1 R2]. split; simpl; [|by apply refs_remove].
  apply fold_all; [intros; by apply remove_from_unlocks_all|]. by apply ready_delete.
Qed.
Lemma replaced_all r tx res r' : ready_all r -> replaced_transactions r tx = Ret (res, r') -> ready_all r'.
Proof.
  intros Hr. unfold replaced_transactions. case_decide; [by intros [= _ <-]|]. destruct (check_replaced _ _ _ _); [|by intros [= _ <-]].
  intros ([r1 rem] & Hx & [= _ <-])%exec_bind_Ret. by eapply remove_loop_all.
Qed.
Lemma ready_add_all r tx res r' :
  ready_all r -> Q (PendingPoolTransaction.transaction tx) -> add_transaction r tx = Ret (res, r') -> ready_all r'.
Proof.
  intros Hr Hq. unfold add_transaction. intros (_ & _ & (_ & _ & ([res1 r1] & Hrep & Hx)%exec_bind_Ret)%exec_bind_Ret)%exec_bind_Ret.
  destruct (replaced_all _ _ _ _ Hr Hrep) as [R1 R2]. destruct res1 as [[rep unl]|e]; [|by simplify_eq]. cbn in Hx.
  apply exec_bind_Ret in Hx as ([[ready ind] off] & Hl & Hx). simplify_eq.
  apply (foldM_all (fun st => ready_map_all (fst (fst st)))) in Hl; [|..|done].
  - split; simpl; [by apply ready_insert|]. destruct ind; [apply refs_insert; [done|by apply accepted_submitted]|done].
  - intros [[rd i] o] m [[rd' i'] o'] Hrd. cbn. destruct (_ !! m) as [h|]; [|by intros [= <- _ _]].
    intros (t & Ht & [= <- _ _])%exec_bind_Ret. apply ready_insert; [done|]. unfold expect in Ht. destruct (rd !! h) eqn:Hh; simplify_eq.
    exact (Hrd _ _ Hh).
Qed.
Lemma prune_found_all r m rem tx r' rem' : ready_all r -> prune_found r m rem tx = Ret (r', rem') -> ready_all r'.
Proof.
  intros [R1 R2]. unfold prune_found.
  destruct (fold_left (previous_markers _ _) _ _) as [ready1 rem1] eqn:Hf.
  assert (ready_map_all ready1) as H1.
  { change ready1 with (fst (ready1, rem1)). rewrite <- Hf. apply (fold_all (fun st => ready_map_all (fst st))); [|done].
    intros [rd rm] mk' Hrd. cbn. destruct (_ !! mk') as [h|]; [|done]. destruct (rd !! h) as [t|] eqn:Hh; [|done]. cbn.
    apply ready_insert; [done|]. exact (Hrd _ _ Hh). }
  destruct (fold_left prune_unlock _ _) as [ready2 ind2] eqn:Hf2.
  assert (ready_map_all ready2 /\ refs_all ind2) as [H2 H3].
  { change ready2 with (fst (ready2, ind2)). change ind2 with (snd (ready2, ind2)) at 2. rewrite <- Hf2.
    apply (fold_all (fun st => ready_map_all (fst st) /\ refs_all (snd st))); [|by split; [|apply refs_remove]].
    intros [rd i] h [Hrd Hi]. cbn. destruct (rd !! h) as [t|] eqn:Hh; [|done]. cbn. pose proof (Hrd _ _ Hh) as Ht. split; [by apply ready_insert|].
    case_decide; [apply refs_insert; [done|by apply accepted_submitted, Ht]|done]. }
  intros (prov & _ & [= <- _])%exec_bind_Ret. by split.
Qed.
Lemma prune_loop_all n : forall rem r removed r' removed',
  ready_all r -> prune_loop n rem r removed = Ret (r', removed') -> ready_all r'.
Proof.
  induction n as [|n IH]; intros rem; induction rem as [|m rem IHm]; intros r removed r' removed' Hr; simpl;
    try (by intros [= <- _]); destruct (_ ≫= _) as [[h tx]|]; try done; try (by apply IHm).
  intros ([r1 rem1] & Hp & Hx)%exec_bind_Ret. eapply IH; [|exact Hx]. eapply prune_found_all; [|exact Hp].
  destruct Hr as [R1 R2]. split; [by apply ready_delete|done].
Qed.

Lemma mark_and_unlock_all p ms p' unlocked :
  waiting_all p -> PendingTransactions.mark_and_unlock p ms = Ret (p', unlocked) -> waiting_all p' /\ queued_all unlocked.
Proof.
  intros Hp. apply (foldM_all (fun st => waiting_all (fst st) /\ queued_all (snd st)) PendingTransactions.mark_one ms);
    [|by split; [|constructor]].
  intros [q un] m [q' un'] [Hq Hun]. cbn. destruct (_ !! m) as [hs|]; [|by intros [= <- <-]].
  apply (foldM_all (fun st => waiting_all (fst st) /\ queued_all (snd st)) (PendingTransactions.unlock_one m)); [|done].
  intros [q1 un1] h [q2 un2] [Hq1 Hun1]. cbn. intros (tx & Htx & Hx)%exec_bind_Ret. unfold expect in Htx.
  destruct (PendingTransactions.waiting_queue q1 !! h) as [tx'|] eqn:Hh; simplify_eq. pose proof (Hq1 _ _ Hh) as Hqt.
  destruct (PendingPoolTransaction.is_ready _); cbn in Hx; rewrite ?lookup_insert_eq in Hx; cbn in Hx; simplify_eq.
  - split; cbn; [|by apply Forall_app; split; [|repeat constructor; apply Hqt]]. apply map_Forall_delete. by apply map_Forall_insert_2.
  - split; [|done]. by apply map_Forall_insert_2.
Qed.

Lemma add_ready_loop_all n : forall p q is_new acc res p',
  pool_all p -> queued_all q -> PoolInner.add_ready_loop n p q is_new acc = Ret (res, p') -> pool_all p'.
Proof.
  induction n as [|n IH]; intros p [|cur q] is_new acc res p' [P1 P2] Hq; cbn [PoolInner.add_ready_loop]; try done; try (by intros [= _ <-]).
  apply Forall_cons in Hq as [Hc Hq]. intros ([pd un] & Hm & ([r1 rt] & Ha & Hx)%exec_bind_Ret)%exec_bind_Ret.
  destruct (mark_and_unlock_all _ _ _ _ P2 Hm) as [P3 Hun]. pose proof (ready_add_all _ _ _ _ P1 Hc Ha) as P4.
  assert (queued_all (q ++ un)) by (by apply Forall_app).
  destruct r1; [by eapply IH in Hx|]. destruct is_new; [by simplify_eq|by eapply IH in Hx].
Qed.
Lemma add_ready_transaction_all p tx res p' :
  pool_all p -> Q (PendingPoolTransaction.transaction tx) -> PoolInner.add_ready_transaction p tx = Ret (res, p') -> pool_all p'.
Proof.
  intros Hp Hq. unfold PoolInner.add_ready_transaction. intros ([r1 p1] & Hl & Hx)%exec_bind_Ret.
  assert (pool_all p1) as Hp1 by (eapply add_ready_loop_all; [done| |done]; by constructor).
  destruct r1 as [a|e]; [|by simplify_eq]. destruct (existsb _ _); [|by simplify_eq].
  apply exec_bind_Ret in Hx as ([rt rem] & Hc & [= _ <-]). split; [by eapply remove_loop_all, Hc; apply Hp1|apply Hp1].
Qed.
Lemma pool_add_all now p tx res p' :
  pool_all (Pool.inner p) -> Q tx -> Pool.add_transaction now p tx = Ret (res, p') -> pool_all (Pool.inner p').
Proof.
  intros Hp Hq. unfold Pool.add_transaction. intros ([r1 inn] & Ha & Hx)%exec_bind_Ret.
  assert (pool_all inn) as Hi.
  { unfold PoolInner.add_transaction in Ha. destruct (PoolInner.contains _ _); [by simplify_eq|].
    destruct (negb _); [|by eapply add_ready_transaction_all; [done| |exact Ha]].
    apply exec_bind_Ret in Ha as ([r2 pd] & Hpd & Ha). unfold PendingTransactions.add_transaction in Hpd.
    apply exec_bind_Ret in Hpd as (_ & _ & (_ & _ & Hpd)%exec_bind_Ret). destruct Hp as [P1 P2].
    destruct (match _ with Some _ => _ | None => _ end); simplify_eq; [by split|]. split; [done|]. by apply map_Forall_insert_2. }
  assert (forall (q : Pool.t) h q', Pool.notify_listener q h = Ret q' -> Pool.inner q' = Pool.inner q) as Hn.
  { intros q h q' (l & _ & [= <-])%exec_bind_Ret. done. }
  destruct r1 as [a|e]; [|by simplify_eq]. apply exec_bind_Ret in Hx as (p1 & Hp1 & [= _ <-]).
  destruct a as [rd|h]; [|by simplify_eq]. apply exec_bind_Ret in Hp1 as (p2 & H2%Hn & Hf).
  eapply (foldM_all (fun q : Pool.t => pool_all (Pool.inner q))); [..|exact Hf]; [|by rewrite H2].
  intros q h q' Hq' E. by rewrite (Hn _ _ _ E).
Qed.
Lemma remove_invalid_all p hs removed p' : pool_all p -> PoolInner.remove_invalid p hs = Ret (removed, p') -> pool_all p'.
Proof.
  intros [P1 P2]. unfold PoolInner.remove_invalid. destruct hs as [|h hs]; [by intros [= _ <-]|].
  intros ([rt rem] & Hr & Hx)%exec_bind_Ret. destruct (PendingTransactions.remove _ _) as [pd rem'] eqn:Hpd. simplify_eq.
  split; [by eapply remove_loop_all|]. cbn. change pd with (fst (pd, rem')). rewrite <- Hpd.
  apply (fold_all (fun st => waiting_all (fst st))); [|done].
  intros [q rm] x Hq. unfold PendingTransactions.remove_one. destruct (_ !! x); [|done]. by apply map_Forall_delete.
Qed.
Lemma prune_markers_all p ms res p' : pool_all p -> PoolInner.prune_markers p ms = Ret (res, p') -> pool_all p'.
Proof.
  intros Hp. unfold PoolInner.prune_markers. intros ([[p1 imports] pruned] & H1 & ([[p2 prom] failed] & H2 & [= _ <-])%exec_bind_Ret)%exec_bind_Ret.
  apply (foldM_all (fun st => pool_all (fst (fst st)) /\ queued_all (snd (fst st)))) in H1; [|..|by split; [|constructor]].
  - destruct H1 as [P1 Hq]. cbn in P1, Hq. clear -P1 Hq H2 accepted_submitted.
    assert (forall l st st', queued_all l -> pool_all (fst (fst st)) -> foldM PoolInner.import st l = Ret st' -> pool_all (fst (fst st'))) as Hl.
    { induction l as [|x l IH]; intros st st' Hl Hst; cbn [foldM]; [by intros [= <-]|]. apply Forall_cons in Hl as [Hx Hl].
      intros (st1 & Hi & Hf)%exec_bind_Ret. eapply IH; [done| |exact Hf]. destruct st as [[q a] b]. cbn in Hi.
      apply exec_bind_Ret in Hi as ([r1 q1] & Ha & Hi). eapply add_ready_transaction_all in Ha; [|done|done]. destruct r1; by simplify_eq. }
    by apply Hl in H2.
  - intros [[q im] pr] m [[q' im'] pr'] [[Q1 Q2] Him]. cbn in Q1, Q2, Him. cbn [PoolInner.prune_marker].
    intros ([pd un] & Hm & ([rt rem] & Hp' & [= <- <- _])%exec_bind_Ret)%exec_bind_Ret.
    destruct (mark_and_unlock_all _ _ _ _ Q2 Hm) as [Q3 Hun]. split; [split; [by eapply prune_loop_all|done]|]. by apply Forall_app.
Qed.
Lemma on_mined_block_all p included invalid res p' :
  pool_all (Pool.inner p) -> Pool.on_mined_block p included invalid = Ret (res, p') -> pool_all (Pool.inner p').
Proof.
  intros Hp. unfold Pool.on_mined_block, Pool.remove_invalid, Pool.prune_markers.
  intros ([a p1] & ([b q1] & H1 & [= _ <-])%exec_bind_Ret & ([c q2] & H2 & [= _ <-])%exec_bind_Ret)%exec_bind_Ret.
  eapply prune_markers_all; [|exact H2]. by eapply remove_invalid_all.
Qed.
Lemma drop_transaction_all p h o p' :
  pool_all (Pool.inner p) -> Pool.drop_transaction p h = Ret (o, p') -> pool_all (Pool.inner p').
Proof.
  intros [P1 P2]. unfold Pool.drop_transaction. intros ([rt rem] & Hr & [= _ <-])%exec_bind_Ret. split; [by eapply remove_loop_all|done].
Qed.

(** The transactions that the miner sees are those of the pool. *)
Definition iterator_all (it : TransactionsIterator.t) : Prop :=
  ready_map_all (TransactionsIterator.all it) /\ map_Forall (fun _ x => C (PoolTransactionRef.transaction (snd x))) (TransactionsIterator.awaiting it) /\
  refs_all (TransactionsIterator.independent it).
Lemma iterator_unlock_all it h : iterator_all it -> iterator_all (TransactionsIterator.unlock it h).
Proof.
  intros (I1 & I2 & I3). unfold TransactionsIterator.unlock.
  assert (forall n x aw, C (PoolTransactionRef.transaction x) -> map_Forall (fun _ x => C (PoolTransactionRef.transaction (snd x))) aw ->
    iterator_all (TransactionsIterator.independent_or_awaiting (TransactionsIterator.mk (TransactionsIterator.all it) aw (TransactionsIterator.independent it)) n x)) as Hi.
  { intros n x aw Hx Haw. unfold TransactionsIterator.independent_or_awaiting. cbn.
    case_decide; (split; [done|]; split; [|try done]); [done|by apply refs_insert|by apply map_Forall_insert_2]. }
  destruct (TransactionsIterator.awaiting it !! h) as [[n x]|] eqn:Ha.
  - apply Hi; [exact (I2 _ _ Ha)|by apply map_Forall_delete].
  - destruct (TransactionsIterator.all it !! h) as [tx|] eqn:Hh; cbn; [|by split_and!]. apply Hi; [apply accepted_submitted; apply (I1 _ _ Hh)|done].
Qed.
Definition seen (tx : PoolTransaction.t) : Prop := C tx /\ exists t, Q t /\ PoolTransaction.hash t = PoolTransaction.hash tx.
Lemma next_all n : forall it, iterator_all it ->
  iterator_all (snd (TransactionsIterator.next_loop n it)) /\
  match fst (TransactionsIterator.next_loop n it) with Some tx => seen tx | None => True end.
Proof.
  induction n as [|n IH]; intros it Hit; cbn [TransactionsIterator.next_loop]; destruct (BTree.next_back _) as [best|]; try done;
    destruct Hit as (I1 & I2 & I3); destruct (refs_take best _ I3) as [T1 T2];
    destruct (BTree.take best _) as [[x|] ind]; cbn in T1, T2; try by split_and!.
  destruct (TransactionsIterator.all _ !! _) as [rd|] eqn:Hrd; [|by apply IH].
  split; [|split; [done|]; destruct (I1 _ _ Hrd) as [Hh Hq]; by exists (ReadyTransaction.pool_tx rd)]. cbn. apply fold_all; [intros; by apply iterator_unlock_all|]. by split_and!.
Qed.
Lemma iteration_all r : ready_all r -> Forall seen (iteration r).
Proof.
  intros [R1 R2]. unfold iteration.
  assert (forall k it, iterator_all it -> Forall seen (fst (TransactionsIterator.collect_pow k it)) /\
    match snd (TransactionsIterator.collect_pow k it) with Some it' => iterator_all it' | None => True end) as Hk.
  { induction k as [|k IH]; intros it Hit; cbn [TransactionsIterator.collect_pow].
    - destruct (next_all (length (TransactionsIterator.independent it)) it Hit) as [N1 N2]. unfold TransactionsIterator.next.
      destruct (TransactionsIterator.next_loop _ _) as [[tx|] it']; cbn in *; [|by split; [constructor|]]. split; [by apply Forall_singleton|done].
    - destruct (IH it Hit) as [K1 K2]. destruct (TransactionsIterator.collect_pow k it) as [l [it1|]]; cbn in *; [|done].
      destruct (IH it1 K2) as [K3 K4]. destruct (TransactionsIterator.collect_pow k it1) as [l' o]. cbn in *. split; [by apply Forall_app|done]. }
  apply Hk. by split_and!.
Qed.

(** *** What becomes of the hash [h] *)
Variable h : TxHash.
Lemma unlocks_keys provided l : forall ready, fold_left (remove_from_unlocks provided) l ready !! h = None <-> ready !! h = None.
Proof.
  induction l as [|m l IH]; intros ready; [done|]. simpl. rewrite IH. unfold remove_from_unlocks.
  destruct (provided !! m) as [x|]; [|done]. destruct (ready !! x) as [tx|] eqn:Hx; [|done].
  destruct (decide (x = h)) as [->|Hne]; [by rewrite lookup_insert_eq, Hx|by rewrite lookup_insert_ne].
Qed.
Lemma remove_loop_gone f n : forall hs r removed r' removed',
  ready_all r -> remove_loop f n hs r removed = Ret (r', removed') ->
  (ready_tx r !! h = None -> ready_tx r' !! h = None) /\
  (h ∈ PoolTransaction.hash <$> removed' -> h ∈ PoolTransaction.hash <$> removed \/ ready_tx r' !! h = None) /\
  (h ∈ PoolTransaction.hash <$> removed' -> h ∈ PoolTransaction.hash <$> removed \/ is_Some (ready_tx r !! h)).
Proof.
  induction n as [|n IH]; intros hs; induction hs as [|x hs IHh]; intros r removed r' removed' Hr; simpl;
    try (intros [= <- <-]; by auto); destruct (ready_tx r !! x) as [tx|] eqn:Hx; try done; try (by apply IHh).
  intros Hl. assert (ready_all (snd (remove_found f r x tx))) as Hr1.
  { destruct Hr as [R1 R2]. split; simpl; [|by apply refs_remove]. apply fold_all; [intros; by apply remove_from_unlocks_all|by apply ready_delete]. }
  destruct (IH _ _ _ _ _ Hr1 Hl) as (G1 & G2 & G3). simpl in G1, G3. rewrite unlocks_keys in G1.
  destruct (proj1 Hr _ _ Hx) as [Hxh _]. split_and!.
  - intros Hn. apply G1. by rewrite lookup_delete_None; right.
  - intros Hin. destruct (G2 Hin) as [Hin'|?]; [|by right]. rewrite fmap_app, elem_of_app in Hin'. simpl in Hin'. rewrite list_elem_of_singleton in Hin'.
    destruct Hin' as [?|He]; [by left|]. right. apply G1. rewrite He, Hxh. by rewrite lookup_delete_eq.
  - intros Hin. destruct (G3 Hin) as [Hin'|Hs].
    + rewrite fmap_app, elem_of_app in Hin'. simpl in Hin'. rewrite list_elem_of_singleton in Hin'.
      destruct Hin' as [?|He]; [by left|]. right. rewrite He, Hxh, Hx. by eexists.
    + right. destruct (ready_tx r !! h) eqn:Hh; [by eexists|]. destruct Hs as [? Hs].
      assert (delete x (ready_tx r) !! h = None) as Hd by (by rewrite lookup_delete_None; right).
      rewrite (proj2 (unlocks_keys _ _ _) Hd) in Hs. done.
Qed.
Lemma ready_add_gone r tx res r' :
  ready_all r -> h <> PendingPoolTransaction.hash tx -> add_transaction r tx = Ret (res, r') ->
  (ready_tx r !! h = None -> ready_tx r' !! h = None) /\
  match res with Ok removed => h ∈ PoolTransaction.hash <$> removed -> ready_tx r' !! h = None | Err _ => r' = r end.
Proof.
  intros Hr Hne. unfold add_transaction. intros (_ & _ & (_ & _ & ([res1 r1] & Hrep & Hx)%exec_bind_Ret)%exec_bind_Ret)%exec_bind_Ret.
  assert ((ready_tx r !! h = None -> ready_tx r1 !! h = None) /\
    match res1 with Ok (removed, _) => h ∈ PoolTransaction.hash <$> removed -> ready_tx r1 !! h = None | Err _ => r1 = r end) as [G1 G2].
  { unfold replaced_transactions in Hrep. case_decide; [simplify_eq; split; [done|]; by intros ?%elem_of_nil|].
    destruct (check_replaced _ _ _ _); [|by simplify_eq]. apply exec_bind_Ret in Hrep as ([r2 rem] & Hl & Hrep). simplify_eq.
    destruct (remove_loop_gone _ _ _ _ _ _ _ Hr Hl) as (L1 & L2 & _). split; [done|]. intros Hin. by destruct (L2 Hin) as [?%elem_of_nil|?]. }
  destruct res1 as [[rep unl]|e]; [|by simplify_eq]. cbn in Hx. apply exec_bind_Ret in Hx as ([[ready ind] off] & Hl & Hx). simplify_eq. simpl.
  assert (ready_tx r1 !! h = None -> ready !! h = None) as Hk.
  { intros Hn. apply (foldM_all (fun st => fst (fst st) !! h = None)) in Hl; [done| |done].
    intros [[rd i] o] m [[rd' i'] o'] Hrd. cbn. destruct (_ !! m) as [y|]; [|by intros [= <- _ _]].
    intros (t & Ht & [= <- _ _])%exec_bind_Ret. cbn in *. unfold expect in Ht. destruct (rd !! y) eqn:Hy; [|done].
    rewrite lookup_insert_ne; [done|]. intros ->. congruence. }
  rewrite lookup_insert_ne by done. auto.
Qed.
Lemma ready_add_refused r tx e r' : add_transaction r tx = Ret (Err e, r') -> r' = r.
Proof.
  unfold add_transaction. intros (_ & _ & (_ & _ & ([res1 r1] & Hrep & Hx)%exec_bind_Ret)%exec_bind_Ret)%exec_bind_Ret.
  destruct res1 as [[rep unl]|e']; [apply exec_bind_Ret in Hx as ([[? ?] ?] & _ & Hx); by simplify_eq|]. simplify_eq.
  unfold replaced_transactions in Hrep. case_decide; [done|]. destruct (check_replaced _ _ _ _); [|by simplify_eq].
  apply exec_bind_Ret in Hrep as ([? ?] & _ & ?). by simplify_eq.
Qed.
Lemma ready_add_own r tx removed r' :
  ready_all r -> PendingPoolTransaction.hash tx = h -> add_transaction r tx = Ret (Ok removed, r') -> h ∉ PoolTransaction.hash <$> removed.
Proof.
  intros Hr Hh (_ & _ & (w & Hc & ([res1 r1] & Hrep & Hx)%exec_bind_Ret)%exec_bind_Ret)%exec_bind_Ret Hin.
  rewrite Hh in Hc. unfold contains in Hc. case_bool_decide as Hcn; [done|].
  destruct res1 as [[rep unl]|e']; [|done]. apply exec_bind_Ret in Hx as ([[? ?] ?] & _ & Hx). injection Hx as -> _.
  unfold replaced_transactions in Hrep. case_decide; [injection Hrep as <- _ _; by apply elem_of_nil in Hin|].
  destruct (check_replaced _ _ _ _); [|done]. apply exec_bind_Ret in Hrep as ([r2 rem] & Hl & Hrep). injection Hrep as -> _ _.
  destruct (remove_loop_gone _ _ _ _ _ _ _ Hr Hl) as (_ & _ & L3). by destruct (L3 Hin) as [?%elem_of_nil|?].
Qed.
Lemma mark_and_unlock_gone p ms p' unlocked :
  waiting_all p -> PendingTransactions.waiting_queue p !! h = None -> PendingTransactions.mark_and_unlock p ms = Ret (p', unlocked) ->
  PendingTransactions.waiting_queue p' !! h = None /\ h ∉ PendingPoolTransaction.hash <$> unlocked.
Proof.
  intros Hp Hn Hm.
  set (P := fun st : PendingTransactions.t * list PendingPoolTransaction.t => waiting_all (fst st) /\ PendingTransactions.waiting_queue (fst st) !! h = None /\
    h ∉ PendingPoolTransaction.hash <$> snd st).
  apply (foldM_all P) in Hm; [by destruct Hm| |split_and!; [done..|apply not_elem_of_nil]].
  intros [q un] m [q' un'] Hst. cbn. destruct (_ !! m) as [hs|]; [|by intros [= <- <-]].
  apply (foldM_all P (PendingTransactions.unlock_one m)); [|exact Hst].
  intros [q1 un1] x [q2 un2] (Hq1 & Hh1 & Hun1). cbn. intros (tx & Htx & Hx)%exec_bind_Ret. unfold expect in Htx. cbn in Hq1, Hh1, Hun1.
  destruct (PendingTransactions.waiting_queue q1 !! x) as [tx'|] eqn:Hxq; simplify_eq. pose proof (Hq1 _ _ Hxq) as [Hk Hqt].
  assert (x <> h) as Hne by congruence.
  destruct (PendingPoolTransaction.is_ready _); cbn in Hx; rewrite ?lookup_insert_eq in Hx; cbn in Hx; simplify_eq; unfold P; cbn.
  - split_and!; [apply map_Forall_delete; by apply map_Forall_insert_2|by rewrite lookup_delete_ne, lookup_insert_ne|].
    rewrite fmap_app, elem_of_app. simpl. rewrite list_elem_of_singleton. intros [?|He]; [done|]. by apply Hne.
  - split_and!; [by apply map_Forall_insert_2|by rewrite lookup_insert_ne|done].
Qed.
Lemma add_ready_loop_gone n : forall p q acc res p',
  pool_all p -> queued_all q -> PendingTransactions.waiting_queue (PoolInner.pending_transactions p) !! h = None ->
  h ∉ PendingPoolTransaction.hash <$> q ->
  (h ∈ PoolTransaction.hash <$> AddedReady.removed acc -> ready_tx (PoolInner.ready_transactions p) !! h = None) ->
  PoolInner.add_ready_loop n p q false acc = Ret (res, p') ->
  PendingTransactions.waiting_queue (PoolInner.pending_transactions p') !! h = None /\
  exists acc', res = Ok acc' /\ (h ∈ PoolTransaction.hash <$> AddedReady.removed acc' -> ready_tx (PoolInner.ready_transactions p') !! h = None).
Proof.
  induction n as [|n IH]; intros p [|cur q] acc res p' [P1 P2] Hq Hw Hnq Hacc; cbn [PoolInner.add_ready_loop]; try done;
    try (intros [= <- <-]; split; [done|by exists acc]).
  rewrite fmap_cons, not_elem_of_cons in Hnq. destruct Hnq as [Hnc Hnq].
  apply Forall_cons in Hq as [Hc Hq]. intros ([pd un] & Hm & ([r1 rt] & Ha & Hx)%exec_bind_Ret)%exec_bind_Ret.
  destruct (mark_and_unlock_all _ _ _ _ P2 Hm) as [P3 Hun]. destruct (mark_and_unlock_gone _ _ _ _ P2 Hw Hm) as [Hw' Hnu].
  pose proof (ready_add_all _ _ _ _ P1 Hc Ha) as P4. destruct (ready_add_gone _ _ _ _ P1 Hnc Ha) as [G1 G2].
  assert (queued_all (q ++ un)) by (by apply Forall_app).
  assert (h ∉ PendingPoolTransaction.hash <$> (q ++ un)) by (rewrite fmap_app, not_elem_of_app; done).
  destruct r1 as [rep|e]; (eapply IH in Hx; [exact Hx|by split|done|done|done|]); cbn.
  - rewrite fmap_app, elem_of_app. intros [?|?]; [by apply G1, Hacc|by apply G2].
  - intros ?. by apply G1, Hacc.
Qed.
End PoolAll.

Lemma pool_add_hash `{!HashIter TxMarker} `{!HashIter TxHash} `{!Channel} now p tx a p' :
  Pool.add_transaction now p tx = Ret (Ok a, p') -> added_hash a = PoolTransaction.hash tx.
Proof.
  assert (forall n q l b acc acc' q', PoolInner.add_ready_loop n q l b acc = Ret (Ok acc', q') -> AddedReady.hash acc' = AddedReady.hash acc) as Hl.
  { induction n as [|n IH]; intros q [|c l] b acc acc' q'; cbn [PoolInner.add_ready_loop]; try done; try (by intros [= <- _]).
    intros ([? ?] & _ & ([r rt] & _ & Hx)%exec_bind_Ret)%exec_bind_Ret. destruct r; [by apply IH in Hx|].
    destruct b; [done|by apply IH in Hx]. }
  unfold Pool.add_transaction. intros ([r1 inn] & Ha & Hx)%exec_bind_Ret. destruct r1 as [a'|e]; [|done].
  apply exec_bind_Ret in Hx as (p1 & _ & [= <- _]). unfold PoolInner.add_transaction in Ha.
  destruct (PoolInner.contains _ _); [done|]. destruct (negb _).
  - apply exec_bind_Ret in Ha as ([[]] & _ & Ha); by simplify_eq.
  - unfold PoolInner.add_ready_transaction in Ha. apply exec_bind_Ret in Ha as ([[acc|e] q] & Hloop%Hl & Ha) || idtac.
    apply exec_bind_Ret in Ha as ([[acc|e] q] & Hloop & Ha); [|done]. apply Hl in Hloop.
    destruct (existsb _ _); [apply exec_bind_Ret in Ha as ([? ?] & _ & ?); by simplify_eq|]. by simplify_eq.
Qed.

(** A submission that is refused leaves no trace in the queues. *)
Lemma pool_add_refused `{!HashIter TxMarker} `{!HashIter TxHash} `{!Channel} (C Q : PoolTransaction.t -> Prop) now p tx e p' :
  (forall t, Q t -> C t) -> pool_all C Q (Pool.inner p) -> C tx -> Pool.add_transaction now p tx = Ret (Err e, p') -> pool_all C Q (Pool.inner p').
Proof.
  intros HQC Hp Hc. unfold Pool.add_transaction. intros ([r1 inn] & Ha & Hx)%exec_bind_Ret.
  destruct r1 as [a|e']; [apply exec_bind_Ret in Hx as (? & _ & ?); by simplify_eq|]. simplify_eq. simpl.
  unfold PoolInner.add_transaction in Ha. destruct (PoolInner.contains _ _) eqn:Hcont; [by simplify_eq|].
  set (u := PendingPoolTransaction.new _ _ _) in Ha. destruct (negb (PendingPoolTransaction.is_ready u)).
  - apply exec_bind_Ret in Ha as ([r2 pd] & Hpd & Ha). unfold PendingTransactions.add_transaction in Hpd.
    apply exec_bind_Ret in Hpd as (_ & _ & (_ & _ & Hpd)%exec_bind_Ret). destruct Hp as [P1 P2].
    destruct (match _ with Some _ => _ | None => _ end); simplify_eq. by split.
  - set (h := PoolTransaction.hash tx). apply not_contains in Hcont as [Hnr Hnq]. fold h in Hnr, Hnq. destruct Hp as [P1 P2].
    set (Q' := fun t => C t /\ (Q t \/ PoolTransaction.hash t = h)).
    assert (forall t, Q' t -> C t) as HQC' by (by intros t [? _]).
    assert (forall t, Q t -> Q' t) as HQQ by (intros t Ht; split; auto).
    assert (ready_all C Q' (PoolInner.ready_transactions (Pool.inner p))) as P1'.
    { split; [|apply P1]. eapply map_Forall_impl; [apply P1|]. cbn. intros k t [? ?]. auto. }
    assert (waiting_all Q' (PoolInner.pending_transactions (Pool.inner p))) as P2'.
    { eapply map_Forall_impl; [apply P2|]. cbn. intros k t [? ?]. auto. }
    unfold PoolInner.add_ready_transaction in Ha. apply exec_bind_Ret in Ha as ([r2 p1] & Hl & Ha).
    cbn [PoolInner.add_ready_loop] in Hl. apply exec_bind_Ret in Hl as ([pd un] & Hm & ([r3 rt] & Hadd & Hl)%exec_bind_Ret).
    destruct (mark_and_unlock_all Q _ _ _ _ P2 Hm) as [P3 Hun]. destruct (mark_and_unlock_all Q' _ _ _ _ P2' Hm) as [P3' Hun'].
    destruct (mark_and_unlock_gone Q h _ _ _ _ P2 Hnq Hm) as [Hw Hnu].
    assert (Q' (PendingPoolTransaction.transaction u)) as Hu by (split; [done|by right]).
    pose proof (ready_add_all C Q' HQC' _ _ _ _ P1' Hu Hadd) as P4. destruct r3 as [rep|e3].
    + assert (pool_all C Q' p1) as [P5 P6] by (eapply (add_ready_loop_all C Q' HQC'); [|exact Hun'|exact Hl]; by split).
      eapply (add_ready_loop_gone C Q' HQC' h) in Hl as (Hw1 & acc & -> & Hacc); [|by split|done|done|done|].
      2: { cbn. intros Hin. by destruct (ready_add_own C Q' h _ u rep rt P1' eq_refl Hadd). }
      destruct (existsb _ _) eqn:Hex; [|done]. apply existsb_exists in Hex as (t & Ht%list_elem_of_In & Hth%Z.eqb_eq).
      assert (ReadyTransactions.ready_tx (PoolInner.ready_transactions p1) !! h = None) as Hgone.
      { apply Hacc. apply list_elem_of_fmap. by exists t. }
      apply exec_bind_Ret in Ha as ([rt' rem] & Hclr & [= _ <-]). split.
      * eapply remove_loop_all; [|exact Hclr]. split; [|apply P5]. intros k t' Hk. destruct (proj1 P5 _ _ Hk) as [Hkh [_ [?|Heq]]]; [done|].
        rewrite <- Hkh, Heq in Hk. congruence.
      * intros k t' Hk. destruct (P6 _ _ Hk) as [Hkh [_ [?|Heq]]]; [done|]. unfold PendingPoolTransaction.hash in Hkh.
        rewrite <- Hkh, Heq in Hk. cbn in Hk. congruence.
    + apply ready_add_refused in Hadd as ->. cbn in Hl. simplify_eq. by split.
Qed.

(** ** A concrete pool

    One sender; the nonce of a hash is its remainder modulo 100.  The second
    transaction arrives before the first, and a third replaces nothing. *)
Module Sample.
Definition tx (h price : Z) : PoolTransaction.t :=
  let n := h mod 100 in
  PoolTransaction.mk
    (mkPendingTransaction
       {| mtx_transaction := Legacy (LegacyTransaction.mk n price 21000 (Call 9) 0 [] (Build_Signature 0 0 27));
          impersonated_sender := None |} 1 h)
    (nonce_requires (fun _ => 1) (fun h => h mod 100) (fun _ => true) h)
    [to_marker n 1] price.

#[export] Instance universe : Universe := nonce_universe (fun _ => 1) (fun h => h mod 100) (fun _ => true) (fun _ => True).
#[export] Instance channel : Channel := {| Sender := list TxHash; try_send s h := (Sent, s ++ [h]) |}.

Lemma tx_wf h price : wf_tx (tx h price).
Proof. done. Qed.

Definition get {A} (d : A) (e : exec A) : A := match e with Ret a => a | Panic _ => d end.
Definition new : Pool.t := Pool.mk PoolInner.empty [].
Definition p1 : Pool.t := get new (run_op new (OpAdd 0 (tx 101 7))).
Definition p2 : Pool.t := get new (run_op p1 (OpAdd 1 (tx 100 5))).
Definition p3 : Pool.t := get new (run_op p2 (OpAdd 2 (tx 102 9))).

Lemma p3_reachable : reachable p3.
Proof.
  apply (reach_step p2 (OpAdd 2 (tx 102 9))); [|split; [vm_compute; discriminate|apply tx_wf]|vm_compute; reflexivity].
  apply (reach_step p1 (OpAdd 1 (tx 100 5))); [|split; [vm_compute; discriminate|apply tx_wf]|vm_compute; reflexivity].
  apply (reach_step new (OpAdd 0 (tx 101 7))); [|split; [vm_compute; discriminate|apply tx_wf]|vm_compute; reflexivity].
  apply reach_new.
Defined.

(** What the three submissions led to. *)
Example iteration_order :
  PoolTransaction.hash <$> iteration (PoolInner.ready_transactions (Pool.inner p3)) = [100; 101; 102].
Proof. vm_compute. reflexivity. Qed.

Lemma pool_transaction_of_wf_witness :
  PoolTransaction.hash (tx 101 7) = 101 /\ wf_tx (tx 101 7).
Proof.
  apply (pool_transaction_of_wf Fees (PoolTransaction.pending_transaction (tx 101 7)) 0 (tx 101 7)
    (fun _ => 1) (fun h => h mod 100) (fun _ => true)); try reflexivity; vm_compute; split; discriminate.
Defined.

Lemma pool_never_panics_witness :
  exists p', run_op p3 (OpMined [tx 100 5] []) = Ret p' /\ reachable p'.
Proof.
  apply (pool_never_panics p3 _ p3_reachable). split; [vm_compute; discriminate|]. constructor; [apply tx_wf|constructor].
Defined.

Lemma pool_queues_consistent_witness :
  PendingTransactions.waiting_queue (PoolInner.pending_transactions (Pool.inner p3)) !! 100 = None.
Proof. apply (pool_queues_consistent p3 p3_reachable). vm_compute. eexists. reflexivity. Defined.

Lemma pool_add_error_witness :
  Pool.inner (get new (run_op p3 (OpAdd 3 (tx 200 5)))) = Pool.inner p3 /\
  (ReplacementUnderpriced (tx 200 5) = AlreadyImported (tx 200 5) /\ Pool.contains p3 200 = true \/
   ReplacementUnderpriced (tx 200 5) = ReplacementUnderpriced (tx 200 5) /\ outpriced (Pool.inner p3) (tx 200 5)).
Proof.
  refine (pool_add_error p3 3 (tx 200 5) _ _ p3_reachable _ _).
  - split; [vm_compute; discriminate|apply tx_wf].
  - vm_compute. reflexivity.
Defined.

Definition added_200 : AddedTransaction * Pool.t :=
  match Pool.add_transaction 3 p3 (tx 200 6) with
  | Ret (Ok a, p) => (a, p)
  | _ => (AddedPendingTx 0, new)
  end.
Lemma pool_add_ok_witness : added_hash (fst added_200) = 200.
Proof.
  refine (proj1 (pool_add_ok p3 3 (tx 200 6) (fst added_200) (snd added_200) p3_reachable _ _)).
  - split; [vm_compute; discriminate|apply tx_wf].
  - vm_compute. reflexivity.
Defined.

Lemma mined_transactions_leave_witness :
  exists res p', Pool.on_mined_block p3 [tx 100 5] [tx 102 9] = Ret (res, p') /\
    Pool.contains p' 100 = false /\ Pool.contains p' 102 = false.
Proof.
  destruct (mined_transactions_leave p3 [tx 100 5] [tx 102 9] p3_reachable) as (res & p' & Hm & Hinc & Hinv & _).
  - split; [vm_compute; discriminate|]. constructor; [apply tx_wf|constructor].
  - exists res, p'. split_and!; [exact Hm|apply (Hinc (tx 100 5)); [left|vm_compute; eexists; reflexivity]|
      apply (Hinv (tx 102 9)); left].
Defined.

Lemma ready_iteration_witness :
  iteration (PoolInner.ready_transactions (Pool.inner p3)) ≡ₚ
  ReadyTransaction.pool_tx <$>
    (map_to_list (ReadyTransactions.ready_tx (PoolInner.ready_transactions (Pool.inner p3)))).*2.
Proof. apply (ready_iteration p3 p3_reachable). Defined.

Lemma drop_removes_dependents_witness :
  exists o p', Pool.drop_transaction p3 101 = Ret (o, p') /\ o = Some (tx 101 7).
Proof.
  destruct (drop_removes_dependents p3 101 p3_reachable) as (o & p' & Hd & _ & _ & Ho).
  exists o, p'. split; [exact Hd|]. rewrite Ho. vm_compute. reflexivity.
Defined.

(** The link that dropping leaves behind makes the miner see a transaction
    twice: 101 is promoted after 100, dropped, and submitted again without
    requirements, as the RPC layer does when the nonce before it is known. *)
Definition independent_101 : PoolTransaction.t :=
  PoolTransaction.mk (PoolTransaction.pending_transaction (tx 101 7)) [] [to_marker 1 1] 7.
Definition dropped_101 : Pool.t := get new (run_op p2 (OpDrop 101)).
Definition resubmitted : Pool.t := get new (run_op dropped_101 (OpAdd 3 independent_101)).
Theorem resubmitted_yielded_twice :
  PoolTransaction.hash <$> iteration (PoolInner.ready_transactions (Pool.inner resubmitted)) = [101; 100; 101].
Proof. vm_compute. reflexivity. Qed.

Definition parent : ReadyTransaction.t :=
  default (ReadyTransaction.mk (PoolTransactionRef.mk (tx 0 0) 0) [] 0)
    (ReadyTransactions.ready_tx (PoolInner.ready_transactions (Pool.inner p3)) !! 100).
Lemma drop_keeps_stale_link_witness :
  101 ∈ ReadyTransaction.unlocks parent /\
  exists o p', Pool.drop_transaction p3 101 = Ret (o, p') /\
    ReadyTransactions.ready_tx (PoolInner.ready_transactions (Pool.inner p')) !! 101 = None /\
    ReadyTransactions.ready_tx (PoolInner.ready_transactions (Pool.inner p')) !! 100 = Some parent.
Proof.
  assert (101 ∈ ReadyTransaction.unlocks parent) as Hin by (refine (bool_decide_unpack _ _); vm_compute; exact I).
  split; [exact Hin|]. apply (drop_keeps_stale_link p3 101 100 parent p3_reachable); [vm_compute; reflexivity|exact Hin].
Defined.
End Sample.
