(* ===== verification/Db.v ===== *)
(** * The node's database layer (anvil/src/eth/backend/db.rs)

    The default methods of the [Db] trait over the operations of a database,
    and how revm's [CacheDB] is moved into a serialisable snapshot and back
    when a historic state is written to disk. *)
From S2P Require Import Prelude.
Open Scope Z_scope.

Abbreviation Bytecode := (list Z) (only parsing).

Module AccountInfo.
Record t := mk { balance : Z; nonce : Z; code_hash : H256; code : option Bytecode }.
#[global] Instance t_eq_dec : EqDecision t.
Proof. solve_decision. Defined.
End AccountInfo.

(** [KECCAK_EMPTY], the hash of the empty code. *)
Definition KECCAK_EMPTY : H256 :=
  0xc5d2460186f7233c927e7db2dcc703c0e500b653ca82273b7bfad8045d85a470.

(** [AccountInfo::default()] *)
Definition default_account : AccountInfo.t := AccountInfo.mk 0 0 KECCAK_EMPTY None.

Module SerializableAccountRecord.
Record t := mk { nonce : Z; balance : Z; code : list byte; storage : list (Z * Z) }.
End SerializableAccountRecord.

(** ** The [Db] trait

    The required methods; reading can fail when the state is fetched from a
    remote node. *)
Class Db := {
  database : Type;
  DatabaseError : Type;
  basic : database -> Address -> result (option AccountInfo.t) DatabaseError;
  insert_account : database -> Address -> AccountInfo.t -> database;
  set_storage_at : database -> Address -> Z -> Z -> result database DatabaseError }.

Section DbDefaults.
Context `{!Db}.

(** Rust's [?] *)
Definition result_bind {A B E} (r : result A E) (f : A -> result B E) : result B E :=
  match r with Ok a => f a | Err e => Err e end.

Definition set_nonce (d : database) (address : Address) (nonce : Z) : result database DatabaseError :=
  result_bind (basic d address) (fun acc =>
    let info := default default_account acc in
    Ok (insert_account d address
          (AccountInfo.mk (AccountInfo.balance info) nonce (AccountInfo.code_hash info) (AccountInfo.code info)))).

Definition set_balance (d : database) (address : Address) (balance : Z) : result database DatabaseError :=
  result_bind (basic d address) (fun acc =>
    let info := default default_account acc in
    Ok (insert_account d address
          (AccountInfo.mk balance (AccountInfo.nonce info) (AccountInfo.code_hash info) (AccountInfo.code info)))).

(** [keccak256] is a parameter. *)
Definition set_code (keccak256 : list byte -> H256) (d : database) (address : Address) (code : list byte)
    : result database DatabaseError :=
  result_bind (basic d address) (fun acc =>
    let info := default default_account acc in
    let code_hash := match code with [] => KECCAK_EMPTY | _ => keccak256 code end in
    Ok (insert_account d address
          (AccountInfo.mk (AccountInfo.balance info) (AccountInfo.nonce info) code_hash (Some code)))).

(** The storage of one account of a loaded state. *)
Fixpoint load_storage (d : database) (addr : Address) (storage : list (Z * Z)) : result database DatabaseError :=
  match storage with
  | [] => Ok d
  | (k, v) :: storage => result_bind (set_storage_at d addr k v) (fun d => load_storage d addr storage)
  end.

(** [load_state]: the accounts of a dump in key order. *)
Fixpoint load_state (d : database) (accounts : list (Address * SerializableAccountRecord.t))
    : result database DatabaseError :=
  match accounts with
  | [] => Ok d
  | (addr, account) :: accounts =>
      let old_account_nonce :=
        match basic d addr with
        | Ok (Some acc) => AccountInfo.nonce acc
        | _ => 0
        end in
      let nonce := Z.max old_account_nonce (SerializableAccountRecord.nonce account) in
      let d := insert_account d addr
                 (AccountInfo.mk (SerializableAccountRecord.balance account) nonce KECCAK_EMPTY
                    (match SerializableAccountRecord.code account with [] => None | c => Some c end)) in
      result_bind (load_storage d addr (SerializableAccountRecord.storage account)) (fun d => load_state d accounts)
  end.

(** What the methods rely on: an inserted account reads back with its balance
    and nonce (its code hash is recomputed), other accounts are untouched,
    and storage writes do not touch accounts. *)
Class DbLaws := {
  basic_insert_eq d a i : exists i', basic (insert_account d a i) a = Ok (Some i') /\
    AccountInfo.balance i' = AccountInfo.balance i /\ AccountInfo.nonce i' = AccountInfo.nonce i;
  basic_insert_ne d a b i : a <> b -> basic (insert_account d a i) b = basic d b;
  basic_set_storage d a k v d' b : set_storage_at d a k v = Ok d' -> basic d' b = basic d b }.
Context `{!DbLaws}.

Lemma load_storage_basic storage : forall d addr d' b,
  load_storage d addr storage = Ok d' -> basic d' b = basic d b.
Proof.
  induction storage as [|[k v] storage IH]; intros d addr d' b; simpl; [by intros [= ->]|].
  destruct (set_storage_at d addr k v) as [d1|e] eqn:Hs; simpl; [|done].
  intros Hl. rewrite (IH _ _ _ _ Hl). by eapply basic_set_storage.
Qed.

(** The nonce that reads of an account see. *)
Definition nonce_of (d : database) (a : Address) : Z :=
  match basic d a with Ok (Some acc) => AccountInfo.nonce acc | _ => 0 end.

Lemma load_state_other accounts : forall d d' a,
  a ∉ accounts.*1 -> load_state d accounts = Ok d' -> basic d' a = basic d a.
Proof.
  induction accounts as [|[addr acc] accounts IH]; intros d d' a Hni; simpl; [by intros [= ->]|].
  apply not_elem_of_cons in Hni as [Hne Hni].
  destruct (load_storage _ _ _) as [d1|e] eqn:Hs; simpl; [|done]. intros Hl.
  rewrite (IH _ _ _ Hni Hl), (load_storage_basic _ _ _ _ _ Hs). by apply basic_insert_ne.
Qed.

(** Loading a dumped state gives every account of the dump the dumped
    balance and the greater of its old and its dumped nonce, so that no nonce
    is ever used twice, and leaves every other account as it was. *)
Theorem load_state_spec accounts : forall d d',
  NoDup accounts.*1 -> load_state d accounts = Ok d' ->
  (forall a r, (a, r) ∈ accounts -> exists acc, basic d' a = Ok (Some acc) /\
     AccountInfo.balance acc = SerializableAccountRecord.balance r /\
     AccountInfo.nonce acc = Z.max (nonce_of d a) (SerializableAccountRecord.nonce r)) /\
  (forall a, a ∉ accounts.*1 -> basic d' a = basic d a).
Proof.
  intros d d' Hnd Hl. split; [|intros a Ha; by eapply load_state_other].
  revert d d' Hnd Hl. induction accounts as [|[addr acc] accounts IH]; intros d d' Hnd; simpl.
  { by intros _ a r ?%elem_of_nil. }
  simpl in Hnd. apply NoDup_cons in Hnd as [Hni Hnd].
  destruct (load_storage _ _ _) as [d1|e] eqn:Hs; simpl; [|done]. intros Hl a r.
  rewrite elem_of_cons. intros [[= -> ->]|Hin].
  - rewrite (load_state_other _ _ _ _ Hni Hl), (load_storage_basic _ _ _ _ _ Hs).
    destruct (basic_insert_eq d addr (AccountInfo.mk (SerializableAccountRecord.balance acc)
      (Z.max (nonce_of d addr) (SerializableAccountRecord.nonce acc)) KECCAK_EMPTY
      (match SerializableAccountRecord.code acc with [] => None | c => Some c end))) as (i & Hi & Hb & Hn).
    exists i. split; [exact Hi|]. by rewrite Hb, Hn.
  - destruct (IH d1 d' Hnd Hl a r Hin) as (i & Hi & Hb & Hn). exists i. split_and!; [done..|].
    rewrite Hn. f_equal. unfold nonce_of. rewrite (load_storage_basic _ _ _ _ _ Hs), basic_insert_ne; [done|].
    intros ->. apply Hni. apply list_elem_of_fmap. by exists (a, r).
Qed.
End DbDefaults.

(** An in-memory instance of the interface, for concrete runs. *)
Module MapDb.
#[export] Instance db : Db := {|
  database := gmap Address AccountInfo.t;
  DatabaseError := unit;
  basic d a := Ok (d !! a);
  insert_account d a i := <[a := i]> d;
  set_storage_at d a k v := Ok d |}.
#[export] Instance laws : DbLaws.
Proof.
  split; simpl.
  - intros d a i. exists i. by rewrite lookup_insert_eq.
  - intros d a b i Hne. by rewrite lookup_insert_ne.
  - intros d a k v d' b Hd. by simplify_eq.
Qed.

Definition before : database := <[7 := AccountInfo.mk 1 9 KECCAK_EMPTY None]> ∅.
Definition after : database := <[7 := AccountInfo.mk 5 9 KECCAK_EMPTY None]> ∅.
Lemma load_state_spec_witness :
  exists acc, basic after 7 = Ok (Some acc) /\
    AccountInfo.balance acc = 5 /\ AccountInfo.nonce acc = Z.max (nonce_of before 7) 3.
Proof.
  assert (load_state before [(7, SerializableAccountRecord.mk 3 5 [] [])] = Ok after) as Hl by reflexivity.
  destruct (load_state_spec [(7, SerializableAccountRecord.mk 3 5 [] [])] before after (NoDup_singleton 7) Hl) as [Hin _].
  apply (Hin 7 (SerializableAccountRecord.mk 3 5 [] [])). left.
Defined.
End MapDb.

(** ** [CacheDB] and [StateSnapshot]

    [account_state] only matters to revm; [contracts] maps code hashes to
    code. *)
Inductive AccountState := NotExisting | Touched | StorageCleared | NoState.
Module DbAccount.
Record t := mk { info : AccountInfo.t; account_state : AccountState; storage : gmap Z Z }.
End DbAccount.

Module StateSnapshot.
Record t := mk {
  accounts : gmap Address AccountInfo.t;
  storage : gmap Address (gmap Z Z);
  block_hashes : gmap Z H256 }.
End StateSnapshot.

Module CacheDB.
Record t := mk {
  accounts : gmap Address DbAccount.t;
  contracts : gmap H256 Bytecode;
  block_hashes : gmap Z H256 }.

Section Snapshot.
Context `{!HashIter Address}.

(** The entries of a [HashMap] in iteration order. *)
Definition hash_map_iter {A} (m : gmap Address A) : list (Address * A) :=
  omap (fun k => pair k <$> m !! k) (hash_iter (dom m)).

Definition set_info_code (code : option Bytecode) (i : AccountInfo.t) : AccountInfo.t :=
  AccountInfo.mk (AccountInfo.balance i) (AccountInfo.nonce i) (AccountInfo.code_hash i) code.

(** One account of [clear_into_snapshot]: its code is moved out of
    [contracts]. *)
Definition clear_account
    (st : gmap H256 Bytecode * gmap Address AccountInfo.t * gmap Address (gmap Z Z))
    (entry : Address * DbAccount.t)
    : gmap H256 Bytecode * gmap Address AccountInfo.t * gmap Address (gmap Z Z) :=
  let '(contracts, accounts, account_storage) := st in
  let '(addr, acc) := entry in
  let account_storage := <[addr := DbAccount.storage acc]> account_storage in
  let info := DbAccount.info acc in
  let info := set_info_code (contracts !! AccountInfo.code_hash info) info in
  (delete (AccountInfo.code_hash info) contracts, <[addr := info]> accounts, account_storage).

Definition clear_into_snapshot (d : t) : t * StateSnapshot.t :=
  let '(contracts, accs, account_storage) :=
    fold_left clear_account (hash_map_iter (accounts d)) (contracts d, ∅, ∅) in
  (mk ∅ contracts ∅, StateSnapshot.mk accs account_storage (block_hashes d)).

(** One account of [init_from_snapshot]. *)
Definition init_account
    (st : gmap H256 Bytecode * gmap Address DbAccount.t * gmap Address (gmap Z Z))
    (entry : Address * AccountInfo.t)
    : gmap H256 Bytecode * gmap Address DbAccount.t * gmap Address (gmap Z Z) :=
  let '(contracts, accounts, storage) := st in
  let '(addr, acc) := entry in
  let contracts := match AccountInfo.code acc with
                   | Some code => <[AccountInfo.code_hash acc := code]> contracts
                   | None => contracts
                   end in
  (contracts,
   <[addr := DbAccount.mk (set_info_code None acc) NoState (default ∅ (storage !! addr))]> accounts,
   delete addr storage).

Definition init_from_snapshot (d : t) (snapshot : StateSnapshot.t) : t :=
  let '(contracts, accs, _) :=
    fold_left init_account (hash_map_iter (StateSnapshot.accounts snapshot))
      (contracts d, accounts d, StateSnapshot.storage snapshot) in
  mk accs contracts (StateSnapshot.block_hashes snapshot).

(** ** Lemmas on the iteration *)
Lemma hash_map_iter_keys {A} (m : gmap Address A) : (hash_map_iter m).*1 = hash_iter (dom m).
Proof.
  unfold hash_map_iter. assert (forall k, k ∈ hash_iter (dom m) -> is_Some (m !! k)) as Hd.
  { intros k. by rewrite elem_of_hash_iter, elem_of_dom. }
  revert Hd. induction (hash_iter (dom m)) as [|k l IH]; intros Hd; [done|]. simpl.
  destruct (Hd k) as [x Hx]; [by left|]. rewrite Hx. simpl. f_equal. apply IH. intros k' Hk'. apply Hd. by right.
Qed.

Lemma elem_of_hash_map_iter {A} (m : gmap Address A) k x : (k, x) ∈ hash_map_iter m <-> m !! k = Some x.
Proof.
  unfold hash_map_iter. rewrite list_elem_of_omap. split.
  - intros (k' & _ & (y & Hy & [= <- <-])%fmap_Some). done.
  - intros Hx. exists k. split; [rewrite elem_of_hash_iter, elem_of_dom; by eauto|]. by rewrite Hx.
Qed.

Lemma NoDup_hash_map_iter {A} (m : gmap Address A) : NoDup (hash_map_iter m).*1.
Proof. rewrite hash_map_iter_keys. apply NoDup_hash_iter. Qed.

(** ** The round trip *)

(** Where [clear_account] has put everything after a list of accounts with
    distinct addresses: the accounts and their storage under their addresses,
    and every code either still among the contracts or with an account. *)
Lemma clear_accounts l : forall c0 accs0 st0 c accs st,
  NoDup l.*1 -> fold_left clear_account l (c0, accs0, st0) = (c, accs, st) ->
  (forall a acc, (a, acc) ∈ l -> st !! a = Some (DbAccount.storage acc) /\
     exists code, accs !! a = Some (set_info_code code (DbAccount.info acc)) /\
       forall b, code = Some b -> c0 !! AccountInfo.code_hash (DbAccount.info acc) = Some b) /\
  (forall a, a ∉ l.*1 -> accs !! a = accs0 !! a /\ st !! a = st0 !! a) /\
  (forall h b, c !! h = Some b -> c0 !! h = Some b) /\
  (forall h b, c0 !! h = Some b -> c !! h = Some b \/
     exists a i, a ∈ l.*1 /\ accs !! a = Some i /\ AccountInfo.code_hash i = h /\ AccountInfo.code i = Some b).
Proof.
  induction l as [|[a0 acc0] l IH]; intros c0 accs0 st0 c accs st Hnd; cbn [fold_left].
  { intros [= <- <- <-]. split_and!; [by intros a acc ?%elem_of_nil|done|done|by left]. }
  simpl in Hnd. apply NoDup_cons in Hnd as [Hni Hnd]. cbn [clear_account].
  set (H0 := AccountInfo.code_hash (DbAccount.info acc0)). intros Hf.
  destruct (IH _ _ _ _ _ _ Hnd Hf) as (I1 & I2 & I3 & I4). simpl in I3, I4. fold H0 in I1, I3, I4.
  destruct (I2 a0 Hni) as [Ha0 Hs0]. rewrite lookup_insert_eq in Ha0. rewrite lookup_insert_eq in Hs0. split_and!.
  - intros a acc [[= -> ->]|Hin]%elem_of_cons.
    + split; [done|]. eexists. split; [exact Ha0|]. done.
    + destruct (I1 a acc Hin) as (Hst & code & Hacc & Hcode). split; [done|]. exists code. split; [done|].
      intros b Hb. specialize (Hcode b Hb). simpl in Hcode. by apply lookup_delete_Some in Hcode as [_ ?].
  - intros a [Hne Ha]%not_elem_of_cons. destruct (I2 a Ha) as [-> ->]. by rewrite !lookup_insert_ne.
  - intros h b Hb. apply I3 in Hb. by apply lookup_delete_Some in Hb as [_ ?].
  - intros h b Hb. destruct (decide (H0 = h)) as [<-|Hne].
    + right. exists a0. eexists. split; [by left|]. split; [exact Ha0|]. by split.
    + destruct (I4 h b) as [?|(a & i & Ha & Hi)]; [by rewrite lookup_delete_ne|by left|].
      right. exists a, i. split; [by right|done].
Qed.

Lemma init_accounts l : forall c0 accs0 st0 c accs st,
  NoDup l.*1 -> fold_left init_account l (c0, accs0, st0) = (c, accs, st) ->
  (forall a i, (a, i) ∈ l ->
     accs !! a = Some (DbAccount.mk (set_info_code None i) NoState (default ∅ (st0 !! a)))) /\
  (forall a, a ∉ l.*1 -> accs !! a = accs0 !! a) /\
  (forall h b, c !! h = Some b -> c0 !! h = Some b \/
     exists a i, (a, i) ∈ l /\ AccountInfo.code_hash i = h /\ AccountInfo.code i = Some b) /\
  (forall h, is_Some (c0 !! h) \/
     (exists a i b, (a, i) ∈ l /\ AccountInfo.code_hash i = h /\ AccountInfo.code i = Some b) -> is_Some (c !! h)).
Proof.
  induction l as [|[a0 i0] l IH]; intros c0 accs0 st0 c accs st Hnd; cbn [fold_left].
  { intros [= <- <- <-]. split_and!; [by intros a i ?%elem_of_nil|done|by left|].
    intros h [?|(a & i & b & ?%elem_of_nil & _)]; done. }
  simpl in Hnd. apply NoDup_cons in Hnd as [Hni Hnd]. cbn [init_account]. intros Hf.
  destruct (IH _ _ _ _ _ _ Hnd Hf) as (I1 & I2 & I3 & I4). split_and!.
  - intros a i [[= -> ->]|Hin]%elem_of_cons; [by rewrite (I2 a0 Hni), lookup_insert_eq|].
    rewrite (I1 a i Hin). rewrite lookup_delete_ne; [done|]. intros ->. apply Hni.
    apply list_elem_of_fmap. by exists (a, i).
  - intros a [Hne Ha]%not_elem_of_cons. rewrite (I2 a Ha). by rewrite lookup_insert_ne.
  - intros h b Hb. destruct (I3 h b Hb) as [Hc|(a & i & Hin & ?)]; [|right; exists a, i; split; [by right|done]].
    destruct (AccountInfo.code i0) as [code|] eqn:Hcode; [|by left].
    apply lookup_insert_Some in Hc as [[<- <-]|[_ ?]]; [|by left]. right. exists a0, i0. split; [by left|done].
  - intros h Hh. apply I4.
    assert (is_Some (c0 !! h) -> is_Some (match AccountInfo.code i0 with
      | Some code => <[AccountInfo.code_hash i0 := code]> c0 | None => c0 end !! h)) as Hmono.
    { intros Hs. destruct (AccountInfo.code i0); [rewrite lookup_insert_is_Some'; by right|done]. }
    destruct Hh as [Hs|(a & i & b & [[= -> ->]|Hin]%elem_of_cons & Hhash & Hcode)]; [left; by apply Hmono| |].
    + left. rewrite Hcode, Hhash. rewrite lookup_insert_eq. by eauto.
    + right. by exists a, i, b.
Qed.

(** What a reader sees of a database: the accounts without the place their
    code is kept in. *)
Definition view (acc : DbAccount.t) : AccountInfo.t * gmap Z Z :=
  (set_info_code None (DbAccount.info acc), DbAccount.storage acc).

(** Two databases that answer every read alike, up to where an account's code
    is kept. *)
Record equiv (d d' : t) : Prop := {
  eq_accounts a : view <$> accounts d !! a = view <$> accounts d' !! a;
  eq_contracts : contracts d = contracts d';
  eq_block_hashes : block_hashes d = block_hashes d' }.
#[global] Instance equiv_equivalence : Equivalence equiv.
Proof.
  split.
  - by split.
  - intros d1 d2 [A B C]. by split.
  - intros d1 d2 d3 [A1 B1 C1] [A2 B2 C2]. split; [intros a; by rewrite A1|congruence..].
Qed.

(** Moving a cached state into a snapshot and back. *)
Lemma snapshot_equiv d :
  let '(cleared, snapshot) := clear_into_snapshot d in
  accounts cleared = ∅ /\ equiv (init_from_snapshot cleared snapshot) d.
Proof.
  unfold clear_into_snapshot.
  destruct (fold_left clear_account _ _) as [[c accs] st] eqn:Hc.
  destruct (clear_accounts _ _ _ _ _ _ _ (NoDup_hash_map_iter (accounts d)) Hc) as (C1 & C2 & C3 & C4).
  unfold init_from_snapshot. simpl.
  destruct (fold_left init_account _ _) as [[c' accs'] st'] eqn:Hi.
  destruct (init_accounts _ _ _ _ _ _ _ (NoDup_hash_map_iter accs) Hi) as (I1 & I2 & I3 & I4). simpl.
  assert (forall a, a ∈ (hash_map_iter (accounts d)).*1 <-> is_Some (accounts d !! a)) as Hkeys.
  { intros a. by rewrite hash_map_iter_keys, elem_of_hash_iter, elem_of_dom. }
  assert (forall a i, accs !! a = Some i -> exists acc, accounts d !! a = Some acc /\
    AccountInfo.code_hash i = AccountInfo.code_hash (DbAccount.info acc) /\
    forall b, AccountInfo.code i = Some b -> contracts d !! AccountInfo.code_hash i = Some b) as Haccs.
  { intros a i Ha. destruct (accounts d !! a) as [acc|] eqn:Hacc.
    - destruct (C1 a acc) as (_ & code & Hcode & Hb); [by apply elem_of_hash_map_iter|]. simplify_eq.
      exists acc. done.
    - destruct (C2 a) as [Hn _]; [|by rewrite Hn, lookup_empty in Ha]. rewrite Hkeys, Hacc. by intros [? ?]. }
  split; [done|]. split; simpl; [| |done].
  - intros a. destruct (accounts d !! a) as [acc|] eqn:Hacc.
    + destruct (C1 a acc) as (Hst & code & Hcode & _); [by apply elem_of_hash_map_iter|].
      rewrite (I1 a _ (proj2 (elem_of_hash_map_iter accs a _) Hcode)), Hst. done.
    + rewrite (I2 a), lookup_empty; [done|]. rewrite hash_map_iter_keys, elem_of_hash_iter, elem_of_dom.
      intros [i (acc & ? & _)%Haccs]. congruence.
  - apply map_eq. intros h. destruct (contracts d !! h) as [b|] eqn:Hb.
    + destruct (I4 h) as [b' Hb'].
      { destruct (C4 h b Hb) as [?|(a & i & _ & Ha & Hhash & Hcode)]; [left; by eauto|right].
        exists a, i, b. by rewrite elem_of_hash_map_iter. }
      rewrite Hb'. destruct (I3 h b' Hb') as [Hx|(a & i & Ha%elem_of_hash_map_iter & <- & Hcode)].
      * apply C3 in Hx. congruence.
      * destruct (Haccs a i Ha) as (_ & _ & _ & Hx). rewrite (Hx b' Hcode) in Hb. done.
    + destruct (c' !! h) as [b'|] eqn:Hb'; [|done].
      destruct (I3 h b' Hb') as [Hx|(a & i & Ha%elem_of_hash_map_iter & <- & Hcode)].
      * apply C3 in Hx. congruence.
      * destruct (Haccs a i Ha) as (_ & _ & _ & Hx). rewrite (Hx b' Hcode) in Hb. done.
Qed.

(** ** Reads

    [basic], [code] (from the account or, by its hash, from the contracts),
    [storage] and [block_hash]. *)
Definition read_basic (d : t) (a : Address) : option (Z * Z * H256) :=
  (fun acc => (AccountInfo.balance (DbAccount.info acc), AccountInfo.nonce (DbAccount.info acc),
               AccountInfo.code_hash (DbAccount.info acc))) <$> accounts d !! a.
Definition read_code (d : t) (a : Address) : option Bytecode :=
  acc ← accounts d !! a;
  match AccountInfo.code (DbAccount.info acc) with
  | Some code => Some code
  | None => contracts d !! AccountInfo.code_hash (DbAccount.info acc)
  end.
Definition read_storage (d : t) (a : Address) (slot : Z) : option Z :=
  acc ← accounts d !! a; DbAccount.storage acc !! slot.

(** Code that is kept with an account is also among the contracts. *)
Definition code_consistent (d : t) : Prop :=
  forall a acc code, accounts d !! a = Some acc -> AccountInfo.code (DbAccount.info acc) = Some code ->
    contracts d !! AccountInfo.code_hash (DbAccount.info acc) = Some code.

Lemma clear_code_none d a acc :
  let '(cleared, snapshot) := clear_into_snapshot d in
  accounts (init_from_snapshot cleared snapshot) !! a = Some acc -> AccountInfo.code (DbAccount.info acc) = None.
Proof.
  unfold clear_into_snapshot. destruct (fold_left clear_account _ _) as [[c accs] st]. unfold init_from_snapshot. simpl.
  destruct (fold_left init_account _ _) as [[c' accs'] st'] eqn:Hi.
  destruct (init_accounts _ _ _ _ _ _ _ (NoDup_hash_map_iter accs) Hi) as (I1 & I2 & _). simpl. intros Ha.
  destruct (accs !! a) as [i|] eqn:Hacc.
  - rewrite (I1 a i) in Ha by (by apply elem_of_hash_map_iter). by injection Ha as <-.
  - rewrite (I2 a), lookup_empty in Ha; [done|]. rewrite hash_map_iter_keys, elem_of_hash_iter, elem_of_dom, Hacc.
    by intros [? ?].
Qed.

(** A state that is moved into a snapshot and restored from it answers
    every read as before: balance, nonce, code hash, code and storage of every
    account, and the block hashes; for every iteration order of the maps and
    however many accounts share a code. *)
Theorem snapshot_roundtrip d :
  code_consistent d ->
  let '(cleared, snapshot) := clear_into_snapshot d in
  let d' := init_from_snapshot cleared snapshot in
  (forall a, read_basic d' a = read_basic d a /\ read_code d' a = read_code d a) /\
  (forall a slot, read_storage d' a slot = read_storage d a slot) /\
  block_hashes d' = block_hashes d.
Proof.
  intros Hcons. pose proof (snapshot_equiv d) as He. pose proof (clear_code_none d) as Hnone.
  destruct (clear_into_snapshot d) as [cleared snapshot].
  destruct He as [_ [Hacc Hcon Hbh]]. set (d' := init_from_snapshot cleared snapshot) in *.
  assert (forall a, match accounts d' !! a, accounts d !! a with
    | Some acc', Some acc => view acc' = view acc | None, None => True | _, _ => False end) as Hpt.
  { intros a. specialize (Hacc a). destruct (accounts d' !! a), (accounts d !! a); cbn in Hacc; [|done..].
    by apply (inj Some) in Hacc. }
  split_and!; [| |done].
  - intros a. specialize (Hpt a). unfold read_basic, read_code. specialize (Hnone a).
    destruct (accounts d' !! a) as [acc'|] eqn:Ha', (accounts d !! a) as [acc|] eqn:Ha; try done. simpl.
    unfold view, set_info_code in Hpt. injection Hpt as Hb Hn Hh Hs. rewrite (Hnone acc' eq_refl), Hb, Hn, Hh, Hcon.
    split; [done|]. destruct (AccountInfo.code (DbAccount.info acc)) as [code|] eqn:Hcode; [|done].
    by apply (Hcons a acc).
  - intros a slot. specialize (Hpt a). unfold read_storage.
    destruct (accounts d' !! a) as [acc'|], (accounts d !! a) as [acc|]; try done. simpl.
    unfold view in Hpt. by injection Hpt as _ _ _ ->.
Qed.
End Snapshot.
End CacheDB.

Definition sample_cachedb : CacheDB.t :=
  CacheDB.mk {[1 := DbAccount.mk (AccountInfo.mk 5 0 77 None) Touched {[3 := 4]};
               2 := DbAccount.mk (AccountInfo.mk 6 1 77 None) NoState ∅]} {[77 := [96; 0]]} {[8 := 9]}.

Lemma snapshot_roundtrip_witness :
  CacheDB.code_consistent sample_cachedb /\
  CacheDB.read_code (CacheDB.init_from_snapshot (fst (CacheDB.clear_into_snapshot sample_cachedb))
      (snd (CacheDB.clear_into_snapshot sample_cachedb))) 2 = Some [96; 0].
Proof.
  assert (CacheDB.code_consistent sample_cachedb) as Hc.
  { intros a acc code Ha. unfold sample_cachedb in Ha. simpl in Ha.
    apply lookup_insert_Some in Ha as [[_ <-]|[_ Ha]]; [discriminate|].
    apply lookup_singleton_Some in Ha as [_ <-]. discriminate. }
  split; [exact Hc|]. pose proof (CacheDB.snapshot_roundtrip sample_cachedb Hc) as Hr.
  destruct (CacheDB.clear_into_snapshot sample_cachedb) as [c s]. destruct Hr as (Hr & _). simpl.
  rewrite (proj2 (Hr 2)). vm_compute. reflexivity.
Defined.
