(* ===== verification/BlockStates.v ===== *)
(** * Historic states (anvil/src/eth/backend/mem/storage.rs,
    [InMemoryBlockStates])

    The node keeps the states of recent blocks in memory and moves older ones
    to a disk cache; both are bounded. *)
From S2P Require Import Prelude Db.
Open Scope Z_scope.

Definition DEFAULT_HISTORY_LIMIT : nat := 500.
Definition MIN_HISTORY_LIMIT : nat := 10.
Definition MAX_ON_DISK_HISTORY_LIMIT : Z := 3600.

(** ** What is stored, and where

    The states ([StateDb]) with their move into and out of a snapshot, and
    the disk cache ([DiskStateCache]: a directory of files). *)
Class StateStore := {
  StateDb : Type;
  Snapshot : Type;
  clear_into_snapshot : StateDb -> StateDb * Snapshot;
  init_from_snapshot : StateDb -> Snapshot -> StateDb;
  Disk : Type;
  disk_empty : Disk;
  disk_write : Disk -> H256 -> Snapshot -> Disk;
  disk_read : Disk -> H256 -> option Snapshot;
  disk_remove : Disk -> H256 -> Disk }.

(** What a client relies on: clearing and restoring a state is the identity
    up to [state_equiv], and the disk keeps what was written under a name
    until that name is written or removed. *)
Class StateStoreLaws `{!StateStore} := {
  state_equiv : relation StateDb;
  state_equiv_refl : Reflexive state_equiv;
  state_restore s :
    state_equiv (init_from_snapshot (fst (clear_into_snapshot s)) (snd (clear_into_snapshot s))) s;
  disk_read_write d h s : disk_read (disk_write d h s) h = Some s;
  disk_read_write_ne d h h' s : h <> h' -> disk_read (disk_write d h s) h' = disk_read d h';
  disk_read_remove_ne d h h' : h <> h' -> disk_read (disk_remove d h) h' = disk_read d h' }.
#[export] Existing Instance state_equiv_refl.

Module InMemoryBlockStates.
Section States.
Context `{!StateStore}.

Record t := mk {
  states : gmap H256 StateDb;
  on_disk_states : gmap H256 StateDb;
  in_memory_limit : nat;
  min_in_memory_limit : nat;
  max_on_disk_limit : nat;
  oldest_on_disk : list H256;
  present : list H256;
  disk_cache : Disk }.

Definition new (limit : nat) : t :=
  mk ∅ ∅ limit (min limit MIN_HISTORY_LIMIT) (Z.to_nat MAX_ON_DISK_HISTORY_LIMIT) [] [] disk_empty.
Definition default : t := new DEFAULT_HISTORY_LIMIT.

Definition memory_only (s : t) : t :=
  mk (states s) (on_disk_states s) (in_memory_limit s) (min_in_memory_limit s) 0
    (oldest_on_disk s) (present s) (disk_cache s).
Definition is_memory_only (s : t) : bool := Nat.eqb (max_on_disk_limit s) 0.

Definition set_in_memory_limit (limit : nat) (s : t) : t :=
  mk (states s) (on_disk_states s) limit (min_in_memory_limit s) (max_on_disk_limit s)
    (oldest_on_disk s) (present s) (disk_cache s).
Definition set_cache_limit (limit : nat) (s : t) : t := set_in_memory_limit limit s.

(** One turn of the memory loop: the oldest block is evicted, to disk if
    there is one. *)
Definition evict_oldest (s : t) : t :=
  match present s with
  | [] => s
  | hash :: present' =>
      match states s !! hash with
      | None => mk (states s) (on_disk_states s) (in_memory_limit s) (min_in_memory_limit s)
                  (max_on_disk_limit s) (oldest_on_disk s) present' (disk_cache s)
      | Some state =>
          let states' := delete hash (states s) in
          if negb (is_memory_only s) then
            let '(state, snapshot) := clear_into_snapshot state in
            mk states' (<[hash := state]> (on_disk_states s)) (in_memory_limit s) (min_in_memory_limit s)
              (max_on_disk_limit s) (oldest_on_disk s ++ [hash]) present'
              (disk_write (disk_cache s) hash snapshot)
          else
            mk states' (on_disk_states s) (in_memory_limit s) (min_in_memory_limit s)
              (max_on_disk_limit s) (oldest_on_disk s) present' (disk_cache s)
      end
  end.

(** The two loops of [enforce_limits], run for at most [n] turns; [None] when
    they have not ended by then. *)
Fixpoint enforce_memory (n : nat) (s : t) : option t :=
  if decide (in_memory_limit s <= length (present s))%nat then
    match n with O => None | S n' => enforce_memory n' (evict_oldest s) end
  else Some s.

Definition purge_oldest (s : t) : t :=
  match oldest_on_disk s with
  | [] => s
  | hash :: oldest =>
      mk (states s) (delete hash (on_disk_states s)) (in_memory_limit s) (min_in_memory_limit s)
        (max_on_disk_limit s) oldest (present s) (disk_remove (disk_cache s) hash)
  end.

Fixpoint enforce_disk (n : nat) (s : t) : option t :=
  if decide (is_memory_only s = false /\ (max_on_disk_limit s <= length (oldest_on_disk s))%nat) then
    match n with O => None | S n' => enforce_disk n' (purge_oldest s) end
  else Some s.

Definition enforce_limits (n : nat) (s : t) : option t :=
  s ← enforce_memory n s; enforce_disk n s.

(** [insert], its loops run for at most [n] turns. *)
Definition insert (n : nat) (hash : H256) (state : StateDb) (s : t) : option t :=
  let s :=
    if negb (is_memory_only s) && bool_decide (in_memory_limit s <= length (present s))%nat
    then set_in_memory_limit (max (in_memory_limit s - 1) (min_in_memory_limit s)) s
    else s in
  s ← enforce_limits n s;
  Some (mk (<[hash := state]> (states s)) (on_disk_states s) (in_memory_limit s) (min_in_memory_limit s)
          (max_on_disk_limit s) (oldest_on_disk s) (present s ++ [hash]) (disk_cache s)).

Definition update_interval_mine_block_time (n : nat) (block_time_secs : Z) (s : t) : option t :=
  if decide (block_time_secs <= 2) then
    enforce_limits n (set_in_memory_limit (DEFAULT_HISTORY_LIMIT * 3) s)
  else Some s.

(** [get]: a state on disk is restored in place. *)
Definition get (hash : H256) (s : t) : option StateDb * t :=
  match states s !! hash with
  | Some state => (Some state, s)
  | None =>
      match on_disk_states s !! hash with
      | Some state =>
          match disk_read (disk_cache s) hash with
          | Some cached =>
              let state := init_from_snapshot state cached in
              (Some state,
               mk (states s) (<[hash := state]> (on_disk_states s)) (in_memory_limit s)
                 (min_in_memory_limit s) (max_on_disk_limit s) (oldest_on_disk s) (present s) (disk_cache s))
          | None => (None, s)
          end
      | None => (None, s)
      end
  end.

Definition clear (s : t) : t :=
  mk ∅ ∅ (in_memory_limit s) (min_in_memory_limit s) (max_on_disk_limit s) [] []
    (fold_left disk_remove (oldest_on_disk s) (disk_cache s)).

(** ** Invariant

    The hashes in memory and on disk in the order they were inserted. *)
Definition history (s : t) : list H256 := oldest_on_disk s ++ present s.

Record inv (s : t) : Prop := {
  iv_nodup : NoDup (history s);
  iv_present h : h ∈ present s <-> is_Some (states s !! h);
  iv_oldest h : h ∈ oldest_on_disk s <-> is_Some (on_disk_states s !! h);
  iv_disk h : h ∈ oldest_on_disk s -> is_Some (disk_read (disk_cache s) h);
  iv_memory_only : is_memory_only s = true -> oldest_on_disk s = [] }.

Lemma new_inv limit : inv (new limit).
Proof.
  split; simpl; [constructor|..]; try (intros h; rewrite ?lookup_empty, elem_of_nil); try done.
Qed.

Section Laws.
Context `{!StateStoreLaws}.

(** What is stored under a hash, in memory or on disk. *)
Definition content (s : t) (h : H256) (st : StateDb) : Prop :=
  match states s !! h with
  | Some x => x = st
  | None => exists c snap, on_disk_states s !! h = Some c /\ disk_read (disk_cache s) h = Some snap /\
      state_equiv (init_from_snapshot c snap) st
  end.

(** From [s] to [s'] the first [k] hashes of the history were dropped, and
    nothing else. *)
Record dropped (k : nat) (s s' : t) : Prop := {
  dr_inv : inv s';
  dr_limits : in_memory_limit s' = in_memory_limit s /\ min_in_memory_limit s' = min_in_memory_limit s /\
    max_on_disk_limit s' = max_on_disk_limit s;
  dr_history : history s' = drop k (history s);
  dr_content h st : h ∈ history s' -> content s h st -> content s' h st }.

Lemma dropped_refl s : inv s -> dropped 0 s s.
Proof. by split. Qed.

Lemma dropped_trans j k s s1 s2 : dropped j s s1 -> dropped k s1 s2 -> dropped (j + k) s s2.
Proof.
  intros [I1 (A1 & B1 & D1) H1 C1] [I2 (A2 & B2 & D2) H2 C2]. split; [done|split_and!; congruence|..].
  - by rewrite H2, H1, drop_drop.
  - intros h st Hh Hc. apply C2; [done|]. apply C1; [|done]. rewrite H2 in Hh.
    rewrite <- (take_drop k (history s1)). apply elem_of_app. by right.
Qed.

(** An eviction moves the oldest state to disk, or drops it when there is no
    disk. *)
Lemma evict_oldest_spec s h rest :
  inv s -> present s = h :: rest ->
  dropped (if is_memory_only s then 1 else 0) s (evict_oldest s) /\ present (evict_oldest s) = rest.
Proof.
  intros Hi Hp. unfold evict_oldest. rewrite Hp.
  destruct (proj1 (iv_present s Hi h)) as [st Hst]; [rewrite Hp; by left|]. rewrite Hst.
  pose proof (iv_nodup s Hi) as Hnd. unfold history in Hnd. rewrite Hp in Hnd.
  assert (h ∉ oldest_on_disk s /\ h ∉ rest) as [Hno Hnr].
  { apply NoDup_app in Hnd as (_ & Hd & Hn). apply NoDup_cons in Hn as [? _]. split; [|done]. intros Hx. by apply (Hd h Hx), list_elem_of_here. }
  assert (forall x, x ∈ rest <-> is_Some (delete h (states s) !! x)) as Hrest.
  { intros x. rewrite lookup_delete_is_Some, <- (iv_present s Hi x), Hp, elem_of_cons. naive_solver. }
  destruct (is_memory_only s) eqn:Hm; simpl.
  - split; [|done]. pose proof (iv_memory_only s Hi Hm) as Ho. split; simpl; [| done| |].
    + split; unfold history; simpl; rewrite ?Ho in *; [by apply NoDup_cons in Hnd as [_ ?]|done| |by intros x ?%elem_of_nil|done].
      intros x. rewrite <- Ho. apply (iv_oldest s Hi).
    + unfold history. simpl. by rewrite Ho, Hp.
    + intros x st' Hx. unfold history in Hx. simpl in Hx. rewrite Ho in Hx. simpl in Hx. unfold content. simpl.
      rewrite lookup_delete_ne; [done|]. by intros ->.
  - destruct (clear_into_snapshot st) as [c snap] eqn:Hcl. simpl. split; [|done]. split; simpl; [|done| |].
    + split; unfold history; simpl; rewrite <- ?app_assoc; [done|done|..|].
      * intros x. rewrite elem_of_app, list_elem_of_singleton, lookup_insert_is_Some', (iv_oldest s Hi). naive_solver.
      * intros x. rewrite elem_of_app, list_elem_of_singleton. destruct (decide (h = x)) as [<-|Hne].
        -- rewrite disk_read_write. by eauto.
        -- rewrite disk_read_write_ne by done. intros [?|?]; [by apply (iv_disk s Hi)|congruence].
      * change (is_memory_only s = true -> oldest_on_disk s ++ [h] = []). by rewrite Hm.
    + unfold history. simpl. by rewrite Hp, <- app_assoc.
    + intros x st' Hx. unfold content. simpl. destruct (decide (h = x)) as [<-|Hne].
      * rewrite Hst, lookup_delete_eq. intros <-. exists c, snap. rewrite lookup_insert_eq, disk_read_write.
        split_and!; [done..|]. pose proof (state_restore st) as Hr. by rewrite Hcl in Hr.
      * rewrite lookup_delete_ne, lookup_insert_ne, disk_read_write_ne by done. done.
Qed.

Lemma enforce_memory_spec n : forall s,
  inv s -> (0 < in_memory_limit s)%nat -> (length (present s) <= n)%nat ->
  exists s' k, enforce_memory n s = Some s' /\ dropped k s s' /\ (length (present s') < in_memory_limit s)%nat /\
    (is_memory_only s = false -> k = 0%nat) /\
    (k = 0%nat \/ S (length (present s')) = in_memory_limit s).
Proof.
  induction n as [|n IH]; intros s Hi Hl Hn; cbn [enforce_memory]; (destruct (decide _) as [Hd|Hd];
    [|exists s, 0%nat; split_and!; [done|by apply dropped_refl|lia|done|by left]]).
  { exfalso. lia. }
  destruct (present s) as [|h rest] eqn:Hp; [exfalso; simpl in Hd; lia|].
  destruct (evict_oldest_spec s h rest Hi Hp) as [Hdr Hpr]. pose proof (dr_limits _ _ _ Hdr) as (L1 & L2 & L3).
  destruct (IH (evict_oldest s)) as (s' & k & He & Hk & Hlt & Hk0 & Hk1); [apply Hdr|by rewrite L1|rewrite Hpr; simpl in Hn; lia|].
  exists s', ((if is_memory_only s then 1 else 0) + k)%nat. rewrite L1 in Hlt, Hk1.
  assert (is_memory_only (evict_oldest s) = is_memory_only s) as Hm by (unfold is_memory_only; by rewrite L3).
  split_and!; [done|by eapply dropped_trans|done|..].
  - intros Hmo. rewrite Hmo. apply Hk0. by rewrite Hm.
  - destruct (is_memory_only s) eqn:Hmo; [right|naive_solver].
    destruct Hk1 as [Hk1|?]; [|done]. subst k. pose proof (dr_history _ _ _ Hk) as Hh. unfold history in Hh.
    rewrite (iv_memory_only _ (dr_inv _ _ _ Hdr) Hm), Hpr in Hh.
    rewrite (iv_memory_only _ (dr_inv _ _ _ Hk)) in Hh.
    + simpl in Hh. rewrite drop_0 in Hh. rewrite Hh in Hlt |- *. simpl in Hd. lia.
    + destruct (dr_limits _ _ _ Hk) as (_ & _ & Hx). unfold is_memory_only in *. by rewrite Hx.
Qed.

Lemma purge_oldest_spec s h rest :
  inv s -> oldest_on_disk s = h :: rest ->
  dropped 1 s (purge_oldest s) /\ oldest_on_disk (purge_oldest s) = rest /\ present (purge_oldest s) = present s.
Proof.
  intros Hi Ho. unfold purge_oldest. rewrite Ho. simpl. split; [|done].
  pose proof (iv_nodup s Hi) as Hnd. unfold history in Hnd. rewrite Ho in Hnd. simpl in Hnd.
  apply NoDup_cons in Hnd as [Hni Hnd]. rewrite elem_of_app in Hni. split; simpl; [|done| |].
  - split; unfold history; simpl; [done|apply (iv_present s Hi)|..].
    + intros x. rewrite lookup_delete_is_Some, <- (iv_oldest s Hi x), Ho, elem_of_cons. naive_solver.
    + intros x Hx. rewrite disk_read_remove_ne by (intros ->; tauto). apply (iv_disk s Hi). rewrite Ho. by right.
    + intros Hm. exfalso. assert (oldest_on_disk s = []) by (by apply (iv_memory_only s Hi)). congruence.
  - unfold history. simpl. by rewrite Ho.
  - intros x st Hx. unfold history in Hx. simpl in Hx. unfold content. simpl.
    assert (h <> x) as Hne by (intros ->; rewrite elem_of_app in Hx; tauto).
    by rewrite lookup_delete_ne, disk_read_remove_ne by done.
Qed.

Lemma enforce_disk_spec n : forall s,
  inv s -> (length (oldest_on_disk s) <= n)%nat ->
  exists s' k, enforce_disk n s = Some s' /\ dropped k s s' /\ present s' = present s /\
    (is_memory_only s = false -> (length (oldest_on_disk s') < max_on_disk_limit s)%nat) /\
    (k = 0%nat \/ is_memory_only s = false /\ S (length (oldest_on_disk s')) = max_on_disk_limit s).
Proof.
  induction n as [|n IH]; intros s Hi Hn; cbn [enforce_disk]; (destruct (decide _) as [[Hm Hd]|Hd];
    [|exists s, 0%nat; split_and!; [done|by apply dropped_refl|done|
      intros Hm; apply not_and_r in Hd as [?|?]; [done|lia]|by left]]).
  all: assert (0 < max_on_disk_limit s)%nat as Hpos by (unfold is_memory_only in Hm; apply Nat.eqb_neq in Hm; lia).
  { exfalso. lia. }
  destruct (oldest_on_disk s) as [|h rest] eqn:Ho; [exfalso; simpl in Hd; lia|].
  destruct (purge_oldest_spec s h rest Hi Ho) as (Hdr & Hor & Hpr). pose proof (dr_limits _ _ _ Hdr) as (L1 & L2 & L3).
  assert (is_memory_only (purge_oldest s) = false) as Hm' by (unfold is_memory_only in *; by rewrite L3).
  destruct (IH (purge_oldest s)) as (s' & k & He & Hk & Hp' & Hlt & Hk1); [apply Hdr|rewrite Hor; simpl in Hn; lia|].
  exists s', (1 + k)%nat. rewrite L3 in Hlt, Hk1.
  split_and!; [done|by eapply dropped_trans|congruence|by auto|]. right. split; [done|].
  destruct Hk1 as [->|[_ ?]]; [|done]. pose proof (dr_history _ _ _ Hk) as Hh. unfold history in Hh.
  rewrite drop_0, Hp', Hor in Hh. apply app_inv_tail in Hh. specialize (Hlt Hm'). rewrite Hh in Hlt |- *. simpl in Hd. lia.
Qed.

Lemma enforce_limits_spec n s :
  inv s -> (0 < in_memory_limit s)%nat -> (length (history s) <= n)%nat ->
  exists s' k, enforce_limits n s = Some s' /\ dropped k s s' /\
    (length (present s') < in_memory_limit s)%nat /\
    (is_memory_only s = false -> (length (oldest_on_disk s') < max_on_disk_limit s)%nat) /\
    (k = 0%nat \/ (if is_memory_only s then S (length (present s')) = in_memory_limit s
                   else S (length (oldest_on_disk s')) = max_on_disk_limit s)).
Proof.
  intros Hi Hl Hn. unfold history in Hn. rewrite length_app in Hn.
  destruct (enforce_memory_spec n s Hi Hl) as (s1 & k1 & H1 & Hd1 & Hlt1 & Hk1 & Hk1'); [lia|].
  pose proof (dr_limits _ _ _ Hd1) as (L1 & L2 & L3).
  assert (is_memory_only s1 = is_memory_only s) as Hm by (unfold is_memory_only; by rewrite L3).
  destruct (enforce_disk_spec n s1) as (s2 & k2 & H2 & Hd2 & Hp2 & Hlt2 & Hk2); [apply Hd1| |].
  { pose proof (f_equal length (dr_history _ _ _ Hd1)) as Hh. unfold history in Hh.
    rewrite length_drop, !length_app in Hh. lia. }
  exists s2, (k1 + k2)%nat. unfold enforce_limits. rewrite H1. simpl. rewrite Hm, L3 in Hlt2. rewrite Hm, L3 in Hk2.
  split_and!; [done|by eapply dropped_trans|by rewrite Hp2|done|].
  destruct (is_memory_only s) eqn:Hmo.
  - destruct Hk2 as [->|[? _]]; [|done]. rewrite Hp2. destruct Hk1' as [->|?]; [by left|by right].
  - rewrite (Hk1 eq_refl). destruct Hk2 as [->|[_ ?]]; [by left|by right].
Qed.

(** What [insert] does to the limit: it shrinks by one each time it is
    reached, down to the minimum. *)
Definition next_limit (s : t) : nat :=
  if negb (is_memory_only s) && bool_decide (in_memory_limit s <= length (present s))%nat
  then max (in_memory_limit s - 1) (min_in_memory_limit s) else in_memory_limit s.

(** Storing the state of a new block ends, keeps the number of states in
    memory and on disk within their limits, makes the new state available, and
    keeps every older state readable unless the store is full, in which case
    the oldest are dropped first. *)
Lemma insert_history n h st s :
  inv s -> (0 < in_memory_limit s)%nat -> (0 < min_in_memory_limit s)%nat ->
  h ∉ history s -> (length (history s) <= n)%nat ->
  exists s' k, insert n h st s = Some s' /\ inv s' /\
    in_memory_limit s' = next_limit s /\ min_in_memory_limit s' = min_in_memory_limit s /\
    (length (present s') <= in_memory_limit s')%nat /\
    (is_memory_only s = false -> (length (oldest_on_disk s') < max_on_disk_limit s)%nat) /\
    history s' = drop k (history s) ++ [h] /\ h ∈ present s' /\ content s' h st /\
    (forall x v, x ∈ drop k (history s) -> content s x v -> content s' x v) /\
    (k = 0%nat \/ (if is_memory_only s then length (present s') = in_memory_limit s'
                   else S (length (oldest_on_disk s')) = max_on_disk_limit s)).
Proof.
  intros Hi Hl Hmin Hh Hn. set (s0 := set_in_memory_limit (next_limit s) s).
  assert (insert n h st s = s1 ← enforce_limits n s0;
    Some (mk (<[h := st]> (states s1)) (on_disk_states s1) (in_memory_limit s1) (min_in_memory_limit s1)
          (max_on_disk_limit s1) (oldest_on_disk s1) (present s1 ++ [h]) (disk_cache s1))) as ->.
  { unfold insert, s0, next_limit. destruct (negb _ && _); [done|]. by destruct s. }
  assert (inv s0) as Hi0 by (by destruct Hi).
  assert (0 < in_memory_limit s0)%nat as Hl0 by (simpl; unfold next_limit; destruct (negb _ && _); lia).
  destruct (enforce_limits_spec n s0 Hi0 Hl0 Hn) as (s1 & k & -> & Hd & Hlt & Hdisk & Hk). simpl.
  pose proof (dr_limits _ _ _ Hd) as (L1 & L2 & L3). simpl in L1, L2, L3.
  assert (h ∉ history s1) as Hh1.
  { rewrite (dr_history _ _ _ Hd). intros Hin. apply Hh. change (history s0) with (history s) in Hin.
    rewrite <- (take_drop k (history s)). apply elem_of_app. by right. }
  assert (states s1 !! h = None) as Hnone.
  { apply eq_None_not_Some. rewrite <- (iv_present s1 (dr_inv _ _ _ Hd)). unfold history in Hh1.
    rewrite elem_of_app in Hh1. tauto. }
  assert (is_memory_only s1 = is_memory_only s) as Hm by (unfold is_memory_only; by rewrite L3).
  eexists _, k. split; [done|]. simpl. split_and!; [|done|done| |done| | | | |].
  - pose proof (dr_inv _ _ _ Hd) as [N P O D M]. split; unfold history; simpl.
    + rewrite app_assoc. apply NoDup_app. split_and!; [done| |apply NoDup_singleton].
      intros x Hx ->%list_elem_of_singleton. done.
    + intros x. rewrite elem_of_app, list_elem_of_singleton, lookup_insert_is_Some', P. naive_solver.
    + done.
    + done.
    + done.
  - rewrite length_app, L1. simpl. simpl in Hlt. lia.
  - unfold history at 1. simpl. rewrite app_assoc. f_equal. exact (dr_history _ _ _ Hd).
  - apply elem_of_app. right. by left.
  - unfold content. simpl. by rewrite lookup_insert_eq.
  - intros x v Hx Hc. assert (x ∈ history s1) as Hx1 by (by rewrite (dr_history _ _ _ Hd)).
    assert (content s1 x v) as Hc1 by (apply (dr_content _ _ _ Hd); done).
    unfold content in *. simpl. rewrite lookup_insert_ne; [done|]. by intros ->.
  - simpl in Hk. rewrite L1, length_app. simpl. change (is_memory_only s0) with (is_memory_only s) in Hk.
    destruct Hk as [?|Hk]; [by left|right]. destruct (is_memory_only s); [lia|done].
Qed.

(** Reading a state gives back what was stored. *)
Lemma get_content h st s : content s h st -> exists st', fst (get h s) = Some st' /\ state_equiv st' st.
Proof.
  unfold content, get. destruct (states s !! h) as [x|].
  - intros ->. exists st. split; [done|]. reflexivity.
  - intros (c & snap & -> & -> & He). by eexists.
Qed.

(** [insert] ends whatever is stored, once the limits are positive. *)
Lemma evict_oldest_length s h rest :
  present s = h :: rest ->
  present (evict_oldest s) = rest /\ in_memory_limit (evict_oldest s) = in_memory_limit s /\
  (length (history (evict_oldest s)) <= length (history s))%nat.
Proof.
  intros Hp. unfold evict_oldest, history. rewrite Hp. repeat case_match; simpl; rewrite ?length_app, ?Hp; simpl;
    (split_and!; [done..|lia]).
Qed.

Lemma enforce_memory_total n : forall s,
  (0 < in_memory_limit s)%nat -> (length (present s) <= n)%nat ->
  exists s', enforce_memory n s = Some s' /\ (length (history s') <= length (history s))%nat.
Proof.
  induction n as [|n IH]; intros s Hl Hn; cbn [enforce_memory]; (destruct (decide _) as [Hd|Hd]; [|by exists s]).
  { exfalso. lia. }
  destruct (present s) as [|h rest] eqn:Hp; [exfalso; simpl in Hd; lia|].
  destruct (evict_oldest_length s h rest Hp) as (E1 & E2 & E3). simpl in Hn.
  destruct (IH (evict_oldest s)) as (s' & He & Hh); [by rewrite E2|rewrite E1; lia|]. exists s'. split; [done|lia].
Qed.

Lemma enforce_disk_total n : forall s, (length (oldest_on_disk s) <= n)%nat -> exists s', enforce_disk n s = Some s'.
Proof.
  induction n as [|n IH]; intros s Hn; cbn [enforce_disk]; (destruct (decide _) as [[Hm Hd]|Hd]; [|by exists s]).
  all: unfold is_memory_only in Hm; apply Nat.eqb_neq in Hm.
  { exfalso. lia. }
  apply IH. unfold purge_oldest. destruct (oldest_on_disk s); simpl in *; lia.
Qed.

Lemma insert_total n h st s :
  (0 < in_memory_limit s)%nat -> (0 < min_in_memory_limit s)%nat -> (length (history s) <= n)%nat ->
  exists s', insert n h st s = Some s'.
Proof.
  intros Hl Hmin Hn. unfold insert, enforce_limits. unfold history in Hn. rewrite length_app in Hn.
  match goal with |- context [enforce_memory n ?x] => set (s0 := x) end.
  assert ((0 < in_memory_limit s0)%nat /\ history s0 = history s /\ present s0 = present s) as (L & Hh & Hp).
  { unfold s0. case_match; simpl; [|done]. split_and!; [lia|done..]. }
  destruct (enforce_memory_total n s0 L) as (s1 & -> & Hh1); [rewrite Hp; lia|]. simpl.
  destruct (enforce_disk_total n s1) as [s2 ->]; [|by eexists].
  rewrite Hh in Hh1. unfold history in Hh1. rewrite !length_app in Hh1. lia.
Qed.

(** The states of a sequence of blocks, one after the other. *)
Fixpoint insert_all (blocks : list (H256 * StateDb)) (s : t) : option t :=
  match blocks with
  | [] => Some s
  | (h, st) :: blocks => s1 ← insert (length (history s)) h st s; insert_all blocks s1
  end.

Lemma next_limit_pos s : (0 < in_memory_limit s)%nat -> (0 < min_in_memory_limit s)%nat -> (0 < next_limit s)%nat.
Proof. unfold next_limit. destruct (negb _ && _); lia. Qed.

Lemma insert_max_on_disk n h st s s' : insert n h st s = Some s' -> inv s -> (0 < in_memory_limit s)%nat ->
  (0 < min_in_memory_limit s)%nat -> (length (history s) <= n)%nat -> max_on_disk_limit s' = max_on_disk_limit s.
Proof.
  intros Hins Hi Hl Hmin Hn. set (s0 := set_in_memory_limit (next_limit s) s).
  assert (inv s0) as Hi0 by (by destruct Hi).
  destruct (enforce_limits_spec n s0 Hi0 (next_limit_pos s Hl Hmin) Hn) as (s1 & k & He & Hd & _).
  assert (insert n h st s = s1 ← enforce_limits n s0;
    Some (mk (<[h := st]> (states s1)) (on_disk_states s1) (in_memory_limit s1) (min_in_memory_limit s1)
          (max_on_disk_limit s1) (oldest_on_disk s1) (present s1 ++ [h]) (disk_cache s1))) as Heq.
  { unfold insert, s0, next_limit. destruct (negb _ && _); [done|]. by destruct s. }
  rewrite Heq, He in Hins. simpl in Hins. injection Hins as <-. simpl. by destruct (dr_limits _ _ _ Hd) as (_ & _ & ->).
Qed.

Lemma insert_all_spec blocks : forall s,
  inv s -> (0 < in_memory_limit s)%nat -> (0 < min_in_memory_limit s)%nat ->
  NoDup blocks.*1 -> (forall x, x ∈ blocks.*1 -> x ∉ history s) ->
  exists s' k, insert_all blocks s = Some s' /\ inv s' /\ history s' = drop k (history s ++ blocks.*1) /\
    (forall x v, x ∈ history s' -> (x ∈ history s /\ content s x v) \/ (x, v) ∈ blocks -> content s' x v) /\
    (is_memory_only s = false -> (length (history s) + length blocks < max_on_disk_limit s)%nat -> k = 0%nat).
Proof.
  induction blocks as [|[h st] blocks IH]; intros s Hi Hl Hmin Hnd Hfresh; cbn [insert_all].
  { exists s, 0%nat. rewrite app_nil_r. split_and!; [done..| |done]. intros x v _ [[_ ?]|?%elem_of_nil]; done. }
  simpl in Hnd, Hfresh. apply NoDup_cons in Hnd as [Hnh Hnd].
  assert (h ∉ history s) as Hhs by (apply Hfresh; by left).
  destruct (insert_history (length (history s)) h st s Hi Hl Hmin Hhs) as
    (s1 & k & Hins & Hi1 & Hlim & Hmin1 & _ & _ & Hh1 & Hpr & Hc & Hcs & Hk); [done|].
  pose proof (insert_max_on_disk _ _ _ _ _ Hins Hi Hl Hmin (Nat.le_refl _)) as Hmax. rewrite Hins. simpl.
  assert (forall x, x ∈ drop k (history s) -> x ∈ history s) as Hsub.
  { intros x Hx. rewrite <- (take_drop k (history s)). apply elem_of_app. by right. }
  destruct (IH s1 Hi1) as (s' & j & -> & Hi' & Hh' & Hc' & Hj);
    [rewrite Hlim; by apply next_limit_pos|by rewrite Hmin1|done| |].
  { intros x Hx. rewrite Hh1, elem_of_app, list_elem_of_singleton. intros [Hin%Hsub| ->]; [|done].
    apply (Hfresh x); [by right|done]. }
  assert (drop k (history s) ++ [h] ++ blocks.*1 = drop (min k (length (history s))) (history s ++ h :: blocks.*1)) as Hdrop.
  { rewrite drop_app_le by lia. f_equal. destruct (Nat.le_gt_cases k (length (history s))).
    - by rewrite Nat.min_l.
    - rewrite Nat.min_r by lia. by rewrite !drop_ge by lia. }
  exists s', (min k (length (history s)) + j)%nat. split_and!; [done|done|..].
  - rewrite Hh', Hh1, <- app_assoc, Hdrop, drop_drop. done.
  - intros x v Hx [[Hxs Hcx]|[[= -> ->]|Hin]%elem_of_cons].
    + apply Hc'; [done|]. left. assert (x ∈ history s1) as Hx1.
      { rewrite Hh' in Hx. assert (x ∈ history s1 ++ blocks.*1) as Hx2.
        { rewrite <- (take_drop j (history s1 ++ blocks.*1)). apply elem_of_app. by right. }
        apply elem_of_app in Hx2 as [?|Hx2]; [done|]. exfalso. apply (Hfresh x); [by right|done]. }
      split; [done|]. apply Hcs; [|done]. rewrite Hh1, elem_of_app, list_elem_of_singleton in Hx1.
      destruct Hx1 as [?| ->]; [done|]. done.
    + apply Hc'; [done|]. left. split; [|done]. rewrite Hh1. apply elem_of_app. right. by left.
    + apply Hc'; [done|]. by right.
  - intros Hm Hlen. simpl in Hlen. rewrite Hm in Hk.
    assert (length (history s1) = length (drop k (history s)) + 1)%nat as Hlen1 by (rewrite Hh1, length_app; done).
    assert (k = 0%nat) as ->.
    { destruct Hk as [?|Hk]; [done|]. exfalso. rewrite length_drop in Hlen1.
      assert (length (oldest_on_disk s1) < length (history s1))%nat; [|lia]. unfold history. rewrite length_app.
      destruct (present s1); [by apply elem_of_nil in Hpr|simpl; lia]. }
    rewrite Hj; [done|unfold is_memory_only in *; by rewrite Hmax|]. rewrite Hmax, Hlen1. rewrite length_drop. lia.
Qed.

(** A node that stores the states of a sequence of distinct blocks, with
    room for at least one state, always finishes; what it keeps are the states
    of the most recent blocks, and each of them reads back as it was stored,
    from memory or from disk; with the disk enabled nothing at all is lost
    before the disk limit is reached. *)
Theorem block_states_readable limit blocks :
  (0 < limit)%nat -> NoDup blocks.*1 ->
  exists s k, insert_all blocks (new limit) = Some s /\ history s = drop k blocks.*1 /\
    (forall h st, (h, st) ∈ blocks -> h ∈ history s ->
       exists st', fst (get h s) = Some st' /\ state_equiv st' st) /\
    ((length blocks < max_on_disk_limit (new limit))%nat -> history s = blocks.*1).
Proof.
  intros Hl Hnd. destruct (insert_all_spec blocks (new limit)) as (s & k & Hs & _ & Hh & Hc & Hk).
  - apply new_inv.
  - done.
  - cbn [new min_in_memory_limit]. unfold MIN_HISTORY_LIMIT. lia.
  - done.
  - intros x _. apply not_elem_of_nil.
  - exists s, k. split_and!; [done|done| |].
    + intros h st Hin Hx. apply get_content, Hc; [done|]. by right.
    + intros Hlen. rewrite Hh, Hk; [done|reflexivity|exact Hlen].
Qed.

End Laws.

(** With a limit of zero states, which the command line accepts, storing
    a state never returns: the loop that enforces the limit has no exit. *)
Theorem zero_limit_never_returns n h st :
  insert n h st (memory_only (new 0)) = None.
Proof.
  assert (forall n s, in_memory_limit s = 0%nat -> enforce_memory n s = None) as Hloop.
  { clear. induction n as [|n IH]; intros s Hs; cbn [enforce_memory]; rewrite decide_True by lia; [done|].
    apply IH. unfold evict_oldest. repeat case_match; simpl; done. }
  unfold insert. simpl. unfold enforce_limits. by rewrite Hloop.
Qed.
End States.
End InMemoryBlockStates.

(** ** A concrete store: states are lists of numbers *)
Module ListStore.
Import InMemoryBlockStates.
#[export] Instance store : StateStore := {|
  StateDb := list Z;
  Snapshot := list Z;
  clear_into_snapshot s := ([], s);
  init_from_snapshot _ s := s;
  Disk := gmap H256 (list Z);
  disk_empty := ∅;
  disk_write d h s := <[h := s]> d;
  disk_read d h := d !! h;
  disk_remove d h := delete h d |}.
#[export] Instance store_laws : StateStoreLaws.
Proof.
  refine {| state_equiv := eq |}; simpl; [done|..]; intros.
  - by rewrite lookup_insert_eq.
  - by rewrite lookup_insert_ne.
  - by rewrite lookup_delete_ne.
Defined.

Definition blocks : list (H256 * StateDb) := [(1, [10]); (2, [20]); (3, [30])].
Lemma block_states_readable_witness :
  exists s, insert_all blocks (new 1) = Some s /\ history s = [1; 2; 3] /\
    exists st', fst (get 2 s) = Some st' /\ state_equiv st' [20].
Proof.
  destruct (block_states_readable 1 blocks) as (s & k & Hs & Hh & Hget & Hall).
  - lia.
  - refine (bool_decide_unpack _ _). vm_compute. exact I.
  - assert (history s = [1; 2; 3]) as He by (apply Hall; refine (bool_decide_unpack _ _); vm_compute; exact I).
    exists s. split; [exact Hs|]. split; [exact He|].
    apply (Hget 2 [20]); [right; left|rewrite He; right; left].
Defined.
End ListStore.

(** ** The store of the node

    [StateDb] is the cached database, whose move into a snapshot and back
    discharges the law of the interface; files are a map from names to what
    was written last. *)
Module CacheDBStore.
#[export] Instance store `{!HashIter Address} : StateStore := {|
  StateDb := CacheDB.t;
  Snapshot := StateSnapshot.t;
  clear_into_snapshot := CacheDB.clear_into_snapshot;
  init_from_snapshot := CacheDB.init_from_snapshot;
  Disk := gmap H256 StateSnapshot.t;
  disk_empty := ∅;
  disk_write d h s := <[h := s]> d;
  disk_read d h := d !! h;
  disk_remove d h := delete h d |}.
#[export] Instance store_laws `{!HashIter Address} : StateStoreLaws.
Proof.
  refine {| state_equiv := CacheDB.equiv |}; simpl.
  - intros s. pose proof (CacheDB.snapshot_equiv s) as Hs. by destruct (CacheDB.clear_into_snapshot s) as [c sn], Hs.
  - intros. by rewrite lookup_insert_eq.
  - intros. by rewrite lookup_insert_ne.
  - intros. by rewrite lookup_delete_ne.
Defined.
End CacheDBStore.
