(* ===== verification/Validator.v ===== *)
(** * Transaction validation (anvil/src/eth/backend/mem/mod.rs,
    [impl TransactionValidator for Backend]) *)
From S2P Require Import Prelude Transaction Hardfork PoolTx Db.
Open Scope Z_scope.

Definition MIN_TRANSACTION_GAS : Z := 21000.

(** The parts of revm's [Env] the node reads and writes. *)
Module CfgEnv.
Record t := mk { chain_id : Z; spec_id : SpecId; disable_block_gas_limit : bool; disable_base_fee : bool;
  disable_eip3607 : bool }.
End CfgEnv.
Module BlockEnv.
Record t := mk {
  number : Z; coinbase : Address; timestamp : Z; difficulty : Z; prevrandao : option H256; basefee : Z;
  gas_limit : Z }.
End BlockEnv.

Inductive InvalidTransactionError :=
| NonceTooLow | NonceTooHigh | NonceMaxValue | InsufficientFundsForTransfer | MaxInitCodeSizeExceeded
| InsufficientFunds | GasUintOverflow | GasTooLow | GasTooHigh (detail : string) | TipAboveFeeCap
| FeeCapTooLow | BasicOutOfGas (gas : Z) | Revert (data : option (list byte)) | SenderNoEOA
| InvalidChainId | IncompatibleEIP155.

(** revm's [InvalidTransaction], and its conversion (anvil/src/eth/error.rs). *)
Inductive InvalidTransaction :=
| ItGasMaxFeeGreaterThanPriorityFee | ItGasPriceLessThanBasefee | ItCallerGasLimitMoreThanBlock
| ItCallGasCostMoreThanGasLimit | ItRejectCallerWithCode | ItLackOfFundForGasLimit
| ItOverflowPaymentInTransaction | ItNonceOverflowInTransaction | ItNonceTooHigh | ItNonceTooLow
| ItCreateInitcodeSizeLimit | ItInvalidChainId.
Definition invalid_transaction_from (err : InvalidTransaction) : InvalidTransactionError :=
  match err with
  | ItInvalidChainId => InvalidChainId
  | ItGasMaxFeeGreaterThanPriorityFee => TipAboveFeeCap
  | ItGasPriceLessThanBasefee => FeeCapTooLow
  | ItCallerGasLimitMoreThanBlock => GasTooHigh "CallerGasLimitMoreThanBlock"
  | ItCallGasCostMoreThanGasLimit => GasTooHigh "CallGasCostMoreThanGasLimit"
  | ItRejectCallerWithCode => SenderNoEOA
  | ItLackOfFundForGasLimit => InsufficientFunds
  | ItOverflowPaymentInTransaction => GasUintOverflow
  | ItNonceOverflowInTransaction => NonceMaxValue
  | ItCreateInitcodeSizeLimit => MaxInitCodeSizeExceeded
  | ItNonceTooHigh => NonceTooHigh
  | ItNonceTooLow => NonceTooLow
  end.

Section Validator.
Context `{!SpecIdOrder}.

Definition as_legacy (t : TypedTransaction) : option LegacyTransaction.t :=
  match t with Legacy tx => Some tx | _ => None end.

(** The chain id check; [None] when the transaction passes it. *)
Definition validate_chain_id (chain_id : Z) (cfg : CfgEnv.t) (tx : TypedTransaction)
    : exec (option InvalidTransactionError) :=
  match TypedTransaction.chain_id tx with
  | None => Ret None
  | Some tx_chain_id =>
      if decide (chain_id = tx_chain_id) then Ret None
      else
        match as_legacy tx with
        | Some legacy =>
            if decide (spec_as_u8 SPURIOUS_DRAGON <= spec_as_u8 (CfgEnv.spec_id cfg)) then
              c ← u256_as_u64 chain_id;
              b ← LegacyTransaction.meets_eip155 legacy c;
              Ret (if b : bool then None else Some IncompatibleEIP155)
            else Ret None
        | None => Ret (Some InvalidChainId)
        end
  end.

(** [validate_pool_transaction_for]; [chain_id] is the backend's. *)
Definition validate_pool_transaction_for (chain_id : Z) (pending : PendingTransaction)
    (account : AccountInfo.t) (cfg : CfgEnv.t) (block : BlockEnv.t)
    : exec (result unit InvalidTransactionError) :=
  let tx := mtx_transaction (ptx_transaction pending) in
  e ← validate_chain_id chain_id cfg tx;
  Ret
    (match e with
     | Some e => Err e
     | None =>
         if TypedTransaction.gas_limit tx <? MIN_TRANSACTION_GAS then Err GasTooLow
         else if negb (CfgEnv.disable_block_gas_limit cfg) &&
                 (BlockEnv.gas_limit block <? TypedTransaction.gas_limit tx)
         then Err (GasTooHigh "tx.gas_limit > env.block.gas_limit")
         else if U64_MAX <? TypedTransaction.nonce tx then Err NonceMaxValue
         else if TypedTransaction.nonce tx <? AccountInfo.nonce account then Err NonceTooLow
         else
           let london := bool_decide (spec_as_u8 LONDON <= spec_as_u8 (CfgEnv.spec_id cfg)) in
           if london && (TypedTransaction.gas_price tx <? BlockEnv.basefee block) then Err FeeCapTooLow
           else if london &&
                   match ess_max_priority_fee_per_gas (TypedTransaction.essentials tx),
                         ess_max_fee_per_gas (TypedTransaction.essentials tx) with
                   | Some tip, Some cap => cap <? tip
                   | _, _ => false
                   end
           then Err TipAboveFeeCap
           else
             match u256_checked_add (TypedTransaction.max_cost tx) (TypedTransaction.value tx) with
             | None => Err InsufficientFunds
             | Some req_funds =>
                 if AccountInfo.balance account <? req_funds then Err InsufficientFunds else Ok tt
             end
     end).

Definition validate_for (chain_id : Z) (tx : PendingTransaction) (account : AccountInfo.t)
    (cfg : CfgEnv.t) (block : BlockEnv.t) : exec (result unit InvalidTransactionError) :=
  r ← validate_pool_transaction_for chain_id tx account cfg block;
  match r with
  | Err e => Ret (Err e)
  | Ok _ =>
      n ← u256_as_u64 (ptx_nonce tx);
      if decide (AccountInfo.nonce account < n) then Ret (Err NonceTooHigh) else Ret (Ok tt)
  end.

(** [get_pool_transactions_nonce] *)
Definition get_pool_transactions_nonce (pool_transactions : list PoolTransaction.t) (address : Address)
    : option Z :=
  let nonce tx := ptx_nonce (PoolTransaction.pending_transaction tx) in
  match filter (fun tx => sender (PoolTransaction.pending_transaction tx) = address) pool_transactions with
  | [] => None
  | tx :: txs =>
      let highest := fold_left (fun accum item => if nonce accum <? nonce item then item else accum) txs tx in
      Some (u256_saturating_add (nonce highest) 1)
  end.

(** ** Properties *)

(** The chain a transaction is for: none named, the node's, or, before
    EIP-155, any for a legacy transaction. *)
Definition chain_accepted (chain_id : Z) (cfg : CfgEnv.t) (tx : TypedTransaction) : Prop :=
  match TypedTransaction.chain_id tx with
  | None => True
  | Some c => c = chain_id \/
      (is_Some (as_legacy tx) /\ spec_as_u8 (CfgEnv.spec_id cfg) < spec_as_u8 SPURIOUS_DRAGON)
  end.

Lemma validate_chain_id_spec chain_id cfg tx :
  1 <= chain_id <= 2 ^ 62 ->
  exists o, validate_chain_id chain_id cfg tx = Ret o /\ (o = None <-> chain_accepted chain_id cfg tx).
Proof.
  intros Hc. unfold validate_chain_id, chain_accepted.
  destruct (TypedTransaction.chain_id tx) as [c|] eqn:Htx; [|by exists None].
  case_decide as He; [exists None; subst; naive_solver|].
  destruct (as_legacy tx) as [l|] eqn:Hl.
  - destruct tx as [l'| |]; try discriminate Hl. injection Hl as ->. simpl in Htx.
    case_decide as Hs; [|exists None; split; [done|]; split; [right; split; [eauto|lia]|done]].
    unfold u256_as_u64. rewrite decide_True by word_lia. simpl. unfold LegacyTransaction.meets_eip155.
    assert (saturate 0 U64_MAX (chain_id * 2) = chain_id * 2) as -> by word_lia.
    unfold u64_add. rewrite !decide_True by word_lia. simpl.
    assert (LegacyTransaction.chain_id l <> Some chain_id) as Hne by (rewrite Htx; naive_solver).
    rewrite legacy_chain_id_eip155 in Hne by lia.
    case_decide as H1; [exfalso; apply Hne; lia|]. simpl. rewrite bool_decide_false by (intros ?; apply Hne; lia).
    eexists. split; [done|]. split; [done|]. intros [->|[_ ?]]; [done|lia].
  - eexists. split; [done|]. split; [done|]. intros [->|[[? ?] _]]; done.
Qed.

Lemma if_err {E} (b : bool) (e : E) (r : result unit E) :
  (if b then Err e else r) = Ok tt <-> b = false /\ r = Ok tt.
Proof. destruct b; naive_solver. Qed.

(** The funds check, with its saturating product and checked sum, is the
    comparison of the exact amounts. *)
Lemma funds_spec gl gp v bal :
  is_u256 gl -> is_u256 gp -> is_u256 v -> is_u256 bal -> bal < U256_MAX ->
  match u256_checked_add (u256_saturating_mul gl gp) v with
  | None => Err InsufficientFunds
  | Some req_funds => if bal <? req_funds then Err InsufficientFunds else Ok tt
  end = Ok tt <-> gl * gp + v <= bal.
Proof.
  intros Hgl Hgp Hv Hbal Hlt. assert (0 <= gl * gp) as Hp by (apply Z.mul_nonneg_nonneg; [apply Hgl|apply Hgp]).
  unfold u256_checked_add, u256_saturating_mul, saturate. revert Hp. generalize (gl * gp). intros c Hc.
  destruct Hv as [Hv _], Hbal as [Hb _]. case_decide.
  - rewrite if_err, Z.ltb_ge. split; [intros [? _]; lia|intros ?; split; [lia|done]].
  - split; [done|lia].
Qed.

Lemma tip_spec (tip cap : option Z) :
  match tip, cap with Some t, Some c => c <? t | _, _ => false end = false <->
  forall t c, tip = Some t -> cap = Some c -> t <= c.
Proof.
  destruct tip as [t|], cap as [c|]; try naive_solver. rewrite Z.ltb_ge. naive_solver.
Qed.

(** C25: A transaction passes validation exactly when it is for this chain,
    has the minimal gas and fits the block's gas limit if that is enforced,
    its nonce fits 64 bits and is not used up, its fees cover the base fee and
    its tip does not exceed them (from London on), and its sender can pay the
    gas at the full price plus the value; nothing overflows. *)
Theorem validate_pool_transaction_ok_iff chain_id pending account cfg block :
  let tx := mtx_transaction (ptx_transaction pending) in
  1 <= chain_id <= 2 ^ 62 -> is_u256 (AccountInfo.balance account) -> AccountInfo.balance account < U256_MAX ->
  is_u256 (TypedTransaction.gas_limit tx) -> is_u256 (TypedTransaction.gas_price tx) -> is_u256 (TypedTransaction.value tx) ->
  validate_pool_transaction_for chain_id pending account cfg block = Ret (Ok tt) <->
  chain_accepted chain_id cfg tx /\
  MIN_TRANSACTION_GAS <= TypedTransaction.gas_limit tx /\
  (CfgEnv.disable_block_gas_limit cfg = true \/ TypedTransaction.gas_limit tx <= BlockEnv.gas_limit block) /\
  AccountInfo.nonce account <= TypedTransaction.nonce tx <= U64_MAX /\
  (spec_as_u8 LONDON <= spec_as_u8 (CfgEnv.spec_id cfg) ->
     BlockEnv.basefee block <= TypedTransaction.gas_price tx /\
     forall tip cap, ess_max_priority_fee_per_gas (TypedTransaction.essentials tx) = Some tip ->
       ess_max_fee_per_gas (TypedTransaction.essentials tx) = Some cap -> tip <= cap) /\
  TypedTransaction.gas_limit tx * TypedTransaction.gas_price tx + TypedTransaction.value tx
    <= AccountInfo.balance account.
Proof.
  intros tx Hc Hbal Hlt Hgl Hgp Hv. unfold validate_pool_transaction_for. fold tx.
  destruct (validate_chain_id_spec chain_id cfg tx Hc) as (o & -> & Ho). cbn.
  destruct o as [e|]; [split; [done|intros [Hx _]; apply Ho in Hx; done]|].
  assert (chain_accepted chain_id cfg tx) as Hacc by (by apply Ho).
  assert (forall r : result unit InvalidTransactionError, Ret r = Ret (Ok tt) <-> r = Ok tt) as -> by naive_solver.
  rewrite !if_err. unfold TypedTransaction.max_cost. rewrite (funds_spec _ _ _ _ Hgl Hgp Hv Hbal Hlt).
  rewrite !andb_false_iff, negb_false_iff, !Z.ltb_ge, bool_decide_eq_false, tip_spec.
  assert (forall P Q : Prop, Decision P -> (~ P \/ Q) <-> (P -> Q)) as Himp by (intros P Q [?|?]; tauto).
  rewrite !Himp by apply _. tauto.
Qed.

(** [validate_for], which the executor does not call (it validates with
    [validate_pool_transaction_for]), accepts exactly the transactions that
    pass the pool's validation and whose nonce is the account's. *)
Theorem validate_for_ok_iff chain_id pending account cfg block :
  1 <= chain_id <= 2 ^ 62 -> is_u256 (ptx_nonce pending) ->
  validate_for chain_id pending account cfg block = Ret (Ok tt) <->
  validate_pool_transaction_for chain_id pending account cfg block = Ret (Ok tt) /\
  ptx_nonce pending = AccountInfo.nonce account.
Proof.
  intros Hc Hn. unfold validate_for.
  assert (validate_pool_transaction_for chain_id pending account cfg block = Ret (Ok tt) ->
    AccountInfo.nonce account <= ptx_nonce pending <= U64_MAX) as Hnonce.
  { unfold validate_pool_transaction_for.
    destruct (validate_chain_id_spec chain_id cfg (mtx_transaction (ptx_transaction pending)) Hc) as (o & -> & _). cbn.
    destruct o as [e|]; [done|]. intros Hr. injection Hr as Hr. rewrite !if_err, !Z.ltb_ge in Hr. unfold ptx_nonce. tauto. }
  destruct (validate_pool_transaction_for _ _ _ _ _) as [[[]|e]|w]; simpl; [|naive_solver..].
  specialize (Hnonce eq_refl). unfold u256_as_u64. rewrite decide_True by lia. simpl.
  case_decide; (split; [|intros [_ ?]]); try done; try lia; intros _; (split; [done|lia]).
Qed.

(** The next nonce the pool suggests for a sender is one more than the
    highest nonce of its pooled transactions, if it has any. *)
Theorem pool_nonce_spec txs address :
  match get_pool_transactions_nonce txs address with
  | None => forall tx, tx ∈ txs -> sender (PoolTransaction.pending_transaction tx) <> address
  | Some n => exists tx, tx ∈ txs /\ sender (PoolTransaction.pending_transaction tx) = address /\
      n = u256_saturating_add (ptx_nonce (PoolTransaction.pending_transaction tx)) 1 /\
      forall tx', tx' ∈ txs -> sender (PoolTransaction.pending_transaction tx') = address ->
        ptx_nonce (PoolTransaction.pending_transaction tx') <= ptx_nonce (PoolTransaction.pending_transaction tx)
  end.
Proof.
  unfold get_pool_transactions_nonce.
  set (P := fun tx => sender (PoolTransaction.pending_transaction tx) = address).
  set (nonce := fun tx => ptx_nonce (PoolTransaction.pending_transaction tx)).
  assert (forall tx, tx ∈ filter P txs <-> P tx /\ tx ∈ txs) as Hf by (intros tx; apply list_elem_of_filter).
  destruct (filter P txs) as [|tx0 l] eqn:Hl.
  { intros tx Hin Hp. by apply (not_elem_of_nil tx), Hf. }
  assert (forall l a, let m := fold_left (fun accum item => if nonce accum <? nonce item then item else accum) l a in
    (m = a \/ m ∈ l) /\ nonce a <= nonce m /\ forall x, x ∈ l -> nonce x <= nonce m) as Hmax.
  { clear. induction l as [|y l IH]; intros a; simpl; [split_and!; [by left|lia|by intros x ?%elem_of_nil]|].
    destruct (Z.ltb_spec (nonce a) (nonce y)) as [Hlt|Hge].
    - destruct (IH y) as (H1 & H2 & H3). split_and!; [|lia|].
      + right. rewrite elem_of_cons. tauto.
      + intros x [->|?]%elem_of_cons; [done|by apply H3].
    - destruct (IH a) as (H1 & H2 & H3). split_and!; [|done|].
      + rewrite elem_of_cons. tauto.
      + intros x [->|?]%elem_of_cons; [lia|by apply H3]. }
  destruct (Hmax l tx0) as (H1 & H2 & H3). set (m := fold_left _ l tx0) in *. exists m.
  assert (m ∈ tx0 :: l) as Hm by (rewrite elem_of_cons; tauto). apply Hf in Hm as [Hp Hin].
  split_and!; [done..|]. intros tx' Hin' Hp'. assert (tx' ∈ tx0 :: l) as [->|?]%elem_of_cons by (by apply Hf); [done|by apply H3].
Qed.
End Validator.

(** ** Witnesses *)
Definition sample_pending : PendingTransaction :=
  mkPendingTransaction
    (mtx_new (EIP1559 (EIP1559Transaction.mk 31337 4 1 100 21000 (Call 9) 7 [] [] true 1 1))) 5 77.

Lemma validate_pool_transaction_ok_iff_witness :
  @validate_pool_transaction_for spec_order_by_index 31337 sample_pending
    (AccountInfo.mk 2100007 4 KECCAK_EMPTY None) (CfgEnv.mk 31337 SHANGHAI false false false)
    (BlockEnv.mk 1 0 0 0 None 100 30000000) = Ret (Ok tt).
Proof.
  apply (@validate_pool_transaction_ok_iff spec_order_by_index 31337 sample_pending
    (AccountInfo.mk 2100007 4 KECCAK_EMPTY None) (CfgEnv.mk 31337 SHANGHAI false false false)
    (BlockEnv.mk 1 0 0 0 None 100 30000000)); simpl; unfold_bounds; unfold MIN_TRANSACTION_GAS; simpl; try lia.
  split_and!; try lia.
  - left. reflexivity.
  - intros _. split; [lia|]. intros tip cap [= <-] [= <-]. lia.
Defined.

Lemma validate_for_ok_iff_witness :
  @validate_for spec_order_by_index 31337 sample_pending
    (AccountInfo.mk 2100007 4 KECCAK_EMPTY None) (CfgEnv.mk 31337 SHANGHAI false false false)
    (BlockEnv.mk 1 0 0 0 None 100 30000000) = Ret (Ok tt).
Proof.
  apply (@validate_for_ok_iff spec_order_by_index 31337 sample_pending
    (AccountInfo.mk 2100007 4 KECCAK_EMPTY None) (CfgEnv.mk 31337 SHANGHAI false false false)
    (BlockEnv.mk 1 0 0 0 None 100 30000000)); [lia|vm_compute; split; discriminate|].
  split; [vm_compute; reflexivity|reflexivity].
Defined.
