(* ===== verification/Executor.v ===== *)
(** * Executing the transactions of a block (anvil/src/eth/backend/executor.rs)

    [TransactionExecutor] runs the pending transactions one after the other
    on the database and assembles the block, its receipts and what the pool
    must be told. *)
From S2P Require Import Prelude Transaction Hardfork Block PoolTx Db Validator.
Open Scope Z_scope.

(** ** Results of the EVM *)
Inductive InstructionResult :=
| Continue | IStop | IReturn | ISelfDestruct | IRevert | CallTooDeep | OutOfFund | OutOfGas | OpcodeNotFound
| CallNotAllowedInsideStatic | StateChangeDuringStaticCall | InvalidFEOpcode | InvalidJump | NotActivated
| StackUnderflow | StackOverflow | OutOfOffset | CreateCollision | OverflowPayment | PrecompileError
| NonceOverflow | CreateContractSizeLimit | CreateContractStartingWithEF | CreateInitcodeSizeLimit.
Inductive Eval := EvStop | EvReturn | EvSelfDestruct.
Inductive Halt :=
| HOutOfGas | HOpcodeNotFound | HInvalidFEOpcode | HInvalidJump | HNotActivated | HStackOverflow
| HStackUnderflow | HOutOfOffset | HCreateCollision | HPrecompileError | HNonceOverflow
| HCreateContractSizeLimit | HCreateContractStartingWithEF | HCreateInitcodeSizeLimit | HOverflowPayment
| HStateChangeDuringStaticCall | HCallNotAllowedInsideStatic | HOutOfFund | HCallTooDeep.

Definition eval_to_instruction_result (e : Eval) : InstructionResult :=
  match e with EvReturn => IReturn | EvStop => IStop | EvSelfDestruct => ISelfDestruct end.
Definition halt_to_instruction_result (h : Halt) : InstructionResult :=
  match h with
  | HOutOfGas => OutOfGas
  | HOpcodeNotFound => OpcodeNotFound
  | HInvalidFEOpcode => InvalidFEOpcode
  | HInvalidJump => InvalidJump
  | HNotActivated => NotActivated
  | HStackOverflow => StackOverflow
  | HStackUnderflow => StackUnderflow
  | HOutOfOffset => OutOfOffset
  | HCreateCollision => CreateCollision
  | HPrecompileError => PrecompileError
  | HNonceOverflow => NonceOverflow
  | HCreateContractSizeLimit => CreateContractSizeLimit
  | HCreateContractStartingWithEF => CreateContractStartingWithEF
  | HCreateInitcodeSizeLimit => CreateInitcodeSizeLimit
  | HOverflowPayment => OverflowPayment
  | HStateChangeDuringStaticCall => StateChangeDuringStaticCall
  | HCallNotAllowedInsideStatic => CallNotAllowedInsideStatic
  | HOutOfFund => OutOfFund
  | HCallTooDeep => CallTooDeep
  end.

Inductive Output := OutCall (b : list byte) | OutCreate (b : list byte) (address : option Address).
Inductive ExecutionResult :=
| Success (reason : Eval) (gas_used : Z) (logs : list Log) (output : Output)
| Reverted (gas_used : Z) (output : list byte)
| Halted (reason : Halt) (gas_used : Z).

(** The EVM with its database, the Bloom filter and the root of a trie are
    library code.  A successful exit is one whose number is at most that of
    [SelfDestruct]. *)
Class Evm := {
  evm_db : Type;
  evm_db_error : Type;
  evm_trace : Type;
  db_basic : evm_db -> Address -> result (option AccountInfo.t) evm_db_error;
  maybe_state_root : evm_db -> option H256;
  inspect_commit : CfgEnv.t -> BlockEnv.t -> TxEnv -> evm_db ->
    result ExecutionResult (evm_db_error + InvalidTransaction + unit) * list evm_trace * evm_db;
  instruction_as_u8 : InstructionResult -> Z;
  accrue_raw : list byte -> Bloom -> Bloom;
  receipts_trie_root : list TypedReceipt -> H256;
  transactions_trie_root : list MaybeImpersonatedTransaction -> H256;
  ommers_rlp_hash : list Header.t -> H256 }.

Definition h256_bytes (h : H256) : list byte := reverse (to_le_bytes 32 h).

Section Executor.
Context `{!Evm} `{!SpecIdOrder}.

(** [logs_bloom] *)
Definition logs_bloom (logs : list Log) (bloom : Bloom) : Bloom :=
  fold_left (fun bloom log =>
    fold_left (fun bloom topic => accrue_raw (h256_bytes topic) bloom) (log_topics log)
      (accrue_raw (address_bytes (log_address log)) bloom)) logs bloom.

Record ExecutedTransaction := mkET {
  et_transaction : PoolTransaction.t;
  et_exit_reason : InstructionResult;
  et_out : option Output;
  et_gas_used : Z;
  et_logs : list Log;
  et_traces : list evm_trace }.

Definition create_receipt (e : ExecutedTransaction) : TypedReceipt :=
  let used_gas := et_gas_used e in
  let bloom := logs_bloom (et_logs e) 0 in
  let status_code :=
    if decide (instruction_as_u8 (et_exit_reason e) <= instruction_as_u8 ISelfDestruct) then 1 else 0 in
  let r := mkReceipt status_code used_gas bloom (et_logs e) in
  match mtx_transaction (ptx_transaction (PoolTransaction.pending_transaction (et_transaction e))) with
  | Legacy _ => LegacyReceipt r
  | EIP2930 _ => EIP2930Receipt r
  | EIP1559 _ => EIP1559Receipt r
  end.

Record TransactionInfo := mkInfo {
  info_transaction_hash : H256; info_transaction_index : Z; info_from : Address; info_to : option Address;
  info_contract_address : option Address; info_logs : list Log; info_logs_bloom : Bloom;
  info_traces : list evm_trace; info_exit : InstructionResult; info_out : option (list byte) }.

Record BlockInfo := mkBlockInfo {
  bi_block : Block; bi_transactions : list TransactionInfo; bi_receipts : list TypedReceipt }.

Record ExecutedTransactions := mkExecuted {
  ex_block : BlockInfo; ex_included : list PoolTransaction.t; ex_invalid : list PoolTransaction.t }.

Inductive TransactionExecutionOutcome :=
| Executed (tx : ExecutedTransaction)
| Invalid (tx : PoolTransaction.t) (err : InvalidTransactionError)
| Exhausted (tx : PoolTransaction.t)
| DatabaseErrorOutcome (tx : PoolTransaction.t) (err : evm_db_error).

(** ** The executor

    The fields that do not change while it runs. *)
Variable validator : PendingTransaction -> AccountInfo.t -> CfgEnv.t -> BlockEnv.t ->
  exec (result unit InvalidTransactionError).
Variable block_env : BlockEnv.t.
Variable cfg_env : CfgEnv.t.
Variable parent_hash : H256.

Record TransactionExecutor := mkExecutor {
  te_db : evm_db; te_pending : list PoolTransaction.t; te_gas_used : Z }.

(** [next] *)
Definition next (s : TransactionExecutor) : exec (option TransactionExecutionOutcome * TransactionExecutor) :=
  match te_pending s with
  | [] => Ret (None, s)
  | transaction :: pending =>
      let s := mkExecutor (te_db s) pending (te_gas_used s) in
      let ptx := PoolTransaction.pending_transaction transaction in
      match db_basic (te_db s) (sender ptx) with
      | Err err => Ret (Some (DatabaseErrorOutcome transaction err), s)
      | Ok acc =>
          let account := default default_account acc in
          env ← to_revm_tx_env ptx;
          let max_gas := u256_saturating_add (te_gas_used s) (env_tx_gas_limit env) in
          if BlockEnv.gas_limit block_env <? max_gas then Ret (Some (Exhausted transaction), s)
          else
            v ← validator ptx account cfg_env block_env;
            match v with
            | Err err => Ret (Some (Invalid transaction err), s)
            | Ok _ =>
                let '(res, traces, db) := inspect_commit cfg_env block_env env (te_db s) in
                let s := mkExecutor db (te_pending s) (te_gas_used s) in
                match res with
                | Err (inl (inl err)) => Ret (Some (DatabaseErrorOutcome transaction err), s)
                | Err (inl (inr err)) => Ret (Some (Invalid transaction (invalid_transaction_from err)), s)
                | Err (inr _) => Panic "Failed to execute transaction. This is a bug."
                | Ok exec_result =>
                    let '(exit_reason, gas_used, out, logs) :=
                      match exec_result with
                      | Success reason gas_used logs output =>
                          (eval_to_instruction_result reason, gas_used, Some output, Some logs)
                      | Reverted gas_used output => (IRevert, gas_used, Some (OutCall output), None)
                      | Halted reason gas_used => (halt_to_instruction_result reason, gas_used, None, None)
                      end in
                    (* [self.gas_used.saturating_add(U256::from(gas_used));] drops its result *)
                    Ret (Some (Executed (mkET transaction exit_reason out gas_used
                                           (default [] logs) traces)), s)
                end
            end
      end
  end.

Definition tx_to (t : PoolTransaction.t) : option Address :=
  as_call (ess_kind (TypedTransaction.essentials
    (mtx_transaction (ptx_transaction (PoolTransaction.pending_transaction t))))).

(** What the loop of [execute] accumulates. *)
Record accumulated := mkAcc {
  a_transactions : list MaybeImpersonatedTransaction; a_infos : list TransactionInfo;
  a_receipts : list TypedReceipt; a_bloom : Bloom; a_cumulative_gas_used : Z;
  a_invalid : list PoolTransaction.t; a_included : list PoolTransaction.t }.
Definition acc_empty : accumulated := mkAcc [] [] [] 0 0 [] [].

Definition accumulate (a : accumulated) (o : TransactionExecutionOutcome) : accumulated :=
  match o with
  | Exhausted _ | DatabaseErrorOutcome _ _ => a
  | Invalid tx _ =>
      mkAcc (a_transactions a) (a_infos a) (a_receipts a) (a_bloom a) (a_cumulative_gas_used a)
        (a_invalid a ++ [tx]) (a_included a)
  | Executed tx =>
      let receipt := create_receipt tx in
      let ptx := PoolTransaction.pending_transaction (et_transaction tx) in
      let contract_address := match et_out tx with Some (OutCreate _ a) => a | _ => None end in
      let info :=
        mkInfo (PoolTransaction.hash (et_transaction tx)) (Z.of_nat (length (a_infos a)) mod 2 ^ 32)
          (sender ptx) (tx_to (et_transaction tx)) contract_address (et_logs tx) (TypedReceipt.logs_bloom receipt)
          (et_traces tx) (et_exit_reason tx)
          (match et_out tx with Some (OutCall b) => Some b | Some (OutCreate b _) => Some b | None => None end) in
      mkAcc (a_transactions a ++ [ptx_transaction ptx]) (a_infos a ++ [info]) (a_receipts a ++ [receipt])
        (logs_bloom (et_logs tx) (a_bloom a))
        (u256_saturating_add (a_cumulative_gas_used a) (TypedReceipt.gas_used receipt))
        (a_invalid a) (a_included a ++ [et_transaction tx])
  end.

(** The [for] loop over the executor; [n] is the number of pending
    transactions. *)
Fixpoint execute_loop (n : nat) (s : TransactionExecutor) (a : accumulated)
    : exec (accumulated * TransactionExecutor) :=
  match n with
  | O => Ret (a, s)
  | S n' =>
      '(o, s) ← next s;
      match o with
      | None => Ret (a, s)
      | Some o => execute_loop n' s (accumulate a o)
      end
  end.

Definition execute (s : TransactionExecutor) : exec (ExecutedTransactions * evm_db) :=
  timestamp ← u256_as_u64 (BlockEnv.timestamp block_env);
  let base_fee :=
    if decide (spec_as_u8 LONDON <= spec_as_u8 (CfgEnv.spec_id cfg_env))
    then Some (BlockEnv.basefee block_env) else None in
  '(a, s) ← execute_loop (length (te_pending s)) s acc_empty;
  let receipts_root := receipts_trie_root (a_receipts a) in
  let partial_header :=
    PartialHeader.mk parent_hash (BlockEnv.coinbase block_env) (default 0 (maybe_state_root (te_db s)))
      receipts_root (a_bloom a) (BlockEnv.difficulty block_env) (BlockEnv.number block_env)
      (BlockEnv.gas_limit block_env) (a_cumulative_gas_used a) timestamp [] 0 0 base_fee in
  let block := block_new ommers_rlp_hash transactions_trie_root partial_header (a_transactions a) [] in
  Ret (mkExecuted (mkBlockInfo block (a_infos a) (a_receipts a)) (a_included a) (a_invalid a), te_db s).

(** ** Properties *)
Definition outcome_tx (o : TransactionExecutionOutcome) : PoolTransaction.t :=
  match o with
  | Executed e => et_transaction e
  | Invalid tx _ | Exhausted tx | DatabaseErrorOutcome tx _ => tx
  end.
Definition outcome_executed (o : TransactionExecutionOutcome) : option ExecutedTransaction :=
  match o with Executed e => Some e | _ => None end.
Definition outcome_invalid (o : TransactionExecutionOutcome) : option PoolTransaction.t :=
  match o with Invalid tx _ => Some tx | _ => None end.

(** The gas an execution reports. *)
Definition result_gas (r : ExecutionResult) : Z :=
  match r with Success _ g _ _ => g | Reverted g _ => g | Halted _ g => g end.

(** The gas is a [u64] in the library. *)
Hypothesis evm_gas_u64 : forall c b e db r tr db',
  inspect_commit c b e db = (Ok r, tr, db') -> is_u64 (result_gas r).

(** A turn of the executor: the outcome of the first pending transaction. *)
Inductive steps : TransactionExecutor -> list TransactionExecutionOutcome -> TransactionExecutor -> Prop :=
| steps_done s : te_pending s = [] -> steps s [] s
| steps_next s o s' os s'' : next s = Ret (Some o, s') -> steps s' os s'' -> steps s (o :: os) s''.

(** Each turn deals with the next pending transaction; it is skipped for gas
    exactly when its limit and the executor's counter exceed the block's
    limit, and the counter never changes. *)
Definition gas_guard (counter : Z) (o : TransactionExecutionOutcome) : Prop :=
  match o with
  | Exhausted t => forall env, to_revm_tx_env (PoolTransaction.pending_transaction t) = Ret env ->
      BlockEnv.gas_limit block_env < u256_saturating_add counter (env_tx_gas_limit env)
  | Executed e => is_u64 (et_gas_used e) /\
      forall env, to_revm_tx_env (PoolTransaction.pending_transaction (et_transaction e)) = Ret env ->
      u256_saturating_add counter (env_tx_gas_limit env) <= BlockEnv.gas_limit block_env
  | _ => True
  end.

Lemma next_Ret s o s' :
  next s = Ret (o, s') ->
  te_gas_used s' = te_gas_used s /\
  match te_pending s with
  | [] => o = None /\ s' = s
  | t :: rest => exists o', o = Some o' /\ outcome_tx o' = t /\ te_pending s' = rest /\ gas_guard (te_gas_used s) o'
  end.
Proof using evm_gas_u64.
  unfold next. destruct (te_pending s) as [|t rest]; [by intros [= <- <-]|].
  destruct (db_basic _ _) as [acc|err]; cbn; [|by intros [= <- <-]; split; [|eexists]].
  destruct (to_revm_tx_env _) as [env|w] eqn:Henv; cbn; [|done].
  destruct (Z.ltb_spec (BlockEnv.gas_limit block_env) (u256_saturating_add (te_gas_used s) (env_tx_gas_limit env))) as [Hg|Hg].
  { intros [= <- <-]. split; [done|]. eexists. split_and!; [done..|]. cbn. rewrite Henv. by intros env' [= <-]. }
  destruct (validator _ _ _ _) as [[[]|err]|w]; cbn; [|by intros [= <- <-]; split; [|eexists]|done].
  destruct (inspect_commit _ _ _ _) as [[[r|[[e|e]|[]]] tr] db] eqn:Hi; [|by intros [= <- <-]; split; [|eexists]..|done].
  pose proof (evm_gas_u64 _ _ _ _ _ _ _ Hi) as Hu.
  destruct r; cbn in *; intros [= <- <-]; (split; [done|]); eexists; (split_and!; [done..|]); (split; [exact Hu|]);
    cbn; rewrite Henv; by intros env' [= <-].
Qed.

(** The loop runs the turns and folds their outcomes. *)
Lemma execute_loop_Ret n : forall s a a' s',
  n = length (te_pending s) -> execute_loop n s a = Ret (a', s') ->
  exists os, steps s os s' /\ a' = fold_left accumulate os a.
Proof using evm_gas_u64.
  induction n as [|n IH]; intros s a a' s' Hn; cbn [execute_loop].
  { intros [= <- <-]. exists []. split; [|done]. apply steps_done. by destruct (te_pending s). }
  destruct (next s) as [[o s1]|w] eqn:Hnext; cbn; [|done]. destruct (next_Ret s o s1 Hnext) as [Hg Hs].
  destruct (te_pending s) as [|t rest] eqn:Hp; [done|]. destruct Hs as (o' & -> & Ho & Hrest & _).
  intros Hloop. destruct (IH s1 _ _ _ ltac:(simpl in Hn; rewrite Hrest; lia) Hloop) as (os & Hos & Ha).
  exists (o' :: os). split; [by eapply steps_next|done].
Qed.

Lemma steps_spec s os s' :
  steps s os s' ->
  outcome_tx <$> os = te_pending s /\ te_pending s' = [] /\ Forall (gas_guard (te_gas_used s)) os.
Proof using evm_gas_u64.
  induction 1 as [s Hp|s o s' os s'' Hn _ (IH1 & IH2 & IH3)]; [by rewrite Hp|].
  destruct (next_Ret _ _ _ Hn) as [Hg Hs]. destruct (te_pending s) as [|t rest]; [by destruct Hs|].
  destruct Hs as (o' & [= <-] & Ho & Hrest & Hgg). rewrite fmap_cons, IH1, Ho, Hrest.
  split_and!; [done..|]. constructor; [done|]. by rewrite <- Hg.
Qed.

(** What is accumulated, in terms of the executed transactions. *)
Definition total_gas_used (es : list ExecutedTransaction) : Z := foldr (fun e a => et_gas_used e + a) 0 es.

Lemma receipt_gas e : TypedReceipt.gas_used (create_receipt e) = et_gas_used e.
Proof. unfold create_receipt. by destruct (mtx_transaction _). Qed.

(** The infos of the executed transactions, at their positions. *)
Definition infos_match (infos : list TransactionInfo) (es : list ExecutedTransaction) : Prop :=
  length infos = length es /\
  forall i e, es !! i = Some e -> exists info, infos !! i = Some info /\
    info_transaction_hash info = PoolTransaction.hash (et_transaction e) /\
    info_transaction_index info = Z.of_nat i mod 2 ^ 32 /\ info_logs info = et_logs e.

Record acc_of (os : list TransactionExecutionOutcome) (a : accumulated) : Prop := {
  ac_included : a_included a = et_transaction <$> omap outcome_executed os;
  ac_invalid : a_invalid a = omap outcome_invalid os;
  ac_transactions : a_transactions a =
    (fun e => ptx_transaction (PoolTransaction.pending_transaction (et_transaction e))) <$> omap outcome_executed os;
  ac_receipts : a_receipts a = create_receipt <$> omap outcome_executed os;
  ac_infos : infos_match (a_infos a) (omap outcome_executed os);
  ac_bloom : a_bloom a = fold_left (fun b e => logs_bloom (et_logs e) b) (omap outcome_executed os) 0;
  ac_pos : 0 <= total_gas_used (omap outcome_executed os);
  ac_gas : a_cumulative_gas_used a = Z.min U256_MAX (total_gas_used (omap outcome_executed os)) }.

Lemma total_gas_snoc es e : total_gas_used (es ++ [e]) = total_gas_used es + et_gas_used e.
Proof. induction es as [|x es IH]; simpl; [lia|]. rewrite IH. lia. Qed.

Lemma infos_match_snoc infos es info e :
  infos_match infos es ->
  info_transaction_hash info = PoolTransaction.hash (et_transaction e) ->
  info_transaction_index info = Z.of_nat (length infos) mod 2 ^ 32 -> info_logs info = et_logs e ->
  infos_match (infos ++ [info]) (es ++ [e]).
Proof.
  intros [A5 A6] I1 I2 I3. split; [by rewrite !length_app, A5|]. intros i x Hx.
  apply lookup_app_Some in Hx as [Hx|[Hi Hx]].
  - destruct (A6 i x Hx) as (info' & Hinfo & Hr). exists info'. split; [by apply lookup_app_l_Some|done].
  - apply list_lookup_singleton_Some in Hx as [Hi' <-]. assert (i = length infos) as -> by (rewrite A5; lia).
    rewrite list_lookup_middle by done. by exists info.
Qed.

Lemma accumulate_spec c os a o :
  gas_guard c o -> acc_of os a -> acc_of (os ++ [o]) (accumulate a o).
Proof.
  intros Ho [A1 A2 A3 A4 A5 A6 A7 A8].
  destruct o as [e|tx err|tx|tx err]; simpl.
  2-4: split; simpl; rewrite ?omap_app; simpl; rewrite ?app_nil_r, ?A2; done.
  assert (omap outcome_executed (os ++ [Executed e]) = omap outcome_executed os ++ [e]) as He by (by rewrite omap_app).
  destruct Ho as [Hu _]. unfold is_u64 in Hu.
  split; simpl; rewrite ?He, ?fmap_app, ?total_gas_snoc.
  - by rewrite A1.
  - by rewrite omap_app, A2, app_nil_r.
  - by rewrite A3.
  - by rewrite A4.
  - by apply infos_match_snoc.
  - by rewrite fold_left_app, A6.
  - unfold_bounds; lia.
  - rewrite receipt_gas, A8. unfold u256_saturating_add, saturate. unfold_bounds; lia.
Qed.

Lemma accumulate_all c os : forall os0 a,
  Forall (gas_guard c) os -> acc_of os0 a -> acc_of (os0 ++ os) (fold_left accumulate os a).
Proof.
  induction os as [|o os IH]; intros os0 a Hg Ha; simpl; [by rewrite app_nil_r|].
  apply Forall_cons in Hg as [Hg1 Hg2]. rewrite cons_middle, app_assoc. apply IH; [done|]. by eapply accumulate_spec.
Qed.

Lemma acc_of_empty : acc_of [] acc_empty.
Proof. by split. Qed.

(** The result [r], and the database [db], of dealing with the pending
    transactions with the outcomes [os]. *)
Definition executes (s : TransactionExecutor) (r : ExecutedTransactions) (db : evm_db)
    (os : list TransactionExecutionOutcome) : Prop :=
  exists s', steps s os s' /\ outcome_tx <$> os = te_pending s /\ db = te_db s' /\
    let es := omap outcome_executed os in
    let h := header (bi_block (ex_block r)) in
    ex_included r = et_transaction <$> es /\ ex_invalid r = omap outcome_invalid os /\
    transactions (bi_block (ex_block r)) =
      (fun e => ptx_transaction (PoolTransaction.pending_transaction (et_transaction e))) <$> es /\
    bi_receipts (ex_block r) = create_receipt <$> es /\
    infos_match (bi_transactions (ex_block r)) es /\
    Header.gas_used h = Z.min U256_MAX (total_gas_used es) /\
    Header.logs_bloom h = fold_left (fun b e => logs_bloom (et_logs e) b) es 0 /\
    Header.parent_hash h = parent_hash /\ Header.number h = BlockEnv.number block_env /\
    Header.timestamp h = BlockEnv.timestamp block_env /\ BlockEnv.timestamp block_env <= U64_MAX /\
    Header.gas_limit h = BlockEnv.gas_limit block_env.

Lemma execute_spec s r db : execute s = Ret (r, db) -> exists os, executes s r db os.
Proof using evm_gas_u64.
  unfold execute. destruct (u256_as_u64 _) as [ts|w] eqn:Hts; cbn; [|done]. apply u256_as_u64_Ret in Hts as [<- Hts].
  destruct (execute_loop _ _ _) as [[a s']|w] eqn:Hl; cbn; [|done]. intros [= <- <-].
  destruct (execute_loop_Ret _ _ _ _ _ eq_refl Hl) as (os & Hos & ->).
  destruct (steps_spec _ _ _ Hos) as (Ht & _ & Hg).
  destruct (accumulate_all _ os [] acc_empty Hg acc_of_empty) as [A1 A2 A3 A4 A5 A6 A7 A8].
  exists os, s'. simpl in *. done.
Qed.

(** The infos, the receipts and the transactions of the block belong to the
    included transactions, in order. *)
Lemma executes_included s r db os :
  executes s r db os ->
  info_transaction_hash <$> bi_transactions (ex_block r) = PoolTransaction.hash <$> ex_included r /\
  transactions (bi_block (ex_block r)) = (fun t => ptx_transaction (PoolTransaction.pending_transaction t)) <$> ex_included r /\
  length (bi_transactions (ex_block r)) = length (bi_receipts (ex_block r)) /\
  forall t, t ∈ ex_included r -> t ∈ te_pending s.
Proof.
  intros (s' & _ & Hos & _ & Hi & _ & Ht & Hr & [Hl Hinfo] & _). rewrite Hi, Ht, Hr. split_and!.
  - apply list_eq. intros i. rewrite !list_lookup_fmap. destruct (omap outcome_executed os !! i) as [e|] eqn:He; simpl.
    + by destruct (Hinfo i e He) as (info & -> & <- & _).
    + apply lookup_ge_None in He. by rewrite lookup_ge_None_2 by lia.
  - by rewrite <- list_fmap_compose.
  - by rewrite length_fmap.
  - intros t (e & -> & He)%list_elem_of_fmap. apply list_elem_of_omap in He as (o & Ho & Heq).
    rewrite <- Hos. apply list_elem_of_fmap. exists o. destruct o; by simplify_eq/=.
Qed.

(** C24: Executing a block deals with every pending transaction once and in
    order, each on the state the previous one left; the block holds exactly
    the executed ones, with one receipt and one info each at the same position,
    under the transaction's hash; the invalid ones are reported; the header
    has the given parent, number, time and limit, the bloom of the executed
    transactions' logs and the sum of the gas they used; the database is the
    one the last turn left. *)
Theorem execute_block s r db :
  execute s = Ret (r, db) -> exists os, executes s r db os.
Proof using evm_gas_u64. apply execute_spec. Qed.
(** The transactions whose fields the EVM's environment can hold. *)
Definition fits_env (t : PoolTransaction.t) : Prop :=
  exists env, to_revm_tx_env (PoolTransaction.pending_transaction t) = Ret env.

Lemma execute_loop_returns n : forall s a,
  (forall p acc, exists r, validator p acc cfg_env block_env = Ret r) ->
  (forall e db tr db', inspect_commit cfg_env block_env e db <> (Err (inr tt), tr, db')) ->
  Forall fits_env (te_pending s) -> exists r, execute_loop n s a = Ret r.
Proof.
  induction n as [|n IH]; intros s a Hv He Hf; cbn [execute_loop]; [by eexists|].
  enough (exists o s1, next s = Ret (o, s1) /\ Forall fits_env (te_pending s1)) as (o & s1 & -> & Hf1).
  { cbn. destruct o as [o|]; [by apply IH|by eexists]. }
  unfold next. destruct (te_pending s) as [|t rest] eqn:Hp; [exists None, s; by rewrite Hp|].
  apply Forall_cons in Hf as [[env Henv] Hf].
  destruct (db_basic _ _) as [acc|err]; cbn; [|by eexists _, _]. rewrite Henv. cbn.
  destruct (_ <? _); [by eexists _, _|].
  destruct (Hv (PoolTransaction.pending_transaction t) (default default_account acc)) as [[[]|err] ->]; cbn; [|by eexists _, _].
  specialize (He env (te_db s)).
  destruct (inspect_commit _ _ _ _) as [[[[]|[[e|e]|[]]] tr] db]; cbn; try by eexists _, _. by destruct (He tr db).
Qed.

(** The executor assembles a block whenever the block's time and the
    transactions' gas limits and nonces are 64-bit numbers, the validator does
    not panic and the EVM reports no error outside the ones it documents. *)
Theorem execute_returns s :
  is_u64 (BlockEnv.timestamp block_env) ->
  (forall p acc, exists r, validator p acc cfg_env block_env = Ret r) ->
  (forall e db tr db', inspect_commit cfg_env block_env e db <> (Err (inr tt), tr, db')) ->
  Forall fits_env (te_pending s) ->
  exists r db, execute s = Ret (r, db).
Proof.
  intros [_ Hts] Hv He Hf. unfold execute.
  assert (u256_as_u64 (BlockEnv.timestamp block_env) = Ret (BlockEnv.timestamp block_env)) as -> by (by apply u256_as_u64_Ret).
  cbn. destruct (execute_loop_returns (length (te_pending s)) s acc_empty Hv He Hf) as [[a s'] ->]. cbn. by eexists _, _.
Qed.
End Executor.

(** ** A node with a toy EVM that spends the whole gas limit *)
Module SpendAll.
#[local] Instance spec_order : SpecIdOrder := spec_order_by_index.
#[export] Instance evm : Evm := {|
  evm_db := list TxEnv;
  evm_db_error := Empty_set;
  evm_trace := unit;
  db_basic _ a := Ok (Some (AccountInfo.mk (10 ^ 18) 0 KECCAK_EMPTY None));
  maybe_state_root _ := None;
  inspect_commit _ _ env db := (Ok (Success EvStop (env_tx_gas_limit env mod 2 ^ 64) [] (OutCall [])), [], db ++ [env]);
  instruction_as_u8 i := match i with Continue => 0 | IStop => 1 | IReturn => 2 | ISelfDestruct => 3 | _ => 32 end;
  accrue_raw _ b := b;
  receipts_trie_root _ := 0;
  transactions_trie_root _ := 0;
  ommers_rlp_hash _ := 0 |}.

Definition tx (from hash : Z) (limit : Z) : PoolTransaction.t :=
  PoolTransaction.mk
    (mkPendingTransaction
       {| mtx_transaction := Legacy (LegacyTransaction.mk 0 7 limit (Call 9) 0 [] (Build_Signature 0 0 27));
          impersonated_sender := None |} from hash) [] [to_marker 0 from] 7.
Definition cfg : CfgEnv.t := CfgEnv.mk 31337 LATEST false false false.
Definition block (limit : Z) : BlockEnv.t := BlockEnv.mk 1 0 100 0 None 0 limit.
Definition no_db : evm_db (Evm := evm) := [].
Definition run (limit : Z) (txs : list PoolTransaction.t) :=
  execute (validate_pool_transaction_for 31337) (block limit) cfg 5 (mkExecutor no_db txs 0).

Lemma gas_u64 : forall c b e db r tr db',
  inspect_commit (Evm := evm) c b e db = (Ok r, tr, db') -> is_u64 (result_gas r).
Proof.
  intros c b e db r tr db' [= <- _ _]. simpl. pose proof (Z.mod_pos_bound (env_tx_gas_limit e) (2 ^ 64)).
  unfold is_u64, U64_MAX. lia.
Qed.

Definition result_of (limit : Z) (txs : list PoolTransaction.t) (d : ExecutedTransactions * list TxEnv) :=
  match run limit txs with Ret r => r | Panic _ => d end.
Definition nothing : ExecutedTransactions * list TxEnv :=
  (mkExecuted (mkBlockInfo (mkBlock (Header.mk 0 0 0 0 0 0 0 0 0 0 0 0 [] 0 0 None) [] []) [] []) [] [], []).
Definition sample : ExecutedTransactions * list TxEnv := result_of 30000000 [tx 1 11 21000; tx 2 12 30000] nothing.

Lemma execute_block_witness :
  exists os, outcome_tx <$> os = [tx 1 11 21000; tx 2 12 30000] /\
    ex_included (fst sample) = et_transaction <$> omap outcome_executed os.
Proof.
  destruct (execute_block (validate_pool_transaction_for 31337) (block 30000000) cfg 5 gas_u64
    (mkExecutor no_db [tx 1 11 21000; tx 2 12 30000] 0) (fst sample) (snd sample)) as (os & s' & _ & Hos & _ & Hi & _).
  - reflexivity.
  - by exists os.
Defined.

Lemma execute_returns_witness :
  exists r db, execute (fun _ _ _ _ => Ret (Ok tt)) (block 100) cfg 5 (mkExecutor no_db [tx 1 11 21000] 0) = Ret (r, db).
Proof.
  apply (execute_returns (fun _ _ _ _ => Ret (Ok tt)) (block 100) cfg 5 (mkExecutor no_db [tx 1 11 21000] 0)).
  - vm_compute. split; discriminate.
  - intros p acc. by eexists.
  - intros e db tr db'. discriminate.
  - repeat constructor. by eexists.
Defined.

(** The block's gas limit bounds each transaction, not their sum: the
    executor drops the result of [saturating_add], so two transactions of
    20,000,000 gas each are both included under a limit of 30,000,000 and the
    header claims more gas used than its limit. *)
Theorem block_gas_limit_not_enforced :
  exists r db, run 30000000 [tx 1 11 20000000; tx 2 12 20000000] = Ret (r, db) /\
    PoolTransaction.hash <$> ex_included r = [11; 12] /\
    Header.gas_limit (header (bi_block (ex_block r))) = 30000000 /\
    Header.gas_used (header (bi_block (ex_block r))) = 40000000.
Proof. by eexists _, _. Qed.
End SpendAll.
