(* ===== verification/Chain.v ===== *)
(** * The chain (anvil/src/eth/backend/mem/storage.rs, [BlockchainStorage])

    The blocks by hash, the hashes by number, the mined transactions by hash
    and the head.  [Blockchain] shares one [BlockchainStorage] behind a lock;
    its accessors take the lock for one read. *)
From S2P Require Import Prelude Transaction Hardfork Block PoolTx Db Validator Executor.
Open Scope Z_scope.

(** The Keccak hashes of RLP encodings, and the length of a block's encoding. *)
Class Hashing := {
  header_hash : Header.t -> H256;
  typed_transaction_hash : TypedTransaction -> H256;
  impersonated_hash : TypedTransaction -> Address -> H256;
  block_rlp_len : Block -> Z }.

Section Chain.
Context `{!Evm} `{!Hashing}.

Definition block_tx_hash (m : MaybeImpersonatedTransaction) : H256 :=
  mtx_hash typed_transaction_hash impersonated_hash m.

Record MinedTransaction := mkMined {
  mined_info : TransactionInfo; mined_receipt : TypedReceipt;
  mined_block_hash : H256; mined_block_number : Z }.

Record BlockchainStorage := mkStorage {
  blocks : gmap H256 Block;
  hashes : gmap Z H256;
  best_hash : H256;
  best_number : Z;
  genesis_hash : H256;
  mined : gmap TxHash MinedTransaction;
  total_difficulty : Z }.

(** ** Construction *)
Definition genesis_block (env : BlockEnv.t) (base_fee : option Z) (timestamp : Z) : Block :=
  block_new ommers_rlp_hash transactions_trie_root
    (PartialHeader.mk 0 (BlockEnv.coinbase env) 0 0 0 (BlockEnv.difficulty env) 0
       (BlockEnv.gas_limit env) 0 timestamp [] 0 0 base_fee) [] [].

Definition storage_new (env : BlockEnv.t) (base_fee : option Z) (timestamp : Z) : BlockchainStorage :=
  let block := genesis_block env base_fee timestamp in
  let genesis_hash := header_hash (header block) in
  mkStorage {[genesis_hash := block]} {[0 := genesis_hash]} genesis_hash 0 genesis_hash ∅ 0.

Definition storage_forked (block_number : Z) (block_hash : H256) (total_difficulty : Z) : BlockchainStorage :=
  mkStorage ∅ {[block_number := block_hash]} block_hash block_number 0 ∅ total_difficulty.

Definition storage_empty : BlockchainStorage := mkStorage ∅ ∅ 0 0 0 ∅ 0.

(** ** Lookups *)
Definition slots_in_an_epoch : Z := 32.

Definition storage_hash (s : BlockchainStorage) (number : BlockNumber) : option H256 :=
  match number with
  | BLatest => Some (best_hash s)
  | BEarliest => Some (genesis_hash s)
  | BPending => None
  | BNumber num => hashes s !! num
  | BSafe =>
      if slots_in_an_epoch <? best_number s then hashes s !! (best_number s - slots_in_an_epoch)
      else Some (genesis_hash s)
  | BFinalized =>
      if slots_in_an_epoch * 2 <? best_number s then hashes s !! (best_number s - slots_in_an_epoch * 2)
      else Some (genesis_hash s)
  end.

(** [ethers::types::BlockId] *)
Inductive BlockId := IdHash (h : H256) | IdNumber (n : BlockNumber).

Definition blockchain_hash (s : BlockchainStorage) (id : BlockId) : option H256 :=
  match id with IdHash h => Some h | IdNumber num => storage_hash s num end.
Definition get_block_by_hash (s : BlockchainStorage) (hash : H256) : option Block := blocks s !! hash.
Definition get_transaction_by_hash (s : BlockchainStorage) (hash : H256) : option MinedTransaction :=
  mined s !! hash.
Definition blocks_count (s : BlockchainStorage) : nat := size (blocks s).

(** [Backend::get_block], which repeats the lookup of [storage_hash]. *)
Definition get_block (s : BlockchainStorage) (id : BlockId) : option Block :=
  match
    match id with
    | IdHash hash => Some hash
    | IdNumber number =>
        match number with
        | BLatest => Some (best_hash s)
        | BEarliest => Some (genesis_hash s)
        | BPending => None
        | BNumber num => hashes s !! num
        | BSafe =>
            if slots_in_an_epoch <? best_number s then hashes s !! (best_number s - slots_in_an_epoch)
            else Some (genesis_hash s)
        | BFinalized =>
            if slots_in_an_epoch * 2 <? best_number s then hashes s !! (best_number s - slots_in_an_epoch * 2)
            else Some (genesis_hash s)
        end
    end
  with
  | Some hash => get_block_by_hash s hash
  | None => None
  end.

(** ** Growing and shrinking *)

(** One step of the insertion of a mined block's transactions. *)
Definition insert_mined (block_hash : H256) (block_number : Z)
    (m : gmap TxHash MinedTransaction) (t : TransactionInfo * TypedReceipt) : gmap TxHash MinedTransaction :=
  <[info_transaction_hash (fst t) := mkMined (fst t) (snd t) block_hash block_number]> m.

Definition remove_mined (m : gmap TxHash MinedTransaction) (tx : MaybeImpersonatedTransaction)
    : gmap TxHash MinedTransaction := delete (block_tx_hash tx) m.

(** The transactions of the block [n] are forgotten. *)
Definition prune_transactions (s : BlockchainStorage) (n : Z) : BlockchainStorage :=
  match hashes s !! n with
  | Some hash =>
      match blocks s !! hash with
      | Some block =>
          mkStorage (blocks s) (hashes s) (best_hash s) (best_number s) (genesis_hash s)
            (fold_left remove_mined (transactions block) (mined s)) (total_difficulty s)
      | None => s
      end
  | None => s
  end.

(** The storage part of [do_mine_block]. *)
Definition store_block (is_eip3675 : bool) (transaction_block_keeper : option Z)
    (block : Block) (infos : list TransactionInfo) (receipts : list TypedReceipt)
    (block_hash : H256) (block_number : Z) (s : BlockchainStorage) : BlockchainStorage :=
  let total_difficulty :=
    if is_eip3675 then total_difficulty s
    else u256_saturating_add (total_difficulty s) (Header.difficulty (header block)) in
  let s :=
    mkStorage (<[block_hash := block]> (blocks s)) (<[block_number := block_hash]> (hashes s)) block_hash
      block_number (genesis_hash s) (fold_left (insert_mined block_hash block_number) (zip infos receipts) (mined s))
      total_difficulty in
  match transaction_block_keeper with
  | Some keeper =>
      if keeper <? Z.of_nat (size (blocks s)) then prune_transactions s (u64_saturating_sub block_number keeper) else s
  | None => s
  end.

(** One turn of the loop of [revert_snapshot]: the block [n] goes. *)
Definition remove_block (s : BlockchainStorage) (n : Z) : BlockchainStorage :=
  match hashes s !! n with
  | None => s
  | Some hash =>
      let hashes := delete n (hashes s) in
      match blocks s !! hash with
      | None =>
          mkStorage (blocks s) hashes (best_hash s) (best_number s) (genesis_hash s) (mined s) (total_difficulty s)
      | Some block =>
          mkStorage (delete hash (blocks s)) hashes (best_hash s) (best_number s) (genesis_hash s)
            (fold_left remove_mined (transactions block) (mined s)) (total_difficulty s)
      end
  end.

(** [for n in ((num + 1)..=current_height).rev()] *)
Definition heights_above (num current_height : Z) : list Z :=
  reverse (seqZ (num + 1) (current_height - num)).
Definition unwind (num : Z) (hash : H256) (current_height : Z) (s : BlockchainStorage) : BlockchainStorage :=
  let s := fold_left remove_block (heights_above num current_height) s in
  mkStorage (blocks s) (hashes s) hash num (genesis_hash s) (mined s) (total_difficulty s).

(** ** The invariant

    The chain is the list [bs] of its blocks, genesis first: block [i] has
    number [i], is stored under its hash, and names the previous one as its
    parent. *)
Record chain_of (bs : list Block) (s : BlockchainStorage) : Prop := {
  ch_nonempty : bs <> [];
  ch_hashes n : hashes s !! n = if decide (0 <= n) then header_hash ∘ header <$> bs !! Z.to_nat n else None;
  ch_blocks h b : blocks s !! h = Some b <-> h = header_hash (header b) /\ b ∈ bs;
  ch_number i b : bs !! i = Some b -> Header.number (header b) = Z.of_nat i;
  ch_parent i b b' : bs !! i = Some b -> bs !! S i = Some b' ->
    Header.parent_hash (header b') = header_hash (header b);
  ch_best : best_number s = Z.of_nat (length bs) - 1 /\ hashes s !! best_number s = Some (best_hash s);
  ch_genesis : hashes s !! 0 = Some (genesis_hash s) }.

(** ** Lemmas

    What the chain needs of the hash: headers of different numbers have
    different hashes. *)
Definition hash_separates : Prop :=
  forall h h', header_hash h = header_hash h' -> Header.number h = Header.number h'.

Lemma get_block_via_hash s id : get_block s id = blockchain_hash s id ≫= get_block_by_hash s.
Proof. by destruct id as [h|[]]. Qed.

Lemma fold_remove_mined txs : forall m h,
  fold_left remove_mined txs m !! h = if decide (h ∈ block_tx_hash <$> txs) then None else m !! h.
Proof.
  induction txs as [|tx txs IH]; intros m h; cbn [fold_left].
  { rewrite decide_False; [done|apply not_elem_of_nil]. }
  rewrite IH. unfold remove_mined. rewrite fmap_cons.
  destruct (decide (h ∈ block_tx_hash <$> txs)) as [Hin|Hin];
    [rewrite decide_True; [done|by right]|].
  destruct (decide (h = block_tx_hash tx)) as [->|Hne].
  - rewrite lookup_delete_eq. rewrite decide_True; [done|by left].
  - rewrite lookup_delete_ne by done. rewrite decide_False; [done|]. rewrite elem_of_cons. tauto.
Qed.

Lemma fold_insert_mined bh bn l : forall m h,
  h ∉ info_transaction_hash ∘ fst <$> l -> fold_left (insert_mined bh bn) l m !! h = m !! h.
Proof.
  induction l as [|t l IH]; intros m h Hh; [done|]. cbn [fold_left].
  rewrite fmap_cons, not_elem_of_cons in Hh. destruct Hh as [Hne Hh]. rewrite IH by done. unfold insert_mined.
  by rewrite lookup_insert_ne.
Qed.

(** A mined transaction is found under its hash, unless a later one of the
    same block has that hash too. *)
Lemma fold_insert_mined_at bh bn l i t : forall m,
  NoDup (info_transaction_hash ∘ fst <$> l) -> l !! i = Some t ->
  fold_left (insert_mined bh bn) l m !! info_transaction_hash (fst t) = Some (mkMined (fst t) (snd t) bh bn).
Proof.
  revert i. induction l as [|t' l IH]; intros i m Hnd Hi; [done|]. rewrite fmap_cons in Hnd.
  apply NoDup_cons in Hnd as [Hni Hnd]. cbn [fold_left]. destruct i as [|i]; simpl in Hi.
  - simplify_eq. rewrite fold_insert_mined by done. unfold insert_mined. by rewrite lookup_insert_eq.
  - by apply (IH i).
Qed.

(** The blocks and the head are determined by the list. *)
Lemma chain_of_det bs s s' :
  chain_of bs s -> chain_of bs s' ->
  blocks s = blocks s' /\ hashes s = hashes s' /\ best_hash s = best_hash s' /\
  best_number s = best_number s' /\ genesis_hash s = genesis_hash s'.
Proof.
  intros C C'.
  assert (hashes s = hashes s') as Hh by (apply map_eq; intros n; by rewrite (ch_hashes _ _ C), (ch_hashes _ _ C')).
  destruct (ch_best _ _ C) as [B1 B2], (ch_best _ _ C') as [B1' B2'].
  pose proof (ch_genesis _ _ C) as G. pose proof (ch_genesis _ _ C') as G'.
  assert (best_number s = best_number s') as Hb by congruence.
  split_and!; [|done|rewrite Hh, Hb in B2; congruence|done|rewrite Hh in G; congruence].
  apply map_eq. intros h. apply option_eq. intros b. by rewrite (ch_blocks _ _ C), (ch_blocks _ _ C').
Qed.

Lemma chain_new env base_fee timestamp : chain_of [genesis_block env base_fee timestamp] (storage_new env base_fee timestamp).
Proof.
  unfold storage_new. set (b := genesis_block _ _ _). split; simpl.
  - done.
  - intros n. destruct (decide (n = 0)) as [->|Hn]; [by rewrite lookup_singleton_eq|].
    rewrite lookup_singleton_ne by done. case_decide; [|done].
    destruct (Z.to_nat n) as [|k] eqn:Hk; [lia|done].
  - intros h x. rewrite lookup_singleton_Some, list_elem_of_singleton. naive_solver.
  - intros i x Hx. apply list_lookup_singleton_Some in Hx as [-> <-]. done.
  - done.
  - split; [done|]. by rewrite lookup_singleton_eq.
  - by rewrite lookup_singleton_eq.
Qed.

(** Block numbers identify the blocks of a chain. *)
Lemma chain_number_unique bs s b b' :
  chain_of bs s -> b ∈ bs -> b' ∈ bs -> Header.number (header b) = Header.number (header b') -> b = b'.
Proof.
  intros C Hb Hb' Heq. apply list_elem_of_lookup in Hb as [i Hi]. apply list_elem_of_lookup in Hb' as [j Hj].
  rewrite (ch_number _ _ C i b Hi), (ch_number _ _ C j b' Hj) in Heq. assert (i = j) as -> by lia. congruence.
Qed.

Lemma chain_last bs s b : chain_of bs s -> last bs = Some b -> best_hash s = header_hash (header b).
Proof.
  intros C Hl. destruct (ch_best _ _ C) as [Hn Hb]. rewrite (ch_hashes _ _ C) in Hb.
  rewrite last_lookup in Hl. assert (0 < length bs)%nat by (destruct bs; [done|simpl; lia]).
  rewrite decide_True in Hb by lia. replace (Z.to_nat (best_number s)) with (pred (length bs)) in Hb by lia.
  rewrite Hl in Hb. by simplify_eq/=.
Qed.

(** A block that continues the head extends the chain. *)
Lemma chain_store bs s b eip keeper infos receipts :
  hash_separates -> chain_of bs s ->
  Header.number (header b) = best_number s + 1 -> Header.parent_hash (header b) = best_hash s ->
  chain_of (bs ++ [b]) (store_block eip keeper b infos receipts (header_hash (header b)) (best_number s + 1) s).
Proof.
  intros Hsep C Hn Hp. destruct (ch_best _ _ C) as [Hb1 Hb2].
  enough (forall m d, chain_of (bs ++ [b])
    (mkStorage (<[header_hash (header b) := b]> (blocks s)) (<[best_number s + 1 := header_hash (header b)]> (hashes s))
       (header_hash (header b)) (best_number s + 1) (genesis_hash s) m d)) as Hgoal.
  { unfold store_block, prune_transactions. simpl. destruct keeper as [k|]; repeat case_match; apply Hgoal. }
  assert (forall x, x ∈ bs -> header_hash (header x) <> header_hash (header b)) as Hfresh.
  { intros x Hx Heq%Hsep. apply list_elem_of_lookup in Hx as [i Hi]. apply lookup_lt_Some in Hi as Hlt.
    rewrite (ch_number _ _ C i x Hi), Hn in Heq. lia. }
  intros m d. split; simpl.
  - by destruct bs.
  - intros n. destruct (decide (n = best_number s + 1)) as [->|Hne].
    + rewrite lookup_insert_eq, decide_True by lia. rewrite list_lookup_middle by lia. done.
    + rewrite lookup_insert_ne by done. rewrite (ch_hashes _ _ C). case_decide; [|done].
      destruct (decide (n <= best_number s)) as [Hle|Hgt]; [by rewrite lookup_app_l by lia|].
      rewrite !lookup_ge_None_2; [done|rewrite length_app; simpl; lia|lia].
  - intros h x. rewrite elem_of_app, list_elem_of_singleton. destruct (decide (h = header_hash (header b))) as [->|Hne].
    + rewrite lookup_insert_eq. split; [intros [= ->]; tauto|]. intros [Heq [Hx| ->]]; [|done]. by destruct (Hfresh x Hx).
    + rewrite lookup_insert_ne by done. rewrite (ch_blocks _ _ C). naive_solver.
  - intros i x [Hx|[Hi Hx]]%lookup_app_Some; [by apply (ch_number _ _ C)|].
    apply list_lookup_singleton_Some in Hx as [Hi' <-]. lia.
  - intros i x x' [Hx|[Hi Hx]]%lookup_app_Some [Hx'|[Hi' Hx']]%lookup_app_Some.
    + by apply (ch_parent _ _ C i).
    + apply list_lookup_singleton_Some in Hx' as [Hi'' <-]. rewrite Hp. apply (chain_last bs s x C).
      rewrite last_lookup. by replace (pred (length bs)) with i by lia.
    + apply lookup_lt_Some in Hx'. lia.
    + apply list_lookup_singleton_Some in Hx as [? _], Hx' as [? _]. lia.
  - rewrite length_app. simpl. split; [lia|]. by rewrite lookup_insert_eq.
  - rewrite lookup_insert_ne; [apply (ch_genesis _ _ C)|]. destruct bs; [by destruct (ch_nonempty _ _ C)|simpl in *; lia].
Qed.

(** Removing the head. *)
Lemma chain_remove bs b s :
  hash_separates -> chain_of (bs ++ [b]) s -> bs <> [] ->
  let s' := remove_block s (Z.of_nat (length bs)) in
  chain_of bs (mkStorage (blocks s') (hashes s')
    (default 0 (header_hash ∘ header <$> last bs)) (Z.of_nat (length bs) - 1) (genesis_hash s') (mined s') (total_difficulty s')) /\
  mined s' = fold_left remove_mined (transactions b) (mined s).
Proof.
  intros Hsep C Hne. unfold remove_block.
  assert (hashes s !! Z.of_nat (length bs) = Some (header_hash (header b))) as Hh.
  { rewrite (ch_hashes _ _ C), decide_True by lia. rewrite list_lookup_middle by lia. done. }
  assert (b ∈ bs ++ [b]) as Hin by (rewrite elem_of_app, list_elem_of_singleton; tauto).
  assert (blocks s !! header_hash (header b) = Some b) as Hb by (by apply (ch_blocks _ _ C)).
  rewrite Hh, Hb. simpl. split; [|done]. split; simpl.
  - done.
  - intros n. destruct (decide (n = Z.of_nat (length bs))) as [->|Hnn].
    + rewrite lookup_delete_eq, decide_True by lia. rewrite lookup_ge_None_2 by lia. done.
    + rewrite lookup_delete_ne by done. rewrite (ch_hashes _ _ C). case_decide; [|done].
      destruct (decide (n < Z.of_nat (length bs))) as [Hlt|Hge]; [by rewrite lookup_app_l by lia|].
      rewrite !lookup_ge_None_2; [done|lia|rewrite length_app; simpl; lia].
  - intros h x. assert (forall y, y ∈ bs -> header_hash (header y) <> header_hash (header b)) as Hf.
    { intros y Hy Heq%Hsep. apply list_elem_of_lookup in Hy as [i Hi]. apply lookup_lt_Some in Hi as Hlt.
      rewrite (ch_number _ _ C i y), (ch_number _ _ C (length bs) b) in Heq; [lia|by rewrite list_lookup_middle|].
      by rewrite lookup_app_l by lia. }
    destruct (decide (h = header_hash (header b))) as [->|Hnh].
    + rewrite lookup_delete_eq. split; [done|]. intros [Heq Hx]. by destruct (Hf x Hx).
    + rewrite lookup_delete_ne by done. rewrite (ch_blocks _ _ C), elem_of_app, list_elem_of_singleton. naive_solver.
  - intros i x Hi. apply (ch_number _ _ C). by apply lookup_app_l_Some.
  - intros i x x' Hi Hi'. apply (ch_parent _ _ C i); by apply lookup_app_l_Some.
  - split; [done|]. destruct (last bs) as [l|] eqn:Hl; [|by apply last_None in Hl].
    rewrite lookup_delete_ne by lia. rewrite (ch_hashes _ _ C), last_lookup in *.
    assert (0 < length bs)%nat by (destruct bs; [done|simpl; lia]). rewrite decide_True by lia.
    replace (Z.to_nat (Z.of_nat (length bs) - 1)) with (pred (length bs)) by lia.
    rewrite lookup_app_l by lia. by rewrite Hl.
  - rewrite lookup_delete_ne; [apply (ch_genesis _ _ C)|]. destruct bs; [done|simpl; lia].
Qed.

(** The same storage with another head. *)
Definition with_head (h : H256) (n : Z) (s : BlockchainStorage) : BlockchainStorage :=
  mkStorage (blocks s) (hashes s) h n (genesis_hash s) (mined s) (total_difficulty s).

Lemma remove_block_with_head h n s k : remove_block (with_head h n s) k = with_head h n (remove_block s k).
Proof. unfold remove_block. simpl. repeat case_match; done. Qed.

Definition tx_hashes (bs : list Block) : list H256 := bs ≫= fun b => block_tx_hash <$> transactions b.
Definition head_hash (bs : list Block) : H256 := default 0 (header_hash ∘ header <$> last bs).

(** Unwinding to a height leaves the chain up to it and forgets the
    transactions of the removed blocks. *)
Lemma chain_unwind bs0 bs1 : forall s h n,
  hash_separates -> bs0 <> [] -> chain_of (bs0 ++ bs1) (with_head h n s) ->
  let s' := unwind (Z.of_nat (length bs0) - 1) (head_hash bs0) (Z.of_nat (length (bs0 ++ bs1)) - 1) s in
  chain_of bs0 s' /\
  (forall x, mined s' !! x = if decide (x ∈ tx_hashes bs1) then None else mined s !! x) /\
  total_difficulty s' = total_difficulty s.
Proof.
  unfold unwind, heights_above. intros s h n Hsep Hne.
  replace (Z.of_nat (length (bs0 ++ bs1)) - 1 - (Z.of_nat (length bs0) - 1)) with (Z.of_nat (length bs1))
    by (rewrite length_app; lia).
  replace (Z.of_nat (length bs0) - 1 + 1) with (Z.of_nat (length bs0)) by lia.
  revert s h n. induction bs1 as [|b bs1 IH] using rev_ind; intros s h n C.
  { rewrite app_nil_r in C. simpl. split_and!; [|done..].
    destruct (last bs0) as [l|] eqn:Hl; [|by apply last_None in Hl].
    pose proof (chain_last _ _ _ C Hl) as Hb. destruct (ch_best _ _ C) as [B1 B2]. simpl in *. subst h n.
    unfold head_hash. rewrite Hl. simpl. exact C. }
  rewrite app_assoc in C. destruct (chain_remove (bs0 ++ bs1) b _ Hsep C) as [C' Hm]; [by destruct bs0|].
  rewrite remove_block_with_head in C', Hm. simpl in C', Hm.
  rewrite length_app in *. simpl length in *. replace (Z.of_nat (length bs1 + 1)) with (Z.of_nat (S (length bs1))) by lia.
  rewrite seqZ_S, reverse_app. simpl reverse.
  replace (Z.of_nat (length bs0) + Z.of_nat (length bs1)) with (Z.of_nat (length bs0 + length bs1)) by lia.
  cbn [app fold_left]. fold (remove_block s (Z.of_nat (length bs0 + length bs1))).
  destruct (IH (remove_block s (Z.of_nat (length bs0 + length bs1))) _ _ C') as (IH1 & IH2 & IH3).
  split_and!; [exact IH1| |].
  - intros x. rewrite IH2. unfold tx_hashes. rewrite bind_app. simpl. rewrite app_nil_r, Hm, fold_remove_mined.
    destruct (decide (x ∈ bs1 ≫= _)) as [Hx|Hx]; [rewrite decide_True; [done|by apply elem_of_app; left]|].
    destruct (decide (x ∈ block_tx_hash <$> transactions b)) as [Hx'|Hx'].
    + rewrite decide_True; [done|by apply elem_of_app; right].
    + rewrite decide_False; [done|]. rewrite elem_of_app. tauto.
  - etransitivity; [exact IH3|]. unfold remove_block. repeat case_match; done.
Qed.

(** The transactions of a stored block are found under their hashes, and
    nothing else about the mined transactions changes. *)
Lemma zip_hashes (infos : list TransactionInfo) (receipts : list TypedReceipt) :
  length infos = length receipts ->
  info_transaction_hash ∘ fst <$> zip infos receipts = info_transaction_hash <$> infos.
Proof. intros Hl. rewrite list_fmap_compose. by rewrite fst_zip by lia. Qed.

Lemma store_block_mined_at eip b infos receipts bh bn s i info r :
  length infos = length receipts -> NoDup (info_transaction_hash <$> infos) ->
  infos !! i = Some info -> receipts !! i = Some r ->
  mined (store_block eip None b infos receipts bh bn s) !! info_transaction_hash info = Some (mkMined info r bh bn).
Proof.
  intros Hl Hnd Hi Hr. apply (fold_insert_mined_at bh bn (zip infos receipts) i (info, r)); [by rewrite zip_hashes|].
  apply lookup_zip_with_Some. by exists info, r.
Qed.

Lemma store_block_mined_ne eip b infos receipts bh bn s x :
  length infos = length receipts -> x ∉ info_transaction_hash <$> infos ->
  mined (store_block eip None b infos receipts bh bn s) !! x = mined s !! x.
Proof. intros Hl Hx. apply fold_insert_mined. by rewrite zip_hashes. Qed.
End Chain.
