(* ===== verification/Cheats.v ===== *)
(** * Impersonation (anvil/src/eth/backend/cheats.rs and the backend's
    wrappers around it)

    The accounts whose transactions need no signature. *)
From S2P Require Import Prelude Transaction Validator.
Open Scope Z_scope.

Module CheatsManager.
Record t := mk {
  impersonated_accounts : gset Address;
  bypass_signature_ : Signature;
  auto_impersonate_accounts : bool }.

Definition default : t := mk ∅ IMPERSONATED_SIGNATURE false.

(** [HashSet::insert] returns whether the value was new. *)
Definition impersonate (addr : Address) (s : t) : bool * t :=
  if decide (addr ∈ impersonated_accounts s) then (true, s)
  else (bool_decide (addr ∉ impersonated_accounts s),
        mk ({[addr]} ∪ impersonated_accounts s) (bypass_signature_ s) (auto_impersonate_accounts s)).

Definition stop_impersonating (addr : Address) (s : t) : t :=
  mk (impersonated_accounts s ∖ {[addr]}) (bypass_signature_ s) (auto_impersonate_accounts s).

Definition is_impersonated (addr : Address) (s : t) : bool :=
  if auto_impersonate_accounts s then true else bool_decide (addr ∈ impersonated_accounts s).

Definition bypass_signature (s : t) : Signature := bypass_signature_ s.

Definition set_auto_impersonate_account (enabled : bool) (s : t) : t :=
  mk (impersonated_accounts s) (bypass_signature_ s) enabled.

(** [Backend::impersonate]: EIP-3607 is switched off on the way. *)
Definition backend_impersonate (addr : Address) (s : t) (cfg : CfgEnv.t) : bool * t * CfgEnv.t :=
  if is_impersonated addr s then (true, s, cfg)
  else
    let cfg := CfgEnv.mk (CfgEnv.chain_id cfg) (CfgEnv.spec_id cfg) (CfgEnv.disable_block_gas_limit cfg)
                 (CfgEnv.disable_base_fee cfg) true in
    (impersonate addr s, cfg).

(** The commands of a user, and the accounts that are impersonated after
    them: the last command about an account decides, under the last value of
    the automatic mode. *)
Inductive op := OpImpersonate (a : Address) | OpStop (a : Address) | OpAuto (enabled : bool).
Definition run_op (s : t) (o : op) : t :=
  match o with
  | OpImpersonate a => snd (impersonate a s)
  | OpStop a => stop_impersonating a s
  | OpAuto b => set_auto_impersonate_account b s
  end.
Definition auto_after (ops : list op) : bool :=
  fold_left (fun b o => match o with OpAuto b' => b' | _ => b end) ops false.
Definition listed_after (a : Address) (ops : list op) : bool :=
  fold_left (fun b o => match o with
                        | OpImpersonate a' => if decide (a' = a) then true else b
                        | OpStop a' => if decide (a' = a) then false else b
                        | OpAuto _ => b end) ops false.

Lemma run_ops_spec a ops : forall s,
  let s' := fold_left run_op ops s in
  auto_impersonate_accounts s' =
    fold_left (fun b o => match o with OpAuto b' => b' | _ => b end) ops (auto_impersonate_accounts s) /\
  bool_decide (a ∈ impersonated_accounts s') =
    fold_left (fun b o => match o with
                          | OpImpersonate a' => if decide (a' = a) then true else b
                          | OpStop a' => if decide (a' = a) then false else b
                          | OpAuto _ => b end) ops (bool_decide (a ∈ impersonated_accounts s)) /\
  bypass_signature s' = bypass_signature s.
Proof.
  induction ops as [|o ops IH]; intros s; [done|]. cbn [fold_left]. destruct (IH (run_op s o)) as (-> & -> & ->).
  destruct o as [a'|a'|b]; simpl; split_and!; try done; unfold impersonate.
  - by case_decide.
  - f_equal. case_decide as Hin; simpl.
    + case_decide as Heq; [subst a'; by rewrite bool_decide_eq_true_2|done].
    + case_decide as Heq; [subst a'; apply bool_decide_eq_true_2; set_solver|].
      apply bool_decide_ext. set_solver.
  - by case_decide.
  - f_equal. case_decide as Heq; [subst a'; apply bool_decide_eq_false_2; set_solver|].
    apply bool_decide_ext. set_solver.
Qed.
End CheatsManager.

(** After any sequence of commands an account is impersonated exactly if
    the automatic mode is on or the last command about the account started its
    impersonation, and the bypass signature is still the all-zero one that
    marks impersonated transactions. *)
Theorem impersonation_spec (ops : list CheatsManager.op) (a : Address) :
  let s := fold_left CheatsManager.run_op ops CheatsManager.default in
  CheatsManager.is_impersonated a s = CheatsManager.auto_after ops || CheatsManager.listed_after a ops /\
  CheatsManager.bypass_signature s = IMPERSONATED_SIGNATURE.
Proof.
  destruct (CheatsManager.run_ops_spec a ops CheatsManager.default) as (H1 & H2 & H3).
  unfold CheatsManager.is_impersonated, CheatsManager.auto_after, CheatsManager.listed_after.
  rewrite H1, H2. rewrite (bool_decide_eq_false_2 (a ∈ _)) by set_solver. simpl. by split; [destruct (fold_left _ _ _)|].
Qed.

(** [impersonate] always answers [true]: for an account that was already
    impersonated, as documented, and for a new one too, where [HashSet::insert]
    reports that it was added. *)
Theorem impersonate_always_true (a : Address) (s : CheatsManager.t) (cfg : CfgEnv.t) :
  fst (CheatsManager.impersonate a s) = true /\
  fst (fst (CheatsManager.backend_impersonate a s cfg)) = true.
Proof.
  assert (fst (CheatsManager.impersonate a s) = true) as Hi.
  { unfold CheatsManager.impersonate. case_decide; simpl; [done|]. by rewrite bool_decide_eq_true_2. }
  split; [done|]. unfold CheatsManager.backend_impersonate. by destruct (CheatsManager.is_impersonated a s).
Qed.
