(* ===== verification/Node.v ===== *)
(** * The node's state and its queries (anvil/src/eth/backend/mem/mod.rs)

    [Backend] holds the database, the chain, the historic states, the
    environment of the next block, the clock, the fees and the snapshots.  The
    model is the in-memory node: [db] is a [MemDb].  A remote client that the
    node forked off ([ClientFork]) is its answers. *)
From S2P Require Import Prelude Transaction TimeManager Hardfork Block Fees Snapshots PoolTx.
From S2P Require Import Db BlockStates Validator Executor Chain.
Open Scope Z_scope.

(** The errors of the backend and of the RPC layer that the model can
    produce (anvil/src/eth/error.rs); errors of other libraries are their
    messages. *)
Inductive FeeHistoryError := InvalidBlockRange.
Inductive BlockchainErrorOf (DbError : Type) :=
| PoolErr (e : PoolError)
| NoSignerAvailable
| InvalidFeeInput
| EmptyRawTransactionData
| FailedToDecodeSignedTransaction
| FailedToDecodeTransaction
| PrevrandaoNotSet
| SignatureError (message : string)
| InvalidTransactionErr (e : InvalidTransactionError)
| FeeHistoryErr (e : FeeHistoryError)
| ForkProvider (message : string)
| EvmError (reason : InstructionResult)
| BlockOutOfRange (current requested : Z)
| BlockNotFound
| RpcErr (message : string)
| TimestampErr (e : TimeManager.time_error)
| DatabaseError (e : DbError)
| EIP1559TransactionUnsupportedAtHardfork
| EIP2930TransactionUnsupportedAtHardfork.
Arguments PoolErr {DbError} e.
Arguments NoSignerAvailable {DbError}.
Arguments InvalidFeeInput {DbError}.
Arguments EmptyRawTransactionData {DbError}.
Arguments FailedToDecodeSignedTransaction {DbError}.
Arguments FailedToDecodeTransaction {DbError}.
Arguments PrevrandaoNotSet {DbError}.
Arguments SignatureError {DbError} message.
Arguments InvalidTransactionErr {DbError} e.
Arguments FeeHistoryErr {DbError} e.
Arguments ForkProvider {DbError} message.
Arguments EvmError {DbError} reason.
Arguments BlockOutOfRange {DbError} current requested.
Arguments BlockNotFound {DbError}.
Arguments RpcErr {DbError} message.
Arguments TimestampErr {DbError} e.
Arguments DatabaseError {DbError} e.
Arguments EIP1559TransactionUnsupportedAtHardfork {DbError}.
Arguments EIP2930TransactionUnsupportedAtHardfork {DbError}.
Definition BlockchainError `{!Evm} : Type := BlockchainErrorOf evm_db_error.

(** [ethers::types::Block<TxHash>], the fields the node fills in. *)
Module EthersBlock.
Record t := mk {
  hash : option H256; parent_hash : H256; uncles_hash : H256; author : option Address; state_root : H256;
  transactions_root : H256; receipts_root : H256; number : option Z; gas_used : Z; gas_limit : Z;
  extra_data : list byte; logs_bloom : option Bloom; timestamp : Z; difficulty : Z;
  total_difficulty : option Z; seal_fields : list (list byte); uncles : list H256;
  transactions : list H256; size : option Z; mix_hash : option H256; nonce : option Z;
  base_fee_per_gas : option Z }.
End EthersBlock.

(** [ethers::types::Log] *)
Record RpcLog := mkRpcLog {
  rl_log : Log; rl_block_hash : option H256; rl_block_number : option Z; rl_transaction_hash : option H256;
  rl_transaction_index : option Z; rl_log_index : option Z; rl_transaction_log_index : option Z;
  rl_removed : option bool }.

(** [ethers::types::Filter] and [FilteredParams] *)
Class LogFilter := {
  Filter : Type;
  get_block_hash : Filter -> option H256;
  get_from_block : Filter -> option BlockNumber;
  get_to_block : Filter -> option BlockNumber;
  set_range : Filter -> Z -> Z -> Filter;
  has_address : Filter -> bool;
  has_topics : Filter -> bool;
  filter_address : Filter -> Log -> bool;
  filter_topics : Filter -> Log -> bool }.

(** A forked node's remote client: where it forked, and what it answers. *)
Record ClientFork `{!LogFilter} := mkFork {
  fork_block_number : Z; fork_timestamp : Z; fork_base_fee : option Z;
  fork_block_by_hash : H256 -> result (option EthersBlock.t) string;
  fork_block_by_number : Z -> result (option EthersBlock.t) string;
  fork_logs : Filter -> result (list RpcLog) string;
  fork_get_nonce : Address -> Z -> result Z string }.

Definition predates_fork `{!LogFilter} (f : ClientFork) (block : Z) : bool := block <? fork_block_number f.
Definition predates_fork_inclusive `{!LogFilter} (f : ClientFork) (block : Z) : bool := block <=? fork_block_number f.

(** [PruneStateHistoryConfig] (anvil/src/config.rs) *)
Record PruneStateHistoryConfig := mkPrune { prune_enabled : bool; max_memory_history : option nat }.
Definition is_state_history_supported (c : PruneStateHistoryConfig) : bool :=
  negb (prune_enabled c) || match max_memory_history c with Some _ => true | None => false end.

Definition prune_from_args (val : option (option nat)) : PruneStateHistoryConfig :=
  match val with Some m => mkPrune true m | None => mkPrune false None end.

(** What the node uses of its database besides the EVM. *)
Class NodeDb `{!Evm} `{!StateStore} := {
  insert_block_hash : evm_db -> Z -> H256 -> evm_db;
  current_state : evm_db -> StateDb }.

(** [NewBlockNotification]s and the senders they go to. *)
Class BlockChannel := {
  BlockSender : Type;
  is_closed : BlockSender -> bool;
  unbounded_send : BlockSender -> H256 * Header.t -> bool * BlockSender }.

Section Node.
Context `{!Evm} `{!Hashing} `{!StateStore} `{!NodeDb} `{!LogFilter} `{!BlockChannel} `{!SpecIdOrder}.

Record NodeConfig := mkConfig {
  fork : option ClientFork;
  prune_state_history_config : PruneStateHistoryConfig;
  transaction_block_keeper : option Z }.

Record Node := mkNode {
  db : MemDb.t evm_db;
  storage : BlockchainStorage;
  states : InMemoryBlockStates.t;
  env_cfg : CfgEnv.t;
  env_block : BlockEnv.t;
  time : TimeManager.t;
  fees : FeeManager.t;
  active_snapshots : gmap Z (Z * H256);
  new_block_listeners : list BlockSender }.

Variable config : NodeConfig.

(** ** Accessors *)
Definition node_best_hash (s : Node) : H256 := best_hash (storage s).
Definition node_best_number (s : Node) : Z :=
  if decide (BlockEnv.number (env_block s) <= U64_MAX) then BlockEnv.number (env_block s) else U64_MAX.

Definition set_block_number_env (number : Z) (b : BlockEnv.t) : BlockEnv.t :=
  BlockEnv.mk number (BlockEnv.coinbase b) (BlockEnv.timestamp b) (BlockEnv.difficulty b) (BlockEnv.prevrandao b)
    (BlockEnv.basefee b) (BlockEnv.gas_limit b).
Definition set_block_number (number : Z) (s : Node) : Node :=
  mkNode (db s) (storage s) (states s) (env_cfg s) (set_block_number_env number (env_block s)) (time s) (fees s)
    (active_snapshots s) (new_block_listeners s).

Definition is_eip1559 (s : Node) : bool := bool_decide (spec_as_u8 LONDON <= spec_as_u8 (CfgEnv.spec_id (env_cfg s))).
Definition is_eip3675 (s : Node) : bool := bool_decide (spec_as_u8 MERGE <= spec_as_u8 (CfgEnv.spec_id (env_cfg s))).
Definition is_eip2930 (s : Node) : bool := bool_decide (spec_as_u8 BERLIN <= spec_as_u8 (CfgEnv.spec_id (env_cfg s))).
Definition ensure_eip1559_active (s : Node) : result unit BlockchainError :=
  if is_eip1559 s then Ok tt else Err EIP1559TransactionUnsupportedAtHardfork.
Definition ensure_eip2930_active (s : Node) : result unit BlockchainError :=
  if is_eip2930 s then Ok tt else Err EIP2930TransactionUnsupportedAtHardfork.

(** [next_env]; [now] is the wall clock. *)
Definition next_env (now : Z) (s : Node) : exec (CfgEnv.t * BlockEnv.t) :=
  timestamp ← TimeManager.current_call_timestamp now (time s);
  let b := env_block s in
  Ret (env_cfg s,
       BlockEnv.mk (u256_saturating_add (BlockEnv.number b) 1) (BlockEnv.coinbase b) timestamp (BlockEnv.difficulty b)
         (BlockEnv.prevrandao b) (FeeManager.base_fee (fees s)) (BlockEnv.gas_limit b)).

(** ** Blocks *)
Definition convert_block (s : Node) (block : Block) : exec EthersBlock.t :=
  let size := block_rlp_len block mod 2 ^ 32 in
  let h := header block in
  number ← u256_as_u64 (Header.number h);
  Ret (EthersBlock.mk (Some (header_hash h)) (Header.parent_hash h) (Header.ommers_hash h) (Some (Header.beneficiary h))
         (Header.state_root h) (Header.transactions_root h) (Header.receipts_root h) (Some number) (Header.gas_used h)
         (Header.gas_limit h) (Header.extra_data h) (Some (Header.logs_bloom h)) (Header.timestamp h) (Header.difficulty h)
         (Some (total_difficulty (storage s)))
         [h256_bytes (Header.mix_hash h); reverse (to_le_bytes 8 (Header.nonce h))] []
         (block_tx_hash <$> transactions block) (Some size) (Some (Header.mix_hash h)) (Some (Header.nonce h))
         (Header.base_fee_per_gas h)).

Definition mined_block_by_hash (s : Node) (hash : H256) : exec (option EthersBlock.t) :=
  match get_block_by_hash (storage s) hash with
  | None => Ret None
  | Some block => Some <$> convert_block s block
  end.

Definition from_fork {A} (r : result A string) : result A BlockchainError :=
  match r with Ok a => Ok a | Err e => Err (ForkProvider e) end.

Definition block_by_hash (s : Node) (hash : H256) : exec (result (option EthersBlock.t) BlockchainError) :=
  o ← mined_block_by_hash s hash;
  match o with
  | Some b => Ret (Ok (Some b))
  | None =>
      match fork config with
      | Some f => Ret (from_fork (fork_block_by_hash f hash))
      | None => Ret (Ok None)
      end
  end.

Definition convert_block_number (s : Node) (block : option BlockNumber) : Z :=
  let current := node_best_number s in
  match default BLatest block with
  | BLatest | BPending => current
  | BEarliest => 0
  | BNumber num => num
  | BSafe => u64_saturating_sub current 32
  | BFinalized => u64_saturating_sub current (32 * 2)
  end.

Definition mined_block_by_number (s : Node) (number : BlockNumber) : exec (option EthersBlock.t) :=
  match get_block (storage s) (IdNumber number) with
  | None => Ret None
  | Some block => Some <$> convert_block s block
  end.

Definition block_by_number (s : Node) (number : BlockNumber) : exec (result (option EthersBlock.t) BlockchainError) :=
  o ← mined_block_by_number s number;
  match o with
  | Some b => Ret (Ok (Some b))
  | None =>
      match fork config with
      | Some f =>
          let n := convert_block_number s (Some number) in
          if predates_fork_inclusive f n then Ret (from_fork (fork_block_by_number f n)) else Ret (Ok None)
      | None => Ret (Ok None)
      end
  end.

Definition ensure_block_number (s : Node) (block_id : option BlockId) : exec (result Z BlockchainError) :=
  let current := node_best_number s in
  requested ←
    match default (IdNumber BLatest) block_id with
    | IdHash hash =>
        r ← block_by_hash s hash;
        match r with
        | Err e => Ret (Err e)
        | Ok None => Ret (Err BlockNotFound)
        | Ok (Some b) =>
            match EthersBlock.number b with
            | None => Ret (Err BlockNotFound)
            | Some n => Ret (Ok n)
            end
        end
    | IdNumber num =>
        match num with
        | BLatest | BPending => Ret (Ok (node_best_number s))
        | BEarliest => Ret (Ok 0)
        | BNumber num => Ret (Ok num)
        | BSafe => Ret (Ok (u64_saturating_sub current 32))
        | BFinalized => Ret (Ok (u64_saturating_sub current (32 * 2)))
        end
    end;
  match requested with
  | Err e => Ret (Err e)
  | Ok requested =>
      if current <? requested then Ret (Err (BlockOutOfRange current requested)) else Ret (Ok requested)
  end.

(** ** Logs *)

(** The logs of the transactions of a block that are still known. *)
Definition known_infos (s : Node) (block : Block) : list TransactionInfo :=
  omap (fun tx => mined_info <$> mined (storage s) !! block_tx_hash tx) (transactions block).

Definition is_match (filter : Filter) (log : Log) : bool :=
  if has_address filter && has_topics filter then filter_address filter log && filter_topics filter log
  else if has_address filter then filter_address filter log
  else if has_topics filter then filter_topics filter log
  else true.

(** The inner loop, over the logs of one transaction; it returns the matching
    logs and the running index of the block. *)
Fixpoint tx_logs (filter : Filter) (block_hash : H256) (number : Z) (info : TransactionInfo) (log_idx block_log_index : Z)
    (logs : list Log) : list RpcLog :=
  match logs with
  | [] => []
  | log :: logs' =>
      let rest := tx_logs filter block_hash number info (log_idx + 1) (block_log_index + 1) logs' in
      if is_match filter log then
        mkRpcLog log (Some block_hash) (Some number) (Some (info_transaction_hash info))
          (Some (info_transaction_index info)) (Some block_log_index) (Some log_idx) (Some false) :: rest
      else rest
  end.
Fixpoint infos_logs (filter : Filter) (block_hash : H256) (number : Z) (block_log_index : Z) (infos : list TransactionInfo)
    : list RpcLog :=
  match infos with
  | [] => []
  | info :: infos' =>
      tx_logs filter block_hash number info 0 block_log_index (info_logs info) ++
      infos_logs filter block_hash number (block_log_index + Z.of_nat (length (info_logs info))) infos'
  end.

(** [mined_logs_for_block]; [block.header.number.as_u64()] is only evaluated
    for a match, and the index is a [u32] that no block overflows. *)
Definition mined_logs_for_block (s : Node) (filter : Filter) (block : Block) : list RpcLog :=
  infos_logs filter (header_hash (header block)) (Header.number (header block)) 0 (known_infos s block).

Definition logs_for_block (s : Node) (filter : Filter) (hash : H256) : result (list RpcLog) BlockchainError :=
  match get_block_by_hash (storage s) hash with
  | Some block => Ok (mined_logs_for_block s filter block)
  | None =>
      match fork config with
      | Some f => from_fork (fork_logs f filter)
      | None => Ok []
      end
  end.

Definition range_logs (s : Node) (filter : Filter) (from to : Z) : list RpcLog :=
  seqZ from (to - from + 1) ≫= fun number =>
    match get_block (storage s) (IdNumber (BNumber number)) with
    | Some block => mined_logs_for_block s filter block
    | None => []
    end.

Definition logs_for_range (s : Node) (filter : Filter) (from to : Z) : result (list RpcLog) BlockchainError :=
  match fork config with
  | Some f =>
      let to_on_fork := if predates_fork f to then to else fork_block_number f in
      if predates_fork f from then
        match fork_logs f (set_range filter from to_on_fork) with
        | Err e => Err (ForkProvider e)
        | Ok all_logs => Ok (all_logs ++ range_logs s filter (fork_block_number f + 1) to)
        end
      else Ok (range_logs s filter from to)
  | None => Ok (range_logs s filter from to)
  end.

Definition logs (s : Node) (filter : Filter) : result (list RpcLog) BlockchainError :=
  match get_block_hash filter with
  | Some hash => logs_for_block s filter hash
  | None =>
      let best := node_best_number s in
      let to_block := Z.min (convert_block_number s (get_to_block filter)) best in
      let from_block := convert_block_number s (get_from_block filter) in
      if best <? from_block then Ok [] else logs_for_range s filter from_block to_block
  end.

(** ** Receipts *)
Definition get_receipts (s : Node) (tx_hashes : list H256) : list TypedReceipt :=
  omap (fun hash => mined_receipt <$> mined (storage s) !! hash) tx_hashes.

Record TransactionReceipt := mkRpcReceipt {
  rr_transaction_hash : H256; rr_transaction_index : Z; rr_block_hash : option H256; rr_block_number : option Z;
  rr_from : Address; rr_to : option Address; rr_cumulative_gas_used : Z; rr_gas_used : option Z;
  rr_contract_address : option Address; rr_logs : list RpcLog; rr_status : option Z; rr_logs_bloom : Bloom;
  rr_transaction_type : option Z; rr_effective_gas_price : option Z }.

Definition effective_gas_price (s : Node) (block : Block) (tx : TypedTransaction) : Z :=
  match tx with
  | Legacy t => LegacyTransaction.gas_price t
  | EIP2930 t => EIP2930Transaction.gas_price t
  | EIP1559 t =>
      default U256_MAX
        (u256_checked_add (default (FeeManager.base_fee (fees s)) (Header.base_fee_per_gas (header block)))
           (EIP1559Transaction.max_priority_fee_per_gas t))
  end.

(** The logs of a receipt.  The index of the first one is the number of earlier
    receipts times the number of logs of this one. *)
Definition receipt_rpc_logs (block_hash : H256) (number : Z) (info : TransactionInfo) (receipts_before : list TypedReceipt)
    (logs : list Log) : list RpcLog :=
  let pre_receipts_log_index := foldr (fun _ a => Z.of_nat (length logs) + a) 0 receipts_before in
  imap (fun i log =>
    mkRpcLog log (Some block_hash) (Some number) (Some (info_transaction_hash info)) (Some (info_transaction_index info))
      (Some (pre_receipts_log_index + Z.of_nat i)) (Some (Z.of_nat i)) (Some false)) logs.

Definition mined_transaction_receipt (s : Node) (hash : H256)
    : exec (option (TransactionReceipt * option (list byte))) :=
  match get_transaction_by_hash (storage s) hash with
  | None => Ret None
  | Some (mkMined info receipt block_hash _) =>
      let '(mkReceipt status_code gas_used logs_bloom logs) := receipt_body receipt in
      let index := Z.to_nat (info_transaction_index info) in
      match get_block_by_hash (storage s) block_hash with
      | None => Ret None
      | Some block =>
          let receipts := get_receipts s (block_tx_hash <$> transactions block) in
          let cumulative_gas_used :=
            fold_left (fun a r => u256_saturating_add a (TypedReceipt.gas_used r)) (take (index + 1) receipts) 0 in
          let cumulative_receipts := take (index + 1) receipts in
          transaction ← expect (transactions block !! index) "index out of bounds";
          let tx := mtx_transaction transaction in
          number ← u256_as_u64 (Header.number (header block));
          let receipts_before := take (length cumulative_receipts - 1) cumulative_receipts in
          Ret (Some
            (mkRpcReceipt (info_transaction_hash info) (info_transaction_index info) (Some block_hash) (Some number)
               (info_from info) (info_to info) cumulative_gas_used (Some gas_used) (info_contract_address info)
               (receipt_rpc_logs block_hash number info receipts_before logs) (Some status_code) logs_bloom
               (TypedTransaction.type_ tx) (Some (effective_gas_price s block tx)),
             info_out info))
      end
  end.

(** ** States of past blocks *)
Inductive BlockRequest := ReqPending (txs : list PoolTransaction.t) | ReqNumber (n : Z).

(** The database a closure is run with. *)
Inductive StateAt := AtCurrent (d : MemDb.t evm_db) | AtHistoric (d : StateDb) | AtGenesis (d : MemDb.t evm_db)
| AtPending (d : evm_db).

Definition env_of_header (h : Header.t) : BlockEnv.t :=
  BlockEnv.mk (Header.number h) (Header.beneficiary h) (Header.timestamp h) (Header.difficulty h)
    (Some (Header.mix_hash h)) (default 0 (Header.base_fee_per_gas h)) (Header.gas_limit h).

(** A [CacheDB] on top of a database: the same execution, but no state root. *)
Definition cached (E : Evm) : Evm := {|
  evm_db := evm_db; evm_db_error := evm_db_error; evm_trace := evm_trace; db_basic := db_basic;
  maybe_state_root _ := None; inspect_commit := inspect_commit; instruction_as_u8 := instruction_as_u8;
  accrue_raw := accrue_raw; receipts_trie_root := receipts_trie_root;
  transactions_trie_root := transactions_trie_root; ommers_rlp_hash := ommers_rlp_hash |}.

(** [with_pending_block]: the block the pool's transactions would make, on a
    cache over the database that is dropped afterwards. *)
Definition with_pending_block (now : Z) (s : Node) (pool_transactions : list PoolTransaction.t)
    : exec (evm_db * BlockInfo (H := cached _)) :=
  '(cfg, block) ← next_env now s;
  '(executed, cache_db) ← execute (H := cached _) (validate_pool_transaction_for (CfgEnv.chain_id (env_cfg s))) block cfg (best_hash (storage s))
      (mkExecutor (H := cached _) (MemDb.inner (db s)) pool_transactions 0);
  Ret (cache_db, ex_block executed).

Definition set_states (st : InMemoryBlockStates.t) (s : Node) : Node :=
  mkNode (db s) (storage s) st (env_cfg s) (env_block s) (time s) (fees s) (active_snapshots s) (new_block_listeners s).

(** [with_database_at]: what the closure is called with. *)
Definition with_database_at (now : Z) (block_request : option BlockRequest) (s : Node)
    : exec (result (StateAt * BlockEnv.t) BlockchainError * Node) :=
  match block_request with
  | Some (ReqPending txs) =>
      '(state, info) ← with_pending_block now s txs;
      Ret (Ok (AtPending state, env_of_header (header (bi_block info))), s)
  | _ =>
      let block_number :=
        convert_block_number s (match block_request with Some (ReqNumber n) => Some (BNumber n) | _ => None end) in
      if block_number <? BlockEnv.number (env_block s) then
        let '(found, st) :=
          match get_block (storage s) (IdNumber (BNumber block_number)) with
          | None => (None, states s)
          | Some block =>
              let '(o, st) := InMemoryBlockStates.get (header_hash (header block)) (states s) in
              ((fun state => (state, block)) <$> o, st)
          end in
        let s := set_states st s in
        match found with
        | Some (state, block) => Ret (Ok (AtHistoric state, env_of_header (header block)), s)
        | None =>
            match
              match fork config with
              | Some f => if decide (block_number = fork_block_number f) then Some f else None
              | None => None
              end
            with
            | Some f =>
                let b := env_block s in
                Ret (Ok (AtGenesis (db s),
                         BlockEnv.mk block_number (BlockEnv.coinbase b) (fork_timestamp f) (BlockEnv.difficulty b)
                           (BlockEnv.prevrandao b) (default 0 (fork_base_fee f)) (BlockEnv.gas_limit b)), s)
            | None =>
                current ← u256_as_u64 (BlockEnv.number (env_block s));
                Ret (Err (BlockOutOfRange current block_number), s)
            end
        end
      else Ret (Ok (AtCurrent (db s), env_block s), s)
  end.

End Node.
