(* ===== verification/Backend.v ===== *)
(** * Mining and snapshots (anvil/src/eth/backend/mem/mod.rs)

    The operations of [Backend] that change the chain: [do_mine_block],
    [create_snapshot] and [revert_snapshot]. *)
From S2P Require Import Prelude Transaction TimeManager Hardfork Block Fees Snapshots PoolTx.
From S2P Require Import Db BlockStates Validator Executor Chain Node.
Open Scope Z_scope.

Section Backend.
Context `{!Evm} `{!Hashing} `{!StateStore} `{!NodeDb} `{!LogFilter} `{!BlockChannel} `{!SpecIdOrder}.
Variable config : NodeConfig.

(** [notify_on_new_block] *)
Definition notify_on_new_block (hd : Header.t) (hash : H256) (listeners : list BlockSender) : list BlockSender :=
  let listeners := filter (fun tx => is_closed tx = false) listeners in
  omap (fun tx => let '(ok, tx) := unbounded_send tx (hash, hd) in if ok : bool then Some tx else None) listeners.

Record MinedBlockOutcome := mkOutcome {
  outcome_block_number : Z; outcome_included : list PoolTransaction.t; outcome_invalid_txs : list PoolTransaction.t }.

(** The configuration and the block environment a block is mined with. *)
Definition mining_cfg (s : Node) : CfgEnv.t :=
  let cfg := env_cfg s in
  if decide (BlockEnv.basefee (env_block s) = 0) then
    CfgEnv.mk (CfgEnv.chain_id cfg) (CfgEnv.spec_id cfg) (CfgEnv.disable_block_gas_limit cfg) true
      (CfgEnv.disable_eip3607 cfg)
  else cfg.
Definition mining_block (timestamp : Z) (s : Node) : BlockEnv.t :=
  let b := env_block s in
  BlockEnv.mk (u256_saturating_add (BlockEnv.number b) 1) (BlockEnv.coinbase b) timestamp (BlockEnv.difficulty b)
    (BlockEnv.prevrandao b) (FeeManager.base_fee (fees s)) (BlockEnv.gas_limit b).

(** [self.states.write().insert(best_hash, db)]: the loops of the insertion
    run once per stored state at most. *)
Definition store_state (s : Node) : option InMemoryBlockStates.t :=
  if is_state_history_supported (prune_state_history_config config) then
    InMemoryBlockStates.insert (length (InMemoryBlockStates.history (states s))) (best_hash (storage s))
      (current_state (MemDb.inner (db s))) (states s)
  else Some (states s).

(** [do_mine_block]; [None] if storing the historic state does not end. *)
Definition do_mine_block (now : Z) (pool_transactions : list PoolTransaction.t) (s : Node)
    : exec (option (MinedBlockOutcome * Node)) :=
  '(timestamp, time) ← TimeManager.next_timestamp now (time s);
  let cfg := mining_cfg s in
  let block_env := mining_block timestamp s in
  let parent := best_hash (storage s) in
  match store_state s with
  | None => Ret None
  | Some states =>
      '(executed, inner) ← execute (validate_pool_transaction_for (CfgEnv.chain_id (env_cfg s))) block_env cfg parent
          (mkExecutor (MemDb.inner (db s)) pool_transactions 0);
      let '(mkExecuted (mkBlockInfo block infos receipts) included invalid) := executed in
      let hd := header block in
      let block_hash := header_hash hd in
      let db := MemDb.mk (insert_block_hash inner (Header.number hd) block_hash) (MemDb.snapshots (db s)) in
      block_number ← u256_as_u64 (BlockEnv.number block_env);
      let storage :=
        store_block (is_eip3675 s) (transaction_block_keeper config) block infos receipts block_hash block_number
          (storage s) in
      let env :=
        BlockEnv.mk (BlockEnv.number block_env) (BlockEnv.coinbase block_env) (BlockEnv.timestamp block_env) 0
          (BlockEnv.prevrandao block_env) (BlockEnv.basefee block_env) (BlockEnv.gas_limit block_env) in
      next_block_base_fee ← FeeManager.get_next_block_base_fee_per_gas (Header.gas_used hd) (Header.gas_limit hd)
          (default 0 (Header.base_fee_per_gas hd)) (fees s);
      Ret (Some
        (mkOutcome block_number included invalid,
         mkNode db storage states cfg env time (FeeManager.set_base_fee next_block_base_fee (fees s)) (active_snapshots s)
           (notify_on_new_block hd block_hash (new_block_listeners s))))
  end.

(** [create_snapshot] *)
Definition create_snapshot (s : Node) : Z * Node :=
  let num := node_best_number s in
  let hash := node_best_hash s in
  let '(id, db) := MemDb.snapshot (db s) in
  (id, mkNode db (storage s) (states s) (env_cfg s) (env_block s) (time s) (fees s) (<[id := (num, hash)]> (active_snapshots s))
         (new_block_listeners s)).

(** The last line of [revert_snapshot]. *)
Definition revert_db (id : Z) (s : Node) : exec (result bool BlockchainError * Node) :=
  '(ok, d) ← MemDb.revert id (db s);
  Ret (Ok ok, mkNode d (storage s) (states s) (env_cfg s) (env_block s) (time s) (fees s) (active_snapshots s)
                (new_block_listeners s)).

Definition revert_snapshot (now : Z) (id : Z) (s : Node) : exec (result bool BlockchainError * Node) :=
  let block := active_snapshots s !! id in
  let s := mkNode (db s) (storage s) (states s) (env_cfg s) (env_block s) (time s) (fees s) (delete id (active_snapshots s))
             (new_block_listeners s) in
  match block with
  | None => revert_db id s
  | Some (num, hash) =>
      let current_height := node_best_number s in
      let s := mkNode (db s) (unwind num hash current_height (storage s)) (states s) (env_cfg s) (env_block s) (time s)
                 (fees s) (active_snapshots s) (new_block_listeners s) in
      r ← block_by_hash config s hash;
      match r with
      | Err e => Ret (Err e, s)
      | Ok None => Ret (Err BlockNotFound, s)
      | Ok (Some block) =>
          ts ← u256_as_u64 (EthersBlock.timestamp block);
          let reset_time := u64_saturating_sub ts 1 in
          let s := mkNode (db s) (storage s) (states s) (env_cfg s) (env_block s) (TimeManager.reset now reset_time (time s))
                     (fees s) (active_snapshots s) (new_block_listeners s) in
          revert_db id (set_block_number num s)
      end
  end.

End Backend.
