(* ===== verification/BackendProps.v ===== *)
(** * The chain under mining and snapshots

    The invariant that ties the node's environment to its chain, and what
    mining a block and reverting to a snapshot do to it. *)
From S2P Require Import Prelude Transaction TimeManager Hardfork Block Fees Snapshots PoolTx.
From S2P Require Import Db BlockStates Validator Executor Chain Node Backend.
Open Scope Z_scope.

Section BackendProps.
Context `{!Evm} `{!Hashing} `{!StateStore} `{!NodeDb} `{!LogFilter} `{!BlockChannel} `{!SpecIdOrder}.
Variable config : NodeConfig.

(** The hypotheses on the library code: gas is a [u64], and headers of
    different numbers have different hashes. *)
Hypothesis evm_gas : forall c b e db r tr db',
  inspect_commit c b e db = (Ok r, tr, db') -> is_u64 (result_gas r).
Hypothesis separates : hash_separates.

(** The node's chain is [bs]; the environment is at its head, whose number and
    whose blocks' times are 64-bit numbers. *)
Record node_inv (bs : list Block) (s : Node) : Prop := {
  ni_chain : chain_of bs (storage s);
  ni_number : BlockEnv.number (env_block s) = best_number (storage s);
  ni_u64 : best_number (storage s) <= U64_MAX;
  ni_time : forall b, b ∈ bs -> Header.timestamp (header b) <= U64_MAX }.

Lemma best_number_pos bs s : chain_of bs s -> 0 <= best_number s.
Proof. intros C. destruct (ch_best _ _ C) as [-> _]. pose proof (ch_nonempty _ _ C). destruct bs; [done|simpl; lia]. Qed.

Lemma node_best_number_eq bs s : node_inv bs s -> node_best_number s = best_number (storage s).
Proof. intros I. unfold node_best_number. rewrite (ni_number _ _ I), decide_True; [done|apply (ni_u64 _ _ I)]. Qed.

(** ** One block *)
Record mine_result (now : Z) (txs : list PoolTransaction.t) (s : Node) (o : MinedBlockOutcome) (s' : Node)
    (r : ExecutedTransactions) (os : list TransactionExecutionOutcome) : Prop := {
  mr_time : TimeManager.next_timestamp now (time s) = Ret (TimeManager.last_timestamp (time s'), time s');
  mr_states : store_state config s = Some (states s');
  mr_executes : exists inner,
    executes (validate_pool_transaction_for (CfgEnv.chain_id (env_cfg s))) (mining_block (TimeManager.last_timestamp (time s')) s)
      (mining_cfg s) (best_hash (storage s)) (mkExecutor (MemDb.inner (db s)) txs 0) r inner os /\
    db s' = MemDb.mk (insert_block_hash inner (best_number (storage s) + 1) (header_hash (header (bi_block (ex_block r)))))
              (MemDb.snapshots (db s));
  mr_outcome : o = mkOutcome (best_number (storage s) + 1) (ex_included r) (ex_invalid r);
  mr_storage : storage s' = store_block (is_eip3675 s) (transaction_block_keeper config) (bi_block (ex_block r))
    (bi_transactions (ex_block r)) (bi_receipts (ex_block r)) (header_hash (header (bi_block (ex_block r))))
    (best_number (storage s) + 1) (storage s);
  mr_fees : exists fee,
    FeeManager.get_next_block_base_fee_per_gas (Header.gas_used (header (bi_block (ex_block r))))
      (Header.gas_limit (header (bi_block (ex_block r))))
      (default 0 (Header.base_fee_per_gas (header (bi_block (ex_block r))))) (fees s) = Ret fee /\
    fees s' = FeeManager.set_base_fee fee (fees s);
  mr_snapshots : active_snapshots s' = active_snapshots s }.

Lemma mine_step bs now txs s o s' :
  node_inv bs s -> do_mine_block config now txs s = Ret (Some (o, s')) ->
  exists r os, mine_result now txs s o s' r os /\ node_inv (bs ++ [bi_block (ex_block r)]) s'.
Proof using evm_gas separates.
  intros I. pose proof (ni_chain _ _ I) as C. pose proof (best_number_pos _ _ C) as Hpos.
  unfold do_mine_block. rewrite exec_bind_Ret. intros ([ts tm] & Ht & Hm).
  destruct (store_state config s) as [st|] eqn:Hst; [|done].
  apply exec_bind_Ret in Hm as ([r inner] & Hex & Hm).
  destruct (execute_spec _ _ _ _ evm_gas _ _ _ Hex) as [os Hos].
  destruct r as [[block infos receipts] included invalid].
  assert (u256_saturating_add (BlockEnv.number (env_block s)) 1 = best_number (storage s) + 1) as Hnum.
  { rewrite (ni_number _ _ I). pose proof (ni_u64 _ _ I). unfold u256_saturating_add, saturate. unfold_bounds. lia. }
  apply exec_bind_Ret in Hm as (bn & Hbn & Hm). apply u256_as_u64_Ret in Hbn as [<- Hbn]. cbn in Hbn.
  apply exec_bind_Ret in Hm as (fee & Hfee & Hm). simplify_eq.
  destruct (TimeManager.next_timestamp_inv _ _ _ _ Ht) as (_ & Hlast & _).
  rewrite Hnum in *.
  destruct Hos as (s1 & Hos). exists (mkExecuted (mkBlockInfo block infos receipts) included invalid), os. split.
  - split; cbn; rewrite ?Hlast; try done.
    + exists inner. split; [by exists s1|]. destruct Hos as (_ & _ & _ & _ & _ & _ & _ & _ & _ & _ & _ & Hn & _).
      cbn in Hn. by rewrite Hn, Hnum.
    + exists fee. split; [done|]. done.
  - destruct Hos as (_ & _ & _ & _ & _ & _ & _ & _ & _ & _ & Hp & Hn & Hts & Hu & _). cbn in Hp, Hn, Hts, Hu.
    split; cbn.
    + apply chain_store; [done..|congruence|done].
    + unfold store_block, prune_transactions. repeat case_match; cbn; done.
    + unfold store_block, prune_transactions. repeat case_match; cbn; done.
    + intros b [Hb| ->%list_elem_of_singleton]%elem_of_app; [by apply (ni_time _ _ I)|]. by rewrite Hts.
Qed.

Lemma get_block_chain bs s i :
  chain_of bs s -> get_block s (IdNumber (BNumber (Z.of_nat i))) = bs !! i.
Proof.
  intros C. rewrite get_block_via_hash. cbn. rewrite (ch_hashes _ _ C), decide_True, Nat2Z.id by lia.
  destruct (bs !! i) as [b|] eqn:Hb; [|done]. cbn. apply (ch_blocks _ _ C).
  split; [done|]. by apply list_elem_of_lookup_2 in Hb.
Qed.

(** C1: When mining returns a block, it extends the chain by it: the block's
    parent is the old head and its number the next one, it is the new head,
    every earlier block is still found under its number, its time is later than
    the last one the clock gave out, it holds the included transactions, and the
    base fee of the next block follows from its gas by the fee rule.  The node
    is one whose environment is at the head of its chain and whose numbers and
    times are 64-bit, which holds again afterwards; a header's hash determines
    its number, and the EVM reports 64-bit gas. *)
Theorem mine_extends_chain bs now txs s o s' :
  node_inv bs s -> do_mine_block config now txs s = Ret (Some (o, s')) ->
  exists b, node_inv (bs ++ [b]) s' /\
    outcome_block_number o = Z.of_nat (length bs) /\ Header.number (header b) = Z.of_nat (length bs) /\
    Header.parent_hash (header b) = best_hash (storage s) /\ best_hash (storage s') = header_hash (header b) /\
    (forall i, get_block (storage s') (IdNumber (BNumber (Z.of_nat i))) = (bs ++ [b]) !! i) /\
    TimeManager.last_timestamp (time s) < Header.timestamp (header b) /\
    transactions b = (fun t => ptx_transaction (PoolTransaction.pending_transaction t)) <$> outcome_included o /\
    (forall t, t ∈ outcome_included o -> t ∈ txs) /\
    FeeManager.get_next_block_base_fee_per_gas (Header.gas_used (header b)) (Header.gas_limit (header b))
      (default 0 (Header.base_fee_per_gas (header b))) (fees s) = Ret (FeeManager.base_fee_ (fees s')).
Proof using evm_gas separates.
  intros I Hm. destruct (mine_step bs now txs s o s' I Hm) as (r & os & [M1 _ (inner & M3 & _) -> _ (fee & M6 & M6') _] & I').
  exists (bi_block (ex_block r)). pose proof (ni_chain _ _ I) as C. pose proof (ni_chain _ _ I') as C'.
  destruct (executes_included _ _ _ _ _ _ _ _ M3) as (_ & Htx & _ & Hin).
  destruct M3 as (s1 & _ & _ & _ & _ & _ & _ & _ & _ & _ & _ & Hp & Hn & Hts & _).
  destruct (ch_best _ _ C) as [Hb _].
  destruct (TimeManager.next_timestamp_inv _ _ _ _ M1) as (Hlast & _).
  split_and!; cbn; try done.
  - lia.
  - apply (ch_number _ _ C'). by rewrite list_lookup_middle.
  - apply (chain_last _ _ _ C'). by rewrite last_snoc.
  - intros i. by apply get_block_chain.
  - rewrite Hts. cbn. lia.
  - by rewrite M6'.
Qed.

(** After mining, every transaction of the block is found under its hash
    with its receipt, the block's hash and number, and its position. *)
Theorem mined_transactions_found bs now txs s o s' :
  node_inv bs s -> transaction_block_keeper config = None ->
  do_mine_block config now txs s = Ret (Some (o, s')) ->
  NoDup (PoolTransaction.hash <$> outcome_included o) ->
  forall i t, outcome_included o !! i = Some t ->
  exists m b, get_transaction_by_hash (storage s') (PoolTransaction.hash t) = Some m /\
    mined_block_hash m = best_hash (storage s') /\ mined_block_number m = best_number (storage s') /\
    info_transaction_index (mined_info m) = Z.of_nat i mod 2 ^ 32 /\
    info_transaction_hash (mined_info m) = PoolTransaction.hash t /\
    get_block_by_hash (storage s') (mined_block_hash m) = Some b /\
    transactions b !! i = Some (ptx_transaction (PoolTransaction.pending_transaction t)).
Proof using evm_gas separates.
  intros I Hk Hm Hnd i t Hi.
  destruct (mine_step bs now txs s o s' I Hm) as (r & os & [_ _ (inner & M3 & _) -> M5 _ _] & I').
  destruct (executes_included _ _ _ _ _ _ _ _ M3) as (Hh & Htx & Hl & _).
  destruct M3 as (s1 & _ & _ & _ & Hinc & _ & _ & Hr & [Hli Hinfo] & _). simpl in Hi, Hnd.
  rewrite Hinc, list_lookup_fmap in Hi. destruct (omap outcome_executed os !! i) as [e|] eqn:He; simplify_eq/=.
  destruct (Hinfo i e He) as (info & Hi1 & Hi2 & Hi3 & _).
  assert (is_Some (bi_receipts (ex_block r) !! i)) as [rc Hrc] by (rewrite Hr, list_lookup_fmap, He; by eexists).
  rewrite Hk in M5.
  assert (mined (storage s') !! info_transaction_hash info =
    Some (mkMined info rc (header_hash (header (bi_block (ex_block r)))) (best_number (storage s) + 1))) as Hfound.
  { rewrite M5. apply (store_block_mined_at _ _ _ _ _ _ _ i); [done|by rewrite Hh|done..]. }
  rewrite Hi2 in Hfound.
  exists (mkMined info rc (header_hash (header (bi_block (ex_block r)))) (best_number (storage s) + 1)), (bi_block (ex_block r)).
  pose proof (ni_chain _ _ I') as C'.
  split_and!; cbn; try done.
  - symmetry. apply (chain_last _ _ _ C'). by rewrite last_snoc.
  - by rewrite M5.
  - apply (ch_blocks _ _ C'). split; [done|]. rewrite elem_of_app, list_elem_of_singleton. by right.
  - rewrite Htx, Hinc, <- list_fmap_compose, list_lookup_fmap, He. done.
Qed.

(** ** Several blocks *)
Fixpoint mine_all (l : list (Z * list PoolTransaction.t)) (s : Node) : exec (option Node) :=
  match l with
  | [] => Ret (Some s)
  | (now, txs) :: l' =>
      r ← do_mine_block config now txs s;
      match r with None => Ret None | Some (_, s) => mine_all l' s end
  end.

(** The pool's hash of a transaction is the block's hash of it. *)
Definition hash_consistent (t : PoolTransaction.t) : Prop :=
  PoolTransaction.hash t = block_tx_hash (ptx_transaction (PoolTransaction.pending_transaction t)).

(** What mining leaves alone: the snapshots, and the mined transactions that
    are not in the new blocks. *)
Record grown (bs1 : list Block) (txs : list PoolTransaction.t) (s s' : Node) : Prop := {
  gr_snapshots : MemDb.snapshots (db s') = MemDb.snapshots (db s);
  gr_active : active_snapshots s' = active_snapshots s;
  gr_mined x : x ∉ tx_hashes bs1 -> mined (storage s') !! x = mined (storage s) !! x;
  gr_from x : x ∈ tx_hashes bs1 -> x ∈ PoolTransaction.hash <$> txs }.

Lemma mine_grown bs now txs s o s' :
  node_inv bs s -> transaction_block_keeper config = None -> Forall hash_consistent txs ->
  do_mine_block config now txs s = Ret (Some (o, s')) ->
  exists b, node_inv (bs ++ [b]) s' /\ grown [b] txs s s'.
Proof using evm_gas separates.
  intros I Hk Hc Hm.
  destruct (mine_step bs now txs s o s' I Hm) as (r & os & [_ _ (inner & M3 & M3') -> M5 _ M7] & I').
  destruct (executes_included _ _ _ _ _ _ _ _ M3) as (Hh & Htx & Hl & Hin).
  assert (tx_hashes [bi_block (ex_block r)] = PoolTransaction.hash <$> ex_included r) as Hb.
  { unfold tx_hashes. simpl. rewrite app_nil_r, Htx, <- list_fmap_compose. apply list_fmap_ext. intros i t Ht.
    symmetry. apply (proj1 (Forall_forall _ _) Hc). apply Hin. by apply list_elem_of_lookup_2 in Ht. }
  exists (bi_block (ex_block r)). split; [done|]. rewrite Hk in M5. split; rewrite ?Hb.
  - by rewrite M3'.
  - done.
  - intros x Hx. rewrite M5. apply store_block_mined_ne; [done|]. by rewrite Hh.
  - intros x (t & -> & Ht)%list_elem_of_fmap. apply list_elem_of_fmap. exists t. by split; [|apply Hin].
Qed.

Lemma mine_all_grown l : forall bs s s',
  node_inv bs s -> transaction_block_keeper config = None -> Forall hash_consistent (l ≫= snd) ->
  mine_all l s = Ret (Some s') ->
  exists bs1, node_inv (bs ++ bs1) s' /\ grown bs1 (l ≫= snd) s s' /\ length bs1 = length l.
Proof using evm_gas separates.
  induction l as [|[now txs] l IH]; intros bs s s' I Hk Hc Hm; cbn [mine_all] in Hm.
  { simplify_eq. exists []. rewrite app_nil_r. split; [done|]. split; [|done]. by split. }
  rewrite bind_cons in *. cbn [snd] in *. apply Forall_app in Hc as [Hc1 Hc2].
  apply exec_bind_Ret in Hm as ([[o s1]|] & Hd & Hm); [|done].
  destruct (mine_grown bs now txs s o s1 I Hk Hc1 Hd) as (b & I1 & G1).
  destruct (IH (bs ++ [b]) s1 s' I1 Hk Hc2 Hm) as (bs1 & I2 & G2 & Hlen).
  exists (b :: bs1). rewrite <- app_assoc in I2. split; [done|]. split; [|simpl; lia].
  assert (tx_hashes (b :: bs1) = tx_hashes [b] ++ tx_hashes bs1) as Ht by (unfold tx_hashes; simpl; by rewrite app_nil_r).
  split.
  - by rewrite (gr_snapshots _ _ _ _ G2), (gr_snapshots _ _ _ _ G1).
  - by rewrite (gr_active _ _ _ _ G2), (gr_active _ _ _ _ G1).
  - intros x. rewrite Ht, not_elem_of_app. intros [Hx1 Hx2].
    by rewrite (gr_mined _ _ _ _ G2), (gr_mined _ _ _ _ G1).
  - intros x. rewrite Ht, fmap_app, !elem_of_app. intros [Hx|Hx].
    + left. by apply (gr_from _ _ _ _ G1).
    + right. by apply (gr_from _ _ _ _ G2).
Qed.

Lemma chain_last_block bs s : chain_of bs s -> exists b, last bs = Some b /\ b ∈ bs /\ best_hash s = header_hash (header b).
Proof.
  intros C. destruct (last bs) as [b|] eqn:Hl; [|by apply last_None, (ch_nonempty _ _ C) in Hl].
  exists b. split; [done|]. split; [by apply last_Some_elem_of in Hl|]. by apply (chain_last bs).
Qed.

(** The head of a well-formed node is answered from its own chain. *)
Lemma block_by_hash_head bs s :
  chain_of bs (storage s) -> best_number (storage s) <= U64_MAX ->
  exists eb b, block_by_hash config s (best_hash (storage s)) = Ret (Ok (Some eb)) /\ last bs = Some b /\
    EthersBlock.timestamp eb = Header.timestamp (header b).
Proof.
  intros C Hu. destruct (chain_last_block _ _ C) as (b & Hl & Hin & Hb).
  assert (Header.number (header b) <= U64_MAX) as Hn.
  { rewrite last_lookup in Hl. rewrite (ch_number _ _ C _ _ Hl). destruct (ch_best _ _ C). unfold_bounds; lia. }
  unfold block_by_hash, mined_block_by_hash, get_block_by_hash.
  assert (blocks (storage s) !! best_hash (storage s) = Some b) as -> by (by apply (ch_blocks _ _ C)).
  unfold convert_block. rewrite u256_as_u64_ok by done. cbn. by eexists _, b.
Qed.

(** C5: Reverting to a snapshot, for the first time and after mining any blocks
    since it was taken, returns and brings back the chain (blocks, numbers, head,
    mined transactions), the database and the block number as they were, and sets
    the clock to just before the head's time.  This is for a node as in
    [mine_extends_chain] that
    keeps the transactions of all blocks (with a limit configured, pruned ones do
    not come back), whose snapshot ids are not exhausted, and for blocks of
    transactions that were not mined before the snapshot and whose hash in the
    pool is the one in the block. *)
Theorem revert_restores_chain bs s l s2 now :
  node_inv bs s -> transaction_block_keeper config = None -> MemDb.wf (db s) ->
  Snapshots.id_ (MemDb.snapshots (db s)) < U256_MAX - 1 ->
  Forall hash_consistent (l ≫= snd) ->
  (forall t, t ∈ l ≫= snd -> mined (storage s) !! PoolTransaction.hash t = None) ->
  let '(id, s1) := create_snapshot s in
  mine_all l s1 = Ret (Some s2) ->
  exists s3 b, revert_snapshot config now id s2 = Ret (Ok true, s3) /\ node_inv bs s3 /\
    blocks (storage s3) = blocks (storage s) /\ hashes (storage s3) = hashes (storage s) /\
    best_hash (storage s3) = best_hash (storage s) /\ best_number (storage s3) = best_number (storage s) /\
    mined (storage s3) = mined (storage s) /\ MemDb.inner (db s3) = MemDb.inner (db s) /\
    active_snapshots s3 = delete id (active_snapshots s) /\
    last bs = Some b /\ TimeManager.last_timestamp (time s3) = u64_saturating_sub (Header.timestamp (header b)) 1.
Proof using evm_gas separates.
  intros I Hk Hwf Hid Hc Hfresh. unfold create_snapshot, MemDb.snapshot, Snapshots.insert, Snapshots.next_id.
  set (id := Snapshots.id_ (MemDb.snapshots (db s))) in *. intros Hm.
  pose proof (ni_chain _ _ I) as C. pose proof (node_best_number_eq _ _ I) as Hbn.
  match type of Hm with mine_all _ ?x = _ => set (s1 := x) in * end.
  assert (node_inv bs s1) as I1 by (destruct I; by split).
  destruct (mine_all_grown l bs s1 s2 I1 Hk Hc Hm) as (bs1 & I2 & [G1 G2 G3 G4] & _).
  pose proof (ni_chain _ _ I2) as C2. destruct (ch_best _ _ C2) as [Hb2 _]. destruct (ch_best _ _ C) as [Hb _].
  destruct (chain_last_block _ _ C) as (b & Hl & Hbin & Hbh).
  assert (active_snapshots s2 !! id = Some (best_number (storage s), best_hash (storage s))) as Ha.
  { rewrite G2. cbn. by rewrite lookup_insert_eq, Hbn. }
  unfold revert_snapshot. rewrite Ha.
  match goal with |- context [block_by_hash config ?x _] => set (s2' := x) end.
  destruct (chain_unwind bs bs1 (storage s2) (best_hash (storage s2)) (best_number (storage s2)) separates (ch_nonempty _ _ C))
    as (Cu & Hmu & _).
  { by destruct (storage s2). }
  assert (storage s2' = unwind (Z.of_nat (length bs) - 1) (head_hash bs) (Z.of_nat (length (bs ++ bs1)) - 1) (storage s2)) as Hs2.
  { unfold s2'. cbn. unfold node_best_number in *. cbn. rewrite (ni_number _ _ I2), Hb2, decide_True.
    - unfold head_hash. by rewrite Hl, Hb, Hbh.
    - rewrite <- Hb2. apply (ni_u64 _ _ I2). }
  rewrite <- Hs2 in Cu, Hmu. destruct (chain_of_det _ _ _ Cu C) as (D1 & D2 & D3 & D4 & _).
  assert (best_number (storage s2') <= U64_MAX) as Hu by (rewrite D4; apply (ni_u64 _ _ I)).
  destruct (block_by_hash_head bs s2' Cu Hu) as (eb & b' & Heb & Hl' & Hts). assert (b' = b) as -> by congruence.
  rewrite <- D3, Heb. cbn.
  assert (EthersBlock.timestamp eb <= U64_MAX) as Htu by (rewrite Hts; by apply (ni_time _ _ I)).
  rewrite u256_as_u64_ok by done.
  cbn. unfold revert_db. cbn. unfold MemDb.revert. rewrite G1. cbn.
  destruct (Snapshots.remove_total id (snd (Snapshots.insert (MemDb.inner (db s)) (MemDb.snapshots (db s))))) as (o & sn & Hr); [lia|].
  pose proof (Snapshots.remove_lookup _ _ _ _ Hr) as (Ho & _ & _). cbn in Hr, Ho. fold id in Hr, Ho. rewrite Hr. rewrite lookup_insert_eq in Ho. subst o.
  eexists _, b. cbn. split; [done|]. cbn. rewrite Hts.
  split_and!; try done.
  - split; cbn; [exact Cu|by rewrite <- D4|by rewrite <- D4|apply (ni_time _ _ I)].
  - apply map_eq. intros x. rewrite Hmu. destruct (decide (x ∈ tx_hashes bs1)) as [Hx|Hx]; [|by rewrite (G3 x Hx)].
    apply G4 in Hx. apply list_elem_of_fmap in Hx as (t & -> & Ht). symmetry. by apply Hfresh.
  - rewrite G2. cbn. by rewrite delete_insert_eq.
Qed.

(** ** Mining without transactions always succeeds *)
Lemma next_timestamp_in_range now tm :
  TimeManager.wf tm -> is_u64 now -> TimeManager.last_timestamp tm < U64_MAX ->
  exists ts tm', TimeManager.next_timestamp now tm = Ret (ts, tm') /\ ts <= U64_MAX.
Proof.
  intros Hwf Hnow Hlast. unfold TimeManager.next_timestamp. rewrite TimeManager.compute_next_timestamp_eq.
  pose proof (TimeManager.candidate_u64 now tm Hwf Hnow) as [_ Hc].
  destruct (TimeManager.candidate_timestamp now tm) as [c upd]. cbn in Hc. rewrite decide_False by lia. cbn.
  eexists _, _. split; [done|]. lia.
Qed.

Lemma next_fee_empty_block gas_limit last_fee f :
  2 <= gas_limit <= U64_MAX -> last_fee <= U64_MAX ->
  exists fee, FeeManager.get_next_block_base_fee_per_gas 0 gas_limit last_fee f = Ret fee.
Proof.
  intros [Hl1 Hl2] Hf. unfold FeeManager.get_next_block_base_fee_per_gas. case_decide; [by eexists|].
  rewrite !u256_as_u64_ok by (done || (unfold_bounds; lia)). cbn.
  unfold calculate_next_block_base_fee, EIP1559_ELASTICITY_MULTIPLIER, checked_div, BASE_FEE_CHANGE_DENOMINATOR.
  assert (1 <= gas_limit / 2) by (apply Z.div_le_lower_bound; lia).
  rewrite (decide_False (P := 0 = gas_limit / 2)) by lia. rewrite (decide_False (P := gas_limit / 2 < 0)) by lia.
  rewrite decide_False by lia. cbn. by eexists.
Qed.

(** Mining an empty block ([evm_mine] on an empty pool) always returns a
    new head, as long as the last timestamp and block number are below the
    largest 64-bit value, the history limits are positive and the gas limit
    and base fee are 64-bit values. *)
Theorem mine_empty_returns bs now s :
  node_inv bs s -> best_number (storage s) < U64_MAX -> is_u64 now ->
  TimeManager.wf (time s) -> TimeManager.last_timestamp (time s) < U64_MAX ->
  (0 < InMemoryBlockStates.in_memory_limit (states s))%nat ->
  (0 < InMemoryBlockStates.min_in_memory_limit (states s))%nat ->
  2 <= BlockEnv.gas_limit (env_block s) <= U64_MAX -> FeeManager.base_fee (fees s) <= U64_MAX ->
  exists o s', do_mine_block config now [] s = Ret (Some (o, s')) /\ outcome_included o = [] /\
    best_number (storage s') = best_number (storage s) + 1.
Proof.
  intros I Hbn Hnow Hwf Hlast L1 L2 Hgas Hfee. pose proof (best_number_pos _ _ (ni_chain _ _ I)) as Hpos.
  unfold do_mine_block. destruct (next_timestamp_in_range now (time s)) as (ts & tm & -> & Hts); [done..|]. cbn.
  assert (exists st, store_state config s = Some st) as [st ->].
  { unfold store_state. destruct (is_state_history_supported _); [|by eexists]. by apply InMemoryBlockStates.insert_total. }
  unfold execute, mining_block. cbn. rewrite (u256_as_u64_ok ts) by done. cbn.
  assert (u256_saturating_add (BlockEnv.number (env_block s)) 1 = best_number (storage s) + 1) as Hnum.
  { rewrite (ni_number _ _ I). unfold u256_saturating_add, saturate. unfold_bounds. lia. }
  rewrite Hnum. rewrite u256_as_u64_ok by lia. cbn.
  match goal with |- context [FeeManager.get_next_block_base_fee_per_gas 0 ?g ?l ?f] =>
    destruct (next_fee_empty_block g l f Hgas) as [fee ->] end.
  { case_decide; cbn; [done|]. unfold_bounds; lia. }
  cbn. eexists _, _. split; [done|]. split; [done|]. unfold store_block, prune_transactions. cbn. repeat case_match; done.
Qed.

(** ** Blocks by tag *)

(** The tags and the numbers name the same blocks: a tag other than
    [pending] is answered with the block at the number it converts to, and a
    requested number is accepted exactly if it is at most the height. *)
Theorem block_tags_agree bs s tag :
  node_inv bs s -> tag <> BPending -> (forall n, tag = BNumber n -> 0 <= n) ->
  let n := convert_block_number s (Some tag) in
  get_block (storage s) (IdNumber tag) = bs !! Z.to_nat n /\
  ensure_block_number config s (Some (IdNumber tag)) =
    Ret (if best_number (storage s) <? n then Err (BlockOutOfRange (best_number (storage s)) n) else Ok n) /\
  ((forall n, tag <> BNumber n) -> n <= best_number (storage s)).
Proof.
  intros I Hp Hn n. pose proof (ni_chain _ _ I) as C. pose proof (best_number_pos _ _ C) as Hpos.
  destruct (ch_best _ _ C) as [Hb Hbest]. pose proof (node_best_number_eq _ _ I) as Hnb. pose proof (ni_u64 _ _ I) as Hu.
  assert (0 <= n /\ storage_hash (storage s) tag = hashes (storage s) !! n) as [Hn0 Hh].
  { unfold n, convert_block_number. rewrite Hnb. cbn. pose proof (ch_genesis _ _ C) as Hg.
    destruct tag as [| | | | |k]; cbn; unfold u64_saturating_sub, saturate, slots_in_an_epoch.
    - done.
    - destruct (Z.ltb_spec (32 * 2) (best_number (storage s))).
      + split; [lia|]. f_equal. lia.
      + split; [lia|]. rewrite <- Hg. f_equal. lia.
    - destruct (Z.ltb_spec 32 (best_number (storage s))).
      + split; [lia|]. f_equal. lia.
      + split; [lia|]. rewrite <- Hg. f_equal. lia.
    - done.
    - done.
    - split; [by apply Hn|done]. }
  split_and!.
  - rewrite get_block_via_hash. cbn. rewrite Hh, <- (get_block_chain bs (storage s) _ C), Z2Nat.id, get_block_via_hash by lia.
    done.
  - unfold ensure_block_number, n, convert_block_number. rewrite Hnb. destruct tag; cbn; done || (by case_match).
  - intros Ht. unfold n, convert_block_number. rewrite Hnb.
    destruct tag as [| | | | |k]; cbn; unfold u64_saturating_sub, saturate; try lia. by destruct (Ht k).
Qed.

(** ** Past states *)
Context `{!StateStoreLaws}.

(** After a block was mined, a query at the previous height runs on the
    state as it was before that block, with the environment of the block at
    that height. *)
Theorem historic_state_readable bs now txs s o s' now' :
  node_inv bs s -> is_state_history_supported (prune_state_history_config config) = true ->
  InMemoryBlockStates.inv (states s) ->
  (0 < InMemoryBlockStates.in_memory_limit (states s))%nat ->
  (0 < InMemoryBlockStates.min_in_memory_limit (states s))%nat ->
  best_hash (storage s) ∉ InMemoryBlockStates.history (states s) ->
  do_mine_block config now txs s = Ret (Some (o, s')) ->
  exists st b s'',
    with_database_at config now' (Some (ReqNumber (best_number (storage s)))) s' =
      Ret (Ok (AtHistoric st, env_of_header (header b)), s'') /\
    last bs = Some b /\ state_equiv st (current_state (MemDb.inner (db s))).
Proof using evm_gas separates.
  intros I Hp Hi L1 L2 Hh Hm. destruct (mine_step bs now txs s o s' I Hm) as (r & os & [_ M2 _ _ M5 _ _] & I').
  pose proof (ni_chain _ _ I) as C. pose proof (ni_chain _ _ I') as C'. destruct (chain_last_block _ _ C) as (b & Hl & _ & Hb).
  destruct (ch_best _ _ C) as [Hbn _]. destruct (ch_best _ _ C') as [Hbn' _]. rewrite length_app in Hbn'. simpl in Hbn'.
  unfold store_state in M2. rewrite Hp in M2.
  destruct (InMemoryBlockStates.insert_history (length (InMemoryBlockStates.history (states s))) (best_hash (storage s))
    (current_state (MemDb.inner (db s))) (states s)) as (st & k & Hins & _ & _ & _ & _ & _ & _ & _ & Hc & _); [done..|].
  rewrite Hins in M2. injection M2 as ->. apply InMemoryBlockStates.get_content in Hc as (st' & Hget & Heq).
  assert (get_block (storage s') (IdNumber (BNumber (best_number (storage s)))) = Some b) as Hgb.
  { rewrite last_lookup in Hl. apply lookup_lt_Some in Hl as Hlt.
    replace (best_number (storage s)) with (Z.of_nat (pred (length bs))) by lia.
    rewrite (get_block_chain _ _ _ C'). by apply lookup_app_l_Some. }
  unfold with_database_at, convert_block_number. cbn [default id]. rewrite (ni_number _ _ I').
  destruct (Z.ltb_spec (best_number (storage s)) (best_number (storage s'))) as [_|Hge]; [|lia].
  rewrite Hgb, <- Hb. destruct (InMemoryBlockStates.get _ _) as [o' st2]. cbn in Hget. subst o'. cbn.
  exists st', b. eexists. split; [done|]. done.
Qed.
End BackendProps.
