(* ===== verification/NodeProps.v ===== *)
(** * Logs and receipts

    What [eth_getLogs] and [eth_getTransactionReceipt] report about mined
    blocks. *)
From S2P Require Import Prelude Transaction TimeManager Hardfork Block Fees Snapshots PoolTx.
From S2P Require Import Db BlockStates Validator Executor Chain Node Backend BackendProps.
Open Scope Z_scope.

Section Logs.
Context `{!Evm} `{!Hashing} `{!StateStore} `{!NodeDb} `{!LogFilter} `{!BlockChannel} `{!SpecIdOrder}.
Variable config : NodeConfig.

(** ** Logs *)

(** All logs of a block in order, each with its transaction and its position
    in it. *)
Definition located_logs (infos : list TransactionInfo) : list (TransactionInfo * nat * Log) :=
  infos ≫= fun info => imap (fun i log => (info, i, log)) (info_logs info).

(** How a log is reported: with its position in the block. *)
Definition report (block_hash : H256) (number : Z) (k : nat) (l : TransactionInfo * nat * Log) : RpcLog :=
  let '(info, i, log) := l in
  mkRpcLog log (Some block_hash) (Some number) (Some (info_transaction_hash info)) (Some (info_transaction_index info))
    (Some (Z.of_nat k)) (Some (Z.of_nat i)) (Some false).

Definition matching_logs (filter : Filter) (block_hash : H256) (number : Z) (infos : list TransactionInfo) : list RpcLog :=
  base.filter (fun l => is_match filter (rl_log l) = true) (imap (report block_hash number) (located_logs infos)).

Lemma report_shift bh n info ls i k :
  imap ((fun j => report bh n (k + j)) ∘ S) (imap ((fun j lg => (info, (i + j)%nat, lg)) ∘ S) ls) =
  imap (fun j => report bh n (S k + j)) (imap (fun j lg => (info, (S i + j)%nat, lg)) ls).
Proof.
  rewrite (imap_ext _ (fun j lg => (info, (S i + j)%nat, lg)) ls) by (intros; simpl; by rewrite Nat.add_succ_r).
  apply imap_ext. intros j x _. simpl. by rewrite Nat.add_succ_r.
Qed.

Lemma tx_logs_spec f bh n info ls : forall i k,
  tx_logs f bh n info (Z.of_nat i) (Z.of_nat k) ls =
  base.filter (fun l => is_match f (rl_log l) = true)
    (imap (fun j => report bh n (k + j)) (imap (fun j log => (info, (i + j)%nat, log)) ls)).
Proof.
  induction ls as [|log ls IH]; intros i k; [done|]. cbn [tx_logs].
  rewrite (imap_cons _ log ls), (imap_cons _ _ (imap _ ls)). rewrite filter_cons. cbn [report rl_log].
  replace (Z.of_nat i + 1) with (Z.of_nat (S i)) by lia. replace (Z.of_nat k + 1) with (Z.of_nat (S k)) by lia.
  rewrite IH, !Nat.add_0_r, report_shift.
  destruct (is_match f log); by rewrite ?decide_True, ?decide_False by done.
Qed.

Lemma infos_logs_spec f bh n infos : forall k,
  infos_logs f bh n (Z.of_nat k) infos =
  base.filter (fun l => is_match f (rl_log l) = true) (imap (fun j => report bh n (k + j)) (located_logs infos)).
Proof.
  induction infos as [|info infos IH]; intros k; [done|]. cbn [infos_logs].
  unfold located_logs. rewrite bind_cons, imap_app, filter_app. f_equal.
  - apply (tx_logs_spec f bh n info (info_logs info) 0 k).
  - rewrite length_imap. replace (Z.of_nat k + Z.of_nat (length (info_logs info))) with (Z.of_nat (k + length (info_logs info))) by lia.
    rewrite IH. f_equal. apply imap_ext. intros j x _. simpl. f_equal. lia.
Qed.

(** The logs reported for a block are exactly those of its known
    transactions that match the filter, in order, each with its transaction,
    its position in it and its position among all logs of the block. *)
Theorem block_logs_spec s f block :
  mined_logs_for_block s f block =
  matching_logs f (header_hash (header block)) (Header.number (header block)) (known_infos s block).
Proof. apply (infos_logs_spec _ _ _ _ 0). Qed.

(** A forked node never reports the logs of the block it forked at when a
    query starts there: the remote client is only asked for ranges that start
    before that block, and the node itself does not hold it.  Started one block
    earlier, the same query asks the remote client for both blocks. *)
Theorem fork_block_logs_skipped s f filter to :
  fork config = Some f -> get_block (storage s) (IdNumber (BNumber (fork_block_number f))) = None ->
  fork_block_number f <= to ->
  logs_for_range config s filter (fork_block_number f) to = Ok (range_logs s filter (fork_block_number f + 1) to) /\
  logs_for_range config s filter (fork_block_number f - 1) to =
    match fork_logs f (set_range filter (fork_block_number f - 1) (fork_block_number f)) with
    | Err e => Err (ForkProvider e)
    | Ok remote => Ok (remote ++ range_logs s filter (fork_block_number f + 1) to)
    end.
Proof.
  intros Hf Hb Hto. unfold logs_for_range, predates_fork. rewrite Hf. rewrite !Z.ltb_irrefl.
  destruct (Z.ltb_spec to (fork_block_number f)); [lia|].
  destruct (Z.ltb_spec (fork_block_number f - 1) (fork_block_number f)); [|lia]. split; [|done].
  f_equal. unfold range_logs. rewrite (seqZ_cons (fork_block_number f)) by lia. rewrite bind_cons, Hb. cbn [app].
  f_equal. f_equal; lia.
Qed.
End Logs.

(** ** Receipts *)
Lemma omap_all_Some {A B} (f : A -> option B) l : forall l',
  length l = length l' -> (forall i x y, l !! i = Some x -> l' !! i = Some y -> f x = Some y) -> omap f l = l'.
Proof.
  induction l as [|x l IH]; intros [|y l'] Hl Hf; try done. simpl in Hl.
  simpl. rewrite (Hf 0%nat x y) by done. f_equal. apply IH; [lia|]. intros i. apply (Hf (S i)).
Qed.

Section Receipts.
Context `{!Evm} `{!Hashing} `{!StateStore} `{!NodeDb} `{!LogFilter} `{!BlockChannel} `{!SpecIdOrder}.
Variable config : NodeConfig.
Hypothesis evm_gas : forall c b e db r tr db',
  inspect_commit c b e db = (Ok r, tr, db') -> is_u64 (result_gas r).
Hypothesis separates : hash_separates.

Definition receipts_gas (rs : list TypedReceipt) : Z := foldr (fun r a => TypedReceipt.gas_used r + a) 0 rs.

Lemma cumulative_gas rs : forall a,
  0 <= a -> Forall (fun r => 0 <= TypedReceipt.gas_used r) rs ->
  fold_left (fun a r => u256_saturating_add a (TypedReceipt.gas_used r)) rs a =
  match rs with [] => a | _ => Z.min U256_MAX (a + receipts_gas rs) end.
Proof.
  induction rs as [|r rs IH]; intros a Ha Hr; [done|]. apply Forall_cons in Hr as [Hr1 Hr2]. cbn [fold_left].
  assert (0 <= receipts_gas rs) as Hp by (clear IH; induction Hr2; simpl; [lia|]; unfold receipts_gas in *; simpl; lia).
  assert (u256_saturating_add a (TypedReceipt.gas_used r) = Z.min U256_MAX (a + TypedReceipt.gas_used r)) as ->.
  { unfold u256_saturating_add, saturate. unfold_bounds. lia. }
  rewrite IH by (try done; unfold_bounds; lia).
  destruct rs as [|r' rs]; unfold receipts_gas in *; simpl in *; unfold_bounds; lia.
Qed.

(** The block that was mined and what is stored about its transactions. *)
Record mined_block (s' : Node) (o : MinedBlockOutcome) (b : Block) (infos : list TransactionInfo)
    (receipts : list TypedReceipt) : Prop := {
  mb_block : get_block_by_hash (storage s') (best_hash (storage s')) = Some b;
  mb_number : Header.number (header b) = best_number (storage s') /\ best_number (storage s') <= U64_MAX;
  mb_hashes : block_tx_hash <$> transactions b = PoolTransaction.hash <$> outcome_included o;
  mb_length : length receipts = length (outcome_included o) /\ length infos = length (outcome_included o);
  mb_gas : Forall (fun r => 0 <= TypedReceipt.gas_used r) receipts;
  mb_info i info : infos !! i = Some info -> info_transaction_index info = Z.of_nat i mod 2 ^ 32;
  mb_hash i info t : infos !! i = Some info -> outcome_included o !! i = Some t ->
    info_transaction_hash info = PoolTransaction.hash t;
  mb_logs i info r : infos !! i = Some info -> receipts !! i = Some r -> receipt_logs (receipt_body r) = info_logs info;
  mb_found i t info r : outcome_included o !! i = Some t -> infos !! i = Some info -> receipts !! i = Some r ->
    mined (storage s') !! PoolTransaction.hash t = Some (mkMined info r (best_hash (storage s')) (best_number (storage s'))) }.

Lemma mine_mined_block bs now txs s o s' :
  node_inv bs s -> transaction_block_keeper config = None -> Forall hash_consistent txs ->
  do_mine_block config now txs s = Ret (Some (o, s')) -> NoDup (PoolTransaction.hash <$> outcome_included o) ->
  exists b infos receipts, mined_block s' o b infos receipts.
Proof using evm_gas separates.
  intros I Hk Hc Hm Hnd.
  destruct (mine_step config evm_gas separates bs now txs s o s' I Hm) as (r & os & [_ _ (inner & M3 & _) -> M5 _ _] & I').
  destruct (executes_included _ _ _ _ _ _ _ _ M3) as (Hh & Htx & Hl & Hin).
  destruct M3 as (s1 & Hst & _ & _ & Hinc & _ & _ & Hr & [Hli Hinfo] & _). cbn in Hnd.
  exists (bi_block (ex_block r)), (bi_transactions (ex_block r)), (bi_receipts (ex_block r)).
  pose proof (ni_chain _ _ I') as C'. rewrite Hk in M5.
  assert (best_hash (storage s') = header_hash (header (bi_block (ex_block r)))) as Hbh.
  { apply (chain_last _ _ _ C'). by rewrite last_snoc. }
  assert (best_number (storage s') = best_number (storage s) + 1) as Hbn by (by rewrite M5).
  split; cbn.
  - apply (ch_blocks _ _ C'). split; [done|]. rewrite elem_of_app, list_elem_of_singleton. by right.
  - split; [|apply (ni_u64 _ _ I')]. destruct (ch_best _ _ C') as [Hb _]. rewrite length_app in Hb. simpl in Hb.
    rewrite (ch_number _ _ C' (length bs)); [lia|]. by rewrite list_lookup_middle.
  - rewrite Htx, <- list_fmap_compose. apply list_fmap_ext. intros i t Ht. symmetry.
    apply (proj1 (Forall_forall _ _) Hc). apply Hin. by apply list_elem_of_lookup_2 in Ht.
  - rewrite Hr, Hinc, !length_fmap. done.
  - rewrite Hr. apply Forall_fmap, Forall_forall. intros e (x & Hx & He)%list_elem_of_omap. destruct x; simplify_eq/=.
    destruct (steps_spec _ _ _ evm_gas _ _ _ Hst) as (_ & _ & Hg). rewrite Forall_forall in Hg.
    destruct (Hg _ Hx) as [Hu _]. simpl. rewrite receipt_gas. unfold is_u64 in Hu. lia.
  - intros i info Hi. assert (is_Some (omap outcome_executed os !! i)) as [e He].
    { apply lookup_lt_is_Some. apply lookup_lt_Some in Hi. lia. }
    destruct (Hinfo i e He) as (info' & Hi' & _ & Hidx & _). congruence.
  - intros i info t Hi Ht. apply (f_equal (fun l => l !! i)) in Hh. rewrite !list_lookup_fmap, Ht, Hi in Hh. by simplify_eq/=.
  - intros i info rc Hi Hrc. rewrite Hr, list_lookup_fmap in Hrc. destruct (omap outcome_executed os !! i) as [e|] eqn:He; [|done].
    destruct (Hinfo i e He) as (info' & Hi' & _ & _ & Hlogs). simplify_eq/=. rewrite Hlogs. unfold create_receipt. by destruct (mtx_transaction _).
  - intros i t info rc Ht Hi Hrc. rewrite Hbh, Hbn, M5.
    assert (PoolTransaction.hash t = info_transaction_hash info) as ->.
    { apply (f_equal (fun l => l !! i)) in Hh. rewrite !list_lookup_fmap, Ht, Hi in Hh. by simplify_eq/=. }
    apply (store_block_mined_at _ _ _ _ _ _ _ i); [done|by rewrite Hh|done..].
Qed.

(** The receipts of the block are all known. *)
Lemma mined_block_receipts s' o b infos receipts :
  mined_block s' o b infos receipts -> get_receipts s' (block_tx_hash <$> transactions b) = receipts.
Proof.
  intros M. destruct (mb_length _ _ _ _ _ M) as [L1 L2]. rewrite (mb_hashes _ _ _ _ _ M). apply omap_all_Some.
  - by rewrite length_fmap.
  - intros i x y Hx Hy. rewrite list_lookup_fmap in Hx.
    destruct (outcome_included o !! i) as [t|] eqn:Ht; simplify_eq/=.
    assert (is_Some (infos !! i)) as [info Hi] by (apply lookup_lt_is_Some; apply lookup_lt_Some in Ht; lia).
    by rewrite (mb_found _ _ _ _ _ M i t info y).
Qed.

Lemma receipt_logs_index bh n info rs ls j l :
  receipt_rpc_logs bh n info rs ls !! j = Some l ->
  rl_log_index l = Some (Z.of_nat (length rs) * Z.of_nat (length ls) + Z.of_nat j) /\ ls !! j = Some (rl_log l).
Proof.
  unfold receipt_rpc_logs. rewrite list_lookup_imap. destruct (ls !! j) as [log|]; [|done]. intros [= <-]. cbn.
  split; [|done]. do 2 f_equal. clear. induction rs as [|r rs IH]; simpl; lia.
Qed.

(** The effective gas price reported for an EIP-1559 transaction is the
    block's base fee plus the priority fee, without the cap at the
    transaction's maximum fee: it is the price of EIP-1559 exactly when the
    maximum fee covers that sum. *)
Theorem effective_price_uncapped s block t b :
  Header.base_fee_per_gas (header block) = Some b -> 0 <= b -> 0 <= EIP1559Transaction.max_priority_fee_per_gas t ->
  b + EIP1559Transaction.max_priority_fee_per_gas t <= U256_MAX ->
  b <= EIP1559Transaction.max_fee_per_gas t ->
  effective_gas_price s block (EIP1559 t) = b + EIP1559Transaction.max_priority_fee_per_gas t /\
  (effective_gas_price s block (EIP1559 t) =
     Z.min (EIP1559Transaction.max_fee_per_gas t) (b + EIP1559Transaction.max_priority_fee_per_gas t) <->
   b + EIP1559Transaction.max_priority_fee_per_gas t <= EIP1559Transaction.max_fee_per_gas t).
Proof.
  intros Hb H1' H2' H3' H4'. unfold effective_gas_price, u256_checked_add. rewrite Hb. cbn.
  rewrite decide_True by done. cbn. split; [done|lia].
Qed.

(** The receipt of a transaction of the block just mined is found; it
    names the block and the transaction's position, its gas is the
    transaction's, its cumulative gas the sum over the transactions up to it,
    and its logs are the transaction's (with the index the code computes from
    the transaction's own number of logs). *)
Theorem receipt_of_mined bs now txs s o s' i t :
  node_inv bs s -> transaction_block_keeper config = None -> Forall hash_consistent txs ->
  do_mine_block config now txs s = Ret (Some (o, s')) -> NoDup (PoolTransaction.hash <$> outcome_included o) ->
  Z.of_nat (length (outcome_included o)) <= 2 ^ 32 -> outcome_included o !! i = Some t ->
  exists rr out m, mined_transaction_receipt s' (PoolTransaction.hash t) = Ret (Some (rr, out)) /\
    get_transaction_by_hash (storage s') (PoolTransaction.hash t) = Some m /\
    rr_transaction_index rr = Z.of_nat i /\ rr_block_hash rr = Some (best_hash (storage s')) /\
    rr_block_number rr = Some (best_number (storage s')) /\
    rr_gas_used rr = Some (TypedReceipt.gas_used (mined_receipt m)) /\
    rr_cumulative_gas_used rr =
      Z.min U256_MAX (receipts_gas (take (S i) (get_receipts s' (PoolTransaction.hash <$> outcome_included o)))) /\
    length (get_receipts s' (PoolTransaction.hash <$> outcome_included o)) = length (outcome_included o) /\
    forall j l, rr_logs rr !! j = Some l ->
      receipt_logs (receipt_body (mined_receipt m)) !! j = Some (rl_log l) /\
      rl_log_index l =
        Some (Z.of_nat i * Z.of_nat (length (receipt_logs (receipt_body (mined_receipt m)))) + Z.of_nat j).
Proof using evm_gas separates.
  intros I Hk Hc Hm Hnd Hlen Ht. destruct (mine_mined_block bs now txs s o s' I Hk Hc Hm Hnd) as (b & infos & receipts & M).
  destruct (mb_length _ _ _ _ _ M) as [L1 L2]. destruct (mb_number _ _ _ _ _ M) as [N1 N2].
  apply lookup_lt_Some in Ht as Hlt.
  assert (is_Some (infos !! i)) as [info Hinfo] by (apply lookup_lt_is_Some; lia).
  assert (is_Some (receipts !! i)) as [rc Hrc] by (apply lookup_lt_is_Some; lia).
  pose proof (mb_found _ _ _ _ _ M i t info rc Ht Hinfo Hrc) as Hf. pose proof (mb_info _ _ _ _ _ M i info Hinfo) as Hidx.
  rewrite Z.mod_small in Hidx by lia.
  unfold mined_transaction_receipt, get_transaction_by_hash. rewrite Hf.
  destruct (receipt_body rc) as [status gas bloom ls] eqn:Hbody. rewrite (mb_block _ _ _ _ _ M).
  rewrite (mined_block_receipts _ _ _ _ _ M), Hidx, Nat2Z.id.
  assert (is_Some (transactions b !! i)) as [tx Htx].
  { apply lookup_lt_is_Some. pose proof (f_equal length (mb_hashes _ _ _ _ _ M)) as Hl. rewrite !length_fmap in Hl. lia. }
  rewrite Htx. cbn. rewrite N1, u256_as_u64_ok by done. cbn.
  rewrite <- (mb_hashes _ _ _ _ _ M), (mined_block_receipts _ _ _ _ _ M).
  eexists _, _, _. split; [done|]. split; [done|]. cbn. rewrite Hbody. cbn.
  assert (length (take (i + 1) receipts) = S i) as Hti by (rewrite length_take; lia).
  split_and!; try done.
  - unfold TypedReceipt.gas_used. by destruct rc; simplify_eq/=.
  - rewrite cumulative_gas; [|lia|apply Forall_take, (mb_gas _ _ _ _ _ M)]. rewrite Nat.add_1_r in *.
    destruct (take (S i) receipts) as [|r0 rs]; [done|]. f_equal.
  - intros j l Hj. apply receipt_logs_index in Hj as [Hj1 Hj2]. split; [done|]. rewrite Hj1.
    do 2 f_equal. rewrite length_take, Hti. f_equal. f_equal. lia.
Qed.
End Receipts.
