(* ===== verification/NodeSample.v ===== *)
(** * A concrete node

    A toy EVM, hash and channel with which the node runs: the theorems about
    mining, snapshots, logs and receipts are instantiated on it, and it shows
    the behaviours recorded as findings. *)
From S2P Require Import Prelude Transaction TimeManager Hardfork Block Fees Snapshots PoolTx.
From S2P Require Import Db BlockStates Validator Executor Chain Node Backend BackendProps.
From S2P Require Import NodeProps.
Open Scope Z_scope.

Module Toy.
#[export] Existing Instance ListStore.store.
#[export] Existing Instance ListStore.store_laws.
#[export] Instance spec_order : SpecIdOrder := spec_order_by_index.
Definition toy_log (a : Address) : Log := mkLog a [] [].

(** Every transaction succeeds, spends its gas limit, and emits as many logs as
    its value. *)
#[export] Instance evm : Evm := {|
  evm_db := list TxEnv;
  evm_db_error := Empty_set;
  evm_trace := unit;
  db_basic _ a := Ok (Some (AccountInfo.mk (10 ^ 18) 0 KECCAK_EMPTY None));
  maybe_state_root d := Some (Z.of_nat (length d));
  inspect_commit _ _ env db :=
    (Ok (Success EvStop (env_tx_gas_limit env mod 2 ^ 64) (replicate (Z.to_nat (env_value env)) (toy_log (env_caller env)))
           (OutCall [])), [], db ++ [env]);
  instruction_as_u8 i := match i with Continue => 0 | IStop => 1 | IReturn => 2 | ISelfDestruct => 3 | _ => 32 end;
  accrue_raw _ b := b;
  receipts_trie_root rs := Z.of_nat (length rs);
  transactions_trie_root txs := Z.of_nat (length txs);
  ommers_rlp_hash _ := 0 |}.
#[export] Instance hashing : Hashing := {|
  header_hash h := 1000 + Header.number h;
  typed_transaction_hash t := TypedTransaction.gas_price t;
  impersonated_hash t a := TypedTransaction.gas_price t + a;
  block_rlp_len b := Z.of_nat (length (transactions b)) |}.
#[export] Instance node_db : NodeDb := {|
  insert_block_hash d n h := d;
  current_state d := env_caller <$> d |}.
#[export] Instance log_filter : LogFilter := {|
  Filter := Z * Z;
  get_block_hash _ := None;
  get_from_block f := Some (BNumber (fst f));
  get_to_block f := Some (BNumber (snd f));
  set_range _ from to := (from, to);
  has_address _ := false;
  has_topics _ := false;
  filter_address _ _ := true;
  filter_topics _ _ := true |}.
#[export] Instance channel : BlockChannel := {|
  BlockSender := list H256;
  is_closed _ := false;
  unbounded_send s n := (true, s ++ [fst n]) |}.

Lemma toy_gas_u64 : forall c b e db r tr db',
  inspect_commit (Evm := evm) c b e db = (Ok r, tr, db') -> is_u64 (result_gas r).
Proof.
  intros c b e db r tr db' [= <- _ _]. simpl. pose proof (Z.mod_pos_bound (env_tx_gas_limit e) (2 ^ 64)).
  unfold is_u64, U64_MAX. lia.
Qed.

Lemma separates : hash_separates.
Proof. intros h h' Heq. cbn in Heq. lia. Qed.

(** A transfer; the gas price doubles as its hash. *)
Definition tx (from hash value : Z) : PoolTransaction.t :=
  PoolTransaction.mk
    (mkPendingTransaction
       {| mtx_transaction := Legacy (LegacyTransaction.mk 0 hash 21000 (Call 9) value [] (Build_Signature 0 1 27));
          impersonated_sender := None |} from hash) [] [to_marker 0 from] hash.

Definition config : NodeConfig := mkConfig None (mkPrune false None) None.
Definition cfg : CfgEnv.t := CfgEnv.mk 31337 SHANGHAI false false false.
Definition env0 : BlockEnv.t := BlockEnv.mk 0 7 1000 0 None 0 30000000.
Definition genesis : Node :=
  mkNode (MemDb.mk ([] : evm_db (Evm := evm)) Snapshots.new) (storage_new env0 (Some 0) 1000) (InMemoryBlockStates.new 2) cfg env0
    (TimeManager.new 5000 1000) (FeeManager.new SHANGHAI 0 0) ∅ [].

Definition nowhere : MinedBlockOutcome * Node := (mkOutcome 0 [] [], genesis).
Definition mine (now : Z) (txs : list PoolTransaction.t) (s : Node) : MinedBlockOutcome * Node :=
  match do_mine_block config now txs s with Ret (Some r) => r | _ => nowhere end.
Definition mined1 : MinedBlockOutcome * Node := mine 5000 [tx 1 11 2; tx 2 12 1] genesis.
Definition genesis_blocks : list Block := [genesis_block env0 (Some 0) 1000].

Lemma genesis_inv : node_inv genesis_blocks genesis.
Proof.
  split; [apply chain_new|done|done|]. intros b ->%list_elem_of_singleton. done.
Defined.

Example mined1_included : PoolTransaction.hash <$> outcome_included (fst mined1) = [11; 12].
Proof. reflexivity. Qed.

Lemma mined1_eq : do_mine_block config 5000 [tx 1 11 2; tx 2 12 1] genesis = Ret (Some (fst mined1, snd mined1)).
Proof. reflexivity. Qed.

Lemma mine_extends_chain_witness :
  exists b, node_inv (genesis_blocks ++ [b]) (snd mined1) /\ Header.number (header b) = 1 /\
    Header.parent_hash (header b) = 1000.
Proof.
  destruct (mine_extends_chain config toy_gas_u64 separates genesis_blocks 5000 [tx 1 11 2; tx 2 12 1] genesis (fst mined1)
    (snd mined1)) as (b & I & _ & Hn & Hp & _).
  - apply genesis_inv.
  - reflexivity.
  - exists b. split; [exact I|]. split; [exact Hn|exact Hp].
Defined.

Lemma txs_consistent : Forall hash_consistent [tx 1 11 2; tx 2 12 1].
Proof. repeat constructor. Qed.

Lemma mined_transactions_found_witness :
  exists m, get_transaction_by_hash (storage (snd mined1)) 12 = Some m /\ info_transaction_index (mined_info m) = 1.
Proof.
  destruct (mined_transactions_found config toy_gas_u64 separates genesis_blocks 5000 [tx 1 11 2; tx 2 12 1] genesis (fst mined1)
    (snd mined1) genesis_inv eq_refl mined1_eq ltac:(refine (bool_decide_unpack _ _); reflexivity) 1%nat (tx 2 12 1) eq_refl)
    as (m & b & Hm & _ & _ & Hi & _).
  exists m. split; [exact Hm|exact Hi].
Defined.

Definition snap : Node := snd (create_snapshot genesis).
Definition grown2 : Node := snd (mine 5001 [] (snd (mine 5000 [tx 1 11 2] snap))).
Lemma revert_restores_chain_witness :
  exists s3, revert_snapshot config 5002 0 grown2 = Ret (Ok true, s3) /\ best_number (storage s3) = 0 /\
    mined (storage s3) = ∅.
Proof.
  destruct (revert_restores_chain config toy_gas_u64 separates genesis_blocks genesis [(5000, [tx 1 11 2]); (5001, [])] grown2 5002)
    as (s3 & b & Hr & _ & _ & _ & _ & Hn & Hm & _).
  - apply genesis_inv.
  - reflexivity.
  - apply Snapshots.new_wf.
  - reflexivity.
  - repeat constructor.
  - intros t Ht. reflexivity.
  - reflexivity.
  - exists s3. split; [exact Hr|]. split; [exact Hn|exact Hm].
Defined.

Lemma time_wf : TimeManager.wf (time genesis).
Proof. split; cbn; [by vm_compute|by vm_compute|done|done]. Qed.

Lemma mine_empty_returns_witness :
  exists o s', do_mine_block config 5000 [] genesis = Ret (Some (o, s')) /\ best_number (storage s') = 1.
Proof.
  destruct (mine_empty_returns config genesis_blocks 5000 genesis genesis_inv) as (o & s' & Hm & _ & Hn);
    [by vm_compute|by vm_compute|apply time_wf|by vm_compute|cbn; lia|cbn; lia|by vm_compute|by vm_compute|].
  exists o, s'. split; [exact Hm|exact Hn].
Defined.

Lemma block_tags_agree_witness :
  get_block (storage genesis) (IdNumber BSafe) = Some (genesis_block env0 (Some 0) 1000).
Proof. exact (proj1 (block_tags_agree config genesis_blocks genesis BSafe genesis_inv ltac:(done) ltac:(done))). Defined.

Lemma historic_state_readable_witness :
  exists st b s'', with_database_at config 6000 (Some (ReqNumber 0)) (snd mined1) =
    Ret (Ok (AtHistoric st, env_of_header (header b)), s'') /\ state_equiv st [].
Proof.
  destruct (historic_state_readable config toy_gas_u64 separates genesis_blocks 5000 [tx 1 11 2; tx 2 12 1] genesis (fst mined1)
    (snd mined1) 6000 genesis_inv eq_refl) as (st & b & s'' & Hw & _ & He);
    [apply InMemoryBlockStates.new_inv|cbn; lia|cbn; lia|apply not_elem_of_nil|reflexivity|].
  exists st, b, s''. split; [exact Hw|exact He].
Defined.

Lemma receipt_of_mined_witness :
  exists rr out, mined_transaction_receipt (snd mined1) 12 = Ret (Some (rr, out)) /\ rr_transaction_index rr = 1 /\
    rr_cumulative_gas_used rr = 42000.
Proof.
  destruct (receipt_of_mined config toy_gas_u64 separates genesis_blocks 5000 [tx 1 11 2; tx 2 12 1] genesis (fst mined1)
    (snd mined1) 1%nat (tx 2 12 1) genesis_inv eq_refl txs_consistent mined1_eq
    ltac:(refine (bool_decide_unpack _ _); reflexivity) ltac:(by vm_compute) eq_refl)
    as (rr & out & m & Hr & _ & Hi & _ & _ & _ & Hc & _).
  exists rr, out. split; [exact Hr|]. split; [exact Hi|]. rewrite Hc. reflexivity.
Defined.

(** ** Findings *)
Definition reverted (now id : Z) (s : Node) : result bool BlockchainError * Node :=
  match revert_snapshot config now id s with Ret r => r | Panic _ => (Ok false, s) end.

(** Two snapshots, at the heights 0 and 1, and a revert to the first. *)
Definition two_snapshots : Node := snd (create_snapshot (snd (mine 5000 [] snap))).
Definition back_to_first : Node := snd (reverted 5001 0 two_snapshots).

(** Reverting to a snapshot leaves the ids of the later ones active in the
    backend although the database has dropped them: a revert to such an id
    moves the head to a block that was removed, fails with [BlockNotFound],
    and from then on the node has no best block. *)
Theorem stale_snapshot_loses_head :
  fst (reverted 5001 0 two_snapshots) = Ok true /\ best_number (storage back_to_first) = 0 /\
  is_Some (get_block (storage back_to_first) (IdNumber BLatest)) /\
  let '(r, s) := reverted 5002 1 back_to_first in
  r = Err BlockNotFound /\ best_number (storage s) = 1 /\ get_block (storage s) (IdNumber BLatest) = None.
Proof. vm_compute. split_and!; try done. by eexists. Qed.

(** The times of the blocks of a chain, by number. *)
Definition time_of (s : Node) (n : Z) : option Z :=
  Header.timestamp ∘ header <$> get_block (storage s) (IdNumber (BNumber n)).

(** After a revert the next block can have the same timestamp as its
    parent, since the clock is set back to one second before the head: block
    times are not strictly increasing. *)
Theorem revert_repeats_timestamp :
  let s := snd (create_snapshot (snd (mine 5000 [] genesis))) in
  let s := snd (reverted 5002 0 (snd (mine 5001 [] s))) in
  let s := snd (mine 5002 [] s) in
  time_of s 1 = Some 1001 /\ time_of s 2 = Some 1001.
Proof. vm_compute. done. Qed.

(** The log index of a receipt is not the log's index in its block: for a
    second transaction with one log, after a first one with two, the receipt
    says 1 where the logs of the block say 2. *)
Theorem receipt_log_index_differs :
  (exists rr out, mined_transaction_receipt (snd mined1) 12 = Ret (Some (rr, out)) /\
     rl_log_index <$> rr_logs rr = [Some 1]) /\
  exists b, get_block (storage (snd mined1)) (IdNumber BLatest) = Some b /\
    (fun l => (rl_transaction_hash l, rl_log_index l)) <$> mined_logs_for_block (snd mined1) (0, 1) b =
    [(Some 11, Some 0); (Some 11, Some 1); (Some 12, Some 2)].
Proof. split; [by eexists _, _|]. by eexists. Qed.

(** A node that forked at block 10. *)
Definition remote_log : RpcLog := mkRpcLog (toy_log 5) None (Some 10) None None (Some 0) None None.
Definition remote : ClientFork :=
  mkFork log_filter 10 1000 None (fun _ => Ok None) (fun _ => Ok None)
    (fun f => if decide (fst f <= 10 <= snd f) then Ok [remote_log] else Ok []) (fun _ _ => Ok 0).
Definition fork_config : NodeConfig := mkConfig (Some remote) (mkPrune false None) None.
Definition forked : Node :=
  mkNode (MemDb.mk ([] : evm_db (Evm := evm)) Snapshots.new) (storage_forked 10 77 0) (InMemoryBlockStates.new 2) cfg
    (BlockEnv.mk 10 7 1000 0 None 0 30000000) (TimeManager.new 5000 1000) (FeeManager.new SHANGHAI 0 0) ∅ [].

Lemma fork_block_logs_skipped_witness :
  logs fork_config forked (10, 10) = Ok [] /\ logs fork_config forked (9, 10) = Ok [remote_log].
Proof.
  destruct (fork_block_logs_skipped fork_config forked remote (10, 10) 10) as [E1 _]; [done|done|cbn; lia|].
  destruct (fork_block_logs_skipped fork_config forked remote (9, 10) 10) as [_ E2]; [done|done|cbn; lia|].
  split; [exact E1|exact E2].
Defined.
End Toy.
