(* ===== verification/Estimate.v ===== *)
(** * Calls and gas estimation (anvil/src/eth/api.rs,
    anvil/src/eth/backend/mem/mod.rs)

    [eth_estimateGas]: a request is executed on a state without changing it,
    and the gas limit it needs is found by a binary search.  The state is any
    [DatabaseRef]; executing on it ([EVM::inspect_ref]) is library code. *)
From S2P Require Import Prelude Transaction TimeManager Hardfork Block Fees Snapshots PoolTx.
From S2P Require Import Db BlockStates Validator Executor Chain Node NodeSample.
Open Scope Z_scope.

Definition MIN_CREATE_GAS : Z := 53000.

(** [return_ok!] and [return_revert!] are revm's classes of results. *)
Class CallEvm `{!Evm} := {
  DatabaseRef : Type;
  evm_state : Type;
  ref_basic : DatabaseRef -> Address -> result (option AccountInfo.t) evm_db_error;
  ref_code_by_hash : DatabaseRef -> H256 -> result Bytecode evm_db_error;
  inspect_ref : CfgEnv.t -> BlockEnv.t -> TxEnv -> DatabaseRef ->
    result (ExecutionResult * evm_state) (evm_db_error + InvalidTransaction + unit);
  return_ok : InstructionResult -> bool;
  return_revert : InstructionResult -> bool }.

(** [U256]'s subtraction. *)
Definition u256_sub (a b : Z) : exec Z :=
  if decide (b <= a) then Ret (a - b) else Panic "arithmetic operation overflow".

Definition set_gas (gas : Z) (r : EthTransactionRequest.t) : EthTransactionRequest.t :=
  EthTransactionRequest.mk (EthTransactionRequest.from r) (EthTransactionRequest.to r)
    (EthTransactionRequest.gas_price r) (EthTransactionRequest.max_fee_per_gas r)
    (EthTransactionRequest.max_priority_fee_per_gas r) (Some gas) (EthTransactionRequest.value r)
    (EthTransactionRequest.data r) (EthTransactionRequest.nonce r) (EthTransactionRequest.chain_id r)
    (EthTransactionRequest.access_list r) (EthTransactionRequest.transaction_type r).

Section Estimate.
Context `{!Evm} `{!Hashing} `{!StateStore} `{!NodeDb} `{!LogFilter} `{!BlockChannel} `{!SpecIdOrder} `{!CallEvm}.

(** ** The backend *)
Definition build_call_env (s : Node) (request : EthTransactionRequest.t) (fee_details : FeeDetails.t)
    (block_env : BlockEnv.t) : exec (CfgEnv.t * BlockEnv.t * TxEnv) :=
  let gas_limit := default (BlockEnv.gas_limit block_env) (EthTransactionRequest.gas request) in
  let cfg := env_cfg s in
  let basefee := default (BlockEnv.basefee block_env) (FeeDetails.max_fee_per_gas fee_details) in
  let block :=
    BlockEnv.mk (BlockEnv.number block_env) (BlockEnv.coinbase block_env) (BlockEnv.timestamp block_env)
      (BlockEnv.difficulty block_env) (BlockEnv.prevrandao block_env) basefee (BlockEnv.gas_limit block_env) in
  let gas_price :=
    match FeeDetails.gas_price fee_details with
    | Some p => p
    | None => match FeeDetails.max_fee_per_gas fee_details with Some p => p | None => FeeManager.gas_price (fees s) end
    end in
  gas_limit ← u256_as_u64 gas_limit;
  nonce ← match EthTransactionRequest.nonce request with
          | Some n => Some <$> u256_as_u64 n
          | None => Ret None
          end;
  let tx :=
    {| env_caller := default 0 (EthTransactionRequest.from request);
       env_transact_to :=
         match EthTransactionRequest.to request with Some a => TransactToCall a | None => TransactToCreate end;
       env_data := default [] (EthTransactionRequest.data request);
       env_chain_id := None; env_nonce := nonce;
       env_value := default 0 (EthTransactionRequest.value request);
       env_gas_price := gas_price;
       env_gas_priority_fee := FeeDetails.max_priority_fee_per_gas fee_details;
       env_tx_gas_limit := gas_limit;
       env_access_list := to_revm_access_list (default [] (EthTransactionRequest.access_list request)) |} in
  let cfg :=
    CfgEnv.mk (CfgEnv.chain_id cfg) (CfgEnv.spec_id cfg) true
      (if decide (basefee = 0) then true else CfgEnv.disable_base_fee cfg) (CfgEnv.disable_eip3607 cfg) in
  Ret (cfg, block, tx).

Definition call_with_state (s : Node) (state : DatabaseRef) (request : EthTransactionRequest.t)
    (fee_details : FeeDetails.t) (block_env : BlockEnv.t)
    : exec (result (InstructionResult * option Output * Z * evm_state) BlockchainError) :=
  '(cfg, block, tx) ← build_call_env s request fee_details block_env;
  Ret
    (match inspect_ref cfg block tx state with
     | Err (inl (inr invalid_tx)) => Err (InvalidTransactionErr (invalid_transaction_from invalid_tx))
     | Err (inr _) => Err PrevrandaoNotSet
     | Err (inl (inl e)) => Err (DatabaseError e)
     | Ok (res, state) =>
         match res with
         | Success reason gas_used _ output => Ok (eval_to_instruction_result reason, Some output, gas_used, state)
         | Reverted gas_used output => Ok (IRevert, Some (OutCall output), gas_used, state)
         | Halted reason gas_used => Ok (halt_to_instruction_result reason, None, gas_used, state)
         end
     end).

Definition get_code_with_state (state : DatabaseRef) (address : Address) : result Bytecode BlockchainError :=
  match ref_basic state address with
  | Err e => Err (DatabaseError e)
  | Ok account =>
      let account := default default_account account in
      if decide (AccountInfo.code_hash account = KECCAK_EMPTY) then Ok []
      else
        match AccountInfo.code account with
        | Some code => Ok code
        | None =>
            match ref_code_by_hash state (AccountInfo.code_hash account) with
            | Err e => Err (DatabaseError e)
            | Ok code => Ok code
            end
        end
  end.

Definition get_balance_with_state (state : DatabaseRef) (address : Address) : result Z BlockchainError :=
  match ref_basic state address with
  | Err e => Err (DatabaseError e)
  | Ok account => Ok (AccountInfo.balance (default default_account account))
  end.

(** ** The RPC layer *)
Definition convert_transact_out (out : option Output) : list byte :=
  match out with None => [] | Some (OutCall out) => out | Some (OutCreate out _) => out end.

Definition ensure_return_ok (exit : InstructionResult) (out : option Output) : result (list byte) BlockchainError :=
  let out := convert_transact_out out in
  if return_ok exit then Ok out
  else if return_revert exit then Err (InvalidTransactionErr (Revert (Some out)))
  else Err (EvmError exit).

Definition map_out_of_gas_err (s : Node) (request : EthTransactionRequest.t) (state : DatabaseRef)
    (block_env : BlockEnv.t) (fees : FeeDetails.t) (gas_limit : Z) : exec BlockchainError :=
  r ← call_with_state s state (set_gas (BlockEnv.gas_limit (env_block s)) request) fees block_env;
  Ret
    (match r with
     | Err err => err
     | Ok (exit, out, _, _) =>
         if return_ok exit then InvalidTransactionErr (BasicOutOfGas gas_limit)
         else if return_revert exit then InvalidTransactionErr (Revert (Some (convert_transact_out out)))
         else EvmError exit
     end).

Definition determine_base_gas_by_kind (request : EthTransactionRequest.t) : exec Z :=
  typed ← into_typed_request request;
  Ret
    (match typed with
     | Some request =>
         match request with
         | LegacyReq req =>
             match LegacyTransactionRequest.kind req with Call _ => MIN_TRANSACTION_GAS | Create => MIN_CREATE_GAS end
         | EIP1559Req req =>
             match EIP1559TransactionRequest.kind req with Call _ => MIN_TRANSACTION_GAS | Create => MIN_CREATE_GAS end
         | EIP2930Req req =>
             match EIP2930TransactionRequest.kind req with Call _ => MIN_TRANSACTION_GAS | Create => MIN_CREATE_GAS end
         end
     | None => MIN_CREATE_GAS
     end).

(** The highest gas limit worth trying. *)
Definition highest_limit (request : EthTransactionRequest.t) (state : DatabaseRef) (block_env : BlockEnv.t)
    (fees : FeeDetails.t) : result Z BlockchainError :=
  let highest_gas_limit := default (BlockEnv.gas_limit block_env) (EthTransactionRequest.gas request) in
  match EthTransactionRequest.from request with
  | None => Ok highest_gas_limit
  | Some from =>
      let gas_price := default 0 (FeeDetails.gas_price fees) in
      if 0 <? gas_price then
        match get_balance_with_state state from with
        | Err e => Err e
        | Ok available_funds =>
            let value := default 0 (EthTransactionRequest.value request) in
            if available_funds <? value then Err (InvalidTransactionErr InsufficientFunds)
            else
              let allowance := (available_funds - value) / gas_price in
              Ok (if allowance <? highest_gas_limit then allowance else highest_gas_limit)
        end
      else Ok highest_gas_limit
  end.

(** [probe] is [call_with_state] for the request with another gas limit. *)
Section Search.
Variable probe : Z -> exec (result (InstructionResult * option Output * Z * evm_state) BlockchainError).

(** The binary search; [None] when it does not end within [n] turns. *)
Fixpoint search (n : nat) (highest_gas_limit lowest_gas_limit mid_gas_limit : Z)
    : exec (option (result Z BlockchainError)) :=
  d ← u256_sub highest_gas_limit lowest_gas_limit;
  if 1 <? d then
    match n with
    | O => Ret None
    | S n =>
        ethres ← probe mid_gas_limit;
        match ethres with
        | Err (InvalidTransactionErr (GasTooHigh _)) =>
            sum ← u256_add highest_gas_limit mid_gas_limit;
            search n highest_gas_limit mid_gas_limit (sum / 2)
        | Ok (exit, _, _, _) =>
            if return_ok exit then
              sum ← u256_add mid_gas_limit lowest_gas_limit;
              search n mid_gas_limit lowest_gas_limit (sum / 2)
            else
              match exit with
              | IRevert | OutOfGas | OutOfFund =>
                  sum ← u256_add highest_gas_limit mid_gas_limit;
                  search n highest_gas_limit mid_gas_limit (sum / 2)
              | reason => Ret (Some (Err (EvmError reason)))
              end
        | Err reason => Ret (Some (Err reason))
        end
    end
  else Ret (Some (Ok highest_gas_limit)).
End Search.

(** Every turn but the first halves the distance of two [U256]. *)
Definition SEARCH_TURNS : nat := 257.

(** A transfer to an account without code needs the base amount. *)
Definition simple_transfer (request : EthTransactionRequest.t) (state : DatabaseRef) : bool :=
  let likely_transfer := match EthTransactionRequest.data request with Some d => bool_decide (d = []) | None => true end in
  likely_transfer &&
  match EthTransactionRequest.to request with
  | Some to => match get_code_with_state state to with Ok code => bool_decide (code = []) | Err _ => false end
  | None => false
  end.

Definition do_estimate_gas_with_state (s : Node) (request : EthTransactionRequest.t) (state : DatabaseRef)
    (block_env : BlockEnv.t) : exec (option (result Z BlockchainError)) :=
  if simple_transfer request state then Ret (Some (Ok MIN_TRANSACTION_GAS))
  else
    match FeeDetails.new (EthTransactionRequest.gas_price request) (EthTransactionRequest.max_fee_per_gas request)
            (EthTransactionRequest.max_priority_fee_per_gas request) with
    | Err _ => Ret (Some (Err InvalidFeeInput))
    | Ok fees =>
        let fees := FeeDetails.or_zero_fees fees in
        match highest_limit request state block_env fees with
        | Err e => Ret (Some (Err e))
        | Ok highest_gas_limit =>
            let gas_limit := Z.min (default highest_gas_limit (EthTransactionRequest.gas request)) highest_gas_limit in
            let asked :=
              match EthTransactionRequest.gas request, EthTransactionRequest.gas_price request with
              | None, None => false
              | _, _ => true
              end in
            ethres ← call_with_state s state (set_gas gas_limit request) fees block_env;
            let map_err := e ← map_out_of_gas_err s request state block_env fees gas_limit; Ret (Some (Err e)) in
            match ethres with
            | Err e =>
                match e with
                | InvalidTransactionErr (GasTooHigh _) => if asked then map_err else Ret (Some (Err e))
                | _ => Ret (Some (Err e))
                end
            | Ok (exit, out, gas, _) =>
                if return_ok exit then
                  lowest_gas_limit ← determine_base_gas_by_kind request;
                  triple ← u256_mul gas 3;
                  sum ← u256_add highest_gas_limit lowest_gas_limit;
                  search (fun mid => call_with_state s state (set_gas mid request) fees block_env) SEARCH_TURNS
                    highest_gas_limit lowest_gas_limit (Z.min triple (sum / 2))
                else
                  match exit with
                  | OutOfGas | OutOfFund => Ret (Some (Err (InvalidTransactionErr (BasicOutOfGas gas_limit))))
                  | reason =>
                      if return_revert exit then
                        if asked then map_err
                        else Ret (Some (Err (InvalidTransactionErr (Revert (Some (convert_transact_out out))))))
                      else Ret (Some (Err (EvmError reason)))
                  end
            end
        end
    end.

(** ** The binary search *)
Section SearchLemmas.
Variable probe : Z -> exec (result (InstructionResult * option Output * Z * evm_state) BlockchainError).

(** With the gas limit [g] the call succeeds. *)
Definition succeeds (g : Z) : Prop :=
  exists exit out gas st, probe g = Ret (Ok (exit, out, gas, st)) /\ return_ok exit = true.
(** With the gas limit [g] the call fails in a way that more gas may cure. *)
Definition runs_out (g : Z) : Prop :=
  (exists d, probe g = Ret (Err (InvalidTransactionErr (GasTooHigh d)))) \/
  exists exit out gas st, probe g = Ret (Ok (exit, out, gas, st)) /\ return_ok exit = false /\
    (exit = IRevert \/ exit = OutOfGas \/ exit = OutOfFund).

Lemma runs_out_fails g : runs_out g -> ~ succeeds g.
Proof. intros [[d Hd]|(? & ? & ? & ? & Hp & Hr & _)] (? & ? & ? & ? & Hp' & Hr'); congruence. Qed.

Lemma search_success n h l mid :
  1 < h - l -> 0 <= l -> l < mid < h -> h <= U64_MAX -> succeeds mid ->
  search probe (S n) h l mid = search probe n mid l ((mid + l) / 2).
Proof.
  intros Hd Hl Hm Hu (exit & out & gas & st & Hp & Hr). cbn [search]. unfold u256_sub.
  rewrite decide_True by lia. cbn. destruct (Z.ltb_spec 1 (h - l)); [|lia]. rewrite Hp. cbn. rewrite Hr.
  unfold u256_add. rewrite decide_True by (unfold_bounds; lia). done.
Qed.
Lemma search_failure n h l mid :
  1 < h - l -> 0 <= l -> l < mid < h -> h <= U64_MAX -> runs_out mid ->
  search probe (S n) h l mid = search probe n h mid ((h + mid) / 2).
Proof.
  intros Hd Hl Hm Hu Hr. cbn [search]. unfold u256_sub.
  rewrite decide_True by lia. cbn. destruct (Z.ltb_spec 1 (h - l)); [|lia].
  assert (u256_add h mid = Ret (h + mid)) as Ha by (unfold u256_add; rewrite decide_True by (unfold_bounds; lia); done).
  destruct Hr as [[d ->]|(exit & out & gas & st & -> & Hr & He)]; cbn; [by rewrite Ha|].
  rewrite Hr, Ha. by destruct He as [->|[->| ->]].
Qed.
Lemma search_done n h l mid : l <= h -> h - l <= 1 -> search probe n h l mid = Ret (Some (Ok h)).
Proof.
  intros Hl Hd. destruct n; cbn [search]; unfold u256_sub; rewrite decide_True by lia; cbn;
    by destruct (Z.ltb_spec 1 (h - l)); [lia|].
Qed.

Lemma search_underflow n h l mid : h < l -> exists why, search probe n h l mid = Panic why.
Proof. intros Hl. destruct n; cbn [search]; unfold u256_sub; rewrite decide_False by lia; by eexists. Qed.

(** What the search finds between a limit that works and one that is too low. *)
Definition found (h l r : Z) : Prop :=
  l < r <= h /\ (r = h \/ succeeds r) /\ (r = l + 1 \/ runs_out (r - 1)).

Lemma found_success h l mid r : l < mid < h -> succeeds mid -> found mid l r -> found h l r.
Proof. intros Hm Hs (Hr & [->|Hsr] & Hf); split_and!; auto; lia. Qed.
Lemma found_failure h l mid r : l < mid < h -> runs_out mid -> found h mid r -> found h l r.
Proof.
  intros Hm Hs (Hr & Hsr & [->|Hf]); split_and!; auto; try lia. right. by replace (mid + 1 - 1) with mid by lia.
Qed.

(** The search ends: halving takes as many turns as the distance has bits. *)
Lemma search_halving n h l :
  h - l <= 2 ^ Z.of_nat n -> 0 <= l -> l < h -> h <= U64_MAX ->
  (forall g, l < g < h -> succeeds g \/ runs_out g) ->
  exists r, search probe n h l ((h + l) / 2) = Ret (Some (Ok r)) /\ found h l r.
Proof.
  revert h l. induction n as [|n IH]; intros h l Hd Hl Hh Hu Hp.
  - exists h. split; [apply search_done; cbn in Hd; lia|]. split_and!; [lia|lia|by left|left; cbn in Hd; lia].
  - destruct (decide (h - l <= 1)).
    { exists h. split; [by apply search_done; lia|]. split_and!; [lia|lia|by left|left; lia]. }
    rewrite Nat2Z.inj_succ, Z.pow_succ_r in Hd by lia. set (mid := (h + l) / 2).
    assert (2 * mid <= h + l < 2 * mid + 2) as Hmid.
    { unfold mid. pose proof (Z.div_mod (h + l) 2). pose proof (Z.mod_pos_bound (h + l) 2). lia. }
    destruct (Hp mid) as [Hs|Hs]; [lia| |].
    + rewrite search_success by (done || lia). destruct (IH mid l) as (r & -> & Hr); [lia..| |].
      { intros g Hg. apply Hp. lia. }
      exists r. split; [done|]. apply (found_success h l mid); [lia|done..].
    + rewrite search_failure by (done || lia). destruct (IH h mid) as (r & -> & Hr); [lia..| |].
      { intros g Hg. apply Hp. lia. }
      exists r. split; [done|]. apply (found_failure h l mid); [lia|done..].
Qed.

Lemma search_spec h l mid :
  0 <= l -> l < h -> h <= U64_MAX -> (1 < h - l -> l < mid) -> mid <= (h + l) / 2 ->
  (forall g, l < g < h -> succeeds g \/ runs_out g) ->
  exists r, search probe SEARCH_TURNS h l mid = Ret (Some (Ok r)) /\ found h l r.
Proof.
  intros Hl Hh Hu Hm Hm' Hp. pose proof (Z.div_mod (h + l) 2). pose proof (Z.mod_pos_bound (h + l) 2).
  destruct (decide (h - l <= 1)).
  { exists h. split; [by apply search_done; lia|]. split_and!; [lia|lia|by left|left; lia]. }
  assert (forall a b, b <= U64_MAX -> 0 <= a -> b - a <= 2 ^ Z.of_nat 256) as Hb by (unfold_bounds; intros; cbn; lia).
  unfold SEARCH_TURNS. destruct (Hp mid) as [Hs|Hs]; [lia| |].
  - rewrite search_success by (done || lia). destruct (search_halving 256 mid l) as (r & -> & Hr);
      [apply Hb; lia|lia..|intros g Hg; apply Hp; lia|]. exists r. split; [done|]. apply (found_success h l mid); [lia|done..].
  - rewrite search_failure by (done || lia). destruct (search_halving 256 h mid) as (r & -> & Hr);
      [apply Hb; lia|lia..|intros g Hg; apply Hp; lia|]. exists r. split; [done|]. apply (found_failure h l mid); [lia|done..].
Qed.
End SearchLemmas.

Lemma highest_limit_le request state block_env fees h g :
  highest_limit request state block_env fees = Ok h -> EthTransactionRequest.gas request = Some g -> h <= g.
Proof.
  unfold highest_limit. intros Hh Hg. rewrite Hg in Hh. cbn in Hh. repeat (step_match; try lia); lia.
Qed.

Lemma determine_base_gas_pos request base : determine_base_gas_by_kind request = Ret base -> 21000 <= base.
Proof.
  unfold determine_base_gas_by_kind. rewrite exec_bind_Ret. intros (o & _ & [= <-]).
  repeat case_match; unfold MIN_TRANSACTION_GAS, MIN_CREATE_GAS; lia.
Qed.

(** The estimation up to the search, on a call that succeeds. *)
Lemma estimate_to_search s request state block_env fees h exit out gas st base :
  simple_transfer request state = false ->
  FeeDetails.new (EthTransactionRequest.gas_price request) (EthTransactionRequest.max_fee_per_gas request)
    (EthTransactionRequest.max_priority_fee_per_gas request) = Ok fees ->
  highest_limit request state block_env (FeeDetails.or_zero_fees fees) = Ok h ->
  call_with_state s state (set_gas h request) (FeeDetails.or_zero_fees fees) block_env = Ret (Ok (exit, out, gas, st)) ->
  return_ok exit = true -> determine_base_gas_by_kind request = Ret base ->
  0 <= h <= U64_MAX -> base <= U64_MAX -> is_u64 gas ->
  do_estimate_gas_with_state s request state block_env =
  search (fun g => call_with_state s state (set_gas g request) (FeeDetails.or_zero_fees fees) block_env) SEARCH_TURNS
    h base (Z.min (gas * 3) ((h + base) / 2)).
Proof.
  intros Ht Hfee Hh Hc Hr Hb Hu Hub Hg. unfold do_estimate_gas_with_state. rewrite Ht, Hfee, Hh.
  replace (Z.min (default h (EthTransactionRequest.gas request)) h) with h.
  2: { destruct (EthTransactionRequest.gas request) as [g|] eqn:Hgas; cbn [default]; [|by rewrite Z.min_id].
       pose proof (highest_limit_le _ _ _ _ _ _ Hh Hgas). change (id g) with g. lia. }
  rewrite Hc. cbn [mbind exec_bind]. rewrite Hr, Hb. cbn [mbind exec_bind].
  unfold u256_mul. rewrite decide_True by (unfold_bounds; lia). cbn [mbind exec_bind].
  unfold u256_add at 1. rewrite decide_True by (unfold_bounds; lia). done.
Qed.

(** C27: Estimating gas for a call that is not a simple transfer and succeeds
    with the highest limit, where that limit is above the base amount of the
    transaction's kind, ends and returns a limit with which the call succeeds,
    while it fails with one unit less (or the limit is just above the base
    amount); if more gas never makes the call fail, no smaller limit above the
    base amount is enough.  A highest limit below the base amount makes the
    estimate panic ([estimate_panics_below_base]).  The hypotheses on the EVM: the
    call uses more than a third of the base amount, three times what it uses and
    the highest limit fit in a u64, and with the limits in between the call
    succeeds or fails for lack of gas; and the request's fees are well-formed. *)
Theorem estimate_gas_least s request state block_env fees h exit out gas st base :
  simple_transfer request state = false ->
  FeeDetails.new (EthTransactionRequest.gas_price request) (EthTransactionRequest.max_fee_per_gas request)
    (EthTransactionRequest.max_priority_fee_per_gas request) = Ok fees ->
  highest_limit request state block_env (FeeDetails.or_zero_fees fees) = Ok h ->
  let probe g := call_with_state s state (set_gas g request) (FeeDetails.or_zero_fees fees) block_env in
  probe h = Ret (Ok (exit, out, gas, st)) -> return_ok exit = true ->
  determine_base_gas_by_kind request = Ret base -> base < h <= U64_MAX -> base < 3 * gas <= U64_MAX ->
  (forall g, base < g < h -> succeeds probe g \/ runs_out probe g) ->
  exists r, do_estimate_gas_with_state s request state block_env = Ret (Some (Ok r)) /\
    base < r <= h /\ succeeds probe r /\ (r = base + 1 \/ runs_out probe (r - 1)) /\
    ((forall g g', base < g -> g <= g' <= h -> succeeds probe g -> succeeds probe g') ->
     forall g, base < g < r -> ~ succeeds probe g).
Proof.
  intros Ht Hfee Hh probe Hc Hr Hb Hu Hg Hp. pose proof (determine_base_gas_pos _ _ Hb).
  rewrite (estimate_to_search s request state block_env fees h exit out gas st base Ht Hfee Hh Hc Hr Hb)
    by (unfold is_u64; lia).
  pose proof (Z.div_mod (h + base) 2). pose proof (Z.mod_pos_bound (h + base) 2).
  assert (succeeds probe h) as Hs by by eexists _, _, _, _.
  destruct (search_spec probe h base (Z.min (gas * 3) ((h + base) / 2))) as (r & Hr' & Hf & Hor & Hl);
    [lia..|done|].
  exists r. split; [done|]. split; [done|]. split; [by destruct Hor as [->|]|]. split; [done|].
  intros Hmono g Hgr Hsg. destruct Hl as [->|Hl]; [lia|].
  apply (runs_out_fails probe (r - 1) Hl). apply (Hmono g); [lia..|done].
Qed.

(** A call that succeeds with less gas than the base amount that is assumed for
    it makes the estimation panic: the search starts with a lower bound above
    the upper one. *)
Theorem estimate_panics_below_base s request state block_env fees h exit out gas st base :
  simple_transfer request state = false ->
  FeeDetails.new (EthTransactionRequest.gas_price request) (EthTransactionRequest.max_fee_per_gas request)
    (EthTransactionRequest.max_priority_fee_per_gas request) = Ok fees ->
  highest_limit request state block_env (FeeDetails.or_zero_fees fees) = Ok h ->
  call_with_state s state (set_gas h request) (FeeDetails.or_zero_fees fees) block_env = Ret (Ok (exit, out, gas, st)) ->
  return_ok exit = true -> determine_base_gas_by_kind request = Ret base ->
  0 <= h < base -> base <= U64_MAX -> is_u64 gas ->
  exists why, do_estimate_gas_with_state s request state block_env = Panic why.
Proof.
  intros Ht Hfee Hh Hc Hr Hb Hu Hub Hg.
  rewrite (estimate_to_search s request state block_env fees h exit out gas st base Ht Hfee Hh Hc Hr Hb)
    by (done || lia).
  apply search_underflow. lia.
Qed.
End Estimate.

(** ** A contract call that needs 30,000 gas *)
Module NeedsGas.
Import Toy.
#[export] Instance call_evm : CallEvm := {|
  DatabaseRef := unit;
  evm_state := unit;
  ref_basic _ a := Ok (Some (AccountInfo.mk (10 ^ 18) 0 1 (Some [96])));
  ref_code_by_hash _ _ := Ok [96];
  inspect_ref _ _ tx _ :=
    if decide (env_tx_gas_limit tx < 30000) then Ok (Halted HOutOfGas (env_tx_gas_limit tx), tt)
    else Ok (Success EvReturn 25000 [] (OutCall []), tt);
  return_ok r := match r with Continue | IStop | IReturn | ISelfDestruct => true | _ => false end;
  return_revert r := match r with IRevert | CallTooDeep | OutOfFund => true | _ => false end |}.

Definition state : DatabaseRef := tt.
Definition no_state : evm_state := tt.
Definition request (ty price gas : option Z) : EthTransactionRequest.t :=
  EthTransactionRequest.mk (Some 1) (Some 2) price None None gas None (Some [1; 2; 3; 4]) None None None ty.

(** The estimate on a node with 30,000,000 gas per block. *)
Lemma estimate_gas_least_witness :
  do_estimate_gas_with_state genesis (request None None None) state (env_block genesis) = Ret (Some (Ok 30000)).
Proof.
  destruct (estimate_gas_least genesis (request None None None) state (env_block genesis) (FeeDetails.mk None None None)
    30000000 IReturn (Some (OutCall [])) 25000 no_state 21000 eq_refl eq_refl eq_refl eq_refl eq_refl eq_refl)
    as (r & Hr & _); [done|done| |].
  - intros g Hg. unfold succeeds, runs_out, call_with_state, build_call_env. cbn -[decide U64_MAX u256_as_u64].
    rewrite u256_as_u64_ok by (unfold U64_MAX; lia). cbn -[decide]. destruct (decide (g < 30000)).
    + right. right. eexists _, _, _, _. split; [done|]. split; [done|]. auto.
    + left. by eexists _, _, _, _.
  - vm_compute. reflexivity.
Defined.

(** A request that names a type and a gas price that do not go together is
    estimated like a deployment: with a limit of 40,000, which is enough for
    the call, the estimation panics. *)
Example estimate_mistyped_panics :
  exists why, do_estimate_gas_with_state genesis (request (Some 2) (Some 0) (Some 40000)) state (env_block genesis) = Panic why.
Proof.
  apply (estimate_panics_below_base genesis (request (Some 2) (Some 0) (Some 40000)) state (env_block genesis)
    (FeeDetails.mk (Some 0) (Some 0) (Some 0)) 40000 IReturn (Some (OutCall [])) 25000 no_state 53000); try done.
Qed.
End NeedsGas.
