(* ===== verification/Api.v ===== *)
(** * The RPC layer (anvil/src/eth/api.rs)

    [EthApi] ties the pool, the backend and the signers together: it turns
    requests into pool transactions, mines blocks from the ready ones and
    changes the node's environment.  A handler is a computation in [rpc]: it
    may panic, it may return an error, and it changes the state. *)
From S2P Require Import Prelude Transaction TimeManager Hardfork Block Rlp Fees Snapshots PoolTx PendingTxs.
From S2P Require Import ReadyTxs TxIterator Pool Db BlockStates Validator Executor Chain Cheats Node Backend.
Open Scope Z_scope.

(** What the handlers use of the signature library and of historic states. A
    wallet signs the ethers form of a request. *)
Class ApiLib `{!Evm} `{!StateStore} := {
  recovery_id : Signature -> result Z string;
  recover : TypedTransaction -> result Address string;
  Wallet : Type;
  wallet_address : Wallet -> Address;
  sign_transaction_sync : Wallet -> TypedTransactionRequest -> result Signature string;
  sign_message : Wallet -> list byte -> result Signature string;
  TypedData : Type;
  wallet_sign_typed_data : Wallet -> TypedData -> result Signature string;
  state_basic : StateDb -> Address -> result (option AccountInfo.t) evm_db_error }.

Inductive EvmMineOptions :=
| MineTimestamp (timestamp : option Z)
| MineOptions (timestamp : option Z) (blocks : option Z).

(** ** Developer accounts (sign.rs) *)
Module DevSigner.
Section DevSigner.
Context `{!Evm} `{!StateStore} `{!ApiLib}.

Record t := mk {
  addresses : list Address;
  accounts : gmap Address Wallet }.

Definition new (accounts : list Wallet) : t :=
  let addresses := wallet_address <$> accounts in
  mk addresses (fold_left (fun m '(a, w) => <[a := w]> m) (zip addresses accounts) ∅).

Definition is_signer_for (addr : Address) (s : t) : bool := bool_decide (is_Some (accounts s !! addr)).

Definition with_wallet (s : t) (address : Address) (f : Wallet -> result Signature string) : result Signature BlockchainError :=
  match accounts s !! address with
  | None => Err NoSignerAvailable
  | Some signer => match f signer with Ok sig => Ok sig | Err e => Err (SignatureError e) end
  end.
Definition sign (s : t) (address : Address) (message : list byte) : result Signature BlockchainError :=
  with_wallet s address (fun signer => sign_message signer message).
Definition sign_typed_data (s : t) (address : Address) (payload : TypedData) : result Signature BlockchainError :=
  with_wallet s address (fun signer => wallet_sign_typed_data signer payload).
Definition sign_transaction (s : t) (request : TypedTransactionRequest) (address : Address) : result Signature BlockchainError :=
  with_wallet s address (fun signer => sign_transaction_sync signer request).

(** The wallet kept for an address is the address's. *)
Definition keyed (m : gmap Address Wallet) : Prop := forall a w, m !! a = Some w -> wallet_address w = a.
Lemma new_keyed ws : keyed (accounts (new ws)).
Proof.
  unfold new. cbn. assert (keyed ∅) as Hm by (intros a w; by rewrite lookup_empty). revert Hm.
  generalize (∅ : gmap Address Wallet) as m. induction ws as [|w0 ws IH]; intros m Hm; [done|].
  cbn [fmap list_fmap zip zip_with fold_left]. apply IH.
  intros a' w' [[<- <-]|[_ ?]]%lookup_insert_Some; [done|by apply Hm].
Qed.
End DevSigner.
End DevSigner.

Section Api.
Context `{!Evm} `{!Hashing} `{!StateStore} `{!NodeDb} `{!LogFilter} `{!BlockChannel} `{!SpecIdOrder}.
Context `{!HashIter TxMarker} `{!HashIter TxHash} `{!Channel} `{!RlpLib} `{!ApiLib}.
Variable config : NodeConfig.

Record Api := mkApi {
  backend : Node;
  pool : Pool.t;
  cheats : CheatsManager.t;
  signers : list DevSigner.t;
  transaction_order : TransactionOrder }.

(** ** Handlers *)
Definition rpc (A : Type) : Type := Api -> exec (result A BlockchainError * Api).
#[local] Instance rpc_bind : MBind rpc := fun A B f m s =>
  '(r, s) ← m s;
  match r with Ok a => f a s | Err e => Ret (Err e, s) end.
Definition done_with {A} (a : A) : rpc A := fun s => Ret (Ok a, s).
Definition fail_with {A} (e : BlockchainError) : rpc A := fun s => Ret (Err e, s).
(** [?] on a [Result]. *)
Definition try {A} (r : result A BlockchainError) : rpc A := fun s => Ret (r, s).
(** A computation that may panic. *)
Definition run {A} (e : exec A) : rpc A := fun s => a ← e; Ret (Ok a, s).
Definition read {A} (f : Api -> A) : rpc A := fun s => Ret (Ok (f s), s).

Definition set_backend (n : Node) (s : Api) : Api := mkApi n (pool s) (cheats s) (signers s) (transaction_order s).
Definition set_pool (p : Pool.t) (s : Api) : Api := mkApi (backend s) p (cheats s) (signers s) (transaction_order s).
Definition set_cheats (c : CheatsManager.t) (s : Api) : Api :=
  mkApi (backend s) (pool s) c (signers s) (transaction_order s).
(** A change of the backend. *)
Definition on_backend (f : Node -> Node) : rpc unit := fun s => Ret (Ok tt, set_backend (f (backend s)) s).

Definition from_db {A} (r : result A evm_db_error) : result A BlockchainError :=
  match r with Ok a => Ok a | Err e => Err (DatabaseError e) end.
Definition from_sig {A} (r : result A string) : result A BlockchainError :=
  match r with Ok a => Ok a | Err e => Err (SignatureError e) end.

(** ** Accounts and nonces *)
Definition get_account (n : Node) (address : Address) : result AccountInfo.t BlockchainError :=
  match from_db (db_basic (MemDb.inner (db n)) address) with
  | Ok a => Ok (default default_account a)
  | Err e => Err e
  end.
Definition current_nonce (n : Node) (address : Address) : result Z BlockchainError :=
  match get_account n address with Ok a => Ok (AccountInfo.nonce a) | Err e => Err e end.

Definition basic_at (st : StateAt) (address : Address) : result (option AccountInfo.t) evm_db_error :=
  match st with
  | AtCurrent d | AtGenesis d => db_basic (MemDb.inner d) address
  | AtHistoric d => state_basic d address
  | AtPending d => db_basic d address
  end.

(** [Backend::get_nonce] *)
Definition get_nonce (now : Z) (address : Address) (block_request : option BlockRequest) : rpc Z := fun s =>
  match
    match block_request with
    | Some (ReqPending pool_transactions) => get_pool_transactions_nonce pool_transactions address
    | _ => None
    end
  with
  | Some value => Ret (Ok value, s)
  | None =>
      let final_block_request :=
        match block_request with
        | Some (ReqPending _) => Some (ReqNumber (node_best_number (backend s)))
        | r => r
        end in
      '(r, n) ← with_database_at config now final_block_request (backend s);
      let s := set_backend n s in
      Ret (match r with
           | Err e => Err e
           | Ok (st, _) =>
               match from_db (basic_at st address) with
               | Ok a => Ok (AccountInfo.nonce (default default_account a))
               | Err e => Err e
               end
           end, s)
  end.

Definition ready_transactions (s : Api) : list PoolTransaction.t :=
  iteration (PoolInner.ready_transactions (Pool.inner (pool s))).

Definition block_request (block_number : option BlockId) : rpc BlockRequest := fun s =>
  match block_number with
  | Some (IdNumber BPending) => Ret (Ok (ReqPending (ready_transactions s)), s)
  | _ =>
      r ← ensure_block_number config (backend s) block_number;
      Ret (match r with Ok n => Ok (ReqNumber n) | Err e => Err e end, s)
  end.

Definition get_transaction_count (now : Z) (address : Address) (block_number : option BlockId) : rpc Z :=
  request ← block_request block_number;
  match
    match request, fork config with
    | ReqNumber number, Some f => if predates_fork_inclusive f number then Some (fork_get_nonce f address number) else None
    | _, _ => None
    end
  with
  | Some r => try (match r with Ok n => Ok n | Err e => Err (ForkProvider e) end)
  | None => get_nonce now address (Some request)
  end.

Definition request_nonce (now : Z) (request : EthTransactionRequest.t) (from : Address) : rpc (Z * Z) :=
  highest_nonce ← get_transaction_count now from (Some (IdNumber BPending));
  done_with (default highest_nonce (EthTransactionRequest.nonce request), highest_nonce).

(** ** Building transactions *)
Definition build_typed_tx_request (request : EthTransactionRequest.t) (nonce : Z) : rpc TypedTransactionRequest := fun s =>
  chain_id ← match EthTransactionRequest.chain_id request with
             | Some c => Ret c
             | None => u256_as_u64 (CfgEnv.chain_id (env_cfg (backend s)))
             end;
  let gas_limit := default (BlockEnv.gas_limit (env_block (backend s))) (EthTransactionRequest.gas request) in
  let gas_price := FeeManager.gas_price (fees (backend s)) in
  typed ← into_typed_request request;
  Ret
    (match typed with
     | Some (LegacyReq m) =>
         Ok (LegacyReq (LegacyTransactionRequest.mk nonce
               (match EthTransactionRequest.gas_price request with
                | None => gas_price
                | Some _ => LegacyTransactionRequest.gas_price m
                end) gas_limit (LegacyTransactionRequest.kind m) (LegacyTransactionRequest.value m)
               (LegacyTransactionRequest.input m) (Some chain_id)))
     | Some (EIP2930Req m) =>
         Ok (EIP2930Req (EIP2930TransactionRequest.mk chain_id nonce
               (match EthTransactionRequest.gas_price request with
                | None => gas_price
                | Some _ => EIP2930TransactionRequest.gas_price m
                end) gas_limit (EIP2930TransactionRequest.kind m) (EIP2930TransactionRequest.value m)
               (EIP2930TransactionRequest.input m) (EIP2930TransactionRequest.access_list m)))
     | Some (EIP1559Req m) =>
         Ok (EIP1559Req (EIP1559TransactionRequest.mk chain_id nonce
               (EIP1559TransactionRequest.max_priority_fee_per_gas m)
               (match EthTransactionRequest.max_fee_per_gas request with
                | None => gas_price
                | Some _ => EIP1559TransactionRequest.max_fee_per_gas m
                end) gas_limit (EIP1559TransactionRequest.kind m) (EIP1559TransactionRequest.value m)
               (EIP1559TransactionRequest.input m) (EIP1559TransactionRequest.access_list m)))
     | None => Err FailedToDecodeTransaction
     end, s).

Definition accounts (s : Api) : list Address := signers s ≫= DevSigner.addresses.

(** [request.from.map(Ok).unwrap_or_else(|| self.accounts()?.get(0)...)] *)
Definition sender_of_request (request : EthTransactionRequest.t) : rpc Address := fun s =>
  Ret (match EthTransactionRequest.from request with
       | Some from => Ok from
       | None => match accounts s !! 0%nat with Some from => Ok from | None => Err NoSignerAvailable end
       end, s).

Definition signer_for (from : Address) (l : list DevSigner.t) : option DevSigner.t :=
  find (fun signer => bool_decide (from ∈ DevSigner.addresses signer)) l.

Definition sign_request (from : Address) (request : TypedTransactionRequest) : rpc TypedTransaction := fun s =>
  Ret (match signer_for from (signers s) with
       | Some signer =>
           match DevSigner.sign_transaction signer request from with
           | Err e => Err e
           | Ok signature => from_sig (build_typed_transaction recovery_id request signature)
           end
       | None => Err NoSignerAvailable
       end, s).

(** [eth_sign], [eth_signTypedData_v4] and [eth_signTransaction]; the
    signature is printed in hexadecimal. *)
Definition get_signer (address : Address) (s : Api) : option DevSigner.t :=
  find (DevSigner.is_signer_for address) (signers s).
Definition with_signer (address : Address) (f : DevSigner.t -> result Signature BlockchainError) : rpc Signature := fun s =>
  Ret (match get_signer address s with Some signer => f signer | None => Err NoSignerAvailable end, s).
Definition sign (address : Address) (content : list byte) : rpc Signature :=
  with_signer address (fun signer => DevSigner.sign signer address content).
Definition sign_typed_data_v4 (address : Address) (payload : TypedData) : rpc Signature :=
  with_signer address (fun signer => DevSigner.sign_typed_data signer address payload).
Definition sign_transaction (now : Z) (request : EthTransactionRequest.t) : rpc Signature :=
  from ← sender_of_request request;
  '(nonce, _) ← request_nonce now request from;
  request ← build_typed_tx_request request nonce;
  with_signer from (fun signer => DevSigner.sign_transaction signer request from).

Definition ensure_typed_transaction_supported (tx : TypedTransaction) : rpc unit := fun s =>
  Ret (match tx with
       | EIP2930 _ => ensure_eip2930_active (backend s)
       | EIP1559 _ => ensure_eip1559_active (backend s)
       | Legacy _ => Ok tt
       end, s).

Definition validate_pool_transaction (now : Z) (tx : PendingTransaction) : rpc unit := fun s =>
  match get_account (backend s) (sender tx) with
  | Err e => Ret (Err e, s)
  | Ok account =>
      '(cfg, block) ← next_env now (backend s);
      r ← validate_pool_transaction_for (CfgEnv.chain_id (env_cfg (backend s))) tx account cfg block;
      Ret (match r with Ok _ => Ok tt | Err e => Err (InvalidTransactionErr e) end, s)
  end.

(** [self.pool.add_transaction(pool_transaction)?] and the hash it returns. *)
Definition submit (now : Z) (tx : PoolTransaction.t) : rpc TxHash := fun s =>
  '(r, p) ← Pool.add_transaction now (pool s) tx;
  Ret (match r with Ok added => Ok (added_hash added) | Err e => Err (PoolErr e) end, set_pool p s).

Definition add_pending_transaction (now : Z) (pending_transaction : PendingTransaction)
    (requires provides : list TxMarker) : rpc TxHash :=
  order ← read transaction_order;
  submit now (PoolTransaction.mk pending_transaction requires provides
                (priority_of order (mtx_transaction (ptx_transaction pending_transaction)))).

(** The three ways to submit: what is checked before the transaction is given
    to the pool.  [debug_assert!] is the assertion. *)
Definition prepare_send (now : Z) (request : EthTransactionRequest.t)
    : rpc (PendingTransaction * list TxMarker * list TxMarker) :=
  from ← sender_of_request request;
  '(nonce, on_chain_nonce) ← request_nonce now request from;
  request ← build_typed_tx_request request nonce;
  impersonated ← read (fun s => CheatsManager.is_impersonated from (cheats s));
  pending_transaction ←
    (if impersonated : bool then
       bypass_signature ← read (fun s => CheatsManager.bypass_signature (cheats s));
       transaction ← try (from_sig (build_typed_transaction recovery_id request bypass_signature));
       _ ← ensure_typed_transaction_supported transaction;
       done_with (pending_with_impersonated impersonated_hash transaction from)
     else
       transaction ← sign_request from request;
       _ ← ensure_typed_transaction_supported transaction;
       try (from_sig (pending_new typed_transaction_hash recover transaction)));
  _ ← validate_pool_transaction now pending_transaction;
  requires ← run (required_marker nonce on_chain_nonce from);
  n ← run (u256_as_u64 nonce);
  let provides := [to_marker n from] in
  _ ← run (assert (negb (bool_decide (requires = provides))) "assertion failed: requires != provides");
  done_with (pending_transaction, requires, provides).

Definition prepare_unsigned (now : Z) (request : EthTransactionRequest.t)
    : rpc (PendingTransaction * list TxMarker * list TxMarker) :=
  from ← try (match EthTransactionRequest.from request with Some from => Ok from | None => Err NoSignerAvailable end);
  '(nonce, on_chain_nonce) ← request_nonce now request from;
  request ← build_typed_tx_request request nonce;
  bypass_signature ← read (fun s => CheatsManager.bypass_signature (cheats s));
  transaction ← try (from_sig (build_typed_transaction recovery_id request bypass_signature));
  _ ← ensure_typed_transaction_supported transaction;
  let pending_transaction := pending_with_impersonated impersonated_hash transaction from in
  _ ← validate_pool_transaction now pending_transaction;
  requires ← run (required_marker nonce on_chain_nonce from);
  n ← run (u256_as_u64 nonce);
  done_with (pending_transaction, requires, [to_marker n from]).

Definition prepare_raw (now : Z) (data : list byte) : rpc (PendingTransaction * list TxMarker * list TxMarker) :=
  _ ← try (match data with [] => Err EmptyRawTransactionData | _ => Ok tt end);
  transaction ← try (match decode_raw_transaction data with
                     | Some t => Ok t
                     | None => Err FailedToDecodeSignedTransaction
                     end);
  _ ← (if 127 <? hd 0 data then done_with tt else ensure_typed_transaction_supported transaction);
  pending_transaction ← try (from_sig (pending_new typed_transaction_hash recover transaction));
  _ ← validate_pool_transaction now pending_transaction;
  on_chain_nonce ← (n ← read backend; try (current_nonce n (sender pending_transaction)));
  let from := sender pending_transaction in
  let nonce := ptx_nonce pending_transaction in
  requires ← run (required_marker nonce on_chain_nonce from);
  n ← run (u256_as_u64 nonce);
  done_with (pending_transaction, requires, [to_marker n from]).

(** [eth_sendTransaction], [eth_sendUnsignedTransaction] and
    [eth_sendRawTransaction] *)
Definition send_transaction (now : Z) (request : EthTransactionRequest.t) : rpc TxHash :=
  '(pending_transaction, requires, provides) ← prepare_send now request;
  add_pending_transaction now pending_transaction requires provides.
Definition eth_send_unsigned_transaction (now : Z) (request : EthTransactionRequest.t) : rpc TxHash :=
  '(pending_transaction, requires, provides) ← prepare_unsigned now request;
  add_pending_transaction now pending_transaction requires provides.
Definition send_raw_transaction (now : Z) (data : list byte) : rpc TxHash :=
  '(pending_transaction, requires, provides) ← prepare_raw now data;
  add_pending_transaction now pending_transaction requires provides.

(** ** Mining

    [clock] is the wall clock at the blocks that are mined; [None] if storing
    a historic state does not end. *)
Definition mine_one (now : Z) (s : Api) : exec (option Api) :=
  let transactions := ready_transactions s in
  r ← do_mine_block config now transactions (backend s);
  match r with
  | None => Ret None
  | Some (outcome, n) =>
      '(_, p) ← Pool.on_mined_block (pool s) (outcome_included outcome) (outcome_invalid_txs outcome);
      Ret (Some (set_pool p (set_backend n s)))
  end.

Fixpoint mine_blocks (clock : nat -> Z) (interval : option Z) (blocks : nat) (s : Api) : exec (option Api) :=
  match blocks with
  | O => Ret (Some s)
  | S blocks =>
      r ← mine_one (clock 0%nat) s;
      match r with
      | None => Ret None
      | Some s =>
          let n := backend s in
          let s :=
            match interval with
            | Some i =>
                set_backend (mkNode (db n) (storage n) (states n) (env_cfg n) (env_block n)
                  (snd (TimeManager.increase_time i (time n))) (fees n) (active_snapshots n) (new_block_listeners n)) s
            | None => s
            end in
          mine_blocks (fun k => clock (S k)) interval blocks s
      end
  end.

Definition set_time (t : TimeManager.t) (n : Node) : Node :=
  mkNode (db n) (storage n) (states n) (env_cfg n) (env_block n) t (fees n) (active_snapshots n) (new_block_listeners n).

Definition evm_set_next_block_timestamp (seconds : Z) : rpc unit := fun s =>
  let '(r, t) := TimeManager.set_next_block_timestamp seconds (time (backend s)) in
  Ret (match r with Ok _ => Ok tt | Err e => Err (TimestampErr e) end, set_backend (set_time t (backend s)) s).

(** [evm_mine] *)
Definition do_evm_mine (clock : nat -> Z) (opts : option EvmMineOptions) (s : Api)
    : exec (option (result Z BlockchainError * Api)) :=
  let '(timestamp, blocks_to_mine) :=
    match opts with
    | None => (None, 1)
    | Some (MineTimestamp timestamp) => (timestamp, 1)
    | Some (MineOptions timestamp blocks) => (timestamp, default 1 blocks)
    end in
  '(r, s) ← (match timestamp with
             | Some timestamp => evm_set_next_block_timestamp timestamp s
             | None => Ret (Ok tt, s)
             end : exec (result unit BlockchainError * Api));
  match r with
  | Err e => Ret (Some (Err e, s))
  | Ok _ =>
      o ← mine_blocks clock None (Z.to_nat blocks_to_mine) s;
      Ret (option_map (fun s => (Ok blocks_to_mine, s)) o)
  end.

(** [anvil_mine] *)
Definition anvil_mine (clock : nat -> Z) (num_blocks interval : option Z) (s : Api)
    : exec (option (result unit BlockchainError * Api)) :=
  interval ← match interval with Some i => Some <$> u256_as_u64 i | None => Ret None end;
  let blocks := default 1 num_blocks in
  if decide (blocks = 0) then Ret (Some (Ok tt, s))
  else
    blocks ← u256_as_u64 blocks;
    o ← mine_blocks clock interval (Z.to_nat blocks) s;
    Ret (option_map (fun s => (Ok tt, s)) o).

(** ** Snapshots, time and environment *)
Definition evm_snapshot : rpc Z := fun s =>
  let '(id, n) := create_snapshot (backend s) in Ret (Ok id, set_backend n s).
Definition evm_revert (now id : Z) : rpc bool := fun s =>
  '(r, n) ← revert_snapshot config now id (backend s); Ret (r, set_backend n s).

(** The result is cast to [i64]. *)
Definition evm_increase_time (seconds : Z) : rpc Z := fun s =>
  let '(offset, t) := TimeManager.increase_time (Z.min seconds U64_MAX) (time (backend s)) in
  Ret (Ok ((offset + 2 ^ 63) mod 2 ^ 64 - 2 ^ 63), set_backend (set_time t (backend s)) s).

(** The difference is taken for milliseconds. *)
Definition evm_set_time (now timestamp : Z) : rpc Z := fun s =>
  current ← TimeManager.current_call_timestamp now (time (backend s));
  let offset := u64_saturating_sub timestamp current in
  Ret (Ok (offset / 1000), set_backend (set_time (TimeManager.reset now timestamp (time (backend s))) (backend s)) s).

Definition evm_set_block_timestamp_interval (seconds : Z) : rpc unit :=
  on_backend (fun n => set_time (TimeManager.set_block_timestamp_interval seconds (time n)) n).
Definition evm_remove_block_timestamp_interval : rpc bool := fun s =>
  let '(b, t) := TimeManager.remove_block_timestamp_interval (time (backend s)) in
  Ret (Ok b, set_backend (set_time t (backend s)) s).

Definition set_env_block (b : BlockEnv.t) (n : Node) : Node :=
  mkNode (db n) (storage n) (states n) (env_cfg n) b (time n) (fees n) (active_snapshots n) (new_block_listeners n).
Definition set_fees (f : FeeManager.t) (n : Node) : Node :=
  mkNode (db n) (storage n) (states n) (env_cfg n) (env_block n) (time n) f (active_snapshots n) (new_block_listeners n).

Definition set_gas_limit (gas_limit : Z) (n : Node) : Node :=
  let b := env_block n in
  set_env_block (BlockEnv.mk (BlockEnv.number b) (BlockEnv.coinbase b) (BlockEnv.timestamp b) (BlockEnv.difficulty b)
    (BlockEnv.prevrandao b) (BlockEnv.basefee b) gas_limit) n.
Definition evm_set_block_gas_limit (gas_limit : Z) : rpc bool :=
  _ ← on_backend (set_gas_limit gas_limit); done_with true.

Definition set_coinbase (address : Address) (n : Node) : Node :=
  let b := env_block n in
  set_env_block (BlockEnv.mk (BlockEnv.number b) address (BlockEnv.timestamp b) (BlockEnv.difficulty b)
    (BlockEnv.prevrandao b) (BlockEnv.basefee b) (BlockEnv.gas_limit b)) n.
Definition anvil_set_coinbase (address : Address) : rpc unit := on_backend (set_coinbase address).

Definition anvil_set_block (block_number : Z) : rpc unit := on_backend (set_block_number block_number).

Definition anvil_set_min_gas_price (gas : Z) : rpc unit :=
  eip1559 ← read (fun s => is_eip1559 (backend s));
  if eip1559 : bool then fail_with (RpcErr "anvil_setMinGasPrice is not supported when EIP-1559 is active")
  else on_backend (fun n => set_fees (FeeManager.set_gas_price gas (fees n)) n).
Definition anvil_set_next_block_base_fee_per_gas (basefee : Z) : rpc unit :=
  eip1559 ← read (fun s => is_eip1559 (backend s));
  if eip1559 : bool then on_backend (fun n => set_fees (FeeManager.set_base_fee basefee (fees n)) n)
  else fail_with (RpcErr "anvil_setNextBlockBaseFeePerGas is only supported when EIP-1559 is active").

(** ** Impersonation and the pool *)
Definition anvil_impersonate_account (address : Address) : rpc unit := fun s =>
  let n := backend s in
  let '(_, c, cfg) := CheatsManager.backend_impersonate address (cheats s) (env_cfg n) in
  Ret (Ok tt, set_cheats c (set_backend (mkNode (db n) (storage n) (states n) cfg (env_block n) (time n) (fees n)
                                          (active_snapshots n) (new_block_listeners n)) s)).
Definition anvil_stop_impersonating_account (address : Address) : rpc unit := fun s =>
  Ret (Ok tt, set_cheats (CheatsManager.stop_impersonating address (cheats s)) s).
Definition anvil_auto_impersonate_account (enabled : bool) : rpc unit := fun s =>
  Ret (Ok tt, set_cheats (CheatsManager.set_auto_impersonate_account enabled (cheats s)) s).

Definition anvil_drop_transaction (tx_hash : H256) : rpc (option H256) := fun s =>
  '(o, p) ← Pool.drop_transaction (pool s) tx_hash;
  Ret (Ok (option_map PoolTransaction.hash o), set_pool p s).

(** [txpool_inspect]: by sender, then by nonce.  The second loop inserts into
    the pending ones too. *)
Record TxpoolInspectSummary := mkSummary {
  ins_to : option Address; ins_value : Z; ins_gas : Z; ins_gas_price : Z }.
Record TxpoolInspect := mkInspect {
  ins_pending : gmap Address (gmap Z TxpoolInspectSummary);
  ins_queued : gmap Address (gmap Z TxpoolInspectSummary) }.
Definition inspect_summary (tx : PoolTransaction.t) : TxpoolInspectSummary :=
  let tx := mtx_transaction (ptx_transaction (PoolTransaction.pending_transaction tx)) in
  mkSummary (TypedTransaction.to tx) (TypedTransaction.value tx) (TypedTransaction.gas_limit tx)
    (TypedTransaction.gas_price tx).
Definition inspect_insert (m : gmap Address (gmap Z TxpoolInspectSummary)) (tx : PoolTransaction.t)
    : gmap Address (gmap Z TxpoolInspectSummary) :=
  let p := PoolTransaction.pending_transaction tx in
  <[sender p := <[ptx_nonce p := inspect_summary tx]> (default ∅ (m !! sender p))]> m.
Definition waiting_transactions (s : Api) : list PoolTransaction.t :=
  PendingPoolTransaction.transaction <$>
    (map_to_list (PendingTransactions.waiting_queue (PoolInner.pending_transactions (Pool.inner (pool s))))).*2.
Definition txpool_inspect (s : Api) : TxpoolInspect :=
  let pending := fold_left inspect_insert (ready_transactions s) ∅ in
  let pending := fold_left inspect_insert (waiting_transactions s) pending in
  mkInspect pending ∅.
End Api.
