(* ===== verification/ApiProps.v ===== *)
(** * The RPC layer refines a ledger

    The node as its users see it is a ledger: a chain of blocks and a set of
    submitted transactions that wait to be mined.  The handlers of the RPC
    layer are simulated by the steps of that ledger. *)
From S2P Require Import Prelude Transaction TimeManager Hardfork Block Rlp Fees Snapshots PoolTx PendingTxs.
From S2P Require Import ReadyTxs TxIterator Pool PoolInv PoolProps Db BlockStates Validator Executor Chain Cheats.
From S2P Require Import Node Backend BackendProps Api.
Open Scope Z_scope.

(** ** The ledger *)
Section Ledger.
Context `{!Evm} `{!Hashing}.

Record Ledger := mkLedger {
  ld_chain : list Block;
  ld_pool : gset TxHash;
  ld_accepted : gset TxHash }.

(** A submission enters the pool, where it may displace others; transactions
    may be discarded; a block takes its transactions out of the pool, links to
    the head and has the next number; the chain may be rolled back. *)
Inductive ledger_step : Ledger -> Ledger -> Prop :=
| ledger_admit bs P A h P' :
    h ∈ P' -> P' ⊆ {[h]} ∪ P -> ledger_step (mkLedger bs P A) (mkLedger bs P' ({[h]} ∪ A))
| ledger_discard bs P A P' :
    P' ⊆ P -> ledger_step (mkLedger bs P A) (mkLedger bs P' A)
| ledger_mine bs P A b P' :
    Header.parent_hash (header b) = head_hash bs -> Header.number (header b) = Z.of_nat (length bs) ->
    NoDup (tx_hashes [b]) -> list_to_set (tx_hashes [b]) ⊆ P -> P' ⊆ P ∖ list_to_set (tx_hashes [b]) ->
    ledger_step (mkLedger bs P A) (mkLedger (bs ++ [b]) P' A)
| ledger_rollback bs bs1 P A :
    bs <> [] -> ledger_step (mkLedger (bs ++ bs1) P A) (mkLedger bs P A).

(** What holds of every ledger that grew from the chain [base]. *)
Record ledger_ok (base : list Block) (L : Ledger) : Prop := {
  lo_pool : ld_pool L ⊆ ld_accepted L;
  lo_chain h : h ∈ tx_hashes (ld_chain L) -> h ∈ tx_hashes base \/ h ∈ ld_accepted L }.

Lemma tx_hashes_app bs bs' : tx_hashes (bs ++ bs') = tx_hashes bs ++ tx_hashes bs'.
Proof. apply bind_app. Qed.

Lemma ledger_step_ok base L L' : ledger_ok base L -> ledger_step L L' -> ledger_ok base L'.
Proof.
  intros [Hp Hc] Hs. destruct Hs as [bs P A h P' Hin Hsub|bs P A P' Hsub|bs P A b P' _ _ _ Hb Hsub|bs bs1 P A _]; split; simpl in *.
  - set_solver.
  - intros x [?|?]%Hc; [by left|right; set_solver].
  - set_solver.
  - done.
  - set_solver.
  - intros x. rewrite tx_hashes_app, elem_of_app. intros [?%Hc|Hx]; [done|]. right. apply Hp, Hb, elem_of_list_to_set, Hx.
  - done.
  - intros x Hx. apply Hc. rewrite tx_hashes_app, elem_of_app. by left.
Qed.

Lemma ledger_steps_ok base L L' : ledger_ok base L -> rtc ledger_step L L' -> ledger_ok base L'.
Proof. intros Ho. induction 1 as [|L1 L2 L3 Hs _ IH]; [done|]. apply IH. by eapply ledger_step_ok. Qed.
End Ledger.

Section ApiProps.
Context `{!Evm} `{!Hashing} `{!StateStore} `{!NodeDb} `{!LogFilter} `{!BlockChannel} `{!SpecIdOrder}.
Context `{!HashIter TxMarker} `{!HashIter TxHash} `{!Channel} `{!RlpLib} `{!ApiLib}.
Variable config : NodeConfig.
#[local] Existing Instance rpc_bind.

(** The hypotheses on the library code: gas is a [u64], and headers of
    different numbers have different hashes. *)
Hypothesis evm_gas : forall c b e db r tr db',
  inspect_commit c b e db = (Ok r, tr, db') -> is_u64 (result_gas r).
Hypothesis separates : hash_separates.

(** ** Handlers that only read

    The checks of a submission change nothing but the cache of historic
    states. *)
Definition keeps (s s' : Api) : Prop := exists st, s' = set_backend (set_states st (backend s)) s.
Definition reads {A} (m : rpc A) : Prop := forall s r s', m s = Ret (r, s') -> keeps s s'.

Lemma keeps_refl s : keeps s s.
Proof. exists (states (backend s)). by destruct s as [[] ? ? ? ?]. Qed.
Lemma keeps_trans s1 s2 s3 : keeps s1 s2 -> keeps s2 s3 -> keeps s1 s3.
Proof. intros [st ->] [st' ->]. by exists st'. Qed.

Lemma bind_Ret {A B} (m : rpc A) (f : A -> rpc B) s r s' :
  (m ≫= f) s = Ret (r, s') ->
  (exists a s1, m s = Ret (Ok a, s1) /\ f a s1 = Ret (r, s')) \/
  (exists e, m s = Ret (Err e, s') /\ r = Err e).
Proof.
  unfold mbind, rpc_bind. intros ([[a|e] s1] & Hm & Hf)%exec_bind_Ret; [left; by eauto|right]. simplify_eq. by eauto.
Qed.
Lemma bind_Ok {A B} (m : rpc A) (f : A -> rpc B) s b s' :
  (m ≫= f) s = Ret (Ok b, s') -> exists a s1, m s = Ret (Ok a, s1) /\ f a s1 = Ret (Ok b, s').
Proof. intros [?|(e & _ & ?)]%bind_Ret; [done|]. simplify_eq. Qed.

Lemma reads_bind {A B} (m : rpc A) (f : A -> rpc B) : reads m -> (forall a, reads (f a)) -> reads (m ≫= f).
Proof.
  intros Hm Hf s r s' [(a & s1 & Ha & Hb)|(e & Ha & _)]%bind_Ret.
  - eapply keeps_trans; [by eapply Hm|by eapply Hf].
  - by eapply Hm.
Qed.
Lemma reads_try {A} (r : result A BlockchainError) : reads (try r).
Proof. intros s x s' [= _ <-]. apply keeps_refl. Qed.
Lemma reads_done {A} (a : A) : reads (done_with a).
Proof. intros s x s' [= _ <-]. apply keeps_refl. Qed.
Lemma reads_read {A} (f : Api -> A) : reads (read f).
Proof. intros s x s' [= _ <-]. apply keeps_refl. Qed.
Lemma reads_run {A} (e : exec A) : reads (run e).
Proof. intros s x s' (a & _ & [= _ <-])%exec_bind_Ret. apply keeps_refl. Qed.
Lemma reads_sender_of_request r : reads (sender_of_request r).
Proof. intros s x s' [= _ <-]. apply keeps_refl. Qed.
Lemma reads_sign_request a r : reads (sign_request a r).
Proof. intros s x s' [= _ <-]. apply keeps_refl. Qed.
Lemma reads_ensure t : reads (ensure_typed_transaction_supported t).
Proof. intros s x s' [= _ <-]. apply keeps_refl. Qed.
Lemma reads_build r n : reads (build_typed_tx_request r n).
Proof. intros s x s' (c & _ & (t & _ & [= _ <-])%exec_bind_Ret)%exec_bind_Ret. apply keeps_refl. Qed.
Lemma reads_validate now p : reads (validate_pool_transaction now p).
Proof.
  intros s x s'. unfold validate_pool_transaction. destruct (get_account _ _) as [a|e].
  - intros ([c b] & _ & (r & _ & [= _ <-])%exec_bind_Ret)%exec_bind_Ret. apply keeps_refl.
  - intros [= _ <-]. apply keeps_refl.
Qed.
Lemma reads_block_request b : reads (block_request config b).
Proof.
  intros s x s'. unfold block_request. assert (forall m : exec _, (r ← m; Ret (match r with Ok n => Ok (ReqNumber n) | Err e => Err e end, s)) =
    Ret (x, s') -> keeps s s') as Hm.
  { intros m (r & _ & [= _ <-])%exec_bind_Ret. apply keeps_refl. }
  destruct b as [[|[]]|]; try apply Hm. intros [= _ <-]. apply keeps_refl.
Qed.

Lemma with_database_states now r n x n' :
  with_database_at config now r n = Ret (x, n') -> exists st, n' = set_states st n.
Proof.
  assert (n = set_states (states n) n) as Hn by (by destruct n).
  unfold with_database_at. destruct r as [[txs|k]|].
  - intros ([st i] & _ & [= _ <-])%exec_bind_Ret. by eexists.
  - repeat (case_match; simplify_eq/=); intros Hx; try (apply exec_bind_Ret in Hx as (? & _ & Hx)); simplify_eq/=; by eexists.
  - repeat (case_match; simplify_eq/=); intros Hx; try (apply exec_bind_Ret in Hx as (? & _ & Hx)); simplify_eq/=; by eexists.
Qed.

Lemma reads_get_nonce now a r : reads (get_nonce config now a r).
Proof.
  intros s x s'. unfold get_nonce. destruct (match r with Some (ReqPending _) => _ | _ => _ end).
  - intros [= _ <-]. apply keeps_refl.
  - intros ([y n] & Hw%with_database_states & [= _ <-])%exec_bind_Ret. destruct Hw as [st ->]. by exists st.
Qed.

Lemma reads_transaction_count now a b : reads (get_transaction_count config now a b).
Proof.
  apply reads_bind; [apply reads_block_request|]. intros r.
  destruct (match r, fork config with ReqNumber _, Some _ => _ | _, _ => _ end); [apply reads_try|apply reads_get_nonce].
Qed.
Lemma reads_request_nonce now r a : reads (request_nonce config now r a).
Proof. apply reads_bind; [apply reads_transaction_count|]. intros n. apply reads_done. Qed.

Ltac solve_reads :=
  repeat first
    [ progress intros
    | apply reads_try | apply reads_done | apply reads_read | apply reads_run | apply reads_sender_of_request
    | apply reads_sign_request | apply reads_ensure | apply reads_build | apply reads_validate
    | apply reads_request_nonce | apply reads_bind
    | case_match ].

Lemma reads_prepare_send now r : reads (prepare_send config now r).
Proof. unfold prepare_send. solve_reads. Qed.
Lemma reads_prepare_unsigned now r : reads (prepare_unsigned config now r).
Proof. unfold prepare_unsigned. solve_reads. Qed.
Lemma reads_prepare_raw now d : reads (prepare_raw now d).
Proof. unfold prepare_raw. solve_reads. Qed.

(** ** What is submitted *)

(** A hash determines the sender and the nonce of the transaction; the
    all-zero signature has the recovery id 0. *)
Context (sender_of : TxHash -> Address) (nonce_of : TxHash -> Z) (dependent : TxHash -> bool).
Hypothesis names_signed : forall t a, recover t = Ok a ->
  sender_of (typed_transaction_hash t) = a /\ nonce_of (typed_transaction_hash t) = TypedTransaction.nonce t.
Hypothesis names_impersonated : forall t a,
  sender_of (impersonated_hash t a) = a /\ nonce_of (impersonated_hash t a) = TypedTransaction.nonce t.
Hypothesis recovery_zero : recovery_id IMPERSONATED_SIGNATURE = Ok 0.
#[local] Instance universe : Universe := nonce_universe sender_of nonce_of dependent hash_consistent.

(** The address of a wallet is recovered from what it signed. *)
Hypothesis wallets_honest : forall w req sig t,
  sign_transaction_sync w req = Ok sig -> build_typed_transaction recovery_id req sig = Ok t ->
  recover t = Ok (wallet_address w).

Definition request_nonce_of (r : TypedTransactionRequest) : Z :=
  match r with
  | LegacyReq m => LegacyTransactionRequest.nonce m
  | EIP2930Req m => EIP2930TransactionRequest.nonce m
  | EIP1559Req m => EIP1559TransactionRequest.nonce m
  end.

Lemma build_request_nonce r n s t s' :
  build_typed_tx_request r n s = Ret (Ok t, s') -> request_nonce_of t = n.
Proof.
  unfold build_typed_tx_request. intros (c & _ & (y & _ & Hy)%exec_bind_Ret)%exec_bind_Ret.
  destruct y as [[]|]; by simplify_eq/=.
Qed.

Lemma build_transaction_nonce r sig t :
  build_typed_transaction recovery_id r sig = Ok t -> TypedTransaction.nonce t = request_nonce_of r.
Proof. destruct r; simpl; repeat case_match; intros; by simplify_eq/=. Qed.

Lemma build_impersonated r t :
  build_typed_transaction recovery_id r IMPERSONATED_SIGNATURE = Ok t -> TypedTransaction.is_impersonated t = true.
Proof using recovery_zero.
  unfold TypedTransaction.is_impersonated. intros Ht. apply bool_decide_eq_true.
  destruct r; cbn [build_typed_transaction] in Ht; rewrite ?recovery_zero in Ht; by simplify_eq/=.
Qed.

(** A prepared submission provides the marker of its hash, and the pool's hash
    of it is the block's. *)
Definition prepared (x : PendingTransaction * list TxMarker * list TxMarker) : Prop :=
  let '(p, _, prov) := x in
  prov = [own (ptx_hash p)] /\ ptx_hash p = block_tx_hash (ptx_transaction p).

Lemma prepared_impersonated r t a n req :
  build_typed_transaction recovery_id r IMPERSONATED_SIGNATURE = Ok t -> request_nonce_of r = n ->
  prepared (pending_with_impersonated impersonated_hash t a, req, [to_marker n a]).
Proof using names_impersonated recovery_zero.
  intros Ht <-. unfold prepared. cbn. destruct (names_impersonated t a) as [-> ->].
  rewrite (build_transaction_nonce r _ t Ht). split; [done|]. unfold block_tx_hash, mtx_hash. cbn.
  by rewrite (build_impersonated r t Ht).
Qed.

Lemma prepared_signed t p a n req :
  pending_new typed_transaction_hash recover t = Ok p -> recover t = Ok a -> TypedTransaction.nonce t = n ->
  prepared (p, req, [to_marker n a]) /\ sender p = a /\ ptx_nonce p = n.
Proof using names_signed.
  unfold pending_new. intros Hp Ha <-. rewrite Ha in Hp. injection Hp as <-. unfold prepared. cbn.
  destruct (names_signed t a Ha) as [-> ->]. split_and!; try done. unfold block_tx_hash, mtx_hash. cbn.
  by destruct (TypedTransaction.is_impersonated t).
Qed.

Lemma run_Ok {A} (e : exec A) s a s' : run e s = Ret (Ok a, s') -> e = Ret a /\ s' = s.
Proof. intros (x & -> & Hx)%exec_bind_Ret. by simplify_eq. Qed.
Lemma try_Ok {A} (r : result A BlockchainError) s a s' : try r s = Ret (Ok a, s') -> r = Ok a /\ s' = s.
Proof. by intros [= -> <-]. Qed.
Lemma read_Ok {A} (f : Api -> A) s a s' : read f s = Ret (Ok a, s') -> a = f s /\ s' = s.
Proof. by intros [= <- <-]. Qed.
Lemma done_Ok {A} (x : A) s a s' : done_with x s = Ret (Ok a, s') -> a = x /\ s' = s.
Proof. by intros [= <- <-]. Qed.
Lemma from_sig_Ok {A} (r : result A string) a : from_sig r = Ok a -> r = Ok a.
Proof. destruct r; simpl; intros; by simplify_eq. Qed.
Lemma reads_same {A} (m : rpc A) s r s' : reads m -> m s = Ret (r, s') -> cheats s' = cheats s /\ signers s' = signers s.
Proof. intros Hr Hm. by destruct (Hr _ _ _ Hm) as [st ->]. Qed.

(** The signers keep every wallet under its own address, and impersonation is
    marked by the all-zero signature. *)
Definition accounts_ok (s : Api) : Prop :=
  CheatsManager.bypass_signature (cheats s) = IMPERSONATED_SIGNATURE /\ 
  Forall (fun sg => DevSigner.keyed (DevSigner.accounts sg)) (signers s).

Lemma sign_request_Ok a r s t s' :
  accounts_ok s -> sign_request a r s = Ret (Ok t, s') ->
  s' = s /\ recover t = Ok a /\ TypedTransaction.nonce t = request_nonce_of r.
Proof using wallets_honest.
  intros [_ Hh] [= Hs <-]. split; [done|]. destruct (signer_for a (signers s)) as [sg|] eqn:Hf; [|done].
  apply find_some in Hf as [Hin%list_elem_of_In _]. rewrite Forall_forall in Hh. specialize (Hh sg Hin a).
  unfold DevSigner.sign_transaction, DevSigner.with_wallet in Hs.
  destruct (DevSigner.accounts sg !! a) as [w|]; [|done]. specialize (Hh w eq_refl).
  destruct (sign_transaction_sync w r) as [sig|e] eqn:Hsig; [|done]. apply from_sig_Ok in Hs.
  split; [rewrite <- Hh; by eapply wallets_honest|by eapply build_transaction_nonce].
Qed.

Ltac bind_step H :=
  let a := fresh "a" in let t := fresh "t" in let Ha := fresh "Ha" in
  apply bind_Ok in H as (a & t & Ha & H).

Lemma prepare_unsigned_prepared now r s x s' :
  accounts_ok s -> prepare_unsigned config now r s = Ret (Ok x, s') -> prepared x.
Proof using names_impersonated recovery_zero.
  intros [Hsig _] Hx. unfold prepare_unsigned in Hx. bind_step Hx. apply try_Ok in Ha as [_ ->].
  bind_step Hx. destruct a0 as [nonce on_chain]. pose proof (reads_same _ _ _ _ (reads_request_nonce now r a) Ha) as [Hc1 _].
  bind_step Hx. pose proof (reads_same _ _ _ _ (reads_build r nonce) Ha0) as [Hc2 _]. apply build_request_nonce in Ha0.
  bind_step Hx. apply read_Ok in Ha1 as [-> ->]. rewrite Hc2, Hc1, Hsig in Hx.
  bind_step Hx. apply try_Ok in Ha1 as [Ht%from_sig_Ok ->]. do 2 bind_step Hx.
  bind_step Hx. bind_step Hx. apply run_Ok in Ha4 as [[<- _]%u256_as_u64_Ret ->]. apply done_Ok in Hx as [-> _].
  by eapply prepared_impersonated.
Qed.

Lemma prepare_raw_prepared now d s x s' : prepare_raw now d s = Ret (Ok x, s') -> prepared x.
Proof using names_signed.
  intros Hx. unfold prepare_raw in Hx. do 3 bind_step Hx. clear Ha Ha0 Ha1. bind_step Hx. apply try_Ok in Ha as [Hp%from_sig_Ok _].
  do 3 bind_step Hx. bind_step Hx. apply run_Ok in Ha2 as [[<- _]%u256_as_u64_Ret ->]. apply done_Ok in Hx as [-> _].
  assert (recover a0 = Ok (sender a2)) as Hr.
  { unfold pending_new in Hp. destruct (recover a0); by simplify_eq/=. }
  assert (ptx_nonce a2 = TypedTransaction.nonce a0) as ->.
  { unfold pending_new in Hp. rewrite Hr in Hp. by injection Hp as <-. }
  by apply (prepared_signed a0).
Qed.

Lemma prepare_send_prepared now r s x s' :
  accounts_ok s -> prepare_send config now r s = Ret (Ok x, s') -> prepared x.
Proof using names_impersonated names_signed recovery_zero wallets_honest.
  intros Hok Hx. unfold prepare_send in Hx. bind_step Hx.
  pose proof (reads_same _ _ _ _ (reads_sender_of_request r) Ha) as [Hc0 Hs0].
  bind_step Hx. destruct a0 as [nonce on_chain]. pose proof (reads_same _ _ _ _ (reads_request_nonce now r a) Ha0) as [Hc1 Hs1].
  bind_step Hx. pose proof (reads_same _ _ _ _ (reads_build r nonce) Ha1) as [Hc2 Hs2]. apply build_request_nonce in Ha1.
  assert (accounts_ok t1) as Hok2 by (unfold accounts_ok in *; by rewrite Hc2, Hc1, Hc0, Hs2, Hs1, Hs0).
  bind_step Hx. apply read_Ok in Ha2 as [_ ->]. bind_step Hx. rename Ha2 into Hpend. do 2 bind_step Hx.
  bind_step Hx. apply run_Ok in Ha4 as [[<- _]%u256_as_u64_Ret ->]. bind_step Hx. apply done_Ok in Hx as [-> _].
  destruct a1; bind_step Hpend.
  - apply read_Ok in Ha5 as [-> ->]. bind_step Hpend. rewrite (proj1 Hok2) in Ha5. apply try_Ok in Ha5 as [Ht%from_sig_Ok _].
    bind_step Hpend. apply done_Ok in Hpend as [-> _]. by eapply prepared_impersonated.
  - apply (sign_request_Ok a a0 t1) in Ha5 as (-> & Hrec & Hn); [|done]. bind_step Hpend.
    apply try_Ok in Hpend as [Hp%from_sig_Ok _]. eapply prepared_signed; [done|done|congruence].
Qed.

(** ** The simulation *)
Definition pool_hashes (p : Pool.t) : gset TxHash :=
  dom (ReadyTransactions.ready_tx (PoolInner.ready_transactions (Pool.inner p))) ∪
  dom (PendingTransactions.waiting_queue (PoolInner.pending_transactions (Pool.inner p))).

Lemma elem_pool_hashes p h : h ∈ pool_hashes p <-> pooled (Pool.inner p) h.
Proof. unfold pool_hashes, pooled. by rewrite elem_of_union, !elem_of_dom. Qed.

Record refines (L : Ledger) (s : Api) : Prop := {
  rf_node : node_inv (ld_chain L) (backend s);
  rf_pool : pool_inv (Pool.inner (pool s));
  rf_hashes : pool_hashes (pool s) = ld_pool L;
  rf_accounts : accounts_ok s }.

Lemma node_inv_ext bs n n' :
  storage n' = storage n -> BlockEnv.number (env_block n') = BlockEnv.number (env_block n) ->
  node_inv bs n -> node_inv bs n'.
Proof. intros Hs Hn [Hc Hnum Hu Ht]. split; rewrite ?Hs, ?Hn; done. Qed.

(** The changes of a node that the ledger does not see. *)
Lemma refines_keeps L s s' :
  storage (backend s') = storage (backend s) ->
  BlockEnv.number (env_block (backend s')) = BlockEnv.number (env_block (backend s)) ->
  Pool.inner (pool s') = Pool.inner (pool s) ->
  CheatsManager.bypass_signature (cheats s') = CheatsManager.bypass_signature (cheats s) -> signers s' = signers s ->
  refines L s -> refines L s'.
Proof.
  intros Hs Hn Hp Hc Hg [N P Q A]. split.
  - by eapply node_inv_ext.
  - by rewrite Hp.
  - unfold pool_hashes in *. by rewrite Hp.
  - unfold accounts_ok in *. by rewrite Hc, Hg.
Qed.

Lemma refines_reads {A} (m : rpc A) L s r s' : reads m -> m s = Ret (r, s') -> refines L s -> refines L s' /\ pool s' = pool s.
Proof. intros Hr Hm HL. destruct (Hr _ _ _ Hm) as [st ->]. split; [|done]. by apply (refines_keeps L s). Qed.

Lemma submit_sim L now tx s r s' :
  refines L s -> wf_tx tx -> budget (Pool.inner (pool s)) 1 -> submit now tx s = Ret (r, s') ->
  match r with
  | Ok h => exists P, ledger_step L (mkLedger (ld_chain L) P ({[h]} ∪ ld_accepted L)) /\
      refines (mkLedger (ld_chain L) P ({[h]} ∪ ld_accepted L)) s'
  | Err _ => refines L s'
  end.
Proof.
  intros HL Hwf Hb. pose proof HL as [N Hp Q A].
  destruct (PoolInv.add_transaction_spec now (Pool.inner (pool s)) tx Hp Hwf Hb) as (res & inn & Ha & Hi & Hsub & Hres).
  destruct (pool_add_inner now (pool s) tx res inn Ha) as (l & Hl). unfold submit. rewrite Hl. cbn. intros [= <- <-].
  destruct res as [a|e]; cbn.
  - exists (pool_hashes (Pool.mk inn l)). split.
    + destruct L as [bs P Acc]. cbn in *. apply ledger_admit.
      * rewrite elem_pool_hashes. cbn. destruct a as [rd|h]; cbn in *.
        { destruct Hres as (-> & Hr & _). left. apply fmap_Some in Hr as (? & ? & _). by eauto. }
        { destruct Hres as (-> & _ & Hq). right. rewrite Hq. by rewrite lookup_insert_is_Some'; left. }
      * intros h Hh%elem_pool_hashes. cbn in Hh. destruct (Hsub h Hh) as [Hh'| ->].
        { apply elem_of_union. right. rewrite <- Q. by apply elem_pool_hashes. }
        { apply elem_of_union. left. destruct a as [rd|h']; cbn in *; destruct Hres as (-> & _); set_solver. }
    + split; cbn; try done.
  - apply (refines_keeps L s); try done. cbn.
    destruct e; [by destruct Hres as (_ & -> & _)|by destruct Hres as (_ & -> & _)|done].
Qed.

(** *** Mining *)

(** The transactions that are handed to the miner. *)
Lemma iteration_hashes (r : ReadyTransactions.t) :
  ReadyTransactions.inv r ->
  NoDup (PoolTransaction.hash <$> iteration r) /\
  (forall t, t ∈ iteration r -> wf_tx t /\ is_Some (ReadyTransactions.ready_tx r !! PoolTransaction.hash t)).
Proof.
  intros Hi. destruct (iteration_spec r Hi) as (_ & Hperm & _).
  assert (forall h rt, ReadyTransactions.ready_tx r !! h = Some rt ->
    PoolTransaction.hash (ReadyTransaction.pool_tx rt) = h /\ wf_tx (ReadyTransaction.pool_tx rt)) as Hk.
  { intros h rt Hr. by apply (ReadyTransactions.iv_tx _ _ Hi). }
  split.
  - rewrite Hperm, <- !list_fmap_compose.
    rewrite (list_fmap_ext _ fst); [apply NoDup_fst_map_to_list|].
    intros i [h rt] Hl%list_elem_of_lookup_2%elem_of_map_to_list. by apply Hk.
  - intros t Ht. rewrite Hperm in Ht.
    apply list_elem_of_fmap in Ht as (rt & -> & ([h rt'] & -> & Hm%elem_of_map_to_list)%list_elem_of_fmap). cbn.
    destruct (Hk _ _ Hm) as [-> Hw]. by split.
Qed.

Lemma executed_sublist os :
  PoolTransaction.hash <$> (et_transaction <$> omap outcome_executed os) `sublist_of`
  PoolTransaction.hash <$> (outcome_tx <$> os).
Proof.
  induction os as [|o os IH]; [constructor|]. destruct o; simpl; by constructor.
Qed.

(** The block holds included transactions of the pool, each once. *)
Lemma mined_block_hashes bs now txs n o n' :
  node_inv bs n -> Forall hash_consistent txs -> NoDup (PoolTransaction.hash <$> txs) ->
  do_mine_block config now txs n = Ret (Some (o, n')) ->
  exists b, node_inv (bs ++ [b]) n' /\ Header.parent_hash (header b) = head_hash bs /\
    Header.number (header b) = Z.of_nat (length bs) /\
    tx_hashes [b] = PoolTransaction.hash <$> outcome_included o /\ NoDup (tx_hashes [b]) /\
    (forall t, t ∈ outcome_included o -> t ∈ txs).
Proof using evm_gas separates.
  intros I Hc Hnd Hm.
  destruct (mine_step config evm_gas separates bs now txs n o n' I Hm) as (r & os & [_ _ (inner & M3 & _) -> _ _ _] & I').
  destruct (executes_included _ _ _ _ _ _ _ _ M3) as (_ & Htx & _ & Hin).
  destruct M3 as (s1 & _ & Hos & _ & Hinc & _ & _ & _ & _ & _ & _ & Hp & _).
  exists (bi_block (ex_block r)). pose proof (ni_chain _ _ I) as C. destruct (chain_last_block _ _ C) as (b0 & Hl & _ & Hb0).
  assert (tx_hashes [bi_block (ex_block r)] = PoolTransaction.hash <$> ex_included r) as Hb.
  { unfold tx_hashes. simpl. rewrite app_nil_r, Htx, <- list_fmap_compose. apply list_fmap_ext. intros i t Ht.
    symmetry. apply (proj1 (Forall_forall _ _) Hc). apply Hin. by apply list_elem_of_lookup_2 in Ht. }
  split_and!; [done| | |exact Hb| |exact Hin].
  - rewrite Hp, Hb0. unfold head_hash. by rewrite Hl.
  - apply (ch_number _ _ (ni_chain _ _ I')). by rewrite list_lookup_middle.
  - rewrite Hb, Hinc. apply (sublist_NoDup _ (PoolTransaction.hash <$> (outcome_tx <$> os))); [by rewrite Hos|apply executed_sublist].
Qed.

(** A block of the transactions [batch], and the pool told about it. *)
Definition mine_batch (now : Z) (batch : list PoolTransaction.t) (s : Api) : exec (option (MinedBlockOutcome * Api)) :=
  r ← do_mine_block config now batch (backend s);
  match r with
  | None => Ret None
  | Some (outcome, n) =>
      '(_, p) ← Pool.on_mined_block (pool s) (outcome_included outcome) (outcome_invalid_txs outcome);
      Ret (Some (outcome, set_pool p (set_backend n s)))
  end.
Lemma mine_one_batch now s : mine_one config now s = option_map snd <$> mine_batch now (ready_transactions s) s.
Proof.
  unfold mine_one, mine_batch. destruct (do_mine_block _ _ _ _) as [[[o n]|]|w]; cbn; try done.
  by destruct (Pool.on_mined_block _ _ _) as [[res p]|w].
Qed.

(** Distinct transactions that are ready. *)
Definition ready_batch (batch : list PoolTransaction.t) (s : Api) : Prop :=
  NoDup (PoolTransaction.hash <$> batch) /\ forall t, t ∈ batch -> t ∈ ready_transactions s.

Lemma mine_batch_sim L now batch s o s' :
  refines L s -> budget (Pool.inner (pool s)) 0 -> ready_batch batch s -> mine_batch now batch s = Ret (Some (o, s')) ->
  exists b P, ledger_step L (mkLedger (ld_chain L ++ [b]) P (ld_accepted L)) /\
    refines (mkLedger (ld_chain L ++ [b]) P (ld_accepted L)) s' /\ budget (Pool.inner (pool s')) 0 /\
    (forall t, t ∈ outcome_included o \/ t ∈ outcome_invalid_txs o -> ~ pooled (Pool.inner (pool s')) (PoolTransaction.hash t)) /\
    (forall h, pooled (Pool.inner (pool s')) h -> pooled (Pool.inner (pool s)) h) /\
    kept_from (PoolInner.ready_transactions (Pool.inner (pool s))) (PoolInner.ready_transactions (Pool.inner (pool s'))).
Proof using evm_gas separates.
  intros [I Hp Q A] Hb [Hnd Hbatch]. unfold mine_batch. intros ([[o' n]|] & Hm & Hx)%exec_bind_Ret; [|done].
  destruct (iteration_hashes _ (pi_ready _ Hp)) as [_ Hit].
  destruct (mined_block_hashes (ld_chain L) now batch (backend s) o' n I) as (b & I' & B1 & B2 & B3 & B4 & B5).
  { apply Forall_forall. intros t Ht. by destruct (Hit t (Hbatch t Ht)) as [(_ & _ & ?) _]. }
  { done. }
  { done. }
  assert (forall t, t ∈ outcome_included o' -> wf_tx t /\
    is_Some (ReadyTransactions.ready_tx (PoolInner.ready_transactions (Pool.inner (pool s))) !! PoolTransaction.hash t)) as Hinc
    by (intros t Ht; by apply Hit, Hbatch, B5).
  assert (Forall wf_tx (outcome_included o')) as Hwf by (apply Forall_forall; intros t Ht; by apply Hinc).
  destruct (on_mined_block_spec (pool s) (outcome_included o') (outcome_invalid_txs o') Hp Hb Hwf)
    as (res & p' & He & Hp' & _ & Hsub & Hinv & Hgone & Hb').
  rewrite He in Hx. cbn in Hx. simplify_eq. exists b, (pool_hashes p'). split_and!; [| |done| |done|].
  - destruct L as [bs P Acc]. cbn [ld_chain ld_pool ld_accepted] in *. apply ledger_mine; [done..| |].
    + intros h. rewrite elem_of_list_to_set, B3. intros (t & -> & Ht)%list_elem_of_fmap. rewrite <- Q.
      apply elem_pool_hashes. left. by apply Hinc.
    + intros h Hh%elem_pool_hashes. apply elem_of_difference. split.
      * rewrite <- Q. by apply elem_pool_hashes, Hsub.
      * rewrite elem_of_list_to_set, B3. intros (t & -> & Ht)%list_elem_of_fmap. apply (Hgone t Ht); [by apply Hinc|done].
  - by split.
  - intros t [Ht|Ht]; [apply (Hgone t Ht); by apply Hinc|by apply Hinv].
  - eapply on_mined_block_promotes_nothing; [done|done| |done]. intros t Ht. by apply Hinc.
Qed.

Lemma all_ready_batch L s : refines L s -> ready_batch (ready_transactions s) s.
Proof. intros HL. split; [|done]. apply iteration_hashes, (rf_pool _ _ HL). Qed.

Lemma mine_one_sim L now s s' :
  refines L s -> budget (Pool.inner (pool s)) 0 -> mine_one config now s = Ret (Some s') ->
  exists b P, ledger_step L (mkLedger (ld_chain L ++ [b]) P (ld_accepted L)) /\
    refines (mkLedger (ld_chain L ++ [b]) P (ld_accepted L)) s' /\ budget (Pool.inner (pool s')) 0.
Proof using evm_gas separates.
  intros HL Hb. rewrite mine_one_batch. destruct (mine_batch now _ s) as [[[o s1]|]|w] eqn:Hm; [|done..].
  intros [= <-]. destruct (mine_batch_sim L now _ s o s1 HL Hb (all_ready_batch L s HL) Hm) as (b & P & Hs & HL' & Hb' & _).
  by exists b, P.
Qed.

Lemma mine_blocks_sim blocks : forall clock interval L s s',
  refines L s -> budget (Pool.inner (pool s)) 0 -> mine_blocks config clock interval blocks s = Ret (Some s') ->
  exists L', nsteps ledger_step blocks L L' /\ refines L' s' /\ ld_accepted L' = ld_accepted L /\
    length (ld_chain L') = (length (ld_chain L) + blocks)%nat.
Proof using evm_gas separates.
  induction blocks as [|blocks IH]; intros clock interval L s s' HL Hb; cbn [mine_blocks].
  { intros [= <-]. exists L. split_and!; [constructor|done|done|lia]. }
  intros ([s1|] & Hm & Hx)%exec_bind_Ret; [|done].
  destruct (mine_one_sim L _ s s1 HL Hb Hm) as (b & P & Hstep & HL1 & Hb1).
  match type of Hx with mine_blocks _ _ _ _ ?x = _ => set (s2 := x) in * end.
  assert (refines (mkLedger (ld_chain L ++ [b]) P (ld_accepted L)) s2 /\ budget (Pool.inner (pool s2)) 0) as [HL2 Hb2].
  { unfold s2. destruct interval as [i|]; [|done]. split; [|done]. by apply (refines_keeps _ s1). }
  destruct (IH _ _ _ _ _ HL2 Hb2 Hx) as (L' & Hs & HL' & HA & Hlen). exists L'.
  split_and!; [|done|done|].
  - econstructor; [exact Hstep|exact Hs].
  - rewrite Hlen. cbn. rewrite length_app. simpl. lia.
Qed.

(** *** Dropping and reverting *)
Lemma drop_sim L h s r s' :
  refines L s -> anvil_drop_transaction h s = Ret (r, s') ->
  exists P, ledger_step L (mkLedger (ld_chain L) P (ld_accepted L)) /\
    refines (mkLedger (ld_chain L) P (ld_accepted L)) s'.
Proof.
  intros [N Hp Q A]. unfold anvil_drop_transaction.
  destruct (drop_transaction_spec (pool s) h Hp) as (o & r' & rem & -> & Hi & Hc & _). cbn. intros [= _ <-].
  match goal with |- context [set_pool ?p _] => exists (pool_hashes p) end. split.
  - destruct L as [bs P Acc]. apply ledger_discard. cbn in Q. rewrite <- Q.
    intros x [Hx|Hx]%elem_pool_hashes; apply elem_pool_hashes; [left|by right].
    by eapply cleared_ready_subset.
  - by split.
Qed.

Lemma revert_db_node id n r n' :
  revert_db id n = Ret (r, n') -> storage n' = storage n /\ env_block n' = env_block n.
Proof. unfold revert_db. intros ([ok d] & _ & Hx)%exec_bind_Ret. by simplify_eq. Qed.

(** Reverting to a snapshot whose block is on the chain rolls the chain back
    to it. *)
Lemma revert_node bs0 bs1 now id n r n' :
  node_inv (bs0 ++ bs1) n -> bs0 <> [] ->
  active_snapshots n !! id = Some (Z.of_nat (length bs0) - 1, head_hash bs0) ->
  revert_snapshot config now id n = Ret (r, n') -> node_inv bs0 n'.
Proof using evm_gas separates.
  intros I Hne Ha. unfold revert_snapshot. rewrite Ha.
  pose proof (ni_chain _ _ I) as C. destruct (ch_best _ _ C) as [Hb _].
  match goal with |- context [block_by_hash config ?x _] => set (n2 := x) end.
  destruct (chain_unwind bs0 bs1 (storage n) (best_hash (storage n)) (best_number (storage n)) separates Hne) as (Cu & _).
  { by destruct (storage n). }
  assert (storage n2 = unwind (Z.of_nat (length bs0) - 1) (head_hash bs0) (Z.of_nat (length (bs0 ++ bs1)) - 1) (storage n)) as Hs2.
  { unfold n2. cbn. unfold node_best_number. cbn. rewrite (ni_number _ _ I), Hb, decide_True; [done|].
    rewrite <- Hb. apply (ni_u64 _ _ I). }
  rewrite <- Hs2 in Cu. destruct (ch_best _ _ Cu) as [Hb2 _].
  assert (best_number (storage n2) <= U64_MAX) as Hu.
  { pose proof (ni_u64 _ _ I). rewrite length_app in Hb. lia. }
  destruct (block_by_hash_head config bs0 n2 Cu Hu) as (eb & b' & Heb & Hl' & Hts).
  assert (best_hash (storage n2) = head_hash bs0) as Hbh.
  { unfold head_hash. rewrite Hl'. by apply (chain_last bs0). }
  rewrite <- Hbh, Heb. cbn -[revert_db]. intros (ts & _ & [Hs He]%revert_db_node)%exec_bind_Ret. cbn in Hs, He. split; rewrite ?Hs, ?He.
  - exact Cu.
  - cbn. change (Z.of_nat (length bs0) - 1 = best_number (storage n2)). by rewrite Hb2.
  - exact Hu.
  - intros b Hin. apply (ni_time _ _ I). apply elem_of_app. by left.
Qed.

(** The snapshot is unknown, or its block is on the chain at its number. *)
Definition revertible (id : Z) (n : Node) : Prop :=
  forall k h, active_snapshots n !! id = Some (k, h) -> hashes (storage n) !! k = Some h.

Lemma revert_sim L now id s r s' :
  refines L s -> revertible id (backend s) -> evm_revert config now id s = Ret (r, s') ->
  exists bs, rtc ledger_step L (mkLedger bs (ld_pool L) (ld_accepted L)) /\
    refines (mkLedger bs (ld_pool L) (ld_accepted L)) s'.
Proof using evm_gas separates.
  intros HL Hrev. pose proof HL as [I Hp Q A]. unfold evm_revert. intros ([x n] & Hr & Hx)%exec_bind_Ret. simplify_eq.
  destruct (active_snapshots (backend s) !! id) as [[k h]|] eqn:Ha.
  - pose proof (Hrev k h Ha) as Hh. rewrite (ch_hashes _ _ (ni_chain _ _ I)) in Hh. case_decide as Hk; [|done].
    apply fmap_Some in Hh as (b & Hb & ->). apply lookup_lt_Some in Hb as Hlt.
    set (bs0 := take (S (Z.to_nat k)) (ld_chain L)).
    assert (length bs0 = S (Z.to_nat k)) as Hlen by (unfold bs0; rewrite length_take; lia).
    assert (head_hash bs0 = header_hash (header b)) as Hhd.
    { unfold head_hash, bs0. by rewrite (take_S_r _ _ _ Hb), last_snoc. }
    exists bs0. destruct L as [bs P Acc]. cbn [ld_chain ld_pool ld_accepted] in *.
    assert (bs = bs0 ++ drop (S (Z.to_nat k)) bs) as Hbs by (symmetry; apply take_drop). split.
    + apply rtc_once. rewrite Hbs at 1. apply ledger_rollback. by destruct bs0.
    + split; [|done..]. cbn. rewrite Hbs in I. eapply (revert_node bs0 _ now id); [exact I|by destruct bs0| |exact Hr].
      rewrite Ha, Hhd. do 2 f_equal. lia.
  - exists (ld_chain L). split; [by destruct L|]. unfold revert_snapshot in Hr. rewrite Ha in Hr.
    destruct (revert_db_node _ _ _ _ Hr) as [Hs He]. destruct L. apply (refines_keeps _ s); try done. cbn. by rewrite He.
Qed.

(** *** All handlers *)
Inductive api_op :=
| SendTransaction (now : Z) (request : EthTransactionRequest.t)
| SendUnsignedTransaction (now : Z) (request : EthTransactionRequest.t)
| SendRawTransaction (now : Z) (data : list byte)
| EvmMine (clock : nat -> Z) (opts : option EvmMineOptions)
| AnvilMine (clock : nat -> Z) (num_blocks interval : option Z)
| DropTransaction (hash : TxHash)
| Snapshot
| Revert (now id : Z)
| SetNextBlockTimestamp (seconds : Z)
| IncreaseTime (seconds : Z)
| SetTime (now timestamp : Z)
| SetBlockTimestampInterval (seconds : Z)
| RemoveBlockTimestampInterval
| SetBlockGasLimit (gas_limit : Z)
| SetCoinbase (address : Address)
| SetBlock (block_number : Z)
| SetMinGasPrice (gas : Z)
| SetNextBlockBaseFee (basefee : Z)
| ImpersonateAccount (address : Address)
| StopImpersonatingAccount (address : Address)
| AutoImpersonateAccount (enabled : bool).

(** The hash of an accepted submission, and the state afterwards. *)
Definition submitting (m : rpc TxHash) (s : Api) : exec (option (option TxHash * Api)) :=
  '(r, s) ← m s; Ret (Some (match r with Ok h => Some h | Err _ => None end, s)).
Definition answering {A} (m : rpc A) (s : Api) : exec (option (option TxHash * Api)) :=
  '(_, s) ← m s; Ret (Some (None, s)).
Definition mining {A} (m : Api -> exec (option (A * Api))) (s : Api) : exec (option (option TxHash * Api)) :=
  o ← m s; Ret (match o with Some (_, s) => Some (None, s) | None => None end).

Definition run_api (op : api_op) : Api -> exec (option (option TxHash * Api)) :=
  match op with
  | SendTransaction now request => submitting (send_transaction config now request)
  | SendUnsignedTransaction now request => submitting (eth_send_unsigned_transaction config now request)
  | SendRawTransaction now data => submitting (send_raw_transaction now data)
  | EvmMine clock opts => mining (do_evm_mine config clock opts)
  | AnvilMine clock n i => mining (anvil_mine config clock n i)
  | DropTransaction hash => answering (anvil_drop_transaction hash)
  | Snapshot => answering evm_snapshot
  | Revert now id => answering (evm_revert config now id)
  | SetNextBlockTimestamp seconds => answering (evm_set_next_block_timestamp seconds)
  | IncreaseTime seconds => answering (evm_increase_time seconds)
  | SetTime now timestamp => answering (evm_set_time now timestamp)
  | SetBlockTimestampInterval seconds => answering (evm_set_block_timestamp_interval seconds)
  | RemoveBlockTimestampInterval => answering evm_remove_block_timestamp_interval
  | SetBlockGasLimit gas_limit => answering (evm_set_block_gas_limit gas_limit)
  | SetCoinbase address => answering (anvil_set_coinbase address)
  | SetBlock block_number => answering (anvil_set_block block_number)
  | SetMinGasPrice gas => answering (anvil_set_min_gas_price gas)
  | SetNextBlockBaseFee basefee => answering (anvil_set_next_block_base_fee_per_gas basefee)
  | ImpersonateAccount address => answering (anvil_impersonate_account address)
  | StopImpersonatingAccount address => answering (anvil_stop_impersonating_account address)
  | AutoImpersonateAccount enabled => answering (anvil_auto_impersonate_account enabled)
  end.

(** A transaction is submitted with the same requirements whenever it is
    submitted. *)
Definition steady (m : rpc (PendingTransaction * list TxMarker * list TxMarker)) (s : Api) : Prop :=
  forall p req prov s', m s = Ret (Ok (p, req, prov), s') -> req = requires_of (ptx_hash p).

Definition steady_check (m : rpc (PendingTransaction * list TxMarker * list TxMarker)) (s : Api) : bool :=
  match m s with
  | Ret (Ok (p, req, _), _) => bool_decide (req = requires_of (ptx_hash p))
  | _ => true
  end.
Lemma steady_check_ok m s : steady_check m s = true -> steady m s.
Proof. unfold steady_check, steady. intros Hc p req prov s' Hm. rewrite Hm in Hc. by apply bool_decide_eq_true in Hc. Qed.

(** Fewer than 2^64 transactions become ready; submissions are steady; a
    snapshot is reverted to only while its block is on the chain; and the number
    of the environment is not moved away from the head. *)
Definition api_allowed (op : api_op) (s : Api) : Prop :=
  budget (Pool.inner (pool s)) 1 /\
  match op with
  | SendTransaction now request => steady (prepare_send config now request) s
  | SendUnsignedTransaction now request => steady (prepare_unsigned config now request) s
  | SendRawTransaction now data => steady (prepare_raw now data) s
  | Revert _ id => revertible id (backend s)
  | SetBlock block_number => block_number = BlockEnv.number (env_block (backend s))
  | _ => True
  end.

Lemma submitting_sim L (m : rpc (PendingTransaction * list TxMarker * list TxMarker)) now s o s' :
  refines L s -> budget (Pool.inner (pool s)) 1 -> reads m -> steady m s ->
  (forall x s1, m s = Ret (Ok x, s1) -> prepared x) ->
  submitting ('(p, req, prov) ← m; add_pending_transaction now p req prov) s = Ret (Some (o, s')) ->
  exists L', rtc ledger_step L L' /\ refines L' s' /\
    ld_accepted L' = match o with Some h => {[h]} ∪ ld_accepted L | None => ld_accepted L end.
Proof.
  intros HL Hb Hr Hst Hprep. unfold submitting. intros ([r s2] & Hm & Hx)%exec_bind_Ret. simplify_eq.
  apply bind_Ret in Hm as [([[p req] prov] & s1 & Hm1 & Hm2)|(e & Hm1 & ->)].
  - destruct (refines_reads m L s _ s1 Hr Hm1 HL) as [HL1 Hpool].
    apply bind_Ret in Hm2 as [(ord & s3 & [-> ->]%read_Ok & Hsub)|(e & Hm2 & ->)]; [|by simplify_eq].
    destruct (Hprep _ _ Hm1) as [Hprov Hh].
    eapply (submit_sim L now) in Hsub; [|done| |by rewrite Hpool].
    + destruct r as [h|e]; [|by exists L]. destruct Hsub as (P & Hstep & HL'). eexists. split_and!; [by apply rtc_once|done|done].
    + split_and!; [exact Hprov|by eapply Hst|exact Hh].
  - destruct (refines_reads m L s _ s' Hr Hm1 HL) as [HL1 _]. by exists L.
Qed.

(** The outcome [o], [s'] of an operation is one of the ledger. *)
Definition simulated (L : Ledger) (o : option TxHash) (s' : Api) : Prop :=
  exists L', rtc ledger_step L L' /\ refines L' s' /\
    ld_accepted L' = match o with Some h => {[h]} ∪ ld_accepted L | None => ld_accepted L end.

Lemma answering_sim {A} L (m : rpc A) s o s' :
  (forall r s1, m s = Ret (r, s1) -> simulated L None s1) -> answering m s = Ret (Some (o, s')) -> simulated L o s'.
Proof. intros Hm. unfold answering. intros ([r s1] & Hr & Hx)%exec_bind_Ret. simplify_eq. by eapply Hm. Qed.

Lemma simulated_keeps L s s' :
  refines L s -> storage (backend s') = storage (backend s) ->
  BlockEnv.number (env_block (backend s')) = BlockEnv.number (env_block (backend s)) ->
  Pool.inner (pool s') = Pool.inner (pool s) ->
  CheatsManager.bypass_signature (cheats s') = CheatsManager.bypass_signature (cheats s) -> signers s' = signers s ->
  simulated L None s'.
Proof. intros HL Hs Hn Hp Hc Hg. exists L. split_and!; [done|by apply (refines_keeps L s)|done]. Qed.

Lemma mining_sim {A} L (m : Api -> exec (option (A * Api))) s o s' :
  (forall r s1, m s = Ret (Some (r, s1)) -> simulated L None s1) -> mining m s = Ret (Some (o, s')) -> simulated L o s'.
Proof. intros Hm. unfold mining. intros ([[r s1]|] & Hr & Hx)%exec_bind_Ret; simplify_eq. by eapply Hm. Qed.

Lemma mine_blocks_simulated blocks clock interval L s s' :
  refines L s -> budget (Pool.inner (pool s)) 0 -> mine_blocks config clock interval blocks s = Ret (Some s') ->
  simulated L None s'.
Proof using evm_gas separates.
  intros HL Hb Hm. destruct (mine_blocks_sim blocks clock interval L s s' HL Hb Hm) as (L' & Hs & HL' & HA & _).
  exists L'. split_and!; [apply rtc_nsteps_2 in Hs; done|done|done].
Qed.

Lemma budget_le p : budget p 1 -> budget p 0.
Proof. unfold budget. lia. Qed.

Lemma set_timestamp_sim L ts s x s1 :
  refines L s ->
  match ts with Some ts => evm_set_next_block_timestamp ts s | None => Ret (Ok tt, s) end = Ret (x, s1) ->
  refines L s1 /\ pool s1 = pool s.
Proof.
  intros HL Hts. destruct ts as [ts|]; [|by simplify_eq]. unfold evm_set_next_block_timestamp in Hts.
  destruct (TimeManager.set_next_block_timestamp _ _) as [y t]. simplify_eq. split; [|done]. by apply (refines_keeps L s).
Qed.

Lemma evm_mine_sim L clock opts s r s' :
  refines L s -> budget (Pool.inner (pool s)) 0 -> do_evm_mine config clock opts s = Ret (Some (r, s')) -> simulated L None s'.
Proof using evm_gas separates.
  intros HL Hb. unfold do_evm_mine.
  destruct (match opts with None => _ | Some _ => _ end) as [ts blocks].
  intros ([x s1] & Hts & Hx)%exec_bind_Ret.
  destruct (set_timestamp_sim L ts s x s1 HL Hts) as [HL1 Hp1].
  destruct x as [u|e]; [|simplify_eq; by exists L].
  apply exec_bind_Ret in Hx as ([s2|] & Hm & Hx); simplify_eq/=. eapply mine_blocks_simulated; [done| |done]. by rewrite Hp1.
Qed.

Lemma anvil_mine_sim L clock n i s r s' :
  refines L s -> budget (Pool.inner (pool s)) 0 -> anvil_mine config clock n i s = Ret (Some (r, s')) -> simulated L None s'.
Proof using evm_gas separates.
  intros HL Hb. unfold anvil_mine. intros (x & _ & Hx)%exec_bind_Ret. case_decide; [simplify_eq; by exists L|].
  apply exec_bind_Ret in Hx as (blocks & _ & ([s2|] & Hm & Hx)%exec_bind_Ret); simplify_eq/=.
  by eapply mine_blocks_simulated.
Qed.

Lemma run_api_sim L op s o s' :
  refines L s -> api_allowed op s -> run_api op s = Ret (Some (o, s')) -> simulated L o s'.
Proof using evm_gas separates names_signed names_impersonated recovery_zero wallets_honest.
  intros HL [Hb Hop]. pose proof (budget_le _ Hb) as Hb0. pose proof (rf_accounts _ _ HL) as Hacc.
  destruct op; cbn [run_api api_allowed] in *; (apply mining_sim || apply answering_sim || apply submitting_sim || idtac);
    try done; try (intros r s1 Hx).
  - apply reads_prepare_send.
  - by eapply prepare_send_prepared.
  - apply reads_prepare_unsigned.
  - by eapply prepare_unsigned_prepared.
  - apply reads_prepare_raw.
  - by eapply prepare_raw_prepared.
  - by eapply evm_mine_sim.
  - by eapply anvil_mine_sim.
  - destruct (drop_sim L _ s r s1 HL Hx) as (P & Hs & HL'). eexists. split_and!; [by apply rtc_once|done|done].
  - unfold evm_snapshot, create_snapshot in Hx. destruct (MemDb.snapshot _) as [i d]. simplify_eq. by apply (simulated_keeps L s).
  - destruct (revert_sim L _ _ s r s1 HL Hop Hx) as (bs & Hs & HL'). eexists. by split_and!.
  - unfold evm_set_next_block_timestamp in Hx. destruct (TimeManager.set_next_block_timestamp _ _). simplify_eq. by apply (simulated_keeps L s).
  - unfold evm_increase_time in Hx. destruct (TimeManager.increase_time _ _). simplify_eq. by apply (simulated_keeps L s).
  - apply exec_bind_Ret in Hx as (c & _ & Hx). cbn in Hx. simplify_eq. by apply (simulated_keeps L s).
  - injection Hx as _ <-. by apply (simulated_keeps L s).
  - unfold evm_remove_block_timestamp_interval in Hx. destruct (TimeManager.remove_block_timestamp_interval _). simplify_eq.
    by apply (simulated_keeps L s).
  - injection Hx as _ <-. by apply (simulated_keeps L s).
  - injection Hx as _ <-. by apply (simulated_keeps L s).
  - injection Hx as _ <-. by apply (simulated_keeps L s).
  - apply bind_Ret in Hx as [(b & t & [-> ->]%read_Ok & Hx)|(e & Hx & _)]; [|done].
    destruct (is_eip1559 _); injection Hx as _ <-; by apply (simulated_keeps L s).
  - apply bind_Ret in Hx as [(b & t & [-> ->]%read_Ok & Hx)|(e & Hx & _)]; [|done].
    destruct (is_eip1559 _); injection Hx as _ <-; by apply (simulated_keeps L s).
  - unfold anvil_impersonate_account, CheatsManager.backend_impersonate, CheatsManager.impersonate in Hx.
    repeat case_match; simplify_eq; by apply (simulated_keeps L s).
  - injection Hx as _ <-. by apply (simulated_keeps L s).
  - injection Hx as _ <-. by apply (simulated_keeps L s).
Qed.

(** ** Theorems *)

(** A sequence of requests, and the hashes of the submissions that were
    accepted. *)
Inductive api_run : Api -> list TxHash -> Api -> Prop :=
| api_run_nil s : api_run s [] s
| api_run_cons s op o s1 hs s2 :
    api_allowed op s -> run_api op s = Ret (Some (o, s1)) -> api_run s1 hs s2 -> api_run s (option_list o ++ hs) s2.

Lemma api_run_sim s hs s' : api_run s hs s' -> forall L,
  refines L s -> exists L', rtc ledger_step L L' /\ refines L' s' /\ ld_accepted L' = list_to_set hs ∪ ld_accepted L.
Proof using evm_gas separates names_signed names_impersonated recovery_zero wallets_honest.
  induction 1 as [s|s op o s1 hs s2 Ha Hr _ IH]; intros L HL.
  { exists L. split_and!; [done|done|set_solver]. }
  destruct (run_api_sim L op s o s1 HL Ha Hr) as (L1 & Hs1 & HL1 & HA1).
  destruct (IH L1 HL1) as (L2 & Hs2 & HL2 & HA2). exists L2. split_and!; [by etransitivity|done|].
  rewrite HA2, HA1. destruct o; simpl; set_solver.
Qed.

(** C6: The node refines the ledger: when a request of the RPC layer is served
    (submissions of all three kinds, mining, dropping, snapshots and reverts,
    changes of the clock, the environment and the impersonated accounts), its
    effect on the chain and the pool is one the ledger can make, and a submission
    is accepted by the ledger exactly if the handler returns its hash.  Excepted
    are: submitting a transaction again with other requirements than before;
    reverting to a snapshot whose block is no longer on the chain, because an
    earlier revert removed it ([stale_snapshot_loses_head]); moving the block
    number away from the head with [anvil_setBlock]; and more than 2^64 ready
    transactions.  Assumed of the libraries: a hash determines the sender and the
    nonce of a transaction and the number of a header, the signature of a wallet
    recovers to the wallet's address, and the EVM's gas fits in a u64.  The
    signers of the node keep every wallet under its own address, and impersonation
    is marked by the all-zero signature, whose recovery id is 0. *)
Theorem api_refines_ledger L op s o s' :
  refines L s -> api_allowed op s -> run_api op s = Ret (Some (o, s')) ->
  exists L', rtc ledger_step L L' /\ refines L' s' /\
    ld_accepted L' = match o with Some h => {[h]} ∪ ld_accepted L | None => ld_accepted L end.
Proof using evm_gas separates names_signed names_impersonated recovery_zero wallets_honest. apply run_api_sim. Qed.

(** ** Where mined transactions come from

    Without any condition on the requests: the pool holds only transactions whose
    hash was returned, and so do the blocks that are mined from it. *)
Definition accepted_by (A : gset TxHash) (t : PoolTransaction.t) : Prop := hash_consistent t /\ PoolTransaction.hash t ∈ A.
Record traced (base A : gset TxHash) (s : Api) : Prop := {
  td_accounts : accounts_ok s;
  td_pool : pool_all hash_consistent (accepted_by A) (Pool.inner (pool s));
  td_blocks h b t : blocks (storage (backend s)) !! h = Some b -> t ∈ transactions b -> block_tx_hash t ∈ base ∪ A }.
Definition with_answer (o : option TxHash) (A : gset TxHash) : gset TxHash := match o with Some h => {[h]} ∪ A | None => A end.

Lemma pool_all_impl {C Q Q' : PoolTransaction.t -> Prop} p : (forall t, Q t -> Q' t) -> pool_all C Q p -> pool_all C Q' p.
Proof.
  intros HQ [[P1 P2] P3]. split; [split; [|done]|]; (eapply map_Forall_impl; [eassumption|]); cbn; intros k t [? ?]; auto.
Qed.
Lemma traced_keeps base A s s' :
  blocks (storage (backend s')) ⊆ blocks (storage (backend s)) -> Pool.inner (pool s') = Pool.inner (pool s) ->
  CheatsManager.bypass_signature (cheats s') = CheatsManager.bypass_signature (cheats s) -> signers s' = signers s ->
  traced base A s -> traced base A s'.
Proof.
  intros Hb Hp Hc Hg [T1 T2 T3]. split.
  - unfold accounts_ok in *. by rewrite Hc, Hg.
  - by rewrite Hp.
  - intros h b t Hh. eapply T3. by eapply lookup_weaken.
Qed.
Lemma traced_reads {A} (m : rpc A) base acc s r s' : reads m -> m s = Ret (r, s') -> traced base acc s -> traced base acc s'.
Proof. intros Hr Hm HT. destruct (Hr _ _ _ Hm) as [st ->]. by apply (traced_keeps base acc s). Qed.

Lemma submitting_traced base A (m : rpc (PendingTransaction * list TxMarker * list TxMarker)) now s o s' :
  traced base A s -> reads m -> (forall x s1, m s = Ret (Ok x, s1) -> prepared x) ->
  submitting ('(p, req, prov) ← m; add_pending_transaction now p req prov) s = Ret (Some (o, s')) -> traced base (with_answer o A) s'.
Proof.
  intros HT Hr Hprep. unfold submitting. intros ([r s2] & Hm & Hx)%exec_bind_Ret. simplify_eq.
  apply bind_Ret in Hm as [([[p req] prov] & s1 & Hm1 & Hm2)|(e & Hm1 & ->)]; [|by eapply traced_reads].
  pose proof (traced_reads m base A s _ s1 Hr Hm1 HT) as [T1 T2 T3]. destruct (Hprep _ _ Hm1) as [_ Hh].
  apply bind_Ret in Hm2 as [(ord & s3 & [-> ->]%read_Ok & Hsub)|(e & Hm2 & ->)]; [|by simplify_eq].
  unfold submit in Hsub. apply exec_bind_Ret in Hsub as ([res pl] & Ha & Hsub). simplify_eq.
  match type of Ha with Pool.add_transaction _ _ ?t = _ => set (tx := t) in * end.
  assert (hash_consistent tx) as Htx by exact Hh.
  destruct res as [a|e]; cbn [with_answer].
  - rewrite (pool_add_hash _ _ _ _ _ Ha). split; [done| |].
    + eapply pool_add_all; [by intros t [? _]| |split; [exact Htx|apply elem_of_union_l, elem_of_singleton; reflexivity]|exact Ha].
      eapply pool_all_impl; [|exact T2]. intros t [? ?]. split; [done|by apply elem_of_union_r].
    + intros h b t Hb Ht. pose proof (T3 h b t Hb Ht) as Hin. revert Hin. rewrite !elem_of_union. tauto.
  - split; [done| |done]. eapply pool_add_refused; [by intros t [? _]|exact T2|exact Htx|exact Ha].
Qed.

Lemma mine_block_from now txs n o n' : do_mine_block config now txs n = Ret (Some (o, n')) ->
  exists h b, blocks (storage n') = <[h := b]> (blocks (storage n)) /\
    forall t, t ∈ transactions b -> exists x, x ∈ txs /\ t = ptx_transaction (PoolTransaction.pending_transaction x).
Proof using evm_gas.
  unfold do_mine_block. intros ([ts tm] & _ & Hm)%exec_bind_Ret. destruct (store_state config n) as [st|]; [|done].
  apply exec_bind_Ret in Hm as ([r inner] & Hex & Hm). destruct (execute_spec _ _ _ _ evm_gas _ _ _ Hex) as [os Hos].
  destruct (executes_included _ _ _ _ _ _ _ _ Hos) as (_ & Htx & _ & Hin). destruct r as [[block infos receipts] included invalid].
  apply exec_bind_Ret in Hm as (bn & _ & (fee & _ & Hm)%exec_bind_Ret). simplify_eq. cbn in *.
  eexists _, block. split.
  - unfold store_block, prune_transactions. repeat case_match; done.
  - rewrite Htx. intros t (x & -> & Hx)%list_elem_of_fmap. exists x. split; [by apply Hin|done].
Qed.
Lemma mine_one_traced base A now s s' : traced base A s -> mine_one config now s = Ret (Some s') -> traced base A s'.
Proof using evm_gas.
  intros [T1 T2 T3]. unfold mine_one. intros ([[o n]|] & Hm & Hx)%exec_bind_Ret; [|done].
  apply exec_bind_Ret in Hx as ([res pl] & Hp & Hx). simplify_eq.
  assert (forall t, hash_consistent t /\ PoolTransaction.hash t ∈ A -> accepted_by A t) as Hacc by done.
  destruct (mine_block_from _ _ _ _ _ Hm) as (h & b & Hb & Hfrom). split; [done| |].
  - eapply on_mined_block_all; [by intros t [? _]|exact T2|exact Hp].
  - cbn. rewrite Hb. intros h' b' t. rewrite lookup_insert_Some. intros [[<- <-]|[_ Hb']] Ht; [|by eapply T3].
    destruct (Hfrom t Ht) as (x & Hx & ->). pose proof (iteration_all hash_consistent (accepted_by A) (fun t H => proj1 H) _ (proj1 T2)) as Hit.
    rewrite Forall_forall in Hit. destruct (Hit x Hx) as [Hc (y & [_ Hy] & Hyx)].
    unfold hash_consistent in Hc. rewrite <- Hc, <- Hyx. by apply elem_of_union_r.
Qed.
Lemma mine_blocks_traced base A n : forall clock interval s s',
  traced base A s -> mine_blocks config clock interval n s = Ret (Some s') -> traced base A s'.
Proof using evm_gas.
  induction n as [|n IH]; intros clock interval s s' HT; cbn [mine_blocks]; [by intros [= <-]|].
  intros ([s1|] & Hm & Hx)%exec_bind_Ret; [|done]. eapply IH; [|exact Hx]. pose proof (mine_one_traced _ _ _ _ _ HT Hm) as HT1.
  destruct interval; [|done]. by apply (traced_keeps _ _ s1).
Qed.
Lemma revert_blocks now id n r n' : revert_snapshot config now id n = Ret (r, n') -> blocks (storage n') ⊆ blocks (storage n).
Proof.
  unfold revert_snapshot. destruct (active_snapshots n !! id) as [[k h]|].
  - assert (forall c, blocks (unwind k h c (storage n)) ⊆ blocks (storage n)) as Hu.
    { intros c. cbn. generalize (storage n) as st. induction (heights_above k c) as [|x l IH]; intros st; cbn [fold_left]; [done|].
      etrans; [apply IH|]. unfold remove_block. repeat case_match; cbn; [apply delete_subseteq|done|done]. }
    intros ([[blk|]|e] & _ & Hx)%exec_bind_Ret; simplify_eq; cbn -[unwind]; try apply Hu.
    apply exec_bind_Ret in Hx as (ts & _ & [Hs _]%revert_db_node). rewrite Hs. apply Hu.
  - intros [Hs _]%revert_db_node. by rewrite Hs.
Qed.

Lemma evm_mine_traced base A clock opts s r s' :
  traced base A s -> do_evm_mine config clock opts s = Ret (Some (r, s')) -> traced base A s'.
Proof using evm_gas.
  intros HT. unfold do_evm_mine. destruct (match opts with None => _ | Some _ => _ end) as [ts blocks].
  intros ([x s1] & Hts & Hx)%exec_bind_Ret.
  assert (traced base A s1) as HT1.
  { destruct ts as [ts|]; [|by simplify_eq]. unfold evm_set_next_block_timestamp in Hts.
    destruct (TimeManager.set_next_block_timestamp _ _) as [y t]. simplify_eq. by apply (traced_keeps base A s). }
  destruct x as [u|e]; [|by simplify_eq]. apply exec_bind_Ret in Hx as ([s2|] & Hm & Hx); simplify_eq/=. by eapply mine_blocks_traced.
Qed.
Lemma run_api_traced base A op s o s' : traced base A s -> run_api op s = Ret (Some (o, s')) -> traced base (with_answer o A) s'.
Proof using evm_gas dependent names_signed names_impersonated recovery_zero wallets_honest.
  intros HT. pose proof (td_accounts _ _ _ HT) as Hacc.
  assert (forall s1, blocks (storage (backend s1)) ⊆ blocks (storage (backend s)) -> Pool.inner (pool s1) = Pool.inner (pool s) ->
    CheatsManager.bypass_signature (cheats s1) = CheatsManager.bypass_signature (cheats s) -> signers s1 = signers s -> traced base A s1) as Hk
    by (intros; by apply (traced_keeps base A s)).
  assert (forall (B : Type) (m : rpc B), (forall r s1, m s = Ret (r, s1) -> traced base A s1) -> answering m s = Ret (Some (o, s')) ->
    traced base (with_answer o A) s') as Hans.
  { intros B m Hm. unfold answering. intros ([r s1] & Hr & Hx)%exec_bind_Ret. simplify_eq. by eapply Hm. }
  assert (forall (B : Type) (m : Api -> exec (option (B * Api))), (forall r s1, m s = Ret (Some (r, s1)) -> traced base A s1) -> mining m s = Ret (Some (o, s')) ->
    traced base (with_answer o A) s') as Hmin.
  { intros B m Hm. unfold mining. intros ([[r s1]|] & Hr & Hx)%exec_bind_Ret; simplify_eq. by eapply Hm. }
  destruct op; cbn [run_api]; (apply Hmin || apply Hans || apply submitting_traced || idtac); try done; try (intros r s1 Hx).
  - apply reads_prepare_send.
  - by eapply prepare_send_prepared.
  - apply reads_prepare_unsigned.
  - by eapply prepare_unsigned_prepared.
  - apply reads_prepare_raw.
  - by eapply prepare_raw_prepared.
  - by eapply evm_mine_traced.
  - unfold anvil_mine in Hx. apply exec_bind_Ret in Hx as (x & _ & Hx). case_decide; [by simplify_eq|].
    apply exec_bind_Ret in Hx as (blocks & _ & ([s2|] & Hm & Hx)%exec_bind_Ret); simplify_eq/=. by eapply mine_blocks_traced.
  - unfold anvil_drop_transaction in Hx. apply exec_bind_Ret in Hx as ([t p] & Hd & Hx). simplify_eq. destruct HT as [T1 T2 T3].
    split; [done| |done]. by eapply drop_transaction_all.
  - unfold evm_snapshot, create_snapshot in Hx. destruct (MemDb.snapshot _) as [i d]. simplify_eq. by apply Hk.
  - unfold evm_revert in Hx. apply exec_bind_Ret in Hx as ([x n] & Hr & Hx). simplify_eq. apply Hk; [|done..]. by eapply revert_blocks.
  - unfold evm_set_next_block_timestamp in Hx. destruct (TimeManager.set_next_block_timestamp _ _). simplify_eq. by apply Hk.
  - unfold evm_increase_time in Hx. destruct (TimeManager.increase_time _ _). simplify_eq. by apply Hk.
  - apply exec_bind_Ret in Hx as (c & _ & Hx). cbn in Hx. simplify_eq. by apply Hk.
  - injection Hx as _ <-. by apply Hk.
  - unfold evm_remove_block_timestamp_interval in Hx. destruct (TimeManager.remove_block_timestamp_interval _). simplify_eq. by apply Hk.
  - injection Hx as _ <-. by apply Hk.
  - injection Hx as _ <-. by apply Hk.
  - injection Hx as _ <-. by apply Hk.
  - apply bind_Ret in Hx as [(b & t & [-> ->]%read_Ok & Hx)|(e & Hx & _)]; [|done].
    destruct (is_eip1559 _); injection Hx as _ <-; by apply Hk.
  - apply bind_Ret in Hx as [(b & t & [-> ->]%read_Ok & Hx)|(e & Hx & _)]; [|done].
    destruct (is_eip1559 _); injection Hx as _ <-; by apply Hk.
  - unfold anvil_impersonate_account, CheatsManager.backend_impersonate, CheatsManager.impersonate in Hx.
    repeat case_match; simplify_eq; by apply Hk.
  - injection Hx as _ <-. by apply Hk.
  - injection Hx as _ <-. by apply Hk.
Qed.

(** A sequence of requests of any kind that are answered, and the hashes of the
    submissions that were accepted. *)
Inductive api_served : Api -> list TxHash -> Api -> Prop :=
| api_served_nil s : api_served s [] s
| api_served_cons s op o s1 hs s2 :
    run_api op s = Ret (Some (o, s1)) -> api_served s1 hs s2 -> api_served s (option_list o ++ hs) s2.

Lemma api_served_traced base s hs s' : api_served s hs s' -> forall A, traced base A s -> traced base (list_to_set hs ∪ A) s'.
Proof using evm_gas dependent names_signed names_impersonated recovery_zero wallets_honest.
  induction 1 as [s|s op o s1 hs s2 Hr _ IH]; intros A HT.
  { by replace (list_to_set [] ∪ A) with A by (clear; cbn; set_solver). }
  specialize (IH _ (run_api_traced _ _ _ _ _ _ HT Hr)).
  replace (list_to_set (option_list o ++ hs) ∪ A) with (list_to_set hs ∪ with_answer o A); [done|].
  clear. destruct o; cbn; set_solver.
Qed.

(** C7: Nothing is mined that was not submitted: after any sequence of requests
    of the RPC layer that are answered ([anvil_setBlock], resubmissions and
    reverts to any snapshot included), on a node whose pool was empty at the
    start, every transaction of every block that the node serves by its number is
    in a block it stored at the start, or its hash was returned by an earlier
    submission.  Assumed of the libraries: a hash names the sender and the nonce
    of its transaction, the signature of a wallet recovers to the wallet's
    address, and the EVM's gas fits in a u64.  The signers of the node keep every
    wallet under its own address, and impersonation is marked by the all-zero
    signature, whose recovery id is 0. *)
Theorem mined_were_submitted s hs s' n b t :
  accounts_ok s -> Pool.inner (pool s) = PoolInner.empty -> api_served s hs s' ->
  get_block (storage (backend s')) (IdNumber (BNumber n)) = Some b -> t ∈ transactions b ->
  (exists h b0, blocks (storage (backend s)) !! h = Some b0 /\ block_tx_hash t ∈ block_tx_hash <$> transactions b0) \/
  block_tx_hash t ∈ hs.
Proof using evm_gas dependent names_signed names_impersonated recovery_zero wallets_honest.
  intros Hacc Hp Hrun Hb Ht.
  set (base := list_to_set (tx_hashes (snd <$> map_to_list (blocks (storage (backend s))))) : gset TxHash).
  assert (traced base ∅ s) as HT.
  { split; [done| |].
    - rewrite Hp. split; [split; [apply map_Forall_empty|by apply Forall_nil]|apply map_Forall_empty].
    - intros h b0 t0 Hh Ht0. apply elem_of_union_l, elem_of_list_to_set, list_elem_of_bind. exists b0.
      split; [by apply list_elem_of_fmap_2|]. apply list_elem_of_fmap. exists (h, b0). split; [done|]. by apply elem_of_map_to_list. }
  destruct (api_served_traced base s hs s' Hrun ∅ HT) as [_ _ T3].
  rewrite get_block_via_hash in Hb. cbn in Hb. destruct (hashes _ !! n) as [h|]; [|done]. cbn in Hb.
  specialize (T3 h b t Hb Ht). rewrite !elem_of_union, !elem_of_list_to_set in T3. destruct T3 as [Hin|[Hin|Hin]]; [left|by right|by apply elem_of_empty in Hin].
  apply elem_of_list_to_set, list_elem_of_bind in Hin as (b0 & Ht0 & Hb0). apply list_elem_of_fmap in Hb0 as ([h0 b1] & -> & Hh0).
  exists h0, b1. split; [by apply elem_of_map_to_list|done].
Qed.

(** [evm_mine] mines as many blocks as it is asked for, one by default: if
    it succeeds, the height has grown by the number it returns. *)
Theorem evm_mine_height L clock opts s k s' :
  refines L s -> budget (Pool.inner (pool s)) 0 -> do_evm_mine config clock opts s = Ret (Some (Ok k, s')) -> 0 <= k ->
  k = match opts with Some (MineOptions _ (Some blocks)) => blocks | _ => 1 end /\
  best_number (storage (backend s')) = best_number (storage (backend s)) + k.
Proof using evm_gas separates.
  intros HL Hb Hm Hk. unfold do_evm_mine in Hm.
  destruct (match opts with None => _ | Some _ => _ end) as [ts blocks] eqn:Hopts.
  apply exec_bind_Ret in Hm as ([x s1] & Hts & Hx).
  destruct (set_timestamp_sim L ts s x s1 HL Hts) as [HL1 Hp1].
  destruct x as [u|e]; [|done]. apply exec_bind_Ret in Hx as ([s2|] & Hmb & Hx); simplify_eq/=.
  destruct (mine_blocks_sim _ _ _ _ _ _ HL1 ltac:(by rewrite Hp1) Hmb) as (L' & _ & HL' & _ & Hlen).
  destruct (ch_best _ _ (ni_chain _ _ (rf_node _ _ HL'))) as [-> _].
  destruct (ch_best _ _ (ni_chain _ _ (rf_node _ _ HL))) as [-> _]. split; [|lia].
  destruct opts as [[t|t [blocks|]]|]; by simplify_eq/=.
Qed.
End ApiProps.
