(* ===== verification/ApiSample.v ===== *)
(** * A node that serves requests

    Concrete library functions with which the whole RPC layer runs: an EVM
    that counts nonces, hashes that encode the sender and the nonce, signers
    that sign with the account itself, and the RLP of [RlpSample]. *)
From S2P Require Import Prelude Transaction TimeManager Hardfork Block Rlp RlpSample Fees Snapshots PoolTx PendingTxs.
From S2P Require Import ReadyTxs TxIterator Pool PoolInv PoolProps Db BlockStates Validator Executor Chain Cheats.
From S2P Require Import Node Backend BackendProps NodeSample Api ApiProps.
Open Scope Z_scope.

Module Live.
#[export] Existing Instance ListStore.store.
#[export] Existing Instance Toy.spec_order.
#[export] Existing Instance Toy.log_filter.
#[export] Existing Instance Toy.channel.
#[export] Existing Instance Sample.channel.
#[export] Existing Instance Spec.lib.

(** The database is the nonces of the accounts, which are all rich; a
    transaction with another nonce is refused. *)
Definition nonce_at (d : gmap Address Z) (a : Address) : Z := default 0 (d !! a).
#[export] Instance evm : Evm := {|
  evm_db := gmap Address Z;
  evm_db_error := Empty_set;
  evm_trace := unit;
  db_basic d a := Ok (Some (AccountInfo.mk (10 ^ 20) (nonce_at d a) KECCAK_EMPTY None));
  maybe_state_root d := Some (Z.of_nat (size d));
  inspect_commit _ _ env db :=
    if decide (env_nonce env = Some (nonce_at db (env_caller env))) then
      (Ok (Success EvStop (env_tx_gas_limit env mod 2 ^ 64) [] (OutCall [])), [],
       <[env_caller env := nonce_at db (env_caller env) + 1]> db)
    else (Err (inl (inr ItNonceTooHigh)), [], db);
  instruction_as_u8 i := match i with Continue => 0 | IStop => 1 | IReturn => 2 | ISelfDestruct => 3 | _ => 32 end;
  accrue_raw _ b := b;
  receipts_trie_root rs := Z.of_nat (length rs);
  transactions_trie_root txs := Z.of_nat (length txs);
  ommers_rlp_hash _ := 0 |}.

(** A hash is an injective code of the sender, the nonce and the price. *)
Definition code (a n p : Z) : H256 := Zpos (encode (a, n, p)).
Definition decode_hash (h : H256) : Z * Z * Z :=
  match h with Zpos c => default (0, 0, 0) (decode c) | _ => (0, 0, 0) end.
Definition sender_of (h : H256) : Address := fst (fst (decode_hash h)).
Definition nonce_of (h : H256) : Z := snd (fst (decode_hash h)).

Lemma decode_code a n p : decode_hash (code a n p) = (a, n, p).
Proof. unfold decode_hash, code. by rewrite decode_encode. Qed.

#[export] Instance hashing : Hashing := {|
  header_hash h := 1000 + Header.number h;
  typed_transaction_hash t :=
    code (sig_r (TypedTransaction.signature t)) (TypedTransaction.nonce t) (TypedTransaction.gas_price t);
  impersonated_hash t a := code a (TypedTransaction.nonce t) (TypedTransaction.gas_price t);
  block_rlp_len b := Z.of_nat (length (transactions b)) |}.
#[export] Instance node_db : NodeDb := {|
  insert_block_hash d n h := d;
  current_state d := (map_to_list d).*1 |}.
#[export] Instance api_lib : ApiLib := {|
  recovery_id _ := Ok 0;
  recover t := Ok (sig_r (TypedTransaction.signature t));
  Wallet := Address;
  wallet_address a := a;
  sign_transaction_sync a _ := Ok (Build_Signature a 1 0);
  sign_message a _ := Ok (Build_Signature a 1 0);
  TypedData := unit;
  wallet_sign_typed_data a _ := Ok (Build_Signature a 1 0);
  state_basic _ _ := Ok None |}.
Definition signer : DevSigner.t := DevSigner.new ([5; 6] : list (Wallet (ApiLib := api_lib))).

Lemma live_gas_u64 : forall c b e db r tr db',
  inspect_commit (Evm := evm) c b e db = (Ok r, tr, db') -> is_u64 (result_gas r).
Proof.
  intros c b e db r tr db'. cbn [inspect_commit evm]. case_decide; [|done]. intros [= <- _ _]. simpl. pose proof (Z.mod_pos_bound (env_tx_gas_limit e) (2 ^ 64)).
  unfold is_u64, U64_MAX. lia.
Qed.
Lemma live_separates : hash_separates.
Proof. intros h h' Heq. cbn in Heq. lia. Qed.
Lemma names_signed t a : recover t = Ok a ->
  sender_of (typed_transaction_hash t) = a /\ nonce_of (typed_transaction_hash t) = TypedTransaction.nonce t.
Proof. intros [= <-]. unfold sender_of, nonce_of. cbn [typed_transaction_hash hashing]. by rewrite decode_code. Qed.
Lemma names_impersonated t a :
  sender_of (impersonated_hash t a) = a /\ nonce_of (impersonated_hash t a) = TypedTransaction.nonce t.
Proof. unfold sender_of, nonce_of. cbn [impersonated_hash hashing]. by rewrite decode_code. Qed.
Lemma wallets_honest (w : Wallet (ApiLib := api_lib)) req sig t :
  sign_transaction_sync w req = Ok sig -> build_typed_transaction recovery_id req sig = Ok t ->
  recover t = Ok (wallet_address w).
Proof. intros [= <-]. destruct req; cbn; intros [= <-]; done. Qed.

(** ** A node *)
Definition config : NodeConfig := mkConfig None (mkPrune false None) None.
Definition env0 : BlockEnv.t := BlockEnv.mk 0 7 1000 0 None 0 30000000.
Definition genesis : Node :=
  mkNode (MemDb.mk (∅ : evm_db (Evm := evm)) Snapshots.new) (storage_new env0 (Some 0) 1000) (InMemoryBlockStates.new 2)
    Toy.cfg env0 (TimeManager.new 5000 1000) (FeeManager.new SHANGHAI 0 0) ∅ [].
Definition genesis_blocks : list Block := [genesis_block env0 (Some 0) 1000].
Definition start : Api := mkApi genesis (Pool.mk PoolInner.empty []) CheatsManager.default [signer] Fees.

Definition all_independent (h : TxHash) : bool := false.
Lemma start_refines : refines sender_of nonce_of all_independent (mkLedger genesis_blocks ∅ ∅) start.
Proof.
  split.
  - split; [apply chain_new|done|done|]. intros b ->%list_elem_of_singleton. done.
  - apply pool_inv_empty.
  - done.
  - split; [done|]. apply Forall_singleton, DevSigner.new_keyed.
Defined.

Definition request (from : Address) (price : Z) (nonce : option Z) : EthTransactionRequest.t :=
  EthTransactionRequest.mk (Some from) (Some 9) (Some price) None None (Some 21000) (Some 1) None nonce None None None.

Definition after (op : api_op) (s : Api) : option TxHash * Api :=
  match run_api config op s with Ret (Some r) => r | _ => (None, s) end.
Definition op1 : api_op := SendTransaction 5000 (request 5 10 None).
Definition op2 : api_op := SendTransaction 5000 (request 5 20 None).
Definition sent1 : option TxHash * Api := after op1 start.
Definition sent2 : option TxHash * Api := after op2 (snd sent1).
Definition mined : option TxHash * Api := after (EvmMine (fun _ => 5001) None) (snd sent2).

Definition serves (op : api_op) (s : Api) : bool :=
  match run_api config op s with Ret (Some _) => true | _ => false end.
Lemma serves_after op s : serves op s = true -> run_api config op s = Ret (Some (fst (after op s), snd (after op s))).
Proof. unfold serves, after. by destruct (run_api config op s) as [[[]|]|]. Qed.

Lemma op1_run : run_api config op1 start = Ret (Some (fst sent1, snd sent1)).
Proof. apply serves_after. vm_compute. reflexivity. Qed.
Lemma op2_run : run_api config op2 (snd sent1) = Ret (Some (fst sent2, snd sent2)).
Proof. apply serves_after. vm_compute. reflexivity. Qed.
Lemma mine_run : run_api config (EvmMine (fun _ => 5001) None) (snd sent2) = Ret (Some (fst mined, snd mined)).
Proof. apply serves_after. vm_compute. reflexivity. Qed.

Lemma op1_allowed : api_allowed config sender_of nonce_of all_independent op1 start.
Proof. split; [vm_compute; discriminate|]. apply steady_check_ok. vm_compute. reflexivity. Qed.
Lemma op2_allowed : api_allowed config sender_of nonce_of all_independent op2 (snd sent1).
Proof. split; [vm_compute; discriminate|]. apply steady_check_ok. vm_compute. reflexivity. Qed.

Lemma api_refines_ledger_witness :
  exists L', rtc ledger_step (mkLedger genesis_blocks ∅ ∅) L' /\
    refines sender_of nonce_of all_independent L' (snd sent1) /\ ld_accepted L' = {[code 5 0 10]}.
Proof.
  destruct (api_refines_ledger config live_gas_u64 live_separates sender_of nonce_of all_independent names_signed names_impersonated
    eq_refl wallets_honest (mkLedger genesis_blocks ∅ ∅) op1 start (fst sent1) (snd sent1) start_refines op1_allowed op1_run)
    as (L' & Hs & HL & HA).
  exists L'. split; [exact Hs|]. split; [exact HL|]. rewrite HA. vm_compute. reflexivity.
Defined.

Lemma two_sent : api_run config sender_of nonce_of all_independent start [code 5 0 10; code 5 1 20] (snd mined).
Proof.
  apply (api_run_cons config sender_of nonce_of all_independent start op1 (fst sent1) (snd sent1) [code 5 1 20]);
    [apply op1_allowed|apply op1_run|].
  apply (api_run_cons config sender_of nonce_of all_independent (snd sent1) op2 (fst sent2) (snd sent2) []);
    [apply op2_allowed|apply op2_run|].
  apply (api_run_cons config sender_of nonce_of all_independent (snd sent2) (EvmMine (fun _ => 5001) None) (fst mined) (snd mined) []);
    [split; [vm_compute; discriminate|exact I]|apply mine_run|constructor].
Qed.

Definition the_block : option Block := get_block (storage (backend (snd mined))) (IdNumber (BNumber 1)).
Lemma two_served : api_served config start [code 5 0 10; code 5 1 20] (snd mined).
Proof.
  apply (api_served_cons config start op1 (fst sent1) (snd sent1) [code 5 1 20]); [apply op1_run|].
  apply (api_served_cons config (snd sent1) op2 (fst sent2) (snd sent2) []); [apply op2_run|].
  apply (api_served_cons config (snd sent2) (EvmMine (fun _ => 5001) None) (fst mined) (snd mined) []); [apply mine_run|constructor].
Qed.
Lemma mined_were_submitted_witness :
  match the_block ≫= (fun b => transactions b !! 0%nat) with
  | Some t => (exists h b0, blocks (storage (backend start)) !! h = Some b0 /\ block_tx_hash t ∈ block_tx_hash <$> transactions b0) \/
      block_tx_hash t ∈ [code 5 0 10; code 5 1 20]
  | None => False
  end.
Proof.
  destruct the_block as [b|] eqn:Hb; [|vm_compute in Hb; discriminate]. cbn.
  destruct (transactions b !! 0%nat) as [t|] eqn:Ht;
    [|exfalso; revert Ht; apply (f_equal (fun o => o ≫= fun b => transactions b !! 0%nat)) in Hb; cbn in Hb;
      intros Ht; rewrite Ht in Hb; vm_compute in Hb; discriminate].
  exact (mined_were_submitted config live_gas_u64 sender_of nonce_of all_independent names_signed names_impersonated
    eq_refl wallets_honest start _ (snd mined) 1 b t (rf_accounts _ _ _ _ _ start_refines) eq_refl two_served Hb (list_elem_of_lookup_2 _ _ _ Ht)).
Defined.

Definition two_blocks : option EvmMineOptions := Some (MineOptions None (Some 2)).
Definition mine_two : option (Z * Api) :=
  match do_evm_mine config (fun _ => 5001) two_blocks start with Ret (Some (Ok k, s)) => Some (k, s) | _ => None end.
Lemma mine_two_run k s : mine_two = Some (k, s) -> do_evm_mine config (fun _ => 5001) two_blocks start = Ret (Some (Ok k, s)).
Proof. unfold mine_two. destruct (do_evm_mine _ _ _ _) as [[[[]]|]|]; naive_solver. Qed.
Lemma mine_two_k : fst <$> mine_two = Some 2.
Proof. vm_compute. reflexivity. Qed.

Lemma evm_mine_height_witness :
  match mine_two with Some (k, s') => k = 2 /\ best_number (storage (backend s')) = 0 + 2 | None => False end.
Proof.
  pose proof mine_two_k as Hk. destruct mine_two as [[k s']|] eqn:Hm; [|discriminate]. cbn in Hk. injection Hk as ->.
  exact (evm_mine_height config live_gas_u64 live_separates sender_of nonce_of all_independent (mkLedger genesis_blocks ∅ ∅)
    (fun _ => 5001) two_blocks start 2 s' start_refines ltac:(vm_compute; discriminate) (mine_two_run _ _ Hm) ltac:(lia)).
Defined.

(** An accepted transaction can be lost: of two transactions that one
    account sends with [eth_sendTransaction], the second one paying more, both
    are taken for independent, since the nonce that the second is compared with
    already counts the first; ordered by fees, the second is executed first,
    fails for its nonce, and is removed from the pool without being mined. *)
Theorem higher_fee_successor_lost :
  fst sent1 = Some (code 5 0 10) /\ fst sent2 = Some (code 5 1 20) /\
  PoolTransaction.hash <$> ready_transactions (snd sent2) = [code 5 1 20; code 5 0 10] /\
  Pool.contains (pool (snd mined)) (code 5 1 20) = false /\
  (fun b => block_tx_hash <$> transactions b) <$> the_block = Some [code 5 0 10].
Proof. vm_compute. split_and!; reflexivity. Qed.
End Live.
