(* ===== verification/PubSub.v ===== *)
(** * Subscriptions and filters (anvil/src/pubsub.rs, anvil/src/filter.rs,
    anvil/src/eth/backend/info.rs)

    What a client is told about new blocks, their logs and new transactions:
    by polling a filter or through a subscription.  The receiving half of a
    channel is the queue of what was sent and not yet received. *)
From S2P Require Import Prelude Transaction TimeManager Hardfork Block Fees Snapshots PoolTx.
From S2P Require Import Db BlockStates Validator Executor Chain Node Backend BackendProps NodeProps.
Open Scope Z_scope.

(** [std::task::Poll] *)
Inductive poll (A : Type) := Ready (a : A) | Pending.
Arguments Ready {A} a.
Arguments Pending {A}.

Record receiver (A : Type) := mkRx { rx_queue : list A; rx_closed : bool }.
Arguments mkRx {A} rx_queue rx_closed.
Arguments rx_queue {A} r.
Arguments rx_closed {A} r.

(** [Stream::poll_next] of a receiver. *)
Definition poll_next {A} (r : receiver A) : poll (option A) * receiver A :=
  match rx_queue r with
  | x :: q => (Ready (Some x), mkRx q (rx_closed r))
  | [] => (if rx_closed r then Ready None else Pending, r)
  end.
(** [while let Poll::Ready(Some(x)) = rx.poll_next_unpin(cx)] *)
Definition drain {A} (r : receiver A) : list A * receiver A := (rx_queue r, mkRx [] (rx_closed r)).

(** What the matcher of a log filter says besides address and topics. *)
Class FilterParams `{!LogFilter} := {
  filter_block_range : Filter -> Z -> bool;
  filter_block_hash : Filter -> H256 -> bool }.

Section PubSub.
Context `{!Evm} `{!Hashing} `{!StateStore} `{!NodeDb} `{!LogFilter} `{!BlockChannel} `{!SpecIdOrder} `{!FilterParams}.

(** [NewBlockNotification] *)
Definition Notification : Type := H256 * Header.t.

(** ** StorageInfo *)
Definition mined_receipts (s : Node) (hash : H256) : exec (option (list TypedReceipt)) :=
  o ← mined_block_by_hash s hash;
  Ret (block ← o; mapM (fun tx => mined_receipt <$> mined (storage s) !! tx) (EthersBlock.transactions block)).
Definition info_block (s : Node) (hash : H256) : option Block := get_block_by_hash (storage s) hash.
Definition eth_block (s : Node) (hash : H256) : exec (option EthersBlock.t) :=
  match info_block s hash with
  | None => Ret None
  | Some block => Some <$> convert_block s block
  end.

(** ** filter_logs *)

(** [add_log]; [params.filter] is [None] for a subscription without filter. *)
Definition add_log (block_hash : H256) (l : Log) (block : Block) (params : option Filter) : exec bool :=
  match params with
  | None => Ret true
  | Some f =>
      block_number ← u256_as_u64 (Header.number (header block));
      Ret (filter_block_range f block_number && filter_block_hash f block_hash && filter_address f l && filter_topics f l)
  end.

(** The logs of one receipt; [log_index] is the running index of the block. *)
Fixpoint receipt_filter_logs (block : Block) (params : option Filter) (transaction_hash : option H256) (receipt_index : Z)
    (transaction_log_index log_index : Z) (ls : list Log) : exec (list RpcLog) :=
  match ls with
  | [] => Ret []
  | log :: ls =>
      let block_hash := header_hash (header block) in
      add ← add_log block_hash log block params;
      here ← (if add : bool then
                block_number ← u256_as_u64 (Header.number (header block));
                Ret [mkRpcLog log (Some block_hash) (Some block_number) transaction_hash (Some receipt_index)
                       (Some log_index) (Some transaction_log_index) (Some false)]
              else Ret []);
      rest ← receipt_filter_logs block params transaction_hash receipt_index (transaction_log_index + 1) (log_index + 1) ls;
      Ret (here ++ rest)
  end.
Fixpoint receipts_filter_logs (block : Block) (params : option Filter) (receipt_index log_index : Z) (receipts : list TypedReceipt)
    : exec (list RpcLog) :=
  match receipts with
  | [] => Ret []
  | receipt :: receipts =>
      let ls := receipt_logs (receipt_body receipt) in
      transaction_hash ←
        match ls with
        | [] => Ret None
        | _ =>
            tx ← expect (transactions block !! Z.to_nat receipt_index) "index out of bounds";
            Ret (Some (block_tx_hash tx))
        end;
      here ← receipt_filter_logs block params transaction_hash receipt_index 0 log_index ls;
      rest ← receipts_filter_logs block params (receipt_index + 1) (log_index + Z.of_nat (length ls)) receipts;
      Ret (here ++ rest)
  end.
Definition filter_logs (block : Block) (receipts : list TypedReceipt) (filter : option Filter) : exec (list RpcLog) :=
  receipts_filter_logs block filter 0 0 receipts.

(** The logs of a notified block, [None] if it or a receipt is not found. *)
Definition notified_logs (s : Node) (filter : option Filter) (n : Notification) : exec (option (list RpcLog)) :=
  let b := info_block s (fst n) in
  receipts ← mined_receipts s (fst n);
  match receipts, b with
  | Some receipts, Some block => Some <$> filter_logs block receipts filter
  | _, _ => Ret None
  end.

(** ** LogsFilter *)
Record LogsFilter := mkLogsFilter {
  lf_blocks : receiver Notification;
  lf_filter : option Filter;
  lf_historic : option (list RpcLog) }.

Fixpoint poll_blocks (s : Node) (filter : option Filter) (logs : list RpcLog) (q : list Notification) : exec (list RpcLog) :=
  match q with
  | [] => Ret logs
  | n :: q =>
      o ← notified_logs s filter n;
      poll_blocks s filter (logs ++ default [] o) q
  end.
Definition logs_filter_poll (s : Node) (f : LogsFilter) : exec (list RpcLog * LogsFilter) :=
  let logs := default [] (lf_historic f) in
  let '(q, rx) := drain (lf_blocks f) in
  logs ← poll_blocks s (lf_filter f) logs q;
  Ret (logs, mkLogsFilter rx (lf_filter f) None).

(** ** LogsSubscription *)
Record LogsSubscription := mkLogsSub {
  ls_blocks : receiver Notification;
  ls_filter : option Filter;
  ls_queued : list RpcLog }.

(** The loop of [poll]; [q] is the queue of the receiver, of which every turn
    that does not return takes one. *)
Fixpoint logs_sub_loop (s : Node) (closed : bool) (filter : option Filter) (queued : list RpcLog) (q : list Notification)
    : exec (poll (option RpcLog) * LogsSubscription) :=
  match queued with
  | log :: queued => Ret (Ready (Some log), mkLogsSub (mkRx q closed) filter queued)
  | [] =>
      match q with
      | [] => Ret (if closed then Ready None else Pending, mkLogsSub (mkRx [] closed) filter [])
      | n :: q =>
          o ← notified_logs s filter n;
          match o with
          | Some [] => logs_sub_loop s closed filter [] q
          | Some (log :: logs) => Ret (Ready (Some log), mkLogsSub (mkRx q closed) filter logs)
          | None => Ret (Pending, mkLogsSub (mkRx q closed) filter [])
          end
      end
  end.
Definition logs_sub_poll (s : Node) (sub : LogsSubscription) : exec (poll (option RpcLog) * LogsSubscription) :=
  logs_sub_loop s (rx_closed (ls_blocks sub)) (ls_filter sub) (ls_queued sub) (rx_queue (ls_blocks sub)).

(** ** EthSubscription *)
Inductive EthSubscription :=
| SubLogs (l : LogsSubscription)
| SubHeader (blocks : receiver Notification)
| SubPendingTransactions (tx : receiver TxHash).
Inductive SubscriptionResult :=
| ResLog (log : RpcLog)
| ResHeader (block : EthersBlock.t)
| ResTransactionHash (hash : TxHash).

Fixpoint header_loop (s : Node) (closed : bool) (q : list Notification)
    : exec (poll (option EthersBlock.t) * receiver Notification) :=
  match q with
  | [] => Ret (if closed then Ready None else Pending, mkRx [] closed)
  | n :: q =>
      o ← eth_block s (fst n);
      match o with
      | Some block => Ret (Ready (Some block), mkRx q closed)
      | None => header_loop s closed q
      end
  end.
Definition map_poll {A B} (f : A -> B) (p : poll (option A)) : poll (option B) :=
  match p with Ready o => Ready (f <$> o) | Pending => Pending end.
Definition poll_response (s : Node) (sub : EthSubscription) : exec (poll (option SubscriptionResult) * EthSubscription) :=
  match sub with
  | SubLogs l => '(p, l) ← logs_sub_poll s l; Ret (map_poll ResLog p, SubLogs l)
  | SubHeader blocks =>
      '(p, blocks) ← header_loop s (rx_closed blocks) (rx_queue blocks); Ret (map_poll ResHeader p, SubHeader blocks)
  | SubPendingTransactions tx =>
      let '(p, tx) := poll_next tx in Ret (map_poll ResTransactionHash p, SubPendingTransactions tx)
  end.

(** ** Filters *)
Inductive EthFilter :=
| FLogs (f : LogsFilter)
| FBlocks (blocks : receiver Notification)
| FPendingTransactions (tx : receiver TxHash).
Inductive FilterChanges :=
| LogChanges (logs : list RpcLog)
| HashChanges (hashes : list H256)
| NoChanges.

(** [EthFilter::poll_next], which is always ready. *)
Definition filter_next (s : Node) (f : EthFilter) : exec (FilterChanges * EthFilter) :=
  match f with
  | FLogs logs => '(l, logs) ← logs_filter_poll s logs; Ret (LogChanges l, FLogs logs)
  | FBlocks blocks => let '(q, rx) := drain blocks in Ret (HashChanges q.*1, FBlocks rx)
  | FPendingTransactions tx => let '(q, rx) := drain tx in Ret (HashChanges q, FPendingTransactions rx)
  end.

Record Filters := mkFilters {
  active_filters : gmap string (EthFilter * Z);
  keepalive : Z }.
Definition ACTIVE_FILTER_TIMEOUT_SECS : Z := 60 * 5.
Definition filters_default : Filters := mkFilters ∅ ACTIVE_FILTER_TIMEOUT_SECS.

(** [now] is the clock, [id] the random id. *)
Definition next_deadline (now : Z) (f : Filters) : Z := now + keepalive f.
Definition add_filter (now : Z) (id : string) (filter : EthFilter) (f : Filters) : Filters :=
  mkFilters (<[id := (filter, next_deadline now f)]> (active_filters f)) (keepalive f).
Definition get_filter_changes (now : Z) (s : Node) (id : string) (f : Filters) : exec (FilterChanges * Filters) :=
  match active_filters f !! id with
  | Some (filter, _) =>
      '(resp, filter) ← filter_next s filter;
      Ret (resp, mkFilters (<[id := (filter, next_deadline now f)]> (active_filters f)) (keepalive f))
  | None => Ret (NoChanges, f)
  end.
Definition get_log_filter (id : string) (f : Filters) : option Filter :=
  match active_filters f !! id with
  | Some (FLogs log, _) => lf_filter log
  | _ => None
  end.
Definition uninstall_filter (id : string) (f : Filters) : option EthFilter * Filters :=
  (fst <$> active_filters f !! id, mkFilters (delete id (active_filters f)) (keepalive f)).
Definition evict (now : Z) (f : Filters) : Filters :=
  mkFilters (filter (fun '(_, (_, deadline)) => now <= deadline) (active_filters f)) (keepalive f).
End PubSub.
