(* ===== verification/PubSubProps.v ===== *)
(** * What subscribers and pollers are told

    The logs that filters and subscriptions report are those of [eth_getLogs];
    a subscription delivers the logs of every notified block once and in
    order; a polled filter loses nothing while it is alive, and only filters
    that were not polled in time are evicted. *)
From S2P Require Import Prelude Transaction TimeManager Hardfork Block Fees Snapshots PoolTx.
From S2P Require Import Db BlockStates Validator Executor Chain Node Backend BackendProps NodeProps NodeSample PubSub.
Open Scope Z_scope.

Section Logs.
Context `{!Evm} `{!Hashing} `{!StateStore} `{!NodeDb} `{!LogFilter} `{!BlockChannel} `{!SpecIdOrder} `{!FilterParams}.

(** Whether a log of the block is reported. *)
Definition accepts (params : option Filter) (block : Block) (log : Log) : bool :=
  match params with
  | None => true
  | Some f =>
      filter_block_range f (Header.number (header block)) && filter_block_hash f (header_hash (header block)) &&
      filter_address f log && filter_topics f log
  end.
Definition accepted_logs (params : option Filter) (block : Block) (infos : list TransactionInfo) : list RpcLog :=
  base.filter (fun l => accepts params block (rl_log l) = true)
    (imap (report (header_hash (header block)) (Header.number (header block))) (located_logs infos)).

Lemma add_log_spec h l block params :
  Header.number (header block) <= U64_MAX -> h = header_hash (header block) ->
  add_log h l block params = Ret (accepts params block l).
Proof. intros Hn ->. unfold add_log, accepts. destruct params; [|done]. by rewrite u256_as_u64_ok. Qed.

Lemma receipt_filter_logs_spec block params info ls :
  Header.number (header block) <= U64_MAX -> forall i k,
  receipt_filter_logs block params (Some (info_transaction_hash info)) (info_transaction_index info) (Z.of_nat i) (Z.of_nat k) ls =
  Ret (base.filter (fun l => accepts params block (rl_log l) = true)
    (imap (fun j => report (header_hash (header block)) (Header.number (header block)) (k + j))
       (imap (fun j log => (info, (i + j)%nat, log)) ls))).
Proof.
  intros Hn. induction ls as [|log ls IH]; intros i k; [done|]. cbn [receipt_filter_logs].
  rewrite add_log_spec by done. cbn [mbind exec_bind].
  rewrite (imap_cons _ log ls), (imap_cons _ _ (imap _ ls)), filter_cons. cbn [report rl_log].
  replace (Z.of_nat i + 1) with (Z.of_nat (S i)) by lia. replace (Z.of_nat k + 1) with (Z.of_nat (S k)) by lia.
  rewrite IH, !Nat.add_0_r, report_shift.
  destruct (accepts params block log); cbn; rewrite ?u256_as_u64_ok by done; by rewrite ?decide_True, ?decide_False by done.
Qed.

(** The receipts belong to the infos, position by position. *)
Definition belong (block : Block) (first : nat) (infos : list TransactionInfo) (receipts : list TypedReceipt) : Prop :=
  length infos = length receipts /\
  forall i info r, infos !! i = Some info -> receipts !! i = Some r ->
    receipt_logs (receipt_body r) = info_logs info /\ info_transaction_index info = Z.of_nat (first + i) /\
    block_tx_hash <$> transactions block !! (first + i)%nat = Some (info_transaction_hash info).

Lemma receipts_filter_logs_spec block params infos : Header.number (header block) <= U64_MAX ->
  forall first k receipts, belong block first infos receipts ->
  receipts_filter_logs block params (Z.of_nat first) (Z.of_nat k) receipts =
  Ret (base.filter (fun l => accepts params block (rl_log l) = true)
    (imap (fun j => report (header_hash (header block)) (Header.number (header block)) (k + j)) (located_logs infos))).
Proof.
  intros Hn. induction infos as [|info infos IH]; intros first k [|r receipts] [Hl Hb]; try done.
  destruct (Hb 0%nat info r) as (Hlogs & Hidx & Htx); [done..|]. rewrite Nat.add_0_r in Hidx, Htx.
  cbn [receipts_filter_logs]. rewrite Nat2Z.id, Hlogs.
  assert (belong block (S first) infos receipts) as Hb'.
  { split; [by injection Hl|]. intros i info' r' Hi Hr. destruct (Hb (S i) info' r' Hi Hr) as (? & ? & ?).
    rewrite Nat.add_succ_comm. done. }
  replace (Z.of_nat first + 1) with (Z.of_nat (S first)) by lia.
  replace (Z.of_nat k + Z.of_nat (length (info_logs info))) with (Z.of_nat (k + length (info_logs info))) by lia.
  rewrite (IH (S first) _ receipts Hb').
  unfold located_logs at 2. rewrite bind_cons, imap_app, filter_app, length_imap.
  pose proof (receipt_filter_logs_spec block params info (info_logs info) Hn 0 k) as Hr. rewrite Hidx in Hr.
  assert (forall (e : exec (list RpcLog)) l1 l2, e = Ret l1 -> (here ← e; Ret (here ++ l2)) = Ret (l1 ++ l2)) as Hbind
    by (by intros ? ? ? ->).
  destruct (info_logs info) as [|l ls]; [cbn; do 2 f_equal; apply imap_ext; intros; simpl; f_equal; lia|].
  destruct (transactions block !! first) as [tx|]; [|done]. injection Htx as Htx. cbn [expect mbind exec_bind]. rewrite Htx.
  erewrite Hbind by exact Hr. do 3 f_equal. apply imap_ext. intros j x _. simpl. f_equal. lia.
Qed.

(** ** The block just mined *)
Lemma mined_block_belong s' o b infos receipts :
  mined_block s' o b infos receipts -> Z.of_nat (length (outcome_included o)) <= 2 ^ 32 -> belong b 0 infos receipts.
Proof.
  intros M Hlen. destruct (mb_length _ _ _ _ _ M) as [L1 L2]. split; [lia|]. intros i info r Hi Hr. simpl.
  assert (is_Some (outcome_included o !! i)) as [t Ht] by (apply lookup_lt_is_Some; apply lookup_lt_Some in Hi; lia).
  apply lookup_lt_Some in Ht as Hlt.
  split_and!; [by apply (mb_logs _ _ _ _ _ M i)| |].
  - rewrite (mb_info _ _ _ _ _ M i info Hi), Z.mod_small; lia.
  - rewrite (mb_hash _ _ _ _ _ M i info t Hi Ht), <- list_lookup_fmap, (mb_hashes _ _ _ _ _ M), list_lookup_fmap. by rewrite Ht.
Qed.

Lemma mined_block_known s' o b infos receipts :
  mined_block s' o b infos receipts -> known_infos s' b = infos /\
  mapM (fun tx => mined_receipt <$> mined (storage s') !! tx) (block_tx_hash <$> transactions b) = Some receipts.
Proof.
  intros M. destruct (mb_length _ _ _ _ _ M) as [L1 L2]. pose proof (f_equal length (mb_hashes _ _ _ _ _ M)) as L3.
  rewrite !length_fmap in L3.
  assert (forall i tx, transactions b !! i = Some tx -> exists info r, infos !! i = Some info /\ receipts !! i = Some r /\
    mined (storage s') !! block_tx_hash tx = Some (mkMined info r (best_hash (storage s')) (best_number (storage s')))) as Hf.
  { intros i tx Htx. apply lookup_lt_Some in Htx as Hlt.
    assert (is_Some (outcome_included o !! i)) as [t Ht] by (apply lookup_lt_is_Some; lia).
    assert (is_Some (infos !! i)) as [info Hi] by (apply lookup_lt_is_Some; lia).
    assert (is_Some (receipts !! i)) as [r Hr] by (apply lookup_lt_is_Some; lia).
    exists info, r. split_and!; [done..|]. rewrite <- (mb_found _ _ _ _ _ M i t info r Ht Hi Hr). f_equal.
    pose proof (f_equal (fun l => l !! i) (mb_hashes _ _ _ _ _ M)) as Hh. cbn in Hh.
    rewrite !list_lookup_fmap, Htx, Ht in Hh. by injection Hh. }
  split.
  - apply omap_all_Some; [lia|]. intros i tx info Htx Hi. destruct (Hf i tx Htx) as (info' & r & Hi' & _ & ->). simpl. congruence.
  - apply mapM_Some_2. apply Forall2_same_length_lookup_2; [rewrite length_fmap; lia|]. intros i x r Hx Hr.
    rewrite list_lookup_fmap in Hx. destruct (transactions b !! i) as [tx|] eqn:Htx; [|done]. injection Hx as <-.
    destruct (Hf i tx Htx) as (info & r' & _ & Hr' & ->). simpl. congruence.
Qed.

Lemma notified_logs_mined s' o b infos receipts params hd :
  mined_block s' o b infos receipts -> Z.of_nat (length (outcome_included o)) <= 2 ^ 32 ->
  notified_logs s' params (best_hash (storage s'), hd) = Ret (Some (accepted_logs params b infos)).
Proof.
  intros M Hlen. destruct (mb_number _ _ _ _ _ M) as [N1 N2]. destruct (mined_block_known _ _ _ _ _ M) as [_ Hr].
  unfold notified_logs, mined_receipts, mined_block_by_hash, info_block. cbn [fst].
  rewrite (mb_block _ _ _ _ _ M). unfold convert_block. rewrite u256_as_u64_ok by (by rewrite N1). cbn [mbind exec_bind fmap exec_fmap].
  cbn -[filter_logs]. rewrite Hr. unfold filter_logs.
  rewrite (receipts_filter_logs_spec b params infos) with (first := 0%nat) (k := 0%nat); [done|lia|].
  by apply (mined_block_belong s' o).
Qed.
End Logs.

Section Mined.
Context `{!Evm} `{!Hashing} `{!StateStore} `{!NodeDb} `{!LogFilter} `{!BlockChannel} `{!SpecIdOrder} `{!FilterParams}.
Variable config : NodeConfig.
Hypothesis evm_gas : forall c b e db r tr db',
  inspect_commit c b e db = (Ok r, tr, db') -> is_u64 (result_gas r).
Hypothesis separates : hash_separates.

(** A filter without addresses, or without topics, matches all of them. *)
Hypothesis no_address : forall f l, has_address f = false -> filter_address f l = true.
Hypothesis no_topics : forall f l, has_topics f = false -> filter_topics f l = true.

Lemma is_match_filters f l : is_match f l = filter_address f l && filter_topics f l.
Proof using no_address no_topics.
  unfold is_match. destruct (has_address f) eqn:Ha, (has_topics f) eqn:Ht; cbn.
  - done.
  - by rewrite (no_topics f l Ht), andb_true_r.
  - by rewrite (no_address f l Ha).
  - by rewrite (no_address f l Ha), (no_topics f l Ht).
Qed.

(** C31: The two ways to the logs of a block agree: when a block was mined, a
    polled filter or a subscription that is notified of it reports exactly
    the logs that [eth_getLogs] reports for the block, with the same
    positions.  The filter's range has the block and a block hash that it names
    is the block's; the node keeps the transactions of all blocks (no limit on
    the blocks whose transactions are kept is configured, which could already
    have pruned them); no transaction is twice in the block, which has at most
    2^32; and a header's hash determines its number. *)
Theorem filter_changes_are_logs bs now txs s o s' f hd :
  node_inv bs s -> transaction_block_keeper config = None -> Forall hash_consistent txs ->
  do_mine_block config now txs s = Ret (Some (o, s')) -> NoDup (PoolTransaction.hash <$> outcome_included o) ->
  Z.of_nat (length (outcome_included o)) <= 2 ^ 32 ->
  filter_block_range f (best_number (storage s')) = true -> filter_block_hash f (best_hash (storage s')) = true ->
  exists b, get_block_by_hash (storage s') (best_hash (storage s')) = Some b /\
    notified_logs s' (Some f) (best_hash (storage s'), hd) = Ret (Some (mined_logs_for_block s' f b)).
Proof using evm_gas separates no_address no_topics.
  intros I Hk Hc Hm Hnd Hlen Hr Hh.
  destruct (mine_mined_block config evm_gas separates bs now txs s o s' I Hk Hc Hm Hnd) as (b & infos & receipts & M).
  exists b. split; [apply (mb_block _ _ _ _ _ M)|]. rewrite (notified_logs_mined _ _ _ _ _ (Some f) hd M Hlen).
  destruct (mine_step config evm_gas separates bs now txs s o s' I Hm) as (r & os & _ & I').
  assert (best_hash (storage s') = header_hash (header b)) as Hbh.
  { apply (ch_blocks _ _ (ni_chain _ _ I') _ _), (mb_block _ _ _ _ _ M). }
  destruct (mb_number _ _ _ _ _ M) as [N1 _].
  do 2 f_equal. unfold mined_logs_for_block. rewrite (infos_logs_spec _ _ _ _ 0).
  destruct (mined_block_known _ _ _ _ _ M) as [-> _]. unfold accepted_logs. apply list_filter_iff. intros l.
  unfold accepts. rewrite N1, <- Hbh, Hr, Hh, is_match_filters. done.
Qed.
End Mined.

(** ** Subscriptions *)
Section Subscriptions.
Context `{!Evm} `{!Hashing} `{!StateStore} `{!NodeDb} `{!LogFilter} `{!BlockChannel} `{!SpecIdOrder} `{!FilterParams}.

(** [all] are the logs that the subscription still has to deliver. *)
Definition expects (s : Node) (sub : LogsSubscription) (all : list RpcLog) : Prop :=
  exists lss, Forall2 (fun n ls => notified_logs s (ls_filter sub) n = Ret (Some ls)) (rx_queue (ls_blocks sub)) lss /\
    all = ls_queued sub ++ concat lss.

Lemma expects_cons s sub l all :
  expects s sub (l :: all) ->
  exists sub', logs_sub_poll s sub = Ret (Ready (Some l), sub') /\ expects s sub' all /\
    rx_closed (ls_blocks sub') = rx_closed (ls_blocks sub).
Proof.
  destruct sub as [[q closed] f queued]. intros (lss & Hq & Hall). cbn in *. unfold logs_sub_poll. cbn.
  revert queued Hall. induction Hq as [|n ls q lss Hn Hq IH]; intros [|l' queued] Hall; cbn in Hall; simplify_eq.
  - eexists. split; [done|]. split; [|done]. by exists [].
  - cbn [logs_sub_loop]. rewrite Hn. cbn. destruct ls as [|l' ls].
    + by apply (IH []).
    + simplify_eq/=. eexists. split; [done|]. split; [|done]. by exists lss.
  - cbn [logs_sub_loop]. eexists. split; [done|]. split; [|done]. exists (ls :: lss). by split; [constructor|].
Qed.

Lemma expects_nil s sub :
  expects s sub [] ->
  logs_sub_poll s sub =
    Ret (if rx_closed (ls_blocks sub) then Ready None else Pending,
         mkLogsSub (mkRx [] (rx_closed (ls_blocks sub))) (ls_filter sub) []).
Proof.
  destruct sub as [[q closed] f queued]. intros (lss & Hq & Hall). cbn in *. unfold logs_sub_poll. cbn.
  symmetry in Hall. apply app_eq_nil in Hall as [-> Hc]. induction Hq as [|n ls q lss Hn Hq IH]; [done|].
  cbn in Hc. apply app_eq_nil in Hc as [-> Hc]. cbn [logs_sub_loop]. rewrite Hn. cbn. by apply IH.
Qed.

Fixpoint sub_polls (s : Node) (k : nat) (sub : LogsSubscription) : exec (list (poll (option RpcLog)) * LogsSubscription) :=
  match k with
  | O => Ret ([], sub)
  | S k =>
      '(p, sub) ← logs_sub_poll s sub;
      '(ps, sub) ← sub_polls s k sub;
      Ret (p :: ps, sub)
  end.

(** A subscription delivers the logs of every block it was notified of, in
    order and each once, one per poll, and reports nothing more until the next
    notification, as long as the blocks are still in the node. *)
Theorem subscription_delivers s sub all :
  expects s sub all -> rx_closed (ls_blocks sub) = false ->
  exists sub', sub_polls s (length all) sub = Ret (Ready ∘ Some <$> all, sub') /\
    logs_sub_poll s sub' = Ret (Pending, mkLogsSub (mkRx [] false) (ls_filter sub') []).
Proof.
  revert sub. induction all as [|l all IH]; intros sub He Hc.
  - exists sub. split; [done|]. by rewrite (expects_nil s sub He), Hc.
  - destruct (expects_cons s sub l all He) as (sub1 & Hp & He1 & Hc1).
    destruct (IH sub1 He1) as (sub2 & Hps & Hend); [by rewrite Hc1|].
    exists sub2. split; [|done]. cbn [length sub_polls]. rewrite Hp. cbn [mbind exec_bind]. by rewrite Hps.
Qed.
End Subscriptions.

(** ** Filters *)
Section Filters.
Context `{!Evm} `{!Hashing} `{!StateStore} `{!NodeDb} `{!LogFilter} `{!BlockChannel} `{!SpecIdOrder} `{!FilterParams}.

(** A new block is sent to every receiver of block notifications. *)
Definition push_block (n : Notification) (f : EthFilter) : EthFilter :=
  let push rx := mkRx (rx_queue rx ++ [n]) (rx_closed rx) in
  match f with
  | FLogs l => FLogs (mkLogsFilter (push (lf_blocks l)) (lf_filter l) (lf_historic l))
  | FBlocks rx => FBlocks (push rx)
  | FPendingTransactions tx => FPendingTransactions tx
  end.
Definition notify_filters (n : Notification) (f : Filters) : Filters :=
  mkFilters ((fun '(e, d) => (push_block n e, d)) <$> active_filters f) (keepalive f).

Inductive filters_op :=
| FOpBlock (n : Notification)
| FOpAdd (now : Z) (id : string) (filter : EthFilter)
| FOpPoll (now : Z) (s : Node) (id : string)
| FOpUninstall (id : string)
| FOpEvict (now : Z).

(** The answers to the polls of the filter [me]. *)
Definition run_filters_op (me : string) (op : filters_op) (f : Filters) : exec (list H256 * Filters) :=
  match op with
  | FOpBlock n => Ret ([], notify_filters n f)
  | FOpAdd now id filter => Ret ([], add_filter now id filter f)
  | FOpPoll now s id =>
      '(r, f) ← get_filter_changes now s id f;
      Ret (if decide (id = me) then match r with HashChanges hs => hs | _ => [] end else [], f)
  | FOpUninstall id => Ret ([], snd (uninstall_filter id f))
  | FOpEvict now => Ret ([], evict now f)
  end.
Fixpoint run_filters (me : string) (ops : list filters_op) (f : Filters) : exec (list H256 * Filters) :=
  match ops with
  | [] => Ret ([], f)
  | op :: ops =>
      '(hs, f) ← run_filters_op me op f;
      '(hs', f) ← run_filters me ops f;
      Ret (hs ++ hs', f)
  end.

(** The hashes of the blocks of a run, when [me] was last polled, and whether
    it is used as its owner should: nobody else installs or removes it, and it
    is polled within the time it is kept. *)
Definition block_hashes (ops : list filters_op) : list H256 :=
  ops ≫= fun op => match op with FOpBlock n => [fst n] | _ => [] end.
Definition last_poll (me : string) (since : Z) (ops : list filters_op) : Z :=
  fold_left (fun t op => match op with FOpPoll now _ id => if decide (id = me) then now else t | _ => t end) ops since.
Fixpoint in_time (me : string) (keep since : Z) (ops : list filters_op) : Prop :=
  match ops with
  | [] => True
  | op :: ops =>
      match op with
      | FOpAdd _ id _ | FOpUninstall id => id <> me
      | FOpEvict now => now <= since + keep
      | _ => True
      end /\ in_time me keep (last_poll me since [op]) ops
  end.

Lemma block_filter_step me op f hs f' rx d since :
  active_filters f !! me = Some (FBlocks rx, d) -> d = since + keepalive f ->
  run_filters_op me op f = Ret (hs, f') -> in_time me (keepalive f) since [op] ->
  exists rx' d', active_filters f' !! me = Some (FBlocks rx', d') /\ d' = last_poll me since [op] + keepalive f /\
    keepalive f' = keepalive f /\ hs ++ (rx_queue rx').*1 = (rx_queue rx).*1 ++ block_hashes [op].
Proof.
  intros Hme -> Hr [Hin _]. destruct op as [n|now id e|now s id|id|now]; cbn in Hr |- *.
  - simplify_eq. cbn. rewrite lookup_fmap, Hme. eexists _, _. split_and!; [done..|]. cbn. by rewrite fmap_app.
  - simplify_eq. cbn. rewrite lookup_insert_ne by done. eexists _, _. rewrite app_nil_r. by split_and!.
  - unfold get_filter_changes in Hr. case_decide as Hid.
    + subst id. rewrite Hme in Hr. cbn in Hr. simplify_eq. cbn. rewrite lookup_insert_eq. eexists _, _. by split_and!.
    + destruct (active_filters f !! id) as [[e d]|].
      * apply exec_bind_Ret in Hr as ([r f1] & Hg & Hr). apply exec_bind_Ret in Hg as ([r1 e1] & _ & Hg). simplify_eq. cbn.
        rewrite lookup_insert_ne by done. eexists _, _. rewrite app_nil_r. by split_and!.
      * cbn in Hr. simplify_eq. eexists _, _. rewrite app_nil_r. by split_and!.
  - simplify_eq. cbn. rewrite lookup_delete_ne by done. eexists _, _. rewrite app_nil_r. by split_and!.
  - simplify_eq. cbn. exists rx, (since + keepalive f). rewrite app_nil_r. split_and!; try done.
    by apply map_lookup_filter_Some.
Qed.

(** C32: A block filter that is polled in time loses nothing and repeats nothing:
    the answers so far, followed by what waits for the next poll, are the
    hashes of all blocks since it was installed, in order; and it is kept until
    the keep-alive time after its last poll. *)
Theorem block_filter_exactly_once me now0 f0 ops hs f :
  run_filters me ops (add_filter now0 me (FBlocks (mkRx [] false)) f0) = Ret (hs, f) ->
  in_time me (keepalive f0) now0 ops ->
  exists rx d, active_filters f !! me = Some (FBlocks rx, d) /\ d = last_poll me now0 ops + keepalive f0 /\
    hs ++ (rx_queue rx).*1 = block_hashes ops.
Proof.
  intros Hr Hin.
  assert (forall ops f1 rx d since hs f, active_filters f1 !! me = Some (FBlocks rx, d) -> d = since + keepalive f1 ->
    run_filters me ops f1 = Ret (hs, f) -> in_time me (keepalive f1) since ops ->
    exists rx' d', active_filters f !! me = Some (FBlocks rx', d') /\ d' = last_poll me since ops + keepalive f1 /\
      hs ++ (rx_queue rx').*1 = (rx_queue rx).*1 ++ block_hashes ops) as Hrun.
  { clear. induction ops as [|op ops IH]; intros f1 rx d since hs f Hme Hd Hr Hin; cbn [run_filters] in Hr.
    { simplify_eq. eexists _, _. rewrite app_nil_r. by split_and!. }
    apply exec_bind_Ret in Hr as ([h1 f2] & H1' & Hr). apply exec_bind_Ret in Hr as ([h2 f3] & H2' & Hr). simplify_eq.
    cbn [in_time] in Hin. destruct Hin as [Hop Hin].
    destruct (block_filter_step me op f1 h1 f2 rx _ since Hme eq_refl H1' (conj Hop I)) as (rx1 & d1 & Hm1 & Hd1 & Hk & Hq1).
    rewrite <- Hk in Hd1, Hin. destruct (IH f2 rx1 d1 _ h2 f Hm1 Hd1 H2' Hin) as (rx2 & d2 & Hm2 & -> & Hq2).
    eexists _, _. split_and!; [done|by rewrite Hk|].
    rewrite <- app_assoc, Hq2, app_assoc, Hq1, <- app_assoc. f_equal. unfold block_hashes. cbn. by rewrite app_nil_r. }
  destruct (Hrun ops _ (mkRx [] false) _ now0 hs f (lookup_insert_eq _ _ _) eq_refl Hr Hin) as (rx & d & Hm & Hd & Hq). by eexists _, _.
Qed.

(** A filter is evicted exactly if its deadline, the keep-alive time after its
    last poll, has passed; afterwards polls are answered with nothing. *)
Lemma evict_spec now s f id :
  active_filters (evict now f) !! id =
    match active_filters f !! id with Some (e, d) => if decide (now <= d) then Some (e, d) else None | None => None end /\
  (active_filters f !! id = None -> get_filter_changes now s id f = Ret (NoChanges, f)).
Proof.
  split.
  - unfold evict. cbn. destruct (active_filters f !! id) as [[e d]|] eqn:Hf.
    + case_decide; [by apply map_lookup_filter_Some|]. apply map_lookup_filter_None. right. intros x Hx. by simplify_eq.
    + apply map_lookup_filter_None. by left.
  - intros Hn. unfold get_filter_changes. by rewrite Hn.
Qed.
End Filters.

(** ** On the toy node *)
Module Subscribed.
Import Toy.
#[export] Instance params : FilterParams := {|
  filter_block_range f n := bool_decide (fst f <= n <= snd f);
  filter_block_hash _ _ := true |}.

Definition some_header : Header.t := header (genesis_block env0 (Some 0) 1000).
Definition note (hash : H256) : Notification := (hash, some_header).
Definition tell (q : list H256) : LogsSubscription := mkLogsSub (mkRx (note <$> q) false) (Some (0, 5)) [].

Lemma filter_changes_are_logs_witness :
  exists b, get_block_by_hash (storage (snd mined1)) 1001 = Some b /\
    notified_logs (snd mined1) (Some (0, 5)) (note 1001) = Ret (Some (mined_logs_for_block (snd mined1) (0, 5) b)).
Proof.
  apply (filter_changes_are_logs config toy_gas_u64 separates (fun _ _ _ => eq_refl) (fun _ _ _ => eq_refl) genesis_blocks 5000
    [tx 1 11 2; tx 2 12 1] genesis (fst mined1) (snd mined1) (0, 5) some_header);
    [apply genesis_inv|reflexivity|apply txs_consistent|reflexivity|refine (bool_decide_unpack _ _); reflexivity|
     vm_compute; discriminate|reflexivity|reflexivity].
Defined.

Definition block1_logs : list RpcLog :=
  match notified_logs (snd mined1) (Some (0, 5)) (note 1001) with Ret (Some l) => l | _ => [] end.
Lemma subscription_delivers_witness :
  length block1_logs = 3%nat /\
  exists sub', sub_polls (snd mined1) 3 (tell [1001]) = Ret (Ready ∘ Some <$> block1_logs, sub').
Proof.
  split; [reflexivity|].
  destruct (subscription_delivers (snd mined1) (tell [1001]) block1_logs) as (sub' & Hp & _); [|reflexivity|].
  - exists [block1_logs]. split; [repeat constructor|reflexivity].
  - exists sub'. exact Hp.
Defined.

Lemma block_filter_exactly_once_witness :
  let ops := [FOpBlock (note 1001); FOpPoll 10 genesis "0x1"; FOpEvict 300; FOpBlock (note 1002)] in
  exists f, run_filters "0x1" ops (add_filter 0 "0x1" (FBlocks (mkRx [] false)) filters_default) = Ret ([1001], f) /\
    exists rx d, active_filters f !! "0x1" = Some (FBlocks rx, d) /\ d = 310 /\ [1001] ++ (rx_queue rx).*1 = [1001; 1002].
Proof.
  eexists. split; [reflexivity|].
  apply (block_filter_exactly_once "0x1" 0 filters_default
    [FOpBlock (note 1001); FOpPoll 10 genesis "0x1"; FOpEvict 300; FOpBlock (note 1002)] [1001]); [reflexivity|].
  cbn. repeat split; discriminate.
Defined.

(** A subscription stalls on a block that a revert removed: it reports that
    nothing is ready although the next block it was notified of is known and
    has logs; they come only with a later poll, which nothing causes. *)
Theorem subscription_stalls_on_removed_block :
  get_block_by_hash (storage (snd mined1)) 1002 = None /\
  exists sub, logs_sub_poll (snd mined1) (tell [1002; 1001]) = Ret (Pending, sub) /\ sub = tell [1001] /\
    fst <$> logs_sub_poll (snd mined1) sub = Ret (Ready (head block1_logs)) /\ head block1_logs <> None.
Proof. split; [reflexivity|]. eexists. split; [reflexivity|]. split; [reflexivity|]. split; [reflexivity|]. discriminate. Qed.
End Subscribed.
