(* ===== verification/Service.v ===== *)
(** * The background service (anvil/src/service.rs, anvil/src/eth/miner.rs and
    the polling of anvil/src/eth/fees.rs)

    [NodeService] asks the miner which transactions to put into the next block,
    hands them to the block producer, tells the pool about the blocks that
    were produced, keeps the fee history and evicts stale filters.  A future
    is modelled by what a poll of it does; [clock] and [mined] say what time a
    poll reads and whether a block that is being mined is finished. *)
From S2P Require Import Prelude Transaction TimeManager Hardfork Block Rlp Fees Snapshots PoolTx PendingTxs.
From S2P Require Import ReadyTxs TxIterator Pool Db BlockStates Validator Executor Chain Cheats Node Backend.
From S2P Require Import BackendProps NodeProps PubSub Api.
Open Scope Z_scope.

(** [tokio::time::Interval] *)
Class Timer := {
  Interval : Type;
  interval_at : Z -> Z -> Interval;
  poll_tick : Z -> Interval -> bool * Interval }.

Section Service.
Context `{!Evm} `{!Hashing} `{!StateStore} `{!NodeDb} `{!LogFilter} `{!BlockChannel} `{!SpecIdOrder} `{!FilterParams}.
Context `{!HashIter TxMarker} `{!HashIter TxHash} `{!Channel} `{!RlpLib} `{!ApiLib} `{!Timer}.
Variable config : NodeConfig.

(** ** Miner *)
Record ReadyTransactionMiner := mkReadyMiner {
  max_transactions : nat;
  has_pending_txs : option bool;
  rx : receiver TxHash }.
Inductive MiningMode :=
| ModeNone
| ModeAuto (miner : ReadyTransactionMiner)
| ModeFixedBlockTime (interval : Interval).

Definition instant (max_transactions : nat) (listener : receiver TxHash) : MiningMode :=
  ModeAuto (mkReadyMiner max_transactions None listener).
Definition interval (now duration : Z) : MiningMode := ModeFixedBlockTime (interval_at (now + duration) duration).
Definition is_auto_mine (m : MiningMode) : bool := match m with ModeAuto _ => true | _ => false end.
Definition is_interval (m : MiningMode) : bool := match m with ModeFixedBlockTime _ => true | _ => false end.

Definition ready_miner_poll (transactions : list PoolTransaction.t) (m : ReadyTransactionMiner)
    : poll (list PoolTransaction.t) * ReadyTransactionMiner :=
  let '(hashes, rx) := drain (rx m) in
  let has_pending := match hashes with [] => has_pending_txs m | _ => Some true end in
  match has_pending with
  | Some false => (Pending, mkReadyMiner (max_transactions m) has_pending rx)
  | _ =>
      let transactions := take (max_transactions m) transactions in
      let m := mkReadyMiner (max_transactions m) (Some (bool_decide (max_transactions m <= length transactions)%nat)) rx in
      match transactions with [] => (Pending, m) | _ => (Ready transactions, m) end
  end.

(** [MiningMode::poll]; [transactions] are the pool's ready ones. *)
Definition mode_poll (now : Z) (transactions : list PoolTransaction.t) (m : MiningMode)
    : poll (list PoolTransaction.t) * MiningMode :=
  match m with
  | ModeNone => (Pending, ModeNone)
  | ModeAuto miner => let '(p, miner) := ready_miner_poll transactions miner in (p, ModeAuto miner)
  | ModeFixedBlockTime interval =>
      let '(tick, interval) := poll_tick now interval in
      (if tick : bool then Ready transactions else Pending, ModeFixedBlockTime interval)
  end.

(** ** BlockProducer: the batch that is being mined and the backlog; the
    backend is idle if no batch is being mined *)
Record BlockProducer := mkProducer {
  block_mining : option (list PoolTransaction.t);
  queued : list (list PoolTransaction.t) }.

(** [mined] says whether the block is finished with this poll; [None] if
    storing a historic state does not end. *)
Definition producer_poll (now : Z) (mined : bool) (p : BlockProducer) (n : Node)
    : exec (option (poll MinedBlockOutcome * BlockProducer * Node)) :=
  let p :=
    match block_mining p, queued p with
    | None, transactions :: rest => mkProducer (Some transactions) rest
    | _, _ => p
    end in
  match block_mining p with
  | None => Ret (Some (Pending, p, n))
  | Some transactions =>
      if mined then
        r ← do_mine_block config now transactions n;
        match r with
        | None => Ret None
        | Some (outcome, n) => Ret (Some (Ready outcome, mkProducer None (queued p), n))
        end
      else Ret (Some (Pending, p, n))
  end.

(** ** FeeHistoryService *)
Record FeeHistoryService := mkFeeHistory {
  new_blocks : receiver Notification;
  cache : gmap Z FeeHistoryCacheItem;
  fee_history_limit : Z }.
Definition fee_history_new (new_blocks : receiver Notification) (cache : gmap Z FeeHistoryCacheItem) : FeeHistoryService :=
  mkFeeHistory new_blocks cache MAX_FEE_HISTORY_CACHE_SIZE.
Fixpoint fee_history_blocks (n : Node) (limit : Z) (q : list Notification) (cache : gmap Z FeeHistoryCacheItem)
    : exec (gmap Z FeeHistoryCacheItem) :=
  match q with
  | [] => Ret cache
  | notification :: q =>
      receipts ← mined_receipts n (fst notification);
      '(item, block_number) ← create_cache_entry (fees n) (info_block n (fst notification)) receipts default_elasticity;
      cache ← insert_cache_entry limit item block_number cache;
      fee_history_blocks n limit q cache
  end.
Definition fee_history_poll (n : Node) (f : FeeHistoryService) : exec FeeHistoryService :=
  let '(q, rx) := drain (new_blocks f) in
  cache ← fee_history_blocks n (fee_history_limit f) q (cache f);
  Ret (mkFeeHistory rx cache (fee_history_limit f)).

(** ** NodeService *)
Record Service := mkService {
  api : Api;
  block_producer : BlockProducer;
  miner : MiningMode;
  fee_history : FeeHistoryService;
  filters : Filters;
  filter_eviction_interval : Interval }.

Definition service_new (now : Z) (api : Api) (miner : MiningMode) (fee_history : FeeHistoryService) (filters : Filters) : Service :=
  mkService api (mkProducer None []) miner fee_history filters
    (interval_at (now + keepalive filters) (keepalive filters)).

Definition set_production (a : Api) (p : BlockProducer) (s : Service) : Service :=
  mkService a p (miner s) (fee_history s) (filters s) (filter_eviction_interval s).
Definition set_miner (m : MiningMode) (p : BlockProducer) (s : Service) : Service :=
  mkService (api s) p m (fee_history s) (filters s) (filter_eviction_interval s).

Variable clock : Service -> Z.
Variable mined : Service -> bool.

(** [while let Poll::Ready(Some(outcome)) = block_producer.poll_next_unpin(cx)]:
    every turn finishes a batch, so [n] bounds the turns. *)
Fixpoint produce (n : nat) (s : Service) : exec (option Service) :=
  match n with
  | O => Ret None
  | S n =>
      r ← producer_poll (clock s) (mined s) (block_producer s) (backend (api s));
      match r with
      | None => Ret None
      | Some (Pending, p, b) => Ret (Some (set_production (set_backend b (api s)) p s))
      | Some (Ready outcome, p, b) =>
          '(_, pl) ← Pool.on_mined_block (pool (api s)) (outcome_included outcome) (outcome_invalid_txs outcome);
          produce n (set_production (set_pool pl (set_backend b (api s))) p s)
      end
  end.
Definition produce_all (s : Service) : exec (option Service) := produce (S (S (length (queued (block_producer s))))) s.

(** The [loop] that drives block production, for at most [n] turns. *)
Fixpoint drive (n : nat) (s : Service) : exec (option Service) :=
  match n with
  | O => Ret None
  | S n =>
      r ← produce_all s;
      match r with
      | None => Ret None
      | Some s =>
          let '(p, m) := mode_poll (clock s) (ready_transactions (api s)) (miner s) in
          let producer := block_producer s in
          match p with
          | Ready transactions =>
              drive n (set_miner m (mkProducer (block_mining producer) (queued producer ++ [transactions])) s)
          | Pending => Ret (Some (set_miner m producer s))
          end
      end
  end.

Definition service_poll (n : nat) (s : Service) : exec (option Service) :=
  r ← drive n s;
  match r with
  | None => Ret None
  | Some s =>
      fh ← fee_history_poll (backend (api s)) (fee_history s);
      let now := clock s in
      let '(tick, interval) := poll_tick now (filter_eviction_interval s) in
      let fs := if tick : bool then evict now (filters s) else filters s in
      Ret (Some (mkService (api s) (block_producer s) (miner s) fh fs interval))
  end.

(** ** The handlers that change the mode *)
Definition anvil_set_auto_mine (enable_automine : bool) (tx : Sender) (listener : receiver TxHash) (s : Service) : Service :=
  if is_auto_mine (miner s) then
    if enable_automine then s else set_miner ModeNone (block_producer s) s
  else if enable_automine then
    let s := set_production (set_pool (Pool.add_ready_listener (pool (api s)) tx) (api s)) (block_producer s) s in
    set_miner (instant 1000 listener) (block_producer s) s
  else s.

(** [None] if enforcing the limits of the stored states does not end. *)
Definition anvil_set_interval_mining (now secs : Z) (s : Service) : option Service :=
  if decide (secs = 0) then Some (set_miner ModeNone (block_producer s) s)
  else
    let b := backend (api s) in
    st ← InMemoryBlockStates.update_interval_mine_block_time (length (InMemoryBlockStates.history (states b))) secs (states b);
    Some (set_miner (interval now secs) (block_producer s)
            (set_production (set_backend (set_states st b) (api s)) (block_producer s) s)).

(** ** The handlers of filters

    A new channel is its sender, which the node keeps, and its receiver; [id]
    is the random id of the new filter. *)
Definition set_filters (fs : Filters) (s : Service) : Service :=
  mkService (api s) (block_producer s) (miner s) (fee_history s) fs (filter_eviction_interval s).
Definition new_block_notifications (tx : BlockSender) (n : Node) : Node :=
  mkNode (db n) (storage n) (states n) (env_cfg n) (env_block n) (time n) (fees n) (active_snapshots n)
    (new_block_listeners n ++ [tx]).
Definition new_ready_transactions (tx : Sender) (s : Service) : Service :=
  set_production (set_pool (Pool.add_ready_listener (pool (api s)) tx) (api s)) (block_producer s) s.
Definition listen_blocks (tx : BlockSender) (s : Service) : Service :=
  set_production (set_backend (new_block_notifications tx (backend (api s))) (api s)) (block_producer s) s.

Definition new_filter (now : Z) (id : string) (tx : BlockSender) (rx : receiver Notification) (filter : Filter) (s : Service)
    : result string BlockchainError * Service :=
  let historic :=
    match get_from_block filter with
    | Some _ => logs config (backend (api s)) filter
    | None => Ok []
    end in
  match historic with
  | Err e => (Err e, s)
  | Ok historic =>
      let s := listen_blocks tx s in
      (Ok id, set_filters (add_filter now id (FLogs (mkLogsFilter rx (Some filter) (Some historic))) (filters s)) s)
  end.
Definition new_block_filter (now : Z) (id : string) (tx : BlockSender) (rx : receiver Notification) (s : Service)
    : result string BlockchainError * Service :=
  let s := listen_blocks tx s in
  (Ok id, set_filters (add_filter now id (FBlocks rx) (filters s)) s).
Definition new_pending_transaction_filter (now : Z) (id : string) (tx : Sender) (rx : receiver TxHash) (s : Service)
    : result string BlockchainError * Service :=
  let s := new_ready_transactions tx s in
  (Ok id, set_filters (add_filter now id (FPendingTransactions rx) (filters s)) s).
Definition eth_get_filter_changes (now : Z) (id : string) (s : Service) : exec (FilterChanges * Service) :=
  '(r, fs) ← get_filter_changes now (backend (api s)) id (filters s);
  Ret (r, set_filters fs s).
Definition get_filter_logs (id : string) (s : Service) : result (list RpcLog) BlockchainError :=
  match get_log_filter id (filters s) with
  | Some filter => logs config (backend (api s)) filter
  | None => Ok []
  end.
Definition eth_uninstall_filter (id : string) (s : Service) : bool * Service :=
  let '(f, fs) := uninstall_filter id (filters s) in
  (match f with Some _ => true | None => false end, set_filters fs s).
End Service.
