(* ===== verification/ServiceProps.v ===== *)
(** * Automatic mining empties the pool

    The service mines what is ready, block after block, until nothing is ready
    any more. *)
From S2P Require Import Prelude Transaction TimeManager Hardfork Block Rlp Fees Snapshots PoolTx PendingTxs.
From S2P Require Import ReadyTxs TxIterator Pool PoolInv PoolProps Db BlockStates Validator Executor Chain Cheats.
From S2P Require Import Node Backend BackendProps NodeProps PubSub Api ApiProps Service.
Open Scope Z_scope.

Section ServiceProps.
Context `{!Evm} `{!Hashing} `{!StateStore} `{!NodeDb} `{!LogFilter} `{!BlockChannel} `{!SpecIdOrder} `{!FilterParams}.
Context `{!HashIter TxMarker} `{!HashIter TxHash} `{!Channel} `{!RlpLib} `{!ApiLib} `{!Timer}.
Variable config : NodeConfig.
Hypothesis evm_gas : forall c b e db r tr db',
  inspect_commit c b e db = (Ok r, tr, db') -> is_u64 (result_gas r).
Hypothesis separates : hash_separates.
Context (sender_of : TxHash -> Address) (nonce_of : TxHash -> Z) (dependent : TxHash -> bool).
#[local] Instance universe : Universe := nonce_universe sender_of nonce_of dependent hash_consistent.
Notation refines := (refines sender_of nonce_of dependent).

(** ** What a block deals with *)

(** The transactions that a block with the gas limit [limit] has room for. *)
Definition fits (limit : Z) (t : PoolTransaction.t) : Prop :=
  exists env, to_revm_tx_env (PoolTransaction.pending_transaction t) = Ret env /\ 0 <= env_tx_gas_limit env <= limit.

(** The database of the node does not fail. *)
Hypothesis no_db_error : evm_db_error -> False.

Lemma mined_covers bs now txs n o n' t :
  node_inv bs n -> do_mine_block config now txs n = Ret (Some (o, n')) ->
  BlockEnv.gas_limit (env_block n) <= U256_MAX -> t ∈ txs -> fits (BlockEnv.gas_limit (env_block n)) t ->
  t ∈ outcome_included o \/ t ∈ outcome_invalid_txs o.
Proof using evm_gas separates no_db_error.
  intros I Hm Hmax Ht (env & He & Hpos & Hle).
  destruct (mine_step config evm_gas separates bs now txs n o n' I Hm) as (r & os & [_ _ (inner & M3 & _) -> _ _ _] & _).
  destruct M3 as (s1 & Hsteps & Hos & _ & Hinc & Hinv & _).
  destruct (steps_spec _ _ _ evm_gas _ _ _ Hsteps) as (_ & _ & Hg). cbn in Hos, Hg. rewrite <- Hos in Ht.
  apply list_elem_of_fmap in Ht as (x & -> & Hx). cbn. rewrite Hinc, Hinv.
  rewrite Forall_forall in Hg. specialize (Hg x Hx). destruct x as [e|tx err|tx|tx err]; cbn in *.
  - left. apply list_elem_of_fmap. exists e. split; [done|]. apply list_elem_of_omap. by exists (Executed e).
  - right. apply list_elem_of_omap. by exists (Invalid tx err).
  - specialize (Hg env He). unfold u256_saturating_add, saturate in Hg. lia.
  - by destruct (no_db_error err).
Qed.

Lemma mine_gas_limit now txs n o n' :
  do_mine_block config now txs n = Ret (Some (o, n')) ->
  BlockEnv.gas_limit (env_block n') = BlockEnv.gas_limit (env_block n).
Proof.
  unfold do_mine_block. intros ([ts tm] & _ & Hm)%exec_bind_Ret. destruct (store_state config n) as [st|]; [|done].
  apply exec_bind_Ret in Hm as ([[[block infos receipts] included invalid] inner] & _ & Hm).
  apply exec_bind_Ret in Hm as (bn & _ & (fee & _ & Hm)%exec_bind_Ret). by simplify_eq.
Qed.

Lemma elem_iteration r t :
  ReadyTransactions.inv r ->
  t ∈ iteration r <-> ReadyTransaction.pool_tx <$> ReadyTransactions.ready_tx r !! PoolTransaction.hash t = Some t.
Proof.
  intros Hi. destruct (iteration_spec r Hi) as (_ & Hperm & _). rewrite Hperm, list_elem_of_fmap. split.
  - intros (rt & -> & ([h rt'] & -> & Hm%elem_of_map_to_list)%list_elem_of_fmap). cbn.
    assert (PoolTransaction.hash (ReadyTransaction.pool_tx rt') = h) as -> by (by apply (ReadyTransactions.iv_tx _ _ Hi)).
    by rewrite Hm.
  - intros (rt & Hr & ->)%fmap_Some. exists rt. split; [done|]. apply list_elem_of_fmap.
    eexists (_, rt). split; [done|]. by apply elem_of_map_to_list.
Qed.

(** ** The turns of the loop *)
Section Turns.
(** The time that a poll reads; a block is finished by the poll that starts it. *)
Variable clock : Service -> Z.
Notation drive := (drive config clock (fun _ => true)).
Notation produce_all := (produce_all config clock (fun _ => true)).

(** The service mines one block after the other until nothing is ready: each is
    made of the first [max] ready transactions, and includes or rejects every
    one of them. *)
Inductive mines (max : nat) : Api -> list MinedBlockOutcome -> Api -> Prop :=
| mines_done a : ready_transactions a = [] -> mines max a [] a
| mines_block a sv o a1 os a2 :
    ready_transactions a <> [] ->
    mine_batch config (clock sv) (take max (ready_transactions a)) a = Ret (Some (o, a1)) ->
    (forall t, t ∈ take max (ready_transactions a) -> t ∈ outcome_included o \/ t ∈ outcome_invalid_txs o) ->
    mines max a1 os a2 -> mines max a (o :: os) a2.

(** The part of a turn after the blocks are produced. *)
Definition feed (n : nat) (s : Service) : exec (option Service) :=
  let '(p, m) := mode_poll (clock s) (ready_transactions (api s)) (miner s) in
  let producer := block_producer s in
  match p with
  | Ready transactions => drive n (set_miner m (mkProducer (block_mining producer) (queued producer ++ [transactions])) s)
  | Pending => Ret (Some (set_miner m producer s))
  end.
Lemma drive_S n s : drive (S n) s = (r ← produce_all s; match r with None => Ret None | Some s => feed n s end).
Proof. done. Qed.

Lemma produce_idle s : block_producer s = mkProducer None [] -> produce_all s = Ret (Some s).
Proof. destruct s as [[] p ? ? ? ?]. cbn. by intros ->. Qed.

Lemma produce_batch s batch :
  block_producer s = mkProducer None [batch] ->
  produce_all s =
    (r ← mine_batch config (clock s) batch (api s);
     Ret (match r with None => None | Some (_, a) => Some (set_production a (mkProducer None []) s) end)).
Proof.
  destruct s as [a p m f fs i]. cbn [block_producer api]. intros ->. unfold Service.produce_all, mine_batch.
  set (now := clock _).
  cbn -[do_mine_block Pool.on_mined_block].
  replace (clock _) with now by done. destruct (do_mine_block config now batch (backend a)) as [[[o n]|]|w]; cbn; try done.
  destruct (Pool.on_mined_block _ _ _) as [[res pl]|w]; cbn; [|done]. by destruct a.
Qed.

(** Every batch of distinct transactions of [T] can be mined at any time of the
    clock, and so can the [k] - 1 batches after it. *)
Fixpoint can_build (T : list PoolTransaction.t) (k : nat) (n : Node) : Prop :=
  match k with
  | O => True
  | S k => forall sv batch, NoDup (PoolTransaction.hash <$> batch) -> (forall t, t ∈ batch -> t ∈ T) ->
      exists o n', do_mine_block config (clock sv) batch n = Ret (Some (o, n')) /\ can_build T k n'
  end.

(** If the miner believes that nothing is ready, nothing is. *)
Definition informed (m : ReadyTransactionMiner) (s : Api) : Prop :=
  has_pending_txs m = Some false -> rx_queue (rx m) = [] -> ready_transactions s = [].

(** A service that mines automatically, with no block in the making. *)
Record mining_auto (T : list PoolTransaction.t) (k : nat) (L : Ledger) (s : Service) : Prop := {
  ma_refines : refines L (api s);
  ma_budget : budget (Pool.inner (pool (api s))) 0;
  ma_idle : block_producer s = mkProducer None [];
  ma_mode : exists m, miner s = ModeAuto m /\ (0 < max_transactions m)%nat /\ informed m (api s);
  ma_ready : forall t, t ∈ ready_transactions (api s) -> t ∈ T;
  ma_fits : forall t, t ∈ T -> fits (BlockEnv.gas_limit (env_block (backend (api s)))) t;
  ma_limit : BlockEnv.gas_limit (env_block (backend (api s))) <= U256_MAX;
  ma_builds : can_build T k (backend (api s)) }.

(** Mining a non-empty batch from the front of the ready transactions. *)
Lemma mine_front T k L s sv batch rest :
  mining_auto T (S k) L s -> ready_transactions (api s) = batch ++ rest -> batch <> [] ->
  exists o a L', mine_batch config (clock sv) batch (api s) = Ret (Some (o, a)) /\ ledger_step L L' /\ refines L' a /\
    (forall t, t ∈ batch -> t ∈ outcome_included o \/ t ∈ outcome_invalid_txs o) /\
    budget (Pool.inner (pool a)) 0 /\ can_build T k (backend a) /\
    BlockEnv.gas_limit (env_block (backend a)) = BlockEnv.gas_limit (env_block (backend (api s))) /\
    (size (pool_hashes (pool a)) < size (pool_hashes (pool (api s))))%nat /\
    (forall t, t ∈ ready_transactions a -> t ∈ rest).
Proof using evm_gas separates no_db_error.
  intros [HL Hb _ _ HT Hfit Hmax Hbld] Hready Hne. pose proof (rf_pool _ _ _ _ _ HL) as Hp.
  destruct (iteration_hashes _ _ _ _ (pi_ready _ Hp)) as [Hnd Hwf]. fold (ready_transactions (api s)) in Hnd, Hwf.
  assert (ready_batch batch (api s)) as Hbatch.
  { split; [|intros t Ht; rewrite Hready; apply elem_of_app; by left].
    rewrite Hready, fmap_app in Hnd. by apply NoDup_app in Hnd as (? & _). }
  destruct (Hbld sv batch (proj1 Hbatch) (fun t Ht => HT t (proj2 Hbatch t Ht))) as (o & n & Hm & Hbld').
  assert (exists a, mine_batch config (clock sv) batch (api s) = Ret (Some (o, a)) /\ backend a = n) as (a & Ha & Hn).
  { unfold mine_batch. rewrite Hm. cbn.
    destruct (on_mined_block_spec (pool (api s)) (outcome_included o) (outcome_invalid_txs o) Hp Hb) as (res & p & -> & _).
    - apply Forall_forall. intros t Ht.
      destruct (mine_step config evm_gas separates _ _ _ _ _ _ (rf_node _ _ _ _ _ HL) Hm) as (r & os & [_ _ (inner & M3 & _) -> _ _ _] & _).
      destruct (executes_included _ _ _ _ _ _ _ _ M3) as (_ & _ & _ & Hin). by apply Hwf, Hbatch, Hin.
    - cbn. by eexists. }
  destruct (mine_batch_sim config evm_gas separates _ _ _ L (clock sv) batch (api s) o a HL Hb Hbatch Ha)
    as (b & P & Hstep & HL' & Hb' & Hgone & Hsub & Hkept).
  assert (forall t, t ∈ batch -> t ∈ outcome_included o \/ t ∈ outcome_invalid_txs o) as Hcov.
  { intros t Ht. eapply mined_covers; [apply (rf_node _ _ _ _ _ HL)|done|done|done|]. by apply Hfit, HT, Hbatch. }
  assert (forall t, t ∈ batch -> ~ pooled (Pool.inner (pool a)) (PoolTransaction.hash t)) as Hout.
  { intros t Ht. by apply Hgone, Hcov. }
  exists o, a. eexists. split_and!; [done|exact Hstep|exact HL'|exact Hcov|done|by rewrite Hn|rewrite Hn; by eapply mine_gas_limit|..].
  - apply subset_size. split.
    + intros h Hh%elem_pool_hashes. by apply elem_pool_hashes, Hsub.
    + destruct batch as [|t batch]; [done|]. intros Hss. apply (Hout t); [by left|].
      apply elem_pool_hashes, Hss, elem_pool_hashes. left. apply Hwf, Hbatch. by left.
  - intros t Ht. apply elem_iteration in Ht; [|apply (pi_ready _ (rf_pool _ _ _ _ _ HL'))].
    assert (pooled (Pool.inner (pool a)) (PoolTransaction.hash t)) as Hpt.
    { left. apply fmap_Some in Ht as (? & ? & _). by eauto. }
    apply Hkept in Ht. apply elem_iteration in Ht; [|apply (pi_ready _ Hp)].
    change (t ∈ ready_transactions (api s)) in Ht. rewrite Hready in Ht. apply elem_of_app in Ht as [Ht|Ht]; [|done].
    by destruct (Hout t Ht).
Qed.

(** How many transactions the automatic mode puts into a block. *)
Definition batch_size (m : MiningMode) : option nat := match m with ModeAuto m => Some (max_transactions m) | _ => None end.

Lemma mines_ready max a os a' : mines max a os a' -> ready_transactions a' = [].
Proof. by induction 1. Qed.

(** What a poll of the miner says: nothing, if it knows that nothing is ready
    or finds that nothing is; else a batch from the front, and whether that
    were all. *)
Lemma ready_miner_poll_spec txs m p m' :
  (0 < max_transactions m)%nat -> ready_miner_poll txs m = (p, m') ->
  max_transactions m' = max_transactions m /\ rx_queue (rx m') = [] /\
  match p with
  | Pending => has_pending_txs m = Some false /\ rx_queue (rx m) = [] \/ txs = []
  | Ready batch => batch = take (max_transactions m) txs /\ batch <> [] /\
      (has_pending_txs m' = Some false -> batch = txs)
  end.
Proof.
  intros Hmax. unfold ready_miner_poll, drain.
  set (known := match rx_queue (rx m) with [] => _ | _ => _ end).
  assert (known = Some false -> has_pending_txs m = Some false /\ rx_queue (rx m) = []) as Hk.
  { unfold known. by destruct (rx_queue (rx m)). }
  assert (Some (bool_decide (max_transactions m <= length (take (max_transactions m) txs))%nat) = Some false ->
    take (max_transactions m) txs = txs) as Hall.
  { intros [= Hlt%bool_decide_eq_false]. apply take_ge. rewrite length_take in Hlt. lia. }
  assert (take (max_transactions m) txs = [] -> txs = []) as Hnil by (destruct txs, (max_transactions m); simpl; [done..|lia|done]).
  destruct known as [[]|]; try (destruct (take _ txs) as [|t batch] eqn:Ht);
    intros [= <- <-]; cbn; split_and!; auto.
Qed.

Lemma feed_drains n : forall T L s max,
  mining_auto T n L s -> (size (pool_hashes (pool (api s))) <= n)%nat -> batch_size (miner s) = Some max ->
  exists s' L' os, feed n s = Ret (Some s') /\ mines max (api s) os (api s') /\ (length os <= n)%nat /\
    rtc ledger_step L L' /\ refines L' (api s').
Proof using evm_gas separates no_db_error.
  induction n as [n IH] using lt_wf_ind; intros T L s max Hs Hn Hsize. pose proof Hs as [HL Hb Hidle (m & Hm & Hmax & Hinf) HT Hfit Hlim Hbld].
  rewrite Hm in Hsize. injection Hsize as <-. unfold feed. rewrite Hm, Hidle. cbn [mode_poll].
  destruct (ready_miner_poll _ m) as [p m'] eqn:Hpoll. apply ready_miner_poll_spec in Hpoll as (Hmax' & Hq & Hp); [|done].
  destruct p as [batch|]; cbn [block_mining queued app].
  2: { eexists _, L, []. split_and!; [done| |simpl; lia|done|done]. apply mines_done. cbn. destruct Hp as [[Hp1 Hp2]|Hp]; [by apply Hinf|done]. }
  destruct Hp as (Hbatch & Hne & Hlast).
  assert (ready_transactions (api s) = batch ++ drop (max_transactions m) (ready_transactions (api s))) as Hready
    by (by rewrite Hbatch, take_drop).
  assert (size (pool_hashes (pool (api s))) <> 0)%nat as Hsz.
  { destruct batch as [|t batch]; [done|]. intros He%size_empty_inv. apply (not_elem_of_empty (C := gset TxHash) (PoolTransaction.hash t)). apply He, elem_pool_hashes.
    left. apply (iteration_hashes _ _ _ _ (pi_ready _ (rf_pool _ _ _ _ _ HL))). fold (ready_transactions (api s)).
    rewrite Hready. by left. }
  destruct n as [|n]; [lia|].
  destruct (mine_front T n L s (set_miner (ModeAuto m') (mkProducer None [batch]) s) batch _ Hs Hready Hne) as (o & a & L1 & Ha & Hstep & HL1 & Hcov & Hb1 & Hbld1 & Hgl & Hsize & Hrest).
  rewrite drive_S. rewrite (produce_batch _ batch) by done. cbn [set_miner api]. rewrite Ha. cbn [mbind exec_bind].
  match goal with |- context [feed n ?x] => set (s2 := x) end.
  destruct (IH n ltac:(lia) T L1 s2 (max_transactions m')) as (s' & L' & os & Hf & Hr & Hlen & Hst & HL').
  - split; cbn; rewrite ?Hgl; try done.
    + exists m'. rewrite Hmax'. split_and!; [done|done|]. intros Hp _. apply elem_of_nil_inv. intros t Ht%Hrest.
      apply (f_equal length) in Hready. rewrite length_app, (Hlast Hp) in Hready.
      rewrite (nil_length_inv (drop _ _)) in Ht by lia. by apply elem_of_nil in Ht.
    + intros t Ht%Hrest. apply HT. rewrite Hready. apply elem_of_app. by right.
  - cbn. lia.
  - done.
  - exists s', L', (o :: os). split_and!; [done| |simpl; lia|by eapply rtc_l|done].
    rewrite Hbatch in Ha, Hcov, Hne. econstructor; [by intros He; rewrite He, take_nil in Hne|exact Ha|exact Hcov|].
    by rewrite <- Hmax'.
Qed.

(** C8: Automatic mining empties the pool: polling a service whose miner is in
    automatic mode, with no block in the making, mines one block after the other
    until no transaction is ready any more.  Each block is made of as many ready
    transactions as the mode allows, in the order of the pool, and includes or
    rejects as invalid every one of them; the number of blocks is at most the
    number of transactions in the pool, and the chain and the pool change as the
    ledger of [api_refines_ledger] does.  It is assumed that a block is finished by the poll that
    starts it, that blocks of these transactions can be built at the times that
    the clock shows, that each transaction fits into a block, that the database
    does not fail, and that the miner does not believe that nothing is ready
    where something is. *)
Theorem service_drains_pool T n L s max :
  mining_auto T n L s -> (size (pool_hashes (pool (api s))) <= n)%nat -> batch_size (miner s) = Some max ->
  exists s' L' os, drive (S n) s = Ret (Some s') /\ mines max (api s) os (api s') /\ ready_transactions (api s') = [] /\
    (length os <= n)%nat /\ rtc ledger_step L L' /\ refines L' (api s').
Proof using evm_gas separates no_db_error.
  intros Hs Hn Hmax. rewrite drive_S, produce_idle by apply (ma_idle _ _ _ _ Hs).
  destruct (feed_drains n T L s max Hs Hn Hmax) as (s' & L' & os & Hf & Hm & Hlen & Hr & HL'). exists s', L', os.
  split_and!; try done. by eapply mines_ready.
Qed.
End Turns.
End ServiceProps.
