(* ===== verification/FeeHistory.v ===== *)
(** * eth_feeHistory (anvil/src/eth/api.rs, [EthApi::fee_history])

    The handler reads the cache that [FeeHistoryService] keeps. *)
From Stdlib Require Import SpecFloat.
From S2P Require Import Prelude Transaction TimeManager Hardfork Block Rlp Fees Snapshots PoolTx.
From S2P Require Import Db BlockStates Validator Executor Chain Cheats Node Backend.
Open Scope Z_scope.

(** [ethers::types::FeeHistory] *)
Record FeeHistory := mkFeeHistoryResponse {
  oldest_block : Z; fh_base_fee_per_gas : list Z; fh_gas_used_ratio : list F64.f64; fh_reward : list (list Z) }.

Definition MAX_BLOCK_COUNT : Z := 1024.

(** The reward of a block at a requested percentile. *)
Definition percentile_index (p : F64.f64) : Z :=
  let p := F64.clamp p (F64.of_Z 0) (F64.of_Z 100) in
  F64.to_u64 (F64.mul (F64.mul (F64.div (F64.round p) (F64.of_Z 2)) (F64.of_Z 2)) (F64.of_Z 2)).
Definition percentile_reward (block : FeeHistoryCacheItem) (p : F64.f64) : Z :=
  default 0 (rewards block !! Z.to_nat (percentile_index p)).

(** The loop over the [n] blocks from [number] on. *)
Fixpoint history_loop (cache : gmap Z FeeHistoryCacheItem) (ps : list F64.f64) (number : Z) (n : nat) (r : FeeHistory)
    : FeeHistory :=
  match n with
  | O => r
  | S n =>
      let r :=
        match cache !! number with
        | None => r
        | Some block =>
            mkFeeHistoryResponse (oldest_block r) (fh_base_fee_per_gas r ++ [item_base_fee block])
              (fh_gas_used_ratio r ++ [gas_used_ratio block])
              (match ps with [] => fh_reward r | _ => fh_reward r ++ [percentile_reward block <$> ps] end)
        end in
      history_loop cache ps (number + 1) n r
  end.

(** The base fee after the last block. *)
Definition next_fee_estimate (elasticity last_gas_used : F64.f64) (last_fee_per_gas : Z) : Z :=
  let last_fee_per_gas := F64.of_Z last_fee_per_gas in
  if F64.lt F64.half last_gas_used then
    let increase := F64.mul (F64.mul (F64.sub last_gas_used F64.half) (F64.of_Z 2)) elasticity in
    F64.to_u64 (F64.add last_fee_per_gas (F64.mul last_fee_per_gas increase))
  else if F64.lt last_gas_used F64.half then
    let increase := F64.mul (F64.mul (F64.sub F64.half last_gas_used) (F64.of_Z 2)) elasticity in
    F64.to_u64 (F64.sub last_fee_per_gas (F64.mul last_fee_per_gas increase))
  else F64.to_u64 last_fee_per_gas.

Definition add_next_fee (elasticity : F64.f64) (r : FeeHistory) : exec FeeHistory :=
  match last (fh_gas_used_ratio r), last (fh_base_fee_per_gas r) with
  | Some last_gas_used, Some last_fee_per_gas =>
      last_fee_per_gas ← u256_as_u64 last_fee_per_gas;
      Ret (mkFeeHistoryResponse (oldest_block r)
             (fh_base_fee_per_gas r ++ [next_fee_estimate elasticity last_gas_used last_fee_per_gas])
             (fh_gas_used_ratio r) (fh_reward r))
  | _, _ => Ret r
  end.

Section FeeHistory.
Context `{!Evm} `{!Hashing} `{!StateStore} `{!NodeDb} `{!LogFilter} `{!BlockChannel} `{!SpecIdOrder}.
Variable config : NodeConfig.
(** What the remote client of a forked node answers. *)
Variable fork_fee_history : ClientFork -> Z -> Z -> list F64.f64 -> result FeeHistory string.
(** [EthApi::fee_history_limit] and the shared cache. *)
Variable fee_history_limit : Z.

Definition newest_number (current : Z) (newest_block : BlockNumber) : Z :=
  match newest_block with
  | BLatest | BPending => current
  | BEarliest => 0
  | BNumber n => n
  | BSafe => u64_saturating_sub current 32
  | BFinalized => u64_saturating_sub current (32 * 2)
  end.

(** [block_count] is an [U256]; the range is inclusive. *)
Definition lowest_number (number block_count : Z) : Z :=
  u64_saturating_sub number (u64_saturating_sub (if decide (MAX_BLOCK_COUNT < block_count) then MAX_BLOCK_COUNT else block_count) 1).
Definition fee_history (cache : gmap Z FeeHistoryCacheItem) (s : Node) (block_count : Z) (newest_block : BlockNumber)
    (reward_percentiles : list F64.f64) : exec (result FeeHistory BlockchainError) :=
  let current := node_best_number s in
  let number := newest_number current newest_block in
  let answer :=
    match fork config with
    | Some f =>
        if predates_fork_inclusive f number then
          Some (from_fork (fork_fee_history f block_count number reward_percentiles))
        else None
    | None => None
    end in
  match answer with
  | Some answer => Ret answer
  | None =>
      let highest := number in
      let lowest := lowest_number number block_count in
      if decide (lowest < u64_saturating_sub (node_best_number s) fee_history_limit) then
        Ret (Err (FeeHistoryErr InvalidBlockRange))
      else
        let response :=
          history_loop cache reward_percentiles lowest (Z.to_nat (highest - lowest + 1)) (mkFeeHistoryResponse lowest [] [] []) in
        response ← add_next_fee (FeeManager.elasticity (fees s)) response;
        Ret (Ok response)
  end.

(** ** What is answered *)

(** The cached entries of the [n] blocks from [number] on. *)
Definition entries (cache : gmap Z FeeHistoryCacheItem) (number : Z) (n : nat) : list FeeHistoryCacheItem :=
  omap (cache !!.) (seqZ number (Z.of_nat n)).

Definition rewards_of (ps : list F64.f64) (items : list FeeHistoryCacheItem) : list (list Z) :=
  match ps with [] => [] | _ => (fun i => percentile_reward i <$> ps) <$> items end.

Lemma entries_S cache number n : entries cache number (S n) = option_list (cache !! number) ++ entries cache (number + 1) n.
Proof.
  unfold entries. rewrite Nat2Z.inj_succ, seqZ_cons by lia. rewrite Z.pred_succ. cbn [omap list_omap].
  unfold Z.succ. by destruct (cache !! number).
Qed.
(** Where the cache has all blocks, every block has its entry. *)
Lemma entries_all cache number n :
  (forall k, (k < n)%nat -> is_Some (cache !! (number + Z.of_nat k))) ->
  length (entries cache number n) = n /\ forall k, (k < n)%nat -> entries cache number n !! k = cache !! (number + Z.of_nat k).
Proof.
  revert number. induction n as [|n IH]; intros number Hk; [split; [done|lia]|]. rewrite entries_S.
  destruct (Hk 0%nat ltac:(lia)) as [i Hi]. rewrite Z.add_0_r in Hi. rewrite Hi. cbn.
  destruct (IH (number + 1)) as [Hlen Hl].
  { intros k Hlt. replace (number + 1 + Z.of_nat k) with (number + Z.of_nat (S k)) by lia. apply Hk. lia. }
  split; [by rewrite Hlen|]. intros [|k] Hlt; cbn; [by rewrite Z.add_0_r|]. rewrite Hl by lia. f_equal. lia.
Qed.

Lemma history_loop_spec cache ps n : forall number r,
  history_loop cache ps number n r =
    mkFeeHistoryResponse (oldest_block r) (fh_base_fee_per_gas r ++ (item_base_fee <$> entries cache number n))
      (fh_gas_used_ratio r ++ (gas_used_ratio <$> entries cache number n))
      (fh_reward r ++ rewards_of ps (entries cache number n)).
Proof.
  induction n as [|n IH]; intros number r; cbn [history_loop].
  { destruct r. cbn. unfold rewards_of. destruct ps; by rewrite !app_nil_r. }
  rewrite IH, entries_S. destruct (cache !! number) as [b|]; [|by destruct r].
  cbn. rewrite <- !app_assoc. destruct ps; cbn; rewrite <- ?app_assoc; done.
Qed.

Lemma add_next_fee_spec e items lowest rs :
  Forall (fun i => item_base_fee i <= U64_MAX) items ->
  exists next, add_next_fee e (mkFeeHistoryResponse lowest (item_base_fee <$> items) (gas_used_ratio <$> items) rs) =
    Ret (mkFeeHistoryResponse lowest ((item_base_fee <$> items) ++ next) (gas_used_ratio <$> items) rs) /\
  next = option_list ((fun i => next_fee_estimate e (gas_used_ratio i) (item_base_fee i)) <$> last items).
Proof.
  intros Hf. unfold add_next_fee. cbn. rewrite !fmap_last. destruct (last items) as [i|] eqn:Hl; cbn.
  - apply last_Some_elem_of in Hl. rewrite Forall_forall in Hf. specialize (Hf i Hl).
    assert (u256_as_u64 (item_base_fee i) = Ret (item_base_fee i)) as -> by (by apply u256_as_u64_Ret). cbn. by eexists.
  - apply last_None in Hl as ->. cbn. by exists [].
Qed.

(** [eth_feeHistory] on a node that is not forked, for a range that the
    cache covers: it answers with one entry per block of the range, in order
    and each the block's own, starting with the oldest block it names, with the
    rewards at the requested percentiles, and after the base fees of these
    blocks an estimate for the next one. *)
Theorem fee_history_answers cache lo s block_count newest_block ps :
  fork config = None -> window lo (node_best_number s) cache -> map_Forall (fun _ i => item_base_fee i <= U64_MAX) cache ->
  let number := newest_number (node_best_number s) newest_block in
  let lowest := lowest_number number block_count in
  lo <= lowest -> lowest <= number <= node_best_number s -> u64_saturating_sub (node_best_number s) fee_history_limit <= lo ->
  exists r, fee_history cache s block_count newest_block ps = Ret (Ok r) /\ oldest_block r = lowest /\
    length (fh_gas_used_ratio r) = Z.to_nat (number - lowest + 1) /\
    length (fh_base_fee_per_gas r) = S (length (fh_gas_used_ratio r)) /\
    length (fh_reward r) = (if decide (ps = []) then 0 else length (fh_gas_used_ratio r))%nat /\
    forall k, (k < length (fh_gas_used_ratio r))%nat -> exists item, cache !! (lowest + Z.of_nat k) = Some item /\
      fh_gas_used_ratio r !! k = Some (gas_used_ratio item) /\ fh_base_fee_per_gas r !! k = Some (item_base_fee item) /\
      (ps <> [] -> fh_reward r !! k = Some (percentile_reward item <$> ps)).
Proof.
  intros Hf Hw Hu number lowest Hlo [Hle Hbest] Hlim. unfold fee_history. rewrite Hf. fold number. fold lowest.
  rewrite decide_False by lia. rewrite history_loop_spec. cbn [oldest_block fh_base_fee_per_gas fh_gas_used_ratio fh_reward app].
  set (n := Z.to_nat (number - lowest + 1)).
  destruct (entries_all cache lowest n) as [Hlen Hl]; [intros k Hk; apply Hw; lia|].
  destruct (add_next_fee_spec (FeeManager.elasticity (fees s)) (entries cache lowest n) lowest (rewards_of ps (entries cache lowest n)))
    as (next & -> & Hnext).
  { apply Forall_lookup_2. intros i x Hx. assert (i < n)%nat as Hi by (apply lookup_lt_Some in Hx; lia).
    rewrite Hl in Hx by done. by apply (Hu _ _ Hx). }
  assert (length next = 1%nat) as Hone.
  { subst next. destruct (last (entries cache lowest n)) eqn:He; [done|]. apply last_None in He. rewrite He in Hlen. simpl in Hlen. lia. }
  cbn. eexists. split; [done|]. cbn. rewrite length_app, !length_fmap, Hone, Hlen. split_and!; [done|done|lia| |].
  - unfold rewards_of. destruct ps; [done|]. rewrite decide_False by done. by rewrite length_fmap.
  - intros k Hk. destruct (proj2 (Hw (lowest + Z.of_nat k)) ltac:(lia)) as [item Hi]. exists item.
    pose proof (Hl k Hk) as He. rewrite Hi in He. rewrite list_lookup_fmap, He, lookup_app_l by (rewrite length_fmap; lia).
    rewrite list_lookup_fmap, He. split_and!; [done..|]. intros Hne. unfold rewards_of. destruct ps; [done|].
    by rewrite list_lookup_fmap, He.
Qed.
End FeeHistory.
