(* ===== verification/ServiceSample.v ===== *)
(** * A service that mines

    The service on the concrete node of [ApiSample]. *)
From S2P Require Import Prelude Transaction TimeManager Hardfork Block Rlp RlpSample Fees Snapshots PoolTx PendingTxs.
From S2P Require Import ReadyTxs TxIterator Pool PoolInv PoolProps Db BlockStates Validator Executor Chain Cheats.
From S2P Require Import Node Backend BackendProps NodeProps NodeSample Api ApiProps ApiSample PubSub PubSubProps Service ServiceProps.
From S2P Require Import FeeHistory.
Open Scope Z_scope.

(** ** Deciding that blocks can be built *)
Section Builds.
Context `{!Evm} `{!Hashing} `{!StateStore} `{!NodeDb} `{!LogFilter} `{!BlockChannel} `{!SpecIdOrder} `{!FilterParams}.
Context `{!Channel} `{!ApiLib} `{!Timer}.
Variable config : NodeConfig.
Variable now : Z.

(** The lists of at most [n] elements of [T]. *)
Fixpoint lists_upto {A} (n : nat) (T : list A) : list (list A) :=
  match n with
  | O => [[]]
  | S n => [] :: (t ← T; (t ::.) <$> lists_upto n T)
  end.
Lemma elem_lists_upto {A} (T l : list A) n : (length l <= n)%nat -> (forall t, t ∈ l -> t ∈ T) -> l ∈ lists_upto n T.
Proof.
  revert l. induction n as [|n IH]; intros [|x l] Hn Hl; simpl in *; try lia; try by left. right.
  apply list_elem_of_bind. exists x. split; [|apply Hl; by left]. apply list_elem_of_fmap. exists l. split; [done|].
  apply IH; [lia|]. intros t Ht. apply Hl. by right.
Qed.

Definition batches (T : list PoolTransaction.t) : list (list PoolTransaction.t) :=
  filter (fun b => NoDup (PoolTransaction.hash <$> b)) (lists_upto (length T) T).

Fixpoint builds (T : list PoolTransaction.t) (k : nat) (n : Node) : bool :=
  match k with
  | O => true
  | S k => forallb (fun b =>
      match do_mine_block config now b n with Ret (Some (_, n')) => builds T k n' | _ => false end) (batches T)
  end.

Lemma builds_can_build T k n : builds T k n = true -> can_build config (fun _ => now) T k n.
Proof.
  revert n. induction k as [|k IH]; intros n; [done|]. cbn [builds can_build]. rewrite forallb_forall. intros Hb _ batch Hnd Hin.
  specialize (Hb batch). rewrite <- list_elem_of_In in Hb. assert (batch ∈ batches T) as Hbt.
  { apply list_elem_of_filter. split; [done|]. apply elem_lists_upto; [|done]. apply submseteq_length, NoDup_submseteq; [|done].
    by eapply NoDup_fmap_1. }
  specialize (Hb Hbt). clear Hbt.
  destruct (do_mine_block config now batch n) as [[[o n']|]|w]; [|done..]. exists o, n'. split; [done|]. by apply IH.
Qed.
End Builds.

Definition fits_check (limit : Z) (t : PoolTransaction.t) : bool :=
  match to_revm_tx_env (PoolTransaction.pending_transaction t) with
  | Ret env => bool_decide (0 <= env_tx_gas_limit env <= limit)
  | _ => false
  end.
Lemma fits_check_ok limit t : fits_check limit t = true -> fits limit t.
Proof. unfold fits_check, fits. destruct (to_revm_tx_env _) as [env|]; [|done]. intros ?%bool_decide_eq_true. by exists env. Qed.

Module Served.
Import Live.
#[export] Existing Instance Subscribed.params.

(** [interval_at(start, period)]: the next tick and the period. *)
#[export] Instance timer : Timer := {|
  Interval := Z * Z;
  interval_at start period := (start, period);
  poll_tick now i := if decide (fst i <= now) then (true, (fst i + snd i, snd i)) else (false, i) |}.

(** Two accounts have sent a transaction each. *)
Definition opA : api_op := SendTransaction 5000 (request 5 10 None).
Definition opB : api_op := SendTransaction 5000 (request 6 20 None).
Definition sentA : option TxHash * Api := after opA start.
Definition sentB : option TxHash * Api := after opB (snd sentA).

Lemma two_accounts : api_run config sender_of nonce_of all_independent start [code 5 0 10; code 6 0 20] (snd sentB).
Proof.
  apply (api_run_cons config sender_of nonce_of all_independent start opA (fst sentA) (snd sentA) [code 6 0 20]);
    [split; [vm_compute; discriminate|apply steady_check_ok; vm_compute; reflexivity]|apply serves_after; vm_compute; reflexivity|].
  apply (api_run_cons config sender_of nonce_of all_independent (snd sentA) opB (fst sentB) (snd sentB) []);
    [split; [vm_compute; discriminate|apply steady_check_ok; vm_compute; reflexivity]|apply serves_after; vm_compute; reflexivity|].
  constructor.
Qed.

(** One transaction per block. *)
Definition service : Service :=
  service_new 0 (snd sentB) (instant 1 (mkRx [code 5 0 10; code 6 0 20] false)) (fee_history_new (mkRx [] false) ∅) filters_default.
Definition T : list PoolTransaction.t := ready_transactions (snd sentB).

Lemma service_auto L :
  refines sender_of nonce_of all_independent L (snd sentB) ->
  mining_auto config sender_of nonce_of all_independent (fun _ => 5001) T 2 L service.
Proof.
  intros HL. split.
  - exact HL.
  - vm_compute. discriminate.
  - reflexivity.
  - eexists. split; [reflexivity|]. split; [cbn; lia|]. intros Hp. discriminate.
  - intros t Ht. exact Ht.
  - assert (forallb (fits_check (BlockEnv.gas_limit (env_block (backend (snd sentB))))) T = true) as Hf by (vm_compute; reflexivity).
    rewrite forallb_forall in Hf. intros t Ht. apply fits_check_ok, Hf, list_elem_of_In, Ht.
  - vm_compute. discriminate.
  - apply builds_can_build. vm_compute. reflexivity.
Qed.

Lemma service_drains_pool_witness :
  exists s', drive config (fun _ => 5001) (fun _ => true) 3 service = Ret (Some s') /\ ready_transactions (api s') = [] /\
    exists os, (length os <= 2)%nat /\ mines config (fun _ => 5001) 1 (snd sentB) os (api s').
Proof.
  destruct (api_run_sim config live_gas_u64 live_separates sender_of nonce_of all_independent names_signed names_impersonated
    eq_refl wallets_honest start _ _ two_accounts _ start_refines) as (L & _ & HL & _).
  destruct (service_drains_pool config live_gas_u64 live_separates sender_of nonce_of all_independent
    (fun e : Empty_set => match e with end) (fun _ => 5001) T 2 L service 1 (service_auto L HL) ltac:(vm_compute; lia) eq_refl)
    as (s' & L' & os & Hd & Hm & Hr & Hlen & _).
  exists s'. split; [exact Hd|]. split; [exact Hr|]. exists os. split; [exact Hlen|exact Hm].
Defined.

(** ** The fee history of a node with a base fee *)
Definition fee_genesis : Node :=
  mkNode (MemDb.mk (∅ : evm_db (Evm := evm)) Snapshots.new) (storage_new env0 (Some INITIAL_BASE_FEE) 1000) (InMemoryBlockStates.new 2)
    Toy.cfg env0 (TimeManager.new 5000 1000) (FeeManager.new SHANGHAI INITIAL_BASE_FEE 0) ∅ [].
Definition fee_mined : Node :=
  match do_mine_block config 5001 [] fee_genesis with Ret (Some (_, n)) => n | _ => fee_genesis end.
Definition fee_block : option Block := get_block_by_hash (storage fee_mined) 1001.
Definition notified : FeeHistoryService :=
  fee_history_new (mkRx (match fee_block with Some b => [(1001, header b)] | None => [] end) false) ∅.
Definition fee_cache : gmap Z FeeHistoryCacheItem :=
  match fee_history_poll fee_mined notified with Ret f => cache f | _ => ∅ end.
Definition no_fork (f : ClientFork) (count newest : Z) (ps : list F64.f64) : result FeeHistory string := Err "offline".
Definition ask (count : Z) (ps : list F64.f64) : exec (result FeeHistory BlockchainError) :=
  fee_history config no_fork MAX_FEE_HISTORY_CACHE_SIZE fee_cache fee_mined count BLatest ps.

Lemma fee_cache_eq : fee_cache = {[1 := mkItem 875000000 (F64.of_Z 0) []]}.
Proof. vm_compute. reflexivity. Qed.
Lemma fee_cache_window : window 1 (node_best_number fee_mined) fee_cache.
Proof.
  change (node_best_number fee_mined) with 1. intros k. rewrite fee_cache_eq, lookup_singleton_is_Some. lia.
Qed.

Lemma fee_history_answers_witness :
  exists r, ask 1 [F64.of_Z 50] = Ret (Ok r) /\ oldest_block r = 1 /\ length (fh_gas_used_ratio r) = 1%nat /\
    length (fh_base_fee_per_gas r) = 2%nat.
Proof.
  destruct (fee_history_answers config no_fork MAX_FEE_HISTORY_CACHE_SIZE fee_cache 1 fee_mined 1 BLatest [F64.of_Z 50] eq_refl
    fee_cache_window) as (r & Hr & Ho & Hg & Hb & _).
  - rewrite fee_cache_eq. apply map_Forall_singleton. vm_compute. discriminate.
  - vm_compute. discriminate.
  - split; vm_compute; discriminate.
  - vm_compute. discriminate.
  - exists r. split; [exact Hr|]. split; [exact Ho|]. rewrite Hb, Hg. split; reflexivity.
Defined.

(** The fee history is one block ahead: the entry of block 1 has the base fee
    of block 2, because it is read from the fee manager after mining has moved
    that on, and the estimate for the next block is that of block 3. *)
Theorem fee_history_one_ahead :
  Header.base_fee_per_gas ∘ header <$> fee_block = Some (Some 1000000000) /\
  FeeManager.base_fee (fees fee_mined) = 875000000 /\
  item_base_fee <$> fee_cache !! 1 = Some 875000000 /\
  exists r, ask 1 [] = Ret (Ok r) /\ oldest_block r = 1 /\ fh_base_fee_per_gas r = [875000000; 765625000].
Proof. split; [vm_compute; reflexivity|]. split; [vm_compute; reflexivity|]. split; [vm_compute; reflexivity|]. eexists. vm_compute. split_and!; reflexivity. Qed.

(** The genesis block has no entry, so a range from it on is answered with a
    list that starts at block 1 although it names block 0 as the oldest. *)
Theorem fee_history_skips_genesis :
  exists r, ask 2 [] = Ret (Ok r) /\ oldest_block r = 0 /\ length (fh_gas_used_ratio r) = 1%nat /\ fee_cache !! 0 = None.
Proof. eexists. vm_compute. split_and!; reflexivity. Qed.
End Served.
