(* ===== verification/MultiFork.v ===== *)
(** * The fork handler (evm/src/executor/fork/multi.rs)

    [MultiForkHandler] establishes the forks that backends ask for and hands
    the same fork to all that ask for the same endpoint and block.  A request
    is answered by a message to its sender; a future is modelled by what a
    poll of it does. *)
From S2P Require Import Prelude Transaction Validator.
Open Scope Z_scope.

(** ** Data *)

(** [revm::primitives::Env] *)
Record Env := mkEnv { ev_cfg : CfgEnv.t; ev_block : BlockEnv.t; ev_tx : TxEnv }.

(** [SharedBackend] reads the remote chain; [opts_rest] are the options that
    the handler passes on; a block number is displayed by ethers. *)
Class ForkNet := {
  SharedBackend : Type;
  OptsRest : Type;
  display_block : option Z -> string }.

Notation ForkId := string (only parsing).

Section Data.
Context `{!ForkNet}.

Record EvmOpts := mkOpts { fork_block_number : option Z; opts_rest : OptsRest }.
Record CreateFork := mkCreateFork { enable_caching : bool; url : string; cf_env : Env; evm_opts : EvmOpts }.
Record CreatedFork := mkCreated { opts : CreateFork; cr_backend : SharedBackend; num_senders : Z }.

Definition create_fork_id (url : string) (num : option Z) : ForkId := url +:+ "@" +:+ display_block num.
Definition created_new (opts : CreateFork) (backend : SharedBackend) : CreatedFork := mkCreated opts backend 1.
Definition set_env (env : Env) (f : CreateFork) : CreateFork :=
  mkCreateFork (enable_caching f) (url f) env (evm_opts f).
Definition set_block (n : Z) (f : CreateFork) : CreateFork :=
  mkCreateFork (enable_caching f) (url f) (cf_env f) (mkOpts (Some n) (opts_rest (evm_opts f))).
Definition fork_id_of (f : CreateFork) : ForkId := create_fork_id (url f) (fork_block_number (evm_opts f)).

(** ** The handler

    A sender is named by a number; [CreateSender]s wait in tasks. *)
Notation SenderId := nat (only parsing).
Definition ForkAnswer : Type := result (ForkId * SharedBackend * Env) string.
Record ForkTask := mkTask { task_fork : CreateFork; task_id : ForkId; task_sender : SenderId; task_additional : list SenderId }.
Record MultiForkHandler := mkHandler {
  handlers : list ForkId;
  pending_tasks : list ForkTask;
  forks : gmap ForkId CreatedFork }.
Definition handler_new : MultiForkHandler := mkHandler [] [] ∅.

Inductive Request :=
| ReqCreateFork (fork : CreateFork) (sender : SenderId)
| ReqGetFork (id : ForkId) (sender : SenderId)
| ReqRollFork (id : ForkId) (block : Z) (sender : SenderId)
| ReqGetEnv (id : ForkId) (sender : SenderId)
| ReqShutDown (sender : SenderId)
| ReqGetForkUrl (id : ForkId) (sender : SenderId).
Inductive Answer :=
| AnsFork (a : ForkAnswer)
| AnsBackend (o : option SharedBackend)
| AnsEnv (o : option Env)
| AnsDone
| AnsUrl (o : option string).

(** [find_in_progress_task]: the sender joins the first task for the id. *)
Fixpoint join_task (id : ForkId) (sender : SenderId) (tasks : list ForkTask) : option (list ForkTask) :=
  match tasks with
  | [] => None
  | t :: tasks =>
      if decide (task_id t = id) then
        Some (mkTask (task_fork t) (task_id t) (task_sender t) (task_additional t ++ [sender]) :: tasks)
      else (t ::.) <$> join_task id sender tasks
  end.

(** [num_senders] is a [usize]. *)
Definition create_fork (fork : CreateFork) (sender : SenderId) (h : MultiForkHandler)
    : exec (list (SenderId * Answer) * MultiForkHandler) :=
  let fork_id := fork_id_of fork in
  match forks h !! fork_id with
  | Some f =>
      n ← u64_add (num_senders f) 1;
      Ret ([(sender, AnsFork (Ok (fork_id, cr_backend f, cf_env (opts f))))],
           mkHandler (handlers h) (pending_tasks h) (<[fork_id := mkCreated (opts f) (cr_backend f) n]> (forks h)))
  | None =>
      match join_task fork_id sender (pending_tasks h) with
      | Some tasks => Ret ([], mkHandler (handlers h) tasks (forks h))
      | None => Ret ([], mkHandler (handlers h) (pending_tasks h ++ [mkTask fork fork_id sender []]) (forks h))
      end
  end.

Definition on_request (req : Request) (h : MultiForkHandler) : exec (list (SenderId * Answer) * MultiForkHandler) :=
  match req with
  | ReqCreateFork fork sender => create_fork fork sender h
  | ReqGetFork id sender => Ret ([(sender, AnsBackend (cr_backend <$> forks h !! id))], h)
  | ReqRollFork id block sender =>
      match forks h !! id with
      | Some fork => create_fork (set_block block (opts fork)) sender h
      | None => Ret ([(sender, AnsFork (Err ("No matching fork exits for " +:+ id)))], h)
      end
  | ReqGetEnv id sender => Ret ([(sender, AnsEnv ((fun f => cf_env (opts f)) <$> forks h !! id))], h)
  | ReqShutDown sender => Ret ([(sender, AnsDone)], mkHandler [] (pending_tasks h) ∅)
  | ReqGetForkUrl id sender => Ret ([(sender, AnsUrl ((fun f => url (opts f)) <$> forks h !! id))], h)
  end.

(** [for n in (0..v.len()).rev() { let x = v.swap_remove(n); .. v.push(x) .. }]
    with a state: an element is dealt with or pushed back. *)
Fixpoint sweep {A S} (f : A -> S -> S * option A) (n : nat) (v : list A) (s : S) : exec (list A * S) :=
  match n with
  | O => Ret (v, s)
  | S n =>
      x ← expect (v !! n) "swap_remove index should be < len";
      let v := swap_remove n v in
      let '(s, o) := f x s in
      sweep f n (match o with Some x => v ++ [x] | None => v end) s
  end.

(** The senders of a task, all of which get the answer. *)
Definition task_waiting (t : ForkTask) : list SenderId := task_sender t :: task_additional t.
Definition broadcast (answer : ForkAnswer) (t : ForkTask) : list (SenderId * Answer) :=
  (fun sender => (sender, AnsFork answer)) <$> task_waiting t.

(** One task: [poll t] is what polling its future gives, where the fork that
    was established carries the environment of its block. *)
Definition advance_task (poll : ForkTask -> option (result (SharedBackend * Env) string)) (t : ForkTask)
    (s : list (SenderId * Answer) * MultiForkHandler) : (list (SenderId * Answer) * MultiForkHandler) * option ForkTask :=
  let '(replies, h) := s in
  match poll t with
  | None => (s, Some t)
  | Some resp =>
      let answer := match resp with Ok (backend, env) => Ok (task_id t, backend, env) | Err e => Err e end in
      let h :=
        match resp with
        | Ok (backend, env) =>
            mkHandler (handlers h ++ [task_id t]) (pending_tasks h)
              (<[task_id t := created_new (set_env env (task_fork t)) backend]> (forks h))
        | Err _ => h
        end in
      ((replies ++ broadcast answer t, h), None)
  end.

(** [poll]: requests, tasks and the handlers of the forks; [finished] says
    which of those have completed. *)
Definition advance_tasks (poll : ForkTask -> option (result (SharedBackend * Env) string)) (h : MultiForkHandler)
    : exec (list (SenderId * Answer) * MultiForkHandler) :=
  '(tasks, (replies, h')) ← sweep (advance_task poll) (length (pending_tasks h)) (pending_tasks h) ([], h);
  Ret (replies, mkHandler (handlers h') tasks (forks h')).
Definition advance_handlers (finished : ForkId -> bool) (h : MultiForkHandler) : exec MultiForkHandler :=
  '(hs, _) ← sweep (fun id (_ : unit) => (tt, if finished id then None else Some id)) (length (handlers h)) (handlers h) tt;
  Ret (mkHandler hs (pending_tasks h) (forks h)).

Fixpoint on_requests (reqs : list Request) (h : MultiForkHandler) : exec (list (SenderId * Answer) * MultiForkHandler) :=
  match reqs with
  | [] => Ret ([], h)
  | req :: reqs =>
      '(r1, h) ← on_request req h;
      '(r2, h) ← on_requests reqs h;
      Ret (r1 ++ r2, h)
  end.
Definition handler_poll (reqs : list Request) (poll : ForkTask -> option (result (SharedBackend * Env) string))
    (finished : ForkId -> bool) (h : MultiForkHandler) : exec (list (SenderId * Answer) * MultiForkHandler) :=
  '(r1, h) ← on_requests reqs h;
  '(r2, h) ← advance_tasks poll h;
  h ← advance_handlers finished h;
  Ret (r1 ++ r2, h).

(** ** Every request is answered once *)

(** The senders that wait for a fork. *)
Definition waiting (h : MultiForkHandler) : list SenderId := pending_tasks h ≫= task_waiting.
(** The senders that ask for a fork, and those that were answered. *)
Definition asks (req : Request) : option SenderId :=
  match req with ReqCreateFork _ s | ReqRollFork _ _ s => Some s | _ => None end.
Definition answered (r : SenderId * Answer) : option SenderId :=
  match r with (s, AnsFork _) => Some s | _ => None end.

Lemma sweep_spec {A S} (f : A -> S -> S * option A) (keep : A -> option A) l1 :
  (forall x s, snd (f x s) = keep x) -> forall l2 s,
  exists l', sweep f (length l1) (l1 ++ l2) s = Ret (l', foldr (fun x s => fst (f x s)) s l1) /\ l' ≡ₚ omap keep l1 ++ l2.
Proof.
  intros Hk. induction l1 as [|x l1 IH] using rev_ind; intros l2 s; [by exists l2|].
  rewrite length_app, Nat.add_1_r. cbn [sweep]. rewrite <- app_assoc. cbn [app]. rewrite list_lookup_middle by done. cbn.
  destruct (swap_remove_app l1 l2 x) as (l2' & -> & Hp). pose proof (Hk x s) as Hx.
  rewrite foldr_app. cbn [foldr]. destruct (f x s) as [s1 o]. cbn in Hx |- *. subst o.
  rewrite omap_app. cbn [omap list_omap]. destruct (keep x) as [y|]; rewrite <- ?app_assoc.
  - destruct (IH (l2' ++ [y]) s1) as (l' & -> & Hl). exists l'. split; [done|]. rewrite Hl, Hp. cbn.
    by rewrite (Permutation_app_comm l2 [y]).
  - destruct (IH l2' s1) as (l' & -> & Hl). exists l'. split; [done|]. by rewrite Hl, Hp.
Qed.

(** No two tasks establish the same fork, and none an established one. *)
Record tasks_distinct (h : MultiForkHandler) : Prop := {
  td_nodup : NoDup (task_id <$> pending_tasks h);
  td_new t : t ∈ pending_tasks h -> forks h !! task_id t = None }.

Lemma join_task_spec id sender tasks :
  match join_task id sender tasks with
  | Some tasks' => task_id <$> tasks' = task_id <$> tasks /\ tasks' ≫= task_waiting ≡ₚ sender :: (tasks ≫= task_waiting)
  | None => id ∉ task_id <$> tasks
  end.
Proof.
  induction tasks as [|t tasks IH]; simpl; [apply not_elem_of_nil|]. case_decide as Ht; simpl.
  - split; [done|]. change (task_waiting (mkTask _ _ _ _)) with (task_waiting t ++ [sender]).
    rewrite <- app_assoc. cbn [app]. symmetry. apply (Permutation_middle (task_waiting t)).
  - destruct (join_task id sender tasks) as [tasks'|]; simpl.
    + destruct IH as [Hi IH]. split; [by f_equal|]. change (task_waiting t ++ (tasks' ≫= task_waiting) ≡ₚ sender :: task_waiting t ++ (tasks ≫= task_waiting)).
      rewrite IH. symmetry. apply (Permutation_middle (task_waiting t)).
    + rewrite not_elem_of_cons. by split.
Qed.

Lemma waiting_snoc h t : waiting (mkHandler (handlers h) (pending_tasks h ++ [t]) (forks h)) = waiting h ++ task_waiting t.
Proof. unfold waiting. cbn. rewrite bind_app. cbn. by rewrite app_nil_r. Qed.

Lemma create_fork_once fork sender h r h' :
  tasks_distinct h -> create_fork fork sender h = Ret (r, h') ->
  tasks_distinct h' /\ waiting h ++ [sender] ≡ₚ waiting h' ++ omap answered r.
Proof.
  intros [Hnd Hnew]. unfold create_fork. destruct (forks h !! fork_id_of fork) as [f|] eqn:Hf.
  - intros (n & _ & [= <- <-])%exec_bind_Ret. split; [|done]. split; cbn; [done|]. intros t Ht.
    rewrite lookup_insert_ne; [by apply Hnew|]. intros Heq. rewrite Heq, (Hnew t Ht) in Hf. done.
  - pose proof (join_task_spec (fork_id_of fork) sender (pending_tasks h)) as Hj.
    destruct (join_task _ _ _) as [tasks'|]; intros [= <- <-].
    + destruct Hj as [Hid Hw]. split.
      * split; cbn; [by rewrite Hid|]. intros t Ht.
        assert (task_id t ∈ task_id <$> pending_tasks h) as (t' & -> & Ht')%list_elem_of_fmap
          by (rewrite <- Hid; apply list_elem_of_fmap; by exists t). by apply Hnew.
      * unfold waiting. cbn. rewrite app_nil_r, Hw, Permutation_app_comm. done.
    + split; [|by rewrite waiting_snoc, app_nil_r]. split; cbn.
      * rewrite fmap_app. apply NoDup_app. split_and!; [done| |apply NoDup_singleton].
        intros x Hx ->%list_elem_of_singleton. by apply Hj.
      * intros t [Ht| ->%list_elem_of_singleton]%elem_of_app; [by apply Hnew|done].
Qed.

Lemma on_request_once req h r h' :
  tasks_distinct h -> on_request req h = Ret (r, h') ->
  tasks_distinct h' /\ waiting h ++ option_list (asks req) ≡ₚ waiting h' ++ omap answered r.
Proof.
  intros Hd. destruct req as [fork s|id s|id b s|id s|s|id s]; cbn [on_request asks option_list].
  - by apply create_fork_once.
  - by intros [= <- <-].
  - destruct (forks h !! id) as [f|]; [by apply create_fork_once|]. by intros [= <- <-].
  - by intros [= <- <-].
  - intros [= <- <-]. split; [|done]. destruct Hd as [Hnd _]. by split.
  - by intros [= <- <-].
Qed.

Lemma on_requests_once reqs : forall h r h',
  tasks_distinct h -> on_requests reqs h = Ret (r, h') ->
  tasks_distinct h' /\ waiting h ++ omap asks reqs ≡ₚ waiting h' ++ omap answered r.
Proof.
  induction reqs as [|req reqs IH]; intros h r h' Hd; cbn [on_requests].
  { by intros [= <- <-]. }
  intros ([r1 h1] & H1 & ([r2 h2] & H2 & Hx)%exec_bind_Ret)%exec_bind_Ret. injection Hx as <- <-.
  destruct (on_request_once req h r1 h1 Hd H1) as [Hd1 Hp1]. destruct (IH h1 r2 h2 Hd1 H2) as [Hd2 Hp2]. split; [done|].
  rewrite omap_app. transitivity ((waiting h ++ option_list (asks req)) ++ omap asks reqs).
  { rewrite <- app_assoc. apply Permutation_app_head. cbn. by destruct (asks req). }
  rewrite Hp1, (Permutation_app_comm (waiting h1)), <- app_assoc, Hp2, !app_assoc.
  by rewrite (Permutation_app_comm (omap answered r1)).
Qed.

(** ** Everyone gets the same fork *)

(** The forks that are established, and the answers that name one of them. *)
Definition known (h : MultiForkHandler) : gmap ForkId (SharedBackend * Env) := (fun f => (cr_backend f, cf_env (opts f))) <$> forks h.
Definition backed (h : MultiForkHandler) (r : list (SenderId * Answer)) : Prop :=
  forall s id b e, (s, AnsFork (Ok (id, b, e))) ∈ r -> known h !! id = Some (b, e).

Lemma backed_app h r1 r2 : backed h (r1 ++ r2) <-> backed h r1 /\ backed h r2.
Proof. unfold backed. setoid_rewrite elem_of_app. naive_solver. Qed.
Lemma backed_mono h h' r : known h ⊆ known h' -> backed h r -> backed h' r.
Proof. intros Hk Hb s id b e Hin. eapply lookup_weaken; [by eapply Hb|done]. Qed.

Definition polled (poll : ForkTask -> option (result (SharedBackend * Env) string)) (t : ForkTask) : Prop := is_Some (poll t).
#[local] Instance polled_dec poll t : Decision (polled poll t).
Proof. unfold polled. apply _. Defined.

Lemma answered_broadcast a t : omap answered (broadcast a t) = task_waiting t.
Proof. unfold broadcast. induction (task_waiting t) as [|x l IH]; [done|]. cbn. by f_equal. Qed.

Lemma advance_fold poll l : forall r0 h0 r h,
  NoDup (task_id <$> l) -> (forall t, t ∈ l -> forks h0 !! task_id t = None) -> backed h0 r0 ->
  foldr (fun t s => fst (advance_task poll t s)) (r0, h0) l = (r, h) ->
  (forall id, id ∉ task_id <$> filter (polled poll) l -> forks h !! id = forks h0 !! id) /\
  known h0 ⊆ known h /\ backed h r /\
  omap answered r ≡ₚ omap answered r0 ++ (filter (polled poll) l ≫= task_waiting).
Proof.
  induction l as [|t l IH]; intros r0 h0 r h Hnd Hnew Hb; cbn [foldr].
  { intros [= <- <-]. split_and!; [done..|]. cbn. by rewrite app_nil_r. }
  rewrite fmap_cons in Hnd. apply NoDup_cons in Hnd as [Hnt Hnd].
  destruct (foldr _ (r0, h0) l) as [r1 h1] eqn:Hf.
  destruct (IH r0 h0 r1 h1 Hnd ltac:(intros t' Ht'; apply Hnew; by right) Hb Hf) as (Hforks & Hk & Hb1 & Hp).
  rewrite filter_cons. unfold advance_task. destruct (decide (polled poll t)) as [[resp Hr]|Hr].
  2: { apply eq_None_not_Some in Hr. rewrite Hr. by intros [= <- <-]. }
  rewrite Hr. cbn [fst]. intros [= <- <-].
  assert (forks h1 !! task_id t = None) as Hnone.
  { rewrite Hforks; [apply Hnew; by left|]. intros (t' & Ht' & Hin%list_elem_of_filter)%list_elem_of_fmap. apply Hnt.
    apply list_elem_of_fmap. exists t'. by split; [|apply Hin]. }
  rewrite omap_app, answered_broadcast, Hp, bind_cons, <- app_assoc.
  split_and!.
  - intros id Hid. rewrite fmap_cons, not_elem_of_cons in Hid. destruct Hid as [Hne Hid].
    destruct resp as [[b e]|e]; cbn; [rewrite lookup_insert_ne by done|]; by apply Hforks.
  - destruct resp as [[b e]|e]; [|done]. etransitivity; [exact Hk|]. unfold known. cbn. rewrite fmap_insert.
    apply insert_subseteq. by rewrite lookup_fmap, Hnone.
  - apply backed_app. split.
    + eapply backed_mono; [|exact Hb1]. destruct resp as [[b e]|e]; [|done]. unfold known. cbn. rewrite fmap_insert.
      apply insert_subseteq. by rewrite lookup_fmap, Hnone.
    + intros s id b e (x & Hx & _)%list_elem_of_fmap. destruct resp as [[b' e']|e']; simplify_eq/=.
      unfold known. cbn. by rewrite fmap_insert, lookup_insert_eq.
  - by rewrite (Permutation_app_comm (task_waiting t)).
Qed.

Definition unfinished (poll : ForkTask -> option (result (SharedBackend * Env) string)) (t : ForkTask) : option ForkTask :=
  match poll t with None => Some t | Some _ => None end.
Lemma split_polled poll l : l ≡ₚ filter (polled poll) l ++ omap (unfinished poll) l.
Proof.
  induction l as [|t l IH]; [done|]. rewrite filter_cons. cbn. unfold unfinished at 1.
  destruct (decide (polled poll t)) as [[r Hr]|Hr].
  - rewrite Hr. cbn. by rewrite <- IH.
  - apply eq_None_not_Some in Hr. rewrite Hr. rewrite <- Permutation_middle. by rewrite <- IH.
Qed.

Lemma advance_tasks_once poll h :
  tasks_distinct h ->
  exists r h', advance_tasks poll h = Ret (r, h') /\ tasks_distinct h' /\ known h ⊆ known h' /\ backed h' r /\
    waiting h ≡ₚ waiting h' ++ omap answered r.
Proof.
  intros [Hnd Hnew]. unfold advance_tasks.
  destruct (sweep_spec (advance_task poll) (unfinished poll) (pending_tasks h)) with (l2 := @nil ForkTask) (s := (@nil (SenderId * Answer), h))
    as (tasks & Hs & Hperm).
  { intros t [r hh]. unfold advance_task, unfinished. by destruct (poll t). }
  rewrite app_nil_r in Hs, Hperm. rewrite Hs. destruct (foldr _ _ _) as [r h1] eqn:Hf. cbn.
  assert (backed h []) as Hb0 by (intros s id b e ?%elem_of_nil; done).
  destruct (advance_fold poll _ _ _ _ _ Hnd Hnew Hb0 Hf) as (Hforks & Hk & Hb & Hp). cbn in Hp.
  pose proof (split_polled poll (pending_tasks h)) as Hsplit.
  eexists _, _. split; [done|]. split_and!; [|done|done|].
  - rewrite Hsplit, fmap_app in Hnd. apply NoDup_app in Hnd as (_ & Hdis & Hnd2). split; cbn.
    + by rewrite Hperm.
    + intros t Ht. rewrite Hperm in Ht. rewrite Hforks.
      * apply Hnew. rewrite Hsplit. apply elem_of_app. by right.
      * intros Hin. apply (Hdis _ Hin). apply list_elem_of_fmap. by exists t.
  - unfold waiting at 2. cbn. rewrite Hperm, Hp. unfold waiting. rewrite Hsplit at 1. rewrite bind_app. apply Permutation_app_comm.
Qed.

Lemma advance_handlers_same finished hs :
  exists hs', forall tasks known, advance_handlers finished (mkHandler hs tasks known) = Ret (mkHandler hs' tasks known).
Proof.
  destruct (sweep_spec (fun id (_ : unit) => (tt, if finished id then None else Some id)) (fun id => if finished id then None else Some id)
    hs (fun _ _ => eq_refl) [] tt) as (hs' & Hs & _). rewrite app_nil_r in Hs. exists hs'. intros tasks known.
  unfold advance_handlers. cbn [handlers]. by rewrite Hs.
Qed.

(** Without a shutdown, requests keep what is established. *)
Definition no_shutdown (reqs : list Request) : Prop := Forall (fun r => match r with ReqShutDown _ => False | _ => True end) reqs.

Lemma create_fork_known fork sender h r h' :
  create_fork fork sender h = Ret (r, h') -> known h ⊆ known h' /\ backed h' r.
Proof.
  unfold create_fork. destruct (forks h !! fork_id_of fork) as [f|] eqn:Hf.
  - intros (n & _ & [= <- <-])%exec_bind_Ret.
    assert (known h !! fork_id_of fork = Some (cr_backend f, cf_env (opts f))) as Hl by (unfold known; by rewrite lookup_fmap, Hf).
    unfold backed, known. cbn. rewrite fmap_insert. cbn. fold (known h). rewrite insert_id by done. split; [done|].
    intros s id b e Hin%list_elem_of_singleton. by simplify_eq.
  - destruct (join_task _ _ _); intros [= <- <-]; (split; [done|]); intros s id b e ?%elem_of_nil; done.
Qed.

Lemma on_requests_known reqs : forall h r h',
  no_shutdown reqs -> on_requests reqs h = Ret (r, h') -> known h ⊆ known h' /\ backed h' r.
Proof.
  assert (forall h s a, (forall id b e, a <> AnsFork (Ok (id, b, e))) -> backed h [(s, a)]) as Hno.
  { intros h s a Ha s' id b e Hin%list_elem_of_singleton. simplify_eq. by destruct (Ha id b e). }
  induction reqs as [|req reqs IH]; intros h r h' Hns; cbn [on_requests].
  { intros [= <- <-]. split; [done|]. intros s id b e ?%elem_of_nil. done. }
  apply Forall_cons in Hns as [Hreq Hns].
  intros ([r1 h1] & H1 & ([r2 h2] & H2 & Hx)%exec_bind_Ret)%exec_bind_Ret. injection Hx as <- <-.
  destruct (IH h1 r2 h2 Hns H2) as [Hk2 Hb2].
  enough (known h ⊆ known h1 /\ backed h1 r1) as [Hk1 Hb1].
  { split; [by etransitivity|]. apply backed_app. split; [by eapply backed_mono|done]. }
  destruct req as [fork s|id s|id b s|id s|s|id s]; cbn [on_request] in H1; try done.
  - by eapply create_fork_known.
  - injection H1 as <- <-. split; [done|]. by apply Hno.
  - destruct (forks h !! id) as [f|]; [by eapply create_fork_known|]. injection H1 as <- <-. split; [done|]. by apply Hno.
  - injection H1 as <- <-. split; [done|]. by apply Hno.
  - injection H1 as <- <-. split; [done|]. by apply Hno.
Qed.

(** ** Runs *)

(** Polls of the handler, with the requests that came in and the answers that
    went out. *)
Inductive handler_run : MultiForkHandler -> list Request -> list (SenderId * Answer) -> MultiForkHandler -> Prop :=
| run_start h : handler_run h [] [] h
| run_poll h reqs poll finished r1 h1 reqs2 r2 h2 :
    handler_poll reqs poll finished h = Ret (r1, h1) -> handler_run h1 reqs2 r2 h2 ->
    handler_run h (reqs ++ reqs2) (r1 ++ r2) h2.

Lemma handler_poll_spec reqs poll finished h r h' :
  tasks_distinct h -> handler_poll reqs poll finished h = Ret (r, h') ->
  tasks_distinct h' /\ waiting h ++ omap asks reqs ≡ₚ waiting h' ++ omap answered r /\
  (no_shutdown reqs -> known h ⊆ known h' /\ backed h' r).
Proof.
  intros Hd. unfold handler_poll. intros ([r1 h1] & H1 & Hx)%exec_bind_Ret.
  destruct (on_requests_once reqs h r1 h1 Hd H1) as [Hd1 Hp1].
  destruct (advance_tasks_once poll h1 Hd1) as (r2 & h2 & H2 & Hd2 & Hk2 & Hb2 & Hp2). rewrite H2 in Hx. cbn in Hx.
  destruct h2 as [hs tasks known2]. destruct (advance_handlers_same finished hs) as (hs' & H3). rewrite H3 in Hx. cbn in Hx.
  injection Hx as <- <-. split_and!.
  - by destruct Hd2.
  - rewrite Hp1, Hp2, omap_app, <- app_assoc. apply Permutation_app_head, Permutation_app_comm.
  - intros Hns. destruct (on_requests_known reqs h r1 h1 Hns H1) as [Hk1 Hb1].
    split; [by etransitivity|]. apply backed_app. split; [by eapply backed_mono|done].
Qed.

Lemma handler_run_spec h reqs r h' :
  handler_run h reqs r h' -> tasks_distinct h ->
  waiting h ++ omap asks reqs ≡ₚ waiting h' ++ omap answered r /\
  (no_shutdown reqs -> known h ⊆ known h' /\ backed h' r).
Proof.
  induction 1 as [h|h reqs poll finished r1 h1 reqs2 r2 h2 Hpoll Hrun IH]; intros Hd.
  { split; [done|]. intros _. split; [done|]. intros s id b e ?%elem_of_nil. done. }
  destruct (handler_poll_spec _ _ _ _ _ _ Hd Hpoll) as (Hd1 & Hp1 & Hk1). destruct (IH Hd1) as [Hp2 Hk2]. split.
  - rewrite !omap_app, app_assoc, Hp1, (Permutation_app_comm (waiting h1)), <- app_assoc, Hp2, !app_assoc.
    by rewrite (Permutation_app_comm (omap answered r1)).
  - intros [Hn1 Hn2]%Forall_app. destruct (Hk1 Hn1) as [Hsub1 Hb1]. destruct (Hk2 Hn2) as [Hsub2 Hb2].
    split; [by etransitivity|]. apply backed_app. split; [by eapply backed_mono|done].
Qed.

(** C12: Over every run of the fork handler, each backend that asked for a fork
    is answered exactly once, unless it still waits for a connection; and
    unless the handler was shut down, all that are given the fork of one
    endpoint and block are given the same connection and environment. *)
Theorem forks_shared_and_answered reqs r h :
  handler_run handler_new reqs r h ->
  omap asks reqs ≡ₚ omap answered r ++ waiting h /\
  (no_shutdown reqs -> forall s1 s2 id b1 e1 b2 e2,
     (s1, AnsFork (Ok (id, b1, e1))) ∈ r -> (s2, AnsFork (Ok (id, b2, e2))) ∈ r -> b1 = b2 /\ e1 = e2).
Proof.
  intros Hrun. destruct (handler_run_spec _ _ _ _ Hrun) as [Hp Hk].
  { split; cbn; [constructor|]. by intros t ?%elem_of_nil. }
  split; [cbn in Hp; by rewrite Hp, Permutation_app_comm|].
  intros Hns s1 s2 id b1 e1 b2 e2 H1 H2. destruct (Hk Hns) as [_ Hb].
  pose proof (Hb _ _ _ _ H1) as E1. pose proof (Hb _ _ _ _ H2) as E2. rewrite E1 in E2. by simplify_eq.
Qed.

(** ** Requests as calls

    [MultiFork::create_fork] and [roll_fork] wait for the answer of the handler;
    [establish] is how connecting to the endpoint of a fork ends. *)
Section Calls.
Variable establish : CreateFork -> result (SharedBackend * Env) string.

Definition serve_create (fork : CreateFork) (known : gmap ForkId CreatedFork) : exec (ForkAnswer * gmap ForkId CreatedFork) :=
  let fork_id := fork_id_of fork in
  match known !! fork_id with
  | Some f =>
      n ← u64_add (num_senders f) 1;
      Ret (Ok (fork_id, cr_backend f, cf_env (opts f)), <[fork_id := mkCreated (opts f) (cr_backend f) n]> known)
  | None =>
      Ret (match establish fork with
           | Ok (backend, env) => (Ok (fork_id, backend, env), <[fork_id := created_new (set_env env fork) backend]> known)
           | Err e => (Err e, known)
           end)
  end.
Definition serve_roll (id : ForkId) (block : Z) (known : gmap ForkId CreatedFork) : exec (ForkAnswer * gmap ForkId CreatedFork) :=
  match known !! id with
  | Some fork => serve_create (set_block block (opts fork)) known
  | None => Ret (Err ("No matching fork exits for " +:+ id), known)
  end.

(** The answer is what the handler sends when it deals with the request, with
    no other task going on. *)
Lemma serve_create_handler fork s finished h :
  pending_tasks h = [] ->
  exists hs', handler_poll [ReqCreateFork fork s] (fun t => Some (establish (task_fork t))) finished h =
    ('(a, known) ← serve_create fork (forks h); Ret ([(s, AnsFork a)], mkHandler hs' [] known)).
Proof.
  intros Hp. destruct h as [hs tasks known]. cbn in Hp. subst tasks.
  unfold handler_poll, on_requests, on_request, create_fork, serve_create. cbn [forks pending_tasks handlers].
  destruct (known !! fork_id_of fork) as [f|].
  - destruct (advance_handlers_same finished hs) as (hs' & Hh). exists hs'.
    destruct (u64_add (num_senders f) 1) as [n|w]; cbn -[advance_handlers]; [|done]. by rewrite Hh.
  - destruct (establish fork) as [[b e]|e] eqn:He.
    + destruct (advance_handlers_same finished (hs ++ [fork_id_of fork])) as (hs' & Hh). exists hs'.
      cbn -[advance_handlers]. rewrite He. cbn -[advance_handlers]. by rewrite Hh.
    + destruct (advance_handlers_same finished hs) as (hs' & Hh). exists hs'.
      cbn -[advance_handlers]. rewrite He. cbn -[advance_handlers]. by rewrite Hh.
Qed.
End Calls.
End Data.
