(* ===== verification/ForkBackend.v ===== *)
(** * The backend of tests (evm/src/executor/backend/mod.rs, snapshot.rs)

    [Backend] is the database that test contracts run on: in memory, or the
    fork of a remote chain.  Several forks can be created and swapped; the
    accounts marked persistent are carried from one to the next.  A test's
    state is the backend, the environment and revm's journaled state, which
    the operations change together. *)
From S2P Require Import Prelude Transaction Hardfork Block Snapshots Db Validator MultiFork.
Open Scope Z_scope.

(** ** revm's data, as far as the backend reads and writes it *)

(** The parts of revm's structures that the backend only passes on, and the
    library functions it calls. *)
Record StorageSlot := mkSlot { original_value : Z; present_value : Z }.
Class RevmData := {
  AccountRest : Type;
  JournalEntry : Type;
  StateRest : Type;
  PrecompileId : Type;
  DatabaseFailure : Type }.

Section RevmTypes.
Context `{!RevmData}.
Record Account := mkAccount {
  acc_info : AccountInfo.t; acc_storage : gmap Z StorageSlot; acc_is_touched : bool; acc_rest : AccountRest }.
Record JournaledState := mkJournal {
  js_state : gmap Address Account; js_logs : list Log; js_depth : Z; js_journal : list (list JournalEntry); js_rest : StateRest }.
End RevmTypes.

Record ForkDB `{!ForkNet} := mkForkDB { fdb_cache : CacheDB.t; fdb_db : SharedBackend }.
Arguments mkForkDB {_} fdb_cache fdb_db.
Arguments fdb_cache {_} f.
Arguments fdb_db {_} f.

(** [ethers::types::Transaction] and [Block<Transaction>] *)
Record RpcTransaction := mkRpcTx {
  rt_hash : H256; rt_from : Address; rt_to : option Address; rt_gas : Z; rt_gas_price : option Z;
  rt_max_priority_fee_per_gas : option Z; rt_nonce : Z; rt_access_list : option (list AccessListItem); rt_value : Z;
  rt_input : list byte; rt_block_number : option Z }.
Record RpcBlock := mkRpcBlock {
  rb_number : option Z; rb_timestamp : Z; rb_author : option Address; rb_difficulty : Z; rb_mix_hash : option H256;
  rb_base_fee_per_gas : option Z; rb_gas_limit : Z; rb_transactions : list RpcTransaction }.

Inductive ForkError `{!RevmData} :=
| DbFailure (e : DatabaseFailure)
| MissingAccount (a : Address)
| BlockNotFoundLatest
| Eyre (message : string).

Class Revm `{!RevmData} `{!ForkNet} := {
  (** [Account::from(AccountInfo)], [JournaledState::new], [Precompiles::new] *)
  account_from : AccountInfo.t -> Account;
  journaled_new : nat -> JournaledState;
  precompile_latest : PrecompileId;
  precompile_of_spec : SpecId -> PrecompileId;
  precompiles : PrecompileId -> gset Address;
  create_address : Address -> Z -> Address;
  (** [CacheDB] over a remote chain and over nothing *)
  fork_basic : ForkDB -> Address -> result (option AccountInfo.t) DatabaseFailure * ForkDB;
  fork_basic_ref : ForkDB -> Address -> result (option AccountInfo.t) DatabaseFailure;
  fork_storage_ref : ForkDB -> Address -> Z -> result Z DatabaseFailure;
  mem_basic_ref : CacheDB.t -> Address -> result (option AccountInfo.t) DatabaseFailure;
  mem_storage_ref : CacheDB.t -> Address -> Z -> result Z DatabaseFailure;
  insert_account_info : Address -> AccountInfo.t -> CacheDB.t -> CacheDB.t;
  insert_account_storage : Address -> Z -> Z -> CacheDB.t -> result CacheDB.t DatabaseFailure;
  db_commit : gmap Address Account -> CacheDB.t -> CacheDB.t;
  load_account : Address -> JournaledState -> ForkDB -> JournaledState * ForkDB;
  (** the remote chain *)
  get_transaction : SharedBackend -> H256 -> result RpcTransaction DatabaseFailure;
  get_full_block : SharedBackend -> option Z -> result RpcBlock DatabaseFailure }.

Definition CHEATCODE_ADDRESS : Address := 0x7109709ECfa91a80626fF3989D68f67F5b1DD12D.
Definition DEFAULT_CREATE2_DEPLOYER : Address := 0x4e59b44847b379578588920cA78FbF26c0B4956C.
Definition CALLER : Address := 0x1804c8AB1F12E6bbF3894D4083F33E07309D1F38.
Definition TEST_CONTRACT_ADDRESS : Address := 0xb4c79daB8f259C7Aee6E5b2Aa729821864227e84.
Definition GLOBAL_FAILURE_SLOT : Z := 0x6661696c65640000000000000000000000000000000000000000000000000000.
Definition DEFAULT_PERSISTENT_ACCOUNTS : gset Address := {[CHEATCODE_ADDRESS; DEFAULT_CREATE2_DEPLOYER; CALLER]}.

Section ForkBackend.
Context `{!RevmData} `{!ForkNet} `{!Revm} `{!HashIter Address}.

(** ** Data *)
Notation LocalForkId := Z (only parsing).
Notation ForkLookupIndex := nat (only parsing).
Record Fork := mkFork { fk_db : ForkDB; fk_journaled_state : JournaledState }.
Definition fork_db_new (backend : SharedBackend) : ForkDB := mkForkDB (CacheDB.mk ∅ ∅ ∅) backend.

Inductive BackendDatabaseSnapshot :=
| InMemory (db : CacheDB.t)
| Forked (id : LocalForkId) (fork_id : ForkId) (idx : ForkLookupIndex) (fork : Fork).
Record BackendSnapshot := mkSnapshot { sn_db : BackendDatabaseSnapshot; sn_journaled_state : JournaledState; sn_env : Env }.
(** [merge]: a snapshot that is reverted takes over the current logs. *)
Definition set_logs (l : list Log) (js : JournaledState) : JournaledState :=
  mkJournal (js_state js) l (js_depth js) (js_journal js) (js_rest js).
Definition snapshot_merge (current : JournaledState) (s : BackendSnapshot) : BackendSnapshot :=
  mkSnapshot (sn_db s) (set_logs (js_logs current) (sn_journaled_state s)) (sn_env s).

Record BackendInner := mkInner {
  launched_with_fork : option (ForkId * LocalForkId * ForkLookupIndex);
  issued_local_fork_ids : gmap LocalForkId ForkId;
  created_forks : gmap ForkId ForkLookupIndex;
  inner_forks : list (option Fork);
  snapshots : Snapshots.t BackendSnapshot;
  has_snapshot_failure : bool;
  test_contract_address : option Address;
  caller : option Address;
  next_fork_id : LocalForkId;
  persistent_accounts : gset Address;
  precompile_id : PrecompileId;
  cheatcode_access_accounts : gset Address }.

(** [forks_known] are the forks that the handler has established (see
    [MultiFork]). *)
Record Backend := mkBackend {
  forks_known : gmap ForkId CreatedFork;
  mem_db : CacheDB.t;
  fork_init_journaled_state : JournaledState;
  active_fork_ids : option (LocalForkId * ForkLookupIndex);
  inner : BackendInner }.

(** ** Updates of a field *)
Definition set_inner (i : BackendInner) (b : Backend) : Backend :=
  mkBackend (forks_known b) (mem_db b) (fork_init_journaled_state b) (active_fork_ids b) i.
Definition set_known (k : gmap ForkId CreatedFork) (b : Backend) : Backend :=
  mkBackend k (mem_db b) (fork_init_journaled_state b) (active_fork_ids b) (inner b).
Definition set_mem_db (d : CacheDB.t) (b : Backend) : Backend :=
  mkBackend (forks_known b) d (fork_init_journaled_state b) (active_fork_ids b) (inner b).
Definition set_init (js : JournaledState) (b : Backend) : Backend :=
  mkBackend (forks_known b) (mem_db b) js (active_fork_ids b) (inner b).
Definition set_active (a : option (LocalForkId * ForkLookupIndex)) (b : Backend) : Backend :=
  mkBackend (forks_known b) (mem_db b) (fork_init_journaled_state b) a (inner b).

Definition set_ids (issued : gmap LocalForkId ForkId) (created : gmap ForkId ForkLookupIndex) (forks : list (option Fork))
    (next : LocalForkId) (i : BackendInner) : BackendInner :=
  mkInner (launched_with_fork i) issued created forks (snapshots i) (has_snapshot_failure i) (test_contract_address i)
    (caller i) next (persistent_accounts i) (precompile_id i) (cheatcode_access_accounts i).
Definition set_forks (forks : list (option Fork)) (i : BackendInner) : BackendInner :=
  set_ids (issued_local_fork_ids i) (created_forks i) forks (next_fork_id i) i.
Definition set_snapshots (s : Snapshots.t BackendSnapshot) (failure : bool) (i : BackendInner) : BackendInner :=
  mkInner (launched_with_fork i) (issued_local_fork_ids i) (created_forks i) (inner_forks i) s failure (test_contract_address i)
    (caller i) (next_fork_id i) (persistent_accounts i) (precompile_id i) (cheatcode_access_accounts i).
Definition set_accounts (test : option Address) (call : option Address) (persistent : gset Address) (spec : PrecompileId)
    (access : gset Address) (i : BackendInner) : BackendInner :=
  mkInner (launched_with_fork i) (issued_local_fork_ids i) (created_forks i) (inner_forks i) (snapshots i)
    (has_snapshot_failure i) test call (next_fork_id i) persistent spec access.
Definition set_launched (l : option (ForkId * LocalForkId * ForkLookupIndex)) (i : BackendInner) : BackendInner :=
  mkInner l (issued_local_fork_ids i) (created_forks i) (inner_forks i) (snapshots i) (has_snapshot_failure i)
    (test_contract_address i) (caller i) (next_fork_id i) (persistent_accounts i) (precompile_id i) (cheatcode_access_accounts i).

Definition set_state (m : gmap Address Account) (js : JournaledState) : JournaledState :=
  mkJournal m (js_logs js) (js_depth js) (js_journal js) (js_rest js).
Definition set_depth (d : Z) (js : JournaledState) : JournaledState :=
  mkJournal (js_state js) (js_logs js) d (js_journal js) (js_rest js).
Definition set_journal (j : list (list JournalEntry)) (js : JournaledState) : JournaledState :=
  mkJournal (js_state js) (js_logs js) (js_depth js) j (js_rest js).

(** ** BackendInner *)
Definition ensure_fork_id (id : LocalForkId) (i : BackendInner) : result ForkId ForkError :=
  match issued_local_fork_ids i !! id with Some f => Ok f | None => Err (Eyre "No matching fork found") end.
Definition ensure_fork_index (id : ForkId) (i : BackendInner) : result ForkLookupIndex ForkError :=
  match created_forks i !! id with Some idx => Ok idx | None => Err (Eyre "No matching fork found") end.

(** [self.forks[idx].as_ref().unwrap()] *)
Definition get_fork (idx : ForkLookupIndex) (i : BackendInner) : exec Fork :=
  o ← expect (inner_forks i !! idx) "index out of bounds";
  expect o "called `Option::unwrap()` on a `None` value".
Definition put_fork (idx : ForkLookupIndex) (f : option Fork) (i : BackendInner) : exec BackendInner :=
  _ ← expect (inner_forks i !! idx) "index out of bounds";
  Ret (set_forks (<[idx := f]> (inner_forks i)) i).
Definition take_fork (idx : ForkLookupIndex) (i : BackendInner) : exec (Fork * BackendInner) :=
  f ← get_fork idx i;
  i ← put_fork idx None i;
  Ret (f, i).
Definition set_fork (idx : ForkLookupIndex) (f : Fork) (i : BackendInner) : exec BackendInner := put_fork idx (Some f) i.

Definition inner_revert_snapshot (id : LocalForkId) (fork_id : ForkId) (idx : ForkLookupIndex) (fork : Fork) (i : BackendInner)
    : exec BackendInner :=
  set_fork idx fork
    (set_ids (<[id := fork_id]> (issued_local_fork_ids i)) (<[fork_id := idx]> (created_forks i)) (inner_forks i) (next_fork_id i) i).

Definition next_id (i : BackendInner) : exec (LocalForkId * LocalForkId) :=
  next ← u256_add (next_fork_id i) 1;
  Ret (next_fork_id i, next).
Definition insert_new_fork (fork_id : ForkId) (db : ForkDB) (journaled_state : JournaledState) (i : BackendInner)
    : exec (LocalForkId * ForkLookupIndex * BackendInner) :=
  let idx := length (inner_forks i) in
  let created := <[fork_id := idx]> (created_forks i) in
  '(id, next) ← next_id i;
  let issued := <[id := fork_id]> (issued_local_fork_ids i) in
  Ret (id, idx, set_ids issued created (inner_forks i ++ [Some (mkFork db journaled_state)]) next i).

Definition new_journaled_state (i : BackendInner) : JournaledState := journaled_new (size (precompiles (precompile_id i))).
Definition inner_default : BackendInner :=
  mkInner None ∅ ∅ [] Snapshots.new false None None 0 ∅ precompile_latest {[CHEATCODE_ADDRESS; TEST_CONTRACT_ADDRESS; CALLER]}.

(** ** Merging accounts *)

(** [fork_account.storage.extend(acc.storage)]: the active values win. *)
Definition merge_journaled_state_data (addr : Address) (active fork : JournaledState) : JournaledState :=
  match js_state active !! addr with
  | None => fork
  | Some acc =>
      let acc :=
        match js_state fork !! addr with
        | Some fork_account =>
            mkAccount (acc_info acc) (acc_storage acc ∪ acc_storage fork_account) (acc_is_touched acc) (acc_rest acc)
        | None => acc
        end in
      set_state (<[addr := acc]> (js_state fork)) fork
  end.
Definition merge_db_account_data (addr : Address) (active : CacheDB.t) (fork_db : ForkDB) : ForkDB :=
  match CacheDB.accounts active !! addr with
  | None => fork_db
  | Some acc =>
      let cache := fdb_cache fork_db in
      let code_hash := AccountInfo.code_hash (DbAccount.info acc) in
      let contracts :=
        match CacheDB.contracts active !! code_hash with
        | Some code => <[code_hash := code]> (CacheDB.contracts cache)
        | None => CacheDB.contracts cache
        end in
      let acc :=
        match CacheDB.accounts cache !! addr with
        | Some fork_account =>
            DbAccount.mk (DbAccount.info acc) (DbAccount.account_state acc) (DbAccount.storage acc ∪ DbAccount.storage fork_account)
        | None => acc
        end in
      mkForkDB (CacheDB.mk (<[addr := acc]> (CacheDB.accounts cache)) contracts (CacheDB.block_hashes cache)) (fdb_db fork_db)
  end.

Definition merge_account (active : CacheDB.t) (active_js : JournaledState) (target : Fork) (addr : Address) : Fork :=
  mkFork (merge_db_account_data addr active (fk_db target)) (merge_journaled_state_data addr active_js (fk_journaled_state target)).
(** Returns the target and the new active state. *)
Definition merge_account_data (accounts : list Address) (active : CacheDB.t) (active_js : JournaledState) (target : Fork)
    : Fork * JournaledState :=
  let target := fold_left (merge_account active active_js) accounts target in
  let js := fk_journaled_state target in
  let missing := (length (js_journal active_js) - length (js_journal js))%nat in
  let js := set_journal (js_journal js ++ replicate missing []) js in
  (mkFork (fk_db target) js, js).

(** ** Backend *)
Definition backend_new (known : gmap ForkId CreatedFork) : Backend :=
  let i := set_accounts None None DEFAULT_PERSISTENT_ACCOUNTS precompile_latest (cheatcode_access_accounts inner_default) inner_default in
  mkBackend known (CacheDB.mk ∅ ∅ ∅) (new_journaled_state i) None i.
(** [new_with_fork], which starts from an empty backend. *)
Definition new_with_fork (known : gmap ForkId CreatedFork) (id : ForkId) (fork : Fork) (journaled_state : JournaledState)
    : exec Backend :=
  let b := backend_new known in
  '(local, idx, i) ← insert_new_fork id (fk_db fork) journaled_state (inner b);
  Ret (set_active (Some (local, idx)) (set_inner (set_launched (Some (id, local, idx)) i) b)).
Definition clone_empty (b : Backend) : Backend :=
  mkBackend (forks_known b) (CacheDB.mk ∅ ∅ ∅) (new_journaled_state (inner b)) None inner_default.

Definition is_persistent (acc : Address) (b : Backend) : bool := bool_decide (acc ∈ persistent_accounts (inner b)).
Definition update_accounts (test call : option Address) (persistent : gset Address) (spec : PrecompileId) (access : gset Address)
    (b : Backend) : Backend := set_inner (set_accounts test call persistent spec access (inner b)) b.
Definition remove_persistent_account (a : Address) (b : Backend) : bool * Backend :=
  let i := inner b in
  (is_persistent a b, update_accounts (test_contract_address i) (caller i) (persistent_accounts i ∖ {[a]}) (precompile_id i)
                        (cheatcode_access_accounts i) b).
Definition add_persistent_account (a : Address) (b : Backend) : bool * Backend :=
  let i := inner b in
  (negb (is_persistent a b), update_accounts (test_contract_address i) (caller i) (persistent_accounts i ∪ {[a]}) (precompile_id i)
                               (cheatcode_access_accounts i) b).
Definition has_cheatcode_access (a : Address) (b : Backend) : bool := bool_decide (a ∈ cheatcode_access_accounts (inner b)).
Definition allow_cheatcode_access (a : Address) (b : Backend) : bool * Backend :=
  let i := inner b in
  (negb (has_cheatcode_access a b), update_accounts (test_contract_address i) (caller i) (persistent_accounts i) (precompile_id i)
                                      (cheatcode_access_accounts i ∪ {[a]}) b).
Definition revoke_cheatcode_access (a : Address) (b : Backend) : bool * Backend :=
  let i := inner b in
  (has_cheatcode_access a b, update_accounts (test_contract_address i) (caller i) (persistent_accounts i) (precompile_id i)
                               (cheatcode_access_accounts i ∖ {[a]}) b).

Definition set_test_address (a : option Address) (b : Backend) : Backend :=
  let i := inner b in update_accounts a (caller i) (persistent_accounts i) (precompile_id i) (cheatcode_access_accounts i) b.
Definition set_test_contract (acc : Address) (b : Backend) : Backend :=
  let b :=
    match test_contract_address (inner b) with
    | Some current =>
        let b := set_test_address None b in
        let b := snd (remove_persistent_account current b) in
        snd (revoke_cheatcode_access acc b)
    | None => b
    end in
  let b := snd (add_persistent_account acc b) in
  let b := snd (allow_cheatcode_access acc b) in
  set_test_address (Some acc) b.
Definition set_caller (acc : Address) (b : Backend) : Backend :=
  let i := inner b in
  snd (allow_cheatcode_access acc
         (update_accounts (test_contract_address i) (Some acc) (persistent_accounts i) (precompile_id i) (cheatcode_access_accounts i) b)).
Definition set_spec_id (spec : PrecompileId) (b : Backend) : Backend :=
  let i := inner b in
  update_accounts (test_contract_address i) (caller i) (persistent_accounts i) spec (cheatcode_access_accounts i) b.
(** [initialize]; a creation is with the scheme [Create]. *)
Definition initialize (env : Env) (b : Backend) : Backend :=
  let b := set_caller (env_caller (ev_tx env)) b in
  let b := set_spec_id (precompile_of_spec (CfgEnv.spec_id (ev_cfg env))) b in
  set_test_contract
    (match env_transact_to (ev_tx env) with
     | TransactToCall to => to
     | TransactToCreate => create_address (env_caller (ev_tx env)) (default 0 (env_nonce (ev_tx env)))
     end) b.

Definition ensure_cheatcode_access (a : Address) (b : Backend) : bool := has_cheatcode_access a b.
Definition ensure_cheatcode_access_forking_mode (a : Address) (b : Backend) : bool :=
  match active_fork_ids b with Some _ => ensure_cheatcode_access a b | None => true end.
Definition is_active_fork (id : LocalForkId) (b : Backend) : bool :=
  match active_fork_ids b with Some (i, _) => bool_decide (i = id) | None => false end.
Definition active_fork_id (b : Backend) : option LocalForkId := fst <$> active_fork_ids b.
Definition active_fork (b : Backend) : exec (option Fork) :=
  match active_fork_ids b with
  | Some (_, idx) => f ← get_fork idx (inner b); Ret (Some f)
  | None => Ret None
  end.

(** ** The state of a test *)
Record World := mkWorld { w_backend : Backend; w_env : Env; w_state : JournaledState }.
Definition fk (A : Type) : Type := World -> exec (result A ForkError * World).
#[local] Instance fk_bind : MBind fk := fun A B f m w =>
  '(r, w) ← m w;
  match r with Ok a => f a w | Err e => Ret (Err e, w) end.
Definition fk_ok {A} (a : A) : fk A := fun w => Ret (Ok a, w).
(** [?] on a [Result], and a computation that may panic. *)
Definition fk_try {A} (r : result A ForkError) : fk A := fun w => Ret (r, w).
Definition fk_exec {A} (e : exec A) : fk A := fun w => a ← e; Ret (Ok a, w).
Definition fk_read {A} (f : World -> A) : fk A := fun w => Ret (Ok (f w), w).
Definition fk_backend (f : Backend -> Backend) : fk unit := fun w => Ret (Ok tt, mkWorld (f (w_backend w)) (w_env w) (w_state w)).
Definition fk_inner (f : BackendInner -> exec BackendInner) : fk unit := fun w =>
  i ← f (inner (w_backend w)); Ret (Ok tt, mkWorld (set_inner i (w_backend w)) (w_env w) (w_state w)).
Definition fk_put_env (e : Env) : fk unit := fun w => Ret (Ok tt, mkWorld (w_backend w) e (w_state w)).
Definition fk_put_state (js : JournaledState) : fk unit := fun w => Ret (Ok tt, mkWorld (w_backend w) (w_env w) js).
Definition from_db {A} (r : result A DatabaseFailure) : result A ForkError :=
  match r with Ok a => Ok a | Err e => Err (DbFailure e) end.

Definition update_current_env_with_fork_env (current fork : Env) : Env := mkEnv (ev_cfg fork) (ev_block fork) (ev_tx current).

(** ** Reading the active database *)
Definition backend_basic (b : Backend) (a : Address) : exec (result (option AccountInfo.t) ForkError) :=
  o ← active_fork b;
  Ret (match o with Some f => from_db (fork_basic_ref (fk_db f) a) | None => from_db (mem_basic_ref (mem_db b) a) end).
Definition backend_storage (b : Backend) (a : Address) (index : Z) : exec (result Z ForkError) :=
  o ← active_fork b;
  Ret (match o with
       | Some f => from_db (fork_storage_ref (fk_db f) a index)
       | None => from_db (mem_storage_ref (mem_db b) a index)
       end).
(** [value.as_le_bytes()[1] != 0] *)
Definition second_byte_set (value : Z) : bool := negb ((value / 256) mod 256 =? 0).
Definition slot_value (acc : Account) (index : Z) : Z := default 0 (present_value <$> acc_storage acc !! index).
Definition is_failed_test_contract (b : Backend) (a : Address) : exec bool :=
  r ← backend_storage b a 0;
  Ret (second_byte_set (match r with Ok v => v | Err _ => 0 end)).
Definition is_failed_test_contract_state (a : Address) (current : JournaledState) : bool :=
  match js_state current !! a with Some acc => second_byte_set (slot_value acc 0) | None => false end.
Definition is_global_failure (current : JournaledState) : bool :=
  match js_state current !! CHEATCODE_ADDRESS with
  | Some acc => bool_decide (slot_value acc GLOBAL_FAILURE_SLOT = 1)
  | None => false
  end.
Definition is_failed (b : Backend) : exec bool :=
  if has_snapshot_failure (inner b) then Ret true
  else
    match test_contract_address (inner b) with
    | Some addr => is_failed_test_contract b addr
    | None => Ret false
    end.

(** [forks_iter().enumerate()..] of [merged_logs]: the current logs in the
    place of the active fork's. *)
Definition merged_logs (b : Backend) (logs : list Log) : list Log :=
  match active_fork_ids b with
  | None => logs
  | Some (_, active) =>
      imap pair (inner_forks (inner b)) ≫= fun '(idx, f) =>
        match f with
        | Some f => if decide (idx = active) then logs else js_logs (fk_journaled_state f)
        | None => []
        end
  end.

(** ** Snapshots *)
Definition create_db_snapshot (b : Backend) : exec BackendDatabaseSnapshot :=
  match active_fork_ids b with
  | Some (id, idx) =>
      fork ← get_fork idx (inner b);
      fork_id ← expect (issued_local_fork_ids (inner b) !! id) "Exists; qed";
      Ret (Forked id fork_id idx fork)
  | None => Ret (InMemory (mem_db b))
  end.
Definition snapshot : fk Z := fun w =>
  let b := w_backend w in
  db ← create_db_snapshot b;
  let '(id, sn) := Snapshots.insert (mkSnapshot db (w_state w) (w_env w)) (snapshots (inner b)) in
  Ret (Ok id, mkWorld (set_inner (set_snapshots sn (has_snapshot_failure (inner b)) (inner b)) b) (w_env w) (w_state w)).

(** The caller's account, if the journaled state of the fork does not have
    it yet: [current] is the state it is copied from. *)
Definition ensure_caller (caller : Address) (current : JournaledState) (fork_db : ForkDB) (js : JournaledState)
    : ForkDB * JournaledState :=
  match js_state js !! caller with
  | Some _ => (fork_db, js)
  | None =>
      let caller_account := default default_account (acc_info <$> js_state current !! caller) in
      let cache := fdb_cache fork_db in
      let cache :=
        match CacheDB.accounts cache !! caller with
        | Some _ => cache
        | None => insert_account_info caller caller_account cache
        end in
      (mkForkDB cache (fdb_db fork_db), set_state (<[caller := account_from caller_account]> (js_state js)) js)
  end.

(** [revert]: the journaled state to go on with, if there is such a
    snapshot. *)
Definition revert (id : Z) : fk (option JournaledState) := fun w =>
  let b := w_backend w in
  let '(o, sn) := Snapshots.remove_at id (snapshots (inner b)) in
  match o with
  | None => Ret (Ok None, mkWorld (set_inner (set_snapshots sn (has_snapshot_failure (inner b)) (inner b)) b) (w_env w) (w_state w))
  | Some snap =>
      let '(_, sn) := Snapshots.insert_at snap id sn in
      let failure := is_global_failure (w_state w) || has_snapshot_failure (inner b) in
      let b := set_inner (set_snapshots sn failure (inner b)) b in
      let snap := snapshot_merge (w_state w) snap in
      let js := sn_journaled_state snap in
      let env := update_current_env_with_fork_env (w_env w) (sn_env snap) in
      match sn_db snap with
      | InMemory db => Ret (Ok (Some js), mkWorld (set_mem_db db b) env (w_state w))
      | Forked local fork_id idx fork =>
          let '(db, js) := ensure_caller (env_caller (ev_tx (w_env w))) (w_state w) (fk_db fork) js in
          i ← inner_revert_snapshot local fork_id idx (mkFork db (fk_journaled_state fork)) (inner b);
          Ret (Ok (Some js), mkWorld (set_active (Some (local, idx)) (set_inner i b)) env (w_state w))
      end
  end.

(** ** Creating and selecting forks *)
Variable establish : CreateFork -> result (SharedBackend * Env) string.

Definition create_fork (fork : CreateFork) : fk LocalForkId := fun w =>
  let b := w_backend w in
  '(a, known) ← serve_create establish fork (forks_known b);
  let b := set_known known b in
  match a with
  | Err e => Ret (Err (Eyre e), mkWorld b (w_env w) (w_state w))
  | Ok (fork_id, backend, _) =>
      '(id, _, i) ← insert_new_fork fork_id (fork_db_new backend) (fork_init_journaled_state b) (inner b);
      Ret (Ok id, mkWorld (set_inner i b) (w_env w) (w_state w))
  end.

(** One fork of [prepare_init_journal_state]: the loaded accounts take the
    fork's data; the fork's database caches what was read. *)
Fixpoint reload_accounts (accounts : list Address) (db : ForkDB) (js : JournaledState)
    : exec (result JournaledState ForkError * ForkDB) :=
  match accounts with
  | [] => Ret (Ok js, db)
  | a :: accounts =>
      let '(r, db) := fork_basic db a in
      match r with
      | Err e => Ret (Err (DbFailure e), db)
      | Ok None => Ret (Err (MissingAccount a), db)
      | Ok (Some fork_account) =>
          init ← expect (js_state js !! a) "exists; qed";
          reload_accounts accounts db
            (set_state (<[a := mkAccount fork_account (acc_storage init) (acc_is_touched init) (acc_rest init)]> (js_state js)) js)
      end
  end.
Fixpoint prepare_forks (accounts : list Address) (init : JournaledState) (forks : list (option Fork))
    : exec (result unit ForkError * list (option Fork)) :=
  match forks with
  | [] => Ret (Ok tt, [])
  | None :: forks => '(r, rest) ← prepare_forks accounts init forks; Ret (r, None :: rest)
  | Some f :: forks =>
      '(r, db) ← reload_accounts accounts (fk_db f) init;
      match r with
      | Err e => Ret (Err e, Some (mkFork db (fk_journaled_state f)) :: forks)
      | Ok js =>
          '(r, rest) ← prepare_forks accounts init forks;
          Ret (r, Some (mkFork db js) :: rest)
      end
  end.
Definition loaded_accounts (b : Backend) : list Address :=
  filter (fun a => a ∉ precompiles (precompile_id (inner b)) /\ a ∉ persistent_accounts (inner b))
    (hash_iter (dom (js_state (fork_init_journaled_state b)))).
Definition prepare_init_journal_state : fk unit := fun w =>
  let b := w_backend w in
  '(r, forks) ← prepare_forks (loaded_accounts b) (fork_init_journaled_state b) (inner_forks (inner b));
  Ret (r, mkWorld (set_inner (set_forks forks (inner b)) b) (w_env w) (w_state w)).

(** The target gets the caller with the fork's own data, if it was not
    selected before. *)
Definition init_caller (idx : ForkLookupIndex) (caller : Address) (caller_account : option Account) : fk unit := fun w =>
  let b := w_backend w in
  target ← get_fork idx (inner b);
  match caller_account with
  | Some acc =>
      if decide (js_depth (fk_journaled_state target) = 0) then
        let '(r, db) := fork_basic (fk_db target) caller in
        let js := fk_journaled_state target in
        let '(r, js) :=
          match r with
          | Err e => (Err (DbFailure e), js)
          | Ok None => (Err (MissingAccount caller), js)
          | Ok (Some info) =>
              (Ok tt, set_state (<[caller := mkAccount info (acc_storage acc) (acc_is_touched acc) (acc_rest acc)]> (js_state js)) js)
          end in
        i ← put_fork idx (Some (mkFork db js)) (inner b);
        Ret (r, mkWorld (set_inner i b) (w_env w) (w_state w))
      else Ret (Ok tt, w)
  | None => Ret (Ok tt, w)
  end.

(** [update_fork_db]; the assertion is on in debug builds. *)
Definition update_fork_db (b : Backend) (active_js : JournaledState) (target : Fork) : exec (Fork * JournaledState) :=
  _ ← assert (bool_decide (is_Some (test_contract_address (inner b)))) "Test contract address must be set";
  active ← match active_fork_ids b with
           | Some (_, fork_idx) => f ← get_fork fork_idx (inner b); Ret (fdb_cache (fk_db f))
           | None => Ret (mem_db b)
           end;
  Ret (merge_account_data (hash_iter (persistent_accounts (inner b))) active active_js target).

(** The handover: the fork is taken out of the list while it is updated. *)
Definition handover (id : LocalForkId) (idx : ForkLookupIndex) (fork_env : Env) : fk unit := fun w =>
  let b := w_backend w in
  '(fork, i) ← take_fork idx (inner b);
  let b := set_inner i b in
  let js := set_depth (js_depth (w_state w)) (fk_journaled_state fork) in
  let '(db, js) := ensure_caller (env_caller (ev_tx (w_env w))) (w_state w) (fk_db fork) js in
  '(fork, js) ← update_fork_db b (w_state w) (mkFork db js);
  i ← set_fork idx fork (inner b);
  Ret (Ok tt, mkWorld (set_active (Some (id, idx)) (set_inner i b)) (update_current_env_with_fork_env (w_env w) fork_env) js).

Definition select_fork (id : LocalForkId) : fk unit :=
  b ← fk_read w_backend;
  if is_active_fork id b then fk_ok tt
  else
    fork_id ← fk_try (ensure_fork_id id (inner b));
    idx ← fk_try (ensure_fork_index fork_id (inner b));
    fork_env ← fk_try (match forks_known b !! fork_id with
                       | Some f => Ok (cf_env (opts f))
                       | None => Err (Eyre "Requested fork does not exit")
                       end);
    js ← fk_read w_state;
    _ ← match active_fork_ids b with
        | Some (_, active_idx) =>
            active ← fk_exec (get_fork active_idx (inner b));
            _ ← fk_inner (put_fork active_idx (Some (mkFork (fk_db active) js)));
            caller ← fk_read (fun w => env_caller (ev_tx (w_env w)));
            init_caller idx caller (js_state js !! caller)
        | None =>
            _ ← fk_backend (set_init js);
            _ ← prepare_init_journal_state;
            fk_backend (fun b => set_init (set_depth 0 (fork_init_journaled_state b)) b)
        end;
    handover id idx fork_env.

Definition create_select_fork (fork : CreateFork) : fk LocalForkId :=
  id ← create_fork fork;
  _ ← select_fork id;
  fk_ok id.

(** [Backend::new] *)
Definition new (known : gmap ForkId CreatedFork) (fork : option CreateFork) : exec Backend :=
  let b := backend_new known in
  match fork with
  | None => Ret b
  | Some fork =>
      '(a, known) ← serve_create establish fork known;
      match a with
      | Err _ => Panic "Unable to create fork"
      | Ok (fork_id, backend, _) =>
          let b := set_known known b in
          '(id, idx, i) ← insert_new_fork fork_id (fork_db_new backend) (new_journaled_state (inner b)) (inner b);
          Ret (set_active (Some (id, idx)) (set_inner (set_launched (Some (fork_id, id, idx)) i) b))
      end
  end.

(** ** Rolling forks *)
Definition ensure_fork (id : option LocalForkId) (b : Backend) : result LocalForkId ForkError :=
  match id with
  | Some id =>
      match issued_local_fork_ids (inner b) !! id with
      | Some _ => Ok id
      | None => Err (Eyre "Requested fork does not exit")
      end
  | None =>
      match active_fork_id b with
      | Some id => Ok id
      | None => Err (Eyre "No fork active")
      end
  end.

(** [BackendInner::roll_fork]: the fork gets a new database, with the data of
    the persistent accounts, and the local id a new fork. *)
Definition inner_roll_fork (id : LocalForkId) (new_fork_id : ForkId) (backend : SharedBackend) (i : BackendInner)
    : exec (result ForkLookupIndex ForkError * BackendInner) :=
  match ensure_fork_id id i with
  | Err e => Ret (Err e, i)
  | Ok fork_id =>
      match ensure_fork_index fork_id i with
      | Err e => Ret (Err e, i)
      | Ok idx =>
          o ← expect (inner_forks i !! idx) "index out of bounds";
          let forks :=
            match o with
            | Some active =>
                let new_db := fold_left (fun db addr => merge_db_account_data addr (fdb_cache (fk_db active)) db)
                                (hash_iter (persistent_accounts i)) (fork_db_new backend) in
                <[idx := Some (mkFork new_db (fk_journaled_state active))]> (inner_forks i)
            | None => inner_forks i
            end in
          Ret (Ok idx, set_ids (<[id := new_fork_id]> (issued_local_fork_ids i)) (<[new_fork_id := idx]> (created_forks i)) forks
                         (next_fork_id i) i)
      end
  end.

(** The accounts that were loaded are copied if they were touched, else loaded
    again. *)
Definition reload_account (journaled : JournaledState) (fork : Fork) (addr : Address) : Fork :=
  match js_state journaled !! addr with
  | Some acc =>
      if acc_is_touched acc then
        mkFork (fk_db fork) (merge_journaled_state_data addr journaled (fk_journaled_state fork))
      else
        let '(js, db) := load_account addr (fk_journaled_state fork) (fk_db fork) in mkFork db js
  | None => fork
  end.

Definition roll_active (active_idx : ForkLookupIndex) (fork_env : Env) : fk unit := fun w =>
  let b := w_backend w in
  let journaled := w_state w in
  let env := update_current_env_with_fork_env (w_env w) fork_env in
  let persistent_addrs := persistent_accounts (inner b) ∪ list_to_set (option_list (caller (inner b))) in
  active ← get_fork active_idx (inner b);
  let js := set_depth (js_depth journaled) (fork_init_journaled_state b) in
  let js := fold_left (fun js addr => merge_journaled_state_data addr journaled js) (hash_iter persistent_addrs) js in
  let active := fold_left (reload_account journaled) (hash_iter (dom (js_state journaled))) (mkFork (fk_db active) js) in
  i ← put_fork active_idx (Some active) (inner b);
  Ret (Ok tt, mkWorld (set_inner i b) env (fk_journaled_state active)).

Definition roll_fork (id : option LocalForkId) (block_number : Z) : fk unit :=
  b ← fk_read w_backend;
  id ← fk_try (ensure_fork id b);
  fork_id ← fk_try (ensure_fork_id id (inner b));
  block ← fk_exec (u256_as_u64 block_number);
  '(a, known) ← fk_exec (serve_roll establish fork_id block (forks_known b));
  _ ← fk_backend (set_known known);
  '(fork_id, backend, fork_env) ← fk_try (match a with Ok x => Ok x | Err e => Err (Eyre e) end);
  _ ← (fun w =>
         '(r, i) ← inner_roll_fork id fork_id backend (inner (w_backend w));
         Ret (r, mkWorld (set_inner i (w_backend w)) (w_env w) (w_state w)));
  match active_fork_ids b with
  | Some (active_id, active_idx) => if decide (active_id = id) then roll_active active_idx fork_env else fk_ok tt
  | None => fk_ok tt
  end.

(** ** Transactions of the remote chain *)

(** [evm.transact] or [evm.inspect] on a backend. *)
Variable evm_run : Backend -> Env -> bool -> result (gmap Address Account) string.

Definition configure_tx_env (env : Env) (tx : RpcTransaction) : exec Env :=
  gas_limit ← u256_as_u64 (rt_gas tx);
  nonce ← u256_as_u64 (rt_nonce tx);
  Ret (mkEnv (ev_cfg env) (ev_block env)
         {| env_caller := rt_from tx;
            env_transact_to := match rt_to tx with Some to => TransactToCall to | None => TransactToCreate end;
            env_data := rt_input tx;
            env_chain_id := env_chain_id (ev_tx env);
            env_nonce := Some nonce;
            env_value := rt_value tx;
            env_gas_price := default 0 (rt_gas_price tx);
            env_gas_priority_fee := rt_max_priority_fee_per_gas tx;
            env_tx_gas_limit := gas_limit;
            env_access_list := to_revm_access_list (default [] (rt_access_list tx)) |}).

(** One changed account: reloaded where it was loaded. *)
Definition reload_changed (st : JournaledState * Fork) (addr : Address) : JournaledState * Fork :=
  let '(js, fork) := st in
  let '(js, db) :=
    match js_state js !! addr with
    | Some _ => load_account addr (set_state (delete addr (js_state js)) js) (fk_db fork)
    | None => (js, fk_db fork)
    end in
  let fjs := fk_journaled_state fork in
  let '(fjs, db) :=
    match js_state fjs !! addr with
    | Some _ => load_account addr (set_state (delete addr (js_state fjs)) fjs) db
    | None => (fjs, db)
    end in
  (js, mkFork db fjs).
Definition apply_state_changeset (state : gmap Address Account) (js : JournaledState) (fork : Fork) : JournaledState * Fork :=
  let db := fk_db fork in
  let fork := mkFork (mkForkDB (db_commit state (fdb_cache db)) (fdb_db db)) (fk_journaled_state fork) in
  fold_left reload_changed (hash_iter (dom state)) (js, fork).
Definition commit_transaction (tx : RpcTransaction) (env : Env) (js : JournaledState) (fork : Fork) (fork_id : ForkId) (inspected : bool)
    : exec (result (JournaledState * Fork) ForkError) :=
  env ← configure_tx_env env tx;
  b ← new_with_fork ∅ fork_id fork js;
  Ret (match evm_run b env inspected with
       | Ok state => Ok (apply_state_changeset state js fork)
       | Err e => Err (Eyre ("backend: failed committing transaction: " +:+ e))
       end).

Definition get_fork_by_id (id : LocalForkId) (i : BackendInner) : exec (result (ForkLookupIndex * Fork) ForkError) :=
  match ensure_fork_id id i with
  | Err e => Ret (Err e)
  | Ok fork_id =>
      match ensure_fork_index fork_id i with
      | Err e => Ret (Err e)
      | Ok idx => f ← get_fork idx i; Ret (Ok (idx, f))
      end
  end.
Definition fk_fork (id : LocalForkId) : fk (ForkLookupIndex * Fork) := fun w =>
  r ← get_fork_by_id id (inner (w_backend w)); Ret (r, w).
Definition commit_on (idx : ForkLookupIndex) (fork : Fork) (fork_id : ForkId) (tx : RpcTransaction) (env : Env) (inspected : bool)
    : fk Fork :=
  js ← fk_read w_state;
  r ← fk_exec (commit_transaction tx env js fork fork_id inspected);
  '(js, fork) ← fk_try r;
  _ ← fk_put_state js;
  _ ← fk_inner (put_fork idx (Some fork));
  fk_ok fork.

Fixpoint replay_transactions (idx : ForkLookupIndex) (fork : Fork) (fork_id : ForkId) (env : Env) (tx_hash : H256) (txs : list RpcTransaction)
    : fk (option RpcTransaction) :=
  match txs with
  | [] => fk_ok None
  | tx :: txs =>
      if decide (rt_hash tx = tx_hash) then fk_ok (Some tx)
      else
        fork ← commit_on idx fork fork_id tx env false;
        replay_transactions idx fork fork_id env tx_hash txs
  end.
Definition replay_until (id : LocalForkId) (env : Env) (tx_hash : H256) : fk (option RpcTransaction) :=
  b ← fk_read w_backend;
  fork_id ← fk_try (ensure_fork_id id (inner b));
  '(idx, fork) ← fk_fork id;
  number ← fk_exec (u256_as_u64 (BlockEnv.number (ev_block env)));
  full_block ← fk_try (from_db (get_full_block (fdb_db (fk_db fork)) (Some number)));
  replay_transactions idx fork fork_id env tx_hash (rb_transactions full_block).

(** The block to fork at is the one before the transaction's. *)
Definition get_block_number_and_block_for_transaction (id : LocalForkId) (transaction : H256) : fk (Z * RpcBlock) :=
  '(_, fork) ← fk_fork id;
  tx ← fk_try (from_db (get_transaction (fdb_db (fk_db fork)) transaction));
  match rt_block_number tx with
  | Some tx_block =>
      block ← fk_try (from_db (get_full_block (fdb_db (fk_db fork)) (Some tx_block)));
      fork_block ← fk_exec (u64_sub tx_block 1);
      fk_ok (fork_block, block)
  | None =>
      block ← fk_try (from_db (get_full_block (fdb_db (fk_db fork)) None));
      number ← fk_try (match rb_number block with Some n => Ok n | None => Err BlockNotFoundLatest end);
      fk_ok (number, block)
  end.
Definition block_env_at (fork_block : Z) (block : RpcBlock) : BlockEnv.t :=
  BlockEnv.mk (default fork_block (rb_number block)) (default 0 (rb_author block)) (rb_timestamp block) (rb_difficulty block)
    (rb_mix_hash block) (default 0 (rb_base_fee_per_gas block)) (rb_gas_limit block).
Definition roll_fork_to_transaction (id : option LocalForkId) (transaction : H256) : fk unit :=
  b ← fk_read w_backend;
  id ← fk_try (ensure_fork id b);
  '(fork_block, block) ← get_block_number_and_block_for_transaction id transaction;
  _ ← roll_fork (Some id) fork_block;
  env ← fk_read w_env;
  let env := mkEnv (ev_cfg env) (block_env_at fork_block block) (ev_tx env) in
  _ ← fk_put_env env;
  _ ← replay_until id env transaction;
  fk_ok tt.

(** [create_fork_at_transaction] rolls the new fork with an environment and a
    journaled state of its own. *)
Definition create_fork_at_transaction (fork : CreateFork) (transaction : H256) : fk LocalForkId :=
  id ← create_fork fork;
  b ← fk_read w_backend;
  fork_id ← fk_try (ensure_fork_id id (inner b));
  env ← fk_try (match forks_known b !! fork_id with
                | Some f => Ok (cf_env (opts f))
                | None => Err (Eyre "Requested fork does not exit")
                end);
  _ ← (fun w =>
         '(r, w') ← roll_fork_to_transaction (Some id) transaction (mkWorld (w_backend w) env (new_journaled_state (inner (w_backend w))));
         Ret (r, mkWorld (w_backend w') (w_env w) (w_state w)));
  fk_ok id.
Definition create_select_fork_at_transaction (fork : CreateFork) (transaction : H256) : fk LocalForkId :=
  id ← create_fork_at_transaction fork transaction;
  _ ← select_fork id;
  fk_ok id.

Definition transact (maybe_id : option LocalForkId) (transaction : H256) (inspected : bool) : fk unit :=
  b ← fk_read w_backend;
  id ← fk_try (ensure_fork maybe_id b);
  fork_id ← fk_try (ensure_fork_id id (inner b));
  env ← match maybe_id with
        | None => fk_try (match forks_known b !! fork_id with
                          | Some f => Ok (cf_env (opts f))
                          | None => Err (Eyre "Requested fork does not exit")
                          end)
        | Some _ => fk_read w_env
        end;
  '(idx, fork) ← fk_fork id;
  tx ← fk_try (from_db (get_transaction (fdb_db (fk_db fork)) transaction));
  _ ← commit_on idx fork fork_id tx env inspected;
  fk_ok tt.

(** ** Diagnostics *)
Inductive RevertDiagnostic :=
| ContractExistsOnOtherForks (contract : Address) (active : LocalForkId) (available_on : list LocalForkId)
| ContractDoesNotExist (contract : Address) (active : LocalForkId) (persistent : bool).

Definition is_contract_in_state (js : JournaledState) (acc : Address) : bool :=
  match js_state js !! acc with Some a => negb (AccountInfo.code_hash (acc_info a) =? KECCAK_EMPTY) | None => false end.
Definition is_contract (f : Fork) (acc : Address) : bool :=
  match fork_basic_ref (fk_db f) acc with
  | Ok (Some info) =>
      if AccountInfo.code_hash info =? KECCAK_EMPTY then is_contract_in_state (fk_journaled_state f) acc else true
  | _ => is_contract_in_state (fk_journaled_state f) acc
  end.

(** The forks of the local ids [ids] other than [active_id] that have the
    contract. *)
Fixpoint available_on (callee : Address) (active_id : LocalForkId) (ids : list LocalForkId) (i : BackendInner)
    : exec (list LocalForkId) :=
  match ids with
  | [] => Ret []
  | id :: ids =>
      fork_id ← expect (issued_local_fork_ids i !! id) "no entry found for key";
      idx ← expect (created_forks i !! fork_id) "no entry found for key";
      f ← get_fork idx i;
      rest ← available_on callee active_id ids i;
      Ret (if decide (id <> active_id /\ is_contract f callee = true) then id :: rest else rest)
  end.
Definition diagnose_revert (b : Backend) (callee : Address) (js : JournaledState) : exec (option RevertDiagnostic) :=
  match active_fork_ids b with
  | None => Ret None
  | Some (active_id, idx) =>
      active ← get_fork idx (inner b);
      if decide (length (inner_forks (inner b)) = 1%nat) then Ret None
      else if is_contract active callee || is_contract_in_state js callee then Ret None
      else
        ids ← available_on callee active_id (hash_iter (dom (issued_local_fork_ids (inner b)))) (inner b);
        Ret (Some (match ids with
                   | [] => ContractDoesNotExist callee active_id (is_persistent callee b)
                   | _ => ContractExistsOnOtherForks callee active_id ids
                   end))
  end.
End ForkBackend.
