(* ===== verification/ForkBackendProps.v ===== *)
(** * Forks are separate (theorems about [ForkBackend])

    The bookkeeping of forks never panics as long as forks differ in endpoint
    or block; selecting a fork carries over the persistent accounts and
    nothing else; a snapshot restores the fork that was active. *)
From S2P Require Import Prelude Transaction Hardfork Block Snapshots Db Validator MultiFork ForkBackend.
Open Scope Z_scope.

Section ForkBackendProps.
Context `{!RevmData} `{!ForkNet} `{!Revm} `{!HashIter Address}.
Variable establish : CreateFork -> result (SharedBackend * Env) string.
#[local] Existing Instance fk_bind.

(** ** The bookkeeping

    A local id is the position of its fork. *)
Definition snapshot_ok (i : BackendInner) (s : BackendSnapshot) : Prop :=
  match sn_db s with
  | InMemory _ => True
  | Forked id fid idx _ => 0 <= id < Z.of_nat (length (inner_forks i)) /\ idx = Z.to_nat id /\ created_forks i !! fid = Some idx
  end.
Record backend_wf (b : Backend) : Prop := {
  wf_forks : Forall is_Some (inner_forks (inner b));
  wf_next : next_fork_id (inner b) = Z.of_nat (length (inner_forks (inner b)));
  wf_issued id fid : issued_local_fork_ids (inner b) !! id = Some fid ->
    0 <= id < Z.of_nat (length (inner_forks (inner b))) /\ created_forks (inner b) !! fid = Some (Z.to_nat id);
  wf_created fid idx : created_forks (inner b) !! fid = Some idx -> is_Some (forks_known b !! fid);
  wf_active id idx : active_fork_ids b = Some (id, idx) ->
    is_Some (issued_local_fork_ids (inner b) !! id) /\ idx = Z.to_nat id;
  wf_snapshots id s : Snapshots.snapshots (snapshots (inner b)) !! id = Some s -> snapshot_ok (inner b) s }.

Lemma get_fork_wf b idx :
  backend_wf b -> (idx < length (inner_forks (inner b)))%nat ->
  exists f, inner_forks (inner b) !! idx = Some (Some f) /\ get_fork idx (inner b) = Ret f.
Proof.
  intros W Hlt. apply lookup_lt_is_Some in Hlt as [o Ho]. pose proof (wf_forks b W) as Hf. rewrite Forall_lookup in Hf.
  destruct (Hf _ _ Ho) as [f ->]. exists f. split; [done|]. unfold get_fork. by rewrite Ho.
Qed.
Lemma put_fork_lt idx f i : (idx < length (inner_forks i))%nat -> put_fork idx f i = Ret (set_forks (<[idx := f]> (inner_forks i)) i).
Proof. intros [o Ho]%lookup_lt_is_Some. unfold put_fork. by rewrite Ho. Qed.

Lemma issued_lt b id fid :
  backend_wf b -> issued_local_fork_ids (inner b) !! id = Some fid -> (Z.to_nat id < length (inner_forks (inner b)))%nat.
Proof. intros W Hi. destruct (wf_issued b W _ _ Hi) as [? _]. lia. Qed.
Lemma active_lt b id idx : backend_wf b -> active_fork_ids b = Some (id, idx) -> (idx < length (inner_forks (inner b)))%nat.
Proof. intros W Ha. destruct (wf_active b W _ _ Ha) as [[fid Hi] ->]. by eapply issued_lt. Qed.

(** Changing the contents of forks keeps the bookkeeping. *)
Lemma wf_replace_forks b forks :
  backend_wf b -> length forks = length (inner_forks (inner b)) -> Forall is_Some forks ->
  backend_wf (set_inner (set_forks forks (inner b)) b).
Proof.
  intros [W1 W2 W3 W4 W5 W6] Hlen Hsome. split; cbn; rewrite ?Hlen; try done.
  intros id s Hs. specialize (W6 id s Hs). unfold snapshot_ok in *. destruct (sn_db s); [done|]. cbn. by rewrite Hlen.
Qed.
Lemma wf_put_fork b idx f :
  backend_wf b -> backend_wf (set_inner (set_forks (<[idx := Some f]> (inner_forks (inner b))) (inner b)) b).
Proof.
  intros W. apply wf_replace_forks; [done|by rewrite length_insert|]. apply Forall_insert; [apply W|by eexists].
Qed.

(** *** Creating and rolling *)

(** Fewer than 2^64 backends share a fork. *)
Definition senders_ok (known : gmap ForkId CreatedFork) : Prop := map_Forall (fun _ f => num_senders f < U64_MAX) known.

Lemma serve_create_spec fork known :
  senders_ok known ->
  exists a known', serve_create establish fork known = Ret (a, known') /\
    (forall fid, is_Some (known !! fid) -> is_Some (known' !! fid)) /\
    match a with Ok (fid, _, _) => fid = fork_id_of fork /\ is_Some (known' !! fid) | Err _ => True end.
Proof.
  intros Hs. unfold serve_create. destruct (known !! fork_id_of fork) as [f|] eqn:Hf.
  - unfold u64_add. rewrite decide_True by (pose proof (Hs _ _ Hf); simpl in *; lia). cbn. eexists _, _. split; [done|]. split.
    + intros fid. rewrite lookup_insert_is_Some'. by right.
    + split; [done|]. by rewrite lookup_insert_eq.
  - destruct (establish fork) as [[b e]|e]; eexists _, _; (split; [done|]); split; try done.
    + intros fid. rewrite lookup_insert_is_Some'. by right.
    + split; [done|]. by rewrite lookup_insert_eq.
Qed.
Lemma serve_roll_spec id block known :
  senders_ok known ->
  exists a known', serve_roll establish id block known = Ret (a, known') /\
    (forall fid, is_Some (known !! fid) -> is_Some (known' !! fid)) /\
    match a with Ok (fid, _, _) => is_Some (known' !! fid) /\ (exists f, known !! id = Some f /\ fid = create_fork_id (url (opts f)) (Some block))
               | Err _ => True end.
Proof.
  intros Hs. unfold serve_roll. destruct (known !! id) as [f|] eqn:Hf; [|by eexists _, _].
  destruct (serve_create_spec (set_block block (opts f)) known Hs) as (a & k' & -> & Hk & Ha). eexists _, _. split; [done|]. split; [done|].
  destruct a as [[[fid b] e]|e]; [|done]. destruct Ha as [-> Ha]. split; [done|]. by exists f.
Qed.

Lemma wf_set_known b known :
  backend_wf b -> (forall fid, is_Some (forks_known b !! fid) -> is_Some (known !! fid)) -> backend_wf (set_known known b).
Proof. intros [W1 W2 W3 W4 W5 W6] Hk. split; cbn; try done. intros fid idx Hc. apply Hk. by eapply W4. Qed.

(** Entering a fork under a fresh id, or under one that already belongs to the
    position. *)
Lemma wf_register b id fid forks next :
  backend_wf b -> Forall is_Some forks -> (length (inner_forks (inner b)) <= length forks)%nat -> next = Z.of_nat (length forks) ->
  0 <= id < Z.of_nat (length forks) ->
  (created_forks (inner b) !! fid = None \/ created_forks (inner b) !! fid = Some (Z.to_nat id)) -> is_Some (forks_known b !! fid) ->
  backend_wf (set_inner (set_ids (<[id := fid]> (issued_local_fork_ids (inner b))) (<[fid := Z.to_nat id]> (created_forks (inner b)))
    forks next (inner b)) b).
Proof.
  intros [W1 W2 W3 W4 W5 W6] Hsome Hlen -> Hid Hfresh Hknown.
  assert (forall f idx, created_forks (inner b) !! f = Some idx -> <[fid := Z.to_nat id]> (created_forks (inner b)) !! f = Some idx) as Hkeep.
  { intros f idx Hf. destruct (decide (f = fid)) as [->|Hne]; [|by rewrite lookup_insert_ne].
    rewrite lookup_insert_eq. destruct Hfresh as [Hn|Hn]; rewrite Hn in Hf; by simplify_eq. }
  split; cbn; try done.
  - intros id' f. rewrite lookup_insert_Some. intros [[<- <-]|[_ Hi]].
    + split; [done|]. by rewrite lookup_insert_eq.
    + destruct (W3 _ _ Hi) as [? Hc]. split; [lia|by apply Hkeep].
  - intros f idx. rewrite lookup_insert_Some. intros [[<- _]|[_ Hc]]; [done|by eapply W4].
  - intros id' idx Ha. destruct (W5 _ _ Ha) as [? ?]. split; [|done]. rewrite lookup_insert_is_Some'. by right.
  - intros k s Hs. specialize (W6 _ _ Hs). unfold snapshot_ok in *. destruct (sn_db s); [done|]. cbn.
    destruct W6 as (? & ? & ?). split_and!; [lia|lia|done|by apply Hkeep].
Qed.

(** Snapshots are kept. *)
Definition snapshots_issued (s : Snapshots.t BackendSnapshot) : Prop :=
  map_Forall (fun id _ => id < Snapshots.id_ s) (Snapshots.snapshots s).
Definition snapshots_kept (s s' : Snapshots.t BackendSnapshot) : Prop :=
  snapshots_issued s -> snapshots_issued s' /\ Snapshots.snapshots s ⊆ Snapshots.snapshots s'.
#[export] Instance snapshots_kept_preorder : PreOrder snapshots_kept.
Proof.
  split; [intros s; by split|]. intros s1 s2 s3 K1 K2 I1. destruct (K1 I1) as [I2 S1]. destruct (K2 I2) as [I3 S2].
  split; [done|by etrans].
Qed.

(** What the operations leave alone. *)
Record same_settings (i i' : BackendInner) : Prop := {
  ss_test : test_contract_address i' = test_contract_address i;
  ss_persistent : persistent_accounts i' = persistent_accounts i;
  ss_caller : caller i' = caller i;
  ss_snapshots : snapshots_kept (snapshots i) (snapshots i') }.
#[export] Instance same_settings_preorder : PreOrder same_settings.
Proof.
  split; [by split|]. intros i1 i2 i3 [A1 A2 A3 A4] [B1 B2 B3 B4]. split; [by rewrite B1|by rewrite B2|by rewrite B3|by etrans].
Qed.

(** Only the forks in [T] change, and only they can become active. *)
Record untouched (T : nat -> Prop) (w w' : World) : Prop := {
  ut_forks k f : ~ T k -> inner_forks (inner (w_backend w)) !! k = Some f -> inner_forks (inner (w_backend w')) !! k = Some f;
  ut_active : active_fork_ids (w_backend w') = active_fork_ids (w_backend w) \/
    exists id, active_fork_ids (w_backend w') = Some (id, Z.to_nat id) /\ T (Z.to_nat id) }.
#[export] Instance untouched_preorder T : PreOrder (untouched T).
Proof.
  split; [intros w; split; [done|by left]|]. intros w1 w2 w3 [F1 A1] [F2 A2]. split; [by auto|].
  destruct A2 as [A2|A2]; [rewrite A2|by right]. exact A1.
Qed.
Lemma untouched_weaken (T T' : nat -> Prop) w w' : (forall k, T k -> T' k) -> untouched T w w' -> untouched T' w w'.
Proof. intros HT [F A]. split; [by auto|]. destruct A as [A|(id & A & Hid)]; [by left|right]. exists id. by auto. Qed.
Lemma untouched_same T w w' :
  inner_forks (inner (w_backend w')) = inner_forks (inner (w_backend w)) -> active_fork_ids (w_backend w') = active_fork_ids (w_backend w) ->
  untouched T w w'.
Proof. intros Hf Ha. split; [by rewrite Hf|by left]. Qed.
Lemma untouched_insert (T : nat -> Prop) w w' idx x :
  inner_forks (inner (w_backend w')) = <[idx := x]> (inner_forks (inner (w_backend w))) ->
  active_fork_ids (w_backend w') = active_fork_ids (w_backend w) -> T idx -> untouched T w w'.
Proof.
  intros Hf Ha HT. split; [|by left]. intros k f Hk. rewrite Hf. rewrite list_lookup_insert_ne by (intros ->; by apply Hk). done.
Qed.

Lemma create_fork_safe fork w :
  backend_wf (w_backend w) -> senders_ok (forks_known (w_backend w)) ->
  Z.of_nat (length (inner_forks (inner (w_backend w)))) < U256_MAX ->
  created_forks (inner (w_backend w)) !! fork_id_of fork = None ->
  exists r w', create_fork establish fork w = Ret (r, w') /\ backend_wf (w_backend w') /\
    same_settings (inner (w_backend w)) (inner (w_backend w')) /\ w_state w' = w_state w /\ w_env w' = w_env w /\
    (forall T, untouched T w w') /\
    match r with
    | Ok id => id = Z.of_nat (length (inner_forks (inner (w_backend w)))) /\
        issued_local_fork_ids (inner (w_backend w')) !! id = Some (fork_id_of fork)
    | Err _ => inner (w_backend w') = inner (w_backend w)
    end.
Proof.
  intros W Hs Hlen Hfresh. unfold create_fork.
  destruct (serve_create_spec fork _ Hs) as (a & known' & -> & Hk & Ha). cbn.
  pose proof (wf_set_known _ _ W Hk) as W1. destruct a as [[[fid sb] e]|e];
    [|eexists _, _; split; [done|]; split_and!; try done; intros T; by apply untouched_same].
  destruct Ha as [-> Hkn]. unfold insert_new_fork, next_id, u256_add. cbn [inner set_known]. rewrite (wf_next _ W).
  rewrite decide_True by lia. cbn. eexists _, _. split; [done|]. split_and!; try done.
  - cbn. set (id := Z.of_nat (length (inner_forks (inner (w_backend w))))).
    assert (length (inner_forks (inner (w_backend w))) = Z.to_nat id) as -> by (unfold id; lia).
    apply (wf_register (set_known known' (w_backend w)) id); cbn; try done.
    + apply Forall_app. split; [apply W|]. apply Forall_singleton. by eexists.
    + rewrite length_app. lia.
    + rewrite length_app. simpl. unfold id. lia.
    + rewrite length_app. simpl. unfold id. lia.
    + by left.
  - intros T. split; [|by left]. intros k f _ Hkf. cbn. by apply lookup_app_l_Some.
  - cbn. by rewrite lookup_insert_eq.
Qed.

(** *** Merging *)

(** An account as it is carried over: its own data, over the storage that the
    target had. *)
Definition carried (acc : Account) (o : option Account) : Account :=
  match o with
  | Some f => mkAccount (acc_info acc) (acc_storage acc ∪ acc_storage f) (acc_is_touched acc) (acc_rest acc)
  | None => acc
  end.
Definition carried_db (acc : DbAccount.t) (o : option DbAccount.t) : DbAccount.t :=
  match o with
  | Some f => DbAccount.mk (DbAccount.info acc) (DbAccount.account_state acc) (DbAccount.storage acc ∪ DbAccount.storage f)
  | None => acc
  end.
Notation db_accounts db := (CacheDB.accounts (fdb_cache db)).

Lemma merge_journaled_lookup a active js x :
  js_state (merge_journaled_state_data a active js) !! x =
    if decide (x = a) then match js_state active !! a with Some acc => Some (carried acc (js_state js !! a)) | None => js_state js !! x end
    else js_state js !! x.
Proof.
  unfold merge_journaled_state_data. destruct (js_state active !! a) as [acc|]; [|by case_decide].
  cbn. case_decide as Hx; [subst x; by rewrite lookup_insert_eq|by rewrite lookup_insert_ne].
Qed.
Lemma merge_db_lookup a active db x :
  db_accounts (merge_db_account_data a active db) !! x =
    if decide (x = a) then match CacheDB.accounts active !! a with Some acc => Some (carried_db acc (db_accounts db !! a)) | None => db_accounts db !! x end
    else db_accounts db !! x.
Proof.
  unfold merge_db_account_data. destruct (CacheDB.accounts active !! a) as [acc|]; [|by case_decide].
  cbn. case_decide as Hx; [subst x; by rewrite lookup_insert_eq|by rewrite lookup_insert_ne].
Qed.
Lemma merge_journaled_rest a active js :
  js_depth (merge_journaled_state_data a active js) = js_depth js /\ js_logs (merge_journaled_state_data a active js) = js_logs js.
Proof. unfold merge_journaled_state_data. by destruct (js_state active !! a). Qed.

Lemma merge_accounts_lookup active js l : forall t,
  NoDup l ->
  let t' := fold_left (merge_account active js) l t in
  (forall x, js_state (fk_journaled_state t') !! x =
    if decide (x ∈ l) then match js_state js !! x with Some acc => Some (carried acc (js_state (fk_journaled_state t) !! x))
                      | None => js_state (fk_journaled_state t) !! x end
    else js_state (fk_journaled_state t) !! x) /\
  (forall x, x ∉ l -> db_accounts (fk_db t') !! x = db_accounts (fk_db t) !! x) /\
  js_depth (fk_journaled_state t') = js_depth (fk_journaled_state t) /\ js_logs (fk_journaled_state t') = js_logs (fk_journaled_state t).
Proof.
  induction l as [|a l IH]; intros t Hnd; cbn [fold_left].
  { split_and!; try done. }
  apply NoDup_cons in Hnd as [Ha Hnd]. destruct (IH (merge_account active js t a) Hnd) as (M1 & M2 & M3 & M4).
  cbn [merge_account fk_journaled_state fk_db] in *. destruct (merge_journaled_rest a js (fk_journaled_state t)) as [R1 R2].
  split_and!; [| |by rewrite M3, R1|by rewrite M4, R2].
  - intros x. rewrite M1, merge_journaled_lookup. destruct (decide (x = a)) as [->|Hne].
    + rewrite decide_False by done. rewrite decide_True by (by left). by destruct (js_state js !! a).
    + destruct (decide (x ∈ l)) as [Hx|Hx]; [rewrite decide_True by (by right); done|].
      rewrite decide_False; [done|]. rewrite not_elem_of_cons. by split.
  - intros x [Hne Hx]%not_elem_of_cons. rewrite M2 by done. rewrite merge_db_lookup. by rewrite decide_False.
Qed.

(** *** Selecting a fork *)

(** The caller's account is added only if it is missing. *)
Hypothesis insert_info_other : forall a i c x,
  x <> a -> CacheDB.accounts (insert_account_info a i c) !! x = CacheDB.accounts c !! x.
(** Reading an account caches that account. *)
Hypothesis basic_caches : forall d a r d', fork_basic d a = (r, d') ->
  fdb_db d' = fdb_db d /\ forall x, x <> a -> db_accounts d' !! x = db_accounts d !! x.

Lemma ensure_caller_other c current db js db' js' :
  ensure_caller c current db js = (db', js') ->
  (forall x, x <> c -> js_state js' !! x = js_state js !! x) /\ (forall x, x <> c -> db_accounts db' !! x = db_accounts db !! x) /\
  js_depth js' = js_depth js /\ js_logs js' = js_logs js.
Proof using insert_info_other.
  unfold ensure_caller. destruct (js_state js !! c); intros [= <- <-]; [done|]. cbn. split_and!; try done.
  - intros x Hx. by rewrite lookup_insert_ne.
  - intros x Hx. destruct (CacheDB.accounts (fdb_cache db) !! c); [done|]. by apply insert_info_other.
Qed.

Definition active_cache (b : Backend) : exec CacheDB.t :=
  match active_fork_ids b with
  | Some (_, fork_idx) => f ← get_fork fork_idx (inner b); Ret (fdb_cache (fk_db f))
  | None => Ret (mem_db b)
  end.

(** What becomes of the target [t] and of the journaled state. *)
Record handed_over (w : World) (t t' : Fork) (js' : JournaledState) : Prop := {
  ho_state : js' = fk_journaled_state t';
  ho_depth : js_depth js' = js_depth (w_state w);
  ho_logs : js_logs js' = js_logs (fk_journaled_state t);
  ho_own x : x ∉ persistent_accounts (inner (w_backend w)) -> x <> env_caller (ev_tx (w_env w)) ->
    js_state js' !! x = js_state (fk_journaled_state t) !! x /\ db_accounts (fk_db t') !! x = db_accounts (fk_db t) !! x;
  ho_shared x acc : x ∈ persistent_accounts (inner (w_backend w)) -> js_state (w_state w) !! x = Some acc ->
    exists acc', js_state js' !! x = Some acc' /\ acc_info acc' = acc_info acc /\ acc_storage acc ⊆ acc_storage acc' }.

Lemma handover_spec id fork_env w t :
  backend_wf (w_backend w) -> is_Some (test_contract_address (inner (w_backend w))) ->
  inner_forks (inner (w_backend w)) !! Z.to_nat id = Some (Some t) ->
  (forall a ia, active_fork_ids (w_backend w) = Some (a, ia) -> ia <> Z.to_nat id) ->
  exists t' js', handover id (Z.to_nat id) fork_env w =
    Ret (Ok tt, mkWorld (set_active (Some (id, Z.to_nat id))
        (set_inner (set_forks (<[Z.to_nat id := Some t']> (inner_forks (inner (w_backend w)))) (inner (w_backend w))) (w_backend w)))
      (update_current_env_with_fork_env (w_env w) fork_env) js') /\ handed_over w t t' js'.
Proof using insert_info_other.
  intros W [tc Htc] Ht Hact. set (b := w_backend w) in *. set (idx := Z.to_nat id) in *.
  unfold handover. fold b. unfold take_fork, get_fork. rewrite Ht. cbn [mbind exec_bind expect].
  rewrite put_fork_lt by (by eapply lookup_lt_Some). cbn [mbind exec_bind].
  destruct (ensure_caller _ _ _ _) as [db1 js1] eqn:Hec. destruct (ensure_caller_other _ _ _ _ _ _ Hec) as (E1 & E2 & E3 & E4).
  unfold update_fork_db. cbn [inner set_inner set_forks set_ids test_contract_address active_fork_ids mem_db persistent_accounts].
  rewrite bool_decide_eq_true_2 by (by rewrite Htc). cbn [assert mbind exec_bind].
  assert (exists c, active_cache (set_inner (set_forks (<[idx := None]> (inner_forks (inner b))) (inner b)) b) = Ret c) as [c Hc].
  { unfold active_cache. cbn. destruct (active_fork_ids b) as [[a ia]|] eqn:Ha; [|by eexists].
    pose proof (active_lt b a ia W Ha) as Hlt. destruct (get_fork_wf b ia W Hlt) as (f & Hf & _).
    unfold get_fork. cbn. rewrite list_lookup_insert_ne by (symmetry; by apply (Hact a)). rewrite Hf. cbn. by eexists. }
  unfold active_cache in Hc. cbn [active_fork_ids set_inner inner mem_db] in Hc. rewrite Hc. cbn [mbind exec_bind].
  unfold merge_account_data.
  destruct (merge_accounts_lookup c (w_state w) (hash_iter (persistent_accounts (inner b))) (mkFork db1 js1) (NoDup_hash_iter _)) as (M1 & M2 & M3 & M4).
  set (t2 := fold_left _ _ _) in *. cbn [fk_journaled_state fk_db] in *.
  unfold set_fork. rewrite put_fork_lt by (cbn; rewrite length_insert; by eapply lookup_lt_Some). cbn [mbind exec_bind].
  eexists _, _. split.
  { unfold set_forks. cbn. rewrite list_insert_insert_eq. done. }
  split; cbn; [done|by rewrite M3, E3|by rewrite M4, E4|..].
  - intros x Hp Hx. rewrite M1, M2 by (by rewrite elem_of_hash_iter). rewrite decide_False by (by rewrite elem_of_hash_iter).
    by rewrite E1, E2.
  - intros x acc Hp Hx. rewrite M1, decide_True by (by rewrite elem_of_hash_iter). rewrite Hx. eexists. split; [done|].
    unfold carried. destruct (js_state js1 !! x); cbn; [|done]. split; [done|]. apply map_union_subseteq_l.
Qed.

(** The world with other forks. *)
Definition with_forks (forks : list (option Fork)) (w : World) : World :=
  mkWorld (set_inner (set_forks forks (inner (w_backend w))) (w_backend w)) (w_env w) (w_state w).
Lemma with_forks_same w : with_forks (inner_forks (inner (w_backend w))) w = w.
Proof. by destruct w as [[? ? ? ? []] ? ?]. Qed.

Lemma init_caller_spec idx c o w t :
  inner_forks (inner (w_backend w)) !! idx = Some (Some t) ->
  exists r t1, init_caller idx c o w = Ret (r, with_forks (<[idx := Some t1]> (inner_forks (inner (w_backend w)))) w) /\
    js_logs (fk_journaled_state t1) = js_logs (fk_journaled_state t) /\
    forall x, x <> c -> js_state (fk_journaled_state t1) !! x = js_state (fk_journaled_state t) !! x /\
      db_accounts (fk_db t1) !! x = db_accounts (fk_db t) !! x.
Proof using basic_caches.
  intros Ht. unfold init_caller, get_fork. rewrite Ht. cbn [mbind exec_bind expect].
  assert (Ret (Ok tt : result unit ForkError, w) = Ret (Ok tt, with_forks (<[idx := Some t]> (inner_forks (inner (w_backend w)))) w)) as Hsame
    by (rewrite list_insert_id by done; by rewrite with_forks_same).
  destruct o as [acc|]; [|by eexists _, t]. case_decide as Hd; [|by eexists _, t].
  destruct (fork_basic (fk_db t) c) as [r db] eqn:Hb. destruct (basic_caches _ _ _ _ Hb) as [_ Hc].
  destruct r as [[info|]|e]; rewrite put_fork_lt by (by eapply lookup_lt_Some); cbn; eexists _, _; (split; [done|]); cbn; split; try done.
  - intros x Hx. rewrite lookup_insert_ne by done. by rewrite Hc.
  - intros x Hx. by rewrite Hc.
  - intros x Hx. by rewrite Hc.
Qed.

Lemma fk_bind_Ret {A B} (m : fk A) (f : A -> fk B) w : (m ≫= f) w = ('(r, w1) ← m w; match r with Ok a => f a w1 | Err e => Ret (Err e, w1) end).
Proof. done. Qed.

(** What [select_fork] does when another fork is active. *)
Record selected (id : Z) (w w' : World) (ia : nat) (act t t' : Fork) (fid : string) (env : Env) : Prop := {
  se_issued : issued_local_fork_ids (inner (w_backend w)) !! id = Some fid;
  se_env : (fun f => cf_env (opts f)) <$> forks_known (w_backend w) !! fid = Some env;
  se_active : inner_forks (inner (w_backend w)) !! ia = Some (Some act);
  se_target : inner_forks (inner (w_backend w)) !! Z.to_nat id = Some (Some t);
  se_world : w' = mkWorld
    (set_active (Some (id, Z.to_nat id))
       (set_inner (set_forks (<[Z.to_nat id := Some t']> (<[ia := Some (mkFork (fk_db act) (w_state w))]> (inner_forks (inner (w_backend w)))))
          (inner (w_backend w))) (w_backend w)))
    (update_current_env_with_fork_env (w_env w) env) (w_state w');
  se_handed : handed_over w t t' (w_state w') }.

Lemma select_fork_active w id a ia :
  backend_wf (w_backend w) -> is_Some (test_contract_address (inner (w_backend w))) ->
  active_fork_ids (w_backend w) = Some (a, ia) -> id <> a ->
  exists r w', select_fork id w = Ret (r, w') /\ backend_wf (w_backend w') /\ same_settings (inner (w_backend w)) (inner (w_backend w')) /\
    untouched (fun k => k = Z.to_nat id \/ k = ia) w w' /\
    match r with
    | Err _ => active_fork_ids (w_backend w') = Some (a, ia) /\ w_state w' = w_state w
    | Ok _ => exists act t t' fid env, selected id w w' ia act t t' fid env
    end.
Proof using insert_info_other basic_caches.
  intros W Htc Ha Hid. set (b := w_backend w) in *.
  destruct (wf_active b W _ _ Ha) as [[fa Hfa] Hia]. pose proof (active_lt b a ia W Ha) as Hlta.
  destruct (get_fork_wf b ia W Hlta) as (act & Hact & Hget).
  unfold select_fork. rewrite fk_bind_Ret. cbn [fk_read mbind exec_bind]. fold b.
  unfold is_active_fork. rewrite Ha, bool_decide_eq_false_2 by done.
  rewrite fk_bind_Ret. cbn [fk_try mbind exec_bind]. unfold ensure_fork_id.
  destruct (issued_local_fork_ids (inner b) !! id) as [fid|] eqn:Hi; [|eexists _, _; split; [done|]; by split_and!].
  destruct (wf_issued b W _ _ Hi) as [Hrange Hcr]. destruct (wf_issued b W _ _ Hfa) as [Hrangea _].
  rewrite fk_bind_Ret. cbn [fk_try mbind exec_bind]. unfold ensure_fork_index. rewrite Hcr. cbv iota.
  destruct (wf_created b W _ _ Hcr) as [kf Hkf].
  rewrite fk_bind_Ret. cbn [fk_try mbind exec_bind]. rewrite Hkf. cbv iota.
  rewrite fk_bind_Ret. cbn [fk_read mbind exec_bind]. rewrite fk_bind_Ret, fk_bind_Ret. unfold fk_exec. rewrite Hget. cbn [mbind exec_bind].
  rewrite fk_bind_Ret. unfold fk_inner. fold b. rewrite put_fork_lt by done. cbn [mbind exec_bind]. rewrite fk_bind_Ret. cbn [fk_read mbind exec_bind w_env].
  set (w1 := mkWorld _ _ _). set (idx := Z.to_nat id) in *.
  assert (idx <> ia) as Hne by lia.
  destruct (get_fork_wf b idx W ltac:(lia)) as (t & Ht & _).
  assert (inner_forks (inner (w_backend w1)) !! idx = Some (Some t)) as Ht1 by (cbn; by rewrite list_lookup_insert_ne).
  destruct (init_caller_spec idx (env_caller (ev_tx (w_env w))) (js_state (w_state w) !! env_caller (ev_tx (w_env w))) w1 t Ht1)
    as (r & t1 & -> & Hlogs & Hother). cbn [mbind exec_bind].
  assert (backend_wf (w_backend w1)) as W1 by (by apply wf_put_fork).
  set (w2 := with_forks _ w1). assert (backend_wf (w_backend w2)) as W2 by (by apply wf_put_fork).
  assert (untouched (fun k => k = idx \/ k = ia) w w2) as Hu2.
  { etrans; [apply (untouched_insert _ w w1 ia (Some (mkFork (fk_db act) (w_state w)))); [done|done|by right]|].
    apply (untouched_insert _ w1 w2 idx (Some t1)); [done|done|by left]. }
  destruct r as [[]|e].
  2: { eexists _, w2. split; [done|]. by split_and!. }
  assert (inner_forks (inner (w_backend w2)) !! idx = Some (Some t1)) as Ht2.
  { cbn. apply list_lookup_insert_eq. rewrite length_insert. lia. }
  destruct (handover_spec id (cf_env (opts kf)) w2 t1 W2 Htc Ht2) as (t' & js' & Hh & [D1 D2 D3 D4 D5]).
  { cbn. intros a' ia' Ha'. rewrite Ha in Ha'. by simplify_eq. }
  fold idx in Hh. rewrite Hh. eexists _, _. split; [done|]. split_and!.
  - assert (backend_wf (w_backend (with_forks (<[idx := Some t']> (inner_forks (inner (w_backend w2)))) w2))) as [X1 X2 X3 X4 X5 X6]
      by (by apply wf_put_fork).
    split; cbn in *; try done. intros i2 x2 [= <- <-]. split; [|done]. by rewrite Hi.
  - done.
  - etrans; [exact Hu2|]. split.
    + intros k f Hk Hf. cbn in *. rewrite list_lookup_insert_ne; [done|]. intros <-. apply Hk. by left.
    + right. exists id. split; [done|]. by left.
  - exists act, t, t', fid, (cf_env (opts kf)). split; try done.
    + fold b. by rewrite Hkf.
    + cbn. rewrite list_insert_insert_eq. done.
    + split; cbn; [done|done|by rewrite D3|..|done].
      intros x Hp Hx. destruct (D4 x Hp Hx) as [-> ->]. by apply Hother.
Qed.

(** The first selection. *)
Lemma reload_accounts_returns accounts : forall db js,
  (forall a, a ∈ accounts -> is_Some (js_state js !! a)) -> exists r db', reload_accounts accounts db js = Ret (r, db').
Proof.
  induction accounts as [|a accounts IH]; intros db js Hin; cbn [reload_accounts]; [by eexists _, _|].
  destruct (fork_basic db a) as [[[info|]|e] db1]; [|by eexists _, _..].
  destruct (Hin a) as [acc Hacc]; [by left|]. rewrite Hacc. cbn. apply IH. intros x Hx. cbn.
  rewrite lookup_insert_is_Some'. right. apply Hin. by right.
Qed.
Lemma prepare_forks_returns accounts init forks :
  (forall a, a ∈ accounts -> is_Some (js_state init !! a)) -> Forall is_Some forks ->
  exists r forks', prepare_forks accounts init forks = Ret (r, forks') /\ length forks' = length forks /\ Forall is_Some forks'.
Proof.
  intros Hin. induction forks as [|o forks IH]; intros Hs; cbn [prepare_forks]; [by eexists _, _|].
  apply Forall_cons in Hs as [[f ->] Hs]. destruct (reload_accounts_returns accounts (fk_db f) init Hin) as (r & db & ->). cbn.
  destruct r as [js|e]; [|eexists _, _; split; [done|]; split; [done|by constructor]].
  destruct (IH Hs) as (r & rest & -> & Hl & Hr). cbn. eexists _, _. split; [done|]. cbn. rewrite Hl. split; [done|by constructor].
Qed.

Lemma select_fork_first w id :
  backend_wf (w_backend w) -> is_Some (test_contract_address (inner (w_backend w))) -> active_fork_ids (w_backend w) = None ->
  exists r w', select_fork id w = Ret (r, w') /\ backend_wf (w_backend w') /\ same_settings (inner (w_backend w)) (inner (w_backend w')) /\
    (active_fork_ids (w_backend w') = None \/ active_fork_ids (w_backend w') = Some (id, Z.to_nat id)).
Proof using insert_info_other.
  intros W Htc Ha. set (b := w_backend w) in *.
  unfold select_fork. rewrite fk_bind_Ret. cbn [fk_read mbind exec_bind]. fold b. unfold is_active_fork. rewrite Ha.
  rewrite fk_bind_Ret. cbn [fk_try mbind exec_bind]. unfold ensure_fork_id.
  destruct (issued_local_fork_ids (inner b) !! id) as [fid|] eqn:Hi; [|eexists _, _; split_and!; try done; by left].
  destruct (wf_issued b W _ _ Hi) as [Hrange Hcr].
  rewrite fk_bind_Ret. cbn [fk_try mbind exec_bind]. unfold ensure_fork_index. rewrite Hcr. cbv iota.
  destruct (wf_created b W _ _ Hcr) as [kf Hkf].
  rewrite fk_bind_Ret. cbn [fk_try mbind exec_bind]. rewrite Hkf. cbv iota.
  rewrite fk_bind_Ret. cbn [fk_read mbind exec_bind]. rewrite fk_bind_Ret, fk_bind_Ret. cbn [fk_backend mbind exec_bind].
  rewrite fk_bind_Ret. unfold prepare_init_journal_state. cbn [w_backend]. fold b.
  destruct (prepare_forks_returns (loaded_accounts (set_init (w_state w) b)) (w_state w) (inner_forks (inner b))) as (r & forks & Hp & Hl & Hs).
  { intros a Hin. unfold loaded_accounts in Hin. apply list_elem_of_filter in Hin as [_ Hin].
    by rewrite elem_of_hash_iter, elem_of_dom in Hin. }
  { apply W. }
  cbn [set_init fork_init_journaled_state inner] in *. rewrite Hp. cbn [mbind exec_bind].
  assert (backend_wf (set_inner (set_forks forks (inner b)) b)) as W1 by (by apply wf_replace_forks).
  set (w1 := mkWorld _ _ _). assert (backend_wf (w_backend w1)) as W2 by (destruct W1 as [X1 X2 X3 X4 X5 X6]; by split).
  destruct r as [[]|e]; [|eexists _, w1; split_and!; try done; by left]. cbn [fk_backend mbind exec_bind].
  set (w2 := mkWorld _ _ _). assert (backend_wf (w_backend w2)) as W3 by (destruct W1 as [X1 X2 X3 X4 X5 X6]; by split).
  destruct (get_fork_wf (w_backend w2) (Z.to_nat id) W3) as (t & Ht & _); [cbn; rewrite Hl; lia|].
  destruct (handover_spec id (cf_env (opts kf)) w2 t W3 Htc Ht) as (t' & js' & Hh & _).
  { cbn. intros a ia Ha'. by rewrite Ha in Ha'. }
  rewrite Hh. eexists _, _. split; [done|]. split; [|split; [done|by right]]. cbn.
  assert (backend_wf (set_inner (set_forks (<[Z.to_nat id := Some t']> (inner_forks (inner (w_backend w2)))) (inner (w_backend w2))) (w_backend w2)))
    as [X1 X2 X3 X4 X5 X6] by (by apply wf_put_fork).
  split; try done. cbn. intros i2 x2 [= <- <-]. split; [|done]. by rewrite Hi.
Qed.

(** The active fork; every fork, before the first one is selected. *)
Definition active_at (k : nat) (b : Backend) : Prop := match active_fork_ids b with Some (_, idx) => k = idx | None => True end.
Lemma select_fork_safe w id :
  backend_wf (w_backend w) -> is_Some (test_contract_address (inner (w_backend w))) ->
  exists r w', select_fork id w = Ret (r, w') /\ backend_wf (w_backend w') /\ same_settings (inner (w_backend w)) (inner (w_backend w')) /\
    untouched (fun k => k = Z.to_nat id \/ active_at k (w_backend w)) w w'.
Proof using insert_info_other basic_caches.
  intros W Htc. unfold active_at. destruct (active_fork_ids (w_backend w)) as [[a ia]|] eqn:Ha.
  - destruct (decide (id = a)) as [->|Hne].
    + exists (Ok tt), w. unfold select_fork. rewrite fk_bind_Ret. cbn. unfold is_active_fork.
      rewrite Ha, bool_decide_eq_true_2 by done. by split_and!.
    + destruct (select_fork_active w id a ia W Htc Ha Hne) as (r & w' & ? & ? & ? & Hu & _). eexists _, _. by split_and!.
  - destruct (select_fork_first w id W Htc Ha) as (r & w' & ? & ? & ? & Hact). eexists _, _. split_and!; try done.
    split; [intros k f Hk; exfalso; apply Hk; by right|]. destruct Hact as [Hact|Hact]; [left; by rewrite Hact|right].
    exists id. split; [done|by left].
Qed.

(** Selecting an id that was never issued changes nothing. *)
Lemma select_fork_touches w id :
  backend_wf (w_backend w) -> is_Some (test_contract_address (inner (w_backend w))) ->
  exists r w', select_fork id w = Ret (r, w') /\ backend_wf (w_backend w') /\ same_settings (inner (w_backend w)) (inner (w_backend w')) /\
    untouched (fun k => (is_Some (issued_local_fork_ids (inner (w_backend w)) !! id) /\ k = Z.to_nat id) \/ active_at k (w_backend w)) w w'.
Proof using insert_info_other basic_caches.
  intros W Htc. destruct (issued_local_fork_ids (inner (w_backend w)) !! id) as [fid|] eqn:Hi.
  - destruct (select_fork_safe w id W Htc) as (r & w' & ? & ? & ? & Hu). exists r, w'. split_and!; try done.
    eapply untouched_weaken; [|exact Hu]. intros k [->|?]; [left|by right]. split; [by eexists|done].
  - assert (is_active_fork id (w_backend w) = false) as Hna.
    { unfold is_active_fork. destruct (active_fork_ids _) as [[a ia]|] eqn:Ha; [|done]. apply bool_decide_eq_false. intros ->.
      destruct (wf_active _ W _ _ Ha) as [[fid Hx] _]. congruence. }
    unfold select_fork. rewrite fk_bind_Ret. cbn [fk_read mbind exec_bind]. rewrite Hna, fk_bind_Ret. cbn [fk_try mbind exec_bind].
    unfold ensure_fork_id. rewrite Hi. eexists _, _. split; [done|]. by split_and!.
Qed.

(** *** Snapshots *)
Lemma wf_set_snapshots b sn failure :
  backend_wf b -> (forall id s, Snapshots.snapshots sn !! id = Some s -> snapshot_ok (inner b) s) ->
  backend_wf (set_inner (set_snapshots sn failure (inner b)) b).
Proof. intros [W1 W2 W3 W4 W5 W6] Hs. by split. Qed.

Lemma create_db_snapshot_ok b :
  backend_wf b -> exists d, create_db_snapshot b = Ret d /\ (forall js e, snapshot_ok (inner b) (mkSnapshot d js e)) /\
    match active_fork_ids b with
    | None => d = InMemory (mem_db b)
    | Some (id, idx) => exists fid f, d = Forked id fid idx f /\ inner_forks (inner b) !! idx = Some (Some f)
    end.
Proof.
  intros W. unfold create_db_snapshot. destruct (active_fork_ids b) as [[id idx]|] eqn:Ha; [|by eexists].
  destruct (get_fork_wf b idx W (active_lt b id idx W Ha)) as (f & Hf & ->). cbn.
  destruct (wf_active b W _ _ Ha) as [[fid Hi] ->]. rewrite Hi. cbn. destruct (wf_issued b W _ _ Hi) as [Hr Hc].
  eexists. split; [done|]. split; [done|]. by eexists _, _.
Qed.

Lemma insert_kept snap s : Snapshots.id_ s < U256_MAX -> snapshots_kept s (snd (Snapshots.insert snap s)).
Proof.
  intros Hid Hiss. unfold Snapshots.insert, Snapshots.next_id. cbn.
  assert (Snapshots.id_ s < u256_saturating_add (Snapshots.id_ s) 1) as Hlt by (unfold u256_saturating_add, saturate; lia). split.
  - apply map_Forall_insert_2; cbn; [lia|]. eapply map_Forall_impl; [exact Hiss|]. cbn. lia.
  - apply insert_subseteq. destruct (Snapshots.snapshots s !! Snapshots.id_ s) eqn:E; [|done]. apply Hiss in E. cbn in E. lia.
Qed.
Lemma snapshot_safe w :
  backend_wf (w_backend w) -> Snapshots.id_ (snapshots (inner (w_backend w))) < U256_MAX ->
  exists id w', snapshot w = Ret (Ok id, w') /\ backend_wf (w_backend w') /\ same_settings (inner (w_backend w)) (inner (w_backend w')) /\
    (forall T, untouched T w w') /\
    exists d, create_db_snapshot (w_backend w) = Ret d /\
      Snapshots.snapshots (snapshots (inner (w_backend w'))) !! id = Some (mkSnapshot d (w_state w) (w_env w)).
Proof.
  intros W Hid. destruct (create_db_snapshot_ok _ W) as (d & Hd & Hok & _). unfold snapshot. rewrite Hd. cbn.
  eexists _, _. split; [done|]. split_and!; try done.
  - apply wf_set_snapshots; [done|]. cbn. intros id s. rewrite lookup_insert_Some. intros [[_ <-]|[_ Hs]]; [apply Hok|by eapply wf_snapshots].
  - split; try done. apply insert_kept. cbn. lia.
  - intros T. by apply untouched_same.
  - exists d. split; [done|]. cbn. by rewrite lookup_insert_eq.
Qed.

Lemma remove_insert_at {T} id (s : Snapshots.t T) snap :
  Snapshots.snapshots s !! id = Some snap ->
  Snapshots.insert_at snap id (snd (Snapshots.remove_at id s)) = (id, s).
Proof. intros Hs. unfold Snapshots.insert_at, Snapshots.remove_at. cbn. rewrite insert_delete_eq, insert_id by done. by destruct s. Qed.

(** The fork of a snapshot put back in its place. *)
Lemma inner_revert_ok b id fid idx f f0 js e :
  backend_wf b -> snapshot_ok (inner b) (mkSnapshot (Forked id fid idx f0) js e) ->
  exists i, inner_revert_snapshot id fid idx f (inner b) = Ret i /\ backend_wf (set_active (Some (id, idx)) (set_inner i b)) /\
    same_settings (inner b) i /\ snapshots i = snapshots (inner b) /\ inner_forks i = <[idx := Some f]> (inner_forks (inner b)).
Proof.
  intros W (Hr & -> & Hc). unfold inner_revert_snapshot, set_fork.
  rewrite put_fork_lt by (cbn; lia). eexists. split; [done|]. split_and!; try done.
  assert (backend_wf (set_inner (set_ids (<[id := fid]> (issued_local_fork_ids (inner b))) (<[fid := Z.to_nat id]> (created_forks (inner b)))
    (<[Z.to_nat id := Some f]> (inner_forks (inner b))) (next_fork_id (inner b)) (inner b)) b)) as [X1 X2 X3 X4 X5 X6].
  { apply wf_register; try done.
    - apply Forall_insert; [apply W|by eexists].
    - by rewrite length_insert.
    - by rewrite length_insert, (wf_next _ W).
    - by rewrite length_insert.
    - by right.
    - by eapply wf_created. }
  split; try done. cbn. intros i2 x2 [= <- <-]. split; [|done]. by rewrite lookup_insert_eq.
Qed.

(** The snapshot [id] is one of the fork at [k]. *)
Definition snapshot_at (id : Z) (k : nat) (b : Backend) : Prop :=
  match sn_db <$> Snapshots.snapshots (snapshots (inner b)) !! id with Some (Forked _ _ idx _) => k = idx | _ => False end.
Lemma revert_safe id w :
  backend_wf (w_backend w) ->
  exists o w', revert id w = Ret (Ok o, w') /\ backend_wf (w_backend w') /\ same_settings (inner (w_backend w)) (inner (w_backend w')) /\
    untouched (fun k => snapshot_at id k (w_backend w)) w w'.
Proof.
  intros W. set (b := w_backend w) in *. unfold revert. fold b. unfold Snapshots.remove_at at 1.
  destruct (Snapshots.snapshots (snapshots (inner b)) !! id) as [snap|] eqn:Hs.
  - pose proof (remove_insert_at id _ _ Hs) as Hri. unfold Snapshots.remove_at in Hri. cbn [snd] in Hri. rewrite Hri.
    set (failure := _ || _). set (b1 := set_inner _ b).
    assert (backend_wf b1) as W1 by (apply wf_set_snapshots; [done|apply (wf_snapshots _ W)]).
    pose proof (wf_snapshots _ W _ _ Hs) as Hok. destruct snap as [d js e].
    cbn [sn_db sn_journaled_state sn_env snapshot_merge]. destruct d as [db|lid fid idx f].
    + eexists _, _. split; [done|]. split; [|split; [by split|by apply untouched_same]]. destruct W1 as [X1 X2 X3 X4 X5 X6]. by split.
    + destruct (ensure_caller _ _ _ _) as [db js'].
      destruct (inner_revert_ok b1 lid fid idx (mkFork db (fk_journaled_state f)) f js e W1 Hok) as (i & -> & W2 & Hset & _ & Hfs). cbn [mbind exec_bind].
      eexists _, _. split; [done|]. split; [done|]. split; [etrans; [|exact Hset]; by split|].
      destruct Hok as (_ & -> & _). unfold snapshot_at. fold b. rewrite Hs. cbn [fmap option_fmap option_map sn_db]. split.
      * intros k x Hk Hx. cbn. rewrite Hfs, list_lookup_insert_ne by done. exact Hx.
      * right. by exists lid.
  - eexists _, _. split; [done|]. rewrite delete_id by done. split; [|split; [by split; destruct (snapshots (inner b))|by apply untouched_same]].
    apply wf_set_snapshots; [done|]. cbn. apply (wf_snapshots _ W).
Qed.

Lemma ensure_caller_present c current db js db' js' x :
  ensure_caller c current db js = (db', js') -> is_Some (js_state js !! x) -> js_state js' !! x = js_state js !! x.
Proof.
  unfold ensure_caller. destruct (js_state js !! c) eqn:E; intros [= <- <-]; [done|]. cbn. intros [acc Hx].
  rewrite lookup_insert_ne; congruence.
Qed.

(** Going back to a snapshot of a fork. *)
Record reverted (w : World) (lid : Z) (idx : nat) (f : Fork) (js : JournaledState) (e : Env) (w' : World) (js' : JournaledState) (f' : Fork) : Prop := {
  rv_active : active_fork_ids (w_backend w') = Some (lid, idx);
  rv_fork : inner_forks (inner (w_backend w')) !! idx = Some (Some f');
  rv_remote : fdb_db (fk_db f') = fdb_db (fk_db f);
  rv_env : w_env w' = mkEnv (ev_cfg e) (ev_block e) (ev_tx (w_env w));
  rv_logs : js_logs js' = js_logs (w_state w);
  rv_depth : js_depth js' = js_depth js;
  rv_state x : x <> env_caller (ev_tx (w_env w)) \/ is_Some (js_state js !! x) -> js_state js' !! x = js_state js !! x;
  rv_db x : x <> env_caller (ev_tx (w_env w)) -> db_accounts (fk_db f') !! x = db_accounts (fk_db f) !! x }.

Lemma revert_forked id w lid fid idx f js e :
  backend_wf (w_backend w) ->
  Snapshots.snapshots (snapshots (inner (w_backend w))) !! id = Some (mkSnapshot (Forked lid fid idx f) js e) ->
  exists js' w' f', revert id w = Ret (Ok (Some js'), w') /\ reverted w lid idx f js e w' js' f' /\
    snapshots (inner (w_backend w')) = snapshots (inner (w_backend w)).
Proof using insert_info_other.
  intros W Hs. set (b := w_backend w) in *. unfold revert. fold b. unfold Snapshots.remove_at at 1. rewrite Hs.
  pose proof (remove_insert_at id _ _ Hs) as Hri. unfold Snapshots.remove_at in Hri. cbn [snd] in Hri. rewrite Hri.
  set (failure := _ || _). set (b1 := set_inner _ b).
  assert (backend_wf b1) as W1 by (apply wf_set_snapshots; [done|apply (wf_snapshots _ W)]).
  pose proof (wf_snapshots _ W _ _ Hs) as Hok. cbn [sn_db sn_journaled_state sn_env snapshot_merge].
  destruct (ensure_caller _ _ _ _) as [db js'] eqn:He. destruct (ensure_caller_other _ _ _ _ _ _ He) as (E1 & E2 & E3 & E4).
  pose proof (fun x => ensure_caller_present _ _ _ _ _ _ x He) as E5. cbn in E1, E3, E4, E5.
  destruct (inner_revert_ok b1 lid fid idx (mkFork db (fk_journaled_state f)) f js e W1 Hok) as (i & -> & _ & _ & Hsn & Hfs). cbn [mbind exec_bind].
  exists js'. eexists. exists (mkFork db (fk_journaled_state f)). split; [done|]. split; [split; cbn; try done|done].
  - rewrite Hfs. apply list_lookup_insert_eq. destruct Hok as (Hr & -> & _). unfold b1. cbn. apply Nat2Z.inj_lt. rewrite Z2Nat.id; [apply Hr|apply Hr].
  - cbn. unfold ensure_caller in He. by destruct (js_state _ !! _); simplify_eq.
  - intros x [Hx|Hx]; [by apply E1|by apply E5].
Qed.

(** *** Rolling *)

(** The fork at the new block is new, or already belongs to the local id. *)
Definition roll_fresh (b : Backend) (id block : Z) : Prop :=
  forall fid f, issued_local_fork_ids (inner b) !! id = Some fid -> forks_known b !! fid = Some f ->
    let fid' := create_fork_id (url (opts f)) (Some block) in
    created_forks (inner b) !! fid' = None \/ created_forks (inner b) !! fid' = Some (Z.to_nat id).

Lemma roll_active_safe id idx env w :
  backend_wf (w_backend w) -> active_fork_ids (w_backend w) = Some (id, idx) ->
  exists w', roll_active idx env w = Ret (Ok tt, w') /\ backend_wf (w_backend w') /\ same_settings (inner (w_backend w)) (inner (w_backend w')) /\
    untouched (fun k => k = idx) w w'.
Proof.
  intros W Ha. unfold roll_active. destruct (get_fork_wf _ idx W (active_lt _ _ _ W Ha)) as (f & Hf & ->). cbn [mbind exec_bind].
  rewrite put_fork_lt by (by eapply lookup_lt_Some). cbn [mbind exec_bind]. eexists. split; [done|]. split; [by apply wf_put_fork|].
  split; [done|]. by eapply untouched_insert.
Qed.

Lemma inner_roll_ok b id fid fid' sb :
  backend_wf b -> issued_local_fork_ids (inner b) !! id = Some fid ->
  (created_forks (inner b) !! fid' = None \/ created_forks (inner b) !! fid' = Some (Z.to_nat id)) -> is_Some (forks_known b !! fid') ->
  exists i, inner_roll_fork id fid' sb (inner b) = Ret (Ok (Z.to_nat id), i) /\ backend_wf (set_inner i b) /\ same_settings (inner b) i /\
    exists f', inner_forks i = <[Z.to_nat id := Some f']> (inner_forks (inner b)).
Proof.
  intros W Hi Hfresh Hk. destruct (wf_issued b W _ _ Hi) as [Hr Hc]. unfold inner_roll_fork, ensure_fork_id, ensure_fork_index.
  rewrite Hi, Hc. destruct (get_fork_wf b (Z.to_nat id) W ltac:(lia)) as (f & Hf & _). rewrite Hf. cbn.
  eexists. split; [done|]. split; [|split; [done|by eexists]]. apply wf_register; try done.
  - apply Forall_insert; [apply W|by eexists].
  - by rewrite length_insert.
  - by rewrite length_insert, (wf_next _ W).
  - by rewrite length_insert.
Qed.

(** The fork at [k] is the one an operation is asked for. *)
Definition fork_at (id : option Z) (k : nat) (b : Backend) : Prop :=
  match ensure_fork id b with Ok i => k = Z.to_nat i | Err _ => False end.
Lemma roll_fork_safe id block w :
  backend_wf (w_backend w) -> senders_ok (forks_known (w_backend w)) -> block <= U64_MAX ->
  (forall i, ensure_fork id (w_backend w) = Ok i -> roll_fresh (w_backend w) i block) ->
  exists r w', roll_fork establish id block w = Ret (r, w') /\ backend_wf (w_backend w') /\
    same_settings (inner (w_backend w)) (inner (w_backend w')) /\ untouched (fun k => fork_at id k (w_backend w)) w w'.
Proof.
  intros W Hs Hblock Hfresh. set (b := w_backend w) in *.
  unfold roll_fork, fork_at. rewrite fk_bind_Ret. cbn [fk_read mbind exec_bind]. fold b. rewrite fk_bind_Ret. cbn [fk_try mbind exec_bind].
  destruct (ensure_fork id b) as [i|e] eqn:Hen; [|eexists _, _; by split_and!]. specialize (Hfresh i eq_refl).
  rewrite fk_bind_Ret. cbn [fk_try mbind exec_bind]. unfold ensure_fork_id.
  destruct (issued_local_fork_ids (inner b) !! i) as [fid|] eqn:Hi; [|eexists _, _; by split_and!]. rewrite fk_bind_Ret.
  assert (u256_as_u64 block = Ret block) as Hu by (by apply u256_as_u64_Ret). rewrite Hu. change (fk_exec (Ret block) w) with (Ret (Ok block : result Z ForkError, w)). cbn [mbind exec_bind].
  rewrite fk_bind_Ret. destruct (serve_roll_spec fid block _ Hs) as (a & known & Hr & Hk & Ha). unfold fk_exec. fold b. rewrite Hr. cbn [mbind exec_bind].
  rewrite fk_bind_Ret. cbn [fk_backend mbind exec_bind]. fold b. pose proof (wf_set_known _ _ W Hk) as W1. rewrite fk_bind_Ret. cbn [fk_try mbind exec_bind].
  destruct a as [[[fid' sb] env]|e]; [|eexists _, _; split_and!; try done; by apply untouched_same].
  destruct Ha as [Hkn (f & Hf & Hfid)]. rewrite fk_bind_Ret. cbn [w_backend].
  destruct (inner_roll_ok (set_known known b) i fid fid' sb W1 Hi) as (i1 & Hroll & W2 & Hset & f' & Hfs); [|done|].
  { rewrite Hfid. by apply (Hfresh fid f). }
  rewrite Hroll. cbn [mbind exec_bind]. set (w1 := mkWorld _ _ _).
  assert (untouched (fun k => k = Z.to_nat i) w w1) as Hu1 by (by apply (untouched_insert _ w w1 (Z.to_nat i) (Some f'))).
  destruct (active_fork_ids b) as [[a ia]|] eqn:Hact; [|exists (Ok tt), w1; by split_and!].
  case_decide as Hai; [|exists (Ok tt), w1; by split_and!]. subst a.
  destruct (roll_active_safe i ia env w1 W2 Hact) as (w' & Hra & W' & Hset' & Hu'). exists (Ok tt), w'. split_and!; [done|done|by etrans|].
  etrans; [exact Hu1|]. eapply untouched_weaken; [|exact Hu']. intros k ->. by destruct (wf_active _ W _ _ Hact).
Qed.

(** *** Transactions of the remote chain *)
Variable evm_run : Backend -> Env -> bool -> result (gmap Address Account) string.

(** The gas limits, nonces and block numbers of the remote chain fit in 64
    bits, and block 0 has no transactions. *)
Definition tx_u64 (tx : RpcTransaction) : Prop := rt_gas tx <= U64_MAX /\ rt_nonce tx <= U64_MAX.
Hypothesis remote_transactions : forall backend hash tx, get_transaction backend hash = Ok tx ->
  tx_u64 tx /\ forall n, rt_block_number tx = Some n -> 1 <= n <= U64_MAX.
Hypothesis remote_blocks : forall backend n block, get_full_block backend n = Ok block ->
  Forall tx_u64 (rb_transactions block) /\ forall k, rb_number block = Some k -> k <= U64_MAX.

(** The outcome of an operation that changes only the forks in [T]. *)
Definition safely {A} (T : nat -> Prop) (m : fk A) (w : World) (Q : A -> World -> Prop) : Prop :=
  exists r w', m w = Ret (r, w') /\ backend_wf (w_backend w') /\ same_settings (inner (w_backend w)) (inner (w_backend w')) /\
    untouched T w w' /\ match r with Ok a => Q a w' | Err _ => True end.
Lemma safely_bind {A B} T (m : fk A) (f : A -> fk B) w Q Q' :
  safely T m w Q -> (forall a w1, backend_wf (w_backend w1) -> same_settings (inner (w_backend w)) (inner (w_backend w1)) ->
    untouched T w w1 -> Q a w1 -> safely T (f a) w1 Q') -> safely T (m ≫= f) w Q'.
Proof.
  intros (r & w1 & Hm & W1 & S1 & U1 & HQ) Hf. unfold safely. rewrite fk_bind_Ret, Hm. cbn [mbind exec_bind].
  destruct r as [a|e]; [|by exists (Err e), w1]. destruct (Hf a w1 W1 S1 U1 HQ) as (r & w2 & H2 & W2 & S2 & U2 & HQ2).
  exists r, w2. split_and!; [done|done|by etrans|by etrans|done].
Qed.
Lemma safely_ret {A} T (r : result A ForkError) w (Q : A -> World -> Prop) :
  backend_wf (w_backend w) -> match r with Ok a => Q a w | Err _ => True end -> safely T (fk_try r) w Q.
Proof. intros W HQ. exists r, w. by split_and!. Qed.
Lemma safely_impl {A} (T T' : nat -> Prop) (m : fk A) w (Q Q' : A -> World -> Prop) :
  (forall k, T k -> T' k) -> (forall a w', Q a w' -> Q' a w') -> safely T m w Q -> safely T' m w Q'.
Proof.
  intros HT HQ (r & w1 & Hm & W1 & S1 & U1 & Hr). exists r, w1. split_and!; try done; [by eapply untouched_weaken|].
  destruct r; [by apply HQ|done].
Qed.
Lemma safely_then {A B} T (m : fk A) (f : A -> fk B) w (Q : A -> World -> Prop) :
  safely T m w Q -> (forall a w1, Q a w1 -> exists b, f a w1 = Ret (Ok b, w1)) -> safely T (m ≫= f) w (fun _ _ => True).
Proof.
  intros Hm Hf. eapply safely_bind; [exact Hm|]. intros a w1 W1 S1 U1 HQ. destruct (Hf a w1 HQ) as [b Hb].
  exists (Ok b), w1. by split_and!.
Qed.

Definition holds_fork (idx : nat) (w : World) : Prop := (idx < length (inner_forks (inner (w_backend w))))%nat.

Lemma commit_on_safe idx fork fid tx env inspected w :
  backend_wf (w_backend w) -> holds_fork idx w -> tx_u64 tx ->
  safely (fun k => k = idx) (commit_on evm_run idx fork fid tx env inspected) w (fun _ w' => holds_fork idx w').
Proof.
  intros W Hidx [Hg Hn]. unfold commit_on. eapply safely_bind; [by apply (safely_ret _ (Ok (w_state w)) w (fun _ w1 => w1 = w))|].
  intros js w1 W1 _ _ ->. unfold safely. rewrite fk_bind_Ret.
  assert (exists r, commit_transaction evm_run tx env js fork fid inspected = Ret r) as [r Hr].
  { unfold commit_transaction, configure_tx_env. rewrite !u256_as_u64_ok by done. by eexists. }
  unfold fk_exec at 1. rewrite Hr. cbn [mbind exec_bind]. rewrite fk_bind_Ret. cbn [fk_try mbind exec_bind].
  destruct r as [[js' fork']|e]; [|eexists _, _; split; [done|]; by split_and!].
  rewrite fk_bind_Ret. cbn [fk_put_state mbind exec_bind]. rewrite fk_bind_Ret. unfold fk_inner. cbn [w_backend].
  rewrite put_fork_lt by exact Hidx. cbn.
  eexists _, _. split; [done|]. split_and!; [by apply wf_put_fork|done| |].
  - by eapply untouched_insert.
  - unfold holds_fork. cbn. by rewrite length_insert.
Qed.
Lemma replay_safe idx fid env hash txs : forall fork w,
  backend_wf (w_backend w) -> holds_fork idx w -> Forall tx_u64 txs ->
  safely (fun k => k = idx) (replay_transactions evm_run idx fork fid env hash txs) w (fun _ _ => True).
Proof.
  induction txs as [|tx txs IH]; intros fork w W Hidx Htxs; cbn [replay_transactions]; [by apply (safely_ret _ (Ok None))|].
  apply Forall_cons in Htxs as [Htx Htxs]. case_decide; [by apply (safely_ret _ (Ok (Some tx)))|].
  eapply safely_bind; [by apply commit_on_safe|]. intros f w1 W1 _ _ Hidx1. by apply IH.
Qed.

Lemma fk_fork_safe id w T : backend_wf (w_backend w) ->
  safely T (fk_fork id) w (fun '(idx, f) w' => w' = w /\ idx = Z.to_nat id /\ inner_forks (inner (w_backend w)) !! idx = Some (Some f)).
Proof.
  intros W. unfold safely, fk_fork, get_fork_by_id, ensure_fork_id, ensure_fork_index.
  destruct (issued_local_fork_ids _ !! id) as [fid|] eqn:Hi; [|eexists _, _; split; [done|]; by split_and!].
  destruct (wf_issued _ W _ _ Hi) as [_ ->]. destruct (get_fork_wf _ (Z.to_nat id) W (issued_lt _ _ _ W Hi)) as (f & Hf & ->).
  cbn. eexists _, _. split; [done|]. by split_and!.
Qed.
Lemma holds_lookup idx f w : inner_forks (inner (w_backend w)) !! idx = Some (Some f) -> holds_fork idx w.
Proof. apply lookup_lt_Some. Qed.

Lemma replay_until_safe id env hash w :
  backend_wf (w_backend w) -> BlockEnv.number (ev_block env) <= U64_MAX ->
  safely (fun k => k = Z.to_nat id) (replay_until evm_run id env hash) w (fun _ _ => True).
Proof using remote_blocks.
  intros W Hnum. unfold replay_until. eapply safely_bind; [by apply (safely_ret _ (Ok (w_backend w)) w (fun _ w1 => w1 = w))|].
  intros b w1 _ _ _ ->. eapply safely_bind; [by apply (safely_ret _ _ w (fun _ w1 => w1 = w)); [|destruct (ensure_fork_id _ _)]|].
  intros fid w1 _ _ _ ->. eapply safely_bind; [by apply fk_fork_safe|]. intros [idx f] w1 _ _ _ (-> & -> & Hf).
  rewrite u256_as_u64_ok by done. eapply safely_bind; [by apply (safely_ret _ (Ok (BlockEnv.number (ev_block env))) w (fun _ w1 => w1 = w))|].
  intros n w1 _ _ _ ->. destruct (get_full_block _ _) as [block|e] eqn:Hb.
  - eapply safely_bind; [by apply (safely_ret _ (Ok block) w (fun x w1 => x = block /\ w1 = w))|].
    intros x w1 _ _ _ [-> ->]. apply replay_safe; [done|by eapply holds_lookup|]. by apply remote_blocks in Hb as [? _].
  - eapply safely_bind; [by apply (safely_ret _ (Err (DbFailure e)) w (fun _ _ => False))|]. done.
Qed.

(** The block before the one of a transaction, where a fork is rolled to. *)
Definition fork_block_of (backend : SharedBackend) (hash : H256) : option Z :=
  match get_transaction backend hash with
  | Ok tx =>
      match rt_block_number tx with
      | Some n => Some (n - 1)
      | None => match get_full_block backend None with Ok block => rb_number block | Err _ => None end
      end
  | Err _ => None
  end.
Lemma block_for_transaction_safe id hash w T : backend_wf (w_backend w) ->
  safely T (get_block_number_and_block_for_transaction id hash) w (fun '(n, block) w' =>
    w' = w /\ n <= U64_MAX /\ (forall k, rb_number block = Some k -> k <= U64_MAX) /\
    exists f, inner_forks (inner (w_backend w)) !! Z.to_nat id = Some (Some f) /\ fork_block_of (fdb_db (fk_db f)) hash = Some n).
Proof using remote_transactions remote_blocks.
  intros W. unfold get_block_number_and_block_for_transaction. eapply safely_bind; [by apply fk_fork_safe|].
  intros [idx f] w1 _ _ _ (-> & -> & Hf). destruct (get_transaction _ _) as [tx|e] eqn:Htx.
  2: { eapply safely_bind; [by apply (safely_ret _ (Err (DbFailure e)) w (fun _ _ => False))|]. done. }
  eapply safely_bind; [by apply (safely_ret _ (Ok tx) w (fun x w1 => x = tx /\ w1 = w))|]. intros x w1 _ _ _ [-> ->].
  pose proof (remote_transactions _ _ _ Htx) as [_ Hbn]. destruct (rt_block_number tx) as [n|] eqn:Hn.
  - destruct (get_full_block _ (Some n)) as [block|e] eqn:Hb.
    2: { eapply safely_bind; [by apply (safely_ret _ (Err (DbFailure e)) w (fun _ _ => False))|]. done. }
    eapply safely_bind; [by apply (safely_ret _ (Ok block) w (fun x w1 => x = block /\ w1 = w))|]. intros x w1 _ _ _ [-> ->].
    specialize (Hbn n eq_refl). unfold u64_sub. rewrite decide_True by lia.
    apply (safely_ret _ (Ok (n - 1, block))); [done|]. split_and!; [done|lia|by eapply remote_blocks|].
    exists f. split; [done|]. unfold fork_block_of. by rewrite Htx, Hn.
  - destruct (get_full_block _ None) as [block|e] eqn:Hb.
    2: { eapply safely_bind; [by apply (safely_ret _ (Err (DbFailure e)) w (fun _ _ => False))|]. done. }
    eapply safely_bind; [by apply (safely_ret _ (Ok block) w (fun x w1 => x = block /\ w1 = w))|]. intros x w1 _ _ _ [-> ->].
    destruct (rb_number block) as [n|] eqn:Hnb.
    2: { eapply safely_bind; [by apply (safely_ret _ (Err BlockNotFoundLatest) w (fun _ _ => False))|]. done. }
    apply (safely_ret _ (Ok (n, block))); [done|]. destruct (remote_blocks _ _ _ Hb) as [_ Hk].
    split_and!; [done|by apply Hk|by intros k [= <-]%(eq_trans (eq_sym Hnb)); apply Hk|].
    exists f. split; [done|]. unfold fork_block_of. by rewrite Htx, Hn, Hb.
Qed.
(** The fork the local id is rolled to is new, or already belongs to it. *)
Definition tx_fresh (b : Backend) (id : Z) (hash : H256) : Prop :=
  forall f n, inner_forks (inner b) !! Z.to_nat id = Some (Some f) -> fork_block_of (fdb_db (fk_db f)) hash = Some n -> roll_fresh b id n.
Lemma roll_to_transaction_safe id hash w :
  backend_wf (w_backend w) -> senders_ok (forks_known (w_backend w)) ->
  (forall i, ensure_fork id (w_backend w) = Ok i -> tx_fresh (w_backend w) i hash) ->
  safely (fun k => fork_at id k (w_backend w)) (roll_fork_to_transaction establish evm_run id hash) w (fun _ _ => True).
Proof using remote_transactions remote_blocks.
  intros W Hs Hfresh. unfold roll_fork_to_transaction, fork_at.
  eapply safely_bind; [by apply (safely_ret _ (Ok (w_backend w)) w (fun b w1 => b = w_backend w /\ w1 = w))|].
  intros b w1 _ _ _ [-> ->]. destruct (ensure_fork id (w_backend w)) as [i|e] eqn:Hen.
  2: { eapply safely_bind; [by apply (safely_ret _ (Err e) w (fun _ _ => False))|]. done. }
  eapply safely_bind; [by apply (safely_ret _ (Ok i) w (fun x w1 => x = i /\ w1 = w))|]. intros x w1 _ _ _ [-> ->].
  eapply safely_bind; [by apply block_for_transaction_safe|]. intros [n block] w1 _ _ _ (-> & Hn & Hk & f & Hf & Hfb).
  assert (safely (fun k => k = Z.to_nat i) (roll_fork establish (Some i) n) w (fun _ _ => True)) as Hroll.
  { destruct (roll_fork_safe (Some i) n w W Hs Hn) as (r & w' & Hr & W' & S' & U').
    - intros j Hj. cbn in Hj. destruct (issued_local_fork_ids _ !! i); simplify_eq. by apply (Hfresh j eq_refl f n).
    - exists r, w'. split_and!; try done; [|by destruct r]. eapply untouched_weaken; [|exact U']. unfold fork_at. cbn.
      intros k. by destruct (issued_local_fork_ids _ !! i). }
  eapply safely_bind; [exact Hroll|]. intros _ w1 W1 _ _ _.
  eapply safely_bind; [by apply (safely_ret _ (Ok (w_env w1)) w1 (fun e w2 => w2 = w1))|]. intros env w2 _ _ _ ->.
  set (env' := mkEnv _ _ _).
  eapply (safely_bind _ _ _ _ (fun _ _ => True));
    [exists (Ok tt), (mkWorld (w_backend w1) env' (w_state w1)); split_and!; try done; by apply untouched_same|].
  intros _ w2 W2 _ _ _. eapply safely_then; [|by eexists]. apply replay_until_safe; [done|]. cbn.
  destruct (rb_number block) as [k|]; [by apply Hk|done].
Qed.

(** The conditions under which a fork of [fork] can be created. *)
Definition create_fresh (fork : CreateFork) (b : Backend) : Prop :=
  created_forks (inner b) !! fork_id_of fork = None /\ Z.of_nat (length (inner_forks (inner b))) < U256_MAX.
Lemma create_at_transaction_safe fork hash w :
  backend_wf (w_backend w) -> senders_ok (forks_known (w_backend w)) -> create_fresh fork (w_backend w) ->
  (forall id w1, create_fork establish fork w = Ret (Ok id, w1) -> senders_ok (forks_known (w_backend w1)) /\ tx_fresh (w_backend w1) id hash) ->
  safely (fun k => k = length (inner_forks (inner (w_backend w)))) (create_fork_at_transaction establish evm_run fork hash) w
    (fun id _ => Z.to_nat id = length (inner_forks (inner (w_backend w)))).
Proof using remote_transactions remote_blocks.
  intros W Hs [Hf Hl] Hfresh. destruct (create_fork_safe fork w W Hs Hl Hf) as (r & w1 & Hc & W1 & S1 & _ & _ & U1 & Hr).
  unfold create_fork_at_transaction. eapply (safely_bind _ _ _ _ (fun id w2 => w2 = w1 /\ r = Ok id)).
  { exists r, w1. split_and!; [done|done|done|apply U1|by destruct r]. }
  intros id w2 _ _ _ [-> ->]. destruct Hr as [Hid Hiss]. destruct (Hfresh id w1 Hc) as [Hs1 Htx].
  eapply safely_bind; [by apply (safely_ret _ (Ok (w_backend w1)) w1 (fun b w2 => b = w_backend w1 /\ w2 = w1))|]. intros b w2 _ _ _ [-> ->].
  unfold ensure_fork_id. rewrite Hiss.
  eapply safely_bind; [by apply (safely_ret _ (Ok (fork_id_of fork)) w1 (fun x w2 => x = fork_id_of fork /\ w2 = w1))|]. intros x w2 _ _ _ [-> ->].
  eapply (safely_bind _ _ _ _ (fun _ w2 => w2 = w1)); [by apply safely_ret; [|destruct (forks_known _ !! _)]|]. intros env w2 _ _ _ ->.
  set (w0 := mkWorld (w_backend w1) env (new_journaled_state (inner (w_backend w1)))).
  destruct (roll_to_transaction_safe (Some id) hash w0 W1 Hs1) as (r & w3 & Hroll & W3 & S3 & [F3 A3] & _).
  { intros i Hi. cbn in Hi. rewrite Hiss in Hi. by simplify_eq. }
  assert (forall k, fork_at (Some id) k (w_backend w0) -> k = length (inner_forks (inner (w_backend w)))) as Hk.
  { intros k. unfold fork_at. cbn. rewrite Hiss. intros ->. lia. }
  eapply (safely_bind _ _ _ _ (fun _ _ => True)); [|intros _ w2 W2 _ _ _; apply (safely_ret _ (Ok id)); [done|lia]].
  exists r, (mkWorld (w_backend w3) (w_env w1) (w_state w1)). split_and!; [|done|done| |by destruct r].
  - fold w0. by rewrite Hroll.
  - split; [intros k f Hn; apply F3; by intros ?%Hk|]. destruct A3 as [A3|(i & A3 & Hi)]; [by left|right]. exists i. split; [done|by apply Hk].
Qed.

Lemma active_at_after T w w' k : untouched T w w' -> active_at k (w_backend w') -> active_at k (w_backend w) \/ T k.
Proof.
  intros [_ [A|(id & A & Hid)]]; unfold active_at; rewrite A; [by left|]. intros ->. by right.
Qed.
(** Creating a fork in one of the two ways, then selecting it. *)
Lemma then_select_safe (m : fk Z) w :
  is_Some (test_contract_address (inner (w_backend w))) ->
  safely (fun k => k = length (inner_forks (inner (w_backend w)))) m w (fun id _ => Z.to_nat id = length (inner_forks (inner (w_backend w)))) ->
  safely (fun k => k = length (inner_forks (inner (w_backend w))) \/ active_at k (w_backend w))
    (id ← m; _ ← select_fork id; fk_ok id) w (fun _ _ => True).
Proof using insert_info_other basic_caches.
  intros Htc Hm. eapply safely_bind; [eapply safely_impl; [| |exact Hm]; [by left|done]|]. cbn.
  intros id w1 W1 S1 U1 Hid. eapply (safely_then _ _ _ _ (fun _ _ => True)); [|by eexists].
  destruct (select_fork_safe w1 id W1 ltac:(by rewrite (ss_test _ _ S1))) as (r & w2 & Hsel & W2 & S2 & U2).
  exists r, w2. split_and!; try done; [|by destruct r]. eapply untouched_weaken; [|exact U2].
  intros k [->|Hk]; [by left|]. destruct (active_at_after _ _ _ _ U1 Hk) as [?|?]; [by right|done].
Qed.

Lemma transact_safe id hash inspected w :
  backend_wf (w_backend w) -> safely (fun k => fork_at id k (w_backend w)) (transact evm_run id hash inspected) w (fun _ _ => True).
Proof using remote_transactions.
  intros W. unfold transact, fork_at. 
  eapply safely_bind; [by apply (safely_ret _ (Ok (w_backend w)) w (fun b w1 => b = w_backend w /\ w1 = w))|]. intros b w1 _ _ _ [-> ->].
  destruct (ensure_fork id (w_backend w)) as [i|e] eqn:Hen.
  2: { eapply safely_bind; [by apply (safely_ret _ (Err e) w (fun _ _ => False))|]. done. }
  eapply safely_bind; [by apply (safely_ret _ (Ok i) w (fun x w1 => x = i /\ w1 = w))|]. intros x w1 _ _ _ [-> ->].
  eapply (safely_bind _ _ _ _ (fun _ w2 => w2 = w)); [by apply safely_ret; [|destruct (ensure_fork_id _ _)]|]. intros fid w1 _ _ _ ->.
  eapply (safely_bind _ _ _ _ (fun _ w2 => w2 = w)).
  { destruct id as [j|]; [by apply (safely_ret _ (Ok (w_env w)))|]. by apply safely_ret; [|destruct (forks_known _ !! _)]. }
  intros env w1 _ _ _ ->. eapply safely_bind; [by apply fk_fork_safe|]. intros [idx f] w1 _ _ _ (-> & -> & Hf).
  destruct (get_transaction _ _) as [tx|e] eqn:Htx.
  2: { eapply safely_bind; [by apply (safely_ret _ (Err (DbFailure e)) w (fun _ _ => False))|]. done. }
  eapply safely_bind; [by apply (safely_ret _ (Ok tx) w (fun x w1 => x = tx /\ w1 = w))|]. intros x w1 _ _ _ [-> ->].
  eapply safely_then; [apply commit_on_safe; [done|by eapply holds_lookup|by apply remote_transactions in Htx as [? _]]|by eexists].
Qed.

(** ** Operations of a test *)

(** [execute]: what running a contract does to the journaled state, the
    environment and the active database. *)
Definition execute (js : JournaledState) (env : Env) (cache : CacheDB.t) : fk unit := fun w =>
  let b := w_backend w in
  match active_fork_ids b with
  | None => Ret (Ok tt, mkWorld (set_mem_db cache b) env js)
  | Some (_, idx) =>
      f ← get_fork idx (inner b);
      i ← put_fork idx (Some (mkFork (mkForkDB cache (fdb_db (fk_db f))) (fk_journaled_state f))) (inner b);
      Ret (Ok tt, mkWorld (set_inner i b) env js)
  end.

Inductive fork_op :=
| OpExecute (js : JournaledState) (env : Env) (cache : CacheDB.t)
| OpCreateFork (fork : CreateFork)
| OpCreateSelectFork (fork : CreateFork)
| OpSelectFork (id : Z)
| OpRollFork (id : option Z) (block : Z)
| OpRollForkToTransaction (id : option Z) (transaction : H256)
| OpCreateForkAtTransaction (fork : CreateFork) (transaction : H256)
| OpCreateSelectForkAtTransaction (fork : CreateFork) (transaction : H256)
| OpTransact (id : option Z) (transaction : H256) (inspected : bool)
| OpSnapshot
| OpRevert (id : Z)
| OpSetTestContract (a : Address)
| OpMakePersistent (a : Address)
| OpRevokePersistent (a : Address).

Definition run_fork_op (op : fork_op) : fk unit :=
  match op with
  | OpExecute js env cache => execute js env cache
  | OpCreateFork fork => _ ← create_fork establish fork; fk_ok tt
  | OpCreateSelectFork fork => _ ← create_select_fork establish fork; fk_ok tt
  | OpSelectFork id => select_fork id
  | OpRollFork id block => roll_fork establish id block
  | OpRollForkToTransaction id transaction => roll_fork_to_transaction establish evm_run id transaction
  | OpCreateForkAtTransaction fork transaction => _ ← create_fork_at_transaction establish evm_run fork transaction; fk_ok tt
  | OpCreateSelectForkAtTransaction fork transaction => _ ← create_select_fork_at_transaction establish evm_run fork transaction; fk_ok tt
  | OpTransact id transaction inspected => transact evm_run id transaction inspected
  | OpSnapshot => _ ← snapshot; fk_ok tt
  | OpRevert id => o ← revert id; match o with Some js => fk_put_state js | None => fk_ok tt end
  | OpSetTestContract a => fk_backend (set_test_contract a)
  | OpMakePersistent a => fk_backend (fun b => snd (add_persistent_account a b))
  | OpRevokePersistent a => fk_backend (fun b => snd (remove_persistent_account a b))
  end.

(** A new fork differs from all earlier ones in endpoint or block, as does a
    fork that is rolled; the block fits in 64 bits. *)
Definition op_fresh (op : fork_op) (w : World) : Prop :=
  let b := w_backend w in
  match op with
  | OpCreateFork f | OpCreateSelectFork f => create_fresh f b
  | OpCreateForkAtTransaction f h | OpCreateSelectForkAtTransaction f h =>
      create_fresh f b /\ forall id w1, create_fork establish f w = Ret (Ok id, w1) ->
        senders_ok (forks_known (w_backend w1)) /\ tx_fresh (w_backend w1) id h
  | OpSnapshot => Snapshots.id_ (snapshots (inner b)) < U256_MAX
  | OpRollFork id block => block <= U64_MAX /\ forall i, ensure_fork id b = Ok i -> roll_fresh b i block
  | OpRollForkToTransaction id h => forall i, ensure_fork id b = Ok i -> tx_fresh b i h
  | _ => True
  end.

(** The forks that an operation changes, and that it can make active. *)
Definition op_touches (op : fork_op) (b : Backend) (k : nat) : Prop :=
  match op with
  | OpExecute _ _ _ => active_at k b
  | OpCreateFork _ | OpCreateForkAtTransaction _ _ => k = length (inner_forks (inner b))
  | OpCreateSelectFork _ | OpCreateSelectForkAtTransaction _ _ => k = length (inner_forks (inner b)) \/ active_at k b
  | OpSelectFork id => (is_Some (issued_local_fork_ids (inner b) !! id) /\ k = Z.to_nat id) \/ active_at k b
  | OpRollFork id _ | OpRollForkToTransaction id _ | OpTransact id _ _ => fork_at id k b
  | OpRevert id => snapshot_at id k b
  | OpSnapshot | OpSetTestContract _ | OpMakePersistent _ | OpRevokePersistent _ => False
  end.

Lemma wf_settings b i :
  backend_wf b -> inner_forks i = inner_forks (inner b) -> next_fork_id i = next_fork_id (inner b) ->
  issued_local_fork_ids i = issued_local_fork_ids (inner b) -> created_forks i = created_forks (inner b) ->
  snapshots i = snapshots (inner b) -> backend_wf (set_inner i b).
Proof.
  intros [W1 W2 W3 W4 W5 W6] E1 E2 E3 E4 E5. split; cbn; rewrite ?E1, ?E2, ?E3, ?E4, ?E5; try done.
  intros id s Hs. specialize (W6 id s Hs). unfold snapshot_ok in *. by rewrite E1, E4.
Qed.
Lemma set_test_contract_wf a b : backend_wf b -> backend_wf (set_test_contract a b) /\ is_Some (test_contract_address (inner (set_test_contract a b))).
Proof.
  intros W. unfold set_test_contract. destruct (test_contract_address (inner b)); (split; [|by eexists]);
    repeat (apply wf_settings; try done).
Qed.

Lemma backend_new_wf known : backend_wf (backend_new known).
Proof. by split. Qed.

Lemma create_safely f w : backend_wf (w_backend w) -> senders_ok (forks_known (w_backend w)) -> create_fresh f (w_backend w) ->
  safely (fun k => k = length (inner_forks (inner (w_backend w)))) (create_fork establish f) w
    (fun id _ => Z.to_nat id = length (inner_forks (inner (w_backend w)))).
Proof.
  intros W Hs [Hf Hl]. destruct (create_fork_safe f w W Hs Hl Hf) as (r & w' & Hc & W' & S' & _ & _ & U' & Hr).
  exists r, w'. split_and!; try done. destruct r as [id|e]; [|done]. destruct Hr as [-> _]. lia.
Qed.
Definition changes_settings (op : fork_op) : bool :=
  match op with OpSetTestContract _ | OpMakePersistent _ | OpRevokePersistent _ => true | _ => false end.
Lemma run_fork_op_safely op w :
  backend_wf (w_backend w) -> is_Some (test_contract_address (inner (w_backend w))) -> senders_ok (forks_known (w_backend w)) ->
  op_fresh op w -> changes_settings op = false ->
  safely (op_touches op (w_backend w)) (run_fork_op op) w (fun _ _ => True).
Proof using insert_info_other basic_caches remote_transactions remote_blocks.
  intros W Htc Hs Hfresh Hop. destruct op as [js env cache|f|f|id|id block|id h|f h|f h|id h insp| |id|a|a|a]; cbn [run_fork_op op_fresh op_touches] in *.
  - unfold safely, execute. destruct (active_fork_ids (w_backend w)) as [[a ia]|] eqn:Ha.
    + destruct (get_fork_wf _ ia W (active_lt _ _ _ W Ha)) as (f & Hf & ->). cbn [mbind exec_bind].
      rewrite put_fork_lt by (by eapply lookup_lt_Some). cbn. eexists _, _. split; [done|]. split_and!; [by apply wf_put_fork|done| |done].
      eapply untouched_insert; [done|done|]. cbn. unfold active_at. by rewrite Ha.
    + eexists _, _. split; [done|]. split_and!; [destruct W as [X1 X2 X3 X4 X5 X6]; by split|done|by apply untouched_same|done].
  - eapply safely_then; [by apply create_safely|by eexists].
  - eapply safely_then; [|by eexists]. apply then_select_safe; [done|]. by apply create_safely.
  - destruct (select_fork_touches w id W Htc) as (r & w' & ? & ? & ? & ?). exists r, w'. split_and!; try done. by destruct r.
  - destruct Hfresh as [Hb Hf]. destruct (roll_fork_safe id block w W Hs Hb Hf) as (r & w' & ? & ? & ? & ?). exists r, w'. split_and!; try done. by destruct r.
  - by apply roll_to_transaction_safe.
  - destruct Hfresh as [Hc Ht]. eapply safely_then; [by apply create_at_transaction_safe|by eexists].
  - destruct Hfresh as [Hc Ht]. eapply safely_then; [|by eexists]. apply then_select_safe; [done|]. by apply create_at_transaction_safe.
  - by apply transact_safe.
  - eapply (safely_then _ _ _ _ (fun _ _ => True)); [|by eexists].
    destruct (snapshot_safe w W Hfresh) as (id & w' & ? & ? & ? & ? & _). exists (Ok id), w'. by split_and!.
  - destruct (revert_safe id w W) as (o & w' & Hr & W' & S' & U').
    eapply (safely_bind _ _ _ _ (fun _ _ => True)); [exists (Ok o), w'; by split_and!|].
    intros o1 w1 W1 _ _ _. destruct o1 as [js|]; [|by apply (safely_ret _ (Ok tt))].
    exists (Ok tt), (mkWorld (w_backend w1) (w_env w1) js). split_and!; try done. by apply untouched_same.
  - done.
  - done.
  - done.
Qed.

Lemma run_fork_op_safe op w :
  backend_wf (w_backend w) -> is_Some (test_contract_address (inner (w_backend w))) -> senders_ok (forks_known (w_backend w)) ->
  op_fresh op w ->
  exists r w', run_fork_op op w = Ret (r, w') /\ backend_wf (w_backend w') /\ is_Some (test_contract_address (inner (w_backend w'))) /\
    snapshots_kept (snapshots (inner (w_backend w))) (snapshots (inner (w_backend w'))) /\ untouched (op_touches op (w_backend w)) w w'.
Proof using insert_info_other basic_caches remote_transactions remote_blocks.
  intros W Htc Hs Hfresh.
  destruct (changes_settings op) eqn:Hop.
  - destruct op; try done; cbn [run_fork_op op_touches]; eexists _, _; (split; [done|]).
    + destruct (set_test_contract_wf a _ W) as [W' Ht']. split_and!; [done|done|by unfold set_test_contract; destruct (test_contract_address _)|].
      apply untouched_same; cbn; unfold set_test_contract; by destruct (test_contract_address _).
    + split_and!; [by apply wf_settings|done|done|by apply untouched_same].
    + split_and!; [by apply wf_settings|done|done|by apply untouched_same].
  - destruct (run_fork_op_safely op w W Htc Hs Hfresh Hop) as (r & w' & Hr & W' & [Ht _ _ Hk] & U' & _).
    exists r, w'. split_and!; try done. by rewrite Ht.
Qed.

(** C10: The bookkeeping of forks never panics: on a backend whose local ids,
    fork ids and positions agree, and with the test contract known, creating and
    selecting forks, rolling them to a block or a transaction, running a
    transaction of the remote chain, snapshots and reverts, running contracts,
    and changing the test contract and the persistent accounts return, with a
    result or an error, and the ids agree afterwards.  This holds if no two forks
    are of the same endpoint and block (a fork that is created or rolled is new),
    a fork is rolled to a block below 2^64 ([roll_above_u64_panics] otherwise),
    the gas limits, nonces and block numbers of the remote chain fit in 64 bits
    with no transactions in block 0, fewer than 2^64 backends share a fork, and
    the ids of forks and snapshots are not used up; of the account cache it is
    assumed that adding or reading an account changes no other. *)
Theorem forks_never_panic op w :
  backend_wf (w_backend w) -> is_Some (test_contract_address (inner (w_backend w))) -> senders_ok (forks_known (w_backend w)) ->
  op_fresh op w ->
  exists r w', run_fork_op op w = Ret (r, w') /\ backend_wf (w_backend w') /\ is_Some (test_contract_address (inner (w_backend w'))).
Proof using insert_info_other basic_caches remote_transactions remote_blocks.
  intros W Ht Hs Hf. destruct (run_fork_op_safe op w W Ht Hs Hf) as (r & w' & ? & ? & ? & _). by exists r, w'.
Qed.

(** Rolling a fork to a block that does not fit in 64 bits panics. *)
Theorem roll_above_u64_panics id i fid block w :
  ensure_fork id (w_backend w) = Ok i -> issued_local_fork_ids (inner (w_backend w)) !! i = Some fid -> U64_MAX < block ->
  exists message, run_fork_op (OpRollFork id block) w = Panic message.
Proof.
  intros Hen Hi Hb. exists "Integer overflow when casting to u64". cbn [run_fork_op]. unfold roll_fork. rewrite fk_bind_Ret.
  cbn [fk_read mbind exec_bind]. rewrite fk_bind_Ret. cbn [fk_try mbind exec_bind]. rewrite Hen, fk_bind_Ret. cbn [fk_try mbind exec_bind].
  unfold ensure_fork_id. rewrite Hi, fk_bind_Ret. unfold fk_exec, u256_as_u64. by rewrite decide_False by lia.
Qed.

(** ** Isolation *)

(** An operation that is not about the fork [a]: it may select another fork,
    roll it, run transactions there or go back to one of its snapshots. *)
Definition not_about (a : Z) (op : fork_op) (b : Backend) : Prop :=
  match op with
  | OpSelectFork id => id <> a
  | OpRollFork (Some id) _ | OpRollForkToTransaction (Some id) _ | OpTransact (Some id) _ _ => id <> a
  | OpRevert id => ~ snapshot_at id (Z.to_nat a) b
  | _ => True
  end.
(** Operations one after another, none of them about the fork [a]. *)
Inductive away (a : Z) : World -> World -> Prop :=
| away_refl w : away a w w
| away_step w op r w1 w2 :
    senders_ok (forks_known (w_backend w)) -> op_fresh op w -> not_about a op (w_backend w) -> run_fork_op op w = Ret (r, w1) ->
    away a w1 w2 -> away a w w2.

(** The fork at the position of [a] exists, and another one is active. *)
Record left_alone (a : Z) (f : Fork) (w : World) : Prop := {
  la_wf : backend_wf (w_backend w);
  la_test : is_Some (test_contract_address (inner (w_backend w)));
  la_fork : inner_forks (inner (w_backend w)) !! Z.to_nat a = Some (Some f);
  la_active : exists c ic, active_fork_ids (w_backend w) = Some (c, ic) /\ ic <> Z.to_nat a }.

Lemma not_about_touches a f op w : 0 <= a -> left_alone a f w -> not_about a op (w_backend w) -> ~ op_touches op (w_backend w) (Z.to_nat a).
Proof.
  intros Ha [W _ Hf (c & ic & Hc & Hne)] Hop.
  assert (forall i, is_Some (issued_local_fork_ids (inner (w_backend w)) !! i) -> Z.to_nat a = Z.to_nat i -> i = a) as Hinj.
  { intros i [fid Hi] E. destruct (wf_issued _ W _ _ Hi). lia. }
  assert (forall id, match id with Some i => i <> a | None => True end -> ~ fork_at id (Z.to_nat a) (w_backend w)) as Hat.
  { intros id Hid. unfold fork_at, ensure_fork, active_fork_id. rewrite Hc. cbn. destruct id as [i|].
    - destruct (issued_local_fork_ids _ !! i) as [fid|] eqn:Hi; [|tauto]. intros E. apply Hid, Hinj; [by rewrite Hi|done].
    - intros E. destruct (wf_active _ W _ _ Hc) as [_ ->]. by apply Hne. }
  pose proof (lookup_lt_Some _ _ _ Hf) as Hlt. assert (~ active_at (Z.to_nat a) (w_backend w)) as Hna by (unfold active_at; rewrite Hc; congruence).
  destruct op as [| | |id|id n|id h| | |id h i| |id| | |]; cbn in *; try tauto.
  - lia.
  - intros [E|E]; [lia|done].
  - intros [[Hi E]|E]; [|done]. by apply Hop, Hinj.
  - apply Hat. by destruct id.
  - apply Hat. by destruct id.
  - lia.
  - intros [E|E]; [lia|done].
  - apply Hat. by destruct id.
Qed.

Lemma away_left_alone a f w w' : 0 <= a -> away a w w' -> left_alone a f w -> left_alone a f w'.
Proof using insert_info_other basic_caches remote_transactions remote_blocks.
  intros Ha. induction 1 as [w|w op r w1 w2 Hs Hf Hop Hr _ IH]; [done|]. intros HL. apply IH.
  pose proof (not_about_touches a f op w Ha HL Hop) as Hn. destruct HL as [W Ht Hfk (c & ic & Hc & Hne)].
  destruct (run_fork_op_safe op w W Ht Hs Hf) as (r' & w1' & Hr' & W1 & Ht1 & _ & [F1 A1]). rewrite Hr in Hr'. simplify_eq.
  split; [done|done|by apply F1|]. destruct A1 as [A1|(i & A1 & Hi)]; [rewrite A1; by exists c, ic|].
  exists i, (Z.to_nat i). split; [done|]. intros E. apply Hn. by rewrite <- E.
Qed.

(** C9: Forks are separate: a test leaves the fork [a] for [b], does there
    whatever it likes (runs contracts, creates, selects and rolls other forks,
    runs transactions of their chains, takes snapshots and goes back to those of
    other forks, changes the persistent accounts), and comes back to [a].  Every
    account of [a] that is not persistent then, other than the caller's, is as it
    was left, in the journaled state and in the fork's database.  In between, [a]
    itself is not selected, rolled, run a transaction on or reverted to a snapshot
    of; no two forks are of the same endpoint and block, and the other conditions
    of the bookkeeping hold ([forks_never_panic]). *)
Theorem fork_state_isolated w a ia b w1 w2 w3 x :
  backend_wf (w_backend w) -> is_Some (test_contract_address (inner (w_backend w))) ->
  active_fork_ids (w_backend w) = Some (a, ia) -> a <> b ->
  select_fork b w = Ret (Ok tt, w1) -> away a w1 w2 -> select_fork a w2 = Ret (Ok tt, w3) ->
  x ∉ persistent_accounts (inner (w_backend w2)) -> x <> env_caller (ev_tx (w_env w2)) ->
  js_state (w_state w3) !! x = js_state (w_state w) !! x /\
  exists f f3, inner_forks (inner (w_backend w)) !! ia = Some (Some f) /\ inner_forks (inner (w_backend w3)) !! ia = Some (Some f3) /\
    db_accounts (fk_db f3) !! x = db_accounts (fk_db f) !! x.
Proof using insert_info_other basic_caches remote_transactions remote_blocks.
  intros W Htc Ha Hab Hs1 Hrun Hs2 Hp Hc.
  destruct (select_fork_active w b a ia W Htc Ha ltac:(done)) as (r & w1' & Hr & W1 & [T1 _ _ _] & _ & Hsel). rewrite Hs1 in Hr. simplify_eq.
  destruct Hsel as (act & t & t' & fid & env & [_ _ Hact Ht Hw _]).
  assert (active_fork_ids (w_backend w1') = Some (b, Z.to_nat b)) as Ha1 by (by rewrite Hw).
  destruct (wf_active _ W _ _ Ha) as [[fa Hfa] Hia]. destruct (wf_issued _ W _ _ Hfa) as [Hra _].
  assert (Z.to_nat b <> Z.to_nat a) as Hne.
  { destruct (wf_active _ W1 _ _ Ha1) as [[fb Hfb] _]. destruct (wf_issued _ W1 _ _ Hfb) as [Hrb _]. lia. }
  assert (left_alone a (mkFork (fk_db act) (w_state w)) w1') as HL.
  { split; [done|by rewrite T1| |by exists b, (Z.to_nat b)]. rewrite Hw. cbn. rewrite list_lookup_insert_ne by done.
    rewrite <- Hia, list_lookup_insert_eq; [done|by eapply lookup_lt_Some]. }
  destruct (away_left_alone a _ _ _ ltac:(lia) Hrun HL) as [W2 Htc2 HtA (c & ic & Hc2 & Hic)].
  destruct (wf_active _ W2 _ _ Hc2) as [_ Hic2].
  destruct (select_fork_active w2 a c ic W2 Htc2 Hc2 ltac:(congruence)) as (r & w3' & Hr & _ & _ & _ & Hsel). rewrite Hs2 in Hr. simplify_eq.
  destruct Hsel as (act2 & tA & tA' & fid2 & env2 & [_ _ _ HtA' Hw3 [D1 _ _ D4 _]]). rewrite HtA in HtA'. simplify_eq.
  destruct (D4 x) as [E1 E2]; [done|done|]. split; [done|]. exists act, tA'. split_and!; [done| |done].
  rewrite Hw3. cbn. rewrite list_lookup_insert_eq; [done|]. rewrite length_insert. by eapply lookup_lt_Some.
Qed.

(** ** Going back *)

(** Operations one after another, without going back to the snapshot [id] or an
    earlier one. *)
Inductive ops_run (id : Z) : World -> World -> Prop :=
| ops_refl w : ops_run id w w
| ops_step w op r w1 w2 :
    senders_ok (forks_known (w_backend w)) -> op_fresh op w -> (forall k, op = OpRevert k -> id < k) -> run_fork_op op w = Ret (r, w1) ->
    ops_run id w1 w2 -> ops_run id w w2.

Lemma ops_run_safe id w w' :
  ops_run id w w' -> backend_wf (w_backend w) -> is_Some (test_contract_address (inner (w_backend w))) ->
  backend_wf (w_backend w') /\ snapshots_kept (snapshots (inner (w_backend w))) (snapshots (inner (w_backend w'))).
Proof using insert_info_other basic_caches remote_transactions remote_blocks.
  induction 1 as [w|w op r w1 w2 Hs Hf _ Hop _ IH]; intros W Ht; [by split|].
  destruct (run_fork_op_safe op w W Ht Hs Hf) as (r1 & w1' & Hop' & W1 & Ht1 & K1 & _). rewrite Hop in Hop'. simplify_eq.
  destruct (IH W1 Ht1) as [W2 K2]. split; [done|by etrans].
Qed.

(** Going back keeps the snapshot, so that it can be gone back to again. *)
Theorem revert_keeps_snapshot id w a fid ia f js e :
  backend_wf (w_backend w) ->
  Snapshots.snapshots (snapshots (inner (w_backend w))) !! id = Some (mkSnapshot (Forked a fid ia f) js e) ->
  exists js' w', revert id w = Ret (Ok (Some js'), w') /\ snapshots (inner (w_backend w')) = snapshots (inner (w_backend w)).
Proof using insert_info_other.
  intros W Hs. destruct (revert_forked id w a fid ia f js e W Hs) as (js' & w' & f' & Hr & _ & Hsn). by exists js', w'.
Qed.

End ForkBackendProps.
