(* ===== verification/ForkSample.v ===== *)
(** * Forks of a toy chain

    A remote chain and an account cache with which the fork handler and the
    test backend run: the theorems about them are instantiated here, and the
    behaviours recorded as findings are shown. *)
From stdpp Require Import pretty.
From S2P Require Import Prelude Transaction Hardfork Block Snapshots Db Validator MultiFork ForkBackend ForkBackendProps.
Open Scope Z_scope.

Module ForkToy.
#[export] Instance net : ForkNet := {|
  SharedBackend := nat;
  OptsRest := unit;
  display_block o := match o with Some n => pretty n | None => "latest" end |}.
#[export] Instance data : RevmData := {|
  AccountRest := unit;
  JournalEntry := Z;
  StateRest := unit;
  PrecompileId := SpecId;
  DatabaseFailure := string |}.

Definition cache_info (a : Address) (i : AccountInfo.t) (c : CacheDB.t) : CacheDB.t :=
  let storage := default ∅ (DbAccount.storage <$> CacheDB.accounts c !! a) in
  CacheDB.mk (<[a := DbAccount.mk i NoState storage]> (CacheDB.accounts c)) (CacheDB.contracts c) (CacheDB.block_hashes c).
(** Every account of a remote chain has the balance that names the chain. *)
Definition remote_info (n : nat) : AccountInfo.t := AccountInfo.mk (Z.of_nat n) 0 KECCAK_EMPTY None.
Definition basic (d : ForkDB) (a : Address) : result (option AccountInfo.t) string * ForkDB :=
  match CacheDB.accounts (fdb_cache d) !! a with
  | Some acc => (Ok (Some (DbAccount.info acc)), d)
  | None => (Ok (Some (remote_info (fdb_db d))), mkForkDB (cache_info a (remote_info (fdb_db d)) (fdb_cache d)) (fdb_db d))
  end.
Definition slot (c : CacheDB.t) (a : Address) (k : Z) : Z :=
  default 0 (acc ← CacheDB.accounts c !! a; DbAccount.storage acc !! k).
(** Transactions of block 8 *)
Definition remote_tx (h : H256) : RpcTransaction := mkRpcTx h 5 (Some 600) 21000 (Some 1) None 0 None 3 [] (Some 8).
#[export] Instance revm : Revm := {|
  account_from i := mkAccount i ∅ false tt;
  journaled_new _ := mkJournal ∅ [] 0 [] tt;
  precompile_latest := LATEST;
  precompile_of_spec s := s;
  precompiles _ := {[1; 2; 3]};
  create_address a n := a + n + 1;
  fork_basic := basic;
  fork_basic_ref d a := fst (basic d a);
  fork_storage_ref d a k := Ok (slot (fdb_cache d) a k);
  mem_basic_ref c a := Ok (DbAccount.info <$> CacheDB.accounts c !! a);
  mem_storage_ref c a k := Ok (slot c a k);
  insert_account_info := cache_info;
  insert_account_storage a k v c :=
    match CacheDB.accounts c !! a with
    | Some acc =>
        Ok (CacheDB.mk (<[a := DbAccount.mk (DbAccount.info acc) (DbAccount.account_state acc) (<[k := v]> (DbAccount.storage acc))]>
                          (CacheDB.accounts c)) (CacheDB.contracts c) (CacheDB.block_hashes c))
    | None => Err "no such account"
    end;
  db_commit changes c := map_fold (fun a acc => cache_info a (acc_info acc)) c changes;
  load_account a js d :=
    match js_state js !! a with
    | Some _ => (js, d)
    | None =>
        let '(r, d) := basic d a in
        (set_state (<[a := mkAccount (match r with Ok (Some i) => i | _ => default_account end) ∅ false tt]> (js_state js)) js, d)
    end;
  get_transaction _ h := if decide (h = 901) then Ok (remote_tx 901) else Err "no such transaction";
  get_full_block _ n :=
    match n with
    | Some n => Ok (mkRpcBlock (Some (Z.min n U64_MAX)) 1000 None 0 None None 30000000 [remote_tx 900; remote_tx 901])
    | None => Err "no block"
    end |}.
(** The EVM: a transaction leaves 3 with its receiver. *)
Definition evm_run (b : Backend) (e : Env) (inspected : bool) : result (gmap Address Account) string :=
  match env_transact_to (ev_tx e) with
  | TransactToCall to => Ok {[to := mkAccount (AccountInfo.mk 3 0 KECCAK_EMPTY None) ∅ true tt]}
  | TransactToCreate => Err "no code"
  end.

Lemma insert_info_other (a : Address) (i : AccountInfo.t) (c : CacheDB.t) (x : Address) :
  x <> a -> CacheDB.accounts (insert_account_info a i c) !! x = CacheDB.accounts c !! x.
Proof. intros Hx. cbn. by rewrite lookup_insert_ne. Qed.
Lemma basic_caches (d : ForkDB) (a : Address) (r : result (option AccountInfo.t) DatabaseFailure) (d' : ForkDB) :
  fork_basic d a = (r, d') -> fdb_db d' = fdb_db d /\ forall x, x <> a -> CacheDB.accounts (fdb_cache d') !! x = CacheDB.accounts (fdb_cache d) !! x.
Proof.
  cbn. unfold basic. destruct (CacheDB.accounts (fdb_cache d) !! a); intros [= _ <-]; [done|]. split; [done|].
  intros x Hx. by apply (insert_info_other a).
Qed.

Lemma remote_transactions (backend : SharedBackend) (hash : H256) (tx : RpcTransaction) :
  get_transaction backend hash = Ok tx -> tx_u64 tx /\ forall n, rt_block_number tx = Some n -> 1 <= n <= U64_MAX.
Proof. cbn. case_decide; [|done]. intros [= <-]. split; [done|]. by intros n [= <-]. Qed.
Lemma remote_blocks (backend : SharedBackend) (n : option Z) (block : RpcBlock) :
  get_full_block backend n = Ok block -> Forall tx_u64 (rb_transactions block) /\ forall k, rb_number block = Some k -> k <= U64_MAX.
Proof. cbn. destruct n as [n|]; [|done]. intros [= <-]. split; [by repeat constructor|]. cbn. intros k [= <-]. lia. Qed.

(** ** The handler *)
Definition env : Env :=
  mkEnv (CfgEnv.mk 1 SHANGHAI false false false) (BlockEnv.mk 0 7 1000 0 None 0 30000000)
    (Build_TxEnv CALLER TransactToCreate [] None None 0 0 None 21000 []).
Definition env_at (n : Z) : Env := mkEnv (ev_cfg env) (BlockEnv.mk n 7 (1000 + n) 0 None 0 30000000) (ev_tx env).
Definition fork (u : string) (n : Z) : CreateFork := mkCreateFork false u env (mkOpts (Some n) tt).
(** Connecting gives the chain that the block number names. *)
Definition connect (f : CreateFork) : result (SharedBackend * Env) string :=
  match fork_block_number (evm_opts f) with
  | Some n => Ok (Z.to_nat n, env_at n)
  | None => Err "no block"
  end.

(** Two tests ask for the fork of one endpoint and block, the second while the
    connection is being made; a third asks afterwards. *)
Definition poll_done (t : ForkTask) : option (result (SharedBackend * Env) string) := Some (connect (task_fork t)).
Definition asked : list Request := [ReqCreateFork (fork "eth" 5) 1; ReqCreateFork (fork "eth" 5) 2].
Definition poll_with (reqs : list Request) (h : MultiForkHandler) : exec (list (nat * Answer) * MultiForkHandler) :=
  handler_poll reqs poll_done (fun _ => false) h.
Definition after (reqs : list Request) (h : MultiForkHandler) : list (nat * Answer) * MultiForkHandler :=
  match poll_with reqs h with Ret p => p | Panic _ => ([], h) end.
Lemma poll_after reqs h :
  match poll_with reqs h with Ret _ => true | Panic _ => false end = true ->
  handler_poll reqs poll_done (fun _ => false) h = Ret (fst (after reqs h), snd (after reqs h)).
Proof. unfold after, poll_with. by destruct (handler_poll _ _ _ h) as [[r h']|m]. Qed.
Definition polled_once := after asked handler_new.
Definition polled_twice := after [ReqCreateFork (fork "eth" 5) 3%nat] (snd polled_once).

Lemma forks_shared_and_answered_witness :
  omap answered (fst polled_once ++ fst polled_twice ++ []) = [1%nat; 2%nat; 3%nat] /\
  omap asks (asked ++ [ReqCreateFork (fork "eth" 5) 3%nat] ++ [])
    ≡ₚ omap answered (fst polled_once ++ fst polled_twice ++ []) ++ waiting (snd polled_twice).
Proof.
  split; [by vm_compute|]. apply (forks_shared_and_answered _ _ (snd polled_twice)).
  apply (run_poll handler_new asked poll_done (fun _ => false) (fst polled_once) (snd polled_once)).
  - apply poll_after. by vm_compute.
  - apply (run_poll _ _ poll_done (fun _ => false) _ (snd polled_twice)); [|apply run_start]. apply poll_after. by vm_compute.
Defined.

(** ** The backend *)
Definition world0 : World := mkWorld (backend_new ∅) env (mkJournal ∅ [] 0 [] tt).
Definition run (op : fork_op) (w : World) : World :=
  match run_fork_op connect evm_run op w with Ret (_, w') => w' | Panic _ => w end.
Definition ran (op : fork_op) (w : World) : bool :=
  match run_fork_op connect evm_run op w with Ret (Ok _, _) => true | _ => false end.
Lemma ran_ok op w : ran op w = true -> run_fork_op connect evm_run op w = Ret (Ok tt, run op w).
Proof. unfold ran, run. destruct (run_fork_op connect evm_run op w) as [[[[]|e] w']|m]; done. Qed.
(** The contract 77 runs: it gives account 500 the balance [n]. *)
Definition contract_runs (n : Z) (w : World) : fork_op :=
  OpExecute (set_state (<[500 := mkAccount (AccountInfo.mk n 0 KECCAK_EMPTY None) ∅ true tt]> (js_state (w_state w))) (w_state w))
    (w_env w) (CacheDB.mk ∅ ∅ ∅).
Lemma select_ran id w : ran (OpSelectFork id) w = true -> select_fork id w = Ret (Ok tt, run (OpSelectFork id) w).
Proof. intros Hr. exact (ran_ok (OpSelectFork id) w Hr). Qed.
Lemma execute_ran n v w : ran (contract_runs n v) w = true ->
  execute (set_state (<[500 := mkAccount (AccountInfo.mk n 0 KECCAK_EMPTY None) ∅ true tt]> (js_state (w_state v))) (w_state v))
    (w_env v) (CacheDB.mk ∅ ∅ ∅) w = Ret (Ok tt, run (contract_runs n v) w).
Proof. intros Hr. exact (ran_ok (contract_runs n v) w Hr). Qed.
Lemma snapshot_ran k w :
  match snapshot w with Ret (Ok id, _) => id =? k | _ => false end = true -> snapshot w = Ret (Ok k, run OpSnapshot w).
Proof.
  unfold run, run_fork_op. rewrite fk_bind_Ret. destruct (snapshot w) as [[[id|e] w1]|m]; [|done..]. cbn. by intros ->%Z.eqb_eq.
Qed.
Definition runs_to (ops : list fork_op) (w : World) : World := foldl (fun w op => run op w) w ops.

Definition balance_of (a : Address) (js : JournaledState) : option Z :=
  AccountInfo.balance <$> (acc_info <$> js_state js !! a).
Definition set_up : list fork_op :=
  [OpCreateFork (fork "eth" 5); OpCreateFork (fork "eth" 6); OpSelectFork 0].
Definition launched : World := run (OpSetTestContract 77) world0.
Definition ready : World := runs_to set_up launched.
Definition on_fork0 : World := run (contract_runs 10 ready) ready.

Definition sound (w : World) : Prop := backend_wf (w_backend w) /\ is_Some (test_contract_address (inner (w_backend w))).
(** The side conditions of an operation, decided. *)
Definition roll_check (b : Backend) (i n : Z) : bool :=
  match issued_local_fork_ids (inner b) !! i with
  | Some fid =>
      match forks_known b !! fid with
      | Some f =>
          let o := created_forks (inner b) !! create_fork_id (url (opts f)) (Some n) in
          bool_decide (o = None) || bool_decide (o = Some (Z.to_nat i))
      | None => true
      end
  | None => true
  end.
Lemma roll_check_ok b i n : roll_check b i n = true -> roll_fresh b i n.
Proof.
  unfold roll_check. intros Hc fid f Hi Hf. rewrite Hi, Hf in Hc. apply orb_true_iff in Hc as [Hc|Hc]; apply bool_decide_eq_true in Hc; [by left|by right].
Qed.
Definition tx_check (b : Backend) (i : Z) (h : H256) : bool :=
  match inner_forks (inner b) !! Z.to_nat i with
  | Some (Some f) => match fork_block_of (fdb_db (fk_db f)) h with Some n => roll_check b i n | None => true end
  | _ => true
  end.
Lemma tx_check_ok b i h : tx_check b i h = true -> tx_fresh b i h.
Proof. unfold tx_check. intros Hc f n Hf Hn. rewrite Hf, Hn in Hc. by apply roll_check_ok. Qed.
Definition allowed (op : fork_op) (w : World) : bool :=
  bool_decide (map_Forall (fun _ f => num_senders f < U64_MAX) (forks_known (w_backend w))) &&
  match op with
  | OpCreateFork f | OpCreateSelectFork f =>
      bool_decide (created_forks (inner (w_backend w)) !! fork_id_of f = None) &&
      bool_decide (Z.of_nat (length (inner_forks (inner (w_backend w)))) < U256_MAX)
  | OpSnapshot => bool_decide (Snapshots.id_ (snapshots (inner (w_backend w))) < U256_MAX)
  | OpRollFork id block =>
      bool_decide (block <= U64_MAX) && match ensure_fork id (w_backend w) with Ok i => roll_check (w_backend w) i block | Err _ => true end
  | OpRollForkToTransaction id h => match ensure_fork id (w_backend w) with Ok i => tx_check (w_backend w) i h | Err _ => true end
  | OpCreateForkAtTransaction _ _ | OpCreateSelectForkAtTransaction _ _ => false
  | _ => true
  end.
Lemma allowed_fresh op w : allowed op w = true -> senders_ok (forks_known (w_backend w)) /\ op_fresh connect op w.
Proof.
  unfold allowed. intros [H1%bool_decide_eq_true H2]%andb_true_iff. split; [done|].
  destruct op; cbn in *; try done; try (apply andb_true_iff in H2 as [? ?]); rewrite ?bool_decide_eq_true in *; try done.
  - split; [done|]. intros i Hi. rewrite Hi in *. by apply roll_check_ok.
  - intros i Hi. rewrite Hi in *. by apply tx_check_ok.
Qed.
Lemma run_sound op w : sound w -> allowed op w = true -> sound (run op w).
Proof.
  intros [W Ht] [Hs Hf]%allowed_fresh.
  destruct (run_fork_op_safe connect insert_info_other basic_caches evm_run remote_transactions remote_blocks op w W Ht Hs Hf) as (r & w' & Hr & W' & Ht' & _).
  unfold run. rewrite Hr. by split.
Qed.
Fixpoint all_allowed (ops : list fork_op) (w : World) : bool :=
  match ops with [] => true | op :: ops => allowed op w && all_allowed ops (run op w) end.
Lemma runs_to_sound ops : forall w, sound w -> all_allowed ops w = true -> sound (runs_to ops w).
Proof.
  induction ops as [|op ops IH]; intros w Hw; [done|]. cbn. intros [H1 H2]%andb_true_iff. apply IH; [|done]. by apply run_sound.
Qed.
Lemma launched_sound : sound launched.
Proof.
  destruct (set_test_contract_wf 77 (backend_new ∅) (backend_new_wf ∅)) as [W Ht]. by split.
Qed.

Lemma ready_sound : sound ready.
Proof. apply runs_to_sound; [apply launched_sound|by vm_compute]. Qed.
Lemma on_fork0_sound : sound on_fork0.
Proof. apply run_sound; [apply ready_sound|by vm_compute]. Qed.

Definition to_tx : fork_op := OpRollForkToTransaction (Some 0) 901.
(** The fork is rolled to block 7 and transaction 900 is run: account 600 has
    its 3. *)
Lemma forks_never_panic_witness :
  (match inner_forks (inner (w_backend (run to_tx on_fork0))) !! 0%nat with
   | Some (Some f) => AccountInfo.balance <$> (DbAccount.info <$> CacheDB.accounts (fdb_cache (fk_db f)) !! 600)
   | _ => None
   end) = Some 3 /\
  exists r w', run_fork_op connect evm_run to_tx on_fork0 = Ret (r, w') /\ backend_wf (w_backend w') /\
    is_Some (test_contract_address (inner (w_backend w'))).
Proof.
  split; [by vm_compute|].
  destruct on_fork0_sound as [W Ht]. destruct (allowed_fresh to_tx on_fork0) as [Hs Hf]; [by vm_compute|].
  exact (forks_never_panic connect insert_info_other basic_caches evm_run remote_transactions remote_blocks to_tx on_fork0 W Ht Hs Hf).
Defined.

(** On fork 1: a contract runs, account 600 becomes persistent, the fork is
    rolled, a snapshot is taken and gone back to. *)
Definition work : list fork_op :=
  [contract_runs 20 (run (OpSelectFork 1) on_fork0); OpMakePersistent 600; OpRollFork None 9; OpSnapshot; OpRevert 0].
Definition worked : World := runs_to work (run (OpSelectFork 1) on_fork0).
Definition elsewhere_op (op : fork_op) (w : World) : bool :=
  match op with
  | OpExecute _ _ _ | OpMakePersistent _ | OpSnapshot | OpRollFork None _ => true
  | OpSelectFork id => bool_decide (id <> 0)
  | OpRevert id =>
      match sn_db <$> Snapshots.snapshots (snapshots (inner (w_backend w))) !! id with
      | Some (Forked _ _ idx _) => bool_decide (idx <> 0%nat)
      | _ => true
      end
  | _ => false
  end.
Lemma elsewhere_not_about op w : elsewhere_op op w = true -> not_about 0 op (w_backend w).
Proof.
  destruct op as [| | | |[]|[]| | |[]| | | | |]; cbn; try done; unfold snapshot_at;
    [by intros ?%bool_decide_eq_true|]. destruct (sn_db <$> _) as [[|]|]; try tauto. intros Hi%bool_decide_eq_true E. by apply Hi.
Qed.
Fixpoint all_elsewhere (ops : list fork_op) (w : World) : bool :=
  match ops with [] => true | op :: ops => allowed op w && ran op w && elsewhere_op op w && all_elsewhere ops (run op w) end.
Lemma runs_away ops : forall w, all_elsewhere ops w = true -> away connect evm_run 0 w (runs_to ops w).
Proof.
  induction ops as [|op ops IH]; intros w; cbn; [constructor|]. intros [[[Ha Hr]%andb_true_iff Hop]%andb_true_iff Hrest]%andb_true_iff.
  destruct (allowed_fresh op w Ha). eapply away_step; [done|done|by apply elsewhere_not_about|by apply ran_ok|by apply IH].
Qed.

Definition back_on_fork0 : World := run (OpSelectFork 0) worked.
Lemma fork_state_isolated_witness :
  balance_of 500 (w_state on_fork0) = Some 10 /\ balance_of 500 (w_state (run (contract_runs 20 (run (OpSelectFork 1) on_fork0)) (run (OpSelectFork 1) on_fork0))) = Some 20 /\
  js_state (w_state back_on_fork0) !! 500 = js_state (w_state on_fork0) !! 500.
Proof.
  split; [by vm_compute|]. split; [by vm_compute|]. destruct on_fork0_sound as [W Ht].
  apply (fork_state_isolated connect insert_info_other basic_caches evm_run remote_transactions remote_blocks
    on_fork0 0 0 1 (run (OpSelectFork 1) on_fork0) worked back_on_fork0 500 W Ht).
  - by vm_compute.
  - done.
  - apply select_ran. by vm_compute.
  - apply runs_away. by vm_compute.
  - apply select_ran. by vm_compute.
  - by vm_compute.
  - by vm_compute.
Defined.

(** A snapshot on fork 0, then work on fork 1. *)
Definition snapped : World := run OpSnapshot on_fork0.
Definition elsewhere : World := let w := run (OpSelectFork 1) snapped in run (contract_runs 20 w) w.

(** ** Behaviours to know of *)

(** Two forks of one endpoint and block share a place: with the first of them
    active, selecting the second takes the active fork out and then looks for
    it. *)
Lemma select_panics w : match select_fork 1 w with Panic _ => true | Ret _ => false end = true -> exists message, select_fork 1 w = Panic message.
Proof. destruct (select_fork 1 w) as [p|m]; [done|by exists m]. Qed.
Theorem same_fork_twice_panics :
  exists message, select_fork 1 (runs_to [OpCreateFork (fork "eth" 5); OpCreateFork (fork "eth" 5); OpSelectFork 0] launched) = Panic message.
Proof. apply select_panics. by vm_compute. Qed.

(** So does rolling the active fork to the block of another fork and then
    selecting that one. *)
Theorem roll_onto_other_fork_panics : exists message, select_fork 1 (run (OpRollFork (Some 0) 6) ready) = Panic message.
Proof. apply select_panics. by vm_compute. Qed.

(** A new test contract does not take cheatcode access from the one before. *)
Theorem old_test_contract_keeps_access (old acc : Address) b :
  test_contract_address (inner b) = Some old -> old <> acc -> has_cheatcode_access old b = true ->
  has_cheatcode_access old (set_test_contract acc b) = true.
Proof.
  intros Ht Hne. unfold has_cheatcode_access. rewrite !bool_decide_eq_true. unfold set_test_contract. rewrite Ht. cbn. set_solver.
Qed.

(** Going back to a snapshot from before the first fork leaves the fork
    active. *)
Theorem revert_to_memory_stays_on_fork :
  let w := run OpSnapshot launched in
  let w := runs_to set_up w in
  active_fork_ids (w_backend launched) = None /\ active_fork_ids (w_backend (run (OpRevert 0) w)) = Some (0, 0%nat).
Proof. split; by vm_compute. Qed.
End ForkToy.
