(* ===== verification/Expect.v ===== *)
(** * Expectations and mocks of tests (evm/src/executor/inspector/cheatcodes/expect.rs)

    What a test expects of the calls it makes: reverts, emitted events, calls
    to be made, memory to be left alone; and the answers it puts in the place
    of calls.  The hooks of the inspector that use them are in
    [Cheatcodes]. *)
From stdpp Require Import pretty.
From S2P Require Import Prelude Transaction Executor.
Open Scope Z_scope.

(** ** Ordered maps *)

(** Iteration over a [BTreeMap] goes up the order of the keys. *)
Definition entry_le {K V} (le : K -> K -> bool) (a b : K * V) : Prop := le a.1 b.1 = true.
#[export] Instance entry_le_dec {K V} (le : K -> K -> bool) (a b : K * V) : Decision (entry_le le a b).
Proof. unfold entry_le. apply _. Defined.
Definition btree_iter `{Countable K} {V} (le : K -> K -> bool) (m : gmap K V) : list (K * V) :=
  merge_sort (entry_le le) (map_to_list m).

(** [Vec<u8>] and [Bytes] are ordered as sequences, [Option] with [None] first. *)
Fixpoint bytes_cmp (a b : list byte) : comparison :=
  match a, b with
  | [], [] => Eq
  | [], _ => Lt
  | _, [] => Gt
  | x :: a, y :: b => match x ?= y with Eq => bytes_cmp a b | c => c end
  end.
Definition option_cmp (a b : option Z) : comparison :=
  match a, b with
  | None, None => Eq
  | None, Some _ => Lt
  | Some _, None => Gt
  | Some x, Some y => x ?= y
  end.
Definition cmp_le (c : comparison) : bool := match c with Gt => false | _ => true end.
Definition bytes_le (a b : list byte) : bool := cmp_le (bytes_cmp a b).

(** [c == x[..c.len()]] with [c.len() <= x.len()] *)
Fixpoint starts_with (c x : list byte) : bool :=
  match c, x with
  | [], _ => true
  | a :: c, b :: x => (a =? b) && starts_with c x
  | _ :: _, [] => false
  end.

(** ** Errors *)

(** The library functions that errors and reverts go through: the ABI of
    strings and bytes, UTF-8 and hexadecimal digits. *)
Class Abi := {
  abi_encode_string : string -> list byte;
  abi_decode_string : list byte -> option string;
  abi_decode_bytes : list byte -> option (list byte);
  from_utf8 : list byte -> option string;
  hex_encode : list byte -> string }.

Definition REVERT_PREFIX : list byte := [8; 195; 121; 160].
Definition ERROR_PREFIX : list byte := [11; 196; 69; 3].

Section Expect.
Context `{!Abi}.

Definition encode_error (reason : string) : list byte := ERROR_PREFIX ++ abi_encode_string reason.

(** ** Expected reverts *)
Record ExpectedRevert := mkExpectedRevert { er_reason : option (list byte); er_depth : Z }.

Definition DUMMY_CALL_OUTPUT : list byte := replicate 512 0.
Definition DUMMY_CREATE_ADDRESS : Address := 1.

(** [return_ok!()] and [return_revert!()] *)
Definition return_ok (status : InstructionResult) : bool :=
  match status with Continue | IStop | IReturn | ISelfDestruct => true | _ => false end.
Definition return_revert (status : InstructionResult) : bool :=
  match status with IRevert | CallTooDeep | OutOfFund => true | _ => false end.

Definition stringify (data : list byte) : string :=
  match abi_decode_string data with
  | Some s => s
  | None => match from_utf8 data with Some s => s | None => "0x" +:+ hex_encode data end
  end.

(** What was reverted with: the message inside an [Error(string)] or a
    cheatcode error, else all of it. *)
Definition actual_revert (retdata : list byte) : list byte :=
  if (4 <=? length retdata)%nat && (bool_decide (take 4 retdata = ERROR_PREFIX) || bool_decide (take 4 retdata = REVERT_PREFIX)) then
    default retdata (abi_decode_bytes (drop 4 retdata))
  else retdata.
Definition handle_expect_revert (is_create : bool) (expected_revert : option (list byte)) (status : InstructionResult)
    (retdata : list byte) : result (option Address * list byte) string :=
  let success := if is_create then (Some DUMMY_CREATE_ADDRESS, []) else (None, DUMMY_CALL_OUTPUT) in
  if return_ok status then Err "Call did not revert as expected"
  else
    match expected_revert with
    | None => Ok success
    | Some expected =>
        if negb (bool_decide (expected = [])) && bool_decide (retdata = []) then
          Err "Call reverted as expected, but without data"
        else
          let actual := actual_revert retdata in
          if decide (actual = expected) then Ok success
          else Err ("Error != expected error: " +:+ stringify actual +:+ " != " +:+ stringify expected)
    end.
End Expect.

(** ** Expected events *)
Record RawLog := mkRawLog { raw_topics : list H256; raw_data : list byte }.
Record ExpectedEmit := mkEmit {
  em_depth : Z; em_log : option RawLog; em_checks : list bool; em_address : option Address; em_found : bool }.
Definition set_found (found : bool) (e : ExpectedEmit) : ExpectedEmit :=
  mkEmit (em_depth e) (em_log e) (em_checks e) (em_address e) found.
Definition set_log (log : RawLog) (e : ExpectedEmit) : ExpectedEmit :=
  mkEmit (em_depth e) (Some log) (em_checks e) (em_address e) (em_found e).

(** [topics.iter().skip(1).enumerate().filter(|(i, _)| checks[*i]).all(|(i, topic)| topic == &expected.topics[i + 1])] *)
Fixpoint topics_match (checks : list bool) (i : nat) (topics expected : list H256) : exec bool :=
  match topics with
  | [] => Ret true
  | topic :: topics =>
      check ← expect (checks !! i : option bool) "index out of bounds";
      if (check : bool) then
        e ← expect (expected !! S i) "index out of bounds";
        if decide (topic = e) then topics_match checks (S i) topics expected else Ret false
      else topics_match checks (S i) topics expected
  end.

(** The event [e], waiting for [expected], sees [log]. *)
Definition check_emit (e : ExpectedEmit) (expected log : RawLog) (address : Address) : exec bool :=
  let same_topic_0 :=
    match head (raw_topics expected), head (raw_topics log) with
    | Some a, Some b => bool_decide (a = b /\ length (raw_topics expected) = length (raw_topics log))
    | _, _ => false
    end in
  if same_topic_0 then
    found ← topics_match (em_checks e) 0 (tail (raw_topics log)) (raw_topics expected);
    let found := match em_address e with Some addr => found && bool_decide (addr = address) | None => found end in
    check_data ← expect (em_checks e !! 3%nat : option bool) "index out of bounds";
    Ret (if (check_data : bool) then found && bool_decide (raw_data expected = raw_data log) else found)
  else Ret (em_found e).

Definition handle_expect_emit (expected_emits : list ExpectedEmit) (log : RawLog) (address : Address)
    : exec (list ExpectedEmit) :=
  if forallb em_found expected_emits then Ret expected_emits
  else
    '(e, rest) ←
      (if existsb (fun e => match em_log e with None => true | Some _ => false end) expected_emits then
         expect (vec_pop expected_emits) "We should have an emit to fill or check. This is a bug"
       else
         match expected_emits with
         | e :: rest => Ret (e, rest)
         | [] => Panic "We should have an emit to fill or check. This is a bug"
         end);
    match em_log e with
    | Some expected =>
        found ← check_emit e expected log address;
        Ret (if (found : bool) then rest ++ [set_found found e] else set_found found e :: rest)
    | None => Ret (rest ++ [set_log log e])
    end.

(** ** Expected calls *)
Inductive ExpectedCallType := Count | NonCount.
#[export] Instance ExpectedCallType_eq_dec : EqDecision ExpectedCallType.
Proof. solve_decision. Defined.
Record ExpectedCallData := mkExpectedCall {
  ec_value : option Z; ec_gas : option Z; ec_min_gas : option Z; ec_count : Z; ec_call_type : ExpectedCallType }.
Definition ExpectedCallTracker : Type := gmap Address (gmap (list byte) (ExpectedCallData * Z)).

(** [expect_call]: the calls of the target get an entry also when the call is
    refused. *)
Definition expect_call (target : Address) (calldata : list byte) (value gas min_gas : option Z) (count : Z)
    (call_type : ExpectedCallType) (calls : ExpectedCallTracker) : exec (result unit string * ExpectedCallTracker) :=
  let expecteds := default ∅ (calls !! target) in
  let entry := mkExpectedCall value gas min_gas count call_type in
  match call_type with
  | Count =>
      match expecteds !! calldata with
      | Some _ => Ret (Err "Counted expected calls can only bet set once.", <[target := expecteds]> calls)
      | None => Ret (Ok tt, <[target := <[calldata := (entry, 0)]> expecteds]> calls)
      end
  | NonCount =>
      match expecteds !! calldata with
      | Some (expected, actual) =>
          if decide (ec_call_type expected = NonCount) then
            count ← u64_add (ec_count expected) 1;
            let expected := mkExpectedCall (ec_value expected) (ec_gas expected) (ec_min_gas expected) count (ec_call_type expected) in
            Ret (Ok tt, <[target := <[calldata := (expected, actual)]> expecteds]> calls)
          else
            Ret (Err "Cannot overwrite a counted expectCall with a non-counted expectCall.", <[target := expecteds]> calls)
      | None => Ret (Ok tt, <[target := <[calldata := (entry, 0)]> expecteds]> calls)
      end
  end.

Record Transfer := mkTransfer { tr_source : Address; tr_target : Address; tr_value : Z }.
Record CallContext := mkContext { cx_address : Address; cx_caller : Address }.
Record CallInputs := mkCall {
  ci_contract : Address; ci_transfer : Transfer; ci_input : list byte; ci_gas_limit : Z; ci_context : CallContext; ci_is_static : bool }.

(** The conditions under which a call is counted. *)
Definition call_matches (calldata : list byte) (expected : ExpectedCallData) (call : CallInputs) : bool :=
  starts_with calldata (ci_input call) &&
  match ec_value expected with Some v => v =? tr_value (ci_transfer call) | None => true end &&
  match ec_gas expected with Some g => g =? ci_gas_limit call | None => true end &&
  match ec_min_gas expected with Some g => g <=? ci_gas_limit call | None => true end.
Definition count_call (call : CallInputs) (calldata : list byte) (entry : ExpectedCallData * Z) : exec (ExpectedCallData * Z) :=
  if call_matches calldata entry.1 call then n ← u64_add entry.2 1; Ret (entry.1, n) else Ret entry.
Definition count_calls (call : CallInputs) (calls : ExpectedCallTracker) : exec ExpectedCallTracker :=
  match calls !! ci_contract call with
  | None => Ret calls
  | Some expecteds =>
      expecteds ← foldM (fun m '(calldata, entry) => entry ← count_call call calldata entry; Ret (<[calldata := entry]> m))
                    expecteds (btree_iter bytes_le expecteds);
      Ret (<[ci_contract call := expecteds]> calls)
  end.

(** Whether the calls that were seen are those that were expected: the first
    entry, in order, that fails. *)
Definition call_count_ok (entry : ExpectedCallData * Z) : bool :=
  let '(expected, actual) := entry in
  match ec_call_type expected with Count => ec_count expected =? actual | NonCount => ec_count expected <=? actual end.
Definition unmet_call (calls : ExpectedCallTracker) : option (Address * list byte * (ExpectedCallData * Z)) :=
  head (filter (fun x => call_count_ok x.2 = false)
          (btree_iter Z.leb calls ≫= fun x => (fun y => (x.1, y.1, y.2)) <$> btree_iter bytes_le x.2)).

(** ** Mocked calls *)
Record MockCallDataContext := mkMock { mk_calldata : list byte; mk_value : option Z }.
#[export] Instance MockCallDataContext_eq_dec : EqDecision MockCallDataContext.
Proof. solve_decision. Defined.
#[export] Instance MockCallDataContext_countable : Countable MockCallDataContext.
Proof. apply (inj_countable' (fun m => (mk_calldata m, mk_value m)) (fun p => mkMock p.1 p.2)). by intros []. Defined.
Record MockCallReturnData := mkMockReturn { mr_ret_type : InstructionResult; mr_data : list byte }.

(** [Ord for MockCallDataContext]: longer call data come first. *)
Definition mock_cmp (a b : MockCallDataContext) : comparison :=
  match CompOpp (bytes_cmp (mk_calldata a) (mk_calldata b)) with
  | Eq => CompOpp (option_cmp (mk_value a) (mk_value b))
  | c => c
  end.
Definition mock_le (a b : MockCallDataContext) : bool := cmp_le (mock_cmp a b).
Definition MockedCalls : Type := gmap Address (gmap MockCallDataContext MockCallReturnData).
Definition mock_call (target : Address) (ctx : MockCallDataContext) (ret : MockCallReturnData) (mocks : MockedCalls) : MockedCalls :=
  <[target := <[ctx := ret]> (default ∅ (mocks !! target))]> mocks.

Definition mock_matches (call : CallInputs) (mock : MockCallDataContext) : bool :=
  starts_with (mk_calldata mock) (ci_input call) &&
  match mk_value mock with Some v => v =? tr_value (ci_transfer call) | None => true end.
Definition find_mock (call : CallInputs) (mocks : MockedCalls) : option MockCallReturnData :=
  mocks ← mocks !! ci_contract call;
  match mocks !! mkMock (ci_input call) (Some (tr_value (ci_transfer call))) with
  | Some ret => Some ret
  | None => snd <$> head (filter (fun x => mock_matches call x.1 = true) (btree_iter mock_le mocks))
  end.

(** ** Memory that may be written *)
Record Range := mkRange { rg_start : Z; rg_end : Z }.
Definition contains (r : Range) (x : Z) : bool := (rg_start r <=? x) && (x <? rg_end r).
Definition expect_safe_memory (start end_ depth : Z) (writes : gmap Z (list Range))
    : result unit string * gmap Z (list Range) :=
  if start <? end_ then
    let offsets := default [mkRange 0 0x60] (writes !! depth) in
    (Ok tt, <[depth := offsets ++ [mkRange start end_]]> writes)
  else (Err ("Invalid memory range: [" +:+ pretty start +:+ ":" +:+ pretty end_ +:+ "]"), writes).
