(* ===== verification/Mapping.v ===== *)
(** * Recorded mappings (evm/src/executor/inspector/cheatcodes/mapping.rs)

    While a test records mappings, every hash of 64 bytes is remembered as
    the place of a possible mapping entry, and every slot that is stored to
    is filed under the mapping it belongs to, and that under its own.
    [Interpreter] is what the inspectors see of revm's interpreter. *)
From S2P Require Import Prelude Transaction.
Open Scope Z_scope.

(** The gas counter of revm, and the hash. *)
Class EvmLib := {
  Gas : Type;
  gas_new : Z -> Gas;
  gas_limit_of : Gas -> Z;
  keccak256 : list byte -> Z }.

Record Interpreter `{!EvmLib} := mkInterp {
  ip_pc : nat; ip_code : list byte; ip_stack : list Z; ip_memory : list byte; ip_gas : Gas; ip_address : Address;
  ip_return_range : Z * Z }.
Arguments mkInterp {_}.
Arguments ip_pc {_}.
Arguments ip_code {_}.
Arguments ip_stack {_}.
Arguments ip_memory {_}.
Arguments ip_gas {_}.
Arguments ip_address {_}.
Arguments ip_return_range {_}.

Definition OP_SHA3 : Z := 0x20.
Definition OP_SLOAD : Z := 0x54.
Definition OP_SSTORE : Z := 0x55.

(** [U256::from(&[u8])], big-endian. *)
Definition from_be_bytes (bytes : list byte) : Z := fold_left (fun n b => n * 256 + b) bytes 0.

(** ** The slots of one contract *)
Record MappingSlots := mkSlots {
  parent_slots : gmap Z Z; ms_keys : gmap Z Z; children : gmap Z (list Z); seen_sha3 : gmap Z (Z * Z) }.
Definition slots_default : MappingSlots := mkSlots ∅ ∅ ∅ ∅.
Definition see_sha3 (result low high : Z) (m : MappingSlots) : MappingSlots :=
  mkSlots (parent_slots m) (ms_keys m) (children m) (<[result := (low, high)]> (seen_sha3 m)).

(** [insert] calls itself on the parent; the depth of the calls is bounded by
    [fuel]. *)
Fixpoint slots_insert (fuel : nat) (slot : Z) (m : MappingSlots) : exec (bool * MappingSlots) :=
  match fuel with
  | O => Panic "stack overflow"
  | S fuel =>
      match seen_sha3 m !! slot with
      | Some (key, parent) =>
          match ms_keys m !! slot with
          | Some _ => Ret (false, m)
          | None =>
              let m := mkSlots (<[slot := parent]> (parent_slots m)) (<[slot := key]> (ms_keys m))
                         (<[parent := default [] (children m !! parent) ++ [slot]]> (children m)) (seen_sha3 m) in
              '(_, m) ← slots_insert fuel parent m;
              Ret (true, m)
          end
      | None => Ret (false, m)
      end
  end.
Definition insert_fuel (m : MappingSlots) : nat := S (size (seen_sha3 m)).

Section Mapping.
Context `{!EvmLib}.

Definition current_opcode (i : Interpreter) : exec Z := expect (ip_code i !! ip_pc i) "index out of bounds".
(** [Memory::get_slice] *)
Definition get_slice (i : Interpreter) (offset size : nat) : exec (list byte) :=
  if decide (offset + size <= length (ip_memory i))%nat then Ret (take size (drop offset (ip_memory i)))
  else Panic "slice OOB".
Definition as_usize (x : Z) : exec nat := if decide (x <= U64_MAX) then Ret (Z.to_nat x) else Panic "Overflow".

Definition on_sha3 (i : Interpreter) (slots : gmap Address MappingSlots) : exec (gmap Address MappingSlots) :=
  if decide (ip_stack i !! 1%nat = Some 0x40) then
    top ← expect (ip_stack i !! 0%nat) "stack size > 1";
    offset ← as_usize top;
    low ← get_slice i offset 32;
    high ← get_slice i (offset + 32) 32;
    all ← get_slice i offset 64;
    Ret (<[ip_address i := see_sha3 (keccak256 all) (from_be_bytes low) (from_be_bytes high)
                             (default slots_default (slots !! ip_address i))]> slots)
  else Ret slots.
Definition on_sstore (i : Interpreter) (slots : gmap Address MappingSlots) : exec (gmap Address MappingSlots) :=
  match slots !! ip_address i, ip_stack i !! 0%nat with
  | Some m, Some slot =>
      '(_, m) ← slots_insert (insert_fuel m) slot m;
      Ret (<[ip_address i := m]> slots)
  | _, _ => Ret slots
  end.
Definition on_evm_step (i : Interpreter) (slots : gmap Address MappingSlots) : exec (gmap Address MappingSlots) :=
  op ← current_opcode i;
  if decide (op = OP_SHA3) then on_sha3 i slots
  else if decide (op = OP_SSTORE) then on_sstore i slots
  else Ret slots.
End Mapping.

(** ** Queries *)
Definition get_mapping_length (slots : option (gmap Address MappingSlots)) (address : Address) (slot : Z) : Z :=
  match slots ≫= (.!! address) with
  | Some m => Z.of_nat (length (default [] (children m !! slot)))
  | None => 0
  end.
Definition get_mapping_slot_at (slots : option (gmap Address MappingSlots)) (address : Address) (slot index : Z) : exec Z :=
  match slots ≫= (.!! address) with
  | Some m =>
      match children m !! slot with
      | Some set => i ← as_usize index; Ret (default 0 (set !! i))
      | None => Ret 0
      end
  | None => Ret 0
  end.
Definition get_mapping_key_and_parent (slots : option (gmap Address MappingSlots)) (address : Address) (slot : Z)
    : exec (bool * Z * Z) :=
  match slots ≫= (.!! address) with
  | Some m =>
      match ms_keys m !! slot with
      | Some key => parent ← expect (parent_slots m !! slot) "no entry found for key"; Ret (true, key, parent)
      | None =>
          match seen_sha3 m !! slot with
          | Some (key, parent) => Ret (true, key, parent)
          | None => Ret (false, 0, 0)
          end
      end
  | None => Ret (false, 0, 0)
  end.

(** ** The filing is consistent *)
Record slots_wf (m : MappingSlots) : Prop := {
  sw_dom slot : is_Some (ms_keys m !! slot) <-> is_Some (parent_slots m !! slot);
  sw_seen slot : is_Some (ms_keys m !! slot) -> is_Some (seen_sha3 m !! slot);
  sw_children parent : NoDup (default [] (children m !! parent));
  sw_child parent slot : slot ∈ default [] (children m !! parent) <-> parent_slots m !! slot = Some parent }.

Lemma slots_default_wf : slots_wf slots_default.
Proof.
  split; cbn; intros; rewrite ?lookup_empty; cbn; try done; [|constructor|by rewrite elem_of_nil].
  match goal with H : is_Some _ |- _ => by destruct H end.
Qed.
Lemma see_sha3_wf r low high m : slots_wf m -> slots_wf (see_sha3 r low high m).
Proof.
  intros [W1 W2 W3 W4]. split; cbn; try done. intros slot Hs. destruct (decide (slot = r)) as [->|Hne].
  - rewrite lookup_insert_eq. by eexists.
  - rewrite lookup_insert_ne by done. by apply W2.
Qed.

(** The entry that [insert] adds. *)
Definition file_slot (slot key parent : Z) (m : MappingSlots) : MappingSlots :=
  mkSlots (<[slot := parent]> (parent_slots m)) (<[slot := key]> (ms_keys m))
    (<[parent := default [] (children m !! parent) ++ [slot]]> (children m)) (seen_sha3 m).
Lemma file_slot_wf slot key parent m :
  slots_wf m -> seen_sha3 m !! slot = Some (key, parent) -> ms_keys m !! slot = None -> slots_wf (file_slot slot key parent m).
Proof.
  intros [W1 W2 W3 W4] Hseen Hnone.
  assert (parent_slots m !! slot = None) as Hp.
  { apply eq_None_not_Some. rewrite <- W1. rewrite Hnone. by intros [? ?]. }
  split; cbn.
  - intros s. destruct (decide (s = slot)) as [->|]; [rewrite !lookup_insert_eq; by split; eexists|]. rewrite !lookup_insert_ne by done. apply W1.
  - intros s. destruct (decide (s = slot)) as [->|]; [rewrite Hseen; by eexists|]. rewrite lookup_insert_ne by done. apply W2.
  - intros p. destruct (decide (p = parent)) as [->|]; [|rewrite lookup_insert_ne by done; apply W3].
    rewrite lookup_insert_eq. cbn. apply NoDup_app. split_and!; [apply W3| |apply NoDup_singleton].
    intros x Hx ->%list_elem_of_singleton. apply W4 in Hx. congruence.
  - intros p s. destruct (decide (p = parent)) as [->|Hpp].
    + rewrite lookup_insert_eq. cbn. rewrite elem_of_app, list_elem_of_singleton, W4.
      destruct (decide (s = slot)) as [->|]; [rewrite lookup_insert_eq; naive_solver|]. rewrite lookup_insert_ne by done. naive_solver.
    + rewrite lookup_insert_ne by done. rewrite W4. destruct (decide (s = slot)) as [->|].
      * rewrite lookup_insert_eq, Hp. naive_solver.
      * by rewrite lookup_insert_ne.
Qed.

(** How many hashes are not filed yet: it falls with every call. *)
Definition unfiled (m : MappingSlots) : nat := size (dom (seen_sha3 m) ∖ dom (ms_keys m)).
Lemma file_slot_unfiled slot key parent m :
  seen_sha3 m !! slot = Some (key, parent) -> ms_keys m !! slot = None -> (unfiled (file_slot slot key parent m) < unfiled m)%nat.
Proof.
  intros Hs Hk. unfold unfiled, file_slot. cbn. apply subset_size. rewrite dom_insert.
  apply elem_of_dom_2 in Hs. apply not_elem_of_dom in Hk. set_solver.
Qed.

(** The slots on the way up from [slot]. *)
Inductive above (m : MappingSlots) : Z -> Z -> Prop :=
| above_self slot : above m slot slot
| above_parent slot key parent top : seen_sha3 m !! slot = Some (key, parent) -> above m parent top -> above m slot top.

(** [insert] files the slot and everything above it, and nothing else. *)
Lemma slots_insert_spec fuel : forall slot m,
  slots_wf m -> (unfiled m < fuel)%nat ->
  exists r m', slots_insert fuel slot m = Ret (r, m') /\ slots_wf m' /\ seen_sha3 m' = seen_sha3 m /\ ms_keys m ⊆ ms_keys m' /\
    (is_Some (seen_sha3 m !! slot) -> is_Some (ms_keys m' !! slot)) /\
    (forall s, is_Some (ms_keys m' !! s) -> is_Some (ms_keys m !! s) \/ above m slot s).
Proof.
  induction fuel as [|fuel IH]; intros slot m W Hf; [lia|]. cbn [slots_insert].
  destruct (seen_sha3 m !! slot) as [[key parent]|] eqn:Hs; [|eexists _, _; split; [done|]; split_and!; try done; by left].
  destruct (ms_keys m !! slot) as [k|] eqn:Hk; [eexists _, _; split; [done|]; split_and!; try done; by left|].
  change (mkSlots _ _ _ _) with (file_slot slot key parent m).
  pose proof (file_slot_unfiled _ _ _ _ Hs Hk) as Hlt.
  destruct (IH parent (file_slot slot key parent m) (file_slot_wf _ _ _ _ W Hs Hk) ltac:(lia)) as (r & m' & -> & W' & Hseen & Hsub & _ & Hup).
  cbn. exists true, m'. assert (ms_keys m ⊆ ms_keys (file_slot slot key parent m)) as Hsub0 by (by apply insert_subseteq).
  split_and!; try done.
  - by etrans.
  - intros _. eexists. eapply lookup_weaken; [|done]. cbn. by rewrite lookup_insert_eq.
  - assert (forall x y, above (file_slot slot key parent m) x y -> above m x y) as Hab.
    { induction 1 as [x|x k p t Hx _ IHa]; [constructor|]. by eapply above_parent. }
    intros s Hs'. destruct (Hup s Hs') as [Hold|Hnew].
    + cbn in Hold. destruct (decide (s = slot)) as [->|]; [right; constructor|]. rewrite lookup_insert_ne in Hold by done. by left.
    + right. eapply above_parent; [done|by apply Hab].
Qed.
Lemma slots_insert_returns slot m :
  slots_wf m -> exists r m', slots_insert (insert_fuel m) slot m = Ret (r, m') /\ slots_wf m'.
Proof.
  intros W. destruct (slots_insert_spec (insert_fuel m) slot m W) as (r & m' & H & W' & _); [|by exists r, m'].
  unfold insert_fuel, unfiled. rewrite <- size_dom. apply Nat.lt_succ_r, subseteq_size. set_solver.
Qed.

Section Steps.
Context `{!EvmLib}.

(** What the interpreter guarantees before it runs an instruction: there is
    one, and memory that is hashed is there. *)
Record interp_ok (i : Interpreter) : Prop := {
  io_code : is_Some (ip_code i !! ip_pc i);
  io_memory top : ip_code i !! ip_pc i = Some OP_SHA3 -> ip_stack i !! 0%nat = Some top -> ip_stack i !! 1%nat = Some 0x40 ->
    0 <= top <= U64_MAX /\ (Z.to_nat top + 64 <= length (ip_memory i))%nat }.
Definition all_wf (slots : gmap Address MappingSlots) : Prop := map_Forall (fun _ m => slots_wf m) slots.

Lemma on_evm_step_wf i slots : interp_ok i -> all_wf slots -> exists slots', on_evm_step i slots = Ret slots' /\ all_wf slots'.
Proof.
  intros [[op Hop] Hmem] W. unfold on_evm_step, current_opcode. rewrite Hop. cbn [expect mbind exec_bind].
  case_decide as Hs; [subst op|case_decide; [subst op|by exists slots]].
  - unfold on_sha3. case_decide as H1; [|by exists slots].
    destruct (ip_stack i !! 0%nat) as [top|] eqn:H0; [|by destruct (ip_stack i) as [|? [|? ?]]].
    destruct (Hmem top Hop eq_refl H1) as [Hr Hlen]. cbn [expect mbind exec_bind]. unfold as_usize. rewrite decide_True by lia. cbn [mbind exec_bind].
    unfold get_slice. rewrite !decide_True by lia. cbn. eexists. split; [done|]. apply map_Forall_insert_2; [|done].
    apply see_sha3_wf. destruct (slots !! ip_address i) eqn:E; cbn; [by apply (W _ _ E)|apply slots_default_wf].
  - unfold on_sstore. destruct (slots !! ip_address i) as [m|] eqn:E; [|by exists slots].
    destruct (ip_stack i !! 0%nat) as [slot|]; [|by exists slots].
    destruct (slots_insert_returns slot m (W _ _ E)) as (r & m' & -> & W'). cbn. eexists. split; [done|]. by apply map_Forall_insert_2.
Qed.

(** Recording the mappings of contracts does not panic or run on, however
    the hashes refer to each other, and the record is consistent: the
    entries listed for a mapping are exactly the slots that are filed under
    it, each once, and each is reported with that mapping as its parent. *)
Theorem mapping_record_consistent steps :
  Forall interp_ok steps ->
  exists slots, foldM (fun s i => on_evm_step i s) ∅ steps = Ret slots /\
    forall a p m, slots !! a = Some m ->
      (exists listed, NoDup listed /\ (forall slot, slot ∈ listed <-> parent_slots m !! slot = Some p) /\
        get_mapping_length (Some slots) a p = Z.of_nat (length listed) /\
        (forall i slot, listed !! i = Some slot -> Z.of_nat i <= U64_MAX ->
           get_mapping_slot_at (Some slots) a p (Z.of_nat i) = Ret slot /\
           exists key, get_mapping_key_and_parent (Some slots) a slot = Ret (true, key, p))).
Proof.
  intros Hok. assert (exists slots, foldM (fun s i => on_evm_step i s) ∅ steps = Ret slots /\ all_wf slots) as (slots & Hrun & W).
  { assert (all_wf (∅ : gmap Address MappingSlots)) as W0 by apply map_Forall_empty. revert W0. generalize (∅ : gmap Address MappingSlots).
    induction Hok as [|i l Hi _ IH]; intros s W; [by exists s|]. cbn.
    destruct (on_evm_step_wf i s Hi W) as (s' & -> & W'). cbn. by apply IH. }
  exists slots. split; [done|]. intros a p m Hm. destruct (W _ _ Hm) as [W1 W2 W3 W4].
  exists (default [] (children m !! p)). split_and!; [done|done| |].
  - unfold get_mapping_length. cbn. by rewrite Hm.
  - intros i slot Hi Hle. unfold get_mapping_slot_at, get_mapping_key_and_parent. cbn. rewrite Hm.
    pose proof (list_elem_of_lookup_2 _ _ _ Hi) as Hin. apply W4 in Hin.
    destruct (children m !! p) as [l|]; [|done]. unfold as_usize. rewrite decide_True by done. cbn in *. rewrite Nat2Z.id, Hi. split; [done|].
    destruct (ms_keys m !! slot) as [key|] eqn:Hk.
    + rewrite Hin. cbn. by exists key.
    + exfalso. assert (is_Some (ms_keys m !! slot)) as [? ?] by (rewrite W1, Hin; by eexists). congruence.
Qed.
End Steps.
