(* ===== verification/Cheatcodes.v ===== *)
(** * Cheatcodes (evm/src/executor/inspector/cheatcodes)

    Test contracts steer the machine by calls to the cheatcode address.  This
    file has the state of the inspector that answers them and what each of
    them does: [env_apply] is env.rs, [util_apply] util.rs, [expect_apply]
    expect.rs, [fuzz_apply] fuzz.rs, [snapshot_apply] snapshot.rs and
    [fork_apply] fork.rs.  The hooks that revm calls are in [CheatHooks]. *)
From Stdlib Require Import Ascii.
From stdpp Require Import pretty.
From S2P Require Import Prelude Transaction Hardfork Block Snapshots Db Validator Executor MultiFork ForkBackend Expect Mapping.
Open Scope Z_scope.

(** ** State *)
Record Broadcast := mkBroadcast {
  bc_new_origin : Address; bc_original_caller : Address; bc_original_origin : Address; bc_depth : Z; bc_single_call : bool }.
Record Prank := mkPrank {
  pk_prank_caller : Address; pk_prank_origin : Address; pk_new_caller : Address; pk_new_origin : option Address; pk_depth : Z;
  pk_single_call : bool; pk_used : bool }.
Definition prank_new (prank_caller prank_origin new_caller : Address) (new_origin : option Address) (depth : Z) (single_call : bool) : Prank :=
  mkPrank prank_caller prank_origin new_caller new_origin depth single_call false.
Definition first_time_applied (p : Prank) : option Prank :=
  if pk_used p then None
  else Some (mkPrank (pk_prank_caller p) (pk_prank_origin p) (pk_new_caller p) (pk_new_origin p) (pk_depth p) (pk_single_call p) true).
Record RecordAccess := mkAccess { ra_reads : gmap Address (list Z); ra_writes : gmap Address (list Z) }.
Record DealRecord := mkDeal { dl_address : Address; dl_old_balance : Z; dl_new_balance : Z }.
Record BroadcastableTransaction := mkBroadcastable {
  bt_rpc : option string; bt_from : Address; bt_to : option Address; bt_value : Z; bt_data : list byte; bt_nonce : Z; bt_gas : option Z }.

Section CheatState.
Context `{!EvmLib}.
Record Cheatcodes := mkCheats {
  c_block : option BlockEnv.t;
  c_gas_price : option Z;
  c_labels : gmap Address string;
  c_script_wallets : list (Address * Z);
  c_skip : bool;
  c_prank : option Prank;
  c_expected_revert : option ExpectedRevert;
  c_fork_revert_diagnostic : option RevertDiagnostic;
  c_accesses : option RecordAccess;
  c_recorded_logs : option (list (Address * RawLog));
  c_mocked_calls : MockedCalls;
  c_expected_calls : ExpectedCallTracker;
  c_expected_emits : list ExpectedEmit;
  c_allowed_mem_writes : gmap Z (list Range);
  c_broadcast : option Broadcast;
  c_corrected_nonce : bool;
  c_broadcastable_transactions : list BroadcastableTransaction;
  c_eth_deals : list DealRecord;
  c_gas_metering : option (option Gas);
  c_gas_metering_create : option (option Gas);
  c_mapping_slots : option (gmap Address MappingSlots);
  c_pc : nat;
  c_breakpoints : gmap ascii (Address * nat) }.

(** [..s] with one field changed. *)
Definition with_block (x : option BlockEnv.t) (s : Cheatcodes) : Cheatcodes :=
  mkCheats x (c_gas_price s) (c_labels s) (c_script_wallets s) (c_skip s) (c_prank s) (c_expected_revert s)
    (c_fork_revert_diagnostic s) (c_accesses s) (c_recorded_logs s) (c_mocked_calls s) (c_expected_calls s)
    (c_expected_emits s) (c_allowed_mem_writes s) (c_broadcast s) (c_corrected_nonce s)
    (c_broadcastable_transactions s) (c_eth_deals s) (c_gas_metering s) (c_gas_metering_create s) (c_mapping_slots
    s) (c_pc s) (c_breakpoints s).
Definition with_gas_price (x : option Z) (s : Cheatcodes) : Cheatcodes :=
  mkCheats (c_block s) x (c_labels s) (c_script_wallets s) (c_skip s) (c_prank s) (c_expected_revert s)
    (c_fork_revert_diagnostic s) (c_accesses s) (c_recorded_logs s) (c_mocked_calls s) (c_expected_calls s)
    (c_expected_emits s) (c_allowed_mem_writes s) (c_broadcast s) (c_corrected_nonce s)
    (c_broadcastable_transactions s) (c_eth_deals s) (c_gas_metering s) (c_gas_metering_create s) (c_mapping_slots
    s) (c_pc s) (c_breakpoints s).
Definition with_labels (x : gmap Address string) (s : Cheatcodes) : Cheatcodes :=
  mkCheats (c_block s) (c_gas_price s) x (c_script_wallets s) (c_skip s) (c_prank s) (c_expected_revert s)
    (c_fork_revert_diagnostic s) (c_accesses s) (c_recorded_logs s) (c_mocked_calls s) (c_expected_calls s)
    (c_expected_emits s) (c_allowed_mem_writes s) (c_broadcast s) (c_corrected_nonce s)
    (c_broadcastable_transactions s) (c_eth_deals s) (c_gas_metering s) (c_gas_metering_create s) (c_mapping_slots
    s) (c_pc s) (c_breakpoints s).
Definition with_script_wallets (x : list (Address * Z)) (s : Cheatcodes) : Cheatcodes :=
  mkCheats (c_block s) (c_gas_price s) (c_labels s) x (c_skip s) (c_prank s) (c_expected_revert s)
    (c_fork_revert_diagnostic s) (c_accesses s) (c_recorded_logs s) (c_mocked_calls s) (c_expected_calls s)
    (c_expected_emits s) (c_allowed_mem_writes s) (c_broadcast s) (c_corrected_nonce s)
    (c_broadcastable_transactions s) (c_eth_deals s) (c_gas_metering s) (c_gas_metering_create s) (c_mapping_slots
    s) (c_pc s) (c_breakpoints s).
Definition with_skip (x : bool) (s : Cheatcodes) : Cheatcodes :=
  mkCheats (c_block s) (c_gas_price s) (c_labels s) (c_script_wallets s) x (c_prank s) (c_expected_revert s)
    (c_fork_revert_diagnostic s) (c_accesses s) (c_recorded_logs s) (c_mocked_calls s) (c_expected_calls s)
    (c_expected_emits s) (c_allowed_mem_writes s) (c_broadcast s) (c_corrected_nonce s)
    (c_broadcastable_transactions s) (c_eth_deals s) (c_gas_metering s) (c_gas_metering_create s) (c_mapping_slots
    s) (c_pc s) (c_breakpoints s).
Definition with_prank (x : option Prank) (s : Cheatcodes) : Cheatcodes :=
  mkCheats (c_block s) (c_gas_price s) (c_labels s) (c_script_wallets s) (c_skip s) x (c_expected_revert s)
    (c_fork_revert_diagnostic s) (c_accesses s) (c_recorded_logs s) (c_mocked_calls s) (c_expected_calls s)
    (c_expected_emits s) (c_allowed_mem_writes s) (c_broadcast s) (c_corrected_nonce s)
    (c_broadcastable_transactions s) (c_eth_deals s) (c_gas_metering s) (c_gas_metering_create s) (c_mapping_slots
    s) (c_pc s) (c_breakpoints s).
Definition with_expected_revert (x : option ExpectedRevert) (s : Cheatcodes) : Cheatcodes :=
  mkCheats (c_block s) (c_gas_price s) (c_labels s) (c_script_wallets s) (c_skip s) (c_prank s) x
    (c_fork_revert_diagnostic s) (c_accesses s) (c_recorded_logs s) (c_mocked_calls s) (c_expected_calls s)
    (c_expected_emits s) (c_allowed_mem_writes s) (c_broadcast s) (c_corrected_nonce s)
    (c_broadcastable_transactions s) (c_eth_deals s) (c_gas_metering s) (c_gas_metering_create s) (c_mapping_slots
    s) (c_pc s) (c_breakpoints s).
Definition with_fork_revert_diagnostic (x : option RevertDiagnostic) (s : Cheatcodes) : Cheatcodes :=
  mkCheats (c_block s) (c_gas_price s) (c_labels s) (c_script_wallets s) (c_skip s) (c_prank s)
    (c_expected_revert s) x (c_accesses s) (c_recorded_logs s) (c_mocked_calls s) (c_expected_calls s)
    (c_expected_emits s) (c_allowed_mem_writes s) (c_broadcast s) (c_corrected_nonce s)
    (c_broadcastable_transactions s) (c_eth_deals s) (c_gas_metering s) (c_gas_metering_create s) (c_mapping_slots
    s) (c_pc s) (c_breakpoints s).
Definition with_accesses (x : option RecordAccess) (s : Cheatcodes) : Cheatcodes :=
  mkCheats (c_block s) (c_gas_price s) (c_labels s) (c_script_wallets s) (c_skip s) (c_prank s)
    (c_expected_revert s) (c_fork_revert_diagnostic s) x (c_recorded_logs s) (c_mocked_calls s) (c_expected_calls
    s) (c_expected_emits s) (c_allowed_mem_writes s) (c_broadcast s) (c_corrected_nonce s)
    (c_broadcastable_transactions s) (c_eth_deals s) (c_gas_metering s) (c_gas_metering_create s) (c_mapping_slots
    s) (c_pc s) (c_breakpoints s).
Definition with_recorded_logs (x : option (list (Address * RawLog))) (s : Cheatcodes) : Cheatcodes :=
  mkCheats (c_block s) (c_gas_price s) (c_labels s) (c_script_wallets s) (c_skip s) (c_prank s)
    (c_expected_revert s) (c_fork_revert_diagnostic s) (c_accesses s) x (c_mocked_calls s) (c_expected_calls s)
    (c_expected_emits s) (c_allowed_mem_writes s) (c_broadcast s) (c_corrected_nonce s)
    (c_broadcastable_transactions s) (c_eth_deals s) (c_gas_metering s) (c_gas_metering_create s) (c_mapping_slots
    s) (c_pc s) (c_breakpoints s).
Definition with_mocked_calls (x : MockedCalls) (s : Cheatcodes) : Cheatcodes :=
  mkCheats (c_block s) (c_gas_price s) (c_labels s) (c_script_wallets s) (c_skip s) (c_prank s)
    (c_expected_revert s) (c_fork_revert_diagnostic s) (c_accesses s) (c_recorded_logs s) x (c_expected_calls s)
    (c_expected_emits s) (c_allowed_mem_writes s) (c_broadcast s) (c_corrected_nonce s)
    (c_broadcastable_transactions s) (c_eth_deals s) (c_gas_metering s) (c_gas_metering_create s) (c_mapping_slots
    s) (c_pc s) (c_breakpoints s).
Definition with_expected_calls (x : ExpectedCallTracker) (s : Cheatcodes) : Cheatcodes :=
  mkCheats (c_block s) (c_gas_price s) (c_labels s) (c_script_wallets s) (c_skip s) (c_prank s)
    (c_expected_revert s) (c_fork_revert_diagnostic s) (c_accesses s) (c_recorded_logs s) (c_mocked_calls s) x
    (c_expected_emits s) (c_allowed_mem_writes s) (c_broadcast s) (c_corrected_nonce s)
    (c_broadcastable_transactions s) (c_eth_deals s) (c_gas_metering s) (c_gas_metering_create s) (c_mapping_slots
    s) (c_pc s) (c_breakpoints s).
Definition with_expected_emits (x : list ExpectedEmit) (s : Cheatcodes) : Cheatcodes :=
  mkCheats (c_block s) (c_gas_price s) (c_labels s) (c_script_wallets s) (c_skip s) (c_prank s)
    (c_expected_revert s) (c_fork_revert_diagnostic s) (c_accesses s) (c_recorded_logs s) (c_mocked_calls s)
    (c_expected_calls s) x (c_allowed_mem_writes s) (c_broadcast s) (c_corrected_nonce s)
    (c_broadcastable_transactions s) (c_eth_deals s) (c_gas_metering s) (c_gas_metering_create s) (c_mapping_slots
    s) (c_pc s) (c_breakpoints s).
Definition with_allowed_mem_writes (x : gmap Z (list Range)) (s : Cheatcodes) : Cheatcodes :=
  mkCheats (c_block s) (c_gas_price s) (c_labels s) (c_script_wallets s) (c_skip s) (c_prank s)
    (c_expected_revert s) (c_fork_revert_diagnostic s) (c_accesses s) (c_recorded_logs s) (c_mocked_calls s)
    (c_expected_calls s) (c_expected_emits s) x (c_broadcast s) (c_corrected_nonce s)
    (c_broadcastable_transactions s) (c_eth_deals s) (c_gas_metering s) (c_gas_metering_create s) (c_mapping_slots
    s) (c_pc s) (c_breakpoints s).
Definition with_broadcast (x : option Broadcast) (s : Cheatcodes) : Cheatcodes :=
  mkCheats (c_block s) (c_gas_price s) (c_labels s) (c_script_wallets s) (c_skip s) (c_prank s)
    (c_expected_revert s) (c_fork_revert_diagnostic s) (c_accesses s) (c_recorded_logs s) (c_mocked_calls s)
    (c_expected_calls s) (c_expected_emits s) (c_allowed_mem_writes s) x (c_corrected_nonce s)
    (c_broadcastable_transactions s) (c_eth_deals s) (c_gas_metering s) (c_gas_metering_create s) (c_mapping_slots
    s) (c_pc s) (c_breakpoints s).
Definition with_corrected_nonce (x : bool) (s : Cheatcodes) : Cheatcodes :=
  mkCheats (c_block s) (c_gas_price s) (c_labels s) (c_script_wallets s) (c_skip s) (c_prank s)
    (c_expected_revert s) (c_fork_revert_diagnostic s) (c_accesses s) (c_recorded_logs s) (c_mocked_calls s)
    (c_expected_calls s) (c_expected_emits s) (c_allowed_mem_writes s) (c_broadcast s) x
    (c_broadcastable_transactions s) (c_eth_deals s) (c_gas_metering s) (c_gas_metering_create s) (c_mapping_slots
    s) (c_pc s) (c_breakpoints s).
Definition with_broadcastable_transactions (x : list BroadcastableTransaction) (s : Cheatcodes) : Cheatcodes :=
  mkCheats (c_block s) (c_gas_price s) (c_labels s) (c_script_wallets s) (c_skip s) (c_prank s)
    (c_expected_revert s) (c_fork_revert_diagnostic s) (c_accesses s) (c_recorded_logs s) (c_mocked_calls s)
    (c_expected_calls s) (c_expected_emits s) (c_allowed_mem_writes s) (c_broadcast s) (c_corrected_nonce s) x
    (c_eth_deals s) (c_gas_metering s) (c_gas_metering_create s) (c_mapping_slots s) (c_pc s) (c_breakpoints s).
Definition with_eth_deals (x : list DealRecord) (s : Cheatcodes) : Cheatcodes :=
  mkCheats (c_block s) (c_gas_price s) (c_labels s) (c_script_wallets s) (c_skip s) (c_prank s)
    (c_expected_revert s) (c_fork_revert_diagnostic s) (c_accesses s) (c_recorded_logs s) (c_mocked_calls s)
    (c_expected_calls s) (c_expected_emits s) (c_allowed_mem_writes s) (c_broadcast s) (c_corrected_nonce s)
    (c_broadcastable_transactions s) x (c_gas_metering s) (c_gas_metering_create s) (c_mapping_slots s) (c_pc s)
    (c_breakpoints s).
Definition with_gas_metering (x : option (option Gas)) (s : Cheatcodes) : Cheatcodes :=
  mkCheats (c_block s) (c_gas_price s) (c_labels s) (c_script_wallets s) (c_skip s) (c_prank s)
    (c_expected_revert s) (c_fork_revert_diagnostic s) (c_accesses s) (c_recorded_logs s) (c_mocked_calls s)
    (c_expected_calls s) (c_expected_emits s) (c_allowed_mem_writes s) (c_broadcast s) (c_corrected_nonce s)
    (c_broadcastable_transactions s) (c_eth_deals s) x (c_gas_metering_create s) (c_mapping_slots s) (c_pc s)
    (c_breakpoints s).
Definition with_gas_metering_create (x : option (option Gas)) (s : Cheatcodes) : Cheatcodes :=
  mkCheats (c_block s) (c_gas_price s) (c_labels s) (c_script_wallets s) (c_skip s) (c_prank s)
    (c_expected_revert s) (c_fork_revert_diagnostic s) (c_accesses s) (c_recorded_logs s) (c_mocked_calls s)
    (c_expected_calls s) (c_expected_emits s) (c_allowed_mem_writes s) (c_broadcast s) (c_corrected_nonce s)
    (c_broadcastable_transactions s) (c_eth_deals s) (c_gas_metering s) x (c_mapping_slots s) (c_pc s)
    (c_breakpoints s).
Definition with_mapping_slots (x : option (gmap Address MappingSlots)) (s : Cheatcodes) : Cheatcodes :=
  mkCheats (c_block s) (c_gas_price s) (c_labels s) (c_script_wallets s) (c_skip s) (c_prank s)
    (c_expected_revert s) (c_fork_revert_diagnostic s) (c_accesses s) (c_recorded_logs s) (c_mocked_calls s)
    (c_expected_calls s) (c_expected_emits s) (c_allowed_mem_writes s) (c_broadcast s) (c_corrected_nonce s)
    (c_broadcastable_transactions s) (c_eth_deals s) (c_gas_metering s) (c_gas_metering_create s) x (c_pc s)
    (c_breakpoints s).
Definition with_pc (x : nat) (s : Cheatcodes) : Cheatcodes :=
  mkCheats (c_block s) (c_gas_price s) (c_labels s) (c_script_wallets s) (c_skip s) (c_prank s)
    (c_expected_revert s) (c_fork_revert_diagnostic s) (c_accesses s) (c_recorded_logs s) (c_mocked_calls s)
    (c_expected_calls s) (c_expected_emits s) (c_allowed_mem_writes s) (c_broadcast s) (c_corrected_nonce s)
    (c_broadcastable_transactions s) (c_eth_deals s) (c_gas_metering s) (c_gas_metering_create s) (c_mapping_slots
    s) x (c_breakpoints s).
Definition with_breakpoints (x : gmap ascii (Address * nat)) (s : Cheatcodes) : Cheatcodes :=
  mkCheats (c_block s) (c_gas_price s) (c_labels s) (c_script_wallets s) (c_skip s) (c_prank s)
    (c_expected_revert s) (c_fork_revert_diagnostic s) (c_accesses s) (c_recorded_logs s) (c_mocked_calls s)
    (c_expected_calls s) (c_expected_emits s) (c_allowed_mem_writes s) (c_broadcast s) (c_corrected_nonce s)
    (c_broadcastable_transactions s) (c_eth_deals s) (c_gas_metering s) (c_gas_metering_create s) (c_mapping_slots
    s) (c_pc s) x.

Definition cheatcodes_new (block : BlockEnv.t) (gas_price : Z) : Cheatcodes :=
  mkCheats (Some block) (Some gas_price) ∅ [] false None None None None None ∅ ∅ [] ∅ None false [] [] None None None 0%nat ∅.
End CheatState.

(** ** The calls *)

(** [HEVMCalls], the decoded calls to the cheatcode address.  [PureCall] are
    those that only compute (keys, signatures, strings), [OtherCall] those
    that reach outside (files, processes, environment variables, JSON). *)
Inductive HevmCall {PureCall OtherCall : Type} :=
| Warp (n : Z) | Difficulty (n : Z) | Prevrandao (h : H256) | Roll (n : Z) | Fee (n : Z) | Coinbase (a : Address)
| Store (a : Address) (slot value : Z) | Load (a : Address) (slot : Z)
| Breakpoint0 (name : string) | Breakpoint1 (name : string) (add : bool)
| Etch (a : Address) (code : list byte) | Deal (who : Address) (value : Z)
| Prank0 (a : Address) | Prank1 (a origin : Address) | StartPrank0 (a : Address) | StartPrank1 (a origin : Address) | StopPrank
| ReadCallers | RecordAccesses | Accesses (a : Address) | RecordLogs | GetRecordedLogs
| SetNonce (a : Address) (n : Z) | SetNonceUnsafe (a : Address) (n : Z) | ResetNonce (a : Address) | GetNonce (a : Address)
| ChainId (n : Z) | TxGasPrice (n : Z)
| Broadcast0 | Broadcast1 (a : Address) | Broadcast2 (key : Z)
| StartBroadcast0 | StartBroadcast1 (a : Address) | StartBroadcast2 (key : Z) | StopBroadcast
| PauseGasMetering | ResumeGasMetering
| StartMappingRecording | StopMappingRecording
| GetMappingLength (a : Address) (slot : Z) | GetMappingSlotAt (a : Address) (slot index : Z) | GetMappingKeyAndParentOf (a : Address) (slot : Z)
| RememberKey (key : Z) | Label (a : Address) (label : string) | GetLabel (a : Address) | Skip (skip : bool) | Pure (call : PureCall)
| ExpectRevert0 | ExpectRevert1 (reason : list byte) | ExpectRevert2 (reason : list byte)
| ExpectEmit0 | ExpectEmit1 (a : Address) | ExpectEmit2 (c1 c2 c3 c4 : bool) | ExpectEmit3 (c1 c2 c3 c4 : bool) (a : Address)
| ExpectCall0 (a : Address) (data : list byte) | ExpectCall1 (a : Address) (data : list byte) (count : Z)
| ExpectCall2 (a : Address) (value : Z) (data : list byte) | ExpectCall3 (a : Address) (value : Z) (data : list byte) (count : Z)
| ExpectCall4 (a : Address) (value gas : Z) (data : list byte) | ExpectCall5 (a : Address) (value gas : Z) (data : list byte) (count : Z)
| ExpectCallMinGas0 (a : Address) (value gas : Z) (data : list byte)
| ExpectCallMinGas1 (a : Address) (value gas : Z) (data : list byte) (count : Z)
| MockCall0 (a : Address) (data ret : list byte) | MockCall1 (a : Address) (value : Z) (data ret : list byte)
| MockCallRevert0 (a : Address) (data ret : list byte) | MockCallRevert1 (a : Address) (value : Z) (data ret : list byte)
| ClearMockedCalls
| ExpectSafeMemory (start end_ : Z) | ExpectSafeMemoryCall (start end_ : Z)
| Assume (condition : bool)
| Snapshot | RevertTo (id : Z)
| CreateFork0 (url : string) | CreateFork1 (url : string) (block : Z) | CreateFork2 (url : string) (tx : H256)
| CreateSelectFork0 (url : string) | CreateSelectFork1 (url : string) (block : Z) | CreateSelectFork2 (url : string) (tx : H256)
| SelectFork (id : Z)
| MakePersistent0 (a : Address) | MakePersistent1 (accounts : list Address) | MakePersistent2 (a b : Address) | MakePersistent3 (a b c : Address)
| IsPersistent (a : Address) | RevokePersistent0 (a : Address) | RevokePersistent1 (accounts : list Address)
| ActiveFork | RollFork0 (block : Z) | RollFork1 (tx : H256) | RollFork2 (id block : Z) | RollFork3 (id : Z) (tx : H256)
| AllowCheatcodes (a : Address) | Transact0 (tx : H256) | Transact1 (id : Z) (tx : H256)
| Other (call : OtherCall).
Arguments HevmCall : clear implicits.

(** [ethers::abi::Token] *)
Inductive Token :=
| TUint (z : Z) | TAddress (a : Address) | TBool (b : bool) | TString (s : string) | TBytes (b : list byte) | TFixed (h : H256)
| TArray (l : list Token) | TTuple (l : list Token).

Inductive CheatError `{!RevmData} :=
| Custom (message : string)
| CustomBytes (bytes : list byte)
| DecodeError (message : string)
| NoCheatcodeAccess (a : Address)
| SelectForkDuringBroadcast
| FromBackend (e : ForkError).

(** revm's journaled state over a backend, the ABI, wallets, and the messages
    of errors. *)
Class CheatLib `{!RevmData} `{!ForkNet} `{!Revm} `{!EvmLib} `{!Abi} := {
  PureCall : Type;
  OtherCall : Type;
  decode_call : list byte -> result (HevmCall PureCall OtherCall) string;
  pure_result : PureCall -> Z -> result (list byte) string;
  other_result : OtherCall -> result (list byte) string;
  abi_encode : list Token -> list byte;
  load_db : Address -> JournaledState -> Backend -> result unit DatabaseFailure * (JournaledState * Backend);
  sload_db : Address -> Z -> JournaledState -> Backend -> result Z DatabaseFailure * (JournaledState * Backend);
  sstore_db : Address -> Z -> Z -> JournaledState -> Backend -> result unit DatabaseFailure * (JournaledState * Backend);
  code_by_hash : H256 -> Backend -> result (list byte) DatabaseFailure;
  touch : Address -> JournaledState -> JournaledState;
  set_code : Address -> list byte -> JournaledState -> JournaledState;
  create2_address : Address -> list byte -> list byte -> Address;
  key_address : Z -> Address;
  display_backend_error : ForkError -> string;
  display_access_error : Address -> string;
  debug_address : Address -> string;
  pretty_address : Address -> string }.

(** [CheatsConfig], as far as forks need it. *)
Record CheatsConfig `{!ForkNet} := mkCheatsConfig {
  rpc_endpoints : gmap string (result string string); enable_for_endpoint : string -> bool; config_opts : EvmOpts }.
Arguments mkCheatsConfig {_}.
Arguments rpc_endpoints {_}.
Arguments enable_for_endpoint {_}.
Arguments config_opts {_}.

Section Cheatcodes.
Context `{!RevmData} `{!ForkNet} `{!Revm} `{!HashIter Address} `{!EvmLib} `{!Abi} `{!CheatLib} `{!SpecIdOrder}.
Variable establish : CreateFork -> result (SharedBackend * Env) string.
Variable evm_run : Backend -> Env -> bool -> result (gmap Address Account) string.
Variable config : CheatsConfig.
(** [UnresolvedEnvVarError::try_resolve] of an endpoint *)
Variable try_resolve : string -> result string string.

(** ** The state a cheatcode works on *)
Record Test := mkTest { t_cheats : Cheatcodes; t_world : World }.
Definition ck (A : Type) : Type := Test -> exec (result A CheatError * Test).
#[local] Instance ck_bind : MBind ck := fun A B f m t =>
  '(r, t) ← m t;
  match r with Ok a => f a t | Err e => Ret (Err e, t) end.
Definition ck_ok {A} (a : A) : ck A := fun t => Ret (Ok a, t).
Definition ck_err {A} (e : CheatError) : ck A := fun t => Ret (Err e, t).
Definition ck_exec {A} (e : exec A) : ck A := fun t => a ← e; Ret (Ok a, t).
Definition ck_try {A} (r : result A string) : ck A := fun t => Ret (match r with Ok a => Ok a | Err e => Err (Custom e) end, t).
Definition ensure (c : bool) (message : string) : ck unit := if c then ck_ok tt else ck_err (Custom message).
Definition cheats : ck Cheatcodes := fun t => Ret (Ok (t_cheats t), t).
Definition world : ck World := fun t => Ret (Ok (t_world t), t).
Definition modify (f : Cheatcodes -> Cheatcodes) : ck unit := fun t => Ret (Ok tt, mkTest (f (t_cheats t)) (t_world t)).
Definition modify_env (f : Env -> Env) : ck unit := fun t =>
  let w := t_world t in Ret (Ok tt, mkTest (t_cheats t) (mkWorld (w_backend w) (f (w_env w)) (w_state w))).
Definition modify_backend (f : Backend -> Backend) : ck unit := fun t =>
  let w := t_world t in Ret (Ok tt, mkTest (t_cheats t) (mkWorld (f (w_backend w)) (w_env w) (w_state w))).
Definition modify_state (f : JournaledState -> JournaledState) : ck unit := fun t =>
  let w := t_world t in Ret (Ok tt, mkTest (t_cheats t) (mkWorld (w_backend w) (w_env w) (f (w_state w)))).
Definition on_backend {A} (m : fk A) : ck A := fun t =>
  '(r, w) ← m (t_world t);
  Ret (match r with Ok a => Ok a | Err e => Err (FromBackend e) end, mkTest (t_cheats t) w).
Definition on_journal {A} (f : JournaledState -> Backend -> result A DatabaseFailure * (JournaledState * Backend)) : ck A := fun t =>
  let w := t_world t in
  let '(r, (js, b)) := f (w_state w) (w_backend w) in
  Ret (match r with Ok a => Ok a | Err e => Err (FromBackend (DbFailure e)) end, mkTest (t_cheats t) (mkWorld b (w_env w) js)).

Definition depth (t : Test) : Z := js_depth (w_state (t_world t)).
Definition get_depth : ck Z := fun t => Ret (Ok (depth t), t).
Definition tx_caller (t : Test) : Address := env_caller (ev_tx (w_env (t_world t))).
Definition get_tx_caller : ck Address := fun t => Ret (Ok (tx_caller t), t).

Definition set_block (b : BlockEnv.t) (e : Env) : Env := mkEnv (ev_cfg e) b (ev_tx e).
Definition set_tx_caller (a : Address) (e : Env) : Env :=
  let x := ev_tx e in
  mkEnv (ev_cfg e) (ev_block e)
    {| env_caller := a; env_transact_to := env_transact_to x; env_data := env_data x; env_chain_id := env_chain_id x;
       env_nonce := env_nonce x; env_value := env_value x; env_gas_price := env_gas_price x; env_gas_priority_fee := env_gas_priority_fee x;
       env_tx_gas_limit := env_tx_gas_limit x; env_access_list := env_access_list x |}.
Definition set_gas_price (p : Z) (e : Env) : Env :=
  let x := ev_tx e in
  mkEnv (ev_cfg e) (ev_block e)
    {| env_caller := env_caller x; env_transact_to := env_transact_to x; env_data := env_data x; env_chain_id := env_chain_id x;
       env_nonce := env_nonce x; env_value := env_value x; env_gas_price := p; env_gas_priority_fee := env_gas_priority_fee x;
       env_tx_gas_limit := env_tx_gas_limit x; env_access_list := env_access_list x |}.
Definition set_chain_id (n : Z) (e : Env) : Env :=
  let c := ev_cfg e in
  mkEnv (CfgEnv.mk n (CfgEnv.spec_id c) (CfgEnv.disable_block_gas_limit c) (CfgEnv.disable_base_fee c) (CfgEnv.disable_eip3607 c))
    (ev_block e) (ev_tx e).
Definition map_block (f : BlockEnv.t -> BlockEnv.t) : ck unit := modify_env (fun e => set_block (f (ev_block e)) e).

(** ** util.rs *)

(** [with_journaled_account] *)
Definition set_account (a : Address) (acc : Account) (js : JournaledState) : JournaledState :=
  set_state (<[a := acc]> (js_state js)) js.
Definition with_account_info (f : AccountInfo.t -> AccountInfo.t) (acc : Account) : Account :=
  mkAccount (f (acc_info acc)) (acc_storage acc) (acc_is_touched acc) (acc_rest acc).
Definition set_balance (v : Z) (i : AccountInfo.t) : AccountInfo.t :=
  AccountInfo.mk v (AccountInfo.nonce i) (AccountInfo.code_hash i) (AccountInfo.code i).
Definition set_nonce (n : Z) (i : AccountInfo.t) : AccountInfo.t :=
  AccountInfo.mk (AccountInfo.balance i) n (AccountInfo.code_hash i) (AccountInfo.code i).
Definition with_journaled_account {R} (a : Address) (f : Account -> ck (Account * R)) : ck R :=
  _ ← on_journal (load_db a);
  _ ← modify_state (touch a);
  w ← world;
  acc ← ck_exec (expect (js_state (w_state w) !! a) "account loaded;");
  '(acc, r) ← f acc;
  _ ← modify_state (set_account a acc);
  ck_ok r.

Definition SECP256K1_ORDER : Z := 115792089237316195423570985008687907852837564279074904382605163141518161494337.
Definition parse_private_key (private_key : Z) : result Z string :=
  if private_key =? 0 then Err "Private key cannot be 0."
  else if private_key <? SECP256K1_ORDER then Ok private_key
  else Err "Private key must be less than the secp256k1 curve order (115792089237316195423570985008687907852837564279074904382605163141518161494337).".
Definition is_potential_precompile (a : Address) : bool := (a <? 10) && negb (a =? 0).
Definition check_if_fixed_gas_limit (e : Env) (call_gas_limit : Z) : bool :=
  (BlockEnv.gas_limit (ev_block e) <? env_tx_gas_limit (ev_tx e)) && (call_gas_limit <=? BlockEnv.gas_limit (ev_block e)) &&
  (2300 <? call_gas_limit).

Definition MAGIC_SKIP_BYTES : list byte := [70; 79; 85; 78; 68; 82; 89; 58; 58; 83; 75; 73; 80].
Definition skip (depth : Z) (skip : bool) : ck (list byte) :=
  if negb skip then ck_ok []
  else if 1 <? depth then ck_err (Custom "The skip cheatcode can only be used at test level")
  else _ ← modify (with_skip true); ck_err (CustomBytes MAGIC_SKIP_BYTES).
Definition remember_key (private_key chain_id : Z) : ck (list byte) :=
  key ← ck_try (parse_private_key private_key);
  chain ← ck_exec (u256_as_u64 chain_id);
  _ ← modify (fun s => with_script_wallets (c_script_wallets s ++ [(key_address key, chain)]) s);
  ck_ok (abi_encode [TAddress (key_address key)]).
Definition util_apply (call : HevmCall PureCall OtherCall) : option (ck (list byte)) :=
  match call with
  | RememberKey key => Some (w ← world; remember_key key (CfgEnv.chain_id (ev_cfg (w_env w))))
  | Label a label => Some (_ ← modify (fun s => with_labels (<[a := label]> (c_labels s)) s); ck_ok [])
  | GetLabel a => Some (s ← cheats; ck_ok (abi_encode [TString (default ("unlabeled:" +:+ debug_address a) (c_labels s !! a))]))
  | Skip b => Some (d ← get_depth; skip d b)
  | Pure c => Some (w ← world; ck_try (pure_result c (CfgEnv.chain_id (ev_cfg (w_env w)))))
  | _ => None
  end.

(** ** env.rs *)
Definition broadcast (new_origin original_caller original_origin : Address) (depth : Z) (single_call : bool) : ck (list byte) :=
  s ← cheats;
  _ ← ensure (bool_decide (c_prank s = None))
        "You have an active prank. Broadcasting and pranks are not compatible. Disable one or the other";
  _ ← ensure (bool_decide (c_broadcast s = None)) "You have an active broadcast already.";
  _ ← modify (with_broadcast (Some (mkBroadcast new_origin original_caller original_origin depth single_call)));
  ck_ok [].
Definition broadcast_key (private_key : Z) (original_caller original_origin : Address) (chain_id depth : Z) (single_call : bool)
    : ck (list byte) :=
  key ← ck_try (parse_private_key private_key);
  chain ← ck_exec (u256_as_u64 chain_id);
  r ← broadcast (key_address key) original_caller original_origin depth single_call;
  _ ← modify (fun s => with_script_wallets (c_script_wallets s ++ [(key_address key, chain)]) s);
  ck_ok r.
Definition prank (prank_caller prank_origin new_caller : Address) (new_origin : option Address) (depth : Z) (single_call : bool)
    : ck (list byte) :=
  s ← cheats;
  _ ← match c_prank s with
      | Some current =>
          _ ← ensure (pk_used current) "You cannot overwrite `prank` until it is applied at least once";
          ensure (bool_decide (single_call = pk_single_call current))
            "You cannot override an ongoing prank with a single vm.prank. Use vm.startPrank to override the current prank."
      | None => ck_ok tt
      end;
  _ ← ensure (bool_decide (c_broadcast s = None))
        "You cannot `prank` for a broadcasted transaction.Pass the desired tx.origin into the broadcast cheatcode call";
  _ ← modify (with_prank (Some (prank_new prank_caller prank_origin new_caller new_origin depth single_call)));
  ck_ok [].

(** [CallerMode], as a number *)
Definition read_callers (s : Cheatcodes) (default_sender : Address) : list byte :=
  abi_encode
    match c_prank s, c_broadcast s with
    | Some p, _ =>
        [TUint (if pk_single_call p then 3 else 4); TAddress (pk_new_caller p); TAddress (default default_sender (pk_new_origin p))]
    | None, Some b =>
        [TUint (if bc_single_call b then 1 else 2); TAddress (bc_new_origin b); TAddress (bc_new_origin b)]
    | None, None => [TUint 0; TAddress default_sender; TAddress default_sender]
    end.

Definition start_record (s : Cheatcodes) : Cheatcodes := with_accesses (Some (mkAccess ∅ ∅)) s.
Definition accesses (a : Address) : ck (list byte) :=
  s ← cheats;
  match c_accesses s with
  | Some acc =>
      let tokens o := TArray (TUint <$> default [] o) in
      _ ← modify (with_accesses (Some (mkAccess (delete a (ra_reads acc)) (delete a (ra_writes acc)))));
      ck_ok (abi_encode [tokens (ra_reads acc !! a); tokens (ra_writes acc !! a)])
  | None => ck_ok (abi_encode [TArray []; TArray []])
  end.
Definition start_record_logs (s : Cheatcodes) : Cheatcodes := with_recorded_logs (Some []) s.
Definition log_token (entry : Address * RawLog) : Token :=
  TTuple [TArray (TFixed <$> raw_topics entry.2); TBytes (raw_data entry.2); TAddress entry.1].
(** [Option::replace] starts a recording also where there was none. *)
Definition get_recorded_logs : ck (list byte) :=
  s ← cheats;
  _ ← modify (with_recorded_logs (Some []));
  ck_ok (abi_encode [TArray (log_token <$> default [] (c_recorded_logs s))]).

(** [char::is_alphabetic] of ASCII names *)
Definition is_alphabetic (c : ascii) : bool :=
  let n := nat_of_ascii (ascii_lower c) in (97 <=? n)%nat && (n <=? 122)%nat.
Definition add_breakpoint (caller : Address) (name : string) (add : bool) : ck (list byte) :=
  match name with
  | EmptyString => ck_err (Custom "Please provide at least one char for the breakpoint")
  | String point rest =>
      _ ← ensure (bool_decide (rest = EmptyString)) "Provide only one character for the breakpoint";
      _ ← ensure (is_alphabetic point) "Only alphabetic characters are accepted as breakpoints";
      _ ← modify (fun s =>
            if add then with_breakpoints (<[point := (caller, c_pc s)]> (c_breakpoints s)) s
            else with_breakpoints (delete point (c_breakpoints s)) s);
      ck_ok []
  end.

(** [Config::DEFAULT_SENDER] *)
Definition DEFAULT_SENDER : Address := CALLER.
Definition correct_sender_nonce (sender : Address) : ck unit :=
  s ← cheats;
  if negb (c_corrected_nonce s) && negb (sender =? DEFAULT_SENDER) then
    with_journaled_account sender (fun acc =>
      _ ← modify (with_corrected_nonce true);
      ck_ok (with_account_info (fun i => set_nonce (u64_saturating_sub (AccountInfo.nonce i) 1) i) acc, tt))
  else ck_ok tt.
Definition begin_broadcast (caller : Address) (origin : option Address) (single_call : bool) : ck (list byte) :=
  tx ← get_tx_caller;
  _ ← correct_sender_nonce tx;
  d ← get_depth;
  broadcast (default tx origin) caller tx d single_call.
Definition begin_broadcast_key (caller : Address) (key : Z) (single_call : bool) : ck (list byte) :=
  tx ← get_tx_caller;
  _ ← correct_sender_nonce tx;
  d ← get_depth;
  w ← world;
  broadcast_key key caller tx (CfgEnv.chain_id (ev_cfg (w_env w))) d single_call.
Definition begin_prank (caller new_caller : Address) (new_origin : option Address) (single_call : bool) : ck (list byte) :=
  tx ← get_tx_caller;
  d ← get_depth;
  prank caller tx new_caller new_origin d single_call.

Definition deal (who : Address) (value : Z) : ck (list byte) :=
  with_journaled_account who (fun acc =>
    _ ← modify (fun s => with_eth_deals (c_eth_deals s ++ [mkDeal who (AccountInfo.balance (acc_info acc)) value]) s);
    ck_ok (with_account_info (set_balance value) acc, [])).
Definition set_nonce_checked (a : Address) (n : Z) : ck (list byte) :=
  with_journaled_account a (fun acc =>
    _ ← ensure (AccountInfo.nonce (acc_info acc) <=? n)
          ("New nonce (" +:+ pretty n +:+ ") must be strictly equal to or higher than the account's current nonce (" +:+
           pretty (AccountInfo.nonce (acc_info acc)) +:+ ").");
    ck_ok (with_account_info (set_nonce n) acc, [])).
Definition set_nonce_unsafe (a : Address) (n : Z) : ck (list byte) :=
  with_journaled_account a (fun acc => ck_ok (with_account_info (set_nonce n) acc, [])).
Definition reset_nonce (a : Address) : ck (list byte) :=
  with_journaled_account a (fun acc =>
    let nonce := if AccountInfo.code_hash (acc_info acc) =? KECCAK_EMPTY then 0 else 1 in
    ck_ok (with_account_info (set_nonce nonce) acc, [])).
Definition get_nonce (a : Address) : ck (list byte) :=
  tx ← get_tx_caller;
  _ ← correct_sender_nonce tx;
  _ ← on_journal (load_db a);
  w ← world;
  acc ← ck_exec (expect (js_state (w_state w) !! a) "called `Option::unwrap()` on a `None` value");
  ck_ok (abi_encode [TUint (AccountInfo.nonce (acc_info acc))]).

Definition is_merged (e : Env) : bool := bool_decide (spec_as_u8 MERGE <= spec_as_u8 (CfgEnv.spec_id (ev_cfg e))).
Definition env_apply (caller : Address) (call : HevmCall PureCall OtherCall) : option (ck (list byte)) :=
  let done (m : ck unit) : option (ck (list byte)) := Some (_ ← m; ck_ok []) in
  match call with
  | Warp n => done (map_block (fun b => BlockEnv.mk (BlockEnv.number b) (BlockEnv.coinbase b) n (BlockEnv.difficulty b)
                                         (BlockEnv.prevrandao b) (BlockEnv.basefee b) (BlockEnv.gas_limit b)))
  | Difficulty n =>
      done (w ← world;
            _ ← ensure (negb (is_merged (w_env w))) "Difficulty is not supported after the Paris hard fork. Please use vm.prevrandao instead. For more information, please see https://eips.ethereum.org/EIPS/eip-4399";
            map_block (fun b => BlockEnv.mk (BlockEnv.number b) (BlockEnv.coinbase b) (BlockEnv.timestamp b) n
                                  (BlockEnv.prevrandao b) (BlockEnv.basefee b) (BlockEnv.gas_limit b)))
  | Prevrandao h =>
      done (w ← world;
            _ ← ensure (is_merged (w_env w)) "Prevrandao is not supported before the Paris hard fork. Please use vm.difficulty instead. For more information, please see https://eips.ethereum.org/EIPS/eip-4399";
            map_block (fun b => BlockEnv.mk (BlockEnv.number b) (BlockEnv.coinbase b) (BlockEnv.timestamp b) (BlockEnv.difficulty b)
                                  (Some h) (BlockEnv.basefee b) (BlockEnv.gas_limit b)))
  | Roll n => done (map_block (fun b => BlockEnv.mk n (BlockEnv.coinbase b) (BlockEnv.timestamp b) (BlockEnv.difficulty b)
                                         (BlockEnv.prevrandao b) (BlockEnv.basefee b) (BlockEnv.gas_limit b)))
  | Fee n => done (map_block (fun b => BlockEnv.mk (BlockEnv.number b) (BlockEnv.coinbase b) (BlockEnv.timestamp b) (BlockEnv.difficulty b)
                                        (BlockEnv.prevrandao b) n (BlockEnv.gas_limit b)))
  | Coinbase a => done (map_block (fun b => BlockEnv.mk (BlockEnv.number b) a (BlockEnv.timestamp b) (BlockEnv.difficulty b)
                                             (BlockEnv.prevrandao b) (BlockEnv.basefee b) (BlockEnv.gas_limit b)))
  | Store a slot value =>
      done (_ ← ensure (negb (is_potential_precompile a)) "Store cannot be used on precompile addresses (N < 10). Please use an address bigger than 10 instead";
            _ ← on_journal (load_db a);
            _ ← modify_state (touch a);
            on_journal (sstore_db a slot value))
  | Load a slot =>
      Some (_ ← ensure (negb (is_potential_precompile a)) "Load cannot be used on precompile addresses (N < 10). Please use an address bigger than 10 instead";
            _ ← on_journal (load_db a);
            v ← on_journal (sload_db a slot);
            ck_ok (abi_encode [TUint v]))
  | Breakpoint0 name => Some (add_breakpoint caller name true)
  | Breakpoint1 name add => Some (add_breakpoint caller name add)
  | Etch a code =>
      done (_ ← ensure (negb (is_potential_precompile a)) "Etch cannot be used on precompile addresses (N < 10). Please use an address bigger than 10 instead";
            _ ← on_journal (load_db a);
            modify_state (set_code a code))
  | Deal who value => Some (deal who value)
  | Prank0 a => Some (begin_prank caller a None true)
  | Prank1 a origin => Some (begin_prank caller a (Some origin) true)
  | StartPrank0 a => Some (begin_prank caller a None false)
  | StartPrank1 a origin => Some (begin_prank caller a (Some origin) false)
  | StopPrank =>
      done (s ← cheats; _ ← ensure (bool_decide (is_Some (c_prank s))) "No prank in progress to stop"; modify (with_prank None))
  | ReadCallers => Some (s ← cheats; tx ← get_tx_caller; ck_ok (read_callers s tx))
  | RecordAccesses => done (modify start_record)
  | Accesses a => Some (accesses a)
  | RecordLogs => done (modify start_record_logs)
  | GetRecordedLogs => Some get_recorded_logs
  | SetNonce a n => Some (set_nonce_checked a n)
  | SetNonceUnsafe a n => Some (set_nonce_unsafe a n)
  | ResetNonce a => Some (reset_nonce a)
  | GetNonce a => Some (get_nonce a)
  | ChainId n =>
      done (_ ← ensure (n <=? U64_MAX) "Chain ID must be less than 2^64 - 1"; modify_env (set_chain_id n))
  | TxGasPrice n => done (modify_env (set_gas_price n))
  | Broadcast0 => Some (begin_broadcast caller None true)
  | Broadcast1 a => Some (begin_broadcast caller (Some a) true)
  | Broadcast2 key => Some (begin_broadcast_key caller key true)
  | StartBroadcast0 => Some (begin_broadcast caller None false)
  | StartBroadcast1 a => Some (begin_broadcast caller (Some a) false)
  | StartBroadcast2 key => Some (begin_broadcast_key caller key false)
  | StopBroadcast =>
      done (s ← cheats; _ ← ensure (bool_decide (is_Some (c_broadcast s))) "No broadcast in progress to stop"; modify (with_broadcast None))
  | PauseGasMetering =>
      done (modify (fun s => match c_gas_metering s with None => with_gas_metering (Some None) s | Some _ => s end))
  | ResumeGasMetering => done (modify (with_gas_metering None))
  | StartMappingRecording =>
      done (modify (fun s => match c_mapping_slots s with None => with_mapping_slots (Some ∅) s | Some _ => s end))
  | StopMappingRecording => done (modify (with_mapping_slots None))
  | GetMappingLength a slot => Some (s ← cheats; ck_ok (abi_encode [TUint (get_mapping_length (c_mapping_slots s) a slot)]))
  | GetMappingSlotAt a slot index =>
      Some (s ← cheats; v ← ck_exec (get_mapping_slot_at (c_mapping_slots s) a slot index); ck_ok (abi_encode [TUint v]))
  | GetMappingKeyAndParentOf a slot =>
      Some (s ← cheats; '(found, key, parent) ← ck_exec (get_mapping_key_and_parent (c_mapping_slots s) a slot);
            ck_ok (abi_encode [TBool found; TUint key; TUint parent]))
  | _ => None
  end.

(** ** expect.rs *)
Definition expect_revert (reason : option (list byte)) (depth : Z) : ck (list byte) :=
  s ← cheats;
  _ ← ensure (bool_decide (c_expected_revert s = None)) "You must call another function prior to expecting a second revert.";
  _ ← modify (with_expected_revert (Some (mkExpectedRevert reason depth)));
  ck_ok [].
Definition expect_emit (checks : list bool) (address : option Address) : ck (list byte) :=
  d ← get_depth;
  _ ← modify (fun s => with_expected_emits (c_expected_emits s ++ [mkEmit d None checks address false]) s);
  ck_ok [].
Definition expect_call_with (target : Address) (calldata : list byte) (value gas min_gas : option Z) (count : Z)
    (call_type : ExpectedCallType) : ck (list byte) := fun t =>
  '(r, calls) ← expect_call target calldata value gas min_gas count call_type (c_expected_calls (t_cheats t));
  Ret (match r with Ok _ => Ok [] | Err e => Err (Custom e) end, mkTest (with_expected_calls calls (t_cheats t)) (t_world t)).
(** The EVM adds a stipend to calls that send value. *)
Definition with_stipend (value gas : Z) : ck Z := ck_exec (u64_add gas (if 0 <? value then 2300 else 0)).
Definition add_mock (a : Address) (ctx : MockCallDataContext) (ret : MockCallReturnData) : ck (list byte) :=
  _ ← modify (fun s => with_mocked_calls (mock_call a ctx ret (c_mocked_calls s)) s);
  ck_ok [].
Definition safe_memory (start end_ depth : Z) : ck (list byte) := fun t =>
  let '(r, writes) := expect_safe_memory start end_ depth (c_allowed_mem_writes (t_cheats t)) in
  Ret (match r with Ok _ => Ok [] | Err e => Err (Custom e) end, mkTest (with_allowed_mem_writes writes (t_cheats t)) (t_world t)).
Definition ALL_CHECKS : list bool := [true; true; true; true].

Definition expect_apply (call : HevmCall PureCall OtherCall) : option (ck (list byte)) :=
  match call with
  | ExpectRevert0 => Some (d ← get_depth; expect_revert None d)
  | ExpectRevert1 reason => Some (d ← get_depth; expect_revert (Some reason) d)
  | ExpectRevert2 reason => Some (d ← get_depth; expect_revert (Some reason) d)
  | ExpectEmit0 => Some (expect_emit ALL_CHECKS None)
  | ExpectEmit1 a => Some (expect_emit ALL_CHECKS (Some a))
  | ExpectEmit2 c1 c2 c3 c4 => Some (expect_emit [c1; c2; c3; c4] None)
  | ExpectEmit3 c1 c2 c3 c4 a => Some (expect_emit [c1; c2; c3; c4] (Some a))
  | ExpectCall0 a data => Some (expect_call_with a data None None None 1 NonCount)
  | ExpectCall1 a data count => Some (expect_call_with a data None None None count Count)
  | ExpectCall2 a value data => Some (expect_call_with a data (Some value) None None 1 NonCount)
  | ExpectCall3 a value data count => Some (expect_call_with a data (Some value) None None count Count)
  | ExpectCall4 a value gas data => Some (g ← with_stipend value gas; expect_call_with a data (Some value) (Some g) None 1 NonCount)
  | ExpectCall5 a value gas data count => Some (g ← with_stipend value gas; expect_call_with a data (Some value) (Some g) None count Count)
  | ExpectCallMinGas0 a value gas data => Some (g ← with_stipend value gas; expect_call_with a data (Some value) None (Some g) 1 NonCount)
  | ExpectCallMinGas1 a value gas data count =>
      Some (g ← with_stipend value gas; expect_call_with a data (Some value) None (Some g) count Count)
  | MockCall0 a data ret =>
      Some (_ ← on_journal (load_db a);
            w ← world;
            acc ← ck_exec (expect (js_state (w_state w) !! a) "Account expected to be loaded");
            _ ← (if bool_decide (default [] (AccountInfo.code (acc_info acc)) = []) then modify_state (set_code a [0]) else ck_ok tt);
            add_mock a (mkMock data None) (mkMockReturn IReturn ret))
  | MockCall1 a value data ret =>
      Some (_ ← on_journal (load_db a); add_mock a (mkMock data (Some value)) (mkMockReturn IReturn ret))
  | MockCallRevert0 a data ret => Some (add_mock a (mkMock data None) (mkMockReturn IRevert ret))
  | MockCallRevert1 a value data ret => Some (add_mock a (mkMock data (Some value)) (mkMockReturn IRevert ret))
  | ClearMockedCalls => Some (_ ← modify (with_mocked_calls ∅); ck_ok [])
  | ExpectSafeMemory start end_ => Some (d ← get_depth; safe_memory start end_ d)
  | ExpectSafeMemoryCall start end_ => Some (d ← get_depth; d ← ck_exec (u64_add d 1); safe_memory start end_ d)
  | _ => None
  end.

(** ** fuzz.rs *)
Definition ASSUME_MAGIC_RETURN_CODE : list byte := [70; 79; 85; 78; 68; 82; 89; 58; 58; 65; 83; 83; 85; 77; 69].
Definition fuzz_apply (call : HevmCall PureCall OtherCall) : option (ck (list byte)) :=
  match call with
  | Assume true => Some (ck_ok [])
  | Assume false => Some (ck_err (CustomBytes ASSUME_MAGIC_RETURN_CODE))
  | _ => None
  end.

(** ** snapshot.rs *)
Definition snapshot_apply (call : HevmCall PureCall OtherCall) : option (ck (list byte)) :=
  match call with
  | Snapshot => Some (id ← on_backend snapshot; ck_ok (abi_encode [TUint id]))
  | RevertTo id =>
      Some (o ← on_backend (revert id);
            match o with
            | Some js => _ ← modify_state (fun _ => js); ck_ok (abi_encode [TBool true])
            | None => ck_ok (abi_encode [TBool false])
            end)
  | _ => None
  end.

(** ** fork.rs *)
Fixpoint string_starts_with (p s : string) : bool :=
  match p, s with
  | EmptyString, _ => true
  | String a p, String b s => Ascii.eqb a b && string_starts_with p s
  | String _ _, EmptyString => false
  end.
Definition get_rpc_url (url_or_alias : string) : result string string :=
  match rpc_endpoints config !! url_or_alias with
  | Some (Ok url) => Ok url
  | Some (Err var) => try_resolve var
  | None =>
      if negb (string_starts_with "http" url_or_alias) && negb (string_starts_with "ws" url_or_alias) then
        Err ("invalid rpc url " +:+ url_or_alias)
      else Ok url_or_alias
  end.
Definition create_fork_request (url_or_alias : string) (block : option Z) : ck CreateFork :=
  url ← ck_try (get_rpc_url url_or_alias);
  w ← world;
  ck_ok (mkCreateFork (enable_for_endpoint config url) url (w_env w) (mkOpts block (opts_rest (config_opts config)))).
Definition guard_broadcast : ck unit :=
  s ← cheats;
  if decide (is_Some (c_broadcast s)) then ck_err SelectForkDuringBroadcast else modify (with_corrected_nonce true).
Definition cheat_select_fork (fork_id : Z) : ck (list byte) :=
  _ ← guard_broadcast;
  _ ← on_backend (select_fork fork_id);
  ck_ok [].
Definition cheat_create_select_fork (url_or_alias : string) (block : option Z) : ck (list byte) :=
  _ ← guard_broadcast;
  fork ← create_fork_request url_or_alias block;
  id ← on_backend (create_select_fork establish fork);
  ck_ok (abi_encode [TUint id]).
Definition cheat_create_fork (url_or_alias : string) (block : option Z) : ck (list byte) :=
  fork ← create_fork_request url_or_alias block;
  id ← on_backend (create_fork establish fork);
  ck_ok (abi_encode [TUint id]).
Definition cheat_create_select_fork_at_transaction (url_or_alias : string) (transaction : H256) : ck (list byte) :=
  _ ← guard_broadcast;
  fork ← create_fork_request url_or_alias None;
  id ← on_backend (create_select_fork_at_transaction establish evm_run fork transaction);
  ck_ok (abi_encode [TUint id]).
Definition cheat_create_fork_at_transaction (url_or_alias : string) (transaction : H256) : ck (list byte) :=
  fork ← create_fork_request url_or_alias None;
  id ← on_backend (create_fork_at_transaction establish evm_run fork transaction);
  ck_ok (abi_encode [TUint id]).

Definition persist (a : Address) (b : Backend) : Backend := snd (add_persistent_account a b).
Definition unpersist (a : Address) (b : Backend) : Backend := snd (remove_persistent_account a b).
Definition fork_apply (call : HevmCall PureCall OtherCall) : option (ck (list byte)) :=
  let backend f := Some (_ ← modify_backend f; ck_ok []) in
  let forks (m : fk unit) := Some (_ ← on_backend m; ck_ok []) in
  match call with
  | CreateFork0 u => Some (cheat_create_fork u None)
  | CreateFork1 u block => Some (n ← ck_exec (u256_as_u64 block); cheat_create_fork u (Some n))
  | CreateFork2 u tx => Some (cheat_create_fork_at_transaction u tx)
  | CreateSelectFork0 u => Some (cheat_create_select_fork u None)
  | CreateSelectFork1 u block => Some (n ← ck_exec (u256_as_u64 block); cheat_create_select_fork u (Some n))
  | CreateSelectFork2 u tx => Some (cheat_create_select_fork_at_transaction u tx)
  | SelectFork id => Some (cheat_select_fork id)
  | MakePersistent0 a => backend (persist a)
  | MakePersistent1 accounts => backend (fun b => fold_left (fun b a => persist a b) accounts b)
  | MakePersistent2 a1 a2 => backend (fun b => persist a2 (persist a1 b))
  | MakePersistent3 a1 a2 a3 => backend (fun b => persist a3 (persist a2 (persist a1 b)))
  | IsPersistent a => Some (w ← world; ck_ok (abi_encode [TBool (is_persistent a (w_backend w))]))
  | RevokePersistent0 a => backend (unpersist a)
  | RevokePersistent1 accounts => backend (fun b => fold_left (fun b a => unpersist a b) accounts b)
  | ActiveFork =>
      Some (w ← world;
            match active_fork_id (w_backend w) with
            | Some id => ck_ok (abi_encode [TUint id])
            | None => ck_err (Custom "No active fork")
            end)
  | RollFork0 block => forks (roll_fork establish None block)
  | RollFork1 tx => forks (roll_fork_to_transaction establish evm_run None tx)
  | RollFork2 id block => forks (roll_fork establish (Some id) block)
  | RollFork3 id tx => forks (roll_fork_to_transaction establish evm_run (Some id) tx)
  | AllowCheatcodes a => backend (fun b => snd (allow_cheatcode_access a b))
  | Transact0 tx => forks (transact evm_run None tx true)
  | Transact1 id tx => forks (transact evm_run (Some id) tx true)
  | _ => None
  end.

(** ** mod.rs: one call to the cheatcode address *)
Definition other_apply (call : HevmCall PureCall OtherCall) : option (ck (list byte)) :=
  match call with Other c => Some (ck_try (other_result c)) | _ => None end.
Definition or_else {A} (a b : option A) : option A := match a with Some x => Some x | None => b end.
Definition apply_cheatcode (caller : Address) (input : list byte) : ck (list byte) :=
  decoded ← (fun t => Ret (match decode_call input with Ok c => Ok c | Err e => Err (DecodeError e) end, t));
  w ← world;
  if ensure_cheatcode_access_forking_mode caller (w_backend w) then
    match or_else (env_apply caller decoded) (or_else (util_apply decoded) (or_else (expect_apply decoded)
            (or_else (fuzz_apply decoded) (or_else (other_apply decoded) (or_else (snapshot_apply decoded) (fork_apply decoded)))))) with
    | Some m => m
    | None => ck_err (Custom "Unhandled cheatcode. This is a bug.")
    end
  else ck_err (NoCheatcodeAccess caller).

(** What a failed cheatcode returns. *)
Definition display_error (e : CheatError) : string :=
  match e with
  | Custom m => m
  | CustomBytes b => hex_encode b
  | DecodeError m => m
  | NoCheatcodeAccess a => display_access_error a
  | SelectForkDuringBroadcast => "You need to stop broadcasting before you can select forks."
  | FromBackend e => display_backend_error e
  end.
Definition cheat_encode_error (e : CheatError) : list byte :=
  match e with CustomBytes b => b | e => encode_error (display_error e) end.
End Cheatcodes.
