(* ===== verification/CheatHooks.v ===== *)
(** * The hooks of the cheatcode inspector
      (evm/src/executor/inspector/cheatcodes/mod.rs, stack.rs, utils.rs)

    revm calls the inspector before every instruction ([step]), on every log
    ([log]), and before and after every call ([call], [call_end]) and
    creation ([create], [create_end]).  The depth that a hook of a call sees
    is that of the caller. *)
From Stdlib Require Import Ascii.
From stdpp Require Import pretty.
From S2P Require Import Prelude Transaction Hardfork Block Snapshots Db Validator Executor MultiFork ForkBackend Expect Mapping Cheatcodes.
Open Scope Z_scope.

Definition HARDHAT_CONSOLE_ADDRESS : Address := 0x000000000000000000636F6e736F6c652e6c6f67.
#[export] Instance InstructionResult_eq_dec : EqDecision InstructionResult.
Proof. solve_decision. Defined.

Inductive CreateScheme := SchemeCreate | SchemeCreate2 (salt : Z).
Record CreateInputs := mkCreateInputs {
  cin_caller : Address; cin_scheme : CreateScheme; cin_value : Z; cin_init_code : list byte; cin_gas_limit : Z }.
Definition set_create_caller (a : Address) (c : CreateInputs) : CreateInputs :=
  mkCreateInputs a (cin_scheme c) (cin_value c) (cin_init_code c) (cin_gas_limit c).
(** [msg.sender] and the source of the transfer *)
Definition set_call_caller (a : Address) (c : CallInputs) : CallInputs :=
  mkCall (ci_contract c) (mkTransfer a (tr_target (ci_transfer c)) (tr_value (ci_transfer c))) (ci_input c) (ci_gas_limit c)
    (mkContext (cx_address (ci_context c)) a) (ci_is_static c).

(** ** Opcodes *)
Definition OP_STOP : Z := 0x00.
Definition OP_MLOAD : Z := 0x51.
Definition OP_MSTORE : Z := 0x52.
Definition OP_MSTORE8 : Z := 0x53.
Definition OP_CREATE : Z := 0xf0.
Definition OP_RETURN : Z := 0xf3.
Definition OP_CREATE2 : Z := 0xf5.
Definition OP_REVERT : Z := 0xfd.
Definition OP_SELFDESTRUCT : Z := 0xff.

(** [mem_opcode_match!]: where offset and size are on the stack, and whether
    the instruction writes. *)
Definition mem_opcode (op : Z) : option (nat * nat * bool) :=
  match op with
  | 0x37 (* CALLDATACOPY *) | 0x39 (* CODECOPY *) | 0x3e (* RETURNDATACOPY *) => Some (0, 2, true)%nat
  | 0x3c (* EXTCODECOPY *) => Some (1, 3, true)%nat
  | 0xf1 (* CALL *) | 0xf2 (* CALLCODE *) => Some (5, 6, true)%nat
  | 0xfa (* STATICCALL *) | 0xf4 (* DELEGATECALL *) => Some (4, 5, true)%nat
  | 0x20 (* SHA3 *) | 0xa0 | 0xa1 | 0xa2 | 0xa3 | 0xa4 (* LOG0 to LOG4 *) => Some (0, 1, false)%nat
  | 0xf0 (* CREATE *) | 0xf5 (* CREATE2 *) => Some (1, 2, false)%nat
  | 0xf3 (* RETURN *) | 0xfd (* REVERT *) => Some (0, 1, false)%nat
  | _ => None
  end.

(** [{:02X}] of a 64-bit number *)
Definition hex_digit (n : Z) : ascii :=
  default "0"%char (String.get (Z.to_nat n) "0123456789ABCDEF").
Fixpoint hex_digits (fuel : nat) (n : Z) (acc : string) : string :=
  match fuel with
  | O => acc
  | S fuel =>
      let acc := String (hex_digit (n mod 16)) acc in
      if n / 16 =? 0 then acc else hex_digits fuel (n / 16) acc
  end.
Definition fmt_02X (n : Z) : string := if n <? 16 then String "0"%char (hex_digits 16 n "") else hex_digits 16 n "".

Section Hooks.
Context `{!RevmData} `{!ForkNet} `{!Revm} `{!HashIter Address} `{!EvmLib} `{!Abi} `{!CheatLib} `{!SpecIdOrder}.
Variable establish : CreateFork -> result (SharedBackend * Env) string.
Variable evm_run : Backend -> Env -> bool -> result (gmap Address Account) string.
Variable config : CheatsConfig.
Variable try_resolve : string -> result string string.

Definition with_cheats (c : Cheatcodes) (t : Test) : Test := mkTest c (t_world t).
Definition with_env (f : Env -> Env) (t : Test) : Test :=
  let w := t_world t in mkTest (t_cheats t) (mkWorld (w_backend w) (f (w_env w)) (w_state w)).

(** ** Before the first instruction *)
Definition initialize_interp (t : Test) : Test :=
  let c := t_cheats t in
  let t := match c_block c with Some b => with_env (Cheatcodes.set_block b) (with_cheats (with_block None c) t) | None => t end in
  let c := t_cheats t in
  match c_gas_price c with Some p => with_env (set_gas_price p) (with_cheats (with_gas_price None c) t) | None => t end.

(** ** Before every instruction *)
Definition set_ip_gas (g : Gas) (i : Interpreter) : Interpreter :=
  mkInterp (ip_pc i) (ip_code i) (ip_stack i) (ip_memory i) g (ip_address i) (ip_return_range i).

(** Gas metering: nothing is charged while it is paused. *)
Definition is_create_op (op : Z) : bool := (op =? OP_CREATE) || (op =? OP_CREATE2).
Definition is_final_op (op : Z) : bool := (op =? OP_STOP) || (op =? OP_RETURN) || (op =? OP_SELFDESTRUCT) || (op =? OP_REVERT).
Definition step_gas (i : Interpreter) (c : Cheatcodes) : exec (Interpreter * Cheatcodes) :=
  match c_gas_metering c with
  | Some None => Ret (i, with_gas_metering (Some (Some (ip_gas i))) c)
  | Some (Some gas) =>
      op ← current_opcode i;
      Ret (if is_create_op op then (i, with_gas_metering_create (Some None) c)
           else if is_final_op op then
             match c_gas_metering_create c with
             | None | Some None => (set_ip_gas (gas_new 0) i, c)
             | Some (Some gas) => (set_ip_gas (gas_new (gas_limit_of gas)) i, with_gas_metering_create None c)
             end
           else
             let c := match c_gas_metering_create c with
                      | Some None => with_gas_metering_create (Some (Some (ip_gas i))) c
                      | _ => c
                      end in
             (set_ip_gas gas i, c))
  | None => Ret (i, c)
  end.

(** A part of [step] goes on, returns [Continue] early, or forbids a write of
    [size] bytes at [offset]. *)
Inductive step_outcome := GoOn | ContinueEarly | Disallowed (offset size : Z).
Definition push_access (a : Address) (key : Z) (m : gmap Address (list Z)) : gmap Address (list Z) :=
  <[a := default [] (m !! a) ++ [key]]> m.
Definition step_accesses (i : Interpreter) (c : Cheatcodes) : exec (step_outcome * Cheatcodes) :=
  match c_accesses c with
  | None => Ret (GoOn, c)
  | Some acc =>
      op ← current_opcode i;
      if (op =? OP_SLOAD) || (op =? OP_SSTORE) then
        match head (ip_stack i) with
        | None => Ret (ContinueEarly, c)
        | Some key =>
            let reads := push_access (ip_address i) key (ra_reads acc) in
            let writes := if op =? OP_SSTORE then push_access (ip_address i) key (ra_writes acc) else ra_writes acc in
            Ret (GoOn, with_accesses (Some (mkAccess reads writes)) c)
        end
      else Ret (GoOn, c)
  end.

(** A range that contains the bytes from [first] to [last]. *)
Definition in_some_range (ranges : list Range) (first last : Z) : bool :=
  existsb (fun r => contains r first && contains r last) ranges.
Definition step_memory (ranges : list Range) (i : Interpreter) : exec step_outcome :=
  op ← current_opcode i;
  let len := Z.of_nat (length (ip_memory i)) in
  if (op =? OP_MSTORE) || (op =? OP_MLOAD) then
    match ip_stack i !! 0%nat with
    | None => Ret ContinueEarly
    | Some top =>
        offset ← u256_as_u64 top;
        if (op =? OP_MLOAD) && (offset <? len) then Ret GoOn
        else
          (* [range.contains(&offset)] comes first *)
          if existsb (fun r => contains r offset) ranges then
            last ← u64_add offset 31;
            Ret (if in_some_range ranges offset last then GoOn else Disallowed offset 32)
          else Ret (Disallowed offset 32)
    end
  else if op =? OP_MSTORE8 then
    match ip_stack i !! 0%nat with
    | None => Ret ContinueEarly
    | Some top =>
        offset ← u256_as_u64 top;
        Ret (if existsb (fun r => contains r offset) ranges then GoOn else Disallowed offset 1)
    end
  else
    match mem_opcode op with
    | None => Ret GoOn
    | Some (offset_depth, size_depth, writes) =>
        match ip_stack i !! offset_depth, ip_stack i !! size_depth with
        | Some o, Some z =>
            dest_offset ← u256_as_u64 o;
            size ← u256_as_u64 z;
            allowed ← (if existsb (fun r => contains r dest_offset) ranges then
                         last ← u64_add dest_offset (u64_saturating_sub size 1);
                         Ret (in_some_range ranges dest_offset last)
                       else Ret false);
            if (allowed : bool) then Ret GoOn
            else if (writes : bool) then Ret (Disallowed dest_offset size)
            else
              end_ ← u64_add dest_offset size;
              Ret (if (len <=? dest_offset) || (len <=? u64_saturating_sub end_ 1) then Disallowed dest_offset size else GoOn)
        | Some o, None => _ ← u256_as_u64 o; Ret ContinueEarly
        | None, _ => Ret ContinueEarly
        end
    end.

(** [disallowed_mem_write]: the message is stored behind the memory and
    returned. *)
Definition range_message (r : Range) : string := "(0x" +:+ fmt_02X (rg_start r) +:+ ", 0x" +:+ fmt_02X (rg_end r) +:+ "]".
Definition disallowed_mem_write (offset size : Z) (ranges : list Range) (i : Interpreter) : Interpreter :=
  let message := abi_encode_string ("Memory write at offset 0x" +:+ fmt_02X offset +:+ " of size 0x" +:+ fmt_02X size +:+
    " not allowed. Safe range: " +:+ String.concat " ∪ " (range_message <$> ranges)) in
  let start := Z.of_nat (length (ip_memory i)) in
  mkInterp (ip_pc i) (ip_code i) (ip_stack i) (ip_memory i ++ message) (ip_gas i) (ip_address i)
    (start, start + Z.of_nat (length message)).

Definition step_mapping (i : Interpreter) (c : Cheatcodes) : exec Cheatcodes :=
  match c_mapping_slots c with
  | Some slots => slots ← on_evm_step i slots; Ret (with_mapping_slots (Some slots) c)
  | None => Ret c
  end.
Definition step (i : Interpreter) (t : Test) : exec (InstructionResult * Interpreter * Test) :=
  '(i, c) ← step_gas i (with_pc (ip_pc i) (t_cheats t));
  '(o, c) ← step_accesses i c;
  match o with
  | GoOn =>
      o ← match c_allowed_mem_writes c !! depth t with
          | Some ranges => step_memory ranges i
          | None => Ret GoOn
          end;
      match o with
      | GoOn => c ← step_mapping i c; Ret (Continue, i, with_cheats c t)
      | ContinueEarly => Ret (Continue, i, with_cheats c t)
      | Disallowed offset size =>
          Ret (IRevert, disallowed_mem_write offset size (default [] (c_allowed_mem_writes c !! depth t)) i, with_cheats c t)
      end
  | _ => Ret (Continue, i, with_cheats c t)
  end.

(** ** On a log *)
Definition log (address : Address) (topics : list H256) (data : list byte) (t : Test) : exec Test :=
  let c := t_cheats t in
  let raw := mkRawLog topics data in
  emits ← (if bool_decide (c_expected_emits c = []) then Ret [] else handle_expect_emit (c_expected_emits c) raw address);
  let c := with_expected_emits emits c in
  Ret (with_cheats (match c_recorded_logs c with
                    | Some entries => with_recorded_logs (Some (entries ++ [(address, raw)])) c
                    | None => c
                    end) t).

(** ** Before a call *)
Definition CallResult : Type := InstructionResult * Gas * list byte.

(** The prank: [msg.sender] at its depth, [tx.origin] at its depth and below. *)
Definition apply_prank (call : CallInputs) (t : Test) : CallInputs * Test :=
  match c_prank (t_cheats t) with
  | None => (call, t)
  | Some p =>
      if (pk_depth p <=? depth t) && (cx_caller (ci_context call) =? pk_prank_caller p) then
        let at_depth := depth t =? pk_depth p in
        let call := if at_depth then set_call_caller (pk_new_caller p) call else call in
        let t := match pk_new_origin p with Some o => with_env (set_tx_caller o) t | None => t end in
        let prank_applied := at_depth || bool_decide (is_Some (pk_new_origin p)) in
        (call, if prank_applied then
                 match first_time_applied p with Some q => with_cheats (with_prank (Some q) (t_cheats t)) t | None => t end
               else t)
      else (call, t)
  end.

Definition active_fork_url (b : Backend) : option string :=
  id ← active_fork_id b;
  fork_id ← issued_local_fork_ids (inner b) !! id;
  f ← forks_known b !! fork_id;
  Some (url (opts f)).
Definition push_broadcastable (tx : BroadcastableTransaction) (t : Test) : Test :=
  with_cheats (with_broadcastable_transactions (c_broadcastable_transactions (t_cheats t) ++ [tx]) (t_cheats t)) t.
Definition in_world (w : World) (t : Test) : Test := mkTest (t_cheats t) w.
(** [account.info.nonce += 1], with the nonce before *)
Definition bump_nonce (a : Address) (t : Test) : exec (Z * Test) :=
  let w := t_world t in
  acc ← expect (js_state (w_state w) !! a) "called `Option::unwrap()` on a `None` value";
  let nonce := AccountInfo.nonce (acc_info acc) in
  n ← u64_add nonce 1;
  Ret (nonce, in_world (mkWorld (w_backend w) (w_env w) (set_account a (with_account_info (set_nonce n) acc) (w_state w))) t).
Definition load_account (a : Address) (t : Test) : result unit string * Test :=
  let w := t_world t in
  let '(r, (js, b)) := load_db a (w_state w) (w_backend w) in
  (match r with Ok _ => Ok tt | Err e => Err (display_backend_error (DbFailure e)) end, in_world (mkWorld b (w_env w) js) t).

Definition apply_broadcast (call : CallInputs) (is_static : bool) (t : Test) : exec (option CallResult * CallInputs * Test) :=
  match c_broadcast (t_cheats t) with
  | None => Ret (None, call, t)
  | Some b =>
      if (depth t =? bc_depth b) && (cx_caller (ci_context call) =? bc_original_caller b) then
        let t := with_env (set_tx_caller (bc_new_origin b)) t in
        let call := set_call_caller (bc_new_origin b) call in
        if negb is_static then
          let '(r, t) := load_account (bc_new_origin b) t in
          match r with
          | Err e => Ret (Some (IRevert, gas_new (ci_gas_limit call), abi_encode_string e), call, t)
          | Ok _ =>
              let fixed := check_if_fixed_gas_limit (w_env (t_world t)) (ci_gas_limit call) in
              '(nonce, t') ← bump_nonce (bc_new_origin b) t;
              Ret (None, call,
                   push_broadcastable
                     (mkBroadcastable (active_fork_url (w_backend (t_world t))) (bc_new_origin b) (Some (ci_contract call))
                        (tr_value (ci_transfer call)) (ci_input call) nonce (if fixed then Some (ci_gas_limit call) else None)) t')
          end
        else if bc_single_call b then
          Ret (Some (IRevert, gas_new 0, abi_encode_string
                 "Staticcalls are not allowed after vm.broadcast. Either remove it, or use vm.startBroadcast instead."), call, t)
        else Ret (None, call, t)
      else Ret (None, call, t)
  end.

Definition call (inputs : CallInputs) (is_static : bool) (t : Test) : exec (CallResult * CallInputs * Test) :=
  let gas := gas_new (ci_gas_limit inputs) in
  if decide (ci_contract inputs = CHEATCODE_ADDRESS) then
    '(r, t) ← apply_cheatcode establish evm_run config try_resolve (cx_caller (ci_context inputs)) (ci_input inputs) t;
    Ret (match r with Ok retdata => (IReturn, gas, retdata) | Err e => (IRevert, gas, cheat_encode_error e) end, inputs, t)
  else if decide (ci_contract inputs <> HARDHAT_CONSOLE_ADDRESS) then
    calls ← count_calls inputs (c_expected_calls (t_cheats t));
    let t := with_cheats (with_expected_calls calls (t_cheats t)) t in
    match find_mock inputs (c_mocked_calls (t_cheats t)) with
    | Some mock => Ret ((mr_ret_type mock, gas, mr_data mock), inputs, t)
    | None =>
        let '(inputs, t) := apply_prank inputs t in
        '(o, inputs, t) ← apply_broadcast inputs is_static t;
        Ret (default (Continue, gas_new (ci_gas_limit inputs), []) o, inputs, t)
    end
  else Ret ((Continue, gas, []), inputs, t).

(** ** After a call *)
Definition clean_prank (t : Test) : Test :=
  match c_prank (t_cheats t) with
  | None => t
  | Some p =>
      let t := if depth t =? pk_depth p then with_env (set_tx_caller (pk_prank_origin p)) t else t in
      if pk_single_call p then with_cheats (with_prank None (t_cheats t)) t else t
  end.
Definition clean_broadcast (t : Test) : Test :=
  match c_broadcast (t_cheats t) with
  | None => t
  | Some b =>
      let t := if depth t =? bc_depth b then with_env (set_tx_caller (bc_original_origin b)) t else t in
      if bc_single_call b then with_cheats (with_broadcast None (t_cheats t)) t else t
  end.
(** The expected revert that is due at this depth, taken out. *)
Definition due_revert (t : Test) : option ExpectedRevert :=
  er ← c_expected_revert (t_cheats t);
  if depth t <=? er_depth er then Some er else None.
Definition take_revert (t : Test) : Test := with_cheats (with_expected_revert None (t_cheats t)) t.

Definition unmet_message (status : InstructionResult) (address : Address) (calldata : list byte) (entry : ExpectedCallData * Z) : string :=
  let '(expected, actual) := entry in
  let values := ("data 0x" +:+ hex_encode calldata) ::
    option_list ((fun v => "value " +:+ pretty v) <$> ec_value expected) ++
    option_list ((fun g => "gas " +:+ pretty g) <$> ec_gas expected) ++
    option_list ((fun g => "minimum gas " +:+ pretty g) <$> ec_min_gas expected) in
  "Expected call to " +:+ debug_address address +:+ " with " +:+ String.concat " and " values +:+ " to be called " +:+
  pretty (ec_count expected) +:+
  (if return_ok status then " time(s), but was called " +:+ pretty actual +:+ " time(s)"
   else " time(s), but the call reverted instead. Ensure you're testing the happy path when using the expectCall cheatcode").
Definition leftover_emit_message (status : InstructionResult) : string :=
  if return_ok status then
    "Expected an emit, but no logs were emitted afterward. You might have mismatched events or not enough events were emitted."
  else "Expected an emit, but the call reverted instead. Ensure you're testing the happy path when using the `expectEmit` cheatcode.".

(** The checks at the end of the outermost call. *)
Definition check_root (status : InstructionResult) (gas : Gas) (t : Test) : option CallResult * Test :=
  let c := t_cheats t in
  match unmet_call (c_expected_calls c) with
  | Some (address, calldata, entry) => (Some (IRevert, gas, abi_encode_string (unmet_message status address calldata entry)), t)
  | None =>
      let emits := filter (fun e => em_found e = false) (c_expected_emits c) in
      let t := with_cheats (with_expected_emits emits c) t in
      match emits with
      | [] => (None, t)
      | _ => (Some (IRevert, gas, abi_encode_string (leftover_emit_message status)), t)
      end
  end.

(** [to_error_msg] *)
Definition get_label (c : Cheatcodes) (a : Address) : string := default (pretty_address a) (c_labels c !! a).
Definition to_error_msg (c : Cheatcodes) (d : RevertDiagnostic) : string :=
  match d with
  | ContractExistsOnOtherForks contract active available_on =>
      "Contract " +:+ get_label c contract +:+ " does not exist on active fork with id `" +:+ pretty active +:+
      "`
        But exists on non active forks: `[" +:+ String.concat ", " (pretty <$> available_on) +:+ "]`"
  | ContractDoesNotExist contract _ persistent =>
      if persistent then "Contract " +:+ get_label c contract +:+ " does not exist"
      else "Contract " +:+ get_label c contract +:+ " does not exist and is not marked as persistent, see `vm.makePersistent()`"
  end.
Definition diagnose_next (inputs : CallInputs) (status : InstructionResult) (t : Test) : exec Test :=
  match env_transact_to (ev_tx (w_env (t_world t))) with
  | TransactToCall test_contract =>
      if bool_decide (is_Some (active_fork_id (w_backend (t_world t)))) && bool_decide (status = IStop) &&
         negb (ci_contract inputs =? test_contract) then
        d ← diagnose_revert (w_backend (t_world t)) (ci_contract inputs) (w_state (t_world t));
        Ret (with_cheats (with_fork_revert_diagnostic d (t_cheats t)) t)
      else Ret t
  | TransactToCreate => Ret t
  end.
Definition diagnose (inputs : CallInputs) (status : InstructionResult) (gas : Gas) (retdata : list byte) (t : Test) : exec (CallResult * Test) :=
  let diagnostic := c_fork_revert_diagnostic (t_cheats t) in
  let t := with_cheats (with_fork_revert_diagnostic None (t_cheats t)) t in
  match diagnostic, status with
  | Some d, IRevert => Ret ((status, gas, abi_encode_string (to_error_msg (t_cheats t) d)), t)
  | _, _ => t ← diagnose_next inputs status t; Ret ((status, gas, retdata), t)
  end.

Definition should_check_emits (inputs : CallInputs) (t : Test) : bool :=
  existsb (fun e => em_depth e =? depth t) (c_expected_emits (t_cheats t)) && negb (ci_is_static inputs).
Definition call_end (inputs : CallInputs) (gas : Gas) (status : InstructionResult) (retdata : list byte) (t : Test)
    : exec (CallResult * Test) :=
  if decide (ci_contract inputs = CHEATCODE_ADDRESS \/ ci_contract inputs = HARDHAT_CONSOLE_ADDRESS) then
    Ret ((status, gas, retdata), t)
  else if (depth t =? 0) && c_skip (t_cheats t) then Ret ((IRevert, gas, MAGIC_SKIP_BYTES), t)
  else
    let t := clean_broadcast (clean_prank t) in
    match due_revert t with
    | Some er =>
        Ret (match handle_expect_revert false (er_reason er) status retdata with
             | Err e => (IRevert, gas, encode_error e)
             | Ok (_, retdata) => (IReturn, gas, retdata)
             end, take_revert t)
    | None =>
        let check := should_check_emits inputs t in
        if check && existsb (fun e => negb (em_found e)) (c_expected_emits (t_cheats t)) then
          Ret ((IRevert, gas, abi_encode_string "Log != expected log"), t)
        else
          let t := if check then with_cheats (with_expected_emits [] (t_cheats t)) t else t in
          let '(o, t) := if depth t =? 0 then check_root status gas t else (None, t) in
          match o with
          | Some r => Ret (r, t)
          | None => diagnose inputs status gas retdata t
          end
    end.

(** ** Creations *)
Definition CreateResult : Type := InstructionResult * option Address * Gas * list byte.

(** [get_create_address] *)
Definition get_create_address (c : CreateInputs) (nonce : Z) : Address :=
  match cin_scheme c with
  | SchemeCreate => create_address (cin_caller c) nonce
  | SchemeCreate2 salt => create2_address (cin_caller c) (to_be_bytes 32 salt) (cin_init_code c)
  end.
Definition allow_cheatcodes_on_create (c : CreateInputs) (t : Test) : Test :=
  let w := t_world t in
  let old_nonce := default 0 ((fun acc => AccountInfo.nonce (acc_info acc)) <$> js_state (w_state w) !! cin_caller c) in
  let created := get_create_address c old_nonce in
  if (1 <? depth t) && negb (has_cheatcode_access (cin_caller c) (w_backend w)) then t
  else in_world (mkWorld (snd (allow_cheatcode_access created (w_backend w))) (w_env w) (w_state w)) t.
Definition apply_prank_create (c : CreateInputs) (t : Test) : CreateInputs * Test :=
  match c_prank (t_cheats t) with
  | None => (c, t)
  | Some p =>
      if (pk_depth p <=? depth t) && (cin_caller c =? pk_prank_caller p) then
        (if depth t =? pk_depth p then set_create_caller (pk_new_caller p) c else c,
         match pk_new_origin p with Some o => with_env (set_tx_caller o) t | None => t end)
      else (c, t)
  end.

(** [process_create]: the data, the target and the nonce of the transaction
    that creates the contract. *)
Definition MISSING_CREATE2_DEPLOYER : string :=
  "CREATE2 Deployer not present on this chain. [0x4e59b44847b379578588920ca78fbf26c0b4956c]".
Definition process_create (sender : Address) (bytecode : list byte) (c : CreateInputs) (t : Test)
    : exec (result (list byte * option Address * Z) string * CreateInputs * Test) :=
  match cin_scheme c with
  | SchemeCreate =>
      acc ← expect (js_state (w_state (t_world t)) !! sender) "Account expected to be loaded";
      Ret (Ok (bytecode, None, AccountInfo.nonce (acc_info acc)), set_create_caller sender c, t)
  | SchemeCreate2 salt =>
      let '(r, t) := load_account DEFAULT_CREATE2_DEPLOYER t in
      match r with
      | Err e => Ret (Err e, c, t)
      | Ok _ =>
          acc ← expect (js_state (w_state (t_world t)) !! DEFAULT_CREATE2_DEPLOYER) "Account expected to be loaded";
          let code :=
            match AccountInfo.code (acc_info acc) with
            | Some code => Ok code
            | None =>
                match code_by_hash (AccountInfo.code_hash (acc_info acc)) (w_backend (t_world t)) with
                | Ok code => Ok code
                | Err e => Err (display_backend_error (DbFailure e))
                end
            end in
          match code with
          | Err e => Ret (Err e, c, t)
          | Ok [] => Ret (Err MISSING_CREATE2_DEPLOYER, c, t)
          | Ok _ =>
              '(nonce, t) ← bump_nonce sender t;
              Ret (Ok (to_be_bytes 32 salt ++ bytecode, Some DEFAULT_CREATE2_DEPLOYER, nonce),
                   set_create_caller DEFAULT_CREATE2_DEPLOYER c, t)
          end
      end
  end.
Definition apply_broadcast_create (c : CreateInputs) (t : Test) : exec (option CreateResult * CreateInputs * Test) :=
  match c_broadcast (t_cheats t) with
  | None => Ret (None, c, t)
  | Some b =>
      if (bc_depth b <=? depth t) && (cin_caller c =? bc_original_caller b) then
        let fail e : CreateResult := (IRevert, None, gas_new (cin_gas_limit c), abi_encode_string e) in
        let '(r, t) := load_account (bc_new_origin b) t in
        match r with
        | Err e => Ret (Some (fail e), c, t)
        | Ok _ =>
            let t := with_env (set_tx_caller (bc_new_origin b)) t in
            if depth t =? bc_depth b then
              '(r, c, t) ← process_create (bc_new_origin b) (cin_init_code c) c t;
              match r with
              | Err e => Ret (Some (fail e), c, t)
              | Ok (bytecode, to, nonce) =>
                  let fixed := check_if_fixed_gas_limit (w_env (t_world t)) (cin_gas_limit c) in
                  Ret (None, c,
                       push_broadcastable
                         (mkBroadcastable (active_fork_url (w_backend (t_world t))) (bc_new_origin b) to (cin_value c) bytecode nonce
                            (if fixed then Some (cin_gas_limit c) else None)) t)
              end
            else Ret (None, c, t)
        end
      else Ret (None, c, t)
  end.
Definition create (c : CreateInputs) (t : Test) : exec (CreateResult * CreateInputs * Test) :=
  let t := allow_cheatcodes_on_create c t in
  let '(c, t) := apply_prank_create c t in
  '(o, c, t) ← apply_broadcast_create c t;
  Ret (default (Continue, None, gas_new (cin_gas_limit c), []) o, c, t).
Definition create_end (status : InstructionResult) (address : option Address) (gas : Gas) (retdata : list byte) (t : Test)
    : CreateResult * Test :=
  let t := clean_broadcast (clean_prank t) in
  match due_revert t with
  | Some er =>
      (match handle_expect_revert true (er_reason er) status retdata with
       | Ok (address, retdata) => (IReturn, address, gas, retdata)
       | Err e => (IRevert, None, gas, encode_error e)
       end, take_revert t)
  | None => ((status, address, gas, retdata), t)
  end.

(** ** After a revert *)

(** [while let Some(record) = self.eth_deals.pop()]: the deals from the last
    to the first. *)
Definition undo_deal (js : JournaledState) (d : DealRecord) : JournaledState :=
  match js_state js !! dl_address d with
  | Some acc => set_account (dl_address d) (with_account_info (set_balance (dl_old_balance d)) acc) js
  | None => js
  end.
Definition on_revert (t : Test) : Test :=
  let c := t_cheats t in
  if decide (is_Some (c_expected_revert c)) then t
  else if 0 <? depth t then t
  else
    let w := t_world t in
    mkTest (with_eth_deals [] c) (mkWorld (w_backend w) (w_env w) (fold_left undo_deal (reverse (c_eth_deals c)) (w_state w))).

(** [InspectorStack::call_end] with the cheatcode inspector: another status or
    another revert message takes the place of the call's. *)
Definition do_call_end (inputs : CallInputs) (gas : Gas) (status : InstructionResult) (retdata : list byte) (t : Test)
    : exec (CallResult * Test) :=
  '((new_status, new_gas, new_retdata), t) ← call_end inputs gas status retdata t;
  Ret (if bool_decide (new_status <> status \/ (new_status = IRevert /\ new_retdata <> retdata)) then (new_status, new_gas, new_retdata)
       else (status, gas, retdata), t).
Definition stack_call_end (inputs : CallInputs) (gas : Gas) (status : InstructionResult) (retdata : list byte) (t : Test)
    : exec (CallResult * Test) :=
  '(res, t) ← do_call_end inputs gas status retdata t;
  Ret (res, if return_revert (fst (fst res)) then on_revert t else t).
End Hooks.
