(* ===== verification/ExpectProps.v ===== *)
(** * What expectations and mocks promise (theorems about [Expect])

    Events are matched in the order in which they were expected; a call is
    answered by the most specific mock; calls are counted. *)
From S2P Require Import Prelude Transaction Executor Expect.
Open Scope Z_scope.

(** ** Orders *)
Record ordering {A} (cmp : A -> A -> comparison) : Prop := {
  ord_eq a b : cmp a b = Eq <-> a = b;
  ord_opp a b : cmp b a = CompOpp (cmp a b);
  ord_trans a b c : cmp a b = Lt -> cmp b c = Lt -> cmp a c = Lt }.

Section Orders.
Context {A : Type} (cmp : A -> A -> comparison) (O : ordering cmp).

Lemma cmp_le_total a b : cmp_le (cmp a b) = true \/ cmp_le (cmp b a) = true.
Proof using O. rewrite (ord_opp _ O a b). destruct (cmp a b); cbn; auto. Qed.
Lemma cmp_le_trans a b c : cmp_le (cmp a b) = true -> cmp_le (cmp b c) = true -> cmp_le (cmp a c) = true.
Proof using O.
  destruct (cmp a b) eqn:E1; [apply (ord_eq _ O) in E1 as ->; done| |done].
  destruct (cmp b c) eqn:E2; [apply (ord_eq _ O) in E2 as ->; by rewrite E1| |done].
  by rewrite (ord_trans _ O _ _ _ E1 E2).
Qed.
Lemma reverse_ordering : ordering (fun a b => CompOpp (cmp a b)).
Proof using O.
  split.
  - intros a b. rewrite <- (ord_eq _ O). destruct (cmp a b); cbn; naive_solver.
  - intros a b. by rewrite (ord_opp _ O).
  - intros a b c Hab Hbc. assert (cmp c a = Lt) as Hca; [|by rewrite (ord_opp _ O), Hca].
    apply (ord_trans _ O c b a); rewrite (ord_opp _ O); [by destruct (cmp b c)|by destruct (cmp a b)].
Qed.
End Orders.

Lemma Z_ordering : ordering Z.compare.
Proof.
  split; [apply Z.compare_eq_iff|intros a b; by rewrite Z.compare_antisym|].
  intros a b c. rewrite !Z.compare_lt_iff. lia.
Qed.
Lemma option_ordering : ordering option_cmp.
Proof.
  split; intros [a|] [b|]; cbn; try done.
  - rewrite Z.compare_eq_iff. naive_solver.
  - by rewrite Z.compare_antisym.
  - intros [c|]; cbn; [|done]. apply (ord_trans _ Z_ordering).
  - by intros [c|].
Qed.
Lemma bytes_ordering : ordering bytes_cmp.
Proof.
  split.
  - induction a as [|x a IH]; intros [|y b]; cbn; try done. destruct (x ?= y) eqn:E.
    + apply Z.compare_eq_iff in E as ->. rewrite IH. naive_solver.
    + rewrite Z.compare_lt_iff in E. split; [done|]. intros [= -> _]. lia.
    + rewrite Z.compare_gt_iff in E. split; [done|]. intros [= -> _]. lia.
  - induction a as [|x a IH]; intros [|y b]; cbn; try done. rewrite (Z.compare_antisym x y), IH. by destruct (x ?= y).
  - induction a as [|x a IH]; intros [|y b] [|z c]; cbn; try done.
    destruct (x ?= y) eqn:E1; [apply Z.compare_eq_iff in E1 as ->| |done].
    + destruct (y ?= z) eqn:E2; [by apply IH|done|done].
    + intros _. rewrite Z.compare_lt_iff in E1. destruct (y ?= z) eqn:E2; [apply Z.compare_eq_iff in E2 as ->| |done].
      * by rewrite (proj2 (Z.compare_lt_iff x z)).
      * rewrite Z.compare_lt_iff in E2. by rewrite (proj2 (Z.compare_lt_iff x z)) by lia.
Qed.
Lemma mock_ordering : ordering mock_cmp.
Proof.
  pose proof (reverse_ordering _ bytes_ordering) as B. pose proof (reverse_ordering _ option_ordering) as V. unfold mock_cmp. split.
  - intros [d v] [e w]. cbn. destruct (CompOpp (bytes_cmp d e)) eqn:E.
    + apply (ord_eq _ B) in E as ->. rewrite (ord_eq _ V v w). naive_solver.
    + split; [done|]. intros [= -> ->]. by rewrite (proj2 (ord_eq _ B e e)) in E.
    + split; [done|]. intros [= -> ->]. by rewrite (proj2 (ord_eq _ B e e)) in E.
  - intros [d v] [e w]. cbn. rewrite (ord_opp _ B d e), (ord_opp _ V v w). by destruct (CompOpp (bytes_cmp d e)).
  - intros [d v] [e w] [f u]. cbn. destruct (CompOpp (bytes_cmp d e)) eqn:E1; [apply (ord_eq _ B) in E1 as ->| |done].
    + destruct (CompOpp (bytes_cmp e f)); [apply (ord_trans _ V)|done|done].
    + intros _. destruct (CompOpp (bytes_cmp e f)) eqn:E2; [apply (ord_eq _ B) in E2 as ->; by rewrite E1| |done].
      intros _. by rewrite (ord_trans _ B _ _ _ E1 E2).
Qed.

(** The first entry of a map, in order, with a property. *)
Lemma btree_iter_perm `{Countable K} {V} le (m : gmap K V) : btree_iter le m ≡ₚ map_to_list m.
Proof. apply merge_sort_Permutation. Qed.
Lemma elem_of_btree_iter `{Countable K} {V} le (m : gmap K V) k v : (k, v) ∈ btree_iter le m <-> m !! k = Some v.
Proof. by rewrite (btree_iter_perm le m), elem_of_map_to_list. Qed.
Lemma StronglySorted_filter {A} (R : relation A) (P : A -> Prop) `{!forall x, Decision (P x)} l :
  StronglySorted R l -> StronglySorted R (filter P l).
Proof.
  induction 1 as [|x l Hs IH Hall]; [constructor|]. rewrite filter_cons. case_decide; [|done]. constructor; [done|].
  by apply Forall_filter.
Qed.
Lemma btree_first `{Countable K} {V} (cmp : K -> K -> comparison) (P : K * V -> Prop) `{!forall x, Decision (P x)} (m : gmap K V) :
  ordering cmp ->
  match head (filter P (btree_iter (fun a b => cmp_le (cmp a b)) m)) with
  | Some (k, v) => m !! k = Some v /\ P (k, v) /\ forall k' v', m !! k' = Some v' -> P (k', v') -> cmp_le (cmp k k') = true
  | None => forall k v, m !! k = Some v -> ~ P (k, v)
  end.
Proof.
  intros O. set (le := fun a b => cmp_le (cmp a b)).
  assert (StronglySorted (entry_le le) (btree_iter le m)) as Hsort.
  { apply StronglySorted_merge_sort.
    - intros [a ?] [b ?] [c ?]. unfold entry_le. cbn. apply (cmp_le_trans _ O).
    - intros [a ?] [b ?]. unfold entry_le. cbn. apply (cmp_le_total _ O). }
  destruct (filter P (btree_iter le m)) as [|[k v] rest] eqn:E; cbn.
  - intros k v Hk HP. assert ((k, v) ∈ filter P (btree_iter le m)) as Hin; [|by rewrite E in Hin; apply elem_of_nil in Hin].
    apply list_elem_of_filter. by rewrite elem_of_btree_iter.
  - assert ((k, v) ∈ filter P (btree_iter le m)) as Hin by (rewrite E; by left). apply list_elem_of_filter in Hin as [HP Hin].
    apply elem_of_btree_iter in Hin. split_and!; [done|done|]. intros k' v' Hk' HP'.
    assert ((k', v') ∈ filter P (btree_iter le m)) as Hin' by (apply list_elem_of_filter; by rewrite elem_of_btree_iter).
    rewrite E in Hin'. apply elem_of_cons in Hin' as [[= -> ->]|Hin'].
    + destruct (cmp_le_total _ O k k); done.
    + assert (StronglySorted (entry_le le) ((k, v) :: rest)) as Hs by (rewrite <- E; by apply StronglySorted_filter).
      apply StronglySorted_cons in Hs as [Hall _]. rewrite Forall_forall in Hall. by apply (Hall _ Hin').
Qed.

(** ** Mocks *)
Lemma starts_with_prefix c x : starts_with c x = true <-> c `prefix_of` x.
Proof.
  revert x. induction c as [|a c IH]; intros [|b x]; cbn.
  - split; [intros; apply prefix_nil|done].
  - split; [intros; apply prefix_nil|done].
  - split; [done|]. intros H%prefix_nil_inv. done.
  - rewrite andb_true_iff, Z.eqb_eq, IH. split.
    + intros [-> H]. by apply prefix_cons.
    + intros H. split; [by eapply prefix_cons_inv_1|by eapply prefix_cons_inv_2].
Qed.

(** Of two prefixes of one sequence the greater one is the longer one. *)
Lemma prefix_cmp c d x : c `prefix_of` x -> d `prefix_of` x -> bytes_cmp c d <> Gt -> (length c <= length d)%nat.
Proof.
  revert d x. induction c as [|a c IH]; intros [|b d] x Hc Hd; cbn; try lia; [done|].
  destruct x as [|y x]; [by apply prefix_nil_inv in Hc|].
  rewrite (prefix_cons_inv_1 _ _ _ _ Hc), (prefix_cons_inv_1 _ _ _ _ Hd), Z.compare_refl. intros Hle.
  apply le_n_S, (IH d x); [by eapply prefix_cons_inv_2|by eapply prefix_cons_inv_2|done].
Qed.
Lemma prefix_le c x : c `prefix_of` x -> bytes_cmp c x <> Gt.
Proof.
  revert x. induction c as [|a c IH]; intros [|b x] Hp; cbn; try done; [by apply prefix_nil_inv in Hp|].
  rewrite (prefix_cons_inv_1 _ _ _ _ Hp), Z.compare_refl. apply IH. by eapply prefix_cons_inv_2.
Qed.
Lemma prefix_length_eq (c d x : list byte) : c `prefix_of` x -> d `prefix_of` x -> length c = length d -> c = d.
Proof. intros [c' ->] [d' Hd] Hlen. by apply app_inj_1 in Hd as [-> _]. Qed.

(** C33: A call of a contract with mocks is answered by the most specific one: among
    those whose call data are a prefix of the call's and whose value, if they have one, is
    the call's, the one with the longest call data, and then one with a value;
    and a call that no mock matches is not answered. *)
Theorem mock_most_specific inputs mocks table :
  mocks !! ci_contract inputs = Some table ->
  match find_mock inputs mocks with
  | None => forall m, is_Some (table !! m) -> mock_matches inputs m = false
  | Some ret => exists m, table !! m = Some ret /\ mock_matches inputs m = true /\
      forall m', is_Some (table !! m') -> mock_matches inputs m' = true ->
        (length (mk_calldata m') < length (mk_calldata m))%nat \/
        (mk_calldata m' = mk_calldata m /\ (mk_value m' = mk_value m \/ mk_value m' = None))
  end.
Proof.
  intros Ht. unfold find_mock. rewrite Ht. cbn [mbind option_bind].
  assert (forall m m', mock_matches inputs m = true -> mock_matches inputs m' = true -> mock_le m m' = true ->
    (length (mk_calldata m') < length (mk_calldata m))%nat \/
    (mk_calldata m' = mk_calldata m /\ (mk_value m' = mk_value m \/ mk_value m' = None))) as Hbest.
  { intros [c v] [c' v']. unfold mock_matches, mock_le, mock_cmp. cbn. rewrite !andb_true_iff, !starts_with_prefix. intros [Hc Hv] [Hc' Hv'] Hle.
    assert (bytes_cmp c' c <> Gt) as Hcmp.
    { rewrite (ord_opp _ bytes_ordering c c'). by destruct (bytes_cmp c c'). }
    pose proof (prefix_cmp _ _ _ Hc' Hc Hcmp). destruct (decide (length c' = length c)) as [Heq|]; [|left; lia]. right.
    pose proof (prefix_length_eq _ _ _ Hc' Hc Heq) as ->. split; [done|].
    rewrite (proj2 (ord_eq _ bytes_ordering c c)) in Hle by done. cbn in Hle.
    destruct v as [v|], v' as [v'|]; cbn in *; try by auto. left. apply Z.eqb_eq in Hv, Hv'. congruence. }
  destruct (table !! mkMock (ci_input inputs) (Some (tr_value (ci_transfer inputs)))) as [ret|] eqn:Hexact.
  - eexists. split; [exact Hexact|].
    assert (mock_matches inputs (mkMock (ci_input inputs) (Some (tr_value (ci_transfer inputs)))) = true) as Hm.
    { unfold mock_matches. cbn. rewrite Z.eqb_refl, andb_true_r. by apply starts_with_prefix. }
    split; [done|]. intros m' _ Hm'. apply Hbest; [done|done|].
    assert (mk_calldata m' `prefix_of` ci_input inputs) as Hp.
    { unfold mock_matches in Hm'. apply andb_true_iff in Hm' as [Hm' _]. by apply starts_with_prefix. }
    unfold mock_le, mock_cmp. cbn. pose proof (prefix_le _ _ Hp) as Hle. rewrite (ord_opp _ bytes_ordering (mk_calldata m')).
    unfold mock_matches in Hm'. apply andb_true_iff in Hm' as [_ Hv].
    destruct (bytes_cmp (mk_calldata m') (ci_input inputs)); cbn in *; [|done|done].
    destruct (mk_value m') as [v|]; cbn; [|done]. apply Z.eqb_eq in Hv as ->. by rewrite Z.compare_refl.
  - pose proof (btree_first mock_cmp (fun x => mock_matches inputs x.1 = true) table mock_ordering) as Hfirst.
    change (fun a b => cmp_le (mock_cmp a b)) with mock_le in Hfirst.
    destruct (head (filter _ (btree_iter mock_le table))) as [[m ret]|]; cbn.
    + destruct Hfirst as (Hm & Hmm & Hmin). exists m. split_and!; [done|done|]. intros m' [r' Hr'] Hm'. apply Hbest; [done|done|].
      by apply (Hmin m' r').
    + intros m [r Hr]. apply not_true_iff_false. by apply (Hfirst m r).
Qed.

(** ** Events *)

(** What it means that an event is the expected one. *)
Definition emit_matches (e : ExpectedEmit) (log : Address * RawLog) : Prop :=
  exists expected, em_log e = Some expected /\
    (exists topic, head (raw_topics expected) = Some topic /\ head (raw_topics log.2) = Some topic) /\
    length (raw_topics expected) = length (raw_topics log.2) /\
    (forall i, em_checks e !! i = Some true -> (i < 3)%nat -> raw_topics expected !! S i = raw_topics log.2 !! S i) /\
    (forall a, em_address e = Some a -> a = log.1) /\
    (em_checks e !! 3%nat = Some true -> raw_data expected = raw_data log.2).
(** An expected event whose log the test has filled in, and that was not seen
    yet; the EVM has no logs with more than four topics. *)
Definition waiting (e : ExpectedEmit) : Prop :=
  em_found e = false /\ length (em_checks e) = 4%nat /\
  exists expected, em_log e = Some expected /\ (length (raw_topics expected) <= 4)%nat.
(** The events occur in the logs, in this order. *)
Inductive emitted_in_order : list ExpectedEmit -> list (Address * RawLog) -> Prop :=
| in_order_none logs : emitted_in_order [] logs
| in_order_skip es log logs : emitted_in_order es logs -> emitted_in_order es (log :: logs)
| in_order_take e es log logs : emit_matches e log -> emitted_in_order es logs -> emitted_in_order (e :: es) (log :: logs).

Lemma in_order_tail e es logs : emitted_in_order (e :: es) logs -> emitted_in_order es logs.
Proof.
  remember (e :: es) as l eqn:E. intros H. revert e es E. induction H; intros; simplify_eq; [|by constructor].
  constructor. by eapply IHemitted_in_order.
Qed.
(** Matching an event at the first occasion loses nothing. *)
Lemma in_order_greedy e es log logs :
  emit_matches e log -> emitted_in_order (e :: es) (log :: logs) <-> emitted_in_order es logs.
Proof.
  intros Hm. split; [|by apply in_order_take]. inversion 1; subst; [by eapply in_order_tail|done].
Qed.
Lemma in_order_wait e es log logs :
  ~ emit_matches e log -> emitted_in_order (e :: es) (log :: logs) <-> emitted_in_order (e :: es) logs.
Proof. intros Hm. split; [|by constructor]. by inversion 1; subst. Qed.

Lemma topics_match_spec checks topics expected i :
  (i + length topics <= length checks)%nat -> length expected = (S i + length topics)%nat ->
  exists b, topics_match checks i topics expected = Ret b /\
    (b = true <-> forall j, checks !! (i + j)%nat = Some true -> (j < length topics)%nat -> expected !! (S i + j)%nat = topics !! j).
Proof.
  revert i. induction topics as [|t topics IH]; intros i Hc He; [eexists; split; [done|]; split; [cbn; lia|done]|].
  set (P := fun j => checks !! (i + j)%nat = Some true -> (j < S (length topics))%nat -> expected !! S (i + j)%nat = (t :: topics) !! j).
  change (exists b, topics_match checks i (t :: topics) expected = Ret b /\ (b = true <-> forall j, P j)). cbn in Hc, He |- *.
  destruct (checks !! i) as [check|] eqn:E; [|apply lookup_ge_None_1 in E; lia]. cbn.
  destruct (IH (S i)) as (b & Hb & Hspec); [lia|lia|].
  assert ((forall j, checks !! (S i + j)%nat = Some true -> (j < length topics)%nat -> expected !! (S (S i) + j)%nat = topics !! j) <->
          (forall j, checks !! (i + S j)%nat = Some true -> (S j < S (length topics))%nat -> expected !! S (i + S j)%nat = (t :: topics) !! S j)) as Hstep.
  { cbn. split; intros H j; specialize (H j).
    - rewrite <- plus_n_Sm. intros. apply H; [done|lia].
    - cbn. rewrite <- plus_n_Sm in H. intros. apply H; [done|lia]. }
  assert ((forall j, P j) <-> P 0%nat /\ forall j, P (S j)) as Hsplit by (split; [auto|]; intros [? ?] [|]; auto).
  change (forall j, P (S j)) with (forall j, checks !! (i + S j)%nat = Some true -> (S j < S (length topics))%nat -> expected !! S (i + S j)%nat = (t :: topics) !! S j) in Hsplit.
  rewrite <- Hstep, <- Hspec in Hsplit. unfold P in Hsplit at 2. cbn in Hsplit. rewrite Nat.add_0_r in Hsplit. clear Hstep Hspec.
  destruct check; cbn.
  - destruct (expected !! S i) as [x|] eqn:Ex; [|apply lookup_ge_None_1 in Ex; lia]. cbn. destruct (decide (t = x)) as [->|Hne].
    + exists b. rewrite Hb, Hsplit. split; [done|]. split; [|by intros [_ ?]]. by auto.
    + exists false. rewrite Hsplit. split; [done|]. split; [done|]. intros [H _]. specialize (H E). destruct Hne. injection H; [done|lia].
  - exists b. rewrite Hb, Hsplit. split; [done|]. split; [|by intros [_ ?]]. intros H. split; [|done]. by rewrite E.
Qed.

Lemma check_emit_spec e expected log :
  em_log e = Some expected -> waiting e ->
  exists b, check_emit e expected log.2 log.1 = Ret b /\ (b = true <-> emit_matches e log).
Proof.
  intros He (Hf & Hc & expected' & He' & Hlen). simplify_eq. unfold check_emit.
  destruct (head (raw_topics expected)) as [t|] eqn:Et.
  2:{ exists false. rewrite Hf. split; [done|]. split; [done|]. intros (? & ? & (? & ? & _) & _). by simplify_eq. }
  destruct (head (raw_topics log.2)) as [t'|] eqn:Et'.
  2:{ exists false. rewrite Hf. split; [done|]. split; [done|]. intros (? & ? & (? & _ & ?) & _). by simplify_eq. }
  case_bool_decide as Hsame.
  2:{ exists false. rewrite Hf. split; [done|]. split; [done|]. intros (? & ? & (? & ? & ?) & ? & _). simplify_eq. by destruct Hsame. }
  destruct Hsame as [<- Hl]. destruct (raw_topics expected) as [|? te] eqn:Ee, (raw_topics log.2) as [|? tl] eqn:El; simplify_eq/=.
  destruct (topics_match_spec (em_checks e) tl (t :: te) 0) as (b & Hb & Hspec); [lia|cbn; lia|]. rewrite Hb. cbn.
  destruct (em_checks e !! 3%nat) as [c|] eqn:E3; [|apply lookup_ge_None_1 in E3; lia]. cbn.
  eexists. split; [done|].
  assert (b = true <-> forall i, em_checks e !! i = Some true -> (i < 3)%nat -> te !! i = tl !! i) as Hb'.
  { rewrite Hspec. split; intros H i Hi ?; [|apply H; [done|lia]].
    destruct (decide (i < length tl)%nat); [by apply H|]. rewrite !lookup_ge_None_2 by lia. done. }
  assert (emit_matches e log <->
    b = true /\ (forall a, em_address e = Some a -> a = log.1) /\ (c = true -> raw_data expected = raw_data log.2)) as ->.
  { rewrite Hb'. split.
    - intros (x & ? & _ & _ & Ht & Ha & Hd). simplify_eq. rewrite Ee, El in Ht. split_and!; [done|done|]. intros ->. by apply Hd.
    - intros (Ht & Ha & Hd). exists expected. rewrite Ee, El. split_and!; [done|by exists t|cbn; lia|done|done|]. intros ?. apply Hd. congruence. }
  destruct (em_address e) as [a|], c, b; cbn; rewrite ?andb_true_iff, ?bool_decide_eq_true; naive_solver.
Qed.

Definition see_emits (es : list ExpectedEmit) (logs : list (Address * RawLog)) : exec (list ExpectedEmit) :=
  foldM (fun es log => handle_expect_emit es log.2 log.1) es logs.

Lemma waiting_filled es found :
  Forall waiting es -> Forall (fun e => is_Some (em_log e)) found ->
  existsb (fun e => match em_log e with None => true | Some _ => false end) (es ++ found) = false.
Proof.
  intros Hw Hf. apply not_true_iff_false. rewrite existsb_exists. intros (e & Hin & He).
  apply list_elem_of_In, elem_of_app in Hin. rewrite Forall_forall in Hw, Hf. destruct Hin as [Hin|Hin].
  - destruct (Hw _ Hin) as (_ & _ & ? & Hl & _). by rewrite Hl in He.
  - destruct (Hf _ Hin) as [? Hl]. by rewrite Hl in He.
Qed.

Lemma all_found found : Forall (fun e => em_found e = true /\ is_Some (em_log e)) found -> forallb em_found found = true.
Proof. intros Hf. apply forallb_forall. intros e He. rewrite Forall_forall in Hf. by apply Hf, list_elem_of_In. Qed.

(** One log: the first event that waits is seen or not. *)
Lemma handle_waiting e es found log :
  Forall waiting (e :: es) -> Forall (fun e => em_found e = true /\ is_Some (em_log e)) found ->
  exists b : bool, (b = true <-> emit_matches e log) /\
    handle_expect_emit ((e :: es) ++ found) log.2 log.1 =
      Ret (if b then es ++ found ++ [set_found true e] else (e :: es) ++ found).
Proof.
  intros Hw Hf. unfold handle_expect_emit. pose proof Hw as [He Hw']%Forall_cons.
  rewrite (waiting_filled (e :: es) found) by (done || (eapply Forall_impl; [done|]; by intros ? [_ ?])).
  cbn. assert (em_found e = false) as -> by apply He. cbn.
  pose proof He as (Hn & Hc & expected & Hl & Hlen). rewrite Hl.
  destruct (check_emit_spec e expected log Hl He) as (b & -> & Hb). exists b. split; [done|]. cbn. destruct b; [by rewrite app_assoc|].
  do 2 f_equal. destruct e; cbn in *; by subst.
Qed.

(** The queue while logs come in: the events that still wait, then those that
    were seen. *)
Lemma see_emits_spec es found logs :
  Forall waiting es -> Forall (fun e => em_found e = true /\ is_Some (em_log e)) found ->
  exists es', see_emits (es ++ found) logs = Ret es' /\ (forallb em_found es' = true <-> emitted_in_order es logs) /\
    map em_depth es' ≡ₚ map em_depth (es ++ found).
Proof.
  revert es found. induction logs as [|log logs IH]; intros es found Hw Hf; unfold see_emits in *; cbn [foldM].
  - eexists. split; [done|]. split; [|done]. destruct es as [|e es].
    + split; [intros; constructor|]. intros _. by apply all_found.
    + cbn. apply Forall_cons in Hw as [(He & _) _]. rewrite He. split; [done|]. by inversion 1.
  - destruct es as [|e es].
    + assert (handle_expect_emit ([] ++ found) log.2 log.1 = Ret found) as ->.
      { unfold handle_expect_emit. cbn. by rewrite all_found. }
      destruct (IH [] found Hw Hf) as (es' & Hes' & Hes & Hd).
      exists es'. split_and!; [done| |done]. rewrite Hes. split; intros; constructor.
    + destruct (handle_waiting e es found log Hw Hf) as (b & Hb & ->). pose proof Hw as [He Hw']%Forall_cons. cbn [mbind exec_bind].
      destruct b.
      * destruct (IH es (found ++ [set_found true e]) Hw') as (es' & Hes & Hiff & Hd).
        { apply Forall_app. split; [done|]. apply Forall_singleton. cbn. destruct He as (_ & _ & ? & -> & _). eauto. }
        exists es'. split_and!; [done| |].
        -- rewrite Hiff, in_order_greedy; [done|]. by apply Hb.
        -- rewrite Hd, app_assoc, map_app. cbn. by rewrite Permutation_app_comm.
      * destruct (IH (e :: es) found Hw Hf) as (es' & Hes & Hiff & Hd). exists es'. split_and!; [done| |done].
        rewrite Hiff, in_order_wait; [done|]. intros Hm. by apply Hb in Hm.
Qed.

(** ** Calls *)
Definition tracked (calls : ExpectedCallTracker) (a : Address) (calldata : list byte) : option (ExpectedCallData * Z) :=
  expecteds ← calls !! a; expecteds !! calldata.
(** The calls that an expectation counts. *)
Definition counted (a : Address) (calldata : list byte) (expected : ExpectedCallData) (cs : list CallInputs) : Z :=
  Z.of_nat (length (filter (fun c => ci_contract c = a /\ call_matches calldata expected c = true) cs)).

Lemma update_each `{Countable K} {V} (f : K -> V -> exec V) (g : K -> V -> V) (l : list (K * V)) (m : gmap K V) :
  (forall k v, (k, v) ∈ l -> f k v = Ret (g k v)) ->
  exists m', foldM (fun m '(k, v) => w ← f k v; Ret (<[k := w]> m)) m l = Ret m' /\
    (forall k v, (k, v) ∈ l -> NoDup l.*1 -> m' !! k = Some (g k v)) /\ forall k, k ∉ l.*1 -> m' !! k = m !! k.
Proof.
  revert m. induction l as [|[k v] l IH]; intros m Hf; cbn; [exists m; split_and!; [done|set_solver|done]|].
  rewrite (Hf k v) by left. cbn. destruct (IH (<[k := g k v]> m)) as (m' & -> & Hin & Hout); [set_solver|].
  exists m'. split_and!; [done| |].
  - intros k' v' Hk' [Hk Hnd]%NoDup_cons. apply elem_of_cons in Hk' as [[= -> ->]|Hk']; [|by apply Hin].
    rewrite Hout by done. by rewrite lookup_insert_eq.
  - intros k' [Hne Hk']%not_elem_of_cons. rewrite Hout by done. by rewrite lookup_insert_ne.
Qed.

Lemma count_calls_spec c calls :
  (forall a data e n, tracked calls a data = Some (e, n) -> n + 1 <= U64_MAX) ->
  exists calls', count_calls c calls = Ret calls' /\
    forall a data, tracked calls' a data = (fun x => (x.1, x.2 + counted a data x.1 [c])) <$> tracked calls a data.
Proof.
  unfold count_calls, tracked, ExpectedCallTracker in *. intros Hmax.
  assert (forall a data e n, a <> ci_contract c -> n + counted a data e [c] = n) as Hother.
  { intros a data e n Ha. unfold counted. rewrite filter_cons, decide_False by (intros [? _]; congruence). cbn. lia. }
  destruct (calls !! ci_contract c) as [m|] eqn:Em.
  2:{ exists calls. split; [done|]. intros a data. destruct (calls !! a) as [m|] eqn:Ea; cbn; [|done].
      destruct (m !! data) as [[e n]|] eqn:Ed; cbn; [|done]. by rewrite Hother by congruence. }
  set (g := fun (data : list byte) (x : ExpectedCallData * Z) => if call_matches data x.1 c then (x.1, x.2 + 1) else x).
  destruct (update_each (count_call c) g (btree_iter bytes_le m) m) as (m' & Hm' & Hin & Hout).
  { intros data [e n] Hd. apply elem_of_btree_iter in Hd. unfold count_call, g. cbn. destruct (call_matches _ _ _); [|done].
    unfold u64_add. rewrite decide_True by (apply (Hmax (ci_contract c) data e); by rewrite Em). done. }
  rewrite Hm'. cbn. eexists. split; [done|]. intros a data. destruct (decide (a = ci_contract c)) as [->|Ha].
  2:{ rewrite lookup_insert_ne by done. destruct (calls !! a) as [x|] eqn:Ex; cbn; [|done]. destruct (x !! data) as [[e n]|]; cbn; [|done].
      by rewrite Hother. }
  rewrite lookup_insert_eq, Em. cbn. destruct (m !! data) as [[e n]|] eqn:Ed; cbn.
  - rewrite (Hin data (e, n)).
    + unfold g, counted. cbn [fst snd]. destruct (call_matches data e c) eqn:Ec; rewrite filter_cons.
      * by rewrite decide_True.
      * rewrite decide_False by (intros [_ ?]; congruence). cbn. by rewrite Z.add_0_r.
    + by apply elem_of_btree_iter.
    + rewrite (btree_iter_perm bytes_le m). apply NoDup_fst_map_to_list.
  - rewrite Hout; [done|]. intros ((k & v) & -> & Hk)%list_elem_of_fmap. apply elem_of_btree_iter in Hk. cbn in Ed. congruence.
Qed.

Lemma counted_cons a data e c cs : counted a data e (c :: cs) = counted a data e [c] + counted a data e cs.
Proof. unfold counted. rewrite !filter_cons. case_decide; cbn; lia. Qed.
Lemma counted_le a data e cs : 0 <= counted a data e cs <= Z.of_nat (length cs).
Proof. unfold counted. pose proof (length_filter (fun c => ci_contract c = a /\ call_matches data e c = true) cs). lia. Qed.

Lemma unmet_call_None calls :
  unmet_call calls = None <-> forall a data entry, tracked calls a data = Some entry -> call_count_ok entry = true.
Proof.
  unfold unmet_call, tracked, ExpectedCallTracker in *. set (l := _ ≫= _).
  assert (forall a data entry, (a, data, entry) ∈ l <-> calls !! a ≫= (fun m => m !! data) = Some entry) as Hl.
  { intros. unfold l. rewrite list_elem_of_bind. split.
    - intros ([a' m] & Hd & Ha). apply list_elem_of_fmap in Hd as ([data' e'] & [= -> -> ->] & Hd).
      apply elem_of_btree_iter in Ha. apply elem_of_btree_iter in Hd. cbn in *. by rewrite Ha.
    - destruct (calls !! a) as [m|] eqn:Ea; cbn; [|done]. intros Hd. exists (a, m). split; [|by apply elem_of_btree_iter].
      apply list_elem_of_fmap. exists (data, entry). split; [done|]. by apply elem_of_btree_iter. }
  rewrite head_None. split.
  - intros Hn a data entry Ht. apply not_false_iff_true. intros Hok.
    assert ((a, data, entry) ∈ filter (fun x : Address * list byte * (ExpectedCallData * Z) => call_count_ok x.2 = false) l) as Hin; [|rewrite Hn in Hin; by apply elem_of_nil in Hin].
    apply list_elem_of_filter. by rewrite Hl.
  - intros Hall. destruct (filter _ l) as [|[[a data] entry] rest] eqn:E; [done|].
    assert ((a, data, entry) ∈ filter (fun x : Address * list byte * (ExpectedCallData * Z) => call_count_ok x.2 = false) l) as Hin by (rewrite E; left).
    apply list_elem_of_filter in Hin as [Hok Hin%Hl]. cbn [snd] in Hok. by rewrite (Hall _ _ _ Hin) in Hok.
Qed.

Definition see_calls (calls : ExpectedCallTracker) (cs : list CallInputs) : exec ExpectedCallTracker :=
  foldM (fun calls c => count_calls c calls) calls cs.

(** The calls a test expects are counted exactly: after any calls, every
    expectation has counted those of them that go to its address, begin with
    its call data and have its value and gas; and the check at the end of the
    test passes just if the counts that were given are met exactly and those
    that were not are reached. *)
Theorem expected_calls_counted calls cs :
  (forall a data e n, tracked calls a data = Some (e, n) -> n + Z.of_nat (length cs) <= U64_MAX) ->
  exists calls', see_calls calls cs = Ret calls' /\
    (forall a data, tracked calls' a data = (fun x => (x.1, x.2 + counted a data x.1 cs)) <$> tracked calls a data) /\
    (unmet_call calls' = None <->
     forall a data e n, tracked calls a data = Some (e, n) ->
       match ec_call_type e with
       | Count => n + counted a data e cs = ec_count e
       | NonCount => ec_count e <= n + counted a data e cs
       end).
Proof.
  intros Hmax.
  assert (exists calls', see_calls calls cs = Ret calls' /\
    forall a data, tracked calls' a data = (fun x => (x.1, x.2 + counted a data x.1 cs)) <$> tracked calls a data) as (calls' & Hs & Ht).
  { revert calls Hmax. induction cs as [|c cs IH]; intros calls Hmax; unfold see_calls in *; cbn [foldM].
    - exists calls. split; [done|]. intros. destruct (tracked calls a data) as [[e n]|]; cbn; [|done]. unfold counted. cbn. by rewrite Z.add_0_r.
    - destruct (count_calls_spec c calls) as (calls1 & -> & H1).
      { intros a data e n Hn. specialize (Hmax _ _ _ _ Hn). cbn in Hmax. lia. }
      destruct (IH calls1) as (calls' & Hs & H2).
      { intros a data e n. rewrite H1, fmap_Some. intros ([e' n'] & Hn & [= -> ->]). specialize (Hmax _ _ _ _ Hn). cbn in *.
        pose proof (counted_le a data e' [c]). cbn in *. lia. }
      exists calls'. split; [done|]. intros a data. rewrite H2, H1. destruct (tracked calls a data) as [[e n]|]; cbn; [|done].
      rewrite (counted_cons a data e c cs). do 2 f_equal. lia. }
  exists calls'. split_and!; [done|done|]. rewrite unmet_call_None. split.
  - intros Hok a data e n Hn. specialize (Hok a data (e, n + counted a data e cs)). rewrite Ht, Hn in Hok. specialize (Hok eq_refl).
    unfold call_count_ok in Hok. destruct (ec_call_type e); lia.
  - intros Hok a data [e n]. rewrite Ht, fmap_Some. intros ([e' n'] & Hn & [= -> ->]). specialize (Hok _ _ _ _ Hn).
    unfold call_count_ok. cbn. destruct (ec_call_type e'); lia.
Qed.
