(* ===== verification/CheatProps.v ===== *)
(** * What cheatcodes promise (theorems about [Cheatcodes] and [CheatHooks])

    Whatever a contract does while it is called, an expected revert is decided
    at the end of the call it was expected of; expected events are matched in
    order; pranks end with their call; forbidden memory is not written; deals
    are rolled back with a failed test. *)
From Stdlib Require Import Ascii.
From stdpp Require Import pretty.
From S2P Require Import Prelude Transaction Hardfork Block Snapshots Db Validator Executor MultiFork ForkBackend Expect Mapping Cheatcodes CheatHooks ExpectProps.
Open Scope Z_scope.
#[local] Existing Instance ck_bind.

Section CheatProps.
Context `{!RevmData} `{!ForkNet} `{!Revm} `{!HashIter Address} `{!EvmLib} `{!Abi} `{!CheatLib} `{!SpecIdOrder}.
Variable establish : CreateFork -> result (SharedBackend * Env) string.
Variable evm_run : Backend -> Env -> bool -> result (gmap Address Account) string.
Variable config : CheatsConfig.
Variable try_resolve : string -> result string string.

(** ** Properties that a cheatcode keeps *)

(** [P] is a property of the inspector's own state. *)
Definition keeps {A} (P : Cheatcodes -> Prop) (m : ck A) : Prop :=
  forall t r t', P (t_cheats t) -> m t = Ret (r, t') -> P (t_cheats t').

Section Keeps.
Variable P : Cheatcodes -> Prop.

Lemma keeps_bind {A B} (m : ck A) (f : A -> ck B) : keeps P m -> (forall a, keeps P (f a)) -> keeps P (m ≫= f).
Proof.
  intros Hm Hf t r t' HP. unfold mbind, ck_bind. rewrite exec_bind_Ret. intros ([r1 t1] & E1 & E2).
  apply Hm in E1; [|done]. destruct r1; [by eapply Hf|by simplify_eq].
Qed.
Lemma keeps_ok {A} (a : A) : keeps P (ck_ok a).
Proof. intros t r t' HP [= <- <-]. done. Qed.
Lemma keeps_err {A} e : keeps P (ck_err (A:=A) e).
Proof. intros t r t' HP [= <- <-]. done. Qed.
Lemma keeps_exec {A} (e : exec A) : keeps P (ck_exec e).
Proof. intros t r t' HP. unfold ck_exec. rewrite exec_bind_Ret. intros (? & _ & [= <- <-]). done. Qed.
Lemma keeps_try {A} (r : result A string) : keeps P (ck_try r).
Proof. intros t r' t' HP [= <- <-]. done. Qed.
Lemma keeps_ensure c m : keeps P (ensure c m).
Proof. unfold ensure. destruct c; [apply keeps_ok|apply keeps_err]. Qed.
Lemma keeps_cheats : keeps P cheats.
Proof. intros t r' t' HP [= <- <-]. done. Qed.
Lemma keeps_world : keeps P world.
Proof. intros t r' t' HP [= <- <-]. done. Qed.
Lemma keeps_get_depth : keeps P get_depth.
Proof. intros t r' t' HP [= <- <-]. done. Qed.
Lemma keeps_get_tx_caller : keeps P get_tx_caller.
Proof. intros t r' t' HP [= <- <-]. done. Qed.
Lemma keeps_modify f : (forall s, P s -> P (f s)) -> keeps P (modify f).
Proof. intros Hf t r' t' HP [= <- <-]. by apply Hf. Qed.
Lemma keeps_modify_env f : keeps P (modify_env f).
Proof. intros t r' t' HP [= <- <-]. done. Qed.
Lemma keeps_modify_backend f : keeps P (modify_backend f).
Proof. intros t r' t' HP [= <- <-]. done. Qed.
Lemma keeps_modify_state f : keeps P (modify_state f).
Proof. intros t r' t' HP [= <- <-]. done. Qed.
Lemma keeps_on_backend {A} (m : fk A) : keeps P (on_backend m).
Proof. intros t r t' HP. unfold on_backend. rewrite exec_bind_Ret. intros ([? ?] & _ & [= <- <-]). done. Qed.
Lemma keeps_on_journal {A} f : keeps P (on_journal (A:=A) f).
Proof. intros t r t' HP. unfold on_journal. destruct (f _ _) as [? [? ?]]. by intros [= <- <-]. Qed.
End Keeps.

Create HintDb keeps discriminated.
#[local] Hint Resolve keeps_ok keeps_err keeps_exec keeps_try keeps_ensure keeps_cheats keeps_world keeps_get_depth keeps_get_tx_caller
  keeps_modify_env keeps_modify_backend keeps_modify_state keeps_on_backend keeps_on_journal : keeps.
(** Goes through the body of a cheatcode. *)
Ltac keeps_step :=
  first
    [ solve [auto with keeps]
    | apply keeps_bind; [|intros ?]
    | apply keeps_modify; intros ? ?; repeat case_match; done
    | match goal with
      | |- context [match ?x with _ => _ end] => destruct x
      end ].
Ltac keeps := repeat keeps_step.

(** ** An expected revert stays until its call ends *)
Definition pending (er : ExpectedRevert) (c : Cheatcodes) : Prop := c_expected_revert c = Some er.

Lemma correct_sender_nonce_keeps er a : keeps (pending er) (correct_sender_nonce a).
Proof. unfold correct_sender_nonce. keeps. Qed.
Lemma broadcast_keeps er a b c d s : keeps (pending er) (broadcast a b c d s).
Proof. unfold broadcast. keeps. Qed.
Lemma prank_keeps er a b c d e s : keeps (pending er) (prank a b c d e s).
Proof. unfold prank. keeps. Qed.
#[local] Hint Resolve correct_sender_nonce_keeps broadcast_keeps prank_keeps : keeps.

Lemma env_apply_keeps er caller call m : env_apply caller call = Some m -> keeps (pending er) m.
Proof.
  destruct call; cbn; intros [= <-]; unfold map_block, add_breakpoint, deal, begin_prank, accesses, get_recorded_logs, set_nonce_checked,
    set_nonce_unsafe, reset_nonce, get_nonce, begin_broadcast, begin_broadcast_key, broadcast_key, with_journaled_account; keeps.
Qed.
Lemma expect_revert_keeps er reason d : keeps (pending er) (expect_revert reason d).
Proof.
  intros t r t' HP. unfold expect_revert, mbind, ck_bind, cheats, ensure. cbn. unfold pending in HP. rewrite HP.
  cbn. by intros [= <- <-].
Qed.
Lemma expect_call_with_keeps er a data v g m n ty : keeps (pending er) (expect_call_with a data v g m n ty).
Proof. intros t r t' HP. unfold expect_call_with. rewrite exec_bind_Ret. intros ([? ?] & _ & [= <- <-]). done. Qed.
Lemma safe_memory_keeps er a b d : keeps (pending er) (safe_memory a b d).
Proof. intros t r t' HP. unfold safe_memory. destruct (expect_safe_memory _ _ _ _). by intros [= <- <-]. Qed.
#[local] Hint Resolve expect_revert_keeps expect_call_with_keeps safe_memory_keeps : keeps.

Lemma util_apply_keeps er call m : util_apply call = Some m -> keeps (pending er) m.
Proof. destruct call; cbn; intros [= <-]; unfold remember_key, Cheatcodes.skip; keeps. Qed.
Lemma expect_apply_keeps er call m : expect_apply call = Some m -> keeps (pending er) m.
Proof. destruct call; cbn; intros [= <-]; unfold expect_emit, with_stipend, add_mock; keeps. Qed.
Lemma fuzz_apply_keeps er call m : fuzz_apply call = Some m -> keeps (pending er) m.
Proof. destruct call; cbn; try done. destruct condition; intros [= <-]; keeps. Qed.
Lemma snapshot_apply_keeps er call m : snapshot_apply call = Some m -> keeps (pending er) m.
Proof. destruct call; cbn; intros [= <-]; keeps. Qed.
Lemma other_apply_keeps er call m : other_apply call = Some m -> keeps (pending er) m.
Proof. destruct call; cbn; intros [= <-]; keeps. Qed.
Lemma fork_apply_keeps er call m : fork_apply establish evm_run config try_resolve call = Some m -> keeps (pending er) m.
Proof.
  destruct call; cbn; intros [= <-]; unfold cheat_create_fork, cheat_create_fork_at_transaction, cheat_create_select_fork,
    cheat_create_select_fork_at_transaction, cheat_select_fork, guard_broadcast, create_fork_request; keeps.
Qed.
Lemma apply_cheatcode_keeps er caller input :
  keeps (pending er) (apply_cheatcode establish evm_run config try_resolve caller input).
Proof.
  unfold apply_cheatcode. apply keeps_bind; [intros t r t' HP [= <- <-]; done|]. intros call. apply keeps_bind; [keeps|]. intros w.
  destruct (ensure_cheatcode_access_forking_mode _ _); [|keeps]. destruct (or_else _ _) as [m|] eqn:E; [|keeps].
  unfold or_else in E.
  destruct (env_apply _ _) eqn:?; [simplify_eq; by eapply env_apply_keeps|].
  destruct (util_apply _) eqn:?; [simplify_eq; by eapply util_apply_keeps|].
  destruct (expect_apply _) eqn:?; [simplify_eq; by eapply expect_apply_keeps|].
  destruct (fuzz_apply _) eqn:?; [simplify_eq; by eapply fuzz_apply_keeps|].
  destruct (other_apply _) eqn:?; [simplify_eq; by eapply other_apply_keeps|].
  destruct (snapshot_apply _) eqn:?; [simplify_eq; by eapply snapshot_apply_keeps|].
  by eapply fork_apply_keeps.
Qed.

(** ** What the hooks do to pranks and expected reverts *)
Definition unuse (p : Prank) : Prank :=
  mkPrank (pk_prank_caller p) (pk_prank_origin p) (pk_new_caller p) (pk_new_origin p) (pk_depth p) (pk_single_call p) false.
(** The expected revert, the prank (used or not), the broadcast and whether
    the test is skipped. *)
Definition slots (c : Cheatcodes) : option ExpectedRevert * option Prank * bool * option Broadcast :=
  (c_expected_revert c, unuse <$> c_prank c, c_skip c, c_broadcast c).

Lemma step_slots i t r i' t' : step i t = Ret (r, i', t') -> slots (t_cheats t') = slots (t_cheats t) /\ t_world t' = t_world t.
Proof.
  unfold step. rewrite exec_bind_Ret. intros ([i1 c1] & E1 & E2).
  assert (slots c1 = slots (t_cheats t)) as S1.
  { revert E1. unfold step_gas, mbind, exec_bind. repeat case_match; intros; simplify_eq/=; done. }
  rewrite exec_bind_Ret in E2. destruct E2 as ([o2 c2] & E2 & E3).
  assert (slots c2 = slots c1) as S2.
  { revert E2. unfold step_accesses, mbind, exec_bind. repeat case_match; intros; simplify_eq/=; done. }
  destruct o2; [|injection E3 as <- <- <-; split; [etrans; [exact S2|exact S1]|done]..].
  rewrite exec_bind_Ret in E3. destruct E3 as (o3 & E3 & E4). destruct o3; [|injection E4 as <- <- <-; split; [etrans; [exact S2|exact S1]|done]..].
  rewrite exec_bind_Ret in E4. destruct E4 as (c4 & E4 & [= <- <- <-]). split; [|done].
  etrans; [|exact S1]. etrans; [|exact S2]. change (slots c4 = slots c2).
  revert E4. unfold step_mapping, mbind, exec_bind. repeat case_match; intros; simplify_eq/=; done.
Qed.
Lemma log_slots a topics data t t' : log a topics data t = Ret t' -> slots (t_cheats t') = slots (t_cheats t) /\ t_world t' = t_world t.
Proof. unfold log. rewrite exec_bind_Ret. intros (emits & _ & [= <-]). by destruct (c_recorded_logs _). Qed.

Lemma slots_prank_used p c q : c_prank c = Some p -> first_time_applied p = Some q -> slots (with_prank (Some q) c) = slots c.
Proof. unfold first_time_applied, slots. cbn. intros ->. destruct (pk_used p) eqn:E; [done|]. intros [= <-]. by destruct p. Qed.
Lemma apply_prank_slots c t : slots (t_cheats (apply_prank c t).2) = slots (t_cheats t).
Proof.
  unfold apply_prank. destruct (c_prank (t_cheats t)) as [p|] eqn:E; [|done]. case_match; [|done].
  destruct (pk_new_origin p); cbn; (case_match; [|done]); (destruct (first_time_applied p) eqn:Ef; [|done]); cbn; by eapply slots_prank_used.
Qed.
Lemma apply_prank_contract c t : ci_contract (apply_prank c t).1 = ci_contract c.
Proof. unfold apply_prank. repeat case_match; done. Qed.
Lemma load_account_cheats a t : t_cheats (load_account a t).2 = t_cheats t.
Proof. unfold load_account. by destruct (load_db _ _ _) as [? [? ?]]. Qed.
Lemma bump_nonce_cheats a t n t' : bump_nonce a t = Ret (n, t') -> t_cheats t' = t_cheats t.
Proof. unfold bump_nonce. rewrite exec_bind_Ret. intros (? & _ & E2). rewrite exec_bind_Ret in E2. by destruct E2 as (? & _ & [= <- <-]). Qed.
Lemma apply_broadcast_slots c st t o c' t' :
  apply_broadcast c st t = Ret (o, c', t') -> slots (t_cheats t') = slots (t_cheats t) /\ ci_contract c' = ci_contract c.
Proof.
  unfold apply_broadcast. destruct (c_broadcast (t_cheats t)) as [b|]; [|by intros [= <- <- <-]]. case_match; [|by intros [= <- <- <-]].
  case_match; [|case_match; by intros [= <- <- <-]].
  destruct (load_account _ _) as [r t1] eqn:E1. pose proof (f_equal snd E1) as S1. cbn in S1.
  assert (t_cheats t1 = t_cheats t) as Hc by (by rewrite <- S1, load_account_cheats). destruct r.
  - rewrite exec_bind_Ret. intros ([n t2] & E2%bump_nonce_cheats & [= <- <- <-]). split; [|done]. unfold push_broadcastable. cbn. by rewrite E2, Hc.
  - intros [= <- <- <-]. by rewrite Hc.
Qed.
Lemma call_slots c st t r c' t' :
  ci_contract c <> CHEATCODE_ADDRESS -> call establish evm_run config try_resolve c st t = Ret (r, c', t') ->
  slots (t_cheats t') = slots (t_cheats t) /\ ci_contract c' = ci_contract c.
Proof.
  intros Hne. unfold call. rewrite decide_False by done. case_decide; [|by intros [= <- <- <-]].
  rewrite exec_bind_Ret. intros (calls & _ & E). destruct (find_mock _ _); [by simplify_eq|].
  destruct (apply_prank c _) as [c1 t1] eqn:E1.
  pose proof (apply_prank_slots c (with_cheats (with_expected_calls calls (t_cheats t)) t)) as S1.
  pose proof (apply_prank_contract c (with_cheats (with_expected_calls calls (t_cheats t)) t)) as C1. rewrite E1 in S1, C1. cbn in S1, C1.
  rewrite exec_bind_Ret in E. destruct E as ([[o c2] t2] & [S2 C2]%apply_broadcast_slots & [= <- <- <-]). by rewrite S2, S1, C2, C1.
Qed.
Lemma process_create_slots a code c t r c' t' : process_create a code c t = Ret (r, c', t') -> t_cheats t' = t_cheats t.
Proof.
  unfold process_create. destruct (cin_scheme c).
  - rewrite exec_bind_Ret. intros (? & _ & [= <- <- <-]). done.
  - destruct (load_account _ _) as [r1 t1] eqn:E1. pose proof (f_equal snd E1) as S1. cbn in S1.
    assert (t_cheats t1 = t_cheats t) as Hc by (by rewrite <- S1, load_account_cheats).
    destruct r1; [|by intros [= <- <- <-]]. rewrite exec_bind_Ret. intros (? & _ & E2). repeat case_match; simplify_eq; try done.
    all: rewrite exec_bind_Ret in E2; destruct E2 as ([n t2] & E2%bump_nonce_cheats & [= <- <- <-]); by rewrite E2.
Qed.
Lemma create_slots c t r c' t' : create c t = Ret (r, c', t') -> slots (t_cheats t') = slots (t_cheats t).
Proof.
  unfold create. destruct (apply_prank_create _ _) as [c1 t1] eqn:E1. rewrite exec_bind_Ret. intros ([[o c2] t2] & E2 & [= <- <- <-]).
  assert (t_cheats t1 = t_cheats t) as Hc.
  { revert E1. unfold apply_prank_create, allow_cheatcodes_on_create. repeat case_match; intros; simplify_eq/=; done. }
  rewrite <- Hc. clear E1 Hc. revert E2. unfold apply_broadcast_create. destruct (c_broadcast (t_cheats t1)) as [b|]; [|by intros [= <- <- <-]].
  case_match; [|by intros [= <- <- <-]]. destruct (load_account _ _) as [r3 t3] eqn:E3. pose proof (f_equal snd E3) as S3. cbn in S3.
  assert (t_cheats t3 = t_cheats t1) as Hc by (by rewrite <- S3, load_account_cheats). destruct r3; [|intros [= <- <- <-]; by rewrite Hc].
  case_match; [|intros [= <- <- <-]; cbn; by rewrite Hc]. rewrite exec_bind_Ret. intros ([[r4 c4] t4] & E4%process_create_slots & E5).
  cbn in E4. repeat case_match; simplify_eq; cbn; by rewrite ?E4, ?Hc.
Qed.

(** The end of a call or creation: pranks and broadcasts are cleaned up and a
    due expected revert is taken. *)
Definition ended (t : Test) : Test :=
  let t := clean_broadcast (clean_prank t) in
  match due_revert t with Some _ => take_revert t | None => t end.

Lemma clean_prank_depth t : depth (clean_prank t) = depth t.
Proof. unfold clean_prank. repeat case_match; done. Qed.
Lemma clean_broadcast_depth t : depth (clean_broadcast t) = depth t.
Proof. unfold clean_broadcast. repeat case_match; done. Qed.
Lemma clean_broadcast_slots t :
  slots (t_cheats (clean_broadcast t)) =
  ((slots (t_cheats t)).1, b ← c_broadcast (t_cheats t); if bc_single_call b then None else Some b).
Proof.
  unfold clean_broadcast, slots. destruct (c_broadcast (t_cheats t)) as [b|] eqn:E; cbn; [|by rewrite E].
  destruct (bc_single_call b) eqn:Es, (depth t =? bc_depth b); cbn; rewrite ?E; done.
Qed.
Lemma clean_prank_slots t :
  slots (t_cheats (clean_prank t)) =
  (c_expected_revert (t_cheats t), p ← c_prank (t_cheats t); if pk_single_call p then None else Some (unuse p), c_skip (t_cheats t),
   c_broadcast (t_cheats t)).
Proof.
  unfold clean_prank, slots. destruct (c_prank (t_cheats t)) as [p|] eqn:E; cbn; [|by rewrite E].
  destruct (pk_single_call p) eqn:Es, (depth t =? pk_depth p); cbn; rewrite ?E; done.
Qed.
Lemma ended_depth t : depth (ended t) = depth t.
Proof. unfold ended. case_match; unfold take_revert; cbn; by rewrite <- (clean_prank_depth t), <- (clean_broadcast_depth (clean_prank t)). Qed.

Lemma check_root_slots st gas t : slots (t_cheats (check_root st gas t).2) = slots (t_cheats t) /\ t_world (check_root st gas t).2 = t_world t.
Proof. unfold check_root. repeat case_match; done. Qed.
Lemma diagnose_slots c st gas ret t r t' :
  diagnose c st gas ret t = Ret (r, t') -> slots (t_cheats t') = slots (t_cheats t) /\ t_world t' = t_world t.
Proof.
  unfold diagnose, diagnose_next, mbind, exec_bind. repeat case_match; intros; simplify_eq/=; done.
Qed.
Lemma call_end_ended c gas st ret t r t' :
  ci_contract c <> CHEATCODE_ADDRESS -> ci_contract c <> HARDHAT_CONSOLE_ADDRESS -> (depth t =? 0) && c_skip (t_cheats t) = false ->
  call_end c gas st ret t = Ret (r, t') ->
  slots (t_cheats t') = slots (t_cheats (ended t)) /\ t_world t' = t_world (ended t).
Proof.
  intros Hc1 Hc2 Hskip. unfold call_end, ended. rewrite decide_False by tauto. rewrite Hskip. cbv zeta.
  destruct (due_revert (clean_broadcast (clean_prank t))); [by intros [= <- <-]|].
  remember (clean_broadcast (clean_prank t)) as t0 eqn:E0. clear E0. case_match; [by intros [= <- <-]|].
  set (t1 := if should_check_emits c t0 then _ else t0).
  assert (slots (t_cheats t1) = slots (t_cheats t0) /\ t_world t1 = t_world t0) as [S1 W1].
  { unfold t1. by destruct (should_check_emits c t0). }
  set (o := if depth t1 =? 0 then check_root st gas t1 else (None, t1)).
  assert (slots (t_cheats o.2) = slots (t_cheats t0) /\ t_world o.2 = t_world t0) as [S2 W2].
  { unfold o. case_match; [|done]. destruct (check_root_slots st gas t1) as [-> ->]. done. }
  clearbody t1 o. destruct o as [[q|] t2]; cbn in S2, W2.
  - by intros [= <- <-].
  - intros [S3 W3]%diagnose_slots. by rewrite S3, W3.
Qed.
Lemma call_end_slots c gas st ret t r t' :
  call_end c gas st ret t = Ret (r, t') ->
  depth t' = depth t /\ (slots (t_cheats t') = slots (t_cheats t) \/ slots (t_cheats t') = slots (t_cheats (ended t))).
Proof.
  intros Hend. destruct (decide (ci_contract c = CHEATCODE_ADDRESS \/ ci_contract c = HARDHAT_CONSOLE_ADDRESS)) as [Hc|Hc].
  { unfold call_end in Hend. rewrite decide_True in Hend by done. injection Hend as <- <-. auto. }
  destruct ((depth t =? 0) && c_skip (t_cheats t)) eqn:Hs.
  { unfold call_end in Hend. rewrite decide_False, Hs in Hend by done. injection Hend as <- <-. auto. }
  apply call_end_ended in Hend as [S W]; [|tauto..|done]. split; [|right; exact S].
  etrans; [|exact (ended_depth t)]. unfold depth. by rewrite W.
Qed.
Lemma undo_deals_depth deals js : js_depth (fold_left undo_deal deals js) = js_depth js.
Proof.
  revert js. induction deals as [|d deals IH]; intros js; cbn; [done|]. rewrite IH. unfold undo_deal. by case_match.
Qed.
Lemma on_revert_slots t : slots (t_cheats (on_revert t)) = slots (t_cheats t) /\ depth (on_revert t) = depth t.
Proof.
  unfold on_revert. case_decide; [done|]. case_match; [done|]. split; [done|]. unfold depth at 1. cbn. by rewrite undo_deals_depth.
Qed.
Lemma on_revert_env t : w_env (t_world (on_revert t)) = w_env (t_world t).
Proof. unfold on_revert. case_decide; [done|]. by case_match. Qed.
Lemma stack_call_end_eq inputs gas status retdata t :
  stack_call_end inputs gas status retdata t =
  '((new_status, new_gas, new_retdata), t) ← call_end inputs gas status retdata t;
  let res := if bool_decide (new_status <> status \/ (new_status = IRevert /\ new_retdata <> retdata)) then (new_status, new_gas, new_retdata)
             else (status, gas, retdata) in
  Ret (res, if return_revert (fst (fst res)) then on_revert t else t).
Proof. unfold stack_call_end, do_call_end. by destruct (call_end inputs gas status retdata t) as [[[[? ?] ?] ?]|]. Qed.
Lemma stack_call_end_slots c gas st ret t r t' :
  stack_call_end c gas st ret t = Ret (r, t') ->
  depth t' = depth t /\ (slots (t_cheats t') = slots (t_cheats t) \/ slots (t_cheats t') = slots (t_cheats (ended t))).
Proof.
  rewrite stack_call_end_eq, exec_bind_Ret. intros ([[[st1 gas1] ret1] t1] & [D1 S1]%call_end_slots & [= <- <-]).
  case_match; [|done]. destruct (on_revert_slots t1) as [-> ->]. done.
Qed.
Lemma stack_call_end_ended c gas st ret t r t' :
  ci_contract c <> CHEATCODE_ADDRESS -> ci_contract c <> HARDHAT_CONSOLE_ADDRESS -> (depth t =? 0) && c_skip (t_cheats t) = false ->
  stack_call_end c gas st ret t = Ret (r, t') ->
  slots (t_cheats t') = slots (t_cheats (ended t)) /\ w_env (t_world t') = w_env (t_world (ended t)).
Proof.
  intros Hc1 Hc2 Hskip. rewrite stack_call_end_eq, exec_bind_Ret.
  intros ([[[st1 gas1] ret1] t1] & [S1 W1]%call_end_ended & [= <- <-]); [|done..]. rewrite <- W1.
  case_match; [|done]. destruct (on_revert_slots t1) as [-> _]. by rewrite on_revert_env.
Qed.
Lemma create_end_slots st a gas ret t r t' :
  create_end st a gas ret t = (r, t') -> depth t' = depth t /\ slots (t_cheats t') = slots (t_cheats (ended t)).
Proof.
  unfold create_end, ended. pose proof (ended_depth t) as D. unfold ended in D. cbv zeta in *.
  destruct (due_revert _); intros [= <- <-]; done.
Qed.

(** ** Runs of the machine

    What can happen between the hooks of one call: revm changes accounts and
    database as it likes (not the environment), and calls the hooks in the
    order it does.  [allowed] are the calls and creations that the code that
    runs makes.  A cheatcode that moves the depth (reverting to a snapshot of
    another depth) is left out. *)
Definition at_depth (d : Z) (w : World) (t : Test) (t' : Test) : Prop :=
  t' = in_world w t /\ js_depth (w_state w) = d /\ w_env w = w_env (t_world t).
Inductive runs (allowed : CallInputs + CreateInputs -> Prop) : Test -> Test -> Prop :=
| runs_end t : runs allowed t t
| runs_evm t w t1 t' : at_depth (depth t) w t t1 -> runs allowed t1 t' -> runs allowed t t'
| runs_step i t r i' t1 t' : step i t = Ret (r, i', t1) -> runs allowed t1 t' -> runs allowed t t'
| runs_log a topics data t t1 t' : log a topics data t = Ret t1 -> runs allowed t1 t' -> runs allowed t t'
| runs_call inputs static t r t1 t' :
    allowed (inl inputs) -> called allowed inputs static t r t1 -> runs allowed t1 t' -> runs allowed t t'
| runs_create inputs t r t1 t' :
    allowed (inr inputs) -> created allowed inputs t r t1 -> runs allowed t1 t' -> runs allowed t t'
with called (allowed : CallInputs + CreateInputs -> Prop) : CallInputs -> bool -> Test -> CallResult -> Test -> Prop :=
(** the hook answers the call *)
| called_answered inputs static t gas st ret inputs' t1 r t2 :
    call establish evm_run config try_resolve inputs static t = Ret ((st, gas, ret), inputs', t1) -> st <> Continue -> depth t1 = depth t ->
    stack_call_end inputs' gas st ret t1 = Ret (r, t2) -> called allowed inputs static t r t2
(** the code of the contract runs *)
| called_runs inputs static t first inputs' t1 w1 t2 t3 w3 t4 gas st ret r t5 :
    call establish evm_run config try_resolve inputs static t = Ret (first, inputs', t1) -> first.1.1 = Continue -> depth t1 = depth t ->
    at_depth (depth t + 1) w1 t1 t2 -> runs allowed t2 t3 -> at_depth (depth t) w3 t3 t4 ->
    stack_call_end inputs' gas st ret t4 = Ret (r, t5) -> called allowed inputs static t r t5
with created (allowed : CallInputs + CreateInputs -> Prop) : CreateInputs -> Test -> CreateResult -> Test -> Prop :=
| created_answered inputs t gas st a ret inputs' t1 r t2 :
    create inputs t = Ret ((st, a, gas, ret), inputs', t1) -> st <> Continue -> depth t1 = depth t ->
    create_end st a gas ret t1 = (r, t2) -> created allowed inputs t r t2
| created_runs inputs t first inputs' t1 w1 t2 t3 w3 t4 gas st a ret r t5 :
    create inputs t = Ret (first, inputs', t1) -> first.1.1.1 = Continue -> depth t1 = depth t ->
    at_depth (depth t + 1) w1 t1 t2 -> runs allowed t2 t3 -> at_depth (depth t) w3 t3 t4 ->
    create_end st a gas ret t4 = (r, t5) -> created allowed inputs t r t5.
Scheme runs_mind := Induction for runs Sort Prop
  with called_mind := Induction for called Sort Prop
  with created_mind := Induction for created Sort Prop.
Combined Scheme runs_mutind from runs_mind, called_mind, created_mind.

(** A property [Q] of the slots that the end of calls deeper than [d] and the
    cheatcodes that are allowed leave alone holds throughout a run. *)
Section Invariant.
Variables (allowed : CallInputs + CreateInputs -> Prop) (Q : Cheatcodes -> Prop) (d : Z).
Hypothesis Q_slots : forall c c', slots c = slots c' -> Q c -> Q c'.
Hypothesis Q_cheat : forall c, allowed (inl c) -> ci_contract c = CHEATCODE_ADDRESS ->
  keeps Q (apply_cheatcode establish evm_run config try_resolve (cx_caller (ci_context c)) (ci_input c)).
Hypothesis Q_ended : forall x t, allowed x -> d < depth t -> Q (t_cheats t) -> Q (t_cheats (ended t)).

Lemma call_Q c st t r c' t' :
  allowed (inl c) -> call establish evm_run config try_resolve c st t = Ret (r, c', t') -> Q (t_cheats t) -> Q (t_cheats t').
Proof using Q_slots Q_cheat.
  intros Ha Hcall HQ. destruct (decide (ci_contract c = CHEATCODE_ADDRESS)) as [E|E].
  - unfold call in Hcall. rewrite decide_True in Hcall by done. rewrite exec_bind_Ret in Hcall.
    destruct Hcall as ([? ?] & Hc & [= <- <- <-]). by eapply Q_cheat.
  - apply call_slots in Hcall as [Hs _]; [|done]. eapply Q_slots; [|done]. done.
Qed.
Lemma stack_call_end_Q x c gas st ret t r t' :
  allowed x -> stack_call_end c gas st ret t = Ret (r, t') -> d < depth t -> Q (t_cheats t) -> Q (t_cheats t').
Proof using Q_slots Q_ended.
  intros Ha [_ [S|S]]%stack_call_end_slots Hd HQ; (eapply Q_slots; [symmetry; exact S|]); [done|]. by eapply Q_ended.
Qed.
Lemma create_end_Q x st a gas ret t r t' :
  allowed x -> create_end st a gas ret t = (r, t') -> d < depth t -> Q (t_cheats t) -> Q (t_cheats t').
Proof using Q_slots Q_ended.
  intros Ha [_ S]%create_end_slots Hd HQ; (eapply Q_slots; [symmetry; exact S|]). by eapply Q_ended.
Qed.

Lemma runs_invariant :
  (forall t t', runs allowed t t' -> d < depth t -> Q (t_cheats t) -> Q (t_cheats t') /\ depth t' = depth t) /\
  (forall c st t r t', called allowed c st t r t' -> allowed (inl c) -> d < depth t -> Q (t_cheats t) -> Q (t_cheats t') /\ depth t' = depth t) /\
  (forall c t r t', created allowed c t r t' -> allowed (inr c) -> d < depth t -> Q (t_cheats t) -> Q (t_cheats t') /\ depth t' = depth t).
Proof using Q_slots Q_cheat Q_ended.
  apply (runs_mutind allowed
    (fun t t' _ => d < depth t -> Q (t_cheats t) -> Q (t_cheats t') /\ depth t' = depth t)
    (fun c st t r t' _ => allowed (inl c) -> d < depth t -> Q (t_cheats t) -> Q (t_cheats t') /\ depth t' = depth t)
    (fun c t r t' _ => allowed (inr c) -> d < depth t -> Q (t_cheats t) -> Q (t_cheats t') /\ depth t' = depth t)).
  - done.
  - intros t w t1 t' (-> & Hd & He) _ IH Hlt HQ. destruct IH as [? D]; [by unfold depth in *; cbn; rewrite Hd|done|]. split; [done|]. rewrite D. exact Hd.
  - intros i t r i' t1 t' [S W]%step_slots _ IH Hlt HQ. unfold depth in *. rewrite W in IH. apply IH; [done|]. eapply Q_slots; [symmetry; exact S|done].
  - intros a topics data t t1 t' [S W]%log_slots _ IH Hlt HQ. unfold depth in *. rewrite W in IH. apply IH; [done|]. eapply Q_slots; [symmetry; exact S|done].
  - intros c st t r t1 t' Ha _ IH1 _ IH2 Hlt HQ. destruct (IH1 Ha Hlt HQ) as [HQ1 D1]. rewrite D1 in IH2. by apply IH2.
  - intros c t r t1 t' Ha _ IH1 _ IH2 Hlt HQ. destruct (IH1 Ha Hlt HQ) as [HQ1 D1]. rewrite D1 in IH2. by apply IH2.
  - intros c static t gas st ret c' t1 r t2 Hc _ D Hend Ha Hlt HQ. pose proof (call_Q _ _ _ _ _ _ Ha Hc HQ) as HQ1.
    split; [|apply stack_call_end_slots in Hend as [-> _]; done]. eapply (stack_call_end_Q (inl c)); [done|exact Hend|lia|done].
  - intros c static t first c' t1 w1 t2 t3 w3 t4 gas st ret r t5 Hc _ D (-> & D1 & _) Hr IH (-> & D3 & _) Hend Ha Hlt HQ.
    pose proof (call_Q _ _ _ _ _ _ Ha Hc HQ) as HQ1. destruct IH as [HQ3 _]; [unfold depth in *; cbn; lia|done|].
    split; [|apply stack_call_end_slots in Hend as [-> _]; exact D3]. eapply (stack_call_end_Q (inl c)); [done|exact Hend|unfold depth in *; cbn; lia|done].
  - intros c t gas st a ret c' t1 r t2 Hc%create_slots _ D Hend Ha Hlt HQ. assert (Q (t_cheats t1)) as HQ1 by (eapply Q_slots; [symmetry; exact Hc|done]).
    split; [|apply create_end_slots in Hend as [-> _]; done]. eapply (create_end_Q (inr c)); [done|exact Hend|lia|done].
  - intros c t first c' t1 w1 t2 t3 w3 t4 gas st a ret r t5 Hc%create_slots _ D (-> & D1 & _) Hr IH (-> & D3 & _) Hend Ha Hlt HQ.
    assert (Q (t_cheats t1)) as HQ1 by (eapply Q_slots; [symmetry; exact Hc|done]). destruct IH as [HQ3 _]; [unfold depth in *; cbn; lia|done|].
    split; [|apply create_end_slots in Hend as [-> _]; exact D3]. eapply (create_end_Q (inr c)); [done|exact Hend|unfold depth in *; cbn; lia|done].
Qed.
End Invariant.

(** ** Expected reverts *)

(** From the hook before a call to the hook after it: nothing, or the code of
    the contract. *)
Definition callee (allowed : CallInputs + CreateInputs -> Prop) (first : CallResult) (t t' : Test) : Prop :=
  (first.1.1 <> Continue /\ t' = t) \/
  (first.1.1 = Continue /\ exists w1 t1 t2 w2, at_depth (depth t + 1) w1 t t1 /\ runs allowed t1 t2 /\ at_depth (depth t) w2 t2 t').
Definition anything : CallInputs + CreateInputs -> Prop := fun _ => True.
Definition reverted_as_expected (reason : option (list byte)) (status : InstructionResult) (retdata : list byte) : Prop :=
  return_ok status = false /\ forall expected, reason = Some expected -> actual_revert retdata = expected.
#[export] Instance reverted_as_expected_dec reason status retdata : Decision (reverted_as_expected reason status retdata).
Proof.
  unfold reverted_as_expected. apply and_dec; [apply _|]. destruct reason as [e|]; [|by left].
  destruct (decide (actual_revert retdata = e)) as [E|E]; [left; by intros ? [= <-]|right; intros Hall; by apply E, Hall].
Defined.

Lemma handle_expect_revert_spec is_create reason status retdata :
  if decide (reverted_as_expected reason status retdata) then
    handle_expect_revert is_create reason status retdata =
      Ok (if is_create then (Some DUMMY_CREATE_ADDRESS, []) else (None, DUMMY_CALL_OUTPUT))
  else exists message, handle_expect_revert is_create reason status retdata = Err message.
Proof.
  unfold handle_expect_revert. case_decide as Hd; destruct (return_ok status) eqn:E.
  - destruct Hd. congruence.
  - destruct Hd as [_ Hd]. destruct reason as [e|]; [|done]. rewrite (decide_True _ _ (Hd e eq_refl)). specialize (Hd e eq_refl).
    destruct (bool_decide (retdata = [])) eqn:Er; [|by rewrite andb_false_r]. apply bool_decide_eq_true in Er as ->. cbn in Hd. by subst.
  - eauto.
  - destruct reason as [e|]; [|destruct Hd; split; [done|]; by intros ? [=]]. case_match; [eauto|]. case_decide as Ha; [|eauto].
    destruct Hd. split; [done|]. by intros ? [= <-].
Qed.

Lemma pending_ended er t : er_depth er < depth t -> pending er (t_cheats t) -> pending er (t_cheats (ended t)).
Proof.
  intros Hd HP. unfold ended. pose proof (clean_broadcast_slots (clean_prank t)) as S. rewrite clean_prank_slots in S. cbn [fst] in S. injection S as S _ _ _.
  unfold due_revert. rewrite S, HP. cbn [mbind option_bind].
  rewrite clean_broadcast_depth, clean_prank_depth. replace (depth t <=? er_depth er) with false by lia. unfold pending. by rewrite S.
Qed.
Lemma callee_pending er first t t' :
  depth t = er_depth er -> pending er (t_cheats t) -> callee anything first t t' -> pending er (t_cheats t') /\ depth t' = depth t.
Proof.
  intros Hd HP [[_ ->]|(_ & w1 & t1 & t2 & w2 & (-> & D1 & _) & Hr & -> & D2 & _)]; [done|]. split; [|exact D2].
  destruct (runs_invariant anything (pending er) (er_depth er)) as [Hinv _].
  - unfold pending, slots. intros c c' [= -> _ _ _]. done.
  - intros. apply apply_cheatcode_keeps.
  - intros x t3 _. apply pending_ended.
  - destruct (Hinv _ _ Hr) as [HQ _]; [unfold depth in *; cbn in *; lia|done|exact HQ].
Qed.

(** C13: An expected revert decides its call.  After [expectRevert], the next
    call from the same contract has, whatever the called code does (calls and
    creations, reverts, logs, cheatcodes, further expected reverts), exactly
    the outcome the expectation gives it: it returns with a dummy output if
    the call reverted with the expected data, and reverts with an error
    otherwise; and the expectation is used up. *)
Theorem expect_revert_decides er inputs static t first inputs' t1 t2 gas status retdata :
  pending er (t_cheats t) -> depth t = er_depth er -> 0 < depth t ->
  ci_contract inputs <> CHEATCODE_ADDRESS -> ci_contract inputs <> HARDHAT_CONSOLE_ADDRESS ->
  call establish evm_run config try_resolve inputs static t = Ret (first, inputs', t1) -> depth t1 = depth t ->
  callee anything first t1 t2 ->
  exists r t3, stack_call_end inputs' gas status retdata t2 = Ret (r, t3) /\ c_expected_revert (t_cheats t3) = None /\
    if decide (reverted_as_expected (er_reason er) status retdata) then r = (IReturn, gas, DUMMY_CALL_OUTPUT)
    else exists message, r = (IRevert, gas, encode_error message).
Proof.
  intros HP Hd Hpos Hc1 Hc2 Hcall D1 Hrun. apply call_slots in Hcall as [S1 C1]; [|done].
  assert (pending er (t_cheats t1)) as HP1 by (injection S1 as S1 _ _ _; unfold pending; by rewrite S1).
  destruct (callee_pending er first t1 t2) as [HP2 D2]; [lia|done|done|].
  rewrite stack_call_end_eq. unfold call_end. rewrite decide_False by (rewrite C1; tauto).
  replace (depth t2 =? 0) with false by lia. cbn [andb].
  pose proof (clean_broadcast_slots (clean_prank t2)) as S2. rewrite clean_prank_slots in S2. cbn [fst] in S2. injection S2 as S2 _ _ _.
  unfold due_revert. rewrite S2, HP2. cbn [mbind option_bind].
  rewrite clean_broadcast_depth, clean_prank_depth. replace (depth t2 <=? er_depth er) with true by lia. cbn [mbind exec_bind].
  pose proof (handle_expect_revert_spec false (er_reason er) status retdata) as Hh.
  assert (forall t', c_expected_revert (t_cheats t') = None -> c_expected_revert (t_cheats (on_revert t')) = None) as Hor.
  { intros t' Ht'. destruct (on_revert_slots t') as [S _]. injection S as -> _ _ _. done. }
  case_decide as Hre.
  - rewrite Hh. rewrite bool_decide_eq_true_2 by (left; intros <-; by destruct Hre). eexists _, _. split; [done|]. by split.
  - destruct Hh as [message ->]. case_bool_decide as Hb.
    + eexists _, _. split; [done|]. cbn. split; [by apply Hor|]. by exists message.
    + assert (status = IRevert /\ retdata = encode_error message) as [-> ->].
      { destruct (decide (status = IRevert)) as [->|]; [|destruct Hb; by left; intros <-]. split; [done|].
        destruct (decide (retdata = encode_error message)); [done|]. destruct Hb. right. split; [done|]. congruence. }
      eexists _, _. split; [done|]. cbn. split; [by apply Hor|]. by exists message.
Qed.

(** ** Pranks *)
Definition pranked (p : Prank) (c : Cheatcodes) : Prop := unuse <$> c_prank c = Some (unuse p).
(** No cheatcodes; and a prank of a single call ends with the first call that
    ends, so that the called code makes none. *)
Definition prank_allows (p : Prank) (x : CallInputs + CreateInputs) : Prop :=
  pk_single_call p = false /\ match x with inl c => ci_contract c <> CHEATCODE_ADDRESS | inr _ => True end.

Lemma pranked_ended p t :
  pranked p (t_cheats t) ->
  unuse <$> c_prank (t_cheats (ended t)) = (if pk_single_call p then None else Some (unuse p)) /\
  (c_broadcast (t_cheats t) = None -> depth t = pk_depth p -> w_env (t_world (ended t)) = set_tx_caller (pk_prank_origin p) (w_env (t_world t))).
Proof.
  intros HP. unfold pranked in HP. apply fmap_Some in HP as (q & Hq & Hpq).
  assert (pk_single_call q = pk_single_call p /\ pk_depth q = pk_depth p /\ pk_prank_origin q = pk_prank_origin p) as (E1 & E2 & E3).
  { destruct p, q. cbn in *. naive_solver. }
  assert (unuse <$> c_prank (t_cheats (ended t)) = unuse <$> c_prank (t_cheats (clean_broadcast (clean_prank t)))) as ->.
  { unfold ended. by case_match. }
  assert (t_world (ended t) = t_world (clean_broadcast (clean_prank t))) as -> by (unfold ended; by case_match).
  split.
  - pose proof (clean_broadcast_slots (clean_prank t)) as S. rewrite clean_prank_slots in S. cbn [fst] in S. injection S as _ -> _ _. rewrite Hq. cbn.
    rewrite E1, Hpq. done.
  - intros Hb Hd. unfold clean_broadcast.
    assert (c_broadcast (t_cheats (clean_prank t)) = None) as ->.
    { unfold clean_prank. rewrite Hq. repeat case_match; done. }
    unfold clean_prank. rewrite Hq, E2, E3, Hd, Z.eqb_refl. by case_match.
Qed.

Lemma callee_pranked p first t t' :
  depth t = pk_depth p -> pranked p (t_cheats t) -> c_broadcast (t_cheats t) = None -> callee (prank_allows p) first t t' ->
  pranked p (t_cheats t') /\ c_broadcast (t_cheats t') = None /\ depth t' = depth t.
Proof.
  intros Hd HP Hb [[_ ->]|(_ & w1 & t1 & t2 & w2 & (-> & D1 & _) & Hr & -> & D2 & _)]; [done|].
  destruct (runs_invariant (prank_allows p) (fun c => pranked p c /\ c_broadcast c = None) (pk_depth p)) as [Hinv _].
  - unfold pranked, slots. intros c c' [= _ -> _ ->]. done.
  - intros c [_ Hne]. done.
  - intros x t3 [Hsingle _] _ [HP3 Hb3]. pose proof (pranked_ended p t3 HP3) as [S _]. rewrite Hsingle in S. split; [exact S|].
    pose proof (clean_broadcast_slots (clean_prank t3)) as S3. rewrite clean_prank_slots in S3. injection S3 as _ _ _ S3.
    unfold ended. assert (c_broadcast (t_cheats (clean_prank t3)) = None) as E.
    { pose proof (clean_prank_slots t3) as S4. injection S4 as _ _ _ ->. done. }
    rewrite E in S3. case_match; exact S3.
  - destruct (Hinv _ _ Hr) as [[HQ HB] _]; [unfold depth in *; cbn in *; lia|done|done].
Qed.
Lemma call_pranked p inputs static t :
  c_prank (t_cheats t) = Some p -> pk_depth p = depth t -> c_broadcast (t_cheats t) = None ->
  cx_caller (ci_context inputs) = pk_prank_caller p ->
  ci_contract inputs <> CHEATCODE_ADDRESS -> ci_contract inputs <> HARDHAT_CONSOLE_ADDRESS ->
  find_mock inputs (c_mocked_calls (t_cheats t)) = None ->
  (forall a data e n, tracked (c_expected_calls (t_cheats t)) a data = Some (e, n) -> n + 1 <= U64_MAX) ->
  exists t1, call establish evm_run config try_resolve inputs static t =
      Ret ((Continue, gas_new (ci_gas_limit inputs), []), set_call_caller (pk_new_caller p) inputs, t1) /\
    tx_caller t1 = default (tx_caller t) (pk_new_origin p) /\ depth t1 = depth t /\ slots (t_cheats t1) = slots (t_cheats t).
Proof.
  intros Hp Hd Hb Hcaller Hc1 Hc2 Hm Hmax. destruct (count_calls_spec inputs _ Hmax) as (calls & Hcalls & _).
  destruct (call establish evm_run config try_resolve inputs static t) as [[[r c'] t1]|] eqn:E.
  - exists t1. pose proof (call_slots _ _ _ _ _ _ Hc1 E) as [S _]. revert E. unfold call. rewrite decide_False, decide_True by done.
    rewrite Hcalls. cbn. rewrite Hm. unfold apply_prank. cbn. rewrite Hp.
    change (depth (with_cheats _ t)) with (depth t). rewrite Hd, Z.leb_refl, Z.eqb_refl, Hcaller, Z.eqb_refl. cbn.
    destruct (pk_new_origin p), (first_time_applied p); unfold apply_broadcast; cbn; rewrite Hb; cbn; intros [= <- <- <-]; done.
  - exfalso. revert E. unfold call. rewrite decide_False, decide_True by done.
    rewrite Hcalls. cbn. rewrite Hm. unfold apply_prank. cbn. rewrite Hp.
    change (depth (with_cheats _ t)) with (depth t). rewrite Hd, Z.leb_refl, Z.eqb_refl, Hcaller, Z.eqb_refl. cbn.
    destruct (pk_new_origin p), (first_time_applied p); unfold apply_broadcast; cbn; rewrite Hb; done.
Qed.

(** C14: A prank changes the sender of the calls of the pranking contract and
    nothing after them.  The called code runs with the new [msg.sender], and
    with the new [tx.origin] if one was given; when the call is over
    [tx.origin] is what it was before the prank, whatever the called code did
    (without cheatcodes, and for a prank of a single call without calls of its
    own); a prank of a single call is gone then, one that was started stays. *)
Theorem prank_scope p inputs static t :
  c_prank (t_cheats t) = Some p -> pk_depth p = depth t -> 0 < depth t -> c_broadcast (t_cheats t) = None ->
  cx_caller (ci_context inputs) = pk_prank_caller p ->
  ci_contract inputs <> CHEATCODE_ADDRESS -> ci_contract inputs <> HARDHAT_CONSOLE_ADDRESS ->
  find_mock inputs (c_mocked_calls (t_cheats t)) = None ->
  (forall a data e n, tracked (c_expected_calls (t_cheats t)) a data = Some (e, n) -> n + 1 <= U64_MAX) ->
  exists first t1, call establish evm_run config try_resolve inputs static t =
      Ret (first, set_call_caller (pk_new_caller p) inputs, t1) /\ first.1.1 = Continue /\
    tx_caller t1 = default (tx_caller t) (pk_new_origin p) /\
    forall t2 gas status retdata r t3,
      callee (prank_allows p) first t1 t2 ->
      stack_call_end (set_call_caller (pk_new_caller p) inputs) gas status retdata t2 = Ret (r, t3) ->
      tx_caller t3 = pk_prank_origin p /\
      (if pk_single_call p then c_prank (t_cheats t3) = None else pranked p (t_cheats t3)).
Proof.
  intros Hp Hd Hpos Hb Hcaller Hc1 Hc2 Hm Hmax. destruct (call_pranked p inputs static t) as (t1 & Hcall & Hor & D1 & S1); [done..|].
  eexists _, t1. split; [exact Hcall|]. split_and!; [done|done|]. intros t2 gas status retdata r t3 Hrun Hend.
  injection S1 as _ S1 _ B1.
  assert (pranked p (t_cheats t1)) as HP1 by (unfold pranked; by rewrite S1, Hp).
  destruct (callee_pranked p _ t1 t2 (eq_trans D1 (eq_sym Hd)) HP1 (eq_trans B1 Hb) Hrun) as (HP2 & B2 & D2).
  apply stack_call_end_ended in Hend as [S3 E3]; [|done..|replace (depth t2 =? 0) with false by lia; done].
  destruct (pranked_ended p t2 HP2) as [S2 E2]. injection S3 as _ S3 _ _. unfold tx_caller. rewrite E3, E2 by (done || lia). split; [done|].
  unfold pranked. rewrite S2 in S3. destruct (pk_single_call p); [|exact S3]. by apply fmap_None in S3.
Qed.

(** ** Expected events *)
Definition emit_all (logs : list (Address * RawLog)) (t : Test) : exec Test :=
  foldM (fun t l => log l.1 (raw_topics l.2) (raw_data l.2) t) t logs.

Lemma emit_all_spec logs t es :
  see_emits (c_expected_emits (t_cheats t)) logs = Ret es ->
  exists t', emit_all logs t = Ret t' /\ c_expected_emits (t_cheats t') = es /\ slots (t_cheats t') = slots (t_cheats t) /\
    t_world t' = t_world t /\ c_fork_revert_diagnostic (t_cheats t') = c_fork_revert_diagnostic (t_cheats t).
Proof.
  unfold emit_all, see_emits. revert t. induction logs as [|[a [topics data]] logs IH]; intros t; cbn [foldM].
  - intros [= <-]. by exists t.
  - rewrite exec_bind_Ret. intros (es1 & E1 & Hes). cbn in E1. cbn [fst snd raw_topics raw_data].
    assert (exists t1, log a topics data t = Ret t1 /\ c_expected_emits (t_cheats t1) = es1 /\ slots (t_cheats t1) = slots (t_cheats t) /\
      t_world t1 = t_world t /\ c_fork_revert_diagnostic (t_cheats t1) = c_fork_revert_diagnostic (t_cheats t)) as (t1 & -> & E2 & S & W & D).
    { unfold log. case_bool_decide as Hn.
      - rewrite Hn in E1. injection E1 as <-. eexists. split; [done|]. by destruct (c_recorded_logs _).
      - rewrite E1. eexists. split; [done|]. cbn. by destruct (c_recorded_logs _). }
    cbn [mbind exec_bind]. rewrite <- E2 in Hes. destruct (IH t1 Hes) as (t' & Ht & Hes' & S' & W' & D').
    exists t'. by rewrite Ht, S', W', D', S, W, D.
Qed.

(** Cleaning up pranks and broadcasts changes nothing else. *)
Lemma cleaned_rest t :
  let t' := clean_broadcast (clean_prank t) in
  c_expected_emits (t_cheats t') = c_expected_emits (t_cheats t) /\
  c_fork_revert_diagnostic (t_cheats t') = c_fork_revert_diagnostic (t_cheats t) /\
  c_expected_revert (t_cheats t') = c_expected_revert (t_cheats t) /\
  t_world t' = mkWorld (w_backend (t_world t)) (w_env (t_world t')) (w_state (t_world t)).
Proof.
  cbv zeta. unfold clean_broadcast, clean_prank.
  destruct t as [c [b e j]]. cbn. destruct (c_prank c) as [p|]; cbn; [|].
  - destruct (depth _ =? pk_depth p), (pk_single_call p); cbn; (destruct (c_broadcast c) as [q|]; cbn; [|done]);
      destruct (depth _ =? bc_depth q), (bc_single_call q); done.
  - destruct (c_broadcast c) as [q|]; cbn; [|done]. destruct (depth _ =? bc_depth q), (bc_single_call q); done.
Qed.

(** Expected events decide their call.  With events expected of a call
    (each filled in by the test), the call keeps its outcome just if the
    events it emits contain the expected ones in the order in which they were
    expected, other events in between; otherwise it reverts with
    [Log != expected log]. *)
Theorem expect_emits_decide logs t d inputs gas status retdata :
  Forall waiting (c_expected_emits (t_cheats t)) -> (exists e, e ∈ c_expected_emits (t_cheats t) /\ em_depth e = d) -> 0 < d ->
  ci_contract inputs <> CHEATCODE_ADDRESS -> ci_contract inputs <> HARDHAT_CONSOLE_ADDRESS -> ci_is_static inputs = false ->
  c_expected_revert (t_cheats t) = None -> c_fork_revert_diagnostic (t_cheats t) = None ->
  exists t1, emit_all logs t = Ret t1 /\
    forall w t2, at_depth d w t1 t2 -> active_fork_id (w_backend w) = None ->
      (emitted_in_order (c_expected_emits (t_cheats t)) logs ->
       exists t3, call_end inputs gas status retdata t2 = Ret ((status, gas, retdata), t3) /\ c_expected_emits (t_cheats t3) = []) /\
      (~ emitted_in_order (c_expected_emits (t_cheats t)) logs ->
       exists t3, call_end inputs gas status retdata t2 = Ret ((IRevert, gas, abi_encode_string "Log != expected log"), t3)).
Proof.
  intros Hw Hd Hpos Hc1 Hc2 Hstatic Her Hdiag.
  destruct (see_emits_spec (c_expected_emits (t_cheats t)) [] logs) as (es & Hes & Hiff & Hdep); [done|done|]. rewrite app_nil_r in *.
  destruct (emit_all_spec logs t es Hes) as (t1 & -> & E1 & S1 & W1 & D1). exists t1. split; [done|].
  intros w t2 (-> & Hdw & Henv) Hfork.
  destruct (cleaned_rest (in_world w t1)) as (R1 & R2 & R3 & R4). injection S1 as S1 _ _ _. cbn in R1, R2, R3, R4.
  unfold call_end. rewrite decide_False by tauto. change (depth (in_world w t1)) with (js_depth (w_state w)).
  rewrite Hdw. replace (d =? 0) with false by lia. cbn [andb].
  remember (clean_broadcast (clean_prank (in_world w t1))) as t2 eqn:E2. clear E2.
  assert (depth t2 = d) as Hd2 by (unfold depth; by rewrite R4).
  unfold due_revert. rewrite R3, S1, Her. cbn [mbind option_bind].
  assert (should_check_emits inputs t2 = true) as Hcheck.
  { unfold should_check_emits. rewrite Hstatic, andb_true_r. apply existsb_exists. destruct Hd as (e0 & Hin & He0). rewrite R1, E1, Hd2.
    assert (d ∈ map em_depth es) as (e1 & -> & He1)%list_elem_of_fmap.
    { rewrite Hdep. apply list_elem_of_fmap. by exists e0. }
    exists e1. split; [by apply list_elem_of_In|]. apply Z.eqb_refl. }
  rewrite Hcheck, R1, E1. cbn [andb].
  assert (existsb (fun e => negb (em_found e)) es = negb (forallb em_found es)) as ->.
  { clear. induction es as [|e es IH]; cbn; [done|]. rewrite IH. by destruct (em_found e). }
  split; intros Hord.
  - rewrite (proj2 Hiff Hord). cbn [negb]. change (depth (with_cheats _ t2)) with (depth t2). rewrite Hd2.
    replace (d =? 0) with false by lia. unfold diagnose. cbn. rewrite R2, D1, Hdiag. unfold diagnose_next. cbn. rewrite R4. cbn.
    rewrite Hfork. cbn. by case_match; eexists.
  - destruct (forallb em_found es); [by destruct Hord; apply Hiff|]. by eexists.
Qed.

(** ** Memory *)

(** The offset and the size of what an instruction writes to memory. *)
Definition written (op : Z) (stack : list Z) : option (Z * Z) :=
  if op =? OP_MSTORE then (fun o => (o, 32)) <$> stack !! 0%nat
  else if op =? OP_MSTORE8 then (fun o => (o, 1)) <$> stack !! 0%nat
  else
    '(offset_depth, size_depth, writes) ← mem_opcode op;
    if (writes : bool) then o ← stack !! offset_depth; n ← stack !! size_depth; Some (o, n) else None.
Definition in_range (o n : Z) (r : Range) : Prop := rg_start r <= o /\ o + n <= rg_end r.

Lemma in_some_range_spec ranges o n :
  0 < n -> in_some_range ranges o (o + (n - 1)) = true <-> exists r, r ∈ ranges /\ in_range o n r.
Proof.
  intros Hn. unfold in_some_range, in_range, contains. rewrite existsb_exists. split.
  - intros (r & Hr & Hc). exists r. split; [by apply list_elem_of_In|]. lia.
  - intros (r & Hr & Hc). exists r. split; [by apply list_elem_of_In|]. lia.
Qed.
Lemma in_some_range_first ranges o n : in_some_range ranges o n = true -> existsb (fun r => contains r o) ranges = true.
Proof.
  unfold in_some_range. rewrite !existsb_exists. intros (r & Hr & [Hc _]%andb_true_iff). by exists r.
Qed.
Lemma step_memory_spec ranges i op o n out :
  step_memory ranges i = Ret out -> current_opcode i = Ret op -> written op (ip_stack i) = Some (o, n) -> 0 <= o -> 0 < n ->
  (out = GoOn /\ exists r, r ∈ ranges /\ in_range o n r) \/ (out = Disallowed o n /\ ~ exists r, r ∈ ranges /\ in_range o n r).
Proof.
  intros Hstep Hop Hw Ho Hn. pose proof (in_some_range_spec ranges o n Hn) as Hin. unfold step_memory in Hstep. rewrite Hop in Hstep. cbn [mbind exec_bind] in Hstep.
  unfold written in Hw. destruct (op =? OP_MSTORE) eqn:E1.
  { assert (op =? OP_MLOAD = false) as E2 by (apply Z.eqb_eq in E1 as ->; done). rewrite E2 in Hstep. cbn [orb andb] in Hstep.
    destruct (ip_stack i !! 0%nat) as [top|]; [|done]. injection Hw as <- <-. rewrite exec_bind_Ret in Hstep.
    destruct Hstep as (o' & Ho' & Hstep). unfold u256_as_u64 in Ho'. case_decide; [|done]. injection Ho' as <-.
    destruct (existsb _ ranges) eqn:Ef.
    - rewrite exec_bind_Ret in Hstep. destruct Hstep as (l & Hl & Hstep). unfold u64_add in Hl. case_decide; [|done]. injection Hl as <-.
      injection Hstep as <-. change (top + (32 - 1)) with (top + 31) in Hin. destruct (in_some_range ranges top (top + 31)) eqn:Er.
      + left. split; [done|]. by apply Hin.
      + right. split; [done|]. by rewrite <- Hin.
    - injection Hstep as <-. right. split; [done|]. rewrite <- Hin. intros Hr%in_some_range_first. congruence. }
  destruct (op =? OP_MSTORE8) eqn:E2.
  { assert (op =? OP_MLOAD = false) as E3 by (apply Z.eqb_eq in E2 as ->; done). rewrite E3 in Hstep. cbn [orb andb] in Hstep.
    destruct (ip_stack i !! 0%nat) as [top|]; [|done]. injection Hw as <- <-. rewrite exec_bind_Ret in Hstep.
    destruct Hstep as (o' & Ho' & [= <-]). unfold u256_as_u64 in Ho'. case_decide; [|done]. injection Ho' as <-.
    assert (in_some_range ranges top (top + (1 - 1)) = existsb (fun r => contains r top) ranges) as Heq.
    { unfold in_some_range. rewrite Z.add_0_r. clear. induction ranges as [|r ranges IH]; cbn; [done|]. rewrite IH. by destruct (contains r top). }
    rewrite Heq in Hin. destruct (existsb _ ranges).
    - left. split; [done|]. by apply Hin.
    - right. split; [done|]. by rewrite <- Hin. }
  destruct (mem_opcode op) as [[[od sd] writes]|] eqn:Em; [|done]. cbn in Hw. destruct writes; [|done].
  assert (op =? OP_MLOAD = false) as E3.
  { destruct (op =? OP_MLOAD) eqn:E; [|done]. apply Z.eqb_eq in E as ->. done. }
  rewrite E3 in Hstep. cbn [orb] in Hstep. destruct (ip_stack i !! od) as [o1|], (ip_stack i !! sd) as [n1|]; try done.
  injection Hw as -> ->. rewrite exec_bind_Ret in Hstep. destruct Hstep as (o' & Ho' & Hstep). unfold u256_as_u64 in Ho'. case_decide; [|done].
  injection Ho' as <-. rewrite exec_bind_Ret in Hstep. destruct Hstep as (n' & Hn' & Hstep). unfold u256_as_u64 in Hn'. case_decide; [|done].
  injection Hn' as <-. rewrite exec_bind_Ret in Hstep. destruct Hstep as (allowed & Hal & Hstep).
  assert (allowed = in_some_range ranges o (o + (n - 1))) as ->.
  { destruct (existsb _ ranges) eqn:Ef.
    - rewrite exec_bind_Ret in Hal. destruct Hal as (l & Hl & [= <-]). unfold u64_add in Hl. case_decide; [|done]. injection Hl as <-.
      do 2 f_equal. word_lia.
    - injection Hal as <-. symmetry. apply not_true_iff_false. intros Hr%in_some_range_first. congruence. }
  destruct (in_some_range _ _ _); injection Hstep as <-; [left|right]; (split; [done|]); [by apply Hin|by rewrite <- Hin].
Qed.

(** Memory outside the ranges a test allows is not written.  At a depth at
    which memory is restricted, an instruction that writes [n] bytes at [o]
    is carried out just if one allowed range holds all of them; otherwise the
    call reverts, with the message behind the untouched memory. *)
Theorem safe_memory_enforced i t r i' t' ranges op o n :
  step i t = Ret (r, i', t') -> c_allowed_mem_writes (t_cheats t) !! depth t = Some ranges ->
  current_opcode i = Ret op -> written op (ip_stack i) = Some (o, n) -> 0 <= o -> 0 < n ->
  (r = Continue /\ ip_memory i' = ip_memory i /\ exists rg, rg ∈ ranges /\ in_range o n rg) \/
  (r = IRevert /\ (exists message, ip_memory i' = ip_memory i ++ message) /\ ~ exists rg, rg ∈ ranges /\ in_range o n rg).
Proof.
  intros Hstep Hal Hop Hw Ho Hn. unfold step in Hstep. rewrite exec_bind_Ret in Hstep. destruct Hstep as ([i1 c1] & E1 & Hstep).
  assert (c_allowed_mem_writes c1 = c_allowed_mem_writes (t_cheats t) /\ current_opcode i1 = current_opcode i /\ ip_stack i1 = ip_stack i /\
    ip_memory i1 = ip_memory i) as (A1 & O1 & S1 & M1).
  { revert E1. unfold step_gas, mbind, exec_bind. repeat case_match; intros; simplify_eq/=; done. }
  rewrite <- O1 in Hop. rewrite <- S1 in Hw. rewrite <- M1. clear E1 O1 S1 M1.
  rewrite exec_bind_Ret in Hstep. destruct Hstep as ([out c2] & E2 & Hstep).
  assert (out = GoOn /\ c_allowed_mem_writes c2 = c_allowed_mem_writes c1) as [-> A2].
  { revert E2. unfold step_accesses. destruct (c_accesses c1); [|by intros [= <- <-]]. rewrite Hop. cbn [mbind exec_bind].
    destruct ((op =? OP_SLOAD) || (op =? OP_SSTORE)) eqn:E; [|by intros [= <- <-]]. exfalso.
    apply orb_true_iff in E as [E|E]; apply Z.eqb_eq in E as ->; done. }
  rewrite A2, A1, Hal in Hstep. rewrite exec_bind_Ret in Hstep. destruct Hstep as (out & E3 & Hstep).
  destruct (step_memory_spec _ _ _ _ _ _ E3 Hop Hw Ho Hn) as [[-> Hr]|[-> Hr]].
  - left. rewrite exec_bind_Ret in Hstep. by destruct Hstep as (? & _ & [= <- <- <-]).
  - right. injection Hstep as <- <- <-. split_and!; [done| |done]. by eexists.
Qed.

(** ** Deals *)
Definition balance_of (a : Address) (t : Test) : option Z :=
  (fun acc => AccountInfo.balance (acc_info acc)) <$> js_state (w_state (t_world t)) !! a.
(** The balance an account had before it was dealt with first. *)
Definition before_deals (a : Address) (deals : list DealRecord) : option Z :=
  dl_old_balance <$> head (filter (fun d => dl_address d = a) deals).
Definition js_balance (a : Address) (js : JournaledState) : option Z :=
  (fun acc => AccountInfo.balance (acc_info acc)) <$> js_state js !! a.

Lemma undo_deal_balance a js d :
  js_balance a (undo_deal js d) =
  if decide (dl_address d = a) then (fun _ => dl_old_balance d) <$> js_balance a js else js_balance a js.
Proof.
  unfold undo_deal, js_balance. case_decide as E.
  - subst a. destruct (js_state js !! dl_address d) eqn:Ej; cbn; [|by rewrite Ej]. by rewrite lookup_insert_eq.
  - destruct (js_state js !! dl_address d) eqn:Ej; [|done]. cbn. by rewrite lookup_insert_ne.
Qed.
Lemma undo_deals_balance a deals js :
  js_balance a (fold_left undo_deal (reverse deals) js) =
  match before_deals a deals with Some v => (fun _ => v) <$> js_balance a js | None => js_balance a js end.
Proof.
  rewrite <- (reverse_involutive deals) at 2. generalize (reverse deals) as l. intros l. revert js. induction l as [|d l IH]; intros js; cbn [fold_left]; [done|].
  rewrite IH, reverse_cons. unfold before_deals. rewrite filter_app. clear IH. rewrite undo_deal_balance.
  destruct (filter (fun d => dl_address d = a) (reverse l)) as [|x rest] eqn:E; cbn [head app].
  - rewrite filter_cons, filter_nil. case_decide; done.
  - cbn. case_decide; [|done]. by destruct (js_balance a js).
Qed.

(** A failed test gives the ether it dealt back.  When the outermost call
    reverts, every account has the balance it had before the test first dealt
    with it, and the balance it has if it did not; the records are gone. *)
Theorem deals_rolled_back t :
  c_expected_revert (t_cheats t) = None -> depth t = 0 ->
  c_eth_deals (t_cheats (on_revert t)) = [] /\
  forall a, balance_of a (on_revert t) =
    match before_deals a (c_eth_deals (t_cheats t)) with Some v => (fun _ => v) <$> balance_of a t | None => balance_of a t end.
Proof.
  intros Her Hd. unfold on_revert. rewrite decide_False by (rewrite Her; by intros []). rewrite Hd. split; [done|]. intros a.
  apply (undo_deals_balance a (c_eth_deals (t_cheats t)) (w_state (t_world t))).
Qed.
End CheatProps.
