(* ===== verification/CheatSample.v ===== *)
(** * Cheatcodes at work

    Concrete libraries with which the inspector runs: the theorems about it
    are instantiated here, and the behaviours recorded as findings are shown. *)
From Stdlib Require Import Ascii.
From stdpp Require Import pretty.
From S2P Require Import Prelude Transaction Hardfork Block Snapshots Db Validator Executor MultiFork ForkBackend ForkBackendProps ForkSample Expect Mapping Cheatcodes CheatHooks ExpectProps CheatProps.
Open Scope Z_scope.

Module CheatToy.
Import ForkToy.
Definition string_bytes (s : string) : list byte := (fun c => Z.of_nat (nat_of_ascii c)) <$> String.list_ascii_of_string s.
#[export] Instance evm_lib : EvmLib := {|
  Gas := Z; gas_new g := g; gas_limit_of g := g; keccak256 data := 1000 + foldr Z.add 0 data |}.
#[export] Instance abi : Abi := {|
  abi_encode_string := string_bytes; abi_decode_string _ := None; abi_decode_bytes d := Some d; from_utf8 _ := None; hex_encode _ := "" |}.
(** The call data of the toy name a cheatcode by its number. *)
Definition cheatcode_table : list (HevmCall Empty_set Empty_set) :=
  [ExpectRevert0; Prank1 8 9; StartPrank0 8; Deal 5 100; GetRecordedLogs; Skip true].
#[export] Instance cheat_lib : CheatLib := {|
  PureCall := Empty_set;
  OtherCall := Empty_set;
  decode_call input :=
    match input with
    | [n] => match cheatcode_table !! Z.to_nat n with Some c => Ok c | None => Err "unknown" end
    | _ => Err "unknown"
    end;
  pure_result c _ := match c with end;
  other_result c := match c with end;
  abi_encode _ := [];
  load_db a js b :=
    (Ok tt, (match js_state js !! a with
             | Some _ => js
             | None => set_state (<[a := mkAccount default_account ∅ false tt]> (js_state js)) js
             end, b));
  sload_db _ _ js b := (Ok 0, (js, b));
  sstore_db _ _ _ js b := (Ok tt, (js, b));
  code_by_hash _ _ := Ok [];
  touch _ js := js;
  set_code _ _ js := js;
  create2_address a _ _ := a;
  key_address k := k;
  display_backend_error _ := "";
  display_access_error _ := "";
  debug_address a := pretty a;
  pretty_address a := pretty a |}.
#[export] Instance spec_order : SpecIdOrder := spec_order_by_index.

Definition config : CheatsConfig := mkCheatsConfig ∅ (fun _ => false) (mkOpts None tt).
Definition no_evm (b : Backend) (e : Env) (c : bool) : result (gmap Address Account) string := Err "no evm".
Definition no_vars (v : string) : result string string := Err v.
Definition hook_call := call connect no_evm config no_vars.
Definition cheat := apply_cheatcode connect no_evm config no_vars.
Definition block : BlockEnv.t := BlockEnv.mk 0 7 1000 0 None 0 30000000.
(** A test contract (77) runs at depth 1. *)
Definition world_at (d : Z) : World := mkWorld (backend_new ∅) env (mkJournal ∅ [] d [] tt).
Definition test0 : Test := mkTest (cheatcodes_new block 0) (world_at 1).
Definition after_cheat (n : Z) (t : Test) : Test := match cheat 77 [n] t with Ret (_, t) => t | Panic _ => t end.
Definition call_to (a : Address) (input : list byte) : CallInputs := mkCall a (mkTransfer 77 a 0) input 1000 (mkContext a 77) false.
Definition target : CallInputs := call_to 500 [].
Definition first_of (c : CallInputs) (t : Test) : CallResult * CallInputs * Test :=
  match hook_call c false t with Ret x => x | Panic _ => ((IStop, 0, []), c, t) end.
Definition called (c : CallInputs) (t : Test) : bool := match hook_call c false t with Ret _ => true | Panic _ => false end.
Lemma called_ret c t : called c t = true -> hook_call c false t = Ret ((first_of c t).1.1, (first_of c t).1.2, (first_of c t).2).
Proof. unfold called, first_of. destruct (hook_call c false t) as [[[? ?] ?]|]; done. Qed.

(** ** Expected reverts *)
Definition expecting : Test := after_cheat 0 test0.
Definition entered : Test := (first_of target expecting).2.
Lemma leaf_callee allowed first t d :
  first.1.1 = Continue -> depth t = d -> w_env (t_world t) = env ->
  callee connect no_evm config no_vars allowed first t (in_world (world_at d) (in_world (world_at (d + 1)) t)).
Proof.
  intros Hf Hd He. right. split; [done|]. exists (world_at (d + 1)). eexists _, _, (world_at d).
  split; [|split; [apply runs_end|]].
  - split; [done|]. rewrite <- Hd. split; [done|by symmetry].
  - split; [done|]. split; [by rewrite Hd|done].
Qed.
Lemma expect_revert_decides_witness :
  exists r t3, stack_call_end (first_of target expecting).1.2 1000 IRevert [1; 2] (in_world (world_at 1) (in_world (world_at 2) entered)) = Ret (r, t3) /\
    c_expected_revert (t_cheats t3) = None /\ r = (IReturn, 1000, DUMMY_CALL_OUTPUT).
Proof.
  apply (expect_revert_decides connect no_evm config no_vars (mkExpectedRevert None 1) target false expecting
           (first_of target expecting).1.1 (first_of target expecting).1.2 entered _ 1000 IRevert [1; 2]);
    [by vm_compute|by vm_compute|by vm_compute|by vm_compute|by vm_compute|apply called_ret; by vm_compute|by vm_compute|].
  apply leaf_callee; by vm_compute.
Defined.

(** ** Pranks *)
Definition pranking : Test := after_cheat 1 test0.
Definition the_prank : Prank := mkPrank 77 CALLER 8 (Some 9) 1 true false.
Lemma prank_scope_witness :
  c_prank (t_cheats pranking) = Some the_prank /\
  exists first t1, hook_call target false pranking = Ret (first, set_call_caller 8 target, t1) /\ first.1.1 = Continue /\ tx_caller t1 = 9 /\
    forall t2 gas status retdata r t3,
      callee connect no_evm config no_vars (prank_allows the_prank) first t1 t2 ->
      stack_call_end (set_call_caller 8 target) gas status retdata t2 = Ret (r, t3) ->
      tx_caller t3 = CALLER /\ c_prank (t_cheats t3) = None.
Proof.
  split; [by vm_compute|].
  apply (prank_scope connect no_evm config no_vars the_prank target false pranking);
    [by vm_compute|by vm_compute|by vm_compute|by vm_compute|by vm_compute|by vm_compute|by vm_compute|by vm_compute|].
  intros a data e n. assert (c_expected_calls (t_cheats pranking) = ∅) as -> by (by vm_compute). done.
Defined.

(** The origin of a single prank is not put back when the called code makes a
    call of its own: the end of that call takes the prank away, at a depth at
    which the origin is left alone. *)
Theorem single_prank_origin_leaks p t c gas st ret r t1 w t2 c' gas' st' ret' r' t3 :
  pranked p (t_cheats t) -> pk_single_call p = true -> pk_depth p < depth t -> 0 < pk_depth p -> c_broadcast (t_cheats t) = None ->
  ci_contract c <> CHEATCODE_ADDRESS -> ci_contract c <> HARDHAT_CONSOLE_ADDRESS ->
  ci_contract c' <> CHEATCODE_ADDRESS -> ci_contract c' <> HARDHAT_CONSOLE_ADDRESS ->
  stack_call_end c gas st ret t = Ret (r, t1) -> at_depth (pk_depth p) w t1 t2 ->
  stack_call_end c' gas' st' ret' t2 = Ret (r', t3) ->
  tx_caller t3 = tx_caller t /\ c_prank (t_cheats t3) = None.
Proof.
  intros HP Hs Hd Hpos Hb Hc1 Hc2 Hc1' Hc2' Hend1 (-> & Hdw & Henv) Hend2.
  assert (forall t, c_prank (t_cheats t) = None -> c_broadcast (t_cheats t) = None -> w_env (t_world (ended t)) = w_env (t_world t)) as Hidle.
  { intros u Hp' Hb'. unfold ended, clean_prank. rewrite Hp'. unfold clean_broadcast. rewrite Hb'. by case_match. }
  apply stack_call_end_ended in Hend1 as [S1 E1]; [|done..|replace (depth t =? 0) with false by lia; done].
  apply stack_call_end_ended in Hend2 as [S2 E2]; [|done..|unfold depth; cbn; rewrite Hdw; replace (pk_depth p =? 0) with false by lia; done].
  destruct (pranked_ended p t HP) as [P1 _]. rewrite Hs in P1. injection S1 as _ S1 _ B1. rewrite P1 in S1. apply fmap_None in S1.
  assert (c_broadcast (t_cheats (ended t)) = None) as Hb1.
  { pose proof (clean_broadcast_slots (clean_prank t)) as S. pose proof (clean_prank_slots t) as S'. injection S' as _ _ _ S'.
    injection S as _ _ _ S. rewrite S', Hb in S. unfold ended. by case_match. }
  rewrite Hb1 in B1. specialize (Hidle (in_world w t1) S1 B1). unfold tx_caller. rewrite E2, Hidle. cbn. rewrite Henv, E1. split.
  - apply fmap_Some in HP as (q & Hq & Hpq). assert (pk_depth q = pk_depth p) as E by (destruct p, q; cbn in *; naive_solver).
    assert (t_world (ended t) = t_world (clean_broadcast (clean_prank t))) as -> by (unfold ended; by case_match).
    assert (t_world (clean_prank t) = t_world t) as E3.
    { unfold clean_prank. rewrite Hq, E. replace (depth t =? pk_depth p) with false by lia. by case_match. }
    unfold clean_broadcast. assert (c_broadcast (t_cheats (clean_prank t)) = None) as -> by (pose proof (clean_prank_slots t) as S; by injection S as _ _ _ ->).
    by rewrite E3.
  - injection S2 as _ S2 _ _. pose proof (clean_broadcast_slots (clean_prank (in_world w t1))) as S. rewrite clean_prank_slots in S. injection S as _ S _ _.
    cbn in S. rewrite S1 in S. cbn in S. apply (proj1 (fmap_None unuse _)). rewrite S2. unfold ended. case_match; exact S.
Qed.

(** A prank that was applied to a creation counts as not used: starting
    another one is refused. *)
Theorem created_prank_not_overwritten p c t origin caller d :
  c_prank (t_cheats t) = Some p -> pk_used p = false -> pk_depth p = depth t -> cin_caller c = pk_prank_caller p ->
  exists t', apply_prank_create c t = (set_create_caller (pk_new_caller p) c, t') /\
    prank caller origin 8 None d false t' = Ret (Err (Custom "You cannot overwrite `prank` until it is applied at least once"), t').
Proof.
  intros Hp Hu Hd Hc. unfold apply_prank_create. rewrite Hp, Hd, Z.leb_refl, Hc, !Z.eqb_refl. cbn [andb].
  eexists. split; [done|]. unfold prank, mbind, ck_bind, cheats, mbind, exec_bind.
  destruct (pk_new_origin p); cbn; rewrite Hp; unfold ensure; rewrite Hu; done.
Qed.

(** ** Events *)
Definition event (topic : H256) : RawLog := mkRawLog [topic] [].
Definition expecting_events : Test :=
  mkTest (with_expected_emits [mkEmit 1 (Some (event 1)) ALL_CHECKS None false; mkEmit 1 (Some (event 2)) ALL_CHECKS None false] (t_cheats test0))
    (world_at 2).
Lemma expect_emits_decide_witness :
  exists t1, emit_all [(500, event 1); (500, event 7); (500, event 2)] expecting_events = Ret t1 /\
    exists t3, call_end target 1000 IStop [] (in_world (world_at 1) t1) = Ret ((IStop, 1000, []), t3) /\ c_expected_emits (t_cheats t3) = [].
Proof.
  destruct (expect_emits_decide [(500, event 1); (500, event 7); (500, event 2)] expecting_events 1 target 1000 IStop []) as (t1 & H1 & H2).
  - repeat constructor; cbn; try done; eexists; split; done || (cbn; lia).
  - eexists. split; [by left|done].
  - done.
  - done.
  - done.
  - done.
  - done.
  - done.
  - exists t1. split; [exact H1|]. apply (H2 (world_at 1)); [|by vm_compute|].
    + split; [done|]. split; [done|]. destruct (emit_all_spec [(500, event 1); (500, event 7); (500, event 2)] expecting_events _ eq_refl) as (t' & E & _ & _ & W & _).
      rewrite E in H1. injection H1 as <-. by rewrite W.
    + apply in_order_take; [|apply in_order_skip, in_order_take; [|constructor]].
      all: eexists; split; [done|]; split; [by eexists|]; split; [done|]; split; [|done]; intros [|[|[|]]] ? ?; done || lia.
Defined.

(** An event that was seen already, still in the queue, takes the place of the
    event that is waited for: its log is lost. *)
Theorem found_event_hides_the_next :
  let queue := [mkEmit 1 (Some (event 1)) ALL_CHECKS None true; mkEmit 1 (Some (event 2)) ALL_CHECKS None false] in
  exists queue', handle_expect_emit queue (event 2) 500 = Ret queue' /\ forallb em_found queue' = false.
Proof. eexists. split; [by vm_compute|done]. Qed.

(** ** Calls and mocks *)
Definition tracker : ExpectedCallTracker := {[500 := {[[1] := (mkExpectedCall None None None 2 Count, 0)]}]}.
Lemma tracker_entry a data e n : tracked tracker a data = Some (e, n) -> a = 500 /\ data = [1] /\ e = mkExpectedCall None None None 2 Count /\ n = 0.
Proof.
  unfold tracked, tracker, ExpectedCallTracker. destruct (decide (a = 500)) as [->|]; [|by rewrite lookup_singleton_ne].
  rewrite lookup_singleton_eq. cbn. destruct (decide (data = [1])) as [->|]; [|by rewrite lookup_singleton_ne].
  rewrite lookup_singleton_eq. by intros [= <- <-].
Qed.
Lemma expected_calls_counted_witness :
  exists calls', see_calls tracker [call_to 500 [1; 2]; call_to 501 [1]; call_to 500 [1]] = Ret calls' /\ unmet_call calls' = None.
Proof.
  destruct (expected_calls_counted tracker [call_to 500 [1; 2]; call_to 501 [1]; call_to 500 [1]]) as (calls' & H1 & _ & H2).
  - intros a data e n (-> & -> & -> & ->)%tracker_entry. by vm_compute.
  - exists calls'. split; [exact H1|]. apply H2. intros a data e n (-> & -> & -> & ->)%tracker_entry. by vm_compute.
Defined.

(** A second expectation of the same call data drops its value and gas. *)
Theorem second_expected_call_loses_value a data v g m v' g' m' n calls :
  tracked calls a data = Some (mkExpectedCall v g m n NonCount, 0) -> n + 1 <= U64_MAX ->
  exists calls', expect_call a data v' g' m' 1 NonCount calls = Ret (Ok tt, calls') /\
    tracked calls' a data = Some (mkExpectedCall v g m (n + 1) NonCount, 0).
Proof.
  unfold tracked, expect_call, ExpectedCallTracker in *. destruct (calls !! a) as [t|]; cbn; [|done]. intros Ht Hn. rewrite Ht. cbn.
  unfold u64_add. rewrite !decide_True by done. cbn [mbind exec_bind]. rewrite ?decide_True by done. eexists. split; [done|]. rewrite lookup_insert_eq. cbn. by rewrite lookup_insert_eq.
Qed.

Definition mocks : MockedCalls :=
  mock_call 500 (mkMock [1] None) (mkMockReturn IReturn [1]) (mock_call 500 (mkMock [1; 2] None) (mkMockReturn IReturn [2]) ∅).
Lemma mock_most_specific_witness :
  find_mock (call_to 500 [1; 2; 3]) mocks = Some (mkMockReturn IReturn [2]) /\
  match find_mock (call_to 500 [1; 2; 3]) mocks with
  | None => False
  | Some ret => exists m, default ∅ (mocks !! 500) !! m = Some ret /\ mock_matches (call_to 500 [1; 2; 3]) m = true /\
      forall m', is_Some (default ∅ (mocks !! 500) !! m') -> mock_matches (call_to 500 [1; 2; 3]) m' = true ->
        (length (mk_calldata m') < length (mk_calldata m))%nat \/
        (mk_calldata m' = mk_calldata m /\ (mk_value m' = mk_value m \/ mk_value m' = None))
  end.
Proof.
  split; [by vm_compute|].
  pose proof (mock_most_specific (call_to 500 [1; 2; 3]) mocks (default ∅ (mocks !! 500)) eq_refl) as H.
  destruct (find_mock (call_to 500 [1; 2; 3]) mocks) eqn:E; [exact H|]. by vm_compute in E.
Defined.

(** ** Memory *)
Definition interp (code : list byte) (stack : list Z) (memory : list byte) : Interpreter := mkInterp 0 code stack memory 1000 500 (0, 0).
Definition restricted : Test := mkTest (with_allowed_mem_writes {[1 := [mkRange 0 0x60; mkRange 0x80 0xa0]]} (t_cheats test0)) (world_at 1).
Definition stepped (i : Interpreter) (t : Test) : InstructionResult * Interpreter * Test :=
  match step i t with Ret x => x | Panic _ => (IStop, i, t) end.
Lemma stepped_ret i t :
  match step i t with Ret _ => true | Panic _ => false end = true -> step i t = Ret ((stepped i t).1.1, (stepped i t).1.2, (stepped i t).2).
Proof. unfold stepped. destruct (step i t) as [[[? ?] ?]|]; done. Qed.
Definition mstore_high : Interpreter := interp [OP_MSTORE] [0x90; 7] (replicate 160 0).
Lemma safe_memory_enforced_witness :
  (stepped mstore_high restricted).1.1 = IRevert /\
  (((stepped mstore_high restricted).1.1 = Continue /\ ip_memory (stepped mstore_high restricted).1.2 = ip_memory mstore_high /\
    exists rg, rg ∈ [mkRange 0 0x60; mkRange 0x80 0xa0] /\ in_range 0x90 32 rg) \/
   ((stepped mstore_high restricted).1.1 = IRevert /\ (exists message, ip_memory (stepped mstore_high restricted).1.2 = ip_memory mstore_high ++ message) /\
    ~ exists rg, rg ∈ [mkRange 0 0x60; mkRange 0x80 0xa0] /\ in_range 0x90 32 rg)).
Proof.
  split; [by vm_compute|].
  apply (safe_memory_enforced mstore_high restricted _ _ (stepped mstore_high restricted).2 [mkRange 0 0x60; mkRange 0x80 0xa0] OP_MSTORE 0x90 32);
    [apply stepped_ret; by vm_compute|by vm_compute|by vm_compute|by vm_compute|lia|lia].
Defined.

(** A call that wants no return data is refused for the place at which it
    would not write it. *)
Theorem empty_write_refused ranges :
  existsb (fun r => contains r 0x80) ranges = false ->
  step_memory ranges (interp [0xf1] [1000; 500; 0; 0x80; 0; 0x80; 0] (replicate 128 0)) = Ret (Disallowed 0x80 0).
Proof.
  intros Hr. unfold step_memory, current_opcode, interp. cbn -[contains existsb u256_as_u64 mem_opcode replicate]. cbn [mem_opcode].
  unfold u256_as_u64. change ([1000; 500; 0; 128; 0; 128; 0] !! 5%nat) with (Some 128). change ([1000; 500; 0; 128; 0; 128; 0] !! 6%nat) with (Some 0).
  cbv iota. rewrite !decide_True by (by vm_compute). cbn [mbind exec_bind]. by rewrite Hr.
Qed.
(** An offset of more than 64 bits, for which the machine would run out of
    gas, stops the program. *)
Theorem huge_offset_panics ranges top stack memory :
  U64_MAX < top -> exists why, step_memory ranges (interp [OP_MSTORE] (top :: stack) memory) = Panic why.
Proof.
  intros Ht. unfold step_memory. cbn -[U64_MAX]. unfold u256_as_u64. rewrite decide_False by lia. by eexists.
Qed.

(** ** Deals, logs and mappings *)
Definition dealt : Test := let t := after_cheat 3 test0 in mkTest (t_cheats t) (mkWorld (backend_new ∅) env (set_depth 0 (w_state (t_world t)))).
Lemma deals_rolled_back_witness :
  CheatProps.balance_of 5 dealt = Some 100 /\ CheatProps.balance_of 5 (on_revert dealt) = Some 0.
Proof.
  split; [by vm_compute|]. destruct (deals_rolled_back dealt) as [_ H]; [by vm_compute|by vm_compute|]. rewrite (H 5). by vm_compute.
Defined.

(** Asking for the recorded logs starts a recording where there was none. *)
Theorem get_recorded_logs_starts_recording t :
  exists out t', get_recorded_logs t = Ret (Ok out, t') /\ c_recorded_logs (t_cheats t') = Some [].
Proof. eexists _, _. split; done. Qed.

Definition hashing : Interpreter := interp [OP_SHA3; OP_SSTORE] [0; 0x40] (replicate 63 0 ++ [3]).
Definition storing : Interpreter := mkInterp 1 [OP_SHA3; OP_SSTORE] [1003; 42] (replicate 63 0 ++ [3]) 1000 500 (0, 0).
Lemma mapping_record_consistent_witness :
  exists slots, foldM (fun s i => on_evm_step i s) ∅ [hashing; storing] = Ret slots /\ get_mapping_length (Some slots) 500 3 = 1.
Proof.
  destruct (mapping_record_consistent [hashing; storing]) as (slots & H1 & _).
  - constructor; [|constructor; [|constructor]]; (split; [by eexists|]).
    + intros top _ [= <-] _. split; [by vm_compute|]. cbn. lia.
    + by intros top [=].
  - exists slots. split; [exact H1|].
    assert (match foldM (fun s i => on_evm_step i s) ∅ [hashing; storing] with Ret s => get_mapping_length (Some s) 500 3 =? 1 | Panic _ => false end = true) as E by (by vm_compute).
    rewrite H1 in E. by apply Z.eqb_eq.
Defined.
End CheatToy.
