(* ===== verification/RemoteDb.v ===== *)
(** * Reading a remote chain (evm/src/executor/fork/backend.rs, cache.rs)

    The handler behind a [SharedBackend]: it answers requests from what was
    fetched before, has at most one request per value under way, and gives
    its answer to all that wait.  A future is modelled by what a poll of it
    does. *)
From S2P Require Import Prelude Transaction Db.
Open Scope Z_scope.

(** ** Data *)

(** The remote chain's own data, and what the ethers and revm libraries do
    with code. *)
Class RemoteLib := {
  BlockId : Type;
  RemoteError : Type;
  FullBlock : Type;
  RemoteTx : Type;
  code_keccak : list byte -> H256;
  info_is_empty : AccountInfo.t -> bool }.

(** [MemDb]: what was fetched. *)
Record MemDb := mkMem {
  mem_accounts : gmap Address AccountInfo.t; mem_storage : gmap Address (gmap Z Z); mem_block_hashes : gmap Z H256 }.
Definition mem_new : MemDb := mkMem ∅ ∅ ∅.
Definition mem_clear (m : MemDb) : MemDb := mkMem ∅ ∅ ∅.
Definition do_insert_account (a : Address) (i : AccountInfo.t) (m : MemDb) : MemDb :=
  mkMem (<[a := i]> (mem_accounts m)) (mem_storage m) (mem_block_hashes m).
Definition insert_slot (a : Address) (idx v : Z) (m : MemDb) : MemDb :=
  mkMem (mem_accounts m) (<[a := <[idx := v]> (default ∅ (mem_storage m !! a))]> (mem_storage m)) (mem_block_hashes m).
Definition insert_hash (n : Z) (h : H256) (m : MemDb) : MemDb :=
  mkMem (mem_accounts m) (mem_storage m) (<[n := h]> (mem_block_hashes m)).

Section RemoteDb.
Context `{!RemoteLib}.

(** [do_commit]: what an execution changed. *)
Record Changed := mkChanged { ch_info : AccountInfo.t; ch_storage : list (Z * Z); ch_destroyed : bool; ch_storage_cleared : bool }.
Definition commit_slot (s : gmap Z Z) (entry : Z * Z) : gmap Z Z :=
  if entry.2 =? 0 then delete entry.1 s else <[entry.1 := entry.2]> s.
Definition commit_account (m : MemDb) (change : Address * Changed) : MemDb :=
  let '(a, acc) := change in
  if info_is_empty (ch_info acc) || ch_destroyed acc then
    mkMem (delete a (mem_accounts m)) (delete a (mem_storage m)) (mem_block_hashes m)
  else
    let i := ch_info acc in
    let code_hash :=
      match AccountInfo.code i with
      | Some (_ :: _ as code) => code_keccak code
      | _ => if AccountInfo.code_hash i =? 0 then KECCAK_EMPTY else AccountInfo.code_hash i
      end in
    let i := AccountInfo.mk (AccountInfo.balance i) (AccountInfo.nonce i) code_hash (AccountInfo.code i) in
    let storage := if ch_storage_cleared acc then ∅ else default ∅ (mem_storage m !! a) in
    let storage := fold_left commit_slot (ch_storage acc) storage in
    mkMem (<[a := i]> (mem_accounts m))
      (if bool_decide (storage = ∅) then delete a (mem_storage m) else <[a := storage]> (mem_storage m)) (mem_block_hashes m).
Definition do_commit (changes : list (Address * Changed)) (m : MemDb) : MemDb := fold_left commit_account changes m.

(** ** Requests and answers

    Senders are named by numbers. *)
Notation Sender := nat (only parsing).
Inductive BackendRequest :=
| Basic (a : Address) (s : Sender)
| Storage (a : Address) (idx : Z) (s : Sender)
| BlockHash (n : Z) (s : Sender)
| ReqFullBlock (id : BlockId) (s : Sender)
| ReqTransaction (h : H256) (s : Sender)
| SetPinnedBlock (id : BlockId).

Inductive RemoteDbError :=
| GetAccount (a : Address) (e : RemoteError)
| GetStorage (a : Address) (idx : Z) (e : RemoteError)
| GetBlockHash (n : Z) (e : RemoteError)
| BlockNotFound (id : BlockId)
| GetFullBlock (id : BlockId) (e : RemoteError)
| TransactionNotFound (h : H256)
| GetTransaction (h : H256) (e : RemoteError).
Inductive Reply :=
| AccountReply (r : result AccountInfo.t RemoteDbError)
| StorageReply (r : result Z RemoteDbError)
| HashReply (r : result H256 RemoteDbError)
| BlockReply (r : result FullBlock RemoteDbError)
| TxReply (r : result RemoteTx RemoteDbError).

(** A future remembers the block it reads at. *)
Inductive ProviderRequest :=
| PAccount (a : Address) (block : option BlockId)
| PStorage (a : Address) (idx : Z) (block : option BlockId)
| PBlockHash (n : Z)
| PFullBlock (id : BlockId) (s : Sender)
| PTransaction (h : H256) (s : Sender).
(** What the endpoint answers; the hash of a block that is pending is
    missing. *)
Record Provider := mkProvider {
  get_account : Address -> option BlockId -> result (Z * Z * list byte) RemoteError;
  get_storage_at : Address -> Z -> option BlockId -> result Z RemoteError;
  get_block : Z -> result (option (option H256)) RemoteError;
  get_block_with_txs : BlockId -> result (option FullBlock) RemoteError;
  get_transaction : H256 -> result (option RemoteTx) RemoteError }.

Record BackendHandler := mkBackendHandler {
  bh_db : MemDb;
  pending_requests : list ProviderRequest;
  account_requests : gmap Address (list Sender);
  storage_requests : gmap (Address * Z) (list Sender);
  block_requests : gmap Z (list Sender);
  queued_requests : list BackendRequest;
  block_id : option BlockId }.
Definition handler_new (db : MemDb) (block : option BlockId) : BackendHandler := mkBackendHandler db [] ∅ ∅ ∅ [] block.
Definition set_db (db : MemDb) (h : BackendHandler) : BackendHandler :=
  mkBackendHandler db (pending_requests h) (account_requests h) (storage_requests h) (block_requests h) (queued_requests h) (block_id h).
Definition set_pending (l : list ProviderRequest) (h : BackendHandler) : BackendHandler :=
  mkBackendHandler (bh_db h) l (account_requests h) (storage_requests h) (block_requests h) (queued_requests h) (block_id h).
Definition set_accounts (m : gmap Address (list Sender)) (h : BackendHandler) : BackendHandler :=
  mkBackendHandler (bh_db h) (pending_requests h) m (storage_requests h) (block_requests h) (queued_requests h) (block_id h).
Definition set_storages (m : gmap (Address * Z) (list Sender)) (h : BackendHandler) : BackendHandler :=
  mkBackendHandler (bh_db h) (pending_requests h) (account_requests h) m (block_requests h) (queued_requests h) (block_id h).
Definition set_blocks (m : gmap Z (list Sender)) (h : BackendHandler) : BackendHandler :=
  mkBackendHandler (bh_db h) (pending_requests h) (account_requests h) (storage_requests h) m (queued_requests h) (block_id h).
Definition set_queued (l : list BackendRequest) (h : BackendHandler) : BackendHandler :=
  mkBackendHandler (bh_db h) (pending_requests h) (account_requests h) (storage_requests h) (block_requests h) l (block_id h).

(** ** Requests *)
Definition push_pending (p : ProviderRequest) (h : BackendHandler) : BackendHandler := set_pending (pending_requests h ++ [p]) h.
Definition request_account (a : Address) (s : Sender) (h : BackendHandler) : BackendHandler :=
  match account_requests h !! a with
  | Some l => set_accounts (<[a := l ++ [s]]> (account_requests h)) h
  | None => push_pending (PAccount a (block_id h)) (set_accounts (<[a := [s]]> (account_requests h)) h)
  end.
Definition request_account_storage (a : Address) (idx : Z) (s : Sender) (h : BackendHandler) : BackendHandler :=
  match storage_requests h !! (a, idx) with
  | Some l => set_storages (<[(a, idx) := l ++ [s]]> (storage_requests h)) h
  | None => push_pending (PStorage a idx (block_id h)) (set_storages (<[(a, idx) := [s]]> (storage_requests h)) h)
  end.
Definition request_hash (n : Z) (s : Sender) (h : BackendHandler) : BackendHandler :=
  match block_requests h !! n with
  | Some l => set_blocks (<[n := l ++ [s]]> (block_requests h)) h
  | None => push_pending (PBlockHash n) (set_blocks (<[n := [s]]> (block_requests h)) h)
  end.
Definition request_full_block (id : BlockId) (s : Sender) (h : BackendHandler) : BackendHandler := push_pending (PFullBlock id s) h.
Definition request_transaction (tx : H256) (s : Sender) (h : BackendHandler) : BackendHandler := push_pending (PTransaction tx s) h.
Definition stored_slot (a : Address) (idx : Z) (m : MemDb) : option Z := s ← mem_storage m !! a; s !! idx.

Definition on_request (req : BackendRequest) (h : BackendHandler) : list (Sender * Reply) * BackendHandler :=
  match req with
  | Basic a s =>
      match mem_accounts (bh_db h) !! a with
      | Some basic => ([(s, AccountReply (Ok basic))], h)
      | None => ([], request_account a s h)
      end
  | BlockHash n s =>
      match mem_block_hashes (bh_db h) !! n with
      | Some hash => ([(s, HashReply (Ok hash))], h)
      | None => ([], request_hash n s h)
      end
  | ReqFullBlock id s => ([], request_full_block id s h)
  | ReqTransaction tx s => ([], request_transaction tx s h)
  | Storage a idx s =>
      match stored_slot a idx (bh_db h) with
      | Some v => ([(s, StorageReply (Ok v))], h)
      | None => ([], request_account_storage a idx s h)
      end
  | SetPinnedBlock id =>
      ([], mkBackendHandler (bh_db h) (pending_requests h) (account_requests h) (storage_requests h) (block_requests h)
             (queued_requests h) (Some id))
  end.
(** [while let Some(req) = pin.queued_requests.pop_front()]; the handling of a
    request queues none. *)
Definition drain (h : BackendHandler) : list (Sender * Reply) * BackendHandler :=
  fold_left (fun x req => let '(r, h) := on_request req x.2 in (x.1 ++ r, h)) (queued_requests h) ([], set_queued [] h).

(** ** Answers *)
Definition send_all (l : option (list Sender)) (v : Reply) : list (Sender * Reply) := (fun s => (s, v)) <$> default [] l.
Definition account_of (balance nonce : Z) (code : list byte) : AccountInfo.t :=
  AccountInfo.mk balance nonce (if bool_decide (code = []) then KECCAK_EMPTY else code_keccak code) (Some code).
Definition hash_of (block : option (option H256)) : exec H256 :=
  match block with
  | Some hash => expect hash "empty block hash on mined block, this should never happen"
  | None => Ret KECCAK_EMPTY
  end.
(** A future that is ready. *)
Definition complete (p : Provider) (req : ProviderRequest) (h : BackendHandler) : exec (list (Sender * Reply) * BackendHandler) :=
  match req with
  | PAccount a block =>
      let listeners := account_requests h !! a in
      let h := set_accounts (delete a (account_requests h)) h in
      match get_account p a block with
      | Err e => Ret (send_all listeners (AccountReply (Err (GetAccount a e))), h)
      | Ok (balance, nonce, code) =>
          n ← u256_as_u64 nonce;
          let acc := account_of balance n code in
          Ret (send_all listeners (AccountReply (Ok acc)), set_db (do_insert_account a acc (bh_db h)) h)
      end
  | PStorage a idx block =>
      let listeners := storage_requests h !! (a, idx) in
      let h := set_storages (delete (a, idx) (storage_requests h)) h in
      match get_storage_at p a idx block with
      | Err e => Ret (send_all listeners (StorageReply (Err (GetStorage a idx e))), h)
      | Ok v => Ret (send_all listeners (StorageReply (Ok v)), set_db (insert_slot a idx v (bh_db h)) h)
      end
  | PBlockHash n =>
      let listeners := block_requests h !! n in
      let h := set_blocks (delete n (block_requests h)) h in
      match get_block p n with
      | Err e => Ret (send_all listeners (HashReply (Err (GetBlockHash n e))), h)
      | Ok block =>
          hash ← hash_of block;
          Ret (send_all listeners (HashReply (Ok hash)), set_db (insert_hash n hash (bh_db h)) h)
      end
  | PFullBlock id s =>
      Ret ([(s, BlockReply match get_block_with_txs p id with
                           | Ok (Some b) => Ok b
                           | Ok None => Err (BlockNotFound id)
                           | Err e => Err (GetFullBlock id e)
                           end)], h)
  | PTransaction tx s =>
      Ret ([(s, TxReply match get_transaction p tx with
                        | Ok (Some t) => Ok t
                        | Ok None => Err (TransactionNotFound tx)
                        | Err e => Err (GetTransaction tx e)
                        end)], h)
  end.

(** [for n in (0..pending_requests.len()).rev()]: the request at [n] is taken
    out, and pushed back if it is not ready. *)
Fixpoint poll_pending (p : Provider) (ready : ProviderRequest -> bool) (n : nat) (h : BackendHandler)
    : exec (list (Sender * Reply) * BackendHandler) :=
  match n with
  | O => Ret ([], h)
  | S n =>
      req ← expect (pending_requests h !! n) "swap_remove index should be < len";
      let h := set_pending (swap_remove n (pending_requests h)) h in
      if ready req then
        '(r1, h) ← complete p req h;
        '(r2, h) ← poll_pending p ready n h;
        Ret (r1 ++ r2, h)
      else poll_pending p ready n (push_pending req h)
  end.

(** ** The loop of [poll]

    What one turn meets: the requests that have come in, whether the channel
    was closed behind them, and the endpoint. *)
Record Turn := mkTurn { tn_incoming : list BackendRequest; tn_closed : bool; tn_provider : Provider; tn_ready : ProviderRequest -> bool }.
Inductive Polled := Done | Waiting | GoesOn.
Definition turn (t : Turn) (h : BackendHandler) : exec (list (Sender * Reply) * Polled * BackendHandler) :=
  let '(r1, h) := drain h in
  let h := set_queued (queued_requests h ++ tn_incoming t) h in
  if tn_closed t then Ret (r1, Done, h)
  else
    '(r2, h) ← poll_pending (tn_provider t) (tn_ready t) (length (pending_requests h)) h;
    Ret (r1 ++ r2, match queued_requests h with [] => Waiting | _ => GoesOn end, h).
Fixpoint poll (turns : list Turn) (h : BackendHandler) : exec (list (Sender * Reply) * Polled * BackendHandler) :=
  match turns with
  | [] => Ret ([], GoesOn, h)
  | t :: turns =>
      '(r1, o, h) ← turn t h;
      match o with
      | GoesOn => '(r2, o, h) ← poll turns h; Ret (r1 ++ r2, o, h)
      | _ => Ret (r1, o, h)
      end
  end.

(** [SharedBackend::block_hash]: numbers that are not 64 bits wide are not
    asked for. *)
Definition block_hash_request (n : Z) (s : Sender) : result H256 BackendRequest :=
  if U64_MAX <? n then Ok KECCAK_EMPTY else Err (BlockHash n s).
End RemoteDb.
