(* ===== verification/RemoteDbProps.v ===== *)
(** * What reading a remote chain promises (theorems about [RemoteDb])

    While the pinned block stays the same, every request is answered once, with
    what the chain has at that block, and no value is asked for twice at a time. *)
From S2P Require Import Prelude Transaction Db RemoteDb.
Open Scope Z_scope.

Section RemoteDbProps.
Context `{!RemoteLib}.

(** ** Who waits for what *)
Inductive Key := KAccount (a : Address) | KStorage (a : Address) (idx : Z) | KHash (n : Z).
Definition key_of (p : ProviderRequest) : option Key :=
  match p with
  | PAccount a _ => Some (KAccount a)
  | PStorage a idx _ => Some (KStorage a idx)
  | PBlockHash n => Some (KHash n)
  | _ => None
  end.
Definition direct (p : ProviderRequest) : option BackendRequest :=
  match p with PFullBlock id s => Some (ReqFullBlock id s) | PTransaction tx s => Some (ReqTransaction tx s) | _ => None end.
Definition listening {K} `{Countable K} (f : K -> nat -> BackendRequest) (m : gmap K (list nat)) : list BackendRequest :=
  map_to_list m ≫= fun x => f x.1 <$> x.2.
Definition storage_of (k : Address * Z) (s : nat) : BackendRequest := Storage k.1 k.2 s.
(** The requests that wait for an answer, where [pend] is under way. *)
Definition waiting_with (pend : list ProviderRequest) (h : BackendHandler) : list BackendRequest :=
  listening Basic (account_requests h) ++ listening storage_of (storage_requests h) ++ listening BlockHash (block_requests h) ++ omap direct pend.
Definition waiting (h : BackendHandler) : list BackendRequest := waiting_with (pending_requests h) h ++ queued_requests h.

(** What is under way and what is waited for are the same. *)
Record in_flight (pend : list ProviderRequest) (h : BackendHandler) : Prop := {
  if_nodup : NoDup (omap key_of pend);
  if_account a : is_Some (account_requests h !! a) <-> KAccount a ∈ omap key_of pend;
  if_storage a idx : is_Some (storage_requests h !! (a, idx)) <-> KStorage a idx ∈ omap key_of pend;
  if_hash n : is_Some (block_requests h !! n) <-> KHash n ∈ omap key_of pend }.

Lemma listening_insert {K} `{Countable K} f (m : gmap K (list nat)) k l :
  m !! k = None -> listening f (<[k := l]> m) ≡ₚ (f k <$> l) ++ listening f m.
Proof. intros Hk. unfold listening. rewrite map_to_list_insert by done. done. Qed.
Lemma listening_delete {K} `{Countable K} f (m : gmap K (list nat)) k :
  listening f m ≡ₚ (f k <$> default [] (m !! k)) ++ listening f (delete k m).
Proof.
  destruct (m !! k) as [l|] eqn:E; cbn; [|by rewrite delete_id].
  rewrite <- (insert_delete_id m k l E) at 1. apply listening_insert, lookup_delete_eq.
Qed.
Lemma listening_push {K} `{Countable K} f (m : gmap K (list nat)) k l s :
  m !! k = Some l -> listening f (<[k := l ++ [s]]> m) ≡ₚ f k s :: listening f m.
Proof.
  intros Hk. rewrite (listening_delete f m k), Hk. cbn. rewrite <- insert_delete_eq, listening_insert by apply lookup_delete_eq.
  rewrite fmap_app. cbn. by rewrite <- Permutation_middle, app_nil_r.
Qed.
Lemma listening_empty {K} `{Countable K} f : listening f (∅ : gmap K (list nat)) = [].
Proof. done. Qed.

Lemma in_flight_perm pend pend' h : pend ≡ₚ pend' -> in_flight pend h -> in_flight pend' h.
Proof.
  intros Hp [N A S B]. assert (omap key_of pend ≡ₚ omap key_of pend') as Hk by (by rewrite Hp).
  split; [by rewrite <- Hk|intros a; by rewrite <- Hk|intros a idx; by rewrite <- Hk|intros n; by rewrite <- Hk].
Qed.
Lemma waiting_with_perm pend pend' h : pend ≡ₚ pend' -> waiting_with pend h ≡ₚ waiting_with pend' h.
Proof. intros Hp. unfold waiting_with. by rewrite Hp. Qed.

(** ** Right answers *)
Section Chain.
(** The chain, at the block that is pinned. *)
Variables (chain : Provider) (block : option BlockId).

Definition chain_account (a : Address) : option AccountInfo.t :=
  match get_account chain a block with Ok (balance, nonce, code) => Some (account_of balance nonce code) | Err _ => None end.
Definition chain_slot (a : Address) (idx : Z) : option Z := match get_storage_at chain a idx block with Ok v => Some v | Err _ => None end.
Definition chain_hash (n : Z) : option H256 :=
  match get_block chain n with Ok (Some o) => o | Ok None => Some KECCAK_EMPTY | Err _ => None end.

(** The answer to a request is for its sender, of its kind, and what the chain
    has; or an error about what was asked. *)
Definition answers (req : BackendRequest) (reply : nat * Reply) : Prop :=
  match req with
  | Basic a s => reply.1 = s /\ ((exists i, chain_account a = Some i /\ reply.2 = AccountReply (Ok i)) \/ exists e, reply.2 = AccountReply (Err (GetAccount a e)))
  | Storage a idx s => reply.1 = s /\ ((exists v, chain_slot a idx = Some v /\ reply.2 = StorageReply (Ok v)) \/ exists e, reply.2 = StorageReply (Err (GetStorage a idx e)))
  | BlockHash n s => reply.1 = s /\ ((exists v, chain_hash n = Some v /\ reply.2 = HashReply (Ok v)) \/ exists e, reply.2 = HashReply (Err (GetBlockHash n e)))
  | ReqFullBlock id s => reply.1 = s /\ exists r, reply.2 = BlockReply r /\ (forall b, r = Ok b -> get_block_with_txs chain id = Ok (Some b))
  | ReqTransaction tx s => reply.1 = s /\ exists r, reply.2 = TxReply r /\ (forall t, r = Ok t -> get_transaction chain tx = Ok (Some t))
  | SetPinnedBlock _ => False
  end.
(** The endpoint answers from the chain, or fails. *)
Record truthful (p : Provider) : Prop := {
  tr_account a b x : get_account p a b = Ok x -> get_account chain a b = Ok x;
  tr_storage a idx b x : get_storage_at p a idx b = Ok x -> get_storage_at chain a idx b = Ok x;
  tr_block n x : get_block p n = Ok x -> get_block chain n = Ok x;
  tr_full id x : get_block_with_txs p id = Ok x -> get_block_with_txs chain id = Ok x;
  tr_tx tx x : get_transaction p tx = Ok x -> get_transaction chain tx = Ok x;
  (** nonces are 64 bits wide and mined blocks have a hash *)
  tr_nonce a b balance n code : get_account p a b = Ok (balance, n, code) -> n <= U64_MAX;
  tr_mined n o : get_block p n = Ok (Some o) -> is_Some o }.
Record mem_true (m : MemDb) : Prop := {
  mt_account a i : mem_accounts m !! a = Some i -> chain_account a = Some i;
  mt_slot a idx v : stored_slot a idx m = Some v -> chain_slot a idx = Some v;
  mt_hash n v : mem_block_hashes m !! n = Some v -> chain_hash n = Some v }.
(** What is under way reads at the pinned block. *)
Definition pinned (p : ProviderRequest) : Prop :=
  match p with PAccount _ b | PStorage _ _ b => b = block | _ => True end.
Record handler_ok (pend : list ProviderRequest) (h : BackendHandler) : Prop := {
  ok_flight : in_flight pend h;
  ok_pinned : Forall pinned pend;
  ok_block : block_id h = block;
  ok_mem : mem_true (bh_db h) }.
Definition asking (req : BackendRequest) : Prop := match req with SetPinnedBlock _ => False | _ => True end.

Lemma stored_insert_slot a idx v m a' idx' :
  stored_slot a' idx' (insert_slot a idx v m) = if decide (a' = a /\ idx' = idx) then Some v else stored_slot a' idx' m.
Proof.
  unfold stored_slot, insert_slot. cbn. destruct (decide (a' = a)) as [->|Ha].
  - rewrite lookup_insert_eq. cbn. destruct (decide (idx' = idx)) as [->|Hi].
    + rewrite lookup_insert_eq, decide_True by done. done.
    + rewrite lookup_insert_ne, decide_False by naive_solver. destruct (mem_storage m !! a); done.
  - rewrite lookup_insert_ne, decide_False by naive_solver. done.
Qed.
Lemma mem_true_account a i m : mem_true m -> chain_account a = Some i -> mem_true (do_insert_account a i m).
Proof.
  intros [A S B] Hi. split; cbn; [|done|done]. intros a' i'. destruct (decide (a' = a)) as [->|Hne].
  - rewrite lookup_insert_eq. by intros [= <-].
  - rewrite lookup_insert_ne by done. apply A.
Qed.
Lemma mem_true_slot a idx v m : mem_true m -> chain_slot a idx = Some v -> mem_true (insert_slot a idx v m).
Proof.
  intros [A S B] Hi. split; [done| |done]. intros a' idx' v'. rewrite stored_insert_slot. case_decide as Hd; [|apply S].
  destruct Hd as [-> ->]. by intros [= <-].
Qed.
Lemma mem_true_hash n v m : mem_true m -> chain_hash n = Some v -> mem_true (insert_hash n v m).
Proof.
  intros [A S B] Hi. split; cbn; [done|done|]. intros n' v'. destruct (decide (n' = n)) as [->|Hne].
  - rewrite lookup_insert_eq. by intros [= <-].
  - rewrite lookup_insert_ne by done. apply B.
Qed.

(** ** Requests *)
Lemma elem_of_keys_snoc k p pend :
  k ∈ omap key_of (pend ++ [p]) <-> k ∈ omap key_of pend \/ key_of p = Some k.
Proof.
  rewrite omap_app, elem_of_app. cbn. destruct (key_of p); rewrite ?list_elem_of_singleton, ?elem_of_nil; naive_solver.
Qed.
Lemma NoDup_keys_snoc p pend :
  NoDup (omap key_of pend) -> (forall k, key_of p = Some k -> k ∉ omap key_of pend) -> NoDup (omap key_of (pend ++ [p])).
Proof.
  intros N Hn. rewrite omap_app. cbn. destruct (key_of p) as [k|]; cbn; [|by rewrite app_nil_r].
  apply NoDup_app. split_and!; [done| |apply NoDup_singleton]. intros x Hx ->%list_elem_of_singleton. by apply (Hn k).
Qed.
(** A listener more: for what is under way already, or a new request. *)
Ltac flight := intros; rewrite ?elem_of_keys_snoc; cbn; rewrite ?lookup_insert; repeat case_decide; simplify_eq; naive_solver.

Definition joined (req : BackendRequest) (h h' : BackendHandler) : Prop :=
  handler_ok (pending_requests h') h' /\ queued_requests h' = queued_requests h /\
  waiting_with (pending_requests h') h' ≡ₚ req :: waiting_with (pending_requests h) h.

Lemma request_account_ok a s h : handler_ok (pending_requests h) h -> joined (Basic a s) h (request_account a s h).
Proof.
  intros [[N A S B] P K M]. unfold request_account. destruct (account_requests h !! a) as [l|] eqn:E; (split; [|split; [done|]]); cbn.
  - split; [|done|done|done]. split; cbn; [done| |done|done]. assert (is_Some (account_requests h !! a)) as Hs by (by rewrite E). flight.
  - unfold waiting_with. cbn. by rewrite (listening_push _ _ _ _ _ E).
  - split; cbn; [|apply Forall_app; split; [done|by repeat constructor]|done|done]. split; cbn; [|flight..].
    apply NoDup_keys_snoc; [done|]. intros k [= <-]. rewrite <- A, E. by intros [].
  - unfold waiting_with. cbn. rewrite (listening_insert _ _ _ _ E), omap_app. cbn. by rewrite app_nil_r.
Qed.
Lemma request_storage_ok a idx s h : handler_ok (pending_requests h) h -> joined (Storage a idx s) h (request_account_storage a idx s h).
Proof.
  intros [[N A S B] P K M]. unfold request_account_storage. destruct (storage_requests h !! (a, idx)) as [l|] eqn:E; (split; [|split; [done|]]); cbn.
  - split; [|done|done|done]. split; cbn; [done|done| |done]. assert (is_Some (storage_requests h !! (a, idx))) as Hs by (by rewrite E). flight.
  - unfold waiting_with. cbn. rewrite (listening_push _ _ _ _ _ E). cbn [app]. by rewrite <- Permutation_middle.
  - split; cbn; [|apply Forall_app; split; [done|by repeat constructor]|done|done]. split; cbn; [|flight..].
    apply NoDup_keys_snoc; [done|]. intros k [= <-]. rewrite <- S, E. by intros [].
  - unfold waiting_with. cbn. rewrite (listening_insert _ _ _ _ E), omap_app. cbn. by rewrite app_nil_r, <- Permutation_middle.
Qed.
Lemma request_hash_ok n s h : handler_ok (pending_requests h) h -> joined (BlockHash n s) h (request_hash n s h).
Proof.
  intros [[N A S B] P K M]. unfold request_hash. destruct (block_requests h !! n) as [l|] eqn:E; (split; [|split; [done|]]); cbn.
  - split; [|done|done|done]. split; cbn; [done|done|done|]. assert (is_Some (block_requests h !! n)) as Hs by (by rewrite E). flight.
  - unfold waiting_with. cbn. rewrite (listening_push _ _ _ _ _ E). cbn [app]. by rewrite <- !Permutation_middle.
  - split; cbn; [|apply Forall_app; split; [done|by repeat constructor]|done|done]. split; cbn; [|flight..].
    apply NoDup_keys_snoc; [done|]. intros k [= <-]. rewrite <- B, E. by intros [].
  - unfold waiting_with. cbn. rewrite (listening_insert _ _ _ _ E), omap_app. cbn. by rewrite app_nil_r, <- !Permutation_middle.
Qed.
(** A request whose answer goes to its sender directly. *)
Lemma push_direct_ok p req h :
  key_of p = None -> direct p = Some req -> handler_ok (pending_requests h) h -> joined req h (push_pending p h).
Proof.
  intros Hk Hd [[N A S B] P K M]. split; [|split; [done|]]; cbn.
  - split; cbn; [|apply Forall_app; split; [done|destruct p; by repeat constructor]|done|done]. split; cbn.
    + apply NoDup_keys_snoc; [done|]. by rewrite Hk.
    + intros. rewrite elem_of_keys_snoc, Hk, A. naive_solver.
    + intros. rewrite elem_of_keys_snoc, Hk, S. naive_solver.
    + intros. rewrite elem_of_keys_snoc, Hk, B. naive_solver.
  - unfold waiting_with. cbn. rewrite omap_app. cbn. rewrite Hd. cbn.
    rewrite (Permutation_app_comm (omap direct _) [req]). cbn. by rewrite <- !Permutation_middle.
Qed.

(** One request: it is answered, or joins those that wait. *)
Lemma on_request_ok req h :
  handler_ok (pending_requests h) h -> asking req ->
  handler_ok (pending_requests (on_request req h).2) (on_request req h).2 /\ queued_requests (on_request req h).2 = queued_requests h /\
  exists A, Forall2 answers A (on_request req h).1 /\
    req :: waiting_with (pending_requests h) h ≡ₚ A ++ waiting_with (pending_requests (on_request req h).2) (on_request req h).2.
Proof.
  intros Hok Hask. assert (forall h', joined req h h' -> handler_ok (pending_requests h') h' /\ queued_requests h' = queued_requests h /\
    exists A, Forall2 answers A [] /\ req :: waiting_with (pending_requests h) h ≡ₚ A ++ waiting_with (pending_requests h') h') as Hj.
  { intros h' (H1 & H2 & H3). split_and!; [done|done|]. exists []. split; [constructor|]. by rewrite H3. }
  assert (forall r, answers req r -> handler_ok (pending_requests h) h /\ queued_requests h = queued_requests h /\
    exists A, Forall2 answers A [r] /\ req :: waiting_with (pending_requests h) h ≡ₚ A ++ waiting_with (pending_requests h) h) as Ha.
  { intros r Hr. split_and!; [done|done|]. exists [req]. split; [by repeat constructor|done]. }
  destruct Hok as [F P K M] eqn:Eok. clear Eok. destruct req as [a s|a idx s|n s|id s|tx s|id]; cbn [on_request]; [..|done].
  - destruct (mem_accounts _ !! a) as [i|] eqn:E; cbn; [apply Ha|apply Hj, request_account_ok; done].
    split; [done|]. left. exists i. split; [by apply (mt_account _ M)|done].
  - destruct (stored_slot a idx _) as [v|] eqn:E; cbn; [apply Ha|apply Hj, request_storage_ok; done].
    split; [done|]. left. exists v. split; [by apply (mt_slot _ M)|done].
  - destruct (mem_block_hashes _ !! n) as [v|] eqn:E; cbn; [apply Ha|apply Hj, request_hash_ok; done].
    split; [done|]. left. exists v. split; [by apply (mt_hash _ M)|done].
  - apply Hj. by apply push_direct_ok.
  - apply Hj. by apply push_direct_ok.
Qed.

(** A list of requests, as [drain] takes them. *)
Definition take_all (l : list BackendRequest) (x : list (nat * Reply) * BackendHandler) : list (nat * Reply) * BackendHandler :=
  fold_left (fun x req => let '(r, h) := on_request req x.2 in (x.1 ++ r, h)) l x.
Lemma take_all_ok l : forall r h,
  handler_ok (pending_requests h) h -> Forall asking l ->
  let x := take_all l (r, h) in
  handler_ok (pending_requests x.2) x.2 /\ queued_requests x.2 = queued_requests h /\
  exists A R, x.1 = r ++ R /\ Forall2 answers A R /\ l ++ waiting_with (pending_requests h) h ≡ₚ A ++ waiting_with (pending_requests x.2) x.2.
Proof.
  induction l as [|req l IH]; intros r h Hok Hask; cbn.
  - split_and!; [done|done|]. exists [], []. rewrite app_nil_r. split_and!; [done|constructor|done].
  - apply Forall_cons in Hask as [Hreq Hask]. pose proof (on_request_ok req h Hok Hreq) as (Hok1 & Hq1 & A1 & HA1 & Hp1).
    destruct (on_request req h) as [r1 h1]. cbn [fst snd] in *.
    destruct (IH (r ++ r1) h1 Hok1 Hask) as (Hok2 & Hq2 & A2 & R2 & HR & HA2 & Hp2). split_and!; [exact Hok2|etrans; [exact Hq2|exact Hq1]|].
    exists (A1 ++ A2), (r1 ++ R2). split_and!; [rewrite app_assoc; exact HR|by apply Forall2_app|].
    change (fold_left _ l _) with (take_all l (r ++ r1, h1)).
    rewrite (Permutation_middle l), Hp1, (Permutation_app_swap_app l A1), Hp2. by rewrite app_assoc.
Qed.

(** ** Answers *)
Lemma send_all_answers {K} `{Countable K} (f : K -> nat -> BackendRequest) (m : gmap K (list nat)) k v :
  (forall s, answers (f k s) (s, v)) -> Forall2 answers (f k <$> default [] (m !! k)) (send_all (m !! k) v).
Proof.
  intros Hs. unfold send_all. induction (default [] (m !! k)) as [|s l IH]; cbn; constructor; [apply Hs|done].
Qed.
Lemma keys_cons k p pend : key_of p = Some k -> omap key_of (p :: pend) = k :: omap key_of pend.
Proof. intros Hk. cbn. by rewrite Hk. Qed.
(** What is under way without [p]. *)
Ltac landed := intros; cbn; rewrite ?lookup_delete; repeat case_decide; simplify_eq;
  repeat match goal with H : context [_ ∈ _ :: _] |- _ => setoid_rewrite elem_of_cons in H end; naive_solver.

Definition landed_as (p : ProviderRequest) (pend : list ProviderRequest) (h : BackendHandler) (r : list (nat * Reply)) (h' : BackendHandler) : Prop :=
  handler_ok pend h' /\ pending_requests h' = pending_requests h /\ queued_requests h' = queued_requests h /\
  exists A, Forall2 answers A r /\ waiting_with (p :: pend) h ≡ₚ A ++ waiting_with pend h'.

(** The listeners of a value get the answer that came in. *)
Lemma landed_account a pend h db v :
  handler_ok (PAccount a block :: pend) h -> mem_true db -> (forall s, answers (Basic a s) (s, v)) ->
  landed_as (PAccount a block) pend h (send_all (account_requests h !! a) v) (set_db db (set_accounts (delete a (account_requests h)) h)).
Proof.
  intros [[N A S B] P K M] Hdb Hv. apply Forall_cons in P as [_ P].
  rewrite (keys_cons (KAccount a)) in N, A, S, B by done. apply NoDup_cons in N as [Hn N]. split_and!; [|done|done|].
  - split; cbn; [|done|done|done]. split; cbn; [done|landed|landed|landed].
  - exists (Basic a <$> default [] (account_requests h !! a)). split; [by apply send_all_answers|].
    unfold waiting_with. cbn. by rewrite (listening_delete Basic (account_requests h) a), <- app_assoc.
Qed.
Lemma landed_storage a idx pend h db v :
  handler_ok (PStorage a idx block :: pend) h -> mem_true db -> (forall s, answers (Storage a idx s) (s, v)) ->
  landed_as (PStorage a idx block) pend h (send_all (storage_requests h !! (a, idx)) v)
    (set_db db (set_storages (delete (a, idx) (storage_requests h)) h)).
Proof.
  intros [[N A S B] P K M] Hdb Hv. apply Forall_cons in P as [_ P].
  rewrite (keys_cons (KStorage a idx)) in N, A, S, B by done. apply NoDup_cons in N as [Hn N]. split_and!; [|done|done|].
  - split; cbn; [|done|done|done]. split; cbn; [done|landed|landed|landed].
  - exists (storage_of (a, idx) <$> default [] (storage_requests h !! (a, idx))). split; [by apply send_all_answers|].
    unfold waiting_with. cbn. rewrite (listening_delete storage_of (storage_requests h) (a, idx)), <- app_assoc. apply Permutation_app_swap_app.
Qed.
Lemma landed_hash n pend h db v :
  handler_ok (PBlockHash n :: pend) h -> mem_true db -> (forall s, answers (BlockHash n s) (s, v)) ->
  landed_as (PBlockHash n) pend h (send_all (block_requests h !! n) v) (set_db db (set_blocks (delete n (block_requests h)) h)).
Proof.
  intros [[N A S B] P K M] Hdb Hv. apply Forall_cons in P as [_ P].
  rewrite (keys_cons (KHash n)) in N, A, S, B by done. apply NoDup_cons in N as [Hn N]. split_and!; [|done|done|].
  - split; cbn; [|done|done|done]. split; cbn; [done|landed|landed|landed].
  - exists (BlockHash n <$> default [] (block_requests h !! n)). split; [by apply send_all_answers|].
    unfold waiting_with. cbn. rewrite (listening_delete BlockHash (block_requests h) n), <- app_assoc.
    rewrite (Permutation_app_swap_app (listening storage_of _)). apply Permutation_app_swap_app.
Qed.
Lemma landed_direct p req r pend h :
  direct p = Some req -> key_of p = None -> answers req r -> handler_ok (p :: pend) h -> landed_as p pend h [r] h.
Proof.
  intros Hd Hk Hr [[N A S B] P K M]. apply Forall_cons in P as [_ P]. cbn in N, A, S, B. rewrite Hk in N, A, S, B.
  split_and!; [done|done|done|]. exists [req]. split; [by repeat constructor|]. unfold waiting_with. cbn. rewrite Hd. by rewrite <- !Permutation_middle.
Qed.
Lemma complete_ok prov p pend h :
  truthful prov -> handler_ok (p :: pend) h -> exists r h', complete prov p h = Ret (r, h') /\ landed_as p pend h r h'.
Proof.
  intros T Hok. pose proof (ok_pinned _ _ Hok) as [Hp _]%Forall_cons. pose proof (ok_mem _ _ Hok) as M.
  destruct p as [a b|a idx b|n|id s|tx s]; cbn [complete].
  - cbn in Hp. subst b. destruct (get_account prov a block) as [[[balance nonce] code]|err] eqn:E.
    + unfold u256_as_u64. rewrite decide_True by (by eapply (tr_nonce _ T)). cbn.
      assert (chain_account a = Some (account_of balance nonce code)) as Hc by (unfold chain_account; by rewrite (tr_account _ T _ _ _ E)).
      eexists _, _. split; [done|]. apply landed_account; [done|by apply mem_true_account|]. intros s. split; [done|]. left. by eexists.
    + eexists _, _. split; [done|]. apply (landed_account a pend h (bh_db h)); [done|done|]. intros s. split; [done|]. right. by exists err.
  - cbn in Hp. subst b. destruct (get_storage_at prov a idx block) as [v|err] eqn:E.
    + assert (chain_slot a idx = Some v) as Hv by (unfold chain_slot; by rewrite (tr_storage _ T _ _ _ _ E)).
      eexists _, _. split; [done|]. apply landed_storage; [done|by apply mem_true_slot|]. intros s. split; [done|]. left. by exists v.
    + eexists _, _. split; [done|]. apply (landed_storage a idx pend h (bh_db h)); [done|done|]. intros s. split; [done|]. right. by exists err.
  - destruct (get_block prov n) as [o|err] eqn:E.
    + assert (exists v, hash_of o = Ret v /\ chain_hash n = Some v) as (v & -> & Hv).
      { unfold hash_of, chain_hash. rewrite (tr_block _ T _ _ E). destruct o as [o|]; [|by eexists]. destruct (tr_mined _ T _ _ E) as [v ->]. by exists v. }
      cbn. eexists _, _. split; [done|]. apply landed_hash; [done|by apply mem_true_hash|]. intros s. split; [done|]. left. by exists v.
    + eexists _, _. split; [done|]. apply (landed_hash n pend h (bh_db h)); [done|done|]. intros s. split; [done|]. right. by exists err.
  - eexists _, _. split; [done|]. eapply landed_direct; [done|done| |done]. split; [done|]. eexists. split; [done|].
    intros bl. destruct (get_block_with_txs prov id) as [[x|]|] eqn:E; intros [= ->]. by apply (tr_full _ T).
  - eexists _, _. split; [done|]. eapply landed_direct; [done|done| |done]. split; [done|]. eexists. split; [done|].
    intros t. destruct (get_transaction prov tx) as [[x|]|] eqn:E; intros [= ->]. by apply (tr_tx _ T).
Qed.

(** All that is under way: what is ready is answered, the rest stays. *)
Lemma handler_ok_perm pend pend' h : pend ≡ₚ pend' -> handler_ok pend h -> handler_ok pend' h.
Proof. intros Hp [F P K M]. split; [by eapply in_flight_perm|by rewrite <- Hp|done|done]. Qed.
Lemma handler_ok_pending l pend h : handler_ok pend h -> handler_ok pend (set_pending l h).
Proof. by intros [[N A S B] P K M]. Qed.
Lemma handler_ok_queued l pend h : handler_ok pend h -> handler_ok pend (set_queued l h).
Proof. by intros [[N A S B] P K M]. Qed.
Lemma poll_pending_ok prov ready n : forall h,
  truthful prov -> handler_ok (pending_requests h) h -> (n <= length (pending_requests h))%nat ->
  exists R h', poll_pending prov ready n h = Ret (R, h') /\ handler_ok (pending_requests h') h' /\ queued_requests h' = queued_requests h /\
    ((forall p, ready p = true) -> length (pending_requests h') = (length (pending_requests h) - n)%nat) /\
    exists A, Forall2 answers A R /\ waiting_with (pending_requests h) h ≡ₚ A ++ waiting_with (pending_requests h') h'.
Proof.
  induction n as [|n IH]; intros h T Hok Hn; cbn [poll_pending].
  { exists [], h. split_and!; [done|done|done|lia|]. exists []. split; [constructor|done]. }
  destruct (pending_requests h !! n) as [p|] eqn:E; [|apply lookup_ge_None_1 in E; lia]. cbn [expect mbind exec_bind].
  pose proof (swap_remove_perm _ _ _ E) as Hperm. set (rest := swap_remove n (pending_requests h)) in *.
  assert (length rest = (length (pending_requests h) - 1)%nat) as Hlen by (rewrite Hperm; cbn; lia).
  pose proof (handler_ok_perm _ _ _ Hperm Hok) as Hok1. destruct (ready p) eqn:Er.
  - destruct (complete_ok prov p rest (set_pending rest h) T (handler_ok_pending rest _ _ Hok1)) as (r1 & h1 & Hc & Hok2 & Hpend & Hq & A1 & HA1 & Hw1).
    rewrite Hc. cbn [mbind exec_bind]. cbn in Hpend, Hq. rewrite <- Hpend in Hok2, Hlen, Hw1.
    destruct (IH h1 T Hok2 ltac:(lia)) as (R2 & h2 & -> & Hok3 & Hq2 & Hall & A2 & HA2 & Hw2).
    exists (r1 ++ R2), h2. split_and!; [done|done|congruence|intros Hr; rewrite (Hall Hr); lia|].
    exists (A1 ++ A2). split; [by apply Forall2_app|]. rewrite <- app_assoc, <- Hw2. rewrite (waiting_with_perm _ _ h Hperm), <- Hpend. exact Hw1.
  - assert (handler_ok (pending_requests (push_pending p (set_pending rest h))) (push_pending p (set_pending rest h))) as Hok2.
    { apply handler_ok_pending, handler_ok_pending. eapply handler_ok_perm; [|exact Hok1]. apply Permutation_cons_append. }
    destruct (IH _ T Hok2) as (R2 & h2 & -> & Hok3 & Hq2 & Hall & A2 & HA2 & Hw2).
    { cbn. rewrite length_app, Hlen. cbn. lia. }
    exists R2, h2. split_and!; [done|done|done|intros Hr; congruence|]. exists A2. split; [done|]. rewrite <- Hw2.
    rewrite (waiting_with_perm _ _ h Hperm). unfold waiting_with. cbn [push_pending set_pending pending_requests account_requests storage_requests block_requests].
    do 3 apply Permutation_app_head. by rewrite <- Permutation_cons_append.
Qed.

Lemma nothing_waits h : handler_ok [] h -> waiting_with [] h = [].
Proof.
  intros [[N A S B] _ _ _]. assert (account_requests h = ∅ /\ storage_requests h = ∅ /\ block_requests h = ∅) as (E1 & E2 & E3).
  { split_and!; apply map_empty.
    - intros a. apply eq_None_not_Some. rewrite A. apply not_elem_of_nil.
    - intros [a idx]. apply eq_None_not_Some. rewrite S. apply not_elem_of_nil.
    - intros n. apply eq_None_not_Some. rewrite B. apply not_elem_of_nil. }
  unfold waiting_with. by rewrite E1, E2, E3.
Qed.

(** One turn of the loop. *)
Definition turn_ok (t : Turn) : Prop := truthful (tn_provider t) /\ Forall asking (tn_incoming t).
Definition at_rest (h : BackendHandler) : Prop := handler_ok (pending_requests h) h /\ Forall asking (queued_requests h).
Lemma turn_answers t h :
  turn_ok t -> at_rest h ->
  exists R o h', turn t h = Ret (R, o, h') /\ at_rest h' /\
    (exists A, Forall2 answers A R /\ tn_incoming t ++ waiting h ≡ₚ A ++ waiting h') /\
    (tn_closed t = false -> tn_incoming t = [] -> o = Waiting /\ ((forall p, tn_ready t p = true) -> waiting h' = [])).
Proof.
  intros [T Hin] [Hok Hq]. unfold turn, drain.
  destruct (take_all_ok (queued_requests h) [] (set_queued [] h)) as (Hok1 & Hq1 & A1 & R1 & HR1 & HA1 & Hw1);
    [exact (handler_ok_queued _ _ _ Hok)|done|].
  change (fold_left _ _ _) with (take_all (queued_requests h) ([], set_queued [] h)).
  destruct (take_all (queued_requests h) ([], set_queued [] h)) as [r1 h1]. cbn [fst snd] in *. subst r1. cbn in Hq1. rewrite Hq1. cbn [app].
  set (h1' := set_queued (tn_incoming t) h1).
  assert (handler_ok (pending_requests h1') h1') as Hok1' by (by apply handler_ok_queued).
  assert (tn_incoming t ++ waiting h ≡ₚ A1 ++ waiting h1') as Hw1'.
  { unfold waiting. change (waiting_with (pending_requests h) h) with (waiting_with (pending_requests (set_queued [] h)) (set_queued [] h)).
    rewrite (Permutation_app_comm (waiting_with _ _)), Hw1. cbn. change (waiting_with (pending_requests h1) h1) with (waiting_with (pending_requests h1') h1').
    rewrite (Permutation_app_swap_app (tn_incoming t)). by rewrite (Permutation_app_comm (tn_incoming t)). }
  destruct (tn_closed t).
  { eexists _, _, _. split; [done|]. split_and!; [by split|by exists A1|done]. }
  destruct (poll_pending_ok (tn_provider t) (tn_ready t) (length (pending_requests h1')) h1' T Hok1') as (R2 & h2 & -> & Hok2 & Hq2 & Hall & A2 & HA2 & Hw2); [done|].
  cbn [mbind exec_bind]. eexists _, _, h2. split; [done|]. split_and!.
  - split; [done|]. by rewrite Hq2.
  - exists (A1 ++ A2). split; [by apply Forall2_app|]. rewrite Hw1', <- app_assoc. unfold waiting. rewrite Hw2, Hq2, <- app_assoc. done.
  - intros _ Hnil. rewrite Hq2. cbn. rewrite Hnil. split; [done|]. intros Hr. unfold waiting. rewrite Hq2. cbn. rewrite Hnil, app_nil_r.
    specialize (Hall Hr). rewrite Nat.sub_diag in Hall. apply nil_length_inv in Hall. rewrite Hall in Hok2 |- *. by apply nothing_waits.
Qed.

(** The handler from its start: turns, and the requests that came in. *)
Inductive handler_runs : BackendHandler -> list BackendRequest -> list (nat * Reply) -> BackendHandler -> Prop :=
| runs_start h : handler_runs h [] [] h
| runs_turn t h R1 o h1 asked R2 h2 :
    turn_ok t -> turn t h = Ret (R1, o, h1) -> handler_runs h1 asked R2 h2 -> handler_runs h (tn_incoming t ++ asked) (R1 ++ R2) h2.
Lemma handler_runs_ok h asked R h' :
  handler_runs h asked R h' -> at_rest h -> at_rest h' /\ exists A, Forall2 answers A R /\ asked ++ waiting h ≡ₚ A ++ waiting h'.
Proof.
  induction 1 as [h|t h R1 o h1 asked R2 h2 Ht Hturn _ IH]; intros Hr.
  - split; [done|]. exists []. split; [constructor|done].
  - destruct (turn_answers t h Ht Hr) as (R & o' & h1' & Hturn' & Hr1 & (A1 & HA1 & Hw1) & _). rewrite Hturn in Hturn'.
    injection Hturn' as <- <- <-. destruct (IH Hr1) as (Hr2 & A2 & HA2 & Hw2). split; [done|]. exists (A1 ++ A2). split; [by apply Forall2_app|].
    rewrite <- app_assoc, (Permutation_app_comm asked), app_assoc, (Permutation_app_comm (tn_incoming t ++ _)).
    rewrite <- app_assoc, <- Hw2, (Permutation_app_swap_app A1), <- Hw1. done.
Qed.
Lemma handler_new_at_rest db : mem_true db -> at_rest (handler_new db block).
Proof.
  intros M. split; [|constructor]. split; [|constructor|done|done].
  split; cbn; [constructor|..]; intros; rewrite lookup_empty, elem_of_nil; (split; [by intros []|done]).
Qed.

(** C18: Every request for a value of the remote chain is answered once and
    rightly, as long as the handler's block is not pinned anew.  In any run of the
    handler from its start on an endpoint that answers from the chain or fails,
    and in which no [SetPinnedBlock] comes in, the requests that came in are, up
    to order, those that were answered (each at its sender, with the chain's value
    at the pinned block or an error of its kind) and those that wait; no value is
    asked of the endpoint twice at a time; no such turn panics; and such a turn in
    which nothing new comes in and everything is ready leaves nothing waiting.
    The cache holds values of that block at the start.  When the block is pinned
    anew while a request is under way, the old block's value is still delivered
    and stored ([reset_keeps_request_under_way]). *)
Theorem remote_requests_answered db asked R h :
  mem_true db -> handler_runs (handler_new db block) asked R h ->
  (exists A, Forall2 answers A R /\ asked ≡ₚ A ++ waiting h) /\
  NoDup (omap key_of (pending_requests h)) /\ mem_true (bh_db h) /\
  forall t, turn_ok t -> exists R' o h', turn t h = Ret (R', o, h') /\
    (tn_closed t = false -> tn_incoming t = [] -> o = Waiting /\ ((forall p, tn_ready t p = true) -> waiting h' = [])).
Proof.
  intros M Hrun. destruct (handler_runs_ok _ _ _ _ Hrun (handler_new_at_rest db M)) as (Hr & A & HA & Hw). split_and!.
  - exists A. split; [done|]. cbn in Hw. by rewrite app_nil_r in Hw.
  - apply Hr.
  - apply Hr.
  - intros t Ht. destruct (turn_answers t h Ht Hr) as (R' & o & h' & Hturn & _ & _ & Hlast). by exists R', o, h'.
Qed.
End Chain.
End RemoteDbProps.
