(* ===== verification/ForkedDb.v ===== *)
(** * The forked database (evm/src/executor/fork/database.rs, cache.rs,
      anvil/src/eth/backend/mem/fork_db.rs)

    The database of a node or test that forks a remote chain: what was fetched
    is shared with the handler of [RemoteDb], changes go to a cache on top of
    it.  For a lone reader an idle handler is a read through what was
    fetched. *)
From S2P Require Import Prelude Transaction Snapshots Db Validator RemoteDb RemoteDbProps.
Open Scope Z_scope.

Section ForkedDb.
Context `{!RemoteLib}.

(** ** Reads of a [SharedBackend]

    A request is sent to the handler and its answer awaited: [sent] tells whether
    [try_send] accepted it (it fails if the channel is full or the handler gone),
    [received] is the answer, none if the handler has dropped the sender. *)
Inductive SharedError := SendError | RecvError | HandlerError (e : RemoteDbError) | MissingCode (hash : H256).
Definition ask {A} (sent : bool) (received : option (result A RemoteDbError)) : result A SharedError :=
  if sent then
    match received with
    | Some (Ok a) => Ok a
    | Some (Err e) => Err (HandlerError e)
    | None => Err RecvError
    end
  else Err SendError.
Definition do_get_basic (sent : bool) (received : option (result AccountInfo.t RemoteDbError)) : result (option AccountInfo.t) SharedError :=
  match ask sent received with Ok i => Ok (Some i) | Err e => Err e end.
Definition do_get_storage (sent : bool) (received : option (result Z RemoteDbError)) : result Z SharedError := ask sent received.
Definition do_get_block_hash (sent : bool) (received : option (result H256 RemoteDbError)) : result H256 SharedError := ask sent received.
Definition shared_code_by_hash {A} (hash : H256) : result A SharedError := Err (MissingCode hash).
(** A number above u64 is not asked for. *)
Definition shared_block_hash (number : Z) (sent : bool) (received : option (result H256 RemoteDbError)) : result H256 SharedError :=
  if U64_MAX <? number then Ok KECCAK_EMPTY else do_get_block_hash sent received.

(** ** The database *)

(** What revm's [CacheDB] answers over the shared backend. *)
Class CacheReads := {
  local_basic : CacheDB.t -> Address -> result (option AccountInfo.t) RemoteDbError;
  local_storage : CacheDB.t -> Address -> Z -> result Z RemoteDbError;
  local_block_hash : CacheDB.t -> Z -> result H256 RemoteDbError }.

Record ForkDbSnapshot := mkForkSnapshot { fs_local : CacheDB.t; fs_snapshot : StateSnapshot.t }.
Record ForkedDatabase := mkForked {
  fd_cache : CacheDB.t; fd_db : MemDb; fd_snapshots : Snapshots.t ForkDbSnapshot; fd_pinned : option BlockId }.
Definition cache_new : CacheDB.t := CacheDB.mk ∅ ∅ ∅.
Definition forked_new (db : MemDb) (block : option BlockId) : ForkedDatabase := mkForked cache_new db Snapshots.new block.
Definition with_cache (c : CacheDB.t) (d : ForkedDatabase) : ForkedDatabase := mkForked c (fd_db d) (fd_snapshots d) (fd_pinned d).
Definition with_mem (m : MemDb) (d : ForkedDatabase) : ForkedDatabase := mkForked (fd_cache d) m (fd_snapshots d) (fd_pinned d).

(** [reset]: the block is sent to the handler, which may refuse ([sent]) when
    its channel is full. *)
Definition reset (sent : result unit string) (block : BlockId) (d : ForkedDatabase) : result unit string * ForkedDatabase :=
  match sent with
  | Err e => (Err e, d)
  | Ok _ => (Ok tt, mkForked cache_new (mem_clear (fd_db d)) (fd_snapshots d) (Some block))
  end.

Definition state_of (m : MemDb) : StateSnapshot.t := StateSnapshot.mk (mem_accounts m) (mem_storage m) (mem_block_hashes m).
Definition mem_of (s : StateSnapshot.t) : MemDb := mkMem (StateSnapshot.accounts s) (StateSnapshot.storage s) (StateSnapshot.block_hashes s).
Definition create_snapshot (d : ForkedDatabase) : ForkDbSnapshot := mkForkSnapshot (fd_cache d) (state_of (fd_db d)).
Definition insert_snapshot (d : ForkedDatabase) : Z * ForkedDatabase :=
  let '(id, s) := Snapshots.insert (create_snapshot d) (fd_snapshots d) in
  (id, mkForked (fd_cache d) (fd_db d) s (fd_pinned d)).
Definition revert_snapshot (id : Z) (d : ForkedDatabase) : bool * ForkedDatabase :=
  let '(o, s) := Snapshots.remove_at id (fd_snapshots d) in
  match o with
  | Some snap =>
      let '(_, s) := Snapshots.insert_at snap id s in
      (true, mkForked (fs_local snap) (mem_of (fs_snapshot snap)) s (fd_pinned d))
  | None => (false, mkForked (fd_cache d) (fd_db d) s (fd_pinned d))
  end.

(** [MaybeHashDatabase] and the rest of fork_db.rs *)
Definition insert_block_hash (n : Z) (h : H256) (d : ForkedDatabase) : ForkedDatabase := with_mem (insert_hash n h (fd_db d)) d.
Definition clear_into_snapshot (d : ForkedDatabase) : StateSnapshot.t * ForkedDatabase := (state_of (fd_db d), with_mem mem_new d).
Definition clear (d : ForkedDatabase) : ForkedDatabase := snd (clear_into_snapshot d).
Definition init_from_snapshot (s : StateSnapshot.t) (d : ForkedDatabase) : ForkedDatabase := with_mem (mem_of s) d.
Definition empty_snapshot : StateSnapshot.t := StateSnapshot.mk ∅ ∅ ∅.
Definition snapshot_clear_into (s : ForkDbSnapshot) : StateSnapshot.t * ForkDbSnapshot := (fs_snapshot s, mkForkSnapshot (fs_local s) empty_snapshot).
Definition snapshot_init (st : StateSnapshot.t) (s : ForkDbSnapshot) : ForkDbSnapshot := mkForkSnapshot (fs_local s) st.

Section Reads.
Context `{!CacheReads}.
Definition get_storage (s : ForkDbSnapshot) (a : Address) (idx : Z) : option Z :=
  account ← CacheDB.accounts (fs_local s) !! a; DbAccount.storage account !! idx.
Definition snapshot_basic (s : ForkDbSnapshot) (a : Address) : result (option AccountInfo.t) RemoteDbError :=
  match CacheDB.accounts (fs_local s) !! a with
  | Some account => Ok (Some (DbAccount.info account))
  | None =>
      match StateSnapshot.accounts (fs_snapshot s) !! a with
      | Some acc => Ok (Some acc)
      | None => local_basic (fs_local s) a
      end
  end.
Definition snapshot_storage (s : ForkDbSnapshot) (a : Address) (idx : Z) : result Z RemoteDbError :=
  match CacheDB.accounts (fs_local s) !! a with
  | Some account =>
      match DbAccount.storage account !! idx with
      | Some entry => Ok entry
      | None => match get_storage s a idx with None => local_storage (fs_local s) a idx | Some v => Ok v end
      end
  | None => match get_storage s a idx with None => local_storage (fs_local s) a idx | Some v => Ok v end
  end.
Definition snapshot_block_hash (s : ForkDbSnapshot) (n : Z) : result H256 RemoteDbError :=
  match StateSnapshot.block_hashes (fs_snapshot s) !! n with
  | None => local_block_hash (fs_local s) n
  | Some h => Ok h
  end.

(** The storage that was fetched is not read from a snapshot: a slot that was
    not changed locally is asked for again. *)
Theorem snapshot_ignores_fetched_storage s a idx st :
  get_storage s a idx = None ->
  snapshot_storage (mkForkSnapshot (fs_local s) st) a idx = local_storage (fs_local s) a idx.
Proof.
  unfold snapshot_storage, get_storage. cbn. destruct (CacheDB.accounts (fs_local s) !! a); cbn; [|done]. by intros ->.
Qed.
End Reads.

(** ** The file of fetched values *)
Record BlockchainDbMeta := mkMeta { meta_cfg_env : CfgEnv.t; meta_block_env : BlockEnv.t; meta_hosts : gset string }.
Section Meta.
Context `{!EqDecision CfgEnv.t} `{!EqDecision BlockEnv.t}.
(** [PartialEq for BlockchainDbMeta]: hosts do not count. *)
Definition meta_eq (a b : BlockchainDbMeta) : bool :=
  bool_decide (meta_cfg_env a = meta_cfg_env b) && bool_decide (meta_block_env a = meta_block_env b).
Definition extend_hosts (l : gset string) (m : BlockchainDbMeta) : BlockchainDbMeta :=
  mkMeta (meta_cfg_env m) (meta_block_env m) (meta_hosts m ∪ l).
(** [BlockchainDb::new_db]: [loaded] is what the file of the cache holds. *)
Definition new_db (meta : BlockchainDbMeta) (loaded : option (BlockchainDbMeta * MemDb)) (skip_check : bool) : BlockchainDbMeta * MemDb :=
  match loaded with
  | Some (existing, db) =>
      if (skip_check : bool) then (existing, db)
      else
        let existing := extend_hosts (meta_hosts meta) existing in
        if meta_eq meta existing then (existing, db) else (meta, mem_new)
  | None => (meta, mem_new)
  end.
End Meta.

(** ** Theorems *)

(** An operation between a snapshot and its revert: it changes cache and
    fetched values as it likes, takes and reverts snapshots, or resets. *)
Inductive forked_op :=
| FWrite (c : CacheDB.t) (m : MemDb)
| FSnapshot
| FRevert (id : Z)
| FReset (sent : result unit string) (block : BlockId).
Definition run_forked (o : forked_op) (d : ForkedDatabase) : ForkedDatabase :=
  match o with
  | FWrite c m => with_mem m (with_cache c d)
  | FSnapshot => snd (insert_snapshot d)
  | FRevert id => snd (revert_snapshot id d)
  | FReset sent block => snd (reset sent block d)
  end.
Lemma run_forked_keeps id o d snap :
  0 <= id < Snapshots.id_ (fd_snapshots d) -> Snapshots.id_ (fd_snapshots d) < U256_MAX -> Snapshots.snapshots (fd_snapshots d) !! id = Some snap ->
  Snapshots.snapshots (fd_snapshots (run_forked o d)) !! id = Some snap /\
  Snapshots.id_ (fd_snapshots d) <= Snapshots.id_ (fd_snapshots (run_forked o d)) <= Snapshots.id_ (fd_snapshots d) + 1.
Proof.
  intros Hid Hmax Hs. destruct o as [c m| |id'|[[]|e] block]; cbn; [| | |split; [done|lia]..].
  - split; [done|lia].
  - rewrite lookup_insert_ne by lia. split; [done|]. word_lia.
  - unfold revert_snapshot, Snapshots.remove_at. cbn. destruct (Snapshots.snapshots _ !! id') as [s'|] eqn:E; cbn.
    + split; [|lia]. destruct (decide (id' = id)) as [->|Hne]; [by rewrite lookup_insert_eq, <- E|].
      by rewrite lookup_insert_ne, lookup_delete_ne.
    + split; [|lia]. rewrite lookup_delete_ne; [done|]. congruence.
Qed.

(** Reverting to a snapshot of the forked database brings the changes made
    since the fork and the fetched values back to what they were when the
    snapshot was taken, whatever was written, reset and reverted in between,
    and as often as one likes. *)
Theorem forked_snapshot_restores d ops :
  0 <= Snapshots.id_ (fd_snapshots d) -> Snapshots.id_ (fd_snapshots d) + Z.of_nat (length ops) < U256_MAX - 1 ->
  let '(id, d1) := insert_snapshot d in
  let d2 := fold_left (fun d o => run_forked o d) ops d1 in
  (revert_snapshot id d2).1 = true /\
  fd_cache (revert_snapshot id d2).2 = fd_cache d /\ fd_db (revert_snapshot id d2).2 = fd_db d.
Proof.
  intros Hpos Hmax. unfold insert_snapshot. cbn. set (id := Snapshots.id_ (fd_snapshots d)) in *.
  set (d1 := mkForked _ _ _ _).
  assert (0 <= id < Snapshots.id_ (fd_snapshots d1) /\ Snapshots.id_ (fd_snapshots d1) + Z.of_nat (length ops) <= U256_MAX - 1 /\
    Snapshots.snapshots (fd_snapshots d1) !! id = Some (create_snapshot d)) as (Hlt & Hb & Hs).
  { unfold d1. cbn. rewrite lookup_insert_eq. fold id. split_and!; [word_lia|word_lia|word_lia|done]. }
  clearbody d1 id. clear Hpos Hmax. revert d1 Hlt Hb Hs. induction ops as [|o ops IH]; intros d1 Hlt Hb Hs; cbn [fold_left].
  - unfold revert_snapshot, Snapshots.remove_at. rewrite Hs. cbn. by destruct d as [? []].
  - cbn [length] in Hb. destruct (run_forked_keeps id o d1 (create_snapshot d)) as [Hs' Hid]; [lia|lia|done|]. apply IH; [lia|lia|done].
Qed.

(** Fetched values that were moved out are the same when they are moved in. *)
Lemma clear_init_roundtrip d : let '(s, d1) := clear_into_snapshot d in init_from_snapshot s d1 = d.
Proof. by destruct d as [? [] ? ?]. Qed.

(** A forked database can be reverted to the same snapshot twice, unlike the
    in-memory one, so that the node, which forgets the snapshot's block the
    first time, reverts the database without the chain. *)
Theorem forked_revert_repeats id d :
  (revert_snapshot id d).1 = true ->
  (revert_snapshot id (revert_snapshot id d).2).1 = true.
Proof.
  unfold revert_snapshot, Snapshots.remove_at. cbn. destruct (Snapshots.snapshots (fd_snapshots d) !! id) as [s|]; cbn; [|done].
  by rewrite lookup_insert_eq.
Qed.

(** ** What the handler answers a lone reader

    A specification: a read through what was fetched. *)
Definition fetch_account (p : Provider) (block : option BlockId) (a : Address) (m : MemDb)
    : exec (result AccountInfo.t RemoteDbError * MemDb) :=
  match mem_accounts m !! a with
  | Some i => Ret (Ok i, m)
  | None =>
      match get_account p a block with
      | Err e => Ret (Err (GetAccount a e), m)
      | Ok (balance, nonce, code) =>
          n ← u256_as_u64 nonce;
          Ret (Ok (account_of balance n code), do_insert_account a (account_of balance n code) m)
      end
  end.
Definition fetch_slot (p : Provider) (block : option BlockId) (a : Address) (idx : Z) (m : MemDb)
    : exec (result Z RemoteDbError * MemDb) :=
  match stored_slot a idx m with
  | Some v => Ret (Ok v, m)
  | None =>
      match get_storage_at p a idx block with
      | Err e => Ret (Err (GetStorage a idx e), m)
      | Ok v => Ret (Ok v, insert_slot a idx v m)
      end
  end.
Definition fetch_hash (p : Provider) (n : Z) (m : MemDb) : exec (result H256 RemoteDbError * MemDb) :=
  match mem_block_hashes m !! n with
  | Some v => Ret (Ok v, m)
  | None =>
      match get_block p n with
      | Err e => Ret (Err (GetBlockHash n e), m)
      | Ok block => v ← hash_of block; Ret (Ok v, insert_hash n v m)
      end
  end.

Definition idle (h : BackendHandler) : Prop := h = handler_new (bh_db h) (block_id h).
(** The handler is woken by the request, and again by its answer. *)
Definition read_turns (p : Provider) (req : BackendRequest) : list Turn :=
  [mkTurn [req] false p (fun _ => true); mkTurn [] false p (fun _ => true)].
Definition replied {A} (s : nat) (reply : result A RemoteDbError -> Reply) (h : BackendHandler) (x : exec (result A RemoteDbError * MemDb))
    : exec (list (nat * Reply) * Polled * BackendHandler) :=
  '(r, m) ← x; Ret ([(s, reply r)], Waiting, set_db m h).

(** A handler that has nothing else to do, woken by one request and then by the
    endpoint's answer, reads through what was fetched: a value that is there is
    returned, any other is asked of the endpoint at the pinned block and stored,
    errors are returned and not stored; and it is idle again. *)
Theorem remote_read_refines p h s a idx n :
  idle h ->
  poll (read_turns p (Basic a s)) h = replied s AccountReply h (fetch_account p (block_id h) a (bh_db h)) /\
  poll (read_turns p (Storage a idx s)) h = replied s StorageReply h (fetch_slot p (block_id h) a idx (bh_db h)) /\
  poll (read_turns p (BlockHash n s)) h = replied s HashReply h (fetch_hash p n (bh_db h)).
Proof.
  intros ->. destruct h as [db pend ar sr br q block]. cbn [bh_db block_id handler_new]. clear pend ar sr br q. unfold read_turns, replied. split_and!.
  - unfold fetch_account. cbn. unfold turn, drain. cbn. destruct (mem_accounts db !! a) as [i|] eqn:E; cbn; [done|].
    unfold request_account. cbn. rewrite lookup_empty. cbn.
    rewrite lookup_insert_eq, delete_insert_id by done. destruct (get_account p a block) as [[[b nn] code]|err]; cbn; [|done].
    by destruct (u256_as_u64 nn).
  - unfold fetch_slot. cbn. unfold turn, drain. cbn. destruct (stored_slot a idx db) as [i|] eqn:E; cbn; [done|].
    unfold request_account_storage. cbn. rewrite lookup_empty. cbn.
    rewrite lookup_insert_eq, delete_insert_id by done. by destruct (get_storage_at p a idx block).
  - unfold fetch_hash. cbn. unfold turn, drain. cbn. destruct (mem_block_hashes db !! n) as [i|] eqn:E; cbn; [done|].
    unfold request_hash. cbn. rewrite lookup_empty. cbn. rewrite lookup_insert_eq, delete_insert_id by done. destruct (get_block p n) as [o|err]; cbn; [|done].
    by destruct (hash_of o).
Qed.

(** A request that is under way when the fork is reset to another block puts
    the value of the old block into the cleared store. *)
Theorem reset_keeps_request_under_way p a old new s (n : Z) code balance h :
  block_id h = Some old -> pending_requests h = [PAccount a (Some old)] -> account_requests h !! a = Some [s] ->
  queued_requests h = [] -> get_account p a (Some old) = Ok (balance, n, code) -> n <= U64_MAX ->
  exists R o h', turn (mkTurn [SetPinnedBlock new] false p (fun _ => true)) (set_db (mem_clear (bh_db h)) h) = Ret (R, o, h') /\
    mem_accounts (bh_db h') !! a = Some (account_of balance n code).
Proof.
  intros Hb Hp Ha Hq Hg Hn. unfold turn, drain. cbn. rewrite Hq. cbn. rewrite Hp. cbn. rewrite Hp. cbn. rewrite Hg. unfold u256_as_u64. rewrite !decide_True by done. cbn.
  eexists _, _, _. split; [done|]. cbn. by rewrite lookup_insert_eq.
Qed.
End ForkedDb.
