(* ===== verification/RemoteSample.v ===== *)
(** * Reading a toy chain

    A chain, an endpoint that sometimes fails, and requests of two readers:
    the theorems of [RemoteDbProps] and [ForkedDb] are instantiated here. *)
From S2P Require Import Prelude Transaction Snapshots Db Validator RemoteDb RemoteDbProps ForkedDb.
Open Scope Z_scope.

Module RemoteToy.
#[export] Instance lib : RemoteLib := {|
  BlockId := Z; RemoteError := string; FullBlock := Z; RemoteTx := Z; code_keccak c := 1 + Z.of_nat (length c);
  info_is_empty i := AccountInfo.balance i =? 0 |}.
(** Balances and slots name the block they are read at. *)
Definition chain : Provider := {|
  get_account a b := Ok (default 0 b, 1, [a]);
  get_storage_at a idx b := Ok (default 0 b + idx);
  get_block n := if n <? 100 then Ok (Some (Some (n + 1))) else Ok None;
  get_block_with_txs id := Ok (Some id);
  get_transaction _ := Ok None |}.
Lemma chain_truthful : truthful chain chain.
Proof.
  split; try done.
  - intros a b balance n code [= _ <- _]. by vm_compute.
  - intros n o. cbn. destruct (n <? 100); [|done]. intros [= <-]. by eexists.
Qed.

(** Two readers ask for account 7, one for a slot; the account comes in first. *)
Definition asked : list BackendRequest := [Basic 7 1; Basic 7 2; Storage 7 3 3].
Definition first_turn : Turn := mkTurn asked false chain (fun _ => true).
Definition second_turn : Turn := mkTurn [] false chain (fun p => match p with PAccount _ _ => true | _ => false end).
Definition start : BackendHandler := handler_new mem_new (Some 5).
Definition after (t : Turn) (h : BackendHandler) : list (nat * Reply) * Polled * BackendHandler :=
  match turn t h with Ret x => x | Panic _ => ([], Done, h) end.
Definition h1 : BackendHandler := (after first_turn start).2.
Definition h2 : BackendHandler := (after second_turn h1).2.
Lemma turned t h : match turn t h with Ret _ => true | Panic _ => false end = true -> turn t h = Ret ((after t h).1.1, (after t h).1.2, (after t h).2).
Proof. unfold after. destruct (turn t h) as [[[? ?] ?]|]; done. Qed.

Lemma mem_new_true block : mem_true chain block mem_new.
Proof. split; cbn; [by intros ? ?|by intros ? ? ?|by intros ? ?]. Qed.
Lemma asked_runs : handler_runs chain start (asked ++ [] ++ []) ((after first_turn start).1.1 ++ (after second_turn h1).1.1 ++ []) h2.
Proof.
  apply (runs_turn chain first_turn start _ (after first_turn start).1.2 h1).
  - split; [apply chain_truthful|]. by repeat constructor.
  - apply turned. by vm_compute.
  - apply (runs_turn chain second_turn h1 _ (after second_turn h1).1.2 h2); [|apply turned; by vm_compute|apply runs_start].
    split; [apply chain_truthful|constructor].
Qed.
Lemma remote_requests_answered_witness :
  (after second_turn h1).1.1 = [(1%nat, AccountReply (Ok (account_of 5 1 [7]))); (2%nat, AccountReply (Ok (account_of 5 1 [7])))] /\
  exists A, Forall2 (answers chain (Some 5)) A ((after first_turn start).1.1 ++ (after second_turn h1).1.1 ++ []) /\ asked ++ [] ++ [] ≡ₚ A ++ waiting h2.
Proof.
  split; [by vm_compute|].
  apply (remote_requests_answered chain (Some 5) mem_new (asked ++ [] ++ []) _ h2 (mem_new_true (Some 5)) asked_runs).
Defined.

Lemma remote_read_refines_witness :
  poll (read_turns chain (Basic 7 1)) start =
  Ret ([(1%nat, AccountReply (Ok (account_of 5 1 [7])))], Waiting, set_db (do_insert_account 7 (account_of 5 1 [7]) mem_new) start).
Proof. apply (remote_read_refines chain start 1 7 0 0). done. Defined.

Definition forked : ForkedDatabase := forked_new mem_new (Some 5).
Definition other_cache : CacheDB.t := CacheDB.mk {[9 := DbAccount.mk default_account Touched ∅]} ∅ ∅.
Definition history : list forked_op := [FWrite other_cache (insert_hash 3 4 mem_new); FSnapshot; FReset (Ok tt) 6; FRevert 1].
Lemma forked_snapshot_restores_witness :
  let '(id, d1) := insert_snapshot forked in
  let d2 := fold_left (fun d o => run_forked o d) history d1 in
  (revert_snapshot id d2).1 = true /\
  fd_cache (revert_snapshot id d2).2 = fd_cache forked /\ fd_db (revert_snapshot id d2).2 = fd_db forked.
Proof. apply (forked_snapshot_restores forked history); by vm_compute. Defined.
End RemoteToy.
