(* ===== verification/FuzzInt.v ===== *)
(** * Integers of the fuzzer (evm/src/fuzz/strategies/uint.rs, int.rs)

    How a random integer is drawn and how a failing one is shrunk.  A draw of
    the random number generator is an argument; [I256] is an integer of
    [-2^255 .. 2^255 - 1], [U256] one of [0 .. 2^256 - 1], and their operators
    panic when they overflow. *)
From S2P Require Import Prelude.
Open Scope Z_scope.

Definition U256_sub (a b : Z) : exec Z := if decide (b <= a) then Ret (a - b) else Panic "arithmetic operation overflow".
Definition I256_MAX : Z := 2 ^ 255 - 1.
Definition I256_MIN : Z := - 2 ^ 255.
Definition i256 (x : Z) : exec Z := if decide (I256_MIN <= x <= I256_MAX) then Ret x else Panic "overflow".

(** [ValueTree] of proptest: a value that can be made simpler after a failure
    and more complicated after a success; both say whether they changed it. *)
Class ValueTree (T V : Type) := {
  current : T -> V;
  simplify : T -> exec (bool * T);
  complicate : T -> exec (bool * T) }.

(** ** Unsigned integers *)
Record UintValueTree := mkUint { ut_lo : Z; ut_curr : Z; ut_hi : Z; ut_fixed : bool }.
Definition uint_new (start : Z) (fixed : bool) : UintValueTree := mkUint 0 start start fixed.
Definition uint_reposition (t : UintValueTree) : exec (bool * UintValueTree) :=
  interval ← U256_sub (ut_hi t) (ut_lo t);
  new_mid ← u256_add (ut_lo t) (interval / 2);
  if new_mid =? ut_curr t then Ret (false, t) else Ret (true, mkUint (ut_lo t) new_mid (ut_hi t) (ut_fixed t)).
Definition uint_simplify (t : UintValueTree) : exec (bool * UintValueTree) :=
  if ut_fixed t || (ut_hi t <=? ut_lo t) then Ret (false, t)
  else uint_reposition (mkUint (ut_lo t) (ut_curr t) (ut_curr t) (ut_fixed t)).
Definition uint_complicate (t : UintValueTree) : exec (bool * UintValueTree) :=
  if ut_fixed t || (ut_hi t <=? ut_lo t) then Ret (false, t)
  else
    lo ← u256_add (ut_curr t) 1;
    uint_reposition (mkUint lo (ut_curr t) (ut_hi t) (ut_fixed t)).
#[export] Instance uint_tree : ValueTree UintValueTree Z :=
  {| current := ut_curr; simplify := uint_simplify; complicate := uint_complicate |}.

(** [UintStrategy], and what a call of [new_tree] draws. *)
Record UintStrategy := mkUintStrategy {
  us_bits : Z; us_fixtures : list Z; us_edge_weight : Z; us_fixtures_weight : Z; us_random_weight : Z }.
Definition uint_strategy_new (bits : Z) (fixtures : list Z) : UintStrategy := mkUintStrategy bits fixtures 10 40 50.
Record UintDraws := mkUintDraws {
  ud_bias : Z; ud_is_min : bool; ud_offset : Z; ud_idx : nat; ud_bits : Z; ud_higher : Z; ud_lower : Z }.
Definition uint_edge_tree (s : UintStrategy) (d : UintDraws) : exec UintValueTree :=
  let max := if us_bits s <? 256 then Z.shiftl 1 (us_bits s) - 1 else U256_MAX in
  start ← (if ud_is_min d then Ret (ud_offset d) else U256_sub max (ud_offset d));
  Ret (uint_new start false).
Definition uint_fixtures_tree (s : UintStrategy) (d : UintDraws) : exec UintValueTree :=
  match us_fixtures s with
  | [] => uint_edge_tree s d
  | _ => v ← expect (us_fixtures s !! ud_idx d) "index out of bounds"; Ret (uint_new v false)
  end.
(** The two 128-bit draws, cut to [bits] bits and joined from four words of 64
    bits. *)
Definition cut (bits higher lower : Z) : Z * Z :=
  if bits <? 128 then (0, Z.land lower (Z.shiftl 1 bits - 1))
  else if bits <? 256 then (Z.land higher (Z.shiftl 1 (bits - 128) - 1), lower)
  else (higher, lower).
Definition join (hl : Z * Z) : Z :=
  let '(higher, lower) := hl in
  let mask64 := Z.shiftl 1 65 - 1 in
  as_u64 (Z.land lower mask64) + as_u64 (Z.shiftr lower 64) * 2 ^ 64 +
  as_u64 (Z.land higher mask64) * 2 ^ 128 + as_u64 (Z.shiftr higher 64) * 2 ^ 192.
Definition uint_random_tree (s : UintStrategy) (d : UintDraws) : exec UintValueTree :=
  Ret (uint_new (join (cut (ud_bits d) (ud_higher d) (ud_lower d))) false).
Definition uint_new_tree (s : UintStrategy) (d : UintDraws) : exec UintValueTree :=
  if ud_bias d <? us_edge_weight s then uint_edge_tree s d
  else if ud_bias d <? us_edge_weight s + us_fixtures_weight s then uint_fixtures_tree s d
  else uint_random_tree s d.
(** The ranges of the draws. *)
Definition uint_draws (s : UintStrategy) (d : UintDraws) : Prop :=
  0 <= ud_bias d < us_random_weight s + us_fixtures_weight s + us_edge_weight s /\ 0 <= ud_offset d < 4 /\
  (us_fixtures s <> [] -> (ud_idx d < length (us_fixtures s))%nat) /\ 0 <= ud_bits d <= us_bits s /\
  0 <= ud_higher d <= U128_MAX /\ 0 <= ud_lower d <= U128_MAX.

(** ** Signed integers *)
Record IntValueTree := mkInt { it_lo : Z; it_curr : Z; it_hi : Z; it_fixed : bool }.
Definition int_new (start : Z) (fixed : bool) : IntValueTree := mkInt 0 start start fixed.
Definition int_reposition (t : IntValueTree) : exec (bool * IntValueTree) :=
  interval ← i256 (it_hi t - it_lo t);
  new_mid ← i256 (it_lo t + Z.quot interval 2);
  if new_mid =? it_curr t then Ret (false, t) else Ret (true, mkInt (it_lo t) new_mid (it_hi t) (it_fixed t)).
Definition magnitude_greater (lhs rhs : Z) : bool := if lhs =? 0 then false else xorb (rhs <? lhs) (lhs <? 0).
Definition int_simplify (t : IntValueTree) : exec (bool * IntValueTree) :=
  if it_fixed t || negb (magnitude_greater (it_hi t) (it_lo t)) then Ret (false, t)
  else int_reposition (mkInt (it_lo t) (it_curr t) (it_curr t) (it_fixed t)).
Definition int_complicate (t : IntValueTree) : exec (bool * IntValueTree) :=
  if it_fixed t || negb (magnitude_greater (it_hi t) (it_lo t)) then Ret (false, t)
  else
    lo ← i256 (it_curr t + (if it_hi t <? 0 then -1 else 1));
    int_reposition (mkInt lo (it_curr t) (it_hi t) (it_fixed t)).
#[export] Instance int_tree : ValueTree IntValueTree Z :=
  {| current := it_curr; simplify := int_simplify; complicate := int_complicate |}.

Record IntStrategy := mkIntStrategy {
  is_bits : Z; is_fixtures : list Z; is_edge_weight : Z; is_fixtures_weight : Z; is_random_weight : Z }.
Definition int_strategy_new (bits : Z) (fixtures : list Z) : IntStrategy := mkIntStrategy bits fixtures 10 40 50.
Record IntDraws := mkIntDraws {
  id_bias : Z; id_offset : Z; id_kind : Z; id_idx : nat; id_bits : Z; id_higher : Z; id_lower : Z; id_positive : bool }.
(** [I256::from_raw] and [I256::overflowing_from_sign_and_abs]: the two's
    complement. *)
Definition from_raw (x : Z) : Z := if x <=? I256_MAX then x else x - 2 ^ 256.
Definition from_sign_and_abs (positive : bool) (abs : Z) : Z := from_raw (if positive then abs else (- abs) mod 2 ^ 256).
Definition int_edge_tree (s : IntStrategy) (d : IntDraws) : exec IntValueTree :=
  bits ← U256_sub (is_bits s) 1;
  let umax := Z.shiftl 1 bits - 1 in
  start ← match id_kind d with
          | 0 => i256 (from_sign_and_abs false (umax + 1) + id_offset d)
          | 1 => i256 (- id_offset d - 1)
          | 2 => Ret (id_offset d)
          | 3 => i256 (from_sign_and_abs true umax - id_offset d)
          | _ => Panic "internal error: entered unreachable code"
          end;
  Ret (int_new start false).
Definition int_fixtures_tree (s : IntStrategy) (d : IntDraws) : exec IntValueTree :=
  match is_fixtures s with
  | [] => int_edge_tree s d
  | _ => v ← expect (is_fixtures s !! id_idx d) "index out of bounds"; Ret (int_new v false)
  end.
Definition int_random_tree (s : IntStrategy) (d : IntDraws) : exec IntValueTree :=
  if id_bits d =? 0 then Ret (int_new 0 false)
  else Ret (int_new (from_sign_and_abs (id_positive d) (join (cut (id_bits d - 1) (id_higher d) (id_lower d)))) false).
Definition int_new_tree (s : IntStrategy) (d : IntDraws) : exec IntValueTree :=
  if id_bias d <? is_edge_weight s then int_edge_tree s d
  else if id_bias d <? is_edge_weight s + is_fixtures_weight s then int_fixtures_tree s d
  else int_random_tree s d.
Definition int_draws (s : IntStrategy) (d : IntDraws) : Prop :=
  0 <= id_bias d < is_random_weight s + is_fixtures_weight s + is_edge_weight s /\ 0 <= id_offset d < 4 /\ 0 <= id_kind d < 4 /\
  (is_fixtures s <> [] -> (id_idx d < length (is_fixtures s))%nat) /\ 0 <= id_bits d <= is_bits s /\
  0 <= id_higher d <= U128_MAX /\ 0 <= id_lower d <= U128_MAX.

(** ** Shrinking

    The protocol of proptest: a failing value is simplified, a passing one is
    complicated, until the tree says that it did not change; the last failing
    value is reported. *)
Section Shrink.
Context {T V : Type} `{!ValueTree T V} (fails : V -> bool).
Fixpoint shrink (fuel : nat) (last : V) (t : T) : exec (option V) :=
  match fuel with
  | O => Ret None
  | S fuel =>
      '(changed, last, t) ← (if fails (current t)
                             then '(c, t') ← simplify t; Ret (c, current t, t')
                             else '(c, t') ← complicate t; Ret (c, last, t'));
      if (changed : bool) then shrink fuel last t else Ret (Some last)
  end.
End Shrink.

(** ** Lemmas *)

(** A tree under way: the next value is in the middle of [lo .. hi]. *)
Definition uint_mid (t : UintValueTree) : Prop :=
  ut_fixed t = false /\ 0 <= ut_lo t <= ut_hi t /\ ut_hi t <= U256_MAX /\ ut_curr t = ut_lo t + (ut_hi t - ut_lo t) / 2.
Lemma uint_reposition_ok lo c hi f :
  0 <= lo <= hi -> hi <= U256_MAX ->
  uint_reposition (mkUint lo c hi f) = Ret (negb (lo + (hi - lo) / 2 =? c), mkUint lo (lo + (hi - lo) / 2) hi f).
Proof.
  intros Hlo Hhi. unfold uint_reposition, U256_sub, u256_add. cbn. rewrite decide_True by lia. cbn.
  pose proof (Z.div_le_upper_bound (hi - lo) 2 (hi - lo) ltac:(lia) ltac:(lia)) as Hd. rewrite decide_True by lia. cbn.
  destruct (_ =? c) eqn:E; cbn; [|done]. apply Z.eqb_eq in E. by rewrite E.
Qed.

Section UintShrink.
Context (fails : Z -> bool).

(** Whatever the test does, from the first failure on: no panic, and the value
    stays between [0] and the first failing value. *)
Lemma uint_shrink_step t (b : bool) :
  uint_mid t ->
  exists c t', (if b then uint_simplify t else uint_complicate t) = Ret (c, t') /\
    (c = false \/ (uint_mid t' /\ ut_lo t <= ut_lo t' /\ ut_hi t' <= ut_hi t /\ ut_hi t' - ut_lo t' <= (ut_hi t - ut_lo t) / 2 /\
       ut_lo t < ut_hi t /\ (if b then ut_lo t' = ut_lo t /\ ut_hi t' = ut_curr t else ut_lo t' = ut_curr t + 1 /\ ut_hi t' = ut_hi t))) /\
    (c = false -> ut_hi t <= ut_lo t \/ (b = true /\ ut_lo t = ut_curr t)).
Proof.
  destruct t as [lo c hi f]. intros (Hf & Hlo & Hhi & Hc). cbn in *. subst f c.
  set (m := lo + (hi - lo) / 2) in *.
  assert (0 <= (hi - lo) / 2) by (apply Z.div_pos; lia). assert (2 * ((hi - lo) / 2) <= hi - lo) by (apply Z.mul_div_le; lia).
  destruct b; unfold uint_simplify, uint_complicate; cbn; destruct (hi <=? lo) eqn:E; [eexists _, _; split; [done|]; split; [by left|intros; left; lia]| |eexists _, _; split; [done|]; split; [by left|intros; left; lia]|].
  - rewrite uint_reposition_ok by lia. eexists _, _. split; [done|]. split.
    + right. unfold uint_mid. cbn. split_and!; lia || done.
    + intros Hm. right. split; [done|]. assert (lo + (m - lo) / 2 = m) as Hm' by (destruct (lo + (m - lo) / 2 =? m) eqn:E'; [lia|done]).
      pose proof (Z.mul_div_le (m - lo) 2 ltac:(lia)). lia.
  - unfold u256_add. assert (m < hi) by (unfold m; pose proof (Z.mul_div_le (hi - lo) 2 ltac:(lia)); lia).
    rewrite decide_True by lia. cbn. rewrite uint_reposition_ok by lia. eexists _, _. split; [done|]. split.
    + right. unfold uint_mid. cbn. pose proof (Z.mod_pos_bound (hi - lo) 2 ltac:(lia)). pose proof (Z.div_mod (hi - lo) 2 ltac:(lia)).
      split_and!; lia || done.
    + intros Hm. exfalso. destruct (_ =? m) eqn:E'; [|done]. pose proof (Z.div_pos (hi - (m + 1)) 2 ltac:(lia) ltac:(lia)). lia.
Qed.
End UintShrink.
