(* ===== verification/FuzzIntProps.v ===== *)
(** * Theorems about the fuzzer's integers

    What is drawn fits its type, what is shrunk stays in it, and shrinking
    ends with the simplest value that still fails. *)
From S2P Require Import Prelude FuzzInt.
Open Scope Z_scope.

(** ** Shrinking unsigned integers *)

(** From [n] on everything up to [top] fails. *)
Definition upward (top : Z) (fails : Z -> bool) : Prop := forall x y, 0 <= x <= y -> y <= top -> fails x = true -> fails y = true.
Definition least (fails : Z -> bool) (v : Z) : Prop := fails v = true /\ 0 <= v /\ forall x, 0 <= x < v -> fails x = false.

Section UintShrink.
Context (fails : Z -> bool) (top : Z) (Hup : upward top fails).

Lemma uint_shrink_ends k t last :
  uint_mid t -> ut_hi t <= top -> ut_hi t - ut_lo t < 2 ^ Z.of_nat k -> fails (ut_hi t) = true ->
  (forall x, 0 <= x < ut_lo t -> fails x = false) ->
  exists v, shrink fails (S k) last t = Ret (Some v) /\ least fails v /\ v <= ut_hi t.
Proof.
  revert t last. induction k as [|k IH]; intros t last Hm Htop Hd Hhi Hlo; destruct (uint_shrink_step t (fails (ut_curr t)) Hm) as (c & t' & Hs & Hc & Hf);
    assert (0 <= ut_lo t <= ut_curr t /\ ut_curr t <= ut_hi t) as [Hlc Hch];
    try (destruct Hm as (_ & ? & _ & ->); pose proof (Z.div_pos (ut_hi t - ut_lo t) 2 ltac:(lia) ltac:(lia)); pose proof (Z.div_le_upper_bound (ut_hi t - ut_lo t) 2 (ut_hi t - ut_lo t) ltac:(lia) ltac:(lia)); lia).
  - (* the interval is empty *)
    change (2 ^ Z.of_nat 0) with 1 in Hd. assert (ut_curr t = ut_hi t) as He by lia. cbn [shrink]. cbn [current simplify complicate uint_tree].
    rewrite He in Hs |- *. rewrite Hhi in Hs |- *. rewrite Hs. cbn.
    destruct Hc as [->|(_ & _ & _ & _ & ? & _)]; [|lia]. exists (ut_hi t). split_and!; [done| |lia]. split_and!; [done|lia|].
    intros x Hx. apply Hlo. lia.
  - rewrite Nat2Z.inj_succ, Z.pow_succ_r in Hd by lia. remember (S k) as k' eqn:Hk. cbn [shrink].
    cbn [current simplify complicate uint_tree]. destruct (fails (ut_curr t)) eqn:E; rewrite Hs; cbn; destruct c.
    + destruct Hc as [?|(Hm' & Hl & Hh & Hd' & _ & Hlo' & Hhi')]; [done|]. subst k'.
      destruct (IH t' (ut_curr t)) as (v & ? & ? & ?); [done|lia| |by rewrite Hhi'|by rewrite Hlo'|].
      { apply Z.le_lt_trans with (1 := Hd'). apply Z.div_lt_upper_bound; lia. }
      exists v. split_and!; [done|done|lia].
    + exists (ut_curr t). split_and!; [done| |lia]. split_and!; [done|lia|]. intros x Hx. destruct (Hf eq_refl) as [?|[_ ?]]; apply Hlo; lia.
    + destruct Hc as [?|(Hm' & Hl & Hh & Hd' & Hne & Hlo' & Hhi')]; [done|]. subst k'.
      destruct (IH t' last) as (v & ? & ? & ?); [done|lia| |by rewrite Hhi'| |].
      { apply Z.le_lt_trans with (1 := Hd'). apply Z.div_lt_upper_bound; lia. }
      { intros x Hx. destruct (fails x) eqn:Ex; [|done]. rewrite <- E. symmetry. apply (Hup x); [lia|lia|done]. }
      exists v. split_and!; [done|done|lia].
    + exfalso. destruct (Hf eq_refl) as [?|[? _]]; [|done]. assert (ut_curr t = ut_hi t) as He by lia. congruence.
Qed.

Lemma uint_first_step start :
  0 < start <= U256_MAX -> exists t, uint_simplify (uint_new start false) = Ret (true, t) /\ uint_mid t /\ ut_lo t = 0 /\ ut_hi t = start.
Proof.
  intros Hs. unfold uint_simplify. cbn. replace (start <=? 0) with false by lia. rewrite uint_reposition_ok by lia.
  assert ((start - 0) / 2 < start) by (apply Z.div_lt_upper_bound; lia).
  replace (0 + (start - 0) / 2 =? start) with false by lia. eexists. split; [done|]. unfold uint_mid. cbn. split_and!; lia || done.
Qed.

Lemma uint_shrink_from start last :
  0 <= start <= top -> start <= U256_MAX -> fails start = true ->
  exists v, shrink fails 258 last (uint_new start false) = Ret (Some v) /\ least fails v /\ v <= start.
Proof.
  intros Hs Hmax Hf. cbn [shrink]. cbn [current simplify complicate uint_tree]. cbn [ut_curr uint_new]. rewrite Hf.
  destruct (decide (start = 0)) as [->|Hne].
  - exists 0. cbn. split_and!; [done| |lia]. split_and!; [done|lia|lia].
  - destruct (uint_first_step start) as (t & -> & Hm & Hlo & Hhi); [lia|]. cbn [mbind exec_bind]. cbn match.
    destruct (uint_shrink_ends 256 t start) as (v & Hv & Hl & Hle); [done|lia| |by rewrite Hhi|lia|].
    { rewrite Hlo, Hhi. unfold U256_MAX in *. change (Z.of_nat 256) with 256. lia. }
    exists v. split_and!; [exact Hv|done|lia].
Qed.
End UintShrink.

(** ** Shrinking signed integers

    A tree of signed integers is one of unsigned integers on the side of zero
    where it starts. *)
Definition int_of (s : Z) (u : UintValueTree) : IntValueTree := mkInt (s * ut_lo u) (s * ut_curr u) (s * ut_hi u) (ut_fixed u).
Definition side (s hi : Z) : Prop := (s = 1 /\ hi <= I256_MAX) \/ (s = -1 /\ hi <= - I256_MIN).
Definition lift (s : Z) (r : exec (bool * UintValueTree)) : exec (bool * IntValueTree) := '(c, u) ← r; Ret (c, int_of s u).

Lemma side_quot s x : s = 1 \/ s = -1 -> 0 <= x -> Z.quot (s * x) 2 = s * (x / 2).
Proof.
  intros [-> | ->] Hx; [by rewrite !Z.mul_1_l, Z.quot_div_nonneg by lia|].
  replace (-1 * x) with (- x) by lia. rewrite Z.quot_opp_l, Z.quot_div_nonneg by lia. lia.
Qed.
Lemma int_reposition_lift s lo c hi f :
  side s hi -> 0 <= lo <= hi -> hi <= U256_MAX ->
  int_reposition (mkInt (s * lo) (s * c) (s * hi) f) = lift s (uint_reposition (mkUint lo c hi f)).
Proof.
  intros Hs Hlo Hmax. assert (s = 1 \/ s = -1) as Hs1 by (destruct Hs as [[]|[]]; auto).
  rewrite uint_reposition_ok by lia. unfold int_reposition, i256, lift. cbn. rewrite <- Z.mul_sub_distr_l.
  assert (I256_MIN <= s * (hi - lo) <= I256_MAX) by (unfold side, I256_MIN, I256_MAX in *; lia). rewrite decide_True by done. cbn.
  rewrite side_quot by (done || lia). rewrite <- Z.mul_add_distr_l.
  pose proof (Z.div_pos (hi - lo) 2 ltac:(lia) ltac:(lia)). pose proof (Z.div_le_upper_bound (hi - lo) 2 (hi - lo) ltac:(lia) ltac:(lia)).
  rewrite decide_True by (unfold side, I256_MIN, I256_MAX in *; lia). cbn. unfold int_of. cbn.
  destruct (lo + (hi - lo) / 2 =? c) eqn:E; [apply Z.eqb_eq in E as <-; by rewrite Z.eqb_refl|].
  replace (s * (lo + (hi - lo) / 2) =? s * c) with false by (unfold side in *; lia). done.
Qed.
Lemma magnitude_side s lo hi : s = 1 \/ s = -1 -> 0 <= lo <= hi -> magnitude_greater (s * hi) (s * lo) = negb (hi <=? lo) || ((s =? -1) && (0 <? hi)).
Proof.
  intros Hs Hlo. unfold magnitude_greater. destruct (decide (hi = 0)) as [->|Hne].
  - rewrite Z.mul_0_r. cbn. lia.
  - destruct Hs as [-> | ->].
    + rewrite !Z.mul_1_l. replace (hi =? 0) with false by lia. replace (hi <? 0) with false by lia. rewrite xorb_false_r. cbn. lia.
    + replace (-1 * hi =? 0) with false by lia. replace (-1 * lo <? -1 * hi) with false by lia. replace (-1 * hi <? 0) with true by lia. cbn. lia.
Qed.
Lemma int_simplify_lift s u : side s (ut_hi u) -> uint_mid u -> int_simplify (int_of s u) = lift s (uint_simplify u).
Proof.
  intros Hs (Hf & Hlo & Hmax & Hc). destruct u as [lo c hi f]. cbn in *. subst f. unfold int_simplify, uint_simplify, int_of. cbn.
  rewrite magnitude_side by (lia || by destruct Hs as [[]|[]]; auto).
  pose proof (Z.div_pos (hi - lo) 2 ltac:(lia) ltac:(lia)). pose proof (Z.div_le_upper_bound (hi - lo) 2 (hi - lo) ltac:(lia) ltac:(lia)).
  destruct (hi <=? lo) eqn:E; cbn.
  - assert (lo = hi) as -> by lia. rewrite Z.sub_diag in Hc. change (0 / 2) with 0 in Hc. assert (c = hi) as -> by lia.
    destruct (_ && _); cbn; [|done]. rewrite int_reposition_lift by (done || lia). rewrite uint_reposition_ok by lia. unfold lift. cbn.
    rewrite Z.sub_diag. cbn. rewrite Z.add_0_r, Z.eqb_refl. done.
  - rewrite int_reposition_lift; [done| |lia|lia]. unfold side in *. lia.
Qed.
Lemma int_complicate_lift s u :
  side s (ut_hi u) -> uint_mid u -> ut_lo u < ut_hi u -> int_complicate (int_of s u) = lift s (uint_complicate u).
Proof.
  intros Hs (Hf & Hlo & Hmax & Hc) Hne. destruct u as [lo c hi f]. cbn in *. subst f. unfold int_complicate, uint_complicate, int_of. cbn.
  assert (s = 1 \/ s = -1) as Hs1 by (destruct Hs as [[]|[]]; auto). rewrite magnitude_side by (done || lia).
  pose proof (Z.div_pos (hi - lo) 2 ltac:(lia) ltac:(lia)).
  assert ((hi - lo) / 2 < hi - lo) by (apply Z.div_lt_upper_bound; lia).
  replace (hi <=? lo) with false by lia. cbn. unfold i256, u256_add. rewrite (decide_True (P := c + 1 <= _)) by lia.
  replace (s * c + (if s * hi <? 0 then -1 else 1)) with (s * (c + 1)) by (destruct (s * hi <? 0) eqn:E; lia).
  rewrite decide_True by (unfold side, I256_MIN, I256_MAX in *; lia). cbn. apply int_reposition_lift; [done|lia|lia].
Qed.

Section IntShrink.
Context (fails : Z -> bool) (s : Z).
Lemma int_shrink_lift fuel u last :
  side s (ut_hi u) -> uint_mid u -> fails (s * ut_hi u) = true ->
  shrink fails fuel (s * last) (int_of s u) = (o ← shrink (fun n => fails (s * n)) fuel last u; Ret (option_map (Z.mul s) o)).
Proof.
  revert u last. induction fuel as [|fuel IH]; intros u last Hs Hm Hf; [done|]. cbn [shrink]. cbn [current simplify complicate uint_tree int_tree].
  cbn [it_curr int_of]. fold (int_of s u). destruct (fails (s * ut_curr u)) eqn:E.
  - rewrite int_simplify_lift by done. destruct (uint_shrink_step u true Hm) as (c & u' & Hu & Hc & _). rewrite Hu. cbn. destruct c; [|done].
    destruct Hc as [?|(Hm' & ? & Hle & _ & _ & _ & Hh)]; [done|]. apply IH; [|done|by rewrite Hh].
    unfold side in *. lia.
  - assert (ut_lo u < ut_hi u).
    { destruct (decide (ut_lo u = ut_hi u)) as [Heq|]; [|destruct Hm as (_ & ? & _); lia]. destruct Hm as (_ & _ & _ & Hc).
      rewrite Heq, Z.sub_diag in Hc. change (0 / 2) with 0 in Hc. rewrite Z.add_0_r in Hc. congruence. }
    rewrite int_complicate_lift by done. destruct (uint_shrink_step u false Hm) as (c & u' & Hu & Hc & _). rewrite Hu. cbn. destruct c; [|done].
    destruct Hc as [?|(Hm' & ? & Hle & _ & _ & _ & Hh)]; [done|]. apply IH; [|done|by rewrite Hh].
    unfold side in *. lia.
Qed.
Lemma int_shrink_from start last :
  side s start -> 0 <= start <= U256_MAX -> upward start (fun n => fails (s * n)) -> fails (s * start) = true ->
  exists v, shrink fails 258 last (int_new (s * start) false) = Ret (Some (s * v)) /\ least (fun n => fails (s * n)) v /\ v <= start.
Proof.
  intros Hs Hr Hup Hf. destruct (decide (start = 0)) as [->|Hne].
  - exists 0. rewrite Z.mul_0_r in *. cbn [shrink]. cbn. rewrite Hf. cbn. split_and!; [done| |lia]. unfold least. rewrite Z.mul_0_r. split_and!; [done|lia|lia].
  - destruct (uint_first_step start) as (t & Ht & Hm & Hlo & Hhi); [lia|].
    assert (int_simplify (int_new (s * start) false) = lift s (uint_simplify (uint_new start false))) as Hfirst.
    { unfold int_simplify, uint_simplify. cbn. replace 0 with (s * 0) at 1 by lia. rewrite magnitude_side by (lia || by destruct Hs as [[]|[]]; auto).
      replace (start <=? 0) with false by lia. cbn. replace (mkInt 0 (s * start) (s * start) false) with (mkInt (s * 0) (s * start) (s * start) false) by (f_equal; lia).
      apply int_reposition_lift; [done|lia|lia]. }
    destruct (uint_shrink_ends _ _ Hup 256 t start) as (v & Hv & Hl & Hle); [done|lia| |by rewrite Hhi|lia|].
    { rewrite Hlo, Hhi. unfold U256_MAX in *. change (Z.of_nat 256) with 256. lia. }
    assert (shrink fails 257 (s * start) (int_of s t) = Ret (Some (s * v))) as Hi.
    { rewrite int_shrink_lift; [by rewrite Hv|by rewrite Hhi|done|by rewrite Hhi]. }
    exists v. split_and!; [|done|lia]. cbn [shrink]. cbn [current simplify complicate int_tree it_curr int_new]. fold (int_new (s * start) false).
    rewrite Hf, Hfirst, Ht. exact Hi.
Qed.
End IntShrink.

(** ** Drawn values *)
Lemma join_ok h l : 0 <= h <= U128_MAX -> 0 <= l <= U128_MAX -> join (h, l) = h * 2 ^ 128 + l.
Proof.
  intros Hh Hl. assert (forall x, 0 <= x <= U128_MAX -> as_u64 (Z.land x (Z.shiftl 1 65 - 1)) + as_u64 (Z.shiftr x 64) * 2 ^ 64 = x) as Hw.
  { intros x Hx. unfold as_u64. change (Z.shiftl 1 65 - 1) with (Z.ones 65). rewrite Z.land_ones, Z.shiftr_div_pow2 by lia.
    change (2 ^ 65) with (2 ^ 64 * 2). rewrite Z.rem_mul_r, Z.mul_comm, Z.mul_comm, Z.add_mod, Z.mul_mod, Z.mod_same by lia. cbn -[Z.pow Z.div Z.modulo].
    rewrite Z.mul_0_l, (Z.mod_small 0), Z.add_0_r, !Z.mod_mod by lia. rewrite (Z.mod_small (x / 2 ^ 64)).
    - pose proof (Z.div_mod x (2 ^ 64) ltac:(lia)). lia.
    - split; [apply Z.div_pos; lia|]. apply Z.div_lt_upper_bound; [lia|]. unfold U128_MAX in Hx. lia. }
  unfold join. rewrite <- (Hw h) at 3 by done. rewrite <- (Hw l) at 3 by done. lia.
Qed.
Lemma join_cut bits h l :
  0 <= bits <= 256 -> 0 <= h <= U128_MAX -> 0 <= l <= U128_MAX -> join (cut bits h l) = (h * 2 ^ 128 + l) mod 2 ^ bits.
Proof.
  intros Hb Hh Hl. unfold cut. assert (forall n, 0 <= n -> Z.shiftl 1 n - 1 = Z.ones n) as Ho.
  { intros n Hn. rewrite Z.ones_equiv, Z.shiftl_mul_pow2 by lia. lia. }
  assert (forall n x, 0 <= n -> 0 <= x <= U128_MAX -> 0 <= x mod 2 ^ n <= U128_MAX) as Hm.
  { intros n x Hn Hx. pose proof (Z.mod_le x (2 ^ n) ltac:(lia) ltac:(lia)). pose proof (Z.mod_pos_bound x (2 ^ n) ltac:(lia)). lia. }
  destruct (bits <? 128) eqn:E1; [|destruct (bits <? 256) eqn:E2].
  - rewrite Ho, Z.land_ones by lia. rewrite join_ok by (done || apply Hm; lia). rewrite Z.mul_0_l, Z.add_0_l.
    replace (2 ^ 128) with (2 ^ (128 - bits) * 2 ^ bits) by (rewrite <- Z.pow_add_r by lia; f_equal; lia).
    by rewrite Z.mul_assoc, Z.add_comm, Z.mod_add by lia.
  - rewrite Ho, Z.land_ones by lia. rewrite join_ok by (done || apply Hm; lia).
    replace (2 ^ bits) with (2 ^ 128 * 2 ^ (bits - 128)) by (rewrite <- Z.pow_add_r by lia; f_equal; lia).
    rewrite Z.rem_mul_r by lia. rewrite (Z.add_comm (h * 2 ^ 128) l). rewrite Z.mod_add, (Z.mod_small l), Z.div_add, (Z.div_small l) by (unfold U128_MAX in *; lia). rewrite Z.add_0_l. lia.
  - assert (bits = 256) as -> by lia. rewrite join_ok by done. rewrite Z.mod_small; [done|]. unfold U128_MAX in *. lia.
Qed.
Lemma words_of x : 0 <= x <= U256_MAX -> 0 <= x / 2 ^ 128 <= U128_MAX /\ 0 <= x mod 2 ^ 128 <= U128_MAX /\ (x / 2 ^ 128) * 2 ^ 128 + x mod 2 ^ 128 = x.
Proof.
  intros Hx. pose proof (Z.div_mod x (2 ^ 128) ltac:(lia)). pose proof (Z.mod_pos_bound x (2 ^ 128) ltac:(lia)).
  assert (x / 2 ^ 128 < 2 ^ 128) by (apply Z.div_lt_upper_bound; unfold U256_MAX in *; lia). pose proof (Z.div_pos x (2 ^ 128) ltac:(lia) ltac:(lia)).
  unfold U128_MAX. lia.
Qed.
Lemma pow_bits bits : 3 <= bits <= 256 -> 8 <= 2 ^ bits <= 2 ^ 256 /\ 2 ^ bits = 2 * 2 ^ (bits - 1).
Proof.
  intros Hb. split; [|rewrite <- Z.pow_succ_r by lia; f_equal; lia]. change 8 with (2 ^ 3). split; apply Z.pow_le_mono_r; lia.
Qed.

(** The values a strategy without fixtures draws for [uintN] are exactly those
    of the type, and no draw panics. *)
Lemma uint_drawn bits v :
  3 <= bits <= 256 ->
  (0 <= v < 2 ^ bits <-> exists d, uint_draws (uint_strategy_new bits []) d /\ uint_new_tree (uint_strategy_new bits []) d = Ret (uint_new v false)).
Proof.
  intros Hb. pose proof (pow_bits bits Hb) as [[H8 Hmax] _]. split.
  - intros Hv. destruct (words_of v) as (Hh & Hl & Hw); [unfold U256_MAX; lia|].
    exists (mkUintDraws 99 false 0 0 bits (v / 2 ^ 128) (v mod 2 ^ 128)). split; [unfold uint_draws; cbn; split_and!; done || lia|].
    unfold uint_new_tree, uint_random_tree. cbn. rewrite join_cut, Hw, Z.mod_small by (done || lia). done.
  - intros (d & (Hbias & Ho & _ & Hbits & Hh & Hl) & Ht). unfold uint_new_tree, uint_fixtures_tree in Ht. cbn in *.
    assert (uint_edge_tree (uint_strategy_new bits []) d = Ret (uint_new v false) -> 0 <= v < 2 ^ bits) as Hedge.
    { unfold uint_edge_tree. cbn. destruct (ud_is_min d); cbn; [intros [= <-]; lia|].
      unfold U256_sub. destruct (decide _); cbn; [|done]. intros [= <-]. destruct (bits <? 256) eqn:E.
      - rewrite Z.shiftl_mul_pow2 in * by lia. lia.
      - unfold U256_MAX in *. assert (bits = 256) as -> by lia. lia. }
    destruct (_ <? 10); [by apply Hedge|]. destruct (_ <? 10 + 40); [by apply Hedge|].
    unfold uint_random_tree in Ht. injection Ht as <-. rewrite join_cut by (done || lia).
    pose proof (Z.mod_pos_bound (ud_higher d * 2 ^ 128 + ud_lower d) (2 ^ ud_bits d) ltac:(lia)).
    pose proof (Z.pow_le_mono_r 2 (ud_bits d) bits ltac:(lia) ltac:(lia)). lia.
Qed.
Lemma uint_draw_returns bits d : 3 <= bits <= 256 -> uint_draws (uint_strategy_new bits []) d ->
  exists v, uint_new_tree (uint_strategy_new bits []) d = Ret (uint_new v false).
Proof.
  intros Hb (Hbias & Ho & _). pose proof (pow_bits bits Hb) as [[H8 Hmax] _]. unfold uint_new_tree, uint_fixtures_tree. cbn in *.
  assert (exists v, uint_edge_tree (uint_strategy_new bits []) d = Ret (uint_new v false)) as He.
  { unfold uint_edge_tree. cbn. destruct (ud_is_min d); cbn; [eauto|]. unfold U256_sub. rewrite decide_True; [cbn; eauto|].
    destruct (bits <? 256); [rewrite Z.shiftl_mul_pow2 by lia; lia|unfold U256_MAX; lia]. }
  destruct (_ <? 10); [done|]. destruct (_ <? 10 + 40); [done|]. unfold uint_random_tree. eauto.
Qed.

(** The same for [intN]: the edge tree covers the minimum that the random tree
    leaves out. *)
Definition int_range (bits v : Z) : Prop := - 2 ^ (bits - 1) <= v < 2 ^ (bits - 1).
Lemma from_sign_ok (p : bool) a : 0 <= a <= 2 ^ 255 - (if p then 1 else 0) -> from_sign_and_abs p a = if p then a else - a.
Proof.
  intros Ha. unfold from_sign_and_abs, from_raw, I256_MAX. destruct p; [replace (a <=? 2 ^ 255 - 1) with true by lia; done|].
  destruct (decide (a = 0)) as [->|Hne]; [done|].
  rewrite <- (Z.mod_add (- a) 1 (2 ^ 256)), Z.mod_small by lia. replace (_ <=? _) with false by lia. lia.
Qed.
Lemma int_edge_ok bits d : 3 <= bits <= 256 -> 0 <= id_offset d < 4 -> 0 <= id_kind d < 4 ->
  exists v, int_edge_tree (int_strategy_new bits []) d = Ret (int_new v false) /\ int_range bits v.
Proof.
  intros Hb Ho Hk. pose proof (pow_bits bits Hb) as [[H8 Hmax] Hp]. unfold int_edge_tree, U256_sub, int_range. cbn.
  rewrite decide_True by lia. cbn. rewrite Z.shiftl_mul_pow2, Z.mul_1_l by lia. set (m := 2 ^ (bits - 1)) in *.
  assert (4 <= m <= 2 ^ 255) by lia. rewrite !from_sign_ok by (cbn; lia).
  assert (id_kind d = 0 \/ id_kind d = 1 \/ id_kind d = 2 \/ id_kind d = 3) as [-> | [-> | [-> | ->]]] by lia; cbn;
    unfold i256, I256_MIN, I256_MAX; rewrite ?decide_True by lia; cbn; eexists; (split; [done|lia]).
Qed.
Lemma int_random_ok bits d : 3 <= bits <= 256 -> 0 <= id_bits d <= bits -> 0 <= id_higher d <= U128_MAX -> 0 <= id_lower d <= U128_MAX ->
  exists v, int_random_tree (int_strategy_new bits []) d = Ret (int_new v false) /\ int_range bits v.
Proof.
  intros Hb Hbits Hh Hl. pose proof (pow_bits bits Hb) as [[H8 Hmax] Hp]. unfold int_random_tree, int_range.
  destruct (id_bits d =? 0) eqn:E; [exists 0; split; [done|lia]|]. rewrite join_cut by (done || lia).
  set (x := _ mod _). assert (0 <= x < 2 ^ (bits - 1)) as Hx.
  { unfold x. pose proof (Z.mod_pos_bound (id_higher d * 2 ^ 128 + id_lower d) (2 ^ (id_bits d - 1)) ltac:(lia)).
    pose proof (Z.pow_le_mono_r 2 (id_bits d - 1) (bits - 1) ltac:(lia) ltac:(lia)). lia. }
  eexists. split; [done|]. rewrite from_sign_ok by (destruct (id_positive d); lia). destruct (id_positive d); lia.
Qed.
Lemma int_draw_returns bits d : 3 <= bits <= 256 -> int_draws (int_strategy_new bits []) d ->
  exists v, int_new_tree (int_strategy_new bits []) d = Ret (int_new v false) /\ int_range bits v.
Proof.
  intros Hb (_ & Ho & Hk & _ & Hbits & Hh & Hl). unfold int_new_tree, int_fixtures_tree. cbn in *.
  destruct (_ <? 10); [by apply int_edge_ok|]. destruct (_ <? 10 + 40); [by apply int_edge_ok|]. by apply int_random_ok.
Qed.
Lemma int_drawn bits v :
  3 <= bits <= 256 ->
  (int_range bits v <-> exists d, int_draws (int_strategy_new bits []) d /\ int_new_tree (int_strategy_new bits []) d = Ret (int_new v false)).
Proof.
  intros Hb. pose proof (pow_bits bits Hb) as [[H8 Hmax] Hp]. split.
  - intros Hv. unfold int_range in Hv. destruct (decide (v = - 2 ^ (bits - 1))) as [->|Hne].
    + exists (mkIntDraws 0 0 0 0 0 0 0 true). split; [unfold int_draws, U128_MAX; cbn; split_and!; done || lia|].
      unfold int_new_tree, int_edge_tree, U256_sub. cbn. rewrite decide_True by lia. cbn. rewrite Z.shiftl_mul_pow2, Z.mul_1_l by lia.
      rewrite from_sign_ok by (cbn; lia). unfold i256, I256_MIN, I256_MAX. rewrite decide_True by lia. cbn. f_equal. f_equal. lia.
    + destruct (words_of (Z.abs v)) as (Hh & Hl & Hw); [unfold U256_MAX; lia|].
      exists (mkIntDraws 99 0 0 0 bits (Z.abs v / 2 ^ 128) (Z.abs v mod 2 ^ 128) (0 <=? v)). split; [unfold int_draws; cbn; split_and!; done || lia|].
      unfold int_new_tree, int_random_tree. cbn. change (99 <? 10 + 40) with false. cbn match. replace (bits =? 0) with false by lia. rewrite join_cut, Hw, (Z.mod_small (Z.abs v)) by (done || lia).
      rewrite from_sign_ok by (destruct (0 <=? v); lia). f_equal. f_equal. destruct (0 <=? v) eqn:E; lia.
  - intros (d & Hd & Ht). destruct (int_draw_returns bits d Hb Hd) as (w & Hw & Hr). rewrite Ht in Hw. by injection Hw as ->.
Qed.

(** ** Theorems *)

(** C19: A failing integer is shrunk to the simplest value that fails, in at
    most 258 runs of the test and without a panic, for every test whose
    failures go on from the simplest one to the value it started with: to the
    least failing value of an unsigned integer, and to the failing value
    nearest to zero on its side of a signed one. *)
Theorem shrink_finds_simplest :
  (forall fails start last, is_u256 start -> upward start fails -> fails start = true ->
     exists v, shrink fails 258 last (uint_new start false) = Ret (Some v) /\ least fails v /\ v <= start) /\
  (forall fails start last s, I256_MIN <= start <= I256_MAX -> s = (if start <? 0 then -1 else 1) ->
     upward (Z.abs start) (fun n => fails (s * n)) -> fails start = true ->
     exists v, shrink fails 258 last (int_new start false) = Ret (Some (s * v)) /\ least (fun n => fails (s * n)) v /\ v <= Z.abs start).
Proof.
  split.
  - intros fails start last Hs Hup Hf. unfold is_u256 in Hs. apply uint_shrink_from with (top := start); [done|lia|lia|done].
  - intros fails start last s Hr -> Hup Hf. set (s := if start <? 0 then -1 else 1) in *.
    assert (start = s * Z.abs start) as Hs by (unfold s; destruct (start <? 0) eqn:E; lia).
    pose proof (int_shrink_from fails s (Z.abs start) last) as Hi. rewrite <- Hs in Hi.
    apply Hi; [|unfold U256_MAX, I256_MIN, I256_MAX in *; lia|done|done].
    unfold side, s. unfold I256_MIN, I256_MAX in *. destruct (start <? 0) eqn:E; lia.
Qed.
Definition at_least_7 (n : Z) : bool := 7 <=? Z.abs n.
Lemma shrink_finds_simplest_witness :
  (exists v, shrink at_least_7 258 0 (uint_new 1000 false) = Ret (Some v) /\ least at_least_7 v /\ v <= 1000) /\
  (exists v, shrink at_least_7 258 0 (int_new (-1000) false) = Ret (Some (-1 * v)) /\ least (fun n => at_least_7 (-1 * n)) v /\ v <= 1000).
Proof.
  split.
  - apply (proj1 shrink_finds_simplest); [unfold is_u256, U256_MAX; lia| |reflexivity]. intros x y. unfold at_least_7. lia.
  - apply (proj2 shrink_finds_simplest) with (start := -1000); [unfold I256_MIN, I256_MAX; lia|reflexivity| |reflexivity].
    intros x y. unfold at_least_7. lia.
Defined.

(** With [lo] and [hi] equal there is nothing left to try, but
    [magnitude_greater] holds of a negative number and itself: a test that
    passes where it failed before moves the tree beyond the first failing
    value, where the tree of an unsigned integer stays. *)
Theorem int_complicate_leaves_range v :
  I256_MIN < v < 0 ->
  int_complicate (mkInt v v v false) = Ret (true, mkInt (v - 1) (v - 1) v false) /\
  uint_complicate (mkUint (- v) (- v) (- v) false) = Ret (false, mkUint (- v) (- v) (- v) false).
Proof.
  intros Hv. unfold int_complicate, uint_complicate, magnitude_greater. cbn.
  replace (v =? 0) with false by lia. replace (v <? v) with false by lia. replace (v <? 0) with true by lia. replace (- v <=? - v) with true by lia. cbn.
  assert (forall x, I256_MIN <= x <= I256_MAX -> i256 x = Ret x) as Hi by (intros x Hx; unfold i256; by rewrite decide_True).
  unfold int_reposition. rewrite Hi by (unfold I256_MIN, I256_MAX in *; lia). cbn. replace (v - (v + -1)) with 1 by lia.
  rewrite Hi by (unfold I256_MIN, I256_MAX; lia). cbn. change (Z.quot 1 2) with 0. rewrite Z.add_0_r. rewrite Hi by (unfold I256_MIN, I256_MAX in *; lia). cbn.
  replace (_ =? v) with false by lia. done.
Qed.
