(* ===== verification/Fuzz.v ===== *)
(** * Random call data (evm/src/fuzz/strategies, evm/src/executor/inspector/fuzzer.rs)

    The strategies that generate arguments and call data, and the dictionary
    of words they draw from.  The combinators of proptest are an interface
    whose laws say what they generate; a [[u8; 32]] is the word it spells. *)
From S2P Require Import Prelude Transaction Hardfork Db Mapping FuzzInt.
Open Scope Z_scope.

(** ** Strategies of proptest *)

(** The values of a list of outcomes, up to the first panic. *)
Fixpoint collect {A} (l : list (exec A)) : exec (list A) :=
  match l with
  | [] => Ret []
  | x :: l => a ← x; r ← collect l; Ret (a :: r)
  end.

(** [generates s r]: a run of [s] can yield [r], a value or a panic.  [draw]
    is a strategy with a [new_tree] of its own, by its draws and what it makes
    of them; [vec_of] is [collection::vec], [all_of] a vector of strategies,
    [both] a pair of them, [union] is [Union::new_weighted], [select]
    [sample::Selector::select], [index] [sample::Index::index]. *)
Class Proptest := {
  Strategy : Type -> Type;
  generates {A} : Strategy A -> exec A -> Prop;
  draw {D A} : (D -> Prop) -> (D -> exec A) -> Strategy A;
  prop_map {A B} : (A -> exec B) -> Strategy A -> Strategy B;
  prop_flat_map {A B} : (A -> exec (Strategy B)) -> Strategy A -> Strategy B;
  prop_filter {A} : (A -> bool) -> Strategy A -> Strategy A;
  vec_of {A} : Strategy A -> nat -> nat -> Strategy (list A);
  all_of {A} : list (Strategy A) -> Strategy (list A);
  union {A} : list (Z * Strategy A) -> exec (Strategy A);
  both {A B} : Strategy A -> Strategy B -> Strategy (A * B);
  select {A} : list A -> Strategy A;
  index : Z -> nat -> exec nat }.
Class ProptestLaws `{!Proptest} := {
  generates_draw {D A} (P : D -> Prop) (f : D -> exec A) r : generates (draw P f) r <-> exists d, P d /\ r = f d;
  generates_map {A B} (f : A -> exec B) s r : generates (prop_map f s) r <-> exists a, generates s a /\ r = (x ← a; f x);
  generates_flat_map {A B} (f : A -> exec (Strategy B)) s r :
    generates (prop_flat_map f s) r <->
    exists a, generates s a /\
      match (x ← a; f x) with Ret t => generates t r | Panic w => r = Panic w end;
  generates_filter {A} (f : A -> bool) s r : generates (prop_filter f s) r <-> generates s r /\ (forall a, r = Ret a -> f a = true);
  generates_vec {A} (s : Strategy A) lo hi r :
    generates (vec_of s lo hi) r <-> exists l, (lo <= length l < hi)%nat /\ Forall (generates s) l /\ r = collect l;
  generates_all {A} (l : list (Strategy A)) r : generates (all_of l) r <-> exists rs, Forall2 generates l rs /\ r = collect rs;
  union_panics {A} (l : list (Z * Strategy A)) : (exists w, union l = Panic w) <-> l = [] \/ Exists (fun x => x.1 <= 0) l;
  generates_union {A} (l : list (Z * Strategy A)) s r : union l = Ret s -> (generates s r <-> exists w t, (w, t) ∈ l /\ generates t r);
  generates_both {A B} (s : Strategy A) (t : Strategy B) r :
    generates (both s t) r <-> exists a b, generates s a /\ generates t b /\ r = (x ← a; y ← b; Ret (x, y));
  generates_select {A} (l : list A) r :
    generates (select l) r <-> (exists a, a ∈ l /\ r = Ret a) \/ (l = [] /\ r = Panic "select from an empty collection");
  index_ok x size : (0 < size)%nat -> exists i, index x size = Ret i /\ (i < size)%nat }.

(** ** Types and tokens of the ABI *)
Inductive ParamType :=
| PAddress | PBytes | PInt (n : Z) | PUint (n : Z) | PBool | PString
| PArray (p : ParamType) | PFixedBytes (size : nat) | PFixedArray (p : ParamType) (size : nat) | PTuple (ps : list ParamType).
Inductive Token :=
| TAddress (a : Address) | TBytes (b : list byte) | TInt (x : Z) | TUint (x : Z) | TBool (b : bool) | TString (s : list byte)
| TArray (l : list Token) | TFixedBytes (b : list byte) | TFixedArray (l : list Token) | TTuple (l : list Token).
Inductive StateMutability := Pure | View | NonPayable | Payable.
Record Function := mkFunction { fn_name : string; fn_selector : list byte; inputs : list ParamType; state_mutability : StateMutability }.

(** What the strategies need of other libraries: the ABI encoder and decoder, UTF-8 with
    the trimming of a string, and revm's table of instructions. *)
Class FuzzLib := {
  encode_input : Function -> list Token -> option (list byte);
  decode_input : Function -> list byte -> option (list Token);
  fn_signature : Function -> string;
  lossy_trimmed : list byte -> list byte;
  is_push : Z -> bool }.

Definition MAX_ARRAY_LEN : nat := 256.
Definition is_byte (b : Z) : Prop := 0 <= b < 256.

Section Fuzz.
Context `{!Proptest} `{!FuzzLib}.

(** [any::<Vec<u8>>()], whose default size is [0..100], [any::<[u8; 20]>()] and
    [any::<bool>()] *)
Definition DEFAULT_SIZE : nat := 100.
Definition any_bytes : Strategy (list byte) := draw (fun l => Forall is_byte l /\ (length l < DEFAULT_SIZE)%nat) Ret.
Definition any_bytes20 : Strategy (list byte) := draw (fun l => Forall is_byte l /\ length l = 20%nat) Ret.
Definition any_bool : Strategy bool := draw (fun _ => True) Ret.
Definition any_u8 : Strategy byte := draw is_byte Ret.
Definition uint_values (s : UintStrategy) : Strategy Z := draw (uint_draws s) (fun d => t ← uint_new_tree s d; Ret (ut_curr t)).
Definition int_values (s : IntStrategy) : Strategy Z := draw (int_draws s) (fun d => t ← int_new_tree s d; Ret (it_curr t)).
(** A size that is a number is the range with that number in it. *)
Definition vec_exactly {A} (s : Strategy A) (size : nat) : Strategy (list A) := vec_of s size (S size).
Definition pure_map {A B} (f : A -> B) : Strategy A -> Strategy B := prop_map (fun a => Ret (f a)).

Fixpoint fuzz_param (param : ParamType) : Strategy Token :=
  match param with
  | PAddress => pure_map (fun x => TAddress (from_be_bytes x)) any_bytes20
  | PBytes => pure_map TBytes any_bytes
  | PInt n => pure_map TInt (int_values (int_strategy_new n []))
  | PUint n => pure_map TUint (uint_values (uint_strategy_new n []))
  | PBool => pure_map TBool any_bool
  | PString => pure_map TString any_bytes
  | PArray p => pure_map TArray (vec_of (fuzz_param p) 0 MAX_ARRAY_LEN)
  | PFixedBytes size => pure_map TFixedBytes (vec_exactly any_u8 size)
  | PFixedArray p size => pure_map TFixedArray (vec_exactly (fuzz_param p) size)
  | PTuple ps => pure_map TTuple (all_of (map fuzz_param ps))
  end.
Definition fuzz_calldata (f : Function) : Strategy (list byte) :=
  prop_map (fun tokens => expect (encode_input f tokens) "called `Result::unwrap()` on an `Err` value") (all_of (map fuzz_param (inputs f))).

(** ** The dictionary *)
Record FuzzDictionary := mkDictionary { state_values : gset Z; addresses : gset Address }.
Definition dictionary_default : FuzzDictionary := mkDictionary ∅ ∅.
Definition insert_value (v : Z) (d : FuzzDictionary) : FuzzDictionary := mkDictionary ({[v]} ∪ state_values d) (addresses d).
Definition insert_values (l : list Z) (d : FuzzDictionary) : FuzzDictionary := fold_left (fun d v => insert_value v d) l d.
(** [HashSet::insert] of an address: whether it is new. *)
Definition insert_address (a : Address) (d : FuzzDictionary) : bool * FuzzDictionary :=
  (bool_decide (a ∉ addresses d), mkDictionary (state_values d) ({[a]} ∪ addresses d)).

Section FromState.
Context `{!HashIter Z}.
(** [state_len] is the size of the dictionary when the strategy is built, [st]
    the dictionary when it runs. *)
Definition state_value (state_len : nat) (st : FuzzDictionary) : Strategy Z :=
  prop_map (fun i => expect (hash_iter (state_values st) !! i) "called `Option::unwrap()` on a `None` value")
    (draw (fun _ : Z => True) (fun x => index x state_len)).
Definition int_of_word (y value : Z) : Z :=
  let uint := value mod 2 ^ (y * 8) in
  let max_int_plus1 := 2 ^ (y * 8 - 1) in
  from_raw ((uint - max_int_plus1) mod 2 ^ 256).
Definition last_bytes (size : nat) (value : Z) : exec (list byte) :=
  if (size <=? 32)%nat then Ret (drop (32 - size) (to_be_bytes 32 value)) else Panic "attempt to subtract with overflow".
Fixpoint fuzz_param_from_state (state_len : nat) (st : FuzzDictionary) (param : ParamType) : exec (Strategy Token) :=
  let value := state_value state_len st in
  match param with
  | PAddress => Ret (pure_map (fun v => TAddress (from_be_bytes (drop 12 (to_be_bytes 32 v)))) value)
  | PBytes => Ret (pure_map (fun v => TBytes (to_be_bytes 32 v)) value)
  | PInt n =>
      let y := n / 8 in
      if y =? 32 then Ret (pure_map (fun v => TInt (from_raw v)) value)
      else if (1 <=? y) && (y <=? 31) then Ret (pure_map (fun v => TInt (int_of_word y v)) value)
      else Panic "unsupported solidity type int"
  | PUint n =>
      let y := n / 8 in
      if y =? 32 then Ret (pure_map TUint value)
      else if (1 <=? y) && (y <=? 31) then Ret (pure_map (fun v => TUint (v mod 2 ^ (y * 8))) value)
      else Panic "unsupported solidity type uint"
  | PBool => Ret (pure_map (fun v => TBool (Z.land v 255 =? 1)) value)
  | PString => Ret (pure_map (fun v => TString (lossy_trimmed (to_be_bytes 32 v))) value)
  | PArray p => s ← fuzz_param_from_state state_len st p; Ret (pure_map TArray (vec_of s 0 MAX_ARRAY_LEN))
  | PFixedBytes size => Ret (prop_map (fun v => b ← last_bytes size v; Ret (TFixedBytes b)) value)
  | PFixedArray p size => s ← fuzz_param_from_state state_len st p; Ret (pure_map TFixedArray (vec_exactly s size))
  | PTuple ps => l ← collect (map (fuzz_param_from_state state_len st) ps); Ret (pure_map TTuple (all_of l))
  end.
Definition fuzz_calldata_from_state (f : Function) (state_len : nat) (st : FuzzDictionary) : exec (Strategy (list byte)) :=
  l ← collect (map (fuzz_param_from_state state_len st) (inputs f));
  Ret (prop_map (fun tokens => expect (encode_input f tokens) "Fuzzer generated invalid tokens") (all_of l)).
End FromState.

(** ** Filling the dictionary *)
Record FuzzDictionaryConfig := mkDictConfig {
  dictionary_weight : Z; include_storage : bool; include_push_bytes : bool;
  max_fuzz_dictionary_addresses : nat; max_fuzz_dictionary_values : nat }.
Definition PUSH1 : Z := 0x60.
Definition PUSH_BYTE_ANALYSIS_LIMIT : nat := 24 * 1024.
(** A word and the words below and above it. *)
Definition with_neighbours (v : Z) : list Z :=
  v :: (if v =? 0 then [] else [v - 1]) ++ (if v =? U256_MAX then [] else [v + 1]).
(** The loop at position [i]; [fuel] bounds the rounds. *)
Fixpoint push_loop (fuel : nat) (code : list byte) (i : nat) (bytes : list Z) : list Z :=
  match fuel with
  | O => bytes
  | S fuel =>
      if (i <? Nat.min (length code) PUSH_BYTE_ANALYSIS_LIMIT)%nat then
        let op := nth i code 0 in
        if is_push op then
          let push_size := Z.to_nat (op - PUSH1 + 1) in
          let push_start := (i + 1)%nat in
          let push_end := (push_start + push_size)%nat in
          if (length code <? push_start)%nat || (length code <? push_end)%nat then bytes
          else
            let push_value := from_be_bytes (take push_size (drop push_start code)) in
            push_loop fuel code (i + push_size + 1) (bytes ++ with_neighbours push_value)
        else push_loop fuel code (i + 1) bytes
      else bytes
  end.
Definition collect_push_bytes (code : list byte) : list Z := push_loop (S (length code)) code 0 [].

Definition collect_code (a : Address) (code : option (list byte)) (d : FuzzDictionary) : FuzzDictionary :=
  match code with
  | Some code =>
      let '(new, d) := insert_address a d in
      if (new : bool) then insert_values (collect_push_bytes code) d else d
  | None => d
  end.
Definition insert_slot_values (d : FuzzDictionary) (entry : Z * Z) : FuzzDictionary :=
  insert_values (entry.1 :: with_neighbours entry.2) d.
(** An account of a database or of a set of changes, with its storage in the
    order of the map. *)
Record FuzzAccount := mkFuzzAccount { fa_info : AccountInfo.t; fa_storage : list (Z * Z); fa_is_touched : bool }.

Definition initial_account (config : FuzzDictionaryConfig) (d : FuzzDictionary) (entry : Address * FuzzAccount) : FuzzDictionary :=
  let '(address, account) := entry in
  let d := insert_value address d in
  let d := if include_push_bytes config then collect_code address (AccountInfo.code (fa_info account)) d else d in
  if include_storage config then fold_left insert_slot_values (fa_storage account) d else d.
Definition build_initial_state (random_address : Address) (accounts : list (Address * FuzzAccount)) (config : FuzzDictionaryConfig) : FuzzDictionary :=
  let d := fold_left (initial_account config) accounts dictionary_default in
  if decide (state_values d = ∅) then insert_value random_address d else d.

(** [data.chunks(32)], each padded with zeros on the right. *)
Fixpoint chunk_words (fuel : nat) (data : list byte) : list Z :=
  match fuel, data with
  | S fuel, _ :: _ => from_be_bytes (take 32 (data ++ replicate 32 0)) :: chunk_words fuel (drop 32 data)
  | _, _ => []
  end.
Record FuzzLog := mkFuzzLog { fl_topics : list Z; fl_data : list byte }.
Definition insert_log (d : FuzzDictionary) (log : FuzzLog) : FuzzDictionary :=
  insert_values (fl_topics log ++ chunk_words (length (fl_data log)) (fl_data log)) d.
(** [return] inside the loop leaves the function. *)
Fixpoint collect_state_from_call (logs : list FuzzLog) (changes : list (Address * FuzzAccount)) (config : FuzzDictionaryConfig) (d : FuzzDictionary) : FuzzDictionary :=
  match changes with
  | [] => d
  | (address, account) :: changes =>
      let d := insert_value address d in
      let d := if include_push_bytes config && (size (addresses d) <? max_fuzz_dictionary_addresses config)%nat
               then collect_code address (AccountInfo.code (fa_info account)) d else d in
      if include_storage config && (size (state_values d) <? max_fuzz_dictionary_values config)%nat then
        let d := fold_left insert_slot_values (fa_storage account) d in
        let d := fold_left insert_log logs d in
        collect_state_from_call logs changes config d
      else d
  end.

(** [Fuzzer::collect_data]: the stack of a call. *)
Definition collect_stack (stack : list Z) (d : FuzzDictionary) : FuzzDictionary := insert_values stack d.
End Fuzz.
