(* ===== verification/FuzzProps.v ===== *)
(** * Theorems about random call data

    What the strategies generate are exactly the values of the type, and what
    the dictionary holds is what the accounts, code and logs say. *)
From S2P Require Import Prelude Transaction Hardfork Db Mapping FuzzInt FuzzIntProps Fuzz.
Open Scope Z_scope.

(** ** Values of a type *)
Section Fits.
(** [bytes_ok]: the byte strings that are meant. *)
Context (bytes_ok : list byte -> Prop).
Fixpoint fits_with (p : ParamType) (t : Token) : Prop :=
  match p, t with
  | PAddress, TAddress a => 0 <= a < 2 ^ 160
  | PBytes, TBytes b => bytes_ok b
  | PInt n, TInt x => int_range n x
  | PUint n, TUint x => 0 <= x < 2 ^ n
  | PBool, TBool _ => True
  | PString, TString s => bytes_ok s
  | PArray p, TArray l => (length l < MAX_ARRAY_LEN)%nat /\ Forall (fits_with p) l
  | PFixedBytes size, TFixedBytes b => length b = size /\ Forall is_byte b
  | PFixedArray p size, TFixedArray l => length l = size /\ Forall (fits_with p) l
  | PTuple ps, TTuple l =>
      (fix go (ps : list ParamType) (l : list Token) : Prop :=
         match ps, l with
         | [], [] => True
         | p :: ps, t :: l => fits_with p t /\ go ps l
         | _, _ => False
         end) ps l
  | _, _ => False
  end.
End Fits.
(** Values of a type, and those of them that are drawn at random: byte strings
    shorter than 100. *)
Notation fits := (fits_with (Forall is_byte)).
Notation drawable := (fits_with (fun b => Forall is_byte b /\ (length b < DEFAULT_SIZE)%nat)).

(** The types of Solidity: integers of 8 to 256 bits and up to 32 bytes. *)
Fixpoint solidity (p : ParamType) : Prop :=
  match p with
  | PInt n | PUint n => 8 <= n <= 256 /\ n mod 8 = 0
  | PFixedBytes size => (1 <= size <= 32)%nat
  | PArray p | PFixedArray p _ => solidity p
  | PTuple ps => (fix go (ps : list ParamType) : Prop := match ps with [] => True | p :: ps => solidity p /\ go ps end) ps
  | _ => True
  end.
Lemma fits_tuple P ps l : fits_with P (PTuple ps) (TTuple l) <-> Forall2 (fits_with P) ps l.
Proof.
  revert l. induction ps as [|p ps IH]; intros [|t l]; cbn; try (split; [done|by inversion 1]).
  rewrite Forall2_cons. by rewrite <- IH.
Qed.
Lemma solidity_tuple ps : solidity (PTuple ps) <-> Forall solidity ps.
Proof. induction ps as [|p ps IH]; cbn; [by split|]. rewrite Forall_cons. by rewrite <- IH. Qed.

Section ParamInd.
Context (P : ParamType -> Prop).
Hypothesis Hflat : forall p, match p with PArray _ | PFixedArray _ _ | PTuple _ => True | _ => P p end.
Hypothesis Harray : forall p, P p -> P (PArray p).
Hypothesis Hfixed : forall p size, P p -> P (PFixedArray p size).
Hypothesis Htuple : forall ps, Forall P ps -> P (PTuple ps).
Fixpoint param_ind (p : ParamType) : P p :=
  match p with
  | PArray p => Harray p (param_ind p)
  | PFixedArray p size => Hfixed p size (param_ind p)
  | PTuple ps => Htuple ps ((fix go (ps : list ParamType) : Forall P ps :=
                               match ps with [] => Forall_nil_2 P | p :: ps => Forall_cons_2 P p ps (param_ind p) (go ps) end) ps)
  | p => Hflat p
  end.
End ParamInd.

Lemma fits_impl (P P' : list byte -> Prop) p : (forall b, P b -> P' b) -> forall t, fits_with P p t -> fits_with P' p t.
Proof.
  intros HP. revert p. refine (param_ind _ _ _ _ _); [intros []; try done|intros p IH|intros p size IH|intros ps IH]; intros [] Ht; try done; cbn in Ht |- *; auto.
  - destruct Ht as [? Ht]. split; [done|]. by eapply Forall_impl.
  - destruct Ht as [? Ht]. split; [done|]. by eapply Forall_impl.
  - apply fits_tuple. apply fits_tuple in Ht. revert Ht. generalize l. clear -IH. induction IH as [|p ps Hp _ IHps]; intros l Hl.
    + by apply Forall2_nil_inv_l in Hl as ->.
    + apply Forall2_cons_inv_l in Hl as (t & l' & Ht & Hl & ->). constructor; auto.
Qed.
Lemma drawable_fits p t : drawable p t -> fits p t.
Proof. apply fits_impl. by intros b [? _]. Qed.

(** ** Bytes and words *)
Lemma from_be_app l b : from_be_bytes (l ++ [b]) = from_be_bytes l * 256 + b.
Proof. unfold from_be_bytes. by rewrite fold_left_app. Qed.
Lemma from_be_bound l : Forall is_byte l -> 0 <= from_be_bytes l < 256 ^ Z.of_nat (length l).
Proof.
  induction l as [|b l IH] using rev_ind; intros Hl; [done|]. apply Forall_app in Hl as [Hl Hb]. rewrite Forall_singleton in Hb. unfold is_byte in Hb.
  specialize (IH Hl). rewrite from_be_app, length_app, Nat2Z.inj_add, Z.pow_add_r by lia. change (Z.of_nat (length [b])) with 1. rewrite Z.pow_1_r. lia.
Qed.
Lemma to_be_bytes_ok n x : length (to_be_bytes n x) = n /\ Forall is_byte (to_be_bytes n x).
Proof.
  revert x. induction n as [|n IH]; intros x; [done|]. cbn. destruct (IH (Z.shiftr x 8)) as [Hl Hb]. rewrite length_app, Hl. cbn. split; [lia|].
  apply Forall_app. split; [done|]. constructor; [|done]. unfold is_byte. change 255 with (Z.ones 8). rewrite Z.land_ones by lia. apply Z.mod_pos_bound. lia.
Qed.
Lemma from_to_be_bytes n x : from_be_bytes (to_be_bytes n x) = x mod 256 ^ Z.of_nat n.
Proof.
  revert x. induction n as [|n IH]; intros x; [by rewrite Z.mod_1_r|]. cbn [to_be_bytes]. rewrite from_be_app, IH.
  change 255 with (Z.ones 8). rewrite Z.land_ones, Z.shiftr_div_pow2 by lia. rewrite Nat2Z.inj_succ, Z.pow_succ_r by lia.
  change (2 ^ 8) with 256. rewrite Z.rem_mul_r by lia. lia.
Qed.
Lemma is_byte_drop n l : Forall is_byte l -> Forall is_byte (drop n l).
Proof. apply Forall_drop. Qed.

(** ** Generated values *)
Lemma collect_Ret {A} (l : list A) : collect (map Ret l) = Ret l.
Proof. induction l as [|a l IH]; [done|]. cbn. by rewrite IH. Qed.
(** Outcomes that are all values of [Q]. *)
Lemma outcomes_values {A} (Q : A -> Prop) (l : list (exec A)) :
  Forall (fun r => exists a, r = Ret a /\ Q a) l <-> exists as_, l = map Ret as_ /\ Forall Q as_.
Proof.
  split.
  - induction 1 as [|r l (a & -> & Ha) _ (as_ & -> & Hl)]; [by exists []|]. exists (a :: as_). by split; [|constructor].
  - intros (as_ & -> & Hl). induction Hl; cbn; constructor; eauto.
Qed.

Section Generated.
Context `{!Proptest} `{!ProptestLaws} `{!FuzzLib}.

(** A strategy that never panics and generates exactly the values of [Q]. *)
Definition exactly {A} (s : Strategy A) (Q : A -> Prop) : Prop := forall r, generates s r <-> exists a, r = Ret a /\ Q a.
Lemma exactly_draw {D A} (P : D -> Prop) (f : D -> exec A) (Q : A -> Prop) :
  (forall d, P d -> exists a, f d = Ret a /\ Q a) -> (forall a, Q a -> exists d, P d /\ f d = Ret a) -> exactly (draw P f) Q.
Proof.
  intros Hret Hall r. rewrite generates_draw. split.
  - intros (d & Hd & ->). auto.
  - intros (a & -> & Ha). destruct (Hall a Ha) as (d & ? & <-). eauto.
Qed.
Lemma exactly_map {A B} (f : A -> B) s Q : exactly s Q -> exactly (pure_map f s) (fun b => exists a, b = f a /\ Q a).
Proof.
  intros Hs r. unfold pure_map. rewrite generates_map. split.
  - intros (o & Ho & ->). apply Hs in Ho as (a & -> & Ha). cbn. eauto 6.
  - intros (b & -> & a & -> & Ha). exists (Ret a). split; [by apply Hs; eauto|done].
Qed.
Lemma exactly_vec {A} (s : Strategy A) lo hi Q : exactly s Q -> exactly (vec_of s lo hi) (fun l => (lo <= length l < hi)%nat /\ Forall Q l).
Proof.
  intros Hs r. rewrite generates_vec. assert (forall l, Forall (generates s) l <-> exists as_, l = map Ret as_ /\ Forall Q as_) as Hl.
  { intros l. rewrite <- outcomes_values. split; intros Hf; eapply Forall_impl; [exact Hf|intros ? ?; by apply Hs|exact Hf|intros ? ?; by apply Hs]. }
  split.
  - intros (l & Hlen & Hg & ->). apply Hl in Hg as (as_ & -> & Hq). rewrite collect_Ret. rewrite length_map in Hlen. eauto.
  - intros (l & -> & Hlen & Hq). exists (map Ret l). rewrite collect_Ret, length_map. split; [done|]. split; [|done]. apply Hl. eauto.
Qed.
Lemma exactly_all {A T} (f : T -> Strategy A) (Q : T -> A -> Prop) l :
  Forall (fun t => exactly (f t) (Q t)) l -> exactly (all_of (map f l)) (Forall2 Q l).
Proof.
  intros Hs r. rewrite generates_all. assert (forall rs, Forall2 generates (map f l) rs <-> exists as_, rs = map Ret as_ /\ Forall2 Q l as_) as Hl.
  { induction Hs as [|t l Ht _ IH]; intros rs; cbn.
    - split; [intros ->%Forall2_nil_inv_l; by exists []|]. intros (as_ & -> & ->%Forall2_nil_inv_l). constructor.
    - split.
      + intros (r' & rs' & Hr & Hrs & ->)%Forall2_cons_inv_l. apply Ht in Hr as (a & -> & Ha). apply IH in Hrs as (as_ & -> & Has). exists (a :: as_). split; [done|]. by constructor.
      + intros (as_ & -> & (a & as' & Ha & Has & ->)%Forall2_cons_inv_l). cbn. constructor; [by apply Ht; eauto|]. apply IH. eauto. }
  split.
  - intros (rs & Hg & ->). apply Hl in Hg as (as_ & -> & Hq). rewrite collect_Ret. eauto.
  - intros (as_ & -> & Hq). exists (map Ret as_). rewrite collect_Ret. split; [|done]. apply Hl. eauto.
Qed.
Lemma exactly_proper {A} (s : Strategy A) (Q Q' : A -> Prop) : (forall a, Q a <-> Q' a) -> exactly s Q -> exactly s Q'.
Proof. intros HQ Hs r. split.
  - intros (a & -> & Ha)%Hs. exists a. by rewrite <- HQ.
  - intros (a & -> & Ha). apply Hs. exists a. by rewrite HQ.
 Qed.

(** [fuzz_param] generates exactly the values of the type, with arrays of less
    than 256 elements and byte strings of less than 100 bytes. *)
Lemma fuzz_param_exactly p : solidity p -> exactly (fuzz_param p) (drawable p).
Proof.
  revert p. refine (param_ind _ _ _ _ _); [intros []; try done|intros p IH|intros p size IH|intros ps IH]; intros Hv; cbn [fuzz_param].
  - eapply exactly_proper, exactly_map, (exactly_draw _ _ (fun l => Forall is_byte l /\ length l = 20%nat)); [|eauto|eauto].
    intros t. split.
    + intros (l & -> & Hl & Hlen). pose proof (from_be_bound l Hl) as Hb. rewrite Hlen in Hb. exact Hb.
    + destruct t as [a| | | | | | | | |]; try done. cbn [fits_with]. intros Ha. exists (to_be_bytes 20 a). destruct (to_be_bytes_ok 20 a) as [Hl Hb]. split; [|done].
      rewrite from_to_be_bytes, Z.mod_small; [done|]. exact Ha.
  - eapply exactly_proper, exactly_map, (exactly_draw _ _ (fun b => Forall is_byte b /\ (length b < DEFAULT_SIZE)%nat)); [|eauto|eauto]. intros t. split; [by intros (l & -> & Hl)|]. destruct t; try done. eauto.
  - destruct Hv as [Hn Hmod]. eapply exactly_proper, exactly_map, (exactly_draw _ _ (int_range n)).
    + intros t. split; [by intros (x & -> & Hx)|]. destruct t; try done. eauto.
    + intros d Hd. destruct (int_draw_returns n d) as (v & -> & Hr); [lia|done|]. cbn. eauto.
    + intros v Hv. apply int_drawn in Hv as (d & Hd & Ht); [|lia]. exists d. rewrite Ht. done.
  - destruct Hv as [Hn Hmod]. eapply exactly_proper, exactly_map, (exactly_draw _ _ (fun x => 0 <= x < 2 ^ n)).
    + intros t. split; [by intros (x & -> & Hx)|]. destruct t; try done. eauto.
    + intros d Hd. destruct (uint_draw_returns n d) as (v & Hr); [lia|done|]. exists v. rewrite Hr. split; [done|]. apply (uint_drawn n v ltac:(lia)). eauto.
    + intros v Hv. apply uint_drawn in Hv as (d & Hd & Ht); [|lia]. exists d. rewrite Ht. done.
  - eapply exactly_proper, exactly_map, (exactly_draw _ _ (fun _ => True)); [|eauto|eauto]. intros t. split; [by intros (l & -> & _)|]. destruct t; try done. eauto.
  - eapply exactly_proper, exactly_map, (exactly_draw _ _ (fun b => Forall is_byte b /\ (length b < DEFAULT_SIZE)%nat)); [|eauto|eauto]. intros t. split; [by intros (l & -> & Hl)|]. destruct t; try done. eauto.
  - eapply exactly_proper, exactly_map, exactly_vec, (exactly_draw _ _ is_byte); [|eauto|eauto]. intros t. split.
    + intros (l & -> & Hlen & Hl). cbn. split; [lia|done].
    + destruct t; try done. intros [Hlen Hl]. eexists. split; [done|]. split; [lia|done].
  - eapply exactly_proper, exactly_map, exactly_vec, IH, Hv. intros t. split; [intros (l & -> & Hlen & Hl); cbn; split; [lia|done]|].
    destruct t; try done. intros [Hlen Hl]. eexists. split; [done|]. split; [lia|done].
  - eapply exactly_proper, exactly_map, exactly_vec, IH, Hv. intros t. split; [intros (l & -> & Hlen & Hl); cbn; split; [lia|done]|].
    destruct t; try done. intros [Hlen Hl]. eexists. split; [done|]. split; [lia|done].
  - apply solidity_tuple in Hv. eapply exactly_proper, exactly_map, exactly_all.
    + intros t. split; [intros (l & -> & Hl); by apply fits_tuple|]. destruct t; try done. intros Hl. eexists. split; [done|]. by apply fits_tuple.
    + clear -IH Hv. induction Hv as [|p ps Hp _ IHps]; [constructor|]. apply Forall_cons in IH as [Hi IH]. constructor; auto.
Qed.

(** ** Values from the dictionary *)

(** A strategy that never panics and generates only values of [Q]. *)
Definition only {A} (s : Strategy A) (Q : A -> Prop) : Prop := forall r, generates s r -> exists a, r = Ret a /\ Q a.
Lemma only_map {A B} (f : A -> exec B) s (Q : A -> Prop) (Q' : B -> Prop) :
  only s Q -> (forall a, Q a -> exists b, f a = Ret b /\ Q' b) -> only (prop_map f s) Q'.
Proof. intros Hs Hf r. rewrite generates_map. intros (o & Ho & ->). apply Hs in Ho as (a & -> & Ha). cbn. auto. Qed.
Lemma only_pure {A B} (f : A -> B) s (Q : A -> Prop) (Q' : B -> Prop) : only s Q -> (forall a, Q a -> Q' (f a)) -> only (pure_map f s) Q'.
Proof. intros Hs Hf. apply (only_map _ _ Q); [done|]. intros a Ha. eauto. Qed.
Lemma only_vec {A} (s : Strategy A) lo hi Q : only s Q -> only (vec_of s lo hi) (fun l => (lo <= length l < hi)%nat /\ Forall Q l).
Proof.
  intros Hs r. rewrite generates_vec. intros (l & Hlen & Hg & ->).
  assert (Forall (fun r => exists a, r = Ret a /\ Q a) l) as Hl by (eapply Forall_impl; [exact Hg|intros ? ?; by apply Hs]).
  apply outcomes_values in Hl as (as_ & -> & Hq). rewrite collect_Ret. rewrite length_map in Hlen. eauto.
Qed.
Lemma only_all {A T} (Q : T -> A -> Prop) l (ss : list (Strategy A)) : Forall2 (fun t s => only s (Q t)) l ss -> only (all_of ss) (Forall2 Q l).
Proof.
  intros Hs r. rewrite generates_all. intros (rs & Hg & ->). assert (exists as_, rs = map Ret as_ /\ Forall2 Q l as_) as (as_ & -> & Hq).
  { revert rs Hg. induction Hs as [|t s l ss Ht _ IH]; intros rs Hg.
    - apply Forall2_nil_inv_l in Hg as ->. exists []. by split.
    - apply Forall2_cons_inv_l in Hg as (r' & rs' & Hr & Hrs & ->). apply Ht in Hr as (a & -> & Ha). apply IH in Hrs as (as_ & -> & Has).
      exists (a :: as_). split; [done|]. by constructor. }
  rewrite collect_Ret. eauto.
Qed.

(** A dictionary the strategies can draw from. *)
Definition usable (len : nat) (d : FuzzDictionary) : Prop := (0 < len <= size (state_values d))%nat /\ set_Forall is_u256 (state_values d).
Context `{!HashIter Z} (Hlossy : forall b, Forall is_byte b -> Forall is_byte (lossy_trimmed b)).

Lemma state_value_only len d : usable len d -> only (state_value len d) is_u256.
Proof.
  intros [Hlen Hw]. unfold state_value. apply (only_map _ _ (fun i => (i < len)%nat)).
  - intros r. rewrite generates_draw. intros (x & _ & ->). destruct (index_ok x len) as (i & -> & Hi); [lia|]. eauto.
  - intros i Hi. destruct (hash_iter (state_values d) !! i) as [v|] eqn:E.
    + exists v. split; [done|]. apply Hw, elem_of_hash_iter. by eapply list_elem_of_lookup_2.
    + apply lookup_ge_None in E. rewrite hash_iter_perm in E. unfold size, set_size in Hlen. cbn in Hlen. lia.
Qed.
Lemma int_of_word_ok y v : 1 <= y <= 31 -> int_range (y * 8) (int_of_word y v).
Proof.
  intros Hy. unfold int_of_word, int_range. pose proof (pow_bits (y * 8) ltac:(lia)) as [[_ Hmax] Hp].
  pose proof (Z.mod_pos_bound v (2 ^ (y * 8)) ltac:(lia)). set (m := 2 ^ (y * 8 - 1)) in *. set (u := v mod _) in *.
  assert (0 < m <= 2 ^ 247) by (unfold m; split; [lia|apply Z.pow_le_mono_r; lia]).
  unfold from_raw, I256_MAX. destruct (decide (m <= u)).
  - rewrite Z.mod_small by lia. replace (_ <=? _) with true by lia. lia.
  - rewrite <- (Z.mod_add (u - m) 1), Z.mod_small by lia. replace (_ <=? _) with false by lia. lia.
Qed.
Lemma from_raw_range v : is_u256 v -> int_range 256 (from_raw v).
Proof. unfold is_u256, int_range, from_raw, U256_MAX, I256_MAX. intros Hv. change (256 - 1) with 255. destruct (_ <=? _) eqn:E; lia. Qed.

Lemma collect_params len d ps :
  Forall (fun p => exists s, fuzz_param_from_state len d p = Ret s /\ only s (fits p)) ps ->
  exists ss, collect (map (fuzz_param_from_state len d) ps) = Ret ss /\ Forall2 (fun p s => only s (fits p)) ps ss.
Proof.
  induction 1 as [|p ps (s & Hs & Ho) _ (ss & Hc & Hss)]; [exists []; split; [done|constructor]|].
  exists (s :: ss). cbn. rewrite Hs, Hc. split; [done|by constructor].
Qed.
Lemma from_state_only len d : usable len d -> forall p, solidity p ->
  exists s, fuzz_param_from_state len d p = Ret s /\ only s (fits p).
Proof.
  intros Hd. pose proof (state_value_only len d Hd) as Hv.
  assert (forall n v, 0 <= n -> 0 <= v mod 2 ^ n < 2 ^ n) as Hmod by (intros; apply Z.mod_pos_bound; lia).
  refine (param_ind _ _ _ _ _); [intros []; try done|intros p IH|intros p size IH|intros ps IH]; intros Hs; cbn [fuzz_param_from_state].
  - eexists. split; [done|]. apply (only_pure _ _ _ _ Hv). intros v _. cbn [fits_with]. destruct (to_be_bytes_ok 32 v) as [Hl Hb].
    pose proof (from_be_bound _ (is_byte_drop 12 _ Hb)) as Hx. rewrite length_drop, Hl in Hx. exact Hx.
  - eexists. split; [done|]. apply (only_pure _ _ _ _ Hv). intros v _. apply to_be_bytes_ok.
  - destruct Hs as [Hn Hm]. pose proof (Z.div_mod n 8 ltac:(lia)) as Hq. destruct (n / 8 =? 32) eqn:E.
    + eexists. split; [done|]. apply (only_pure _ _ _ _ Hv). intros v Hx. cbn [fits_with]. assert (n = 256) as -> by lia. by apply from_raw_range.
    + replace ((1 <=? n / 8) && (n / 8 <=? 31)) with true by lia. eexists. split; [done|]. apply (only_pure _ _ _ _ Hv). intros v _. cbn [fits_with].
      replace n with (n / 8 * 8) at 1 by lia. apply int_of_word_ok. lia.
  - destruct Hs as [Hn Hm]. pose proof (Z.div_mod n 8 ltac:(lia)) as Hq. destruct (n / 8 =? 32) eqn:E.
    + eexists. split; [done|]. apply (only_pure _ _ _ _ Hv). intros v Hx. cbn [fits_with]. assert (n = 256) as -> by lia. unfold is_u256, U256_MAX in Hx. lia.
    + replace ((1 <=? n / 8) && (n / 8 <=? 31)) with true by lia. eexists. split; [done|]. apply (only_pure _ _ _ _ Hv). intros v _. cbn [fits_with].
      replace n with (n / 8 * 8) at 3 by lia. apply Hmod. lia.
  - eexists. split; [done|]. by apply (only_pure _ _ _ _ Hv).
  - eexists. split; [done|]. apply (only_pure _ _ _ _ Hv). intros v _. apply Hlossy, to_be_bytes_ok.
  - eexists. split; [done|]. cbn in Hs. apply (only_map _ _ _ _ Hv). intros v _. unfold last_bytes. rewrite (proj2 (Nat.leb_le _ 32)) by lia. cbn [mbind exec_bind].
    eexists. split; [done|]. destruct (to_be_bytes_ok 32 v) as [Hl Hb]. cbn [fits_with]. rewrite length_drop, Hl. split; [lia|]. by apply is_byte_drop.
  - destruct (IH Hs) as (s & -> & Ho). eexists. split; [done|]. apply (only_pure _ _ _ _ (only_vec _ _ _ _ Ho)). intros l [Hlen Hl]. cbn. split; [lia|done].
  - destruct (IH Hs) as (s & -> & Ho). eexists. split; [done|]. apply (only_pure _ _ _ _ (only_vec _ _ _ _ Ho)). intros l [Hlen Hl]. cbn. split; [lia|done].
  - apply solidity_tuple in Hs. destruct (collect_params len d ps) as (ss & Hc & Hss).
    { apply Forall_forall. intros p Hp. rewrite Forall_forall in IH, Hs. auto. }
    rewrite Hc. eexists. split; [done|]. apply (only_pure _ _ _ _ (only_all _ _ _ Hss)). intros l Hl. by apply fits_tuple.
Qed.

(** Call data of arguments that fit, and of arguments that are drawn at
    random. *)
Definition calldata_of (Q : ParamType -> Token -> Prop) (f : Function) (b : list byte) : Prop :=
  exists l, Forall2 Q (inputs f) l /\ encode_input f l = Some b.
Definition typed_calldata : Function -> list byte -> Prop := calldata_of fits.
Definition drawn_calldata : Function -> list byte -> Prop := calldata_of drawable.
Lemma drawn_typed f b : drawn_calldata f b -> typed_calldata f b.
Proof. intros (l & Hl & Hb). exists l. split; [|done]. eapply Forall2_impl; [exact Hl|]. apply drawable_fits. Qed.
Section Calldata.
Context (f : Function) (Hs : Forall solidity (inputs f)) (Henc : forall l, Forall2 fits (inputs f) l -> is_Some (encode_input f l)).
Lemma fuzz_calldata_exactly : exactly (fuzz_calldata f) (drawn_calldata f).
Proof.
  assert (exactly (all_of (map fuzz_param (inputs f))) (Forall2 drawable (inputs f))) as Hall.
  { apply exactly_all. eapply Forall_impl; [exact Hs|]. intros p Hp. by apply fuzz_param_exactly. }
  intros r. unfold fuzz_calldata. rewrite generates_map. split.
  - intros (o & Ho & ->). apply Hall in Ho as (l & -> & Hl). destruct (Henc l) as [b Hb]; [eapply Forall2_impl; [exact Hl|apply drawable_fits]|].
    exists b. cbn. rewrite Hb. split; [done|]. by exists l.
  - intros (b & -> & l & Hl & Hb). exists (Ret l). split; [apply Hall; eauto|]. cbn. by rewrite Hb.
Qed.
Lemma calldata_from_state_only len d : usable len d -> exists s, fuzz_calldata_from_state f len d = Ret s /\ only s (typed_calldata f).
Proof.
  intros Hd. unfold fuzz_calldata_from_state. destruct (collect_params len d (inputs f)) as (ss & -> & Hss).
  { eapply Forall_impl; [exact Hs|]. intros p. by apply from_state_only. }
  eexists. split; [done|]. apply (only_map _ _ _ _ (only_all _ _ _ Hss)). intros l Hl. destruct (Henc l Hl) as [b Hb]. exists b. rewrite Hb. split; [done|]. by exists l.
Qed.
End Calldata.

End Generated.

(** ** The dictionary *)
Section Dictionary.
Context `{!FuzzLib}.

(** The words that the instructions among the first [limit] bytes push, each
    with its neighbours, read off the code from left to right. *)
Fixpoint pushed (skip limit : nat) (code : list byte) {struct code} : list Z :=
  match code, limit with
  | op :: rest, S limit =>
      match skip with
      | S skip => pushed skip limit rest
      | O =>
          if is_push op then
            let n := Z.to_nat (op - PUSH1 + 1) in
            if (n <=? length rest)%nat then with_neighbours (from_be_bytes (take n rest)) ++ pushed n limit rest else []
          else pushed 0 limit rest
      end
  | _, _ => []
  end.
Lemma pushed_skip n limit code : pushed n limit code = pushed 0 (limit - n) (drop n code).
Proof.
  revert limit code. induction n as [|n IH]; intros limit code; [by rewrite Nat.sub_0_r|].
  destruct code as [|op rest]; [done|]. destruct limit as [|limit]; [|apply IH].
  cbn. by destruct (drop n rest).
Qed.
Lemma push_loop_pushed code fuel i acc :
  (length code - i < fuel)%nat -> push_loop fuel code i acc = acc ++ pushed 0 (PUSH_BYTE_ANALYSIS_LIMIT - i) (drop i code).
Proof.
  revert i acc. induction fuel as [|fuel IH]; intros i acc Hf; [lia|]. cbn [push_loop]. destruct (i <? _)%nat eqn:E.
  - apply Nat.ltb_lt in E. assert (drop i code = nth i code 0 :: drop (S i) code) as Hd.
    { destruct (lookup_lt_is_Some_2 code i ltac:(lia)) as [op Hop]. rewrite (drop_S _ _ _ Hop). f_equal. symmetry. by apply nth_lookup_Some with (d := 0) in Hop. }
    rewrite Hd. replace (PUSH_BYTE_ANALYSIS_LIMIT - i)%nat with (S (PUSH_BYTE_ANALYSIS_LIMIT - S i)) by lia. cbn [pushed].
    destruct (is_push _).
    + set (n := Z.to_nat _). rewrite length_drop. replace (i + 1)%nat with (S i) by lia. destruct (n <=? length code - S i)%nat eqn:En.
      * apply Nat.leb_le in En. replace (_ || _) with false by (symmetry; apply orb_false_intro; apply Nat.ltb_ge; lia).
        rewrite IH by lia. rewrite <- app_assoc, (pushed_skip n), drop_drop. replace (i + n + 1)%nat with (S i + n)%nat by lia. by rewrite Nat.sub_add_distr.
      * apply Nat.leb_gt in En. replace (_ || _) with true by (symmetry; apply orb_true_intro; right; apply Nat.ltb_lt; lia). by rewrite app_nil_r.
    + replace (i + 1)%nat with (S i) by lia. apply IH. lia.
  - apply Nat.ltb_ge in E. assert (pushed 0 (PUSH_BYTE_ANALYSIS_LIMIT - i) (drop i code) = []) as ->; [|by rewrite app_nil_r].
    destruct (decide (length code <= i)%nat); [by rewrite drop_ge by lia|]. replace (PUSH_BYTE_ANALYSIS_LIMIT - i)%nat with 0%nat by lia. by destruct (drop i code).
Qed.
Lemma collect_push_bytes_pushed code : collect_push_bytes code = pushed 0 PUSH_BYTE_ANALYSIS_LIMIT code.
Proof. unfold collect_push_bytes. rewrite push_loop_pushed by lia. by rewrite Nat.sub_0_r. Qed.

Lemma elem_insert_values l d v : v ∈ state_values (insert_values l d) <-> v ∈ l \/ v ∈ state_values d.
Proof.
  unfold insert_values. revert d. induction l as [|x l IH]; intros d; cbn; [set_solver|]. rewrite IH. cbn. set_solver.
Qed.
Lemma addresses_insert_values l d : addresses (insert_values l d) = addresses d.
Proof. unfold insert_values. revert d. induction l as [|x l IH]; intros d; cbn; [done|]. by rewrite IH. Qed.

(** What an account contributes. *)
Definition slot_words (entry : Z * Z) : list Z := entry.1 :: with_neighbours entry.2.
Definition code_words (account : FuzzAccount) : list Z :=
  match AccountInfo.code (fa_info account) with Some code => pushed 0 PUSH_BYTE_ANALYSIS_LIMIT code | None => [] end.
Definition account_words (config : FuzzDictionaryConfig) (entry : Address * FuzzAccount) : list Z :=
  entry.1 :: (if include_push_bytes config then code_words entry.2 else []) ++
  (if include_storage config then fa_storage entry.2 ≫= slot_words else []).
Lemma elem_slots l d v : v ∈ state_values (fold_left insert_slot_values l d) <-> v ∈ l ≫= slot_words \/ v ∈ state_values d.
Proof.
  revert d. induction l as [|e l IH]; intros d; cbn; [set_solver|]. rewrite IH. unfold insert_slot_values. rewrite elem_insert_values. unfold slot_words. set_solver.
Qed.
Lemma addresses_slots l d : addresses (fold_left insert_slot_values l d) = addresses d.
Proof. revert d. induction l as [|e l IH]; intros d; cbn; [done|]. rewrite IH. exact (addresses_insert_values (slot_words e) d). Qed.
Lemma elem_code a account d v :
  a ∉ addresses d -> v ∈ state_values (collect_code a (AccountInfo.code (fa_info account)) d) <-> v ∈ code_words account \/ v ∈ state_values d.
Proof.
  intros Ha. unfold collect_code, code_words, insert_address. destruct (AccountInfo.code _) as [code|]; [|set_solver].
  rewrite bool_decide_true by done. rewrite elem_insert_values, collect_push_bytes_pushed. done.
Qed.
Lemma addresses_code a code d : addresses (collect_code a code d) ⊆ {[a]} ∪ addresses d.
Proof. unfold collect_code, insert_address. destruct code; [|set_solver]. destruct (bool_decide _); [rewrite addresses_insert_values|]; cbn; set_solver. Qed.

(** The dictionary of a fuzz test starts with exactly the addresses of the
    accounts of its database, the words their code pushes in its first 24 KiB
    and the slots and values of their storage, pushed words and values
    together with the words next to them, as far as the configuration wants
    them; and it is never empty. *)
Theorem initial_dictionary_exact random accounts config :
  NoDup accounts.*1 ->
  let d := build_initial_state random accounts config in
  state_values d <> ∅ /\
  forall v, v ∈ state_values d <-> v ∈ accounts ≫= account_words config \/ (accounts = [] /\ v = random).
Proof.
  intros Hnd. cbn. assert (forall d0, Forall (fun e => e.1 ∉ addresses d0) accounts ->
    forall v, v ∈ state_values (fold_left (initial_account config) accounts d0) <-> v ∈ accounts ≫= account_words config \/ v ∈ state_values d0) as Hel.
  { induction accounts as [|[a acc] accounts IH]; intros d0 Hd v; cbn [fold_left mbind list_bind]; [set_solver|].
    apply Forall_cons in Hd as [Ha Hd]. apply NoDup_cons in Hnd as [Hna Hnd]. rewrite IH; [|done|].
    - rewrite elem_of_app. unfold account_words at 2. cbn. destruct (include_storage config).
      + rewrite elem_slots. destruct (include_push_bytes config); [rewrite elem_code by done|]; cbn; set_solver.
      + destruct (include_push_bytes config); [rewrite elem_code by done|]; cbn; set_solver.
    - apply Forall_forall. intros [b accb] Hb. cbn in *. rewrite Forall_forall in Hd. specialize (Hd _ Hb). cbn in Hd.
      assert (b <> a) as Hne by (intros ->; apply Hna; by apply list_elem_of_fmap_2' with (x := (a, accb))).
      destruct (include_storage config); [rewrite addresses_slots|]; (destruct (include_push_bytes config); [|done]); intros Hin; apply addresses_code in Hin; set_solver. }
  specialize (Hel dictionary_default). unfold build_initial_state. destruct (decide _) as [He|Hne].
  - assert (accounts = []) as ->.
    { destruct accounts as [|[a acc] accounts]; [done|]. exfalso. assert (a ∈ (∅ : gset Z)) as Hin; [|set_solver]. rewrite <- He. apply Hel; [|set_solver].
      apply Forall_forall. cbn. set_solver. }
    cbn. split; [set_solver|]. intros v. set_solver.
  - split; [done|]. intros v. rewrite Hel by (apply Forall_forall; cbn; set_solver). cbn.
    split; [set_solver|]. intros [?|[-> ?]]; [by left|]. by destruct Hne.
Qed.

(** ** Growth *)

(** Words of 256 bits go in, and none goes out. *)
Definition grows (d d' : FuzzDictionary) : Prop :=
  state_values d ⊆ state_values d' /\ (set_Forall is_u256 (state_values d) -> set_Forall is_u256 (state_values d')).
#[local] Instance grows_preorder : PreOrder grows.
Proof. split; [by intros d; split|]. intros d1 d2 d3 [? ?] [? ?]. split; [set_solver|auto]. Qed.
Lemma insert_values_grows l d : Forall is_u256 l -> grows d (insert_values l d).
Proof.
  intros Hl. split; [intros v Hv; apply elem_insert_values; by right|]. intros Hd v [Hv|Hv]%elem_insert_values; [|by apply Hd].
  rewrite Forall_forall in Hl. auto.
Qed.
Lemma fold_grows {A} (f : FuzzDictionary -> A -> FuzzDictionary) l d : Forall (fun a => forall d, grows d (f d a)) l -> grows d (fold_left f l d).
Proof. intros Hl. revert d. induction Hl as [|a l Ha _ IH]; intros d; cbn; [reflexivity|]. etrans; [apply Ha|apply IH]. Qed.
Lemma neighbours_u256 v : is_u256 v -> Forall is_u256 (with_neighbours v).
Proof.
  intros Hv. unfold with_neighbours, is_u256 in *. constructor; [done|]. apply Forall_app. split; [destruct (v =? 0) eqn:E|destruct (v =? U256_MAX) eqn:E]; repeat constructor; lia.
Qed.
Context (Hpush : forall op, is_push op = true -> PUSH1 <= op <= PUSH1 + 31).
Lemma from_be_u256 l : Forall is_byte l -> (length l <= 32)%nat -> is_u256 (from_be_bytes l).
Proof.
  intros Hl Hlen. pose proof (from_be_bound l Hl). unfold is_u256, U256_MAX. pose proof (Z.pow_le_mono_r 256 (Z.of_nat (length l)) 32 ltac:(lia) ltac:(lia)).
  change (2 ^ 256) with (256 ^ 32). lia.
Qed.
Lemma pushed_u256 skip limit code : Forall is_byte code -> Forall is_u256 (pushed skip limit code).
Proof.
  intros Hc. revert skip limit. induction Hc as [|op rest Hop Hrest IH]; intros skip [|limit]; cbn [pushed]; try constructor.
  destruct skip as [|skip]; [|apply IH]. destruct (is_push op) eqn:E; [|apply IH]. apply Hpush in E. unfold PUSH1 in *.
  destruct (_ <=? _)%nat; [|constructor]. apply Forall_app. split; [|apply IH]. apply neighbours_u256, from_be_u256; [by apply Forall_take|].
  rewrite length_take. lia.
Qed.
Lemma chunk_words_u256 fuel data : Forall is_byte data -> Forall is_u256 (chunk_words fuel data).
Proof.
  revert data. induction fuel as [|fuel IH]; intros data Hd; [constructor|]. destruct data as [|b data]; [constructor|]. cbn [chunk_words].
  constructor; [|apply IH; by apply Forall_drop]. apply from_be_u256; [|rewrite length_take; lia].
  apply Forall_take, Forall_app. split; [done|]. apply Forall_replicate. unfold is_byte. lia.
Qed.

(** Data as the EVM has them. *)
Definition account_ok (e : Address * FuzzAccount) : Prop :=
  is_u256 e.1 /\ Forall (fun s => is_u256 s.1 /\ is_u256 s.2) (fa_storage e.2) /\
  (forall code, AccountInfo.code (fa_info e.2) = Some code -> Forall is_byte code).
Definition log_ok (l : FuzzLog) : Prop := Forall is_u256 (fl_topics l) /\ Forall is_byte (fl_data l).
Lemma insert_value_grows v d : is_u256 v -> grows d (insert_value v d).
Proof. intros Hv. apply (insert_values_grows [v]). by apply Forall_singleton. Qed.
Lemma collect_code_grows a code d : (forall c, code = Some c -> Forall is_byte c) -> grows d (collect_code a code d).
Proof.
  intros Hc. unfold collect_code, insert_address. destruct code as [c|]; [|reflexivity]. destruct (bool_decide _); [|by split].
  etrans; [|apply insert_values_grows; rewrite collect_push_bytes_pushed; apply pushed_u256; by apply Hc]. by split.
Qed.
Lemma slots_grow l d : Forall (fun s => is_u256 s.1 /\ is_u256 s.2) l -> grows d (fold_left insert_slot_values l d).
Proof.
  intros Hl. apply fold_grows. eapply Forall_impl; [exact Hl|]. intros [slot v] [? ?] d'. apply insert_values_grows. constructor; [done|]. by apply neighbours_u256.
Qed.
Lemma logs_grow l d : Forall log_ok l -> grows d (fold_left insert_log l d).
Proof.
  intros Hl. apply fold_grows. eapply Forall_impl; [exact Hl|]. intros log [? ?] d'. apply insert_values_grows, Forall_app. split; [done|]. by apply chunk_words_u256.
Qed.
Lemma collect_state_grows logs changes config d : Forall log_ok logs -> Forall account_ok changes -> grows d (collect_state_from_call logs changes config d).
Proof.
  intros Hl Hc. revert d. induction Hc as [|[a acc] changes (Ha & Hs & Hcode) _ IH]; intros d; cbn [collect_state_from_call]; [reflexivity|]. cbn in Ha, Hs, Hcode.
  set (d1 := if _ && _ then collect_code _ _ _ else _). assert (grows d d1) as Hd1.
  { etrans; [apply (insert_value_grows a); done|]. unfold d1. destruct (_ && _); [by apply collect_code_grows|reflexivity]. }
  clearbody d1. destruct (_ && _); [|exact Hd1]. etrans; [exact Hd1|]. etrans; [by apply slots_grow|]. etrans; [by apply logs_grow|]. apply IH.
Qed.

(** A strategy that was built on a dictionary can draw from it forever:
    however many calls, with whatever changes and logs, and however many
    stacks are collected in between, the dictionary keeps its words, holds
    words of 256 bits only, and stays as large as it was. *)
Theorem dictionary_stays_usable len d (ops : list (list FuzzLog * list (Address * FuzzAccount) * FuzzDictionaryConfig + list Z)) :
  usable len d ->
  Forall (fun o => match o with inl (logs, changes, _) => Forall log_ok logs /\ Forall account_ok changes | inr stack => Forall is_u256 stack end) ops ->
  let d' := fold_left (fun d o => match o with inl (logs, changes, config) => collect_state_from_call logs changes config d | inr stack => collect_stack stack d end) ops d in
  usable len d' /\ state_values d ⊆ state_values d'.
Proof.
  intros [Hlen Hd] Hops d'. assert (grows d d') as [Hsub Hw].
  { apply fold_grows. eapply Forall_impl; [exact Hops|]. intros [[[logs changes] config]|stack]; [intros [? ?] d0; by apply collect_state_grows|].
    intros Hs d0. by apply insert_values_grows. }
  split; [|done]. split; [|auto]. apply subseteq_size in Hsub. lia.
Qed.

(** Without storage values no log is looked at, and no account after the
    first one. *)
Theorem no_storage_no_logs logs a account changes config d :
  include_storage config = false ->
  collect_state_from_call logs ((a, account) :: changes) config d = collect_state_from_call [] [(a, account)] config d.
Proof. intros Hs. cbn [collect_state_from_call]. by rewrite Hs. Qed.
End Dictionary.
