(* ===== verification/Invariant.v ===== *)
(** * Invariant tests (evm/src/fuzz/invariant, evm/src/fuzz/strategies/invariants.rs)

    The choice of contracts, functions and senders, the runs that look for a
    sequence of calls that breaks an invariant, and what is done with such a
    sequence.  The executor is an interface; a state change set is a map that
    is gone through in some order. *)
From S2P Require Import ForkBackend CheatHooks Prelude Transaction Hardfork Db Mapping FuzzInt Fuzz.
Open Scope Z_scope.

(** ** Data *)
Abbreviation FuzzAbi := (list Function) (only parsing).
(** (sender, (target contract, call data)) *)
Abbreviation BasicTxDetails := (Address * (Address * list byte))%type (only parsing).
Abbreviation StateChangeset := (gmap Address FuzzAccount) (only parsing).
Record RawCallResult := mkRawCall {
  rc_reverted : bool; rc_result : list byte; rc_gas_used : Z; rc_stipend : Z; rc_logs : list FuzzLog;
  rc_changes : option StateChangeset; rc_exit_reason : Z }.
Record InvariantContract := mkInvariantContract { ic_address : Address; invariant_functions : list Function; ic_abi : FuzzAbi }.
Record FuzzCase := mkFuzzCase { fc_calldata : list byte; fc_gas : Z; fc_stipend : Z }.

(** The executor of the tests, with the fuzzer as one of its inspectors.
    [call_raw] leaves no change, [commit] writes the changes of a call,
    [call_raw_committing] is both; [is_success] tells whether a call to a test
    contract succeeded.  The fuzzer's call generator, if it has one, draws a
    choice for each of certain inner calls: to leave it or to put another in its
    place.  The first argument of [call_raw] and [is_success] are the choices it
    draws while they run, none if there is no generator; [replay_inner] makes the
    generator give choices that were recorded.  The words that the fuzzer takes
    from the stack into the dictionary are left out. *)
Class FuzzEvm := {
  Executor : Type;
  call_raw : list (option BasicTxDetails) -> Executor -> Address -> Address -> list byte -> result RawCallResult string;
  commit : StateChangeset -> Executor -> Executor;
  call_raw_committing : Executor -> Address -> Address -> list byte -> result (RawCallResult * Executor) string;
  is_success : list (option BasicTxDetails) -> Executor -> Address -> bool -> StateChangeset -> bool -> bool;
  replay_inner : list (option BasicTxDetails) -> Executor -> Executor;
  decode_revert : list byte -> FuzzAbi -> Z -> result string string }.

(** The call generator, shared by all clones of the executor: what it will draw
    in the uses of the EVM to come, and [last_sequence], all it has drawn.  There
    is none unless [call_override] is on. *)
Record Generator := mkInnerCalls { to_draw : list (list (option BasicTxDetails)); drawn_calls : list (option BasicTxDetails) }.
Definition draw_inner (g : option Generator) : list (option BasicTxDetails) * option Generator :=
  match g with
  | Some (mkInnerCalls (d :: rest) seq) => (d, Some (mkInnerCalls rest (seq ++ d)))
  | _ => ([], g)
  end.

Inductive TestError := Abort_ (reason : string) | FailWith (reason : string) (calls : list BasicTxDetails).
Record InvariantFuzzError := mkInvariantError {
  ife_logs : list FuzzLog; test_error : TestError; revert_reason : string; ife_addr : Address; ife_func : option (list byte);
  inner_sequence : list (option BasicTxDetails); ife_shrink : bool }.
Record InvariantFailures := mkFailures {
  last_revert_reason : option string; reverts : nat; broken_invariants_count : nat;
  failed_invariants : gmap string (option InvariantFuzzError) }.
Definition failures_new (invariants : list Function) : InvariantFailures :=
  mkFailures None 0 0 (list_to_map ((fun f => (fn_name f, None)) <$> invariants)).

(** ** Filters *)

(** [SenderFilters::new] *)
Record SenderFilters := mkSenders { sf_targeted : list Address; sf_excluded : list Address }.
Definition senders_new (targeted excluded : list Address) : SenderFilters :=
  let excluded := if decide (0 ∈ excluded) then excluded else excluded ++ [0] in
  mkSenders (filter (fun a => a ∉ excluded) targeted) excluded.

Record ArtifactId := mkArtifact { art_name : string; identifier : string }.
Abbreviation ContractsByArtifact := (list (ArtifactId * (FuzzAbi * list byte))) (only parsing).
Abbreviation ContractsByAddress := (gmap Address (string * FuzzAbi)) (only parsing).
Abbreviation TargetedContracts := (gmap Address (string * FuzzAbi * list Function)) (only parsing).
Record ArtifactFilters := mkFilters { af_targeted : gmap string (list (list byte)); af_excluded : list string }.

Definition get_function (contract_name : string) (selector : list byte) (abi : FuzzAbi) : result Function string :=
  match find (fun f => bool_decide (fn_selector f = selector)) abi with
  | Some f => Ok f
  | None => Err (contract_name +:+ " does not have the selector")
  end.
Fixpoint get_functions (contract_name : string) (selectors : list (list byte)) (abi : FuzzAbi) : result (list Function) string :=
  match selectors with
  | [] => Ok []
  | s :: selectors =>
      match get_function contract_name s abi with
      | Err e => Err e
      | Ok f => match get_functions contract_name selectors abi with Err e => Err e | Ok l => Ok (f :: l) end
      end
  end.
Definition get_targeted_functions (filters : ArtifactFilters) (artifact : ArtifactId) (abi : FuzzAbi) : result (option (list Function)) string :=
  match af_targeted filters !! identifier artifact with
  | Some selectors =>
      match get_functions (art_name artifact) selectors abi with
      | Err e => Err e
      | Ok functions =>
          if bool_decide (functions = []) && bool_decide (identifier artifact ∈ af_excluded filters) then Ok None else Ok (Some functions)
      end
  | None =>
      if bool_decide (af_targeted filters = ∅) && bool_decide (identifier artifact ∉ af_excluded filters) then Ok (Some []) else Ok None
  end.

(** [ContractsByArtifact::find_by_code]: less than a tenth of the bytes of the
    shorter code differ. *)
Fixpoint diff_chars (a b : list byte) : nat :=
  match a, b with
  | x :: a, y :: b => Nat.add (if x =? y then 0 else 1) (diff_chars a b)
  | _, _ => 0%nat
  end.
Definition same_code (a b : list byte) : bool :=
  let cutoff_len := Nat.min (length a) (length b) in
  (0 <? cutoff_len)%nat && (10 * diff_chars a b <? cutoff_len)%nat.
Definition find_by_code (contracts : ContractsByArtifact) (code : list byte) : option (ArtifactId * (FuzzAbi * list byte)) :=
  find (fun c => same_code c.2.2 code) contracts.
Definition find_by_name_or_identifier (contracts : ContractsByArtifact) (id : string) : result (option (ArtifactId * (FuzzAbi * list byte))) string :=
  match filter (fun c => art_name c.1 = id \/ identifier c.1 = id) contracts with
  | _ :: _ :: _ => Err (id +:+ " has more than one implementation.")
  | l => Ok (head l)
  end.

Definition is_mutable (f : Function) : bool := match state_mutability f with Pure | View => false | _ => true end.

(** ** Which contracts are fuzzed *)

(** What the test contract's [target...] and [exclude...] functions return. *)
Record Selection := mkSelection {
  target_artifact_selectors : list (string * list (list byte)); target_artifacts : list string; exclude_artifacts : list string;
  target_senders : list Address; exclude_senders : list Address; target_contracts : list Address; exclude_contracts : list Address;
  target_selectors : list (Address * list (list byte)) }.

(** [?] in a loop leaves the function with the error, and what was written. *)
Definition fold_try {A S E} (f : A -> S -> result S E) : list A -> S -> result S E :=
  fix go l s := match l with [] => Ok s | a :: l => match f a s with Ok s => go l s | Err e => Err e end end.

Definition validate_selected_contract (project : ContractsByArtifact) (contract : string) (selectors : list (list byte)) : result string string :=
  match find_by_name_or_identifier project contract with
  | Err e => Err e
  | Ok None => Err (contract +:+ " not found in the project. Allowed format: `contract_name` or `contract_path:contract_name`.")
  | Ok (Some (artifact, (abi, _))) =>
      match fold_try (fun s (_ : unit) => match get_function contract s abi with Ok _ => Ok tt | Err e => Err e end) selectors tt with
      | Err e => Err e
      | Ok _ => Ok (identifier artifact)
      end
  end.
Definition target_selectors_of (project : ContractsByArtifact) (entry : string * list (list byte)) (filters : ArtifactFilters) : result ArtifactFilters string :=
  match validate_selected_contract project entry.1 entry.2 with
  | Err e => Err e
  | Ok id => Ok (mkFilters (<[id := default [] (af_targeted filters !! id) ++ entry.2]> (af_targeted filters)) (af_excluded filters))
  end.
Definition exclude (id : string) (filters : ArtifactFilters) : ArtifactFilters :=
  if decide (id ∈ af_excluded filters) then filters else mkFilters (af_targeted filters) (af_excluded filters ++ [id]).
Definition exclude_artifact (project : ContractsByArtifact) (contract : string) (filters : ArtifactFilters) : result ArtifactFilters string :=
  match validate_selected_contract project contract [] with Err e => Err e | Ok id => Ok (exclude id filters) end.
Definition exclude_immutable (filters : ArtifactFilters) (c : ArtifactId * (FuzzAbi * list byte)) : ArtifactFilters :=
  if bool_decide (filter (fun f => is_mutable f = true) c.2.1 = []) then exclude (identifier c.1) filters else filters.
Definition target_artifact (project : ContractsByArtifact) (contract : string) (filters : ArtifactFilters) : result ArtifactFilters string :=
  match validate_selected_contract project contract [] with
  | Err e => Err e
  | Ok id =>
      Ok (if bool_decide (is_Some (af_targeted filters !! id)) || bool_decide (id ∈ af_excluded filters) then filters
          else mkFilters (<[id := []]> (af_targeted filters)) (af_excluded filters))
  end.
(** The selectors are a [BTreeMap]: the last entry of a contract counts, and
    the contracts come in the order of their names, which does not matter. *)
Definition select_contract_artifacts (project : ContractsByArtifact) (sel : Selection) (filters : ArtifactFilters) : result ArtifactFilters string :=
  let targeted_abi := map_to_list (list_to_map (reverse (target_artifact_selectors sel)) : gmap string (list (list byte))) in
  match fold_try (target_selectors_of project) targeted_abi filters with
  | Err e => Err e
  | Ok filters =>
      match fold_try (exclude_artifact project) (exclude_artifacts sel) filters with
      | Err e => Err e
      | Ok filters => fold_try (target_artifact project) (target_artifacts sel) (fold_left exclude_immutable project filters)
      end
  end.

Definition add_address_with_functions (setup : ContractsByAddress) (entry : Address * list (list byte)) (targets : TargetedContracts) : result TargetedContracts string :=
  let '(address, selectors) := entry in
  match targets !! address with
  | Some (name, abi, functions) =>
      match get_functions name selectors abi with
      | Err e => Err e
      | Ok l => Ok (<[address := (name, abi, functions ++ l)]> targets)
      end
  | None =>
      match setup !! address with
      | None => Err "[targetSelectors] address does not have an associated contract"
      | Some (name, abi) =>
          match get_functions name selectors abi with
          | Err e => Err e
          | Ok l => Ok (<[address := (name, abi, l)]> targets)
          end
      end
  end.
Definition select_selectors (filters : ArtifactFilters) (setup : ContractsByAddress) (sel : Selection) (targets : TargetedContracts) : result TargetedContracts string :=
  let from_artifacts := omap (fun c : Address * (string * FuzzAbi) =>
      match af_targeted filters !! c.2.1 with Some (_ :: _ as selectors) => Some (c.1, selectors) | _ => None end) (map_to_list setup) in
  match fold_try (add_address_with_functions setup) from_artifacts targets with
  | Err e => Err e
  | Ok targets => fold_try (add_address_with_functions setup) (target_selectors sel) targets
  end.
Definition selected (filters : ArtifactFilters) (invariant_address : Address) (sel : Selection) (c : Address * (string * FuzzAbi)) : Prop :=
  c.1 <> invariant_address /\ c.1 <> CHEATCODE_ADDRESS /\ c.1 <> HARDHAT_CONSOLE_ADDRESS /\
  (target_contracts sel = [] \/ c.1 ∈ target_contracts sel) /\
  (af_targeted filters = ∅ \/ is_Some (af_targeted filters !! c.2.1)) /\
  (exclude_contracts sel = [] \/ c.1 ∉ exclude_contracts sel) /\
  (af_excluded filters = [] \/ c.2.1 ∉ af_excluded filters).
#[export] Instance selected_dec filters a sel c : Decision (selected filters a sel c) := _.
Definition select_contracts_and_senders (filters : ArtifactFilters) (setup : ContractsByAddress) (invariant_address : Address) (sel : Selection)
    : result (SenderFilters * TargetedContracts) string :=
  let contracts : TargetedContracts := (fun c => (c.1, c.2, [])) <$> filter (selected filters invariant_address sel) setup in
  match select_selectors filters setup sel contracts with
  | Err e => Err e
  | Ok contracts => Ok (senders_new (target_senders sel) (exclude_senders sel), contracts)
  end.

(** [prepare_fuzzing], up to the strategies it builds from its result:
    [accounts] are those of the in-memory database. *)
Definition prepare_fuzzing `{!FuzzLib} (project : ContractsByArtifact) (setup : ContractsByAddress) (sel : Selection) (invariant_address : Address)
    (random_address : Address) (accounts : list (Address * FuzzAccount)) (config : FuzzDictionaryConfig) (filters : ArtifactFilters)
    : result (FuzzDictionary * TargetedContracts * SenderFilters * ArtifactFilters) string :=
  match select_contract_artifacts project sel filters with
  | Err e => Err e
  | Ok filters =>
      match select_contracts_and_senders filters setup invariant_address sel with
      | Err e => Err e
      | Ok (senders, targets) =>
          if bool_decide (targets = ∅) then Err "No contracts to fuzz."%string
          else Ok (build_initial_state random_address accounts config, targets, senders, filters)
      end
  end.

Section Invariant.
Context `{!Proptest} `{!FuzzLib} `{!HashIter Z} `{!FuzzEvm}.

(** ** Strategies for calls *)
Definition u32_sub (a b : Z) : exec Z := if decide (b <= a) then Ret (a - b) else Panic "attempt to subtract with overflow".
Definition into_address (t : Token) : exec Address :=
  match t with TAddress a => Ret a | _ => Panic "called `Option::unwrap()` on a `None` value" end.
Definition select_random_sender (st : FuzzDictionary) (senders : SenderFilters) (weight : Z) : exec (Strategy Address) :=
  other ← u32_sub 100 weight;
  from_state ← fuzz_param_from_state (size (state_values st)) st PAddress;
  fuzz_strategy ← union [(other, prop_map into_address (fuzz_param PAddress)); (weight, prop_map into_address from_state)];
  let fuzz_strategy := prop_filter (fun a => bool_decide (a ∉ sf_excluded senders)) fuzz_strategy in
  match sf_targeted senders with
  | [] => Ret fuzz_strategy
  | targeted => Ret (select targeted)
  end.
Definition select_random_contract (targets : TargetedContracts) : Strategy (Address * FuzzAbi * list Function) :=
  pure_map (fun c : Address * (string * FuzzAbi * list Function) => (c.1, c.2.1.2, c.2.2))
    (select (filter (fun c => c.2.1.2 <> []) (map_to_list targets))).
Definition select_random_function (abi : FuzzAbi) (targeted_functions : list Function) : Strategy Function :=
  match targeted_functions with
  | [] => select (filter (fun f => is_mutable f = true) abi)
  | l => select l
  end.
Definition fuzz_contract_with_calldata (st : FuzzDictionary) (contract : Address) (func : Function) : exec (Strategy (Address * list byte)) :=
  from_state ← fuzz_calldata_from_state func (size (state_values st)) st;
  s ← union [(60, fuzz_calldata func); (40, from_state)];
  Ret (pure_map (fun calldata => (contract, calldata)) s).
Definition generate_call (st : FuzzDictionary) (senders : SenderFilters) (targets : TargetedContracts) (weight : Z) : Strategy BasicTxDetails :=
  prop_flat_map (fun '(contract, abi, functions) =>
      Ret (prop_flat_map (fun func =>
             sender ← select_random_sender st senders weight;
             calldata ← fuzz_contract_with_calldata st contract func;
             Ret (both sender calldata))
           (select_random_function abi functions)))
    (select_random_contract targets).
Definition invariant_strat (st : FuzzDictionary) (senders : SenderFilters) (targets : TargetedContracts) (weight : Z) : Strategy (list BasicTxDetails) :=
  pure_map (fun x => [x]) (generate_call st senders targets weight).
(** [override_call_strat]: mostly the contract that made the call. *)
Definition override_call_strat (st : FuzzDictionary) (targets : TargetedContracts) (target : Address) : exec (Strategy (Address * list byte)) :=
  s ← union [(80, draw (fun _ : unit => True) (fun _ => Ret target)); (20, select (map_to_list targets).*1)];
  Ret (prop_flat_map (fun a =>
         '(_, abi, functions) ← expect (targets !! a) "called `Option::unwrap()` on a `None` value";
         Ret (prop_flat_map (fun func => fuzz_contract_with_calldata st a func) (select_random_function abi functions))) s).

(** ** Checking the invariants *)
Definition error_new (ic : InvariantContract) (error_func : option Function) (calldata : list BasicTxDetails) (res : RawCallResult)
    (inner : list (option BasicTxDetails)) (shrink_sequence : bool) : InvariantFuzzError :=
  let decoded := decode_revert (rc_result res) (ic_abi ic) (rc_exit_reason res) in
  let origin := match error_func with Some f => fn_name f | None => "Revert"%string end in
  let reason := match decoded with Ok e | Err e => e end in
  mkInvariantError (rc_logs res) (FailWith (origin +:+ ", reason: '" +:+ reason +:+ "'") calldata)
    (match decoded with Ok e => e | Err _ => "" end) (ic_address ic) (fn_selector <$> error_func) inner shrink_sequence.
Definition take_changes (res : RawCallResult) : RawCallResult :=
  mkRawCall (rc_reverted res) (rc_result res) (rc_gas_used res) (rc_stipend res) (rc_logs res) None (rc_exit_reason res).
(** Whether an invariant holds, and the result of its call. *)
Definition invariant_call (ic : InvariantContract) (ex : Executor) (g : option Generator) (func : Function)
    : exec (bool * RawCallResult * option Generator) :=
  data ← expect (encode_input func []) "invariant should have no inputs";
  let '(inner, g) := draw_inner g in
  res ← match call_raw inner ex CALLER (ic_address ic) data with Ok r => Ret r | Err _ => Panic "EVM error" end;
  if rc_reverted res then Ret (false, res, g)
  else
    changes ← expect (rc_changes res) "we should have a state changeset";
    let '(inner, g) := draw_inner g in
    Ret (is_success inner ex (ic_address ic) (rc_reverted res) changes false, take_changes res, g).
Definition set_failed (m : gmap string (option InvariantFuzzError)) (f : InvariantFailures) : InvariantFailures :=
  mkFailures (last_revert_reason f) (reverts f) (broken_invariants_count f) m.
(** [inner]: the choices recorded before the invariants are called. *)
Fixpoint check_functions (ic : InvariantContract) (ex : Executor) (inner : list (option BasicTxDetails)) (g : option Generator)
    (calldata : list BasicTxDetails) (shrink_sequence : bool) (funcs : list Function) (failures : InvariantFailures)
    (results : gmap string RawCallResult) (found : bool) : exec (InvariantFailures * gmap string RawCallResult * bool * option Generator) :=
  match funcs with
  | [] => Ret (failures, results, found, g)
  | func :: funcs =>
      '(holds, res, g) ← invariant_call ic ex g func;
      if (holds : bool) then check_functions ic ex inner g calldata shrink_sequence funcs failures (<[fn_name func := res]> results) found
      else
        entry ← expect (failed_invariants failures !! fn_name func) "to have been initialized.";
        match entry with
        | None =>
            let err := error_new ic (Some func) calldata res inner shrink_sequence in
            check_functions ic ex inner g calldata shrink_sequence funcs (set_failed (<[fn_name func := Some err]> (failed_invariants failures)) failures) results true
        | Some _ => check_functions ic ex inner g calldata shrink_sequence funcs failures (<[fn_name func := res]> results) found
        end
  end.
Definition broken (m : gmap string (option InvariantFuzzError)) : nat := length (filter (fun e => is_Some e.2) (map_to_list m)).
Definition assert_invariants (ic : InvariantContract) (ex : Executor) (g : option Generator) (calldata : list BasicTxDetails)
    (failures : InvariantFailures) (shrink_sequence : bool) : exec (option (gmap string RawCallResult) * InvariantFailures * option Generator) :=
  let inner := match g with Some g => drawn_calls g | None => [] end in
  '(failures, results, found, g) ← check_functions ic ex inner g calldata shrink_sequence (invariant_functions ic) failures ∅ false;
  if (found : bool) then
    let before := broken_invariants_count failures in
    let count := broken (failed_invariants failures) in
    _ ← assert (before <=? count)%nat "attempt to subtract with overflow";
    Ret (None, mkFailures (last_revert_reason failures) (reverts failures) count (failed_invariants failures), g)
  else Ret (Some results, failures, g).

(** ** A run *)
Record InvariantConfig := mkInvariantConfig {
  depth : nat; fail_on_revert : bool; call_override : bool; shrink_sequence : bool; iv_dictionary : FuzzDictionaryConfig }.
(** [collect_data]: the changes of a sender without code are set aside. *)
Definition has_code (changes : StateChangeset) (sender : Address) : bool :=
  match account ← changes !! sender; AccountInfo.code (fa_info account) with Some (_ :: _) => true | _ => false end.
Definition collect_data (changes : StateChangeset) (sender : Address) (logs : list FuzzLog) (st : FuzzDictionary) (config : FuzzDictionaryConfig)
    : StateChangeset * FuzzDictionary :=
  let aside := if has_code changes sender then None else changes !! sender in
  let kept := if has_code changes sender then changes else delete sender changes in
  let st := collect_state_from_call logs (map_to_list kept) config st in
  (match aside with Some account => <[sender := account]> kept | None => kept end, st).

(** [collect_created_contracts] stops at the first error. *)
Fixpoint collect_created_contracts (changes : list (Address * FuzzAccount)) (project : ContractsByArtifact) (setup : ContractsByAddress)
    (filters : ArtifactFilters) (targets : TargetedContracts) (created : list Address) : TargetedContracts * list Address :=
  match changes with
  | [] => (targets, created)
  | (address, account) :: changes =>
      let go_on := collect_created_contracts changes project setup filters targets created in
      match setup !! address, fa_is_touched account, AccountInfo.code (fa_info account) with
      | None, true, Some (_ :: _ as code) =>
          match find_by_code project code with
          | Some (artifact, (abi, _)) =>
              match get_targeted_functions filters artifact abi with
              | Err _ => (targets, created)
              | Ok None => go_on
              | Ok (Some functions) =>
                  collect_created_contracts changes project setup filters (<[address := (art_name artifact, abi, functions)]> targets) (created ++ [address])
              end
          | None => go_on
          end
      | _, _, _ => go_on
      end
  end.

(** Whether one of the contracts has a failed assertion; the rest is not asked
    after the first that has. *)
Fixpoint any_failed (ex : Executor) (changes : StateChangeset) (contracts : list Address) (g : option Generator) : bool * option Generator :=
  match contracts with
  | [] => (false, g)
  | a :: contracts =>
      let '(inner, g) := draw_inner g in
      if is_success inner ex a false changes false then any_failed ex changes contracts g else (true, g)
  end.
Definition can_continue (ic : InvariantContract) (res : RawCallResult) (ex : Executor) (g : option Generator) (calldata : list BasicTxDetails)
    (failures : InvariantFailures) (targets : TargetedContracts) (changes : StateChangeset) (fail_on_revert shrink_sequence : bool)
    : exec (bool * option (gmap string RawCallResult) * InvariantFailures * option Generator) :=
  let '(handlers_failed, g) := any_failed ex changes (map_to_list targets).*1 g in
  if negb (rc_reverted res) && negb handlers_failed then
    '(results, failures, g) ← assert_invariants ic ex g calldata failures shrink_sequence;
    Ret (bool_decide (is_Some results), results, failures, g)
  else
    let failures := mkFailures (last_revert_reason failures) (S (reverts failures)) (broken_invariants_count failures) (failed_invariants failures) in
    if fail_on_revert then
      let error := error_new ic None calldata res [] shrink_sequence in
      let failed := fold_left (fun m f => <[fn_name f := Some error]> m) (invariant_functions ic) (failed_invariants failures) in
      Ret (false, None, mkFailures (Some (revert_reason error)) (reverts failures) (broken_invariants_count failures) failed, g)
    else Ret (true, None, failures, g).

(** What a run works with, and what it changes. *)
Record InvariantSetup := mkInvariantSetup {
  iv_config : InvariantConfig; iv_contract : InvariantContract; iv_setup : ContractsByAddress; iv_project : ContractsByArtifact; iv_filters : ArtifactFilters }.
Record RunState := mkRun {
  rs_executor : Executor; rs_generator : option Generator; rs_dictionary : FuzzDictionary; rs_targets : TargetedContracts; rs_created : list Address;
  rs_failures : InvariantFailures; rs_inputs : list BasicTxDetails; rs_cases : list FuzzCase; rs_last : option (gmap string RawCallResult) }.
Inductive Stepped := GoOn (s : RunState) | Break (s : RunState) | CouldNotGenerate (s : RunState).
(** [next]: what the strategy yields for the call after this one, if anything,
    given the dictionary and the targets. *)
Definition fuzz_step (iv : InvariantSetup) (next : FuzzDictionary -> TargetedContracts -> option (list BasicTxDetails)) (s : RunState) : exec Stepped :=
  '(sender, (address, calldata)) ← expect (last (rs_inputs s)) "to have the next randomly generated input.";
  let '(inner, g) := draw_inner (rs_generator s) in
  res ← match call_raw inner (rs_executor s) sender address calldata with Ok r => Ret r | Err _ => Panic "could not make raw evm call" end;
  changes ← expect (rc_changes res) "no changesets";
  let '(changes, st) := collect_data changes sender (rc_logs res) (rs_dictionary s) (iv_dictionary (iv_config iv)) in
  let '(targets, created) := collect_created_contracts (map_to_list changes) (iv_project iv) (iv_setup iv) (iv_filters iv) (rs_targets s) (rs_created s) in
  let ex := commit changes (rs_executor s) in
  let cases := rs_cases s ++ [mkFuzzCase calldata (rc_gas_used res) (rc_stipend res)] in
  '(go_on, results, failures, g) ← can_continue (iv_contract iv) res ex g (rs_inputs s) (rs_failures s) targets changes
                                  (fail_on_revert (iv_config iv)) (shrink_sequence (iv_config iv));
  if (go_on : bool) then
    match next st targets with
    | Some inputs => Ret (GoOn (mkRun ex g st targets created failures (rs_inputs s ++ inputs) cases results))
    | None => Ret (CouldNotGenerate (mkRun ex g st targets created failures (rs_inputs s) cases results))
    end
  else Ret (Break (mkRun ex g st targets created failures (rs_inputs s) cases (rs_last s))).
Fixpoint fuzz_loop (iv : InvariantSetup) (next : nat -> FuzzDictionary -> TargetedContracts -> option (list BasicTxDetails)) (n : nat) (s : RunState) : exec Stepped :=
  match n with
  | O => Ret (GoOn s)
  | S n =>
      r ← fuzz_step iv (next n) s;
      match r with GoOn s => fuzz_loop iv next n s | _ => Ret r end
  end.
(** [FuzzedCases::new]: sorted by gas, the order of equal ones kept. *)
Fixpoint insert_case (c : FuzzCase) (l : list FuzzCase) : list FuzzCase :=
  match l with
  | [] => [c]
  | d :: l => if fc_gas c <=? fc_gas d then c :: d :: l else d :: insert_case c l
  end.
Definition fuzzed_cases_new (l : list FuzzCase) : list FuzzCase := fold_right insert_case [] l.

(** One case of the test runner. *)
Record FuzzState := mkFuzzState {
  fz_generator : option Generator; fz_dictionary : FuzzDictionary; fz_targets : TargetedContracts; fz_failures : InvariantFailures;
  fz_cases : list (list FuzzCase); fz_last : option (gmap string RawCallResult) }.
Definition run_case (iv : InvariantSetup) (blank : Executor) (inputs : list BasicTxDetails)
    (next : nat -> FuzzDictionary -> TargetedContracts -> option (list BasicTxDetails)) (z : FuzzState) : exec (result unit string * FuzzState) :=
  if fail_on_revert (iv_config iv) && (reverts (fz_failures z) =? 1)%nat then Ret (Err "Revert occurred."%string, z)
  else if (broken_invariants_count (fz_failures z) =? length (invariant_functions (iv_contract iv)))%nat then Ret (Err "All invariants have been broken."%string, z)
  else
    r ← fuzz_loop iv next (depth (iv_config iv)) (mkRun blank (fz_generator z) (fz_dictionary z) (fz_targets z) [] (fz_failures z) inputs [] (fz_last z));
    match r with
    | CouldNotGenerate s => Ret (Err "Could not generate case"%string, mkFuzzState (rs_generator s) (rs_dictionary s) (rs_targets s) (rs_failures s) (fz_cases z) (rs_last s))
    | GoOn s | Break s =>
        Ret (Ok tt, mkFuzzState (rs_generator s) (rs_dictionary s) (fold_left (fun m a => delete a m) (rs_created s) (rs_targets s)) (rs_failures s)
                      (fz_cases z ++ [fuzzed_cases_new (rs_cases s)]) (rs_last s))
    end.
(** The runner stops at the first case that fails: the strategy does not
    shrink. *)
Fixpoint run_cases (iv : InvariantSetup) (blank : Executor)
    (cases : list (list BasicTxDetails * (nat -> FuzzDictionary -> TargetedContracts -> option (list BasicTxDetails)))) (z : FuzzState) : exec FuzzState :=
  match cases with
  | [] => Ret z
  | (inputs, next) :: cases =>
      '(r, z) ← run_case iv blank inputs next z;
      match r with Ok _ => run_cases iv blank cases z | Err _ => Ret z end
  end.
Record InvariantFuzzTestResult := mkInvariantResult {
  ir_invariants : gmap string (option InvariantFuzzError); ir_cases : list (list FuzzCase); ir_reverts : nat; ir_last : option (gmap string RawCallResult) }.
(** [inner]: what the call generator will draw, if there is one. *)
Definition invariant_fuzz (iv : InvariantSetup) (blank : Executor) (inner : list (list (option BasicTxDetails))) (st : FuzzDictionary)
    (targets : TargetedContracts)
    (cases : list (list BasicTxDetails * (nat -> FuzzDictionary -> TargetedContracts -> option (list BasicTxDetails)))) : exec InvariantFuzzTestResult :=
  let ic := iv_contract iv in
  let g := if call_override (iv_config iv) then Some (mkInnerCalls inner []) else None in
  '(results, failures, g) ← assert_invariants ic blank g [] (failures_new (invariant_functions ic)) (shrink_sequence (iv_config iv));
  let z := mkFuzzState g st targets failures (match results with None => [[]] | Some _ => [] end) results in
  z ← (if (broken_invariants_count failures <? length (invariant_functions ic))%nat then run_cases iv blank cases z else Ret z);
  Ret (mkInvariantResult (failed_invariants (fz_failures z)) (fz_cases z) (reverts (fz_failures z)) (fz_last z)).
End Invariant.
