(* ===== verification/InvariantError.v ===== *)
(** * Broken invariants and fuzz tests (evm/src/fuzz/invariant/error.rs,
      call_override.rs, evm/src/fuzz/mod.rs, evm/src/executor/inspector/fuzzer.rs)

    How a sequence of calls that broke an invariant is shrunk and replayed,
    the calls a fuzzer puts in place of others, and the run of a fuzz test.  The
    executor draws no inner calls here: fuzz tests have no call generator,
    replaying gives it the recorded choices, and shrinking is modelled for runs
    without [call_override]. *)
From S2P Require Import ForkBackend Cheatcodes CheatHooks Prelude Transaction Hardfork Db Mapping FuzzInt Fuzz Invariant.
Open Scope Z_scope.

Section InvariantError.
Context `{!FuzzLib} `{!FuzzEvm}.

(** ** Shrinking a sequence of calls *)

(** The calls that are not left out, and the loop over them: whether and where
    the function [func] of the test contract reverts. *)
Definition kept_calls (calls : list BasicTxDetails) (anchor : nat) (removed : list nat) : list BasicTxDetails :=
  snd <$> filter (fun c : nat * BasicTxDetails => ~ ((c.1 < anchor)%nat \/ c.1 ∈ removed)) (zip (seq 0 (length calls)) calls).
Definition call_details (ex : Executor) (details : BasicTxDetails) : exec (RawCallResult * Executor) :=
  let '(sender, (addr, bytes)) := details in
  match call_raw_committing ex sender addr bytes with Ok r => Ret r | Err _ => Panic "bad call to evm" end.
Definition check_reverts (ex : Executor) (addr : Address) (func : option (list byte)) : exec bool :=
  match func with
  | None => Ret false
  | Some f => match call_raw [] ex CALLER addr f with Ok r => Ret (rc_reverted r) | Err _ => Panic "bad call to evm" end
  end.
Fixpoint breaking_prefix (addr : Address) (func : option (list byte)) (ex : Executor) (calls new_sequence : list BasicTxDetails) : exec (option (list BasicTxDetails)) :=
  match calls with
  | [] => Ret None
  | details :: calls =>
      '(_, ex) ← call_details ex details;
      reverted ← check_reverts ex addr func;
      if (reverted : bool) then Ret (Some (new_sequence ++ [details])) else breaking_prefix addr func ex calls (new_sequence ++ [details])
  end.
Definition fails_successfully (e : InvariantFuzzError) (ex : Executor) (calls : list BasicTxDetails) (anchor : nat) (removed : list nat)
    : exec (option (list BasicTxDetails)) := breaking_prefix (ife_addr e) (ife_func e) ex (kept_calls calls anchor removed) [].

Record Shrinking := mkShrinking { sh_anchor : nat; sh_removed : list nat; sh_shrunk : list BasicTxDetails }.
(** A round of the loop of [try_shrinking]. *)
Definition shrink_round (e : InvariantFuzzError) (ex : Executor) (calls : list BasicTxDetails) (s : Shrinking) : exec Shrinking :=
  r ← fails_successfully e ex calls (sh_anchor s) (sh_removed s);
  let '(removed, removed_calls, shrunk) :=
    match r with
    | Some new_sequence => (last (sh_removed s), sh_removed s, if (length new_sequence <? length (sh_shrunk s))%nat then new_sequence else sh_shrunk s)
    | None =>
        match vec_pop (sh_removed s) with
        | Some (x, rest) => (Some x, rest, sh_shrunk s)
        | None => (None, sh_removed s, sh_shrunk s)
        end
    end in
  match removed with
  | Some last_removed =>
      let next_removed := S last_removed in
      if (length calls - 1 <? next_removed)%nat then Ret (mkShrinking (S (sh_anchor s)) [] shrunk)
      else Ret (mkShrinking (sh_anchor s) (removed_calls ++ [next_removed]) shrunk)
  | None => Ret (mkShrinking (sh_anchor s) (removed_calls ++ [S (sh_anchor s)]) shrunk)
  end.
(** [while anchor != calls.len()], [None] when the rounds run out. *)
Fixpoint shrink_while (e : InvariantFuzzError) (ex : Executor) (calls : list BasicTxDetails) (fuel : nat) (s : Shrinking) : exec (option (list BasicTxDetails)) :=
  if (sh_anchor s =? length calls)%nat then Ret (Some (sh_shrunk s))
  else
    match fuel with
    | O => Ret None
    | S fuel => s ← shrink_round e ex calls s; shrink_while e ex calls fuel s
    end.
(** An anchor takes at most two rounds more than there are calls after it. *)
Definition shrink_fuel (calls : list BasicTxDetails) : nat := (length calls * (length calls + 2))%nat.
Definition try_shrinking (e : InvariantFuzzError) (calls : list BasicTxDetails) (ex : Executor) : exec (option (list BasicTxDetails)) :=
  shrink_while e ex calls (shrink_fuel calls) (mkShrinking 0 [] calls).

(** ** Replaying a broken invariant *)
Record BaseCounterExample := mkCounterExample {
  ce_sender : option Address; ce_addr : option Address; ce_calldata : list byte; ce_signature : option string; ce_contract_name : option string; ce_args : list Token }.
(** [BaseCounterExample::create]: the first four bytes select the function; a
    shorter input panics. *)
Definition counterexample_create (contracts : ContractsByAddress) (details : BasicTxDetails) : exec (result BaseCounterExample string) :=
  let '(sender, (addr, bytes)) := details in
  match contracts !! addr with
  | None => Ret (Err "Couldn't call unknown contract"%string)
  | Some (name, abi) =>
      _ ← assert ((4 <=? length bytes)%nat || bool_decide (abi = [])) "range end index 4 out of range";
      match find (fun f => bool_decide (fn_selector f = take 4 bytes)) abi with
      | None => Ret (Err "Couldn't find function"%string)
      | Some f =>
          match decode_input f (drop 4 bytes) with
          | None => Ret (Err "Failed to decode fuzzer inputs"%string)
          | Some args => Ret (Ok (mkCounterExample (Some sender) (Some addr) bytes (Some (fn_signature f)) (Some name) args))
          end
      end
  end.
(** The loop of [replay]. [identify] finds the contracts a call has created. *)
Fixpoint replay_calls (identify : RawCallResult -> ContractsByAddress) (addr : Address) (func : option (list byte)) (ex : Executor) (contracts : ContractsByAddress)
    (calls : list BasicTxDetails) (sequence : list BaseCounterExample) (logs : list FuzzLog) : exec (result (list BaseCounterExample * list FuzzLog) string) :=
  match calls with
  | [] => Ret (Ok (sequence, logs))
  | details :: calls =>
      '(res, ex) ← call_details ex details;
      let contracts := identify res ∪ contracts in
      r ← counterexample_create contracts details;
      match r with
      | Err _ => Ret (Err "Failed to create counter example"%string)
      | Ok c =>
          reverted ← check_reverts ex addr func;
          if (reverted : bool) then Ret (Ok (sequence ++ [c], logs ++ rc_logs res))
          else replay_calls identify addr func ex contracts calls (sequence ++ [c]) (logs ++ rc_logs res)
      end
  end.
(** [None] stands for rounds of shrinking that run out. *)
Definition replay (identify : RawCallResult -> ContractsByAddress) (e : InvariantFuzzError) (ex : Executor) (contracts : ContractsByAddress)
    : exec (option (result (option (list BaseCounterExample) * list FuzzLog) string)) :=
  match test_error e with
  | Abort_ _ => Ret (Some (Ok (None, [])))
  | FailWith _ calls =>
      shrunk ← (if ife_shrink e then try_shrinking e calls ex else Ret (Some calls));
      match shrunk with
      | None => Ret None
      | Some _ =>
          r ← replay_calls identify (ife_addr e) (ife_func e) (replay_inner (inner_sequence e) ex) contracts calls [] [];
          Ret (Some match r with
                    | Err err => Err err
                    | Ok (sequence, logs) => Ok (match sequence with [] => None | _ => Some sequence end, logs)
                    end)
      end
  end.

(** ** Calls in place of others *)
Record RandomCallGenerator := mkGenerator {
  test_address : Address; target_reference : Address; cg_used : bool; cg_replay : bool; last_sequence : list (option BasicTxDetails) }.
Definition set_replay (status : bool) (g : RandomCallGenerator) : RandomCallGenerator :=
  mkGenerator (test_address g) (target_reference g) (cg_used g) status (if status then reverse (last_sequence g) else last_sequence g).
(** [drawn]: what the strategy yields for the target it is given. *)
Definition next (drawn : Address -> option (Address * list byte)) (original_caller original_target : Address) (g : RandomCallGenerator)
    : exec (option BasicTxDetails * RandomCallGenerator) :=
  if cg_replay g then
    '(choice, rest) ← expect (vec_pop (last_sequence g)) "to have same size as the number of (unsafe) external calls of the sequence.";
    Ret (choice, mkGenerator (test_address g) (target_reference g) (cg_used g) true rest)
  else
    let choice := (fun c => (original_target, c)) <$> drawn original_caller in
    Ret (choice, mkGenerator (test_address g) original_caller (cg_used g) false (last_sequence g ++ [choice])).
Definition set_up_inner_replay (sequence : list (option BasicTxDetails)) (g : RandomCallGenerator) : RandomCallGenerator :=
  set_replay true (mkGenerator (test_address g) (target_reference g) (cg_used g) (cg_replay g) sequence).

(** [Fuzzer]: a call as the inspector sees it. *)
Record FuzzedCall := mkFuzzedCall { fcl_caller : Address; fcl_contract : Address; fcl_code_address : Address; fcl_address : Address; fcl_is_call : bool; fcl_input : list byte }.
Record Fuzzer := mkFuzzer { call_generator : option RandomCallGenerator; fz_collect : bool; fz_state : FuzzDictionary }.
Definition override_call (drawn : Address -> option (Address * list byte)) (call : FuzzedCall) (f : Fuzzer) : exec (FuzzedCall * Fuzzer) :=
  match call_generator f with
  | None => Ret (call, f)
  | Some g =>
      if negb (fcl_caller call =? test_address g) && fcl_is_call call && negb (cg_used g) then
        '(choice, g) ← next drawn (fcl_caller call) (fcl_contract call) g;
        match choice with
        | Some (sender, (contract, input)) =>
            Ret (mkFuzzedCall sender contract contract contract (fcl_is_call call) input,
                 mkFuzzer (Some (mkGenerator (test_address g) (target_reference g) true (cg_replay g) (last_sequence g))) (fz_collect f) (fz_state f))
        | None => Ret (call, mkFuzzer (Some g) (fz_collect f) (fz_state f))
        end
      else Ret (call, f)
  end.
Definition fuzzer_step (stack : list Z) (f : Fuzzer) : Fuzzer :=
  if fz_collect f then mkFuzzer (call_generator f) false (collect_stack stack (fz_state f)) else f.
Definition fuzzer_call (drawn : Address -> option (Address * list byte)) (tx_caller : Address) (call : FuzzedCall) (f : Fuzzer) : exec (FuzzedCall * Fuzzer) :=
  '(call, f) ← (if bool_decide (is_Some (call_generator f)) && negb (tx_caller =? fcl_caller call) then override_call drawn call f else Ret (call, f));
  Ret (call, mkFuzzer (call_generator f) true (fz_state f)).
Definition fuzzer_call_end (f : Fuzzer) : Fuzzer :=
  mkFuzzer ((fun g => mkGenerator (test_address g) (target_reference g) false (cg_replay g) (last_sequence g)) <$> call_generator f) true (fz_state f).

(** ** Fuzz tests

    What one case does, and what is kept between the cases; traces and coverage
    are left out. *)
Inductive CaseOutcome := CasePass | CaseReject (reason : string) | CaseFail (reason : string).
Record FuzzCells := mkCells {
  first_case : option FuzzCase; gas_by_case : list (Z * Z); counterexample : list byte * option RawCallResult; fuzz_state : FuzzDictionary }.
Definition fuzz_case (ex : Executor) (sender address : Address) (config : FuzzDictionaryConfig) (should_fail : bool) (errors : FuzzAbi)
    (calldata : list byte) (s : FuzzCells) : CaseOutcome * FuzzCells :=
  match call_raw [] ex sender address calldata with
  | Err _ => (CaseFail "Failed contract call", s)
  | Ok call =>
      match rc_changes call with
      | None => (CaseFail "Empty state changeset", s)
      | Some changes =>
          let s := mkCells (first_case s) (gas_by_case s) (counterexample s)
                     (collect_state_from_call (rc_logs call) (map_to_list changes) config (fuzz_state s)) in
          if bool_decide (rc_result call = ASSUME_MAGIC_RETURN_CODE) then (CaseReject "`vm.assume` reject", s)
          else if is_success [] ex address (rc_reverted call) changes should_fail then
            (CasePass,
             mkCells (Some (default (mkFuzzCase calldata (rc_gas_used call) (rc_stipend call)) (first_case s)))
               (gas_by_case s ++ [(rc_gas_used call, rc_stipend call)]) (counterexample s) (fuzz_state s))
          else
            (CaseFail (match decode_revert (rc_result call) errors (rc_exit_reason call) with Ok r => r | Err _ => "" end),
             mkCells (first_case s) (gas_by_case s) (calldata, Some call) (fuzz_state s))
      end
  end.
(** The cases the test runner asks for, also those of shrinking, in order. *)
Definition fuzz_cases (ex : Executor) (sender address : Address) (config : FuzzDictionaryConfig) (should_fail : bool) (errors : FuzzAbi)
    (cases : list (list byte)) (s : FuzzCells) : list CaseOutcome * FuzzCells :=
  fold_left (fun x calldata => let '(o, s) := fuzz_case ex sender address config should_fail errors calldata x.2 in (x.1 ++ [o], s)) cases ([], s).
Inductive RunResult := RunOk | RunAbort (reason : string) | RunFail (reason : string).
Record FuzzTestResult := mkFuzzResult {
  ft_first_case : FuzzCase; ft_gas_by_case : list (Z * Z); ft_success : bool; ft_reason : option string;
  ft_counterexample : option (list byte * list Token); ft_logs : list FuzzLog }.
(** [fuzz], from what the runner returns on: [max_rejects] is the text of the
    number of rejects that are allowed. *)
Definition fuzz_result (func : Function) (max_rejects : string) (r : RunResult) (s : FuzzCells) : exec FuzzTestResult :=
  let '(calldata, call) := counterexample s in
  let result := mkFuzzResult (default (mkFuzzCase [] 0 0) (first_case s)) (gas_by_case s) (match r with RunOk => true | _ => false end) in
  let logs := match call with Some c => rc_logs c | None => [] end in
  match r with
  | RunOk => Ret (result None None logs)
  | RunAbort reason =>
      Ret (result (Some (if bool_decide (reason = "Too many global rejects"%string)
                         then ("The `vm.assume` cheatcode rejected too many inputs (" +:+ max_rejects +:+ " allowed)")%string else reason)) None logs)
  | RunFail reason =>
      _ ← assert (4 <=? length calldata)%nat "range start index 4 out of range for slice";
      let args := default [] (decode_input func (drop 4 calldata)) in
      Ret (result (if bool_decide (reason = ""%string) then None else Some reason) (Some (calldata, args)) logs)
  end.
Definition fuzz (ex : Executor) (sender address : Address) (config : FuzzDictionaryConfig) (should_fail : bool) (errors : FuzzAbi) (func : Function)
    (max_rejects : string) (cases : list (list byte)) (runner : list CaseOutcome -> RunResult) (st : FuzzDictionary) : exec FuzzTestResult :=
  let '(outcomes, s) := fuzz_cases ex sender address config should_fail errors cases (mkCells None [] ([], None) st) in
  fuzz_result func max_rejects (runner outcomes) s.

(** The weighted strategies of [fuzz]. *)
Definition fuzz_weights (config : FuzzDictionaryConfig) {S} (random from_state : S) : list (Z * S) :=
  let weight := Z.min (dictionary_weight config) 100 in
  (if dictionary_weight config <? 100 then [(100 - weight, random)] else []) ++
  (if 0 <? weight then [(dictionary_weight config, from_state)] else []).

(** Gas of the cases. *)
Definition median_sorted (values : list Z) : exec Z :=
  let len := length values in
  match values with
  | [] => Ret 0
  | _ =>
      if Nat.even len then sum ← u64_add (nth (len / 2 - 1) values 0) (nth (len / 2) values 0); Ret (sum / 2)
      else Ret (nth (len / 2) values 0)
  end.
Definition mean (values : list Z) : Z :=
  match values with [] => 0 | _ => fold_left Z.add values 0 / Z.of_nat (length values) end.
Definition gas_values (with_stipend : bool) (cases : list FuzzCase) : list Z :=
  (fun c => if with_stipend then fc_gas c else u64_saturating_sub (fc_gas c) (fc_stipend c)) <$> cases.
Definition highest_gas (with_stipend : bool) (cases : list FuzzCase) : exec Z :=
  match last cases with
  | None => Ret 0
  | Some c => if with_stipend then Ret (fc_gas c) else u64_sub (fc_gas c) (fc_stipend c)
  end.
Definition lowest_gas (cases : list FuzzCase) : Z := match cases with [] => 0 | c :: _ => fc_gas c end.
End InvariantError.
