(* ===== verification/InvariantProps.v ===== *)
(** * Theorems about invariant tests *)
From S2P Require Import ForkBackend CheatHooks Prelude Transaction Hardfork Db Mapping FuzzInt FuzzIntProps Fuzz FuzzProps Invariant InvariantError.
Open Scope Z_scope.

(** ** Generated calls *)
Section Calls.
Context `{!Proptest} `{!ProptestLaws} `{!FuzzLib} `{!HashIter Z}.
Context (Hlossy : forall b, Forall is_byte b -> Forall is_byte (lossy_trimmed b)).
Context (Henc : forall f l, Forall2 fits (inputs f) l -> is_Some (encode_input f l)).

Lemma senders_disjoint targeted excluded a :
  a ∈ sf_targeted (senders_new targeted excluded) -> a ∉ sf_excluded (senders_new targeted excluded).
Proof. unfold senders_new. cbn. intros [? _]%list_elem_of_filter. done. Qed.
Lemma senders_zero targeted excluded : 0 ∈ sf_excluded (senders_new targeted excluded).
Proof. unfold senders_new. cbn. case_decide; [done|]. set_solver. Qed.

(** Functions a run may call on a contract. *)
Definition callable (abi : FuzzAbi) (functions : list Function) (f : Function) : Prop :=
  match functions with [] => f ∈ abi /\ is_mutable f = true | l => f ∈ l end.
Definition call_allowed (senders : SenderFilters) (targets : TargetedContracts) (c : BasicTxDetails) : Prop :=
  let '(sender, (target, data)) := c in
  sender ∉ sf_excluded senders /\ (sf_targeted senders <> [] -> sender ∈ sf_targeted senders) /\
  exists name abi functions f l, targets !! target = Some (name, abi, functions) /\ callable abi functions f /\
    Forall2 fits (inputs f) l /\ encode_input f l = Some data.

Lemma union_Ret {A} (l : list (Z * Strategy A)) : l <> [] -> Forall (fun x => 0 < x.1) l -> exists s, union l = Ret s.
Proof.
  intros Hne Hl. destruct (union l) as [s|w] eqn:E; [eauto|]. exfalso. assert (exists w, union l = Panic w) as Hp by eauto.
  apply union_panics in Hp as [->|Hp]; [done|]. apply Exists_exists in Hp as (x & Hx & ?). rewrite Forall_forall in Hl. specialize (Hl x Hx). lia.
Qed.
Lemma only_union {A} (l : list (Z * Strategy A)) s (Q : A -> Prop) : union l = Ret s -> Forall (fun x => only x.2 Q) l -> only s Q.
Proof. intros Hu Hl r Hr. apply (generates_union _ _ _ Hu) in Hr as (w & t & Hin & Ht). rewrite Forall_forall in Hl. by apply (Hl _ Hin). Qed.
Lemma exactly_only {A} (s : Strategy A) Q : exactly s Q -> only s Q.
Proof. intros Hs r Hr. by apply Hs. Qed.
Lemma only_select {A} (l : list A) : l <> [] -> only (select l) (fun a => a ∈ l).
Proof. intros Hl r. rewrite generates_select. intros [(a & ? & ->)|[? _]]; [eauto|done]. Qed.

Lemma random_sender_ok st senders weight :
  usable (size (state_values st)) st -> 0 < weight < 100 ->
  (forall a, a ∈ sf_targeted senders -> a ∉ sf_excluded senders) ->
  exists s, select_random_sender st senders weight = Ret s /\
    only s (fun a => a ∉ sf_excluded senders /\ (sf_targeted senders <> [] -> a ∈ sf_targeted senders)).
Proof.
  intros Hst Hw Hdis. unfold select_random_sender, u32_sub. rewrite decide_True by lia. cbn [mbind exec_bind].
  destruct (from_state_only Hlossy _ st Hst PAddress I) as (fs & -> & Hfs). cbn [mbind exec_bind].
  assert (forall s, only s (fits PAddress) -> only (prop_map into_address s) (fun _ => True)) as Hinto.
  { intros s Hs. apply (only_map _ _ _ _ Hs). intros []; try done. cbn. eauto. }
  destruct (union_Ret [(100 - weight, prop_map into_address (fuzz_param PAddress)); (weight, prop_map into_address fs)]) as [u Hu];
    [done|repeat constructor; cbn; lia|]. rewrite Hu. cbn [mbind exec_bind].
  assert (only u (fun _ => True)) as Hou.
  { apply (only_union _ _ _ Hu). repeat constructor; cbn; apply Hinto; [exact (exactly_only _ _ (fuzz_param_exactly PAddress I))|done]. }
  destruct (sf_targeted senders) as [|t l] eqn:Et; eexists; (split; [done|]).
  - intros r. rewrite generates_filter. intros [Hr Hf]. destruct (Hou r Hr) as (a & -> & _). exists a. split; [done|].
    split; [|done]. exact (proj1 (bool_decide_eq_true _) (Hf a eq_refl)).
  - intros r. rewrite generates_select. intros [(a & Ha & ->)|[? _]]; [|done]. exists a. split; [done|]. split; [auto|done].
Qed.
Lemma contract_calldata_ok st contract f :
  usable (size (state_values st)) st -> Forall solidity (inputs f) ->
  exists s, fuzz_contract_with_calldata st contract f = Ret s /\
    only s (fun c => c.1 = contract /\ exists l, Forall2 fits (inputs f) l /\ encode_input f l = Some c.2).
Proof.
  intros Hst Hf. unfold fuzz_contract_with_calldata. destruct (calldata_from_state_only Hlossy f Hf (Henc f) _ st Hst) as (fs & -> & Hfs). cbn [mbind exec_bind].
  destruct (union_Ret [(60, fuzz_calldata f); (40, fs)]) as [u Hu]; [done|by repeat constructor|]. rewrite Hu. cbn [mbind exec_bind]. eexists. split; [done|].
  apply (only_pure _ _ (typed_calldata f)).
  - apply (only_union _ _ _ Hu). repeat constructor; cbn; [|done]. intros r Hr. destruct (exactly_only _ _ (fuzz_calldata_exactly f Hf (Henc f)) r Hr) as (b & -> & Hb). exists b. split; [done|by apply drawn_typed].
  - intros b Hb. by split.
Qed.

(** Targets with something to call, whose functions have Solidity types. *)
Definition callable_targets (targets : TargetedContracts) : Prop :=
  (exists a c, targets !! a = Some c /\ c.1.2 <> []) /\
  forall a name abi functions, targets !! a = Some (name, abi, functions) -> abi <> [] ->
    (exists f, callable abi functions f) /\ forall f, callable abi functions f -> Forall solidity (inputs f).
Lemma random_function_ok abi functions : (exists f, callable abi functions f) -> only (select_random_function abi functions) (callable abi functions).
Proof.
  intros [f Hf]. unfold select_random_function, callable in *. destruct functions as [|g l].
  - intros r Hr. apply only_select in Hr as (a & -> & Ha); [|intros Hn; destruct Hf as [? ?]; assert (f ∈ filter (fun f => is_mutable f = true) abi) as Hin by (by apply list_elem_of_filter); rewrite Hn in Hin; set_solver].
    exists a. split; [done|]. by apply list_elem_of_filter in Ha as [? ?].
  - by apply only_select.
Qed.
Lemma only_flat_map {A B} (f : A -> exec (Strategy B)) s (Q : A -> Prop) (Q' : B -> Prop) :
  only s Q -> (forall a, Q a -> exists t, f a = Ret t /\ only t Q') -> only (prop_flat_map f s) Q'.
Proof.
  intros Hs Hf r. rewrite generates_flat_map. intros (o & Ho & Hr). apply Hs in Ho as (a & -> & Ha). destruct (Hf a Ha) as (t & Ht & Hq). cbn in Hr. rewrite Ht in Hr. auto.
Qed.

(** Every generated call is allowed, and generating it never panics: its
    sender is none that is excluded, in particular not the zero address, and
    one of the targeted ones if there are any; its target is one of the
    contracts to fuzz, its call data are well-typed arguments for one of the
    functions that were selected for that contract, or for one that changes
    state if none was. *)
Theorem generated_calls_allowed st targeted excluded targets weight r :
  usable (size (state_values st)) st -> 0 < weight < 100 -> callable_targets targets ->
  let senders := senders_new targeted excluded in
  generates (generate_call st senders targets weight) r ->
  exists c, r = Ret c /\ call_allowed senders targets c /\ c.1 <> 0.
Proof.
  intros Hst Hw [(a0 & c0 & Ha0 & Hne0) Htg] senders. revert r.
  apply (only_flat_map _ _ (fun c => exists name, targets !! c.1.1 = Some (name, c.1.2, c.2) /\ c.1.2 <> [])).
  { unfold select_random_contract. apply (only_pure _ _ (fun c => c ∈ filter (fun c => c.2.1.2 <> []) (map_to_list targets))).
    - apply only_select. intros Hn. assert ((a0, c0) ∈ filter (fun c => c.2.1.2 <> []) (map_to_list targets)) as Hin.
      { apply list_elem_of_filter. split; [done|]. by apply elem_of_map_to_list. }
      rewrite Hn in Hin. set_solver.
    - intros [a [[name abi] functions]]. rewrite list_elem_of_filter, elem_of_map_to_list. cbn. intros [? ?]. eauto. }
  intros [[contract abi] functions] (name & Hc & Hne). cbn in Hc, Hne. eexists. split; [done|].
  destruct (Htg _ _ _ _ Hc Hne) as [Hex Hsol]. apply (only_flat_map _ _ _ _ (random_function_ok abi functions Hex)). intros f Hf.
  destruct (random_sender_ok st senders weight Hst Hw) as (ss & -> & Hss); [apply senders_disjoint|].
  destruct (contract_calldata_ok st contract f Hst (Hsol f Hf)) as (cs & -> & Hcs). cbn. eexists. split; [done|].
  intros r. rewrite generates_both. intros (x & y & Hx & Hy & ->). apply Hss in Hx as (sender & -> & Hse & Hst').
  apply Hcs in Hy as ([c d] & -> & Heq & l & Hl & Hd). cbn in Heq. subst c. cbn. eexists. split; [done|]. split.
  - split; [done|]. split; [done|]. exists name, abi, functions, f, l. done.
  - cbn. intros ->. by apply Hse, senders_zero.
Qed.

(** A weight of 0 or 100 for the dictionary, and any above, makes the strategy
    of invariant tests panic when it is built; that of fuzz tests has none of
    these problems. *)
Theorem extreme_weights_panic st senders weight config {S} (random from_state : Strategy S) :
  (weight <= 0 \/ 100 <= weight -> exists w, select_random_sender st senders weight = Panic w) /\
  (0 <= dictionary_weight config -> exists s, union (fuzz_weights config random from_state) = Ret s).
Proof.
  split.
  - intros Hw. unfold select_random_sender, u32_sub. case_decide; [|eexists; done]. cbn [mbind exec_bind].
    destruct (fuzz_param_from_state _ st PAddress) as [fs|w]; [|eexists; done]. cbn [mbind exec_bind].
    destruct (union _) as [u|w] eqn:Hu; [|eexists; done]. exfalso.
    assert (exists w, union [(100 - weight, prop_map into_address (fuzz_param PAddress)); (weight, prop_map into_address fs)] = Panic w) as [w Hp]; [|congruence].
    apply union_panics. right. destruct Hw; [right; left; cbn; lia|left; cbn; lia].
  - intros Hd. unfold fuzz_weights. apply union_Ret.
    + destruct (_ <? 100) eqn:E1, (0 <? _) eqn:E2; cbn; try done. lia.
    + destruct (_ <? 100) eqn:E1, (0 <? _) eqn:E2; repeat constructor; cbn; lia.
Qed.
End Calls.

(** ** Broken invariants reproduce *)
Section Reproduce.
Context `{!FuzzLib} `{!FuzzEvm} (iv : InvariantSetup) (blank : Executor).
Notation ic := (iv_contract iv).

(** The executor after a sequence of calls that started in [ex], with no call put
    in place of another. *)
Definition run_call (ex : Executor) (c : BasicTxDetails) : option Executor :=
  match call_raw [] ex c.1 c.2.1 c.2.2 with
  | Ok r => (fun changes => commit changes ex) <$> rc_changes r
  | Err _ => None
  end.
Definition run_calls (ex : Executor) (calls : list BasicTxDetails) : option Executor :=
  fold_left (fun o c => ex ← o; run_call ex c) calls (Some ex).
Lemma run_calls_snoc ex calls c : run_calls ex (calls ++ [c]) = (ex' ← run_calls ex calls; run_call ex' c).
Proof. unfold run_calls. by rewrite fold_left_app. Qed.

(** The last call of a sequence reverted, or left a contract with a failed
    assertion. *)
Definition last_call_bad (calls : list BasicTxDetails) : Prop :=
  exists before c ex r changes, calls = before ++ [c] /\ run_calls blank before = Some ex /\
    call_raw [] ex c.1 c.2.1 c.2.2 = Ok r /\ rc_changes r = Some changes /\
    (rc_reverted r = true \/ exists a, is_success [] (commit changes ex) a false changes false = false).
Definition reproduces (name : string) (err : InvariantFuzzError) : Prop :=
  exists reason calls ex, test_error err = FailWith reason calls /\ run_calls blank calls = Some ex /\
    ((exists f res, f ∈ invariant_functions ic /\ fn_name f = name /\ ife_func err = Some (fn_selector f) /\ invariant_call ic ex None f = Ret (false, res, None)) \/
     (fail_on_revert (iv_config iv) = true /\ ife_func err = None /\ last_call_bad calls)).
Definition all_reproduce (failures : InvariantFailures) : Prop :=
  forall name err, failed_invariants failures !! name = Some (Some err) -> reproduces name err.

(** Without a generator there is none afterwards. *)
Lemma invariant_call_none ex f b res g : invariant_call ic ex None f = Ret (b, res, g) -> g = None.
Proof.
  unfold invariant_call. destruct (encode_input f []); cbn; [|done]. destruct (call_raw _ _ _ _ _); cbn; [|done].
  destruct (rc_reverted _); [by intros [= _ _ <-]|]. destruct (rc_changes _); cbn; [|done]. by intros [= _ _ <-].
Qed.
Lemma any_failed_none ex changes l : exists b, any_failed ex changes l None = (b, None) /\
  (b = true -> exists a, is_success [] ex a false changes false = false).
Proof.
  induction l as [|a l (b & IH & Hb)]; cbn; [by exists false|]. destruct (is_success _ _ a _ _ _) eqn:E; [by exists b|]. exists true. split; [done|]. by exists a.
Qed.

Lemma check_functions_reproduce ex calls shrink funcs failures results found failures' results' found' g :
  run_calls blank calls = Some ex -> funcs ⊆ invariant_functions ic -> all_reproduce failures ->
  check_functions ic ex [] None calls shrink funcs failures results found = Ret (failures', results', found', g) -> all_reproduce failures' /\ g = None.
Proof.
  intros Hex. revert failures results found. induction funcs as [|f funcs IH]; intros failures results found Hsub Hall Hc; cbn in Hc.
  - by simplify_eq.
  - destruct (invariant_call ic ex None f) as [[[holds res] g1]|w] eqn:Ef; cbn in Hc; [|done]. pose proof (invariant_call_none _ _ _ _ _ Ef) as ->.
    assert (funcs ⊆ invariant_functions ic) as Hsub' by set_solver. destruct holds; [by eapply IH|].
    destruct (failed_invariants failures !! fn_name f) as [[e|]|]; cbn in Hc; [by eapply IH| |done].
    eapply IH in Hc; [done|done|]. intros name err. cbn. destruct (decide (name = fn_name f)) as [->|Hne].
    + rewrite lookup_insert_eq. intros [= <-]. eexists _, calls, ex. split; [done|]. split; [done|]. left. exists f, res. set_solver.
    + rewrite lookup_insert_ne by done. apply Hall.
Qed.
Lemma assert_invariants_reproduce ex calls shrink failures o failures' g :
  run_calls blank calls = Some ex -> all_reproduce failures ->
  assert_invariants ic ex None calls failures shrink = Ret (o, failures', g) -> all_reproduce failures' /\ g = None.
Proof.
  intros Hex Hall. unfold assert_invariants. destruct (check_functions _ _ _ _ _ _ _ _ _ _) as [[[[f1 r1] found] g1]|w] eqn:E; cbn; [|done].
  eapply check_functions_reproduce in E as [E ->]; [|done|done|done]. destruct found; [|by intros [= <- <- <-]].
  destruct (assert _ _); cbn; [|done]. by intros [= <- <- <-].
Qed.
Lemma collect_data_changes changes sender logs st config : (collect_data changes sender logs st config).1 = changes.
Proof.
  unfold collect_data. cbn. destruct (has_code changes sender); [done|]. destruct (changes !! sender) as [acc|] eqn:E.
  - by rewrite insert_delete_eq, insert_id.
  - by rewrite delete_id.
Qed.
Lemma fold_insert_all {V} (l : list Function) (m : gmap string V) (e : V) name v :
  fold_left (fun m f => <[fn_name f := e]> m) l m !! name = Some v -> (v = e) \/ m !! name = Some v.
Proof.
  revert m. induction l as [|f l IH]; intros m; cbn; [by right|]. intros [->|Hm]%IH; [by left|].
  destruct (decide (fn_name f = name)) as [<-|Hne]; [rewrite lookup_insert_eq in Hm; left; by simplify_eq|]. rewrite lookup_insert_ne in Hm by done. by right.
Qed.

#[local] Arguments collect_data : simpl never.
#[local] Arguments can_continue : simpl never.
(** A run knows the calls it has made: all inputs but the last one. *)
Definition run_ok (s : RunState) : Prop :=
  (all_reproduce (rs_failures s) /\ rs_generator s = None) /\ exists calls c, rs_inputs s = calls ++ [c] /\ run_calls blank calls = Some (rs_executor s).
Lemma fuzz_step_reproduce next s r :
  (forall st targets l, next st targets = Some l -> length l = 1%nat) -> run_ok s -> fuzz_step iv next s = Ret r ->
  match r with GoOn s' => run_ok s' | Break s' | CouldNotGenerate s' => all_reproduce (rs_failures s') /\ rs_generator s' = None end.
Proof.
  intros Hnext ([Hall Hg] & calls & [sender [addr data]] & Hin & Hex). unfold fuzz_step. rewrite Hin, last_snoc, Hg. cbn.
  destruct (call_raw [] (rs_executor s) sender addr data) as [res|] eqn:Ecall; cbn; [|done].
  destruct (rc_changes res) as [changes0|] eqn:Ech; cbn; [|done].
  destruct (collect_data changes0 _ _ _ _) as [changes st] eqn:Ecd. pose proof (collect_data_changes changes0 sender (rc_logs res) (rs_dictionary s) (iv_dictionary (iv_config iv))) as Hcd.
  rewrite Ecd in Hcd. cbn in Hcd. subst changes0.
  destruct (collect_created_contracts _ _ _ _ _ _) as [targets created].
  set (calls' := calls ++ [(sender, (addr, data))]).
  assert (run_calls blank calls' = Some (commit changes (rs_executor s))) as Hex'.
  { unfold calls'. rewrite run_calls_snoc, Hex. cbn. unfold run_call. cbn. by rewrite Ecall, Ech. }
  assert (forall go results failures g, can_continue ic res (commit changes (rs_executor s)) None calls' (rs_failures s) targets changes
      (fail_on_revert (iv_config iv)) (shrink_sequence (iv_config iv)) = Ret (go, results, failures, g) -> all_reproduce failures /\ g = None) as Hcc.
  { intros go results failures g. unfold can_continue. destruct (any_failed_none (commit changes (rs_executor s)) changes (map_to_list targets).*1) as (hf & -> & Hhf).
    destruct (negb (rc_reverted res) && _) eqn:Eb.
    - destruct (assert_invariants _ _ _ _ _ _) as [[[o f'] g']|w] eqn:Ea; cbn; [|done]. intros [= <- <- <- <-]. eapply assert_invariants_reproduce; [exact Hex'|exact Hall|exact Ea].
    - destruct (fail_on_revert (iv_config iv)) eqn:Efr; [|by intros [= <- <- <- <-]]. intros [= <- <- <- <-]. split; [|done]. intros name err. cbn. intros [[= ->]|?]%fold_insert_all; [|by apply Hall].
      eexists _, calls', _. split; [done|]. split; [exact Hex'|]. right. split; [done|]. split; [done|].
      exists calls, (sender, (addr, data)), (rs_executor s), res, changes. split; [done|]. split; [done|]. split; [done|]. split; [done|].
      destruct (rc_reverted res); [by left|]. right. cbn in Eb. apply Hhf. by apply negb_false_iff in Eb. }
  destruct (can_continue _ _ _ _ _ _ _ _ _ _) as [[[[go results] failures] g]|w] eqn:Ecc; cbn; [|done]. specialize (Hcc _ _ _ _ eq_refl) as [Hcc ->].
  destruct go; [|by intros [= <-]]. destruct (next st targets) as [l|] eqn:En; [|by intros [= <-]]. intros [= <-].
  split; [by split|]. cbn. apply Hnext in En. destruct l as [|x [|]]; [done| |done]. exists calls', x. by split.
Qed.
Lemma fuzz_loop_reproduce next n s r :
  (forall k st targets l, next k st targets = Some l -> length l = 1%nat) -> run_ok s -> fuzz_loop iv next n s = Ret r ->
  match r with GoOn s' | Break s' | CouldNotGenerate s' => all_reproduce (rs_failures s') /\ rs_generator s' = None end.
Proof.
  intros Hnext. revert s. induction n as [|n IH]; intros s Hs; cbn; [intros [= <-]; apply Hs|].
  destruct (fuzz_step iv (next n) s) as [r0|w] eqn:E; cbn; [|done]. eapply fuzz_step_reproduce in E; [|apply Hnext|done].
  destruct r0 as [s'|s'|s']; [by apply IH|by intros [= <-]..].
Qed.
Lemma run_case_reproduce inputs next z r z' :
  (forall k st targets l, next k st targets = Some l -> length l = 1%nat) -> length inputs = 1%nat ->
  all_reproduce (fz_failures z) /\ fz_generator z = None ->
  run_case iv blank inputs next z = Ret (r, z') -> all_reproduce (fz_failures z') /\ fz_generator z' = None.
Proof.
  intros Hnext Hlen Hz. unfold run_case. destruct (_ && _); [by intros [= <- <-]|]. destruct (_ =? _)%nat; [by intros [= <- <-]|].
  destruct (fuzz_loop _ _ _ _) as [r0|w] eqn:E; cbn; [|done]. eapply fuzz_loop_reproduce in E; [|done|].
  - destruct r0; intros [= <- <-]; exact E.
  - split; [exact Hz|]. cbn. destruct inputs as [|x [|]]; [done| |done]. by exists [], x.
Qed.
Lemma run_cases_reproduce cases z z' :
  Forall (fun c => length c.1 = 1%nat /\ forall k st targets l, c.2 k st targets = Some l -> length l = 1%nat) cases ->
  all_reproduce (fz_failures z) /\ fz_generator z = None -> run_cases iv blank cases z = Ret z' -> all_reproduce (fz_failures z').
Proof.
  intros Hc. revert z. induction Hc as [|[inputs next] cases [Hlen Hnext] _ IH]; intros z Hz; cbn; [intros [= <-]; apply Hz|].
  destruct (run_case _ _ _ _ _) as [[r z1]|w] eqn:E; cbn; [|done]. eapply run_case_reproduce in E; [|done..].
  destruct r; [by apply IH|intros [= <-]; apply E].
Qed.

End Reproduce.

(** ** Contracts created in a run *)
Section Created.
Context `{!FuzzLib} `{!FuzzEvm} (iv : InvariantSetup) (t0 : TargetedContracts).

Definition created_ok (targets : TargetedContracts) (created : list Address) : Prop :=
  (forall a, a ∉ created -> targets !! a = t0 !! a) /\ (forall a, a ∈ created -> iv_setup iv !! a = None).
Lemma collect_created_ok changes targets created :
  created_ok targets created ->
  let '(targets', created') := collect_created_contracts changes (iv_project iv) (iv_setup iv) (iv_filters iv) targets created in
  created_ok targets' created'.
Proof.
  revert targets created. induction changes as [|[a acc] changes IH]; intros targets created Hok; [done|]. cbn [collect_created_contracts].
  specialize (IH targets created Hok) as Hgo.
  destruct (iv_setup iv !! a) eqn:Ea; [exact Hgo|]. destruct (fa_is_touched acc); [|exact Hgo]. destruct (AccountInfo.code _) as [[|b code]|]; [exact Hgo| |exact Hgo].
  destruct (find_by_code _ _) as [[artifact [abi ?]]|]; [|exact Hgo]. destruct (get_targeted_functions _ _ _) as [[functions|]|]; [|exact Hgo|exact Hok].
  apply IH. destruct Hok as [Hout Hin]. split.
  - intros x Hx. rewrite lookup_insert_ne by set_solver. apply Hout. set_solver.
  - intros x [Hx|Hx%list_elem_of_singleton]%elem_of_app; [auto|by subst].
Qed.
#[local] Arguments collect_data : simpl never.
#[local] Arguments can_continue : simpl never.
Lemma fuzz_loop_created next n s r :
  created_ok (rs_targets s) (rs_created s) -> fuzz_loop iv next n s = Ret r ->
  match r with GoOn s' | Break s' | CouldNotGenerate s' => created_ok (rs_targets s') (rs_created s') end.
Proof.
  revert s. induction n as [|n IH]; intros s Hs; cbn [fuzz_loop]; [by intros [= <-]|].
  destruct (fuzz_step iv (next n) s) as [r0|w] eqn:E; cbn [mbind exec_bind]; [|done].
  assert (match r0 with GoOn s' | Break s' | CouldNotGenerate s' => created_ok (rs_targets s') (rs_created s') end) as Hr.
  { revert E. unfold fuzz_step. destruct (last _) as [[sender [addr data]]|]; cbn; [|done]. destruct (draw_inner _) as [inner g0]. destruct (call_raw _ _ _ _ _) as [res|]; cbn; [|done].
    destruct (rc_changes res) as [changes0|]; cbn; [|done]. destruct (collect_data _ _ _ _ _) as [changes st].
    pose proof (collect_created_ok (map_to_list changes) _ _ Hs) as Hc. destruct (collect_created_contracts _ _ _ _ _ _) as [targets created].
    destruct (can_continue _ _ _ _ _ _ _ _ _ _) as [[[[go results] failures] g]|w]; cbn; [|done]. destruct go; [|by intros [= <-]].
    destruct (next _ _ _); by intros [= <-]. }
  destruct r0 as [s'|s'|s']; [by apply IH|by intros [= <-]..].
Qed.
Lemma delete_all_lookup {V} (l : list Address) (m : gmap Address V) a :
  fold_left (fun m a => delete a m) l m !! a = if decide (a ∈ l) then None else m !! a.
Proof.
  revert m. induction l as [|x l IH]; intros m; cbn; [done|]. rewrite IH. destruct (decide (a = x)) as [->|Hne].
  - rewrite lookup_delete_eq. rewrite (decide_True (P := x ∈ x :: l)) by set_solver. by case_decide.
  - rewrite lookup_delete_ne by done. destruct (decide (a ∈ l)); [rewrite decide_True by set_solver|rewrite decide_False by set_solver]; done.
Qed.
End Created.

(** A run forgets the contracts it has created: after it the contracts to
    fuzz are the ones from before, however many were created and whether or
    not an invariant broke. *)
Theorem targets_restored `{!FuzzLib} `{!FuzzEvm} iv blank inputs next z z' :
  dom (fz_targets z) ⊆ dom (iv_setup iv) -> run_case iv blank inputs next z = Ret (Ok tt, z') ->
  fz_targets z' = fz_targets z.
Proof.
  intros Hdom. unfold run_case. destruct (_ && _); [done|]. destruct (_ =? _)%nat; [done|].
  destruct (fuzz_loop _ _ _ _) as [r0|w] eqn:E; cbn [mbind exec_bind]; [|done]. eapply (fuzz_loop_created iv (fz_targets z)) in E; [|split; [done|set_solver]].
  destruct r0 as [s|s|s]; intros [= <-]; cbn [fz_targets];
    (apply map_eq; intros a; rewrite delete_all_lookup; destruct E as [Hout Hin]; case_decide as Ha; [|by apply Hout];
     symmetry; apply not_elem_of_dom; intros Hd; apply Hdom, elem_of_dom in Hd as [? Hd]; by rewrite (Hin a Ha) in Hd).
Qed.
