(* ===== verification/ShrinkProps.v ===== *)
(** * Theorems about shrinking a sequence of calls

    [try_shrinking] ends, and its result is a part of the sequence that still
    breaks the invariant; where one set of calls is to blame, it is that set. *)
From S2P Require Import ForkBackend CheatHooks Prelude Transaction Hardfork Db Mapping FuzzInt Fuzz Invariant InvariantError.
Open Scope nat_scope.

(** ** Sorted lists with indices *)
Section Indexed.
Context {X : Type}.
Abbreviation by_index := (fun x y : nat * X => x.1 < y.1) (only parsing).
Lemma indexed_sorted start (l : list X) : StronglySorted by_index (zip (seq start (length l)) l) /\ Forall (fun c => start <= c.1) (zip (seq start (length l)) l).
Proof.
  revert start. induction l as [|x l IH]; intros start; cbn; [split; constructor|]. destruct (IH (S start)) as [Hs Hf]. split.
  - constructor; [done|]. eapply Forall_impl; [exact Hf|]. cbn. lia.
  - constructor; [done|]. eapply Forall_impl; [exact Hf|]. cbn. lia.
Qed.
Lemma sorted_filter P `{!forall c : nat * X, Decision (P c)} l : StronglySorted by_index l -> StronglySorted by_index (filter P l).
Proof.
  induction 1 as [|c l Hl IH Hc]; [constructor|]. rewrite filter_cons. case_decide; [|done]. constructor; [done|].
  apply Forall_forall. intros d [_ Hd]%list_elem_of_filter. rewrite Forall_forall in Hc. auto.
Qed.
Lemma upto_prefix j l : StronglySorted by_index l -> filter (fun c => c.1 <= j) l `prefix_of` l.
Proof.
  induction 1 as [|c l Hl IH Hc]; [done|]. rewrite filter_cons. case_decide as Hj; [by apply prefix_cons|].
  destruct (filter _ l) as [|d r] eqn:E; [apply prefix_nil|]. exfalso. assert (d ∈ filter (fun c => c.1 <= j) l) as [Hle Hd]%list_elem_of_filter by (rewrite E; left).
  rewrite Forall_forall in Hc. specialize (Hc d Hd). lia.
Qed.
End Indexed.

Lemma fmap_prefix {X Y} (f : X -> Y) (k l : list X) : k `prefix_of` l -> f <$> k `prefix_of` f <$> l.
Proof. intros [r ->]. rewrite fmap_app. by apply prefix_app_r. Qed.
Lemma filter_all {X} (P : X -> Prop) `{!forall x, Decision (P x)} (l : list X) : Forall P l -> filter P l = l.
Proof. induction 1 as [|x l Hx _ IH]; [done|]. by rewrite filter_cons_True, IH. Qed.
Lemma filter_ext_in {X} (P Q : X -> Prop) `{!forall x, Decision (P x)} `{!forall x, Decision (Q x)} (l : list X) :
  (forall x, x ∈ l -> P x <-> Q x) -> filter P l = filter Q l.
Proof.
  induction l as [|x l IH]; intros Hpq; [done|]. rewrite !filter_cons, (IH (fun y Hy => Hpq y (list_elem_of_further _ _ _ Hy))).
  destruct (Hpq x (list_elem_of_here _ _)). do 2 case_decide; naive_solver.
Qed.
Lemma sublist_is_filter {X} `{EqDecision X} (K l : list X) : NoDup l -> K `sublist_of` l -> K = filter (fun x => x ∈ K) l.
Proof.
  intros Hnd Hs. induction Hs as [|x K l Hs IH|x K l Hs IH]; [done| |]; apply NoDup_cons in Hnd as [Hx Hnd].
  - rewrite filter_cons_True by left. f_equal. rewrite (IH Hnd) at 1. apply filter_ext_in. intros y Hy. rewrite elem_of_cons. naive_solver.
  - rewrite filter_cons_False; [by apply IH|]. intros Hin. apply Hx. by eapply elem_of_sublist.
Qed.

(** ** Where a sequence breaks *)
Section Shrink.
Context `{!FuzzLib} `{!FuzzEvm} (e : InvariantFuzzError) (ex0 : Executor) (calls : list BasicTxDetails).
(** The EVM answers every call. *)
Context (Hcommit : forall ex a b c, exists r, call_raw_committing ex a b c = Ok r) (Hcall : forall ex a b c, exists r, call_raw [] ex a b c = Ok r).

Definition after (ex : Executor) (d : BasicTxDetails) : Executor :=
  match call_raw_committing ex d.1 d.2.1 d.2.2 with Ok (_, ex') => ex' | Err _ => ex end.
(** Shrinking takes an invariant as broken if its call reverts. *)
Definition reverts_at (ex : Executor) : bool :=
  match ife_func e with Some f => match call_raw [] ex CALLER (ife_addr e) f with Ok r => rc_reverted r | Err _ => false end | None => false end.
Definition breaks (l : list BasicTxDetails) : bool := reverts_at (fold_left after l ex0).
Fixpoint first_break (ex : Executor) (l : list BasicTxDetails) : option (list BasicTxDetails) :=
  match l with
  | [] => None
  | d :: l => let ex := after ex d in if reverts_at ex then Some [d] else cons d <$> first_break ex l
  end.
Lemma breaking_prefix_pure ex l acc : breaking_prefix (ife_addr e) (ife_func e) ex l acc = Ret (app acc <$> first_break ex l).
Proof.
  revert ex acc. induction l as [|[s [a b]] l IH]; intros ex acc; [done|]. cbn [breaking_prefix first_break]. unfold call_details, after at 1 2, reverts_at, check_reverts. cbn.
  destruct (Hcommit ex s a b) as [[r ex'] ->]. cbn. destruct (ife_func e) as [f|] eqn:Ef; cbn.
  - destruct (Hcall ex' CALLER (ife_addr e) f) as [r' ->]. cbn. destruct (rc_reverted r'); [done|]. rewrite IH. f_equal.
    destruct (first_break ex' l); cbn; [|done]. f_equal. by rewrite <- app_assoc.
  - rewrite IH. f_equal. destruct (first_break ex' l); cbn; [|done]. f_equal. by rewrite <- app_assoc.
Qed.
Lemma first_break_spec ex l :
  match first_break ex l with
  | Some p => p `prefix_of` l /\ p <> [] /\ reverts_at (fold_left after p ex) = true /\ first_break ex p = Some p /\
      forall q, q `prefix_of` l -> q <> [] -> reverts_at (fold_left after q ex) = true -> length p <= length q
  | None => forall q, q `prefix_of` l -> q <> [] -> reverts_at (fold_left after q ex) = false
  end.
Proof.
  revert ex. induction l as [|d l IH]; intros ex; cbn [first_break].
  - intros q ->%prefix_nil_inv Hne. done.
  - destruct (reverts_at (after ex d)) eqn:E.
    + split_and!; [apply prefix_cons, prefix_nil|done|done|cbn; by rewrite E|]. intros [|x q]; cbn; [done|lia].
    + specialize (IH (after ex d)). destruct (first_break (after ex d) l) as [p|]; cbn.
      * destruct IH as (Hp & Hne & Hr & Hf & Hmin). split_and!; [by apply prefix_cons|done|done|by rewrite E, Hf|].
        intros [|x q] Hq Hqne; [done|]. pose proof (prefix_cons_inv_1 _ _ _ _ Hq) as ->. apply prefix_cons_inv_2 in Hq. cbn. intros Hx.
        destruct q as [|y q]; [cbn in Hx; congruence|]. apply le_n_S, Hmin; done.
      * intros [|x q] Hq Hqne; [done|]. pose proof (prefix_cons_inv_1 _ _ _ _ Hq) as ->. apply prefix_cons_inv_2 in Hq. cbn.
        destruct q as [|y q]; [done|]. by apply IH.
Qed.

(** ** The rounds *)
Notation n := (length calls).
Definition ix : list (nat * BasicTxDetails) := zip (seq 0 n) calls.
Lemma ix_fst : ix.*1 = seq 0 n.
Proof. unfold ix. apply fst_zip. by rewrite length_seq. Qed.
Lemma ix_snd : ix.*2 = calls.
Proof. unfold ix. apply snd_zip. by rewrite length_seq. Qed.
Definition kept (a : nat) (removed : list nat) : list (nat * BasicTxDetails) := filter (fun c => ~ (c.1 < a \/ c.1 ∈ removed)) ix.
Definition test (a : nat) (removed : list nat) : option (list BasicTxDetails) := first_break ex0 (kept a removed).*2.
Lemma fails_successfully_test a removed : fails_successfully e ex0 calls a removed = Ret (test a removed).
Proof. unfold fails_successfully. rewrite breaking_prefix_pure. unfold test. change (kept_calls calls a removed) with (kept a removed).*2. by destruct (first_break _ _). Qed.

(** A round, by the index [p] that was removed last, if any. *)
Lemma round_fresh a shrunk :
  shrink_round e ex0 calls (mkShrinking a [] shrunk) =
  Ret (mkShrinking a [S a] (match test a [] with Some l => if length l <? length shrunk then l else shrunk | None => shrunk end)).
Proof. unfold shrink_round. cbn [sh_anchor sh_removed sh_shrunk]. rewrite fails_successfully_test. cbn. by destruct (test a []). Qed.
Lemma round_next a removed p shrunk :
  shrink_round e ex0 calls (mkShrinking a (removed ++ [p]) shrunk) =
  let '(removed', shrunk') :=
    match test a (removed ++ [p]) with
    | Some l => (removed ++ [p], if length l <? length shrunk then l else shrunk)
    | None => (removed, shrunk)
    end in
  Ret (if n - 1 <? S p then mkShrinking (S a) [] shrunk' else mkShrinking a (removed' ++ [S p]) shrunk').
Proof.
  unfold shrink_round. cbn [sh_anchor sh_removed sh_shrunk]. rewrite fails_successfully_test. cbn [mbind exec_bind].
  destruct (test a (removed ++ [p])); [rewrite last_snoc|rewrite vec_pop_snoc]; cbv zeta; by destruct (n - 1 <? S p).
Qed.

(** What holds at the head of the loop. *)
Section Loop.
Context (I : nat -> list nat -> list BasicTxDetails -> Prop).
Context (Ifresh : forall a shrunk, a < n -> I a [] shrunk ->
           I a [S a] (match test a [] with Some l => if length l <? length shrunk then l else shrunk | None => shrunk end)).
Context (Inext : forall a removed p shrunk, a < n -> a < p -> p <= n -> I a (removed ++ [p]) shrunk ->
           let '(removed', shrunk') :=
             match test a (removed ++ [p]) with
             | Some l => (removed ++ [p], if length l <? length shrunk then l else shrunk)
             | None => (removed, shrunk)
             end in
           if n - 1 <? S p then I (S a) [] shrunk' else I a (removed' ++ [S p]) shrunk').
Lemma shrink_while_ends fuel a removed shrunk :
  a <= n -> (removed = [] \/ exists r p, removed = r ++ [p] /\ a < p <= n) ->
  (n - a) * (n + 2) - match last removed with Some p => p - a | None => 0 end <= fuel -> I a removed shrunk ->
  exists l, shrink_while e ex0 calls fuel (mkShrinking a removed shrunk) = Ret (Some l) /\ exists removed', I n removed' l.
Proof.
  revert a removed shrunk. induction fuel as [|fuel IH]; intros a removed shrunk Ha Hr Hfuel HI; cbn [shrink_while sh_anchor].
  - destruct (a =? n) eqn:E; [apply Nat.eqb_eq in E as ->; eauto|]. apply Nat.eqb_neq in E. exfalso.
    assert (match last removed with Some p => p - a | None => 0 end <= n - a).
    { destruct Hr as [->|(r & p & -> & Hp)]; [cbn; lia|]. rewrite last_snoc. lia. }
    destruct (n - a) as [|k] eqn:Ek; [lia|]. cbn in Hfuel. lia.
  - destruct (a =? n) eqn:E; [apply Nat.eqb_eq in E as ->; eauto|]. apply Nat.eqb_neq in E. assert (a < n) as Han by lia.
    destruct Hr as [->|(r & p & -> & Hp)].
    + rewrite round_fresh. cbn [mbind exec_bind]. apply IH; [done|right; exists [], (S a); split; [done|lia]| |by apply Ifresh].
      cbn. cbn in Hfuel. lia.
    + rewrite last_snoc in Hfuel. rewrite round_next. pose proof (Inext a r p shrunk Han ltac:(lia) ltac:(lia) HI) as HI'.
      destruct (match test a (r ++ [p]) with Some _ => _ | None => _ end) as [removed' shrunk']. destruct (n - 1 <? S p) eqn:Ep; cbn [mbind exec_bind].
      * apply IH; [lia|by left| |done]. cbn. assert ((n - a) * (n + 2) = (n - S a) * (n + 2) + (n + 2)) as Hm; [|lia]. replace (n - a) with (S (n - S a)) by lia. cbn. lia.
      * apply Nat.ltb_ge in Ep. apply IH; [lia|right; exists removed', (S p); split; [done|lia]| |done]. rewrite last_snoc. lia.
Qed.
Lemma try_shrinking_ends : I 0 [] calls -> exists l, try_shrinking e calls ex0 = Ret (Some l) /\ exists removed, I n removed l.
Proof. intros HI. unfold try_shrinking, shrink_fuel. apply shrink_while_ends; [lia|by left|cbn; lia|done]. Qed.
End Loop.

(** What is found is a part of the sequence that breaks with its last call. *)
Definition part (l : list BasicTxDetails) : Prop := exists K, K `sublist_of` ix /\ l = K.*2.
Lemma kept_sublist a removed : kept a removed `sublist_of` ix.
Proof. apply sublist_filter. Qed.
Lemma prefix_in_ix K a removed : K `prefix_of` kept a removed -> K `sublist_of` ix.
Proof. intros [k Hk]. etrans; [|apply (kept_sublist a removed)]. rewrite Hk. by apply sublist_inserts_r. Qed.
Lemma test_part a removed l : test a removed = Some l ->
  exists K, K `prefix_of` kept a removed /\ l = K.*2 /\ first_break ex0 l = Some l /\ breaks l = true /\ l <> [].
Proof.
  unfold test. intros Hl. pose proof (first_break_spec ex0 (kept a removed).*2) as Hs. rewrite Hl in Hs. destruct Hs as ((k & Hk) & Hne & Hr & Hf & _).
  exists (take (length l) (kept a removed)). split; [exists (drop (length l) (kept a removed)); by rewrite take_drop|]. split_and!; [|done|done|done].
  rewrite fmap_take, Hk. by rewrite take_app_length.
Qed.
Lemma kept_calls_all (l : list BasicTxDetails) : kept_calls l 0 [] = l.
Proof. unfold kept_calls. rewrite filter_all; [apply snd_zip; by rewrite length_seq|]. apply Forall_forall. intros c _ [?|?%not_elem_of_nil]; [lia|done]. Qed.

Lemma try_shrinking_sound :
  exists l, try_shrinking e calls ex0 = Ret (Some l) /\ part l /\ (l = calls \/ first_break ex0 l = Some l) /\
    forall a l', a < n -> test a [] = Some l' -> length l <= length l'.
Proof.
  set (I := fun a (removed : list nat) shrunk => part shrunk /\ (shrunk = calls \/ first_break ex0 shrunk = Some shrunk) /\
    forall a' l', a' < a \/ (a' = a /\ removed <> []) -> test a' [] = Some l' -> length shrunk <= length l').
  assert (forall a removed shrunk r, I a removed shrunk ->
    let shrunk' := match test a r with Some l => if length l <? length shrunk then l else shrunk | None => shrunk end in
    part shrunk' /\ (shrunk' = calls \/ first_break ex0 shrunk' = Some shrunk') /\ length shrunk' <= length shrunk /\
    match test a r with Some l => length shrunk' <= length l | None => True end) as Hstep.
  { intros a removed shrunk r (Hp & Hb & _). cbv zeta. destruct (test a r) as [l|] eqn:Et; [|done]. destruct (_ <? _) eqn:El.
    - apply Nat.ltb_lt in El. apply test_part in Et as (K & HK & -> & Hf & _). split_and!; [|by right|lia|done].
      exists K. split; [|done]. by eapply prefix_in_ix.
    - apply Nat.ltb_ge in El. done. }
  destruct (try_shrinking_ends I) as (l & Hl & removed & Hp & Hb & Hmin).
  - intros a shrunk _ HI. destruct (Hstep a [] shrunk [] HI) as (Hp & Hb & Hle & Ht). split; [done|]. split; [done|]. intros a' l' Ha' Et'.
    destruct HI as (_ & _ & Hmin). destruct Ha' as [Ha'|[-> _]]; [etrans; [exact Hle|apply (Hmin a'); [by left|done]]|]. rewrite Et' in Ht |- *. exact Ht.
  - intros a removed p shrunk _ _ _ HI. destruct (Hstep a (removed ++ [p]) shrunk (removed ++ [p]) HI) as (Hp & Hb & Hle & _).
    destruct HI as (_ & _ & Hmin).
    assert (forall a' l', a' <= a -> test a' [] = Some l' -> length shrunk <= length l') as Hmin'.
    { intros a' l' Ha' Et'. apply (Hmin a'); [|done]. destruct (decide (a' = a)); [right; split; [done|by destruct removed]|left; lia]. }
    destruct (test a (removed ++ [p])); cbv beta iota zeta in Hp, Hb, Hle |- *; (destruct (n - 1 <? S p); (split; [done|]; split; [done|]; intros a' l' Ha' Et'; etrans; [exact Hle|]; apply (Hmin' a'); [destruct Ha' as [?|[? ?]]; [lia|done || lia]|done])).
  - split; [exists ix; by rewrite ix_snd|]. split; [by left|]. intros a' l' [?|[_ ?]]; [lia|done].
  - exists l. split_and!; [done|done|done|]. intros a l' Ha. apply Hmin. by left.
Qed.

(** ** One set of calls to blame *)
Section Blame.
Context (M : list nat) (a0 j : nat) (Ha0 : a0 ∈ M) (Hj : j ∈ M) (Hrange : forall i, i ∈ M -> a0 <= i <= j) (Hn : j < n).
Context (Hblame : forall K, K `sublist_of` ix -> K <> [] -> breaks K.*2 = true <-> M ⊆ K.*1).
Definition culprits : list (nat * BasicTxDetails) := filter (fun c => c.1 ∈ M) ix.
(** The indices between the anchor and [p] that are not to blame. *)
Definition harmless (p : nat) : list nat := filter (fun i => i ∉ M) (seq (S a0) (p - S a0)).
Definition count (p : nat) : nat := length (filter (fun c => a0 <= c.1 <= j /\ (c.1 ∈ M \/ p < c.1)) ix).

Lemma elem_ix i : i ∈ ix.*1 <-> i < n.
Proof. rewrite ix_fst, elem_of_seq. lia. Qed.
Lemma elem_kept a removed i : i ∈ (kept a removed).*1 <-> i < n /\ a <= i /\ i ∉ removed.
Proof.
  unfold kept. rewrite list_elem_of_fmap. split.
  - intros (c & -> & [Hc Hin]%list_elem_of_filter). split_and!; [|lia|naive_solver]. apply elem_ix. by apply list_elem_of_fmap_2.
  - intros (Hi & Ha & Hr). apply elem_ix, list_elem_of_fmap in Hi as (c & -> & Hc). exists c. split; [done|]. apply list_elem_of_filter. split; [|done]. naive_solver lia.
Qed.
Lemma elem_harmless p i : i ∈ harmless p <-> a0 < i < p /\ i ∉ M.
Proof. unfold harmless. rewrite list_elem_of_filter, elem_of_seq. naive_solver lia. Qed.
Lemma test_hit removed : M ⊆ (kept a0 removed).*1 ->
  exists l, test a0 removed = Some l /\ length l <= length (filter (fun c => c.1 <= j) (kept a0 removed)).
Proof.
  intros Hsub. set (Q := filter _ _). assert (Q `prefix_of` kept a0 removed) as HQ by (apply upto_prefix, sorted_filter, indexed_sorted).
  assert (M ⊆ Q.*1) as HM.
  { intros i Hi. pose proof (Hsub i Hi) as (c & -> & Hc)%list_elem_of_fmap. apply list_elem_of_fmap_2, list_elem_of_filter. split; [|done]. by apply Hrange. }
  assert (Q <> []) as Hne by (intros He; specialize (HM a0 Ha0); rewrite He in HM; by apply not_elem_of_nil in HM).
  assert (breaks Q.*2 = true) as Hb by (apply Hblame; [by eapply prefix_in_ix|done|done]).
  pose proof (first_break_spec ex0 (kept a0 removed).*2) as Hs. fold (test a0 removed) in Hs. destruct (test a0 removed) as [l|].
  - exists l. split; [done|]. destruct Hs as (_ & _ & _ & _ & Hmin). rewrite <- (length_fmap snd Q). apply Hmin; [by apply fmap_prefix|by destruct Q|done].
  - exfalso. assert (breaks Q.*2 = false) as Hf; [|congruence]. apply Hs; [by apply fmap_prefix|by destruct Q].
Qed.
Lemma test_miss a removed i : i ∈ M -> i ∉ (kept a removed).*1 -> test a removed = None.
Proof.
  intros Hi Hnot. destruct (test a removed) as [l|] eqn:E; [|done]. exfalso. apply test_part in E as (K & HK & -> & _ & Hb & Hne).
  apply Hblame in Hb; [|by eapply prefix_in_ix|by destruct K]. apply Hnot. destruct HK as [k ->]. rewrite fmap_app. apply elem_of_app. left. by apply Hb.
Qed.
Lemma count_kept p removed : (forall i, a0 <= i -> i ∉ removed <-> i ∈ M \/ p < i) -> length (filter (fun c => c.1 <= j) (kept a0 removed)) = count p.
Proof.
  intros Hr. unfold kept, count. rewrite list_filter_filter. f_equal. apply list_filter_iff. intros c. specialize (Hr c.1). split.
  - intros [Hj' Hk]. assert (a0 <= c.1) as Hc by (destruct (decide (a0 <= c.1)); [done|exfalso; apply Hk; left; lia]). split; [done|]. apply Hr; [done|]. naive_solver.
  - intros [Hc Hm]. split; [lia|]. apply Hr in Hm; [|lia]. intros [?|?]; [lia|done].
Qed.
Lemma count_blamed p : p ∈ M -> count (p - 1) = count p.
Proof.
  intros Hp. unfold count. f_equal. apply list_filter_iff. intros c. destruct (decide (c.1 = p)) as [->|]; [naive_solver|].
  split; (intros [? [?|?]]; (split; [done|]); [by left|right; lia]).
Qed.
Lemma count_last p : n - 1 <= p -> count p = length culprits.
Proof.
  intros Hp. unfold count, culprits. f_equal. apply filter_ext_in. intros c Hc. assert (c.1 < n) by (apply elem_ix; by apply list_elem_of_fmap_2).
  split; [intros [? [?|?]]; [done|lia]|]. intros Hm. split; [by apply Hrange|by left].
Qed.
Lemma harmless_next p : a0 < p -> harmless (S p) = if decide (p ∈ M) then harmless p else harmless p ++ [p].
Proof.
  intros Hp. unfold harmless. replace (S p - S a0) with (S (p - S a0)) by lia. rewrite seq_S, filter_app. replace (S a0 + (p - S a0)) with p by lia.
  rewrite filter_cons, filter_nil. destruct (decide (p ∈ M)); [rewrite decide_False by naive_solver; by rewrite app_nil_r|by rewrite decide_True].
Qed.

Definition blamed (shrunk : list BasicTxDetails) : Prop := exists K, K `sublist_of` ix /\ shrunk = K.*2 /\ K <> [] /\ breaks shrunk = true.
Definition blame_inv (a : nat) (removed : list nat) (shrunk : list BasicTxDetails) : Prop :=
  blamed shrunk /\
  (a = a0 -> removed = [] \/ exists p, a0 < p /\ removed = harmless p ++ [p] /\ length shrunk <= count (p - 1)) /\
  (a0 < a -> length shrunk <= length culprits).
Definition shorter (t : option (list BasicTxDetails)) (shrunk : list BasicTxDetails) : list BasicTxDetails :=
  match t with Some l => if length l <? length shrunk then l else shrunk | None => shrunk end.
Lemma shorter_ok a removed shrunk : blamed shrunk ->
  blamed (shorter (test a removed) shrunk) /\ length (shorter (test a removed) shrunk) <= length shrunk /\
  forall l, test a removed = Some l -> length (shorter (test a removed) shrunk) <= length l.
Proof.
  intros Hb. destruct (test a removed) as [l|] eqn:E; cbn [shorter]; [|split_and!; [done|done|by intros]].
  destruct (_ <? _) eqn:El; [apply Nat.ltb_lt in El|apply Nat.ltb_ge in El; split_and!; [done|done|by intros ? [= <-]]].
  apply test_part in E as (K & HK & -> & _ & Hk & Hne). split_and!; [|lia|by intros ? [= <-]].
  exists K. split_and!; [by eapply prefix_in_ix|done|by destruct K|done].
Qed.
Lemma blame_fresh a shrunk : blame_inv a [] shrunk -> blame_inv a [S a] (shorter (test a []) shrunk).
Proof.
  intros (Hb & _ & Hl). destruct (shorter_ok a [] shrunk Hb) as (Hb' & Hle & Ht). split; [done|]. split; [|intros; specialize (Hl ltac:(done)); lia].
  intros ->. right. exists (S a0). split; [lia|]. split; [unfold harmless; by rewrite Nat.sub_diag|]. replace (S a0 - 1) with a0 by lia.
  destruct (test_hit []) as (l & El & Hlen).
  { intros i Hi. apply elem_kept. split_and!; [specialize (Hrange i Hi); lia|by apply Hrange|apply not_elem_of_nil]. }
  rewrite (count_kept a0) in Hlen; [specialize (Ht l El); lia|].
  intros i Hi. split; [|intros _; apply not_elem_of_nil]. intros _. destruct (decide (i = a0)) as [->|]; [by left|right; lia].
Qed.
Lemma blame_next a removed p shrunk : p <= n -> blame_inv a (removed ++ [p]) shrunk ->
  let removed' := match test a (removed ++ [p]) with Some _ => removed ++ [p] | None => removed end in
  let shrunk' := shorter (test a (removed ++ [p])) shrunk in
  if n - 1 <? S p then blame_inv (S a) [] shrunk' else blame_inv a (removed' ++ [S p]) shrunk'.
Proof.
  intros Hpn (Hb & Hat & Hl). cbv zeta. destruct (shorter_ok a (removed ++ [p]) shrunk Hb) as (Hb' & Hle & Ht).
  set (shrunk' := shorter _ _) in *. set (removed' := match test a (removed ++ [p]) with Some _ => _ | None => _ end).
  assert (a = a0 -> a0 < p /\ removed' = harmless (S p) /\ length shrunk' <= count p) as Hnew.
  { intros ->. destruct (Hat eq_refl) as [?%app_nil|(q & Hq & Heq & Hlen)]; [naive_solver|]. apply app_inj_tail in Heq as [-> <-]. split; [done|]. unfold removed', shrunk' in *.
    rewrite harmless_next by done. destruct (decide (p ∈ M)) as [Hm|Hm].
    - assert (test a0 (harmless p ++ [p]) = None) as Ht0 by (apply (test_miss a0 _ p Hm); rewrite elem_kept; set_solver).
      rewrite Ht0. split; [done|]. cbn [shorter]. by rewrite <- count_blamed.
    - destruct (test_hit (harmless p ++ [p])) as (l & El & Hlen').
      { intros i Hi. apply elem_kept. split_and!; [specialize (Hrange i Hi); lia|by apply Hrange|]. rewrite elem_of_app, elem_harmless, list_elem_of_singleton. naive_solver. }
      rewrite (count_kept p) in Hlen'.
      + specialize (Ht l El). rewrite El in *. split; [done|]. lia.
      + intros i Hi. rewrite elem_of_app, elem_harmless, list_elem_of_singleton. destruct (decide (i ∈ M)) as [|Hi']; [naive_solver|].
        assert (i <> a0) by (by intros ->). split; [intros Hno; right; destruct (decide (i = p)) as [->|]; [naive_solver|]; destruct (decide (i < p)); [naive_solver lia|lia]|].
        intros [?|?]; [done|]. intros [[? _]|?]; lia. }
  destruct (n - 1 <? S p) eqn:Ep.
  - apply Nat.ltb_lt in Ep. split; [done|]. split; [by left|]. intros Ha. destruct (decide (a = a0)) as [->|]; [|specialize (Hl ltac:(lia)); lia].
    destruct (Hnew eq_refl) as (_ & _ & Hc). rewrite count_last in Hc by lia. done.
  - split; [done|]. split; [|intros; specialize (Hl ltac:(done)); lia]. intros ->. destruct (Hnew eq_refl) as (? & -> & Hc). right. exists (S p).
    split; [lia|]. split; [done|]. by replace (S p - 1) with p by lia.
Qed.
Lemma try_shrinking_blame : try_shrinking e calls ex0 = Ret (Some culprits.*2).
Proof.
  destruct (try_shrinking_ends blame_inv) as (l & -> & removed & (K & HK & -> & Hne & Hb) & _ & Hl).
  - intros a shrunk _. apply blame_fresh.
  - intros a rem p shrunk _ _ Hp HI. pose proof (blame_next a rem p shrunk Hp HI) as Hx. destruct (test a (rem ++ [p])); exact Hx.
  - assert (ix <> []) as Hix by (intros He; assert (a0 ∈ ix.*1) as Hin by (apply elem_ix; specialize (Hrange a0 Ha0); lia); rewrite He in Hin; by apply not_elem_of_nil in Hin).
    split; [|split; [by left|lia]]. exists ix. split_and!; [done|by rewrite ix_snd|done|]. rewrite <- ix_snd. apply Hblame; [done|done|]. intros i Hi. apply elem_ix.
    specialize (Hrange i Hi). lia.
  - assert (NoDup ix) as Hnd by (apply (NoDup_fmap_1 fst); rewrite ix_fst; apply NoDup_seq).
    apply Hblame in Hb; [|done|done]. specialize (Hl ltac:(specialize (Hrange a0 Ha0); lia)). rewrite length_fmap in Hl.
    assert (culprits ⊆ K) as Hsub.
    { intros c [Hm Hc]%list_elem_of_filter. specialize (Hb _ Hm). apply list_elem_of_fmap in Hb as (d & Heq & Hd).
      assert (d ∈ ix) as Hdi by (by eapply elem_of_sublist). assert (c = d) as ->; [|done].
      apply list_elem_of_lookup in Hc as [k Hk], Hdi as [k' Hk']. assert (k = k') as ->; [|congruence].
      apply (f_equal (fmap fst)) in Hk, Hk'. rewrite <- !list_lookup_fmap, ix_fst in *. cbn in Hk, Hk'. rewrite Heq in Hk. eapply NoDup_lookup; [apply (NoDup_seq 0 n)|exact Hk|exact Hk']. }
    assert (culprits ≡ₚ K) as Hperm.
    { apply submseteq_length_Permutation; [|done]. apply NoDup_submseteq; [by apply NoDup_filter|done]. }
    repeat f_equal. rewrite (sublist_is_filter K ix Hnd HK), (sublist_is_filter culprits ix Hnd (sublist_filter _ _)).
    apply list_filter_iff. intros x. by rewrite Hperm.
Qed.
End Blame.
End Shrink.

(** Shrinking a sequence of calls ends, and what it returns is a
    subsequence of the calls.  If the whole sequence breaks the invariant then
    so does the result when it is replayed, and only with its last call; and
    it is no longer than what is left of the sequence after the first calls,
    up to where that breaks the invariant, in particular a single call if one
    call does. *)
Theorem try_shrinking_ok `{!FuzzLib} `{!FuzzEvm} e ex calls :
  (forall ex a b c, exists r, call_raw_committing ex a b c = Ok r) -> (forall ex a b c, exists r, call_raw [] ex a b c = Ok r) ->
  exists l, try_shrinking e calls ex = Ret (Some l) /\ l `sublist_of` calls /\
    (forall l0, fails_successfully e ex calls 0 [] = Ret (Some l0) -> fails_successfully e ex l 0 [] = Ret (Some l)) /\
    (forall a l', a < length calls -> fails_successfully e ex calls a [] = Ret (Some l') -> length l <= length l').
Proof.
  intros Hcommit Hcall. destruct (try_shrinking_sound e ex calls Hcommit Hcall) as (l & Hl & (K & HK & ->) & Hb & Hmin).
  exists K.*2. split; [done|]. split; [rewrite <- (ix_snd calls); by apply fmap_sublist|]. split.
  - intros l0 Hl0. rewrite fails_successfully_test in Hl0 by done. injection Hl0 as Hl0. rewrite fails_successfully_test by done. f_equal.
    unfold test. change (kept K.*2 0 []).*2 with (kept_calls K.*2 0 []). rewrite kept_calls_all. destruct Hb as [Heq|Hb]; [|done].
    rewrite Heq in *. destruct calls as [|d calls']; [done|]. specialize (Hmin 0 l0 ltac:(cbn; lia) Hl0).
    pose proof (first_break_spec e ex (d :: calls')) as Hs. unfold test in Hl0. change (kept (d :: calls') 0 []).*2 with (kept_calls (d :: calls') 0 []) in Hl0.
    rewrite kept_calls_all in Hl0. rewrite Hl0 in Hs |- *. destruct Hs as (Hp & _). f_equal. by apply prefix_length_eq.
  - intros a l' Ha Ht. rewrite fails_successfully_test in Ht by done. injection Ht as Ht. by apply (Hmin a).
Qed.

(** C17: Where a nonempty set of calls is to blame, that is, where the call of
    the invariant function reverts after a part of the sequence exactly if that
    part has all of them, shrinking finds that set.  An invariant that is broken
    by a failed assertion, without a revert, is not shrunk at all
    ([failed_assertion_not_shrunk]).  The EVM is assumed to return a result for
    every call of the sequence and of the invariant function, reverted or not, and
    to put no calls in place of others ([call_override] is off). *)
Theorem try_shrinking_finds_culprits `{!FuzzLib} `{!FuzzEvm} e ex calls (M : list nat) :
  (forall ex a b c, exists r, call_raw_committing ex a b c = Ok r) -> (forall ex a b c, exists r, call_raw [] ex a b c = Ok r) ->
  M <> [] -> (forall i, i ∈ M -> i < length calls) ->
  (forall K, K `sublist_of` ix calls -> K <> [] -> breaks e ex K.*2 = true <-> M ⊆ K.*1) ->
  try_shrinking e calls ex = Ret (Some (culprits calls M).*2).
Proof.
  intros Hcommit Hcall Hne Hlt Hblame.
  assert (exists a0 j, a0 ∈ M /\ j ∈ M /\ forall i, i ∈ M -> a0 <= i <= j) as (a0 & j & Ha0 & Hj & Hr).
  { clear -Hne. induction M as [|x M IH]; [done|]. destruct M as [|y M]; [exists x, x; set_solver by lia|].
    destruct IH as (a0 & j & Ha0 & Hj & Hr); [done|]. exists (Nat.min a0 x), (Nat.max j x). split; [|split].
    - destruct (Nat.min_dec a0 x) as [-> | ->]; set_solver.
    - destruct (Nat.max_dec j x) as [-> | ->]; set_solver.
    - intros i [->|Hi]%elem_of_cons; [lia|]. specialize (Hr i Hi). lia. }
  by apply try_shrinking_blame with (a0 := a0) (j := j); auto.
Qed.
