(* ===== verification/InvariantErrorProps.v ===== *)
(** * Theorems about fuzz tests and replays *)
From S2P Require Import ForkBackend Cheatcodes CheatHooks Prelude Transaction Hardfork Db Mapping FuzzInt Fuzz Invariant InvariantError ShrinkProps.
Open Scope Z_scope.

(** ** Fuzz tests *)
Section FuzzTest.
Context `{!FuzzLib} `{!FuzzEvm} (ex : Executor) (sender address : Address) (config : FuzzDictionaryConfig) (should_fail : bool) (errors : FuzzAbi).

(** Whether a case fails because of what its call did, or for want of a call. *)
Definition call_fails (calldata : list byte) : Prop :=
  exists call changes, call_raw [] ex sender address calldata = Ok call /\ rc_changes call = Some changes /\
    rc_result call <> ASSUME_MAGIC_RETURN_CODE /\ is_success [] ex address (rc_reverted call) changes should_fail = false.
Definition no_call (calldata : list byte) : Prop :=
  match call_raw [] ex sender address calldata with Ok call => rc_changes call = None | Err _ => True end.
Lemma fuzz_case_cases calldata s :
  let '(o, s') := fuzz_case ex sender address config should_fail errors calldata s in
  (o = CasePass /\ counterexample s' = counterexample s /\ ~ call_fails calldata /\ ~ no_call calldata) \/
  ((exists r, o = CaseReject r) /\ counterexample s' = counterexample s /\ ~ call_fails calldata /\ ~ no_call calldata) \/
  ((exists r, o = CaseFail r) /\ s' = s /\ no_call calldata) \/
  ((exists r, o = CaseFail r) /\ call_fails calldata /\ (counterexample s').1 = calldata).
Proof.
  unfold fuzz_case, call_fails, no_call. destruct (call_raw _ _ _ _ _) as [call|] eqn:Ec; [|right; right; left; eauto].
  destruct (rc_changes call) as [changes|] eqn:Ech; [|right; right; left; eauto].
  destruct (bool_decide _) eqn:Ea; [apply bool_decide_eq_true in Ea; right; left; split_and!; [eauto|done|naive_solver|congruence]|apply bool_decide_eq_false in Ea].
  destruct (is_success _ _ _ _ _ _) eqn:Es.
  - left. split_and!; [done|done|intros (call' & ch' & [= <-] & Hch' & _ & Hs'); congruence|congruence].
  - right; right; right. split_and!; [eauto|by exists call, changes|done].
Qed.
Definition verdicts (cases : list (list byte)) (s : FuzzCells) : list CaseOutcome * FuzzCells :=
  fuzz_cases ex sender address config should_fail errors cases s.
Lemma verdicts_snoc cases c s :
  verdicts (cases ++ [c]) s = let '(os, s1) := verdicts cases s in let '(o, s2) := fuzz_case ex sender address config should_fail errors c s1 in (os ++ [o], s2).
Proof. unfold verdicts, fuzz_cases. rewrite fold_left_app. cbn. by destruct (fold_left _ cases ([], s)) as [os s1]. Qed.

(** The cells hold the last call that failed. *)
Lemma verdicts_spec cases s :
  let '(os, s') := verdicts cases s in
  ((counterexample s' = counterexample s /\ Forall (fun c => ~ call_fails c) cases) \/
   ((counterexample s').1 ∈ cases /\ call_fails (counterexample s').1)) /\
  (Forall (fun o => forall r, o <> CaseFail r) os <-> Forall (fun c => ~ call_fails c /\ ~ no_call c) cases).
Proof.
  induction cases as [|c cases IH] using rev_ind; [split; [left; by split|by split]|]. rewrite verdicts_snoc. destruct (verdicts cases s) as [os s1].
  pose proof (fuzz_case_cases c s1) as Hc. destruct (fuzz_case _ _ _ _ _ _ c s1) as [o s2]. destruct IH as [Hcell Hall].
  rewrite !Forall_app, !Forall_singleton, Hall. destruct Hc as [(-> & Heq & Hf & Hn)|[((r & ->) & Heq & Hf & Hn)|[((r & ->) & -> & Hn)|((r & ->) & Hf & Heq)]]].
  - split; [|naive_solver]. rewrite Heq. destruct Hcell as [[-> ?]|[? ?]]; [left; by split|right; set_solver].
  - split; [|naive_solver]. rewrite Heq. destruct Hcell as [[-> ?]|[? ?]]; [left; by split|right; set_solver].
  - split; [|naive_solver]. destruct Hcell as [[-> ?]|[? ?]]; [left; split; [done|split; [done|]]|right; set_solver].
    intros (call & changes & H1' & H2' & _). unfold no_call in Hn. by rewrite H1', H2' in Hn.
  - split; [|naive_solver]. right. rewrite Heq. set_solver.
Qed.
End FuzzTest.

(** A fuzz test succeeds only if no case it ran failed, and a
    counterexample it reports is the input of a case it ran whose call failed
    (reverted or left a failed assertion, or did not where the test should
    fail, and was not rejected by an assumption), for a test runner that
    succeeds only if no case fails, and fails only if one does. *)
Theorem fuzz_reports_failures `{!FuzzLib} `{!FuzzEvm} ex sender address config should_fail errors func max_rejects cases runner st r :
  (forall os, runner os = RunOk -> Forall (fun o => forall r, o <> CaseFail r) os) ->
  fuzz ex sender address config should_fail errors func max_rejects cases runner st = Ret r ->
  (ft_success r = true -> Forall (fun c => ~ call_fails ex sender address should_fail c) cases) /\
  (forall calldata args, ft_counterexample r = Some (calldata, args) -> calldata ∈ cases /\ call_fails ex sender address should_fail calldata).
Proof.
  intros Hok. unfold fuzz. pose proof (verdicts_spec ex sender address config should_fail errors cases (mkCells None [] ([], None) st)) as Hv.
  unfold verdicts in Hv. destruct (fuzz_cases _ _ _ _ _ _ _ _) as [os s]. destruct Hv as [Hcell Hall]. unfold fuzz_result. destruct (counterexample s) as [calldata call] eqn:Ece.
  destruct (runner os) as [|reason|reason] eqn:Er.
  - intros [= <-]. split; [|done]. intros _. apply Hok, Hall in Er. eapply Forall_impl; [exact Er|]. by intros c [? ?].
  - by intros [= <-].
  - destruct (assert _ _) eqn:Ea; cbn; [|done]. intros [= <-]. split; [done|]. cbn. intros cd args [= <- _]. cbn in Hcell. destruct Hcell as [[[= -> _] _]|?]; [|done].
    cbn in Ea. done.
Qed.

(** A test whose calls cannot be made at all, as when the endpoint of a fork
    fails, panics instead of reporting that. *)
Theorem failed_call_panics `{!FuzzLib} `{!FuzzEvm} ex sender address config should_fail errors func max_rejects cases runner st reason :
  Forall (no_call ex sender address) cases ->
  runner (fuzz_cases ex sender address config should_fail errors cases (mkCells None [] ([], None) st)).1 = RunFail reason ->
  exists w, fuzz ex sender address config should_fail errors func max_rejects cases runner st = Panic w.
Proof.
  intros Hno Hr. unfold fuzz. pose proof (verdicts_spec ex sender address config should_fail errors cases (mkCells None [] ([], None) st)) as Hv.
  unfold verdicts in Hv. destruct (fuzz_cases _ _ _ _ _ _ _ _) as [os s]. cbn in Hr. destruct Hv as [Hcell _]. unfold fuzz_result. destruct Hcell as [[-> _]|[Hin Hf]].
  - rewrite Hr. cbn. eauto.
  - exfalso. rewrite Forall_forall in Hno. specialize (Hno _ Hin). destruct Hf as (call & changes & H1' & H2' & _). unfold no_call in Hno. by rewrite H1', H2' in Hno.
Qed.

(** ** Replays *)

(** The sequence that shrinking finds is thrown away: a replay reports the
    same with it and without. *)
Theorem replay_ignores_shrinking `{!FuzzLib} `{!FuzzEvm} identify logs t reason addr func inner ex contracts :
  (forall ex a b c, exists r, call_raw_committing ex a b c = Ok r) -> (forall ex a b c, exists r, call_raw [] ex a b c = Ok r) ->
  replay identify (mkInvariantError logs t reason addr func inner true) ex contracts =
  replay identify (mkInvariantError logs t reason addr func inner false) ex contracts.
Proof.
  intros Hcommit Hcall. unfold replay. cbn [test_error ife_shrink]. destruct t as [|msg calls]; [done|].
  destruct (try_shrinking_sound (mkInvariantError logs (FailWith msg calls) reason addr func inner true) ex calls Hcommit Hcall) as (l & -> & _). done.
Qed.
(** A broken invariant that does not revert, but leaves a failed assertion
    behind, is not shrunk at all. *)
Theorem failed_assertion_not_shrunk `{!FuzzLib} `{!FuzzEvm} e ex calls :
  (forall ex a b c, exists r, call_raw_committing ex a b c = Ok r) -> (forall ex a b c, exists r, call_raw [] ex a b c = Ok r) ->
  (forall ex', reverts_at e ex' = false) -> try_shrinking e calls ex = Ret (Some calls).
Proof.
  intros Hcommit Hcall Hno. destruct (try_shrinking_sound e ex calls Hcommit Hcall) as (l & -> & _ & [->|Hb] & _); [done|].
  pose proof (first_break_spec e ex l) as Hs. rewrite Hb in Hs. destruct Hs as (_ & _ & Hr & _). by rewrite Hno in Hr.
Qed.

(** The calls of a generator, one after the other. *)
Fixpoint nexts (reqs : list ((Address -> option (Address * list byte)) * Address * Address)) (g : RandomCallGenerator)
    : exec (list (option BasicTxDetails) * RandomCallGenerator) :=
  match reqs with
  | [] => Ret ([], g)
  | (drawn, caller, target) :: reqs =>
      '(c, g) ← next drawn caller target g;
      '(l, g) ← nexts reqs g;
      Ret (c :: l, g)
  end.
Lemma nexts_recorded reqs g : cg_replay g = false ->
  exists l g', nexts reqs g = Ret (l, g') /\ last_sequence g' = last_sequence g ++ l /\ length l = length reqs /\ cg_replay g' = false.
Proof.
  revert g. induction reqs as [|[[drawn caller] target] reqs IH]; intros g Hg; cbn [nexts]; [exists [], g; by rewrite app_nil_r|].
  unfold next. rewrite Hg. cbn [mbind exec_bind]. match goal with |- context [nexts reqs ?h] => destruct (IH h) as (l & g' & -> & Hl & Hlen & Hr); [done|] end.
  cbn. eexists _, _. split; [done|]. split; [|split; [cbn; by rewrite Hlen|done]]. rewrite Hl. cbn. by rewrite <- app_assoc.
Qed.
Lemma nexts_replayed l rest reqs g : cg_replay g = true -> last_sequence g = reverse (l ++ rest) -> length reqs = length l ->
  exists g', nexts reqs g = Ret (l, g').
Proof.
  revert g reqs. induction l as [|c l IH]; intros g [|[[drawn caller] target] reqs] Hg Hl Hlen; try done; cbn [nexts]; [eauto|].
  unfold next. rewrite Hg, Hl. cbn [app]. rewrite reverse_cons, vec_pop_snoc. cbn [expect mbind exec_bind].
  match goal with |- context [nexts reqs ?h] => destruct (IH h reqs) as (g' & ->); [done|done|by injection Hlen|] end. eauto.
Qed.

(** The calls that a fuzzer puts in place of others are replayed as they
    were: what was recorded from the start of a run comes back in order, one
    for each call. *)
Theorem recorded_calls_replayed reqs reqs' g g' :
  cg_replay g = false -> last_sequence g = [] -> length reqs' = length reqs ->
  exists l g1 g2, nexts reqs g = Ret (l, g1) /\ nexts reqs' (set_up_inner_replay (last_sequence g1) g') = Ret (l, g2).
Proof.
  intros Hg Hs Hlen. destruct (nexts_recorded reqs g Hg) as (l & g1 & -> & Hl & Hll & _). rewrite Hs in Hl. cbn in Hl.
  destruct (nexts_replayed l [] reqs' (set_up_inner_replay (last_sequence g1) g')) as (g2 & Hg2); [done|by rewrite app_nil_r; cbn; rewrite Hl|congruence|]. eauto 6.
Qed.
(** The recorded calls are not cleared between runs: what is replayed for a
    failure of a later run starts with the calls of the runs before. *)
Theorem replay_starts_with_earlier_runs reqs reqs' g g' :
  cg_replay g = false -> length reqs' = length (last_sequence g) ->
  exists l g1 g2, nexts reqs g = Ret (l, g1) /\ nexts reqs' (set_up_inner_replay (last_sequence g1) g') = Ret (last_sequence g, g2).
Proof.
  intros Hg Hlen. destruct (nexts_recorded reqs g Hg) as (l & g1 & -> & Hl & _).
  destruct (nexts_replayed (last_sequence g) l reqs' (set_up_inner_replay (last_sequence g1) g')) as (g2 & Hg2); [done|cbn; by rewrite Hl|done|]. eauto 6.
Qed.

(** ** Gas *)

(** The gas without the stipend is cut off at zero in the median and the mean,
    but the highest gas panics where a refund leaves less than the stipend. *)
Theorem highest_gas_panics cases c :
  last cases = Some c -> fc_gas c < fc_stipend c -> 0 <= fc_gas c <= U64_MAX ->
  (exists w, highest_gas false cases = Panic w) /\ last (gas_values false cases) = Some 0.
Proof.
  intros Hl Hlt Hr. unfold highest_gas. rewrite Hl. split; [unfold u64_sub; rewrite decide_False by lia; eauto|].
  unfold gas_values. rewrite fmap_last, Hl. cbn. f_equal. word_lia.
Qed.
