(* ===== verification/FuzzSample.v ===== *)
(** * Fuzzing a small contract

    Instances of the interfaces of the fuzzer, and the theorems applied to
    them: strategies as sets of outcomes, and an EVM that remembers who called
    and whose invariant breaks when both 7 and 9 have. *)
From S2P Require Import ForkBackend Cheatcodes CheatHooks Prelude Transaction Hardfork Db Mapping FuzzInt FuzzIntProps Fuzz FuzzProps Invariant InvariantError InvariantProps ShrinkProps InvariantErrorProps.
Open Scope Z_scope.

(** ** Strategies as sets *)
Definition set_union {A} (l : list (Z * (exec A -> Prop))) : exec (exec A -> Prop) :=
  if bool_decide (length l = 0%nat) || existsb (fun x => x.1 <=? 0) l then Panic "weights"
  else Ret (fun r => exists w t, (w, t) ∈ l /\ t r).
#[local] Instance set_proptest : Proptest := {|
  Strategy A := exec A -> Prop;
  generates A s := s;
  draw D A P f r := exists d, P d /\ r = f d;
  prop_map A B f s r := exists a, s a /\ r = (x ← a; f x);
  prop_flat_map A B f s r := exists a, s a /\ match (x ← a; f x) with Ret t => t r | Panic w => r = Panic w end;
  prop_filter A f s r := s r /\ (forall a, r = Ret a -> f a = true);
  vec_of A s lo hi r := exists l, (lo <= length l < hi)%nat /\ Forall s l /\ r = collect l;
  all_of A l r := exists rs, Forall2 (fun s r => s r) l rs /\ r = collect rs;
  union A := set_union;
  both A B s t r := exists a b, s a /\ t b /\ r = (x ← a; y ← b; Ret (x, y));
  select A l r := (exists a, a ∈ l /\ r = Ret a) \/ (l = [] /\ r = Panic "select from an empty collection");
  index x size := if decide (0 < size)%nat then Ret (Z.to_nat (x mod Z.of_nat size)) else Panic "empty" |}.
#[local] Instance set_proptest_laws : ProptestLaws.
Proof.
  split; try (intros; cbn; done).
  - intros A l. cbn. unfold set_union. destruct (_ || _) eqn:E.
    + split; [intros _|by eauto]. apply orb_true_iff in E as [E'%bool_decide_eq_true|(x & Hx & ?)%existsb_exists].
      * left. by destruct l.
      * right. apply Exists_exists. exists x. split; [by apply list_elem_of_In|lia].
    + split; [intros [? ?]; done|]. apply orb_false_iff in E as [E1%bool_decide_eq_false E2]. intros [->|(x & Hx & ?)%Exists_exists]; [done|].
      enough (true = false) by done. rewrite <- E2. symmetry. apply existsb_exists. exists x. split; [by apply list_elem_of_In|lia].
  - intros A l s r. cbn. unfold set_union. destruct (_ || _); [done|]. by intros [= <-].
  - intros x size Hs. cbn. rewrite decide_True by done. eexists. split; [done|]. pose proof (Z.mod_pos_bound x (Z.of_nat size) ltac:(lia)). lia.
Qed.
#[local] Instance toy_lib : FuzzLib := {|
  encode_input f l := Some (fn_selector f);
  decode_input f b := Some [];
  fn_signature := fn_name;
  lossy_trimmed b := b;
  is_push op := (PUSH1 <=? op) && (op <=? PUSH1 + 31) |}.

Lemma toy_lossy b : Forall is_byte b -> Forall is_byte (lossy_trimmed b).
Proof. done. Qed.

(** ** Call data *)
Definition transfer : Function := mkFunction "transfer" [1; 2; 3; 4] [PAddress; PUint 256; PArray (PTuple [PInt 8; PFixedBytes 4])] NonPayable.
Definition small_dictionary : FuzzDictionary := mkDictionary {[0; 5; 7]} ∅.
Lemma small_usable : usable 3 small_dictionary.
Proof. split; [vm_compute; lia|]. intros v Hv. cbn in Hv. unfold is_u256, U256_MAX. set_solver by lia. Qed.
Lemma transfer_solidity : Forall solidity (inputs transfer).
Proof. repeat constructor; cbn; lia. Qed.

Definition toy_targets : gmap Address (string * list Function * list Function) := {[ 77 := ("Token"%string, [transfer], []) ]}.
Lemma toy_callable : callable_targets toy_targets.
Proof.
  split; [exists 77, ("Token"%string, [transfer], []); split; [done|discriminate]|]. intros a name abi functions Ha _.
  unfold toy_targets in Ha. apply lookup_singleton_Some in Ha as [<- [= <- <- <-]]. split; [exists transfer; split; [left|done]|].
  intros f [Hf _]. apply list_elem_of_singleton in Hf as ->. apply transfer_solidity.
Qed.
Definition toy_call : exec (Address * (Address * list byte)) := Ret (1, (77, [1; 2; 3; 4])).
Lemma toy_call_generated : generates (generate_call small_dictionary (senders_new [] [5]) toy_targets 80) toy_call.
Proof.
  exists (Ret (77, [transfer], [])). split.
  { exists (Ret (77, ("Token"%string, [transfer], []))). split; [|reflexivity]. left. eexists. split; [|reflexivity].
    apply list_elem_of_filter. split; [discriminate|]. by apply elem_of_map_to_list. }
  exists (Ret transfer). split; [left; exists transfer; split; [left|reflexivity]|].
  exists (Ret 1), (Ret (77, [1; 2; 3; 4])). split; [|split; [|reflexivity]].
  - split; [|by intros a [= <-]]. eexists _, _. split; [left|]. exists (Ret (TAddress 1)). split; [|reflexivity].
    exists (Ret (to_be_bytes 20 1)). split; [|reflexivity]. exists (to_be_bytes 20 1). split; [|reflexivity]. destruct (to_be_bytes_ok 20 1). by split.
  - exists (Ret [1; 2; 3; 4]). split; [|reflexivity]. eexists _, _. split; [left|]. exists (Ret [TAddress 1; TUint 2; TArray []]). split; [|reflexivity].
    assert (exactly (all_of (map fuzz_param (inputs transfer))) (Forall2 drawable (inputs transfer))) as Hall.
    { apply exactly_all. eapply Forall_impl; [exact transfer_solidity|]. intros p Hp. by apply fuzz_param_exactly. }
    apply Hall. eexists. split; [reflexivity|]. repeat constructor; cbn; lia.
Qed.
Lemma generated_calls_allowed_witness :
  exists c, toy_call = Ret c /\ call_allowed (senders_new [] [5]) toy_targets c /\ c.1 <> 0.
Proof.
  apply (generated_calls_allowed) with (st := small_dictionary) (weight := 80); [by intros b Hb|intros f l _; by exists (fn_selector f)| |lia|exact toy_callable|exact toy_call_generated].
  change (size (state_values small_dictionary)) with 3%nat. exact small_usable.
Defined.

(** ** Breaking an invariant *)
Definition both_called (ex : list Address) : bool := bool_decide (7 ∈ ex) && bool_decide (9 ∈ ex).
Definition toy_result (ex : list Address) (s a : Address) : RawCallResult :=
  mkRawCall ((a =? 500) && both_called ex) [] 1 0 [] (Some {[ s := mkFuzzAccount default_account [] false ]}) 0.
#[local] Instance toy_evm : FuzzEvm := {|
  Executor := list Address;
  call_raw inner ex s a d := Ok (toy_result ex s a);
  commit changes ex := ex ++ (map_to_list changes).*1;
  call_raw_committing ex s a d := Ok (toy_result ex s a, ex ++ [s]);
  is_success inner ex a reverted changes should_fail := true;
  replay_inner l ex := ex;
  decode_revert b abi status := Ok ""%string |}.
Definition no_calls : Executor := ([] : list Address).
Definition inv : Function := mkFunction "invariant_apart" [9; 9; 9; 9] [] View.
Definition toy_setup : InvariantSetup :=
  mkInvariantSetup (mkInvariantConfig 3 false false true (mkDictConfig 80 true true 100 100)) (mkInvariantContract 500 [inv] [inv]) ∅ [] (mkFilters ∅ []).
Definition toy_run : exec InvariantFuzzTestResult :=
  invariant_fuzz toy_setup no_calls [] small_dictionary toy_targets [([(7, (77, []))], fun _ _ _ => Some [(9, (77, []))])].
Definition toy_broken : bool :=
  match toy_run with
  | Ret res => match ir_invariants res !! "invariant_apart"%string with Some (Some _) => true | _ => false end
  | Panic _ => false
  end.

(** ** Shrinking *)
Definition toy_calls : list (Address * (Address * list byte)) := [(1, (77, [])); (7, (77, [])); (2, (77, [])); (9, (77, [])); (3, (77, []))].
Definition toy_error : InvariantFuzzError := mkInvariantError [] (FailWith "invariant_apart" toy_calls) "" 500 (Some [9; 9; 9; 9]) [] true.
Lemma try_shrinking_ok_witness :
  exists l, try_shrinking toy_error toy_calls no_calls = Ret (Some l) /\ l `sublist_of` toy_calls /\
    fails_successfully toy_error no_calls l 0 [] = Ret (Some l).
Proof.
  destruct (try_shrinking_ok toy_error no_calls toy_calls) as (l & Hl & Hs & Hf & _); [intros; by eexists|intros; by eexists|].
  exists l. split; [exact Hl|]. split; [exact Hs|]. apply (Hf (take 4 toy_calls)). vm_compute. reflexivity.
Defined.

(** The parts of a list. *)
Fixpoint parts {X} (l : list X) : list (list X) := match l with [] => [[]] | x :: l => parts l ++ (cons x <$> parts l) end.
Lemma parts_complete {X} (K l : list X) : K `sublist_of` l -> K ∈ parts l.
Proof.
  induction 1 as [|x K l _ IH|x K l _ IH]; cbn; [left| |]; rewrite elem_of_app; [right; apply list_elem_of_fmap; eauto|by left].
Qed.
Lemma try_shrinking_finds_culprits_witness :
  try_shrinking toy_error toy_calls no_calls = Ret (Some [(7, (77, [])); (9, (77, []))]).
Proof.
  apply (try_shrinking_finds_culprits toy_error no_calls toy_calls [1%nat; 3%nat]); [intros; by eexists|intros; by eexists|discriminate| |].
  - intros i Hi. cbn. set_solver by lia.
  - intros K HK%parts_complete Hne. revert K HK Hne.
    assert (Forall (fun K => K <> [] -> breaks toy_error no_calls K.*2 = true <-> [1%nat; 3%nat] ⊆ K.*1) (parts (ix toy_calls))) as Hall.
    { assert (forallb (fun K => bool_decide (K = []) || Bool.eqb (breaks toy_error no_calls K.*2) (bool_decide (1%nat ∈ K.*1) && bool_decide (3%nat ∈ K.*1))) (parts (ix toy_calls)) = true) as Hc by (vm_compute; reflexivity).
      apply Forall_forall. intros K HK Hne. rewrite forallb_forall in Hc. specialize (Hc K (proj1 (list_elem_of_In _ _) HK)).
      rewrite bool_decide_eq_false_2 in Hc by exact Hne. rewrite orb_false_l in Hc. apply Bool.eqb_prop in Hc. rewrite Hc, andb_true_iff, !bool_decide_eq_true. set_solver. }
    rewrite Forall_forall in Hall. exact Hall.
Defined.
