(* ===== verification/CastBase.v ===== *)
(** * Numbers and bases of cast (cast/src/base.rs)

    [Base], its parsing and detection, [NumberWithBase] with its parsers and
    formatters, and the [ToBase] trait.  Text is [string], one character per
    byte.  What the code takes from the Standard Library ([u128::from_str_radix],
    [char::from_digit], [Formatter::pad_integral]) is written out; the parsing
    and printing of [U256] and [I256] belong to other packages and are the class
    [U256Text], with what they document in [U256TextLaws]. *)
From S2P Require Import Prelude.
From Stdlib Require Import Ascii.
Open Scope Z_scope.

(** ** Strings *)
(** [str::strip_prefix] *)
Fixpoint strip_prefix (p s : string) : option string :=
  match p, s with
  | EmptyString, _ => Some s
  | String a p, String b s => if Ascii.eqb a b then strip_prefix p s else None
  | _, _ => None
  end.
Definition unwrap_or {A} (o : option A) (d : A) : A := match o with Some a => a | None => d end.

(** [n] copies of a character *)
Fixpoint repeat_char (c : ascii) (n : nat) : string :=
  match n with O => EmptyString | S n => String c (repeat_char c n) end.

(** ** Digits of a number *)
(** [char::from_digit]: [None] outside the radix; a radix over 36 panics. *)
Definition from_digit (num radix : Z) : exec (option ascii) :=
  if 36 <? radix then Panic "from_digit: radix is too high (maximum 36)"
  else if num <? radix then
    Ret (Some (ascii_of_nat (Z.to_nat (if num <? 10 then 48 + num else 97 + num - 10))))
  else Ret None.

(** [char::to_digit] *)
Definition to_digit (c : ascii) (radix : Z) : option Z :=
  let n := Z.of_nat (nat_of_ascii c) in
  let d := if (48 <=? n) && (n <=? 57) then Some (n - 48)
           else if (97 <=? n) && (n <=? 122) then Some (n - 97 + 10)
           else if (65 <=? n) && (n <=? 90) then Some (n - 65 + 10) else None in
  match d with Some d => if d <? radix then Some d else None | None => None end.

(** [core::num::IntErrorKind], the cases that [from_str_radix] gives *)
Inductive IntErrorKind := Empty | InvalidDigit | PosOverflow.

(** The digits after the sign, read from the left, of an unsigned type with the
    greatest value [max]. *)
Fixpoint uint_digits (max radix acc : Z) (s : string) : result Z IntErrorKind :=
  match s with
  | EmptyString => Ok acc
  | String c s =>
      match to_digit c radix with
      | None => Err InvalidDigit
      | Some d =>
          if max <? acc * radix then Err PosOverflow
          else if max <? acc * radix + d then Err PosOverflow
          else uint_digits max radix (acc * radix + d) s
      end
  end.

(** [from_str_radix] of the unsigned integers: a leading [+] is accepted, a
    leading [-] is a character that is no digit. *)
Definition uint_from_str_radix (max : Z) (s : string) (radix : Z) : result Z IntErrorKind :=
  match s with
  | EmptyString => Err Empty
  | String "+" EmptyString | String "-" EmptyString => Err InvalidDigit
  | String "+" s => uint_digits max radix 0 s
  | _ => uint_digits max radix 0 s
  end.
Definition u128_from_str_radix : string -> Z -> result Z IntErrorKind := uint_from_str_radix U128_MAX.

(** ** The packages' text of 256-bit numbers *)
Inductive FromStrRadixErrKind := InvalidCharacter | InvalidLength | UnsupportedRadix.

(** [I256] is the signed integer that it denotes. *)
Class U256Text := {
  u256_from_str_radix : string -> Z -> result Z FromStrRadixErrKind;
  u256_display : Z -> string;
  u256_lower_hex : Z -> string;
  u256_upper_hex : Z -> string;
  i256_display : Z -> string }.

(** [I256::from_raw] and [into_raw] *)
Definition i256_from_raw (n : Z) : Z := if n <? 2 ^ 255 then n else n - 2 ^ 256.
Definition i256_into_raw (n : Z) : Z := n mod 2 ^ 256.
Definition is_i256 (n : Z) : Prop := - 2 ^ 255 <= n < 2 ^ 255.

(** ** Errors *)
Inductive Base := Binary | Octal | Decimal | Hexadecimal.
#[export] Instance Base_eq_dec : EqDecision Base.
Proof. solve_decision. Defined.

Inductive CastError :=
| InvalidBase (s : string)
| InvalidBaseNumber (n : Z)
| BadBinary (e : IntErrorKind)
| BadOctal (e : IntErrorKind)
| NumberTooBig
| BadHexadecimal (e : FromStrRadixErrKind)
| NoBase (e : FromStrRadixErrKind)
| UnsupportedInput (b : Base)
| ParseError (e : FromStrRadixErrKind)
| Message (s : string).

(** [eyre::Result] of code that can panic, with the [?] operator as its bind. *)
Definition fallible (A : Type) : Type := exec (result A CastError).
#[export] Instance fallible_bind : MBind fallible := fun A B f m =>
  match m with Ret (Ok a) => f a | Ret (Err e) => Ret (Err e) | Panic w => Panic w end.
Definition ok {A} (a : A) : fallible A := Ret (Ok a).
Definition bail {A} (e : CastError) : fallible A := Ret (Err e).
(** a call that cannot fail but can panic *)
Definition total {A} (m : exec A) : fallible A :=
  match m with Ret a => Ret (Ok a) | Panic w => Panic w end.

(** ** [Base] *)
Definition base_u32 (b : Base) : Z :=
  match b with Binary => 2 | Octal => 8 | Decimal => 10 | Hexadecimal => 16 end.
(** [Default::default] *)
Definition base_default : Base := Decimal.
(** [to_string]: the radix in decimal *)
Definition base_display (b : Base) : string :=
  match b with Binary => "2" | Octal => "8" | Decimal => "10" | Hexadecimal => "16" end.

(** No letter outside ASCII has a lower case that occurs in these names, so
    lower-casing ASCII decides the match as [str::to_lowercase] does. *)
Definition base_from_str (s : string) : result Base CastError :=
  match assoc_str (to_lowercase s)
    [("2", Binary); ("b", Binary); ("bin", Binary); ("binary", Binary);
     ("8", Octal); ("o", Octal); ("oct", Octal); ("octal", Octal);
     ("10", Decimal); ("d", Decimal); ("dec", Decimal); ("decimal", Decimal);
     ("16", Hexadecimal); ("h", Hexadecimal); ("hex", Hexadecimal); ("hexadecimal", Hexadecimal)] with
  | Some b => Ok b
  | None => Err (InvalidBase (to_lowercase s))
  end.
(** [TryFrom<String>] *)
Definition base_try_from (s : string) : result Base CastError := base_from_str s.

Definition base_try_from_u32 (n : Z) : result Base CastError :=
  if n =? 2 then Ok Binary else if n =? 8 then Ok Octal
  else if n =? 10 then Ok Decimal else if n =? 16 then Ok Hexadecimal
  else Err (InvalidBaseNumber n).
(** [low_u32] keeps the low 32 bits, of the two's complement for [I256]. *)
Definition base_try_from_i256 (n : Z) : result Base CastError :=
  base_try_from_u32 (i256_into_raw n mod 2 ^ 32).
Definition base_try_from_u256 (n : Z) : result Base CastError :=
  base_try_from_u32 (n mod 2 ^ 32).
(** [From<Base>] of [I256] and of [U256] *)
Definition base_i256 (b : Base) : Z := base_u32 b.
Definition base_u256 (b : Base) : Z := base_u32 b.
Definition base_string (b : Base) : string := base_display b.

Definition prefix (b : Base) : string :=
  match b with Binary => "0b" | Octal => "0o" | Hexadecimal => "0x" | Decimal => "" end.

(** ** Formatting flags *)
(** [std::fmt::Formatter] with the options that the program's format strings
    set; the fill is a space and the alignment the default one. *)
Record Formatter := mkFormatter {
  sign_plus : bool;
  alternate : bool;
  sign_aware_zero_pad : bool;
  width : option nat }.
Definition plain : Formatter := mkFormatter false false false None.     (* {} *)
Definition alt : Formatter := mkFormatter false true false None.        (* {:#} *)
Definition alt_066 : Formatter := mkFormatter false true true (Some 66%nat).  (* {:#066} *)

(** [Formatter::pad_integral]; integers are aligned to the right by default. *)
Definition pad_integral (f : Formatter) (is_nonnegative : bool) (pre buf : string) : string :=
  let sign := if negb is_nonnegative then "-" else if sign_plus f then "+" else "" in
  let pre := if alternate f then pre else "" in
  let w := (String.length buf + String.length sign + String.length pre)%nat in
  match width f with
  | None => sign +:+ pre +:+ buf
  | Some min =>
      if (min <=? w)%nat then sign +:+ pre +:+ buf
      else if sign_aware_zero_pad f then sign +:+ pre +:+ repeat_char "0" (min - w) +:+ buf
      else repeat_char " " (min - w) +:+ sign +:+ pre +:+ buf
  end.

(** ** [NumberWithBase] *)
Record NumberWithBase := mkNumber {
  number : Z;               (* U256 *)
  is_nonnegative : bool;
  base : Base }.

(** [Ord::overflowing_add] of the complement and one *)
Definition u256_not (n : Z) : Z := U256_MAX - n.
Definition u256_overflowing_add (a b : Z) : Z := (a + b) mod 2 ^ 256.

Definition with_base (n : NumberWithBase) (b : Base) : NumberWithBase :=
  mkNumber (number n) (is_nonnegative n) b.
Definition set_base (n : NumberWithBase) (b : Base) : NumberWithBase :=
  mkNumber (number n) (is_nonnegative n) b.
Definition number_prefix (n : NumberWithBase) : string := prefix (base n).
Definition new_number (n : Z) (nonneg : bool) (b : Base) : NumberWithBase := mkNumber n nonneg b.
Definition from_i256 (n : Z) : NumberWithBase :=
  new_number (i256_into_raw n) (negb (n <? 0)) base_default.
Definition from_u256 (n : Z) : NumberWithBase := new_number n true base_default.
(** [ethers_core::utils::ParseUnits] *)
Inductive ParseUnits := UnitsU256 (n : Z) | UnitsI256 (n : Z).
Definition from_parse_units (v : ParseUnits) : NumberWithBase :=
  match v with UnitsU256 n => from_u256 n | UnitsI256 n => from_i256 n end.
Definition number_into_i256 (n : NumberWithBase) : Z := i256_from_raw (number n).
Definition number_into_u256 (n : NumberWithBase) : Z := number n.

(** The loop of [format_radix]: [i] is the index that is written next and [buf]
    the cells after it; the result is [buf[i..]].  [i -= 1] at 0 panics. *)
Fixpoint format_radix_loop (i : nat) (radix x : Z) (buf : string) : exec string :=
  d ← from_digit (x mod radix) radix;
  c ← expect d "called `Option::unwrap()` on a `None` value";
  let x := x / radix in
  if x =? 0 then Ret (String c buf)
  else match i with
       | O => Panic "attempt to subtract with overflow"
       | S i => format_radix_loop i radix x (String c buf)
       end.
Definition format_radix (n : NumberWithBase) : exec string :=
  format_radix_loop 255 (base_u32 (base n)) (number n) EmptyString.

(** [get_sign] looks at the first byte. *)
Inductive Sign := Positive | Negative.
Definition get_sign (s : string) : string * Sign :=
  match s with
  | String "+" s' => (s', Positive)
  | String "-" s' => (s', Negative)
  | _ => (s, Positive)
  end.

Section Numbers.
Context `{!U256Text}.

(** ** Detecting the base *)
Definition detect_hex (s : string) : result Base CastError :=
  match u256_from_str_radix s 16 with
  | Ok _ => Ok Hexadecimal
  | Err InvalidLength => Err NumberTooBig
  | Err e => Err (BadHexadecimal e)
  end.
Definition detect_bare (s : string) : result Base CastError :=
  match u256_from_str_radix s 10 with
  | Ok _ => Ok Decimal
  | Err _ =>
      match u256_from_str_radix s 16 with
      | Ok _ => Ok Hexadecimal
      | Err InvalidLength => Err NumberTooBig
      | Err e => Err (NoBase e)
      end
  end.
Definition detect_prefixed (s : string) : result Base CastError :=
  match strip_prefix "0b" s with
  | Some r =>
      match u128_from_str_radix r 2 with
      | Ok _ => Ok Binary
      | Err PosOverflow => Ok Binary
      | Err e => Err (BadBinary e)
      end
  | None =>
      match strip_prefix "0o" s with
      | Some r =>
          match u128_from_str_radix r 8 with
          | Ok _ => Ok Octal
          | Err PosOverflow => Ok Octal
          | Err e => Err (BadOctal e)
          end
      | None =>
          match strip_prefix "0x" s with
          | Some _ => detect_hex s
          | None => detect_bare s
          end
      end
  end.
Fixpoint detect (s : string) : result Base CastError :=
  match s with
  | String "+" s' | String "-" s' => detect s'
  | _ => detect_prefixed s
  end.

Definition unwrap_or_detect (b : option string) (s : string) : result Base CastError :=
  match b with Some b => base_try_from b | None => detect s end.

(** ** Parsing *)
Definition _parse_uint (s : string) (b : Base) : result Z CastError :=
  match u256_from_str_radix s (base_u32 b) with
  | Ok n => Ok n
  | Err UnsupportedRadix => Err (UnsupportedInput b)
  | Err e => Err (ParseError e)
  end.
Definition _parse_int (s : string) (b : Base) : result (Z * bool) CastError :=
  let '(s, sign) := get_sign s in
  match _parse_uint s b with
  | Err e => Err e
  | Ok n =>
      let is_neg := match sign with Negative => true | Positive => false end in
      let n := if is_neg then u256_overflowing_add (u256_not n) 1 else n in
      Ok (n, negb is_neg)
  end.
Definition parse_int (s : string) (b : option string) : result NumberWithBase CastError :=
  match unwrap_or_detect b s with
  | Err e => Err e
  | Ok b =>
      match _parse_int s b with
      | Err e => Err e
      | Ok (n, nonneg) => Ok (mkNumber n nonneg b)
      end
  end.
Definition parse_uint (s : string) (b : option string) : result NumberWithBase CastError :=
  match unwrap_or_detect b s with
  | Err e => Err e
  | Ok b => match _parse_uint s b with Err e => Err e | Ok n => Ok (mkNumber n true b) end
  end.
(** [FromStr] *)
Definition number_from_str (s : string) : result NumberWithBase CastError := parse_int s None.

(** ** Formatting *)
Definition format (n : NumberWithBase) : exec string :=
  match base n with
  | Binary | Octal => format_radix n
  | Decimal =>
      if is_nonnegative n then Ret (u256_display (number n))
      else let s := i256_display (i256_from_raw (number n)) in
           Ret (unwrap_or (strip_prefix "-" s) s)
  | Hexadecimal => Ret (u256_lower_hex (number n))
  end.
(** [Debug]: in the number's own base *)
Definition fmt_debug (n : NumberWithBase) (f : Formatter) : exec string :=
  let pre := prefix (base n) in
  if number n =? 0 then Ret (pad_integral f true pre "0")
  else
    let nonneg := match base n with Decimal => is_nonnegative n | _ => true end in
    s ← format n;
    Ret (pad_integral f nonneg pre s).
Definition fmt_binary (n : NumberWithBase) (f : Formatter) : exec string := fmt_debug (with_base n Binary) f.
Definition fmt_octal (n : NumberWithBase) (f : Formatter) : exec string := fmt_debug (with_base n Octal) f.
Definition fmt_display (n : NumberWithBase) (f : Formatter) : exec string := fmt_debug (with_base n Decimal) f.
Definition fmt_lower_hex (n : NumberWithBase) (f : Formatter) : exec string := fmt_debug (with_base n Hexadecimal) f.
Definition fmt_upper_hex (n : NumberWithBase) (f : Formatter) : exec string :=
  Ret (pad_integral f true (prefix Hexadecimal) (u256_upper_hex (number n))).

(** ** [ToBase] *)
Definition number_to_base (n : NumberWithBase) (b : Base) (add_prefix : bool) : exec string :=
  let n := with_base n b in
  if add_prefix then fmt_debug n alt else fmt_debug n plain.
Definition i256_to_base (n : Z) (b : Base) (add_prefix : bool) : exec string :=
  let n := with_base (from_i256 n) b in
  if add_prefix then fmt_debug n alt else fmt_debug n plain.
Definition u256_to_base (n : Z) (b : Base) (add_prefix : bool) : exec string :=
  let n := with_base (from_u256 n) b in
  if add_prefix then fmt_debug n alt else fmt_debug n plain.
Definition str_to_base (s : string) (b : Base) (add_prefix : bool) : fallible string :=
  n ← (Ret (number_from_str s) : fallible NumberWithBase);
  let n := with_base n b in
  if add_prefix then total (fmt_debug n alt) else total (fmt_debug n plain).
End Numbers.
