(* ===== verification/CastBaseProps.v ===== *)
(** * Numerals (cast/src/base.rs)

    What a number's text must be, [numeral], and the theorems that the
    formatters of [CastBase] write it and its parsers read it back. *)
From S2P Require Import Prelude CastBase.
From Stdlib Require Import Ascii.
Open Scope Z_scope.

(** ** The text of a number in a base *)
(** The number that the digits after [acc] denote, upper and lower case. *)
Fixpoint value (r acc : Z) (s : string) : option Z :=
  match s with
  | EmptyString => Some acc
  | String c s => match to_digit c r with Some d => value r (acc * r + d) s | None => None end
  end.

(** The one text of [n] in base [r]: its digits in lower case, the first not 0
    unless it is the only one. *)
Record numeral (r n : Z) (s : string) : Prop := {
  numeral_value : value r 0 s = Some n;
  numeral_lower : to_lowercase s = s;
  numeral_head : match s with
                 | EmptyString => False
                 | String c s' => s' = EmptyString \/ c <> "0"%char
                 end }.

(** What the packages document of the text of 256-bit numbers. *)
Class U256TextLaws `{!U256Text} := {
  display_law n : is_u256 n -> numeral 10 n (u256_display n);
  lower_hex_law n : is_u256 n -> numeral 16 n (u256_lower_hex n);
  i256_display_law n : is_i256 n ->
    exists s, numeral 10 (Z.abs n) s /\ i256_display n = if n <? 0 then String "-" s else s;
  dec_law s n : s <> EmptyString -> value 10 0 s = Some n ->
    u256_from_str_radix s 10 = if U256_MAX <? n then Err InvalidLength else Ok n;
  dec_bad s : s <> EmptyString -> value 10 0 s = None -> exists e, u256_from_str_radix s 10 = Err e;
  hex_law s n : s <> EmptyString -> value 16 0 s = Some n -> (String.length s <= 64)%nat ->
    u256_from_str_radix s 16 = Ok n /\ u256_from_str_radix ("0x" +:+ s) 16 = Ok n;
  radix_law s r : r <> 10 -> r <> 16 -> u256_from_str_radix s r = Err UnsupportedRadix }.

(** ** Strings *)
Lemma string_app_nil s : s +:+ EmptyString = s.
Proof. induction s as [|c s IH]; [done|]. change (String c (s +:+ EmptyString) = String c s). by rewrite IH. Qed.
Lemma string_app_cons c s t : String c s +:+ t = String c (s +:+ t).
Proof. done. Qed.
Lemma string_app_assoc s t u : (s +:+ t) +:+ u = s +:+ t +:+ u.
Proof. induction s as [|c s IH]; [done|]. by rewrite !string_app_cons, IH. Qed.
Lemma string_app_length s t : String.length (s +:+ t) = (String.length s + String.length t)%nat.
Proof. induction s as [|c s IH]; [done|]. rewrite string_app_cons. cbn. by rewrite IH. Qed.
Lemma repeat_char_length c n : String.length (repeat_char c n) = n.
Proof. induction n as [|n IH]; [done|]. cbn. by rewrite IH. Qed.

(** ** Digits *)
Definition digit_char (d : Z) : ascii :=
  ascii_of_nat (Z.to_nat (if d <? 10 then 48 + d else 97 + d - 10)).

Lemma from_digit_Ret d r : d < r -> r <= 36 -> from_digit d r = Ret (Some (digit_char d)).
Proof.
  intros Hd Hr. unfold from_digit.
  rewrite (proj2 (Z.ltb_ge 36 r)) by lia. by rewrite (proj2 (Z.ltb_lt d r)) by lia.
Qed.

(** The characters of the digits, decided by listing them. *)
Definition digit_ok (d : Z) : bool :=
  bool_decide (to_digit (digit_char d) (d + 1) = Some d) && Ascii.eqb (ascii_lower (digit_char d)) (digit_char d)
    && (if d =? 0 then true else negb (Ascii.eqb (digit_char d) "0")).
Lemma digits_ok d : 0 <= d < 36 -> digit_ok d = true.
Proof.
  intros Hd.
  assert (forallb (fun k => digit_ok (Z.of_nat k)) (seq 0 36) = true) as Hall by (vm_compute; reflexivity).
  rewrite forallb_forall in Hall. specialize (Hall (Z.to_nat d)).
  rewrite Z2Nat.id in Hall by lia. apply Hall. apply in_seq. lia.
Qed.

Lemma to_digit_mono c r r' d : to_digit c r = Some d -> r <= r' -> to_digit c r' = Some d.
Proof.
  unfold to_digit. destruct (if _ && _ then _ else _) as [k|]; [|done].
  destruct (Z.ltb_spec k r); [|done]. intros [= ->] Hr.
  by rewrite (proj2 (Z.ltb_lt d r')) by lia.
Qed.
Lemma to_digit_range c r d : to_digit c r = Some d -> 0 <= d < r.
Proof.
  unfold to_digit. set (n := Z.of_nat (nat_of_ascii c)).
  destruct (Z.leb_spec 48 n), (Z.leb_spec n 57), (Z.leb_spec 97 n), (Z.leb_spec n 122), (Z.leb_spec 65 n), (Z.leb_spec n 90);
    cbn [andb]; try done; case_match eqn:E; try done; intros [= <-]; apply Z.ltb_lt in E; lia.
Qed.
Lemma digit_char_value d r : 0 <= d < r -> r <= 36 -> to_digit (digit_char d) r = Some d.
Proof.
  intros Hd Hr. pose proof (digits_ok d ltac:(lia)) as Hok. unfold digit_ok in Hok.
  apply andb_prop in Hok as [[Hv _]%andb_prop _]. apply bool_decide_eq_true in Hv.
  eapply to_digit_mono; [exact Hv|lia].
Qed.
Lemma digit_char_lower d : 0 <= d < 36 -> ascii_lower (digit_char d) = digit_char d.
Proof.
  intros Hd. pose proof (digits_ok d Hd) as Hok. unfold digit_ok in Hok.
  apply andb_prop in Hok as [[_ Hl]%andb_prop _]. by apply Ascii.eqb_eq.
Qed.
Lemma digit_char_zero d : 0 < d < 36 -> digit_char d <> "0"%char.
Proof.
  intros Hd. pose proof (digits_ok d ltac:(lia)) as Hok. unfold digit_ok in Hok.
  apply andb_prop in Hok as [_ Hz]. rewrite (proj2 (Z.eqb_neq d 0)) in Hz by lia.
  apply negb_true_iff in Hz. by apply Ascii.eqb_neq.
Qed.
(** A lower-case digit is the character of its value. *)
Lemma to_digit_char c r d :
  to_digit c r = Some d -> r <= 36 -> ascii_lower c = c -> c = digit_char d.
Proof.
  intros Hd Hr Hl. apply (to_digit_mono _ _ 36) in Hd; [|done].
  assert (forallb (fun k => let a := ascii_of_nat k in
     match to_digit a 36 with
     | Some d => Ascii.eqb a (digit_char d) || negb (Ascii.eqb (ascii_lower a) a)
     | None => true
     end) (seq 0 256) = true) as Hall by (vm_compute; reflexivity).
  rewrite forallb_forall in Hall. specialize (Hall (nat_of_ascii c)). cbv zeta in Hall.
  rewrite ascii_nat_embedding, Hd in Hall.
  apply Ascii.eqb_eq in Hl. rewrite Hl, orb_false_r in Hall.
  apply Ascii.eqb_eq, Hall, in_seq. pose proof (nat_ascii_bounded c). lia.
Qed.

(** ** Values of digit strings *)
Section Values.
Variable r : Z.
Hypothesis r_range : 2 <= r <= 36.

Lemma value_app acc s t :
  value r acc (s +:+ t) = match value r acc s with Some n => value r n t | None => None end.
Proof.
  revert acc. induction s as [|c s IH]; intros acc; [done|]. rewrite string_app_cons. cbn.
  destruct (to_digit c r); [apply IH|done].
Qed.
(** [value] from [acc] is [acc] shifted by as many digits, plus the value. *)
Lemma value_shift acc s :
  value r acc s = match value r 0 s with Some n => Some (acc * r ^ Z.of_nat (String.length s) + n) | None => None end.
Proof.
  revert acc. induction s as [|c s IH]; intros acc.
  { cbn. f_equal. lia. }
  cbn [value String.length]. destruct (to_digit c r) as [d|]; [|done].
  rewrite (IH (acc * r + d)), (IH (0 * r + d)). destruct (value r 0 s) as [n|]; [|done].
  f_equal. rewrite Nat2Z.inj_succ, Z.pow_succ_r by lia. ring.
Qed.
Lemma value_range s n : value r 0 s = Some n -> 0 <= n < r ^ Z.of_nat (String.length s).
Proof.
  revert n. induction s as [|c s IH]; intros n; [intros [= <-]; cbn; lia|].
  cbn [value String.length]. destruct (to_digit c r) as [d|] eqn:Hd; [|done].
  rewrite value_shift. destruct (value r 0 s) as [m|] eqn:Hm; [|done]. intros [= <-].
  specialize (IH m eq_refl). apply to_digit_range in Hd.
  rewrite Nat2Z.inj_succ, Z.pow_succ_r by lia.
  set (p := r ^ Z.of_nat (String.length s)) in *. nia.
Qed.
Lemma value_cons c s n :
  value r 0 (String c s) = Some n ->
  exists d m, to_digit c r = Some d /\ value r 0 s = Some m /\ n = d * r ^ Z.of_nat (String.length s) + m.
Proof.
  cbn [value]. destruct (to_digit c r) as [d|] eqn:Hd; [|done]. rewrite value_shift.
  destruct (value r 0 s) as [m|]; [|done]. intros [= <-]. exists d, m. split_and!; [done..|]. ring.
Qed.

(** Two lower-case texts of one length with one value are equal. *)
Lemma value_inj s t n :
  value r 0 s = Some n -> value r 0 t = Some n -> to_lowercase s = s -> to_lowercase t = t ->
  String.length s = String.length t -> s = t.
Proof.
  revert t n. induction s as [|c s IH]; intros [|c' t] n Hs Ht Ls Lt Hlen; try done.
  apply value_cons in Hs as (d & m & Hd & Hm & ->). apply value_cons in Ht as (d' & m' & Hd' & Hm' & Heq).
  injection Hlen as Hlen. injection Ls as Lc Ls. injection Lt as Lc' Lt. rewrite Hlen in Heq.
  pose proof (value_range _ _ Hm) as Rm. pose proof (value_range _ _ Hm') as Rm'. rewrite Hlen in Rm.
  set (p := r ^ Z.of_nat (String.length t)) in *.
  assert (d = d') as <- by nia. assert (m = m') as <- by nia.
  f_equal; [|by eapply IH].
  rewrite (to_digit_char _ _ _ Hd), (to_digit_char _ _ _ Hd') by (done || lia). done.
Qed.

(** ** Numerals *)
Lemma numeral_bound n s : numeral r n s ->
  0 <= n < r ^ Z.of_nat (String.length s) /\
  (n = 0 -> s = "0"%string) /\ (0 < n -> r ^ (Z.of_nat (String.length s) - 1) <= n).
Proof.
  intros [Hv Hl Hh]. destruct s as [|c s]; [done|].
  pose proof (value_range _ _ Hv) as Hr. apply value_cons in Hv as (d & m & Hd & Hm & ->).
  pose proof (value_range _ _ Hm) as Rm. injection Hl as Hc Hl.
  pose proof (to_digit_range _ _ _ Hd) as Rd.
  rewrite (to_digit_char _ _ _ Hd) in Hh |- * by (done || lia).
  split; [done|]. cbn [String.length].
  replace (Z.of_nat (S (String.length s)) - 1) with (Z.of_nat (String.length s)) by lia.
  assert (d <> 0 \/ s = EmptyString) as Hcase.
  { destruct (decide (d = 0)) as [->|]; [|by left]. right. destruct Hh as [->|Hh]; [done|]. by contradict Hh. }
  assert (0 < r ^ Z.of_nat (String.length s)) as Hp by (apply Z.pow_pos_nonneg; lia).
  destruct Hcase as [Hd0|Hs].
  - split; intros H0; nia.
  - subst s. injection Hm as <-. cbn. split; intros H0; [|lia]. by assert (d = 0) as -> by lia.
Qed.

(** A number has one numeral. *)
Lemma numeral_unique n s t : numeral r n s -> numeral r n t -> s = t.
Proof.
  intros Hs Ht. pose proof (numeral_bound _ _ Hs) as (Rs & Zs & Ps).
  pose proof (numeral_bound _ _ Ht) as (Rt & Zt & Pt).
  destruct (decide (n = 0)) as [Hn|Hn]; [by rewrite Zs, Zt|].
  eapply value_inj; [apply Hs|apply Ht|apply Hs|apply Ht|].
  destruct (Nat.lt_trichotomy (String.length s) (String.length t)) as [Hlt|[Heq|Hlt]]; [|done|].
  - assert (r ^ Z.of_nat (String.length s) <= r ^ (Z.of_nat (String.length t) - 1)) by (apply Z.pow_le_mono_r; lia). lia.
  - assert (r ^ Z.of_nat (String.length t) <= r ^ (Z.of_nat (String.length s) - 1)) by (apply Z.pow_le_mono_r; lia). lia.
Qed.

Lemma numeral_nonempty n s : numeral r n s -> s <> EmptyString.
Proof. intros [_ _ Hh] ->. done. Qed.
Lemma numeral_length n s k : numeral r n s -> n < r ^ Z.of_nat k -> (0 < k)%nat -> (String.length s <= k)%nat.
Proof.
  intros Hs Hn Hk. pose proof (numeral_bound _ _ Hs) as (Rs & Zs & Ps).
  destruct (decide (n = 0)) as [->|Hn0]; [rewrite Zs by done; cbn; lia|].
  destruct (decide (String.length s <= k)%nat) as [|Hlt]; [done|].
  assert (r ^ Z.of_nat k <= r ^ (Z.of_nat (String.length s) - 1)) by (apply Z.pow_le_mono_r; lia). lia.
Qed.
End Values.

(** ** Formatting in any base *)
Lemma numeral_digit r d : 2 <= r <= 36 -> 0 <= d < r -> numeral r d (String (digit_char d) EmptyString).
Proof.
  intros Hr Hd. split; [|cbn; by rewrite digit_char_lower by lia|by left].
  cbn. rewrite digit_char_value by lia. f_equal.
Qed.
Lemma lowercase_app s t : to_lowercase (s +:+ t) = to_lowercase s +:+ to_lowercase t.
Proof. induction s as [|c s IH]; [done|]. rewrite string_app_cons. cbn. by rewrite IH, string_app_cons. Qed.
Lemma numeral_snoc r n s d :
  2 <= r <= 36 -> 0 < n -> 0 <= d < r -> numeral r n s ->
  numeral r (n * r + d) (s +:+ String (digit_char d) EmptyString).
Proof.
  intros Hr Hn Hd Hs. pose proof Hs as [Hv Hl Hh]. split.
  - rewrite value_app, Hv. cbn. by rewrite digit_char_value by lia.
  - rewrite lowercase_app, Hl. cbn. by rewrite digit_char_lower by lia.
  - destruct s as [|c s]; [done|]. rewrite string_app_cons. right.
    destruct Hh as [->|]; [|done]. pose proof (numeral_bound r Hr _ _ Hs) as (Hb & _).
    cbn in Hv. destruct (to_digit c r) as [e|] eqn:He; [|done]. injection Hv as Hv.
    injection Hl as Hc. rewrite (to_digit_char _ _ _ He) by (done || lia).
    apply digit_char_zero. apply to_digit_range in He. lia.
Qed.

Lemma format_radix_loop_numeral r i x buf :
  2 <= r <= 36 -> 0 <= x < r ^ (Z.of_nat i + 1) ->
  exists s, numeral r x s /\ format_radix_loop i r x buf = Ret (s +:+ buf).
Proof.
  intros Hr. revert x buf. induction i as [|i IH]; intros x buf Hx; cbn [format_radix_loop];
    pose proof (Z.mod_pos_bound x r ltac:(lia)) as Hm; pose proof (Z.div_mod x r ltac:(lia)) as Hdm;
    rewrite from_digit_Ret by lia; cbn [mbind exec_bind expect].
  - change (Z.of_nat 0 + 1) with 1 in Hx. rewrite Z.pow_1_r in Hx.
    rewrite Z.div_small, Z.mod_small by lia. eexists; split; [by apply numeral_digit|done].
  - destruct (Z.eqb_spec (x / r) 0) as [Hq|Hq].
    { exists (String (digit_char (x mod r)) EmptyString); split; [|done]. replace (x mod r) with x by lia. apply numeral_digit; lia. }
    replace (Z.of_nat (S i) + 1) with ((Z.of_nat i + 1) + 1) in Hx by lia. rewrite Z.pow_add_r, Z.pow_1_r in Hx by lia.
    assert (0 <= x / r < r ^ (Z.of_nat i + 1)) as Hq'.
    { split; [apply Z.div_pos; lia|]. apply Z.div_lt_upper_bound; lia. }
    destruct (IH (x / r) (String (digit_char (x mod r)) buf) Hq') as (s & Hs & ->).
    exists (s +:+ String (digit_char (x mod r)) EmptyString). split.
    + replace x with (x / r * r + x mod r) at 1 by lia. apply numeral_snoc; [done|lia..|done].
    + by rewrite string_app_assoc.
Qed.

Lemma format_radix_ok n :
  is_u256 (number n) ->
  exists s, format_radix n = Ret s /\ numeral (base_u32 (base n)) (number n) s /\ (String.length s <= 256)%nat.
Proof.
  intros Hn. assert (2 <= base_u32 (base n) <= 36) as Hr by (destruct (base n); cbn; lia).
  assert (number n < base_u32 (base n) ^ 256) as Hlt.
  { unfold is_u256, U256_MAX in Hn. assert (2 ^ 256 <= base_u32 (base n) ^ 256) by (apply Z.pow_le_mono_l; lia). lia. }
  destruct (format_radix_loop_numeral (base_u32 (base n)) 255 (number n) EmptyString Hr) as (s & Hs & He).
  { unfold is_u256 in Hn. change (Z.of_nat 255 + 1) with 256. lia. }
  exists s. unfold format_radix. rewrite He, string_app_nil. split_and!; [done..|].
  eapply numeral_length; [exact Hr|exact Hs|exact Hlt|lia].
Qed.

(** Binary and octal formatting never runs past the 256 cells of its buffer
    nor panics: for every 256-bit number [format_radix] returns the one numeral
    of the number in its base, of at most 256 digits. *)
Theorem format_radix_numeral n :
  is_u256 (number n) ->
  exists s, format_radix n = Ret s /\ numeral (base_u32 (base n)) (number n) s /\ (String.length s <= 256)%nat.
Proof. apply format_radix_ok. Qed.

(** ** Reading numbers back *)
Lemma detect_unsigned `{!U256Text} c s :
  c <> "+"%char -> c <> "-"%char -> detect (String c s) = detect_prefixed (String c s).
Proof. intros Hp Hm. destruct c as [[][][][][][][][]]; done. Qed.
Lemma get_sign_unsigned c s : c <> "+"%char -> c <> "-"%char -> get_sign (String c s) = (String c s, Positive).
Proof. intros Hp Hm. destruct c as [[][][][][][][][]]; done. Qed.
Lemma digit_not_sign c r d : to_digit c r = Some d -> c <> "+"%char /\ c <> "-"%char.
Proof. intros Hd. split; intros ->; done. Qed.

(** Digits carry no prefix whose letter is no digit. *)
Lemma digits_no_prefix r c s n k :
  value r 0 s = Some n -> to_digit c r = None -> strip_prefix (String k (String c EmptyString)) s = None.
Proof.
  destruct s as [|a [|b s]]; cbn; [done|by destruct (Ascii.eqb k a)|].
  destruct (to_digit a r); [|done]. destruct (to_digit b r) as [d|] eqn:Hb; [|done].
  intros _ Hc. destruct (Ascii.eqb k a); [|done].
  destruct (Ascii.eqb_spec c b) as [->|]; [congruence|done].
Qed.

Section Laws.
Context `{!U256Text} `{!U256TextLaws}.

Lemma detect_decimal s n :
  value 10 0 s = Some n -> s <> EmptyString -> n <= U256_MAX -> detect s = Ok Decimal.
Proof.
  intros Hv Hs Hn. pose proof Hs as Hs'. destruct s as [|c s]; [done|].
  pose proof Hv as (d & m & Hd & _)%value_cons.
  destruct (digit_not_sign _ _ _ Hd). rewrite detect_unsigned by done. unfold detect_prefixed.
  rewrite !(digits_no_prefix _ _ _ _ _ Hv) by done. unfold detect_bare.
  rewrite (dec_law _ _ Hs' Hv). by rewrite (proj2 (Z.ltb_ge _ _)).
Qed.
Lemma detect_hexadecimal s n :
  value 16 0 s = Some n -> s <> EmptyString -> (String.length s <= 64)%nat -> detect ("0x" +:+ s) = Ok Hexadecimal.
Proof.
  intros Hv Hs Hlen. destruct (hex_law _ _ Hs Hv Hlen) as [_ Hp].
  change (detect_hex ("0x" +:+ s) = Ok Hexadecimal). unfold detect_hex. by rewrite Hp.
Qed.

Lemma parse_int_decimal s n :
  value 10 0 s = Some n -> s <> EmptyString -> n <= U256_MAX -> parse_int s None = Ok (mkNumber n true Decimal).
Proof.
  intros Hv Hs Hn. unfold parse_int. cbn [unwrap_or_detect]. rewrite (detect_decimal _ _ Hv Hs Hn).
  unfold _parse_int. pose proof Hs as Hs'. destruct s as [|c s]; [done|].
  pose proof Hv as (d & m & Hd & _)%value_cons.
  destruct (digit_not_sign _ _ _ Hd). rewrite get_sign_unsigned by done. unfold _parse_uint. cbn [base_u32].
  rewrite (dec_law _ _ Hs' Hv). by rewrite (proj2 (Z.ltb_ge _ _)).
Qed.
Lemma parse_uint_decimal s n :
  value 10 0 s = Some n -> s <> EmptyString -> n <= U256_MAX -> parse_uint s None = Ok (mkNumber n true Decimal).
Proof.
  intros Hv Hs Hn. unfold parse_uint. cbn [unwrap_or_detect]. rewrite (detect_decimal _ _ Hv Hs Hn).
  unfold _parse_uint. cbn [base_u32]. rewrite (dec_law _ _ Hs Hv). by rewrite (proj2 (Z.ltb_ge _ _)).
Qed.
Lemma parse_int_hexadecimal s n :
  value 16 0 s = Some n -> s <> EmptyString -> (String.length s <= 64)%nat ->
  parse_int ("0x" +:+ s) None = Ok (mkNumber n true Hexadecimal).
Proof.
  intros Hv Hs Hn. unfold parse_int. cbn [unwrap_or_detect]. rewrite (detect_hexadecimal _ _ Hv Hs Hn).
  unfold _parse_int. change (get_sign ("0x" +:+ s)) with ("0x" +:+ s, Positive). cbv iota beta.
  unfold _parse_uint. cbn [base_u32].
  by destruct (hex_law _ _ Hs Hv Hn) as [_ ->].
Qed.
(** A leading [-] gives the two's complement, whatever the size of the number. *)
Lemma parse_int_negative s n :
  value 10 0 s = Some n -> s <> EmptyString -> n <= U256_MAX ->
  parse_int (String "-" s) None = Ok (mkNumber ((- n) mod 2 ^ 256) false Decimal).
Proof.
  intros Hv Hs Hn. unfold parse_int. cbn [unwrap_or_detect].
  change (detect (String "-" s)) with (detect s). rewrite (detect_decimal _ _ Hv Hs Hn).
  unfold _parse_int. cbn [get_sign]. unfold _parse_uint. cbn [base_u32].
  rewrite (dec_law _ _ Hs Hv), (proj2 (Z.ltb_ge _ _)) by done. do 2 f_equal.
  unfold u256_overflowing_add, u256_not, U256_MAX.
  replace (2 ^ 256 - 1 - n + 1) with (- n + 1 * 2 ^ 256) by ring. by rewrite Z_mod_plus_full.
Qed.

(** ** Printing *)
(** The text of a signed number in decimal. *)
Definition decimal_text (z : Z) (s : string) : Prop :=
  exists t, numeral 10 (Z.abs z) t /\ s = if z <? 0 then String "-" t else t.
(** The number that stands for [z]: its two's complement and its sign. *)
Definition number_of (z : Z) : NumberWithBase := mkNumber (z mod 2 ^ 256) (0 <=? z) Decimal.

Lemma numeral_no_sign r n s : numeral r n s -> strip_prefix "-" s = None.
Proof.
  intros [Hv _ Hh]. destruct s as [|c s]; [done|]. apply value_cons in Hv as (d & m & Hd & _).
  destruct (digit_not_sign _ _ _ Hd) as [_ Hc]. change (strip_prefix "-" (String c s)) with (if Ascii.eqb "-" c then Some s else None). destruct (Ascii.eqb_spec "-" c) as [<-|]; done.
Qed.
Lemma numeral_zero r : 2 <= r <= 36 -> numeral r 0 "0".
Proof. intros Hr. by apply (numeral_digit r 0); lia. Qed.
Lemma pad_plain f nonneg p s :
  width f = None -> sign_plus f = false ->
  pad_integral f nonneg p s = (if nonneg then "" else "-") +:+ (if alternate f then p else "") +:+ s.
Proof. intros Hw Hp. unfold pad_integral. rewrite Hw, Hp. by destruct nonneg. Qed.

(** What [Debug] prints of a number in each base, without a width. *)
Lemma fmt_debug_unsigned n nonneg b f :
  is_u256 n -> width f = None -> sign_plus f = false -> b <> Decimal \/ nonneg = true ->
  exists s, numeral (base_u32 b) n s /\ fmt_debug (mkNumber n nonneg b) f = Ret ((if alternate f then prefix b else "") +:+ s).
Proof.
  intros Hn Hw Hp Hb. assert (2 <= base_u32 b <= 36) as Hr by (destruct b; cbn; lia). unfold fmt_debug. cbn [base number is_nonnegative].
  destruct (Z.eqb_spec n 0) as [->|Hn0].
  { exists "0"%string. split; [by apply numeral_zero|]. by rewrite pad_plain. }
  assert (exists s, numeral (base_u32 b) n s /\ format (mkNumber n nonneg b) = Ret s) as (s & Hs & ->).
  { unfold format. cbn [base number is_nonnegative]. destruct b.
    - destruct (format_radix_ok (mkNumber n nonneg Binary) Hn) as (s & ? & ? & _). by exists s.
    - destruct (format_radix_ok (mkNumber n nonneg Octal) Hn) as (s & ? & ? & _). by exists s.
    - destruct Hb as [| ->]; [done|]. eexists; split; [by apply display_law|done].
    - eexists; split; [by apply lower_hex_law|done]. }
  exists s. split; [done|]. cbn [mbind exec_bind]. rewrite pad_plain by done.
  destruct b; [done|done| |done]. by destruct Hb as [| ->].
Qed.
Lemma fmt_debug_negative n f :
  0 < n < 2 ^ 256 -> width f = None -> sign_plus f = false ->
  exists s, numeral 10 (Z.abs (i256_from_raw n)) s /\ fmt_debug (mkNumber n false Decimal) f = Ret (String "-" s).
Proof.
  intros Hn Hw Hp. unfold fmt_debug. cbn [base number is_nonnegative].
  rewrite (proj2 (Z.eqb_neq n 0)) by lia. unfold format. cbn [base number is_nonnegative].
  assert (is_i256 (i256_from_raw n)) as Hi.
  { unfold is_i256, i256_from_raw. destruct (Z.ltb_spec n (2 ^ 255)); lia. }
  destruct (i256_display_law _ Hi) as (s & Hs & ->). exists s. split; [done|].
  cbn [mbind exec_bind]. rewrite pad_plain by done. cbn [prefix base].
  assert (unwrap_or (strip_prefix "-" (if i256_from_raw n <? 0 then String "-" s else s))
            (if i256_from_raw n <? 0 then String "-" s else s) = s) as ->.
  { destruct (i256_from_raw n <? 0); [done|]. by rewrite (numeral_no_sign _ _ _ Hs). }
  by destruct (alternate f).
Qed.
Lemma from_raw_neg z : - 2 ^ 255 <= z < 0 -> i256_from_raw (z mod 2 ^ 256) = z /\ 0 < z mod 2 ^ 256 < 2 ^ 256.
Proof.
  intros Hz. replace (z mod 2 ^ 256) with (z + 2 ^ 256) by (apply (Z.mod_unique_pos _ _ (-1)); lia).
  unfold i256_from_raw. rewrite (proj2 (Z.ltb_ge _ _)); lia.
Qed.

(** Decimal printing of the number for [z]. *)
Lemma display_number_of z f :
  - 2 ^ 255 <= z < 2 ^ 256 -> width f = None -> sign_plus f = false ->
  exists s, decimal_text z s /\ fmt_display (number_of z) f = Ret s.
Proof.
  intros Hz Hw Hp. unfold fmt_display, number_of, with_base, decimal_text. cbn [number is_nonnegative].
  destruct (Z.leb_spec 0 z) as [Hpos|Hneg].
  - destruct (fmt_debug_unsigned (z mod 2 ^ 256) true Decimal f) as (s & Hs & He); [|done..|by right|].
    { unfold is_u256, U256_MAX. rewrite Z.mod_small; lia. }
    rewrite He, Z.mod_small in * by lia. exists s. split.
    + exists s. rewrite Z.abs_eq by lia. by rewrite (proj2 (Z.ltb_ge z 0)) by lia.
    + by destruct (alternate f).
  - destruct (from_raw_neg z ltac:(lia)) as [Hr Hn].
    destruct (fmt_debug_negative (z mod 2 ^ 256) f Hn Hw Hp) as (s & Hs & He). rewrite He.
    exists (String "-" s). split; [|done]. exists s. rewrite Hr in Hs. by rewrite (proj2 (Z.ltb_lt z 0)) by lia.
Qed.
Lemma parse_number_of z s :
  - 2 ^ 256 < z < 2 ^ 256 -> decimal_text z s -> parse_int s None = Ok (number_of z).
Proof.
  intros Hz (t & Ht & ->). pose proof Ht as [Hv _ _].
  assert (t <> EmptyString) as Hne by (eapply numeral_nonempty; exact Ht).
  unfold number_of. destruct (Z.ltb_spec z 0) as [Hneg|Hpos].
  - rewrite (parse_int_negative _ _ Hv Hne) by (unfold U256_MAX; lia).
    rewrite Z.abs_neq, Z.opp_involutive by lia. by rewrite (proj2 (Z.leb_gt 0 z)) by lia.
  - rewrite (parse_int_decimal _ _ Hv Hne) by (unfold U256_MAX; lia).
    rewrite Z.abs_eq, (proj2 (Z.leb_le 0 z)) by lia. by rewrite Z.mod_small by lia.
Qed.

Lemma print_parse_decimal z : - 2 ^ 255 <= z < 2 ^ 256 ->
  exists s, fmt_display (number_of z) plain = Ret s /\ decimal_text z s /\ parse_int s None = Ok (number_of z).
Proof.
  intros Hz. destruct (display_number_of z plain Hz) as (s & Hs & He); [done..|]. exists s.
  split_and!; [done..|]. apply parse_number_of; [lia|done].
Qed.
Lemma print_parse_hexadecimal n : is_u256 n ->
  exists s, fmt_lower_hex (from_u256 n) alt = Ret ("0x" +:+ s) /\ numeral 16 n s /\ parse_int ("0x" +:+ s) None = Ok (mkNumber n true Hexadecimal).
Proof.
  intros Hn. destruct (fmt_debug_unsigned n true Hexadecimal alt) as (s & Hs & He); [done..|by left|]. exists s.
  split_and!; [done..|]. apply parse_int_hexadecimal; [apply Hs|eapply numeral_nonempty; exact Hs|].
  eapply (numeral_length 16); [lia|exact Hs| |lia].
  change (Z.of_nat 64) with 64. change (16 ^ 64) with (2 ^ 256). unfold is_u256, U256_MAX in Hn. lia.
Qed.

(** C34: Printing and parsing are inverse on the signed 256-bit numbers: every
    number from the least to the greatest of them prints in decimal as its numeral
    with its sign, and parsing that text detects the decimal base and gives the
    number back; a number that is not negative, printed in hexadecimal with its
    prefix, is detected as such and read back too. *)
Theorem number_round_trip :
  (forall z, - 2 ^ 255 <= z < 2 ^ 255 ->
    exists s, fmt_display (number_of z) plain = Ret s /\ decimal_text z s /\ parse_int s None = Ok (number_of z)) /\
  (forall n, 0 <= n < 2 ^ 255 ->
    exists s, fmt_lower_hex (from_u256 n) alt = Ret ("0x" +:+ s) /\ numeral 16 n s /\
      parse_int ("0x" +:+ s) None = Ok (mkNumber n true Hexadecimal)).
Proof.
  split; [intros z Hz; apply print_parse_decimal; lia|intros n Hn; apply print_parse_hexadecimal]. unfold is_u256, U256_MAX. lia.
Qed.

(** The unsigned numbers above them are read and printed as well. *)
Theorem unsigned_max_read_back : exists s, fmt_display (number_of U256_MAX) plain = Ret s /\ parse_int s None = Ok (number_of U256_MAX).
Proof. destruct (print_parse_decimal U256_MAX) as (s & ? & _ & ?); [unfold U256_MAX; lia|]. by exists s. Qed.

(** A negative number below the least signed one is accepted, and printed as
    another number. *)
Theorem negative_overflow_misread n s :
  2 ^ 255 < n < 2 ^ 256 -> numeral 10 n s ->
  exists m t, parse_int (String "-" s) None = Ok m /\ fmt_display m plain = Ret (String "-" t) /\
    numeral 10 (2 ^ 256 - n) t.
Proof.
  intros Hn Hs. pose proof Hs as [Hv _ _].
  assert ((- n) mod 2 ^ 256 = 2 ^ 256 - n) as Hm by (symmetry; apply (Z.mod_unique_pos _ _ (-1)); lia).
  eexists _. rewrite (parse_int_negative _ _ Hv ltac:(by eapply numeral_nonempty; exact Hs)) by (unfold U256_MAX; lia). rewrite Hm.
  destruct (fmt_debug_negative (2 ^ 256 - n) plain) as (t & Ht & He); [lia|done..|].
  exists t. split_and!; [done|exact He|]. unfold i256_from_raw in Ht. rewrite (proj2 (Z.ltb_lt _ _)) in Ht by lia.
  by rewrite Z.abs_eq in Ht by lia.
Qed.

(** Binary and octal input is recognised but never read. *)
Theorem binary_input_unsupported s b :
  detect s = Ok b -> b = Binary \/ b = Octal -> parse_int s None = Err (UnsupportedInput b).
Proof.
  intros Hd Hb. unfold parse_int. cbn [unwrap_or_detect]. rewrite Hd. unfold _parse_int.
  destruct (get_sign s) as [t g]. unfold _parse_uint.
  rewrite (radix_law t (base_u32 b)); [done|destruct Hb as [->| ->]; cbn; lia..].
Qed.
End Laws.
