(* ===== verification/CastSimple.v ===== *)
(** * Conversions of cast (cast/src/lib.rs, [SimpleCast])

    The commands of cast that turn text into text without a node: ranges of the
    integer types, fixed-point numbers, words and addresses, units, bases,
    shifts, hashes, and the search for a function name whose selector starts
    with zeros.  [CastLib] holds what they call in other packages. *)
From Stdlib Require Import Ascii.
From stdpp Require Import pretty.
From S2P Require Import Prelude Fuzz CastBase.
Open Scope Z_scope.

(** ** Strings *)
Definition as_bytes (s : string) : list byte :=
  (fun c => Z.of_nat (nat_of_ascii c)) <$> String.list_ascii_of_string s.
Fixpoint string_take (n : nat) (s : string) : string :=
  match n, s with S n, String c s => String c (string_take n s) | _, _ => EmptyString end.
Fixpoint string_drop (n : nat) (s : string) : string :=
  match n, s with S n, String _ s => string_drop n s | _, _ => s end.
(** [String::insert] of one ASCII character *)
Definition string_insert (i : nat) (c : ascii) (s : string) : string :=
  string_take i s +:+ String c (string_drop i s).
(** [{s:0>w$}] and [{s:0<w$}] *)
Definition pad_left (c : ascii) (w : nat) (s : string) : string := repeat_char c (w - String.length s) +:+ s.
Definition pad_right (c : ascii) (w : nat) (s : string) : string := s +:+ repeat_char c (w - String.length s).

(** [trim_start_matches] and [trim_end_matches] strip a pattern again and again;
    a string holds it at most as often as it has characters. *)
Fixpoint trim_start_fuel (fuel : nat) (p s : string) : string :=
  match fuel with
  | O => s
  | S fuel => match strip_prefix p s with Some s' => trim_start_fuel fuel p s' | None => s end
  end.
Definition trim_start_matches (p s : string) : string := trim_start_fuel (String.length s) p s.
Definition strip_suffix (p s : string) : option string :=
  let k := (String.length s - String.length p)%nat in
  if (String.length p <=? String.length s)%nat && String.eqb (string_drop k s) p then Some (string_take k s) else None.
Fixpoint trim_end_fuel (fuel : nat) (p s : string) : string :=
  match fuel with
  | O => s
  | S fuel => match strip_suffix p s with Some s' => trim_end_fuel fuel p s' | None => s end
  end.
Definition trim_end_matches (p s : string) : string := trim_end_fuel (String.length s) p s.

(** [str::split_once] and [str::split] at a character *)
Fixpoint split_once (c : ascii) (s : string) : option (string * string) :=
  match s with
  | EmptyString => None
  | String a s =>
      if Ascii.eqb a c then Some (EmptyString, s)
      else match split_once c s with Some (l, r) => Some (String a l, r) | None => None end
  end.
Fixpoint split (c : ascii) (s : string) : list string :=
  match s with
  | EmptyString => [EmptyString]
  | String a s =>
      if Ascii.eqb a c then EmptyString :: split c s
      else match split c s with l :: r => String a l :: r | [] => [String a EmptyString] end
  end.

(** [char as u8 as char] pushed on a [String]: its UTF-8 bytes *)
Definition push_char (n : Z) : string :=
  if n <? 128 then String (ascii_of_nat (Z.to_nat n)) EmptyString
  else String (ascii_of_nat (Z.to_nat (192 + n / 64))) (String (ascii_of_nat (Z.to_nat (128 + n mod 64))) EmptyString).

(** ** Operators of [U256] and [I256] *)
(** The shift is read with [as_usize], which panics when it does not fit; a shift
    of 256 or more leaves nothing. *)
Definition u256_as_usize (a : Z) : exec Z :=
  if a <=? U64_MAX then Ret a else Panic "Integer overflow when casting to usize".
Definition u256_shl (a k : Z) : exec Z :=
  k ← u256_as_usize k; Ret (if k <? 256 then Z.shiftl a k mod 2 ^ 256 else 0).
Definition u256_shr (a k : Z) : exec Z :=
  k ← u256_as_usize k; Ret (if k <? 256 then Z.shiftr a k else 0).
Definition u256_sub_panic (a b : Z) : exec Z :=
  if b <=? a then Ret (a - b) else Panic "arithmetic operation overflow".
Definition usize_sub (a b : Z) : exec Z :=
  if b <=? a then Ret (a - b) else Panic "attempt to subtract with overflow".
Definition i256_wrapping_neg (a : Z) : Z := i256_from_raw ((- a) mod 2 ^ 256).
Definition i256_add (a b : Z) : exec Z :=
  if (- 2 ^ 255 <=? a + b) && (a + b <? 2 ^ 255) then Ret (a + b) else Panic "arithmetic operation overflow".

(** ** What other packages do *)
Class CastLib := {
  Units : Type;
  units_other : Z -> Units;
  units_try_from : string -> result Units string;
  units_as_num : Units -> Z;
  parse_units : string -> Z -> result ParseUnits string;
  format_units : Z -> Z -> result string string;
  parse_units_display : ParseUnits -> string;
  tokenize_uint : string -> result Z string;        (* LenientTokenizer, as a U256 *)
  parse_type : string -> result ParamType string;   (* HumanReadableParser *)
  parse_function : string -> result Function string;
  to_hex : list byte -> string;                     (* rustc_hex *)
  hex_encode : list byte -> string;                 (* hex *)
  hex_decode : string -> result (list byte) string;
  from_hex_iter : string -> list (result byte string);
  h256_from_str : string -> result Z string;
  h256_debug : Z -> string;
  address_from_str : string -> result Address string;
  to_checksum : Address -> string;
  eth_format_bytes32_string : string -> result (list byte) string;
  eth_parse_bytes32_string : list byte -> result string string;
  keccak256 : list byte -> list byte }.

Section SimpleCast.
Context `{!U256Text} `{!CastLib}.

Definition lift {A} (r : result A string) : fallible A :=
  Ret (match r with Ok a => Ok a | Err e => Err (Message e) end).
Definition try {A} (r : result A CastError) : fallible A := Ret r.

Definition strip_0x (s : string) : string := unwrap_or (strip_prefix "0x" s) s.

(** ** Ranges of integer types *)
Definition max_min_int (MAX : bool) (s : string) : fallible string :=
  ty ← lift (parse_type s);
  match ty with
  | PInt n =>
      k ← total (usize_sub n 1);
      mask ← total (u256_shl 1 k);
      max ← total (u256_sub_panic (Z.land U256_MAX mask) 1);
      if MAX then ok (u256_display max)
      else
        min ← total (i256_add (i256_wrapping_neg (i256_from_raw max)) (-1));
        ok (i256_display min)
  | PUint n =>
      if MAX then
        if n <? 255 then
          m ← total (u256_shl 1 n);
          ok (u256_display (Z.land U256_MAX m))
        else ok (u256_display U256_MAX)
      else ok "0"%string
  | _ => bail (Message ("Type is not int/uint: " +:+ s))
  end.
Definition max_int (s : string) : fallible string := max_min_int true s.
Definition min_int (s : string) : fallible string := max_min_int false s.

(** ** Text and hex *)
Definition from_utf8 (s : string) : string := "0x" +:+ to_hex (as_bytes s).
Fixpoint push_letters (l : list (result byte string)) (ascii : string) : result string string :=
  match l with
  | [] => Ok ascii
  | Ok b :: l => push_letters l (ascii +:+ push_char b)
  | Err e :: _ => Err e
  end.
Definition to_ascii (hex : string) : fallible string :=
  lift (push_letters (from_hex_iter (trim_start_matches "0x" hex)) EmptyString).
Fixpoint concat_hex_loop (out : string) (values : list string) : string :=
  match values with
  | [] => out
  | s :: l => concat_hex_loop (out +:+ unwrap_or (strip_prefix "0x" s) s) l
  end.
Definition concat_hex (values : list string) : string := "0x" +:+ concat_hex_loop EmptyString values.
Definition to_checksum_address (a : Address) : string := to_checksum a.

(** ** Fixed-point numbers *)
Definition U32_MAX : Z := 2 ^ 32 - 1.
Definition from_fixed_point (value decimals : string) : fallible string :=
  units ← match uint_from_str_radix U32_MAX decimals 10 with
          | Ok d => ok (units_other d)
          | Err _ => lift (units_try_from decimals)
          end;
  v ← lift (parse_units value (units_as_num units));
  total (fmt_display (from_parse_units v) plain).
Definition to_fixed_point (value decimals : string) : fallible string :=
  n ← try (parse_int value None);
  let sign := if is_nonnegative n then ""%string else "-"%string in
  value ← total (fmt_display n alt);
  let value := unwrap_or (strip_prefix "-" value) value in
  let value_len := String.length value in
  d ← try (parse_uint decimals None);
  let decimals := Z.to_nat (as_u64 (number d)) in
  let value :=
    if (value_len <=? decimals)%nat then "0." +:+ pad_left "0" decimals value
    else string_insert (value_len - decimals) "." value in
  ok (sign +:+ value).

(** ** Words *)
Definition to_uint256 (value : string) : fallible string :=
  n ← try (parse_uint value None); total (fmt_lower_hex n alt_066).
Definition to_int256 (value : string) : fallible string :=
  n ← try (parse_int value None); total (fmt_lower_hex n alt_066).
Definition to_bytes32 (s : string) : fallible string :=
  let s := strip_0x s in
  if (64 <? String.length s)%nat then bail (Message "string >32 bytes")
  else
    h ← lift (h256_from_str (pad_right "0" 64 s));
    ok (h256_debug h).
Definition format_bytes32_string (s : string) : fallible string :=
  b ← lift (eth_format_bytes32_string s); ok ("0x" +:+ hex_encode b).
(** [copy_from_slice] panics unless there are 32 bytes. *)
Definition parse_bytes32_string (s : string) : fallible string :=
  let s := strip_0x s in
  if negb (String.length s =? 64)%nat then bail (Message ("expected 64 byte hex-string, got " +:+ s))
  else
    bytes ← lift (hex_decode s);
    if negb (length bytes =? 32)%nat then Panic "source slice length does not match destination slice length"
    else lift (eth_parse_bytes32_string bytes).
Definition parse_bytes32_address (s : string) : fallible string :=
  let s := strip_0x s in
  if negb (String.length s =? 64)%nat then bail (Message ("expected 64 byte hex-string, got " +:+ s))
  else
    match strip_prefix "000000000000000000000000" s with
    | None => bail (Message "Not convertible to address, there are non-zero bytes")
    | Some s =>
        a ← lift (address_from_str ("0x" +:+ s));
        ok (to_checksum a)
    end.

(** ** Units *)
Definition to_unit (value unit : string) : fallible string :=
  v ← lift (tokenize_uint value);
  match assoc_str unit
    [("eth", (18, ".000000000000000000"%string)); ("ether", (18, ".000000000000000000"%string));
     ("gwei", (9, ".000000000"%string)); ("nano", (9, ".000000000"%string)); ("nanoether", (9, ".000000000"%string));
     ("wei", (0, ".0"%string))] with
  | Some (d, zeros) => s ← lift (format_units v d); ok (trim_end_matches zeros s)
  | None => bail (Message ("invalid unit: " +:+ unit))
  end.
Definition from_wei (value unit : string) : fallible string :=
  n ← try (parse_int value None);
  lift (format_units (number n) (if String.eqb unit "gwei" then 9 else 18)).
Definition to_wei (value unit : string) : fallible string :=
  w ← lift (parse_units value (if String.eqb unit "gwei" then 9 else 18));
  ok (parse_units_display w).

(** ** Bases and shifts *)
Definition to_base (value : string) (base_in : option string) (base_out : string) : fallible string :=
  base_in ← try (unwrap_or_detect base_in value);
  base_out ← try (base_from_str base_out);
  if bool_decide (base_in = base_out) then ok value
  else
    n ← try (parse_int value (Some (base_display base_in)));
    total (fmt_debug (set_base n base_out) alt).
Definition left_shift (value bits : string) (base_in : option string) (base_out : string) : fallible string :=
  base_out ← try (base_from_str base_out);
  value ← try (parse_uint value base_in);
  bits ← try (parse_uint bits None);
  res ← total (u256_shl (number value) (number bits));
  total (u256_to_base res base_out true).
Definition right_shift (value bits : string) (base_in : option string) (base_out : string) : fallible string :=
  base_out ← try (base_from_str base_out);
  value ← try (parse_uint value base_in);
  bits ← try (parse_uint bits None);
  res ← total (u256_shr (number value) (number bits));
  total (u256_to_base res base_out true).

(** ** Hashes *)
Fixpoint namehash_loop (node : list byte) (labels : list string) : list byte :=
  match labels with
  | [] => node
  | label :: l => namehash_loop (keccak256 (node ++ keccak256 (as_bytes label))) l
  end.
(** ASCII names; other letters are lower-cased by Unicode's rules in the code. *)
Definition namehash (ens : string) : string :=
  let node := repeat 0 32 in
  let node := if String.eqb ens EmptyString then node
              else namehash_loop node (rev (split "." (to_lowercase ens))) in
  "0x" +:+ to_hex node.
Definition be_value (b : list byte) : Z := fold_left (fun a x => a * 256 + x) b 0.
Definition keccak (data : string) : fallible string :=
  match strip_prefix "0x" data with
  | Some rest => b ← lift (hex_decode rest); ok (h256_debug (be_value (keccak256 b)))
  | None => ok (h256_debug (be_value (keccak256 (as_bytes data))))
  end.

(** ** Selectors with leading zeros *)
(** One try: the name, the nonce and the parameters, their selector, and whether
    it starts with exactly [optimize] zero bytes. *)
Definition leading_zeros (b : list byte) : nat :=
  length ((fix take_while (l : list byte) : list byte :=
     match l with x :: l => if x =? 0 then x :: take_while l else [] | [] => [] end) b).
Definition candidate (name params : string) (nonce : Z) : string :=
  name +:+ pretty nonce +:+ "(" +:+ params.
Definition selector_of (input : string) : list byte := take 4 (keccak256 (as_bytes input)).
Definition matching (optimize : nat) (name params : string) (nonce : Z) : bool :=
  (leading_zeros (selector_of (candidate name params nonce)) =? optimize)%nat.

(** A worker runs the loop from its own nonce.  [nonce += nonce_step] overflows:
    [Crashed] is the panic of a build with overflow checks ([checked], as in the
    dev and local profiles); the release profile has none and the nonce wraps. *)
Inductive worker :=
| Searching (nonce : Z)
| Finished (r : option (Z * string * string))
| Crashed.
Record search := mkSearch { workers : list worker; found : bool }.
Definition start_search (num_threads : nat) : search :=
  mkSearch ((fun i => Searching (Z.of_nat i mod 2 ^ 32)) <$> seq 0 num_threads) false.
(** One pass of worker [i] through its loop. *)
Definition advance (checked : bool) (optimize : nat) (name params : string) (s : search) (i : nat) : search :=
  match workers s !! i with
  | Some (Searching nonce) =>
      if (nonce <? U32_MAX) && negb (found s) then
        if matching optimize name params nonce then
          let input := candidate name params nonce in
          mkSearch (<[i := Finished (Some (nonce, "0x" +:+ hex_encode (selector_of input), input))]> (workers s)) true
        else
          let next := nonce + Z.of_nat (length (workers s)) mod 2 ^ 32 in
          mkSearch (<[i := if next <=? U32_MAX then Searching next
                           else if checked then Crashed else Searching (next mod 2 ^ 32)]> (workers s)) (found s)
      else mkSearch (<[i := Finished None]> (workers s)) (found s)
  | _ => s
  end.
(** The workers run in parallel: any order of passes. *)
Definition run_search (checked : bool) (optimize : nat) (name params : string) (num_threads : nat) (schedule : list nat) : search :=
  fold_left (advance checked optimize name params) schedule (start_search num_threads).
(** [find_map_any]: the result of any worker that has one, or nothing when all
    workers ended without one. *)
Inductive search_result (s : search) : option (Z * string * string) -> Prop :=
| found_by i r : workers s !! i = Some (Finished (Some r)) -> search_result s (Some r)
| found_by_none : Forall (fun w => w = Finished None) (workers s) -> search_result s None.

(** [get_selector]; [r] is what the parallel search gave. *)
Definition get_selector (r : option (Z * string * string)) (signature : string) (optimize : option nat) : fallible (string * string) :=
  let optimize := unwrap_or optimize 0%nat in
  if (4 <? optimize)%nat then bail (Message "Number of leading zeroes must not be greater than 4")
  else if (optimize =? 0)%nat then
    f ← lift (parse_function signature);
    ok ("0x" +:+ hex_encode (fn_selector f), signature)
  else
    match split_once "(" signature with
    | None => bail (Message "Invalid signature")
    | Some (name, params) =>
        match r with
        | Some (_, selector, signature) => ok (selector, signature)
        | None => bail (Message "No selector found")
        end
    end.
End SimpleCast.
