(* ===== verification/CastProps.v ===== *)
(** * What cast's conversions give (cast/src/lib.rs)

    The text that each conversion of [CastSimple] returns, stated with the
    numerals of [CastBaseProps], and the search for a selector. *)
From S2P Require Import Prelude Fuzz CastBase CastBaseProps CastSimple.
From Stdlib Require Import Ascii.
Open Scope Z_scope.

(** ** Pieces of digit strings *)
Lemma take_drop_string i s : string_take i s +:+ string_drop i s = s.
Proof. revert s. induction i as [|i IH]; intros [|c s]; [done..|]. cbn. by rewrite string_app_cons, IH. Qed.
Lemma string_drop_length i s : String.length (string_drop i s) = (String.length s - i)%nat.
Proof. revert s. induction i as [|i IH]; intros [|c s]; [done..|]. cbn. apply IH. Qed.
Lemma lowercase_app_inv s t : to_lowercase (s +:+ t) = s +:+ t -> to_lowercase s = s /\ to_lowercase t = t.
Proof.
  rewrite lowercase_app. revert t. induction s as [|c s IH]; intros t; [done|].
  cbn. rewrite !string_app_cons. intros [= Hc Hs]. destruct (IH _ Hs) as [-> ->]. by rewrite Hc.
Qed.

Section Digits.
Variable r : Z.
Hypothesis r_range : 2 <= r <= 36.

(** The digits split in two are the quotient and the remainder by a power. *)
Lemma value_split s t n :
  value r 0 (s +:+ t) = Some n ->
  value r 0 s = Some (n / r ^ Z.of_nat (String.length t)) /\ value r 0 t = Some (n mod r ^ Z.of_nat (String.length t)).
Proof.
  rewrite value_app. destruct (value r 0 s) as [a|] eqn:Ha; [|done]. rewrite value_shift.
  destruct (value r 0 t) as [b|] eqn:Hb; [|done]. intros [= <-].
  pose proof (value_range r r_range _ _ Hb) as Rb. set (p := r ^ Z.of_nat (String.length t)) in *.
  split; f_equal.
  - rewrite Z.add_comm, Z.div_add by lia. rewrite Z.div_small; lia.
  - rewrite Z.add_comm, Z_mod_plus_full. by rewrite Z.mod_small.
Qed.
Lemma numeral_take n s t :
  numeral r n (s +:+ t) -> s <> EmptyString -> numeral r (n / r ^ Z.of_nat (String.length t)) s.
Proof.
  intros [Hv Hl Hh] Hs. split; [by apply value_split in Hv as [? _]|by apply lowercase_app_inv in Hl as [? _]|].
  destruct s as [|c [|c' s]]; [done|by left|]. right. rewrite string_app_cons in Hh. by destruct Hh as [[=]|].
Qed.
Lemma value_zeros k s : value r 0 (repeat_char "0" k +:+ s) = value r 0 s.
Proof.
  induction k as [|k IH]; [done|]. cbn [repeat_char]. rewrite string_app_cons. cbn [value].
  change "0"%char with (digit_char 0). by rewrite digit_char_value by lia.
Qed.
End Digits.

Section Conversions.
Context `{!U256Text} `{!U256TextLaws} `{!CastLib}.

(** ** Ranges of integer types *)
Lemma shl_one k : 0 <= k < 256 -> u256_shl 1 k = Ret (2 ^ k).
Proof.
  intros Hk. unfold u256_shl, u256_as_usize. rewrite (proj2 (Z.leb_le _ _)) by (unfold U64_MAX; lia).
  cbn [mbind exec_bind]. rewrite (proj2 (Z.ltb_lt k 256)) by lia. f_equal.
  rewrite Z.shiftl_1_l. apply Z.mod_small. split; [lia|]. apply Z.pow_lt_mono_r; lia.
Qed.
Lemma max_land k : 0 <= k < 256 -> Z.land U256_MAX (2 ^ k) = 2 ^ k.
Proof.
  intros Hk. unfold U256_MAX. rewrite Z.land_comm. change (2 ^ 256 - 1) with (Z.ones 256).
  rewrite Z.land_ones by lia. apply Z.mod_small. split; [lia|]. apply Z.pow_lt_mono_r; lia.
Qed.

(** For a signed type of 1 to 256 bits the printed range is the type's: the
    maximum is [2 ^ (n - 1) - 1] and the minimum [- 2 ^ (n - 1)], each in
    decimal, and neither computation panics. *)
Theorem int_range_printed s n :
  parse_type s = Ok (PInt n) -> 1 <= n <= 256 ->
  (exists t, max_int s = Ret (Ok t) /\ decimal_text (2 ^ (n - 1) - 1) t) /\
  (exists t, min_int s = Ret (Ok t) /\ decimal_text (- 2 ^ (n - 1)) t).
Proof.
  intros Ht Hn. assert (0 < 2 ^ (n - 1) <= 2 ^ 255) as Hp.
  { split; [lia|]. apply Z.pow_le_mono_r; lia. }
  unfold max_int, min_int, max_min_int. rewrite Ht. cbn [lift mbind fallible_bind].
  unfold usize_sub. rewrite (proj2 (Z.leb_le 1 n)) by lia. cbn [total mbind fallible_bind].
  rewrite shl_one by lia. cbn [total mbind fallible_bind].
  unfold u256_sub_panic. rewrite max_land, (proj2 (Z.leb_le _ _)) by lia. cbn [total mbind fallible_bind].
  split.
  - eexists; split; [done|]. eexists; split; [|by rewrite (proj2 (Z.ltb_ge _ 0)) by lia].
    rewrite Z.abs_eq by lia. apply display_law. unfold is_u256, U256_MAX. lia.
  - unfold i256_wrapping_neg.
    assert (i256_from_raw ((- i256_from_raw (2 ^ (n - 1) - 1)) mod 2 ^ 256) = - (2 ^ (n - 1) - 1)) as ->.
    { unfold i256_from_raw at 2. rewrite (proj2 (Z.ltb_lt _ _)) by lia.
      destruct (decide (2 ^ (n - 1) - 1 = 0)) as [->|]; [done|]. apply from_raw_neg. lia. }
    unfold i256_add. rewrite (proj2 (Z.leb_le _ _)), (proj2 (Z.ltb_lt _ _)) by lia. cbn [andb total mbind fallible_bind].
    replace (- (2 ^ (n - 1) - 1) + -1) with (- 2 ^ (n - 1)) by lia.
    destruct (i256_display_law (- 2 ^ (n - 1))) as (t & Hx & He); [unfold is_i256; lia|].
    eexists; split; [done|]. by exists t.
Qed.

(** The printed maximum of an unsigned type below 255 bits is one too high. *)
Theorem uint_max_too_high s n :
  parse_type s = Ok (PUint n) -> 0 <= n < 255 ->
  exists t, max_int s = Ret (Ok t) /\ numeral 10 (2 ^ n) t.
Proof.
  intros Ht Hn. unfold max_int, max_min_int. rewrite Ht. cbn [lift mbind fallible_bind].
  rewrite (proj2 (Z.ltb_lt n 255)), shl_one by lia. cbn [total mbind fallible_bind].
  rewrite max_land by lia. eexists; split; [done|]. apply display_law.
  assert (2 ^ n <= 2 ^ 255) by (apply Z.pow_le_mono_r; lia). unfold is_u256, U256_MAX. lia.
Qed.

(** ** Fixed-point numbers *)
Lemma fixed_point_digits n t d :
  numeral 10 n t ->
  exists whole frac,
    (if (String.length t <=? d)%nat then "0." +:+ pad_left "0" d t else string_insert (String.length t - d) "." t)
      = whole +:+ String "." frac /\
    numeral 10 (n / 10 ^ Z.of_nat d) whole /\ String.length frac = d /\ value 10 0 frac = Some (n mod 10 ^ Z.of_nat d).
Proof.
  intros Ht. destruct (numeral_bound 10 ltac:(lia) _ _ Ht) as (Hn & _ & _). destruct (Nat.leb_spec (String.length t) d) as [Hd|Hd].
  - assert (10 ^ Z.of_nat (String.length t) <= 10 ^ Z.of_nat d) by (apply Z.pow_le_mono_r; lia).
    exists "0"%string, (pad_left "0" d t). split_and!; [done|..].
    + rewrite Z.div_small by lia. by apply numeral_zero.
    + unfold pad_left. rewrite string_app_length, repeat_char_length. lia.
    + unfold pad_left. rewrite value_zeros, Z.mod_small by lia. apply Ht.
  - exists (string_take (String.length t - d) t), (string_drop (String.length t - d) t).
    assert (String.length (string_drop (String.length t - d) t) = d) as Hlen by (rewrite string_drop_length; lia).
    assert (string_take (String.length t - d) t <> EmptyString) as Hne.
    { destruct t as [|c t]; [cbn in Hd; lia|]. by destruct (String.length (String c t) - d)%nat eqn:E; [lia|]. }
    pose proof (take_drop_string (String.length t - d) t) as Htd. unfold string_insert. rewrite <- Htd in Ht.
    clear Htd Hn Hd. generalize dependent (string_drop (String.length t - d) t).
    generalize dependent (string_take (String.length t - d) t). intros w Hne f Hf <-.
    split_and!; [done|by apply numeral_take; [lia|..]|done|].
    destruct Hf as [Hv _ _]. by apply value_split in Hv as [_ Hv]; [|lia].
Qed.

(** C35: [to_fixed_point] moves the decimal point exactly: for a number [z] of at
    most 256 bits and [d] decimals the result is the sign of [z], the numeral of
    the quotient of its magnitude by [10 ^ d], a point, and [d] digits whose
    value is the remainder. *)
Theorem fixed_point_exact z d v ds :
  - 2 ^ 255 <= z < 2 ^ 256 -> decimal_text z v -> Z.of_nat d < 2 ^ 64 -> numeral 10 (Z.of_nat d) ds ->
  exists whole frac,
    to_fixed_point v ds = Ret (Ok ((if z <? 0 then "-" else "") +:+ whole +:+ String "." frac)) /\
    numeral 10 (Z.abs z / 10 ^ Z.of_nat d) whole /\
    String.length frac = d /\ value 10 0 frac = Some (Z.abs z mod 10 ^ Z.of_nat d).
Proof.
  intros Hz Hv Hd Hds. destruct (display_number_of z alt Hz) as (t & Ht & He); [done..|].
  destruct Ht as (u & Hu & ->). destruct (fixed_point_digits _ _ d Hu) as (whole & frac & Heq & Hw & Hl & Hf).
  exists whole, frac. split_and!; [|done..].
  unfold to_fixed_point. rewrite (parse_number_of z v) by (done || lia). cbn [try mbind fallible_bind].
  rewrite He. cbn [total mbind fallible_bind].
  rewrite (parse_uint_decimal ds (Z.of_nat d)); [|apply Hds|eapply numeral_nonempty; exact Hds|unfold U256_MAX; lia].
  cbn [try mbind fallible_bind number number_of is_nonnegative].
  unfold as_u64. rewrite Z.mod_small, Nat2Z.id by lia.
  assert (unwrap_or (strip_prefix "-" (if z <? 0 then String "-" u else u)) (if z <? 0 then String "-" u else u) = u) as ->.
  { destruct (z <? 0); [done|]. by rewrite (numeral_no_sign _ _ _ Hu). }
  rewrite Heq. unfold ok. rewrite Z.leb_antisym. by destruct (z <? 0).
Qed.

(** ** Words *)
Lemma lower_hex_word n nonneg b :
  is_u256 n ->
  exists w, fmt_lower_hex (mkNumber n nonneg b) alt_066 = Ret ("0x" +:+ w) /\ String.length w = 64%nat /\ value 16 0 w = Some n.
Proof.
  intros Hn. unfold fmt_lower_hex, with_base, fmt_debug. cbn [number base is_nonnegative prefix].
  assert (exists s, (if n =? 0 then Ret (pad_integral alt_066 true "0x" "0")
     else s ← format (mkNumber n nonneg Hexadecimal); Ret (pad_integral alt_066 true "0x" s)) = Ret (pad_integral alt_066 true "0x" s)
     /\ numeral 16 n s) as (s & He & Hs).
  { destruct (Z.eqb_spec n 0) as [->|]; [exists "0"%string; split; [done|by apply numeral_zero]|].
    eexists; split; [done|]. by apply lower_hex_law. }
  rewrite He.
  assert (String.length s <= 64)%nat as Hlen.
  { eapply (numeral_length 16); [lia|exact Hs| |lia]. change (16 ^ Z.of_nat 64) with (2 ^ 256).
    unfold is_u256, U256_MAX in Hn. lia. }
  exists (repeat_char "0" (64 - String.length s) +:+ s). split_and!.
  - unfold pad_integral. cbn [negb sign_plus alt_066 alternate width sign_aware_zero_pad String.length].
    destruct (Nat.leb_spec 66 (String.length s + 0 + 2)) as [Hle|Hgt].
    + assert (String.length s = 64%nat) as -> by lia. done.
    + replace (66 - (String.length s + 0 + 2))%nat with (64 - String.length s)%nat by lia. done.
  - rewrite string_app_length, repeat_char_length. lia.
  - rewrite value_zeros by lia. apply Hs.
Qed.

(** [to_int256] and [to_uint256] write words: for a number that fits, the
    result is [0x] and exactly 64 hexadecimal digits, whose value is the number
    itself or, for a negative one, its two's complement. *)
Theorem words_exact :
  (forall z s, - 2 ^ 255 <= z < 2 ^ 256 -> decimal_text z s ->
    exists w, to_int256 s = Ret (Ok ("0x" +:+ w)) /\ String.length w = 64%nat /\ value 16 0 w = Some (z mod 2 ^ 256)) /\
  (forall n s, is_u256 n -> numeral 10 n s ->
    exists w, to_uint256 s = Ret (Ok ("0x" +:+ w)) /\ String.length w = 64%nat /\ value 16 0 w = Some n).
Proof.
  split.
  - intros z s Hz Hs. unfold to_int256. rewrite (parse_number_of z s) by (done || lia). cbn [try mbind fallible_bind].
    destruct (lower_hex_word (z mod 2 ^ 256) (0 <=? z) Decimal) as (w & He & Hw).
    { unfold is_u256, U256_MAX. pose proof (Z.mod_pos_bound z (2 ^ 256)). lia. }
    exists w. unfold number_of. by rewrite He.
  - intros n s Hn Hs. unfold to_uint256.
    rewrite (parse_uint_decimal s n); [|apply Hs|eapply numeral_nonempty; exact Hs|by destruct Hn].
    cbn [try mbind fallible_bind]. destruct (lower_hex_word n true Decimal Hn) as (w & He & Hw). exists w. by rewrite He.
Qed.

(** ** Bases and shifts *)
(** [to_base] converts: a decimal number becomes the prefix of the base it is
    converted to and the numeral there of its two's complement, and so does the
    hexadecimal text of a number in every other base. *)
Theorem to_base_converts out b z s :
  base_from_str out = Ok b ->
  (decimal_text z s -> - 2 ^ 256 < z < 2 ^ 256 -> b <> Decimal ->
    exists t, to_base s None out = Ret (Ok (prefix b +:+ t)) /\ numeral (base_u32 b) (z mod 2 ^ 256) t) /\
  (numeral 16 z s -> is_u256 z -> b <> Hexadecimal ->
    exists t, to_base ("0x" +:+ s) None out = Ret (Ok (prefix b +:+ t)) /\ numeral (base_u32 b) z t).
Proof.
  intros Hout. split.
  - intros Hs Hz Hb. pose proof (parse_number_of z s Hz Hs) as Hp. unfold to_base. cbn [unwrap_or_detect].
    assert (detect s = Ok Decimal) as Hd.
    { revert Hp. unfold parse_int. cbn [unwrap_or_detect]. destruct (detect s) as [b'|]; [|done].
      destruct (_parse_int s b') as [[n nn]|]; [|done]. by intros [= _ _ ->]. }
    rewrite Hd, Hout. cbn [try mbind fallible_bind]. rewrite bool_decide_false by congruence.
    assert (parse_int s (Some (base_display Decimal)) = Ok (number_of z)) as ->.
    { rewrite <- Hp. unfold parse_int. cbn [unwrap_or_detect base_display]. by rewrite Hd. }
    cbn [try mbind fallible_bind].
    destruct (fmt_debug_unsigned (z mod 2 ^ 256) (0 <=? z) b alt) as (t & Ht & He); [|done..|by left|].
    { unfold is_u256, U256_MAX. pose proof (Z.mod_pos_bound z (2 ^ 256)). lia. }
    exists t. unfold set_base, number_of. cbn [number is_nonnegative]. by rewrite He.
  - intros Hs Hz Hb.
    assert (String.length s <= 64)%nat as Hlen.
    { eapply (numeral_length 16); [lia|exact Hs| |lia]. change (16 ^ Z.of_nat 64) with (2 ^ 256).
      unfold is_u256, U256_MAX in Hz. lia. }
    assert (s <> EmptyString) as Hne by (eapply numeral_nonempty; exact Hs).
    pose proof (parse_int_hexadecimal s z (numeral_value _ _ _ Hs) Hne Hlen) as Hp.
    pose proof (detect_hexadecimal s z (numeral_value _ _ _ Hs) Hne Hlen) as Hd.
    unfold to_base. cbn [unwrap_or_detect]. rewrite Hd, Hout. cbn [try mbind fallible_bind].
    rewrite bool_decide_false by congruence.
    assert (parse_int ("0x" +:+ s) (Some (base_display Hexadecimal)) = Ok (mkNumber z true Hexadecimal)) as ->.
    { rewrite <- Hp. unfold parse_int. cbn [unwrap_or_detect base_display]. by rewrite Hd. }
    cbn [try mbind fallible_bind].
    destruct (fmt_debug_unsigned z true b alt) as (t & Ht & He); [done..|by right|].
    exists t. unfold set_base. cbn [number is_nonnegative]. by rewrite He.
Qed.

(** A shift by more bits than a machine word counts panics. *)
Theorem wide_shift_panics v bits out b n m :
  base_from_str out = Ok b -> numeral 10 n v -> is_u256 n -> numeral 10 m bits -> U64_MAX < m <= U256_MAX ->
  left_shift v bits None out = Panic "Integer overflow when casting to usize" /\
  right_shift v bits None out = Panic "Integer overflow when casting to usize".
Proof.
  intros Hout Hv Hn Hb Hm. unfold left_shift, right_shift. rewrite Hout. cbn [try mbind fallible_bind].
  rewrite (parse_uint_decimal v n); [|apply Hv|eapply numeral_nonempty; exact Hv|by destruct Hn].
  rewrite (parse_uint_decimal bits m); [|apply Hb|eapply numeral_nonempty; exact Hb|lia].
  cbn [try mbind fallible_bind number]. unfold u256_shl, u256_shr, u256_as_usize.
  by rewrite (proj2 (Z.leb_gt _ _)) by lia.
Qed.

(** [from_wei] hands the two's complement of a negative number to the formatter. *)
Theorem negative_wei_unsigned z s u :
  - 2 ^ 256 < z < 0 -> decimal_text z s ->
  from_wei s u = lift (format_units (2 ^ 256 + z) (if String.eqb u "gwei" then 9 else 18)).
Proof.
  intros Hz Hs. unfold from_wei. rewrite (parse_number_of z s) by (done || lia). cbn [try mbind fallible_bind number number_of].
  assert (z mod 2 ^ 256 = 2 ^ 256 + z) as -> by (symmetry; apply (Z.mod_unique_pos _ _ (-1)); lia). done.
Qed.
End Conversions.

(** ** The search for a selector *)
Section Search.
Context `{!CastLib}.
Variables (checked : bool) (optimize : nat) (name params : string) (n : nat).
Hypothesis n_range : (1 <= n)%nat /\ Z.of_nat n < 2 ^ 32.

(** No nonce of worker [i] below [k] matches. *)
Definition missed (i : nat) (k : Z) : Prop :=
  forall j, 0 <= j < k -> j mod Z.of_nat n = Z.of_nat i -> matching optimize name params j = false.
Definition worker_ok (fnd : bool) (i : nat) (w : worker) : Prop :=
  match w with
  | Searching k => 0 <= k <= U32_MAX /\
      ((k mod Z.of_nat n = Z.of_nat i /\ missed i k) \/ (checked = false /\ missed i U32_MAX))
  | Finished (Some (k, selector, input)) =>
      0 <= k < U32_MAX /\ matching optimize name params k = true /\
      input = candidate name params k /\ selector = "0x" +:+ hex_encode (selector_of input)
  | Finished None => fnd = false -> missed i U32_MAX /\ (checked = true -> U32_MAX mod Z.of_nat n = Z.of_nat i)
  | Crashed => True
  end.
Record search_ok (s : search) : Prop := {
  ok_length : length (workers s) = n;
  ok_found : found s = true -> exists i r, workers s !! i = Some (Finished (Some r));
  ok_workers i w : workers s !! i = Some w -> worker_ok (found s) i w }.

Lemma missed_step i k :
  missed i k -> 0 <= k -> k mod Z.of_nat n = Z.of_nat i -> matching optimize name params k = false -> missed i (k + Z.of_nat n).
Proof.
  intros Hm Hk Hi Hf j Hj Hji.
  destruct (decide (j < k)) as [|Hge]; [by apply Hm; [lia|]|].
  assert (j = k) as ->; [|done].
  pose proof (Z.div_mod j (Z.of_nat n) ltac:(lia)) as Hdj. pose proof (Z.div_mod k (Z.of_nat n) ltac:(lia)) as Hdk.
  rewrite Hji in Hdj. rewrite Hi in Hdk. assert (j / Z.of_nat n = k / Z.of_nat n) by nia. congruence.
Qed.
Lemma next_residue i k : k mod Z.of_nat n = Z.of_nat i -> (k + Z.of_nat n) mod Z.of_nat n = Z.of_nat i.
Proof. intros Hk. replace (k + Z.of_nat n) with (k + 1 * Z.of_nat n) by lia. by rewrite Z_mod_plus_full. Qed.

Lemma start_search_ok : search_ok (start_search n).
Proof.
  split; cbn.
  - by rewrite length_fmap, length_seq.
  - done.
  - intros i w Hw. rewrite list_lookup_fmap in Hw. destruct (seq 0 n !! i) as [k|] eqn:Hk; [|done]. injection Hw as <-. apply lookup_seq in Hk as [-> Hi]. cbn.
    unfold U32_MAX. rewrite !Z.mod_small by lia. split; [lia|left; split; [done|]].
    intros j Hj Hji. rewrite Z.mod_small in Hji; lia.
Qed.

(** Replacing one worker, the flag only rising. *)
Lemma replace_worker s i w' fnd :
  search_ok s -> is_Some (workers s !! i) -> worker_ok fnd i w' -> (found s = true -> fnd = true) ->
  (fnd = true -> exists k r, <[i := w']> (workers s) !! k = Some (Finished (Some r))) ->
  search_ok (mkSearch (<[i := w']> (workers s)) fnd).
Proof.
  intros [Hl Hf Hw] Hi Hw' Hmono Hex. split; cbn; [by rewrite length_insert|done|].
  intros k w Hk. destruct (decide (k = i)) as [->|Hne].
  - rewrite list_lookup_insert_eq in Hk by (destruct Hi as [? ?%lookup_lt_Some]; done). by injection Hk as <-.
  - rewrite list_lookup_insert_ne in Hk by done. specialize (Hw _ _ Hk).
    destruct w as [k'|[[[? ?] ?]|]|]; cbn in *; [done..| |done]. intros ->. apply Hw.
    destruct (found s); [by discriminate Hmono|done].
Qed.
Lemma found_kept s i w' :
  search_ok s -> (forall r, workers s !! i <> Some (Finished (Some r))) -> found s = true ->
  exists k r, <[i := w']> (workers s) !! k = Some (Finished (Some r)).
Proof.
  intros [_ Hf _] Hi (k & r & Hk)%Hf. exists k, r.
  rewrite list_lookup_insert_ne; [done|]. intros <-. by eapply Hi.
Qed.

Lemma advance_ok s i : search_ok s -> search_ok (advance checked optimize name params s i).
Proof.
  intros Hs. unfold advance. destruct (workers s !! i) as [[nonce|r|]|] eqn:Hi; [|done..].
  pose proof (ok_workers _ Hs _ _ Hi) as (Hk & Hr).
  assert (forall r, workers s !! i <> Some (Finished (Some r))) as Hnf by (intros r; rewrite Hi; done).
  destruct ((nonce <? U32_MAX) && negb (found s)) eqn:Hgo.
  - apply andb_prop in Hgo as [Hlt%Z.ltb_lt Hnfound%negb_true_iff].
    destruct (matching optimize name params nonce) eqn:Hmatch.
    + apply replace_worker; [done|by eexists|..]; [|done|].
      * cbn. split_and!; [lia..|done|done|done].
      * intros _. eexists i, _. apply list_lookup_insert_eq. by eapply lookup_lt_Some.
    + rewrite (ok_length _ Hs), (Z.mod_small (Z.of_nat n)) by lia. rewrite Hnfound.
      apply replace_worker; [done|by eexists|..]; [|by rewrite Hnfound|done].
      pose proof (Z.mod_pos_bound (nonce + Z.of_nat n) (2 ^ 32) ltac:(lia)) as Hwrap.
      destruct Hr as [[Hr Hm]|[Hc Hm]].
      * assert (missed i (nonce + Z.of_nat n)) as Hm' by (apply missed_step; (done || lia)).
        destruct (Z.leb_spec (nonce + Z.of_nat n) U32_MAX) as [Hle|Hgt].
        -- cbn. split; [lia|]. left. split; [by apply next_residue|done].
        -- destruct checked eqn:Hch; [done|]. cbn. split; [unfold U32_MAX; lia|]. right. split; [done|].
           intros j Hj. apply Hm'. lia.
      * rewrite Hc. destruct (Z.leb_spec (nonce + Z.of_nat n) U32_MAX); cbn; (split; [unfold U32_MAX in *; lia|by right]).
  - apply replace_worker; [done|by eexists|..]; [|done|by apply found_kept].
    cbn. intros Hf. rewrite Hf, andb_true_r in Hgo. apply Z.ltb_ge in Hgo.
    assert (nonce = U32_MAX) as -> by lia. destruct Hr as [[? ?]|[-> ?]]; done.
Qed.
Lemma run_search_ok schedule : search_ok (run_search checked optimize name params n schedule).
Proof.
  unfold run_search. assert (search_ok (start_search n)) as Hs by apply start_search_ok. revert Hs.
  generalize (start_search n). induction schedule as [|i l IH]; intros s Hs; [done|]. cbn. apply IH. by apply advance_ok.
Qed.

(** The worker of an empty search, all of whose workers ended with nothing. *)
Lemma none_unfound s : search_ok s -> Forall (fun w => w = Finished None) (workers s) -> found s = false.
Proof.
  intros Hs Hall. destruct (found s) eqn:Hf; [|done].
  destruct (ok_found _ Hs Hf) as (i & r & Hi). rewrite Forall_lookup in Hall. by specialize (Hall _ _ Hi).
Qed.
Lemma search_result_ok s r :
  search_ok s -> search_result s r ->
  match r with
  | Some (k, selector, input) =>
      0 <= k < U32_MAX /\ input = candidate name params k /\ selector = "0x" +:+ hex_encode (selector_of input) /\
      leading_zeros (selector_of input) = optimize
  | None => (forall k, 0 <= k < U32_MAX -> matching optimize name params k = false) /\ (checked = true -> n = 1%nat)
  end.
Proof.
  intros Hs [i [[k sel] input] Hi|Hall].
  - pose proof (ok_workers _ Hs _ _ Hi) as (Hk & Hm & -> & ->). split_and!; [lia..|done|done|]. by apply Nat.eqb_eq.
  - pose proof (none_unfound _ Hs Hall) as Hf. rewrite Forall_lookup in Hall.
    assert (forall i, (i < n)%nat -> missed i U32_MAX /\ (checked = true -> U32_MAX mod Z.of_nat n = Z.of_nat i)) as Hi.
    { intros i Hi. rewrite <- (ok_length _ Hs) in Hi. apply lookup_lt_is_Some in Hi as [w Hw].
      pose proof (ok_workers _ Hs _ _ Hw) as Hok. rewrite (Hall _ _ Hw) in Hok. by apply Hok. }
    split.
    + intros k Hk. pose proof (Z.mod_pos_bound k (Z.of_nat n) ltac:(lia)). destruct (Hi (Z.to_nat (k mod Z.of_nat n))) as [Hm _]; [lia|].
      apply Hm; [done|]. lia.
    + intros Hc. destruct (decide (n = 1%nat)); [done|].
      destruct (Hi 0%nat) as [_ H0]; [lia|]. destruct (Hi 1%nat) as [_ H1]; [lia|]. specialize (H0 Hc). specialize (H1 Hc). lia.
Qed.

(** C36: Whatever the interleaving of the workers, with overflow checks or
    without, a selector that the search returns is the selector of the name with a
    nonce and the given parameters and starts with exactly the requested number of
    zero bytes; and the search says that there is none only if no nonce below
    u32::MAX gives such a selector.  There are between one and 2^32 - 1 workers;
    that the search ends is not claimed ([fruitless_search_overflows],
    [fruitless_search_endless]). *)
Theorem selector_search_sound schedule r :
  search_result (run_search checked optimize name params n schedule) r ->
  match r with
  | Some (k, selector, input) =>
      0 <= k < U32_MAX /\ input = candidate name params k /\ selector = "0x" +:+ hex_encode (selector_of input) /\
      leading_zeros (selector_of input) = optimize
  | None => (forall k, 0 <= k < U32_MAX -> matching optimize name params k = false) /\ (checked = true -> n = 1%nat)
  end.
Proof. apply search_result_ok, run_search_ok. Qed.

(** With two workers or more, one of them overflows its nonce when there is
    nothing to find: a panic with overflow checks. *)
Lemma passes_of_worker i k s :
  workers s !! i = Some (Searching (Z.of_nat i)) -> length (workers s) = n -> found s = false ->
  (forall j, 0 <= j < U32_MAX -> matching optimize name params j = false) ->
  Z.of_nat i + Z.of_nat k * Z.of_nat n <= U32_MAX ->
  workers (fold_left (advance checked optimize name params) (repeat i k) s) !! i = Some (Searching (Z.of_nat i + Z.of_nat k * Z.of_nat n))
  /\ found (fold_left (advance checked optimize name params) (repeat i k) s) = false
  /\ length (workers (fold_left (advance checked optimize name params) (repeat i k) s)) = n.
Proof.
  intros Hi Hl Hf Hno. induction k as [|k IH]; intros Hk.
  { cbn. split_and!; [|done..]. rewrite Hi. do 2 f_equal. lia. }
  destruct IH as (Hw & Hf' & Hl'); [lia|]. change (repeat i (S k)) with (i :: repeat i k). rewrite repeat_cons, fold_left_app. cbn [fold_left].
  set (t := fold_left _ _ _) in *. unfold advance. rewrite Hw, Hf', Hl'.
  rewrite (proj2 (Z.ltb_lt _ _)) by lia. cbn [negb andb]. rewrite Hno by lia.
  rewrite (Z.mod_small (Z.of_nat n)) by lia. rewrite (proj2 (Z.leb_le _ _)) by lia. cbn [workers found].
  rewrite length_insert, list_lookup_insert_eq by (by eapply lookup_lt_Some).
  split_and!; [|done..]. do 2 f_equal. lia.
Qed.
Theorem fruitless_search_overflows :
  checked = true -> (2 <= n)%nat -> (forall j, 0 <= j < U32_MAX -> matching optimize name params j = false) ->
  exists i schedule, workers (run_search checked optimize name params n schedule) !! i = Some Crashed.
Proof.
  intros Hc Hn Hno.
  assert (exists i, (i < n)%nat /\ U32_MAX mod Z.of_nat n <> Z.of_nat i) as (i & Hi & Hne).
  { destruct (decide (U32_MAX mod Z.of_nat n = 0)) as [H0|H0]; [exists 1%nat|exists 0%nat]; lia. }
  set (k := Z.to_nat ((U32_MAX - Z.of_nat i) / Z.of_nat n)).
  assert (Z.of_nat k = (U32_MAX - Z.of_nat i) / Z.of_nat n) as Hk.
  { apply Z2Nat.id, Z.div_pos; unfold U32_MAX; lia. }
  pose proof (Z.div_mod (U32_MAX - Z.of_nat i) (Z.of_nat n)) as Hdm.
  pose proof (Z.mod_pos_bound (U32_MAX - Z.of_nat i) (Z.of_nat n)) as Hmb.
  assert ((U32_MAX - Z.of_nat i) mod Z.of_nat n <> 0) as Hr.
  { intros H0. apply Hne. replace U32_MAX with (Z.of_nat i + (U32_MAX - Z.of_nat i) / Z.of_nat n * Z.of_nat n) by lia.
    rewrite Z_mod_plus_full. apply Z.mod_small. lia. }
  destruct (passes_of_worker i k (start_search n)) as (Hw & Hf & Hl).
  { unfold start_search. cbn. rewrite list_lookup_fmap, lookup_seq_lt by done. cbn. by rewrite Z.mod_small by lia. }
  { unfold start_search. cbn. by rewrite length_fmap, length_seq. }
  { done. } { done. } { rewrite Hk. lia. }
  exists i, (repeat i k ++ [i]). unfold run_search. rewrite fold_left_app. cbn [fold_left].
  set (t := fold_left _ _ _) in *. unfold advance. rewrite Hw, Hf, Hl.
  rewrite (proj2 (Z.ltb_lt _ _)) by lia. cbn [negb andb]. rewrite Hno by lia.
  rewrite (Z.mod_small (Z.of_nat n)) by lia. rewrite (proj2 (Z.leb_gt _ _)) by lia. rewrite Hc. cbn [workers].
  apply list_lookup_insert_eq. by eapply lookup_lt_Some.
Qed.
(** Without them, and with an even number of workers, the first one never
    reaches u32::MAX, the only nonce at which it ends: its nonce stays even. *)
Record endless (s : search) : Prop := {
  en_length : length (workers s) = n;
  en_found : found s = false;
  en_range i k : workers s !! i = Some (Searching k) -> 0 <= k <= U32_MAX;
  en_even : exists k, workers s !! 0%nat = Some (Searching k) /\ Z.even k = true }.
Lemma endless_put s i nonce w :
  endless s -> workers s !! i = Some (Searching nonce) -> (forall k, w = Searching k -> 0 <= k <= U32_MAX) ->
  (i = 0%nat -> exists k, w = Searching k /\ Z.even k = true) -> endless (mkSearch (<[i := w]> (workers s)) false).
Proof.
  intros [E1 E2 E3 E4] Hi Hw H0. split; cbn; [by rewrite length_insert|done|..].
  - intros j k. rewrite list_lookup_insert_Some. intros [(_ & E & _)|[_ Hj]]; [by apply Hw|by eapply E3].
  - destruct (decide (i = 0%nat)) as [->|Hne]; [|by rewrite list_lookup_insert_ne].
    destruct (H0 eq_refl) as (k & -> & Hk). exists k. split; [|done]. apply list_lookup_insert_eq. by eapply lookup_lt_Some.
Qed.
Lemma even_wrap k : Z.even (k mod 2 ^ 32) = Z.even k.
Proof.
  rewrite (Z.div_mod k (2 ^ 32)) at 2 by lia. rewrite Z.even_add, Z.even_mul. by destruct (Z.even (k mod 2 ^ 32)).
Qed.
Lemma endless_step s i :
  Z.even (Z.of_nat n) = true -> (forall j, 0 <= j < U32_MAX -> matching optimize name params j = false) ->
  endless s -> endless (advance false optimize name params s i).
Proof.
  intros He Hno Hs. unfold advance. destruct (workers s !! i) as [[nonce|r|]|] eqn:Hi; [|done..].
  pose proof (en_range _ Hs _ _ Hi) as Hr. rewrite (en_found _ Hs). cbn [negb]. rewrite andb_true_r.
  assert (i = 0%nat -> Z.even nonce = true) as Hev.
  { intros ->. destruct (en_even _ Hs) as (k & Hk & ?). rewrite Hi in Hk. by injection Hk as <-. }
  destruct (Z.ltb_spec nonce U32_MAX) as [Hlt|Hge].
  - rewrite Hno, (en_length _ Hs), (Z.mod_small (Z.of_nat n)) by lia.
    pose proof (Z.mod_pos_bound (nonce + Z.of_nat n) (2 ^ 32) ltac:(lia)) as Hb.
    apply (endless_put s i nonce); [done|done|..].
    + destruct (Z.leb_spec (nonce + Z.of_nat n) U32_MAX); intros k [= <-]; unfold U32_MAX in *; lia.
    + intros H0. assert (Z.even (nonce + Z.of_nat n) = true) by (by rewrite Z.even_add, (Hev H0), He).
      destruct (_ <=? _); eexists; (split; [done|]); by rewrite ?even_wrap.
  - apply (endless_put s i nonce); [done|done|done|]. intros H0. specialize (Hev H0).
    assert (nonce = U32_MAX) as -> by lia. by vm_compute in Hev.
Qed.
Theorem fruitless_search_endless schedule :
  Z.even (Z.of_nat n) = true -> (forall j, 0 <= j < U32_MAX -> matching optimize name params j = false) ->
  exists k, workers (run_search false optimize name params n schedule) !! 0%nat = Some (Searching k).
Proof.
  intros He Hno.
  assert (endless (start_search n)) as Hs.
  { split; cbn.
    - by rewrite length_fmap, length_seq.
    - done.
    - intros i k Hk. rewrite list_lookup_fmap in Hk. destruct (seq 0 n !! i); [|done]. cbn in Hk. injection Hk as <-.
      match goal with |- context [?x mod ?y] => pose proof (Z.mod_pos_bound x y ltac:(lia)) end. unfold U32_MAX. lia.
    - exists 0. split; [|done]. rewrite list_lookup_fmap, lookup_seq_lt by lia. done. }
  unfold run_search. revert Hs. generalize (start_search n).
  induction schedule as [|i l IH]; intros s Hs; [destruct (en_even _ Hs) as (k & ? & _); by exists k|]. cbn. apply IH. by apply endless_step.
Qed.
End Search.
