(* ===== verification/CastRlp.v ===== *)
(** * RLP text of cast (cast/src/rlp_converter.rs, [to_rlp] and [from_rlp])

    Nested data between JSON, RLP bytes and text.  The [rlp] package is the
    class [RlpLib] of [Rlp], with the list reader that this code uses in
    [RlpList]; JSON texts are parsed by a parameter of [to_rlp]. *)
From S2P Require Import Prelude Transaction Block Rlp Fuzz CastBase CastSimple.
From Stdlib Require Import Ascii.
Open Scope Z_scope.

Class RlpList := { as_list : forall {A}, codec A -> bytes -> decoded (list A) }.

Inductive Item := Data (d : bytes) | Array (l : list Item).
(** [serde_json::Value]; a number is its text, an object's fields are not looked at. *)
Inductive Value := VNull | VBool (b : bool) | VNumber (text : string) | VString (s : string) | VArray (l : list Value) | VObject.

Definition quote : string := String (ascii_of_nat 34) EmptyString.

Section Items.
Context `{!RlpLib} `{!RlpList} `{!CastLib}.

(** [Encodable]: an unbounded list is written with the header of its items. *)
Fixpoint item_append (i : Item) : bytes :=
  match i with
  | Array arr => encode_list (item_append <$> arr)
  | Data d => encode_value d
  end.
(** [Decodable] recurses into the items of a list; [fuel] bounds the nesting. *)
Fixpoint item_decode (fuel : nat) (rlp : bytes) : decoded Item :=
  match fuel with
  | O => Err (Custom "nesting")
  | S fuel =>
      if is_data rlp then d ← data rlp; Ok (Data d)
      else l ← as_list (mkCodec item_append (item_decode fuel)) rlp; Ok (Array l)
  end.
(** Every level of nesting takes a byte. *)
Definition rlp_decode_item (rlp : bytes) : decoded Item := item_decode (S (length rlp)) rlp.

(** [Item::value_to_item]; the elements are converted in order up to the first error. *)
Definition string_to_item (s : string) : fallible Item :=
  match hex_decode (unwrap_or (strip_prefix "0x" s) s) with
  | Ok b => ok (Data b)
  | Err _ => Panic "Could not decode hex"
  end.
Fixpoint value_to_item (v : Value) : fallible Item :=
  match v with
  | VNull => ok (Data [])
  | VBool _ => bail (Message "RLP input should not contain booleans")
  | VNumber n => string_to_item n
  | VString s => string_to_item s
  | VArray values =>
      l ← (fix go (l : list Value) : fallible (list Item) :=
             match l with
             | [] => ok []
             | v :: l => i ← value_to_item v; r ← go l; ok (i :: r)
             end) values;
      ok (Array l)
  | VObject => bail (Message "RLP input can not contain objects")
  end.

(** [Display] *)
Fixpoint item_display (i : Item) : string :=
  match i with
  | Data dat => quote +:+ "0x" +:+ hex_encode dat +:+ quote
  | Array arr =>
      "[" +:+ (fix go (l : list Item) : string :=
                 match l with
                 | [] => EmptyString
                 | i :: l => item_display i +:+ match l with [] => EmptyString | _ => "," +:+ go l end
                 end) arr +:+ "]"
  end.

Definition decoder_error (e : DecoderError) : CastError := Message "Could not decode rlp".
Definition from_rlp (value : string) : fallible string :=
  bytes ← lift (hex_decode (strip_0x value));
  match rlp_decode_item bytes with
  | Ok item => ok (item_display item)
  | Err e => bail (decoder_error e)
  end.
Definition to_rlp (json_from_str : string -> option Value) (value : string) : fallible string :=
  let val := unwrap_or (json_from_str value) (VString value) in
  item ← value_to_item val;
  ok ("0x" +:+ hex_encode (item_append item)).
End Items.

(** ** Round trips *)
(** What the packages document: lists are read item by item after a header of
    one byte or more, and hex text of bytes is read back. *)
Class RlpListLaws `{!RlpLib} `{!RlpLaws} `{!RlpList} := {
  list_read {A} (c : codec A) l : Forall item l -> fits (encode_list l) -> as_list c (encode_list l) = decode_all c l;
  list_not_data l : Forall item l -> fits (encode_list l) -> is_data (encode_list l) = false;
  list_header l : (length (concat l) < length (encode_list l))%nat }.
Class HexLaws `{!CastLib} := {
  hex_round b : Forall is_byte b -> hex_decode (hex_encode b) = Ok b;
  hex_bytes s b : hex_decode s = Ok b -> Forall is_byte b }.

Inductive item_bytes : Item -> Prop :=
| data_bytes d : Forall is_byte d -> item_bytes (Data d)
| array_bytes l : Forall item_bytes l -> item_bytes (Array l).
Fixpoint depth (i : Item) : nat :=
  match i with Data _ => O | Array l => S (list_max (depth <$> l)) end.

Section ItemInd.
Variable P : Item -> Prop.
Hypothesis on_data : forall d, P (Data d).
Hypothesis on_array : forall l, Forall P l -> P (Array l).
Fixpoint Item_rect' (i : Item) : P i :=
  match i with
  | Data d => on_data d
  | Array l => on_array l ((fix go l : Forall P l := match l with [] => Forall_nil_2 _ | i :: l => Forall_cons_2 _ _ _ (Item_rect' i) (go l) end) l)
  end.
End ItemInd.

Section Laws.
Context `{!RlpLib} `{!RlpLaws} `{!RlpList} `{!RlpListLaws} `{!CastLib} `{!HexLaws}.

Lemma append_array_length l i : i ∈ l -> (length (item_append i) < length (item_append (Array l)))%nat.
Proof.
  intros Hi. eapply Nat.le_lt_trans; [|exact (list_header (item_append <$> l))].
  induction l as [|j l IH]; [by apply elem_of_nil in Hi|]. rewrite fmap_cons. cbn [concat]. rewrite length_app.
  apply elem_of_cons in Hi as [->|Hi]; [lia|]. specialize (IH Hi). lia.
Qed.
Lemma depth_length i : (depth i <= length (item_append i))%nat.
Proof.
  induction i as [d|l IH] using Item_rect'; [cbn; lia|]. cbn [depth].
  rewrite Forall_forall in IH.
  assert (list_max (depth <$> l) <= length (item_append (Array l)) - 1)%nat as Hmax.
  { apply list_max_le, Forall_forall. intros x (j & -> & Hj)%list_elem_of_fmap.
    pose proof (IH _ Hj). pose proof (append_array_length _ _ Hj). lia. }
  assert (0 < length (item_append (Array l)))%nat by (cbn; eapply Nat.le_lt_trans; [|exact (list_header (item_append <$> l))]; lia). lia.
Qed.

Lemma item_is_item i : item_bytes i -> fits (item_append i) -> item (item_append i).
Proof.
  induction i as [d|l IH] using Item_rect'; intros Hb Hf; inversion_clear Hb as [? Hd|? Hl]; cbn in *.
  - by apply value_item.
  - apply list_item; [|done]. apply Forall_fmap, Forall_forall. intros j Hj.
    rewrite Forall_forall in IH, Hl. apply IH; [done|by apply Hl|].
    pose proof (append_array_length _ _ Hj). unfold fits in *. cbn in *. lia.
Qed.
Lemma items_are_items l : Forall item_bytes l -> fits (item_append (Array l)) -> Forall item (item_append <$> l).
Proof.
  intros Hl Hf. apply Forall_fmap, Forall_forall. intros j Hj. rewrite Forall_forall in Hl.
  apply item_is_item; [by apply Hl|]. pose proof (append_array_length _ _ Hj). unfold fits in *. lia.
Qed.

Lemma decode_all_append fuel l :
  Forall (fun i => item_decode fuel (item_append i) = Ok i) l ->
  decode_all (mkCodec item_append (item_decode fuel)) (item_append <$> l) = Ok l.
Proof. induction 1 as [|i l Hi Hl IH]; [done|]. cbn [fmap list_fmap decode_all rlp_decode]. by rewrite Hi, IH. Qed.

Lemma item_round fuel i :
  item_bytes i -> fits (item_append i) -> (depth i < fuel)%nat -> item_decode fuel (item_append i) = Ok i.
Proof.
  revert fuel. induction i as [d|l IH] using Item_rect'; intros [|fuel] Hb Hf Hd; try lia;
    inversion_clear Hb as [? Hd'|? Hl]; cbn [item_decode item_append] in *.
  - rewrite value_is_data, value_data by done. done.
  - assert (is_data (encode_list (item_append <$> l)) = false) as ->.
    { apply list_not_data; [by apply items_are_items|done]. }
    rewrite list_read by (done || by apply items_are_items). cbn [mbind decoded_bind].
    rewrite decode_all_append; [done|]. rewrite Forall_forall in IH, Hl |- *. intros j Hj. apply IH; [done|by apply Hl|..].
    + pose proof (append_array_length _ _ Hj). unfold fits in *. cbn [item_append] in *. lia.
    + cbn [depth] in Hd.
      assert (depth j <= list_max (depth <$> l))%nat; [|lia].
      pose proof (proj1 (list_max_le (depth <$> l) _) (le_n _)) as Hmax. rewrite Forall_forall in Hmax.
      apply Hmax, list_elem_of_fmap. by exists j.
Qed.

(** The JSON of an item, in the form that [Display] writes. *)
Fixpoint item_value (i : Item) : Value :=
  match i with Data d => VString ("0x" +:+ hex_encode d) | Array l => VArray (item_value <$> l) end.
(** The elements of an array, converted in order. *)
Fixpoint values_to_items (l : list Value) : fallible (list Item) :=
  match l with [] => ok [] | v :: l => i ← value_to_item v; r ← values_to_items l; ok (i :: r) end.
Lemma value_array l : value_to_item (VArray l) = (x ← values_to_items l; ok (Array x)).
Proof. done. Qed.

Lemma value_of_item i : item_bytes i -> value_to_item (item_value i) = ok i.
Proof.
  induction i as [d|l IH] using Item_rect'; intros Hb; inversion_clear Hb as [? Hd|? Hl].
  - cbn [item_value value_to_item]. unfold string_to_item.
    change (strip_prefix "0x" ("0x" +:+ hex_encode d)) with (Some (hex_encode d)). cbn [unwrap_or]. by rewrite hex_round.
  - cbn [item_value]. rewrite value_array.
    assert (values_to_items (item_value <$> l) = ok l) as ->; [|done].
    induction l as [|j l IHl]; [done|]. apply Forall_cons in IH as [Hj IH]. apply Forall_cons in Hl as [Hbj Hl].
    rewrite fmap_cons. cbn [values_to_items]. rewrite (Hj Hbj). unfold ok at 1. cbn [mbind fallible_bind].
    by rewrite (IHl IH Hl).
Qed.

Section ValueInd.
Variable P : Value -> Prop.
Hypothesis on_leaf : forall v, match v with VArray _ => False | _ => True end -> P v.
Hypothesis on_values : forall l, Forall P l -> P (VArray l).
Fixpoint Value_rect' (v : Value) : P v :=
  match v with
  | VArray l => on_values l ((fix go l : Forall P l := match l with [] => Forall_nil_2 _ | i :: l => Forall_cons_2 _ _ _ (Value_rect' i) (go l) end) l)
  | v => on_leaf v I
  end.
End ValueInd.

Lemma string_to_item_bytes s i : string_to_item s = Ret (Ok i) -> item_bytes i.
Proof.
  unfold string_to_item. destruct (hex_decode _) as [b|] eqn:Hb; [|done]. intros [= <-].
  constructor. by eapply hex_bytes.
Qed.
Lemma value_to_item_bytes v i : value_to_item v = Ret (Ok i) -> item_bytes i.
Proof.
  revert i. induction v as [v Hv|l IH] using Value_rect'; intros i.
  - destruct v; cbn; try done; [intros [= <-]; by constructor|apply string_to_item_bytes..].
  - rewrite value_array. destruct (values_to_items l) as [[x|]|] eqn:Hx; cbn; [|done..]. intros [= <-]. constructor.
    revert x Hx. induction l as [|v l IHl]; intros x; [by intros [= <-]|]. apply Forall_cons in IH as [Hv IH].
    cbn [values_to_items]. destruct (value_to_item v) as [[j|]|]; cbn [mbind fallible_bind]; [|done..].
    destruct (values_to_items l) as [[r|]|] eqn:Hr; cbn [mbind fallible_bind]; [|done..]. intros [= <-].
    constructor; [by apply Hv|by apply IHl].
Qed.

(** RLP text round-trips: the item that an input denotes is written to RLP
    hex, [from_rlp] of that text prints the item, and where the printed text is
    read as the JSON that it shows, [to_rlp] of it gives the same RLP hex again. *)
Theorem rlp_text_round_trip json s i :
  value_to_item (unwrap_or (json s) (VString s)) = Ret (Ok i) -> fits (item_append i) ->
  let t := "0x" +:+ hex_encode (item_append i) in
  to_rlp json s = Ret (Ok t) /\ from_rlp t = Ret (Ok (item_display i)) /\
  (json (item_display i) = Some (item_value i) -> to_rlp json (item_display i) = Ret (Ok t)).
Proof.
  intros Hi Hf t. pose proof (value_to_item_bytes _ _ Hi) as Hb. split_and!.
  - unfold to_rlp. by rewrite Hi.
  - unfold from_rlp, t, strip_0x. change (strip_prefix "0x" ("0x" +:+ hex_encode (item_append i))) with (Some (hex_encode (item_append i))).
    cbn [unwrap_or]. rewrite hex_round by (eapply Rlp.item_bytes, item_is_item; done).
    cbn [lift mbind fallible_bind]. unfold rlp_decode_item. rewrite item_round; [done..|].
    pose proof (depth_length i). lia.
  - intros Hj. unfold to_rlp. rewrite Hj. cbn [unwrap_or]. by rewrite value_of_item.
Qed.

(** Text that is no hex makes [to_rlp] panic. *)
Theorem bad_hex_panics json s e :
  json s = None -> hex_decode (unwrap_or (strip_prefix "0x" s) s) = Err e ->
  to_rlp json s = Panic "Could not decode hex".
Proof. intros Hj He. unfold to_rlp. rewrite Hj. cbn [unwrap_or value_to_item]. unfold string_to_item. by rewrite He. Qed.
End Laws.
