(* ===== verification/CastSample.v ===== *)
(** * Concrete text of 256-bit numbers and hex

    Instances of the packages that cast uses, and its theorems evaluated at
    concrete inputs with them. *)
From S2P Require Import Prelude Transaction Block Rlp RlpSample Fuzz CastBase CastBaseProps CastSimple CastProps CastRlp.
From Stdlib Require Import Ascii.
Open Scope Z_scope.

Module CastText.
#[export] Existing Instance Spec.lib.
#[export] Existing Instance Spec.laws.
(** ** Numbers *)
Definition text_of (r n : Z) : string :=
  match format_radix_loop 255 r n EmptyString with Ret s => s | Panic _ => EmptyString end.
Lemma text_of_numeral r n : 2 <= r <= 36 -> is_u256 n -> numeral r n (text_of r n).
Proof.
  intros Hr Hn. unfold text_of.
  destruct (format_radix_loop_numeral r 255 n EmptyString Hr) as (s & Hs & ->); [|by rewrite string_app_nil].
  assert (2 ^ 256 <= r ^ 256) by (apply Z.pow_le_mono_l; lia). change (Z.of_nat 255 + 1) with 256.
  unfold is_u256, U256_MAX in Hn. lia.
Qed.
Definition read (s : string) (r : Z) : result Z FromStrRadixErrKind :=
  match value r 0 s with
  | Some n => if U256_MAX <? n then Err InvalidLength else Ok n
  | None => Err InvalidCharacter
  end.
Definition read_hex (s : string) : result Z FromStrRadixErrKind :=
  if (64 <? String.length s)%nat then Err InvalidLength else read s 16.
#[export] Instance text : U256Text := {|
  u256_from_str_radix s r :=
    if r =? 10 then read s 10
    else if r =? 16 then read_hex (unwrap_or (strip_prefix "0x" s) s)
    else Err UnsupportedRadix;
  u256_display := text_of 10;
  u256_lower_hex := text_of 16;
  u256_upper_hex := text_of 16;
  i256_display n := if n <? 0 then String "-" (text_of 10 (- n)) else text_of 10 n |}.

Lemma read_hex_ok s n : value 16 0 s = Some n -> (String.length s <= 64)%nat -> read_hex s = Ok n.
Proof.
  intros Hv Hl. unfold read_hex, read. rewrite (proj2 (Nat.ltb_ge _ _)) by lia. rewrite Hv.
  pose proof (value_range 16 ltac:(lia) _ _ Hv) as Hn.
  assert (16 ^ Z.of_nat (String.length s) <= 16 ^ 64) by (apply Z.pow_le_mono_r; lia).
  change (16 ^ 64) with (2 ^ 256) in *. unfold U256_MAX. by rewrite (proj2 (Z.ltb_ge _ _)) by lia.
Qed.
#[export] Instance text_laws : U256TextLaws.
Proof.
  split.
  - intros n Hn. by apply text_of_numeral.
  - intros n Hn. by apply text_of_numeral.
  - intros n Hn. exists (text_of 10 (Z.abs n)). unfold is_i256 in Hn. split.
    + apply text_of_numeral; [lia|]. unfold is_u256, U256_MAX. lia.
    + cbn. destruct (Z.ltb_spec n 0); [rewrite Z.abs_neq by lia|rewrite Z.abs_eq by lia]; done.
  - intros s n Hs Hv. cbn. unfold read. by rewrite Hv.
  - intros s Hs Hv. exists InvalidCharacter. cbn. unfold read. by rewrite Hv.
  - intros s n Hs Hv Hl. cbn -[strip_prefix]. split; [|by apply read_hex_ok].
    rewrite (digits_no_prefix _ _ _ _ _ Hv) by done. by apply read_hex_ok.
  - intros s r H10 H16. cbn. by rewrite (proj2 (Z.eqb_neq _ _)), (proj2 (Z.eqb_neq _ _)).
Qed.

(** ** Hex *)
Definition hex_of_byte (b : Z) (s : string) : string := String (digit_char (b / 16)) (String (digit_char (b mod 16)) s).
Definition encode (l : list byte) : string := foldr hex_of_byte EmptyString l.
Fixpoint decode (s : string) : result (list byte) string :=
  match s with
  | EmptyString => Ok []
  | String a (String b s) =>
      match to_digit a 16, to_digit b 16, decode s with
      | Some h, Some l, Ok r => Ok (h * 16 + l :: r)
      | _, _, _ => Err "invalid hex"%string
      end
  | _ => Err "odd number of digits"%string
  end.
Lemma decode_encode l : Forall is_byte l -> decode (encode l) = Ok l.
Proof.
  induction 1 as [|b l Hb Hl IH]; [done|]. cbn [encode foldr]. unfold hex_of_byte at 1. cbn [decode].
  unfold is_byte in Hb. change (2 ^ 8) with 256 in Hb.
  pose proof (Z.div_mod b 16 ltac:(lia)). pose proof (Z.mod_pos_bound b 16 ltac:(lia)).
  rewrite !digit_char_value by (try split; try lia; try apply Z.div_pos; try apply Z.div_lt_upper_bound; lia).
  fold (encode l). rewrite IH. do 2 f_equal. lia.
Qed.
Lemma decode_bytes n s l : (String.length s <= n)%nat -> decode s = Ok l -> Forall is_byte l.
Proof.
  revert s l. induction n as [|n IH]; intros [|a [|b s]] l Hn; cbn in *; try lia; try done; try (by intros [= <-]).
  destruct (to_digit a 16) as [h|] eqn:Ha; [|done]. destruct (to_digit b 16) as [k|] eqn:Hb; [|done].
  destruct (decode s) as [r|] eqn:Hr; [|done]. intros [= <-]. constructor; [|by apply (IH s); [lia|]].
  apply to_digit_range in Ha, Hb. unfold is_byte. change (2 ^ 8) with 256. lia.
Qed.

(** A library whose hash is the length of its input, enough to run the search. *)
#[export] Instance lib : CastLib := {|
  Units := Z; units_other d := d; units_try_from _ := Err "units"%string; units_as_num u := u;
  parse_units s d := match value 10 0 s with Some n => Ok (UnitsU256 (n * 10 ^ d)) | None => Err "number"%string end;
  format_units n d := Ok (text_of 10 (n / 10 ^ d));
  parse_units_display v := match v with UnitsU256 n | UnitsI256 n => text_of 10 n end;
  tokenize_uint s := match value 10 0 s with Some n => Ok n | None => Err "number"%string end;
  parse_type s :=
    match assoc_str s [("int8"%string, PInt 8); ("int256"%string, PInt 256); ("uint8"%string, PUint 8)] with
    | Some t => Ok t | None => Err "type"%string end;
  parse_function s := Ok (mkFunction s [1; 2; 3; 4] [] Pure);
  to_hex := encode; hex_encode := encode; hex_decode := decode;
  from_hex_iter s := match decode s with Ok l => Ok <$> l | Err e => [Err e] end;
  h256_from_str s := match value 16 0 s with Some n => Ok n | None => Err "hash"%string end;
  h256_debug := text_of 16;
  address_from_str s := match value 16 0 s with Some n => Ok n | None => Err "address"%string end;
  to_checksum := text_of 16;
  eth_format_bytes32_string s := Ok (as_bytes s);
  eth_parse_bytes32_string b := Ok (encode b);
  keccak256 l := [0; Z.of_nat (length l) - 6; 1; 1] |}.
#[export] Instance hex_laws : HexLaws.
Proof. split; [exact decode_encode|]. intros s b. by apply (decode_bytes (String.length s)). Qed.

#[export] Instance rlp_list : RlpList := {| as_list _ c x := decode_all c (Spec.items x) |}.
#[export] Instance rlp_list_laws : RlpListLaws.
Proof.
  split.
  - intros A c l Hl Hf. cbn. rewrite Spec.items_list; [done|exact Hl|by apply Spec.enc_list_fits].
  - intros l Hl Hf. cbn. unfold Spec.enc_list. destruct (Spec.prefix_first 192 (length (concat l))) as (b & r & -> & Hb).
    cbn. apply Z.ltb_ge. lia.
  - intros l. cbn. unfold Spec.enc_list. rewrite length_app.
    destruct (Spec.prefix_first 192 (length (concat l))) as (b & r & -> & Hb). cbn. lia.
Qed.
End CastText.
Import CastText.

(** ** Numbers *)
Lemma format_radix_numeral_witness :
  exists s, format_radix (mkNumber 12345 true Octal) = Ret s /\ numeral 8 12345 s /\ (String.length s <= 256)%nat.
Proof. apply (format_radix_numeral (mkNumber 12345 true Octal)). by vm_compute. Defined.
Example format_octal : format_radix (mkNumber 12345 true Octal) = Ret "30071"%string.
Proof. vm_compute. reflexivity. Qed.

Lemma number_round_trip_witness :
  exists s, fmt_display (number_of (-12)) plain = Ret s /\ decimal_text (-12) s /\ parse_int s None = Ok (number_of (-12)).
Proof. apply (proj1 number_round_trip). lia. Defined.
Example parse_negative : parse_int "-12" None = Ok (number_of (-12)).
Proof. vm_compute. reflexivity. Qed.
Example misread : (match parse_int "-115792089237316195423570985008687907853269984665640564039457584007913129639935" None with
  | Ok n => fmt_display n plain | Err _ => Panic "" end) = Ret "-1"%string.
Proof. vm_compute. reflexivity. Qed.
Example binary_detected : detect "0b101" = Ok Binary /\ parse_int "0b101" None = Err (UnsupportedInput Binary).
Proof. vm_compute. done. Qed.

(** ** Conversions *)
Lemma int_range_printed_witness :
  (exists t, max_int "int8" = Ret (Ok t) /\ decimal_text 127 t) /\ (exists t, min_int "int8" = Ret (Ok t) /\ decimal_text (-128) t).
Proof. apply (int_range_printed "int8" 8); [reflexivity|lia]. Defined.
Example uint8_max : max_int "uint8" = Ret (Ok "256"%string).
Proof. vm_compute. reflexivity. Qed.

Lemma fixed_point_exact_witness :
  exists whole frac, to_fixed_point "-1234" "2" = Ret (Ok ("-" +:+ whole +:+ String "." frac)) /\
    numeral 10 12 whole /\ String.length frac = 2%nat /\ value 10 0 frac = Some 34.
Proof.
  apply (fixed_point_exact (-1234) 2 "-1234" "2"); [lia| |lia|by split; [vm_compute|vm_compute|left]].
  exists "1234"%string. split; [|reflexivity]. split; [reflexivity|reflexivity|by right].
Defined.
Example fixed_point_text : to_fixed_point "-10" "3" = Ret (Ok "-0.010"%string).
Proof. vm_compute. reflexivity. Qed.

Lemma words_exact_witness :
  exists w, to_int256 "-100" = Ret (Ok ("0x" +:+ w)) /\ String.length w = 64%nat /\ value 16 0 w = Some ((-100) mod 2 ^ 256).
Proof.
  apply (proj1 words_exact); [lia|]. exists "100"%string. split; [|reflexivity]. split; [reflexivity|reflexivity|by right].
Defined.

Lemma to_base_converts_witness :
  exists t, to_base "100" None "oct" = Ret (Ok ("0o" +:+ t)) /\ numeral 8 100 t.
Proof.
  apply (proj1 (to_base_converts "oct" Octal 100 "100" eq_refl)); [|lia|done].
  exists "100"%string. split; [|reflexivity]. split; [reflexivity|reflexivity|by right].
Defined.
Example to_base_text : to_base "100" None "oct" = Ret (Ok "0o144"%string).
Proof. vm_compute. reflexivity. Qed.
Example negative_hex : to_base "-1" None "bin" = Ret (Ok ("0b" +:+ repeat_char "1" 256)).
Proof. vm_compute. reflexivity. Qed.

(** Two workers look for a selector that starts with two zero bytes: with the
    sample hash, that of a name of six characters with its parameters. *)
Lemma selector_search_sound_witness :
  0 <= 1 < U32_MAX /\ ("ab1(u)" = candidate "ab" "u)" 1)%string /\
  ("0x00000101" = "0x" +:+ hex_encode (selector_of "ab1(u)"))%string /\ leading_zeros (selector_of "ab1(u)") = 2%nat.
Proof.
  apply (selector_search_sound false 2 "ab" "u)" 2 ltac:(lia) [1%nat] (Some (1, "0x00000101", "ab1(u)")%string)).
  apply (found_by _ 1%nat). vm_compute. reflexivity.
Defined.

(** ** RLP text *)
Definition dog_cat : Item := Array [Data [100; 111; 103]; Array [Data [99; 97; 116]; Data []]].
Definition sample_json (s : string) : option Value :=
  if String.eqb s "sample" || String.eqb s (item_display dog_cat) then Some (item_value dog_cat) else None.
Lemma rlp_text_round_trip_witness :
  let t := "0x" +:+ hex_encode (item_append dog_cat) in
  to_rlp sample_json "sample" = Ret (Ok t) /\ from_rlp t = Ret (Ok (item_display dog_cat)) /\
  to_rlp sample_json (item_display dog_cat) = Ret (Ok t).
Proof.
  destruct (rlp_text_round_trip sample_json "sample" dog_cat) as (H1 & H2 & H3); [reflexivity|by vm_compute|].
  split; [exact H1|]. split; [exact H2|]. apply H3. reflexivity.
Defined.
Example dog_cat_hex : item_append dog_cat = [202; 131; 100; 111; 103; 197; 131; 99; 97; 116; 128].
Proof. vm_compute. reflexivity. Qed.
