(* ===== verification/Trace.v ===== *)
(** * Call traces (evm/src/trace/mod.rs, trace/node.rs,
    executor/inspector/tracer.rs, executor/inspector/utils.rs)

    The arena in which the calls of a transaction are recorded, the inspector
    that records them, and what the node serves from it: the traces of parity
    (anvil/src/eth/backend/mem/storage.rs with the trace addresses of
    anvil/core/src/eth/transaction/mod.rs) and of geth.  [TraceLib] is what the
    code takes from other packages. *)
From Stdlib Require Import Ascii.
From S2P Require Import Prelude Executor.
Open Scope Z_scope.

(** ** Kinds of calls (evm/src/lib.rs) *)
Inductive CallKind := KCall | KStaticCall | KCallCode | KDelegateCall | KCreate | KCreate2.
Inductive CallScheme := SchemeCall | SchemeCallCode | SchemeDelegateCall | SchemeStaticCall.
Inductive CreateScheme := SchemeCreate | SchemeCreate2 (salt : Z).
Inductive ActionType := ACall | ACreate | ASuicide.
Inductive CallType := CTNone | CTCall | CTCallCode | CTDelegateCall | CTStaticCall.
Definition kind_of_call (s : CallScheme) : CallKind :=
  match s with
  | SchemeCall => KCall | SchemeStaticCall => KStaticCall
  | SchemeCallCode => KCallCode | SchemeDelegateCall => KDelegateCall
  end.
Definition kind_of_create (s : CreateScheme) : CallKind :=
  match s with SchemeCreate => KCreate | SchemeCreate2 _ => KCreate2 end.
Definition action_type_of (k : CallKind) : ActionType :=
  match k with KCall | KStaticCall | KDelegateCall | KCallCode => ACall | KCreate | KCreate2 => ACreate end.
Definition call_type_of (k : CallKind) : CallType :=
  match k with
  | KCall => CTCall | KStaticCall => CTStaticCall | KCallCode => CTCallCode
  | KDelegateCall => CTDelegateCall | KCreate | KCreate2 => CTNone
  end.

(** ** Other packages *)
Class TraceLib := {
  return_ok : InstructionResult -> bool;          (* revm's return_ok! *)
  result_code : InstructionResult -> Z;           (* status as u8 *)
  result_name : InstructionResult -> string;      (* {:?} *)
  london_enabled : bool;                          (* SpecId::enabled(spec, LONDON) *)
  get_contract_address : Address -> Z -> Address;
  get_create2_address : Address -> Z -> list byte -> Address;
  hex_encode : list byte -> string;
  opcode_as_str : byte -> option string;          (* OpCode::try_from_u8 *)
  hevm_function : list byte -> option string      (* the cheatcode with a selector *) }.

(** ** Steps and traces *)
(** [Instruction] of debug.rs *)
Inductive Instruction := OpCode (op : byte) | Cheatcode (selector : list byte).
Record CallTraceStep := mkStep {
  st_depth : Z; st_pc : nat; st_op : Instruction; st_contract : Address; st_stack : list Z; st_memory : list byte;
  st_gas : Z; st_gas_refund_counter : Z; st_gas_cost : Z; st_state_diff : option (Z * Z); st_error : option string }.
Inductive RawOrDecodedCall := RawCall (b : list byte) | DecodedCall (name signature : string) (inputs : list string).
Inductive RawOrDecodedReturnData := RawReturn (b : list byte) | DecodedReturn (s : string).
Record RawLog := mkRawLog { rl_topics : list H256; rl_data : list byte }.
Inductive RawOrDecodedLog := RawLogEntry (l : RawLog) | DecodedLog (name : string) (params : list (string * string)).
Inductive LogCallOrder := OLog (i : nat) | OCall (i : nat).

(** The fields that other components fill ([contract], [label],
    [call_context]) are left out: the recording and what is served here do not
    look at them. *)
Record CallTrace := mkTrace {
  tr_depth : nat; tr_success : bool; tr_caller : Address; tr_address : Address; tr_kind : CallKind; tr_value : Z;
  tr_data : RawOrDecodedCall; tr_output : RawOrDecodedReturnData; tr_gas_cost : Z; tr_status : InstructionResult;
  tr_steps : list CallTraceStep }.
Definition trace_default : CallTrace :=
  mkTrace 0 false 0 0 KCall 0 (RawCall []) (RawReturn []) 0 Continue [].
Definition created (t : CallTrace) : bool := match tr_kind t with KCreate | KCreate2 => true | _ => false end.
Definition call_to_raw (d : RawOrDecodedCall) : list byte := match d with RawCall b => b | DecodedCall _ _ _ => [] end.
Definition string_bytes (s : string) : list byte := (fun c => Z.of_nat (nat_of_ascii c)) <$> String.list_ascii_of_string s.
Definition ascii_upper (c : ascii) : ascii :=
  let n := nat_of_ascii c in
  if (97 <=? n)%nat && (n <=? 122)%nat then ascii_of_nat (n - 32) else c.
Fixpoint to_uppercase (s : string) : string :=
  match s with EmptyString => EmptyString | String c s => String (ascii_upper c) (to_uppercase s) end.
Definition return_to_bytes (d : RawOrDecodedReturnData) : list byte :=
  match d with RawReturn b => b | DecodedReturn s => string_bytes s end.

Record CallTraceNode := mkNode {
  nd_parent : option nat; nd_children : list nat; nd_idx : nat; nd_trace : CallTrace;
  nd_logs : list RawOrDecodedLog; nd_ordering : list LogCallOrder }.
Definition node_default : CallTraceNode := mkNode None [] 0 trace_default [] [].
(** [CallTraceArena]: its vector of nodes *)
Abbreviation CallTraceArena := (list CallTraceNode) (only parsing).
Definition arena_default : CallTraceArena := [node_default].

Definition set_trace (t : CallTrace) (n : CallTraceNode) : CallTraceNode :=
  mkNode (nd_parent n) (nd_children n) (nd_idx n) t (nd_logs n) (nd_ordering n).
Definition add_child (id : nat) (n : CallTraceNode) : CallTraceNode :=
  mkNode (nd_parent n) (nd_children n ++ [id]) (nd_idx n) (nd_trace n) (nd_logs n)
    (nd_ordering n ++ [OCall (length (nd_children n))]).
Definition add_log (l : RawOrDecodedLog) (n : CallTraceNode) : CallTraceNode :=
  mkNode (nd_parent n) (nd_children n) (nd_idx n) (nd_trace n) (nd_logs n ++ [l])
    (nd_ordering n ++ [OLog (length (nd_logs n))]).
Definition set_steps (s : list CallTraceStep) (t : CallTrace) : CallTrace :=
  mkTrace (tr_depth t) (tr_success t) (tr_caller t) (tr_address t) (tr_kind t) (tr_value t) (tr_data t) (tr_output t)
    (tr_gas_cost t) (tr_status t) s.

(** Indexing panics out of range. *)
Definition index {A} (l : list A) (i : nat) : exec A := expect (l !! i) "index out of bounds".

(** ** Pushing a trace *)
(** The search for the parent descends to the last child; a child has a greater
    index than its parent, so it ends within the length of the arena. *)
Fixpoint push_trace_fuel (fuel : nat) (arena : CallTraceArena) (entry : nat) (t : CallTrace) : exec (nat * CallTraceArena) :=
  match fuel with
  | O => Panic "fuel"
  | S fuel =>
      match tr_depth t with
      | O =>
          n ← index arena 0;
          Ret (0%nat, <[0%nat := set_trace t n]> arena)
      | S d =>
          e ← index arena entry;
          if (tr_depth (nd_trace e) =? d)%nat then
            let id := length arena in
            let node := mkNode (Some entry) [] id t [] [] in
            Ret (id, <[entry := add_child id e]> arena ++ [node])
          else
            c ← expect (last (nd_children e)) "Disconnected trace";
            push_trace_fuel fuel arena c t
      end
  end.
Definition push_trace (arena : CallTraceArena) (entry : nat) (t : CallTrace) : exec (nat * CallTraceArena) :=
  push_trace_fuel (S (length arena)) arena entry t.

(** ** The inspector *)
Record Tracer := mkTracer {
  record_steps : bool;
  traces : CallTraceArena;
  trace_stack : list nat;           (* the last one is the open call *)
  step_stack : list (nat * nat) }.
Definition tracer_default : Tracer := mkTracer false arena_default [] [].
Definition with_steps_recording (t : Tracer) : Tracer := mkTracer true (traces t) (trace_stack t) (step_stack t).

Section Tracer.
Context `{!TraceLib}.

Definition start_trace (depth : nat) (address : Address) (data : list byte) (value : Z) (kind : CallKind) (caller : Address)
    (t : Tracer) : exec Tracer :=
  '(id, arena) ← push_trace (traces t) 0
    (mkTrace depth false caller address kind value (RawCall data) (RawReturn []) 0 Continue []);
  Ret (mkTracer (record_steps t) arena (trace_stack t ++ [id]) (step_stack t)).

Definition finish (status : InstructionResult) (cost : Z) (output : list byte) (address : option Address) (t : CallTrace) : CallTrace :=
  mkTrace (tr_depth t) (return_ok status) (tr_caller t)
    (match address with Some a => a | None => tr_address t end) (tr_kind t) (tr_value t) (tr_data t)
    (RawReturn output) cost status (tr_steps t).
Definition fill_trace (status : InstructionResult) (cost : Z) (output : list byte) (address : option Address)
    (t : Tracer) : exec Tracer :=
  '(id, stack) ← expect (vec_pop (trace_stack t)) "more traces were filled than started";
  n ← index (traces t) id;
  Ret (mkTracer (record_steps t) (<[id := set_trace (finish status cost output address (nd_trace n)) n]> (traces t)) stack (step_stack t)).

(** What an inspector sees of the interpreter before an instruction. *)
Record Before := mkBefore {
  b_depth : Z; b_pc : nat; b_code : list byte; b_address : Address; b_stack : list Z; b_memory : list byte;
  b_gas_remaining : Z; b_refunded : Z }.
(** And after it: the program counter, the last journal, the storage, the gas
    left and the status. *)
Inductive JournalEntry := StorageChange (address : Address) (key : Z) | OtherEntry.
Record After := mkAfter {
  a_pc : nat; a_code : list byte; a_journal : list (list JournalEntry); a_present_value : Address -> Z -> option Z;
  a_gas_remaining : Z; a_status : InstructionResult }.

Definition OP_SLOAD : Z := 0x54.
Definition OP_SSTORE : Z := 0x55.

Definition start_step (b : Before) (t : Tracer) : exec Tracer :=
  idx ← expect (last (trace_stack t)) "can't start step without starting a trace first";
  n ← index (traces t) idx;
  op ← index (b_code b) (b_pc b);
  let steps := tr_steps (nd_trace n) in
  let step := mkStep (b_depth b) (b_pc b) (OpCode op) (b_address b) (b_stack b) (b_memory b) (b_gas_remaining b)
                (as_u64 (b_refunded b)) 0 None None in
  Ret (mkTracer (record_steps t) (<[idx := set_trace (set_steps (steps ++ [step]) (nd_trace n)) n]> (traces t))
         (trace_stack t) (step_stack t ++ [(idx, length steps)])).

(** The effect of [SLOAD] and [SSTORE], and the gas that the step cost. *)
Definition state_diff (a : After) (op : byte) : exec (option (Z * Z)) :=
  j ← expect (last (a_journal a)) "called `Option::unwrap()` on a `None` value";
  if (op =? OP_SLOAD) || (op =? OP_SSTORE) then
    match last j with
    | Some (StorageChange address key) =>
        v ← expect (a_present_value a address key) "no entry found for key";
        Ret (Some (key, v))
    | _ => Ret None
    end
  else Ret None.
Definition step_after (a : After) (s : CallTraceStep) : exec CallTraceStep :=
  s ← (match a_pc a with
       | O => Ret s
       | S pc =>
           op ← index (a_code a) pc;
           diff ← state_diff a op;
           cost ← u64_sub (st_gas s) (a_gas_remaining a);
           Ret (mkStep (st_depth s) (st_pc s) (st_op s) (st_contract s) (st_stack s) (st_memory s) (st_gas s)
                  (st_gas_refund_counter s) cost diff (st_error s))
       end);
  Ret (if result_code OutOfGas <? result_code (a_status a) then
         mkStep (st_depth s) (st_pc s) (st_op s) (st_contract s) (st_stack s) (st_memory s) (st_gas s)
           (st_gas_refund_counter s) (st_gas_cost s) (st_state_diff s) (Some (result_name (a_status a)))
       else s).
Definition fill_step (a : After) (t : Tracer) : exec Tracer :=
  '((idx, sidx), stack) ← expect (vec_pop (step_stack t)) "can't fill step without starting a step first";
  n ← index (traces t) idx;
  s ← index (tr_steps (nd_trace n)) sidx;
  s ← step_after a s;
  Ret (mkTracer (record_steps t)
         (<[idx := set_trace (set_steps (<[sidx := s]> (tr_steps (nd_trace n))) (nd_trace n)) n]> (traces t))
         (trace_stack t) stack).

(** *** The hooks *)
Definition step (b : Before) (t : Tracer) : exec Tracer := if negb (record_steps t) then Ret t else start_step b t.
Definition step_end (a : After) (t : Tracer) : exec Tracer := if negb (record_steps t) then Ret t else fill_step a t.
Definition log (topics : list H256) (data : list byte) (t : Tracer) : exec Tracer :=
  idx ← expect (last (trace_stack t)) "no ongoing trace";
  n ← index (traces t) idx;
  Ret (mkTracer (record_steps t) (<[idx := add_log (RawLogEntry (mkRawLog topics data)) n]> (traces t)) (trace_stack t) (step_stack t)).

Record CallInputs := mkCallInputs {
  ci_scheme : CallScheme; ci_address : Address; ci_caller : Address; ci_code_address : Address; ci_input : list byte; ci_value : Z }.
Record CreateInputs := mkCreateInputs { cr_caller : Address; cr_scheme : CreateScheme; cr_value : Z; cr_init_code : list byte }.
(** How a call or a creation ended: status, gas spent and refunded, data *)
Record CallEnd := mkCallEnd { ce_status : InstructionResult; ce_spent : Z; ce_refunded : Z; ce_output : list byte }.

Definition gas_used (spent refunded : Z) : Z :=
  let refund_quotient := if london_enabled then 5 else 2 in
  spent - Z.min refunded (spent / refund_quotient).
Definition get_create_address (i : CreateInputs) (nonce : Z) : Address :=
  match cr_scheme i with
  | SchemeCreate => get_contract_address (cr_caller i) nonce
  | SchemeCreate2 salt => get_create2_address (cr_caller i) salt (cr_init_code i)
  end.

(** The two sides of a call as they are shown. *)
Definition call_ends (i : CallInputs) : Address * Address :=
  match ci_scheme i with
  | SchemeDelegateCall | SchemeCallCode => (ci_address i, ci_code_address i)
  | _ => (ci_caller i, ci_address i)
  end.
Definition call (depth : nat) (i : CallInputs) (t : Tracer) : exec Tracer :=
  let '(from, to) := call_ends i in
  start_trace depth to (ci_input i) (ci_value i) (kind_of_call (ci_scheme i)) from t.
Definition call_end (e : CallEnd) (t : Tracer) : exec Tracer :=
  fill_trace (ce_status e) (gas_used (ce_spent e) (as_u64 (ce_refunded e))) (ce_output e) None t.
Definition create (depth : nat) (i : CreateInputs) (nonce : Z) (t : Tracer) : exec Tracer :=
  start_trace depth (get_create_address i nonce) (cr_init_code i) (cr_value i) (kind_of_create (cr_scheme i)) (cr_caller i) t.
(** [code] is the code of the created account, which [create_end] looks up. *)
Definition create_end (address : option (Address * list byte)) (e : CallEnd) (t : Tracer) : exec Tracer :=
  let code := match address with Some (_, code) => code | None => [] end in
  fill_trace (ce_status e) (gas_used (ce_spent e) (as_u64 (ce_refunded e))) code (fst <$> address) t.

(** ** Trace addresses and parity traces *)
(** The way up to the root; a parent has a smaller index. *)
Fixpoint trace_address_fuel (fuel : nat) (arena : CallTraceArena) (n : CallTraceNode) (graph : list nat) : exec (list nat) :=
  match fuel with
  | O => Panic "fuel"
  | S fuel =>
      match nd_parent n with
      | None => Ret (rev graph)
      | Some parent =>
          p ← index arena parent;
          k ← expect (position (nd_idx n) (nd_children p)) "child exists in parent";
          trace_address_fuel fuel arena p (graph ++ [k])
      end
  end.
Definition trace_address (arena : CallTraceArena) (idx : nat) : exec (list nat) :=
  if (idx =? 0)%nat then Ret []
  else
    n ← index arena idx;
    trace_address_fuel (S (length arena)) arena n [].

Inductive Res := ResCall (gas_used : Z) (output : list byte) | ResCreate (gas_used : Z) (code : list byte) (address : Address).
Definition parity_result (n : CallTraceNode) : Res :=
  let t := nd_trace n in
  match tr_kind t with
  | KCall | KStaticCall | KCallCode | KDelegateCall => ResCall (tr_gas_cost t) (return_to_bytes (tr_output t))
  | KCreate | KCreate2 => ResCreate (tr_gas_cost t) (return_to_bytes (tr_output t)) (tr_address t)
  end.
Inductive Action :=
| ActSuicide (address refund_address : Address) (balance : Z)
| ActCall (from to : Address) (value gas : Z) (input : list byte) (call_type : CallType)
| ActCreate (from : Address) (value gas : Z) (init : list byte).
Definition parity_action (n : CallTraceNode) : Action :=
  let t := nd_trace n in
  match tr_status t with
  | ISelfDestruct => ActSuicide (tr_address t) 0 (tr_value t)
  | _ =>
      match tr_kind t with
      | KCall | KStaticCall | KCallCode | KDelegateCall =>
          ActCall (tr_caller t) (tr_address t) (tr_value t) (tr_gas_cost t) (call_to_raw (tr_data t)) (call_type_of (tr_kind t))
      | KCreate | KCreate2 => ActCreate (tr_caller t) (tr_value t) (tr_gas_cost t) (call_to_raw (tr_data t))
      end
  end.
(** A parity trace, less the block and the transaction, the same for all. *)
Record ParityTrace := mkParity {
  pt_action : Action; pt_result : Res; pt_trace_address : list nat; pt_subtraces : nat; pt_action_type : ActionType }.
Definition parity_trace (arena : CallTraceArena) (idx : nat) (n : CallTraceNode) : exec ParityTrace :=
  a ← trace_address arena idx;
  Ret (mkParity (parity_action n) (parity_result n) a (length (nd_children n))
         (match tr_status (nd_trace n) with ISelfDestruct => ASuicide | _ => action_type_of (tr_kind (nd_trace n)) end)).
Fixpoint parity_loop (arena : CallTraceArena) (idx : nat) (nodes : list CallTraceNode) : exec (list ParityTrace) :=
  match nodes with
  | [] => Ret []
  | n :: nodes => t ← parity_trace arena idx n; l ← parity_loop arena (S idx) nodes; Ret (t :: l)
  end.
Definition parity_traces (arena : CallTraceArena) : exec (list ParityTrace) := parity_loop arena 0 arena.

(** ** Geth traces *)
Record StructLog := mkStructLog {
  sl_depth : Z; sl_error : option string; sl_gas : Z; sl_gas_cost : Z; sl_memory : option (list string); sl_op : string;
  sl_pc : Z; sl_refund_counter : option Z; sl_stack : option (list Z); sl_storage : option (gmap Z Z) }.
Record GethOptions := mkGethOptions { disable_storage : option bool; disable_stack : option bool; enable_memory : option bool }.
Record DefaultFrame := mkFrameOut { df_failed : bool; df_gas : Z; df_return_value : list byte; df_struct_logs : list StructLog }.
Definition unwrap_or_default (o : option bool) : bool := match o with Some b => b | None => false end.

(** 32 bytes at a time; the last chunk can be shorter. *)
Fixpoint memory_chunks (n : nat) (data : list byte) : list string :=
  match n with
  | O => []
  | S n => match data with [] => [] | _ => hex_encode (take 32 data) :: memory_chunks n (drop 32 data) end
  end.
Definition convert_memory (data : list byte) : list string := memory_chunks (length data) data.
(** [Display] of an instruction (debug.rs); the names of the cheatcodes are ASCII. *)
Definition instruction_display (i : Instruction) : exec string :=
  match i with
  | OpCode op => Ret (match opcode_as_str op with Some s => s | None => "UNDEFINED(0x" +:+ hex_encode [op] +:+ ")" end)
  | Cheatcode cheat =>
      name ← expect (hevm_function cheat) "unknown cheatcode found in debugger";
      Ret ("VM_" +:+ to_uppercase name)
  end.
Definition struct_log (s : CallTraceStep) : exec StructLog :=
  op ← instruction_display (st_op s);
  Ret (mkStructLog (st_depth s) (st_error s) (st_gas s) (st_gas_cost s) (Some (convert_memory (st_memory s)))
    op (Z.of_nat (st_pc s))
    (if 0 <? st_gas_refund_counter s then Some (st_gas_refund_counter s) else None) (Some (st_stack s)) None).

Definition Storage : Type := gmap Address (gmap Z Z).
(** The log of a step, with the options and the storage written so far. *)
Definition log_of (opts : GethOptions) (storage : Storage) (s : CallTraceStep) : exec (StructLog * Storage) :=
  l ← struct_log s;
  let '(slots, storage) :=
    if negb (unwrap_or_default (disable_storage opts)) then
      let contract := match storage !! st_contract s with Some c => c | None => ∅ end in
      match st_state_diff s with
      | Some (k, v) => (Some (<[k := v]> contract), <[st_contract s := <[k := v]> contract]> storage)
      | None => (None, <[st_contract s := contract]> storage)
      end
    else (None, storage) in
  Ret (mkStructLog (sl_depth l) (sl_error l) (sl_gas l) (sl_gas_cost l)
     (if negb (unwrap_or_default (enable_memory opts)) then None else sl_memory l) (sl_op l) (sl_pc l) (sl_refund_counter l)
     (if unwrap_or_default (disable_stack opts) then None else sl_stack l) slots, storage).

Definition is_call_op (i : Instruction) : bool :=
  match i with
  | OpCode op => bool_decide (op ∈ [0xf0; 0xf5; 0xf4; 0xf1; 0xfa; 0xf2])
  | Cheatcode _ => false
  end.

(** The steps of a node in order; [descend] goes into a child. *)
Fixpoint geth_steps (opts : GethOptions) (descend : nat -> Storage * list StructLog -> exec (Storage * list StructLog))
    (children : list nat) (l : list CallTraceStep) (child_id : nat) (acc : Storage * list StructLog) : exec (Storage * list StructLog) :=
  match l with
  | [] => Ret acc
  | s :: l =>
      '(sl, storage) ← log_of opts acc.1 s;
      let acc := (storage, acc.2 ++ [sl]) in
      if is_call_op (st_op s) then
        c ← index children child_id;
        acc ← descend c acc;
        geth_steps opts descend children l (S child_id) acc
      else geth_steps opts descend children l child_id acc
  end.
(** A child has a greater index than its parent: the depth of the recursion is
    at most the length of the arena. *)
Fixpoint add_to_geth_trace (fuel : nat) (arena : CallTraceArena) (opts : GethOptions) (n : CallTraceNode)
    (acc : Storage * list StructLog) : exec (Storage * list StructLog) :=
  match fuel with
  | O => Panic "fuel"
  | S fuel =>
      geth_steps opts (fun c acc => cn ← index arena c; add_to_geth_trace fuel arena opts cn acc)
        (nd_children n) (tr_steps (nd_trace n)) 0 acc
  end.
Definition geth_trace (arena : CallTraceArena) (receipt_gas_used : Z) (opts : GethOptions) : exec DefaultFrame :=
  match arena with
  | [] => Ret (mkFrameOut false 0 [] [])
  | main :: _ =>
      '(_, logs) ← add_to_geth_trace (length arena) arena opts main (∅, []);
      Ret (mkFrameOut (negb (tr_success (nd_trace main))) receipt_gas_used (return_to_bytes (tr_output (nd_trace main))) logs)
  end.

(** [addresses]: the accounts of the trace, a created one with its code. *)
Definition node_address (n : CallTraceNode) : Address * option (list byte) :=
  if created (nd_trace n) then
    match tr_output (nd_trace n) with
    | RawReturn b => (tr_address (nd_trace n), Some b)
    | DecodedReturn _ => (tr_address (nd_trace n), None)
    end
  else (tr_address (nd_trace n), None).
Definition addresses (arena : CallTraceArena) : gset (Address * option (list byte)) := list_to_set (node_address <$> arena).
End Tracer.
