(* ===== verification/TraceProps.v ===== *)
(** * Recorded traces are the executions (evm/src/trace, inspector/tracer.rs)

    An execution is a tree of frames.  [run_frame] drives the hooks of the
    tracer through it as the EVM does; [layout] is the arena that a frame should
    leave: its nodes in the order in which the calls started.  The theorems say
    that the tracer leaves exactly this arena, and what the trace addresses, the
    parity and the geth traces made from it are. *)
From S2P Require Import Prelude Executor Trace.
Open Scope Z_scope.

(** ** Executions *)
Inductive FrameStart := StartCall (i : CallInputs) | StartCreate (i : CreateInputs) (nonce : Z).
Inductive FrameEnd := EndCall (e : CallEnd) | EndCreate (address : option (Address * list byte)) (e : CallEnd).
(** The instructions of a frame in order; one of them can emit a log or enter
    another frame between its start and its end. *)
Inductive Frame := Fr (s : FrameStart) (b : Body) (e : FrameEnd)
with Body :=
| Done
| Quiet (b : Before) (a : After) (r : Body)
| Emit (b : Before) (topics : list H256) (data : list byte) (a : After) (r : Body)
| Enter (b : Before) (f : Frame) (a : After) (r : Body).
Scheme Frame_mut := Induction for Frame Sort Prop
with Body_mut := Induction for Body Sort Prop.
Combined Scheme Frame_Body_ind from Frame_mut, Body_mut.

Fixpoint size (f : Frame) : nat := match f with Fr _ b _ => S (body_size b) end
with body_size (b : Body) : nat :=
  match b with
  | Done => 0
  | Quiet _ _ r | Emit _ _ _ _ r => body_size r
  | Enter _ f _ r => size f + body_size r
  end.

Section Runs.
Context `{!TraceLib}.

(** *** The hooks that an execution calls *)
Definition open_frame (d : nat) (s : FrameStart) : Tracer -> exec Tracer :=
  match s with StartCall i => call d i | StartCreate i nonce => create d i nonce end.
Definition close_frame (e : FrameEnd) : Tracer -> exec Tracer :=
  match e with EndCall e => call_end e | EndCreate a e => create_end a e end.
Fixpoint run_frame (d : nat) (f : Frame) (t : Tracer) : exec Tracer :=
  match f with Fr s b e => t ← open_frame d s t; t ← run_body d b t; close_frame e t end
with run_body (d : nat) (b : Body) (t : Tracer) : exec Tracer :=
  match b with
  | Done => Ret t
  | Quiet b a r => t ← step b t; t ← step_end a t; run_body d r t
  | Emit b topics data a r => t ← step b t; t ← log topics data t; t ← step_end a t; run_body d r t
  | Enter b f a r => t ← step b t; t ← run_frame (S d) f t; t ← step_end a t; run_body d r t
  end.

(** *** What should be recorded *)
Definition opened (d : nat) (s : FrameStart) : CallTrace :=
  match s with
  | StartCall i =>
      mkTrace d false (call_ends i).1 (call_ends i).2 (kind_of_call (ci_scheme i)) (ci_value i) (RawCall (ci_input i)) (RawReturn []) 0 Continue []
  | StartCreate i nonce =>
      mkTrace d false (cr_caller i) (get_create_address i nonce) (kind_of_create (cr_scheme i)) (cr_value i) (RawCall (cr_init_code i))
        (RawReturn []) 0 Continue []
  end.
Definition closed (e : FrameEnd) (t : CallTrace) : CallTrace :=
  match e with
  | EndCall e => finish (ce_status e) (gas_used (ce_spent e) (as_u64 (ce_refunded e))) (ce_output e) None t
  | EndCreate a e =>
      finish (ce_status e) (gas_used (ce_spent e) (as_u64 (ce_refunded e)))
        (match a with Some (_, code) => code | None => [] end) (fst <$> a) t
  end.

Definition step_before (op : byte) (b : Before) : CallTraceStep :=
  mkStep (b_depth b) (b_pc b) (OpCode op) (b_address b) (b_stack b) (b_memory b) (b_gas_remaining b) (as_u64 (b_refunded b)) 0 None None.
(** The step of an instruction, when reading the interpreter does not panic. *)
Definition step_of (b : Before) (a : After) : option CallTraceStep :=
  match b_code b !! b_pc b with
  | Some op => match step_after a (step_before op b) with Ret s => Some s | Panic _ => None end
  | None => None
  end.
Definition steps_of (rec : bool) (b : Before) (a : After) : list CallTraceStep :=
  if rec then option_list (step_of b a) else [].
Fixpoint body_steps (rec : bool) (b : Body) : list CallTraceStep :=
  match b with
  | Done => []
  | Quiet b a r | Emit b _ _ a r | Enter b _ a r => steps_of rec b a ++ body_steps rec r
  end.
(** Every instruction can be read, where steps are recorded. *)
Fixpoint readable (rec : bool) (f : Frame) : Prop := match f with Fr _ b _ => body_readable rec b end
with body_readable (rec : bool) (b : Body) : Prop :=
  match b with
  | Done => True
  | Quiet b a r | Emit b _ _ a r => (rec = true -> is_Some (step_of b a)) /\ body_readable rec r
  | Enter b f a r => (rec = true -> is_Some (step_of b a)) /\ readable rec f /\ body_readable rec r
  end.
(** The instructions of an execution in the order in which they ran. *)
Fixpoint instrs (f : Frame) : list (Before * After) := match f with Fr _ b _ => body_instrs b end
with body_instrs (b : Body) : list (Before * After) :=
  match b with
  | Done => []
  | Quiet b a r | Emit b _ _ a r => (b, a) :: body_instrs r
  | Enter b f a r => (b, a) :: instrs f ++ body_instrs r
  end.
(** What the EVM shows of an instruction: the program counter is in the code
    before it, and at most at the code's end after it; there is a journal; a
    storage change that ends it is of a slot that is loaded; and the gas left does
    not grow. *)
Record observed_step (b : Before) (a : After) : Prop := {
  ob_pc : is_Some (b_code b !! b_pc b);
  ob_next : (a_pc a <= length (a_code a))%nat;
  ob_journal : is_Some (last (a_journal a));
  ob_value j address key : last (a_journal a) = Some j -> last j = Some (StorageChange address key) -> is_Some (a_present_value a address key);
  ob_gas : a_gas_remaining a <= b_gas_remaining b }.
Definition observed (rec : bool) (f : Frame) : Prop := rec = true -> Forall (fun i => observed_step i.1 i.2) (instrs f).
(** The step that should be recorded, but for the storage change it shows. *)
Definition op_of (b : Before) : byte := default 0 (b_code b !! b_pc b).
Definition shown (b : Before) (a : After) (diff : option (Z * Z)) : CallTraceStep :=
  mkStep (b_depth b) (b_pc b) (OpCode (op_of b)) (b_address b) (b_stack b) (b_memory b) (b_gas_remaining b) (as_u64 (b_refunded b))
    (match a_pc a with O => 0 | S _ => b_gas_remaining b - a_gas_remaining a end) diff
    (if result_code OutOfGas <? result_code (a_status a) then Some (result_name (a_status a)) else None).
Lemma observed_shown b a : observed_step b a -> exists diff, step_of b a = Some (shown b a diff).
Proof.
  intros [[op Hop] Hn [j Hj] Hv Hg]. unfold step_of, shown, op_of. rewrite Hop. unfold step_after. destruct (a_pc a) as [|pc].
  - exists None. cbn. by destruct (_ <? _).
  - unfold index. destruct (lookup_lt_is_Some_2 (a_code a) pc ltac:(lia)) as [o Ho]. rewrite Ho. cbn [mbind exec_bind expect].
    assert (exists diff, state_diff a o = Ret diff) as [diff Hd].
    { unfold state_diff. rewrite Hj. cbn [mbind exec_bind expect]. destruct (_ || _); [|by eexists].
      destruct (last j) as [[address key|]|] eqn:El; [|by eexists..]. destruct (Hv j address key Hj El) as [v ->]. by eexists. }
    rewrite Hd. unfold u64_sub. cbn [mbind exec_bind st_gas step_before]. rewrite decide_True by done. exists diff. cbn. by destruct (_ <? _).
Qed.
Lemma observed_readable rec :
  (forall f, observed rec f -> readable rec f) /\
  (forall b, (rec = true -> Forall (fun i => observed_step i.1 i.2) (body_instrs b)) -> body_readable rec b).
Proof.
  apply Frame_Body_ind.
  - intros s b IH e Ho. by apply IH.
  - done.
  - intros b a r IH Ho. split; [|apply IH; intros Hr; by destruct (proj1 (Forall_cons _ _ _) (Ho Hr))].
    intros Hr. destruct (proj1 (Forall_cons _ _ _) (Ho Hr)) as [Hob _]. destruct (observed_shown b a Hob) as [d ->]. by eexists.
  - intros b t dt a r IH Ho. split; [|apply IH; intros Hr; by destruct (proj1 (Forall_cons _ _ _) (Ho Hr))].
    intros Hr. destruct (proj1 (Forall_cons _ _ _) (Ho Hr)) as [Hob _]. destruct (observed_shown b a Hob) as [d ->]. by eexists.
  - intros b f IHf a r IH Ho. split_and!.
    + intros Hr. destruct (proj1 (Forall_cons _ _ _) (Ho Hr)) as [Hob _]. destruct (observed_shown b a Hob) as [d ->]. by eexists.
    + apply IHf. intros Hr. destruct (proj1 (Forall_cons _ _ _) (Ho Hr)) as [_ Hall]. by apply Forall_app in Hall as [? _].
    + apply IH. intros Hr. destruct (proj1 (Forall_cons _ _ _) (Ho Hr)) as [_ Hall]. by apply Forall_app in Hall as [_ ?].
Qed.
Fixpoint body_logs (b : Body) : list RawOrDecodedLog :=
  match b with
  | Done => []
  | Quiet _ _ r | Enter _ _ _ r => body_logs r
  | Emit _ topics data _ r => RawLogEntry (mkRawLog topics data) :: body_logs r
  end.
(** The indices of the frames that a body enters, from [j] on. *)
Fixpoint body_children (j : nat) (b : Body) : list nat :=
  match b with
  | Done => []
  | Quiet _ _ r | Emit _ _ _ _ r => body_children j r
  | Enter _ f _ r => j :: body_children (j + size f) r
  end.
Fixpoint body_order (logs calls : nat) (b : Body) : list LogCallOrder :=
  match b with
  | Done => []
  | Quiet _ _ r => body_order logs calls r
  | Emit _ _ _ _ r => OLog logs :: body_order (S logs) calls r
  | Enter _ _ _ r => OCall calls :: body_order logs (S calls) r
  end.

Definition frame_node (rec : bool) (parent : option nat) (d i : nat) (f : Frame) : CallTraceNode :=
  match f with
  | Fr s b e =>
      mkNode parent (body_children (S i) b) i (closed e (set_steps (body_steps rec b) (opened d s))) (body_logs b) (body_order 0 0 b)
  end.
Fixpoint layout (rec : bool) (parent : option nat) (d i : nat) (f : Frame) : CallTraceArena :=
  frame_node rec parent d i f :: match f with Fr _ b _ => body_layout rec d i (S i) b end
with body_layout (rec : bool) (d i j : nat) (b : Body) : CallTraceArena :=
  match b with
  | Done => []
  | Quiet _ _ r | Emit _ _ _ _ r => body_layout rec d i j r
  | Enter _ f _ r => layout rec (Some i) (S d) j f ++ body_layout rec d i (j + size f) r
  end.

Lemma layout_length rec :
  (forall f parent d i, length (layout rec parent d i f) = size f) /\
  (forall b d i j, length (body_layout rec d i j b) = body_size b).
Proof.
  apply Frame_Body_ind; intros; cbn; try done.
  - by f_equal.
  - rewrite length_app. congruence.
Qed.

Lemma index_Some {A} (l : list A) i x : l !! i = Some x -> index l i = Ret x.
Proof. intros Hi. unfold index. by rewrite Hi. Qed.

(** ** Open calls *)
(** The open calls are a path from the root along the last children. *)
Record path (A : CallTraceArena) (stk : list nat) : Prop := {
  path_root : stk !! 0%nat = Some 0%nat;
  path_length : (length stk <= length A)%nat;
  path_node k x : stk !! k = Some x -> exists n, A !! x = Some n /\ tr_depth (nd_trace n) = k /\
    (forall y, stk !! S k = Some y -> last (nd_children n) = Some y) }.

Lemma path_lookup A stk k x : path A stk -> stk !! k = Some x -> exists n, A !! x = Some n /\ tr_depth (nd_trace n) = k.
Proof. intros Hp Hk. destruct (path_node _ _ Hp _ _ Hk) as (n & ? & ? & _). eauto. Qed.
Lemma path_last A stk p : path A stk -> last stk = Some p -> exists n, A !! p = Some n /\ tr_depth (nd_trace n) = pred (length stk).
Proof. intros Hp Hl. rewrite last_lookup in Hl. by eapply path_lookup. Qed.

(** A change of the last open call that keeps its depth, and new nodes. *)
Lemma path_update A stk p n n' ext :
  path A stk -> last stk = Some p -> A !! p = Some n -> tr_depth (nd_trace n') = tr_depth (nd_trace n) ->
  path (<[p := n']> A ++ ext) stk.
Proof.
  intros Hp Hl Hn Hd. split; [apply Hp|rewrite length_app, length_insert; pose proof (path_length _ _ Hp); lia|].
  intros k x Hk. destruct (path_node _ _ Hp _ _ Hk) as (m & Hm & Hdm & Hc).
  destruct (decide (x = p)) as [->|Hne].
  - exists n'. assert (m = n) as -> by congruence.
    rewrite lookup_app_l, list_lookup_insert_eq by (try rewrite length_insert; by eapply lookup_lt_Some).
    split_and!; [done|congruence|]. intros y Hy. exfalso.
    rewrite last_lookup in Hl. destruct (path_lookup _ _ _ _ Hp Hl) as (n0 & Hn0 & Hd0).
    assert (n0 = n) as -> by congruence. apply lookup_lt_Some in Hy. apply lookup_lt_Some in Hk. lia.
  - exists m. rewrite lookup_app_l, list_lookup_insert_ne by (try rewrite length_insert; by eapply lookup_lt_Some || done). done.
Qed.

(** The search for the parent follows the open calls. *)
Lemma push_trace_path A stk p n tr fuel k x :
  path A stk -> last stk = Some p -> A !! p = Some n -> tr_depth tr = length stk ->
  stk !! k = Some x -> (length stk <= fuel + k)%nat ->
  push_trace_fuel fuel A x tr = Ret (length A, <[p := add_child (length A) n]> A ++ [mkNode (Some p) [] (length A) tr [] []]).
Proof.
  intros Hp Hl Hn Ht. revert k x. induction fuel as [|fuel IH]; intros k x Hk Hf.
  { apply lookup_lt_Some in Hk. lia. }
  cbn [push_trace_fuel]. rewrite Ht. pose proof (lookup_lt_Some _ _ _ Hk).
  destruct (length stk) as [|d] eqn:Hlen; [lia|].
  destruct (path_node _ _ Hp _ _ Hk) as (m & Hm & Hd & Hc). unfold index at 1. rewrite Hm. cbn [mbind exec_bind expect].
  rewrite Hd. destruct (Nat.eqb_spec k d) as [->|Hne].
  - rewrite last_lookup, Hlen in Hl. cbn in Hl. assert (x = p) as -> by congruence. assert (m = n) as -> by congruence. done.
  - destruct (stk !! S k) as [y|] eqn:Hy; [|apply lookup_ge_None in Hy; lia].
    rewrite (Hc _ eq_refl). cbn [mbind exec_bind expect]. apply (IH (S k)); [done|lia].
Qed.
Lemma path_push A stk p n tr :
  path A stk -> last stk = Some p -> A !! p = Some n -> tr_depth tr = length stk ->
  path (<[p := add_child (length A) n]> A ++ [mkNode (Some p) [] (length A) tr [] []]) (stk ++ [length A]).
Proof.
  intros Hp Hl Hn Ht. pose proof (path_update A stk p n (add_child (length A) n) [mkNode (Some p) [] (length A) tr [] []] Hp Hl Hn eq_refl) as Hp'.
  split.
  - rewrite lookup_app_l; [apply Hp|]. destruct stk; [done|cbn; lia].
  - rewrite !length_app, length_insert. pose proof (path_length _ _ Hp). cbn. lia.
  - intros k x Hk. apply lookup_snoc_Some in Hk as [[Hlt Hk]|[-> <-]].
    + destruct (path_node _ _ Hp' _ _ Hk) as (m & Hm & Hd & Hc). exists m. split_and!; [done..|].
      intros y Hy. apply lookup_snoc_Some in Hy as [[_ Hy]|[Hlen <-]]; [by apply Hc|].
      rewrite last_lookup, <- Hlen in Hl. cbn in Hl. assert (x = p) as -> by congruence.
      rewrite lookup_app_l, list_lookup_insert_eq in Hm by (try rewrite length_insert; by eapply lookup_lt_Some).
      injection Hm as <-. cbn. apply last_snoc.
    + eexists. rewrite lookup_app_r, length_insert, Nat.sub_diag by (rewrite length_insert; done). cbn. split_and!; [done..|].
      intros y Hy. rewrite lookup_ge_None_2 in Hy by (rewrite length_app; cbn; lia). done.
Qed.

(** ** One instruction *)
Definition add_steps (l : list CallTraceStep) (n : CallTraceNode) : CallTraceNode :=
  set_trace (set_steps (tr_steps (nd_trace n) ++ l) (nd_trace n)) n.
Lemma add_steps_nil n : add_steps [] n = n.
Proof. destruct n as [? ? ? [] ? ?]. unfold add_steps. cbn. by rewrite app_nil_r. Qed.
Lemma add_steps_app l1 l2 n : add_steps l2 (add_steps l1 n) = add_steps (l1 ++ l2) n.
Proof. unfold add_steps. cbn. by rewrite app_assoc. Qed.

Lemma step_tracer rec A stk ss i n b :
  last stk = Some i -> A !! i = Some n ->
  forall op, (rec = true -> b_code b !! b_pc b = Some op) ->
  step b (mkTracer rec A stk ss) =
    Ret (mkTracer rec (<[i := add_steps (if rec then [step_before op b] else []) n]> A) stk
           (if rec then ss ++ [(i, length (tr_steps (nd_trace n)))] else ss)).
Proof.
  intros Hl Hn op Hop. unfold step. cbn [record_steps]. destruct rec; cbn [negb].
  - unfold start_step. cbn [trace_stack traces]. rewrite Hl. cbn [mbind exec_bind expect]. unfold index.
    rewrite Hn, (Hop eq_refl). done.
  - rewrite add_steps_nil. by rewrite list_insert_id.
Qed.
Lemma step_end_tracer rec A stk ss i n a s :
  A !! i = Some n ->
  forall l s0, (rec = true -> tr_steps (nd_trace n) = l ++ [s0] /\ step_after a s0 = Ret s) ->
  step_end a (mkTracer rec A stk (if rec then ss ++ [(i, length l)] else ss)) =
    Ret (mkTracer rec (<[i := if rec then set_trace (set_steps (l ++ [s]) (nd_trace n)) n else n]> A) stk ss).
Proof.
  intros Hn l s0 Hs. unfold step_end. cbn [record_steps]. destruct rec; cbn [negb].
  - destruct (Hs eq_refl) as [Hl Ha]. unfold fill_step. cbn [step_stack traces].
    rewrite vec_pop_snoc. cbn [mbind exec_bind expect]. rewrite (index_Some _ _ _ Hn). cbn [mbind exec_bind].
    rewrite (index_Some _ (length l) s0) by (rewrite Hl, lookup_app_r, Nat.sub_diag by lia; done). cbn [mbind exec_bind].
    rewrite Ha. cbn [mbind exec_bind]. rewrite Hl, insert_app_r_alt, Nat.sub_diag by lia. done.
  - by rewrite list_insert_id.
Qed.

(** An instruction around an inner action that changes the open call by [g] and
    adds nodes. *)
Lemma instruction rec A stk ss i n b a g ext inner :
  last stk = Some i -> A !! i = Some n -> (rec = true -> is_Some (step_of b a)) ->
  (forall m t, g (set_trace t m) = set_trace t (g m)) -> (forall m, nd_trace (g m) = nd_trace m) ->
  (forall l ss', inner (mkTracer rec (<[i := add_steps l n]> A) stk ss') =
     Ret (mkTracer rec (<[i := g (add_steps l n)]> A ++ ext) stk ss')) ->
  (t ← step b (mkTracer rec A stk ss); t ← inner t; step_end a t) =
    Ret (mkTracer rec (<[i := add_steps (steps_of rec b a) (g n)]> A ++ ext) stk ss).
Proof.
  intros Hl Hn Hs Hg Ht Hin. pose proof (lookup_lt_Some _ _ _ Hn) as Hi.
  assert (exists op s, rec = true -> b_code b !! b_pc b = Some op /\ step_after a (step_before op b) = Ret s /\ step_of b a = Some s) as (op & s & Hops).
  { destruct rec; [|by exists 0, (step_before 0 b)]. destruct (Hs eq_refl) as [s Hso]. pose proof Hso as Hso'. unfold step_of in Hso.
    destruct (b_code b !! b_pc b) as [op|]; [|done]. exists op, s. destruct (step_after a (step_before op b)) as [s'|] eqn:E; [|done].
    injection Hso as ->. done. }
  rewrite (step_tracer rec A stk ss i n b Hl Hn op) by (intros; by apply Hops). cbn [mbind exec_bind].
  rewrite Hin. cbn [mbind exec_bind].
  rewrite (step_end_tracer rec _ stk ss i (g (add_steps (if rec then [step_before op b] else []) n)) a s) with (s0 := step_before op b).
  - f_equal. f_equal. rewrite insert_app_l, list_insert_insert_eq by (rewrite length_insert; done). do 2 f_equal.
    unfold steps_of. destruct rec.
    + destruct (Hops eq_refl) as (_ & _ & ->). cbn [option_list]. unfold add_steps. rewrite Hg, !Ht. done.
    + by rewrite !add_steps_nil.
  - rewrite lookup_app_l, list_lookup_insert_eq by (rewrite ?length_insert; done). done.
  - intros ->. rewrite Ht. by destruct (Hops eq_refl) as (_ & ? & _).
Qed.

(** ** Whole executions *)
Definition extend (rec : bool) (j : nat) (b : Body) (n : CallTraceNode) : CallTraceNode :=
  mkNode (nd_parent n) (nd_children n ++ body_children j b) (nd_idx n)
    (set_steps (tr_steps (nd_trace n) ++ body_steps rec b) (nd_trace n)) (nd_logs n ++ body_logs b)
    (nd_ordering n ++ body_order (length (nd_logs n)) (length (nd_children n)) b).
Lemma extend_depth rec j b n : tr_depth (nd_trace (extend rec j b n)) = tr_depth (nd_trace n).
Proof. done. Qed.

Lemma open_frame_push d s rec A stk ss p n :
  path A stk -> last stk = Some p -> A !! p = Some n -> length stk = d ->
  open_frame d s (mkTracer rec A stk ss) =
    Ret (mkTracer rec (<[p := add_child (length A) n]> A ++ [mkNode (Some p) [] (length A) (opened d s) [] []]) (stk ++ [length A]) ss).
Proof.
  intros Hp Hl Hn Hd. pose proof (path_length _ _ Hp).
  destruct s as [i|i nonce]; cbn [open_frame]; [unfold call; destruct (call_ends i) as [from to] eqn:He|unfold create];
    unfold start_trace, push_trace; cbn [traces record_steps trace_stack step_stack];
    (rewrite (push_trace_path A stk p n _ _ 0 0); [|done..|by apply Hp|lia]); cbn [mbind exec_bind opened]; by rewrite ?He.
Qed.
Lemma close_frame_fill e rec A stk ss i n :
  A !! i = Some n ->
  close_frame e (mkTracer rec A (stk ++ [i]) ss) = Ret (mkTracer rec (<[i := set_trace (closed e (nd_trace n)) n]> A) stk ss).
Proof.
  intros Hn. destruct e as [e|a e]; cbn [close_frame]; unfold call_end, create_end, fill_trace; cbn [trace_stack traces record_steps step_stack];
    rewrite vec_pop_snoc; cbn [mbind exec_bind expect]; by rewrite (index_Some _ _ _ Hn).
Qed.

Lemma run_body_bind d b1 a inner r t :
  (t ← step b1 t; t ← inner t; t ← step_end a t; run_body d r t) =
  (t ← (t ← step b1 t; t ← inner t; step_end a t); run_body d r t).
Proof.
  destruct (step b1 t) as [t1|]; [|done]. cbn [mbind exec_bind]. destruct (inner t1) as [t2|]; [|done].
  cbn [mbind exec_bind]. by destruct (step_end a t2).
Qed.

Lemma runs_layout rec :
  (forall f d A stk ss p n, path A stk -> last stk = Some p -> A !! p = Some n -> length stk = d -> readable rec f ->
    run_frame d f (mkTracer rec A stk ss) =
      Ret (mkTracer rec (<[p := add_child (length A) n]> A ++ layout rec (Some p) d (length A) f) stk ss)) /\
  (forall b d A stk ss i n, path A stk -> last stk = Some i -> A !! i = Some n -> length stk = S d -> body_readable rec b ->
    run_body d b (mkTracer rec A stk ss) =
      Ret (mkTracer rec (<[i := extend rec (length A) b n]> A ++ body_layout rec d i (length A) b) stk ss)).
Proof.
  apply Frame_Body_ind.
  - intros s b IH e d A stk ss p n Hp Hl Hn Hd Hr. cbn [run_frame].
    rewrite (open_frame_push d s rec A stk ss p n) by done. cbn [mbind exec_bind].
    set (fresh := mkNode (Some p) [] (length A) (opened d s) [] []).
    set (A1 := <[p := add_child (length A) n]> A).
    assert ((A1 ++ [fresh]) !! length A = Some fresh) as Hf.
    { rewrite lookup_app_r by (unfold A1; rewrite length_insert; done). unfold A1. by rewrite length_insert, Nat.sub_diag. }
    assert (length (A1 ++ [fresh]) = S (length A)) as Hlen by (unfold A1; rewrite length_app, length_insert; cbn; lia).
    rewrite (IH d (A1 ++ [fresh]) (stk ++ [length A]) ss (length A) fresh).
    2: { apply path_push; [done..|]. destruct s; cbn; congruence. }
    2: { by rewrite last_snoc. } 2: { exact Hf. } 2: { rewrite length_app. cbn. lia. } 2: { exact Hr. }
    cbn [mbind exec_bind]. rewrite Hlen.
    erewrite close_frame_fill; [|rewrite lookup_app_l, list_lookup_insert_eq by (rewrite ?length_insert; lia); done].
    f_equal. f_equal. rewrite insert_app_l, list_insert_insert_eq by (rewrite length_insert; lia).
    rewrite insert_app_r_alt by (unfold A1; rewrite length_insert; done). unfold A1. rewrite length_insert, Nat.sub_diag, <- app_assoc. by destruct s.
  - intros d A stk ss i n Hp Hl Hn Hd _. cbn. rewrite app_nil_r. unfold extend. cbn. rewrite !app_nil_r.
    rewrite list_insert_id; [done|]. rewrite Hn. by destruct n as [? ? ? [] ? ?].
  - intros b a r IH d A stk ss i n Hp Hl Hn Hd [Hs Hr]. cbn [run_body].
    etrans; [exact (run_body_bind d b a Ret r _)|].
    rewrite (instruction rec A stk ss i n b a (fun m => m) [] Ret) by (done || (intros; by rewrite app_nil_r)).
    cbn [mbind exec_bind]. rewrite app_nil_r.
    rewrite (IH d (<[i := add_steps (steps_of rec b a) n]> A) stk ss i (add_steps (steps_of rec b a) n)); [|..|done|done].
    + f_equal. f_equal. rewrite list_insert_insert_eq, length_insert. do 2 f_equal.
      unfold extend, add_steps. cbn. by rewrite <- app_assoc.
    + pose proof (path_update A stk i n (add_steps (steps_of rec b a) n) [] Hp Hl Hn eq_refl) as Hp'. by rewrite app_nil_r in Hp'.
    + done.
    + apply list_lookup_insert_eq. by eapply lookup_lt_Some.
  - intros b topics data a r IH d A stk ss i n Hp Hl Hn Hd [Hs Hr]. cbn [run_body].
    etrans; [exact (run_body_bind d b a (log topics data) r _)|]. pose proof (lookup_lt_Some _ _ _ Hn) as Hi.
    set (l := RawLogEntry (mkRawLog topics data)).
    rewrite (instruction rec A stk ss i n b a (add_log l) [] (log topics data)); [|done..|].
    2: { intros l' ss'. unfold log. cbn [trace_stack traces record_steps step_stack]. rewrite Hl. cbn [mbind exec_bind expect].
         rewrite (index_Some _ i (add_steps l' n)) by (by apply list_lookup_insert_eq). cbn [mbind exec_bind].
         by rewrite list_insert_insert_eq, app_nil_r. }
    cbn [mbind exec_bind]. rewrite app_nil_r.
    rewrite (IH d (<[i := add_steps (steps_of rec b a) (add_log l n)]> A) stk ss i (add_steps (steps_of rec b a) (add_log l n))); [|..|done|done].
    + f_equal. f_equal. rewrite list_insert_insert_eq, length_insert. do 2 f_equal.
      unfold extend, add_steps. cbn. rewrite <- !app_assoc, length_app. cbn. by rewrite Nat.add_1_r.
    + pose proof (path_update A stk i n (add_steps (steps_of rec b a) (add_log l n)) [] Hp Hl Hn eq_refl) as Hp'. by rewrite app_nil_r in Hp'.
    + done.
    + by apply list_lookup_insert_eq.
  - intros b f IHf a r IH d A stk ss i n Hp Hl Hn Hd (Hs & Hrf & Hr). cbn [run_body].
    etrans; [exact (run_body_bind d b a (run_frame (S d) f) r _)|]. pose proof (lookup_lt_Some _ _ _ Hn) as Hi.
    rewrite (instruction rec A stk ss i n b a (add_child (length A)) (layout rec (Some i) (S d) (length A) f) (run_frame (S d) f)); [|done..|].
    2: { intros l' ss'.
         rewrite (IHf (S d) (<[i := add_steps l' n]> A) stk ss' i (add_steps l' n)); [|..|done|done].
         - by rewrite length_insert, list_insert_insert_eq.
         - pose proof (path_update A stk i n (add_steps l' n) [] Hp Hl Hn eq_refl) as Hp'. by rewrite app_nil_r in Hp'.
         - done.
         - by apply list_lookup_insert_eq. }
    cbn [mbind exec_bind].
    set (n' := add_steps (steps_of rec b a) (add_child (length A) n)). set (ly := layout rec (Some i) (S d) (length A) f).
    rewrite (IH d (<[i := n']> A ++ ly) stk ss i n'); [|..|done|done].
    + f_equal. f_equal. rewrite insert_app_l, list_insert_insert_eq by (rewrite length_insert; done).
      rewrite length_app, length_insert. unfold ly. rewrite (proj1 (layout_length rec)), <- app_assoc. cbn [body_layout].
      do 2 f_equal. unfold extend, n', add_steps. cbn. rewrite <- !app_assoc, length_app. cbn. by rewrite Nat.add_1_r.
    + apply (path_update A stk i n n' ly Hp Hl Hn). done.
    + done.
    + rewrite lookup_app_l by (rewrite length_insert; done). by apply list_lookup_insert_eq.
Qed.

Lemma path_single n : tr_depth (nd_trace n) = 0%nat -> path [n] [0%nat].
Proof.
  intros Hd. split; [done|done|]. intros [|k] x Hk; [|done]. injection Hk as <-. exists n. split_and!; [done..|]. by intros y.
Qed.

Lemma run_frame_layout rec f :
  readable rec f ->
  run_frame 0 f (mkTracer rec arena_default [] []) = Ret (mkTracer rec (layout rec None 0 0 f) [] []).
Proof.
  destruct f as [s b e]. intros Hr. cbn [run_frame].
  assert (open_frame 0 s (mkTracer rec arena_default [] []) = Ret (mkTracer rec [mkNode None [] 0 (opened 0 s) [] []] [0%nat] [])) as ->.
  { destruct s as [i|i nonce]; cbn [open_frame]; [unfold call; destruct (call_ends i) eqn:He; cbn; by rewrite He|done]. }
  cbn [mbind exec_bind].
  rewrite (proj2 (runs_layout rec) b 0%nat [mkNode None [] 0 (opened 0 s) [] []] [0%nat] [] 0%nat (mkNode None [] 0 (opened 0 s) [] []));
    [|apply path_single; by destruct s|done..].
  cbn [mbind exec_bind]. etrans; [apply (close_frame_fill e rec _ [] [] 0%nat); reflexivity|]. by destruct s.
Qed.


(** ** Trace addresses *)
(** The addresses of the calls of a frame, in the order in which they started:
    the address of a call is its way down from the root, each step the number of
    the subcall. *)
Fixpoint paths (f : Frame) : list (list nat) := match f with Fr _ b _ => [] :: body_paths 0 b end
with body_paths (k : nat) (b : Body) : list (list nat) :=
  match b with
  | Done => []
  | Quiet _ _ r | Emit _ _ _ _ r => body_paths k r
  | Enter _ f _ r => (cons k <$> paths f) ++ body_paths (S k) r
  end.

Lemma paths_length : (forall f, length (paths f) = size f) /\ (forall b k, length (body_paths k b) = body_size b).
Proof.
  apply Frame_Body_ind; intros; cbn; try done.
  - by f_equal.
  - rewrite length_app, length_fmap. congruence.
Qed.
(** A call starts after the calls around it. *)
Lemma path_short :
  (forall f k p, paths f !! k = Some p -> (length p <= k)%nat) /\
  (forall b c k p, body_paths c b !! k = Some p -> (length p <= S k)%nat).
Proof.
  apply Frame_Body_ind.
  - intros s b IH e [|k] p Hk; cbn in Hk; [by injection Hk as <-|]. by apply IH in Hk.
  - intros c k p Hk. by destruct k.
  - intros b a r IH c k p Hk. by apply IH in Hk.
  - intros b t dt a r IH c k p Hk. by apply IH in Hk.
  - intros b f IHf a r IH c k p Hk. cbn in Hk. apply lookup_app_Some in Hk as [Hk|[Hlen Hk]].
    + rewrite list_lookup_fmap in Hk. destruct (paths f !! k) as [q|] eqn:Hq; [|done]. injection Hk as <-.
      apply IHf in Hq. cbn. lia.
    + apply IH in Hk. lia.
Qed.

(** [p] leads from the root of [L] to node [x]. *)
Inductive address_of (L : CallTraceArena) : nat -> list nat -> Prop :=
| root_address x n : L !! x = Some n -> nd_parent n = None -> address_of L x []
| child_address x n y m k p :
    L !! x = Some n -> nd_parent n = Some y -> nd_idx n = x -> L !! y = Some m -> position x (nd_children m) = Some k ->
    address_of L y p -> address_of L x (p ++ [k]).

Lemma climb L x p : address_of L x p -> forall n fuel graph, L !! x = Some n -> (length p < fuel)%nat ->
  trace_address_fuel fuel L n graph = Ret (p ++ rev graph).
Proof.
  induction 1 as [x n Hx Hpar|x n y m k p Hx Hpar Hidx Hy Hk Hp IH]; intros n' [|fuel] graph Hn Hf; try (cbn in Hf; lia);
    assert (n' = n) as -> by congruence; cbn [trace_address_fuel]; rewrite Hpar.
  - done.
  - rewrite (index_Some _ _ _ Hy). cbn [mbind exec_bind]. rewrite Hidx, Hk. cbn [mbind exec_bind expect].
    rewrite (IH m); [|done|rewrite length_app in Hf; cbn in Hf; lia]. by rewrite rev_app_distr, <- app_assoc.
Qed.
Lemma position_skip (l : list nat) x r : x ∉ l -> position x (l ++ x :: r) = Some (length l).
Proof.
  induction l as [|y l IH]; intros Hx; cbn [app position].
  - by rewrite decide_True.
  - rewrite decide_False by (intros ->; apply Hx; left). rewrite IH; [done|]. intros Hin. apply Hx. by right.
Qed.

(** The nodes of [l] are those of [L] from [i] on. *)
Definition within (L : CallTraceArena) (i : nat) (l : CallTraceArena) : Prop := forall k n, l !! k = Some n -> L !! (i + k)%nat = Some n.
Lemma within_app L i l1 l2 : within L i (l1 ++ l2) -> within L i l1 /\ within L (i + length l1) l2.
Proof.
  intros Hw. split; intros k n Hk.
  - apply Hw. by apply lookup_app_l_Some.
  - rewrite <- Nat.add_assoc. apply Hw. rewrite lookup_app_r by lia. by replace (length l1 + k - length l1)%nat with k by lia.
Qed.

Lemma layout_addresses rec L :
  (forall f parent d i q, within L i (layout rec parent d i f) -> address_of L i q ->
    forall k p, paths f !! k = Some p -> address_of L (i + k) (q ++ p)) /\
  (forall b d i j q m pre, within L j (body_layout rec d i j b) -> address_of L i q ->
    L !! i = Some m -> nd_children m = pre ++ body_children j b -> Forall (fun x => x < j)%nat pre ->
    forall k p, body_paths (length pre) b !! k = Some p -> address_of L (j + k) (q ++ p)).
Proof.
  apply Frame_Body_ind.
  - intros s b IH e parent d i q Hw Hq [|k] p Hk.
    { cbn in Hk. injection Hk as <-. rewrite Nat.add_0_r. by rewrite app_nil_r. }
    change (body_paths (length (@nil nat)) b !! k = Some p) in Hk.
    replace (i + S k)%nat with (S i + k)%nat by lia.
    refine (IH d i (S i) q _ [] _ Hq _ _ _ k p Hk).
    + intros k' n Hn. replace (S i + k')%nat with (i + S k')%nat by lia. by apply Hw.
    + rewrite <- (Nat.add_0_r i) at 1. by apply Hw.
    + done.
    + constructor.
  - intros d i j q m pre _ _ _ _ _ k p Hk. by destruct k.
  - intros b a r IH d i j q m pre Hw Hq Hm Hc Hpre k p Hk. by eapply IH.
  - intros b t dt a r IH d i j q m pre Hw Hq Hm Hc Hpre k p Hk. by eapply IH.
  - intros b f IHf a r IH d i j q m pre Hw Hq Hm Hc Hpre k p Hk. cbn [body_layout body_children body_paths] in *.
    apply within_app in Hw as [Hwf Hwr]. rewrite (proj1 (layout_length rec)) in Hwr.
    assert (address_of L j (q ++ [length pre])) as Hj.
    { assert (L !! j = Some (frame_node rec (Some i) (S d) j f)) as Hx by (rewrite <- (Nat.add_0_r j) at 1; apply Hwf; by destruct f).
      eapply (child_address L j _ i m); [exact Hx|by destruct f|by destruct f|exact Hm| |exact Hq].
      rewrite Hc. apply position_skip. intros Hin. rewrite Forall_forall in Hpre. apply Hpre in Hin. lia. }
    apply lookup_app_Some in Hk as [Hk|[Hlen Hk]].
    + rewrite list_lookup_fmap in Hk. destruct (paths f !! k) as [p'|] eqn:Hp; [|done]. injection Hk as <-.
      pose proof (IHf _ _ _ _ Hwf Hj _ _ Hp) as Ha. by rewrite <- app_assoc in Ha.
    + rewrite length_fmap, (proj1 paths_length) in Hlen, Hk.
      replace (j + k)%nat with (j + size f + (k - size f))%nat by lia.
      refine (IH d i (j + size f)%nat q m (pre ++ [j]) Hwr Hq Hm _ _ _ p _).
      * by rewrite Hc, <- app_assoc.
      * apply Forall_app. assert (0 < size f)%nat by (destruct f; cbn; lia). split; [|constructor; [lia|constructor]].
        eapply Forall_impl; [exact Hpre|]. cbn. lia.
      * rewrite length_app. cbn. by rewrite Nat.add_1_r.
Qed.

Lemma trace_address_layout rec f k p :
  paths f !! k = Some p -> trace_address (layout rec None 0 0 f) k = Ret p.
Proof.
  intros Hk. unfold trace_address. destruct (Nat.eqb_spec k 0) as [->|Hne].
  { destruct f. by injection Hk as <-. }
  pose proof (lookup_lt_Some _ _ _ Hk) as Hlt. rewrite (proj1 paths_length) in Hlt.
  destruct (layout rec None 0 0 f !! k) as [n|] eqn:Hn; [|apply lookup_ge_None in Hn; rewrite (proj1 (layout_length rec)) in Hn; lia].
  rewrite (index_Some _ _ _ Hn). cbn [mbind exec_bind].
  assert (address_of (layout rec None 0 0 f) k p) as Ha.
  { refine (proj1 (layout_addresses rec _) f None 0%nat 0%nat [] _ _ k p Hk); [by intros k' n' ?|].
    eapply root_address; [by destruct f|by destruct f]. }
  rewrite (climb _ _ _ Ha _ _ [] Hn); [by rewrite app_nil_r|].
  pose proof (proj1 path_short _ _ _ Hk). rewrite (proj1 (layout_length rec)). lia.
Qed.

Lemma parity_loop_addresses rec f nodes idx ps :
  within (layout rec None 0 0 f) idx nodes -> drop idx (paths f) = ps -> length ps = length nodes ->
  exists l, parity_loop (layout rec None 0 0 f) idx nodes = Ret l /\ pt_trace_address <$> l = ps /\
    pt_action <$> l = parity_action <$> nodes /\ pt_subtraces <$> l = (fun n => length (nd_children n)) <$> nodes.
Proof.
  revert idx ps. induction nodes as [|n nodes IH]; intros idx ps Hw Hps Hlen.
  { exists []. destruct ps; done. }
  destruct ps as [|q ps]; [done|]. injection Hlen as Hlen.
  assert (paths f !! idx = Some q) as Hq by (rewrite <- (Nat.add_0_r idx), <- lookup_drop, Hps; done).
  destruct (IH (S idx) ps) as (l & Hl & Ha & Hb & Hc).
  - intros k m Hk. replace (S idx + k)%nat with (idx + S k)%nat by lia. by apply Hw.
  - rewrite <- Nat.add_1_r, <- drop_drop, Hps. done.
  - done.
  - cbn [parity_loop]. unfold parity_trace. rewrite (trace_address_layout rec f _ _ Hq). cbn [mbind exec_bind]. rewrite Hl.
    eexists; split; [done|]. cbn. by rewrite Ha, Hb, Hc.
Qed.

(** The parity traces of a recorded execution are its calls in the order in
    which they started: the trace address of each is its way down from the root
    call, and the number of subtraces that of its subcalls. *)
Theorem parity_traces_exact rec f :
  readable rec f ->
  exists t l, run_frame 0 f (mkTracer rec arena_default [] []) = Ret t /\ parity_traces (traces t) = Ret l /\
    pt_trace_address <$> l = paths f /\
    pt_action <$> l = parity_action <$> traces t /\ pt_subtraces <$> l = (fun n => length (nd_children n)) <$> traces t.
Proof.
  intros Hr. destruct (parity_loop_addresses rec f (layout rec None 0 0 f) 0 (paths f)) as (l & Hl & Ha & Hb & Hc).
  - by intros k n Hk.
  - done.
  - by rewrite (proj1 paths_length), (proj1 (layout_length rec)).
  - eexists _, l. split; [by apply run_frame_layout|]. done.
Qed.

(** ** Geth traces *)
(** The steps of an execution in the order in which they ran. *)
Fixpoint flat (f : Frame) : list CallTraceStep := match f with Fr _ b _ => body_flat b end
with body_flat (b : Body) : list CallTraceStep :=
  match b with
  | Done => []
  | Quiet b a r | Emit b _ _ a r => steps_of true b a ++ body_flat r
  | Enter b f a r => steps_of true b a ++ flat f ++ body_flat r
  end.
(** The instructions that are calls are those that enter a frame. *)
Definition calls (c : bool) (b : Before) (a : After) : Prop := forall s, step_of b a = Some s -> is_call_op (st_op s) = c.
Fixpoint calls_entered (f : Frame) : Prop := match f with Fr _ b _ => body_calls_entered b end
with body_calls_entered (b : Body) : Prop :=
  match b with
  | Done => True
  | Quiet b a r | Emit b _ _ a r => calls false b a /\ body_calls_entered r
  | Enter b f a r => calls true b a /\ calls_entered f /\ body_calls_entered r
  end.
(** The logs of a list of steps. *)
Fixpoint geth_logs (opts : GethOptions) (l : list CallTraceStep) (acc : Storage * list StructLog) : exec (Storage * list StructLog) :=
  match l with
  | [] => Ret acc
  | s :: l => '(sl, storage) ← log_of opts acc.1 s; geth_logs opts l (storage, acc.2 ++ [sl])
  end.
Lemma geth_logs_app opts l1 l2 acc : geth_logs opts (l1 ++ l2) acc = (acc ← geth_logs opts l1 acc; geth_logs opts l2 acc).
Proof.
  revert acc. induction l1 as [|s l1 IH]; intros acc; [done|]. cbn [app geth_logs].
  destruct (log_of opts acc.1 s) as [[sl st]|]; [|done]. cbn [mbind exec_bind]. apply IH.
Qed.
(** Steps that are not calls, and a step that is one. *)
Lemma geth_steps_quiet opts descend ch b a l k acc :
  is_Some (step_of b a) -> calls false b a ->
  geth_steps opts descend ch (steps_of true b a ++ l) k acc = (acc ← geth_logs opts (steps_of true b a) acc; geth_steps opts descend ch l k acc).
Proof.
  intros [s Hs] Hc. unfold steps_of. rewrite Hs. change (option_list (Some s)) with [s]. cbn [app geth_steps geth_logs].
  destruct (log_of opts acc.1 s) as [[sl st]|]; [|done]. cbn [mbind exec_bind]. by rewrite (Hc _ Hs).
Qed.
Lemma geth_steps_call opts descend ch b a l k c acc :
  is_Some (step_of b a) -> calls true b a -> ch !! k = Some c ->
  geth_steps opts descend ch (steps_of true b a ++ l) k acc =
    (acc ← geth_logs opts (steps_of true b a) acc; acc ← descend c acc; geth_steps opts descend ch l (S k) acc).
Proof.
  intros [s Hs] Hc Hk. unfold steps_of. rewrite Hs. change (option_list (Some s)) with [s]. cbn [app geth_steps geth_logs].
  destruct (log_of opts acc.1 s) as [[sl st]|]; [|done]. cbn [mbind exec_bind]. rewrite (Hc _ Hs).
  by rewrite (index_Some _ _ _ Hk).
Qed.

Lemma geth_layout opts L :
  (forall f parent d i fuel acc, within L i (layout true parent d i f) -> readable true f -> calls_entered f -> (size f <= fuel)%nat ->
    add_to_geth_trace fuel L opts (frame_node true parent d i f) acc = geth_logs opts (flat f) acc) /\
  (forall b d i j pre fuel acc, within L j (body_layout true d i j b) -> body_readable true b -> body_calls_entered b -> (body_size b <= fuel)%nat ->
    geth_steps opts (fun c acc => cn ← index L c; add_to_geth_trace fuel L opts cn acc) (pre ++ body_children j b)
      (body_steps true b) (length pre) acc = geth_logs opts (body_flat b) acc).
Proof.
  apply Frame_Body_ind.
  - intros s b IH e parent d i [|fuel] acc Hw Hr Hc Hf; [cbn in Hf; lia|]. cbn [add_to_geth_trace frame_node nd_children nd_trace].
    assert (tr_steps (closed e (set_steps (body_steps true b) (opened d s))) = body_steps true b) as -> by (by destruct e).
    change (body_children (S i) b) with ([] ++ body_children (S i) b). change 0%nat with (length (@nil nat)) at 1.
    apply (IH d i (S i) []); [|done|done|cbn in Hf; lia].
    intros k n Hn. replace (S i + k)%nat with (i + S k)%nat by lia. by apply Hw.
  - done.
  - intros b a r IH d i j pre fuel acc Hw [Hs Hr] [Hc Hcr] Hf. cbn [body_steps body_children body_flat].
    rewrite geth_steps_quiet, geth_logs_app by auto. destruct (geth_logs opts (steps_of true b a) acc) as [acc'|]; [|done].
    cbn [mbind exec_bind]. by apply (IH d i).
  - intros b t dt a r IH d i j pre fuel acc Hw [Hs Hr] [Hc Hcr] Hf. cbn [body_steps body_children body_flat].
    rewrite geth_steps_quiet, geth_logs_app by auto. destruct (geth_logs opts (steps_of true b a) acc) as [acc'|]; [|done].
    cbn [mbind exec_bind]. by apply (IH d i).
  - intros b f IHf a r IH d i j pre fuel acc Hw (Hs & Hrf & Hr) (Hc & Hcf & Hcr) Hf. cbn [body_steps body_children body_flat body_layout body_size] in *.
    apply within_app in Hw as [Hwf Hwr]. rewrite (proj1 (layout_length true)) in Hwr.
    assert (L !! j = Some (frame_node true (Some i) (S d) j f)) as Hj by (rewrite <- (Nat.add_0_r j) at 1; apply Hwf; by destruct f).
    rewrite (geth_steps_call _ _ _ _ _ _ _ j), geth_logs_app; [|by auto|done|by rewrite lookup_app_r, Nat.sub_diag by lia].
    destruct (geth_logs opts (steps_of true b a) acc) as [acc'|]; [|done]. cbn [mbind exec_bind].
    rewrite geth_logs_app, (index_Some _ _ _ Hj). cbn [mbind exec_bind].
    rewrite (IHf (Some i) (S d) j fuel acc') by (done || lia).
    destruct (geth_logs opts (flat f) acc') as [acc''|]; [|done]. cbn [mbind exec_bind].
    replace (S (length pre)) with (length (pre ++ [j])) by (rewrite length_app; cbn; lia).
    replace (pre ++ j :: body_children (j + size f) r) with ((pre ++ [j]) ++ body_children (j + size f) r) by (by rewrite <- app_assoc).
    apply (IH d i); (done || lia).
Qed.
(** Opcodes always have a name. *)
Lemma step_op_code b a s : step_of b a = Some s -> exists op, st_op s = OpCode op.
Proof.
  unfold step_of. destruct (b_code b !! b_pc b) as [op|]; [|done]. unfold step_after.
  destruct (a_pc a) as [|pc].
  - cbn [mbind exec_bind]. destruct (_ <? _); intros [= <-]; eauto.
  - destruct (index (a_code a) pc) as [o|]; [|done]. cbn [mbind exec_bind]. destruct (state_diff a o) as [df|]; [|done]. cbn [mbind exec_bind].
    destruct (u64_sub _ _) as [c|]; [|done]. cbn [mbind exec_bind]. destruct (_ <? _); intros [= <-]; eauto.
Qed.
Lemma flat_op_codes : (forall f, Forall (fun s => exists op, st_op s = OpCode op) (flat f)) /\
  (forall b, Forall (fun s => exists op, st_op s = OpCode op) (body_flat b)).
Proof.
  assert (forall b a, Forall (fun s => exists op, st_op s = OpCode op) (steps_of true b a)) as Hs.
  { intros b a. unfold steps_of. destruct (step_of b a) as [s|] eqn:E; constructor; [by eapply step_op_code|constructor]. }
  apply Frame_Body_ind; intros; cbn; [done|constructor|..]; repeat apply Forall_app_2; (exact (Hs _ _) || auto).
Qed.

(** The slots of [contract] that the steps of a list have changed. *)
Definition written (contract : Address) (l : list CallTraceStep) : gmap Z Z :=
  fold_left (fun m s => match st_state_diff s with
                        | Some (k, v) => if decide (st_contract s = contract) then <[k := v]> m else m
                        | None => m
                        end) l ∅.
Lemma written_snoc contract l s :
  written contract (l ++ [s]) =
    match st_state_diff s with
    | Some (k, v) => if decide (st_contract s = contract) then <[k := v]> (written contract l) else written contract l
    | None => written contract l
    end.
Proof. unfold written. by rewrite fold_left_app. Qed.
(** What the log of a step should show, after the steps [before]. *)
Definition log_shows (opts : GethOptions) (before : list CallTraceStep) (s : CallTraceStep) (op : byte) (l : StructLog) : Prop :=
  l = mkStructLog (st_depth s) (st_error s) (st_gas s) (st_gas_cost s)
        (if unwrap_or_default (enable_memory opts) then Some (convert_memory (st_memory s)) else None)
        (match opcode_as_str op with Some n => n | None => "UNDEFINED(0x" +:+ hex_encode [op] +:+ ")" end) (Z.of_nat (st_pc s))
        (if 0 <? st_gas_refund_counter s then Some (st_gas_refund_counter s) else None)
        (if unwrap_or_default (disable_stack opts) then None else Some (st_stack s))
        (if unwrap_or_default (disable_storage opts) then None
         else match st_state_diff s with Some _ => Some (written (st_contract s) (before ++ [s])) | None => None end).
Definition storage_written (opts : GethOptions) (l : list CallTraceStep) (storage : Storage) : Prop :=
  unwrap_or_default (disable_storage opts) = false -> forall c, default ∅ (storage !! c) = written c l.
Lemma log_of_shows opts before storage s op :
  st_op s = OpCode op -> storage_written opts before storage ->
  exists l storage', log_of opts storage s = Ret (l, storage') /\ log_shows opts before s op l /\ storage_written opts (before ++ [s]) storage'.
Proof.
  intros Hop Hst. unfold log_of, struct_log, log_shows, storage_written, Storage in *. rewrite Hop. cbn [instruction_display mbind exec_bind].
  destruct (unwrap_or_default (disable_storage opts)); cbn [negb].
  { eexists _, _. split; [done|]. split; [|done]. by destruct (unwrap_or_default (enable_memory opts)). }
  specialize (Hst eq_refl). change (match storage !! st_contract s with Some c => c | None => ∅ end) with (default ∅ (storage !! st_contract s)).
  rewrite Hst. destruct (st_state_diff s) as [[k v]|] eqn:Hd; eexists _, _; (split; [done|]).
  - split; [rewrite written_snoc, Hd, decide_True by done; by destruct (unwrap_or_default (enable_memory opts))|].
    intros _ c. rewrite written_snoc, Hd. destruct (decide (st_contract s = c)) as [->|Hne]; [by rewrite lookup_insert_eq|].
    by rewrite lookup_insert_ne.
  - split; [by destruct (unwrap_or_default (enable_memory opts))|].
    intros _ c. rewrite written_snoc, Hd. destruct (decide (st_contract s = c)) as [->|Hne]; [by rewrite lookup_insert_eq|].
    by rewrite lookup_insert_ne.
Qed.
Lemma geth_logs_shown opts l : forall before storage acc,
  Forall (fun s => exists op, st_op s = OpCode op) l -> storage_written opts before storage ->
  exists storage' logs, geth_logs opts l (storage, acc) = Ret (storage', acc ++ logs) /\ length logs = length l /\
    forall k s op, l !! k = Some s -> st_op s = OpCode op -> exists g, logs !! k = Some g /\ log_shows opts (before ++ take k l) s op g.
Proof.
  induction l as [|s l IH]; intros before storage acc Hl Hst; [exists storage, []; cbn; by rewrite app_nil_r|].
  apply Forall_cons in Hl as [[op Hop] Hl]. cbn [geth_logs fst snd].
  destruct (log_of_shows opts before storage s op Hop Hst) as (g & storage1 & -> & Hg & Hst1). cbn [mbind exec_bind].
  destruct (IH (before ++ [s]) storage1 (acc ++ [g]) Hl Hst1) as (storage' & logs & -> & Hlen & Hlogs).
  exists storage', (g :: logs). split_and!; [by rewrite <- app_assoc|cbn; by rewrite Hlen|]. intros [|k] s' op' Hk Hop'; cbn in Hk |- *.
  - injection Hk as <-. rewrite Hop in Hop'. injection Hop' as <-. exists g. split; [done|]. by rewrite app_nil_r.
  - destruct (Hlogs k s' op' Hk Hop') as (g' & ? & Hg'). exists g'. split; [done|]. rewrite <- app_assoc in Hg'. exact Hg'.
Qed.
Lemma flat_instrs : (forall f, observed true f -> Forall2 (fun i s => step_of i.1 i.2 = Some s) (instrs f) (flat f)) /\
  (forall b, Forall (fun i => observed_step i.1 i.2) (body_instrs b) -> Forall2 (fun i s => step_of i.1 i.2 = Some s) (body_instrs b) (body_flat b)).
Proof.
  apply Frame_Body_ind.
  - intros s b IH e Ho. apply IH. by apply Ho.
  - constructor.
  - intros b a r IH [Hob Hr]%Forall_cons. destruct (observed_shown b a Hob) as [d Hd]. cbn. unfold steps_of. rewrite Hd. constructor; [done|by apply IH].
  - intros b t dt a r IH [Hob Hr]%Forall_cons. destruct (observed_shown b a Hob) as [d Hd]. cbn. unfold steps_of. rewrite Hd. constructor; [done|by apply IH].
  - intros b f IHf a r IH [Hob [Hf Hr]%Forall_app]%Forall_cons. destruct (observed_shown b a Hob) as [d Hd]. cbn. unfold steps_of. rewrite Hd. constructor; [done|].
    apply Forall2_app; [apply IHf; by intros _|by apply IH].
Qed.


Lemma geth_steps_stuck opts descend bf af l acc :
  is_Some (step_of bf af) -> calls true bf af ->
  geth_steps opts descend [] (steps_of true bf af ++ l) 0 acc = Panic "index out of bounds".
Proof.
  intros [st Hst] Hc. unfold steps_of. rewrite Hst. change (option_list (Some st)) with [st]. cbn [app geth_steps].
  destruct (step_op_code _ _ _ Hst) as [op Hop]. pose proof (Hc _ Hst) as Hcall. rewrite Hop in Hcall.
  unfold log_of, struct_log. rewrite Hop. cbn [instruction_display mbind exec_bind].
  destruct (if negb _ then _ else _) as [sl sto]. cbn [mbind exec_bind]. by rewrite Hcall.
Qed.
(** A call instruction that fails before it enters a frame makes the trace
    panic. *)
Theorem failed_call_breaks_geth_trace f gas opts s b e bf af :
  f = Fr s (Quiet bf af b) e -> readable true f -> calls true bf af -> body_children 1 b = [] ->
  exists t, run_frame 0 f (mkTracer true arena_default [] []) = Ret t /\
    geth_trace (traces t) gas opts = Panic "index out of bounds".
Proof.
  intros -> Hr Hc Hch. eexists. split; [by apply run_frame_layout|]. cbn [traces]. destruct Hr as [Hs _]. destruct (Hs eq_refl) as [st Hst].
  cbn [layout]. unfold geth_trace. cbn [length]. cbn [add_to_geth_trace frame_node nd_trace nd_children body_children body_steps].
  assert (tr_steps (closed e (set_steps (steps_of true bf af ++ body_steps true b) (opened 0 s))) = steps_of true bf af ++ body_steps true b) as -> by (by destruct e).
  rewrite Hch, geth_steps_stuck; [done|by eexists|done].
Qed.
End Runs.
