(* ===== verification/Debug.v ===== *)
(** * The debugger (evm/src/debug.rs, executor/inspector/debugger.rs)

    The arena of debug nodes, the inspector that fills it, and the flat list of
    steps that the debugger shows.  Leaving a call opens a further node for the
    caller, so that the nodes in the order of their creation are the execution;
    the theorem says that the flattened tree is just that. *)
From S2P Require Import Prelude Executor Trace.
Open Scope Z_scope.

Record DebugStep := mkDebugStep {
  ds_stack : list Z; ds_memory : list byte; ds_instruction : Instruction; ds_push_bytes : option (list byte);
  ds_pc : nat; ds_total_gas_used : Z }.
Definition OP_INVALID : Z := 0xfe.
Definition step_default : DebugStep := mkDebugStep [] [] (OpCode OP_INVALID) None 0 0.

Record DebugNode := mkDebugNode {
  dn_parent : option nat; dn_children : list nat; dn_location : nat; dn_address : Address; dn_kind : CallKind;
  dn_depth : nat; dn_steps : list DebugStep }.
Definition debug_node (depth : nat) (address : Address) (kind : CallKind) : DebugNode :=
  mkDebugNode None [] 0 address kind depth [].
(** [DebugNode::new] *)
Definition debug_node_new (address : Address) (depth : nat) (steps : list DebugStep) : DebugNode :=
  mkDebugNode None [] 0 address KCall depth steps.
(** [DebugArena]: its vector of nodes *)
Abbreviation DebugArena := (list DebugNode) (only parsing).

(** A node as the next child of [entry]. *)
Definition attach (arena : DebugArena) (entry : nat) (e n : DebugNode) : nat * DebugArena :=
  let id := length arena in
  let n := mkDebugNode (Some entry) (dn_children n) (length (dn_children e)) (dn_address n) (dn_kind n) (dn_depth n) (dn_steps n) in
  let e := mkDebugNode (dn_parent e) (dn_children e ++ [id]) (dn_location e) (dn_address e) (dn_kind e) (dn_depth e) (dn_steps e) in
  (id, <[entry := e]> arena ++ [n]).

(** [recursively_push]: a child has a greater index than its parent.  [depth - 1]
    panics at depth 0. *)
Fixpoint recursively_push (fuel : nat) (arena : DebugArena) (entry : nat) (n : DebugNode) : exec (nat * DebugArena) :=
  match fuel with
  | O => Panic "fuel"
  | S fuel =>
      e ← index arena entry;
      match dn_depth n with
      | O => Panic "attempt to subtract with overflow"
      | S d =>
          if (dn_depth e =? d)%nat then Ret (attach arena entry e n)
          else
            c ← expect (last (dn_children e)) "Disconnected debug node";
            recursively_push fuel arena c n
      end
  end.
Definition push_node (arena : DebugArena) (n : DebugNode) : exec (nat * DebugArena) :=
  match arena with
  | [] => Ret (0%nat, [n])
  | root :: _ =>
      if (dn_depth n =? 0)%nat then Ret (attach arena 0 root n)
      else recursively_push (S (length arena)) arena 0 n
  end.

Definition DebugFlat : Type := Address * list DebugStep * CallKind.
Definition flat_node (n : DebugNode) : list DebugFlat :=
  match dn_steps n with [] => [] | steps => [(dn_address n, steps, dn_kind n)] end.
Fixpoint flatten_fuel (fuel : nat) (arena : DebugArena) (entry : nat) : exec (list DebugFlat) :=
  match fuel with
  | O => Panic "fuel"
  | S fuel =>
      n ← index arena entry;
      l ← foldM (fun acc c => l ← flatten_fuel fuel arena c; Ret (acc ++ l)) [] (dn_children n);
      Ret (flat_node n ++ l)
  end.
Definition flatten (arena : DebugArena) (entry : nat) : exec (list DebugFlat) := flatten_fuel (length arena) arena entry.

(** ** The inspector *)
Record Debugger := mkDebugger { dbg_arena : DebugArena; dbg_head : nat; dbg_context : Address }.
Definition debugger_new : Debugger := mkDebugger [] 0 0.
Definition enter (depth : nat) (address : Address) (kind : CallKind) (g : Debugger) : exec Debugger :=
  '(id, arena) ← push_node (dbg_arena g) (debug_node depth address kind);
  Ret (mkDebugger arena id address).
Definition exit (g : Debugger) : exec Debugger :=
  n ← index (dbg_arena g) (dbg_head g);
  match dn_parent n with
  | None => Ret g
  | Some parent =>
      p ← index (dbg_arena g) parent;
      '(id, arena) ← push_node (dbg_arena g) (debug_node (dn_depth p) (dn_address p) (dn_kind p));
      Ret (mkDebugger arena id (dn_address p))
  end.
Definition push_step (s : DebugStep) (g : Debugger) : exec Debugger :=
  n ← index (dbg_arena g) (dbg_head g);
  Ret (mkDebugger (<[dbg_head g := mkDebugNode (dn_parent n) (dn_children n) (dn_location n) (dn_address n) (dn_kind n) (dn_depth n)
                                     (dn_steps n ++ [s])]> (dbg_arena g)) (dbg_head g) (dbg_context g)).

Section Hooks.
Context `{!TraceLib}.

Definition OP_PUSH1 : Z := 0x60.
(** [OpInfo::is_push]: the opcodes [PUSH1] to [PUSH32] *)
Definition is_push (op : byte) : bool := (0x60 <=? op) && (op <=? 0x7f).
(** The slice panics past the end of the code. *)
Definition push_bytes (code : list byte) (pc : nat) (op : byte) : exec (option (list byte)) :=
  if is_push op then
    let n := Z.to_nat (op - OP_PUSH1 + 1) in
    if (pc + 1 + n <=? length code)%nat then Ret (Some (take n (drop (pc + 1) code)))
    else Panic "range end index out of range"
  else Ret None.
(** [step]; the gas limit is that of the interpreter. *)
Definition debug_step (b : Before) (gas_limit : Z) (g : Debugger) : exec Debugger :=
  op ← index (b_code b) (b_pc b);
  pushed ← push_bytes (b_code b) (b_pc b) op;
  let total := gas_used (u64_saturating_sub gas_limit (b_gas_remaining b)) (as_u64 (b_refunded b)) in
  push_step (mkDebugStep (b_stack b) (b_memory b) (OpCode op) pushed (b_pc b) total) g.
(** [call]; calls of the cheatcode address leave a step of their own. *)
Definition debug_call (cheatcode_address : Address) (depth : nat) (contract : Address) (i : CallInputs) (g : Debugger) : exec Debugger :=
  g ← enter depth (ci_code_address i) (kind_of_call (ci_scheme i)) g;
  if cheatcode_address =? contract then
    if (length (ci_input i) <? 4)%nat then Panic "range end index 4 out of range"
    else push_step (mkDebugStep [] [] (Cheatcode (take 4 (ci_input i))) None 0 0) g
  else Ret g.
Definition debug_call_end (g : Debugger) : exec Debugger := exit g.
(** [create]; [caller] is the loaded account's nonce, or the error of loading it,
    which reverts the creation. *)
Definition debug_create (depth : nat) (i : CreateInputs) (caller : result Z string) (g : Debugger) : exec (result Debugger string) :=
  match caller with
  | Err e => Ret (Err e)
  | Ok nonce => g ← enter depth (get_create_address i nonce) KCreate g; Ret (Ok g)
  end.
Definition debug_create_end (g : Debugger) : exec Debugger := exit g.
End Hooks.
