(* ===== verification/DebugProps.v ===== *)
(** * The debugger shows the execution in order (evm/src/debug.rs) *)
From S2P Require Import Prelude Executor Trace Debug.
Open Scope Z_scope.

(** ** The tree of an arena *)
Inductive tree := Nd (id : nat) (cs : list tree).
Definition root (t : tree) : nat := match t with Nd i _ => i end.
Fixpoint preorder (t : tree) : list nat := match t with Nd i cs => i :: concat (preorder <$> cs) end.
Section TreeInd.
Variable P : tree -> Prop.
Hypothesis on_node : forall i cs, Forall P cs -> P (Nd i cs).
Fixpoint tree_ind' (t : tree) : P t :=
  match t with
  | Nd i cs => on_node i cs ((fix go l : Forall P l := match l with [] => Forall_nil_2 _ | c :: l => Forall_cons_2 _ _ _ (tree_ind' c) (go l) end) cs)
  end.
End TreeInd.

(** The nodes of [A] under the root of [t] are linked as [t] is. *)
Inductive linked (A : DebugArena) : tree -> Prop :=
| linked_node i n cs : A !! i = Some n -> dn_children n = root <$> cs -> Forall (linked A) cs -> linked A (Nd i cs).
(** A new leaf [x] under a node of the way along the last children. *)
Inductive grow (x : nat) : nat -> tree -> tree -> Prop :=
| grow_here i cs : grow x i (Nd i cs) (Nd i (cs ++ [Nd x []]))
| grow_last p i cs c c' : grow x p c c' -> grow x p (Nd i (cs ++ [c])) (Nd i (cs ++ [c'])).

Lemma grow_preorder x p t t' : grow x p t t' -> preorder t' = preorder t ++ [x] /\ root t' = root t /\ p ∈ preorder t.
Proof.
  induction 1 as [i cs|p i cs c c' Hg (IH & Hr & Hp)].
  - cbn. rewrite fmap_app, concat_app. split_and!; [done..|by left].
  - cbn. rewrite !fmap_app, !concat_app. cbn. rewrite !app_nil_r, IH, app_assoc. split_and!; [done..|].
    right. apply elem_of_app. by right.
Qed.

Lemma in_subtree c cs k : c ∈ cs -> k ∈ preorder c -> k ∈ concat (preorder <$> cs).
Proof.
  intros Hc Hk. apply list_elem_of_In, in_concat. exists (preorder c).
  split; [|by apply list_elem_of_In]. apply list_elem_of_In, list_elem_of_fmap. eauto.
Qed.

(** Linking looks at the nodes of the tree only. *)
Lemma linked_ext A A' t :
  (forall i n, i ∈ preorder t -> A !! i = Some n -> exists n', A' !! i = Some n' /\ dn_children n' = dn_children n) ->
  linked A t -> linked A' t.
Proof.
  induction t as [i cs IH] using tree_ind'. intros Hext Hl. inversion_clear Hl as [? n ? Hi Hc Hcs].
  destruct (Hext i n) as (n' & Hn' & Hc'); [left|done|]. econstructor; [exact Hn'|congruence|].
  rewrite Forall_forall in IH, Hcs |- *. intros c Hin. apply IH; [done| |by apply Hcs].
  intros k m Hk. apply Hext. cbn. right. by eapply in_subtree.
Qed.

Section Attach.
Variables (A : DebugArena) (n : DebugNode).
Hypothesis no_children : dn_children n = [].

Lemma attach_other p e k m :
  (k < length A)%nat -> k <> p -> A !! k = Some m -> (attach A p e n).2 !! k = Some m.
Proof. intros Hlt Hne Hk. cbn. rewrite lookup_app_l, list_lookup_insert_ne by (rewrite ?length_insert; done). done. Qed.
Lemma attach_parent p e : A !! p = Some e -> exists e', (attach A p e n).2 !! p = Some e' /\ dn_children e' = dn_children e ++ [length A].
Proof.
  intros Hp. pose proof (lookup_lt_Some _ _ _ Hp). eexists. cbn.
  rewrite lookup_app_l, list_lookup_insert_eq by (rewrite ?length_insert; done). done.
Qed.
Lemma attach_new p e : exists n', (attach A p e n).2 !! length A = Some n' /\ dn_children n' = [].
Proof. eexists. cbn. rewrite lookup_app_r, length_insert, Nat.sub_diag by (rewrite length_insert; done). done. Qed.

(** Attaching a node to [p] grows the tree there. *)
Lemma attach_linked p e t t' :
  grow (length A) p t t' -> linked A t -> NoDup (preorder t) -> Forall (fun k => k < length A)%nat (preorder t) ->
  A !! p = Some e -> linked (attach A p e n).2 t'.
Proof.
  intros Hg. induction Hg as [i cs|p i cs c c' Hg IH]; intros Hl Hnd Hlt He; inversion_clear Hl as [? m ? Hi Hc Hcs].
  - assert (m = e) as -> by congruence. destruct (attach_parent i e He) as (e' & He' & Hc').
    econstructor; [exact He'|rewrite Hc', Hc, fmap_app; done|]. apply Forall_app_2.
    + cbn in Hnd. apply NoDup_cons in Hnd as [Hni _]. rewrite Forall_forall in Hcs |- *. intros c Hin.
      eapply linked_ext; [|by apply Hcs]. intros k m Hk Hm. exists m. split; [|done].
      apply attach_other; [by eapply lookup_lt_Some| |done]. intros ->. apply Hni. by eapply in_subtree.
    + destruct (attach_new i e) as (n' & Hn' & Hcn). constructor; [|constructor]. econstructor; [exact Hn'|by rewrite Hcn|constructor].
  - destruct (grow_preorder _ _ _ _ Hg) as (_ & Hroot & Hpc). cbn in Hnd, Hlt. rewrite fmap_app, concat_app in Hnd, Hlt. cbn in Hnd, Hlt.
    rewrite app_nil_r in Hnd, Hlt. apply NoDup_cons in Hnd as [Hni Hnd]. apply NoDup_app in Hnd as (_ & Hdisj & Hndc).
    apply Forall_cons in Hlt as [_ Hlt]. apply Forall_app in Hlt as [_ Hltc]. apply Forall_app in Hcs as [Hcs Hcc].
    apply Forall_cons in Hcc as [Hcc _].
    assert (i <> p) as Hip. { intros ->. apply Hni, elem_of_app. by right. }
    econstructor.
    + apply attach_other; [by eapply lookup_lt_Some|done|exact Hi].
    + rewrite Hc, !fmap_app. cbn. by rewrite Hroot.
    + apply Forall_app_2; [|constructor; [by apply IH|constructor]].
      rewrite Forall_forall in Hcs |- *. intros c0 Hin. eapply linked_ext; [|by apply Hcs].
      intros k m' Hk Hm. exists m'. split; [|done]. apply attach_other; [by eapply lookup_lt_Some| |done]. intros ->.
      apply (Hdisj p); [|done]. by eapply in_subtree.
Qed.

(** [recursively_push] attaches the node on the way along the last children. *)
Lemma recursively_push_grows fuel t id A' :
  linked A t -> recursively_push fuel A (root t) n = Ret (id, A') ->
  exists p e t', grow (length A) p t t' /\ A !! p = Some e /\ A' = (attach A p e n).2 /\ id = length A.
Proof.
  revert t. induction fuel as [|fuel IH]; intros t Hl; [done|]. destruct Hl as [i m cs Hi Hc Hcs]. cbn [recursively_push root].
  unfold index. rewrite Hi. cbn [mbind exec_bind expect]. destruct (dn_depth n) as [|d]; [done|].
  destruct (dn_depth m =? d)%nat.
  - intros [= <- <-]. eexists i, m, _. split; [apply grow_here|done].
  - destruct cs as [|c cs _] using rev_ind; [rewrite Hc; done|]. rewrite Hc, fmap_app. change (root <$> [c]) with [root c]. rewrite last_snoc. cbn [mbind exec_bind expect].
    apply Forall_app in Hcs as [_ Hcc]. apply Forall_cons in Hcc as [Hcc _].
    intros Hp. destruct (IH c Hcc Hp) as (p & e & c' & Hg & He & HA & Hid). eexists p, e, _. split; [by apply grow_last|done].
Qed.
End Attach.

(** ** Reachable arenas *)
(** The tree of an arena holds its nodes in the order of their creation. *)
Definition ordered (A : DebugArena) : Prop :=
  exists t, linked A t /\ root t = 0%nat /\ preorder t = seq 0 (length A).

Lemma attach_ordered A n p e t t' :
  dn_children n = [] -> linked A t -> root t = 0%nat -> preorder t = seq 0 (length A) ->
  grow (length A) p t t' -> A !! p = Some e -> ordered (attach A p e n).2.
Proof.
  intros Hn Hl Hr Hp Hg He. exists t'. destruct (grow_preorder _ _ _ _ Hg) as (Hpre & Hroot & _). split_and!.
  - eapply attach_linked; [done|exact Hg|exact Hl| | |exact He].
    + rewrite Hp. apply NoDup_seq.
    + rewrite Hp. apply Forall_forall. intros k Hk%elem_of_seq. lia.
  - congruence.
  - rewrite Hpre, Hp. cbn. rewrite length_app, length_insert. cbn. by rewrite Nat.add_1_r, seq_S.
Qed.
Lemma push_node_ordered A n id A' :
  dn_children n = [] -> A = [] \/ ordered A -> push_node A n = Ret (id, A') -> ordered A' /\ id = length A.
Proof.
  intros Hn [->|(t & Hl & Hr & Hp)] Hpush.
  { injection Hpush as <- <-. split; [|done]. exists (Nd 0 []). split_and!; [|done..]. by econstructor. }
  unfold push_node in Hpush. destruct A as [|r A0] eqn:HA.
  { inversion Hl as [? ? ? Hi]. done. }
  rewrite <- HA in *. destruct (dn_depth n =? 0)%nat.
  - injection Hpush as <- <-. split; [|done]. destruct t as [i cs]. cbn in Hr. subst i.
    eapply (attach_ordered A n 0 r (Nd 0 cs)); [done|exact Hl|done|done|apply grow_here|by rewrite HA].
  - rewrite <- Hr in Hpush. destruct (recursively_push_grows A n _ t id A' Hl Hpush) as (p & e & t' & Hg & He & -> & ->).
    split; [|done]. by eapply attach_ordered.
Qed.

(** ** Flattening *)
Definition nodes_of (A : DebugArena) (l : list nat) : list DebugFlat :=
  concat ((fun i => match A !! i with Some n => flat_node n | None => [] end) <$> l).
Lemma nodes_of_app A l1 l2 : nodes_of A (l1 ++ l2) = nodes_of A l1 ++ nodes_of A l2.
Proof. unfold nodes_of. by rewrite fmap_app, concat_app. Qed.

Fixpoint height (t : tree) : nat := match t with Nd _ cs => S (list_max (height <$> cs)) end.
Lemma height_le cs c : c ∈ cs -> (height c <= list_max (height <$> cs))%nat.
Proof.
  intros Hc. pose proof (proj1 (list_max_le (height <$> cs) _) (le_n _)) as Hm. rewrite Forall_forall in Hm.
  apply Hm, list_elem_of_fmap. eauto.
Qed.
Lemma height_size t : (height t <= length (preorder t))%nat.
Proof.
  induction t as [i cs IH] using tree_ind'. cbn. apply le_n_S, list_max_le, Forall_forall.
  intros h (c & -> & Hc)%list_elem_of_fmap. rewrite Forall_forall in IH. etrans; [by apply IH|].
  apply list_elem_of_split in Hc as (l1 & l2 & ->). rewrite fmap_app, concat_app, length_app. cbn. rewrite length_app. lia.
Qed.
Lemma flatten_linked A fuel t :
  linked A t -> (height t <= fuel)%nat -> flatten_fuel fuel A (root t) = Ret (nodes_of A (preorder t)).
Proof.
  revert t. induction fuel as [|fuel IH]; intros t Hl Hf; [destruct t; cbn in Hf; lia|].
  destruct Hl as [i n cs Hi Hc Hcs]. cbn [flatten_fuel root]. unfold index. rewrite Hi. cbn [mbind exec_bind expect]. rewrite Hc.
  assert (forall acc, foldM (fun acc c => l ← flatten_fuel fuel A c; Ret (acc ++ l)) acc (root <$> cs)
            = Ret (acc ++ nodes_of A (concat (preorder <$> cs)))) as Hfold.
  { cbn in Hf. assert (Forall (fun c => height c <= fuel)%nat cs) as Hh.
    { apply Forall_forall. intros c Hin%height_le. lia. }
    clear Hi Hc Hf. induction Hcs as [|c cs Hlc Hcs IHcs]; intros acc; [cbn; by rewrite app_nil_r|].
    apply Forall_cons in Hh as [Hh Hhs]. rewrite fmap_cons. cbn [foldM]. rewrite (IH c Hlc Hh). cbn [mbind exec_bind].
    rewrite (IHcs Hhs). f_equal. rewrite fmap_cons. cbn [concat]. by rewrite nodes_of_app, app_assoc. }
  rewrite Hfold. cbn [mbind exec_bind]. cbn [app preorder]. change (i :: concat (preorder <$> cs)) with ([i] ++ concat (preorder <$> cs)).
  rewrite nodes_of_app. unfold nodes_of at 2. cbn. rewrite Hi, app_nil_r. done.
Qed.
Lemma nodes_of_all A : nodes_of A (seq 0 (length A)) = concat (flat_node <$> A).
Proof.
  unfold nodes_of. f_equal. apply list_eq. intros k. rewrite !list_lookup_fmap.
  destruct (A !! k) as [n|] eqn:Hk.
  - rewrite lookup_seq_lt by (by eapply lookup_lt_Some). cbn. by rewrite Hk.
  - rewrite lookup_seq_ge by (by apply lookup_ge_None). done.
Qed.

(** ** The inspector *)
(** What an execution does to the debugger. *)
Inductive debug_op := DEnter (depth : nat) (address : Address) (kind : CallKind) | DStep (s : DebugStep) | DExit.
Definition apply_op (o : debug_op) : Debugger -> exec Debugger :=
  match o with DEnter d a k => enter d a k | DStep s => push_step s | DExit => exit end.
(** Steps are added to the newest node, which is the current one. *)
Definition debugger_ok (g : Debugger) : Prop :=
  g = debugger_new \/ ordered (dbg_arena g) /\ (dbg_head g < length (dbg_arena g))%nat /\
    (S (dbg_head g) = length (dbg_arena g)).
Lemma ordered_steps A k n n' :
  A !! k = Some n -> dn_children n' = dn_children n -> ordered A -> ordered (<[k := n']> A).
Proof.
  intros Hk Hc (t & Hl & Hr & Hp). exists t. rewrite length_insert. split_and!; [|done..].
  eapply linked_ext; [|exact Hl]. intros i m Hi Hm. destruct (decide (i = k)) as [->|Hne].
  - exists n'. rewrite list_lookup_insert_eq by (by eapply lookup_lt_Some). split; [done|]. congruence.
  - exists m. by rewrite list_lookup_insert_ne.
Qed.
Lemma push_node_length A n id A' : push_node A n = Ret (id, A') -> dn_children n = [] -> A = [] \/ ordered A -> length A' = S (length A).
Proof.
  intros Hp Hn HA. destruct (push_node_ordered A n id A' Hn HA Hp) as [_ ->].
  unfold push_node in Hp. destruct A as [|r A0] eqn:E; [by injection Hp as <-|]. rewrite <- E in *.
  destruct (dn_depth n =? 0)%nat.
  - injection Hp as <-. rewrite length_app, length_insert. cbn. lia.
  - destruct HA as [HA|(t & Hl & Hr & _)]; [congruence|]. rewrite <- Hr in Hp.
    destruct (recursively_push_grows A n _ t _ A' Hl Hp) as (p & e & t' & _ & _ & -> & _). cbn. rewrite length_app, length_insert. cbn. lia.
Qed.
Lemma apply_op_ok o g g' : debugger_ok g -> apply_op o g = Ret g' -> debugger_ok g'.
Proof.
  intros Hg.
  assert (dbg_arena g = [] \/ ordered (dbg_arena g)) as HA by (destruct Hg as [->|[? _]]; [by left|by right]).
  assert (forall n id A c, push_node (dbg_arena g) n = Ret (id, A) -> dn_children n = [] -> debugger_ok (mkDebugger A id c)) as Hpush.
  { intros n id A c Hp Hn. right. destruct (push_node_ordered _ _ _ _ Hn HA Hp) as [Ho ->].
    pose proof (push_node_length _ _ _ _ Hp Hn HA) as Hlen. cbn. split; [done|lia]. }
  destruct o as [d a k|s|]; cbn [apply_op].
  - unfold enter. destruct (push_node _ _) as [[id A]|] eqn:Hp; [|done]. intros [= <-]. by eapply Hpush.
  - unfold push_step, index. destruct (dbg_arena g !! dbg_head g) as [n|] eqn:Hn; [|done]. cbn [mbind exec_bind expect]. intros [= <-].
    destruct Hg as [->|(Ho & Hlt & Hh)]; [done|]. right. cbn. rewrite length_insert. split; [|done]. by eapply ordered_steps.
  - unfold exit, index. destruct (dbg_arena g !! dbg_head g) as [n|]; [|done]. cbn [mbind exec_bind expect].
    destruct (dn_parent n) as [p|]; [|by intros [= <-]]. destruct (dbg_arena g !! p) as [m|]; [|done]. cbn [mbind exec_bind expect].
    destruct (push_node _ _) as [[id A]|] eqn:Hp; [|done]. intros [= <-]. by eapply Hpush.
Qed.

(** C39: Whatever calls are entered and left and whatever is executed in between,
    the flattened tree of the debugger is its nodes in the order in which they were
    opened, those without steps left out, and steps are always added to the newest
    node: the debugger shows the execution in order. *)
Theorem debugger_in_order ops g :
  foldM (fun g o => apply_op o g) debugger_new ops = Ret g -> dbg_arena g <> [] ->
  flatten (dbg_arena g) 0 = Ret (concat (flat_node <$> dbg_arena g)) /\ S (dbg_head g) = length (dbg_arena g).
Proof.
  intros Hrun Hne.
  assert (debugger_ok g) as Hg.
  { assert (debugger_ok debugger_new) as H0 by (by left). revert Hrun H0. generalize debugger_new. induction ops as [|o ops IH]; intros g0.
    - by intros [= ->].
    - cbn [foldM]. destruct (apply_op o g0) as [g1|] eqn:Ho; [|done]. intros Hrun H0. apply (IH _ Hrun). by eapply apply_op_ok. }
  destruct Hg as [->|((t & Hl & Hr & Hp) & _ & Hh)]; [done|]. split; [|done].
  unfold flatten. rewrite <- Hr, (flatten_linked _ _ t Hl), Hp, nodes_of_all; [done|].
  pose proof (height_size t) as Hs. rewrite Hp, length_seq in Hs. done.
Qed.
