(* ===== verification/TraceSample.v ===== *)
(** * A traced execution

    The theorems on traces and on the debugger at a concrete execution: a call
    that emits a log, calls another contract which creates one, and ends. *)
From S2P Require Import Prelude Executor Trace TraceProps Debug DebugProps.
Open Scope Z_scope.

#[local] Instance sample_lib : TraceLib := {|
  return_ok r := match r with Continue | IStop | IReturn | ISelfDestruct => true | _ => false end;
  result_code r := match r with Continue => 0 | IStop => 1 | IReturn => 2 | ISelfDestruct => 3 | IRevert => 32 | CallTooDeep => 33 | OutOfFund => 34 | OutOfGas => 80 | _ => 81 end;
  result_name _ := "error"%string;
  london_enabled := true;
  get_contract_address a nonce := a + nonce;
  get_create2_address a salt _ := a + salt;
  Trace.hex_encode _ := "00"%string;
  opcode_as_str _ := None;
  hevm_function _ := None |}.

(** LOG0 at 0, CALL at 1, CREATE at 2, SSTORE at 3, PUSH1 0x55 at 4 *)
Definition code : list byte := [0xa0; 0xf1; 0xf0; 0x55; 0x60; 0x55].
Definition before (depth : Z) (pc : nat) (gas : Z) : Before := mkBefore depth pc code 7 [1; 2] [] gas 0.
Definition after (pc : nat) (gas : Z) : After :=
  mkAfter pc code [[StorageChange 7 5]] (fun _ _ => Some 9) gas Continue.
Definition ended : CallEnd := mkCallEnd IStop 100 10 [1; 2].
Definition inner : Frame :=
  Fr (StartCall (mkCallInputs SchemeCall 8 7 8 [1; 2; 3; 4] 0))
    (Enter (before 2 2 70)
       (Fr (StartCreate (mkCreateInputs 8 SchemeCreate 0 [0]) 3) Done (EndCreate (Some (11, [0xfe])) ended))
       (after 3 60) Done)
    (EndCall ended).
Definition sample : Frame :=
  Fr (StartCall (mkCallInputs SchemeCall 7 1 7 [9; 9; 9; 9] 5))
    (Emit (before 1 0 100) [42] [1] (after 1 90)
      (Enter (before 1 1 90) inner (after 2 50)
        (Quiet (before 1 3 50) (after 4 40) Done)))
    (EndCall ended).

Lemma sample_observed : observed true sample.
Proof.
  intros _. cbn. repeat apply Forall_cons_2; try apply Forall_nil_2; split; cbn; try (eexists; reflexivity); try lia.
  all: intros j address key [= <-] [= <- <-]; eexists; reflexivity.
Qed.
Example sample_order :
  (fun n => (nd_parent n, nd_children n, nd_ordering n)) <$> layout true None 0 0 sample =
    [(None, [1%nat], [OLog 0; OCall 0]); (Some 0%nat, [2%nat], [OCall 0]); (Some 1%nat, [], [])].
Proof. vm_compute. reflexivity. Qed.

Lemma parity_traces_exact_witness :
  exists t l, run_frame 0 sample (mkTracer false arena_default [] []) = Ret t /\ parity_traces (traces t) = Ret l /\
    pt_trace_address <$> l = [[]; [0%nat]; [0%nat; 0%nat]] /\
    pt_action <$> l = parity_action <$> traces t /\ pt_subtraces <$> l = (fun n => length (nd_children n)) <$> traces t.
Proof. apply (parity_traces_exact false sample). cbn. repeat split; intros; discriminate. Defined.

Lemma sample_calls : calls_entered sample.
Proof. cbn. repeat split; intros s Hs; vm_compute in Hs; injection Hs as <-; vm_compute; reflexivity. Qed.
Definition geth_options : GethOptions := mkGethOptions None None None.
Example sample_pcs : st_pc <$> flat sample = [0; 1; 2; 3]%nat.
Proof. vm_compute. reflexivity. Qed.

(** The byte before the program counter is not always the instruction that ran:
    a [PUSH1 0x55] is shown with the storage change of an earlier [SSTORE]. *)
Example push_shows_storage_change :
  exists s, step_of (before 1 4 40) (after 6 30) = Some s /\ st_op s = OpCode 0x60 /\ st_state_diff s = Some (5, 9).
Proof. eexists. vm_compute. done. Qed.

(** ** The debugger *)
Definition sample_ops : list debug_op :=
  [DEnter 0 7 KCall; DStep step_default; DEnter 1 8 KCall; DStep step_default; DEnter 2 11 KCreate; DStep step_default; DExit;
   DStep step_default; DExit; DExit].
Definition sample_debugger : Debugger :=
  match foldM (fun g o => apply_op o g) debugger_new sample_ops with Ret g => g | Panic _ => debugger_new end.
Lemma debugger_in_order_witness :
  flatten (dbg_arena sample_debugger) 0 = Ret (concat (flat_node <$> dbg_arena sample_debugger)) /\
  S (dbg_head sample_debugger) = length (dbg_arena sample_debugger).
Proof. apply (debugger_in_order sample_ops); [vm_compute; reflexivity|]. vm_compute. intros H. discriminate H. Defined.
Example sample_addresses : (fun n => dn_address n) <$> dbg_arena sample_debugger = [7; 8; 11; 8; 7; 7].
Proof. vm_compute. reflexivity. Qed.
