(* ===== verification/Coverage.v ===== *)
(** * Coverage (evm/src/coverage/mod.rs, coverage/anchors.rs,
    executor/inspector/coverage.rs, utils.rs)

    The counters of executed instructions and the inspector that raises them,
    the report with its items and their anchors, and the search for anchors in a
    source map.  A counter would have to see 2^64 instructions to overflow: they
    are integers here. *)
From stdpp Require Import pretty.
From S2P Require Import Prelude Executor Trace Debug.
Open Scope Z_scope.

(** ** Hit maps *)
Record HitMap := mkHitMap { hm_bytecode : list byte; hits : gmap nat Z }.
Definition hit_map_new (bytecode : list byte) : HitMap := mkHitMap bytecode ∅.
Definition hits_at (m : gmap nat Z) (pc : nat) : Z := default 0 (m !! pc).
Definition hit (pc : nat) (m : HitMap) : HitMap := mkHitMap (hm_bytecode m) (<[pc := hits_at (hits m) pc + 1]> (hits m)).

(** [HitMaps]: by the hash of the code *)
Abbreviation HitMaps := (gmap H256 HitMap) (only parsing).
(** The counters of the replaced map are added to those of the new one; the
    additions commute. *)
Definition add_extra (extra : gmap nat Z) (m : HitMap) : HitMap :=
  mkHitMap (hm_bytecode m) (map_fold (fun pc n h => <[pc := hits_at h pc + n]> h) (hits m) extra).
Definition merge_one (self : HitMaps) (code_hash : H256) (hit_map : HitMap) : HitMaps :=
  match self !! code_hash with
  | Some old => <[code_hash := add_extra (hits old) hit_map]> self
  | None => <[code_hash := hit_map]> self
  end.
(** The entries of a hash map, in its order *)
Definition entries {K V} `{HashIter K} (m : gmap K V) : list (K * V) :=
  omap (fun k => (k,.) <$> m !! k) (hash_iter (dom m)).
Definition merge `{!HashIter H256} (self other : HitMaps) : HitMaps :=
  fold_left (fun self '(code_hash, hit_map) => merge_one self code_hash hit_map) (entries other) self.

(** ** The inspector *)
Definition initialize_interp (hash : H256) (code : list byte) (maps : HitMaps) : HitMaps :=
  match maps !! hash with Some _ => maps | None => <[hash := hit_map_new code]> maps end.
Definition collector_step (hash : H256) (pc : nat) (maps : HitMaps) : HitMaps :=
  match maps !! hash with Some m => <[hash := hit pc m]> maps | None => maps end.

(** ** Reports *)
(** [semver::Version] by its text *)
Abbreviation Version := string (only parsing).
Record ContractId := mkContractId { cid_version : Version; cid_source_id : nat; cid_name : string }.
#[export] Instance ContractId_eq_dec : EqDecision ContractId.
Proof. solve_decision. Defined.
#[export] Program Instance ContractId_countable : Countable ContractId :=
  inj_countable (fun c => (cid_version c, cid_source_id c, cid_name c)) (fun '(v, s, n) => Some (mkContractId v s n)) _.
Next Obligation. by intros []. Qed.
Record ItemAnchor := mkAnchor { instruction : nat; item_id : nat }.
Inductive CoverageItemKind := Line | Statement | Branch (branch_id path_id : nat) | FunctionItem (name : string).
Record SourceLocation := mkLocation { loc_source_id : nat; loc_contract : string; loc_start : nat; loc_length : option nat; loc_line : nat }.
Record CoverageItem := mkItem { it_kind : CoverageItemKind; it_loc : SourceLocation; it_hits : Z }.
Record CoverageSummary := mkSummary {
  line_count : nat; line_hits : nat; statement_count : nat; statement_hits : nat;
  branch_count : nat; branch_hits : nat; function_count : nat; function_hits : nat }.
Definition summary_default : CoverageSummary := mkSummary 0 0 0 0 0 0 0 0.

Record CoverageReport := mkReport {
  source_paths : gmap (Version * nat) string;
  source_paths_to_ids : gmap (Version * string) nat;
  items : gmap Version (list CoverageItem);
  anchors : gmap ContractId (list ItemAnchor) }.
Definition report_default : CoverageReport := mkReport ∅ ∅ ∅ ∅.
Definition add_source (version : Version) (id : nat) (path : string) (r : CoverageReport) : CoverageReport :=
  mkReport (<[(version, id) := path]> (source_paths r)) (<[(version, path) := id]> (source_paths_to_ids r)) (items r) (anchors r).
Definition get_source_id (version : Version) (path : string) (r : CoverageReport) : option nat :=
  source_paths_to_ids r !! (version, path).
Definition add_items (version : Version) (l : list CoverageItem) (r : CoverageReport) : CoverageReport :=
  mkReport (source_paths r) (source_paths_to_ids r) (<[version := default [] (items r !! version) ++ l]> (items r)) (anchors r).
(** [HashMap::extend] replaces the anchors of a contract that is there already. *)
Definition add_anchors (a : gmap ContractId (list ItemAnchor)) (r : CoverageReport) : CoverageReport :=
  mkReport (source_paths r) (source_paths_to_ids r) (items r) (a ∪ anchors r).

Definition add_hits (n : Z) (i : CoverageItem) : CoverageItem := mkItem (it_kind i) (it_loc i) (it_hits i + n).
(** One anchor of a hit map. *)
Definition hit_anchor (version : Version) (m : HitMap) (its : gmap Version (list CoverageItem)) (a : ItemAnchor)
    : exec (gmap Version (list CoverageItem)) :=
  match hits m !! instruction a with
  | None => Ret its
  | Some n =>
      l ← expect (its !! version) "Anchor refers to non-existent coverage item";
      i ← expect (l !! item_id a) "Anchor refers to non-existent coverage item";
      Ret (<[version := <[item_id a := add_hits n i]> l]> its)
  end.
Definition add_hit_map (c : ContractId) (m : HitMap) (r : CoverageReport) : exec CoverageReport :=
  match anchors r !! c with
  | None => Ret r
  | Some l =>
      its ← foldM (hit_anchor (cid_version c) m) (items r) l;
      Ret (mkReport (source_paths r) (source_paths_to_ids r) its (anchors r))
  end.

(** ** Summaries *)
Definition add_summary (s o : CoverageSummary) : CoverageSummary :=
  mkSummary (line_count s + line_count o) (line_hits s + line_hits o) (statement_count s + statement_count o)
    (statement_hits s + statement_hits o) (branch_count s + branch_count o) (branch_hits s + branch_hits o)
    (function_count s + function_count o) (function_hits s + function_hits o).
Definition add_item (s : CoverageSummary) (i : CoverageItem) : CoverageSummary :=
  let h := if 0 <? it_hits i then 1%nat else 0%nat in
  match it_kind i with
  | Line => mkSummary (line_count s + 1) (line_hits s + h) (statement_count s) (statement_hits s) (branch_count s) (branch_hits s)
              (function_count s) (function_hits s)
  | Statement => mkSummary (line_count s) (line_hits s) (statement_count s + 1) (statement_hits s + h) (branch_count s) (branch_hits s)
              (function_count s) (function_hits s)
  | Branch _ _ => mkSummary (line_count s) (line_hits s) (statement_count s) (statement_hits s) (branch_count s + 1) (branch_hits s + h)
              (function_count s) (function_hits s)
  | FunctionItem _ => mkSummary (line_count s) (line_hits s) (statement_count s) (statement_hits s) (branch_count s) (branch_hits s)
              (function_count s + 1) (function_hits s + h)
  end.
(** The file of an item; [unknown] formats the name of a source that was not added. *)
Definition item_path (unknown : nat -> Version -> string) (r : CoverageReport) (v : Version) (i : CoverageItem) : string :=
  default (unknown (loc_source_id (it_loc i)) v) (source_paths r !! (v, loc_source_id (it_loc i))).

Definition summarize (s : gmap string CoverageSummary) '(p, i) : gmap string CoverageSummary :=
  <[p := add_item (default summary_default (s !! p)) i]> s.
Definition push_item (s : gmap string (list CoverageItem)) '(p, i) : gmap string (list CoverageItem) :=
  <[p := default [] (s !! p) ++ [i]]> s.

Section Summaries.
Context `{!HashIter string} (unknown : nat -> Version -> string) (r : CoverageReport).
(** The loops of both functions: the versions, in the order of the hash map, and
    the items of each. *)
Definition all_items : list (string * CoverageItem) :=
  '(v, l) ← entries (items r); (fun i => (item_path unknown r v i, i)) <$> l.
Definition summary_by_file : gmap string CoverageSummary :=
  fold_left summarize all_items ∅.
Definition items_by_source : gmap string (list CoverageItem) :=
  fold_left push_item all_items ∅.
End Summaries.

(** ** Known contracts (common/src/contracts.rs) *)
Record ArtifactId := mkArtifactId { art_name : string; art_source : string; art_version : Version }.
(** The number of different bytes in the common part *)
Fixpoint diff_chars (a b : list byte) : nat :=
  match a, b with
  | x :: a, y :: b => (if (x =? y)%Z then 0 else 1) + diff_chars a b
  | _, _ => 0
  end.
(** [diff_score(a, b) < 0.1]: the quotient of two lengths below 2^50 is rounded
    to the nearest double, which is less than 0.1 iff the quotient is. *)
Definition similar (a b : list byte) : bool :=
  let cutoff_len := Nat.min (length a) (length b) in
  if (cutoff_len =? 0)%nat then false else (10 * diff_chars a b <? cutoff_len)%nat.
(** The contracts in the order of the b-tree map *)
Abbreviation ContractsByArtifact := (list (ArtifactId * list byte)) (only parsing).
Definition find_by_code (known : ContractsByArtifact) (code : list byte) : option ArtifactId :=
  fst <$> List.find (fun k => similar (snd k) code) known.

(** ** Hit data of the tests (cli/src/cmd/forge/coverage.rs) *)
Definition contract_of (known : ContractsByArtifact) (r : CoverageReport) (code : list byte) : option ContractId :=
  a ← find_by_code known code;
  source_id ← get_source_id (art_version a) (art_source a) r;
  Some (mkContractId (art_version a) source_id (art_name a)).
Definition collect_one (known : ContractsByArtifact) (r : CoverageReport) (m : HitMap) : exec CoverageReport :=
  match contract_of known r (hm_bytecode m) with Some c => add_hit_map c m r | None => Ret r end.
(** [results]: the coverage of each test, in the order in which they finish *)
Definition collect `{!HashIter H256} (known : ContractsByArtifact) (r : CoverageReport) (results : list (option HitMaps)) : exec CoverageReport :=
  foldM (collect_one known) r (o ← results; match o with Some maps => snd <$> entries maps | None => [] end).

(** The coverage of a fuzz test: that of the cases that succeeded (evm/src/fuzz/mod.rs). *)
Definition fuzz_coverage `{!HashIter H256} (coverage call : option HitMaps) : exec (option HitMaps) :=
  match coverage with
  | Some prev => c ← expect call "called `Option::unwrap()` on a `None` value"; Ret (Some (merge prev c))
  | None => Ret call
  end.

(** ** Reporters (forge/src/coverage.rs) *)
(** The total of [SummaryReporter::report] *)
Definition total (summaries : gmap string CoverageSummary) : CoverageSummary :=
  fold_left add_summary (snd <$> map_to_list summaries) summary_default.
(** The lines that [LcovReporter] writes for an item and for a file *)
Definition lcov_item (i : CoverageItem) : list string :=
  let line := pretty (loc_line (it_loc i)) in
  let hits := pretty (it_hits i) in
  match it_kind i with
  | FunctionItem name =>
      let name := (loc_contract (it_loc i) +:+ "." +:+ name)%string in
      ["FN:" +:+ line +:+ "," +:+ name; "FNDA:" +:+ hits +:+ "," +:+ name]%string
  | Line => ["DA:" +:+ line +:+ "," +:+ hits]%string
  | Branch branch_id path_id =>
      ["BRDA:" +:+ line +:+ "," +:+ pretty branch_id +:+ "," +:+ pretty path_id +:+ "," +:+ (if (it_hits i =? 0)%Z then "-" else hits)]%string
  | Statement => []
  end.
Definition summary_of (l : list CoverageItem) : CoverageSummary := fold_left add_item l summary_default.
Definition lcov_totals (s : CoverageSummary) : list string :=
  ["FNF:" +:+ pretty (function_count s); "FNH:" +:+ pretty (function_hits s);
   "LF:" +:+ pretty (line_count s); "LH:" +:+ pretty (line_hits s);
   "BRF:" +:+ pretty (branch_count s); "BRH:" +:+ pretty (branch_hits s); "end_of_record"]%string.
Definition lcov_file (file : string) (l : list CoverageItem) : list string :=
  ["TN:"; "SF:" +:+ file]%string ++ (l ≫= lcov_item) ++ lcov_totals (summary_of l).
(** The files in the order of the b-tree map *)
Definition lcov (files : list (string * list CoverageItem)) : list string := '(f, l) ← files; lcov_file f l.

(** ** Program counters and instruction counters (utils.rs) *)
(** The bytes that an instruction pushes *)
Definition push_size (op : byte) : nat := if is_push op then Z.to_nat (op - OP_PUSH1 + 1) else 0.
(** The loop of both maps: [i] is the program counter, [c] the bytes pushed
    before it; every pass moves at least one byte on. *)
Fixpoint pc_ic_loop (fuel : nat) (code : list byte) (i c : nat) (m : gmap nat nat) : gmap nat nat :=
  match fuel with
  | O => m
  | S fuel =>
      match code !! i with
      | None => m
      | Some op => pc_ic_loop fuel code (i + push_size op + 1) (c + push_size op) (<[i := (i - c)%nat]> m)
      end
  end.
Definition build_pc_ic_map (code : list byte) : gmap nat nat := pc_ic_loop (length code) code 0 0 ∅.
Fixpoint ic_pc_loop (fuel : nat) (code : list byte) (i c : nat) (m : gmap nat nat) : gmap nat nat :=
  match fuel with
  | O => m
  | S fuel =>
      match code !! i with
      | None => m
      | Some op => ic_pc_loop fuel code (i + push_size op + 1) (c + push_size op) (<[(i - c)%nat := i]> m)
      end
  end.
Definition build_ic_pc_map (code : list byte) : gmap nat nat := ic_pc_loop (length code) code 0 0 ∅.

(** ** Anchors *)
(** [SourceElement] of a source map *)
Record SourceElement := mkElement { el_offset : nat; el_length : nat; el_index : option nat }.
Definition is_in_source_range (e : SourceElement) (l : SourceLocation) : bool :=
  let source_ids_match := match el_index e with Some a => (a =? loc_source_id l)%nat | None => false end in
  let is_within_start := (loc_start l <=? el_offset e)%nat in
  let start_of_ranges := Nat.max (loc_start l) (el_offset e) in
  let end_of_ranges := Nat.min (loc_start l + default 0%nat (loc_length l)) (el_offset e + el_length e) in
  source_ids_match && is_within_start && (start_of_ranges <=? end_of_ranges)%nat.

Fixpoint find_index {A} (f : A -> bool) (l : list A) : option nat :=
  match l with
  | [] => None
  | x :: l => if f x then Some 0%nat else S <$> find_index f l
  end.
Definition find_anchor_simple (source_map : list SourceElement) (ic_pc : gmap nat nat) (id : nat) (loc : SourceLocation)
    : result ItemAnchor string :=
  match find_index (fun e => is_in_source_range e loc) source_map with
  | None => Err "Could not find anchor: No matching instruction in range"%string
  | Some ic =>
      match ic_pc !! ic with
      | None => Err "We found an anchor, but we cant translate it to a program counter"%string
      | Some pc => Ok (mkAnchor pc id)
      end
  end.

Definition OP_JUMPI : Z := 0x57.
Definition be_nat (b : list byte) : nat := Z.to_nat (fold_left (fun a x => a * 256 + x) b 0).
(** The loop of [find_anchor_branch]; every pass moves at least one byte on. *)
Fixpoint branch_loop (fuel : nat) (code : list byte) (source_map : list SourceElement) (id : nat) (loc : SourceLocation)
    (pc c : nat) (anchors : option (ItemAnchor * ItemAnchor)) : exec (option (ItemAnchor * ItemAnchor)) :=
  match fuel with
  | O => Ret anchors
  | S fuel =>
      match code !! pc with
      | None => Ret anchors
      | Some op =>
          if is_push op then
            match source_map !! (pc - c)%nat with
            | None => Ret anchors
            | Some element =>
                let size := push_size op in
                let pc := (pc + size)%nat in
                let c := (c + size)%nat in
                if is_in_source_range element loc then
                  next ← index code (pc + 1)%nat;
                  if next =? OP_JUMPI then
                    if (8 <? size)%nat then
                      Panic "We found the anchor for the branch, but it refers to a program counter bigger than 64 bits."
                    else
                      let push_bytes := take size (drop (pc - size + 1) code) in
                      branch_loop fuel code source_map id loc (pc + 1) c (Some (mkAnchor (pc + 2) id, mkAnchor (be_nat push_bytes) id))
                  else branch_loop fuel code source_map id loc (pc + 1) c anchors
                else branch_loop fuel code source_map id loc (pc + 1) c anchors
            end
          else branch_loop fuel code source_map id loc (pc + 1) c anchors
      end
  end.
Definition find_anchor_branch (code : list byte) (source_map : list SourceElement) (id : nat) (loc : SourceLocation)
    : exec (result (ItemAnchor * ItemAnchor) string) :=
  a ← branch_loop (length code) code source_map id loc 0 0 None;
  Ret (match a with Some a => Ok a | None => Err "Could not detect branches in source"%string end).

Definition find_anchor (code : list byte) (source_map : list SourceElement) (ic_pc : gmap nat nat) (its : list CoverageItem) (id : nat)
    : exec (option ItemAnchor) :=
  match its !! id with
  | None => Ret None
  | Some item =>
      match it_kind item with
      | Branch _ path_id =>
          r ← find_anchor_branch code source_map id (it_loc item);
          match r with
          | Ok (a, b) =>
              match path_id with
              | O => Ret (Some a)
              | S O => Ret (Some b)
              | _ => Panic "Too many paths for branch"
              end
          | Err _ => Ret None
          end
      | _ => Ret (match find_anchor_simple source_map ic_pc id (it_loc item) with Ok a => Some a | Err _ => None end)
      end
  end.
Fixpoint find_anchors (code : list byte) (source_map : list SourceElement) (ic_pc : gmap nat nat) (ids : list nat) (its : list CoverageItem)
    : exec (list ItemAnchor) :=
  match ids with
  | [] => Ret []
  | id :: ids =>
      a ← find_anchor code source_map ic_pc its id;
      l ← find_anchors code source_map ic_pc ids its;
      Ret (match a with Some a => a :: l | None => l end)
  end.
