(* ===== verification/CoverageProps.v ===== *)
(** * Coverage counts executions (evm/src/coverage, inspector/coverage.rs)

    A test is a sequence of interpreter starts and steps.  The hits that the
    report shows for an item are the executed instructions at its anchors, over
    all tests; merging hit maps adds the counters; the summaries and the LCOV
    report agree; the maps between program and instruction counters are the
    positions of the instructions; anchors are instructions of the source range. *)
From S2P Require Import Prelude Executor Trace Debug Coverage.
Open Scope Z_scope.

(** ** Sums *)
Definition sumZ {A} (f : A -> Z) (l : list A) : Z := foldr (fun x s => f x + s) 0 l.
Lemma sumZ_app {A} (f : A -> Z) l1 l2 : sumZ f (l1 ++ l2) = sumZ f l1 + sumZ f l2.
Proof. induction l1 as [|x l1 IH]; simpl; [lia|]. rewrite IH. lia. Qed.
#[export] Instance sumZ_perm {A} (f : A -> Z) : Proper ((≡ₚ) ==> (=)) (sumZ f).
Proof. induction 1; simpl; lia. Qed.
Lemma sumZ_ext {A} (f g : A -> Z) l : (forall x, x ∈ l -> f x = g x) -> sumZ f l = sumZ g l.
Proof.
  induction l as [|x l IH]; simpl; intros H; [done|]. rewrite (H x), IH; [done|set_solver|set_solver].
Qed.
Lemma sumZ_add {A} (f g : A -> Z) l : sumZ (fun x => f x + g x) l = sumZ f l + sumZ g l.
Proof. induction l as [|x l IH]; simpl; [done|]. rewrite IH. lia. Qed.
Lemma sumZ_bind {A B} (f : B -> Z) (g : A -> list B) l : sumZ f (l ≫= g) = sumZ (fun x => sumZ f (g x)) l.
Proof. induction l as [|x l IH]; [done|]. rewrite bind_cons, sumZ_app, IH. done. Qed.
Lemma sumZ_fmap {A B} (f : B -> Z) (g : A -> B) l : sumZ f (g <$> l) = sumZ (fun x => f (g x)) l.
Proof. induction l as [|x l IH]; [done|]. rewrite fmap_cons. simpl. by rewrite IH. Qed.
(** A function changed at one element of a list without duplicates *)
Lemma sumZ_update {A} (f g : A -> Z) l h :
  NoDup l -> h ∈ l -> (forall x, x <> h -> f x = g x) -> sumZ g l = sumZ f l + (g h - f h).
Proof.
  intros Hnd Hin Hfg. apply list_elem_of_split in Hin as (l1 & l2 & ->).
  rewrite NoDup_app, NoDup_cons in Hnd. destruct Hnd as (_ & Hd & Hh & _).
  rewrite !sumZ_app; simpl.
  rewrite (sumZ_ext f g l1), (sumZ_ext f g l2); [lia| |]; intros x Hx; apply Hfg; set_solver.
Qed.

(** ** Entries of a hash map *)
Section Entries.
Context {V : Type} `{HashIter K}.
Lemma sumZ_entries (f : K * V -> Z) (m : gmap K V) :
  sumZ f (entries m) = sumZ (fun k => match m !! k with Some v => f (k, v) | None => 0 end) (hash_iter (dom m)).
Proof.
  unfold entries. induction (hash_iter (dom m)) as [|k l IH]; csimpl; [done|].
  destruct (m !! k); csimpl; by rewrite IH.
Qed.
Lemma sumZ_entries_new (f : K * V -> Z) (m : gmap K V) k v :
  m !! k = None -> sumZ f (entries (<[k := v]> m)) = f (k, v) + sumZ f (entries m).
Proof.
  intros Hk. rewrite !sumZ_entries. rewrite !hash_iter_perm, dom_insert_L, elements_union_singleton by by apply not_elem_of_dom.
  simpl. rewrite lookup_insert_eq. f_equal. apply sumZ_ext. intros x Hx%elem_of_elements%elem_of_dom.
  rewrite lookup_insert_ne; [done|]. intros ->. destruct Hx. congruence.
Qed.
Lemma sumZ_entries_update (f : K * V -> Z) (m : gmap K V) k v v' :
  m !! k = Some v -> sumZ f (entries (<[k := v']> m)) = sumZ f (entries m) + (f (k, v') - f (k, v)).
Proof.
  intros Hk. rewrite !sumZ_entries, dom_insert_lookup_L by done.
  rewrite (sumZ_update (fun x => match m !! x with Some v => f (x, v) | None => 0 end) _ _ k).
  - rewrite lookup_insert_eq, Hk. done.
  - apply NoDup_hash_iter.
  - apply elem_of_hash_iter, elem_of_dom. eauto.
  - intros x Hx. by rewrite lookup_insert_ne.
Qed.
Lemma sumZ_entries_empty (f : K * V -> Z) : sumZ f (entries ∅) = 0.
Proof. rewrite sumZ_entries, hash_iter_perm, dom_empty_L, elements_empty. done. Qed.
Lemma elem_of_entries (m : gmap K V) k v : (k, v) ∈ entries m <-> m !! k = Some v.
Proof.
  unfold entries. rewrite list_elem_of_omap. setoid_rewrite elem_of_hash_iter. setoid_rewrite elem_of_dom.
  split.
  - intros (x & _ & Hx). destruct (m !! x) eqn:?; naive_solver.
  - intros Hk. exists k. rewrite Hk. eauto.
Qed.
Lemma NoDup_entries (m : gmap K V) : NoDup (entries m).*1.
Proof.
  unfold entries. assert (forall l, (forall x, x ∈ l -> is_Some (m !! x)) ->
    (omap (fun k => (k,.) <$> m !! k) l).*1 = l) as Hl.
  - intros l. induction l as [|x l IH]; csimpl; intros Hs; [done|].
    destruct (Hs x ltac:(set_solver)) as [v Hv]. rewrite Hv. csimpl. f_equal. apply IH. set_solver.
  - rewrite Hl; [apply NoDup_hash_iter|]. intros x Hx%elem_of_hash_iter. by apply elem_of_dom.
Qed.
End Entries.
Lemma sumZ_entries_at {V} `{HashIter K} (g : V -> Z) (m : gmap K V) k :
  sumZ (fun e => if decide (fst e = k) then g (snd e) else 0) (entries m) = match m !! k with Some v => g v | None => 0 end.
Proof.
  rewrite sumZ_entries; simpl. destruct (m !! k) as [v|] eqn:Hk.
  - rewrite (sumZ_update (fun _ => 0) _ _ k).
    + rewrite Hk, decide_True by done.
      assert (forall l : list K, sumZ (fun _ => 0) l = 0) as -> by (induction l; simpl; lia). lia.
    + apply NoDup_hash_iter.
    + apply elem_of_hash_iter, elem_of_dom. eauto.
    + intros x Hx. destruct (m !! x); [|done]. by rewrite decide_False.
  - rewrite (sumZ_ext _ (fun _ => 0)); [induction (hash_iter (dom m)); simpl; lia|].
    intros x _. destruct (m !! x) eqn:Hx; [|done]. rewrite decide_False; [done|congruence].
Qed.

(** ** Hit maps *)
Definition count (maps : HitMaps) (hash : H256) (pc : nat) : Z :=
  match maps !! hash with Some m => hits_at (hits m) pc | None => 0 end.

Lemma hits_at_insert m pc n pc' : hits_at (<[pc := n]> m) pc' = if decide (pc = pc') then n else hits_at m pc'.
Proof. unfold hits_at. case_decide as Hd; [subst; by rewrite lookup_insert_eq|by rewrite lookup_insert_ne]. Qed.

Lemma add_extra_at extra m pc : hits_at (hits (add_extra extra m)) pc = hits_at extra pc + hits_at (hits m) pc.
Proof.
  unfold add_extra; simpl.
  apply (map_fold_weak_ind (fun r e => hits_at r pc = hits_at e pc + hits_at (hits m) pc)).
  - unfold hits_at at 2. by rewrite lookup_empty.
  - intros i n e r Hi IH. rewrite !hits_at_insert. case_decide as Hd; [subst i|done].
    rewrite IH. unfold hits_at at 1. rewrite Hi. simpl. lia.
Qed.

Section Merging.
Context `{!HashIter H256}.
Lemma merge_one_count self k m hash pc :
  count (merge_one self k m) hash pc = count self hash pc + if decide (k = hash) then hits_at (hits m) pc else 0.
Proof.
  unfold merge_one, count. destruct (self !! k) as [old|] eqn:Hk; (case_decide as Hd; [subst k|]).
  - rewrite lookup_insert_eq, Hk, add_extra_at. done.
  - rewrite lookup_insert_ne by done. lia.
  - rewrite lookup_insert_eq, Hk. lia.
  - rewrite lookup_insert_ne by done. lia.
Qed.

(** Merging the coverage of two runs adds the counters of every
    instruction of every code, whatever the order in which the hash map yields
    its entries. *)
Theorem merge_adds_counts self other hash pc :
  count (merge self other) hash pc = count self hash pc + count other hash pc.
Proof.
  unfold merge. unfold count at 3. rewrite <- (sumZ_entries_at (fun m => hits_at (hits m) pc)).
  revert self. induction (entries other) as [|[k m] l IH]; intros self; simpl; [lia|].
  rewrite IH, merge_one_count. lia.
Qed.
End Merging.

(** ** Executions *)
Inductive Event := EInit (hash : H256) (code : list byte) | EStep (hash : H256) (pc : nat).
Definition event (maps : HitMaps) (e : Event) : HitMaps :=
  match e with EInit h code => initialize_interp h code maps | EStep h pc => collector_step h pc maps end.
Definition run_test (maps : HitMaps) (es : list Event) : HitMaps := fold_left event es maps.
Lemma run_test_cons maps e es : run_test maps (e :: es) = run_test (event maps e) es.
Proof. done. Qed.
(** An interpreter is started on the code of a hash before it steps through it. *)
Fixpoint executes (code_of : H256 -> list byte) (started : gset H256) (es : list Event) : bool :=
  match es with
  | [] => true
  | EInit h code :: es => bool_decide (code = code_of h) && executes code_of ({[h]} ∪ started) es
  | EStep h _ :: es => bool_decide (h ∈ started) && executes code_of started es
  end.

Section Weights.
Context `{!HashIter H256} (code_of : H256 -> list byte).
(** A weight of hit maps that grows with every hit *)
Context (w : HitMap -> Z) (f : list byte -> nat -> Z).
Context (w_new : forall code, w (hit_map_new code) = 0).
Context (w_hit : forall pc m, w (hit pc m) = w m + f (hm_bytecode m) pc).

Definition event_weight (e : Event) : Z := match e with EInit _ _ => 0 | EStep h pc => f (code_of h) pc end.
Definition coded (maps : HitMaps) : Prop := map_Forall (fun h m => hm_bytecode m = code_of h) maps.

Lemma run_test_weight es maps :
  coded maps -> executes code_of (dom maps) es = true ->
  sumZ (fun e => w (snd e)) (entries (run_test maps es)) = sumZ (fun e => w (snd e)) (entries maps) + sumZ event_weight es.
Proof.
  revert maps. induction es as [|[h code|h pc] es IH]; intros maps Hc He; [simpl; lia| |];
    apply andb_prop in He as [Hh He]; apply bool_decide_eq_true in Hh; rewrite run_test_cons; simpl.
  - unfold initialize_interp. destruct (maps !! h) as [m|] eqn:Hm.
    + rewrite IH; [lia|done|]. rewrite subseteq_union_1_L in He; [done|].
      apply singleton_subseteq_l, elem_of_dom. eauto.
    + rewrite IH, sumZ_entries_new; [simpl; rewrite w_new; lia|done| |by rewrite dom_insert_L].
      apply map_Forall_insert_2; [by subst|done].
  - apply elem_of_dom in Hh as [m Hm]. unfold collector_step. rewrite Hm.
    rewrite IH, (sumZ_entries_update _ _ _ m); [simpl; rewrite w_hit, (Hc _ _ Hm); lia|done| |by rewrite dom_insert_lookup_L].
    apply map_Forall_insert_2; [exact (Hc _ _ Hm)|done].
Qed.
End Weights.

(** ** Items *)
Definition item_at (its : gmap Version (list CoverageItem)) (v : Version) (i : nat) : option CoverageItem := its !! v ≫= (.!! i).
Definition anchors_ok (r : CoverageReport) : Prop :=
  forall c l a, anchors r !! c = Some l -> a ∈ l -> is_Some (item_at (items r) (cid_version c) (item_id a)).

Lemma add_hits_0 (o : option CoverageItem) : add_hits 0 <$> o = o.
Proof. destruct o as [[]|]; unfold add_hits; simpl; [|done]. by rewrite Z.add_0_r. Qed.
Lemma add_hits_add n k (o : option CoverageItem) : add_hits k <$> (add_hits n <$> o) = add_hits (n + k) <$> o.
Proof. destruct o as [[]|]; unfold add_hits; simpl; [|done]. by rewrite Z.add_assoc. Qed.

(** The hits that an anchor of contract [c] gives to an item *)
Definition anchor_hits (v : Version) (m : HitMap) (v' : Version) (i : nat) (a : ItemAnchor) : Z :=
  if decide (v = v' /\ item_id a = i) then hits_at (hits m) (instruction a) else 0.

Lemma hit_anchor_hits v m its a :
  is_Some (item_at its v (item_id a)) ->
  exists its', hit_anchor v m its a = Ret its' /\
    forall v' i, item_at its' v' i = add_hits (anchor_hits v m v' i a) <$> item_at its v' i.
Proof.
  intros [it Hit]. unfold hit_anchor, anchor_hits, hits_at. destruct (hits m !! instruction a) as [n|] eqn:Hn; simpl.
  - unfold item_at in Hit. destruct (its !! v) as [l|] eqn:Hl; simpl in Hit; [|done]. simpl. rewrite Hit. simpl.
    eexists; split; [done|]. intros v' i. unfold item_at. case_decide as Hd.
    + destruct Hd as [<- <-]. rewrite lookup_insert_eq, Hl. simpl.
      rewrite list_lookup_insert_eq, Hit by by eapply lookup_lt_Some. done.
    + rewrite add_hits_0. destruct (decide (v = v')) as [<-|Hv]; [|by rewrite lookup_insert_ne].
      rewrite lookup_insert_eq, Hl. simpl. rewrite list_lookup_insert_ne; naive_solver.
  - exists its. split; [done|]. intros v' i. case_decide; by rewrite add_hits_0.
Qed.

Lemma hit_anchors_hits v m l its :
  (forall a, a ∈ l -> is_Some (item_at its v (item_id a))) ->
  exists its', foldM (hit_anchor v m) its l = Ret its' /\
    forall v' i, item_at its' v' i = add_hits (sumZ (anchor_hits v m v' i) l) <$> item_at its v' i.
Proof.
  revert its. induction l as [|a l IH]; intros its Hl; simpl.
  - exists its. split; [done|]. intros. by rewrite add_hits_0.
  - destruct (hit_anchor_hits v m its a) as (its1 & -> & H1); [apply Hl; set_solver|]. simpl.
    destruct (IH its1) as (its2 & -> & H2).
    { intros b Hb. rewrite H1, fmap_is_Some. apply Hl. set_solver. }
    exists its2. split; [done|]. intros v' i. by rewrite H2, H1, add_hits_add.
Qed.

(** *** Reports that differ in the hits only *)
Definition with_items (its : gmap Version (list CoverageItem)) (r : CoverageReport) : CoverageReport :=
  mkReport (source_paths r) (source_paths_to_ids r) its (anchors r).
Definition contract_hits (r : CoverageReport) (v : Version) (i : nat) (m : HitMap) (c : ContractId) : Z :=
  match anchors r !! c with Some l => sumZ (anchor_hits (cid_version c) m v i) l | None => 0 end.

Lemma add_hit_map_hits r c m :
  anchors_ok r ->
  exists its, add_hit_map c m r = Ret (with_items its r) /\
    forall v i, item_at its v i = add_hits (contract_hits r v i m c) <$> item_at (items r) v i.
Proof.
  intros Hr. unfold add_hit_map, contract_hits. destruct (anchors r !! c) as [l|] eqn:Hl.
  - destruct (hit_anchors_hits (cid_version c) m l (items r)) as (its & -> & H); [by intros a; apply (Hr c l)|].
    exists its. by split.
  - exists (items r). split; [by destruct r|]. intros. by rewrite add_hits_0.
Qed.

Section Collect.
Context `{!HashIter H256} (known : ContractsByArtifact).
Definition map_hits (r : CoverageReport) (v : Version) (i : nat) (m : HitMap) : Z :=
  match contract_of known r (hm_bytecode m) with Some c => contract_hits r v i m c | None => 0 end.

Lemma collect_hits l r :
  anchors_ok r ->
  exists its, foldM (collect_one known) r l = Ret (with_items its r) /\
    forall v i, item_at its v i = add_hits (sumZ (map_hits r v i) l) <$> item_at (items r) v i.
Proof.
  revert r. induction l as [|m l IH]; intros r Hr; simpl.
  - exists (items r). split; [by destruct r|]. intros. by rewrite add_hits_0.
  - assert (exists its, collect_one known r m = Ret (with_items its r) /\
      forall v i, item_at its v i = add_hits (map_hits r v i m) <$> item_at (items r) v i) as (its & -> & H1).
    { unfold collect_one, map_hits. destruct (contract_of known r (hm_bytecode m)) as [c|]; [by apply add_hit_map_hits|].
      exists (items r). split; [by destruct r|]. intros. by rewrite add_hits_0. }
    simpl. destruct (IH (with_items its r)) as (its2 & -> & H2).
    { intros c k a Hk Ha. simpl. rewrite H1, fmap_is_Some. by apply (Hr c k). }
    exists its2. split; [done|]. intros v i. rewrite H2. simpl. by rewrite H1, add_hits_add.
Qed.

(** The anchors of an item at an instruction of a code *)
Definition anchored (r : CoverageReport) (v : Version) (i : nat) (code : list byte) (pc : nat) : Z :=
  match contract_of known r code with
  | Some c =>
      sumZ (fun a => if decide (cid_version c = v /\ item_id a = i /\ instruction a = pc) then 1 else 0) (default [] (anchors r !! c))
  | None => 0
  end.

Lemma map_hits_new r v i code : map_hits r v i (hit_map_new code) = 0.
Proof.
  unfold map_hits, contract_hits; simpl. destruct (contract_of _ _ _) as [c|]; [|done].
  destruct (anchors r !! c) as [l|]; [|done]. induction l as [|a l IH]; simpl; [done|]. rewrite IH.
  unfold anchor_hits, hits_at. simpl. case_decide; by rewrite ?lookup_empty.
Qed.

Lemma map_hits_hit r v i pc m : map_hits r v i (hit pc m) = map_hits r v i m + anchored r v i (hm_bytecode m) pc.
Proof.
  unfold map_hits, contract_hits, anchored; simpl. destruct (contract_of _ _ _) as [c|]; [|done].
  destruct (anchors r !! c) as [l|]; simpl; [|done]. rewrite <- sumZ_add. apply sumZ_ext. intros a _.
  unfold anchor_hits; simpl. case_decide as H1; [|rewrite decide_False; naive_solver].
  rewrite hits_at_insert. repeat case_decide; naive_solver lia.
Qed.

(** The hits of an item in the executions of the tests *)
Definition executed (code_of : H256 -> list byte) (r : CoverageReport) (v : Version) (i : nat) (tests : list (list Event)) : Z :=
  sumZ (fun es => sumZ (event_weight code_of (anchored r v i)) es) tests.

(** C40: When the anchors of a report refer to its items, collecting the
    coverage of the tests does not panic, and it adds to the hits of an item the
    number of instructions executed at its anchors, over all tests, in the codes
    that are identified with the contract of the anchor.  Nothing else of the
    report changes. *)
Theorem executed_instructions_counted code_of r tests :
  anchors_ok r -> forallb (executes code_of ∅) tests = true ->
  exists its, collect known r ((fun es => Some (run_test ∅ es)) <$> tests) = Ret (with_items its r) /\
    forall v i, item_at its v i = add_hits (executed code_of r v i tests) <$> item_at (items r) v i.
Proof.
  intros Hr Ht. unfold collect. edestruct collect_hits as (its & -> & H); [done|].
  exists its. split; [done|]. intros v i. rewrite H. do 2 f_equal.
  rewrite sumZ_bind, sumZ_fmap. unfold executed. apply sumZ_ext. intros es Hes.
  assert (executes code_of ∅ es = true) as He.
  { rewrite forallb_forall in Ht. by apply Ht, list_elem_of_In. }
  rewrite sumZ_fmap, (run_test_weight code_of (map_hits r v i) (anchored r v i)).
  - by rewrite sumZ_entries_empty.
  - apply map_hits_new.
  - intros pc m. apply map_hits_hit.
  - apply map_Forall_empty.
  - by rewrite dom_empty_L.
Qed.
End Collect.

(** ** Summaries *)
Section Summed.
Context `{!HashIter string} (unknown : nat -> Version -> string) (r : CoverageReport).

Lemma summaries_agree l (s : gmap string CoverageSummary) (t : gmap string (list CoverageItem)) :
  (forall p, s !! p = summary_of <$> t !! p) ->
  forall p, fold_left summarize l s !! p =
       summary_of <$> fold_left push_item l t !! p.
Proof.
  revert s t. induction l as [|[q i] l IH]; intros s t Hst p; simpl; [apply Hst|].
  apply IH. intros p'. destruct (decide (q = p')) as [->|Hq].
  - rewrite !lookup_insert_eq. simpl. f_equal. unfold summary_of. rewrite fold_left_app. simpl. f_equal.
    rewrite Hst. by destruct (t !! p').
  - by rewrite !lookup_insert_ne.
Qed.

(** The summary of a file in the table is the summary that the LCOV
    report computes from the items of the file, for the same files. *)
Theorem summaries_of_items p : summary_by_file unknown r !! p = summary_of <$> items_by_source unknown r !! p.
Proof. apply summaries_agree. intros q. by rewrite !lookup_empty. Qed.
End Summed.

Definition kind_count (k : CoverageItemKind -> bool) (l : list CoverageItem) : nat := length (List.filter (fun i => k (it_kind i)) l).
Definition kind_hits (k : CoverageItemKind -> bool) (l : list CoverageItem) : nat :=
  length (List.filter (fun i => k (it_kind i) && (0 <? it_hits i)) l).
Definition is_line (k : CoverageItemKind) : bool := match k with Line => true | _ => false end.
Definition is_statement (k : CoverageItemKind) : bool := match k with Statement => true | _ => false end.
Definition is_branch (k : CoverageItemKind) : bool := match k with Branch _ _ => true | _ => false end.
Definition is_function (k : CoverageItemKind) : bool := match k with FunctionItem _ => true | _ => false end.
Definition counted (l : list CoverageItem) : CoverageSummary :=
  mkSummary (kind_count is_line l) (kind_hits is_line l) (kind_count is_statement l) (kind_hits is_statement l)
    (kind_count is_branch l) (kind_hits is_branch l) (kind_count is_function l) (kind_hits is_function l).

Lemma fold_add_item l s : fold_left add_item l s = add_summary s (counted l).
Proof.
  revert s. induction l as [|i l IH]; intros s; simpl.
  - destruct s. unfold add_summary, counted, kind_count, kind_hits. simpl. f_equal; lia.
  - rewrite IH. destruct s. unfold add_summary, counted, kind_count, kind_hits, add_item. simpl.
    destruct (it_kind i); simpl; (destruct (0 <? it_hits i) eqn:Hi); simpl; f_equal; lia.
Qed.

(** A summary counts the items of each kind and those among them with a
    hit. *)
Theorem summary_counts l : summary_of l = counted l.
Proof. unfold summary_of. rewrite fold_add_item. done. Qed.

(** ** Program counters and instruction counters *)
(** The program counters of the instructions of a code; [skip] bytes of the next
    ones are pushed. *)
Fixpoint positions (skip i : nat) (code : list byte) : list nat :=
  match code with
  | [] => []
  | op :: code => match skip with S k => positions k (S i) code | O => i :: positions (push_size op) (S i) code end
  end.
Definition instructions (code : list byte) : list nat := positions 0 0 code.

Lemma positions_skip code skip i : positions skip i code = positions 0 (i + skip) (drop skip code).
Proof.
  revert skip i. induction code as [|op code IH]; intros [|k] i; simpl; try done.
  - by rewrite Nat.add_0_r.
  - rewrite IH. f_equal. lia.
Qed.
Lemma positions_step code i op :
  code !! i = Some op ->
  positions 0 i (drop i code) = i :: positions 0 (i + push_size op + 1) (drop (i + push_size op + 1) code).
Proof.
  intros Hi. rewrite (drop_S code op i Hi). simpl. rewrite positions_skip, drop_drop. do 2 f_equal; [lia|f_equal; lia].
Qed.
Lemma positions_end code i : code !! i = None -> positions 0 i (drop i code) = [].
Proof. intros Hi. rewrite drop_ge; [done|]. by apply lookup_ge_None. Qed.
Lemma positions_ge code skip i n pc : positions skip i code !! n = Some pc -> (i + skip <= pc)%nat.
Proof.
  revert skip i n. induction code as [|op code IH]; intros [|k] i n; simpl; try done.
  - destruct n as [|n]; simpl; [naive_solver lia|]. intros H%IH. lia.
  - intros H%IH. lia.
Qed.

Lemma ic_pc_loop_positions fuel code i c m n :
  (length code - i <= fuel)%nat -> (c <= i)%nat ->
  ic_pc_loop fuel code i c m !! n =
    if (n <? i - c)%nat then m !! n
    else match positions 0 i (drop i code) !! (n - (i - c))%nat with Some pc => Some pc | None => m !! n end.
Proof.
  revert i c m. induction fuel as [|fuel IH]; intros i c m Hf Hc; simpl.
  - rewrite drop_ge by lia. simpl. by destruct (n <? i - c)%nat.
  - destruct (code !! i) as [op|] eqn:Hi.
    + pose proof (lookup_lt_Some _ _ _ Hi). rewrite IH, (positions_step _ _ _ Hi) by lia.
      replace (i + push_size op + 1 - (c + push_size op))%nat with (S (i - c))%nat by lia.
      destruct (Nat.ltb_spec n (i - c)) as [Hn|Hn].
      * rewrite (proj2 (Nat.ltb_lt n (S (i - c)))) by lia. rewrite lookup_insert_ne; [done|lia].
      * destruct (decide (n = i - c)%nat) as [->|Hne].
        -- rewrite (proj2 (Nat.ltb_lt _ (S (i - c)))), Nat.sub_diag by lia. simpl. by rewrite lookup_insert_eq.
        -- rewrite (proj2 (Nat.ltb_ge n (S (i - c)))) by lia.
           replace (n - (i - c))%nat with (S (n - S (i - c))) by lia. simpl. rewrite lookup_insert_ne; [done|lia].
    + rewrite positions_end by done. simpl. by destruct (n <? i - c)%nat.
Qed.
Lemma ic_pc_map_positions code ic : build_ic_pc_map code !! ic = instructions code !! ic.
Proof.
  unfold build_ic_pc_map. rewrite ic_pc_loop_positions by lia. simpl. rewrite Nat.sub_0_r, drop_0, lookup_empty.
  unfold instructions. by destruct (positions 0 0 code !! ic).
Qed.

Lemma pc_ic_loop_below fuel code i c m pc : (pc < i)%nat -> pc_ic_loop fuel code i c m !! pc = m !! pc.
Proof.
  revert i c m. induction fuel as [|fuel IH]; intros i c m Hp; simpl; [done|].
  destruct (code !! i); [|done]. rewrite IH, lookup_insert_ne by lia. done.
Qed.
Lemma pc_ic_loop_positions fuel code i c m pc n :
  (length code - i <= fuel)%nat -> (c <= i)%nat -> (i <= pc)%nat -> m !! pc = None ->
  pc_ic_loop fuel code i c m !! pc = Some n <->
    ((i - c <= n)%nat /\ positions 0 i (drop i code) !! (n - (i - c))%nat = Some pc).
Proof.
  revert i c m. induction fuel as [|fuel IH]; intros i c m Hf Hc Hp Hm; simpl.
  - rewrite drop_ge, Hm by lia. simpl. naive_solver.
  - destruct (code !! i) as [op|] eqn:Hi; [|rewrite positions_end, Hm by done; simpl; naive_solver].
    pose proof (lookup_lt_Some _ _ _ Hi). rewrite (positions_step _ _ _ Hi).
    set (i' := (i + push_size op + 1)%nat). destruct (decide (pc < i')%nat) as [Hlt|Hge].
    + rewrite pc_ic_loop_below by done. destruct (decide (pc = i)) as [->|Hne].
      * rewrite lookup_insert_eq. split; [intros [= <-]; rewrite Nat.sub_diag; naive_solver lia|].
        intros [Hn Hl]. destruct (n - (i - c))%nat eqn:Hk; [f_equal; lia|]. simpl in Hl. apply positions_ge in Hl. lia.
      * rewrite lookup_insert_ne, Hm by lia. split; [done|]. intros [Hn Hl].
        destruct (n - (i - c))%nat eqn:Hk; simpl in Hl; [naive_solver|]. apply positions_ge in Hl. lia.
    + rewrite IH by (subst i'; try rewrite lookup_insert_ne; lia || done).
      replace (i' - (c + push_size op))%nat with (S (i - c))%nat by lia.
      split; intros [Hn Hl]; (destruct (n - (i - c))%nat as [|k] eqn:Hk; simpl in Hl; [try lia|]).
      * split; [lia|]. simpl. by replace k with (n - S (i - c))%nat by lia.
      * simplify_eq. lia.
      * split; [lia|]. by replace (n - S (i - c))%nat with k by lia.
Qed.

(** The two maps are the positions of the instructions: an instruction
    counter maps to the program counter of that instruction of the code, and the
    other map is the inverse. *)
Theorem counter_maps_inverse code pc ic :
  build_ic_pc_map code !! ic = instructions code !! ic /\
  (build_pc_ic_map code !! pc = Some ic <-> build_ic_pc_map code !! ic = Some pc).
Proof.
  split; [apply ic_pc_map_positions|]. rewrite ic_pc_map_positions. unfold build_pc_ic_map.
  rewrite pc_ic_loop_positions by (try apply lookup_empty; lia). rewrite drop_0. simpl. rewrite Nat.sub_0_r.
  unfold instructions. split; [by intros [_ ?]|split; [lia|done]].
Qed.

(** ** Anchors *)
Lemma find_index_Some {A} (f : A -> bool) l n :
  find_index f l = Some n <-> (exists x, l !! n = Some x /\ f x = true) /\ (forall k x, (k < n)%nat -> l !! k = Some x -> f x = false).
Proof.
  revert n. induction l as [|x l IH]; intros n; simpl.
  - split; [done|]. intros [(y & Hy & _) _]. done.
  - destruct (f x) eqn:Hx.
    + split.
      * intros [= <-]. split; [by exists x|]. intros; lia.
      * intros [_ Hn]. destruct n as [|n]; [done|]. specialize (Hn 0%nat x ltac:(lia) eq_refl). congruence.
    + rewrite fmap_Some. split.
      * intros (k & [Hk1 Hk2]%IH & ->). split; [done|]. intros [|j] y Hj Hy; simpl in Hy; [injection Hy as <-; done|].
        apply (Hk2 j y); [lia|done].
      * intros [(y & Hy & Hfy) Hn]. destruct n as [|n]; simpl in Hy; [injection Hy as ->; congruence|].
        exists n. split; [|done]. apply IH. split; [by exists y|]. intros j z Hj Hz. apply (Hn (S j) z); [lia|done].
Qed.

(** The first instruction of a source range *)
Definition first_in_range (source_map : list SourceElement) (loc : SourceLocation) (ic : nat) : Prop :=
  (exists e, source_map !! ic = Some e /\ is_in_source_range e loc = true) /\
  (forall k e, (k < ic)%nat -> source_map !! k = Some e -> is_in_source_range e loc = false).

(** A line, statement or function is anchored at an instruction iff this
    is the first instruction of the code whose source element is in its range. *)
Theorem simple_anchor_first code source_map id loc a :
  find_anchor_simple source_map (build_ic_pc_map code) id loc = Ok a <->
  item_id a = id /\ exists ic, first_in_range source_map loc ic /\ instructions code !! ic = Some (instruction a).
Proof.
  unfold find_anchor_simple. destruct (find_index _ source_map) as [ic|] eqn:Hf.
  - rewrite ic_pc_map_positions. pose proof (proj1 (find_index_Some _ _ _) Hf) as Hr. split.
    + destruct (instructions code !! ic) as [pc|] eqn:Hpc; [|done]. intros [= <-]. split; [done|]. by exists ic.
    + intros [Hid (ic' & Hr'%find_index_Some & Hpc)]. rewrite Hr' in Hf. simplify_eq. rewrite Hpc. by destruct a.
  - split; [done|]. intros [_ (ic' & Hr'%find_index_Some & _)]. congruence.
Qed.

(** A push of the range followed by a conditional jump, with the anchors of its
    two paths *)
Definition branch_at (code : list byte) (source_map : list SourceElement) (id : nat) (loc : SourceLocation) (ic : nat)
    (ab : ItemAnchor * ItemAnchor) : Prop :=
  exists pc op e, instructions code !! ic = Some pc /\ code !! pc = Some op /\ is_push op = true /\
    source_map !! ic = Some e /\ is_in_source_range e loc = true /\
    code !! (pc + push_size op + 1)%nat = Some OP_JUMPI /\
    ab = (mkAnchor (pc + push_size op + 2) id, mkAnchor (be_nat (take (push_size op) (drop (pc + 1) code))) id).
Definition last_branch code source_map id loc ic ab : Prop :=
  branch_at code source_map id loc ic ab /\ forall ic' ab', branch_at code source_map id loc ic' ab' -> (ic' <= ic)%nat.

Section Branches.
Context (code : list byte) (source_map : list SourceElement) (id : nat) (loc : SourceLocation).

(** At instruction [ic], whose program counter is [pc] *)
Definition at_instruction (pc ic : nat) : Prop :=
  exists pre, instructions code = pre ++ positions 0 pc (drop pc code) /\ length pre = ic.
Lemma at_instruction_next pc ic op :
  at_instruction pc ic -> code !! pc = Some op ->
  instructions code !! ic = Some pc /\ at_instruction (pc + push_size op + 1) (S ic).
Proof.
  intros (pre & Hpre & <-) Hpc. rewrite (positions_step _ _ _ Hpc) in Hpre. split.
  - by rewrite Hpre, list_lookup_middle.
  - exists (pre ++ [pc]). rewrite <- app_assoc. split; [done|]. rewrite length_app. simpl. lia.
Qed.
Lemma branch_at_end pc ic ic' ab :
  at_instruction pc ic -> code !! pc = None -> branch_at code source_map id loc ic' ab -> (ic' < ic)%nat.
Proof.
  intros (pre & Hpre & <-) Hpc (? & ? & ? & Hi & _). rewrite positions_end, app_nil_r in Hpre by done.
  rewrite Hpre in Hi. by eapply lookup_lt_Some.
Qed.
Lemma branch_at_source_end ic ic' ab :
  source_map !! ic = None -> branch_at code source_map id loc ic' ab -> (ic' < ic)%nat.
Proof.
  intros Hic%lookup_ge_None (? & ? & ? & _ & _ & _ & Hs & _). apply lookup_lt_Some in Hs. lia.
Qed.

Definition branch_result (anchors r : option (ItemAnchor * ItemAnchor)) (ic : nat) : Prop :=
  (r = anchors /\ forall ic' ab', branch_at code source_map id loc ic' ab' -> (ic' < ic)%nat) \/
  exists ic ab, r = Some ab /\ last_branch code source_map id loc ic ab.
Lemma branch_result_skip anchors r ic :
  (forall ab, ~ branch_at code source_map id loc ic ab) -> branch_result anchors r (S ic) -> branch_result anchors r ic.
Proof.
  intros Hno [[-> Hl]|Hr]; [left|by right]. split; [done|]. intros ic' ab' H. pose proof (Hl _ _ H).
  destruct (decide (ic' = ic)) as [->|]; [by destruct (Hno ab')|lia].
Qed.
Lemma branch_result_found anchors ab r ic :
  branch_at code source_map id loc ic ab -> branch_result (Some ab) r (S ic) -> branch_result anchors r ic.
Proof.
  intros Hb [[-> Hl]|Hr]; [|by right]. right. exists ic, ab. split; [done|]. split; [done|]. intros ic' ab' H%Hl. lia.
Qed.

Lemma branch_loop_last fuel pc c anchors r :
  (length code - pc <= fuel)%nat -> (c <= pc)%nat -> at_instruction pc (pc - c) ->
  branch_loop fuel code source_map id loc pc c anchors = Ret r -> branch_result anchors r (pc - c).
Proof.
  revert pc c anchors. induction fuel as [|fuel IH]; intros pc c anchors Hf Hc Hat; simpl.
  - intros [= <-]. left. split; [done|]. intros ic' ab'. apply (branch_at_end pc); [done|]. apply lookup_ge_None. lia.
  - destruct (code !! pc) as [op|] eqn:Hpc; [|intros [= <-]; left; split; [done|]; intros ic' ab'; by apply (branch_at_end pc)].
    pose proof (lookup_lt_Some _ _ _ Hpc). destruct (at_instruction_next _ _ _ Hat Hpc) as [Hic Hnext].
    assert (forall c', (c' = c + push_size op)%nat -> forall a, branch_loop fuel code source_map id loc (pc + push_size op + 1) c' a = Ret r ->
      branch_result a r (S (pc - c))) as Hrec.
    { intros c' -> a Ha. replace (S (pc - c)) with (pc + push_size op + 1 - (c + push_size op))%nat by lia.
      apply IH; [lia|lia| |done]. by replace (pc + push_size op + 1 - (c + push_size op))%nat with (S (pc - c)) by lia. }
    destruct (is_push op) eqn:Hop.
    + destruct (source_map !! (pc - c)%nat) as [e|] eqn:He;
        [|intros [= <-]; left; split; [done|]; intros ic' ab'; by apply branch_at_source_end].
      destruct (is_in_source_range e loc) eqn:Hr.
      * destruct (code !! (pc + push_size op + 1)%nat) as [next|] eqn:Hn; unfold index; rewrite Hn; simpl; [|done].
        destruct (Z.eqb_spec next OP_JUMPI) as [->|Hne].
        -- destruct (8 <? push_size op)%nat; [done|]. intros Hres%Hrec; [|done].
           eapply branch_result_found; [|exact Hres]. exists pc, op, e. repeat split; try done.
           by replace (pc + push_size op - push_size op + 1)%nat with (pc + 1)%nat by lia.
        -- intros Hres%Hrec; [|done]. apply branch_result_skip; [|done]. intros ab (? & ? & ? & ? & ? & ? & ? & ? & ? & _). simplify_eq; congruence.
      * intros Hres%Hrec; [|done]. apply branch_result_skip; [|done]. intros ab (? & ? & ? & ? & ? & ? & ? & ? & _). simplify_eq; congruence.
    + intros Hres. apply branch_result_skip; [intros ab (? & ? & ? & ? & ? & ? & _); simplify_eq; congruence|].
      assert (push_size op = 0%nat) as H0 by (unfold push_size; by rewrite Hop).
      apply (Hrec c); [lia|]. by rewrite H0, Nat.add_0_r.
Qed.

(** Every push of the range is followed by an instruction, and by a conditional
    jump only if it pushes at most 64 bits. *)
Definition pushes_complete : Prop :=
  forall ic pc op e, instructions code !! ic = Some pc -> code !! pc = Some op -> is_push op = true ->
    source_map !! ic = Some e -> is_in_source_range e loc = true ->
    exists next, code !! (pc + push_size op + 1)%nat = Some next /\ (next = OP_JUMPI -> (push_size op <= 8)%nat).
Lemma branch_loop_returns fuel pc c anchors :
  pushes_complete -> (c <= pc)%nat -> at_instruction pc (pc - c) ->
  exists r, branch_loop fuel code source_map id loc pc c anchors = Ret r.
Proof.
  intros Hok. revert pc c anchors. induction fuel as [|fuel IH]; intros pc c anchors Hc Hat; simpl; [by eexists|].
  destruct (code !! pc) as [op|] eqn:Hpc; [|by eexists].
  destruct (at_instruction_next _ _ _ Hat Hpc) as [Hic Hnext].
  assert (forall a, exists r, branch_loop fuel code source_map id loc (pc + push_size op + 1) (c + push_size op) a = Ret r) as Hrec.
  { intros a. apply IH; [lia|]. by replace (pc + push_size op + 1 - (c + push_size op))%nat with (S (pc - c)) by lia. }
  destruct (is_push op) eqn:Hop.
  - destruct (source_map !! (pc - c)%nat) as [e|] eqn:He; [|by eexists].
    destruct (is_in_source_range e loc) eqn:Hr; [|done].
    destruct (Hok _ _ _ _ Hic Hpc Hop He Hr) as (next & Hn & H8). unfold index. rewrite Hn. simpl.
    destruct (Z.eqb_spec next OP_JUMPI) as [->|]; [|done]. specialize (H8 eq_refl).
    destruct (Nat.ltb_spec 8 (push_size op)); [lia|done].
  - assert (push_size op = 0%nat) as H0 by (unfold push_size; by rewrite Hop).
    rewrite H0, !Nat.add_0_r in Hrec. apply Hrec.
Qed.

(** When the pushes of the range are complete, the search for the anchors
    of a branch returns, with those of the last push of the source range that is
    followed by a conditional jump: the instruction after the jump and the
    destination that is pushed; it fails iff there is no such push. *)
Theorem branch_anchor_last :
  pushes_complete ->
  exists res, find_anchor_branch code source_map id loc = Ret res /\
  match res with
  | Ok ab => exists ic, last_branch code source_map id loc ic ab
  | Err _ => forall ic ab, ~ branch_at code source_map id loc ic ab
  end.
Proof.
  intros Hok. assert (at_instruction 0 (0 - 0)) as H0 by (exists []; by rewrite drop_0).
  unfold find_anchor_branch.
  destruct (branch_loop_returns (length code) 0 0 None Hok ltac:(lia) H0) as [r Hr]. rewrite Hr. simpl.
  eexists; split; [done|]. apply branch_loop_last in Hr; [|lia|lia|done].
  destruct Hr as [[-> Hl]|(ic & ab & -> & Hl)]; [|by exists ic].
  intros ic ab H%Hl. simpl in H. lia.
Qed.
End Branches.

(** The search reads past the end of a code whose last instruction is a push of
    the range: it panics. *)
Example truncated_push_panics :
  find_anchor_branch [0x60; 0x01] [mkElement 0 10 (Some 0%nat)] 0 (mkLocation 0 "C" 0 (Some 10%nat) 1) = Panic "index out of bounds".
Proof. reflexivity. Qed.

(** ** Samples *)
(** if (x) { ... }: PUSH1 6; JUMPI; STOP; STOP; STOP; JUMPDEST; STOP *)
Definition sample_code : list byte := [0x60; 6; 0x57; 0x00; 0x00; 0x00; 0x5b; 0x00].
Definition sample_loc : SourceLocation := mkLocation 0 "C" 4 (Some 10%nat) 1.
Definition sample_source_map : list SourceElement :=
  [mkElement 4 10 (Some 0%nat); mkElement 4 10 (Some 0%nat); mkElement 6 2 (Some 0%nat); mkElement 6 2 (Some 0%nat)].
Definition sample_contract : ContractId := mkContractId "0.8.19" 0 "C".
Definition sample_items : list CoverageItem :=
  [mkItem Statement sample_loc 0; mkItem (Branch 0 0) sample_loc 0; mkItem (Branch 0 1) sample_loc 0].
Definition sample_anchors : list ItemAnchor := [mkAnchor 0 0; mkAnchor 3 1; mkAnchor 6 2].
Definition sample_report : CoverageReport :=
  add_anchors {[sample_contract := sample_anchors]} (add_items "0.8.19" sample_items (add_source "0.8.19" 0 "C.sol" report_default)).
Definition sample_known : list (ArtifactId * list byte) := [(mkArtifactId "C" "C.sol" "0.8.19", sample_code)].
Definition sample_test : list Event := [EInit 1 sample_code; EStep 1 0; EStep 1 2; EStep 1 6; EStep 1 7].

Example sample_anchors_found :
  find_anchors sample_code sample_source_map (build_ic_pc_map sample_code) [0; 1; 2]%nat sample_items = Ret sample_anchors.
Proof. vm_compute. reflexivity. Qed.

Lemma sample_anchors_ok : anchors_ok sample_report.
Proof.
  intros c l a Hl Ha. unfold sample_report in Hl. simpl in Hl. rewrite map_union_empty in Hl.
  apply lookup_singleton_Some in Hl as [<- <-].
  repeat (apply elem_of_cons in Ha as [-> | Ha]; [vm_compute; by eexists|]). by apply elem_of_nil in Ha.
Qed.

(** Two runs of the test hit the statement and the second path twice, the first
    path never. *)
Lemma executed_instructions_counted_witness :
  exists its, collect sample_known sample_report ((fun es => Some (run_test ∅ es)) <$> [sample_test; sample_test])
      = Ret (with_items its sample_report) /\
    it_hits <$> item_at its "0.8.19" 0 = Some 2 /\ it_hits <$> item_at its "0.8.19" 1 = Some 0 /\
    it_hits <$> item_at its "0.8.19" 2 = Some 2.
Proof.
  destruct (executed_instructions_counted sample_known (fun _ => sample_code) sample_report [sample_test; sample_test])
    as (its & Hc & Hi); [apply sample_anchors_ok|vm_compute; reflexivity|].
  exists its. split; [exact Hc|]. rewrite !Hi. vm_compute. auto.
Defined.

Lemma branch_anchor_last_witness :
  exists res, find_anchor_branch sample_code sample_source_map 1 sample_loc = Ret res /\
    match res with Ok ab => exists ic, last_branch sample_code sample_source_map 1 sample_loc ic ab | Err _ => False end.
Proof.
  destruct (branch_anchor_last sample_code sample_source_map 1 sample_loc) as (res & Hres & Hl).
  - intros ic pc op e Hic Hop Hp _ _.
    replace (instructions sample_code) with [0; 2; 3; 4; 5; 6; 7]%nat in Hic by reflexivity.
    do 7 (destruct ic as [|ic];
      [injection Hic as <-; vm_compute in Hop; injection Hop as <-;
       first [discriminate Hp|exists 0x57; split; [reflexivity|intros _; vm_compute; lia]]|]).
    discriminate Hic.
  - exists res. split; [exact Hres|]. vm_compute in Hres. injection Hres as <-. exact Hl.
Defined.
