(* ===== verification/TestExecutor.v ===== *)
(** * The executor of tests (evm/src/executor/mod.rs, builder.rs)

    [Executor] runs calls of a test on its backend, commits them or not, and
    decides whether a call to a test contract succeeded.  revm, its database and
    the inspectors are an interface: what an inspected call returns.

    The flag of a failure in a reverted snapshot is an [Arc<AtomicBool>] of the
    backend, which its clones share: it is not part of an executor here but a cell
    that is passed beside it.  [clone_empty] has a flag of its own. *)
From S2P Require Import Prelude Transaction Hardfork Block Db Validator Executor MultiFork ForkBackend Trace Debug Coverage.
Open Scope Z_scope.

(** ** Data *)
(** The types of the parts that are only passed on, the library functions, and
    the backend. *)
Class TestEvm := {
  TBackend : Type;
  StateChangeset : Type;
  Cheats : Type;
  BroadcastableTransactions : Type;
  Breakpoints : Type;
  Wallet : Type;
  TFuzzer : Type;
  Chisel : Type;
  TAbi : Type;
  no_breakpoints : Breakpoints;
  (** the state of the cheatcodes *)
  broadcastable : Cheats -> option BroadcastableTransactions;
  clear_broadcastable : Cheats -> Cheats;
  breakpoints_of : Cheats -> Breakpoints;
  (** the backend *)
  tb_basic : TBackend -> Address -> result (option AccountInfo.t) string;
  tb_insert_account_info : Address -> AccountInfo.t -> TBackend -> TBackend;
  tb_commit : StateChangeset -> TBackend -> TBackend;
  tb_clone_empty : TBackend -> TBackend;
  tb_add_persistent : Address -> TBackend -> TBackend;
  tb_set_test_contract : Address -> TBackend -> TBackend;
  tb_set_caller : Address -> TBackend -> TBackend;
  (** ABI coding and the text of a revert *)
  return_ok : InstructionResult -> bool;
  decode_revert : list byte -> option TAbi -> InstructionResult -> result string string;
  show_status : InstructionResult -> string;
  raw_code : list byte -> Bytecode;
  code_is_empty : Bytecode -> bool }.

Section TestExecutor.
Context `{!TestEvm}.

Record InspectorStackConfig := mkInspectorConfig {
  cf_cheatcodes : option Cheats; cf_block : BlockEnv.t; cf_gas_price : Z; cf_tracing : bool; cf_debugger : bool;
  cf_fuzzer : option TFuzzer; cf_coverage : bool; cf_trace_printer : bool; cf_chisel_state : option nat }.
Record InspectorData := mkInspectorData {
  id_logs : list Log; id_labels : gmap Address string; id_traces : option CallTraceArena; id_debug : option (list DebugNode);
  id_coverage : option (gmap H256 HitMap); id_gas : option Z; id_cheatcodes : option Cheats; id_script_wallets : list Wallet;
  id_chisel_state : option Chisel }.
(** What an inspected call leaves: the backend (a clone of it for a call that is
    only read), the environment, the result with the refund of a success, the
    changed state, the inspectors, and whether the flag of snapshots was set. *)
Record Inspected := mkInspected {
  in_backend : TBackend; in_env : Env; in_result : ExecutionResult; in_refunded : Z; in_changes : StateChangeset; in_data : InspectorData;
  in_snapshot_failure : bool }.

Record ExecutionErr := mkExecutionErr {
  ee_reverted : bool; ee_reason : string; ee_gas_used : Z; ee_gas_refunded : Z; ee_stipend : Z; ee_logs : list Log;
  ee_traces : option CallTraceArena; ee_debug : option (list DebugNode); ee_labels : gmap Address string;
  ee_transactions : option BroadcastableTransactions; ee_state_changeset : option StateChangeset; ee_script_wallets : list Wallet }.
Inductive EvmError := Execution (e : ExecutionErr) | AbiError (e : string) | SkipError | EyreError (e : string).
Record DeployResult := mkDeployResult {
  dr_address : Address; dr_gas_used : Z; dr_gas_refunded : Z; dr_logs : list Log; dr_traces : option CallTraceArena;
  dr_debug : option (list DebugNode); dr_env : Env }.
Record CallResult (D : Type) := mkCallResult {
  cr_skipped : bool; cr_reverted : bool; cr_result : D; cr_gas_used : Z; cr_gas_refunded : Z; cr_stipend : Z; cr_logs : list Log;
  cr_labels : gmap Address string; cr_traces : option CallTraceArena; cr_coverage : option (gmap H256 HitMap);
  cr_debug : option (list DebugNode); cr_transactions : option BroadcastableTransactions; cr_state_changeset : option StateChangeset;
  cr_script_wallets : list Wallet; cr_env : Env; cr_breakpoints : Breakpoints }.
Record RawCallResult := mkRawResult {
  rr_exit_reason : InstructionResult; rr_reverted : bool; rr_result : list byte; rr_gas_used : Z; rr_gas_refunded : Z; rr_stipend : Z;
  rr_logs : list Log; rr_labels : gmap Address string; rr_traces : option CallTraceArena; rr_coverage : option (gmap H256 HitMap);
  rr_debug : option (list DebugNode); rr_transactions : option BroadcastableTransactions; rr_state_changeset : option StateChangeset;
  rr_script_wallets : list Wallet; rr_env : Env; rr_cheatcodes : option Cheats; rr_out : option Output; rr_chisel_state : option Chisel }.

(** A function of a contract: its name, whether it has arguments, its signature;
    its calls and the decoding of what they return are ABI coding. *)
Record TestFunction := mkTestFunction { tf_name : string; tf_has_inputs : bool; tf_signature : string }.
Class TestAbi := {
  inspect_ref : TBackend -> Env -> InspectorStackConfig -> result Inspected string;
  encode_call : TestFunction -> result (list byte) string;
  decode_unit : TestFunction -> list byte -> result unit string;
  decode_bool : TestFunction -> list byte -> result bool string }.
Context `{!TestAbi}.

Record Executor := mkTestExecutor { ex_backend : TBackend; ex_env : Env; ex_config : InspectorStackConfig; ex_gas_limit : Z }.
Definition executor_new (backend : TBackend) (env : Env) (config : InspectorStackConfig) (gas_limit : Z) : Executor :=
  mkTestExecutor
    (tb_insert_account_info CHEATCODE_ADDRESS
       (AccountInfo.mk (AccountInfo.balance default_account) (AccountInfo.nonce default_account) (AccountInfo.code_hash default_account)
          (Some (raw_code [0]))) backend)
    env config gas_limit.

(** ** Updates *)
Definition with_backend (b : TBackend) (x : Executor) : Executor := mkTestExecutor b (ex_env x) (ex_config x) (ex_gas_limit x).
Definition with_env (e : Env) (x : Executor) : Executor := mkTestExecutor (ex_backend x) e (ex_config x) (ex_gas_limit x).
Definition with_config (c : InspectorStackConfig) (x : Executor) : Executor := mkTestExecutor (ex_backend x) (ex_env x) c (ex_gas_limit x).
Definition set_balance (address : Address) (amount : Z) (x : Executor) : result Executor string :=
  match tb_basic (ex_backend x) address with
  | Err e => Err e
  | Ok a =>
      let a := default default_account a in
      Ok (with_backend (tb_insert_account_info address
            (AccountInfo.mk amount (AccountInfo.nonce a) (AccountInfo.code_hash a) (AccountInfo.code a)) (ex_backend x)) x)
  end.
Definition get_balance (x : Executor) (address : Address) : result Z string :=
  match tb_basic (ex_backend x) address with
  | Err e => Err e
  | Ok a => Ok (match a with Some a => AccountInfo.balance a | None => 0 end)
  end.
Definition set_nonce (address : Address) (nonce : Z) (x : Executor) : result Executor string :=
  match tb_basic (ex_backend x) address with
  | Err e => Err e
  | Ok a =>
      let a := default default_account a in
      Ok (with_backend (tb_insert_account_info address
            (AccountInfo.mk (AccountInfo.balance a) nonce (AccountInfo.code_hash a) (AccountInfo.code a)) (ex_backend x)) x)
  end.
Definition set_tracing (b : bool) (x : Executor) : Executor :=
  let c := ex_config x in
  with_config (mkInspectorConfig (cf_cheatcodes c) (cf_block c) (cf_gas_price c) b (cf_debugger c) (cf_fuzzer c) (cf_coverage c)
    (cf_trace_printer c) (cf_chisel_state c)) x.
Definition set_debugger (b : bool) (x : Executor) : Executor :=
  let c := ex_config x in
  with_config (mkInspectorConfig (cf_cheatcodes c) (cf_block c) (cf_gas_price c) (cf_tracing c) b (cf_fuzzer c) (cf_coverage c)
    (cf_trace_printer c) (cf_chisel_state c)) x.
Definition set_trace_printer (b : bool) (x : Executor) : Executor :=
  let c := ex_config x in
  with_config (mkInspectorConfig (cf_cheatcodes c) (cf_block c) (cf_gas_price c) (cf_tracing c) (cf_debugger c) (cf_fuzzer c) (cf_coverage c)
    b (cf_chisel_state c)) x.
Definition set_gas_limit (gas_limit : Z) (x : Executor) : Executor := mkTestExecutor (ex_backend x) (ex_env x) (ex_config x) gas_limit.

(** ** Calls *)
(** The gas price is 0: the cheatcodes apply the real one. *)
Definition build_test_env (x : Executor) (caller : Address) (to : TransactTo) (data : list byte) (value : Z) : exec Env :=
  gas_limit ← u256_as_u64 (ex_gas_limit x);
  let b := ev_block (ex_env x) in
  let t := ev_tx (ex_env x) in
  Ret (mkEnv (ev_cfg (ex_env x))
    (BlockEnv.mk (BlockEnv.number b) (BlockEnv.coinbase b) (BlockEnv.timestamp b) (BlockEnv.difficulty b) (BlockEnv.prevrandao b) 0
       (ex_gas_limit x))
    {| env_caller := caller; env_transact_to := to; env_data := data; env_chain_id := env_chain_id t; env_nonce := env_nonce t;
       env_value := value; env_gas_price := 0; env_gas_priority_fee := None; env_tx_gas_limit := gas_limit;
       env_access_list := env_access_list t |}).

Definition calc_stipend (calldata : list byte) (spec : SpecId) : Z :=
  let non_zero_data_cost := if spec_index ISTANBUL <=? spec_index spec then 16 else 68 in
  fold_left (fun sum byte => sum + if byte =? 0 then 4 else non_zero_data_cost) calldata 21000.

Definition convert_executed_result (r : Inspected) : RawCallResult :=
  let '(exit_reason, gas_refunded, gas_used, out) :=
    match in_result r with
    | Success reason gas_used _ output => (eval_to_instruction_result reason, in_refunded r, gas_used, Some output)
    | Reverted gas_used output => (IRevert, 0, gas_used, Some (OutCall output))
    | Halted reason gas_used => (halt_to_instruction_result reason, 0, gas_used, None)
    end in
  let d := in_data r in
  mkRawResult exit_reason (negb (return_ok exit_reason))
    (match out with Some (OutCall data) => data | _ => [] end)
    gas_used (default gas_refunded (id_gas d))
    (calc_stipend (env_data (ev_tx (in_env r))) (CfgEnv.spec_id (ev_cfg (in_env r))))
    (id_logs d) (id_labels d) (id_traces d) (id_coverage d) (id_debug d)
    (id_cheatcodes d ≫= broadcastable) (Some (in_changes r)) (id_script_wallets d) (in_env r) (id_cheatcodes d) out (id_chisel_state d).

Definition convert_call_result {D} (decode : list byte -> result D string) (abi : option TAbi) (r : RawCallResult) : result (CallResult D) EvmError :=
  let breakpoints := match rr_cheatcodes r with Some c => breakpoints_of c | None => no_breakpoints end in
  if return_ok (rr_exit_reason r) then
    match decode (rr_result r) with
    | Err e => Err (AbiError e)
    | Ok d =>
        Ok (mkCallResult D false (rr_reverted r) d (rr_gas_used r) (rr_gas_refunded r) (rr_stipend r) (rr_logs r) (rr_labels r) (rr_traces r)
              (rr_coverage r) (rr_debug r) (rr_transactions r) (rr_state_changeset r) (rr_script_wallets r) (rr_env r) breakpoints)
    end
  else
    let reason := match decode_revert (rr_result r) abi (rr_exit_reason r) with Ok s => s | Err _ => show_status (rr_exit_reason r) end in
    if bool_decide (reason = "SKIPPED"%string) then Err SkipError
    else Err (Execution (mkExecutionErr (rr_reverted r) reason (rr_gas_used r) (rr_gas_refunded r) (rr_stipend r) (rr_logs r) (rr_traces r)
           (rr_debug r) (rr_labels r) (rr_transactions r) (rr_state_changeset r) (rr_script_wallets r))).

(** *** State: the executor and the shared flag *)
Definition St : Type := Executor * bool.
(** An error of [inspect_ref] ends the use of the executor: what it leaves in
    the backend is not modelled. *)
Definition call_raw_with_env (env : Env) '((x, flag) : St) : result RawCallResult string * St :=
  match inspect_ref (ex_backend x) env (ex_config x) with
  | Err e => (Err ("backend: failed while inspecting: " +:+ e)%string, (x, flag))
  | Ok r => (Ok (convert_executed_result r), (with_backend (in_backend r) x, flag || in_snapshot_failure r))
  end.
(** The wrapper of the backend is dropped after the call, the flag stays. *)
Definition call_raw (from to : Address) (calldata : list byte) (value : Z) (x : Executor) (flag : bool) : exec (result RawCallResult string * bool) :=
  env ← build_test_env x from (TransactToCall to) calldata value;
  match inspect_ref (ex_backend x) env (ex_config x) with
  | Err e => Ret (Err ("fuzz: failed to inspect: " +:+ e)%string, flag)
  | Ok r => Ret (Ok (convert_executed_result r), flag || in_snapshot_failure r)
  end.
(** The cheatcodes move from the result into the executor. *)
Definition take_cheatcodes (r : RawCallResult) : RawCallResult :=
  mkRawResult (rr_exit_reason r) (rr_reverted r) (rr_result r) (rr_gas_used r) (rr_gas_refunded r) (rr_stipend r) (rr_logs r) (rr_labels r)
    (rr_traces r) (rr_coverage r) (rr_debug r) (rr_transactions r) (rr_state_changeset r) (rr_script_wallets r) (rr_env r) None (rr_out r)
    (rr_chisel_state r).
Definition commit (r : RawCallResult) (x : Executor) : RawCallResult * Executor :=
  let b := match rr_state_changeset r with Some changes => tb_commit changes (ex_backend x) | None => ex_backend x end in
  let c := ex_config x in
  let cheatcodes := clear_broadcastable <$> rr_cheatcodes r in
  (take_cheatcodes r,
   mkTestExecutor b (ex_env x)
     (mkInspectorConfig cheatcodes (ev_block (rr_env r)) (cf_gas_price c) (cf_tracing c) (cf_debugger c) (cf_fuzzer c) (cf_coverage c)
        (cf_trace_printer c) (cf_chisel_state c)) (ex_gas_limit x)).
Definition commit_tx_with_env (env : Env) (s : St) : result RawCallResult string * St :=
  match call_raw_with_env env s with
  | (Err e, s) => (Err e, s)
  | (Ok r, (x, flag)) => let '(r, x) := commit r x in (Ok r, (x, flag))
  end.
Definition call_raw_committing (from to : Address) (calldata : list byte) (value : Z) (s : St) : exec (result RawCallResult string * St) :=
  env ← build_test_env s.1 from (TransactToCall to) calldata value;
  Ret (commit_tx_with_env env s).

Definition converted {D} (decode : list byte -> result D string) (abi : option TAbi) (r : result RawCallResult string) : result (CallResult D) EvmError :=
  match r with Err e => Err (EyreError e) | Ok r => convert_call_result decode abi r end.
Definition call_committing {D} (decode : TestFunction -> list byte -> result D string) (from to : Address) (func : TestFunction) (value : Z)
    (abi : option TAbi) (s : St) : exec (result (CallResult D) EvmError * St) :=
  match encode_call func with
  | Err e => Ret (Err (AbiError e), s)
  | Ok calldata => '(r, s) ← call_raw_committing from to calldata value s; Ret (converted (decode func) abi r, s)
  end.
Definition execute_test {D} (decode : TestFunction -> list byte -> result D string) (from test_contract : Address) (func : TestFunction) (value : Z)
    (abi : option TAbi) (s : St) : exec (result (CallResult D) EvmError * St) :=
  match encode_call func with
  | Err e => Ret (Err (AbiError e), s)
  | Ok calldata =>
      env ← build_test_env s.1 from (TransactToCall test_contract) calldata value;
      let '(r, s) := call_raw_with_env env s in
      Ret (converted (decode func) abi r, s)
  end.
Definition call {D} (decode : TestFunction -> list byte -> result D string) (from to : Address) (func : TestFunction) (value : Z)
    (abi : option TAbi) (x : Executor) (flag : bool) : exec (result (CallResult D) EvmError * bool) :=
  match encode_call func with
  | Err e => Ret (Err (AbiError e), flag)
  | Ok calldata => '(r, flag) ← call_raw from to calldata value x flag; Ret (converted (decode func) abi r, flag)
  end.

(** ** Deployments *)
Definition deploy_error (reason : string) (gas_refunded : Z) (r : RawCallResult) : EvmError :=
  Execution (mkExecutionErr true reason (rr_gas_used r) gas_refunded 0 (rr_logs r) (rr_traces r) (rr_debug r) (rr_labels r) None None
    (rr_script_wallets r)).
Definition deploy_with_env (env : Env) (abi : option TAbi) (s : St) : result DeployResult EvmError * St :=
  match commit_tx_with_env env s with
  | (Err e, s) => (Err (EyreError e), s)
  | (Ok r, (x, flag)) =>
      let result := match rr_out r with Some (OutCreate data _) => data | _ => [] end in
      if return_ok (rr_exit_reason r) then
        match rr_out r with
        | Some (OutCreate _ (Some address)) =>
            (Ok (mkDeployResult address (rr_gas_used r) (rr_gas_refunded r) (rr_logs r) (rr_traces r) (rr_debug r) (rr_env r)),
             (with_backend (tb_add_persistent address (ex_backend x)) x, flag))
        | _ =>
            (Err (deploy_error "Deployment succeeded, but no address was returned. This is a bug, please report it" 0 r), (x, flag))
        end
      else
        let reason := match decode_revert result abi (rr_exit_reason r) with Ok s => s | Err _ => show_status (rr_exit_reason r) end in
        (Err (deploy_error reason (rr_gas_refunded r) r), (x, flag))
  end.
Definition deploy (from : Address) (code : list byte) (value : Z) (abi : option TAbi) (s : St) : exec (result DeployResult EvmError * St) :=
  env ← build_test_env s.1 from TransactToCreate code value;
  Ret (deploy_with_env env abi s).

Definition CREATE2_CREATOR : Address := 0x3fAB184622Dc19b6109349B94811493BF2a45362.
(** The code and the text of an error *)
Context (create2_deployer_code : list byte) (show_error : EvmError -> string).
Definition deploy_create2_deployer (s : St) : exec (result unit string * St) :=
  let '(x, flag) := s in
  match tb_basic (ex_backend x) DEFAULT_CREATE2_DEPLOYER with
  | Err e => Ret (Err e, s)
  | Ok None => Ret (Err "missing account"%string, s)
  | Ok (Some account) =>
      if match AccountInfo.code account with None => true | Some code => code_is_empty code end then
        match get_balance x CREATE2_CREATOR with
        | Err e => Ret (Err e, s)
        | Ok initial_balance =>
            match set_balance CREATE2_CREATOR U256_MAX x with
            | Err e => Ret (Err e, s)
            | Ok x =>
                '(r, (x, flag)) ← deploy CREATE2_CREATOR create2_deployer_code 0 None (x, flag);
                match r with
                | Err e => Ret (Err (show_error e), (x, flag))
                | Ok _ =>
                    match set_balance CREATE2_CREATOR initial_balance x with
                    | Err e => Ret (Err e, (x, flag))
                    | Ok x => Ret (Ok tt, (x, flag))
                    end
                end
            end
        end
      else Ret (Ok tt, s)
  end.

(** ** Success of a test *)
Definition FAILED : TestFunction := mkTestFunction "failed" false "failed()(bool)".
Definition SETUP : TestFunction := mkTestFunction "setUp" false "setUp()".
(** The accounts that are copied to the new backend *)
Fixpoint clone_accounts (from : TBackend) (addresses : list Address) (b : TBackend) : result TBackend string :=
  match addresses with
  | [] => Ok b
  | a :: addresses =>
      match tb_basic from a with
      | Err e => Err e
      | Ok acc => clone_accounts from addresses (tb_insert_account_info a (default default_account acc) b)
      end
  end.
Definition ensure_success (x : Executor) (flag : bool) (address : Address) (reverted : bool) (changes : StateChangeset) (should_fail : bool)
    : exec (result bool string) :=
  if flag then Ret (Ok should_fail)
  else
    match clone_accounts (ex_backend x) [address; CHEATCODE_ADDRESS] (tb_clone_empty (ex_backend x)) with
    | Err e => Ret (Err e)
    | Ok backend =>
        let executor := executor_new (tb_commit changes backend) (ex_env x) (ex_config x) (ex_gas_limit x) in
        success ← (if reverted then Ret false
                   else
                     '(r, _) ← call decode_bool CALLER address FAILED 0 None executor false;
                     Ret (match r with Ok c => negb (cr_result _ c) | Err _ => true end));
        Ret (Ok (xorb should_fail success))
    end.
Definition is_success (x : Executor) (flag : bool) (address : Address) (reverted : bool) (changes : StateChangeset) (should_fail : bool) : exec bool :=
  r ← ensure_success x flag address reverted changes should_fail;
  Ret (match r with Ok b => b | Err _ => false end).

(** ** Setup *)
Definition setup (from : option Address) (to : Address) (s : St) : exec (result (CallResult unit) EvmError * St) :=
  let '(x, flag) := s in
  let from := default CALLER from in
  let x := with_backend (tb_set_caller from (tb_set_test_contract to (ex_backend x))) x in
  '(r, (x, flag)) ← call_committing decode_unit from to SETUP 0 None (x, flag);
  match r with
  | Err e => Ret (Err e, (x, flag))
  | Ok res =>
      let cfg := ev_cfg (ex_env x) in
      let e := cr_env _ res in
      let x := with_env (mkEnv (CfgEnv.mk (CfgEnv.chain_id (ev_cfg e)) (CfgEnv.spec_id cfg) (CfgEnv.disable_block_gas_limit cfg)
                 (CfgEnv.disable_base_fee cfg) (CfgEnv.disable_eip3607 cfg)) (ev_block e) (ev_tx (ex_env x))) x in
      match cr_state_changeset _ res with
      | None => Ret (Ok res, (x, flag))
      | Some changeset =>
          ok ← ensure_success x flag to (cr_reverted _ res) changeset false;
          match ok with
          | Err e => Ret (Err (EyreError e), (x, flag))
          | Ok true => Ret (Ok res, (x, flag))
          | Ok false =>
              Ret (Err (Execution (mkExecutionErr (cr_reverted _ res) "execution error" (cr_gas_used _ res) (cr_gas_refunded _ res) (cr_stipend _ res)
                     (cr_logs _ res) (cr_traces _ res) (cr_debug _ res) (cr_labels _ res) None None (cr_script_wallets _ res))), (x, flag))
          end
      end
  end.
End TestExecutor.
