(* ===== verification/ForgeRunner.v ===== *)
(** * Running the tests of contracts (forge/src/runner.rs, multi_runner.rs,
    result.rs, lib.rs, common/src/traits.rs, evm/src/executor/builder.rs)

    A contract runner deploys the test contract, calls its [setUp] and runs its
    tests; a multi contract runner does so for every contract of the project.  The
    fuzzer, the invariant tester and the decoding of console logs are an
    interface.  Tests run in parallel: [order] is the order in which they are
    run, and the shared flag of failed snapshots is passed from one to the next. *)
From S2P Require Import Prelude Transaction Hardfork Block Db Validator Executor MultiFork ForkBackend Trace Debug Coverage TestExecutor.
Open Scope Z_scope.

(** ** Names of tests (common/src/traits.rs) *)
Fixpoint name_starts_with (p s : string) : bool :=
  match p, s with
  | EmptyString, _ => true
  | String a p, String b s => Ascii.eqb a b && name_starts_with p s
  | String _ _, EmptyString => false
  end.
Definition is_invariant_test (name : string) : bool := name_starts_with "invariant" name || name_starts_with "statefulFuzz" name.
Definition is_test (name : string) : bool := name_starts_with "test" name.
Definition is_test_fail (name : string) : bool := name_starts_with "testFail" name.
Definition is_setup (name : string) : bool := String.eqb (to_lowercase name) "setup".
Definition is_fuzz_test (f : TestFunction) : bool := tf_has_inputs f.
Record TestFilter := mkFilter { matches_test : string -> bool; matches_contract : string -> bool; matches_path : string -> bool }.

(** ** Options (forge/src/lib.rs) *)
(** Of the dictionary the weight, which can be configured inline *)
Record FuzzConfig := mkFuzzConfig { fz_runs : Z; fz_max_test_rejects : Z; fz_seed : option Z; fz_dictionary_weight : Z }.
Record InvariantConfig := mkInvConfig {
  iv_runs : Z; iv_depth : Z; iv_fail_on_revert : bool; iv_call_override : bool; iv_dictionary_weight : Z; iv_shrink_sequence : bool }.
Definition fuzz_config_default : FuzzConfig := mkFuzzConfig 256 65536 None 40.
Definition invariant_config_default : InvariantConfig := mkInvConfig 256 15 false false 80 true.
Record TestOptions := mkOptions {
  o_fuzz : FuzzConfig; o_invariant : InvariantConfig;
  inline_fuzz : gmap (string * string) FuzzConfig; inline_invariant : gmap (string * string) InvariantConfig }.
(** The configuration of proptest's runner, with the seed of its generator *)
Record TestRunner := mkTestRunner { cases : Z; max_global_rejects : Z; rng_seed : option Z }.
Definition fuzz_config (o : TestOptions) (contract_id test_fn : string) : FuzzConfig := default (o_fuzz o) (inline_fuzz o !! (contract_id, test_fn)).
Definition invariant_config (o : TestOptions) (contract_id test_fn : string) : InvariantConfig :=
  default (o_invariant o) (inline_invariant o !! (contract_id, test_fn)).
Definition fuzzer_with_cases (o : TestOptions) (n : Z) : TestRunner := mkTestRunner n (fz_max_test_rejects (o_fuzz o)) (fz_seed (o_fuzz o)).
Definition fuzz_runner (o : TestOptions) (contract_id test_fn : string) : TestRunner := fuzzer_with_cases o (fz_runs (fuzz_config o contract_id test_fn)).
Definition invariant_runner (o : TestOptions) (contract_id test_fn : string) : TestRunner :=
  fuzzer_with_cases o (iv_runs (invariant_config o contract_id test_fn)).

(** ** Results (forge/src/result.rs) *)
Inductive TestStatus := StSuccess | StFailure | StSkipped.
#[export] Instance TestStatus_eq_dec : EqDecision TestStatus.
Proof. solve_decision. Defined.
Inductive TraceKind := Deployment | SetupTrace | ExecutionTrace.
Abbreviation Traces := (list (TraceKind * CallTraceArena)) (only parsing).

Class ForgeTypes := {
  CounterExample : Type;
  FirstCase : Type;
  Known : Type;
  Identified : Type;
  CheatsConfig : Type }.

Section Forge.
Context `{!TestEvm} `{!TestAbi} `{!ForgeTypes}.

Inductive TestKind := KStandard (gas : Z) | KFuzz (first_case : FirstCase) (runs : nat) (mean_gas median_gas : Z) | KInvariant (runs calls reverts : nat).
Inductive TestKindReport := RStandard (gas : Z) | RFuzz (runs : nat) (mean_gas median_gas : Z) | RInvariant (runs calls reverts : nat).
Definition report (k : TestKind) : TestKindReport :=
  match k with
  | KStandard gas => RStandard gas
  | KFuzz _ runs mean median => RFuzz runs mean median
  | KInvariant runs calls reverts => RInvariant runs calls reverts
  end.
Definition report_gas (r : TestKindReport) : Z := match r with RStandard gas => gas | RFuzz _ _ median => median | RInvariant _ _ _ => 0 end.
Record TestResult := mkResult {
  tr_status : TestStatus; tr_reason : option string; tr_counterexample : option CounterExample; tr_logs : list Log; tr_decoded_logs : list string;
  tr_kind : TestKind; tr_traces : Traces; tr_coverage : option (gmap H256 HitMap); tr_labels : gmap Address string; tr_breakpoints : Breakpoints }.
(** [Default] *)
Definition result_with (status : TestStatus) (reason : option string) (decoded : list string) (traces : Traces) (labels : gmap Address string) : TestResult :=
  mkResult status reason None [] decoded (KStandard 0) traces None labels no_breakpoints.
Definition result_fail (reason : string) : TestResult := result_with StFailure (Some reason) [] [] ∅.
Record SuiteResult := mkSuite { test_results : gmap string TestResult; warnings : list string }.
Definition failures (r : SuiteResult) : list (string * TestResult) :=
  List.filter (fun t => bool_decide (tr_status (snd t) = StFailure)) (map_to_list (test_results r)).
Definition successes (r : SuiteResult) : list (string * TestResult) :=
  List.filter (fun t => bool_decide (tr_status (snd t) = StSuccess)) (map_to_list (test_results r)).

Record TestSetup := mkSetup {
  ts_address : Address; ts_logs : list Log; ts_traces : Traces; ts_labels : gmap Address string; ts_reason : option string }.
Definition setup_success (address : Address) (logs : list Log) (traces : Traces) (labels : gmap Address string) : TestSetup :=
  mkSetup address logs traces labels None.
Definition setup_failed_with (logs : list Log) (traces : Traces) (labels : gmap Address string) (reason : string) : TestSetup :=
  mkSetup 0 logs traces labels (Some reason).
Definition setup_failed (reason : string) : TestSetup := mkSetup 0 [] [] ∅ (Some reason).
Definition add_trace (k : TraceKind) (t : option CallTraceArena) (traces : Traces) : Traces :=
  traces ++ match t with Some t => [(k, t)] | None => [] end.
(** [show]: the text of an error *)
Context (show : EvmError -> string).
Definition from_evm_error_with (e : EvmError) (logs : list Log) (traces : Traces) (labels : gmap Address string) : TestSetup :=
  match e with
  | Execution err =>
      setup_failed_with (logs ++ ee_logs err) (add_trace SetupTrace (ee_traces err) traces) (ee_labels err ∪ labels) (ee_reason err)
  | e => setup_failed_with logs traces labels ("Failed to deploy contract: " +:+ show e)
  end.

(** ** The runner of a contract (forge/src/runner.rs) *)
Record ContractRunner := mkRunner {
  r_name : string; r_predeploy_libs : list (list byte); r_code : list byte; r_contract : list TestFunction; r_errors : option TAbi;
  r_initial_balance : Z; r_sender : Address }.
Definition runner_new (name : string) (contract : list TestFunction) (code : list byte) (initial_balance : Z) (sender : option Address)
    (errors : option TAbi) (predeploy_libs : list (list byte)) : ContractRunner :=
  mkRunner name predeploy_libs code contract errors initial_balance (default 0 sender).
Context (create2_deployer_code : list byte) (decode_console_logs : list Log -> list string).

Fixpoint deploy_libs (r : ContractRunner) (libs : list (list byte)) (logs : list Log) (traces : Traces) (s : St)
    : exec (result (list Log * Traces) TestSetup * St) :=
  match libs with
  | [] => Ret (Ok (logs, traces), s)
  | code :: libs =>
      '(d, s) ← deploy (r_sender r) code 0 (r_errors r) s;
      match d with
      | Ok d => deploy_libs r libs (logs ++ dr_logs d) (add_trace Deployment (dr_traces d) traces) s
      | Err e => Ret (Err (from_evm_error_with e logs traces ∅), s)
      end
  end.
(** The call of [setUp] *)
Definition call_setup (address : Address) (logs : list Log) (traces : Traces) (s : St) : exec (TestSetup * St) :=
  '(res, s) ← setup None address s;
  let '(setup_logs, setup_traces, labels, reason) :=
    match res with
    | Ok c => (cr_logs _ c, cr_traces _ c, cr_labels _ c, None)
    | Err (Execution e) => (ee_logs e, ee_traces e, ee_labels e, Some ("Setup failed: " +:+ ee_reason e)%string)
    | Err e => ([], None, ∅, Some ("Setup failed: " +:+ show e)%string)
    end in
  Ret (mkSetup address (logs ++ setup_logs) (add_trace SetupTrace setup_traces traces) labels reason, s).
(** The updates of accounts, in order *)
Fixpoint set_balances (l : list (Address * Z)) (x : Executor) : result Executor string :=
  match l with
  | [] => Ok x
  | (a, n) :: l => match set_balance a n x with Err e => Err e | Ok x => set_balances l x end
  end.
Definition _setup (r : ContractRunner) (needs_setup : bool) (s : St) : exec (result TestSetup string * St) :=
  let '(x, flag) := s in
  match set_balances [(r_sender r, U256_MAX); (CALLER, U256_MAX)] x with
  | Err e => Ret (Err e, s)
  | Ok x =>
      match set_nonce (r_sender r) 1 x with
      | Err e => Ret (Err e, (x, flag))
      | Ok x =>
          '(libs, s) ← deploy_libs r (r_predeploy_libs r) [] [] (x, flag);
          match libs with
          | Err t => Ret (Ok t, s)
          | Ok (logs, traces) =>
              '(d, s) ← deploy (r_sender r) (r_code r) 0 (r_errors r) s;
              match d with
              | Err e => Ret (Ok (from_evm_error_with e logs traces ∅), s)
              | Ok d =>
                  let logs := logs ++ dr_logs d in
                  let traces := add_trace Deployment (dr_traces d) traces in
                  let address := dr_address d in
                  let '(x, flag) := s in
                  match set_balances [(address, r_initial_balance r); (r_sender r, r_initial_balance r); (CALLER, r_initial_balance r)] x with
                  | Err e => Ret (Err e, s)
                  | Ok x =>
                      '(c, s) ← deploy_create2_deployer create2_deployer_code show (x, flag);
                      match c with
                      | Err e => Ret (Err e, s)
                      | Ok _ =>
                          if needs_setup then '(t, s) ← call_setup address logs traces s; Ret (Ok t, s)
                          else Ret (Ok (setup_success address logs traces ∅), s)
                      end
                  end
              end
          end
      end
  end.
Definition runner_setup (r : ContractRunner) (needs_setup : bool) (s : St) : exec (TestSetup * St) :=
  '(t, s) ← _setup r needs_setup s;
  Ret (match t with Ok t => t | Err e => setup_failed e end, s).

(** *** A unit test: the call, then the verdict *)
Definition status_of (success : bool) : TestStatus := if success then StSuccess else StFailure.
(** [overflowing_sub] *)
Definition gas_without_stipend (gas stipend : Z) : Z := (gas - stipend) mod 2 ^ 64.
Definition finish_test (should_fail : bool) (t : TestSetup) (res : result (CallResult unit) EvmError) '((x, flag) : St) : exec TestResult :=
  let finish logs labels traces reverted reason gas stipend coverage changes breakpoints :=
    changes ← expect changes "we should have a state changeset";
    success ← is_success x flag (ts_address t) reverted changes should_fail;
    Ret (mkResult (status_of success) reason None logs (decode_console_logs logs) (KStandard (gas_without_stipend gas stipend)) traces coverage
           labels breakpoints) in
  match res with
  | Ok c =>
      finish (ts_logs t ++ cr_logs _ c) (cr_labels _ c ∪ ts_labels t) (add_trace ExecutionTrace (cr_traces _ c) (ts_traces t))
        (cr_reverted _ c) None (cr_gas_used _ c) (cr_stipend _ c) (cr_coverage _ c) (cr_state_changeset _ c) (cr_breakpoints _ c)
  | Err (Execution e) =>
      finish (ts_logs t ++ ee_logs e) (ee_labels e ∪ ts_labels t) (add_trace ExecutionTrace (ee_traces e) (ts_traces t))
        (ee_reverted e) (Some (ee_reason e)) (ee_gas_used e) (ee_stipend e) None (ee_state_changeset e) no_breakpoints
  | Err SkipError => Ret (result_with StSkipped None (decode_console_logs (ts_logs t)) (ts_traces t) (ts_labels t))
  | Err e => Ret (result_with StFailure (Some (show e)) (decode_console_logs (ts_logs t)) (ts_traces t) (ts_labels t))
  end.
Definition execute_unit (r : ContractRunner) (func : TestFunction) (t : TestSetup) (s : St) : exec (result (CallResult unit) EvmError * St) :=
  execute_test decode_unit (r_sender r) (ts_address t) func 0 (r_errors r) s.
(** The runner is a clone: only the flag outlives the test. *)
Definition run_test (r : ContractRunner) (func : TestFunction) (should_fail : bool) (t : TestSetup) (x : Executor) (flag : bool) : exec (TestResult * bool) :=
  '(res, s) ← execute_unit r func t (x, flag);
  result ← finish_test should_fail t res s;
  Ret (result, snd s).

(** *** Fuzz and invariant tests *)
Record FuzzTestResult := mkFuzzTestResult {
  fu_first_case : FirstCase; fu_runs : nat; fu_mean_gas : Z; fu_median_gas : Z; fu_success : bool; fu_reason : option string;
  fu_counterexample : option CounterExample; fu_logs : list Log; fu_labels : gmap Address string; fu_traces : option CallTraceArena;
  fu_coverage : option (gmap H256 HitMap) }.
(** An error of an invariant: whether it is a failure, its reason, its logs and
    traces. *)
Record InvariantFuzzError := mkInvError { ie_fail : bool; ie_revert_reason : string; ie_logs : list Log; ie_traces : option CallTraceArena }.
Record InvariantFuzzTestResult := mkInvResult {
  if_invariants : list (string * option InvariantFuzzError); if_cases : list nat; if_reverts : nat;
  if_last_call_results : gmap string (list Log * option CallTraceArena) }.
Class ForgeLib := {
  fuzz : Executor -> bool -> TestRunner -> FuzzConfig -> Address -> TestFunction -> Address -> bool -> option TAbi -> exec (FuzzTestResult * bool);
  invariant_fuzz : St -> TestRunner -> InvariantConfig -> Identified -> option Known -> Address -> list TestFunction ->
    exec (result InvariantFuzzTestResult string * St);
  replay : St -> InvariantFuzzError -> list Log -> Traces -> result (option CounterExample) string * list Log * Traces;
  load_contracts : Traces -> option Known -> Identified;
  cheats_new : BlockEnv.t -> Z -> CheatsConfig -> Cheats }.
Context `{!ForgeLib}.

Definition run_fuzz_test (r : ContractRunner) (func : TestFunction) (should_fail : bool) (runner : TestRunner) (t : TestSetup) (config : FuzzConfig)
    (x : Executor) (flag : bool) : exec (TestResult * bool) :=
  '(result, flag) ← fuzz x flag runner config (r_sender r) func (ts_address t) should_fail (r_errors r);
  if bool_decide (fu_reason result = Some "SKIPPED"%string) then
    Ret (result_with StSkipped None (decode_console_logs (ts_logs t)) (ts_traces t) (ts_labels t), flag)
  else
    let logs := ts_logs t ++ fu_logs result in
    Ret (mkResult (status_of (fu_success result)) (fu_reason result) (fu_counterexample result) logs (decode_console_logs logs)
           (KFuzz (fu_first_case result) (fu_runs result) (fu_mean_gas result) (fu_median_gas result))
           (add_trace ExecutionTrace (fu_traces result) (ts_traces t)) (fu_coverage result) (fu_labels result ∪ ts_labels t) no_breakpoints, flag).

Definition invariant_result (t : TestSetup) (outcome : InvariantFuzzTestResult) (s : St) '((name, e) : string * option InvariantFuzzError) : TestResult :=
  let reason := match e with Some e => if bool_decide (ie_revert_reason e = ""%string) then None else Some (ie_revert_reason e) | None => None end in
  let '(counterexample, logs, traces) :=
    match e with
    | Some e =>
        if ie_fail e then
          let '(c, logs, traces) := replay s e (ts_logs t) (ts_traces t) in
          (match c with Ok c => c | Err _ => None end, logs ++ ie_logs e, add_trace ExecutionTrace (ie_traces e) traces)
        else
          match if_last_call_results outcome !! name with
          | Some (l, tr) => (None, ts_logs t ++ l, add_trace ExecutionTrace tr (ts_traces t))
          | None => (None, ts_logs t, ts_traces t)
          end
    | None =>
        match if_last_call_results outcome !! name with
        | Some (l, tr) => (None, ts_logs t ++ l, add_trace ExecutionTrace tr (ts_traces t))
        | None => (None, ts_logs t, ts_traces t)
        end
    end in
  mkResult (status_of (match e with None => true | Some _ => false end)) reason counterexample logs (decode_console_logs logs)
    (KInvariant (length (if_cases outcome)) (sum_list (if_cases outcome)) (if_reverts outcome)) traces None (ts_labels t) no_breakpoints.
Definition run_invariant_test (r : ContractRunner) (runner : TestRunner) (t : TestSetup) (config : InvariantConfig) (func : TestFunction)
    (known : option Known) (identified : Identified) (s : St) : exec (list TestResult * St) :=
  '(res, s) ← execute_unit r func t s;
  match res with
  | Err SkipError => Ret ([result_with StSkipped None (decode_console_logs (ts_logs t)) (ts_traces t) (ts_labels t)], s)
  | _ =>
      '(outcome, s) ← invariant_fuzz s runner config identified known (ts_address t) [func];
      match outcome with
      | Err _ => Ret ([], s)
      | Ok outcome => Ret (invariant_result t outcome s <$> if_invariants outcome, s)
      end
  end.

(** *** All tests of a contract *)
Definition selected_tests (r : ContractRunner) (filter : TestFilter) : list TestFunction :=
  List.filter (fun f => is_test (tf_name f) && matches_test filter (tf_signature f)) (r_contract r).
Definition run_one (r : ContractRunner) (o : TestOptions) (t : TestSetup) (x : Executor) (f : TestFunction) (flag : bool) : exec (TestResult * bool) :=
  let should_fail := is_test_fail (tf_name f) in
  if is_fuzz_test f then run_fuzz_test r f should_fail (fuzz_runner o (r_name r) (tf_name f)) t (fuzz_config o (r_name r) (tf_name f)) x flag
  else run_test r f should_fail t x flag.
Fixpoint run_all (r : ContractRunner) (o : TestOptions) (t : TestSetup) (x : Executor) (tests : list TestFunction) (results : gmap string TestResult)
    (flag : bool) : exec (gmap string TestResult * bool) :=
  match tests with
  | [] => Ret (results, flag)
  | f :: tests => '(res, flag) ← run_one r o t x f flag; run_all r o t x tests (<[tf_signature f := res]> results) flag
  end.
Fixpoint run_invariants (r : ContractRunner) (o : TestOptions) (t : TestSetup) (known : option Known) (identified : Identified)
    (tests : list TestFunction) (results : gmap string TestResult) (s : St) : exec (gmap string TestResult * St) :=
  match tests with
  | [] => Ret (results, s)
  | f :: tests =>
      '(rs, s) ← run_invariant_test r (invariant_runner o (r_name r) (tf_name f)) t (invariant_config o (r_name r) (tf_name f)) f known identified s;
      run_invariants r o t known identified tests (fold_left (fun m res => <[tf_signature f := res]> m) rs results) s
  end.
Definition quoted (s : string) : string :=
  let q := String (Ascii.ascii_of_nat 34) EmptyString in (q +:+ s +:+ q)%string.
Definition setup_warnings (r : ContractRunner) : list string :=
  (fun f => ("Found invalid setup function " +:+ quoted (tf_signature f) +:+ " did you mean " +:+ quoted "setUp()" +:+ "?")%string) <$>
    List.filter (fun f => is_setup (tf_name f) && negb (String.eqb (tf_name f) "setUp")) (r_contract r).
Definition run_tests (order : list TestFunction -> list TestFunction) (r : ContractRunner) (filter : TestFilter) (o : TestOptions) (known : option Known)
    (s : St) : exec (SuiteResult * bool) :=
  let setup_fns := List.filter (fun f => is_setup (tf_name f)) (r_contract r) in
  let needs_setup := match setup_fns with [f] => String.eqb (tf_name f) "setUp" | _ => false end in
  if (1 <? length setup_fns)%nat then
    Ret (mkSuite {["setUp()"%string := result_fail "Multiple setUp functions"]} (setup_warnings r), snd s)
  else
    let has_invariants := existsb (fun f => is_invariant_test (tf_name f)) (r_contract r) in
    let '(x, flag) := s in
    let original_tracing := cf_tracing (ex_config x) in
    let x := if has_invariants && needs_setup then set_tracing true x else x in
    '(t, (x, flag)) ← runner_setup r needs_setup (x, flag);
    let x := set_tracing original_tracing x in
    match ts_reason t with
    | Some reason =>
        Ret (mkSuite {["setUp()"%string :=
               mkResult StFailure (Some reason) None (ts_logs t) (decode_console_logs (ts_logs t)) (KStandard 0) (ts_traces t) None (ts_labels t)
                 no_breakpoints]} (setup_warnings r), flag)
    | None =>
        '(results, flag) ← run_all r o t x (order (selected_tests r filter)) ∅ flag;
        if has_invariants then
          let identified := load_contracts (ts_traces t) known in
          let functions := List.filter (fun f => is_invariant_test (tf_name f) && matches_test filter (tf_signature f)) (r_contract r) in
          '(results, (_, flag)) ← run_invariants r o t known identified functions results (x, flag);
          Ret (mkSuite results (setup_warnings r), flag)
        else Ret (mkSuite results (setup_warnings r), flag)
    end.

(** ** Building an executor (evm/src/executor/builder.rs) *)
Record ExecutorBuilder := mkBuilder { eb_env : Env; eb_config : InspectorStackConfig; eb_gas_limit : option Z }.
Definition builder_with_cheatcodes (config : CheatsConfig) (b : ExecutorBuilder) : ExecutorBuilder :=
  let c := eb_config b in
  mkBuilder (eb_env b)
    (mkInspectorConfig (Some (cheats_new (ev_block (eb_env b)) (env_gas_price (ev_tx (eb_env b))) config)) (cf_block c) (cf_gas_price c) (cf_tracing c)
       (cf_debugger c) (cf_fuzzer c) (cf_coverage c) (cf_trace_printer c) (cf_chisel_state c)) (eb_gas_limit b).
Definition builder_with_config (env : Env) (b : ExecutorBuilder) : ExecutorBuilder :=
  let c := eb_config b in
  mkBuilder env
    (mkInspectorConfig (cf_cheatcodes c) (ev_block env) (env_gas_price (ev_tx env)) (cf_tracing c) (cf_debugger c) (cf_fuzzer c) (cf_coverage c)
       (cf_trace_printer c) (cf_chisel_state c)) (eb_gas_limit b).
Definition builder_with_spec (spec : SpecId) (b : ExecutorBuilder) : ExecutorBuilder :=
  let e := eb_env b in
  let cfg := ev_cfg e in
  mkBuilder (mkEnv (CfgEnv.mk (CfgEnv.chain_id cfg) spec (CfgEnv.disable_block_gas_limit cfg) (CfgEnv.disable_base_fee cfg) (CfgEnv.disable_eip3607 cfg))
    (ev_block e) (ev_tx e)) (eb_config b) (eb_gas_limit b).
Definition builder_with_gas_limit (gas_limit : Z) (b : ExecutorBuilder) : ExecutorBuilder := mkBuilder (eb_env b) (eb_config b) (Some gas_limit).
Definition builder_set_tracing (enable : bool) (b : ExecutorBuilder) : ExecutorBuilder :=
  let c := eb_config b in
  mkBuilder (eb_env b) (mkInspectorConfig (cf_cheatcodes c) (cf_block c) (cf_gas_price c) enable (cf_debugger c) (cf_fuzzer c) (cf_coverage c)
    (cf_trace_printer c) (cf_chisel_state c)) (eb_gas_limit b).
Definition builder_set_coverage (enable : bool) (b : ExecutorBuilder) : ExecutorBuilder :=
  let c := eb_config b in
  mkBuilder (eb_env b) (mkInspectorConfig (cf_cheatcodes c) (cf_block c) (cf_gas_price c) (cf_tracing c) (cf_debugger c) (cf_fuzzer c) enable
    (cf_trace_printer c) (cf_chisel_state c)) (eb_gas_limit b).
Definition builder_build (db : TBackend) (b : ExecutorBuilder) : Executor :=
  executor_new db (eb_env b) (eb_config b) (default (BlockEnv.gas_limit (ev_block (eb_env b))) (eb_gas_limit b)).

(** ** All contracts (forge/src/multi_runner.rs) *)
Record TestContract := mkTestContract {
  tc_source : string; tc_name : string; tc_identifier : string; tc_abi : list TestFunction; tc_code : list byte; tc_libs : list (list byte) }.
Record MultiContractRunner := mkMulti {
  mr_contracts : list TestContract; mr_known : Known; mr_initial_balance : Z; mr_gas_limit : Z; mr_verbosity : Z; mr_env : Env; mr_spec : SpecId;
  mr_errors : option TAbi; mr_sender : option Address; mr_cheats_config : CheatsConfig; mr_coverage : bool; mr_test_options : TestOptions }.
(** The default builder *)
Context (builder_default : ExecutorBuilder).

Definition matching_contracts (m : MultiContractRunner) (filter : TestFilter) : list TestContract :=
  List.filter (fun c => matches_path filter (tc_source c) && matches_contract filter (tc_name c)) (mr_contracts m).
Definition count_filtered_tests (m : MultiContractRunner) (filter : TestFilter) : nat :=
  length (c ← matching_contracts m filter; List.filter (fun f => matches_test filter (tf_signature f)) (tc_abi c)).
Definition get_tests (m : MultiContractRunner) (filter : TestFilter) : list string :=
  List.filter is_test (c ← matching_contracts m filter; tf_name <$> tc_abi c).
Definition has_matching_test (filter : TestFilter) (c : TestContract) : bool := existsb (fun f => matches_test filter (tf_name f)) (tc_abi c).
Definition listed_tests (filter : TestFilter) (c : TestContract) : list string :=
  tf_name <$> List.filter (fun f => matches_test filter (tf_signature f)) (List.filter (fun f => is_test (tf_name f)) (tc_abi c)).
Definition list_tests (m : MultiContractRunner) (filter : TestFilter) : gmap string (gmap string (list string)) :=
  fold_left (fun acc c => <[tc_source c := <[tc_name c := listed_tests filter c]> (default ∅ (acc !! tc_source c))]> acc)
    (List.filter (has_matching_test filter) (matching_contracts m filter)) ∅.

Definition executor_of (m : MultiContractRunner) (db : TBackend) : Executor :=
  builder_build db (builder_set_coverage (mr_coverage m) (builder_set_tracing (3 <=? mr_verbosity m) (builder_with_gas_limit (mr_gas_limit m)
    (builder_with_spec (mr_spec m) (builder_with_config (mr_env m) (builder_with_cheatcodes (mr_cheats_config m) builder_default)))))).
Definition run_contract (order : list TestFunction -> list TestFunction) (m : MultiContractRunner) (filter : TestFilter) (o : TestOptions) (db : TBackend)
    (c : TestContract) (flag : bool) : exec (SuiteResult * bool) :=
  run_tests order (runner_new (tc_identifier c) (tc_abi c) (tc_code c) (mr_initial_balance m) (mr_sender m) (mr_errors m) (tc_libs c))
    filter o (Some (mr_known m)) (executor_of m db, flag).
Fixpoint run_contracts (order : list TestFunction -> list TestFunction) (m : MultiContractRunner) (filter : TestFilter) (o : TestOptions) (db : TBackend)
    (cs : list TestContract) (results : gmap string SuiteResult) (flag : bool) : exec (gmap string SuiteResult * bool) :=
  match cs with
  | [] => Ret (results, flag)
  | c :: cs => '(res, flag) ← run_contract order m filter o db c flag; run_contracts order m filter o db cs (<[tc_identifier c := res]> results) flag
  end.
(** Every contract gets a clone of the backend; the clones share the flag. *)
Definition test (contract_order : list TestContract -> list TestContract) (order : list TestFunction -> list TestFunction) (m : MultiContractRunner)
    (filter : TestFilter) (o : TestOptions) (db : TBackend) : exec (gmap string SuiteResult) :=
  '(results, _) ← run_contracts order m filter o db (contract_order (List.filter (has_matching_test filter) (matching_contracts m filter))) ∅ false;
  Ret results.
End Forge.
