(* ===== verification/ForgeProps.v ===== *)
(** * Verdicts of tests and their order

    When a test passes, in terms of the call that it is; that the order of tests
    does not matter if none fails in a reverted snapshot; and that one which does
    fails those that are run after it. *)
From S2P Require Import Prelude Transaction Hardfork Block Db Validator Executor MultiFork ForkBackend Trace Debug Coverage TestExecutor ForgeRunner.
Open Scope Z_scope.

Section Verdicts.
Context `{!TestEvm} `{!TestAbi} `{!ForgeTypes}.
Context (show : EvmError -> string) (decode_console_logs : list Log -> list string).

(** ** The verdict of a unit test *)
(** The environment of a call without value *)
Definition call_env (x : Executor) (from to : Address) (data : list byte) : Env :=
  let b := ev_block (ex_env x) in
  let t := ev_tx (ex_env x) in
  mkEnv (ev_cfg (ex_env x))
    (BlockEnv.mk (BlockEnv.number b) (BlockEnv.coinbase b) (BlockEnv.timestamp b) (BlockEnv.difficulty b) (BlockEnv.prevrandao b) 0 (ex_gas_limit x))
    {| env_caller := from; env_transact_to := TransactToCall to; env_data := data; env_chain_id := env_chain_id t; env_nonce := env_nonce t;
       env_value := 0; env_gas_price := 0; env_gas_priority_fee := None; env_tx_gas_limit := ex_gas_limit x;
       env_access_list := env_access_list t |}.
Lemma build_call_env x from to data :
  ex_gas_limit x <= U64_MAX -> build_test_env x from (TransactToCall to) data 0 = Ret (call_env x from to data).
Proof. intros Hg. unfold build_test_env, u256_as_u64. rewrite decide_True by done. done. Qed.

(** Whether the contract says, on the state after the test, that an assertion
    failed *)
Definition asserts_failed (x : Executor) (backend : TBackend) (changes : StateChangeset) (address : Address) : bool :=
  let e := executor_new (tb_commit changes backend) (ex_env x) (ex_config x) (ex_gas_limit x) in
  match encode_call FAILED with
  | Err _ => false
  | Ok data =>
      match inspect_ref (ex_backend e) (call_env e CALLER address data) (ex_config e) with
      | Err _ => false
      | Ok i =>
          let r := convert_executed_result i in
          return_ok (rr_exit_reason r) && match decode_bool FAILED (rr_result r) with Ok failed => failed | Err _ => false end
      end
  end.

Lemma ensure_success_spec x flag address reverted changes should_fail backend :
  ex_gas_limit x <= U64_MAX ->
  clone_accounts (ex_backend x) [address; CHEATCODE_ADDRESS] (tb_clone_empty (ex_backend x)) = Ok backend ->
  ensure_success x flag address reverted changes should_fail =
    Ret (Ok (xorb should_fail (negb (flag || reverted || asserts_failed x backend changes address)))).
Proof.
  intros Hg Hb. unfold ensure_success. destruct flag; [by rewrite xorb_false_r|]. rewrite Hb.
  destruct reverted; [done|]. unfold asserts_failed, call, call_raw. simpl.
  destruct (encode_call FAILED) as [data|]; [|done].
  rewrite build_call_env by done. simpl. destruct (inspect_ref _ _ _) as [i|]; [|done].
  unfold converted, convert_call_result. simpl.
  destruct (return_ok (rr_exit_reason (convert_executed_result i))); simpl.
  - by destruct (decode_bool FAILED (rr_result (convert_executed_result i))).
  - case_bool_decide; done.
Qed.

(** The text of a failed call *)
Definition revert_reason (abi : option TAbi) (r : RawCallResult) : string :=
  match decode_revert (rr_result r) abi (rr_exit_reason r) with Ok s => s | Err _ => show_status (rr_exit_reason r) end.

(** C2: A unit test whose call could be made never panics, and it
    - is skipped iff its call fails with the reason SKIPPED;
    - fails if its call succeeds with data that cannot be decoded;
    - otherwise succeeds iff exactly one holds: it should fail (its name starts
      with testFail), or it passed: its call succeeded, the contract does not
      report a failed assertion on the state after it, and no snapshot failed. *)
Theorem test_verdict r f should_fail t x flag data i backend :
  ex_gas_limit x <= U64_MAX -> encode_call f = Ok data ->
  inspect_ref (ex_backend x) (call_env x (r_sender r) (ts_address t) data) (ex_config x) = Ok i ->
  clone_accounts (in_backend i) [ts_address t; CHEATCODE_ADDRESS] (tb_clone_empty (in_backend i)) = Ok backend ->
  let raw := convert_executed_result i in
  let failed_snapshot := flag || in_snapshot_failure i in
  exists result, run_test show decode_console_logs r f should_fail t x flag = Ret (result, failed_snapshot) /\
    tr_status result =
      if return_ok (rr_exit_reason raw) then
        match decode_unit f (rr_result raw) with
        | Err _ => StFailure
        | Ok _ => status_of (xorb should_fail (negb (failed_snapshot || asserts_failed (with_backend (in_backend i) x) backend (in_changes i) (ts_address t))))
        end
      else if bool_decide (revert_reason (r_errors r) raw = "SKIPPED"%string) then StSkipped
      else status_of should_fail.
Proof.
  intros Hg Hdata Hi Hb raw failed_snapshot. unfold run_test, execute_unit, execute_test. rewrite Hdata, build_call_env by done.
  simpl. rewrite Hi. simpl. unfold converted, convert_call_result. fold raw.
  assert (rr_reverted raw = negb (return_ok (rr_exit_reason raw))) as Hrev
    by (unfold raw, convert_executed_result; by destruct (in_result i)).
  assert (rr_state_changeset raw = Some (in_changes i)) as Hch
    by (unfold raw, convert_executed_result; by destruct (in_result i)).
  destruct (return_ok (rr_exit_reason raw)) eqn:Hok.
  - destruct (decode_unit f (rr_result raw)) as [u|]; [|eexists; split; [done|done]].
    unfold finish_test. simpl. rewrite Hch, Hrev. simpl. unfold is_success.
    erewrite ensure_success_spec by (simpl; done). simpl. rewrite orb_false_r. eexists; split; done.
  - fold (revert_reason (r_errors r) raw). case_bool_decide; [eexists; split; done|].
    unfold finish_test. simpl. rewrite Hch, Hrev. simpl. unfold is_success.
    erewrite ensure_success_spec by (simpl; done). simpl. rewrite orb_true_r. simpl.
    eexists; split; [done|]. simpl. by rewrite xorb_false_r.
Qed.

(** ** The shared flag *)

(** The flag stays raised. *)
Lemma execute_unit_flag r t x f flag res x' flag' :
  execute_unit r f t (x, flag) = Ret (res, (x', flag')) -> flag = true -> flag' = true.
Proof.
  intros He ->. revert He. unfold execute_unit, execute_test. destruct (encode_call f) as [data|].
  - intros (env & Henv & Hrun)%exec_bind_Ret. simpl in *. unfold call_raw_with_env in *.
    destruct (inspect_ref _ _ _) as [i|e]; simpl in *; by injection Hrun as <- <- <-.
  - by intros [= <- <- <-].
Qed.
(** Once a test has failed in a snapshot that it reverted, every unit test of
    the contract that is run after it fails, and every one that should fail
    succeeds, whatever they do. *)
Theorem snapshot_failure_taints r f should_fail t x result flag :
  run_test show decode_console_logs r f should_fail t x true = Ret (result, flag) ->
  flag = true /\ exists res s, execute_unit r f t (x, true) = Ret (res, s) /\
    match res with
    | Ok _ | Err (Execution _) => tr_status result = status_of should_fail
    | _ => True
    end.
Proof.
  unfold run_test. intros ([res [x' flag']] & He & (result' & Hf & Hx)%exec_bind_Ret)%exec_bind_Ret. simplify_eq. cbn [snd].
  pose proof (execute_unit_flag _ _ _ _ _ _ _ _ He eq_refl) as ->. split; [done|]. exists res, (x', true). split; [done|].
  destruct res as [c|[e| | |]]; try done; unfold finish_test in Hf;
    apply exec_bind_Ret in Hf as (changes & _ & Hf); simpl in Hf; injection Hf as <-; done.
Qed.

(** ** Whole contracts *)
Context `{!ForgeLib} (create2_deployer_code : list byte).

Section Suites.
Context (r : ContractRunner) (o : TestOptions).
(** No test raises the flag. *)
Definition flag_stays (t : TestSetup) (x : Executor) (tests : list TestFunction) : Prop :=
  forall f, f ∈ tests -> exists res, run_one show decode_console_logs r o t x f false = Ret (res, false).

Lemma run_all_alone t x tests results :
  flag_stays t x tests ->
  exists m, run_all show decode_console_logs r o t x tests results false = Ret (m, false) /\
    forall name, (name ∉ tf_signature <$> tests -> m !! name = results !! name) /\
      (NoDup (tf_signature <$> tests) -> forall f res, f ∈ tests -> tf_signature f = name ->
        run_one show decode_console_logs r o t x f false = Ret (res, false) -> m !! name = Some res).
Proof.
  revert results. induction tests as [|f tests IH]; intros results Hf; simpl.
  - exists results. split; [done|]. intros name. split; [done|]. intros _ g res Hg. by apply elem_of_nil in Hg.
  - destruct (Hf f) as [res Hres]; [set_solver|]. rewrite Hres. simpl.
    destruct (IH (<[tf_signature f := res]> results)) as (m & Hm & Hl); [intros g Hg; apply Hf; set_solver|].
    exists m. split; [done|]. intros name. destruct (Hl name) as [Hno Hyes]. split.
    + intros Hn. rewrite Hno by set_solver. apply lookup_insert_ne. set_solver.
    + intros [Hnf Hnd]%NoDup_cons g gres [->|Hg]%elem_of_cons Hname Hg'.
      * rewrite Hres in Hg'. injection Hg' as <-. rewrite Hno by (by rewrite <- Hname). rewrite <- Hname. apply lookup_insert_eq.
      * by apply (Hyes Hnd g).
Qed.

(** The results do not depend on the order. *)
Lemma run_all_order t x tests tests' results :
  tests ≡ₚ tests' -> NoDup (tf_signature <$> tests) -> flag_stays t x tests ->
  run_all show decode_console_logs r o t x tests results false = run_all show decode_console_logs r o t x tests' results false.
Proof.
  intros Hp Hnd Hf. assert (flag_stays t x tests') as Hf' by (intros f Hin; apply Hf; by rewrite Hp).
  assert (NoDup (tf_signature <$> tests')) as Hnd' by by rewrite <- Hp.
  destruct (run_all_alone t x tests results Hf) as (m & -> & Hm), (run_all_alone t x tests' results Hf') as (m' & -> & Hm').
  do 2 f_equal. apply map_eq. intros name.
  destruct (decide (name ∈ tf_signature <$> tests)) as [(f & -> & Hin)%list_elem_of_fmap|Hn].
  - destruct (Hf f Hin) as [res Hres]. rewrite (proj2 (Hm _) Hnd f res), (proj2 (Hm' _) Hnd' f res); try done. by rewrite <- Hp.
  - rewrite (proj1 (Hm _)), (proj1 (Hm' _)); [done|by rewrite <- Hp|done].
Qed.
End Suites.

End Verdicts.

(** ** Options *)
(** The options of the runner are not read: only those passed to [test] count. *)
Definition with_test_options `{!TestEvm} `{!TestAbi} `{!ForgeTypes} (o : TestOptions) (m : MultiContractRunner) : MultiContractRunner :=
  mkMulti (mr_contracts m) (mr_known m) (mr_initial_balance m) (mr_gas_limit m) (mr_verbosity m) (mr_env m) (mr_spec m) (mr_errors m) (mr_sender m)
    (mr_cheats_config m) (mr_coverage m) o.
Lemma runner_options_ignored `{!TestEvm} `{!TestAbi} `{!ForgeTypes} `{!ForgeLib} show create2 decode builder contract_order order m filter o o' db :
  test show create2 decode builder contract_order order (with_test_options o' m) filter o db =
  test show create2 decode builder contract_order order m filter o db.
Proof.
  unfold test. change (matching_contracts (with_test_options o' m) filter) with (matching_contracts m filter). f_equal.
  generalize (contract_order (List.filter (has_matching_test filter) (matching_contracts m filter))) (∅ : gmap string SuiteResult) false.
  intros cs. induction cs as [|c cs IH]; intros results flag; simpl; [done|].
  change (run_contract show create2 decode builder order (with_test_options o' m) filter o db c flag)
    with (run_contract show create2 decode builder order m filter o db c flag).
  destruct (run_contract show create2 decode builder order m filter o db c flag) as [[res flag']|w]; simpl; [apply IH|done].
Qed.

(** The limit of rejected inputs that a test configures inline is not used. *)
Lemma inline_rejects_ignored o contract_id test_fn :
  max_global_rejects (fuzz_runner o contract_id test_fn) = fz_max_test_rejects (o_fuzz o).
Proof. done. Qed.

(** * Sample runs of tests

    A small EVM whose contract has one function per behaviour, the witnesses of
    the theorems on test runs, and what the runner does with a failed snapshot, a
    filter on signatures, the options of a runner and an invariant test that
    cannot be prepared. *)

(** The backend is whether an assertion failed. *)
#[local] Instance sample_evm : TestEvm := {|
  TBackend := bool; StateChangeset := bool; Cheats := unit; BroadcastableTransactions := unit; Breakpoints := unit; Wallet := unit;
  TFuzzer := unit; Chisel := unit; TAbi := unit; no_breakpoints := tt; broadcastable _ := None; clear_broadcastable c := c; breakpoints_of _ := tt;
  tb_basic _ _ := Ok (Some (AccountInfo.mk 0 0 KECCAK_EMPTY (Some [1]))); tb_insert_account_info _ _ b := b; tb_commit c _ := c;
  tb_clone_empty _ := false; tb_add_persistent _ b := b; tb_set_test_contract _ b := b; tb_set_caller _ b := b;
  return_ok e := match e with IStop | IReturn | ISelfDestruct => true | _ => false end;
  decode_revert _ _ _ := Ok "reverted"%string; show_status _ := "status"%string; raw_code c := c;
  code_is_empty c := match c with [] => true | _ => false end |}.

Definition sample_data : InspectorData := mkInspectorData [] ∅ None None None None None [] None.
Definition inspected (b : bool) (env : Env) (r : ExecutionResult) (changes snapshot : bool) : Inspected := mkInspected b env r 0 changes sample_data snapshot.
Definition returns (data : list byte) : ExecutionResult := Executor.Success EvReturn 30000 [] (OutCall data).
Definition sample_inspect (b : bool) (env : Env) (_ : InspectorStackConfig) : result Inspected string :=
  match env_transact_to (ev_tx env), env_data (ev_tx env) with
  | TransactToCreate, _ => Ok (inspected b env (Executor.Success EvReturn 0 [] (OutCreate [] (Some 7))) false false)
  | _, [1] => Ok (inspected b env (returns []) false true)
  | _, [2] => Ok (inspected b env (returns []) false false)
  | _, [3] => Ok (inspected b env (returns [if b then 1 else 0]) false false)
  | _, [4] => Ok (inspected b env (returns []) true false)
  | _, _ => Ok (inspected b env (Reverted 25000 []) false false)
  end.
Definition function_code (name : string) : list byte :=
  if String.eqb name "testSnapshot" then [1] else if String.eqb name "testOk" then [2] else if String.eqb name "failed" then [3]
  else if String.eqb name "testAssert" then [4] else [5].
#[local] Instance sample_abi : TestAbi := {|
  inspect_ref := sample_inspect; encode_call f := Ok (function_code (tf_name f)); decode_unit _ _ := Ok tt;
  decode_bool _ data := Ok (bool_decide (data = [1])) |}.
#[local] Instance sample_types : ForgeTypes := {| CounterExample := unit; FirstCase := unit; Known := unit; Identified := unit; CheatsConfig := unit |}.
#[local] Instance sample_lib : ForgeLib := {|
  fuzz _ flag _ _ _ _ _ _ _ := Ret (mkFuzzTestResult tt 0 0 0 true None None [] ∅ None None, flag);
  invariant_fuzz s _ _ _ _ _ _ := Ret (Err "No contracts to fuzz."%string, s);
  replay _ _ logs traces := (Ok None, logs, traces); load_contracts _ _ := tt; cheats_new _ _ _ := tt |}.

Definition sample_show (e : EvmError) : string := "error".
Definition sample_logs (l : list Log) : list string := [].
Definition sample_block : BlockEnv.t := BlockEnv.mk 1 0 1 0 None 7 30000000.
Definition sample_env : Env :=
  mkEnv (CfgEnv.mk 1 LATEST false false false) sample_block
    {| env_caller := 0; env_transact_to := TransactToCreate; env_data := []; env_chain_id := None; env_nonce := None; env_value := 0;
       env_gas_price := 5; env_gas_priority_fee := None; env_tx_gas_limit := 0; env_access_list := [] |}.
Definition sample_config : InspectorStackConfig := mkInspectorConfig None sample_block 5 false false None false false None.
Definition sample_executor : TestExecutor.Executor := mkTestExecutor false sample_env sample_config 1000000.
Definition unit_test (name : string) : TestFunction := mkTestFunction name false (name +:+ "()").
Definition sample_setup : TestSetup := setup_success 7 [] [] ∅.
Definition sample_runner (tests : list TestFunction) : ContractRunner := mkRunner "C" [] [0] tests None 1000 9.
Definition sample_options : TestOptions := mkOptions fuzz_config_default invariant_config_default ∅ ∅.
Definition every : TestFilter := mkFilter (fun _ => true) (fun _ => true) (fun _ => true).
Definition sample_run (order : list TestFunction -> list TestFunction) (tests : list TestFunction) : exec (SuiteResult * bool) :=
  run_tests sample_show [] sample_logs order (sample_runner tests) every sample_options None (sample_executor, false).
Definition statuses (r : exec (SuiteResult * bool)) : list (string * TestStatus) :=
  match r with Ret (s, _) => (fun '(n, t) => (n, tr_status t)) <$> map_to_list (test_results s) | Panic _ => [] end.

Lemma test_verdict_witness :
  exists result, run_test sample_show sample_logs (sample_runner []) (unit_test "testAssert") false sample_setup sample_executor false = Ret (result, false) /\
    tr_status result = StFailure.
Proof.
  destruct (test_verdict sample_show sample_logs (sample_runner []) (unit_test "testAssert") false sample_setup sample_executor false [4]
    (inspected false (call_env sample_executor 9 7 [4]) (returns []) true false) false) as (result & Hr & Hs).
  - vm_compute. discriminate.
  - reflexivity.
  - reflexivity.
  - reflexivity.
  - exists result. split; [exact Hr|]. vm_compute in Hs. exact Hs.
Defined.

(** ** The shared flag *)
Definition two_tests : list TestFunction := [unit_test "testOk"; unit_test "testAssert"].
Definition tainted_result (flag : bool) : option (TestResult * bool) :=
  match run_test sample_show sample_logs (sample_runner []) (unit_test "testOk") false sample_setup sample_executor flag with
  | Ret p => Some p
  | Panic _ => None
  end.
Lemma snapshot_failure_taints_witness :
  (tr_status ∘ fst <$> tainted_result false) = Some StSuccess /\ (tr_status ∘ fst <$> tainted_result true) = Some StFailure.
Proof.
  split; [vm_compute; reflexivity|]. unfold tainted_result.
  destruct (run_test _ _ _ _ _ _ _ true) as [[result flag]|w] eqn:Hr; [|vm_compute in Hr; discriminate].
  destruct (snapshot_failure_taints _ _ _ _ _ _ _ _ _ Hr) as (_ & res & s & He & Hm). vm_compute in He. injection He as <- <-. cbn in Hm |- *. by rewrite Hm.
Defined.
Definition tainted_tests : list TestFunction := [unit_test "testSnapshot"; unit_test "testOk"].

(** The results of the contract depend on the order of its tests. *)
Example snapshot_failure_leaks :
  statuses (sample_run (fun l => l) tainted_tests) = [("testOk()", StFailure); ("testSnapshot()", StFailure)]%string /\
  statuses (sample_run (@reverse _) tainted_tests) = [("testOk()", StSuccess); ("testSnapshot()", StFailure)]%string.
Proof. split; vm_compute; reflexivity. Qed.


(** ** Filters *)
(** A filter that matches the signature of a test and not its name: the test is
    counted, but the contract is not run. *)
Definition signature_filter : TestFilter := mkFilter (fun s => String.eqb s "testOk()") (fun _ => true) (fun _ => true).
Definition sample_multi (o : TestOptions) : MultiContractRunner :=
  mkMulti [mkTestContract "C.t.sol" "C" "C.t.sol:C" two_tests [0] []] tt 1000 1000000 0 sample_env LATEST None None tt false o.
Definition sample_builder : ExecutorBuilder := mkBuilder sample_env sample_config None.
Example signature_filter_runs_nothing :
  count_filtered_tests (sample_multi sample_options) signature_filter = 1%nat /\
  test sample_show [] sample_logs sample_builder (fun l => l) (fun l => l) (sample_multi sample_options) signature_filter sample_options false = Ret ∅.
Proof. split; vm_compute; reflexivity. Qed.

(** ** Invariant tests that cannot be prepared *)
(** The test is not among the results, neither as a failure nor otherwise. *)
Example unprepared_invariant_vanishes : statuses (sample_run (fun l => l) [unit_test "invariantSum"]) = [].
Proof. vm_compute. reflexivity. Qed.
