(* ===== verification/Link.v ===== *)
(** * Linking libraries (utils/src/lib.rs, forge/src/multi_runner.rs)

    [link_with_nonce_or_address] links every contract of a project to the
    libraries it refers to, which are at addresses that the user gives or that
    follow from the sender and the nonces with which they will be deployed;
    [build] keeps what the runner of tests has to deploy.  The placeholders in a
    code, the text of an address and the address of a created contract belong to
    other packages and are an interface.  Out of fuel is a stack overflow. *)
From S2P Require Import Prelude.
Open Scope Z_scope.

(** ** Data *)
Class LinkLib := {
  CompactBytecode : Type;
  (** [CompactBytecode::link] and [BytecodeObject::into_bytes] *)
  link : string -> string -> Address -> CompactBytecode -> CompactBytecode;
  into_bytes : CompactBytecode -> option (list byte);
  (** whether the object is [Unlinked] *)
  is_unlinked : CompactBytecode -> bool;
  hex_encode : Address -> string;
  get_contract_address : Address -> Z -> Address;
  parse_address : string -> option Address }.
(** The placeholders that are left in a code: linking removes one, and a code
    without any is bytes. *)
Class LinkLaws `{!LinkLib} := {
  placeholders : CompactBytecode -> gset (string * string);
  placeholders_link file key a c : placeholders (link file key a c) = placeholders c ∖ {[(file, key)]};
  into_bytes_linked c : is_Some (into_bytes c) <-> placeholders c = ∅;
  hex_encode_length a : String.length (hex_encode a) = 40%nat }.

Record ArtifactDependency := mkDependency { dep_file : string; dep_key : string }.
Record ResolvedDependency := mkResolved { rd_id : string; rd_address : Address; rd_nonce : Z; rd_bytecode : list byte }.

Section Link.
Context `{!LinkLib}.
(** The code and the runtime code of an artifact; the latter can be there
    without bytecode. *)
Record ArtifactCode := mkCode { ac_bytecode : option CompactBytecode; ac_deployed : option (option CompactBytecode) }.
Record LinkState := mkLink {
  deployment : list ResolvedDependency; internally_deployed : gmap string (Z * Address); link_nonce : Z }.

Context (artifacts : gmap string ArtifactCode) (tree : gmap string (list ArtifactDependency)).
(** The addresses that the user gives, by file and name, and the fallback to a
    canonical path in the root of the project *)
Context (libraries : gmap string (gmap string string)) (canonicalize : string -> option string) (sender : Address).

(** ** One dependency *)
Definition target_of (d : ArtifactDependency) : string := (dep_file d +:+ ":" +:+ dep_key d)%string.
Definition library_id (target : string) (a : Address) : string := (target +:+ ":0x" +:+ hex_encode a)%string.
Definition find_artifact (d : ArtifactDependency) : exec ArtifactCode :=
  match artifacts !! target_of d with
  | Some a => Ret a
  | None =>
      path ← expect (canonicalize (dep_file d)) "No artifact for contract";
      expect (artifacts !! (path +:+ ":" +:+ dep_key d)%string) "No artifact for contract"
  end.
Definition predefined_address (d : ArtifactDependency) : exec (option Address) :=
  match libraries !! dep_file d ≫= (.!! dep_key d) with
  | None => Ret None
  | Some text => a ← expect (parse_address text) "Invalid library address passed."; Ret (Some a)
  end.
Definition push_dependency (d : ResolvedDependency) (s : LinkState) : LinkState :=
  mkLink (deployment s ++ [d]) (internally_deployed s) (link_nonce s).
(** The address of a dependency whose code is linked, and its deployment *)
Definition resolve (d : ArtifactDependency) (code : CompactBytecode) (s : LinkState) : exec (Address * LinkState) :=
  let target := target_of d in
  pre ← predefined_address d;
  match pre with
  | Some a => Ret (a, s)
  | None =>
      match internally_deployed s !! target with
      | Some (cached_nonce, a) =>
          bytes ← expect (into_bytes code) "Bytecode should be linked";
          Ret (a, push_dependency (mkResolved (library_id target a) a cached_nonce bytes) s)
      | None =>
          let used_nonce := link_nonce s in
          let a := get_contract_address sender used_nonce in
          next ← u256_add used_nonce 1;
          bytes ← expect (into_bytes code) "Bytecode should be linked";
          Ret (a, mkLink (deployment s ++ [mkResolved (library_id target a) a used_nonce bytes])
                    (<[target := (used_nonce, a)]> (internally_deployed s)) next)
      end
  end.

Abbreviation Codes := (CompactBytecode * CompactBytecode)%type (only parsing).
Definition link_dependency (rec : string -> Codes -> LinkState -> exec (Codes * LinkState)) (cs : Codes * LinkState) (d : ArtifactDependency)
    : exec (Codes * LinkState) :=
  let '(codes, s) := cs in
  artifact ← find_artifact d;
  bytecode ← expect (ac_bytecode artifact) "No bytecode for contract";
  deployed ← expect (ac_deployed artifact) "No target runtime bytecode";
  runtime ← expect deployed "No target runtime";
  '(next, s) ← (match tree !! target_of d with
                | Some (_ :: _) => rec (target_of d) (bytecode, runtime) s
                | _ => Ret ((bytecode, runtime), s)
                end);
  '(a, s) ← resolve d (fst next) s;
  Ret ((link (dep_file d) (dep_key d) a (fst codes), link (dep_file d) (dep_key d) a (snd codes)), s).
Fixpoint recurse_link (fuel : nat) (target : string) (codes : Codes) (s : LinkState) : exec (Codes * LinkState) :=
  match fuel with
  | O => Panic "stack overflow"
  | S fuel =>
      match tree !! target with
      | None => Ret (codes, s)
      | Some deps => foldM (link_dependency (recurse_link fuel)) (codes, s) deps
      end
  end.
End Link.

(** ** All contracts *)
Section Project.
Context `{!LinkLib}.
(** A contract of the project: its identifier, the file and name of each of its
    link references, its code, and what makes it a test: whether it can be built
    without arguments and has a test or invariant *)
Record LinkContract := mkLinkContract {
  lc_identifier : string; lc_references : list ArtifactDependency; lc_has_abi : bool; lc_code : ArtifactCode; lc_no_arguments : bool; lc_is_test : bool }.
Record PostLinkInput := mkPostLink { pl_contract : LinkContract; pl_bytecode : CompactBytecode; pl_runtime : CompactBytecode; pl_dependencies : list ResolvedDependency }.
Definition link_tree (contracts : list LinkContract) : gmap string (list ArtifactDependency) :=
  fold_left (fun m c => <[lc_identifier c := lc_references c]> m) contracts ∅.
Definition artifacts_by_slug (contracts : list LinkContract) : gmap string ArtifactCode :=
  fold_left (fun m c => <[lc_identifier c := lc_code c]> m) contracts ∅.
(** One contract: [None] for one that is skipped *)
Definition link_contract (fuel : nat) (contracts : list LinkContract) (libraries : gmap string (gmap string string))
    (canonicalize : string -> option string) (sender : Address) (nonce : Z) (c : LinkContract) : exec (option PostLinkInput) :=
  match lc_has_abi c, ac_bytecode (lc_code c), ac_deployed (lc_code c) with
  | true, Some bytecode, Some runtime =>
      runtime ← expect runtime "No target runtime";
      if is_unlinked bytecode then
        '((b, r), s) ← recurse_link (artifacts_by_slug contracts) (link_tree contracts) libraries canonicalize sender fuel (lc_identifier c)
                         (bytecode, runtime) (mkLink [] ∅ nonce);
        Ret (Some (mkPostLink c b r (deployment s)))
      else
        match into_bytes bytecode with
        | Some [] => Ret None
        | _ => Ret (Some (mkPostLink c bytecode runtime []))
        end
  | _, _, _ => Ret None
  end.

(** The dependencies in the order of their deployment, each once *)
Fixpoint unique_from (seen : gset string) (deps : list ResolvedDependency) : list ResolvedDependency :=
  match deps with
  | [] => []
  | d :: deps => if decide (rd_id d ∈ seen) then unique_from seen deps else d :: unique_from ({[rd_id d]} ∪ seen) deps
  end.
Definition unique_deps (deps : list ResolvedDependency) : list ResolvedDependency := unique_from ∅ deps.
(** What [build] keeps of a linked contract: its code and the codes to deploy
    before it *)
Definition post_link (p : PostLinkInput) : option (string * list byte * list (list byte)) :=
  match into_bytes (pl_bytecode p) with
  | None => None
  | Some bytecode =>
      if lc_no_arguments (pl_contract p) && lc_is_test (pl_contract p) then
        Some (lc_identifier (pl_contract p), bytecode, rd_bytecode <$> unique_deps (pl_dependencies p))
      else None
  end.
Fixpoint link_with_nonce_or_address (fuel : nat) (contracts : list LinkContract) (libraries : gmap string (gmap string string))
    (canonicalize : string -> option string) (sender : Address) (nonce : Z) (todo : list LinkContract) : exec (list (string * list byte * list (list byte))) :=
  match todo with
  | [] => Ret []
  | c :: todo =>
      p ← link_contract fuel contracts libraries canonicalize sender nonce c;
      l ← link_with_nonce_or_address fuel contracts libraries canonicalize sender nonce todo;
      Ret (match p ≫= post_link with Some x => x :: l | None => l end)
  end.
End Project.

(** * Linked addresses are the deployed ones (utils/src/lib.rs)

    The libraries that a contract is linked to are given by the user or deployed
    before it, once each and with consecutive nonces, at the addresses that were
    linked; a project without cycles links completely; a cycle overflows the
    stack. *)

(** ** Helpers *)
Lemma string_length_app (s t : string) : String.length (s +:+ t) = (String.length s + String.length t)%nat.
Proof. induction s as [|c s IHs]; [done|]. simpl. f_equal. exact IHs. Qed.
Lemma append_suffix_inj (s1 s2 t1 t2 : string) :
  (s1 +:+ t1)%string = (s2 +:+ t2)%string -> String.length t1 = String.length t2 -> s1 = s2.
Proof.
  revert s2. induction s1 as [|c s1 IH]; intros [|c' s2] Heq Ht; [done| | |].
  - apply (f_equal String.length) in Heq. rewrite !string_length_app in Heq. simpl in Heq. lia.
  - apply (f_equal String.length) in Heq. rewrite !string_length_app in Heq. simpl in Heq. lia.
  - simpl in Heq. injection Heq as -> Heq. f_equal. by apply IH.
Qed.
Lemma foldM_preserves {A B} (I : B -> Prop) (f : B -> A -> exec B) l b b' :
  (forall x b b', f b x = Ret b' -> I b -> I b') -> foldM f b l = Ret b' -> I b -> I b'.
Proof.
  intros Hf. revert b. induction l as [|x l IH]; intros b; simpl; [congruence|].
  rewrite exec_bind_Ret. intros (b1 & H1 & H2) Hb. eapply IH; [exact H2|]. by eapply Hf.
Qed.

(** ** Unique dependencies *)
Lemma unique_from_snoc seen l d :
  unique_from seen (l ++ [d]) = unique_from seen l ++ if decide (rd_id d ∈ seen \/ rd_id d ∈ rd_id <$> l) then [] else [d].
Proof.
  revert seen. induction l as [|e l IH]; intros seen; csimpl.
  - destruct (decide (rd_id d ∈ seen)), (decide (rd_id d ∈ seen \/ rd_id d ∈ [])); try done; exfalso; rewrite elem_of_nil in *; tauto.
  - destruct (decide (rd_id e ∈ seen)) as [He|He]; rewrite IH; csimpl.
    + f_equal. apply decide_ext. rewrite elem_of_cons. split; [tauto|]. intros [?|[-> |?]]; auto.
    + do 2 f_equal. apply decide_ext. rewrite elem_of_cons, elem_of_union, elem_of_singleton. tauto.
Qed.
Lemma unique_deps_snoc l d : unique_deps (l ++ [d]) = unique_deps l ++ if decide (rd_id d ∈ rd_id <$> l) then [] else [d].
Proof. unfold unique_deps. rewrite unique_from_snoc. f_equal. apply decide_ext. rewrite elem_of_empty. tauto. Qed.
Lemma unique_from_subset seen l d : d ∈ unique_from seen l -> d ∈ l.
Proof.
  revert seen. induction l as [|e l IH]; intros seen; simpl; [done|]. case_decide.
  - intros Hd%IH. set_solver.
  - intros [->|Hd%IH]%elem_of_cons; set_solver.
Qed.

Section Linked.
Context `{!LinkLib} `{!LinkLaws}.
Context (artifacts : gmap string ArtifactCode) (tree : gmap string (list ArtifactDependency)).
Context (libraries : gmap string (gmap string string)) (canonicalize : string -> option string) (sender : Address).
Abbreviation recurse := (recurse_link artifacts tree libraries canonicalize sender).
Abbreviation resolve_ := (resolve libraries sender).

Lemma library_id_inj t t' a a' : library_id t a = library_id t' a' -> t = t'.
Proof.
  unfold library_id. intros Heq. apply append_suffix_inj in Heq; [done|]. rewrite !string_length_app, !hex_encode_length. done.
Qed.

(** ** The libraries that were resolved, from nonce [n] on *)
Record linked (n : Z) (s : LinkState) : Prop := {
  linked_unique i d : unique_deps (deployment s) !! i = Some d ->
    rd_nonce d = n + Z.of_nat i /\ rd_address d = get_contract_address sender (n + Z.of_nat i);
  linked_next : link_nonce s = n + Z.of_nat (length (unique_deps (deployment s)));
  linked_known d : d ∈ deployment s -> exists t k, internally_deployed s !! t = Some (k, rd_address d) /\ rd_id d = library_id t (rd_address d);
  linked_internal t k a : internally_deployed s !! t = Some (k, a) ->
    exists d, d ∈ unique_deps (deployment s) /\ rd_id d = library_id t a /\ rd_address d = a;
  linked_size : length (unique_deps (deployment s)) = size (internally_deployed s) }.
Lemma linked_start n : linked n (mkLink [] ∅ n).
Proof. split; simpl; try done. - lia. - intros d Hd. by apply elem_of_nil in Hd. Qed.

(** A library that was resolved before *)
Lemma linked_again n s t k a bytes :
  linked n s -> internally_deployed s !! t = Some (k, a) -> linked n (push_dependency (mkResolved (library_id t a) a k bytes) s).
Proof.
  intros [Hu Hn Hk Hi Hsz] Ht. destruct (Hi _ _ _ Ht) as (e & He & Hid & Ha).
  assert (unique_deps (deployment s ++ [mkResolved (library_id t a) a k bytes]) = unique_deps (deployment s)) as Heq.
  { rewrite unique_deps_snoc, decide_True; [apply app_nil_r|]. simpl. rewrite <- Hid. apply list_elem_of_fmap_2. by eapply unique_from_subset. }
  split; simpl; rewrite ?Heq; try done.
  intros d [Hd| ->%list_elem_of_singleton]%elem_of_app; [by apply Hk|]. simpl. eauto.
Qed.
(** A new library *)
Lemma linked_new n s t bytes :
  linked n s -> internally_deployed s !! t = None ->
  let a := get_contract_address sender (link_nonce s) in
  linked n (mkLink (deployment s ++ [mkResolved (library_id t a) a (link_nonce s) bytes])
    (<[t := (link_nonce s, a)]> (internally_deployed s)) (link_nonce s + 1)).
Proof.
  intros [Hu Hn Hk Hi Hsz] Ht a.
  assert (unique_deps (deployment s ++ [mkResolved (library_id t a) a (link_nonce s) bytes]) =
          unique_deps (deployment s) ++ [mkResolved (library_id t a) a (link_nonce s) bytes]) as Heq.
  { rewrite unique_deps_snoc, decide_False; [done|]. simpl. intros (d & Hid & Hd)%list_elem_of_fmap.
    destruct (Hk d Hd) as (t' & k & Ht' & Hid'). rewrite Hid' in Hid. apply library_id_inj in Hid as ->. congruence. }
  split; simpl; rewrite ?Heq.
  - intros i d. rewrite lookup_app_Some. intros [Hd|[Hge Hd]]; [by apply Hu|].
    apply list_lookup_singleton_Some in Hd as [Hi0 <-]. simpl. replace (n + Z.of_nat i) with (link_nonce s) by lia. done.
  - rewrite length_app. simpl. lia.
  - intros d [Hd| ->%list_elem_of_singleton]%elem_of_app.
    + destruct (Hk d Hd) as (t' & k & Ht' & Hid'). exists t', k. rewrite lookup_insert_ne; [done|]. congruence.
    + exists t, (link_nonce s). by rewrite lookup_insert_eq.
  - intros t' k a'. rewrite lookup_insert_Some. intros [[<- [= <- <-]]|[Hne Ht']].
    + eexists. split; [apply elem_of_app; right; by apply list_elem_of_singleton|done].
    + destruct (Hi _ _ _ Ht') as (d & Hd & Hid). exists d. split; [by apply elem_of_app; left|done].
  - rewrite length_app, map_size_insert_None by done. simpl. lia.
Qed.

(** ** Addresses *)
(** The address of a dependency: the one that the user gave, or that of a
    deployed library *)
Definition address_of (s : LinkState) (d : ArtifactDependency) (a : Address) : Prop :=
  predefined_address libraries d = Ret (Some a) \/
  exists e, e ∈ unique_deps (deployment s) /\ rd_address e = a /\ rd_id e = library_id (target_of d) a.
Definition extends (s s' : LinkState) : Prop := unique_deps (deployment s) `prefix_of` unique_deps (deployment s').
#[local] Instance extends_preorder : PreOrder extends.
Proof. split; [intros s|intros s1 s2 s3]; unfold extends; [done|apply transitivity]. Qed.
Lemma address_of_extends s s' d a : extends s s' -> address_of s d a -> address_of s' d a.
Proof.
  intros [l Hl] [Ha|(e & He & Hrest)]; [by left|right]. exists e. split; [|done]. rewrite Hl. apply elem_of_app. by left.
Qed.
Definition link_all (deps : list ArtifactDependency) (addresses : list Address) (c : CompactBytecode) : CompactBytecode :=
  fold_left (fun c '(d, a) => link (dep_file d) (dep_key d) a c) (zip deps addresses) c.

Lemma resolve_linked n d code s a s' :
  resolve_ d code s = Ret (a, s') -> linked n s -> linked n s' /\ extends s s' /\ address_of s' d a.
Proof.
  intros Hr Hs. unfold resolve in Hr. apply exec_bind_Ret in Hr as (pre & Hpre & Hr). destruct pre as [a0|].
  - injection Hr as -> ->. split; [done|]. split; [reflexivity|by left].
  - destruct (internally_deployed s !! target_of d) as [[k a0]|] eqn:Hi.
    + apply exec_bind_Ret in Hr as (bytes & _ & [= <- <-]). pose proof (linked_again n s _ k a0 bytes Hs Hi) as Hs'. split; [done|].
      destruct (linked_internal n _ Hs' (target_of d) k a0 Hi) as (e & He & Hid & Ha). split.
      * unfold extends, push_dependency. simpl. rewrite unique_deps_snoc. by apply prefix_app_r.
      * right. exists e. done.
    + apply exec_bind_Ret in Hr as (next & Hnext & Hr). apply exec_bind_Ret in Hr as (bytes & _ & [= <- <-]).
      unfold u256_add in Hnext. case_decide; [|done]. injection Hnext as <-.
      pose proof (linked_new n s (target_of d) bytes Hs Hi) as Hs'. split; [done|]. split.
      * unfold extends. simpl. rewrite unique_deps_snoc. by apply prefix_app_r.
      * right. destruct (linked_internal n _ Hs' (target_of d) (link_nonce s) (get_contract_address sender (link_nonce s))) as (e & He & Hid & Ha);
          [apply lookup_insert_eq|]. exists e. done.
Qed.

Lemma link_dependencies_linked n rec deps :
  (forall t codes s codes' s', rec t codes s = Ret (codes', s') -> linked n s -> linked n s' /\ extends s s') ->
  forall codes s codes' s', foldM (link_dependency artifacts tree libraries canonicalize sender rec) (codes, s) deps = Ret (codes', s') -> linked n s ->
    linked n s' /\ extends s s' /\
    exists addresses, Forall2 (address_of s') deps addresses /\ codes' = (link_all deps addresses (fst codes), link_all deps addresses (snd codes)).
Proof.
  intros Hrec. induction deps as [|d deps IH]; intros codes s codes' s'; simpl.
  - intros [= <- <-] Hs. split; [done|]. split; [reflexivity|]. exists []. split; [constructor|]. by destruct codes.
  - intros ([codes1 s1] & Hd & Hrest)%exec_bind_Ret Hs.
    apply exec_bind_Ret in Hd as (artifact & _ & Hd). apply exec_bind_Ret in Hd as (bytecode & _ & Hd).
    apply exec_bind_Ret in Hd as (deployed & _ & Hd). apply exec_bind_Ret in Hd as (runtime & _ & Hd).
    apply exec_bind_Ret in Hd as ([next s0] & Hnext & Hd).
    assert (linked n s0 /\ extends s s0) as [Hs0 He0].
    { destruct (tree !! target_of d) as [[|x l]|]; [by injection Hnext as <- <-|by eapply Hrec|by injection Hnext as <- <-]. }
    apply exec_bind_Ret in Hd as ([a s2] & Hres & [= <- <-]).
    destruct (resolve_linked n d _ _ _ _ Hres Hs0) as (Hs2 & He2 & Ha).
    destruct (IH _ _ _ _ Hrest Hs2) as (Hs' & He' & addresses & Haddr & Hcodes).
    split; [done|]. split; [by do 2 (etrans; [eassumption|])|]. exists (a :: addresses). split; [|done].
    constructor; [by eapply address_of_extends|done].
Qed.

Lemma recurse_link_linked n fuel target codes s codes' s' :
  recurse fuel target codes s = Ret (codes', s') -> linked n s ->
  linked n s' /\ extends s s' /\
  exists addresses, Forall2 (address_of s') (default [] (tree !! target)) addresses /\
    codes' = (link_all (default [] (tree !! target)) addresses (fst codes), link_all (default [] (tree !! target)) addresses (snd codes)).
Proof.
  revert target codes s codes' s'. induction fuel as [|fuel IH]; intros target codes s codes' s'; simpl; [done|].
  destruct (tree !! target) as [deps|]; simpl.
  - apply (link_dependencies_linked n (recurse fuel) deps). intros t c s1 c' s1' Hr Hs1. destruct (IH _ _ _ _ _ Hr Hs1) as (H1 & H2 & _). done.
  - intros [= <- <-] Hs. split; [done|]. split; [reflexivity|]. exists []. split; [constructor|]. by destruct codes.
Qed.

(** ** Complete projects *)
Definition refs (target : string) : gset (string * string) :=
  list_to_set ((fun d => (dep_file d, dep_key d)) <$> default [] (tree !! target)).
(** The libraries have codes that refer to libraries of a smaller rank, and the
    addresses given by the user can be read. *)
Definition dependency_ok (rank : string -> nat) (target : string) (d : ArtifactDependency) : Prop :=
  (rank (target_of d) < rank target)%nat /\
  (exists b r, find_artifact artifacts canonicalize d = Ret (mkCode (Some b) (Some (Some r))) /\ placeholders b ⊆ refs (target_of d)) /\
  (exists o, predefined_address libraries d = Ret o).
Definition project_ok (rank : string -> nat) : Prop :=
  forall target deps d, tree !! target = Some deps -> d ∈ deps -> dependency_ok rank target d.
(** The libraries of the project; their nonces do not overflow. *)
Definition all_targets : gset string := ⋃ ((fun deps => list_to_set (target_of <$> deps)) <$> (map_to_list tree).*2).
Definition room (n : Z) : Prop := n + Z.of_nat (size all_targets) <= U256_MAX.
Definition within (s : LinkState) : Prop := dom (internally_deployed s) ⊆ all_targets.

Lemma target_known target deps d : tree !! target = Some deps -> d ∈ deps -> target_of d ∈ all_targets.
Proof.
  intros Ht Hd. apply elem_of_union_list. exists (list_to_set (target_of <$> deps)). split.
  - apply list_elem_of_fmap. exists deps. split; [done|]. apply list_elem_of_fmap. exists (target, deps). split; [done|]. by apply elem_of_map_to_list.
  - apply elem_of_list_to_set. by apply list_elem_of_fmap_2.
Qed.

Lemma resolve_returns n d code s o :
  linked n s -> within s -> room n -> target_of d ∈ all_targets -> predefined_address libraries d = Ret o -> placeholders code = ∅ ->
  exists a s', resolve_ d code s = Ret (a, s') /\ within s'.
Proof.
  intros Hs Hw Hroom Hd Ho Hcode. apply into_bytes_linked in Hcode as [bytes Hbytes]. unfold resolve. rewrite Ho. simpl.
  destruct o as [a|]; [by eexists _, _|]. destruct (internally_deployed s !! target_of d) as [[k a]|] eqn:Hi.
  - rewrite Hbytes. simpl. by eexists _, _.
  - rewrite Hbytes. unfold u256_add. rewrite decide_True.
    + simpl. eexists _, _. split; [done|]. unfold within. simpl. rewrite dom_insert. set_solver.
    + assert (size (internally_deployed s) < size all_targets)%nat as Hlt.
      { rewrite <- size_dom. apply subset_size. split; [exact Hw|]. intros Hsub. apply Hsub in Hd. apply elem_of_dom in Hd as [? ?]. congruence. }
      rewrite (linked_next n s Hs), (linked_size n s Hs). unfold room in Hroom. lia.
Qed.

Lemma link_all_placeholders deps addresses c :
  length addresses = length deps ->
  placeholders (link_all deps addresses c) = placeholders c ∖ list_to_set ((fun d => (dep_file d, dep_key d)) <$> deps).
Proof.
  revert addresses c. induction deps as [|d deps IH]; intros [|a addresses] c; simpl; try done.
  - intros _. unfold link_all. simpl. set_solver.
  - intros [= Hl]. unfold link_all in *. simpl. rewrite IH by done. rewrite placeholders_link. set_solver.
Qed.

Lemma link_dependencies_return n rank fuel target all :
  project_ok rank -> room n -> tree !! target = Some all -> (rank target <= fuel)%nat ->
  (forall t codes s, (rank t < fuel)%nat -> linked n s -> within s -> exists codes' s', recurse fuel t codes s = Ret (codes', s') /\ within s') ->
  forall deps codes s, deps ⊆ all -> linked n s -> within s ->
    exists codes' s', foldM (link_dependency artifacts tree libraries canonicalize sender (recurse fuel)) (codes, s) deps = Ret (codes', s') /\ within s'.
Proof.
  intros Hok Hroom Hall Hfuel Hrec deps. induction deps as [|d deps IH]; intros codes s Hsub Hs Hw; simpl; [by eexists _, _|].
  assert (d ∈ all) as Hd by set_solver.
  destruct (Hok target all d Hall Hd) as (Hrank & (b & r & Hfind & Hph) & (o & Ho)). rewrite Hfind. simpl.
  assert (exists next s0, (match tree !! target_of d with Some (_ :: _) => recurse fuel (target_of d) (b, r) s | _ => Ret ((b, r), s) end)
      = Ret (next, s0) /\ linked n s0 /\ within s0 /\ placeholders (fst next) = ∅) as (next & s0 & -> & Hs0 & Hw0 & Hnext).
  { unfold refs in Hph. destruct (tree !! target_of d) as [[|x l]|] eqn:Ht; simpl in Hph; try (exists (b, r), s; set_solver).
    destruct (Hrec (target_of d) (b, r) s) as (next & s0 & Hr & Hw0); [lia|done|done|].
    destruct (recurse_link_linked n _ _ _ _ _ _ Hr Hs) as (Hs0 & _ & addresses & Haddr & ->).
    exists (link_all (default [] (tree !! target_of d)) addresses (fst (b, r)), link_all (default [] (tree !! target_of d)) addresses (snd (b, r))), s0.
    split; [done|]. split; [done|]. split; [done|]. simpl. apply Forall2_length in Haddr.
    rewrite link_all_placeholders by done. rewrite Ht. simpl. set_solver. }
  simpl. destruct (resolve_returns n d (fst next) s0 o) as (a & s1 & Hres & Hw1); [done|done|done|by eapply target_known|done|done|].
  rewrite Hres. simpl. destruct (resolve_linked n _ _ _ _ _ Hres Hs0) as (Hs1 & _). apply IH; [set_solver|done|done].
Qed.

Lemma recurse_link_returns n rank fuel target codes s :
  project_ok rank -> room n -> (rank target < fuel)%nat -> linked n s -> within s ->
  exists codes' s', recurse fuel target codes s = Ret (codes', s') /\ within s'.
Proof.
  intros Hok Hroom. revert target codes s. induction fuel as [|fuel IH]; intros target codes s Hf Hs Hw; [lia|]. simpl.
  destruct (tree !! target) as [deps|] eqn:Ht; [|by eexists _, _].
  eapply link_dependencies_return; [done|done|done|lia| |done|done|done]. intros t c s1 Hr Hs1 Hw1. by apply IH.
Qed.

(** ** Cycles *)
(** Targets whose first dependency is one of them again *)
Definition cyclic (targets : gset string) : Prop :=
  forall t, t ∈ targets -> exists d deps b r, tree !! t = Some (d :: deps) /\ target_of d ∈ targets /\
    find_artifact artifacts canonicalize d = Ret (mkCode (Some b) (Some (Some r))).
(** Linking a target in a cycle overflows the stack. *)
Lemma cycle_overflows targets fuel t codes s : cyclic targets -> t ∈ targets -> recurse fuel t codes s = Panic "stack overflow".
Proof.
  intros Hc. revert t codes s. induction fuel as [|fuel IH]; intros t codes s Ht; [done|]. simpl.
  destruct (Hc t Ht) as (d & deps & b & r & -> & Hd & Hf). simpl. rewrite Hf. simpl.
  destruct (Hc _ Hd) as (d' & deps' & b' & r' & -> & _ & _). rewrite IH by done. done.
Qed.
End Linked.

(** C4: The contracts of a project without cyclic libraries, whose codes are all
    there, are linked completely: the code and the runtime code of a contract get
    the address of each of its libraries, which is the one that the user gave or
    that of a library to be deployed before it, no placeholder is left, and these
    libraries, each once and in order, have the addresses that the sender creates
    with consecutive nonces from the given one. *)
Theorem libraries_linked_as_deployed `{!LinkLib} `{!LinkLaws} contracts libraries canonicalize sender nonce c bytecode runtime rank fuel :
  let tree := link_tree contracts in
  let deps := default [] (tree !! lc_identifier c) in
  project_ok (artifacts_by_slug contracts) tree libraries canonicalize rank -> room tree nonce -> (rank (lc_identifier c) < fuel)%nat ->
  lc_has_abi c = true -> lc_code c = mkCode (Some bytecode) (Some (Some runtime)) -> is_unlinked bytecode = true ->
  placeholders bytecode ⊆ refs tree (lc_identifier c) ->
  exists p addresses, link_contract fuel contracts libraries canonicalize sender nonce c = Ret (Some p) /\
    pl_bytecode p = link_all deps addresses bytecode /\ pl_runtime p = link_all deps addresses runtime /\ is_Some (into_bytes (pl_bytecode p)) /\
    Forall2 (fun d a => predefined_address libraries d = Ret (Some a) \/
      exists e, e ∈ unique_deps (pl_dependencies p) /\ rd_address e = a /\ rd_id e = library_id (target_of d) a) deps addresses /\
    forall i e, unique_deps (pl_dependencies p) !! i = Some e -> rd_address e = get_contract_address sender (nonce + Z.of_nat i).
Proof.
  intros tree deps Hok Hroom Hfuel Habi Hcode Hun Hph. unfold link_contract. rewrite Habi, Hcode. simpl. rewrite Hun.
  pose proof (linked_start sender nonce) as Hstart.
  destruct (recurse_link_returns (artifacts_by_slug contracts) tree libraries canonicalize sender nonce rank fuel (lc_identifier c)
    (bytecode, runtime) (mkLink [] ∅ nonce)) as (codes & s & Hr & _); [done|done|done|done|unfold within; simpl; set_solver|].
  destruct (recurse_link_linked _ _ _ _ _ _ _ _ _ _ _ _ Hr Hstart) as (Hs & _ & addresses & Haddr & ->).
  fold tree. rewrite Hr. simpl. eexists _, addresses. split; [done|]. simpl. split; [done|]. split; [done|]. split; [|split; [exact Haddr|]].
  - apply into_bytes_linked. rewrite link_all_placeholders by (symmetry; by eapply Forall2_length). unfold refs in Hph. set_solver.
  - intros i e He. by destruct (linked_unique _ _ _ Hs i e He).
Qed.

(** ** Samples *)
(** A code is its placeholders and its bytes. *)
Fixpoint hex_digits (n : nat) (a : Z) : string :=
  match n with
  | O => EmptyString
  | S n => String (Ascii.ascii_of_nat (let d := Z.to_nat (a / 16 ^ Z.of_nat n mod 16) in if (d <? 10)%nat then 48 + d else 87 + d)) (hex_digits n a)
  end.
#[local] Instance sample_link : LinkLib := {|
  CompactBytecode := gset (string * string) * list byte;
  link file key a c := (fst c ∖ {[(file, key)]}, snd c ++ [a]);
  into_bytes c := if decide (fst c = ∅) then Some (snd c) else None;
  is_unlinked c := negb (bool_decide (fst c = ∅));
  hex_encode := hex_digits 40;
  get_contract_address s n := 1000 * s + n;
  parse_address _ := None |}.
#[local] Program Instance sample_laws : LinkLaws := {| placeholders := fst |}.
Next Obligation. done. Qed.
Next Obligation. intros c. simpl. case_decide as Hd; simpl; [split; [done|by eexists]|split; [by intros [? ?]|done]]. Qed.
Next Obligation. done. Qed.

Definition lib (key : string) : ArtifactDependency := mkDependency "L.sol" key.
Definition sample_code (keys : list string) (b : byte) : ArtifactCode :=
  let c := (list_to_set ((fun k => ("L.sol"%string, k)) <$> keys), [b]) in mkCode (Some c) (Some (Some c)).
Definition sample_contract (identifier : string) (keys : list string) (b : byte) : LinkContract :=
  mkLinkContract identifier (lib <$> keys) true (sample_code keys b) true true.
(** The test refers to A and B, and A to B. *)
Definition sample_test : LinkContract := sample_contract "T.sol:T" ["A"; "B"]%string 1.
Definition sample_project : list LinkContract := [sample_contract "L.sol:A" ["B"]%string 2; sample_contract "L.sol:B" [] 3; sample_test].
Definition sample_rank (t : string) : nat := if String.eqb t "L.sol:B" then 0%nat else if String.eqb t "L.sol:A" then 1%nat else 2%nat.

(** B is deployed first, with nonce 1, then A. *)
Example sample_libraries :
  (fun p => (fun e => (rd_nonce e, rd_address e, rd_bytecode e)) <$> unique_deps (pl_dependencies p)) <$>
    (match link_contract 3 sample_project ∅ (fun _ => None) 9 1 sample_test with Ret p => p | Panic _ => None end) =
  Some [(1, 9001, [3]); (2, 9002, [2; 9001])].
Proof. vm_compute. reflexivity. Qed.

Lemma sample_project_ok : project_ok (artifacts_by_slug sample_project) (link_tree sample_project) ∅ (fun _ => None) sample_rank.
Proof.
  assert (forall target, target <> "L.sol:B"%string -> dependency_ok (artifacts_by_slug sample_project) (link_tree sample_project) ∅ (fun _ => None)
    sample_rank target (lib "B")) as HB.
  { intros target Ht. split; [|split; [|by eexists]].
    - unfold sample_rank. change (target_of (lib "B")) with "L.sol:B"%string. rewrite (proj2 (String.eqb_neq target _)) by done.
      simpl. destruct (String.eqb target "L.sol:A"); lia.
    - exists (∅, [3]), (∅, [3]). split; [reflexivity|]. apply empty_subseteq. }
  assert (dependency_ok (artifacts_by_slug sample_project) (link_tree sample_project) ∅ (fun _ => None) sample_rank "T.sol:T" (lib "A")) as HA.
  { split; [vm_compute; lia|split; [|by eexists]]. exists (list_to_set [("L.sol", "B")]%string, [2]), (list_to_set [("L.sol", "B")]%string, [2]).
    split; [reflexivity|]. match goal with |- ?P => apply (bool_decide_unpack P) end. vm_compute. exact I. }
  intros target deps d Ht Hd. unfold link_tree, sample_project in Ht. simpl in Ht. repeat rewrite lookup_insert_Some in Ht.
  destruct Ht as [[<- <-]|[_ [[<- <-]|[_ [[<- <-]|[_ Ht]]]]]]; [| | |by rewrite lookup_empty in Ht];
    repeat (apply elem_of_cons in Hd as [-> |Hd]); try (by apply elem_of_nil in Hd); [exact HA|by apply HB|by apply HB].
Qed.

Lemma libraries_linked_as_deployed_witness :
  exists p, link_contract 3 sample_project ∅ (fun _ => None) 9 1 sample_test = Ret (Some p) /\ is_Some (into_bytes (pl_bytecode p)) /\
    forall i e, unique_deps (pl_dependencies p) !! i = Some e -> rd_address e = 9001 + Z.of_nat i.
Proof.
  destruct (libraries_linked_as_deployed sample_project ∅ (fun _ => None) 9 1 sample_test
    (list_to_set [("L.sol", "A"); ("L.sol", "B")]%string, [1]) (list_to_set [("L.sol", "A"); ("L.sol", "B")]%string, [1]) sample_rank 3)
    as (p & addresses & Hp & _ & _ & Hb & _ & Ha).
  - apply sample_project_ok.
  - vm_compute. discriminate.
  - vm_compute. lia.
  - reflexivity.
  - reflexivity.
  - reflexivity.
  - match goal with |- ?P => apply (bool_decide_unpack P) end. vm_compute. exact I.
  - exists p. split; [exact Hp|]. split; [exact Hb|]. intros i e He. rewrite (Ha i e He). simpl. lia.
Defined.

(** Two libraries that refer to each other *)
Definition cyclic_project : list LinkContract := [sample_contract "L.sol:A" ["B"]%string 2; sample_contract "L.sol:B" ["A"]%string 3; sample_test].
Example cyclic_libraries_overflow fuel :
  link_contract (S fuel) cyclic_project ∅ (fun _ => None) 9 1 (sample_contract "L.sol:A" ["B"]%string 2) = Panic "stack overflow".
Proof.
  set (c := sample_contract "L.sol:A" ["B"]%string 2).
  set (codes := (list_to_set [("L.sol", "B")]%string, [2]) : gset (string * string) * list byte).
  transitivity (recurse_link (artifacts_by_slug cyclic_project) (link_tree cyclic_project) ∅ (fun _ => None) 9 (S fuel) "L.sol:A" (codes, codes)
    (mkLink [] ∅ 1) ≫= fun '((b, r), s) => Ret (Some (mkPostLink c b r (deployment s)))); [reflexivity|].
  rewrite (cycle_overflows _ _ _ _ _ {["L.sol:A"; "L.sol:B"]}%string); [done| |set_solver].
  intros t [->%elem_of_singleton| ->%elem_of_singleton]%elem_of_union.
  - exists (lib "B"), [], (list_to_set [("L.sol", "A")]%string, [3]), (list_to_set [("L.sol", "A")]%string, [3]).
    split; [reflexivity|]. split; [|reflexivity]. change (target_of (lib "B")) with "L.sol:B"%string. set_solver.
  - exists (lib "A"), [], codes, codes. split; [reflexivity|]. split; [|reflexivity]. change (target_of (lib "A")) with "L.sol:A"%string. set_solver.
Qed.
