(* ===== verification/InlineConfig.v ===== *)
(** * Inline configuration of tests (config/src/inline, fuzz.rs, invariant.rs,
    forge/src/lib.rs)

    Lines of the documentation of a test such as
    [forge-config: default.fuzz.runs = 100] change the configuration of this test.
    Texts are ASCII: the white space that is removed is that of ASCII. *)
From Stdlib Require Import Ascii.
From S2P Require Import Prelude TestExecutor ForgeRunner.
Open Scope Z_scope.

(** ** Texts *)
Definition char_eqb (n : nat) (c : ascii) : bool := (nat_of_ascii c =? n)%nat.
(** [char::is_whitespace] *)
Definition is_whitespace (c : ascii) : bool :=
  let n := nat_of_ascii c in (n =? 32)%nat || ((9 <=? n)%nat && (n <=? 13)%nat).
Fixpoint remove_whitespaces (s : string) : string :=
  match s with
  | EmptyString => EmptyString
  | String c s => if is_whitespace c then remove_whitespaces s else String c (remove_whitespaces s)
  end.
(** [str::split]: the part before the first separator, and the others *)
Fixpoint split_at (sep : nat) (s : string) : string * list string :=
  match s with
  | EmptyString => (EmptyString, [])
  | String c s =>
      let '(first, rest) := split_at sep s in
      if char_eqb sep c then (EmptyString, first :: rest) else (String c first, rest)
  end.
Fixpoint contains (pattern s : string) : bool :=
  name_starts_with pattern s || match s with EmptyString => false | String _ s => contains pattern s end.
Fixpoint drop_chars (n : nat) (s : string) : string :=
  match n, s with
  | S n, String _ s => drop_chars n s
  | _, _ => s
  end.
(** What follows the last occurrence of a text: the regex [.*text] is greedy. *)
Fixpoint after_last (pattern s : string) : option string :=
  match s with
  | EmptyString => if name_starts_with pattern s then Some s else None
  | String _ s' =>
      match after_last pattern s' with
      | Some r => Some r
      | None => if name_starts_with pattern s then Some (drop_chars (String.length pattern) s) else None
      end
  end.

(** ** Lines (config/src/inline/natspec.rs, conf_parser.rs) *)
Definition INLINE_CONFIG_PREFIX : string := "forge-config".
Record NatSpec := mkNatSpec { ns_contract : string; ns_function : string; ns_line : string; ns_docs : string }.
Definition debug_context (n : NatSpec) : string := (ns_contract n +:+ ":" +:+ ns_function n)%string.
Definition config_lines (n : NatSpec) : list string :=
  let '(first, rest) := split_at 10 (ns_docs n) in
  List.filter (contains INLINE_CONFIG_PREFIX) (remove_whitespaces <$> first :: rest).
Definition config_lines_with_prefix (n : NatSpec) (prefix : string) : list string := List.filter (name_starts_with prefix) (config_lines n).
Definition profile_prefix (profile : string) : string := (INLINE_CONFIG_PREFIX +:+ ":" +:+ profile +:+ ".")%string.
Definition current_profile_configs (selected_profile : string) (n : NatSpec) : list string := config_lines_with_prefix n (profile_prefix selected_profile).

Inductive InlineConfigParserError :=
| InvalidConfigProperty (key : string)
| InvalidProfile (line : string) (profiles : list string)
| ParseInt (key value : string)
| ParseBool (key value : string).
Record InlineConfigError := mkInlineError { ie_line : string; ie_source : InlineConfigParserError }.
Definition validate_profiles (n : NatSpec) (profiles : list string) : result unit InlineConfigError :=
  match List.find (fun config => negb (existsb (fun p => name_starts_with (profile_prefix p) config) profiles)) (config_lines n) with
  | Some config => Err (mkInlineError (debug_context n) (InvalidProfile config profiles))
  | None => Ok tt
  end.
(** The line without the match of [^forge-config:.*key\.] *)
Definition strip_key (config_key l : string) : option string :=
  let prefix := (INLINE_CONFIG_PREFIX +:+ ":")%string in
  if name_starts_with prefix l then after_last (config_key +:+ ".") (drop_chars (String.length prefix) l) else None.
(** The first and the last part of [key=value] *)
Definition key_value (l : string) : string * string :=
  let '(key, rest) := split_at 61 l in (key, default key (last rest)).
Definition get_config_overrides (config_key : string) (lines : list string) : list (string * string) :=
  key_value <$> omap (fun l => strip_key config_key (remove_whitespaces l)) lines.

(** [u32::from_str] and [bool::from_str] *)
Definition digit (c : ascii) : option Z := let n := nat_of_ascii c in if (48 <=? n)%nat && (n <=? 57)%nat then Some (Z.of_nat n - 48) else None.
Fixpoint parse_digits (acc : Z) (s : string) : option Z :=
  match s with
  | EmptyString => Some acc
  | String c s => d ← digit c; let acc := acc * 10 + d in if acc <? 2 ^ 32 then parse_digits acc s else None
  end.
Definition parse_u32 (s : string) : option Z :=
  match s with
  | EmptyString => None
  | String c s' =>
      if char_eqb 43 c then match s' with EmptyString => None | _ => parse_digits 0 s' end
      else parse_digits 0 s
  end.
Definition parse_config_u32 (key value : string) : result Z InlineConfigParserError :=
  match parse_u32 value with Some n => Ok n | None => Err (ParseInt key value) end.
Definition parse_config_bool (key value : string) : result bool InlineConfigParserError :=
  if String.eqb value "true" then Ok true else if String.eqb value "false" then Ok false else Err (ParseBool key value).

(** ** Merging (config/src/fuzz.rs, invariant.rs) *)
Definition on_ok {A B} (r : result A InlineConfigParserError) (f : A -> B) : result B InlineConfigParserError :=
  match r with Ok a => Ok (f a) | Err e => Err e end.
Definition fuzz_override (c : FuzzConfig) '((key, value) : string * string) : result FuzzConfig InlineConfigParserError :=
  if String.eqb key "runs" then
    on_ok (parse_config_u32 key value) (fun n => mkFuzzConfig n (fz_max_test_rejects c) (fz_seed c) (fz_dictionary_weight c))
  else if String.eqb key "max-test-rejects" then
    on_ok (parse_config_u32 key value) (fun n => mkFuzzConfig (fz_runs c) n (fz_seed c) (fz_dictionary_weight c))
  else if String.eqb key "dictionary-weight" then
    on_ok (parse_config_u32 key value) (fun n => mkFuzzConfig (fz_runs c) (fz_max_test_rejects c) (fz_seed c) n)
  else Err (InvalidConfigProperty key).
Definition invariant_override (c : InvariantConfig) '((key, value) : string * string) : result InvariantConfig InlineConfigParserError :=
  if String.eqb key "runs" then
    on_ok (parse_config_u32 key value)
      (fun n => mkInvConfig n (iv_depth c) (iv_fail_on_revert c) (iv_call_override c) (iv_dictionary_weight c) (iv_shrink_sequence c))
  else if String.eqb key "depth" then
    on_ok (parse_config_u32 key value)
      (fun n => mkInvConfig (iv_runs c) n (iv_fail_on_revert c) (iv_call_override c) (iv_dictionary_weight c) (iv_shrink_sequence c))
  else if String.eqb key "fail-on-revert" then
    on_ok (parse_config_bool key value)
      (fun b => mkInvConfig (iv_runs c) (iv_depth c) b (iv_call_override c) (iv_dictionary_weight c) (iv_shrink_sequence c))
  else if String.eqb key "call-override" then
    on_ok (parse_config_bool key value)
      (fun b => mkInvConfig (iv_runs c) (iv_depth c) (iv_fail_on_revert c) b (iv_dictionary_weight c) (iv_shrink_sequence c))
  else if String.eqb key "shrink-sequence" then
    on_ok (parse_config_bool key value)
      (fun b => mkInvConfig (iv_runs c) (iv_depth c) (iv_fail_on_revert c) (iv_call_override c) (iv_dictionary_weight c) b)
  else Err (InvalidConfigProperty key).
Fixpoint overrides {C} (f : C -> string * string -> result C InlineConfigParserError) (c : C) (l : list (string * string)) : result C InlineConfigParserError :=
  match l with
  | [] => Ok c
  | kv :: l => match f c kv with Ok c => overrides f c l | Err e => Err e end
  end.
(** [try_merge] of both configurations *)
Definition try_merge {C} (config_key : string) (f : C -> string * string -> result C InlineConfigParserError) (c : C) (configs : list string)
    : result (option C) InlineConfigParserError :=
  match get_config_overrides config_key configs with
  | [] => Ok None
  | l => on_ok (overrides f c l) Some
  end.
Definition fuzz_try_merge : FuzzConfig -> list string -> result (option FuzzConfig) InlineConfigParserError := try_merge "fuzz" fuzz_override.
Definition invariant_try_merge : InvariantConfig -> list string -> result (option InvariantConfig) InlineConfigParserError :=
  try_merge "invariant" invariant_override.
Definition validate_configs {C} (config_key : string) (merge : C -> list string -> result (option C) InlineConfigParserError) (initial : C) (n : NatSpec)
    : result unit InlineConfigError :=
  match merge initial (List.filter (contains config_key) (config_lines n)) with
  | Ok _ => Ok tt
  | Err e => Err (mkInlineError (debug_context n) e)
  end.

(** ** Options of all tests (forge/src/lib.rs) *)
Definition add_natspec (selected_profile : string) (profiles : list string) (o : TestOptions) (n : NatSpec) : result TestOptions InlineConfigError :=
  match validate_profiles n profiles, validate_configs "fuzz" fuzz_try_merge fuzz_config_default n,
        validate_configs "invariant" invariant_try_merge invariant_config_default n with
  | Err e, _, _ => Err e
  | _, Err e, _ => Err e
  | _, _, Err e => Err e
  | Ok _, Ok _, Ok _ =>
      let configs := current_profile_configs selected_profile n in
      let key := (ns_contract n, ns_function n) in
      match fuzz_try_merge (o_fuzz o) configs with
      | Err e => Err (mkInlineError (debug_context n) e)
      | Ok f =>
          match invariant_try_merge (o_invariant o) configs with
          | Err e => Err (mkInlineError (debug_context n) e)
          | Ok i =>
              Ok (mkOptions (o_fuzz o) (o_invariant o)
                    (match f with Some f => <[key := f]> (inline_fuzz o) | None => inline_fuzz o end)
                    (match i with Some i => <[key := i]> (inline_invariant o) | None => inline_invariant o end))
          end
      end
  end.
Fixpoint options_of (selected_profile : string) (profiles : list string) (natspecs : list NatSpec) (o : TestOptions) : result TestOptions InlineConfigError :=
  match natspecs with
  | [] => Ok o
  | n :: natspecs => match add_natspec selected_profile profiles o n with Ok o => options_of selected_profile profiles natspecs o | Err e => Err e end
  end.
Definition test_options_from (selected_profile : string) (profiles : list string) (natspecs : list NatSpec) (fuzz : FuzzConfig) (invariant : InvariantConfig)
    : result TestOptions InlineConfigError := options_of selected_profile profiles natspecs (mkOptions fuzz invariant ∅ ∅).

(** * Inline configuration is read as written

    The lines of a test set the options they name, in order; and where the search
    for the kind of an option goes wrong. *)

(** ** Texts *)
Fixpoint all_chars (P : ascii -> bool) (s : string) : bool :=
  match s with EmptyString => true | String c s => P c && all_chars P s end.
Lemma all_chars_app P s t : all_chars P (s +:+ t) = all_chars P s && all_chars P t.
Proof. induction s as [|c s IH]; [done|]. change (all_chars P (String c (s +:+ t)) = all_chars P (String c s) && all_chars P t). simpl. rewrite IH. apply andb_assoc. Qed.
Lemma all_chars_impl (P Q : ascii -> bool) s : (forall c, P c = true -> Q c = true) -> all_chars P s = true -> all_chars Q s = true.
Proof. intros HPQ. induction s as [|c s IH]; simpl; [done|]. rewrite !andb_true_iff. intros [Hc Hs]. auto. Qed.

Lemma remove_whitespaces_id s : all_chars (fun c => negb (is_whitespace c)) s = true -> remove_whitespaces s = s.
Proof.
  induction s as [|c s IH]; simpl; [done|]. rewrite andb_true_iff, negb_true_iff. intros [-> Hs]. f_equal. by apply IH.
Qed.
Lemma after_last_none c p s : all_chars (fun x => negb (Ascii.eqb c x)) s = true -> after_last (String c p) s = None.
Proof.
  induction s as [|x s IH]; simpl; [done|]. rewrite andb_true_iff, negb_true_iff. intros [Hx Hs]. rewrite IH by done. by rewrite Hx.
Qed.
Lemma after_last_app p a b r : after_last p b = Some r -> after_last p (a +:+ b) = Some r.
Proof.
  intros Hb. induction a as [|x a IH]; [done|]. change (after_last p (String x (a +:+ b)) = Some r). simpl. by rewrite IH.
Qed.
Lemma split_at_lacks sep s : all_chars (fun c => negb (char_eqb sep c)) s = true -> split_at sep s = (s, []).
Proof.
  induction s as [|c s IH]; simpl; [done|]. rewrite andb_true_iff, negb_true_iff. intros [Hc Hs]. rewrite IH by done. by rewrite Hc.
Qed.
Lemma split_at_app sep k v c :
  all_chars (fun c => negb (char_eqb sep c)) k = true -> all_chars (fun c => negb (char_eqb sep c)) v = true -> char_eqb sep c = true ->
  split_at sep (k +:+ String c v) = (k, [v]).
Proof.
  intros Hk Hv Hc. induction k as [|x k IH]; simpl in *.
  - rewrite split_at_lacks by done. by rewrite Hc.
  - apply andb_true_iff in Hk as [Hx Hk]. apply negb_true_iff in Hx.
    change (split_at sep (String x (k +:+ String c v)) = (String x k, [v])). simpl. rewrite IH by done. by rewrite Hx.
Qed.

(** ** Values *)
Definition number_char (c : ascii) : bool := (43 =? nat_of_ascii c)%nat || ((48 <=? nat_of_ascii c)%nat && (nat_of_ascii c <=? 57)%nat).
Lemma parse_digits_chars acc s n : parse_digits acc s = Some n -> all_chars number_char s = true.
Proof.
  revert acc. induction s as [|c s IH]; intros acc; simpl; [done|]. unfold digit, number_char.
  destruct ((48 <=? nat_of_ascii c)%nat && (nat_of_ascii c <=? 57)%nat); simpl; [|done].
  destruct (_ <? 2 ^ 32); [|done]. intros Hs%IH. rewrite orb_true_r. done.
Qed.
Lemma parse_u32_chars s n : parse_u32 s = Some n -> all_chars number_char s = true.
Proof.
  destruct s as [|c s]; simpl; [done|]. unfold char_eqb. destruct (Nat.eqb_spec (nat_of_ascii c) 43) as [Hc|Hc].
  - destruct s; [done|]. intros Hs%parse_digits_chars. rewrite Hs. unfold number_char. by rewrite Hc.
  - apply (parse_digits_chars 0 (String c s)).
Qed.
Lemma number_char_eqb c x : number_char x = true -> number_char c = false -> Ascii.eqb c x = false.
Proof. intros Hx Hc. apply Ascii.eqb_neq. intros ->. congruence. Qed.
Lemma number_chars_lack k s : number_char (ascii_of_nat k) = false -> (k < 256)%nat -> all_chars number_char s = true ->
  all_chars (fun c => negb (char_eqb k c)) s = true.
Proof.
  intros Hk Hlt. apply all_chars_impl. intros c Hc. unfold char_eqb. apply negb_true_iff, Nat.eqb_neq. intros <-.
  rewrite ascii_nat_embedding in Hk. congruence.
Qed.

(** ** Lines *)
Definition fuzz_keys : list string := ["runs"; "max-test-rejects"; "dictionary-weight"]%string.
Definition fuzz_line (profile key value : string) : string :=
  (INLINE_CONFIG_PREFIX +:+ ":" +:+ profile +:+ ".fuzz." +:+ key +:+ "=" +:+ value)%string.
Definition fuzz_set (c : FuzzConfig) '((key, n) : string * Z) : FuzzConfig :=
  if String.eqb key "runs" then mkFuzzConfig n (fz_max_test_rejects c) (fz_seed c) (fz_dictionary_weight c)
  else if String.eqb key "max-test-rejects" then mkFuzzConfig (fz_runs c) n (fz_seed c) (fz_dictionary_weight c)
  else mkFuzzConfig (fz_runs c) (fz_max_test_rejects c) (fz_seed c) n.

Lemma fuzz_key_chars key : key ∈ fuzz_keys ->
  all_chars (fun c => negb (Ascii.eqb "f"%char c)) key = true /\ all_chars (fun c => negb (char_eqb 61 c)) key = true /\
  all_chars (fun c => negb (is_whitespace c)) key = true.
Proof. intros Hk. repeat (apply elem_of_cons in Hk as [-> |Hk]; [done|]). by apply elem_of_nil in Hk. Qed.

Lemma after_fuzz rest : all_chars (fun c => negb (Ascii.eqb "f"%char c)) rest = true -> after_last "fuzz." (".fuzz." +:+ rest) = Some rest.
Proof.
  intros Hrest. apply (after_last_app "fuzz." "." ("fuzz." +:+ rest)).
  change (match after_last "fuzz." ("uzz." +:+ rest) with
          | Some r => Some r
          | None => if name_starts_with "fuzz." ("fuzz." +:+ rest) then Some (drop_chars 5 ("fuzz." +:+ rest)) else None
          end = Some rest).
  rewrite after_last_none; [done|]. by rewrite all_chars_app, Hrest.
Qed.

Lemma fuzz_line_override profile key value n :
  all_chars (fun c => negb (is_whitespace c)) profile = true -> key ∈ fuzz_keys -> parse_u32 value = Some n ->
  (key_value <$> strip_key "fuzz" (remove_whitespaces (fuzz_line profile key value))) = Some (key, value).
Proof.
  intros Hp Hk Hv%parse_u32_chars. destruct (fuzz_key_chars key Hk) as (Hf & Heq & Hws).
  assert (all_chars (fun c => negb (Ascii.eqb "f"%char c)) value = true) as Hvf
    by (revert Hv; apply all_chars_impl; intros c Hc; by rewrite (number_char_eqb "f"%char c Hc)).
  assert (all_chars (fun c => negb (char_eqb 61 c)) value = true) as Hveq by (apply number_chars_lack; [done|lia|done]).
  assert (all_chars (fun c => negb (is_whitespace c)) value = true) as Hvw.
  { revert Hv. apply all_chars_impl. intros c. unfold number_char, is_whitespace. intros Hc.
    destruct (Nat.eqb_spec 43 (nat_of_ascii c)), (Nat.leb_spec 48 (nat_of_ascii c)), (Nat.leb_spec (nat_of_ascii c) 57); simpl in Hc; try done;
      destruct (Nat.eqb_spec (nat_of_ascii c) 32), (Nat.leb_spec 9 (nat_of_ascii c)), (Nat.leb_spec (nat_of_ascii c) 13); simpl; done || lia. }
  rewrite remove_whitespaces_id by (unfold fuzz_line; by rewrite !all_chars_app, Hp, Hws, Hvw).
  change (key_value <$> after_last "fuzz." (profile +:+ ".fuzz." +:+ key +:+ "=" +:+ value) = Some (key, value)).
  erewrite after_last_app by (apply after_fuzz; by rewrite !all_chars_app, Hf, Hvf). simpl. f_equal.
  unfold key_value. change ("=" +:+ value)%string with (String "="%char value). by rewrite split_at_app.
Qed.

Lemma omap_lines {A B C D} (line : A -> B) (f : B -> option C) (kv : C -> D) (g : A -> D) (l : list A) :
  Forall (fun a => kv <$> f (line a) = Some (g a)) l -> kv <$> omap f (line <$> l) = g <$> l.
Proof. induction 1 as [|a l Ha _ IH]; csimpl; [done|]. destruct (f (line a)); [|done]. csimpl. injection Ha as ->. by rewrite IH. Qed.

(** The lines of a test that set options of its fuzz configuration, each
    to a number that fits, are merged in order, and nothing else changes; the
    last line for an option counts. *)
Theorem fuzz_lines_merged profile (settings : list (string * string * Z)) c :
  all_chars (fun c => negb (is_whitespace c)) profile = true -> settings <> [] ->
  Forall (fun '(key, value, n) => key ∈ fuzz_keys /\ parse_u32 value = Some n) settings ->
  fuzz_try_merge c ((fun '(key, value, n) => fuzz_line profile key value) <$> settings) =
    Ok (Some (fold_left fuzz_set ((fun '(key, value, n) => (key, n)) <$> settings) c)).
Proof.
  intros Hp Hne Hs. unfold fuzz_try_merge, try_merge, get_config_overrides.
  assert ((key_value <$> omap (fun l => strip_key "fuzz" (remove_whitespaces l)) ((fun '(key, value, n) => fuzz_line profile key value) <$> settings))
    = (fun '(key, value, n) => (key, value)) <$> settings) as ->.
  { apply omap_lines. eapply Forall_impl; [exact Hs|]. intros [[key value] n] [Hk Hv]. by apply (fuzz_line_override profile key value n). }
  assert (overrides fuzz_override c ((fun '(key, value, n) => (key, value)) <$> settings) =
    Ok (fold_left fuzz_set ((fun '(key, value, n) => (key, n)) <$> settings) c)) as Ho.
  { clear Hne. revert c. induction Hs as [|[[key value] n] settings [Hk Hv] _ IH]; intros c; [done|]. csimpl.
    rewrite <- IH. unfold fuzz_override, fuzz_set, parse_config_u32. rewrite Hv.
    repeat (apply elem_of_cons in Hk as [-> |Hk]; [done|]). by apply elem_of_nil in Hk. }
  destruct settings as [|x l]; [done|]. csimpl. csimpl in Ho. rewrite Ho. done.
Qed.

Lemma fuzz_lines_merged_witness :
  fuzz_try_merge fuzz_config_default [fuzz_line "ci" "runs" "500"; fuzz_line "ci" "runs" "1000"] = Ok (Some (mkFuzzConfig 1000 65536 None 40)).
Proof.
  apply (fuzz_lines_merged "ci" [("runs", "500", 500); ("runs", "1000", 1000)]%string fuzz_config_default).
  - reflexivity.
  - discriminate.
  - repeat constructor.
Defined.

(** The kind of an option is searched anywhere in the line: under a profile that
    is called fuzz, an option for invariant tests is taken for one of fuzz tests and
    rejected. *)
Example fuzz_profile_rejected :
  test_options_from "fuzz" ["fuzz"]%string [mkNatSpec "C" "invariantSum" "1:1:1" "forge-config: fuzz.invariant.runs = 5"%string]
    fuzz_config_default invariant_config_default =
  Err (mkInlineError "C:invariantSum" (InvalidConfigProperty "invariant.runs")).
Proof. vm_compute. reflexivity. Qed.
Example default_profile_accepted :
  (match test_options_from "default" ["default"]%string [mkNatSpec "C" "invariantSum" "1:1:1" "forge-config: default.invariant.runs = 5"%string]
     fuzz_config_default invariant_config_default with Ok o => iv_runs (invariant_config o "C" "invariantSum") | Err _ => 0 end) = 5.
Proof. vm_compute. reflexivity. Qed.
